(* ===== verification/_CoqProject ===== *)
-Q . S2P
Prelude.v
Memory.v
Riscv.v
Spinlock.v
Core.v
CString.v
Kalloc.v
Vm.v
PageTable.v
VmProof.v
Uvm.v
UvmOps.v
UserCopy.v
VmFree.v
VmExamples.v
Sleeplock.v
DList.v
BufCache.v
Bio.v
BioProof.v
BioSpec.v
Log.v
Crash.v
LogProof.v
LogSafety.v
Sys.v
Fs.v
Console.v
File.v
Proc.v
Asm.v
AsmProof.v
AsmInit.v
Exec.v
Syscall.v
Trap.v
ProcMem.v
ProcProof.v
Fork.v
Wait.v
FsBlock.v
FsMap.v
FsFile.v
FsSpec.v
Icache.v
FsDir.v
FsExamples.v
ProcExamples.v
Mkfs.v
MkfsProof.v
MkfsInv.v
MkfsImage.v
Pipe.v
Grep.v
User.v
Ulib.v
UPrintf.v
UProgs.v
UText.v
Primes.v
Xargs.v
UFind.v
UExamples.v
Uthread.v
Sh.v
ShPrint.v
ShRun.v
Nsh.v
Virtio.v
VirtioSpec.v
VirtioRefine.v
Buddy.v
BuddyTree.v
BuddyProof.v
BuddyOps.v
BuddyInit.v
BuddySpec.v
Umalloc.v
UmallocProof.v
UmallocSpec.v
