(* ===== verification/Prelude.v ===== *)
(** * A verification development for the xv6 (RISC-V, 6.S081) kernel

    xv6 is a small Unix: a kernel in C for a RISC-V machine with several harts, and user
    programs.  Kernel code runs in processes and in interrupt handlers; it allocates
    physical pages, builds page tables, keeps a file system on a disk behind a buffer cache
    and a write-ahead log, and serves the system calls of user programs.  This development
    translates the sources under src/ into executable Rocq functions and proves what makes
    them correct.

    ** How code is modelled

    A C function is a computation of the monad [M X] below: it takes the state [X] and
    returns a value and a state, or stops with a [fault]: a panic, a process that has gone
    to sleep, a hart that spins on a lock, undefined behaviour, or a loop whose bound was
    too small.  [runs m x Q] says that [m] returns and [Q] holds, [halts] that it stops in a
    certain way.  Kernel components run on [kern * S]: [kern] holds this hart's cpu and the
    process table, [S] the component's own state.  Locks are reached through lenses, and
    every critical section runs the code of [acquire] and [release].  [sleep] ends the run
    of the process: a theorem about a function that may sleep says in which state it does,
    and code that another process or an interrupt continues is a step of its own (Spinlock,
    VirtioSpec).  Machine integers are values of [Z] with the wrap-around written out
    ([u32], [u64], [i32]); a pointer to a table entry is its index, a pointer to memory its
    address; physical memory is a function from addresses to bytes, and page tables, free
    lists and trap frames live in it; disk structures are read and written at their byte
    offsets.

    ** Files

    Foundations.
    - Prelude: the monad, its judgements, arrays, machine integers, tactics.
    - Memory, Riscv, CString: byte memory and little-endian words; the macros of
      kernel/riscv.h, kernel/memlayout.h and kernel/param.h; kernel/string.c.
    - Spinlock: kernel/spinlock.c, sequentially and instruction by instruction on several
      harts.
    - Core: the process table, [sched], [sleep], [wakeup] of kernel/proc.c.
    - Sleeplock: kernel/sleeplock.c.  DList: the circular lists of kernel/bio.c and
      kernel/list.c.

    Memory.
    - Kalloc: kernel/kalloc.c.
    - Buddy: kernel/buddy.c and kernel/list.c, an allocator the kernel links but does not
      call.  BuddyTree: its blocks as a tree.  BuddyProof: the bit vectors and free lists
      stand for the tree.  BuddyOps: bd_malloc and bd_free.  BuddyInit: bd_init. BuddySpec:
      the contract for clients and the refinement.
    - Vm: kernel/vm.c.  PageTable: what page tables mean.  VmProof, Uvm, UvmOps, UserCopy,
      VmFree: proofs.  VmExamples: concrete address spaces.

    Disk.
    - Virtio: kernel/virtio_disk.c.  VirtioSpec: the driver, the device and the processes as
      a step relation, and an abstract disk. VirtioRefine: the simulation.
    - BufCache: the interface of the buffer cache, a class.  Bio: kernel/bio.c. BioProof:
      the instance of the class.  BioSpec: refinement.  Bio takes [virtio_disk_rw] as a
      transfer that is complete when it returns, which is what the abstract disk of
      VirtioSpec gives a process between its start and its end.
    - Log: kernel/log.c, on any buffer cache.  Crash: crashes and recovery on disk contents.
      LogProof, LogSafety: proofs, and a machine after boot.
    - Mkfs: mkfs/mkfs.c, the host program that builds the disk image.  MkfsProof, MkfsInv:
      its invariant.  MkfsImage: the image is a file system as Fs and its proofs expect it.

    File system, processes, devices.
    - Sys: the kernel's global state.  Fs: kernel/fs.c.  Console: kernel/uart.c,
      kernel/printf.c, kernel/console.c.  File: kernel/file.c and kernel/pipe.c. Proc:
      kernel/proc.c.  Exec: kernel/exec.c.  Syscall: kernel/syscall.c, kernel/sysproc.c,
      kernel/sysfile.c, and the registry of locks.  Trap: kernel/trap.c, kernel/plic.c,
      kernel/main.c, kernel/start.c.
    - Asm: kernel/swtch.S, kernel/trampoline.S, kernel/kernelvec.S, kernel/entry.S and
      user/usys.S as lists of instructions, and the encodings user/initcode.S uses.  AsmProof:
      saving and restoring registers. AsmInit: the timer interrupt, the entry point, types,
      the first program.
    - ProcMem, ProcProof: the memory a process owns.  Fork, Wait: fork, wait and growproc.
      ProcExamples: two processes.
    - FsBlock, FsMap, FsFile, FsSpec, Icache, FsDir: proofs about the file system inside a
      transaction.  FsExamples: a small file system.
    - Pipe: pipes as queues, and a process with user memory.

    User programs.
    - User: the system calls as a program sees them: descriptors, files by path, pipes, a
      console.  A process that waits for its child at once is one computation with it; forks
      succeed.
    - Ulib: user/ulib.c.  UPrintf: user/printf.c.  Umalloc: user/umalloc.c.  UmallocProof:
      its list of free blocks. UmallocSpec: the contract of malloc and free, and the
      refinement.
    - Grep: the matcher and the lines of user/grep.c.  UProgs: cat, wc, grep, echo, kill,
      ln, mkdir, rm and sleep (the files of these names in user/).  UText: what cat, wc,
      grep and echo print. UFind: user/ls.c and user/find.c.  Primes: user/primes.c.  Xargs:
      user/xargs.c.  UExamples: a tree of files.  Uthread: user/uthread.c.
    - Sh: the parser of user/sh.c; it ends and cuts words right.  ShPrint: it reads back the
      text of commands. ShRun: runcmd and main as trees of system calls, and their effect on
      file descriptors. Nsh: user/nsh.c in the same way.

    ** What the theorems show

    - Locks: mutual exclusion of spin locks under every interleaving of instructions
      (Spinlock).
    - Memory: the page allocator is a pool of pages (Kalloc); the buddy allocator grants
      aligned disjoint ranges and refuses only when none is left (BuddySpec); page-table
      operations change exactly the translations they should, address spaces neither lose
      nor share pages, copies to and from user memory reach only what the user may reach
      (VmProof, UvmOps, UserCopy, VmFree).
    - Processes: fork makes a twin with its own memory or changes nothing; wait gives back
      everything an exited child had; growproc keeps to whole pages (Fork, Wait).  A switch
      to a saved context resumes it, traps give back the registers they found, and the first
      program executes /init (AsmProof, AsmInit).
    - Disk: the driver carries out each request once under every interleaving with the
      device (VirtioRefine); the buffer cache refines a store of blocks (BioSpec); a
      transaction of the log survives crashes at any point, also during recovery, as a whole
      or not at all (LogSafety).
    - Files: allocation of blocks, reading and writing through direct and indirect blocks,
      directories as maps, uniqueness in the inode cache, the number of blocks a write can
      log (FsSpec, FsDir, Icache).  mkfs builds a file system that has these forms, with
      every file under its name (MkfsImage).
    - Pipes are bounded queues (Pipe).
    - grep's matcher decides the language of its patterns (Grep); cat, wc, grep, echo, ls
      and find print what they should of the files they are given, in whatever pieces they
      read them, and close all they open (UText, UFind); primes prints the primes (Primes);
      xargs builds its commands from the lines of its input (Xargs); numbers printed are
      read back (UPrintf).
    - The shell's parser always ends (Sh) and inverts printing (ShPrint); from the text of a
      command both shells start the programs it means, with their redirections and pipes
      (ShRun, Nsh); malloc hands out ranges that are apart and fails only when no range is
      long enough and the kernel refuses more memory (UmallocSpec).
    - Error paths: what happens without free buffers, blocks, inodes or memory, and defects
      of the code stated as theorems (LogSafety, UvmOps, BuddySpec, UmallocSpec, MkfsImage,
      UFind, Nsh, Uthread).

    ** Bounds and fuel

    Loops whose end the code does not bound by a counter take fuel: [loop n].  The number is
    in each case a bound the code cannot exceed (the length of a table, a buffer or an
    address range, the number of descriptors), and the theorems about these functions say
    that they return, so the fuel is enough.  [firstk] of Buddy has fuel for the 60
    doublings of a 64-bit size; for the sizes at which it does not return, the theorem is
    about every fuel.  The loops of Umalloc have fuel for two rounds over as many headers as
    memory can hold.  The theorems about the buddy allocator take ranges of more than 2 KiB
    and less than 2 GiB, whose offsets fit an [int].  Loops around [sleep] have fuel for one
    round, because [sleep] ends the run.  User programs take a bound on the number of reads
    of a file, the slots of a directory or the levels of directories, and the theorems say
    how large it has to be.  [acquire] of a taken lock stops with [Spinning]; that some
    other hart releases it is the subject of Spinlock's interleaving, not of the sequential
    theorems.

    ** Not modelled

    - kernel/ramdisk.c, which is not built and does not fit this kernel's struct buf.
    - user/init.c, user/zombie.c and user/pingpong.c, which are several processes at the
      same time or run for ever, and the test programs of user/.
    - Privilege modes, the interrupt hardware below kernel/plic.c and the device behind
      kernel/uart.c; the page table the assembly routines run on is a parameter.
    - In user programs: failing forks, and files that other processes change meanwhile.
    - The memory model: statements execute one after the other on each hart; the
      interleaving of Spinlock is sequentially consistent, and fences have no effect. *)

From stdpp Require Export base tactics list numbers strings relations.
From Stdlib Require Export ZArith Lia.

#[global] Open Scope Z_scope.

#[global] Arguments Z.land : simpl never.
#[global] Arguments Z.lor : simpl never.
#[global] Arguments Z.lnot : simpl never.
#[global] Arguments Z.testbit : simpl never.
#[global] Arguments Z.shiftl : simpl never.
#[global] Arguments Z.shiftr : simpl never.
#[global] Arguments Z.pow : simpl never.
#[global] Arguments Z.div : simpl never.
#[global] Arguments Z.modulo : simpl never.
#[global] Arguments Z.add : simpl never.
#[global] Arguments Z.sub : simpl never.
#[global] Arguments Z.mul : simpl never.
#[global] Arguments Z.of_nat : simpl never.
#[global] Arguments Z.to_nat : simpl never.
#[global] Arguments Z.eqb : simpl nomatch.

(** ** The kernel monad

    Kernel code is run on an explicit state of type [X].  A computation either
    returns ([Ret]) or stops ([Stop]) in the state it had reached: in a
    [panic], asleep on a channel (the thread has given up the cpu), spinning
    on a lock another cpu holds, in behaviour C leaves undefined (an access
    outside an array), because the bound given to a loop was too small, or,
    a user program, by calling [exit]. *)
Inductive fault :=
| Panic (msg : string)
| Asleep
| Spinning
| Undefined (why : string)
| NoFuel
| Exited (code : Z).

Inductive outcome (X A : Type) :=
| Ret (a : A) (x : X)
| Stop (f : fault) (x : X).
Arguments Ret {X A} a x.
Arguments Stop {X A} f x.

Definition M (X A : Type) : Type := X → outcome X A.

#[global] Instance M_ret {X} : MRet (M X) := λ A a x, Ret a x.
#[global] Instance M_bind {X} : MBind (M X) := λ A B k m x,
  match m x with
  | Ret a x' => k a x'
  | Stop f x' => Stop f x'
  end.

Definition stop {X A} (f : fault) : M X A := λ x, Stop f x.
Definition panic {X A} (msg : string) : M X A := stop (Panic msg).
Definition gets {X A} (f : X → A) : M X A := λ x, Ret (f x) x.
Definition modify {X} (f : X → X) : M X unit := λ x, Ret tt (f x).
Definition when {X} (b : bool) (m : M X unit) : M X unit :=
  if b then m else mret tt.

(** [loop fuel body a] runs [body] until it leaves the loop ([inr]); [inl]
    is the next iteration with the loop's local variables. *)
Fixpoint loop {X A R} (fuel : nat) (body : A → M X (A + R)) (a : A) : M X R :=
  match fuel with
  | O => stop NoFuel
  | S fuel' =>
      r ← body a;
      match r with
      | inl a' => loop fuel' body a'
      | inr r => mret r
      end
  end.

(** [for(i = lo; i < lo + n; i++) body(i)], with no early exit. *)
Fixpoint for_range {X} (n : nat) (lo : Z) (body : Z → M X unit) : M X unit :=
  match n with
  | O => mret tt
  | S n' => body lo;; for_range n' (lo + 1) body
  end.

(** A lens gives the place of a component inside a larger state. *)
Record lens (X T : Type) := Lens { view : X → T; over : T → X → X }.
Arguments Lens {X T} _ _.
Arguments view {X T} _ _.
Arguments over {X T} _ _ _.

Definition zoom {X T A} (l : lens X T) (m : M T A) : M X A := λ x,
  match m (view l x) with
  | Ret a t => Ret a (over l t x)
  | Stop f t => Stop f (over l t x)
  end.

Definition lens_comp {X T U} (l : lens X T) (l' : lens T U) : lens X U :=
  Lens (λ x, view l' (view l x)) (λ u x, over l (over l' u (view l x)) x).

(** [runs m x Q]: from state [x], [m] returns (no panic, no sleeping, no
    undefined behaviour, enough fuel) and its result satisfies [Q]. *)
Definition runs {X A} (m : M X A) (x : X) (Q : A → X → Prop) : Prop :=
  match m x with
  | Ret a x' => Q a x'
  | Stop _ _ => False
  end.

(** [stops m x f]: from state [x], [m] stops with fault [f]. *)
Definition stops {X A} (m : M X A) (x : X) (f : fault) : Prop :=
  match m x with
  | Ret _ _ => False
  | Stop f' _ => f' = f
  end.

(** [halts m x f Q]: from [x], [m] stops with [f] in a state satisfying [Q]. *)
Definition halts {X A} (m : M X A) (x : X) (f : fault) (Q : X → Prop) : Prop :=
  match m x with
  | Ret _ _ => False
  | Stop f' x' => f' = f ∧ Q x'
  end.

Section runs.
Context {X : Type}.

Lemma runs_ret {A} (a : A) (x : X) Q : Q a x → runs (mret a) x Q.
Proof. done. Qed.

Lemma runs_bind {A B} (m : M X A) (k : A → M X B) x Q :
  runs m x (λ a x', runs (k a) x' Q) → runs (m ≫= k) x Q.
Proof. unfold runs, mbind, M_bind. by destruct (m x). Qed.

Lemma runs_bind_inv {A B} (m : M X A) (k : A → M X B) x Q :
  runs (m ≫= k) x Q → runs m x (λ a x', runs (k a) x' Q).
Proof. unfold runs, mbind, M_bind. by destruct (m x). Qed.

Lemma runs_mono {A} (m : M X A) x (P Q : A → X → Prop) :
  runs m x P → (∀ a x', P a x' → Q a x') → runs m x Q.
Proof. unfold runs. destruct (m x); naive_solver. Qed.

Lemma runs_conj {A} (m : M X A) x (P Q : A → X → Prop) :
  runs m x P → runs m x Q → runs m x (λ a x', P a x' ∧ Q a x').
Proof. unfold runs. by destruct (m x). Qed.

Lemma runs_gets {A} (f : X → A) x Q : Q (f x) x → runs (gets f) x Q.
Proof. done. Qed.

Lemma runs_modify (f : X → X) x Q : Q tt (f x) → runs (modify f) x Q.
Proof. done. Qed.

Lemma runs_if {A} (b : bool) (m1 m2 : M X A) x Q :
  (b = true → runs m1 x Q) → (b = false → runs m2 x Q) →
  runs (if b then m1 else m2) x Q.
Proof. destruct b; auto. Qed.

Lemma runs_when (b : bool) (m : M X unit) x Q :
  (b = true → runs m x Q) → (b = false → Q tt x) → runs (when b m) x Q.
Proof. destruct b; intros H1 H2; [by apply H1|by apply H2]. Qed.

Lemma runs_zoom {T A} (l : lens X T) (m : M T A) x Q :
  runs m (view l x) (λ a t, Q a (over l t x)) → runs (zoom l m) x Q.
Proof. unfold runs, zoom. by destruct (m (view l x)). Qed.

(** A loop returns when each iteration preserves the invariant and
    decreases a measure that starts below the fuel. *)
Lemma runs_loop {A R} (body : A → M X (A + R)) (I : A → X → Prop)
    (meas : A → X → nat) (Q : R → X → Prop) fuel a x :
  (∀ a x, I a x → runs (body a) x (λ r x',
      match r with
      | inl a' => I a' x' ∧ (meas a' x' < meas a x)%nat
      | inr r => Q r x'
      end)) →
  I a x → (meas a x < fuel)%nat → runs (loop fuel body a) x Q.
Proof.
  intros Hbody. revert a x. induction fuel as [|fuel IH]; intros a x HI Hm; [lia|].
  simpl. apply runs_bind. eapply runs_mono; [by apply Hbody|].
  intros [a'|r] x'; simpl; [|done]. intros [HI' Hlt]. apply IH; [done|lia].
Qed.

(** The same with a bound on the rounds left that the invariant keeps. *)
Lemma runs_loop_nat {A R} (body : A → M X (A + R)) (I : nat → A → X → Prop) (Q : R → X → Prop) fuel n a x :
  (∀ n a x, I n a x → runs (body a) x (λ r x',
      match r with
      | inl a' => ∃ n', (n' < n)%nat ∧ I n' a' x'
      | inr r => Q r x'
      end)) →
  I n a x → (n < fuel)%nat → runs (loop fuel body a) x Q.
Proof.
  intros Hbody. revert n a x. induction fuel as [|fuel IH]; intros n a x HI Hn; [lia|]. cbn [loop].
  apply runs_bind. eapply runs_mono; [by apply (Hbody n)|]. intros [a'|r] x' H; [|by apply runs_ret].
  destruct H as (n' & Hlt & HI'). apply (IH n'); [done|lia].
Qed.

Lemma runs_for_range (body : Z → M X unit) (I : Z → X → Prop) n lo x Q :
  (∀ i x, lo ≤ i < lo + Z.of_nat n → I i x → runs (body i) x (λ _, I (i + 1))) →
  I lo x → (∀ x, I (lo + Z.of_nat n) x → Q tt x) →
  runs (for_range n lo body) x Q.
Proof.
  revert lo x. induction n as [|n IH]; intros lo x Hbody HI HQ; simpl.
  - apply runs_ret, HQ. by rewrite Z.add_0_r.
  - apply runs_bind. eapply runs_mono; [apply Hbody; [lia|done]|].
    intros [] x' HI'. apply IH.
    + intros i y Hi. apply Hbody. lia.
    + done.
    + intros y Hy. apply HQ. replace (lo + Z.of_nat (S n)) with (lo + 1 + Z.of_nat n) by lia.
      done.
Qed.

Lemma runs_eq {A} (m : M X A) x a x' Q : m x = Ret a x' → Q a x' → runs m x Q.
Proof. unfold runs. by intros ->. Qed.

Lemma stops_bind_l {A B} (m : M X A) (k : A → M X B) x f :
  stops m x f → stops (m ≫= k) x f.
Proof. unfold stops, mbind, M_bind. by destruct (m x). Qed.

Lemma stops_bind_r {A B} (m : M X A) (k : A → M X B) x f :
  runs m x (λ a x', stops (k a) x' f) → stops (m ≫= k) x f.
Proof. unfold runs, stops, mbind, M_bind. by destruct (m x). Qed.

Lemma halts_mono {A} (m : M X A) x f (P Q : X → Prop) :
  halts m x f P → (∀ x', P x' → Q x') → halts m x f Q.
Proof. unfold halts. destruct (m x); naive_solver. Qed.

Lemma halts_bind_l {A B} (m : M X A) (k : A → M X B) x f Q :
  halts m x f Q → halts (m ≫= k) x f Q.
Proof. unfold halts, mbind, M_bind. by destruct (m x). Qed.

Lemma halts_bind_r {A B} (m : M X A) (k : A → M X B) x f Q :
  runs m x (λ a x', halts (k a) x' f Q) → halts (m ≫= k) x f Q.
Proof. unfold runs, halts, mbind, M_bind. by destruct (m x). Qed.

Lemma stops_loop {A R} (body : A → M X (A + R)) fuel a x f :
  (0 < fuel)%nat → stops (body a) x f → stops (loop fuel body a) x f.
Proof. intros Hf H. destruct fuel; [lia|]. by apply stops_bind_l. Qed.

(** A loop whose iterations go on until one stops with [f]. *)
Lemma halts_loop {A R} (body : A → M X (A + R)) (I : A → X → Prop) (meas : A → X → nat) f Q fuel a x :
  (∀ a x, I a x → runs (body a) x (λ r x', ∃ a', r = inl a' ∧ I a' x' ∧ (meas a' x' < meas a x)%nat) ∨ halts (body a) x f Q) →
  I a x → (meas a x < fuel)%nat → halts (loop fuel body a) x f Q.
Proof.
  intros Hbody. revert a x. induction fuel as [|fuel IH]; intros a x HI Hm; [lia|].
  cbn. destruct (Hbody a x HI) as [Hr|Hh]; [|by apply halts_bind_l].
  apply halts_bind_r. eapply runs_mono; [exact Hr|]. intros r x' (a' & -> & HI' & Hlt). apply IH; [done|lia].
Qed.
End runs.

(** [finishes m x Q F]: [m] returns and [Q] holds, or it stops and [F] holds. *)
Definition finishes {X A} (m : M X A) (x : X) (Q : A → X → Prop) (F : fault → X → Prop) : Prop :=
  match m x with Ret a x' => Q a x' | Stop f x' => F f x' end.

Lemma finishes_bind {X A B} (m : M X A) (f : A → M X B) x Q F : runs m x (λ a x', finishes (f a) x' Q F) → finishes (m ≫= f) x Q F.
Proof. unfold runs, finishes, mbind, M_bind. by destruct (m x). Qed.

Lemma finishes_bind_l {X A B} (m : M X A) (f : A → M X B) x Q F : finishes m x (λ a x', finishes (f a) x' Q F) F → finishes (m ≫= f) x Q F.
Proof. unfold finishes, mbind, M_bind. by destruct (m x). Qed.

Lemma finishes_mono {X A} (m : M X A) x (P Q : A → X → Prop) (F G : fault → X → Prop) :
  finishes m x P F → (∀ a x', P a x' → Q a x') → (∀ f x', F f x' → G f x') → finishes m x Q G.
Proof. unfold finishes. destruct (m x); auto. Qed.

Lemma finishes_runs {X A} (m : M X A) x Q F : runs m x Q → finishes m x Q F.
Proof. unfold runs, finishes. by destruct (m x). Qed.

Lemma finishes_halts {X A} (m : M X A) x f P Q F : halts m x f P → (∀ x', P x' → F f x') → finishes m x Q F.
Proof. unfold halts, finishes. destruct (m x); [done|]. intros [-> HP] H. by apply H. Qed.

(** ** Machine integers

    A [w]-bit value is a [Z]; arithmetic that C reduces modulo [2^w] is
    wrapped explicitly. *)
Definition u8 (x : Z) : Z := x mod 2 ^ 8.
Definition u16 (x : Z) : Z := x mod 2 ^ 16.
Definition u32 (x : Z) : Z := x mod 2 ^ 32.
Definition u64 (x : Z) : Z := x mod 2 ^ 64.
Definition i16 (x : Z) : Z := (x + 2 ^ 15) mod 2 ^ 16 - 2 ^ 15.
Definition i32 (x : Z) : Z := (x + 2 ^ 31) mod 2 ^ 32 - 2 ^ 31.

Lemma u32_small x : 0 ≤ x < 2 ^ 32 → u32 x = x.
Proof. intros. by apply Z.mod_small. Qed.
Lemma u64_small x : 0 ≤ x < 2 ^ 64 → u64 x = x.
Proof. intros. by apply Z.mod_small. Qed.
Lemma i32_small x : - 2 ^ 31 ≤ x < 2 ^ 31 → i32 x = x.
Proof. intros. unfold i32. rewrite Z.mod_small; lia. Qed.
Lemma u32_range x : 0 ≤ u32 x < 2 ^ 32.
Proof. by apply Z.mod_pos_bound. Qed.
Lemma u64_range x : 0 ≤ u64 x < 2 ^ 64.
Proof. by apply Z.mod_pos_bound. Qed.

(** ** Arrays indexed by C integers *)
Definition aget {A} `{Inhabited A} (l : list A) (i : Z) : A := l !!! Z.to_nat i.
Definition aset {A} (l : list A) (i : Z) (v : A) : list A := <[Z.to_nat i := v]> l.
Definition alen {A} (l : list A) : Z := Z.of_nat (length l).

Section arrays.
Context {A : Type} `{Inhabited A}.
Implicit Types l : list A.

Lemma alen_aset l i v : alen (aset l i v) = alen l.
Proof. unfold alen, aset. by rewrite length_insert. Qed.

Lemma aget_aset_eq l i v : 0 ≤ i < alen l → aget (aset l i v) i = v.
Proof.
  unfold aget, aset, alen. intros Hi.
  rewrite list_lookup_total_insert_eq; [done|lia].
Qed.

Lemma aget_aset_ne l i j v :
  0 ≤ i → 0 ≤ j → i ≠ j → aget (aset l i v) j = aget l j.
Proof.
  unfold aget, aset. intros ???. rewrite list_lookup_total_insert_ne; [done|lia].
Qed.

Lemma aset_aget l i : 0 ≤ i < alen l → aset l i (aget l i) = l.
Proof.
  unfold aset, aget, alen. intros Hi. apply list_insert_id.
  apply list_lookup_lookup_total_lt. lia.
Qed.

Lemma aset_aset l i v w : aset (aset l i v) i w = aset l i w.
Proof. unfold aset. apply list_insert_insert_eq. Qed.

Lemma aget_lookup l i v : l !! Z.to_nat i = Some v → aget l i = v.
Proof. intros Hl. unfold aget. by apply list_lookup_total_correct. Qed.
End arrays.

Create HintDb kernel.
Create Rewrite HintDb kernel.
#[export] Hint Rewrite @alen_aset : kernel.

(** ** Proof automation *)

(** [kstep] symbolically executes the next statement of a [runs] goal. *)
Ltac kstep :=
  lazymatch goal with
  | |- runs (mbind _ _) _ _ => apply runs_bind
  | |- runs (mret _) _ _ => apply runs_ret
  | |- runs (gets _) _ _ => apply runs_gets
  | |- runs (modify _) _ _ => apply runs_modify
  | |- runs (zoom _ _) _ _ => apply runs_zoom
  | |- runs (if true then ?m else _) ?x ?Q => change (runs m x Q)
  | |- runs (if false then _ else ?m) ?x ?Q => change (runs m x Q)
  | |- runs (if ?b then _ else _) _ _ =>
      first [ apply (runs_if b) | destruct b eqn:? ]
  | |- runs (when _ _) _ _ => apply runs_when
  end.

Tactic Notation "kapply" uconstr(H) := eapply runs_mono; [eapply H|].

(** Resolve the tests whose value is known. *)
Ltac kif :=
  cbn [negb andb orb];
  repeat lazymatch goal with
  | |- runs (if true then ?m else _) ?x ?Q => change (runs m x Q)
  | |- runs (if false then _ else ?m) ?x ?Q => change (runs m x Q)
  | |- runs (if ?b then _ else _) _ _ =>
      match goal with H : b = _ |- _ => rewrite H; cbn [negb andb orb] end
  end.

(** [kcall H]: execute a call by its specification [H]. *)
Tactic Notation "kcall" uconstr(H) :=
  kif; try (lazymatch goal with |- runs (mbind _ _) _ _ => apply runs_bind end);
  eapply runs_mono; [apply H|].

(** The value and the state a computation ends with. *)
Definition result {X A} (d : A) (m : M X A) (x : X) : A := match m x with Ret a _ => a | Stop _ _ => d end.
Definition state {X A} (m : M X A) (x : X) : X := match m x with Ret _ x' => x' | Stop _ x' => x' end.

Lemma runs_state {X} (m : M X unit) x Q : runs m x Q → m x = Ret tt (state m x).
Proof. unfold runs, state. by destruct (m x) as [[]|]. Qed.
Lemma runs_result {X A} (m : M X A) x y Q d : y = state m x → runs m x Q → Q (result d m x) y.
Proof. unfold runs, result, state. intros ->. by destruct (m x). Qed.

(** Turn boolean tests of the code into arithmetic facts. *)
Ltac zify_bool :=
  repeat match goal with
  | H : (_ =? _) = true |- _ => apply Z.eqb_eq in H
  | H : (_ =? _) = false |- _ => apply Z.eqb_neq in H
  | H : (_ <? _) = true |- _ => apply Z.ltb_lt in H
  | H : (_ <? _) = false |- _ => apply Z.ltb_ge in H
  | H : (_ <=? _) = true |- _ => apply Z.leb_le in H
  | H : (_ <=? _) = false |- _ => apply Z.leb_gt in H
  | H : (_ && _) = true |- _ => apply andb_true_iff in H; destruct H
  | H : (_ || _) = false |- _ => apply orb_false_iff in H; destruct H
  | H : negb _ = true |- _ => apply negb_true_iff in H
  | H : negb _ = false |- _ => apply negb_false_iff in H
  | H : bool_decide _ = true |- _ => apply bool_decide_eq_true_1 in H
  | H : bool_decide _ = false |- _ => apply bool_decide_eq_false_1 in H
  end.

(** [lia] with division and remainder by their defining equations. *)
Ltac dlia := Z.to_euclidean_division_equations; lia.

(** Unfold the operation at the head of a [runs] goal. *)
Ltac kunfold :=
  lazymatch goal with
  | |- runs ?m ?x ?Q => let m' := eval red in m in change (runs m' x Q)
  end.

(** Execute straight-line statements as far as possible. *)
Ltac kgo :=
  cbn;
  repeat (lazymatch goal with
  | |- runs (mbind _ _) _ _ => apply runs_bind
  | |- runs (mret _) _ _ => apply runs_ret
  | |- runs (gets _) _ _ => apply runs_gets
  | |- runs (modify _) _ _ => apply runs_modify
  | |- runs (when true _) _ _ => unfold when
  | |- runs (when false _) _ _ => unfold when
  end; cbn).
