(* ===== verification/Memory.v ===== *)
(** * Byte memory, little-endian words and byte arrays

    Physical memory is a total function from addresses to bytes.  Words are
    read and written little-endian, as the RISC-V does; the same encoding is
    used for the C structures that live inside disk blocks. *)

From S2P Require Import Prelude.

Definition mem := Z → Z.

Definition mset (m : mem) (a v : Z) : mem := λ x, if x =? a then v else m x.

(** [n] bytes of [v], least significant first. *)
Fixpoint le_enc (n : nat) (v : Z) : list Z :=
  match n with
  | O => []
  | S n' => v mod 256 :: le_enc n' (v / 256)
  end.

Fixpoint le_dec (bs : list Z) : Z :=
  match bs with
  | [] => 0
  | b :: bs' => b + 256 * le_dec bs'
  end.

Fixpoint mread (m : mem) (a : Z) (n : nat) : list Z :=
  match n with
  | O => []
  | S n' => m a :: mread m (a + 1) n'
  end.

Fixpoint mwrite (m : mem) (a : Z) (bs : list Z) : mem :=
  match bs with
  | [] => m
  | b :: bs' => mwrite (mset m a b) (a + 1) bs'
  end.

Definition load64 (m : mem) (a : Z) : Z := le_dec (mread m a 8).
Definition store64 (m : mem) (a v : Z) : mem := mwrite m a (le_enc 8 v).
Definition load32 (m : mem) (a : Z) : Z := le_dec (mread m a 4).
Definition store32 (m : mem) (a v : Z) : mem := mwrite m a (le_enc 4 v).

#[global] Arguments load64 : simpl never.
#[global] Arguments store64 : simpl never.
#[global] Arguments load32 : simpl never.
#[global] Arguments store32 : simpl never.

Definition is_byte (b : Z) : Prop := 0 ≤ b < 256.
Definition mem_ok (m : mem) : Prop := ∀ a, is_byte (m a).

(** ** Words *)

Lemma length_le_enc n v : length (le_enc n v) = n.
Proof. revert v. induction n; intros; simpl; [done|]. by rewrite IHn. Qed.

Lemma le_enc_bytes n v : Forall is_byte (le_enc n v).
Proof.
  revert v. induction n as [|n IH]; intros v; simpl; constructor; [|done].
  by apply Z.mod_pos_bound.
Qed.

Lemma le_dec_enc n v : le_dec (le_enc n v) = v mod 2 ^ (8 * Z.of_nat n).
Proof.
  revert v. induction n as [|n IH]; intros v; simpl le_enc; simpl le_dec.
  - by rewrite Z.mod_1_r.
  - rewrite IH. replace (8 * Z.of_nat (S n)) with (8 + 8 * Z.of_nat n) by lia.
    rewrite Z.pow_add_r by lia. change (2 ^ 8) with 256.
    rewrite Z.rem_mul_r by lia. done.
Qed.

Lemma le_dec_range bs :
  Forall is_byte bs → 0 ≤ le_dec bs < 2 ^ (8 * Z.of_nat (length bs)).
Proof.
  induction 1 as [|b bs Hb _ IH]; simpl; [lia|]. unfold is_byte in Hb.
  replace (8 * Z.of_nat (S (length bs))) with (8 + 8 * Z.of_nat (length bs)) by lia.
  rewrite Z.pow_add_r by lia. change (2 ^ 8) with 256. lia.
Qed.

Lemma le_enc_dec bs : Forall is_byte bs → le_enc (length bs) (le_dec bs) = bs.
Proof.
  induction 1 as [|b bs Hb _ IH]; simpl; [done|]. unfold is_byte in Hb.
  rewrite (Z.mul_comm 256), Z.mod_add, Z.mod_small, Z.div_add, Z.div_small by lia.
  by rewrite Z.add_0_l, IH.
Qed.

(** ** Reading and writing ranges *)

Lemma mset_eq m a v : mset m a v a = v.
Proof. unfold mset. by rewrite Z.eqb_refl. Qed.

Lemma mset_ne m a v x : x ≠ a → mset m a v x = m x.
Proof. intros. unfold mset. by rewrite (proj2 (Z.eqb_neq x a)). Qed.

Lemma length_mread m a n : length (mread m a n) = n.
Proof. revert a. induction n; intros; simpl; [done|]. by rewrite IHn. Qed.

Lemma mread_ext m m' a n :
  (∀ x, a ≤ x < a + Z.of_nat n → m x = m' x) → mread m a n = mread m' a n.
Proof.
  revert a. induction n as [|n IH]; intros a Heq; simpl; [done|].
  rewrite Heq by lia. f_equal. apply IH. intros. apply Heq. lia.
Qed.

Lemma mread_bytes m a n : mem_ok m → Forall is_byte (mread m a n).
Proof. intros Hm. revert a. induction n; intros; simpl; constructor; auto. Qed.

Lemma mread_lookup m a n i : (i < n)%nat → mread m a n !! i = Some (m (a + Z.of_nat i)).
Proof.
  revert a i. induction n as [|n IH]; intros a i Hi; [lia|]. destruct i as [|i]; simpl.
  - by rewrite Z.add_0_r.
  - rewrite IH by lia. do 2 f_equal. lia.
Qed.

Lemma mread_app m a n k : mread m a (n + k) = mread m a n ++ mread m (a + Z.of_nat n) k.
Proof.
  revert a. induction n as [|n IH]; intros a; simpl.
  - by rewrite Z.add_0_r.
  - rewrite IH. do 3 f_equal. lia.
Qed.

Lemma mwrite_out m a bs x :
  x < a ∨ a + Z.of_nat (length bs) ≤ x → mwrite m a bs x = m x.
Proof.
  revert m a. induction bs as [|b bs IH]; intros m a Hx; simpl in *; [done|].
  rewrite IH by lia. apply mset_ne. lia.
Qed.

Lemma mwrite_in m a bs i b :
  bs !! i = Some b → mwrite m a bs (a + Z.of_nat i) = b.
Proof.
  revert m a i. induction bs as [|c bs IH]; intros m a i Hi; [done|].
  destruct i as [|i]; simpl in *.
  - injection Hi as ->. rewrite Z.add_0_r, mwrite_out by lia. apply mset_eq.
  - replace (a + Z.of_nat (S i)) with (a + 1 + Z.of_nat i) by lia. by apply IH.
Qed.

Lemma mread_mwrite m a bs : mread (mwrite m a bs) a (length bs) = bs.
Proof.
  apply list_eq. intros i. destruct (decide (i < length bs)%nat) as [Hi|Hi].
  - rewrite mread_lookup by done. destruct (lookup_lt_is_Some_2 bs i Hi) as [b Hb].
    rewrite Hb. f_equal. by apply mwrite_in.
  - rewrite !lookup_ge_None_2; [done|lia|rewrite length_mread; lia].
Qed.

Lemma mwrite_ok m a bs : mem_ok m → Forall is_byte bs → mem_ok (mwrite m a bs).
Proof.
  intros Hm Hbs. revert m a Hm. induction Hbs as [|b bs Hb _ IH]; intros m a Hm; simpl; [done|].
  apply IH. intros x. unfold mset. case_match; [done|apply Hm].
Qed.

Lemma load64_ext m m' a :
  (∀ x, a ≤ x < a + 8 → m x = m' x) → load64 m a = load64 m' a.
Proof. intros Heq. unfold load64. f_equal. by apply mread_ext. Qed.

Lemma load64_store64_eq m a v : load64 (store64 m a v) a = u64 v.
Proof.
  unfold load64, store64. rewrite <- (length_le_enc 8 v) at 1.
  rewrite mread_mwrite. apply le_dec_enc.
Qed.

Lemma store64_out m a v x : x < a ∨ a + 8 ≤ x → store64 m a v x = m x.
Proof. intros Hx. apply mwrite_out. rewrite length_le_enc. lia. Qed.

Lemma load64_store64_ne m a b v :
  a + 8 ≤ b ∨ b + 8 ≤ a → load64 (store64 m a v) b = load64 m b.
Proof. intros Hab. apply load64_ext. intros x Hx. apply store64_out. lia. Qed.

Lemma load64_range m a : mem_ok m → 0 ≤ load64 m a < 2 ^ 64.
Proof. intros Hm. apply (le_dec_range (mread m a 8)). by apply mread_bytes. Qed.

Lemma store64_ok m a v : mem_ok m → mem_ok (store64 m a v).
Proof. intros. apply mwrite_ok; [done|apply le_enc_bytes]. Qed.

(** A word whose eight bytes are all zero. *)
Lemma load64_zero m a : (∀ x, a ≤ x < a + 8 → m x = 0) → load64 m a = 0.
Proof.
  intros Hz. rewrite (load64_ext m (λ _, 0)); [done|]. intros; by apply Hz.
Qed.

(** ** Byte arrays (the contents of a disk block or a C structure) *)

(** [slice off n l]: the [n] bytes of [l] at offset [off]. *)
Definition slice {A} (off n : nat) (l : list A) : list A := take n (drop off l).

(** [splice off new l]: [l] with [new] written at offset [off]. *)
Definition splice {A} (off : nat) (new l : list A) : list A :=
  take off l ++ new ++ drop (off + length new) l.

Section splice.
Context {A : Type}.
Implicit Types l new : list A.

Lemma length_slice off n l :
  (off + n ≤ length l)%nat → length (slice off n l) = n.
Proof. intros. unfold slice. rewrite length_take, length_drop. lia. Qed.

Lemma length_splice off new l :
  (off + length new ≤ length l)%nat → length (splice off new l) = length l.
Proof. intros. unfold splice. rewrite !length_app, length_take, length_drop. lia. Qed.

Lemma slice_splice_eq off new l :
  (off + length new ≤ length l)%nat → slice off (length new) (splice off new l) = new.
Proof.
  intros Hl. unfold slice, splice. rewrite drop_app_length'.
  - by rewrite take_app_length.
  - rewrite length_take. lia.
Qed.

Lemma slice_lookup off n l i :
  slice off n l !! i = if decide (i < n)%nat then l !! (off + i)%nat else None.
Proof.
  unfold slice. case_decide.
  - rewrite lookup_take_lt by done. apply lookup_drop.
  - apply lookup_take_ge. lia.
Qed.

Lemma splice_lookup off new l i :
  (off + length new ≤ length l)%nat →
  splice off new l !! i =
    if decide (off ≤ i < off + length new)%nat then new !! (i - off)%nat else l !! i.
Proof.
  intros Hl. unfold splice. case_decide as Hi.
  - rewrite lookup_app_r; rewrite length_take; [|lia].
    rewrite lookup_app_l by lia. f_equal. lia.
  - destruct (decide (i < off)%nat).
    + rewrite lookup_app_l by (rewrite length_take; lia).
      by rewrite lookup_take_lt.
    + rewrite lookup_app_r by (rewrite length_take; lia).
      rewrite length_take, lookup_app_r by lia.
      rewrite lookup_drop. f_equal. lia.
Qed.

Lemma slice_splice_ne off n new l off' :
  (off + length new ≤ length l)%nat →
  (off' + n ≤ off ∨ off + length new ≤ off')%nat →
  slice off' n (splice off new l) = slice off' n l.
Proof.
  intros Hl Hd. apply list_eq. intros i. rewrite !slice_lookup.
  case_decide; [|done]. rewrite splice_lookup by done. case_decide; [lia|done].
Qed.

Lemma splice_slice off n l :
  (off + n ≤ length l)%nat → splice off (slice off n l) l = l.
Proof.
  intros Hl. apply list_eq. intros i. rewrite splice_lookup.
  - rewrite length_slice by lia. case_decide; [|done].
    rewrite slice_lookup. case_decide; [|lia]. f_equal. lia.
  - rewrite length_slice; lia.
Qed.

Lemma splice_splice off new new' l :
  length new = length new' → (off + length new ≤ length l)%nat →
  splice off new' (splice off new l) = splice off new' l.
Proof.
  intros Hn Hl. apply list_eq. intros i.
  rewrite (splice_lookup off new') by (rewrite length_splice; lia).
  rewrite (splice_lookup off new') by lia.
  case_decide; [done|]. rewrite splice_lookup by lia. case_decide; [lia|done].
Qed.
End splice.

Lemma slice_bytes off n bs : Forall is_byte bs → Forall is_byte (slice off n bs).
Proof. intros. unfold slice. by apply Forall_take, Forall_drop. Qed.

Lemma splice_bytes off new bs :
  Forall is_byte new → Forall is_byte bs → Forall is_byte (splice off new bs).
Proof.
  intros. unfold splice. rewrite !Forall_app. split_and!; auto using Forall_take, Forall_drop.
Qed.

#[export] Hint Resolve mread_bytes store64_ok mwrite_ok le_enc_bytes slice_bytes
  splice_bytes : kernel.
