(* ===== verification/Riscv.v ===== *)
(** * RISC-V constants and address arithmetic

    The macros of kernel/riscv.h and kernel/memlayout.h: page rounding, the
    Sv39 page-table entry format, the three 9-bit indices of a virtual address,
    the interrupt-enable bit of [sstatus], and the kernel's memory layout. *)

From S2P Require Import Prelude.

Definition PGSIZE : Z := 4096.
Definition PGSHIFT : Z := 12.
Definition PGROUNDUP (sz : Z) : Z := Z.land (u64 (sz + PGSIZE - 1)) (Z.lnot (PGSIZE - 1)).
Definition PGROUNDDOWN (a : Z) : Z := Z.land a (Z.lnot (PGSIZE - 1)).

Definition PTE_V : Z := Z.shiftl 1 0.
Definition PTE_R : Z := Z.shiftl 1 1.
Definition PTE_W : Z := Z.shiftl 1 2.
Definition PTE_X : Z := Z.shiftl 1 3.
Definition PTE_U : Z := Z.shiftl 1 4.

Definition PA2PTE (pa : Z) : Z := u64 (Z.shiftl (Z.shiftr pa 12) 10).
Definition PTE2PA (pte : Z) : Z := u64 (Z.shiftl (Z.shiftr pte 10) 12).
Definition PTE_FLAGS (pte : Z) : Z := Z.land pte 0x3FF.

Definition PXMASK : Z := 0x1FF.
Definition PXSHIFT (level : Z) : Z := PGSHIFT + 9 * level.
Definition PX (level va : Z) : Z := Z.land (Z.shiftr va (PXSHIFT level)) PXMASK.
Definition MAXVA : Z := Z.shiftl 1 (9 + 9 + 9 + 12 - 1).

Definition SATP_SV39 : Z := Z.shiftl 8 60.
Definition MAKE_SATP (pagetable : Z) : Z := Z.lor SATP_SV39 (Z.shiftr pagetable 12).

Definition SSTATUS_SPP : Z := Z.shiftl 1 8.
Definition SSTATUS_SPIE : Z := Z.shiftl 1 5.
Definition SSTATUS_SIE : Z := Z.shiftl 1 1.

(** Memory layout (kernel/memlayout.h). *)
Definition UART0 : Z := 0x10000000.
Definition UART0_IRQ : Z := 10.
Definition VIRTION (n : Z) : Z := 0x10000000 + (n + 1) * 0x1000.
Definition VIRTIO0_IRQ : Z := 1.
Definition VIRTIO1_IRQ : Z := 2.
Definition CLINT : Z := 0x2000000.
Definition PLIC : Z := 0x0c000000.
Definition KERNBASE : Z := 0x80000000.
Definition PHYSTOP : Z := KERNBASE + 128 * 1024 * 1024.
Definition TRAMPOLINE : Z := MAXVA - PGSIZE.
Definition KSTACK (p : Z) : Z := TRAMPOLINE - (p + 1) * 2 * PGSIZE.
Definition TRAPFRAME : Z := TRAMPOLINE - PGSIZE.

(** Table sizes (kernel/param.h). *)
Definition NPROC : Z := 10.
Definition NCPU : Z := 8.
Definition NOFILE : Z := 16.
Definition NFILE : Z := 100.
Definition NINODE : Z := 50.
Definition NDEV : Z := 10.
Definition ROOTDEV : Z := 0.
Definition MAXARG : Z := 32.
Definition MAXOPBLOCKS : Z := 10.
Definition LOGSIZE : Z := MAXOPBLOCKS * 3.
Definition NBUF : Z := MAXOPBLOCKS * 3.
Definition FSSIZE : Z := 2000.
Definition MAXPATH : Z := 128.
Definition NDISK : Z := 2.

(** ** Bit arithmetic *)

Lemma land_lnot_ones a k : 0 ≤ k → Z.land a (Z.lnot (Z.ones k)) = a / 2 ^ k * 2 ^ k.
Proof.
  intros Hk. rewrite <- Z.ldiff_land, Z.ldiff_ones_r by done.
  by rewrite Z.shiftl_mul_pow2, Z.shiftr_div_pow2.
Qed.

Lemma lor_low_add a b k :
  0 ≤ k → 0 ≤ b < 2 ^ k → Z.lor (a * 2 ^ k) b = a * 2 ^ k + b.
Proof.
  intros Hk Hb. symmetry. rewrite Z.add_nocarry_lxor.
  - apply Z.lxor_lor. apply Z.bits_inj_0. intros i. rewrite Z.land_spec.
    destruct (decide (i < 0)); [by rewrite Z.testbit_neg_r|].
    destruct (decide (i < k)).
    + by rewrite Z.mul_pow2_bits_low.
    + rewrite <- (Z.mod_small b (2 ^ k)) by done.
      by rewrite Z.mod_pow2_bits_high, andb_false_r by lia.
  - apply Z.bits_inj_0. intros i. rewrite Z.land_spec.
    destruct (decide (i < 0)); [by rewrite Z.testbit_neg_r|].
    destruct (decide (i < k)).
    + by rewrite Z.mul_pow2_bits_low.
    + rewrite <- (Z.mod_small b (2 ^ k)) by done.
      by rewrite Z.mod_pow2_bits_high, andb_false_r by lia.
Qed.

(** Testing a single bit of a word, as [x & (1 << k)] does. *)
Lemma land_bit_testbit x k : 0 ≤ k → (Z.land x (Z.shiftl 1 k) =? 0) = negb (Z.testbit x k).
Proof.
  intros Hk. rewrite Z.shiftl_mul_pow2, Z.mul_1_l by done.
  apply eq_true_iff_eq. rewrite Z.eqb_eq, negb_true_iff. split.
  - intros H0. rewrite <- (Z.bits_0 k), <- H0, Z.land_spec, Z.pow2_bits_true by done.
    by rewrite andb_true_r.
  - intros Hb. apply Z.bits_inj_0. intros i. rewrite Z.land_spec.
    destruct (decide (i = k)) as [->|Hne]; [by rewrite Hb|].
    by rewrite Z.pow2_bits_false, andb_false_r by done.
Qed.

(** ** Pages *)

Lemma PGROUNDDOWN_spec a : PGROUNDDOWN a = a / PGSIZE * PGSIZE.
Proof. apply (land_lnot_ones a 12). lia. Qed.

Lemma PGROUNDUP_spec sz :
  0 ≤ sz → sz + PGSIZE - 1 < 2 ^ 64 →
  PGROUNDUP sz = (sz + PGSIZE - 1) / PGSIZE * PGSIZE.
Proof.
  intros H0 H1. unfold PGROUNDUP. rewrite u64_small by (unfold PGSIZE in *; lia).
  apply (land_lnot_ones _ 12). lia.
Qed.

Lemma PGROUNDUP_bounds sz :
  0 ≤ sz → sz + PGSIZE - 1 < 2 ^ 64 →
  PGROUNDUP sz mod PGSIZE = 0 ∧ sz ≤ PGROUNDUP sz < sz + PGSIZE.
Proof.
  intros H0 H1. rewrite PGROUNDUP_spec by done. unfold PGSIZE in *.
  split; [by rewrite Z.mod_mul|]. dlia.
Qed.

Lemma PGROUNDUP_aligned a :
  0 ≤ a → a + PGSIZE - 1 < 2 ^ 64 → a mod PGSIZE = 0 → PGROUNDUP a = a.
Proof.
  intros H0 H1 Ha. rewrite PGROUNDUP_spec by done. unfold PGSIZE in *. dlia.
Qed.

Lemma PGROUNDDOWN_bounds a :
  PGROUNDDOWN a mod PGSIZE = 0 ∧ a - PGSIZE < PGROUNDDOWN a ≤ a.
Proof.
  rewrite PGROUNDDOWN_spec. unfold PGSIZE. split; [by rewrite Z.mod_mul|]. dlia.
Qed.

Lemma PGROUNDDOWN_aligned a : a mod PGSIZE = 0 → PGROUNDDOWN a = a.
Proof. intros Ha. rewrite PGROUNDDOWN_spec. unfold PGSIZE in *. dlia. Qed.

(** ** Page-table entries *)

Lemma PA2PTE_spec pa : 0 ≤ pa < 2 ^ 56 → PA2PTE pa = pa / PGSIZE * 2 ^ 10.
Proof.
  intros Hpa. unfold PA2PTE, PGSIZE.
  rewrite Z.shiftl_mul_pow2, Z.shiftr_div_pow2, u64_small by dlia. done.
Qed.

(** A leaf or interior entry gives back its page address and its flags. *)
Lemma PTE2PA_PA2PTE pa flags :
  0 ≤ pa < 2 ^ 56 → pa mod PGSIZE = 0 → 0 ≤ flags < 2 ^ 10 →
  PTE2PA (Z.lor (PA2PTE pa) flags) = pa.
Proof.
  intros Hpa Ha Hf. rewrite PA2PTE_spec, lor_low_add by lia.
  unfold PTE2PA. rewrite Z.shiftl_mul_pow2, Z.shiftr_div_pow2 by lia.
  rewrite Z.div_add_l, (Z.div_small flags), Z.add_0_r by lia.
  unfold PGSIZE in *. rewrite u64_small; dlia.
Qed.

Lemma PTE_FLAGS_PA2PTE pa flags :
  0 ≤ pa < 2 ^ 56 → 0 ≤ flags < 2 ^ 10 →
  PTE_FLAGS (Z.lor (PA2PTE pa) flags) = flags.
Proof.
  intros Hpa Hf. rewrite PA2PTE_spec, lor_low_add by lia.
  unfold PTE_FLAGS. change 0x3FF with (Z.ones 10). rewrite Z.land_ones by lia.
  rewrite Z.add_comm, Z.mod_add by lia. by apply Z.mod_small.
Qed.

Lemma PTE_range pa flags :
  0 ≤ pa < 2 ^ 56 → 0 ≤ flags < 2 ^ 10 → 0 ≤ Z.lor (PA2PTE pa) flags < 2 ^ 54.
Proof.
  intros Hpa Hf. rewrite PA2PTE_spec, lor_low_add by lia. unfold PGSIZE. dlia.
Qed.

Lemma PTE_flag_testbit pa flags k :
  0 ≤ pa < 2 ^ 56 → 0 ≤ k < 10 → Z.testbit (Z.lor (PA2PTE pa) flags) k = Z.testbit flags k.
Proof.
  intros Hpa Hk. rewrite Z.lor_spec, PA2PTE_spec, Z.mul_pow2_bits_low by lia. done.
Qed.

Lemma PTE_FLAGS_range pte : 0 ≤ PTE_FLAGS pte < 2 ^ 10.
Proof. unfold PTE_FLAGS. change 0x3FF with (Z.ones 10). rewrite Z.land_ones by lia. by apply Z.mod_pos_bound. Qed.

(** A valid entry's flags include [PTE_V]. *)
Lemma PTE_FLAGS_V pte : negb (Z.land pte PTE_V =? 0) = true → Z.lor (PTE_FLAGS pte) PTE_V = PTE_FLAGS pte.
Proof.
  unfold PTE_V. rewrite land_bit_testbit, negb_involutive by lia. intros Hv.
  apply Z.bits_inj. intros i. unfold PTE_FLAGS. rewrite Z.lor_spec, Z.land_spec.
  change (Z.shiftl 1 0) with (2 ^ 0). destruct (decide (i = 0)) as [-> |Hne]; [by rewrite Hv|].
  rewrite Z.pow2_bits_false by lia. by rewrite orb_false_r.
Qed.

Lemma PTE2PA_aligned pte : PTE2PA pte mod PGSIZE = 0.
Proof.
  unfold PTE2PA, u64, PGSIZE. rewrite Z.shiftl_mul_pow2 by lia.
  change (2 ^ 64) with (2 ^ 52 * 2 ^ 12). rewrite Z.mul_mod_distr_r by lia.
  apply Z.mod_mul. lia.
Qed.

(** ** The indices of a virtual address *)

Lemma PX_spec level va : 0 ≤ level → PX level va = va / 2 ^ (12 + 9 * level) mod 512.
Proof.
  intros Hl. unfold PX, PXMASK, PXSHIFT, PGSHIFT. rewrite Z.shiftr_div_pow2 by lia.
  change 0x1FF with (Z.ones 9). by rewrite Z.land_ones by lia.
Qed.

Lemma PX_range level va : 0 ≤ level → 0 ≤ PX level va < 512.
Proof. intros. rewrite PX_spec by done. by apply Z.mod_pos_bound. Qed.

(** Below [MAXVA] the three indices and the page offset determine the address. *)
Lemma PX_decompose va :
  0 ≤ va < MAXVA →
  va = ((PX 2 va * 512 + PX 1 va) * 512 + PX 0 va) * PGSIZE + va mod PGSIZE.
Proof.
  intros Hva. rewrite !PX_spec by lia. change MAXVA with (2 ^ 38) in Hva. unfold PGSIZE.
  change (2 ^ (12 + 9 * 2)) with 1073741824. change (2 ^ (12 + 9 * 1)) with 2097152.
  change (2 ^ (12 + 9 * 0)) with 4096. dlia.
Qed.

Lemma PX_inj va va' :
  0 ≤ va < MAXVA → 0 ≤ va' < MAXVA → va mod PGSIZE = 0 → va' mod PGSIZE = 0 →
  PX 2 va = PX 2 va' → PX 1 va = PX 1 va' → PX 0 va = PX 0 va' → va = va'.
Proof.
  intros H1 H2 H3 H4 E2 E1 E0.
  rewrite (PX_decompose va), (PX_decompose va') by done. congruence.
Qed.
