(* ===== verification/Spinlock.v ===== *)
(** * Spin locks and interrupt nesting (kernel/spinlock.c)

    The per-cpu state that locking touches (struct cpu of kernel/proc.h, the
    [sstatus] and [tp] registers), [push_off]/[pop_off], and [acquire],
    [release] and [holding].  A component's lock is reached through a [lens],
    so every critical section of the development runs this code.

    Sequentially, [acquire] of a lock another cpu holds stops with [Spinning].
    Section [Interleaving] runs the same instructions of any number of cpus
    one shared-memory access at a time, and shows mutual exclusion. *)

From S2P Require Import Prelude Riscv.

(** ** Data *)

(** kernel/spinlock.h *)
Record spinlock := Spinlock {
  locked : Z;            (* is the lock held? *)
  lk_name : string;
  lk_cpu : option Z;     (* the cpu holding the lock *)
  lk_n : Z;              (* #acquire() *)
  lk_nts : Z;            (* #test-and-set *)
}.

(** The registers and the struct cpu of one hart. *)
Record cpu := Cpu {
  c_id : Z;              (* tp *)
  c_sstatus : Z;
  c_noff : Z;            (* depth of push_off() nesting *)
  c_intena : bool;       (* were interrupts enabled before push_off()? *)
  c_proc : option nat;   (* the process running on this cpu, or null *)
}.

Class HasCpu (X : Type) := cpu_of : lens X cpu.

Definition set_sstatus (v : Z) (c : cpu) : cpu :=
  Cpu (c_id c) v (c_noff c) (c_intena c) (c_proc c).
Definition set_noff (v : Z) (c : cpu) : cpu :=
  Cpu (c_id c) (c_sstatus c) v (c_intena c) (c_proc c).
Definition set_intena (v : bool) (c : cpu) : cpu :=
  Cpu (c_id c) (c_sstatus c) (c_noff c) v (c_proc c).
Definition set_cproc (v : option nat) (c : cpu) : cpu :=
  Cpu (c_id c) (c_sstatus c) (c_noff c) (c_intena c) v.

Definition set_locked (v : Z) (l : spinlock) : spinlock :=
  Spinlock v (lk_name l) (lk_cpu l) (lk_n l) (lk_nts l).
Definition set_lk_cpu (v : option Z) (l : spinlock) : spinlock :=
  Spinlock (locked l) (lk_name l) v (lk_n l) (lk_nts l).
Definition incr_n (l : spinlock) : spinlock :=
  Spinlock (locked l) (lk_name l) (lk_cpu l) (u32 (lk_n l + 1)) (lk_nts l).
Definition incr_nts (l : spinlock) : spinlock :=
  Spinlock (locked l) (lk_name l) (lk_cpu l) (lk_n l) (u32 (lk_nts l + 1)).

(** ** Interrupts (kernel/riscv.h) *)

Definition intr_on (c : cpu) : cpu := set_sstatus (Z.lor (c_sstatus c) SSTATUS_SIE) c.
Definition intr_off (c : cpu) : cpu := set_sstatus (Z.land (c_sstatus c) (Z.lnot SSTATUS_SIE)) c.
Definition intr_get (c : cpu) : bool := negb (Z.land (c_sstatus c) SSTATUS_SIE =? 0).

(** ** Operations *)

Definition push_off_cpu (c : cpu) : cpu :=
  let old := intr_get c in
  let c := if old then intr_off c else c in
  let c := if c_noff c =? 0 then set_intena old c else c in
  set_noff (c_noff c + 1) c.

Definition pop_off_cpu (c : cpu) : cpu + string :=
  if intr_get c then inr "pop_off - interruptible"%string
  else if c_noff c <? 1 then inr "pop_off"%string
  else
    let c := set_noff (c_noff c - 1) c in
    inl (if (c_noff c =? 0) && c_intena c then intr_on c else c).

(** [holding(lk)] on cpu [id]: [lk->locked && lk->cpu == mycpu()]. *)
Definition holding_by (l : spinlock) (id : Z) : bool :=
  negb (locked l =? 0) && bool_decide (lk_cpu l = Some id).

Definition initlock (name : string) : spinlock := Spinlock 0 name None 0 0.

Section ops.
Context {X : Type} `{HasCpu X}.

Definition mycpu : M X cpu := gets (view cpu_of).

Definition push_off : M X unit :=
  modify (λ x, over cpu_of (push_off_cpu (view cpu_of x)) x).

Definition pop_off : M X unit :=
  c ← mycpu;
  match pop_off_cpu c with
  | inl c' => modify (over cpu_of c')
  | inr msg => panic msg
  end.

Definition holding (lk : lens X spinlock) : M X bool :=
  c ← mycpu;
  gets (λ x, holding_by (view lk x) (c_id c)).

Definition acquire (lk : lens X spinlock) : M X unit :=
  push_off;;
  h ← holding lk;
  if h : bool then panic "acquire"%string else
  modify (λ x, over lk (incr_n (view lk x)) x);;
  l ← gets (view lk);
  if negb (locked l =? 0) then
    (* while(__sync_lock_test_and_set(&lk->locked, 1) != 0) nts++ *)
    modify (λ x, over lk (incr_nts (view lk x)) x);; stop Spinning
  else
    modify (λ x, over lk (set_locked 1 (view lk x)) x);;
    c ← mycpu;
    modify (λ x, over lk (set_lk_cpu (Some (c_id c)) (view lk x)) x).

Definition release (lk : lens X spinlock) : M X unit :=
  h ← holding lk;
  if negb h then panic "release"%string else
  modify (λ x, over lk (set_lk_cpu None (view lk x)) x);;
  modify (λ x, over lk (set_locked 0 (view lk x)) x);;
  pop_off.
End ops.

(** ** Nesting of interrupt disabling *)

(** Inside a [push_off] region interrupts are off. *)
Definition cpu_ok (c : cpu) : Prop :=
  0 ≤ c_noff c ∧ (0 < c_noff c → intr_get c = false).

(** A matched [push_off]/[pop_off] pair restores everything but the scratch
    field [intena], which is only meaningful while [noff > 0]. *)
Definition settle (c : cpu) : cpu :=
  if c_noff c =? 0 then set_intena (intr_get c) c else c.

Lemma intr_get_testbit c : intr_get c = Z.testbit (c_sstatus c) 1.
Proof.
  unfold intr_get, SSTATUS_SIE. rewrite land_bit_testbit by lia. apply negb_involutive.
Qed.

Lemma intr_get_off c : intr_get (intr_off c) = false.
Proof.
  rewrite intr_get_testbit. unfold intr_off, set_sstatus; cbn.
  by rewrite Z.land_spec, andb_false_r.
Qed.

Lemma intr_get_on c : intr_get (intr_on c) = true.
Proof.
  rewrite intr_get_testbit. unfold intr_on, set_sstatus; cbn.
  by rewrite Z.lor_spec, orb_true_r.
Qed.

(** Turning interrupts off and on again restores [sstatus]. *)
Lemma sstatus_off_on v :
  Z.testbit v 1 = true → Z.lor (Z.land v (Z.lnot SSTATUS_SIE)) SSTATUS_SIE = v.
Proof.
  intros Hb. apply Z.bits_inj_iff'. intros i Hi.
  rewrite Z.lor_spec, Z.land_spec, Z.lnot_spec by done.
  change SSTATUS_SIE with (2 ^ 1). destruct (decide (i = 1)) as [->|Hne].
  - by rewrite Hb.
  - by rewrite Z.pow2_bits_false, orb_false_r, andb_true_r by done.
Qed.

Lemma settle_idem c : settle (settle c) = settle c.
Proof. unfold settle. destruct (c_noff c =? 0) eqn:E; cbn; by rewrite E. Qed.

Lemma settle_ok c : cpu_ok c → cpu_ok (settle c).
Proof. unfold cpu_ok, settle. by destruct (c_noff c =? 0). Qed.

Lemma settle_id c : c_id (settle c) = c_id c.
Proof. unfold settle. by case_match. Qed.
Lemma settle_proc c : c_proc (settle c) = c_proc c.
Proof. unfold settle. by case_match. Qed.
Lemma settle_noff c : c_noff (settle c) = c_noff c.
Proof. unfold settle. by case_match. Qed.
Lemma push_off_id c : c_id (push_off_cpu c) = c_id c.
Proof. unfold push_off_cpu. by repeat case_match. Qed.

Lemma push_off_proc c : c_proc (push_off_cpu c) = c_proc c.
Proof. unfold push_off_cpu. by repeat case_match. Qed.
Lemma push_off_noff c : c_noff (push_off_cpu c) = c_noff c + 1.
Proof. unfold push_off_cpu. by repeat case_match. Qed.
Lemma settle_push_off c : cpu_ok c → settle (push_off_cpu c) = push_off_cpu c.
Proof.
  intros [H _]. unfold settle. rewrite push_off_noff, (proj2 (Z.eqb_neq _ _)); [done|lia].
Qed.

Lemma push_off_ok c : cpu_ok c → cpu_ok (push_off_cpu c) ∧ intr_get (push_off_cpu c) = false.
Proof.
  intros [H1 H2]. unfold push_off_cpu.
  assert (∀ c', c' = (if intr_get c then intr_off c else c) → intr_get c' = false ∧ c_noff c' = c_noff c)
    as Hoff.
  { intros c' ->. destruct (intr_get c) eqn:E; [by rewrite intr_get_off|done]. }
  destruct (Hoff _ eq_refl) as [Hi Hn]. revert Hi Hn. generalize (if intr_get c then intr_off c else c).
  intros c' Hi Hn. unfold cpu_ok, intr_get in *. destruct (c_noff c' =? 0); cbn; split; auto; lia.
Qed.

(** Two [pop_off]s undo two [push_off]s: a matched pair gives [settle]. *)
Lemma pop_push_off c : cpu_ok c → pop_off_cpu (push_off_cpu c) = inl (settle c).
Proof.
  intros Hok. destruct (push_off_ok c Hok) as [_ Hi]. destruct Hok as [H1 H2].
  unfold pop_off_cpu. rewrite Hi. unfold push_off_cpu, settle in *.
  clear Hi. destruct (intr_get c) eqn:E; cbn.
  - assert (¬ 0 < c_noff c) by (intros Hlt; by specialize (H2 Hlt)).
    assert (c_noff c = 0) as E0 by lia.
    rewrite E0; cbn. rewrite E0. change (0 + 1 <? 1) with false. change (0 + 1 - 1) with 0. cbn.
    unfold intr_on, set_sstatus, set_noff, set_intena; cbn.
    rewrite sstatus_off_on by (by rewrite <- intr_get_testbit). destruct c; cbn in *; by subst.
  - destruct (c_noff c =? 0) eqn:E0; zify_bool; cbn.
    + rewrite E0. change (0 + 1 <? 1) with false. change (0 + 1 - 1) with 0. cbn.
      destruct c; cbn in *; by subst.
    + destruct (c_noff c + 1 <? 1) eqn:E1; zify_bool; [lia|].
      replace (c_noff c + 1 - 1) with (c_noff c) by lia.
      rewrite (proj2 (Z.eqb_neq _ _) E0); cbn. by destruct c.
Qed.

#[global] Arguments push_off_cpu : simpl never.
#[global] Arguments pop_off_cpu : simpl never.
#[global] Arguments settle : simpl never.

(** ** Critical sections *)

(** A lens that behaves: the lock and the cpu are different places.  [lk_dom]
    says where the lens is defined (a lock in an array needs its index in range). *)
Class LockLens {X} `{HasCpu X} (lk : lens X spinlock) := {
  lk_dom : X → Prop;
  lk_dom_over t x : lk_dom x → lk_dom (over lk t x);
  lk_dom_cpu c x : lk_dom x → lk_dom (over cpu_of c x);
  lk_view_over t x : lk_dom x → view lk (over lk t x) = t;
  lk_over_over t t' x : lk_dom x → over lk t (over lk t' x) = over lk t x;
  lk_cpu_over t x : view cpu_of (over lk t x) = view cpu_of x;
  cpu_lk_over c x : view lk (over cpu_of c x) = view lk x;
  cpu_view_over c x : view cpu_of (over cpu_of c x) = c;
  cpu_over_over c c' x : over cpu_of c (over cpu_of c' x) = over cpu_of c x;
  cpu_lk_comm c t x : over cpu_of c (over lk t x) = over lk t (over cpu_of c x);
}.
#[global] Arguments lk_dom {X _} lk {_} x.

(** What [acquire] leaves in the lock, and what [release] leaves. *)
Definition taken (id : Z) (l : spinlock) : spinlock :=
  Spinlock 1 (lk_name l) (Some id) (u32 (lk_n l + 1)) (lk_nts l).
Definition dropped (l : spinlock) : spinlock :=
  Spinlock 0 (lk_name l) None (lk_n l) (lk_nts l).

Section specs.
Context {X : Type} `{HasCpu X} (lk : lens X spinlock) `{!LockLens lk}.

Lemma runs_acquire x Q :
  lk_dom lk x → locked (view lk x) = 0 →
  Q tt (over lk (taken (c_id (view cpu_of x)) (view lk x))
          (over cpu_of (push_off_cpu (view cpu_of x)) x)) →
  runs (acquire lk) x Q.
Proof.
  intros Hd Hl HQ. set (c := view cpu_of x) in *.
  assert (Hd' : lk_dom lk (over cpu_of (push_off_cpu c) x)) by by apply lk_dom_cpu.
  unfold acquire, push_off, holding, mycpu, runs, mbind, M_bind, modify, gets, stop, panic.
  fold c. unfold holding_by. rewrite !cpu_lk_over, Hl. cbn.
  rewrite lk_view_over by done. cbn. rewrite cpu_lk_over, Hl. cbn.
  rewrite !lk_cpu_over, cpu_view_over, !lk_over_over, !lk_view_over, push_off_id
    by auto using lk_dom_over.
  exact HQ.
Qed.

Lemma runs_release x Q c' :
  lk_dom lk x → locked (view lk x) ≠ 0 →
  lk_cpu (view lk x) = Some (c_id (view cpu_of x)) →
  pop_off_cpu (view cpu_of x) = inl c' →
  Q tt (over lk (dropped (view lk x)) (over cpu_of c' x)) →
  runs (release lk) x Q.
Proof.
  intros Hd Hl Hc Hp HQ. unfold release, pop_off, holding, mycpu, runs, mbind, M_bind, modify, gets, stop, panic.
  unfold holding_by. rewrite Hc. rewrite (proj2 (Z.eqb_neq _ _) Hl). cbn.
  rewrite bool_decide_eq_true_2 by done. cbn.
  rewrite !lk_view_over, !lk_cpu_over, Hp, lk_over_over, cpu_lk_comm by done. exact HQ.
Qed.

(** A cpu that already holds the lock panics in [acquire]. *)
Lemma acquire_twice x :
  locked (view lk x) ≠ 0 → lk_cpu (view lk x) = Some (c_id (view cpu_of x)) →
  stops (acquire lk) x (Panic "acquire").
Proof.
  intros Hl Hc. unfold acquire, push_off, holding, mycpu, stops, mbind, M_bind, modify, gets, stop, panic.
  unfold holding_by. rewrite cpu_view_over, cpu_lk_over, push_off_id, Hc.
  rewrite (proj2 (Z.eqb_neq _ _) Hl). cbn. by rewrite bool_decide_eq_true_2.
Qed.

Lemma release_not_held x :
  holding_by (view lk x) (c_id (view cpu_of x)) = false →
  stops (release lk) x (Panic "release").
Proof. intros Hh. unfold release, holding, stops, mycpu, mbind, M_bind, gets. by rewrite Hh. Qed.

(** A whole critical section, for a body that touches neither the lock nor
    the cpu state: interrupts end as they began and the lock is free. *)
Lemma runs_locked {A} (body : M X A) x (P : A → X → Prop) Q :
  lk_dom lk x → cpu_ok (view cpu_of x) → locked (view lk x) = 0 →
  let x1 := over lk (taken (c_id (view cpu_of x)) (view lk x))
              (over cpu_of (push_off_cpu (view cpu_of x)) x) in
  runs body x1 P →
  (∀ a x2, P a x2 → lk_dom lk x2 ∧ view lk x2 = view lk x1 ∧ view cpu_of x2 = view cpu_of x1) →
  (∀ a x2, P a x2 → Q a (over lk (dropped (view lk x1)) (over cpu_of (settle (view cpu_of x)) x2))) →
  runs (acquire lk;; a ← body; release lk;; mret a) x Q.
Proof.
  intros Hd Hok Hl x1 Hb Hf HQ. kstep. apply runs_acquire; [done..|]. fold x1. kstep.
  eapply runs_mono; [exact Hb|]. intros a x2 HP. destruct (Hf a x2 HP) as (Hd2 & E1 & E2).
  assert (view lk x1 = taken (c_id (view cpu_of x)) (view lk x)) as Ex1.
  { unfold x1. rewrite lk_view_over by by apply lk_dom_cpu. done. }
  kstep. eapply (runs_release _ _ (settle (view cpu_of x))); [done|..].
  - rewrite E1, Ex1. done.
  - rewrite E1, E2, Ex1. unfold x1. rewrite lk_cpu_over, cpu_view_over, push_off_id. done.
  - rewrite E2. unfold x1. rewrite lk_cpu_over, cpu_view_over. by apply pop_push_off.
  - kstep. rewrite E1. by apply HQ.
Qed.
End specs.

(** ** Interleaved execution of several cpus

    The instructions of [acquire] and [release] on one shared lock, one
    access to shared memory per step, any number of cpus, any schedule. *)
Section Interleaving.

(** Where a cpu is in [acquire]/[release]. *)
Inductive pc :=
| Out                       (* does not hold the lock, not acquiring it *)
| AcqHold0                  (* holding(): about to read lk->locked *)
| AcqHold1                  (* holding(): about to read lk->cpu *)
| AcqCount                  (* __sync_fetch_and_add(&lk->n, 1) *)
| AcqSpin                   (* __sync_lock_test_and_set(&lk->locked, 1) *)
| AcqNts                    (* __sync_fetch_and_add(&lk->nts, 1) *)
| AcqRec                    (* lk->cpu = mycpu() *)
| Crit                      (* in the critical section *)
| RelHold1                  (* release: holding() read lk->locked *)
| RelClear                  (* lk->cpu = 0 *)
| RelUnlock                 (* __sync_lock_release(&lk->locked) *)
| RelPop                    (* pop_off() *)
| Dead (msg : string).      (* panicked *)

Record conf := Conf { cf_lk : spinlock; cf_pc : Z → pc; cf_cpu : Z → cpu }.

Definition upd {A} (f : Z → A) (i : Z) (a : A) : Z → A := λ j, if j =? i then a else f j.

(** One instruction of cpu [i]: the new lock, place and cpu state. *)
Definition exec_one (i : Z) (l : spinlock) (p : pc) (c : cpu) : spinlock * pc * cpu :=
  match p with
  | Out => (l, AcqHold0, push_off_cpu c)
  | AcqHold0 => (l, if locked l =? 0 then AcqCount else AcqHold1, c)
  | AcqHold1 =>
      (l, if bool_decide (lk_cpu l = Some (c_id c)) then Dead "acquire" else AcqCount, c)
  | AcqCount => (incr_n l, AcqSpin, c)
  | AcqSpin => (set_locked 1 l, if locked l =? 0 then AcqRec else AcqNts, c)
  | AcqNts => (incr_nts l, AcqSpin, c)
  | AcqRec => (set_lk_cpu (Some (c_id c)) l, Crit, c)
  | Crit => (l, if locked l =? 0 then Dead "release" else RelHold1, c)
  | RelHold1 =>
      (l, if bool_decide (lk_cpu l = Some (c_id c)) then RelClear else Dead "release", c)
  | RelClear => (set_lk_cpu None l, RelUnlock, c)
  | RelUnlock => (set_locked 0 l, RelPop, c)
  | RelPop =>
      match pop_off_cpu c with
      | inl c' => (l, Out, c')
      | inr msg => (l, Dead msg, c)
      end
  | Dead msg => (l, Dead msg, c)
  end.

Inductive step : conf → conf → Prop :=
| step_cpu i cf l p c :
    exec_one i (cf_lk cf) (cf_pc cf i) (cf_cpu cf i) = (l, p, c) →
    step cf (Conf l (upd (cf_pc cf) i p) (upd (cf_cpu cf) i c)).

Definition init_conf (cf : conf) : Prop :=
  locked (cf_lk cf) = 0 ∧ lk_cpu (cf_lk cf) = None ∧
  ∀ i, cf_pc cf i = Out ∧ c_id (cf_cpu cf i) = i ∧ cpu_ok (cf_cpu cf i).

(** Between winning the test-and-set and clearing [locked]. *)
Definition inside (p : pc) : bool :=
  match p with AcqRec | Crit | RelHold1 | RelClear | RelUnlock => true | _ => false end.
(** [lk->cpu] names this cpu. *)
Definition recorded (p : pc) : bool :=
  match p with Crit | RelHold1 | RelClear => true | _ => false end.

(** The cpu state at a place of the code. *)
Definition cpu_at (p : pc) (c : cpu) : Prop :=
  match p with
  | Out => cpu_ok c
  | Dead _ => False
  | _ => ∃ c0, cpu_ok c0 ∧ c = push_off_cpu c0
  end.

Record lock_inv (cf : conf) : Prop := {
  li_id i : c_id (cf_cpu cf i) = i;
  li_cpu i : cpu_at (cf_pc cf i) (cf_cpu cf i);
  li_held i : inside (cf_pc cf i) = true → locked (cf_lk cf) = 1;
  li_one i j : inside (cf_pc cf i) = true → inside (cf_pc cf j) = true → i = j;
  li_free : locked (cf_lk cf) ≠ 0 → ∃ i, inside (cf_pc cf i) = true;
  li_rec i : lk_cpu (cf_lk cf) = Some i ↔ recorded (cf_pc cf i) = true;
}.

Lemma upd_eq {A} (f : Z → A) i a : upd f i a i = a.
Proof. unfold upd. by rewrite Z.eqb_refl. Qed.
Lemma upd_ne {A} (f : Z → A) i j a : j ≠ i → upd f i a j = f j.
Proof. intros. unfold upd. by rewrite (proj2 (Z.eqb_neq j i)). Qed.

Lemma recorded_inside p : recorded p = true → inside p = true.
Proof. by destruct p. Qed.
Lemma pop_off_id c c' : pop_off_cpu c = inl c' → c_id c' = c_id c.
Proof. unfold pop_off_cpu. repeat case_match; intros; simplify_eq; done. Qed.

(** What one instruction does to the parts the invariant speaks of. *)
Lemma exec_one_cases i l0 p0 c0 l p c :
  c_id c0 = i → cpu_at p0 c0 → (inside p0 = true → locked l0 = 1) →
  (lk_cpu l0 = Some i ↔ recorded p0 = true) →
  exec_one i l0 p0 c0 = (l, p, c) →
  (c_id c = i ∧ cpu_at p c) ∧
  ((inside p = inside p0 ∧ locked l = locked l0) ∨
   (inside p = inside p0 ∧ locked l0 ≠ 0 ∧ locked l = 1) ∨
   (inside p = true ∧ locked l0 = 0 ∧ locked l = 1) ∨
   (inside p = false ∧ inside p0 = true ∧ locked l = 0)) ∧
  ((recorded p = recorded p0 ∧ lk_cpu l = lk_cpu l0) ∨
   (inside p0 = true ∧ recorded p = true ∧ lk_cpu l = Some i) ∨
   (inside p0 = true ∧ recorded p = false ∧ lk_cpu l = None)).
Proof.
  intros Hid Hcpu Hheld Hrec He.
  destruct p0; cbn in *;
    try (destruct Hcpu as (c1 & Hok & Hc1));
    try (rewrite Hc1, pop_push_off in He by done);
    repeat case_match; simplify_eq; zify_bool; cbn in *;
    rewrite ?push_off_id, ?settle_id in *; (split; [split|]); eauto using settle_ok;
    try (intuition congruence).
Qed.

Lemma lock_inv_step cf cf' : lock_inv cf → step cf cf' → lock_inv cf'.
Proof.
  intros Inv Hs. destruct Hs as [i cf l p c He].
  destruct (exec_one_cases _ _ _ _ _ _ _ (li_id _ Inv i) (li_cpu _ Inv i)
    (li_held _ Inv i) (li_rec _ Inv i) He) as ((Hid & Hcpu) & Hl & Hr).
  split; cbn.
  - intros j. unfold upd. case_match; zify_bool; subst; [done|apply Inv].
  - intros j. unfold upd. case_match; zify_bool; subst; [done|apply Inv].
  - intros j. pose proof (li_held _ Inv i). unfold upd.
    destruct (Z.eqb_spec j i) as [->|Hne]; intros Hj.
    + destruct (inside p), (inside (cf_pc cf i)); intuition congruence.
    + pose proof (li_held _ Inv j Hj). pose proof (λ H, li_one _ Inv i j H Hj).
      destruct (inside p), (inside (cf_pc cf i)); intuition congruence.
  - intros j k. unfold upd.
    destruct (Z.eqb_spec j i) as [->|Hj0], (Z.eqb_spec k i) as [->|Hk0]; intros Hj Hk; try done.
    + pose proof (λ H, li_one _ Inv i k H Hk). pose proof (li_held _ Inv k Hk).
      destruct (inside p), (inside (cf_pc cf i)); intuition congruence.
    + pose proof (li_one _ Inv j i Hj). pose proof (li_held _ Inv j Hj).
      destruct (inside p), (inside (cf_pc cf i)); intuition congruence.
    + by apply (li_one _ Inv).
  - intros Hn. destruct (inside p) eqn:Hp.
    { exists i. by rewrite upd_eq. }
    assert (inside (cf_pc cf i) = false ∧ locked (cf_lk cf) ≠ 0) as [Hi Hlk].
    { pose proof (li_held _ Inv i).
      destruct (inside (cf_pc cf i)); intuition congruence. }
    destruct (li_free _ Inv Hlk) as [j Hj]. exists j. rewrite upd_ne; congruence.
  - intros j. pose proof (li_rec _ Inv j) as Hj. pose proof (li_rec _ Inv i) as Hi.
    pose proof (recorded_inside (cf_pc cf j)). pose proof (λ H, li_one _ Inv i j H).
    destruct Hr as [[E1 E2]|[(Ei & E1 & E2)|(Ei & E1 & E2)]]; rewrite E2; unfold upd;
      destruct (Z.eqb_spec j i) as [->|Hne]; rewrite ?E1; try done; try (intuition congruence).
Qed.

Lemma lock_inv_init cf : init_conf cf → lock_inv cf.
Proof.
  intros (Hl & Hc & Hi).
  split; intros; try (destruct (Hi i) as (Hp & ? & ?)); rewrite ?Hp, ?Hc in *; done.
Qed.

Lemma lock_inv_reach cf cf' : init_conf cf → rtc step cf cf' → lock_inv cf'.
Proof.
  intros Hinit Hr. apply lock_inv_init in Hinit.
  induction Hr; eauto using lock_inv_step.
Qed.

(** The execution of a given schedule. *)
Definition run_cpu (i : Z) (cf : conf) : conf :=
  let '(l, p, c) := exec_one i (cf_lk cf) (cf_pc cf i) (cf_cpu cf i) in
  Conf l (upd (cf_pc cf) i p) (upd (cf_cpu cf) i c).

Definition run_schedule (sched : list Z) (cf : conf) : conf := foldl (flip run_cpu) cf sched.

Lemma run_schedule_reach sched cf : rtc step cf (run_schedule sched cf).
Proof.
  revert cf. induction sched as [|i sched IH]; intros cf; [apply rtc_refl|].
  eapply rtc_l; [|apply IH]. unfold run_cpu, flip.
  destruct (exec_one _ _ _ _) as [[l p] c] eqn:E. by constructor.
Qed.

(** C3: however the instructions of [acquire] and [release] of the cpus are
    interleaved, at most one cpu is in the critical section of a lock, no cpu
    reaches one of the panics of the locking code, and the cpu in the critical
    section runs with interrupts off and is the one [holding()] reports. *)
Theorem spinlock_mutual_exclusion cf cf' :
  init_conf cf → rtc step cf cf' →
  (∀ i j, cf_pc cf' i = Crit → cf_pc cf' j = Crit → i = j) ∧
  (∀ i msg, cf_pc cf' i ≠ Dead msg) ∧
  (∀ i, cf_pc cf' i = Crit →
     intr_get (cf_cpu cf' i) = false ∧ ∀ j, holding_by (cf_lk cf') j = true ↔ j = i).
Proof.
  intros Hinit Hr. pose proof (lock_inv_reach _ _ Hinit Hr) as Inv. split_and!.
  - intros i j Hi Hj. apply (li_one _ Inv); by rewrite ?Hi, ?Hj.
  - intros i msg Hd. pose proof (li_cpu _ Inv i) as Hc. by rewrite Hd in Hc.
  - intros i Hi. pose proof (li_cpu _ Inv i) as Hc. rewrite Hi in Hc.
    destruct Hc as (c0 & Hok & Hc). split; [rewrite Hc; by apply push_off_ok|].
    assert (lk_cpu (cf_lk cf') = Some i) as Hrec by (apply (li_rec _ Inv); by rewrite Hi).
    assert (locked (cf_lk cf') = 1) as Hl by (apply (li_held _ Inv i); by rewrite Hi).
    intros j. unfold holding_by. rewrite Hl, Hrec. cbn. rewrite bool_decide_eq_true. naive_solver.
Qed.
End Interleaving.

(** Two cpus race: cpu 0 wins, cpu 1 spins. *)
Definition race_init : conf :=
  Conf (initlock "race") (λ _, Out) (λ i, Cpu i 2 0 false None).

Lemma spinlock_mutual_exclusion_witness :
  let cf := run_schedule [0; 1; 0; 1; 0; 1; 0; 1; 0; 1] race_init in
  cf_pc cf 0 = Crit ∧ cf_pc cf 1 = AcqSpin ∧ ∀ j, holding_by (cf_lk cf) j = true ↔ j = 0.
Proof.
  split; [reflexivity|]. split; [reflexivity|].
  refine (proj2 (proj2 (proj2 (spinlock_mutual_exclusion race_init _ _ (run_schedule_reach _ _))) 0 _)).
  - split; [reflexivity|]. split; [reflexivity|]. intros i. split; [reflexivity|].
    split; [reflexivity|]. split; cbn; lia.
  - reflexivity.
Defined.
