(* ===== verification/Core.v ===== *)
(** * The process table, and giving up the cpu (kernel/proc.h, kernel/proc.c)

    Every kernel component runs on a state [kern * S]: [kern] is the part all
    components share (this hart's cpu, the process table), [S] the component's
    own state.  This file holds the table's data, [myproc], [sched], [sleep],
    [wakeup] and [wakeup1]; process creation and destruction are in [Proc]. *)

From S2P Require Import Prelude Riscv Spinlock.

Inductive procstate := UNUSED | SLEEPING | RUNNABLE | RUNNING | ZOMBIE.
#[global] Instance procstate_eqdec : EqDecision procstate.
Proof. solve_decision. Defined.

(** The addresses the kernel sleeps on. *)
Inductive chan :=
| ChProc (p : nat)            (* a struct proc, in wait() *)
| ChTicks                     (* &ticks *)
| ChLog                       (* &log *)
| ChSleepLock (id : Z)        (* a struct sleeplock *)
| ChPipeRead (pi : Z)         (* &pi->nread *)
| ChPipeWrite (pi : Z)        (* &pi->nwrite *)
| ChConsRead                  (* &cons.r *)
| ChDiskFree (n : Z)          (* &disk[n].free[0] *)
| ChBuf (b : Z).              (* a struct buf waiting for the disk *)
#[global] Instance chan_eqdec : EqDecision chan.
Proof. solve_decision. Defined.

Record context := Context_ { ctx_ra : Z; ctx_sp : Z; ctx_s : list Z }.

Record proc := Proc {
  p_lock : spinlock;
  p_state : procstate;
  p_parent : option nat;
  p_chan : option chan;
  p_killed : Z;
  p_xstate : Z;
  p_pid : Z;
  p_kstack : Z;
  p_sz : Z;
  p_pagetable : Z;
  p_tf : Z;                     (* physical address of the trapframe page *)
  p_context : context;
  p_ofile : list (option Z);    (* indices into ftable *)
  p_cwd : option Z;             (* index into the inode cache *)
  p_name : list Z;
}.

Definition proc0 : proc :=
  Proc (initlock "proc") UNUSED None None 0 0 0 0 0 0 0 (Context_ 0 0 (replicate 12 0))
    (replicate (Z.to_nat NOFILE) None) None (replicate 16 0).
#[global] Instance proc_inhabited : Inhabited proc := populate proc0.

Definition set_plock v p := Proc v (p_state p) (p_parent p) (p_chan p) (p_killed p) (p_xstate p)
  (p_pid p) (p_kstack p) (p_sz p) (p_pagetable p) (p_tf p) (p_context p) (p_ofile p) (p_cwd p) (p_name p).
Definition set_pstate v p := Proc (p_lock p) v (p_parent p) (p_chan p) (p_killed p) (p_xstate p)
  (p_pid p) (p_kstack p) (p_sz p) (p_pagetable p) (p_tf p) (p_context p) (p_ofile p) (p_cwd p) (p_name p).
Definition set_pparent v p := Proc (p_lock p) (p_state p) v (p_chan p) (p_killed p) (p_xstate p)
  (p_pid p) (p_kstack p) (p_sz p) (p_pagetable p) (p_tf p) (p_context p) (p_ofile p) (p_cwd p) (p_name p).
Definition set_pchan v p := Proc (p_lock p) (p_state p) (p_parent p) v (p_killed p) (p_xstate p)
  (p_pid p) (p_kstack p) (p_sz p) (p_pagetable p) (p_tf p) (p_context p) (p_ofile p) (p_cwd p) (p_name p).
Definition set_pkilled v p := Proc (p_lock p) (p_state p) (p_parent p) (p_chan p) v (p_xstate p)
  (p_pid p) (p_kstack p) (p_sz p) (p_pagetable p) (p_tf p) (p_context p) (p_ofile p) (p_cwd p) (p_name p).

(** The state every component shares. *)
Record kern := Kern {
  k_cpu : cpu;
  k_procs : list proc;          (* proc[NPROC] *)
}.

Definition set_kcpu (c : cpu) (k : kern) : kern := Kern c (k_procs k).
Definition set_kprocs (ps : list proc) (k : kern) : kern := Kern (k_cpu k) ps.

Section core.
Context {S : Type}.

#[global] Instance kern_cpu : HasCpu (kern * S) :=
  Lens (λ x, k_cpu x.1) (λ c x, (set_kcpu c x.1, x.2)).

(** A lock in the component's own state. *)
Definition slock (l : lens S spinlock) : lens (kern * S) spinlock :=
  Lens (λ x, view l x.2) (λ t x, (x.1, over l t x.2)).

Definition the_proc (i : nat) : M (kern * S) proc := gets (λ x, k_procs x.1 !!! i).
Definition upd_proc (i : nat) (f : proc → proc) : M (kern * S) unit :=
  modify (λ x, (set_kprocs (<[i := f (k_procs x.1 !!! i)]> (k_procs x.1)) x.1, x.2)).

(** [&proc[i].lock] *)
Definition plock (i : nat) : lens (kern * S) spinlock :=
  Lens (λ x, p_lock (k_procs x.1 !!! i))
    (λ t x, (set_kprocs (<[i := set_plock t (k_procs x.1 !!! i)]> (k_procs x.1)) x.1, x.2)).

Definition myproc : M (kern * S) (option nat) :=
  push_off;;
  c ← mycpu;
  pop_off;;
  mret (c_proc c).

(** The current process; the kernel dereferences [myproc()] without a test. *)
Definition curproc : M (kern * S) nat :=
  p ← myproc;
  match p with
  | Some i => mret i
  | None => stop (Undefined "null proc")
  end.

(** Switch to the scheduler: the thread stops here until it is scheduled. *)
Definition sched : M (kern * S) unit :=
  p ← curproc;
  h ← holding (plock p);
  if negb h then panic "sched p->lock"%string else
  c ← mycpu;
  if negb (c_noff c =? 1) then panic "sched locks"%string else
  pr ← the_proc p;
  if bool_decide (p_state pr = RUNNING) then panic "sched running"%string else
  c ← mycpu;
  if intr_get c then panic "sched interruptible"%string else
  stop Asleep.

(** [sleep(chan, lk)] for a lock [lk] other than the process's own. *)
Definition sleep (ch : chan) (lk : lens (kern * S) spinlock) : M (kern * S) unit :=
  p ← curproc;
  acquire (plock p);;
  release lk;;
  upd_proc p (set_pchan (Some ch));;
  upd_proc p (set_pstate SLEEPING);;
  sched;;
  upd_proc p (set_pchan None);;
  release (plock p);;
  acquire lk.

(** [sleep(p, &p->lock)], as [wait] calls it. *)
Definition sleep_self (ch : chan) : M (kern * S) unit :=
  p ← curproc;
  upd_proc p (set_pchan (Some ch));;
  upd_proc p (set_pstate SLEEPING);;
  sched;;
  upd_proc p (set_pchan None).

Definition wakeup (ch : chan) : M (kern * S) unit :=
  for_range (Z.to_nat NPROC) 0 (λ i,
    let i := Z.to_nat i in
    acquire (plock i);;
    p ← the_proc i;
    when (bool_decide (p_state p = SLEEPING) && bool_decide (p_chan p = Some ch))
      (upd_proc i (set_pstate RUNNABLE));;
    release (plock i)).

Definition wakeup1 (i : nat) : M (kern * S) unit :=
  h ← holding (plock i);
  if negb h then panic "wakeup1"%string else
  p ← the_proc i;
  when (bool_decide (p_chan p = Some (ChProc i)) && bool_decide (p_state p = SLEEPING))
    (upd_proc i (set_pstate RUNNABLE)).

(** ** Lenses *)

#[global] Instance plock_lens i : LockLens (plock i).
Proof.
  refine (Build_LockLens _ _ _ (λ x, (i < length (k_procs x.1))%nat) _ _ _ _ _ _ _ _ _);
    try done.
  - intros t x. cbn. by rewrite length_insert.
  - intros t x Hi. cbn. by rewrite list_lookup_total_insert_eq.
  - intros t t' x Hi. cbn. unfold set_kprocs; cbn. rewrite list_insert_insert_eq. do 2 f_equal.
    by rewrite list_lookup_total_insert_eq.
Defined.

Lemma slock_lens (l : lens S spinlock) :
  (∀ t s, view l (over l t s) = t) →
  (∀ t t' s, over l t (over l t' s) = over l t s) → LockLens (slock l).
Proof.
  intros H1 H2. refine (Build_LockLens _ _ _ (λ _, True) _ _ _ _ _ _ _ _ _); try done.
  - intros t x _. apply H1.
  - intros t t' x _. cbn. by rewrite H2.
Defined.

(** ** Well-formed kernel states *)

(** This hart's nesting is right and no process lock is held. *)
Definition kern_ok (k : kern) : Prop :=
  cpu_ok (k_cpu k) ∧ length (k_procs k) = Z.to_nat NPROC ∧
  ∀ i, locked (p_lock (k_procs k !!! i)) = 0.

(** Nothing changed but the scratch field of the interrupt nesting. *)
Definition same_kern (k k' : kern) : Prop :=
  k_procs k' = k_procs k ∧ settle (k_cpu k') = settle (k_cpu k).

#[global] Instance same_kern_equiv : Equivalence same_kern.
Proof. unfold same_kern. split; red; intros; naive_solver congruence. Qed.

Lemma same_kern_settle k : same_kern k (set_kcpu (settle (k_cpu k)) k).
Proof. split; [done|apply settle_idem]. Qed.

(** [wakeup(ch)] on one process. *)
Definition wake (ch : chan) (p : proc) : proc :=
  if bool_decide (p_state p = SLEEPING) && bool_decide (p_chan p = Some ch)
  then set_pstate RUNNABLE p else p.

Lemma runs_wake_one ch i (k : kern) (s : S) Q :
  kern_ok k → (i < Z.to_nat NPROC)%nat →
  (∀ l, locked l = 0 →
    Q tt (Kern (settle (k_cpu k)) (<[i := set_plock l (wake ch (k_procs k !!! i))]> (k_procs k)), s)) →
  runs (acquire (plock i);;
        p ← the_proc i;
        when (bool_decide (p_state p = SLEEPING) && bool_decide (p_chan p = Some ch))
          (upd_proc i (set_pstate RUNNABLE));;
        release (plock i)) (k, s) Q.
Proof.
  intros (Hc & Hlen & Hl) Hi HQ. rewrite <- Hlen in Hi. kstep.
  apply (runs_acquire (plock i)); [done|apply Hl|]. cbn. kstep. kunfold. kstep. cbn.
  rewrite list_lookup_total_insert_eq by done. cbn. kstep.
  eapply (runs_mono _ _ (λ _ x', x' =
    (Kern (push_off_cpu (k_cpu k))
       (<[i := set_plock (taken (c_id (k_cpu k)) (p_lock (k_procs k !!! i)))
                 (wake ch (k_procs k !!! i))]> (k_procs k)), s))).
  - unfold wake. kstep; intros Hb; rewrite Hb; [|done]. kunfold. kstep. cbn. unfold set_kprocs; cbn.
    by rewrite list_insert_insert_eq, list_lookup_total_insert_eq.
  - intros _ ? ->. eapply (runs_release (plock i) _ _ (settle (k_cpu k))); cbn;
      rewrite ?length_insert, ?list_lookup_total_insert_eq by done; cbn; try done.
    + by rewrite push_off_id.
    + by apply pop_push_off.
    + unfold set_kprocs; cbn. rewrite list_insert_insert_eq. by apply HQ.
Qed.

(** [wakeup] makes runnable exactly the processes asleep on the channel. *)
Lemma runs_wakeup ch (k : kern) (s : S) :
  kern_ok k →
  runs (wakeup ch) (k, s) (λ _ x, x.2 = s ∧ kern_ok x.1 ∧ k_cpu x.1 = settle (k_cpu k) ∧
    ∀ i, (i < Z.to_nat NPROC)%nat → ∃ l, locked l = 0 ∧
      k_procs x.1 !!! i = set_plock l (wake ch (k_procs k !!! i))).
Proof.
  intros Hok. unfold wakeup.
  apply (runs_for_range _ (λ n x, x.2 = s ∧ kern_ok x.1 ∧
    (k_cpu x.1 = settle (k_cpu k) ∨ n = 0 ∧ k_cpu x.1 = k_cpu k) ∧
    ∀ i, (i < Z.to_nat NPROC)%nat →
      if decide (Z.of_nat i < n) then ∃ l, locked l = 0 ∧
        k_procs x.1 !!! i = set_plock l (wake ch (k_procs k !!! i))
      else k_procs x.1 !!! i = k_procs k !!! i)).
  - intros n [k1 s1] Hn (Es1 & Hok1 & Hc1 & Hp1). cbn in *. subst s1.
    apply runs_wake_one; [done|lia|]. intros l Hl. cbn.
    assert (settle (k_cpu k1) = settle (k_cpu k)) as Es.
    { destruct Hc1 as [->|[_ ->]]; [apply settle_idem|done]. }
    destruct Hok1 as (Hc & Hlen & Hfree). split_and!; [done| |by left|].
    + split_and!; cbn; [by apply settle_ok|by rewrite length_insert|].
      intros j. destruct (decide (j = Z.to_nat n)) as [->|Hne].
      * by rewrite list_lookup_total_insert_eq by lia.
      * by rewrite list_lookup_total_insert_ne.
    + intros j Hj. specialize (Hp1 j Hj). destruct (decide (j = Z.to_nat n)) as [->|Hne].
      * rewrite decide_False in Hp1 by lia. rewrite decide_True by lia.
        rewrite list_lookup_total_insert_eq by lia. exists l. by rewrite Hp1.
      * rewrite list_lookup_total_insert_ne by done.
        destruct (decide (Z.of_nat j < n)).
        -- by rewrite decide_True by lia.
        -- by rewrite decide_False by lia.
  - cbn. split_and!; auto. intros i _. by rewrite decide_False by lia.
  - intros [k1 s1]. cbn. intros (Es1 & Hok1 & Hc1 & Hp1).
    assert (k_cpu k1 = settle (k_cpu k)) by (destruct Hc1 as [?|[? ?]]; [done|unfold NPROC in *; lia]).
    split_and!; try done. intros i Hi. specialize (Hp1 i Hi). by rewrite decide_True in Hp1 by lia.
Qed.

(** The current process, without side effects but the settled nesting. *)
Lemma runs_curproc k s i Q :
  cpu_ok (k_cpu k) → c_proc (k_cpu k) = Some i → Q i (set_kcpu (settle (k_cpu k)) k, s) →
  runs curproc (k, s) Q.
Proof.
  intros Hc Hp HQ. unfold curproc, myproc, push_off, pop_off, mycpu. kgo.
  rewrite pop_push_off by done. kgo. rewrite push_off_proc, Hp. kgo. exact HQ.
Qed.

(** [sched] with the process lock held, alone, and the process not running. *)
Lemma halts_sched k (s : S) i Q :
  c_proc (k_cpu k) = Some i → (i < length (k_procs k))%nat →
  cpu_ok (k_cpu k) → c_noff (k_cpu k) = 1 →
  holding_by (p_lock (k_procs k !!! i)) (c_id (k_cpu k)) = true →
  p_state (k_procs k !!! i) ≠ RUNNING →
  Q (set_kcpu (settle (k_cpu k)) k, s) → halts sched (k, s) Asleep Q.
Proof.
  intros Hp Hi Hc Hn Hh Hst HQ. unfold sched. apply halts_bind_r. apply (runs_curproc _ _ i); [done|done|].
  apply halts_bind_r. unfold holding, mycpu. kgo. rewrite settle_id, Hh. cbn.
  unfold halts, mbind, M_bind, gets. cbn. rewrite settle_noff, Hn. cbn.
  rewrite bool_decide_eq_false_2 by done. cbn.
  replace (intr_get (settle (k_cpu k))) with false; [by split|].
  unfold settle. rewrite Hn. cbn. symmetry. apply Hc. lia.
Qed.

(** [sleep] gives up the lock and the cpu, marked asleep on the channel: it
    never panics and never sleeps with a lock held. *)
Lemma halts_sleep ch l `{!LockLens (slock l)} k s i c0 :
  k_cpu k = push_off_cpu c0 → cpu_ok c0 → c_noff c0 = 0 → c_proc c0 = Some i →
  length (k_procs k) = Z.to_nat NPROC → (i < Z.to_nat NPROC)%nat →
  locked (p_lock (k_procs k !!! i)) = 0 →
  locked (view l s) ≠ 0 → lk_cpu (view l s) = Some (c_id c0) → (∀ k, lk_dom (slock l) (k, s)) →
  halts (sleep ch (slock l)) (k, s) Asleep (λ x,
    x.2 = over l (dropped (view l s)) s ∧
    p_state (k_procs x.1 !!! i) = SLEEPING ∧ p_chan (k_procs x.1 !!! i) = Some ch ∧
    ∀ j, j ≠ i → k_procs x.1 !!! j = k_procs k !!! j).
Proof.
  intros Hk Hc Hn Hp Hlen Hi Hpl Hl Hlc Hd. destruct (push_off_ok c0 Hc) as [Hc1 Hi1].
  unfold sleep. apply halts_bind_r. apply (runs_curproc _ _ i); [by rewrite Hk|by rewrite Hk, push_off_proc|].
  rewrite Hk, settle_push_off by done.
  assert (i < length (k_procs k))%nat as Hi' by lia.
  apply halts_bind_r. apply (runs_acquire (plock i)); [done|done|]. cbn.
  apply halts_bind_r.
  apply (runs_release (slock l) _ _ (push_off_cpu c0)); cbn;
    [apply Hd|done|by rewrite Hlc, !push_off_id|by rewrite pop_push_off, settle_push_off by done|].
  do 2 (apply halts_bind_r; kunfold; kstep; cbn). unfold set_kprocs, set_kcpu; cbn.
  rewrite !list_insert_insert_eq, !list_lookup_total_insert_eq by (rewrite ?length_insert; done).
  apply halts_bind_l. apply (halts_sched _ _ i); cbn;
    rewrite ?length_insert, ?list_lookup_total_insert_eq, ?push_off_proc, ?push_off_noff, ?Hn by done; try done.
  - cbn. unfold holding_by. cbn. by rewrite !push_off_id, bool_decide_eq_true_2.
  - cbn. split_and!; try done. intros j Hj. by rewrite list_lookup_total_insert_ne.
Qed.
End core.
#[global] Arguments kern_ok : simpl never.

(** ** How the shared state may change

    A kernel routine that does not switch may wake processes and settles the
    interrupt nesting; everything else of the process table stays. *)
Definition kern_le (k k' : kern) : Prop :=
  kern_ok k' ∧ settle (k_cpu k') = settle (k_cpu k) ∧
  ∀ i, (i < Z.to_nat NPROC)%nat → ∃ l, locked l = 0 ∧
    (k_procs k' !!! i = set_plock l (k_procs k !!! i) ∨
     p_state (k_procs k !!! i) = SLEEPING ∧
     k_procs k' !!! i = set_plock l (set_pstate RUNNABLE (k_procs k !!! i))).

Lemma set_plock_self p : set_plock (p_lock p) p = p.
Proof. by destruct p. Qed.

Lemma kern_le_same k k' : kern_ok k → same_kern k k' → cpu_ok (k_cpu k') → kern_le k k'.
Proof.
  intros (_ & Hn & Hl) [Hp Hs] Hc. unfold kern_le, kern_ok. rewrite Hp. split_and!; try done.
  intros i Hi. exists (p_lock (k_procs k !!! i)). split; [done|]. left. by rewrite set_plock_self.
Qed.

Lemma kern_le_refl k : kern_ok k → kern_le k k.
Proof. intros Hk. apply kern_le_same; [done|done|apply Hk]. Qed.

Lemma kern_le_trans k1 k2 k3 : kern_le k1 k2 → kern_le k2 k3 → kern_le k1 k3.
Proof.
  intros (_ & S1 & P1) (H2 & S2 & P2). split; [done|]. split; [by rewrite S2|].
  intros i Hi. destruct (P1 i Hi) as (l1 & L1 & E1), (P2 i Hi) as (l2 & L2 & E2). exists l2. split; [done|].
  destruct E1 as [E1|[St E1]], E2 as [E2|[St2 E2]]; rewrite E2, ?E1; try rewrite E1 in St2; auto.
Qed.

Lemma kern_le_ok k k' : kern_le k k' → kern_ok k'.
Proof. by intros (? & _). Qed.

Lemma kern_le_proc k k' : kern_le k k' → c_proc (k_cpu k') = c_proc (k_cpu k).
Proof. intros (_ & Hs & _). by rewrite <- (settle_proc (k_cpu k')), Hs, settle_proc. Qed.

Lemma kern_le_pid k k' i :
  kern_le k k' → (i < Z.to_nat NPROC)%nat → p_pid (k_procs k' !!! i) = p_pid (k_procs k !!! i).
Proof. intros (_ & _ & Hp) Hi. by destruct (Hp i Hi) as (l & _ & [-> |[_ ->]]). Qed.

(** The process [i] with pid [pid] runs on this hart. *)
Definition running (k : kern) (i : nat) (pid : Z) : Prop :=
  kern_ok k ∧ c_proc (k_cpu k) = Some i ∧ (i < Z.to_nat NPROC)%nat ∧ p_pid (k_procs k !!! i) = pid.

Lemma kern_le_running k k' i pid : kern_le k k' → running k i pid → running k' i pid.
Proof.
  intros Hle (H1 & H2 & H3 & H4). split_and!; [by eapply kern_le_ok| |done|].
  - by rewrite (kern_le_proc k).
  - by rewrite (kern_le_pid k).
Qed.

(** ** Critical sections *)

(** The kernel between [acquire] and [release]. *)
Definition pushed (k : kern) : kern := set_kcpu (push_off_cpu (k_cpu k)) k.

Lemma pushed_ok k : kern_ok k → kern_ok (pushed k).
Proof. intros (Hc & Hn & Hl). split_and!; [by apply push_off_ok|done|done]. Qed.

Lemma pushed_running k i pid : running k i pid → running (pushed k) i pid.
Proof. intros (H1 & H2 & H3 & H4). split_and!; [by apply pushed_ok|by cbn; rewrite push_off_proc|done|done]. Qed.

Lemma settled_push_off c c' : cpu_ok c → settle c' = push_off_cpu c → c' = push_off_cpu c.
Proof.
  intros Hc E. assert (c_noff c' = c_noff c + 1) as Hn by (rewrite <- settle_noff, E; apply push_off_noff).
  rewrite <- E. unfold settle. destruct Hc as (H0 & _). rewrite (proj2 (Z.eqb_neq _ 0)) by lia. done.
Qed.

Section critical.
Context {S : Type} (l : lens S spinlock) `{!LockLens (slock l)}.

Lemma runs_acquire_le k s Q :
  lk_dom (slock l) (k, s) → locked (view l s) = 0 →
  Q tt (pushed k, over l (taken (c_id (k_cpu k)) (view l s)) s) → runs (acquire (slock l)) (k, s) Q.
Proof. intros Hd Hl HQ. by apply (runs_acquire (slock l)). Qed.

Lemma runs_release_le k k' s Q :
  kern_ok k → kern_le (pushed k) k' → lk_dom (slock l) (k', s) → locked (view l s) ≠ 0 →
  lk_cpu (view l s) = Some (c_id (k_cpu k)) →
  (∀ k3, kern_le k k3 → Q tt (k3, over l (dropped (view l s)) s)) →
  runs (release (slock l)) (k', s) Q.
Proof.
  intros Hk (Hk' & Hs & Hp) Hd Hl Hc HQ. pose proof Hk as (Hcpu & Hn & Hpl).
  change (k_cpu (pushed k)) with (push_off_cpu (k_cpu k)) in Hs. rewrite settle_push_off in Hs by done.
  apply settled_push_off in Hs; [|done].
  apply (runs_release (slock l) _ _ (settle (k_cpu k))); cbn; [done|done|by rewrite Hs, push_off_id|by rewrite Hs; apply pop_push_off|].
  apply HQ. destruct Hk' as (_ & Hn' & Hl'). split; [split_and!; cbn; [by apply settle_ok|done|done]|].
  split; [apply settle_idem|exact Hp].
Qed.
End critical.

Lemma runs_wakeup_le {S} ch k (s : S) :
  kern_ok k → runs (wakeup ch) (k, s) (λ _ x, x.2 = s ∧ kern_le k x.1).
Proof.
  intros Hk. eapply runs_mono; [by apply runs_wakeup|]. intros [] [k1 s1]. cbn. intros (-> & Hk1 & Hc1 & Hw).
  split; [done|]. split; [done|]. split; [rewrite Hc1; apply settle_idem|].
  intros j Hj. destruct (Hw j Hj) as (l & Hfl & E). exists l. split; [done|]. rewrite E. unfold wake.
  destruct (bool_decide _ && _) eqn:Hb; [|by left]. zify_bool. right. done.
Qed.
