(* ===== verification/CString.v ===== *)
(** * kernel/string.c

    The byte and string routines of the kernel, on byte memory.  Pointers are
    addresses; the routines touch memory one byte at a time, as the source
    does.  Lengths are unsigned 32-bit counts of which the kernel only passes
    values below 2^31; scanning routines take the loop bound [fuel]. *)

From S2P Require Import Prelude Memory.

Definition ld (a : Z) : M mem Z := gets (λ m, m a).
Definition st (a v : Z) : M mem unit := modify (λ m, mset m a (u8 v)).

Definition memset (dst c n : Z) : M mem Z :=
  for_range (Z.to_nat n) 0 (λ i, st (dst + i) c);;
  mret dst.

Definition memcmp (v1 v2 n : Z) : M mem Z :=
  loop (S (Z.to_nat n)) (λ '(s1, s2, n),
    if n <=? 0 then mret (inr 0) else
    a ← ld s1; b ← ld s2;
    if negb (a =? b) then mret (inr (a - b))
    else mret (inl (s1 + 1, s2 + 1, n - 1))) (v1, v2, n).

(** [while(n-- > 0) *--d = *--s;] *)
Fixpoint copy_down (n : nat) (d s : Z) : M mem unit :=
  match n with
  | O => mret tt
  | S n' => v ← ld (s - 1); st (d - 1) v;; copy_down n' (d - 1) (s - 1)
  end.

(** [while(n-- > 0) *d++ = *s++;] *)
Fixpoint copy_up (n : nat) (d s : Z) : M mem unit :=
  match n with
  | O => mret tt
  | S n' => v ← ld s; st d v;; copy_up n' (d + 1) (s + 1)
  end.

Definition memmove (dst src n : Z) : M mem Z :=
  (if (src <? dst) && (dst <? src + n)
   then copy_down (Z.to_nat n) (dst + n) (src + n)
   else copy_up (Z.to_nat n) dst src);;
  mret dst.

Definition memcpy (dst src n : Z) : M mem Z := memmove dst src n.

Definition strncmp (p q n : Z) : M mem Z :=
  loop (S (Z.to_nat n)) (λ '(p, q, n),
    if n <=? 0 then mret (inr 0) else
    a ← ld p; b ← ld q;
    if negb (a =? 0) && (a =? b) then mret (inl (p + 1, q + 1, n - 1))
    else mret (inr (a - b))) (p, q, n).

Definition strncpy (s t n : Z) : M mem Z :=
  (* while(n-- > 0 && ( *s++ = *t++) != 0); *)
  '(s', n') ← loop (S (S (Z.to_nat n))) (λ '(s, t, n),
      if n <=? 0 then mret (inr (s, n - 1)) else
      v ← ld t; st s v;;
      if v =? 0 then mret (inr (s + 1, n - 1))
      else mret (inl (s + 1, t + 1, n - 1))) (s, t, n);
  (* while(n-- > 0) *s++ = 0; *)
  for_range (Z.to_nat n') 0 (λ i, st (s' + i) 0);;
  mret s.

Definition safestrcpy (s t n : Z) : M mem Z :=
  if n <=? 0 then mret s else
  (* while(--n > 0 && ( *s++ = *t++) != 0); *)
  s' ← loop (S (Z.to_nat n)) (λ '(s, t, n),
      if n - 1 <=? 0 then mret (inr s) else
      v ← ld t; st s v;;
      if v =? 0 then mret (inr (s + 1))
      else mret (inl (s + 1, t + 1, n - 1))) (s, t, n);
  st s' 0;;
  mret s.

Definition strlen (fuel : nat) (s : Z) : M mem Z :=
  loop fuel (λ n, v ← ld (s + n); if v =? 0 then mret (inr n) else mret (inl (n + 1))) 0.

(** ** What the routines do *)

(** [memset] fills the range and nothing else. *)
Definition filled (m m' : mem) (dst n c : Z) : Prop :=
  ∀ x, m' x = if decide (dst ≤ x < dst + n) then u8 c else m x.

Lemma runs_memset m dst c n :
  0 ≤ n → runs (memset dst c n) m (λ r m', r = dst ∧ filled m m' dst n c).
Proof.
  intros Hn. unfold memset. kstep.
  apply (runs_for_range _ (λ i m', filled m m' dst i c)).
  - intros i m1 Hi Hf. unfold st. kstep. intros x. unfold mset.
    destruct (Z.eqb_spec x (dst + i)) as [->|Hne].
    + by rewrite decide_True by lia.
    + rewrite Hf. destruct (decide (dst ≤ x < dst + i)).
      * by rewrite decide_True by lia.
      * by rewrite decide_False by lia.
  - intros x. by rewrite decide_False by lia.
  - intros m1 Hf. kstep. split; [done|]. by rewrite Z.add_0_l, Z2Nat.id in Hf by done.
Qed.

Lemma filled_ok m m' dst n c : mem_ok m → filled m m' dst n c → mem_ok m'.
Proof.
  intros Hm Hf x. rewrite Hf. case_decide; [by apply Z.mod_pos_bound|apply Hm].
Qed.

(** [copied m m' d s n]: [m'] is [m] with the [n] bytes at [s] copied to [d]. *)
Definition copied (m m' : mem) (d s n : Z) : Prop :=
  ∀ x, m' x = if decide (d ≤ x < d + n) then m (s + (x - d)) else m x.

Lemma runs_copy_up n : ∀ m d s,
  mem_ok m → (d ≤ s ∨ s + Z.of_nat n ≤ d) →
  runs (copy_up n d s) m (λ _ m', copied m m' d s (Z.of_nat n)).
Proof.
  induction n as [|n IH]; intros m d s Hm Hd; simpl.
  - kstep. intros x. by rewrite decide_False by lia.
  - kstep. kunfold. kstep. kstep. kunfold. kstep.
    assert (u8 (m s) = m s) as Hu by (apply Z.mod_small, Hm). rewrite Hu.
    eapply runs_mono; [apply IH; [|lia]|].
    + intros x. unfold mset. case_match; apply Hm.
    + intros [] m' Hc x. rewrite Hc. unfold mset. case_decide; case_decide; try lia.
      * destruct (Z.eqb_spec (s + 1 + (x - (d + 1))) d) as [E|_]; [lia|]. f_equal. lia.
      * destruct (Z.eqb_spec x d) as [->|]; [f_equal; lia|lia].
      * destruct (Z.eqb_spec x d) as [->|]; [lia|done].
Qed.

Lemma runs_copy_down n : ∀ m d s,
  mem_ok m → (s ≤ d ∨ d ≤ s - Z.of_nat n) →
  runs (copy_down n d s) m (λ _ m', copied m m' (d - Z.of_nat n) (s - Z.of_nat n) (Z.of_nat n)).
Proof.
  induction n as [|n IH]; intros m d s Hm Hd; simpl.
  - kstep. intros x. by rewrite decide_False by lia.
  - kstep. kunfold. kstep. kstep. kunfold. kstep.
    assert (u8 (m (s - 1)) = m (s - 1)) as Hu by (apply Z.mod_small, Hm). rewrite Hu.
    eapply runs_mono; [apply IH; [|lia]|].
    + intros x. unfold mset. case_match; apply Hm.
    + intros [] m' Hc x. rewrite Hc. unfold mset. case_decide; case_decide; try lia.
      * destruct (Z.eqb_spec (s - 1 - Z.of_nat n + (x - (d - 1 - Z.of_nat n))) (d - 1)) as [E|_];
          [lia|]. f_equal. lia.
      * destruct (Z.eqb_spec x (d - 1)) as [->|]; [f_equal; lia|lia].
      * destruct (Z.eqb_spec x (d - 1)) as [->|]; [lia|done].
Qed.

Lemma runs_memmove m dst src n :
  mem_ok m → 0 ≤ n → runs (memmove dst src n) m (λ r m', r = dst ∧ copied m m' dst src n).
Proof.
  intros Hm Hn. unfold memmove. kstep. destruct ((src <? dst) && (dst <? src + n)) eqn:Hb.
  - zify_bool. eapply runs_mono; [apply runs_copy_down; [done|lia]|].
    intros [] m' Hc. kstep. split; [done|]. rewrite Z2Nat.id in Hc by done.
    by rewrite !Z.add_simpl_r in Hc.
  - eapply runs_mono; [apply runs_copy_up; [done|]|].
    + apply andb_false_iff in Hb. rewrite Z2Nat.id by done. destruct Hb; zify_bool; lia.
    + intros [] m' Hc. kstep. split; [done|]. by rewrite Z2Nat.id in Hc by done.
Qed.

(** [memmove] copies the [n] source bytes as they were before the call, also
    when source and destination overlap in either direction, changes no byte
    outside the destination, and returns the destination. *)
Theorem memmove_correct m dst src n :
  mem_ok m → 0 ≤ n →
  runs (memmove dst src n) m (λ r m', r = dst ∧
    ∀ x, m' x = if decide (dst ≤ x < dst + n) then m (src + (x - dst)) else m x).
Proof. exact (runs_memmove m dst src n). Qed.

(** An overlapping move by one byte, in both directions. *)
Lemma memmove_correct_witness :
  (runs (memmove 11 10 4) (λ a, a mod 256) (λ r m', r = 11 ∧ m' 14 = 13)) ∧
  (runs (memmove 10 11 4) (λ a, a mod 256) (λ r m', r = 10 ∧ m' 10 = 11)).
Proof.
  assert (mem_ok (λ a, a mod 256)) as Hm by (intros a; by apply Z.mod_pos_bound).
  split; (eapply runs_mono; [apply memmove_correct; [exact Hm|lia]|]);
    intros r m' [-> Hx]; rewrite Hx; split; reflexivity.
Defined.
