(* ===== verification/Kalloc.v ===== *)
(** * The physical page allocator (kernel/kalloc.c)

    State: the lock, the head of the free list, and physical memory, in whose
    free pages the list's [next] pointers live.  The abstract view is the list
    of free pages; [kalloc] pops it, [kfree] pushes on it.  [end_], the first
    address after the kernel, is set by the linker script. *)

From S2P Require Import Prelude Memory Riscv Spinlock Core CString.

Record kalloc_st := KallocSt {
  km_lock : spinlock;       (* kmem.lock *)
  km_freelist : Z;          (* kmem.freelist *)
  km_ram : mem;             (* physical memory *)
}.

Definition kmem_lock : lens kalloc_st spinlock :=
  Lens km_lock (λ l s, KallocSt l (km_freelist s) (km_ram s)).
Definition ram_of : lens kalloc_st mem :=
  Lens km_ram (λ m s, KallocSt (km_lock s) (km_freelist s) m).
Definition set_freelist (p : Z) (s : kalloc_st) : kalloc_st :=
  KallocSt (km_lock s) p (km_ram s).

#[global] Instance kmem_lock_lens : LockLens (slock kmem_lock).
Proof. by apply slock_lens. Defined.

(** Physical memory inside a whole kernel state. *)
Definition kram : lens (kern * kalloc_st) mem :=
  Lens (λ x, km_ram x.2) (λ m x, (x.1, over ram_of m x.2)).

Section Kalloc.
Context (end_ : Z).
Abbreviation KM := (M (kern * kalloc_st)).

Definition kfree (pa : Z) : KM unit :=
  if negb (pa mod PGSIZE =? 0) || (pa <? end_) || (PHYSTOP <=? pa)
  then panic "kfree"%string else
  zoom kram (memset pa 1 PGSIZE);;
  acquire (slock kmem_lock);;
  modify (λ x, (x.1, over ram_of (store64 (km_ram x.2) pa (km_freelist x.2)) x.2));;
  modify (λ x, (x.1, set_freelist pa x.2));;
  release (slock kmem_lock).

Definition kalloc : KM Z :=
  acquire (slock kmem_lock);;
  r ← gets (λ x, km_freelist x.2);
  when (negb (r =? 0)) (modify (λ x, (x.1, set_freelist (load64 (km_ram x.2) r) x.2)));;
  release (slock kmem_lock);;
  when (negb (r =? 0)) (zoom kram (memset r 5 PGSIZE);; mret tt);;
  mret r.

Definition freerange (pa_start pa_end : Z) : KM unit :=
  loop (Z.to_nat (pa_end / PGSIZE) + 2) (λ p,
    if pa_end <? p + PGSIZE then mret (inr tt) else
    kfree p;; mret (inl (p + PGSIZE))) (PGROUNDUP pa_start).

Definition kinit : KM unit :=
  modify (λ x, (x.1, over kmem_lock (initlock "kmem") x.2));;
  freerange end_ PHYSTOP.

(** ** The list of free pages *)

(** A page the allocator may hold. *)
Definition page_ok (pa : Z) : Prop :=
  pa mod PGSIZE = 0 ∧ end_ ≤ pa ∧ pa < PHYSTOP.

(** The chain of [next] pointers from [p]. *)
Fixpoint chain (m : mem) (p : Z) (l : list Z) : Prop :=
  match l with
  | [] => p = 0
  | a :: l' => p = a ∧ chain m (load64 m a) l'
  end.

(** The allocator's invariant, for the abstract list [l] of free pages. *)
Record kalloc_inv (x : kern * kalloc_st) (l : list Z) : Prop := {
  ki_cpu : cpu_ok (k_cpu x.1);
  ki_lock : locked (km_lock x.2) = 0;
  ki_mem : mem_ok (km_ram x.2);
  ki_end : 0 < end_;
  ki_chain : chain (km_ram x.2) (km_freelist x.2) l;
  ki_nodup : NoDup l;
  ki_pages : Forall page_ok l;
}.

(** The bytes of a page. *)
Definition in_page (pa x : Z) : Prop := pa ≤ x < pa + PGSIZE.

Lemma pages_disjoint a b x :
  a mod PGSIZE = 0 → b mod PGSIZE = 0 → in_page a x → in_page b x → a = b.
Proof. unfold in_page, PGSIZE. dlia. Qed.

Lemma chain_ext m m' p l :
  (∀ a x, a ∈ l → in_page a x → m' x = m x) → chain m p l → chain m' p l.
Proof.
  revert p. induction l as [|a l IH]; intros p Heq; simpl; [done|].
  intros [-> Hc]. split; [done|].
  rewrite (load64_ext m' m a).
  - apply IH; [|done]. intros b x Hb. apply Heq. by right.
  - intros x Hx. apply (Heq a); [by left|]. unfold in_page, PGSIZE. lia.
Qed.

(** The free list is determined by memory. *)
Lemma chain_det m p l l' :
  0 < end_ → Forall page_ok l → Forall page_ok l' → chain m p l → chain m p l' → l = l'.
Proof.
  intros He. revert p l'. induction l as [|a l IH]; intros p [|b l'] Hl Hl'; cbn; [done|..].
  - intros -> [<- _]. inversion Hl' as [|? ? (_ & ? & _)]; subst. lia.
  - intros [-> _] ->. inversion Hl as [|? ? (_ & ? & _)]; subst. lia.
  - intros [-> Hc] [-> Hc']. inversion Hl; inversion Hl'; subst. f_equal. by eapply IH.
Qed.

(** Memory changed only inside page [pa], which is not on the list. *)
Lemma chain_other m m' pa l p :
  pa ∉ l → pa mod PGSIZE = 0 → Forall page_ok l →
  (∀ x, ¬ in_page pa x → m' x = m x) → chain m p l → chain m' p l.
Proof.
  intros Hni Ha Hl Hout. apply chain_ext. intros b x Hb Hx. apply Hout. intros Hx'.
  rewrite Forall_forall in Hl. destruct (Hl b Hb) as (Hb' & _).
  assert (pa = b) as -> by by eapply pages_disjoint. done.
Qed.

Lemma page_ok_pos pa : 0 < end_ → page_ok pa → 0 < pa < 2 ^ 56.
Proof. intros He (_ & H1 & H2). unfold PHYSTOP, KERNBASE in H2. lia. Qed.

Lemma kfree_guard pa :
  page_ok pa → negb (pa mod PGSIZE =? 0) || (pa <? end_) || (PHYSTOP <=? pa) = false.
Proof.
  intros (H1 & H2 & H3). rewrite H1. cbn.
  rewrite (proj2 (Z.ltb_ge _ _) H2). by apply Z.leb_gt.
Qed.

Lemma runs_kfree x l pa :
  kalloc_inv x l → page_ok pa → pa ∉ l →
  runs (kfree pa) x (λ _ x', kalloc_inv x' (pa :: l) ∧ same_kern x.1 x'.1 ∧
    ∀ a, ¬ in_page pa a → km_ram x'.2 a = km_ram x.2 a).
Proof.
  intros Inv Hpa Hni. pose proof (page_ok_pos pa (ki_end _ _ Inv) Hpa) as Hpos.
  unfold kfree. rewrite kfree_guard by done. kstep. kstep.
  eapply runs_mono; [apply runs_memset; unfold PGSIZE; lia|]. intros r m1 [_ Hf].
  destruct x as [k [lk fl m]]. destruct Inv as [Hc Hl Hm He Hch Hnd Hp]; cbn in *. kstep.
  apply (runs_acquire (slock kmem_lock)); [done|done|]. cbn. kstep. kstep. cbn. kstep. kstep. cbn.
  apply (runs_release (slock kmem_lock) _ _ (settle (k_cpu k))); cbn; [done|done| |by apply pop_push_off|].
  { by rewrite push_off_id. }
  assert (mem_ok m1) as Hm1 by by eapply filled_ok.
  assert (∀ a, ¬ in_page pa a → store64 m1 pa fl a = m a) as Hout.
  { intros a Ha. rewrite store64_out by (unfold in_page, PGSIZE in Ha; lia).
    rewrite Hf, decide_False by done. done. }
  split_and!; [|exact (same_kern_settle k)|done]. destruct Hpa as (Ha & ?).
  split; cbn; auto using settle_ok with kernel.
  - split; [done|]. rewrite load64_store64_eq.
    replace (u64 fl) with fl; [by eapply (chain_other m)|].
    symmetry. apply u64_small. destruct l as [|b l]; cbn in Hch; [lia|].
    destruct Hch as [-> _]. inversion Hp as [|? ? Hb]; subst.
    pose proof (page_ok_pos b He Hb). lia.
  - by constructor.
  - by constructor.
Qed.

Lemma runs_kalloc_empty x :
  kalloc_inv x [] →
  runs kalloc x (λ r x', r = 0 ∧ kalloc_inv x' [] ∧ same_kern x.1 x'.1 ∧ km_ram x'.2 = km_ram x.2).
Proof.
  intros Inv. destruct x as [k [lk fl m]]. destruct Inv as [Hc Hl Hm He Hch Hnd Hp]; cbn in *.
  subst fl. unfold kalloc. kstep.
  apply (runs_acquire (slock kmem_lock)); [done|done|]. kgo.
  apply (runs_release (slock kmem_lock) _ _ (settle (k_cpu k))); cbn; [done|done| |by apply pop_push_off|].
  { by rewrite push_off_id. }
  kgo. split_and!; try done; [|exact (same_kern_settle k)]. split; cbn; auto using settle_ok.
Qed.

Lemma runs_kalloc x a l :
  kalloc_inv x (a :: l) →
  runs kalloc x (λ r x', r = a ∧ kalloc_inv x' l ∧ same_kern x.1 x'.1 ∧
    filled (km_ram x.2) (km_ram x'.2) a PGSIZE 5).
Proof.
  intros Inv. destruct x as [k [lk fl m]]. destruct Inv as [Hc Hl Hm He Hch Hnd Hp]; cbn in *.
  destruct Hch as [-> Hch]. apply NoDup_cons in Hnd as [Hni Hnd].
  inversion Hp as [|? ? Ha Hp']; subst. pose proof (page_ok_pos a He Ha) as Hpos.
  assert ((a =? 0) = false) as Ha0 by (apply Z.eqb_neq; lia).
  unfold kalloc. kstep.
  apply (runs_acquire (slock kmem_lock)); [done|done|]. kgo. rewrite Ha0. kgo.
  apply (runs_release (slock kmem_lock) _ _ (settle (k_cpu k))); cbn; [done|done| |by apply pop_push_off|].
  { by rewrite push_off_id. }
  kgo. kstep. cbn. eapply runs_mono; [apply runs_memset; unfold PGSIZE; lia|].
  intros r m1 [_ Hf]. kgo. split_and!; [done| |exact (same_kern_settle k)|done].
  destruct Ha as (Ha & ?).
  split; cbn; [by apply settle_ok|done|by eapply filled_ok|done| |done|done].
  eapply (chain_other m); [exact Hni|done|done| |done].
  intros x Hx. by rewrite Hf, decide_False.
Qed.

(** ** Refinement: a pool of pages *)

(** What a client asks of the allocator. *)
Inductive kop := Alloc | Free (pa : Z).

(** The contract: free pages are handed out, a client gives back its own. *)
Record pool := Pool { pl_free : list Z; pl_used : list Z }.

Definition pool_step (o : kop) (p : pool) : option (Z * pool) :=
  match o with
  | Alloc =>
      match pl_free p with
      | [] => Some (0, p)
      | a :: l => Some (a, Pool l (a :: pl_used p))
      end
  | Free pa =>
      if decide (pa ∈ pl_used p)
      then Some (0, Pool (pa :: pl_free p) (filter (λ a, a ≠ pa) (pl_used p)))
      else None
  end.

Fixpoint pool_run (os : list kop) (p : pool) : option (list Z * pool) :=
  match os with
  | [] => Some ([], p)
  | o :: os' =>
      '(r, p1) ← pool_step o p;
      '(rs, p2) ← pool_run os' p1;
      Some (r :: rs, p2)
  end.

Definition exec_op (o : kop) : KM Z :=
  match o with
  | Alloc => kalloc
  | Free pa => kfree pa;; mret 0
  end.

Fixpoint exec_ops (os : list kop) : KM (list Z) :=
  match os with
  | [] => mret []
  | o :: os' => r ← exec_op o; rs ← exec_ops os'; mret (r :: rs)
  end.

(** No page is free twice, used twice, or both; all are allocator pages. *)
Definition pool_ok (p : pool) : Prop :=
  NoDup (pl_free p ++ pl_used p) ∧ Forall page_ok (pl_free p ++ pl_used p).

Lemma remove_perm (pa : Z) l : NoDup l → pa ∈ l → pa :: filter (λ a, a ≠ pa) l ≡ₚ l.
Proof.
  intros Hnd Hin. apply NoDup_Permutation; [|done|].
  - constructor; [|by apply NoDup_filter]. rewrite list_elem_of_filter. naive_solver.
  - intros b. rewrite elem_of_cons, list_elem_of_filter. destruct (decide (b = pa)); naive_solver.
Qed.

Lemma pool_step_perm o p r p' :
  NoDup (pl_used p) → pool_step o p = Some (r, p') →
  pl_free p' ++ pl_used p' ≡ₚ pl_free p ++ pl_used p.
Proof.
  intros Hnd Hs. destruct o as [|pa]; cbn in Hs.
  - destruct (pl_free p) as [|a l] eqn:E; simplify_eq; cbn; rewrite ?E; [done|].
    by rewrite <- Permutation_middle.
  - case_decide as Hin; simplify_eq. cbn. by rewrite Permutation_middle, remove_perm.
Qed.

Lemma pool_step_ok o p r p' : pool_ok p → pool_step o p = Some (r, p') → pool_ok p'.
Proof.
  intros [Hnd Hf] Hs. assert (NoDup (pl_used p)) as Hu by by apply NoDup_app in Hnd as (_ & _ & ?).
  pose proof (pool_step_perm _ _ _ _ Hu Hs) as Hp. split; by rewrite Hp.
Qed.

Lemma runs_exec_op o p r p' x :
  pool_ok p → kalloc_inv x (pl_free p) → pool_step o p = Some (r, p') →
  runs (exec_op o) x (λ r' x', r' = r ∧ kalloc_inv x' (pl_free p') ∧ same_kern x.1 x'.1 ∧
    ∀ a y, a ∈ pl_used p → a ∈ pl_used p' → in_page a y → km_ram x'.2 y = km_ram x.2 y).
Proof.
  intros [Hnd Hf] Inv Hs. apply NoDup_app in Hnd as (Hnf & Hdis & Hnu).
  rewrite Forall_forall in Hf. destruct o as [|pa]; cbn in Hs; cbn.
  - destruct (pl_free p) as [|b l] eqn:E; simplify_eq.
    + eapply runs_mono; [by apply runs_kalloc_empty|].
      intros r' x' (-> & Inv' & Hfr & Hm). rewrite E, Hm. done.
    + eapply runs_mono; [by apply runs_kalloc|].
      intros r' x' (-> & Inv' & Hfr & Hm). split_and!; [done..|].
      intros a y Ha _ Hy. rewrite Hm, decide_False; [done|]. intros Hy'.
      assert (a = r) as ->.
      { eapply pages_disjoint; [apply Hf; set_solver..|done|exact Hy']. }
      apply (Hdis r); set_solver.
  - case_decide as Hin; simplify_eq. kstep. eapply runs_mono.
    { apply runs_kfree; [done|apply Hf; set_solver|]. intros Hin'. by apply (Hdis pa). }
    intros [] x' (Inv' & Hfr & Hm). kgo. split_and!; [done..|].
    intros a y Ha Ha' Hy. apply Hm. intros Hy'. apply list_elem_of_filter in Ha' as [Hne _].
    apply Hne. eapply pages_disjoint; [apply Hf; set_solver..|done|exact Hy'].
Qed.

Lemma pool_run_ok os p rs p' :
  pool_ok p → pool_run os p = Some (rs, p') →
  pool_ok p' ∧ pl_free p' ++ pl_used p' ≡ₚ pl_free p ++ pl_used p.
Proof.
  revert p rs. induction os as [|o os IH]; intros p rs Hok Hr; cbn in Hr; [by simplify_eq|].
  destruct (pool_step o p) as [[r p1]|] eqn:Hs; cbn in Hr; [|done].
  destruct (pool_run os p1) as [[rs' p2]|] eqn:Hr'; cbn in Hr; [|done]. simplify_eq.
  assert (NoDup (pl_used p)) as Hu by by apply (proj2 (proj2 (proj1 (NoDup_app _ _) (proj1 Hok)))).
  destruct (IH p1 rs') as [? Hp]; [by eapply pool_step_ok|done|].
  split; [done|]. rewrite Hp. by eapply pool_step_perm.
Qed.

(** C2: for every sequence of allocations and of frees of pages the client
    holds, the allocator never panics and returns exactly what a pool of pages
    returns: a page that is neither free nor in use elsewhere, or 0 only when no
    page is free; no page is lost or duplicated, and the bytes of a page the
    client keeps are not disturbed. *)
Theorem kalloc_refines_pool os p rs p' x :
  pool_ok p → kalloc_inv x (pl_free p) → pool_run os p = Some (rs, p') →
  runs (exec_ops os) x (λ r x', r = rs ∧ kalloc_inv x' (pl_free p') ∧ same_kern x.1 x'.1 ∧
    ∀ a y, a ∈ pl_used p → Free a ∉ os → in_page a y → km_ram x'.2 y = km_ram x.2 y) ∧
  pool_ok p' ∧ pl_free p' ++ pl_used p' ≡ₚ pl_free p ++ pl_used p.
Proof.
  intros Hok Inv Hr. split; [|by eapply pool_run_ok]. revert p rs x Hok Inv Hr.
  induction os as [|o os IH]; intros p rs x Hok Inv Hr; cbn in Hr; [by simplify_eq; kgo|].
  destruct (pool_step o p) as [[r p1]|] eqn:Hs; cbn in Hr; [|done].
  destruct (pool_run os p1) as [[rs' p2]|] eqn:Hr'; cbn in Hr; [|done]. simplify_eq.
  cbn. kstep. eapply runs_mono; [by eapply runs_exec_op|].
  intros r' x1 (-> & Inv1 & Hk1 & Hm1). kstep.
  eapply runs_mono; [apply (IH p1 rs'); [by eapply pool_step_ok|done|done]|].
  intros rs1 x2 (-> & Inv2 & Hk2 & Hm2). kgo. split_and!; [done|done|by etrans|].
  intros a y Ha Hnf Hy.
  assert (a ∈ pl_used p1) as Ha1.
  { destruct o as [|pa]; cbn in Hs.
    - destruct (pl_free p); simplify_eq; [done|by right].
    - case_decide; simplify_eq. apply list_elem_of_filter. split; [|done].
      intros ->. apply Hnf. by left. }
  rewrite (Hm2 a); [by apply (Hm1 a)|done| |done]. intros Hin. apply Hnf. by right.
Qed.

(** ** Initialisation *)

Definition pages (a : Z) (n : nat) : list Z := (λ i, a + Z.of_nat i * PGSIZE) <$> seq 0 n.

Lemma elem_of_pages b a n : b ∈ pages a n ↔ ∃ i, 0 ≤ i < Z.of_nat n ∧ b = a + i * PGSIZE.
Proof.
  unfold pages. rewrite list_elem_of_fmap. split.
  - intros (i & -> & Hi). apply elem_of_seq in Hi. exists (Z.of_nat i). lia.
  - intros (i & Hi & ->). exists (Z.to_nat i). rewrite elem_of_seq. split; [by rewrite Z2Nat.id by lia|lia].
Qed.

Lemma pages_S a n : pages a (S n) = pages a n ++ [a + Z.of_nat n * PGSIZE].
Proof. unfold pages. by rewrite seq_S, fmap_app. Qed.

(** [freerange] puts every whole page of the range on the free list. *)
Lemma runs_freerange x s e :
  kalloc_inv x [] → end_ ≤ s → s + PGSIZE ≤ 2 ^ 63 → e ≤ PHYSTOP →
  runs (freerange s e) x (λ _ x', ∃ n, kalloc_inv x' (reverse (pages (PGROUNDUP s) n)) ∧
    same_kern x.1 x'.1 ∧ (n = O ∨ PGROUNDUP s + Z.of_nat n * PGSIZE ≤ e) ∧
    e < PGROUNDUP s + Z.of_nat n * PGSIZE + PGSIZE).
Proof.
  intros Inv Hs Hs' He. pose proof (ki_end _ _ Inv) as H0.
  destruct (PGROUNDUP_bounds s) as [Ha Hb]; [lia|unfold PGSIZE in *; lia|].
  set (a := PGROUNDUP s) in *. unfold freerange. fold a.
  apply (runs_loop _ (λ p x', ∃ n, p = a + Z.of_nat n * PGSIZE ∧
      kalloc_inv x' (reverse (pages a n)) ∧ same_kern x.1 x'.1 ∧ (n = O ∨ p ≤ e))
    (λ p _, Z.to_nat (e / PGSIZE - p / PGSIZE + 1))).
  - intros p x1 (n & -> & Inv1 & Hk & Hn). kstep; intros Hb1; zify_bool.
    + kgo. exists n. split_and!; [done|done| |lia]. destruct Hn; [by left|right; lia].
    + kstep. eapply runs_mono; [eapply runs_kfree; [done| |]|].
      * split_and!; [|unfold PGSIZE in *; lia..]. by rewrite Z.mod_add by (unfold PGSIZE; lia).
      * rewrite elem_of_reverse, elem_of_pages. intros (i & Hi & Heq). unfold PGSIZE in *. lia.
      * intros [] x2 (Inv2 & Hk2 & _). kgo. split.
        -- exists (S n). split_and!; [lia| |by etrans|right; lia].
           rewrite pages_S, reverse_app. done.
        -- unfold PGSIZE in *. dlia.
  - exists O. cbn. rewrite Z.add_0_r. split_and!; try done. by left.
  - unfold PGSIZE in *. dlia.
Qed.

(** At boot, [kinit] leaves on the free list exactly the aligned pages of
    [[end, PHYSTOP)], each once, without panicking. *)
Theorem kinit_frees_all k lk m :
  cpu_ok (k_cpu k) → mem_ok m → KERNBASE ≤ end_ < PHYSTOP →
  runs kinit (k, KallocSt lk 0 m) (λ _ x', same_kern k x'.1 ∧
    ∃ l, kalloc_inv x' l ∧ ∀ pa, pa ∈ l ↔ page_ok pa).
Proof.
  intros Hc Hm He. unfold kinit. kgo.
  destruct (PGROUNDUP_bounds end_) as [Ha Hb];
    [unfold KERNBASE in *; lia|unfold PHYSTOP, KERNBASE, PGSIZE in *; lia|].
  eapply runs_mono; [apply runs_freerange|].
  - split; cbn; try done; [unfold KERNBASE in *; lia|constructor].
  - done.
  - unfold PHYSTOP, KERNBASE, PGSIZE in *; lia.
  - done.
  - intros [] x' (n & Inv & Hk & Hn & Hlt). split; [done|].
    eexists. split; [exact Inv|]. intros pa. rewrite elem_of_reverse, elem_of_pages.
    unfold page_ok, PHYSTOP, KERNBASE, PGSIZE in *. split.
    + intros (i & Hi & ->). split_and!; [|lia|lia]. rewrite Z.mod_add by lia. done.
    + intros (Hal & H1 & H2). exists ((pa - PGROUNDUP end_) / 4096). dlia.
Qed.
End Kalloc.

(** Two pages: allocate both, find the pool empty, free one, get it back. *)
Definition demo_cpu : cpu := Cpu 0 2 0 false (Some 0%nat).
Definition demo_kern : kern := Kern demo_cpu (replicate (Z.to_nat NPROC) proc0).
Definition demo_end : Z := KERNBASE + 5 * PGSIZE.
Definition demo_pages : list Z := [KERNBASE + 6 * PGSIZE; KERNBASE + 7 * PGSIZE].
Definition demo_kalloc : kern * kalloc_st :=
  (demo_kern, KallocSt (initlock "kmem") (KERNBASE + 6 * PGSIZE)
    (store64 (λ _, 0) (KERNBASE + 6 * PGSIZE) (KERNBASE + 7 * PGSIZE))).

Lemma demo_cpu_ok : cpu_ok demo_cpu.
Proof. split; [done|]. intros H. exfalso. by vm_compute in H. Defined.

Lemma demo_kalloc_inv : kalloc_inv demo_end demo_kalloc demo_pages.
Proof.
  split; try done.
  - apply store64_ok. done.
  - repeat constructor; set_solver.
  - repeat constructor; vm_compute; done.
Defined.

Definition demo_ops : list kop := [Alloc; Alloc; Alloc; Free (KERNBASE + 6 * PGSIZE); Alloc].
Definition demo_results : list Z :=
  [KERNBASE + 6 * PGSIZE; KERNBASE + 7 * PGSIZE; 0; 0; KERNBASE + 6 * PGSIZE].

Lemma kalloc_refines_pool_witness :
  runs (exec_ops demo_end demo_ops) demo_kalloc (λ r _, r = demo_results).
Proof.
  eapply runs_mono.
  - refine (proj1 (kalloc_refines_pool demo_end demo_ops (Pool demo_pages []) demo_results
      (Pool [] demo_pages) demo_kalloc _ demo_kalloc_inv _)).
    + exact (conj (ki_nodup _ _ _ demo_kalloc_inv) (ki_pages _ _ _ demo_kalloc_inv)).
    + vm_compute. reflexivity.
  - intros r x' (-> & _). reflexivity.
Defined.

Lemma kinit_frees_all_witness :
  runs (kinit (PHYSTOP - 3 * PGSIZE - 100)) (demo_kern, KallocSt (initlock "") 0 (λ _, 0))
    (λ _ x', ∃ l, PHYSTOP - PGSIZE ∈ l ∧ kalloc_inv (PHYSTOP - 3 * PGSIZE - 100) x' l).
Proof.
  eapply runs_mono.
  - apply (kinit_frees_all (PHYSTOP - 3 * PGSIZE - 100));
      [exact demo_cpu_ok|done|unfold PHYSTOP, KERNBASE, PGSIZE; lia].
  - intros [] x' (_ & l & Inv & Hl). exists l. split; [|done]. apply Hl.
    unfold page_ok, PHYSTOP, KERNBASE, PGSIZE. split; [reflexivity|lia].
Defined.
