(* ===== verification/Vm.v ===== *)
(** * Page tables and user memory (kernel/vm.c)

    The Sv39 page-table code, on the physical memory and the page allocator of
    [Kalloc].  Page tables live in memory: every access to an entry is a load
    or a store of a 64-bit word.  Kernel buffers that [copyin] and [copyout]
    move to and from user memory are byte lists.

    The abstract view of a page table rooted at [root] is the function
    [lookup_pte], from virtual addresses to leaf entries. *)

From S2P Require Import Prelude Memory Riscv Spinlock Core CString Kalloc.

Section Vm.
Context (end_ : Z).
Abbreviation KM := (M (kern * kalloc_st)).

Definition ld64 (a : Z) : KM Z := gets (λ x, load64 (km_ram x.2) a).
Definition st64 (a v : Z) : KM unit :=
  modify (λ x, (x.1, over ram_of (store64 (km_ram x.2) a v) x.2)).

(** Is a flag bit of an entry set? *)
Definition has (pte flag : Z) : bool := negb (Z.land pte flag =? 0).

Definition walk_level (va : Z) (alloc : bool) (level pagetable : Z) : KM (option Z) :=
  let pte := pagetable + 8 * PX level va in
  e ← ld64 pte;
  if has e PTE_V then mret (Some (PTE2PA e)) else
  if negb alloc then mret None else
  pt ← kalloc;
  if pt =? 0 then mret None else
  zoom kram (memset pt 0 PGSIZE);;
  st64 pte (Z.lor (PA2PTE pt) PTE_V);;
  mret (Some pt).

Definition walk (pagetable va : Z) (alloc : bool) : KM Z :=
  if MAXVA <=? va then panic "walk"%string else
  p1 ← walk_level va alloc 2 pagetable;
  match p1 with
  | None => mret 0
  | Some pagetable =>
      p0 ← walk_level va alloc 1 pagetable;
      match p0 with
      | None => mret 0
      | Some pagetable => mret (pagetable + 8 * PX 0 va)
      end
  end.

Definition walkaddr (pagetable va : Z) : KM Z :=
  if MAXVA <=? va then mret 0 else
  pte ← walk pagetable va false;
  if pte =? 0 then mret 0 else
  e ← ld64 pte;
  if negb (has e PTE_V) then mret 0 else
  if negb (has e PTE_U) then mret 0 else
  mret (PTE2PA e).

(** A bound for the page loops: they end at [last], or in [walk]'s panic. *)
Definition page_fuel (a last : Z) : nat :=
  Z.to_nat ((if a <=? last then last - a else MAXVA - a) / PGSIZE) + 2.

Definition mappages (pagetable va size pa perm : Z) : KM Z :=
  let a := PGROUNDDOWN va in
  let last := PGROUNDDOWN (u64 (va + size - 1)) in
  loop (page_fuel a last) (λ '(a, pa),
    pte ← walk pagetable a true;
    if pte =? 0 then mret (inr (-1)) else
    e ← ld64 pte;
    if has e PTE_V then panic "remap"%string else
    st64 pte (Z.lor (Z.lor (PA2PTE pa) perm) PTE_V);;
    if a =? last then mret (inr 0) else
    mret (inl (u64 (a + PGSIZE), u64 (pa + PGSIZE)))) (a, pa).

(** One page of [uvmunmap]: the body of its loop. *)
Definition uvmunmap_page (pagetable a : Z) (do_free : bool) : KM unit :=
  pte ← walk pagetable a false;
  if pte =? 0 then panic "uvmunmap: walk"%string else
  e ← ld64 pte;
  if negb (has e PTE_V) then panic "uvmunmap: not mapped"%string else
  if PTE_FLAGS e =? PTE_V then panic "uvmunmap: not a leaf"%string else
  when do_free (kfree end_ (PTE2PA e));;
  st64 pte 0.

Definition uvmunmap (pagetable va size : Z) (do_free : bool) : KM unit :=
  let a := PGROUNDDOWN va in
  let last := PGROUNDDOWN (u64 (va + size - 1)) in
  loop (page_fuel a last) (λ a,
    uvmunmap_page pagetable a do_free;;
    if a =? last then mret (inr tt) else
    mret (inl (u64 (a + PGSIZE)))) a.

Definition uvmcreate : KM Z :=
  pagetable ← kalloc;
  if pagetable =? 0 then panic "uvmcreate: out of memory"%string else
  zoom kram (memset pagetable 0 PGSIZE);;
  mret pagetable.

(** [src] is the init code, [sz] its size. *)
Definition uvminit (pagetable : Z) (src : list Z) : KM unit :=
  if PGSIZE <=? alen src then panic "inituvm: more than a page"%string else
  mem ← kalloc;
  zoom kram (memset mem 0 PGSIZE);;
  mappages pagetable 0 PGSIZE mem (Z.lor (Z.lor (Z.lor PTE_W PTE_R) PTE_X) PTE_U);;
  modify (λ x, (x.1, over ram_of (mwrite (km_ram x.2) mem src) x.2)).

Definition uvmdealloc (pagetable oldsz newsz : Z) : KM Z :=
  if oldsz <=? newsz then mret oldsz else
  let newup := PGROUNDUP newsz in
  when (newup <? PGROUNDUP oldsz) (uvmunmap pagetable newup (u64 (oldsz - newup)) true);;
  mret newsz.

Definition uvmalloc (pagetable oldsz newsz : Z) : KM Z :=
  if newsz <? oldsz then mret oldsz else
  let oldsz := PGROUNDUP oldsz in
  loop (Z.to_nat ((newsz - oldsz) / PGSIZE) + 2) (λ a,
    if newsz <=? a then mret (inr newsz) else
    mem ← kalloc;
    if mem =? 0 then uvmdealloc pagetable a oldsz;; mret (inr 0) else
    zoom kram (memset mem 0 PGSIZE);;
    r ← mappages pagetable a PGSIZE mem (Z.lor (Z.lor (Z.lor PTE_W PTE_X) PTE_R) PTE_U);
    if negb (r =? 0) then
      kfree end_ mem;; uvmdealloc pagetable a oldsz;; mret (inr 0)
    else mret (inl (u64 (a + PGSIZE)))) oldsz.

(** Recursion through the levels of the table; three levels suffice. *)
Fixpoint freewalk (levels : nat) (pagetable : Z) : KM unit :=
  match levels with
  | O => stop NoFuel
  | S levels' =>
      for_range 512 0 (λ i,
        pte ← ld64 (pagetable + 8 * i);
        if has pte PTE_V && (Z.land pte (Z.lor (Z.lor PTE_R PTE_W) PTE_X) =? 0) then
          freewalk levels' (PTE2PA pte);;
          st64 (pagetable + 8 * i) 0
        else if has pte PTE_V then panic "freewalk: leaf"%string
        else mret tt);;
      kfree end_ pagetable
  end.

Definition uvmfree (pagetable sz : Z) : KM unit :=
  uvmunmap pagetable 0 sz true;;
  freewalk 3 pagetable.

Definition uvmcopy (old new sz : Z) : KM Z :=
  loop (Z.to_nat (sz / PGSIZE) + 2) (λ i,
    if sz <=? i then mret (inr 0) else
    pte ← walk old i false;
    if pte =? 0 then panic "uvmcopy: pte should exist"%string else
    e ← ld64 pte;
    if negb (has e PTE_V) then panic "uvmcopy: page not present"%string else
    let pa := PTE2PA e in
    let flags := PTE_FLAGS e in
    mem ← kalloc;
    if mem =? 0 then uvmunmap new 0 i true;; mret (inr (-1)) else
    zoom kram (memmove mem pa PGSIZE);;
    r ← mappages new i PGSIZE mem flags;
    if negb (r =? 0) then
      kfree end_ mem;; uvmunmap new 0 i true;; mret (inr (-1))
    else mret (inl (u64 (i + PGSIZE)))) 0.

Definition uvmclear (pagetable va : Z) : KM unit :=
  pte ← walk pagetable va false;
  if pte =? 0 then panic "uvmclear"%string else
  e ← ld64 pte;
  st64 pte (Z.land e (Z.lnot PTE_U)).

(** [copyout(pagetable, dstva, src, len)] with [src] the [len] bytes. *)
Definition copyout (pagetable dstva : Z) (src : list Z) : KM Z :=
  loop (S (length src)) (λ '(dstva, src),
    if bool_decide (src = []) then mret (inr 0) else
    let va0 := PGROUNDDOWN dstva in
    pa0 ← walkaddr pagetable va0;
    if pa0 =? 0 then mret (inr (-1)) else
    let n := Z.min (PGSIZE - (dstva - va0)) (alen src) in
    modify (λ x, (x.1, over ram_of
      (mwrite (km_ram x.2) (pa0 + (dstva - va0)) (take (Z.to_nat n) src)) x.2));;
    mret (inl (u64 (va0 + PGSIZE), drop (Z.to_nat n) src))) (dstva, src).

(** [copyin(pagetable, dst, srcva, len)]: the bytes copied to [dst], and the
    return value. *)
Definition copyin (pagetable srcva len : Z) : KM (list Z * Z) :=
  loop (S (Z.to_nat len)) (λ '(dst, srcva, len),
    if len <=? 0 then mret (inr (dst, 0)) else
    let va0 := PGROUNDDOWN srcva in
    pa0 ← walkaddr pagetable va0;
    if pa0 =? 0 then mret (inr (dst, -1)) else
    let n := Z.min (PGSIZE - (srcva - va0)) len in
    bs ← gets (λ x, mread (km_ram x.2) (pa0 + (srcva - va0)) (Z.to_nat n));
    mret (inl (dst ++ bs, u64 (va0 + PGSIZE), len - n))) ([], srcva, len).

(** The inner loop of [copyinstr]: up to [n] bytes from [p]; the bytes
    copied before a NUL, and whether a NUL was found. *)
Fixpoint copy_to_nul (m : mem) (p : Z) (n : nat) : list Z * bool :=
  match n with
  | O => ([], false)
  | S n' =>
      if m p =? 0 then ([], true) else
      let '(bs, got) := copy_to_nul m (p + 1) n' in (m p :: bs, got)
  end.

(** [copyinstr(pagetable, dst, srcva, max)]: the string copied to [dst],
    without its NUL, and the return value. *)
Definition copyinstr (pagetable srcva max : Z) : KM (list Z * Z) :=
  loop (S (Z.to_nat max)) (λ '(dst, srcva, max),
    if max <=? 0 then mret (inr (dst, -1)) else
    let va0 := PGROUNDDOWN srcva in
    pa0 ← walkaddr pagetable va0;
    if pa0 =? 0 then mret (inr (dst, -1)) else
    let n := Z.min (PGSIZE - (srcva - va0)) max in
    '(bs, got_null) ← gets (λ x, copy_to_nul (km_ram x.2) (pa0 + (srcva - va0)) (Z.to_nat n));
    if got_null : bool then mret (inr (dst ++ bs, 0)) else
    mret (inl (dst ++ bs, u64 (va0 + PGSIZE), max - n))) ([], srcva, max).

End Vm.

(** ** The kernel's page table *)

Record vm_st := VmSt {
  vm_kmem : kalloc_st;
  kernel_pagetable : Z;
  vm_satp : Z;
}.

Definition vm_kalloc : lens (kern * vm_st) (kern * kalloc_st) :=
  Lens (λ x, (x.1, vm_kmem x.2))
       (λ y x, (y.1, VmSt y.2 (kernel_pagetable x.2) (vm_satp x.2))).
Definition set_kpt (p : Z) (s : vm_st) : vm_st := VmSt (vm_kmem s) p (vm_satp s).
Definition set_satp (v : Z) (s : vm_st) : vm_st := VmSt (vm_kmem s) (kernel_pagetable s) v.

Section Kvm.
(** [etext] and [trampoline] are set by the linker script. *)
Context (etext trampoline : Z).
Abbreviation KV := (M (kern * vm_st)).

Definition kvmmap (va pa sz perm : Z) : KV unit :=
  kpt ← gets (λ x, kernel_pagetable x.2);
  r ← zoom vm_kalloc (mappages kpt va sz pa perm);
  if negb (r =? 0) then panic "kvmmap"%string else mret tt.

Definition kvminit : KV unit :=
  p ← zoom vm_kalloc kalloc;
  modify (λ x, (x.1, set_kpt p x.2));;
  zoom vm_kalloc (zoom kram (memset p 0 PGSIZE));;
  kvmmap UART0 UART0 PGSIZE (Z.lor PTE_R PTE_W);;
  kvmmap (VIRTION 0) (VIRTION 0) PGSIZE (Z.lor PTE_R PTE_W);;
  kvmmap (VIRTION 1) (VIRTION 1) PGSIZE (Z.lor PTE_R PTE_W);;
  kvmmap CLINT CLINT 0x10000 (Z.lor PTE_R PTE_W);;
  kvmmap PLIC PLIC 0x400000 (Z.lor PTE_R PTE_W);;
  kvmmap KERNBASE KERNBASE (etext - KERNBASE) (Z.lor PTE_R PTE_X);;
  kvmmap etext etext (PHYSTOP - etext) (Z.lor PTE_R PTE_W);;
  kvmmap TRAMPOLINE trampoline PGSIZE (Z.lor PTE_R PTE_X).

Definition kvminithart : KV unit :=
  modify (λ x, (x.1, set_satp (MAKE_SATP (kernel_pagetable x.2)) x.2)).

Definition kvmpa (va : Z) : KV Z :=
  let off := va mod PGSIZE in
  kpt ← gets (λ x, kernel_pagetable x.2);
  pte ← zoom vm_kalloc (walk kpt va false);
  if pte =? 0 then panic "kvmpa"%string else
  e ← zoom vm_kalloc (ld64 pte);
  if negb (has e PTE_V) then panic "kvmpa"%string else
  mret (u64 (PTE2PA e + off)).

End Kvm.
