(* ===== verification/PageTable.v ===== *)
(** * The page table as a tree in memory

    What the Sv39 page tables of [Vm] mean: the tables reached from a root by
    paths of indices, the leaf entry of a virtual address, and how writing a
    leaf entry or adding a fresh table changes them.  These are facts about
    memory alone; [VmProof] uses them to verify the code. *)

From S2P Require Import Prelude Memory Riscv Spinlock Core CString Kalloc Vm.

Lemma PX2_low va : 0 ≤ va < MAXVA → PX 2 va < 256.
Proof.
  intros Hva. rewrite PX_spec by lia. change MAXVA with (2 ^ 38) in Hva. change (2 ^ (12 + 9 * 2)) with (2 ^ 30).
  rewrite Z.mod_small; dlia.
Qed.

Definition child (m : mem) (a i : Z) : option Z :=
  let e := load64 m (a + 8 * i) in
  if has e PTE_V then Some (PTE2PA e) else None.

(** The table at the end of a path of indices. *)
Fixpoint tab (m : mem) (a : Z) (p : list Z) : option Z :=
  match p with
  | [] => Some a
  | i :: p' => b ← child m a i; tab m b p'
  end.

Definition idx (i : Z) : Prop := 0 ≤ i < 512.
(** Paths to tables: the root, level 1 and level 0. *)
Definition path (p : list Z) : Prop := (length p ≤ 2)%nat ∧ Forall idx p.

Definition is_table (m : mem) (root a : Z) : Prop := ∃ p, path p ∧ tab m root p = Some a.

Definition leaf_addr (m : mem) (root va : Z) : option Z :=
  a ← tab m root [PX 2 va; PX 1 va]; Some (a + 8 * PX 0 va).

(** The leaf entry of [va]; 0, which is not valid, when a table is missing. *)
Definition lookup_pte (m : mem) (root va : Z) : Z :=
  match leaf_addr m root va with Some p => load64 m p | None => 0 end.

(** The tables are distinct aligned pages, an entry that points to a table has no other
    flag, and nothing is mapped from [MAXVA] on. *)
Definition PTE_RWX : Z := Z.lor (Z.lor PTE_R PTE_W) PTE_X.
Record pt_tree (m : mem) (root : Z) : Prop := {
  pt_aligned : ∀ a, is_table m root a → a mod PGSIZE = 0;
  pt_inj : ∀ p q a, path p → path q → tab m root p = Some a → tab m root q = Some a → p = q;
  pt_inner : ∀ p a i b, path (p ++ [i]) → tab m root p = Some a → child m a i = Some b →
    Z.land (load64 m (a + 8 * i)) PTE_RWX = 0;
  pt_low : ∀ i p a, path (i :: p) → tab m root (i :: p) = Some a → i < 256;
}.

Lemma tab_snoc m root p i : tab m root (p ++ [i]) = tab m root p ≫= λ a, child m a i.
Proof.
  revert root. induction p as [|j p IH]; intros root; cbn; [by destruct (child m root i)|].
  destruct (child m root j); cbn; [apply IH|done].
Qed.

#[global] Arguments tab : simpl never.

Lemma path_snoc p i : path (p ++ [i]) ↔ (length p ≤ 1)%nat ∧ Forall idx p ∧ idx i.
Proof.
  unfold path. rewrite length_app, Forall_app, Forall_singleton. cbn. intuition lia.
Qed.

Lemma path_nil : path [].
Proof. split; cbn; [lia|constructor]. Qed.

Lemma path_prefix p i : path (p ++ [i]) → path p.
Proof. rewrite path_snoc. intros (H1 & H2 & H3). split; [lia|done]. Qed.

Lemma path_va va : path [PX 2 va; PX 1 va].
Proof. split; cbn; [lia|]. repeat constructor; by apply PX_range. Qed.

Lemma path_va1 va : path [PX 2 va].
Proof. split; cbn; [lia|]. repeat constructor; by apply PX_range. Qed.

Lemma is_table_leaf m root va t : tab m root [PX 2 va; PX 1 va] = Some t → is_table m root t.
Proof. intros Ht. exists [PX 2 va; PX 1 va]. split; [apply path_va|done]. Qed.

(** The eight bytes of an entry lie in its table's page. *)
Lemma entry_in_page a i x : idx i → a + 8 * i ≤ x < a + 8 * i + 8 → in_page a x.
Proof. unfold idx, in_page, PGSIZE. lia. Qed.

Lemma load64_entry m m' a i :
  idx i → (∀ x, in_page a x → m' x = m x) → load64 m' (a + 8 * i) = load64 m (a + 8 * i).
Proof. intros Hi Heq. apply load64_ext. intros x Hx. apply Heq. by eapply entry_in_page. Qed.

Lemma child_ext m m' a i :
  idx i → (∀ x, in_page a x → m' x = m x) → child m' a i = child m a i.
Proof. intros Hi Heq. unfold child. by rewrite (load64_entry m). Qed.

(** Two entries, of aligned tables, overlap only if they are the same. *)
Lemma entry_inj a b i j :
  a mod PGSIZE = 0 → b mod PGSIZE = 0 → idx i → idx j →
  a = b ∧ i = j ∨ a + 8 * i + 8 ≤ b + 8 * j ∨ b + 8 * j + 8 ≤ a + 8 * i.
Proof. unfold idx, PGSIZE. intros. destruct (Z.eq_dec a b); [|dlia]. lia. Qed.

(** Tables do not change when memory changes only outside the inner tables. *)
Lemma tab_ext m m' root p :
  path p →
  (∀ q a, path q → (length q ≤ 1)%nat → tab m root q = Some a →
     ∀ x, in_page a x → m' x = m x) →
  tab m' root p = tab m root p.
Proof.
  intros Hp Hext. induction p as [|i p IH] using rev_ind; [done|].
  rewrite !tab_snoc. pose proof (proj1 (path_snoc p i) Hp) as (Hl & Hf & Hi).
  rewrite IH by by eapply path_prefix.
  destruct (tab m root p) as [a|] eqn:Ha; cbn; [|done].
  apply child_ext; [done|]. intros x Hx. eapply (Hext p); eauto. split; [lia|done].
Qed.

Lemma leaf_addr_ext m m' root va :
  (∀ a x, is_table m root a → in_page a x → m' x = m x) →
  leaf_addr m' root va = leaf_addr m root va.
Proof.
  intros Heq. unfold leaf_addr. rewrite (tab_ext m m' root); [done|apply path_va|].
  intros q a Hq _ Ha x. apply Heq. by exists q.
Qed.

Lemma lookup_pte_ext m m' root va :
  (∀ a x, is_table m root a → in_page a x → m' x = m x) →
  lookup_pte m' root va = lookup_pte m root va.
Proof.
  intros Heq. unfold lookup_pte, leaf_addr. pose proof (path_va va) as Hp.
  rewrite (tab_ext m m') by (eauto using path_va || (intros; eapply Heq; [eexists; eauto|done])).
  destruct (tab m root [PX 2 va; PX 1 va]) as [t|] eqn:Ht; cbn; [|done].
  apply load64_entry; [by apply PX_range|]. intros x Hx. eapply Heq; [by exists [PX 2 va; PX 1 va]|done].
Qed.

Lemma is_table_ext m m' root a :
  (∀ a x, is_table m root a → in_page a x → m' x = m x) →
  is_table m' root a ↔ is_table m root a.
Proof.
  intros Heq. split; intros (p & Hp & Ht); exists p; (split; [done|]); revert Ht;
    rewrite (tab_ext m m') by (done || (intros; eapply Heq; [eexists; eauto|done])); done.
Qed.

Lemma pt_tree_ext m m' root :
  (∀ a x, is_table m root a → in_page a x → m' x = m x) → pt_tree m root → pt_tree m' root.
Proof.
  intros Heq [Ha Hi Hn Hlow].
  assert (∀ p, path p → tab m' root p = tab m root p) as Ht.
  { intros p Hp. apply tab_ext; [done|]. intros q a Hq _ Hq' x. eapply Heq. by exists q. }
  split.
  - intros a Ha'. apply Ha. by rewrite (is_table_ext m m') in Ha' by done.
  - intros p q a Hp Hq. rewrite !Ht by done. by apply Hi.
  - intros p a i b Hp. pose proof (path_prefix p i Hp) as Hp'. rewrite Ht by done. intros Hpa Hc.
    assert (∀ x, in_page a x → m' x = m x) as Hx by (intros x; apply Heq; by exists p).
    apply path_snoc in Hp as Hi3. destruct Hi3 as (_ & _ & Hidx).
    rewrite (load64_entry m) by done. eapply Hn; [done..|]. by rewrite (child_ext m m') in Hc.
  - intros i p a Hp. rewrite Ht by done. by apply Hlow.
Qed.

(** ** Writing a leaf entry *)

Section Leaf.
Context (m : mem) (root t va v : Z).
Context (Htree : pt_tree m root) (Ht : tab m root [PX 2 va; PX 1 va] = Some t).
Let m' := store64 m (t + 8 * PX 0 va) v.

Lemma leaf_out x : ¬ in_page t x → m' x = m x.
Proof.
  intros Hx. apply store64_out. destruct (decide (x < t + 8 * PX 0 va)); [by left|].
  destruct (decide (t + 8 * PX 0 va + 8 ≤ x)); [by right|]. exfalso. apply Hx.
  apply (entry_in_page t (PX 0 va)); [by apply PX_range|lia].
Qed.

Lemma leaf_inner q a x :
  path q → (length q ≤ 1)%nat → tab m root q = Some a → in_page a x → m' x = m x.
Proof.
  intros Hq Hl Ha Hx. apply leaf_out. intros Hx'. assert (a = t) as ->.
  { apply (pages_disjoint a t x); try done; eapply pt_aligned; eauto; eexists; eauto using path_va. }
  assert (q = [PX 2 va; PX 1 va]) as -> by (eapply pt_inj; eauto using path_va). cbn in Hl. lia.
Qed.

Lemma leaf_tab p : path p → tab m' root p = tab m root p.
Proof. intros Hp. apply tab_ext; [done|]. intros q a Hq Hl Ha x. by eapply leaf_inner. Qed.

Lemma leaf_tree : pt_tree m' root.
Proof.
  destruct Htree as [Ha Hi Hn Hlow]. split.
  - intros a (p & Hp & Hpa). apply Ha. exists p. by rewrite leaf_tab in Hpa.
  - intros p q a Hp Hq. rewrite !leaf_tab by done. by apply Hi.
  - intros p a i b Hp. pose proof (path_prefix p i Hp) as Hp'. rewrite leaf_tab by done. intros Hpa Hc.
    apply path_snoc in Hp as Hi3. destruct Hi3 as (Hlen & _ & Hidx).
    assert (∀ x, in_page a x → m' x = m x) as Hx by (intros x; by eapply leaf_inner).
    rewrite (load64_entry m) by done. eapply Hn; [done..|]. by rewrite (child_ext m m') in Hc.
  - intros i p a Hp. rewrite leaf_tab by done. by apply Hlow.
Qed.

Lemma leaf_is_table a : is_table m' root a ↔ is_table m root a.
Proof. split; intros (p & Hp & Ha); exists p; (split; [done|]); revert Ha; by rewrite leaf_tab. Qed.

Lemma leaf_lookup va' :
  0 ≤ va < MAXVA → 0 ≤ va' < MAXVA → va mod PGSIZE = 0 → 0 ≤ v < 2 ^ 64 →
  lookup_pte m' root va' =
    if decide (PGROUNDDOWN va' = va) then v else lookup_pte m root va'.
Proof.
  intros Hva Hva' Hal Hv. unfold lookup_pte, leaf_addr. rewrite leaf_tab by apply path_va.
  assert (va' = ((PX 2 va' * 512 + PX 1 va') * 512 + PX 0 va') * PGSIZE + va' mod PGSIZE) as Hd'
    by by apply PX_decompose.
  pose proof (PX_decompose va Hva) as Hd.
  case_decide as Heq.
  - rewrite PGROUNDDOWN_spec in Heq.
    assert (PX 2 va' = PX 2 va ∧ PX 1 va' = PX 1 va ∧ PX 0 va' = PX 0 va) as (-> & -> & ->).
    { pose proof (PX_range 2 va). pose proof (PX_range 1 va). pose proof (PX_range 0 va).
      pose proof (PX_range 2 va'). pose proof (PX_range 1 va'). pose proof (PX_range 0 va').
      unfold PGSIZE in *. dlia. }
    rewrite Ht. cbn. unfold m'. by rewrite load64_store64_eq, u64_small.
  - destruct (tab m root [PX 2 va'; PX 1 va']) as [t'|] eqn:Ht'; cbn; [|done].
    unfold m'. apply load64_store64_ne.
    destruct (entry_inj t t' (PX 0 va) (PX 0 va')) as [[-> E]|?];
      try (by apply PX_range); try (eapply pt_aligned; eauto; eexists; eauto using path_va); [|lia].
    exfalso. apply Heq.
    pose proof (pt_inj _ _ Htree _ _ _ (path_va va) (path_va va') Ht Ht') as [= E2 E1].
    rewrite PGROUNDDOWN_spec. unfold PGSIZE in *. dlia.
Qed.
End Leaf.

(** ** Adding a fresh table *)

(** Flags as bits. *)
Lemma has_testbit e k : 0 ≤ k → has e (Z.shiftl 1 k) = Z.testbit e k.
Proof. intros Hk. unfold has. by rewrite land_bit_testbit, negb_involutive. Qed.

Lemma has_zero f : has 0 f = false.
Proof. unfold has. by rewrite Z.land_0_l. Qed.

(** The entry that points to a table. *)
Lemma inner_flags n : 0 ≤ n < 2 ^ 56 → Z.land (Z.lor (PA2PTE n) PTE_V) PTE_RWX = 0.
Proof.
  intros Hn. apply Z.bits_inj'. intros j Hj. rewrite Z.land_spec, Z.bits_0.
  destruct (decide (1 ≤ j ≤ 3)) as [Hr|Hr].
  - assert (Z.testbit (Z.lor (PA2PTE n) PTE_V) j = false) as ->; [|done].
    rewrite PTE_flag_testbit by lia. assert (j = 1 ∨ j = 2 ∨ j = 3) as [->|[->| ->]] by lia; done.
  - assert (Z.testbit PTE_RWX j = false) as ->; [|by rewrite andb_false_r].
    destruct (decide (j = 0)) as [->|]; [done|]. apply Z.bits_above_log2; [done|]. change (Z.log2 PTE_RWX) with 3. lia.
Qed.

Section NewTable.
(** Table [a], at path [q], gets the zero-filled page [n] as its child [i]. *)
Context (m m1 : mem) (root a n i : Z) (q : list Z).
Context (Htree : pt_tree m root) (Hq : path (q ++ [i])) (Ha : tab m root q = Some a).
Context (Hnone : child m a i = None) (Hlow : q = [] → i < 256).
Context (Hn : n mod PGSIZE = 0) (Hn56 : 0 ≤ n < 2 ^ 56) (Hfresh : ¬ is_table m root n).
Context (Hzero : ∀ x, in_page n x → m1 x = 0) (Hsame : ∀ x, ¬ in_page n x → m1 x = m x).
Let m' := store64 m1 (a + 8 * i) (Z.lor (PA2PTE n) PTE_V).

Lemma new_a_table : is_table m root a.
Proof. exists q. split; [by eapply path_prefix|done]. Qed.

Lemma new_a_ne_n : a ≠ n.
Proof. intros E. apply Hfresh. rewrite <- E. exact new_a_table. Qed.

Lemma new_idx : idx i.
Proof. by apply path_snoc in Hq as (_ & _ & ?). Qed.

Lemma new_child_eq : child m' a i = Some n.
Proof using All.
  unfold child, m'. assert (0 ≤ PTE_V < 2 ^ 10) as Hv by (split; vm_compute; done).
  rewrite load64_store64_eq, u64_small by (pose proof (PTE_range n PTE_V Hn56 Hv); lia).
  unfold PTE_V at 2. rewrite has_testbit, PTE_flag_testbit by lia. cbn.
  by rewrite PTE2PA_PA2PTE.
Qed.

(** Entries outside the new page, other than the one written, are kept. *)
Lemma new_entry b j :
  idx j → b mod PGSIZE = 0 → b ≠ n → ¬ (b = a ∧ j = i) →
  load64 m' (b + 8 * j) = load64 m (b + 8 * j).
Proof using All.
  intros Hj Hb Hbn Hne. unfold m'. rewrite load64_store64_ne.
  - apply load64_entry; [done|]. intros x Hx. apply Hsame. intros Hx'. apply Hbn.
    by apply (pages_disjoint b n x).
  - pose proof (pt_aligned _ _ Htree a new_a_table) as Hal.
    destruct (entry_inj b a j i Hb Hal Hj new_idx) as [?|?]; [done|lia].
Qed.

Lemma new_entry_n j : idx j → load64 m' (n + 8 * j) = 0.
Proof using All.
  intros Hj. unfold m'. rewrite load64_store64_ne.
  - apply load64_zero. intros x Hx. apply Hzero. by eapply entry_in_page.
  - pose proof (pt_aligned _ _ Htree a new_a_table) as Hal. pose proof new_a_ne_n.
    destruct (entry_inj n a j i Hn Hal Hj new_idx) as [[? _]|?]; [congruence|lia].
Qed.

Lemma new_child b j :
  idx j → is_table m root b → ¬ (b = a ∧ j = i) → child m' b j = child m b j.
Proof using All.
  intros Hj Hb Hne. unfold child. rewrite new_entry; [done..|eauto using pt_aligned| |done].
  intros ->. by apply Hfresh.
Qed.

Lemma new_tab_mono p b : path p → tab m root p = Some b → tab m' root p = Some b.
Proof using All.
  revert b. induction p as [|j p IH] using rev_ind; intros b Hp Hb; [done|].
  rewrite tab_snoc in Hb |- *. pose proof (path_prefix p j Hp) as Hp'.
  destruct (tab m root p) as [c|] eqn:Hc; cbn in Hb; [|done]. rewrite (IH c) by done. cbn.
  rewrite new_child; [done|by apply path_snoc in Hp as (_ & _ & ?)|by exists p|].
  intros [-> ->]. congruence.
Qed.

Lemma new_tab_inv p b :
  path p → tab m' root p = Some b → tab m root p = Some b ∨ p = q ++ [i] ∧ b = n.
Proof using All.
  revert b. induction p as [|j p IH] using rev_ind; intros b Hp Hb; [by left|].
  rewrite tab_snoc in Hb. pose proof (path_prefix p j Hp) as Hp'.
  assert (idx j) as Hj by by apply path_snoc in Hp as (_ & _ & ?).
  destruct (tab m' root p) as [c|] eqn:Hc; cbn in Hb; [|done].
  destruct (IH c) as [Hc'|[-> ->]]; [done|done| |].
  - destruct (decide (c = a ∧ j = i)) as [[-> ->]|Hne].
    + right. rewrite new_child_eq in Hb. simplify_eq. split; [|done]. f_equal.
      eapply pt_inj; eauto using path_prefix.
    + left. rewrite tab_snoc, Hc'. cbn. rewrite <- Hb. symmetry. apply new_child; [done|by exists p|done].
  - unfold child in Hb. rewrite new_entry_n, has_zero in Hb by done. done.
Qed.

Lemma new_is_table b : is_table m' root b ↔ is_table m root b ∨ b = n.
Proof using All.
  split.
  - intros (p & Hp & Hb). destruct (new_tab_inv p b) as [?|[_ ->]]; [done..| |by right].
    left. by exists p.
  - intros [(p & Hp & Hb)| ->]; [exists p; eauto using new_tab_mono|].
    exists (q ++ [i]). split; [done|]. rewrite tab_snoc, (new_tab_mono q a); eauto using path_prefix.
    cbn. apply new_child_eq.
Qed.

Lemma new_tree : pt_tree m' root.
Proof using All.
  split.
  - intros b [Hb| ->]%new_is_table; [|done]. eauto using pt_aligned.
  - intros p p' b Hp Hp' Hb Hb'.
    destruct (new_tab_inv _ _ Hp Hb) as [Hb1|[E1 E2]], (new_tab_inv _ _ Hp' Hb') as [Hb1'|[E1' E2']].
    + eauto using pt_inj.
    + destruct Hfresh. exists p. by rewrite <- E2'.
    + destruct Hfresh. exists p'. by rewrite <- E2.
    + congruence.
  - intros p b j c Hp Hb Hc. pose proof (path_prefix p j Hp) as Hp'.
    apply path_snoc in Hp as Hi3. destruct Hi3 as (Hlen & _ & Hidx).
    destruct (new_tab_inv _ _ Hp' Hb) as [Hb1|[_ ->]];
      [|by unfold child in Hc; rewrite new_entry_n, has_zero in Hc].
    destruct (decide (b = a ∧ j = i)) as [[-> ->]|Hne].
    + unfold m'. rewrite load64_store64_eq, u64_small by (pose proof (PTE_range n PTE_V Hn56 ltac:(done)); lia).
      by apply inner_flags.
    + assert (is_table m root b) as Hbt by by exists p.
      rewrite new_child in Hc by done. rewrite new_entry; [by eapply pt_inner| | |by intros ->|done]; [done|by eapply pt_aligned].
  - intros j p b Hp Hb. destruct (new_tab_inv _ _ Hp Hb) as [Hb1|[E _]]; [by eapply pt_low|].
    destruct q as [|j' q']; cbn in E; injection E as -> E; [by apply Hlow|].
    change ((j' :: q') ++ [i]) with (j' :: (q' ++ [i])) in Hq. eapply (pt_low _ _ Htree j' q' a); [|done].
    by apply (path_prefix (j' :: q') i).
Qed.

Lemma new_tab_eq : tab m' root (q ++ [i]) = Some n.
Proof using All.
  rewrite tab_snoc, (new_tab_mono q a); eauto using path_prefix. cbn. apply new_child_eq.
Qed.

(** The new table is empty: no translation changes. *)
Lemma new_lookup va : lookup_pte m' root va = lookup_pte m root va.
Proof using All.
  unfold lookup_pte, leaf_addr. pose proof (path_va va) as Hp.
  assert (idx (PX 0 va)) as Hj by by apply PX_range.
  destruct (tab m' root [PX 2 va; PX 1 va]) as [t|] eqn:Ht; cbn.
  - destruct (new_tab_inv _ _ Hp Ht) as [Ht'|[Hpq ->]].
    + rewrite Ht'. cbn. apply new_entry; [done|..].
      * eapply pt_aligned; eauto. eexists; eauto.
      * intros ->. apply Hfresh. eexists; eauto.
      * intros [-> _]. assert ([PX 2 va; PX 1 va] = q) as E by (eapply pt_inj; eauto using path_prefix).
        apply path_snoc in Hq as (Hl & _). rewrite <- E in Hl. cbn in Hl. lia.
    + rewrite new_entry_n by done. destruct (tab m root [PX 2 va; PX 1 va]) as [b|] eqn:Hb; [|done].
      destruct Hfresh. eexists. split; [exact Hp|]. rewrite Hb.
      apply new_tab_mono in Hb; [|done]. congruence.
  - destruct (tab m root [PX 2 va; PX 1 va]) as [b|] eqn:Hb; [|done]. apply new_tab_mono in Hb; [|done]. congruence.
Qed.

Lemma new_out x : ¬ in_page n x → ¬ in_page a x → m' x = m x.
Proof using All.
  intros Hx Hx'. unfold m'. rewrite store64_out; [by apply Hsame|].
  destruct (decide (x < a + 8 * i)); [by left|].
  destruct (decide (a + 8 * i + 8 ≤ x)); [by right|]. exfalso. apply Hx'.
  eapply entry_in_page; [exact new_idx|]. lia.
Qed.
End NewTable.

(** ** An empty page table *)

Section Empty.
Context (m : mem) (root : Z) (Hzero : ∀ x, in_page root x → m x = 0).

Lemma empty_child i : idx i → child m root i = None.
Proof using All.
  intros Hi. unfold child. rewrite load64_zero; [by rewrite has_zero|].
  intros x Hx. apply Hzero. by eapply entry_in_page.
Qed.

Lemma empty_tab p a : path p → tab m root p = Some a → p = [] ∧ a = root.
Proof using All.
  intros [_ Hf] Ht. destruct p as [|i p]; [by injection Ht as ->|].
  inversion Hf; subst. unfold tab in Ht. fold tab in Ht. by rewrite empty_child in Ht.
Qed.

Lemma empty_is_table a : is_table m root a ↔ a = root.
Proof using All.
  split; [intros (p & Hp & Ht); by destruct (empty_tab p a Hp Ht)|].
  intros ->. exists []. split; [exact path_nil|done].
Qed.

Lemma empty_tree : root mod PGSIZE = 0 → pt_tree m root.
Proof using All.
  intros Ha. split; [by intros a ->%empty_is_table|..].
  - intros p q a Hp Hq Hpa Hqa. destruct (empty_tab p a Hp Hpa), (empty_tab q a Hq Hqa). congruence.
  - intros p a i b Hp Hpa Hc. destruct (empty_tab p a (path_prefix p i Hp) Hpa) as [-> ->].
    rewrite empty_child in Hc; [done|]. by apply path_snoc in Hp as (_ & _ & ?).
  - intros i p a Hp Hpa. by destruct (empty_tab (i :: p) a Hp Hpa).
Qed.

Lemma empty_lookup va : lookup_pte m root va = 0.
Proof using All.
  unfold lookup_pte, leaf_addr. destruct (tab m root _) as [t|] eqn:Ht; [|done].
  by destruct (empty_tab _ _ (path_va va) Ht).
Qed.
End Empty.
