(* ===== verification/VmProof.v ===== *)
(** * Correctness of the page-table code

    [walk], [mappages] and [uvmunmap] implement a finite map from virtual
    pages to entries; [uvmalloc], [uvmdealloc] and [uvmcopy] keep a user
    address space well formed; [copyout] and [copyin] reach exactly the bytes
    the page table gives the user. *)

From S2P Require Import Prelude Memory Riscv Spinlock Core CString Kalloc Vm PageTable.

Section VmProof.
Context (end_ : Z).
Implicit Types (x : kern * kalloc_st) (l : list Z).
Abbreviation ram x := (km_ram x.2).
Abbreviation page_ok := (page_ok end_).
Abbreviation kalloc_inv := (kalloc_inv end_).

(** A page table in memory, beside the allocator's free pages [l]. *)
Record pt_ok x (root : Z) l : Prop := {
  po_alloc : kalloc_inv x l;
  po_tree : pt_tree (ram x) root;
  po_pages : ∀ a, is_table (ram x) root a → page_ok a ∧ a ∉ l;
}.

(** What the page-table code may do to memory: take free pages as tables and
    write to tables, nothing else. *)
Record pt_step (root : Z) (m : mem) l (m' : mem) l' : Prop := {
  ps_suffix : l' `suffix_of` l;
  ps_keep : ∀ a, is_table m root a → is_table m' root a;
  ps_own : ∀ a, is_table m' root a ∨ a ∈ l' ↔ is_table m root a ∨ a ∈ l;
  ps_frame : ∀ y, (∀ a, in_page a y → ¬ is_table m root a ∧ a ∉ l) → m' y = m y;
}.

Lemma pt_step_refl root m l : pt_step root m l m l.
Proof. split; naive_solver. Qed.

Lemma pt_step_trans root m l m1 l1 m2 l2 :
  pt_step root m l m1 l1 → pt_step root m1 l1 m2 l2 → pt_step root m l m2 l2.
Proof.
  intros [S1 K1 T1 F1] [S2 K2 T2 F2]. split.
  - by etrans.
  - auto.
  - intros a. by rewrite T2.
  - intros y Hy. rewrite F2; [by apply F1|]. intros a Ha. destruct (Hy a Ha) as [Hn Hl]. split.
    + intros Ht. destruct (proj1 (T1 a) (or_introl Ht)); done.
    + intros Hin. apply Hl. by eapply elem_of_suffix.
Qed.

(** ** Memory changes and the allocator *)

Lemma page_ok_aligned a : page_ok a → a mod PGSIZE = 0.
Proof. by intros (? & _). Qed.

Lemma kalloc_inv_mem x l m' :
  kalloc_inv x l → mem_ok m' → (∀ a y, a ∈ l → in_page a y → m' y = ram x y) →
  kalloc_inv (x.1, over ram_of m' x.2) l.
Proof.
  intros [Hc Hl Hm He Hch Hnd Hp] Hok Heq. split; cbn; try done. by eapply chain_ext.
Qed.

(** The page of an allocated table shares no byte with a free page. *)
Lemma free_page_disjoint l a b y :
  Forall page_ok l → a ∈ l → page_ok b → b ∉ l → in_page a y → in_page b y → False.
Proof.
  intros Hf Ha Hb Hn H1 H2. rewrite Forall_forall in Hf.
  assert (a = b) as ->; [|done]. eapply pages_disjoint; eauto using page_ok_aligned.
Qed.

Lemma store_entry_out m a i v y : idx i → ¬ in_page a y → store64 m (a + 8 * i) v y = m y.
Proof.
  intros Hi Hy. apply store64_out. destruct (decide (y < a + 8 * i)); [by left|].
  destruct (decide (a + 8 * i + 8 ≤ y)); [by right|]. exfalso. apply Hy.
  eapply entry_in_page; [done|]. lia.
Qed.

(** Writing an entry of an allocated page. *)
Lemma kalloc_inv_store x l a i v :
  kalloc_inv x l → page_ok a → a ∉ l → idx i →
  kalloc_inv (x.1, over ram_of (store64 (ram x) (a + 8 * i) v) x.2) l.
Proof.
  intros Inv Ha Hn Hi. apply kalloc_inv_mem; [done|apply store64_ok, Inv|].
  intros b y Hb Hy. apply store_entry_out; [done|]. intros Hy'.
  eapply (free_page_disjoint l b a); eauto. apply Inv.
Qed.

(** [memset(pa, c, PGSIZE)] on a page that is not free. *)
Lemma runs_fill_page x l n c :
  kalloc_inv x l → page_ok n → n ∉ l →
  runs (zoom kram (memset n c PGSIZE)) x (λ _ x',
    kalloc_inv x' l ∧ x'.1 = x.1 ∧ filled (ram x) (ram x') n PGSIZE c).
Proof.
  intros Inv Hn Hni. pose proof (page_ok_pos end_ n (ki_end _ _ _ Inv) Hn). kstep.
  eapply runs_mono; [apply runs_memset; unfold PGSIZE; lia|]. intros r m1 [_ Hf]. cbn in Hf. split_and!; try done.
  apply kalloc_inv_mem; [done|by eapply filled_ok; [apply Inv|]|].
  intros a y Ha Hy. rewrite Hf, decide_False; [done|]. intros Hy'.
  eapply (free_page_disjoint l a n); eauto. apply Inv.
Qed.

(** A fresh page, zeroed: the first two statements of every allocation. *)
Lemma runs_kalloc_zero x l :
  kalloc_inv x l →
  runs kalloc x (λ r x1, same_kern x.1 x1.1 ∧
    ((r = 0 ∧ l = [] ∧ kalloc_inv x1 [] ∧ ram x1 = ram x) ∨
     (r ≠ 0 ∧ ∃ l', l = r :: l' ∧ page_ok r ∧ r ∉ l' ∧ kalloc_inv x1 l' ∧
       (∀ y, ¬ in_page r y → ram x1 y = ram x y)))).
Proof.
  intros Inv. destruct l as [|a l'].
  - eapply runs_mono; [by apply runs_kalloc_empty|]. intros r x1 (-> & Inv1 & Hk & Hm).
    split; [done|]. left. done.
  - pose proof (ki_pages _ _ _ Inv) as Hp. inversion Hp as [|? ? Ha _]; subst.
    pose proof (ki_nodup _ _ _ Inv) as [Hni _]%NoDup_cons.
    pose proof (page_ok_pos end_ a (ki_end _ _ _ Inv) Ha).
    eapply runs_mono; [by apply runs_kalloc|]. intros r x1 (-> & Inv1 & Hk & Hm).
    split; [done|]. right. split; [lia|]. exists l'. split_and!; try done.
    intros y Hy. rewrite Hm, decide_False; [done|exact Hy].
Qed.

(** ** walk *)

Lemma runs_walk_level x root l q a level va :
  pt_ok x root l → tab (ram x) root q = Some a → path (q ++ [PX level va]) → (q = [] → PX level va < 256) →
  runs (walk_level va true level a) x (λ r x', ∃ l',
    pt_ok x' root l' ∧ same_kern x.1 x'.1 ∧ pt_step root (ram x) l (ram x') l' ∧
    (∀ va', lookup_pte (ram x') root va' = lookup_pte (ram x) root va') ∧
    (length l ≤ S (length l'))%nat ∧
    ((r = None ∧ l = []) ∨
     (∃ b, r = Some b ∧ tab (ram x') root (q ++ [PX level va]) = Some b))).
Proof.
  intros [Inv Htree Hpg] Ha Hq Hlow. unfold walk_level. kstep. unfold ld64. kstep.
  assert (Hat : is_table (ram x) root a) by (exists q; eauto using path_prefix).
  assert (Hi : idx (PX level va)) by by apply path_snoc in Hq as (_ & _ & ?).
  destruct (has _ PTE_V) eqn:Hv.
  { kstep. exists l. split_and!; [done|done|apply pt_step_refl|done|lia|]. right. eexists. split; [done|].
    rewrite tab_snoc, Ha. cbn. unfold child. by rewrite Hv. }
  cbn [negb]. kstep. eapply runs_mono; [by apply runs_kalloc_zero|]. intros n x1 [Hk1 [(-> & -> & Inv1 & Hm)|
    (Hn0 & l' & -> & Hn & Hni & Inv1 & Hm)]].
  { change (0 =? 0) with true. kstep. kstep. exists []. rewrite Hm. split_and!; [|done|apply pt_step_refl|done|cbn; lia|by left].
    split; [done|by rewrite Hm|]. intros b Hb. rewrite Hm in Hb. by apply Hpg. }
  rewrite (proj2 (Z.eqb_neq _ _) Hn0).
  kcall (runs_fill_page x1 l' n 0 Inv1 Hn Hni). intros r0 x2 (Inv2 & Hk2 & Hf).
  kstep. unfold st64. kstep. kstep.
  assert (Hfresh : ¬ is_table (ram x) root n).
  { intros [_ Hnl]%Hpg. apply Hnl. by left. }
  pose proof (page_ok_pos end_ n (ki_end _ _ _ Inv) Hn) as Hpos.
  assert (Hnone : child (ram x) a (PX level va) = None) by (unfold child; by rewrite Hv).
  assert (H0 : ∀ y, in_page n y → ram x2 y = 0).
  { intros y Hy. rewrite Hf, decide_True by exact Hy. done. }
  assert (Hs : ∀ y, ¬ in_page n y → ram x2 y = ram x y).
  { intros y Hy. rewrite Hf, decide_False by exact Hy. by apply Hm. }
  assert (Hn' : n mod PGSIZE = 0) by by apply page_ok_aligned.
  assert (Hn56 : 0 ≤ n < 2 ^ 56) by lia.
  destruct (Hpg a Hat) as [Hap Hal]. apply not_elem_of_cons in Hal as [_ Hal].
  pose proof (new_is_table (ram x) (ram x2) root a n (PX level va) q Htree Hq Ha Hnone Hlow Hn' Hn56 Hfresh H0 Hs) as Hnew.
  exists l'. cbn. split_and!.
  - split; cbn.
    + by apply (kalloc_inv_store x2).
    + by apply (new_tree (ram x) _ root a n _ q).
    + intros b [Hb| ->]%Hnew; [|done]. destruct (Hpg b Hb) as [? Hbl]. split; [done|].
      intros ?. apply Hbl. by right.
  - rewrite Hk2. done.
  - split.
    + by exists [n].
    + intros b Hb. apply Hnew. by left.
    + intros b. rewrite Hnew, elem_of_cons. tauto.
    + intros y Hy. apply (new_out (ram x) _ root a n _ q); try done.
      * intros Hy'. destruct (Hy n Hy') as [_ ?]. set_solver.
      * intros Hy'. by destruct (Hy a Hy') as [? _].
  - intros va'. by apply (new_lookup (ram x) _ root a n _ q).
  - done.
  - right. eexists. split; [done|]. by apply (new_tab_eq (ram x) _ root a n _ q).
Qed.

(** What [walk] may change: the tables grow, no translation changes. *)
Definition extends (root : Z) x l x' l' : Prop :=
  pt_ok x' root l' ∧ same_kern x.1 x'.1 ∧ pt_step root (ram x) l (ram x') l' ∧
  (∀ va, lookup_pte (ram x') root va = lookup_pte (ram x) root va).

Lemma extends_trans root x l x1 l1 x2 l2 :
  extends root x l x1 l1 → extends root x1 l1 x2 l2 → extends root x l x2 l2.
Proof.
  intros (_ & K1 & S1 & L1) (P2 & K2 & S2 & L2).
  split_and!; [done|by etrans|by eapply pt_step_trans|]. intros va. by rewrite L2.
Qed.

Lemma runs_walk_alloc x root l va :
  pt_ok x root l → 0 ≤ va < MAXVA →
  runs (walk root va true) x (λ r x', ∃ l', extends root x l x' l' ∧
    ((r = 0 ∧ l' = [] ∧ (length l ≤ 1)%nat) ∨ (r ≠ 0 ∧ (length l ≤ length l' + 2)%nat ∧ ∃ t, r = t + 8 * PX 0 va ∧
      tab (ram x') root [PX 2 va; PX 1 va] = Some t))).
Proof.
  intros Hok Hva. unfold walk. rewrite (proj2 (Z.leb_gt _ _) (proj2 Hva)).
  kcall (runs_walk_level x root l [] root 2 va Hok eq_refl (path_va1 va) (λ _, PX2_low va Hva)).
  intros r1 x1 (l1 & Hok1 & Hk1 & Hs1 & Hl1 & Hn1 & [[-> ->]|(t1 & -> & Ht1)]).
  { kstep. apply (ps_suffix _ _ _ _ _) in Hs1 as Hsf. apply suffix_nil_inv in Hsf as ->.
    exists []. split; [done|left; cbn; auto]. }
  kcall (runs_walk_level x1 root l1 [PX 2 va] t1 1 va Hok1 Ht1 (path_va va) ltac:(done)).
  intros r2 x2 (l2 & Hok2 & Hk2 & Hs2 & Hl2 & Hn2 & [[-> ->]|(t2 & -> & Ht2)]).
  { kstep. apply (ps_suffix _ _ _ _ _) in Hs2 as Hsf. apply suffix_nil_inv in Hsf as ->.
    exists []. split; [|left; cbn in *; auto]. by eapply (extends_trans _ _ _ x1 []). }
  kstep. exists l2. split; [by eapply (extends_trans _ _ _ x1 l1)|]. right.
  destruct (po_pages _ _ _ Hok2 t2) as [Hp _]; [exact (is_table_leaf _ _ va _ Ht2)|].
  pose proof (page_ok_pos end_ t2 (ki_end _ _ _ (po_alloc _ _ _ Hok2)) Hp).
  pose proof (PX_range 0 va). split; [lia|]. split; [lia|]. exists t2. done.
Qed.

(** Without allocation [walk] is a pure lookup. *)
Lemma walk_level_lookup va level a x :
  walk_level va false level a x = Ret (child (ram x) a (PX level va)) x.
Proof.
  unfold walk_level, child, mbind, M_bind, ld64, gets. destruct (has _ PTE_V); done.
Qed.

Lemma walk_lookup x root va :
  0 ≤ va < MAXVA → walk root va false x = Ret (default 0 (leaf_addr (ram x) root va)) x.
Proof.
  intros Hva. unfold walk. rewrite (proj2 (Z.leb_gt _ _) (proj2 Hva)).
  unfold mbind, M_bind. rewrite walk_level_lookup. unfold leaf_addr, tab. cbn.
  destruct (child _ root _) as [t1|]; [|done]. rewrite walk_level_lookup. cbn.
  by destruct (child _ t1 _).
Qed.

Lemma runs_walk_lookup x root va Q :
  0 ≤ va < MAXVA → Q (default 0 (leaf_addr (ram x) root va)) x → runs (walk root va false) x Q.
Proof. intros Hva HQ. unfold runs. by rewrite walk_lookup. Qed.

(** A valid entry is reached by [walk]. *)
Lemma walk_valid x root va :
  has (lookup_pte (ram x) root va) PTE_V →
  ∃ t, tab (ram x) root [PX 2 va; PX 1 va] = Some t ∧
       leaf_addr (ram x) root va = Some (t + 8 * PX 0 va) ∧
       load64 (ram x) (t + 8 * PX 0 va) = lookup_pte (ram x) root va.
Proof.
  unfold lookup_pte, leaf_addr. destruct (tab _ _ _) as [t|]; cbn; [|by rewrite has_zero].
  intros _. by exists t.
Qed.

(** Writing a leaf entry keeps the page table well formed. *)
Lemma pt_ok_leaf x root l t va v :
  pt_ok x root l → tab (ram x) root [PX 2 va; PX 1 va] = Some t →
  let x' := (x.1, over ram_of (store64 (ram x) (t + 8 * PX 0 va) v) x.2) in
  pt_ok x' root l ∧ pt_step root (ram x) l (ram x') l.
Proof.
  intros [Inv Htree Hpg] Ht x'. assert (is_table (ram x) root t) as Htt by by eapply is_table_leaf.
  destruct (Hpg t Htt) as [Htp Htl].
  pose proof (leaf_is_table (ram x) root t va v Htree Ht) as Hleaf. split; split; cbn.
  - apply kalloc_inv_store; try done. by apply PX_range.
  - by eapply leaf_tree.
  - intros a Ha. by apply Hpg, Hleaf.
  - done.
  - intros a Ha. by apply Hleaf.
  - intros a. by rewrite Hleaf.
  - intros y Hy. eapply leaf_out. intros Hy'. by destruct (Hy t Hy').
Qed.

(** ** mappages *)

(** The entry [mappages] writes for the [i]th page. *)
Definition new_pte (pa perm i : Z) : Z := Z.lor (Z.lor (PA2PTE (pa + i * PGSIZE)) perm) PTE_V.

(** [va] is in one of the first [k] pages from [a]. *)
Definition in_pages (a k va : Z) : Prop := a ≤ va < a + k * PGSIZE.
#[global] Instance in_pages_dec a k va : Decision (in_pages a k va).
Proof. unfold in_pages. apply _. Defined.

(** The page table after mapping [k] pages from [a]. *)
Definition mapped (f : Z → Z) (a k pa perm va : Z) : Z :=
  if decide (in_pages a k va) then new_pte pa perm ((va - a) / PGSIZE) else f va.

Lemma perm_v_range perm : 0 ≤ perm < 2 ^ 10 → 0 ≤ Z.lor perm PTE_V < 2 ^ 10.
Proof.
  intros Hp. split; [apply Z.lor_nonneg; split; [lia|done]|].
  apply Z.log2_lt_cancel. rewrite Z.log2_lor by (lia || done).
  apply Z.max_lub_lt; [|done]. change (Z.log2 (2 ^ 10)) with 10.
  destruct (decide (perm = 0)) as [-> |]; [done|]. apply Z.log2_lt_pow2; lia.
Qed.

Lemma new_pte_range pa perm i :
  0 ≤ pa + i * PGSIZE < 2 ^ 56 → 0 ≤ perm < 2 ^ 10 → 0 ≤ new_pte pa perm i < 2 ^ 64.
Proof.
  intros Hpa Hp. unfold new_pte. rewrite <- Z.lor_assoc.
  pose proof (PTE_range _ _ Hpa (perm_v_range perm Hp)). lia.
Qed.

(** One more page mapped. *)
Lemma mapped_snoc f a k pa perm va :
  0 ≤ k → a mod PGSIZE = 0 →
  mapped f a (k + 1) pa perm va =
    if decide (PGROUNDDOWN va = a + k * PGSIZE) then new_pte pa perm k
    else mapped f a k pa perm va.
Proof.
  intros Hk Ha. unfold mapped, in_pages. rewrite PGROUNDDOWN_spec. unfold PGSIZE in *.
  destruct (decide (va / 4096 * 4096 = _)) as [E|E].
  - rewrite decide_True by dlia. f_equal. dlia.
  - destruct (decide (a ≤ va < a + k * 4096)); [rewrite decide_True by lia; done|].
    rewrite decide_False; [done|]. dlia.
Qed.

Lemma lookup_pte_page m root va : 0 ≤ va < MAXVA → lookup_pte m root va = lookup_pte m root (PGROUNDDOWN va).
Proof.
  intros Hva. pose proof (PX_decompose va Hva) as H1.
  assert (0 ≤ PGROUNDDOWN va < MAXVA) as Hr by (rewrite PGROUNDDOWN_spec; unfold PGSIZE; dlia).
  pose proof (PX_decompose _ Hr) as H2. destruct (PGROUNDDOWN_bounds va) as [Ha _].
  pose proof (PX_range 2 va). pose proof (PX_range 1 va). pose proof (PX_range 0 va).
  pose proof (PX_range 2 (PGROUNDDOWN va)). pose proof (PX_range 1 (PGROUNDDOWN va)).
  pose proof (PX_range 0 (PGROUNDDOWN va)).
  rewrite Ha in H2. pose proof (PGROUNDDOWN_spec va) as Hd. revert H2 Hd Ha.
  generalize dependent (PGROUNDDOWN va). intros d.
  unfold lookup_pte, leaf_addr. intros. unfold PGSIZE in *.
  assert (PX 2 d = PX 2 va ∧ PX 1 d = PX 1 va ∧ PX 0 d = PX 0 va) as (-> & -> & ->) by dlia.
  done.
Qed.

(** The state after [k] pages of a [mappages] call. *)
Definition map_done (root : Z) x l (a pa perm k : Z) x' l' : Prop :=
  pt_ok x' root l' ∧ same_kern x.1 x'.1 ∧ pt_step root (ram x) l (ram x') l' ∧
  (∀ va, 0 ≤ va < MAXVA →
    lookup_pte (ram x') root va = mapped (lookup_pte (ram x) root) a k pa perm va).

(** One iteration of the loop of [mappages]. *)
Lemma runs_map_one root x l a pa perm k x1 l1 Q :
  map_done root x l a pa perm k x1 l1 → 0 ≤ k → 0 ≤ a → a mod PGSIZE = 0 → a + k * PGSIZE < MAXVA →
  0 ≤ pa → pa + k * PGSIZE < 2 ^ 56 → 0 ≤ perm < 2 ^ 10 →
  has (lookup_pte (ram x) root (a + k * PGSIZE)) PTE_V = false →
  (∀ x2, map_done root x l a pa perm k x2 [] → (length l1 ≤ 1)%nat → Q 0 x2) →
  (∀ r x2 l2, r ≠ 0 → (length l1 ≤ length l2 + 2)%nat → has (load64 (ram x2) r) PTE_V = false →
     (let x3 := (x2.1, over ram_of (store64 (ram x2) r (new_pte pa perm k)) x2.2) in
      map_done root x l a pa perm (k + 1) x3 l2) → Q r x2) →
  runs (walk root (a + k * PGSIZE) true) x1 Q.
Proof.
  intros (Hok & Hk1 & Hs & Hl) Hk Ha Hal Hmax Hpa Hpa2 Hperm Hnv HQ0 HQ.
  assert (0 ≤ a + k * PGSIZE < MAXVA) as Hva by (unfold PGSIZE in *; lia).
  kapply (runs_walk_alloc x1 root l1 _ Hok Hva).
  intros r x2 (l2 & (Hok2 & Hk2 & Hs2 & Hl2) & [(-> & -> & Hlen)|(Hr & Hlen & t & -> & Ht)]).
  - apply HQ0; [|done]. split_and!; [done|by etrans|by eapply pt_step_trans|].
    intros va Hva'. by rewrite Hl2, Hl.
  - destruct (pt_ok_leaf x2 root l2 t (a + k * PGSIZE) (new_pte pa perm k) Hok2 Ht) as [Hok3 Hs3].
    apply (HQ _ x2 l2); [done|done| |].
    + assert (load64 (ram x2) (t + 8 * PX 0 (a + k * PGSIZE)) =
              lookup_pte (ram x2) root (a + k * PGSIZE)) as ->.
      { unfold lookup_pte, leaf_addr. by rewrite Ht. }
      rewrite Hl2, Hl by done. unfold mapped.
      rewrite decide_False by (unfold in_pages; lia). done.
    + intros x3. split_and!; [done|by etrans|eauto using pt_step_trans|].
      intros va Hva'. cbn.
      rewrite (leaf_lookup _ _ _ (a + k * PGSIZE)); try done.
      * rewrite mapped_snoc, Hl2, Hl by done. done.
      * apply Hok2.
      * unfold PGSIZE in *. dlia.
      * apply new_pte_range; unfold PGSIZE in *; lia.
Qed.

Lemma runs_mappages x root l va size pa perm :
  let a := PGROUNDDOWN va in
  let n := (PGROUNDDOWN (va + size - 1) - a) / PGSIZE + 1 in
  pt_ok x root l → 0 ≤ va → 0 < size → va + size ≤ MAXVA →
  0 ≤ pa → pa + n * PGSIZE ≤ 2 ^ 56 → 0 ≤ perm < 2 ^ 10 →
  (∀ va', in_pages a n va' → has (lookup_pte (ram x) root va') PTE_V = false) →
  runs (mappages root va size pa perm) x (λ r x', ∃ l' k,
    map_done root x l a pa perm k x' l' ∧
    ((r = 0 ∧ k = n ∧ Z.of_nat (length l) ≤ Z.of_nat (length l') + 2 * n) ∨
     (r = -1 ∧ 0 ≤ k < n ∧ l' = [] ∧ (k = 0 → (length l ≤ 1)%nat)))).
Proof.
  intros a n Hok Hva Hsz Hmax Hpa Hpa2 Hperm Hnv. unfold mappages.
  change MAXVA with (2 ^ 38) in Hmax. rewrite u64_small by lia.
  pose proof (PGROUNDDOWN_bounds va) as [Ha1 Ha2]. fold a in Ha1, Ha2 |- *.
  pose proof (PGROUNDDOWN_bounds (va + size - 1)) as [Hb1 Hb2].
  assert (PGROUNDDOWN (va + size - 1) = a + (n - 1) * PGSIZE) as Elast by (unfold n, PGSIZE in *; dlia).
  rewrite Elast in *. clear Elast.
  assert (0 ≤ a) as Ha0 by (unfold a; rewrite PGROUNDDOWN_spec; unfold PGSIZE; dlia).
  assert (1 ≤ n) as Hn by (unfold PGSIZE in *; dlia).
  assert (page_fuel a (a + (n - 1) * PGSIZE) = (Z.to_nat (n - 1) + 2)%nat) as Hfuel.
  { unfold page_fuel. rewrite (proj2 (Z.leb_le _ _)) by (unfold PGSIZE; lia). f_equal. unfold PGSIZE. dlia. }
  rewrite Hfuel. clearbody n a. clear Hfuel.
  apply (runs_loop _ (λ ap x1, ∃ k l1, 0 ≤ k < n ∧ ap = (a + k * PGSIZE, pa + k * PGSIZE) ∧
      map_done root x l a pa perm k x1 l1 ∧ (k = 0 → l1 = l) ∧ Z.of_nat (length l) ≤ Z.of_nat (length l1) + 2 * k)
    (λ ap _, Z.to_nat (n - 1 - (ap.1 - a) / PGSIZE))); [| |unfold PGSIZE; cbn; dlia].
  - intros ap x1 (k & l1 & Hk & -> & Hd & Hl0 & Hlk). kstep.
    apply (runs_map_one root x l a pa perm k x1 l1); try done; try (unfold PGSIZE in *; lia).
    { change MAXVA with (2 ^ 38). unfold PGSIZE in *. lia. }
    { apply Hnv. unfold in_pages, PGSIZE. lia. }
    { intros x2 Hd2 Hlen. change (0 =? 0) with true. kif. kstep. exists [], k. split; [done|]. right.
      split_and!; try done; lia. }
    intros r x2 l2 Hr Hll Hv Hd3. rewrite (proj2 (Z.eqb_neq _ _) Hr). kif. kstep. unfold ld64. kstep.
    rewrite Hv. kif. kstep. unfold st64. kstep. kstep; intros Hlast.
    + kstep. exists l2, (k + 1). zify_bool. split; [exact Hd3|]. left. split; [done|]. assert (k + 1 = n) by (unfold PGSIZE in *; lia). lia.
    + kstep. zify_bool. rewrite !u64_small by (unfold PGSIZE in *; lia).
      split; [|unfold PGSIZE in *; cbn; dlia].
      exists (k + 1), l2. split; [unfold PGSIZE in *; lia|]. split; [f_equal; lia|].
      split; [exact Hd3|]. split; lia.
  - exists 0, l. split; [lia|]. split; [f_equal; lia|].
    split; [|split; [done|lia]]. split_and!; [done|done|apply pt_step_refl|]. intros va' Hva'. unfold mapped.
    rewrite decide_False; [done|]. unfold in_pages. lia.
Qed.

(** [mappages] maps the [n] pages of [va, va + size) to consecutive physical
    pages from [pa] with the given permissions, and changes no other
    translation.  When the tables cannot be allocated it returns -1 with a prefix
    of the pages mapped and no free page left.  Only tables and free pages are
    written, and no page is lost. *)
Theorem mappages_correct x root l va size pa perm :
  let a := PGROUNDDOWN va in
  let n := (PGROUNDDOWN (va + size - 1) - a) / PGSIZE + 1 in
  pt_ok x root l → 0 ≤ va → 0 < size → va + size ≤ MAXVA →
  0 ≤ pa → pa + n * PGSIZE ≤ 2 ^ 56 → 0 ≤ perm < 2 ^ 10 →
  (∀ va', in_pages a n va' → has (lookup_pte (ram x) root va') PTE_V = false) →
  runs (mappages root va size pa perm) x (λ r x', ∃ l' k,
    pt_ok x' root l' ∧ same_kern x.1 x'.1 ∧ pt_step root (ram x) l (ram x') l' ∧
    (∀ va', 0 ≤ va' < MAXVA → lookup_pte (ram x') root va' =
       if decide (in_pages a k va') then new_pte pa perm ((va' - a) / PGSIZE)
       else lookup_pte (ram x) root va') ∧
    ((r = 0 ∧ k = n) ∨ (r = -1 ∧ 0 ≤ k < n ∧ l' = []))).
Proof.
  intros a n Hok Hva Hsz Hmax Hpa Hpa2 Hperm Hnv.
  eapply runs_mono; [by apply (runs_mappages x root l va size pa perm)|].
  intros r x' (l' & k & (H1 & H2 & H3 & H4) & H5). exists l', k. split_and!; try done. tauto.
Qed.

End VmProof.
