(* ===== verification/Uvm.v ===== *)
(** * User address spaces

    The operations of [Vm] that grow, shrink, copy and access a user address
    space.  An address space owns its page-table pages and the pages it maps;
    [uvm_ok] says these are distinct allocated pages, [uvm_step] that the
    operations move pages between the address space and the free list without
    losing any, and touch no other memory. *)

From S2P Require Import Prelude Memory Riscv Spinlock Core CString Kalloc Vm PageTable VmProof.

Section Uvm.
Context (end_ : Z).
Implicit Types (x : kern * kalloc_st) (l : list Z) (D : Z → Prop).
Abbreviation ram x := (km_ram x.2).
Abbreviation page_ok := (page_ok end_).
Abbreviation kalloc_inv := (kalloc_inv end_).
Abbreviation pt_ok := (pt_ok end_).

(** The entry and the physical page of the [i]th virtual page. *)
Definition upte (m : mem) (root i : Z) : Z := lookup_pte m root (i * PGSIZE).
Definition upage (m : mem) (root i : Z) : Z := PTE2PA (upte m root i).

Definition vpage (i : Z) : Prop := 0 ≤ i < MAXVA / PGSIZE.

(** The pages an address space mapping the virtual pages [D] owns. *)
Definition owned (m : mem) (root : Z) D (a : Z) : Prop :=
  is_table m root a ∨ ∃ i, D i ∧ a = upage m root i.

Record uvm_ok x (root : Z) l D : Prop := {
  uo_pt : pt_ok x root l;
  uo_dom : ∀ i, D i → vpage i;
  uo_valid : ∀ i, D i → has (upte (ram x) root i) PTE_V = true;
  uo_leaf : ∀ i, D i → PTE_FLAGS (upte (ram x) root i) ≠ PTE_V;
  uo_page : ∀ i, D i → page_ok (upage (ram x) root i);
  uo_used : ∀ i, D i → upage (ram x) root i ∉ l;
  uo_notab : ∀ i, D i → ¬ is_table (ram x) root (upage (ram x) root i);
  uo_inj : ∀ i j, D i → D j → upage (ram x) root i = upage (ram x) root j → i = j;
}.

(** Pages move between the address space and the free list, none is lost, and
    no other memory changes. *)
Record uvm_step (root : Z) x l D x' l' D' : Prop := {
  us_kern : same_kern x.1 x'.1;
  us_own : ∀ a, owned (ram x') root D' a ∨ a ∈ l' ↔ owned (ram x) root D a ∨ a ∈ l;
  us_frame : ∀ y, (∀ a, in_page a y → ¬ owned (ram x) root D a ∧ a ∉ l) → ram x' y = ram x y;
}.

Lemma uvm_step_refl root x l D : uvm_step root x l D x l D.
Proof. split; try done. Qed.

Lemma uvm_step_trans root x l D x1 l1 D1 x2 l2 D2 :
  uvm_step root x l D x1 l1 D1 → uvm_step root x1 l1 D1 x2 l2 D2 → uvm_step root x l D x2 l2 D2.
Proof.
  intros [K1 O1 F1] [K2 O2 F2]. split; [by etrans| |].
  - intros a. by rewrite O2.
  - intros y Hy. rewrite F2; [by apply F1|]. intros a Ha. destruct (Hy a Ha) as [H1 H2].
    pose proof (O1 a) as Ho. tauto.
Qed.

(** Domains up to equivalence. *)
Lemma owned_ext m root D D' a : (∀ i, D i ↔ D' i) → owned m root D a ↔ owned m root D' a.
Proof.
  intros HD. unfold owned. split; (intros [?|(i & Hi & ->)]; [by left|right; exists i; split; [by apply HD|done]]).
Qed.

Lemma uvm_ok_ext x root l D D' : (∀ i, D i ↔ D' i) → uvm_ok x root l D → uvm_ok x root l D'.
Proof.
  intros HD [H1 H2 H3 H4 H5 H6 H7 H8].
  split; [done|..]; intros i; intros; repeat match goal with H : D' _ |- _ => apply HD in H end; auto.
Qed.

Lemma uvm_step_ext root x l D x' l' D1 D2 :
  (∀ i, D1 i ↔ D2 i) → uvm_step root x l D x' l' D1 → uvm_step root x l D x' l' D2.
Proof.
  intros HD [K O F]. split; [done| |done]. intros a. rewrite <- (owned_ext _ _ D1) by done. apply O.
Qed.

Lemma vpage_va i : vpage i → 0 ≤ i * PGSIZE < MAXVA ∧ (i * PGSIZE) mod PGSIZE = 0.
Proof. unfold vpage, PGSIZE. change (MAXVA / 4096) with (2 ^ 26). change MAXVA with (2 ^ 38). intros. dlia. Qed.

Lemma PTE2PA_new pa perm i :
  0 ≤ pa + i * PGSIZE < 2 ^ 56 → pa mod PGSIZE = 0 → 0 ≤ perm < 2 ^ 10 →
  PTE2PA (new_pte pa perm i) = pa + i * PGSIZE.
Proof.
  intros Hpa Ha Hp. unfold new_pte. rewrite <- Z.lor_assoc. apply PTE2PA_PA2PTE; [done| |].
  - unfold PGSIZE in *. dlia.
  - by apply perm_v_range.
Qed.

Lemma flags_new pa perm i :
  0 ≤ pa + i * PGSIZE < 2 ^ 56 → 0 ≤ perm < 2 ^ 10 →
  PTE_FLAGS (new_pte pa perm i) = Z.lor perm PTE_V.
Proof.
  intros Hpa Hp. unfold new_pte. rewrite <- Z.lor_assoc. apply PTE_FLAGS_PA2PTE; [done|].
  by apply perm_v_range.
Qed.

Lemma has_V_new pa perm i : has (new_pte pa perm i) PTE_V = true.
Proof. unfold new_pte, PTE_V. rewrite has_testbit, Z.lor_spec, Z.shiftl_spec by lia. by rewrite orb_true_r. Qed.

(** Nothing in [D] changes when memory changes only outside the tables. *)
Lemma owned_frame x root l D m' :
  uvm_ok x root l D → (∀ a y, is_table (ram x) root a → in_page a y → m' y = ram x y) →
  (∀ i, upte m' root i = upte (ram x) root i) ∧
  ∀ a, owned m' root D a ↔ owned (ram x) root D a.
Proof.
  intros Hok Heq. assert (∀ i, upte m' root i = upte (ram x) root i) as Hu.
  { intros i. unfold upte. by apply lookup_pte_ext. }
  split; [done|]. intros a. unfold owned. rewrite (is_table_ext (ram x) m') by done.
  unfold upage. by setoid_rewrite Hu.
Qed.

(** The pages [D] keep their entries and their contents. *)
Definition keeps (root : Z) x x' D : Prop :=
  ∀ i, D i → upte (ram x') root i = upte (ram x) root i ∧
             ∀ y, in_page (upage (ram x) root i) y → ram x' y = ram x y.

Lemma keeps_refl root x D : keeps root x x D.
Proof. done. Qed.

Lemma keeps_trans root x1 x2 x3 D : keeps root x1 x2 D → keeps root x2 x3 D → keeps root x1 x3 D.
Proof.
  intros H1 H2 i Hi. destruct (H1 i Hi) as [E1 F1], (H2 i Hi) as [E2 F2]. split; [by rewrite E2|].
  intros y Hy. rewrite F2; [by apply F1|]. unfold upage in *. by rewrite E1.
Qed.

Lemma keeps_sub root x x' D D' : (∀ i, D' i → D i) → keeps root x x' D → keeps root x x' D'.
Proof. intros HD H i Hi. by apply H, HD. Qed.

(** The leaf entry of the virtual page [k]. *)
Lemma leaf_upte m root t k v i :
  pt_tree m root → tab m root [PX 2 (k * PGSIZE); PX 1 (k * PGSIZE)] = Some t →
  vpage k → vpage i → 0 ≤ v < 2 ^ 64 →
  upte (store64 m (t + 8 * PX 0 (k * PGSIZE)) v) root i = if decide (i = k) then v else upte m root i.
Proof.
  intros Htree Ht Hk Hi Hv. destruct (vpage_va k Hk), (vpage_va i Hi).
  unfold upte. rewrite (leaf_lookup _ _ _ (k * PGSIZE)) by done.
  rewrite PGROUNDDOWN_aligned by done. unfold PGSIZE.
  destruct (decide (i = k)) as [-> |]; [by rewrite decide_True|]. rewrite decide_False; [done|lia].
Qed.

(** A write outside every page of an address space. *)
Lemma uvm_page_out x root l D i a y :
  uvm_ok x root l D → D i → in_page (upage (ram x) root i) y → in_page a y → a mod PGSIZE = 0 →
  a = upage (ram x) root i.
Proof.
  intros Hok Hi Hy Ha Hal. apply (pages_disjoint _ _ y); try done.
  by apply (page_ok_aligned end_), (uo_page _ _ _ _ Hok).
Qed.

Lemma table_aligned x root l a : pt_ok x root l → is_table (ram x) root a → a mod PGSIZE = 0.
Proof. intros Hok Ha. by apply (page_ok_aligned end_), (po_pages _ _ _ _ Hok). Qed.

(** A well-formed address space restricted to pages whose entries are kept. *)
Lemma uvm_ok_sub x root l D x2 l2 D' :
  uvm_ok x root l D → pt_ok x2 root l2 →
  (∀ i, D' i → D i ∧ upte (ram x2) root i = upte (ram x) root i ∧ upage (ram x) root i ∉ l2) →
  (∀ i, D' i → ¬ is_table (ram x2) root (upage (ram x) root i)) →
  uvm_ok x2 root l2 D'.
Proof.
  intros Hok Hpt HD Hnt.
  assert (Hpg : ∀ i, D' i → upage (ram x2) root i = upage (ram x) root i).
  { intros i Hi. unfold upage. by destruct (HD i Hi) as (_ & -> & _). }
  split; [done|..].
  - intros i Hi. by apply (uo_dom _ _ _ _ Hok), HD.
  - intros i Hi. destruct (HD i Hi) as (? & -> & _). by apply (uo_valid _ _ _ _ Hok).
  - intros i Hi. destruct (HD i Hi) as (? & -> & _). by apply (uo_leaf _ _ _ _ Hok).
  - intros i Hi. rewrite Hpg by done. by apply (uo_page _ _ _ _ Hok), HD.
  - intros i Hi. rewrite Hpg by done. by apply HD.
  - intros i Hi. rewrite Hpg by done. by apply Hnt.
  - intros i j Hi Hj. rewrite !Hpg by done. apply (uo_inj _ _ _ _ Hok); by apply HD.
Qed.

(** The core of unmapping: page [k] is freed, then its entry cleared. *)
Lemma unmap_state x root l D k x1 t :
  uvm_ok x root l D → D k →
  tab (ram x) root [PX 2 (k * PGSIZE); PX 1 (k * PGSIZE)] = Some t →
  let p := upage (ram x) root k in
  kalloc_inv x1 (p :: l) → same_kern x.1 x1.1 → (∀ y, ¬ in_page p y → ram x1 y = ram x y) →
  let x2 := (x1.1, over ram_of (store64 (ram x1) (t + 8 * PX 0 (k * PGSIZE)) 0) x1.2) in
  let D' := λ i, D i ∧ i ≠ k in
  uvm_ok x2 root (p :: l) D' ∧ uvm_step root x l D x2 (p :: l) D' ∧ keeps root x x2 D' ∧
  (∀ i, vpage i → upte (ram x2) root i = if decide (i = k) then 0 else upte (ram x) root i).
Proof.
  intros Hok Hk Ht p Inv1 Hk1 Hm x2 D'.
  pose proof (uo_pt _ _ _ _ Hok) as Hpt.
  assert (Hpa : p mod PGSIZE = 0) by by apply (page_ok_aligned end_), (uo_page _ _ _ _ Hok).
  assert (Htab : ∀ a y, is_table (ram x) root a → in_page a y → ram x1 y = ram x y).
  { intros a y Ha Hy. apply Hm. intros Hy'. apply (uo_notab _ _ _ _ Hok k Hk). fold p.
    replace p with a; [done|]. apply (pages_disjoint a p y); try done. by eapply table_aligned. }
  destruct (owned_frame x root l D (ram x1) Hok Htab) as [Hu Ho].
  assert (Ht1 : tab (ram x1) root [PX 2 (k * PGSIZE); PX 1 (k * PGSIZE)] = Some t).
  { rewrite (tab_ext (ram x)); [done|apply path_va|]. intros q a Hq _ Hqa y. apply Htab. by exists q. }
  assert (Hpt1 : pt_ok x1 root (p :: l)).
  { split; [done|by eapply pt_tree_ext; [exact Htab|apply Hpt]|].
    intros a Ha. rewrite (is_table_ext (ram x)) in Ha by done.
    destruct (po_pages _ _ _ _ Hpt a Ha) as [? ?]. split; [done|]. apply not_elem_of_cons. split; [|done].
    intros ->. by apply (uo_notab _ _ _ _ Hok k Hk). }
  destruct (pt_ok_leaf end_ x1 root (p :: l) t _ 0 Hpt1 Ht1) as [Hpt2 Hs2]. fold x2 in Hpt2, Hs2.
  assert (Hvk : vpage k) by by eapply uo_dom.
  assert (Hu2 : ∀ i, vpage i → upte (ram x2) root i = if decide (i = k) then 0 else upte (ram x) root i).
  { intros i Hi. cbn. rewrite leaf_upte; try done; [by rewrite Hu|apply Hpt1]. }
  assert (Hup : ∀ i, D' i → upte (ram x2) root i = upte (ram x) root i).
  { intros i [Hi Hne]. rewrite Hu2, decide_False by (done || by eapply uo_dom). done. }
  assert (Htt : ∀ a, is_table (ram x2) root a ↔ is_table (ram x) root a).
  { intros a. rewrite <- (is_table_ext (ram x) (ram x1)) by done.
    apply leaf_is_table; [apply Hpt1|done]. }
  assert (Htp : is_table (ram x) root t) by by eapply is_table_leaf.
  split_and!; [| | |done].
  - eapply (uvm_ok_sub x root l D); [done|done|..].
    + intros i Hi. split_and!; [apply Hi|by apply Hup|].
      apply not_elem_of_cons. split; [|by apply (uo_used _ _ _ _ Hok), Hi].
      intros E. apply Hi. apply (uo_inj _ _ _ _ Hok); [apply Hi|done|done].
    + intros i Hi. rewrite Htt. by apply (uo_notab _ _ _ _ Hok), Hi.
  - split; [done| |].
    + intros a. unfold owned. rewrite Htt, elem_of_cons. unfold upage, D'. split.
      * intros [[?|(i & Hi & ->)]|[->|?]]; [by left; left| |left; right; by exists k|by right].
        left. right. exists i. rewrite Hup by done. by destruct Hi.
      * intros [[?|(i & Hi & ->)]|?]; [by left; left| |by right; right].
        destruct (decide (i = k)) as [-> |Hne]; [right; by left|].
        left. right. exists i. by rewrite Hup.
    + intros y Hy. rewrite (ps_frame _ _ _ _ _ Hs2).
      * apply Hm. intros Hy'. destruct (Hy p Hy') as [Hno _]. apply Hno. right. by exists k.
      * intros a Ha. destruct (Hy a Ha) as [Hno Hnl]. rewrite (is_table_ext (ram x)) by done. split.
        -- intros ?. apply Hno. by left.
        -- apply not_elem_of_cons. split; [|done]. intros ->. apply Hno. right. by exists k.
  - intros i [Hi Hne]. split; [by apply Hup|]. intros y Hy.
    assert (ram x2 y = ram x1 y) as ->.
    { eapply leaf_out. intros Hy'. apply (uo_notab _ _ _ _ Hok i Hi).
      by rewrite <- (uvm_page_out x root l D i t y Hok Hi Hy Hy' (table_aligned _ _ _ _ Hpt Htp)). }
    apply Hm. intros Hy'. apply Hne. eapply (uo_inj _ _ _ _ Hok); [done|done|].
    symmetry. by eapply uvm_page_out.
Qed.

(** [walk] reaches the entry of a mapped page. *)
Lemma walk_pte x root l D k :
  uvm_ok x root l D → D k →
  ∃ pte t, walk root (k * PGSIZE) false x = Ret pte x ∧ (pte =? 0) = false ∧
    load64 (ram x) pte = upte (ram x) root k ∧
    tab (ram x) root [PX 2 (k * PGSIZE); PX 1 (k * PGSIZE)] = Some t ∧ pte = t + 8 * PX 0 (k * PGSIZE).
Proof.
  intros Hok Hk. destruct (vpage_va k (uo_dom _ _ _ _ Hok k Hk)) as [Hva Hal].
  pose proof (uo_valid _ _ _ _ Hok k Hk) as Hv. pose proof (uo_pt _ _ _ _ Hok) as Hpt.
  destruct (walk_valid x root (k * PGSIZE) ltac:(by apply Is_true_true)) as (t & Ht & Hleaf & Hld).
  exists (t + 8 * PX 0 (k * PGSIZE)), t.
  destruct (po_pages _ _ _ _ Hpt t (is_table_leaf _ _ _ _ Ht)) as [Htp _].
  pose proof (page_ok_pos end_ t (ki_end _ _ _ (po_alloc _ _ _ _ Hpt)) Htp).
  pose proof (PX_range 0 (k * PGSIZE)). split_and!; try done.
  - by rewrite walk_lookup, Hleaf.
  - apply Z.eqb_neq. lia.
Qed.

Lemma runs_uvmunmap_page x root l D k :
  uvm_ok x root l D → D k →
  let p := upage (ram x) root k in
  let D' := λ i, D i ∧ i ≠ k in
  runs (uvmunmap_page end_ root (k * PGSIZE) true) x (λ _ x',
    uvm_ok x' root (p :: l) D' ∧ uvm_step root x l D x' (p :: l) D' ∧ keeps root x x' D' ∧
    (∀ i, vpage i → upte (ram x') root i = if decide (i = k) then 0 else upte (ram x) root i)).
Proof.
  intros Hok Hk p D'. unfold uvmunmap_page. kstep.
  destruct (walk_pte x root l D k Hok Hk) as (pte & t & Hw & Hp0 & Hld & Ht & ->).
  eapply runs_eq; [exact Hw|]. pose proof (uo_pt _ _ _ _ Hok) as Hpt.
  rewrite Hp0. kif. kstep. unfold ld64. kstep. rewrite Hld, (uo_valid _ _ _ _ Hok k Hk). cbn [negb].
  rewrite (proj2 (Z.eqb_neq _ _) (uo_leaf _ _ _ _ Hok k Hk)).
  unfold when. fold (upage (ram x) root k).
  kcall (runs_kfree end_ x l p (po_alloc _ _ _ _ Hpt) (uo_page _ _ _ _ Hok k Hk) (uo_used _ _ _ _ Hok k Hk)).
  intros r x1 (Inv1 & Hk1 & Hm). unfold st64. kstep. by apply unmap_state.
Qed.

(** Pages [lo, hi) leave the address space. *)
Definition outside D (lo hi : Z) : Z → Prop := λ i, D i ∧ ¬ (lo ≤ i < hi).

Definition unmap_done (root : Z) x l D lo hi x' l' : Prop :=
  uvm_ok x' root l' (outside D lo hi) ∧ uvm_step root x l D x' l' (outside D lo hi) ∧
  keeps root x x' (outside D lo hi) ∧
  (∀ i, vpage i → upte (ram x') root i = if decide (lo ≤ i < hi) then 0 else upte (ram x) root i) ∧
  l' = reverse (upage (ram x) root <$> seqZ lo (hi - lo)) ++ l.

Lemma unmap_done_refl root x l D lo :
  uvm_ok x root l D → unmap_done root x l D lo lo x l.
Proof.
  intros Hok. unfold unmap_done. rewrite Z.sub_diag.
  assert (∀ i, D i ↔ outside D lo lo i) as HD by (unfold outside; intros; split; [split; [done|lia]|tauto]).
  split_and!; [by eapply uvm_ok_ext|eapply uvm_step_ext, uvm_step_refl; done|done| |done].
  intros i _. rewrite decide_False; [done|lia].
Qed.

Lemma unmap_done_snoc root x l D lo k x1 l1 x2 :
  lo ≤ k → unmap_done root x l D lo k x1 l1 → D k →
  let p := upage (ram x1) root k in
  let D1 := λ i, outside D lo k i ∧ i ≠ k in
  uvm_ok x2 root (p :: l1) D1 → uvm_step root x1 l1 (outside D lo k) x2 (p :: l1) D1 →
  keeps root x1 x2 D1 →
  (∀ i, vpage i → upte (ram x2) root i = if decide (i = k) then 0 else upte (ram x1) root i) →
  unmap_done root x l D lo (k + 1) x2 (p :: l1).
Proof.
  intros Hlo (Hok1 & Hs1 & Hk1 & Hu1 & ->) Hk p D1 Hok2 Hs2 Hk2 Hu2.
  assert (outside D lo k k) as Hko by (split; [done|lia]).
  assert (∀ i, D1 i ↔ outside D lo (k + 1) i) as HD.
  { unfold D1, outside. intros i. split; [intros [[? ?] ?]; split; [done|lia]|].
    intros [? ?]. split; [split; [done|lia]|]. intros ->. lia. }
  split_and!.
  - by eapply uvm_ok_ext.
  - eapply uvm_step_ext; [exact HD|]. by eapply uvm_step_trans.
  - eapply keeps_trans; [|eapply keeps_sub; [|exact Hk2]; intros i; by rewrite HD].
    eapply keeps_sub; [|exact Hk1]. intros i [? ?]. split; [done|lia].
  - intros i Hi. rewrite Hu2, Hu1 by done. destruct (decide (i = k)) as [-> |].
    + by rewrite decide_True by lia.
    + destruct (decide (lo ≤ i < k)); [by rewrite decide_True by lia|by rewrite decide_False by lia].
  - replace (k + 1 - lo) with ((k - lo) + 1) by lia. rewrite seqZ_app by lia.
    rewrite fmap_app, reverse_app. cbn. replace (lo + (k - lo)) with k by lia.
    change (seqZ k 1) with [0 + k]. rewrite Z.add_0_l. cbn. f_equal. unfold p, upage. f_equal. by apply Hk1.
Qed.

Lemma runs_uvmunmap x root l D lo hi size :
  uvm_ok x root l D → lo < hi → (∀ i, lo ≤ i < hi → D i) →
  (hi - 1) * PGSIZE ≤ lo * PGSIZE + size - 1 < hi * PGSIZE →
  runs (uvmunmap end_ root (lo * PGSIZE) size true) x (λ _ x', ∃ l', unmap_done root x l D lo hi x' l').
Proof.
  intros Hok Hlt HD Hsz. unfold uvmunmap.
  destruct (vpage_va lo) as [Hv1 Ha1]; [eapply uo_dom; [done|apply HD; lia]|].
  destruct (vpage_va (hi - 1)) as [Hv2 Ha2]; [eapply uo_dom; [done|apply HD; lia]|].
  change MAXVA with (2 ^ 38) in *.
  rewrite u64_small by (unfold PGSIZE in *; lia). rewrite PGROUNDDOWN_aligned by done.
  replace (PGROUNDDOWN (lo * PGSIZE + size - 1)) with ((hi - 1) * PGSIZE)
    by (rewrite PGROUNDDOWN_spec; unfold PGSIZE in *; dlia).
  assert (page_fuel (lo * PGSIZE) ((hi - 1) * PGSIZE) = (Z.to_nat (hi - 1 - lo) + 2)%nat) as ->.
  { unfold page_fuel. rewrite (proj2 (Z.leb_le _ _)) by (unfold PGSIZE; lia). f_equal.
    rewrite <- Z.mul_sub_distr_r. by rewrite Z.div_mul. }
  apply (runs_loop _ (λ a x1, ∃ k l1, lo ≤ k < hi ∧ a = k * PGSIZE ∧ unmap_done root x l D lo k x1 l1)
    (λ a _, Z.to_nat (hi - 1 - a / PGSIZE))); [| |by rewrite Z.div_mul; lia].
  - intros a x1 (k & l1 & Hk & -> & Hd). pose proof Hd as (Hok1 & _).
    kcall (runs_uvmunmap_page x1 root l1 (outside D lo k) k Hok1 ltac:(split; [apply HD; lia|lia])).
    intros [] x2 (Hok2 & Hs2 & Hk2 & Hu2).
    assert (unmap_done root x l D lo (k + 1) x2 (upage (ram x1) root k :: l1)) as Hd2.
    { eapply unmap_done_snoc; try done; [lia|apply HD; lia]. }
    kstep; intros Hlast; kstep; zify_bool.
    + assert (k + 1 = hi) as <- by (unfold PGSIZE in *; lia). eauto.
    + assert (k + 1 < hi) by (unfold PGSIZE in *; lia).
      replace (k * PGSIZE + PGSIZE) with ((k + 1) * PGSIZE) by lia.
      rewrite u64_small by (unfold PGSIZE in *; lia). rewrite !Z.div_mul by done. split; [|lia].
      eexists (k + 1), _. split; [lia|]. split; [lia|exact Hd2].
  - exists lo, l. split; [lia|]. split; [done|]. by apply unmap_done_refl.
Qed.

(** ** Mapping a user page *)

Definition adding D (i : Z) : Z → Prop := λ j, D j ∨ j = i.

(** Growing the tables keeps the address space. *)
Lemma pt_step_uvm x root l D x' l' :
  uvm_ok x root l D → pt_ok x' root l' → pt_step root (ram x) l (ram x') l' →
  (∀ i, D i → upte (ram x') root i = upte (ram x) root i) →
  uvm_ok x' root l' D ∧ keeps root x x' D ∧
  (∀ a, owned (ram x') root D a ∨ a ∈ l' ↔ owned (ram x) root D a ∨ a ∈ l).
Proof.
  intros Hok Hpt [Hsuf Hkeep Hown Hfr] Hu.
  assert (∀ i, D i → upage (ram x) root i ∉ l' ∧ ¬ is_table (ram x') root (upage (ram x) root i)) as Hd.
  { intros i Hi. pose proof (uo_used _ _ _ _ Hok i Hi). pose proof (uo_notab _ _ _ _ Hok i Hi).
    pose proof (Hown (upage (ram x) root i)). tauto. }
  split_and!.
  - eapply (uvm_ok_sub x root l D); [done|done|..].
    + intros i Hi. split_and!; [done|by apply Hu|by apply Hd].
    + intros i Hi. by apply Hd.
  - intros i Hi. split; [by apply Hu|]. intros y Hy. apply Hfr. intros a Ha.
    pose proof (uo_page _ _ _ _ Hok i Hi) as Hp. split.
    + intros Ht. apply (uo_notab _ _ _ _ Hok i Hi).
      by rewrite <- (uvm_page_out x root l D i a y Hok Hi Hy Ha (table_aligned _ _ _ _ (uo_pt _ _ _ _ Hok) Ht)).
    + intros Hin. apply (uo_used _ _ _ _ Hok i Hi).
      pose proof (ki_pages _ _ _ (po_alloc _ _ _ _ (uo_pt _ _ _ _ Hok))) as Hf. rewrite Forall_forall in Hf.
      by rewrite <- (uvm_page_out x root l D i a y Hok Hi Hy Ha (page_ok_aligned _ _ (Hf a Hin))).
  - intros a. pose proof (Hown a). unfold owned.
    assert ((∃ i, D i ∧ a = upage (ram x') root i) ↔ ∃ i, D i ∧ a = upage (ram x) root i) as ->; [|tauto].
    unfold upage. split; intros (i & Hi & ->); exists i; by rewrite Hu.
Qed.

Lemma map_user_ok x root l D i n perm x' l' :
  uvm_ok x root l D → vpage i → ¬ D i → page_ok n → n ∉ l → ¬ owned (ram x) root D n →
  0 ≤ perm < 2 ^ 10 → Z.lor perm PTE_V ≠ PTE_V →
  pt_ok x' root l' → pt_step root (ram x) l (ram x') l' →
  (∀ j, D j → upte (ram x') root j = upte (ram x) root j) →
  upte (ram x') root i = new_pte n perm 0 →
  uvm_ok x' root l' (adding D i) ∧ keeps root x x' D ∧
  (∀ a, owned (ram x') root (adding D i) a ∨ a ∈ l' ↔ owned (ram x) root D a ∨ a ∈ l ∨ a = n).
Proof.
  intros Hok Hi Hni Hn Hnl Hno Hperm Hlf Hpt Hst Hu Hui.
  destruct (pt_step_uvm x root l D x' l' Hok Hpt Hst Hu) as (Hok' & Hkp & Hown).
  pose proof (page_ok_pos end_ n (ki_end _ _ _ (po_alloc _ _ _ _ Hpt)) Hn) as Hpos.
  assert (upage (ram x') root i = n) as Hpi.
  { unfold upage. rewrite Hui, PTE2PA_new; [lia|lia|apply Hn|done]. }
  assert (¬ owned (ram x') root D n ∧ n ∉ l') as [Hno' Hnl'] by (specialize (Hown n); tauto).
  split_and!; [|done|].
  - split; [done|..]; intros j.
    + intros [Hj| ->]; [by apply (uo_dom _ _ _ _ Hok')|done].
    + intros [Hj| ->]; [by apply (uo_valid _ _ _ _ Hok')|]. rewrite Hui. apply has_V_new.
    + intros [Hj| ->]; [by apply (uo_leaf _ _ _ _ Hok')|]. rewrite Hui, flags_new by (done || lia). done.
    + intros [Hj| ->]; [by apply (uo_page _ _ _ _ Hok')|]. by rewrite Hpi.
    + intros [Hj| ->]; [by apply (uo_used _ _ _ _ Hok')|]. by rewrite Hpi.
    + intros [Hj| ->]; [by apply (uo_notab _ _ _ _ Hok')|]. rewrite Hpi. intros ?. apply Hno'. by left.
    + intros k [Hj| ->] [Hk| ->]; [by apply (uo_inj _ _ _ _ Hok')| | |done]; rewrite Hpi; intros E;
        destruct Hno'; right; eauto.
  - intros a. specialize (Hown a).
    assert (owned (ram x') root (adding D i) a ↔ owned (ram x') root D a ∨ a = n) as ->; [|tauto].
    unfold owned, adding. split.
    + intros [?|(j & [Hj| ->] & ->)]; [by left; left|left; right; eauto|by right].
    + intros [[?|(j & Hj & ->)]| ->]; [by left|right; exists j; auto|right; exists i; auto].
Qed.

Lemma runs_map_user x root l D i n perm :
  uvm_ok x root l D → vpage i → ¬ D i → has (upte (ram x) root i) PTE_V = false →
  page_ok n → n ∉ l → ¬ owned (ram x) root D n →
  0 ≤ perm < 2 ^ 10 → Z.lor perm PTE_V ≠ PTE_V →
  runs (mappages root (i * PGSIZE) PGSIZE n perm) x (λ r x', ∃ l',
    same_kern x.1 x'.1 ∧ pt_step root (ram x) l (ram x') l' ∧ keeps root x x' D ∧
    (∀ j, vpage j → j ≠ i → upte (ram x') root j = upte (ram x) root j) ∧
    ((r = 0 ∧ upte (ram x') root i = new_pte n perm 0 ∧ uvm_ok x' root l' (adding D i) ∧
       ∀ a, owned (ram x') root (adding D i) a ∨ a ∈ l' ↔ owned (ram x) root D a ∨ a ∈ l ∨ a = n) ∨
     (r = -1 ∧ (length l ≤ 1)%nat ∧ upte (ram x') root i = upte (ram x) root i ∧ uvm_ok x' root l' D ∧
       ∀ a, owned (ram x') root D a ∨ a ∈ l' ↔ owned (ram x) root D a ∨ a ∈ l))).
Proof.
  intros Hok Hi Hni Hnv Hn Hnl Hno Hperm Hlf. destruct (vpage_va i Hi) as [Hva Hal].
  pose proof (uo_pt _ _ _ _ Hok) as Hpt.
  pose proof (page_ok_pos end_ n (ki_end _ _ _ (po_alloc _ _ _ _ Hpt)) Hn) as Hpos.
  assert (PGROUNDDOWN (i * PGSIZE + PGSIZE - 1) = i * PGSIZE) as E1.
  { rewrite PGROUNDDOWN_spec. unfold PGSIZE in *. dlia. }
  pose proof (runs_mappages end_ x root l (i * PGSIZE) PGSIZE n perm) as Hrun. cbv zeta in Hrun.
  rewrite E1, (PGROUNDDOWN_aligned _ Hal), Z.sub_diag in Hrun. change (0 / PGSIZE + 1) with 1 in Hrun.
  eapply runs_mono; [apply Hrun|]; clear Hrun; try done; try (unfold PGSIZE, MAXVA in *; cbn in *; lia).
  { unfold vpage in Hi. change (MAXVA / PGSIZE) with (2 ^ 26) in Hi. change MAXVA with (2 ^ 38). unfold PGSIZE. lia. }
  { destruct Hn as (_ & _ & Hn). unfold PHYSTOP, KERNBASE, PGSIZE in *. lia. }
  { intros va' Hin. assert (0 ≤ va' < MAXVA).
    { unfold in_pages, PGSIZE in *. unfold vpage in Hi. change (MAXVA / PGSIZE) with (2 ^ 26) in Hi.
      change MAXVA with (2 ^ 38) in *. lia. }
    rewrite lookup_pte_page by done. replace (PGROUNDDOWN va') with (i * PGSIZE); [done|].
    rewrite PGROUNDDOWN_spec. unfold in_pages, PGSIZE in *. dlia. }
  intros r x' (l' & k & (Hpt' & Hk' & Hst & Hlk) & Hr). exists l'.
  assert (∀ j, vpage j → upte (ram x') root j =
    if decide (i ≤ j < i + k) then new_pte n perm (j - i) else upte (ram x) root j) as Hu.
  { intros j Hj. destruct (vpage_va j Hj). unfold upte. rewrite Hlk by done. unfold mapped, in_pages.
    rewrite <- Z.mul_sub_distr_r, Z.div_mul by done. unfold PGSIZE.
    destruct (decide (i ≤ j < i + k)); [by rewrite decide_True by lia|by rewrite decide_False by lia]. }
  assert (∀ j, vpage j → j ≠ i → upte (ram x') root j = upte (ram x) root j) as Hoth.
  { intros j Hj Hne. rewrite Hu by done. apply decide_False. lia. }
  assert (∀ j, D j → upte (ram x') root j = upte (ram x) root j) as HuD.
  { intros j Hj. apply Hoth; [by apply (uo_dom _ _ _ _ Hok)|]. congruence. }
  destruct Hr as [(-> & -> & _)|(-> & Hk0 & _ & Hlen)].
  - assert (upte (ram x') root i = new_pte n perm 0) as Hui.
    { rewrite Hu, decide_True by (done || lia). by rewrite Z.sub_diag. }
    destruct (map_user_ok x root l D i n perm x' l') as (? & ? & ?); try done.
    split_and!; try done. by left.
  - assert (k = 0) as -> by lia.
    destruct (pt_step_uvm x root l D x' l') as (? & ? & ?); try done.
    split_and!; try done. right. split_and!; try done; [by apply Hlen|]. rewrite Hu by done. apply decide_False. lia.
Qed.

(** ** Allocating and mapping a page *)

(** Memory changes in a page [n] the address space does not own. *)
Lemma uvm_ok_other x root l D x' l' n :
  uvm_ok x root l D → kalloc_inv x' l' → n mod PGSIZE = 0 → ¬ owned (ram x) root D n →
  (∀ y, ¬ in_page n y → ram x' y = ram x y) → (∀ a, owned (ram x) root D a → a ∉ l') →
  uvm_ok x' root l' D ∧ keeps root x x' D ∧
  (∀ i, upte (ram x') root i = upte (ram x) root i) ∧
  (∀ a, owned (ram x') root D a ↔ owned (ram x) root D a).
Proof.
  intros Hok Inv Hn Hno Hm Hl. pose proof (uo_pt _ _ _ _ Hok) as Hpt.
  assert (Htab : ∀ a y, is_table (ram x) root a → in_page a y → ram x' y = ram x y).
  { intros a y Ha Hy. apply Hm. intros Hy'. apply Hno. left.
    replace n with a; [done|]. apply (pages_disjoint a n y); try done. by eapply table_aligned. }
  destruct (owned_frame x root l D (ram x') Hok Htab) as [Hu Ho].
  assert (pt_ok x' root l') as Hpt'.
  { split; [done|by eapply pt_tree_ext; [exact Htab|apply Hpt]|].
    intros a Ha. rewrite (is_table_ext (ram x)) in Ha by done.
    split; [by apply (po_pages _ _ _ _ Hpt)|]. apply Hl. by left. }
  split_and!; [| |done|done].
  - eapply (uvm_ok_sub x root l D); [done|done|..].
    + intros i Hi. split_and!; [done|done|]. apply Hl. right. eauto.
    + intros i Hi. rewrite (is_table_ext (ram x)) by done. by apply (uo_notab _ _ _ _ Hok).
  - intros i Hi. split; [done|]. intros y Hy. apply Hm. intros Hy'. apply Hno. right. exists i.
    split; [done|]. by eapply uvm_page_out.
Qed.

Lemma uvm_ok_ram x root l D x' :
  uvm_ok x root l D → kalloc_inv x' l → ram x' = ram x → uvm_ok x' root l D.
Proof.
  intros [[H0 H00 H000] H2 H3 H4 H5 H6 H7 H8] Inv E. split; try (by rewrite ?E). split; by rewrite ?E.
Qed.

Lemma owned_page_ok x root l D a : uvm_ok x root l D → owned (ram x) root D a → page_ok a ∧ a ∉ l.
Proof.
  intros Hok [Ha|(i & Hi & ->)]; [by apply (po_pages _ _ _ _ (uo_pt _ _ _ _ Hok))|].
  split; [by apply (uo_page _ _ _ _ Hok)|by apply (uo_used _ _ _ _ Hok)].
Qed.

(** Taking the first free page, and filling it. *)
Lemma uvm_take x root n l D x' :
  uvm_ok x root (n :: l) D → kalloc_inv x' l → (∀ y, ¬ in_page n y → ram x' y = ram x y) →
  ¬ owned (ram x) root D n ∧ n ∉ l ∧ page_ok n ∧
  uvm_ok x' root l D ∧ keeps root x x' D ∧
  (∀ i, upte (ram x') root i = upte (ram x) root i) ∧
  (∀ a, owned (ram x') root D a ↔ owned (ram x) root D a).
Proof.
  intros Hok Inv Hm. pose proof (po_alloc _ _ _ _ (uo_pt _ _ _ _ Hok)) as Inv0.
  pose proof (ki_nodup _ _ _ Inv0) as [Hni _]%NoDup_cons.
  pose proof (ki_pages _ _ _ Inv0) as [Hn _]%Forall_cons.
  assert (¬ owned (ram x) root D n) as Hno.
  { intros [_ Hnl]%(owned_page_ok x root (n :: l)); [|done]. apply Hnl. by left. }
  split; [done|]. split; [done|]. split; [done|].
  eapply (uvm_ok_other x root (n :: l)); try done; [apply Hn|].
  intros a [_ Ha]%(owned_page_ok x root (n :: l)); [|done]. intros ?. apply Ha. by right.
Qed.

(** The pattern of [uvmalloc] and [uvmcopy]: allocate a page, initialise it
    ([init], which establishes [C]), map it; undo on failure. *)
Definition alloc_map {A R} (root i perm : Z) (init : Z → M (kern * kalloc_st) A)
    (fail ok : M (kern * kalloc_st) R) : M (kern * kalloc_st) R :=
  mem ← kalloc;
  if mem =? 0 then fail else
  init mem;;
  r ← mappages root (i * PGSIZE) PGSIZE mem perm;
  if negb (r =? 0) then kfree end_ mem;; fail else ok.

Section AllocMap.
Context {A R : Type} (x : kern * kalloc_st) (root : Z) (l : list Z) (D : Z → Prop) (i perm : Z).
Context (init : Z → M (kern * kalloc_st) A) (C : Z → mem → Prop).
Context (fail ok : M (kern * kalloc_st) R) (Q : R → kern * kalloc_st → Prop).
Context (Hok : uvm_ok x root l D) (Hi : vpage i) (HDi : ¬ D i)
        (Hnv : has (upte (ram x) root i) PTE_V = false)
        (Hperm : 0 ≤ perm < 2 ^ 10) (Hlf : Z.lor perm PTE_V ≠ PTE_V).
Context (Hinit : ∀ n l1 x1, l = n :: l1 → page_ok n → n ∉ l1 → kalloc_inv x1 l1 →
  (∀ y, ¬ in_page n y → ram x1 y = ram x y) →
  runs (init n) x1 (λ _ x2, kalloc_inv x2 l1 ∧ same_kern x1.1 x2.1 ∧
    (∀ y, ¬ in_page n y → ram x2 y = ram x1 y) ∧ C n (ram x2))).
Context (HC : ∀ n m m', C n m → (∀ y, in_page n y → m' y = m y) → C n m').
Context (Hfail : ∀ x' l', uvm_ok x' root l' D → uvm_step root x l D x' l' D → keeps root x x' D →
  (∀ j, vpage j → upte (ram x') root j = upte (ram x) root j) → (length l ≤ 2)%nat → runs fail x' Q).
Context (Hsucc : ∀ x' l' n, uvm_ok x' root l' (adding D i) →
  uvm_step root x l D x' l' (adding D i) → keeps root x x' D →
  (∀ j, vpage j → j ≠ i → upte (ram x') root j = upte (ram x) root j) →
  upte (ram x') root i = new_pte n perm 0 → upage (ram x') root i = n → C n (ram x') → runs ok x' Q).

(** After the page [n] was taken, filled (state [x2]) and mapped. *)
Lemma alloc_map_ok n l1 x2 x3 l3 :
  uvm_ok x root (n :: l1) D → l = n :: l1 → kalloc_inv x2 l1 → same_kern x.1 x2.1 → C n (ram x2) →
  (∀ y, ¬ in_page n y → ram x2 y = ram x y) →
  same_kern x2.1 x3.1 → pt_step root (ram x2) l1 (ram x3) l3 → keeps root x2 x3 D →
  (∀ j, vpage j → j ≠ i → upte (ram x3) root j = upte (ram x2) root j) →
  upte (ram x3) root i = new_pte n perm 0 → uvm_ok x3 root l3 (adding D i) →
  (∀ a, owned (ram x3) root (adding D i) a ∨ a ∈ l3 ↔ owned (ram x2) root D a ∨ a ∈ l1 ∨ a = n) →
  runs ok x3 Q.
Proof using All.
  intros Hok1 El Inv2 Hk2 HCn Hm Hk3 Hst Hkp Hoth Hui Hok3 Hown.
  destruct (uvm_take x root n l1 D x2) as (Hno & Hnl & Hn & Hok2 & Hkp2 & Hu2 & Ho2); try done.
  pose proof (page_ok_pos end_ n (ki_end _ _ _ Inv2) Hn) as Hpos.
  assert (Hnt : ∀ a, in_page n a → ram x3 a = ram x2 a).
  { intros y Hy. apply (ps_frame _ _ _ _ _ Hst). intros a Ha. split.
    - intros Ht. apply Hno, Ho2. left. replace n with a; [done|].
      apply (pages_disjoint a n y); try done; [|apply Hn]. eapply table_aligned; [apply Hok2|done].
    - intros Hin. apply Hnl. pose proof (ki_pages _ _ _ Inv2) as Hf. rewrite Forall_forall in Hf.
      replace n with a; [done|]. apply (pages_disjoint a n y); try done; [|apply Hn]. by apply Hf. }
  eapply (Hsucc x3 l3 n); [done| | | |done| |by eapply HC].
  - split; [by etrans| |].
    + intros a. rewrite Hown, Ho2, El, elem_of_cons. tauto.
    + intros y Hy. rewrite (ps_frame _ _ _ _ _ Hst).
      * apply Hm. intros Hy'. destruct (Hy n Hy') as [_ H]. apply H. rewrite El. by left.
      * intros a Ha. destruct (Hy a Ha) as [H1 H2]. rewrite El, elem_of_cons in H2. split; [|tauto].
        intros ?. apply H1, Ho2. by left.
  - by eapply keeps_trans.
  - intros j Hj Hne. by rewrite Hoth, Hu2.
  - unfold upage. rewrite Hui, PTE2PA_new; [lia|lia|apply Hn|done].
Qed.

(** After the mapping failed: the page is given back. *)
Lemma alloc_map_undo n l1 x2 x3 l3 x4 :
  uvm_ok x root (n :: l1) D → l = n :: l1 → kalloc_inv x2 l1 → same_kern x.1 x2.1 →
  (∀ y, ¬ in_page n y → ram x2 y = ram x y) →
  same_kern x2.1 x3.1 → pt_step root (ram x2) l1 (ram x3) l3 → keeps root x2 x3 D →
  (∀ j, vpage j → upte (ram x3) root j = upte (ram x2) root j) → uvm_ok x3 root l3 D →
  (∀ a, owned (ram x3) root D a ∨ a ∈ l3 ↔ owned (ram x2) root D a ∨ a ∈ l1) →
  kalloc_inv x4 (n :: l3) → same_kern x3.1 x4.1 → (∀ y, ¬ in_page n y → ram x4 y = ram x3 y) →
  (length l1 ≤ 1)%nat → runs fail x4 Q.
Proof using All.
  intros Hok1 El Inv2 Hk2 Hm Hk3 Hst Hkp Hoth Hok3 Hown Inv4 Hk4 Hm4 Hlen.
  destruct (uvm_take x root n l1 D x2) as (Hno & Hnl & Hn & Hok2 & Hkp2 & Hu2 & Ho2); try done.
  assert (¬ owned (ram x3) root D n) as Hno3 by (specialize (Hown n); specialize (Ho2 n); tauto).
  destruct (uvm_ok_other x3 root l3 D x4 (n :: l3) n) as (Hok4 & Hkp4 & Hu4 & Ho4); try done; [apply Hn| |].
  { intros a Ha. destruct (owned_page_ok x3 root l3 D a) as [_ Hal]; [done|done|].
    rewrite not_elem_of_cons. split; [|done]. congruence. }
  eapply (Hfail x4 (n :: l3)); [done| | | |rewrite El; cbn; lia].
  - split; [etrans; [exact Hk2|]; by etrans| |].
    + intros a. rewrite Ho4, El, !elem_of_cons. specialize (Hown a). specialize (Ho2 a). tauto.
    + intros y Hy.
      assert (¬ in_page n y) as Hyn.
      { intros Hy'. destruct (Hy n Hy') as [_ H]. apply H. rewrite El. by left. }
      rewrite Hm4, (ps_frame _ _ _ _ _ Hst); [by apply Hm| |done].
      intros a Ha. destruct (Hy a Ha) as [H1 H2]. rewrite El, elem_of_cons in H2.
      split; [|tauto]. intros ?. apply H1, Ho2. by left.
  - eapply keeps_trans; [exact Hkp2|]. by eapply keeps_trans.
  - intros j Hj. by rewrite Hu4, Hoth, Hu2.
Qed.

Lemma runs_alloc_map : runs (alloc_map root i perm init fail ok) x Q.
Proof using All.
  unfold alloc_map. pose proof (po_alloc _ _ _ _ (uo_pt _ _ _ _ Hok)) as Inv.
  kcall (runs_kalloc_zero end_ x l Inv).
  intros n x1 [Hk1 [(-> & El & Inv1 & Hm)|(Hn0 & l1 & El & Hn & Hni & Inv1 & Hm)]].
  { change (0 =? 0) with true. kif. rewrite <- El in Inv1. apply (Hfail x1 l).
    - by apply (uvm_ok_ram x).
    - split; [done|by rewrite Hm|by rewrite Hm].
    - intros j _. by rewrite Hm.
    - intros j _. by rewrite Hm.
    - rewrite El. cbn. lia. }
  rewrite (proj2 (Z.eqb_neq _ _) Hn0).
  kcall (Hinit n l1 x1 El Hn Hni Inv1 Hm). intros r0 x2 (Inv2 & Hk2 & Hm2 & HCn).
  assert (Hm' : ∀ y, ¬ in_page n y → ram x2 y = ram x y) by (intros y Hy; by rewrite Hm2, Hm).
  assert (Hok' : uvm_ok x root (n :: l1) D) by (rewrite <- El; exact Hok).
  destruct (uvm_take x root n l1 D x2) as (Hno & _ & _ & Hok2 & Hkp2 & Hu2 & Ho2); try done.
  kcall (runs_map_user x2 root l1 D i n perm); try done; [by rewrite Hu2|by rewrite Ho2|].
  intros r x3 (l3 & Hk3 & Hst & Hkp & Hoth & [(-> & Hui & Hok3 & Hown)|(-> & Hlen & Hui & Hok3 & Hown)]).
  { change (0 =? 0) with true. kif. eapply (alloc_map_ok n l1 x2 x3 l3); try done. by etrans. }
  change (-1 =? 0) with false. kif.
  assert (n ∉ l3) by (specialize (Hown n); specialize (Ho2 n); tauto).
  kcall (runs_kfree end_ x3 l3 n (po_alloc _ _ _ _ (uo_pt _ _ _ _ Hok3)) Hn); [done|].
  intros r4 x4 (Inv4 & Hk4 & Hm4).
  eapply (alloc_map_undo n l1 x2 x3 l3 x4); try done; [by etrans|].
  intros j Hj. destruct (decide (j = i)) as [-> |]; [done|by apply Hoth].
Qed.
End AllocMap.
End Uvm.
