(* ===== verification/UvmOps.v ===== *)
(** * Growing, shrinking, copying and accessing user memory

    The contracts of [uvmdealloc], [uvmalloc], [uvmcopy], [copyout] and
    [copyin], for an address space whose first pages are mapped. *)

From S2P Require Import Prelude Memory Riscv Spinlock Core CString Kalloc Vm PageTable VmProof Uvm.

(** The number of pages of an address space of [sz] bytes. *)
Definition np (sz : Z) : Z := PGROUNDUP sz / PGSIZE.
Definition upto (n : Z) : Z → Prop := λ i, 0 ≤ i < n.

Lemma np_spec sz : 0 ≤ sz ≤ MAXVA →
  PGROUNDUP sz = np sz * PGSIZE ∧ 0 ≤ np sz ≤ MAXVA / PGSIZE ∧ (np sz - 1) * PGSIZE < sz ≤ np sz * PGSIZE.
Proof.
  intros Hsz. change MAXVA with (2 ^ 38) in *. change (2 ^ 38 / PGSIZE) with (2 ^ 26).
  unfold np. rewrite PGROUNDUP_spec by (unfold PGSIZE; lia). rewrite Z.div_mul by done.
  unfold PGSIZE. dlia.
Qed.

Lemma np_mul n : 0 ≤ n ≤ MAXVA / PGSIZE → np (n * PGSIZE) = n.
Proof.
  change (MAXVA / PGSIZE) with (2 ^ 26). intros Hn. unfold np.
  rewrite PGROUNDUP_aligned by (unfold PGSIZE in *; dlia). by rewrite Z.div_mul.
Qed.

Lemma np_mono a b : 0 ≤ a → a ≤ b → b ≤ MAXVA → np a ≤ np b.
Proof.
  intros. destruct (np_spec a) as (_ & _ & ?); [lia|]. destruct (np_spec b) as (_ & _ & ?); [lia|].
  unfold PGSIZE in *. lia.
Qed.

Section UvmOps.
Context (end_ : Z).
Implicit Types (x : kern * kalloc_st) (l : list Z) (D : Z → Prop).
Abbreviation ram x := (km_ram x.2).
Abbreviation uvm_ok := (uvm_ok end_).
Abbreviation kalloc_inv := (kalloc_inv end_).

(** [x'] is [x] with the address space resized from [n] to [n'] pages. *)
Definition resized (root : Z) x l n x' l' n' : Prop :=
  uvm_ok x' root l' (upto n') ∧ uvm_step root x l (upto n) x' l' (upto n') ∧
  keeps root x x' (upto (Z.min n n')) ∧
  (∀ i, vpage i → ¬ (Z.min n n' ≤ i < Z.max n n') → upte (ram x') root i = upte (ram x) root i) ∧
  (∀ i, vpage i → n' ≤ i < n → upte (ram x') root i = 0).

Lemma runs_uvmdealloc x root l oldsz newsz :
  uvm_ok x root l (upto (np oldsz)) → 0 ≤ newsz → 0 ≤ oldsz ≤ MAXVA →
  runs (uvmdealloc end_ root oldsz newsz) x (λ r x', r = Z.min oldsz newsz ∧
    ∃ l', resized root x l (np oldsz) x' l' (np r)).
Proof.
  intros Hok Hnew Hold. unfold uvmdealloc. kstep; intros Hb; zify_bool.
  { kstep. split; [lia|]. exists l. split_and!; try done; try apply uvm_step_refl; intros; lia. }
  destruct (np_spec oldsz) as (E1 & N1 & B1); [lia|]. destruct (np_spec newsz) as (E2 & N2 & B2); [lia|].
  assert (np newsz ≤ np oldsz) as Hmono by (apply np_mono; lia).
  rewrite E1, E2. kstep. kstep; intros Hlt; zify_bool.
  - assert (np newsz < np oldsz) by (unfold PGSIZE in *; lia).
    rewrite u64_small by (change MAXVA with (2 ^ 38) in *; unfold PGSIZE in *; lia).
    eapply runs_mono.
    { eapply (runs_uvmunmap end_ x root l (upto (np oldsz)) (np newsz) (np oldsz)); [done|done| |].
      - intros i ?. unfold upto. lia.
      - unfold PGSIZE in *. lia. }
    intros [] x' (l' & Hok' & Hst & Hkp & Hu & _). kstep. split; [lia|]. exists l'.
    assert (∀ i, outside (upto (np oldsz)) (np newsz) (np oldsz) i ↔ upto (np newsz) i) as HD
      by (unfold outside, upto; intros; lia).
    split_and!; [by eapply uvm_ok_ext|by eapply uvm_step_ext| | |].
    + eapply keeps_sub; [|exact Hkp]. intros i. rewrite HD. unfold upto. lia.
    + intros i Hi Hni. rewrite Hu by done. apply decide_False. lia.
    + intros i Hi Hii. rewrite Hu by done. by apply decide_True.
  - assert (np newsz = np oldsz) as E by (unfold PGSIZE in *; lia).
    kstep. split; [lia|]. exists l. rewrite E. split_and!; try done; try apply uvm_step_refl; intros; lia.
Qed.

(** ** uvmalloc *)

Definition user_rwx : Z := Z.lor (Z.lor (Z.lor PTE_W PTE_X) PTE_R) PTE_U.

(** The pages [lo, hi) are fresh: zero-filled, readable and writable. *)
Definition fresh (m : mem) (root lo hi : Z) : Prop :=
  ∀ i, lo ≤ i < hi → PTE_FLAGS (upte m root i) = Z.lor user_rwx PTE_V ∧
                     ∀ y, in_page (upage m root i) y → m y = 0.

Lemma resized_refl root x l n : uvm_ok x root l (upto n) → resized root x l n x l n.
Proof. intros Hok. split_and!; try done; try apply uvm_step_refl; intros; lia. Qed.

Lemma resized_grow root x l n x1 l1 k x2 l2 :
  n ≤ k → resized root x l n x1 l1 k →
  uvm_ok x2 root l2 (adding (upto k) k) → 0 ≤ k →
  uvm_step root x1 l1 (upto k) x2 l2 (adding (upto k) k) → keeps root x1 x2 (upto k) →
  (∀ i, vpage i → i ≠ k → upte (ram x2) root i = upte (ram x1) root i) →
  resized root x l n x2 l2 (k + 1).
Proof.
  intros Hn (Hok1 & Hs1 & Hk1 & Hu1 & _) Hok2 Hk Hs2 Hk2 Hu2.
  assert (∀ i, adding (upto k) k i ↔ upto (k + 1) i) as HD by (unfold adding, upto; intros; lia).
  split_and!.
  - by eapply uvm_ok_ext.
  - eapply uvm_step_ext; [exact HD|]. by eapply uvm_step_trans.
  - eapply keeps_trans; (eapply keeps_sub; [|eassumption]); intros i; unfold upto; lia.
  - intros i Hi Hni. rewrite Hu2, Hu1 by (done || lia). done.
  - intros. lia.
Qed.

Lemma resized_back root x l n x1 l1 k x2 l2 :
  n ≤ k → (∀ i, vpage i → n ≤ i < k → upte (ram x) root i = 0) →
  resized root x l n x1 l1 k → resized root x1 l1 k x2 l2 n → resized root x l n x2 l2 n.
Proof.
  intros Hn H0 (Hok1 & Hs1 & Hk1 & Hu1 & _) (Hok2 & Hs2 & Hk2 & Hu2 & Hz2).
  split_and!; [done|by eapply uvm_step_trans| | |intros; lia].
  - eapply keeps_trans; (eapply keeps_sub; [|eassumption]); intros i; unfold upto; lia.
  - intros i Hi _. destruct (decide (n ≤ i < k)).
    + by rewrite Hz2, H0 by done.
    + rewrite Hu2, Hu1 by (done || lia). done.
Qed.

Lemma fresh_snoc root x1 x2 lo k n :
  0 ≤ lo → keeps root x1 x2 (upto k) → fresh (ram x1) root lo k →
  page_ok end_ n → upage (ram x2) root k = n → upte (ram x2) root k = new_pte n user_rwx 0 → 0 < end_ →
  (∀ y, in_page n y → ram x2 y = 0) → fresh (ram x2) root lo (k + 1).
Proof.
  intros Hlo Hkp Hf Hn Hp Hu He Hz i Hi. destruct (decide (i = k)) as [-> |Hne].
  - rewrite Hp. split; [|done]. rewrite Hu. pose proof (page_ok_pos end_ n He Hn).
    rewrite flags_new; [done|lia|done].
  - destruct (Hf i) as [F1 F2]; [lia|]. destruct (Hkp i) as [K1 K2]; [unfold upto; lia|].
    unfold upage. rewrite K1. split; [done|]. intros y Hy. rewrite K2 by done. by apply F2.
Qed.

(** [uvmalloc], after the loop has mapped the pages [n, k). *)
Definition alloc_done (root : Z) x l n k x1 l1 : Prop :=
  resized root x l n x1 l1 k ∧ fresh (ram x1) root n k.

Lemma runs_uvmalloc_page x root l n k x1 l1 {R} (fail ok : M (kern * kalloc_st) R) Q :
  0 ≤ n ≤ k → vpage k → alloc_done root x l n k x1 l1 →
  (∀ i, vpage i → n ≤ i ≤ k → upte (ram x) root i = 0) →
  (∀ x2 l2, resized root x l n x2 l2 k → runs fail x2 Q) →
  (∀ x2 l2, alloc_done root x l n (k + 1) x2 l2 → runs ok x2 Q) →
  runs (alloc_map end_ root k user_rwx (λ mem, zoom kram (memset mem 0 PGSIZE)) fail ok) x1 Q.
Proof.
  intros Hn Hk [Hr Hf] H0 Hfail Hok. pose proof Hr as (Hok1 & Hs1 & Hk1 & Hu1 & _).
  apply (runs_alloc_map end_ x1 root l1 (upto k) k user_rwx _
    (λ p m, ∀ y, in_page p y → m y = 0)).
  - done.
  - done.
  - unfold upto. lia.
  - rewrite Hu1, H0 by (done || lia). by apply has_zero.
  - by split.
  - done.
  - intros p l2 x2 El Hp Hpl Inv2 Hm. kapply (runs_fill_page end_ x2 l2 p 0 Inv2 Hp Hpl).
    intros r x3 (Inv3 & Hk3 & Hfl). split_and!; [done|by rewrite Hk3| |].
    + intros y Hy. by rewrite Hfl, decide_False.
    + intros y Hy. by rewrite Hfl, decide_True.
  - intros p m m' HC Heq y Hy. rewrite Heq by done. by apply HC.
  - intros x2 l2 Hok2 Hs2 Hk2 Hu2 _. apply (Hfail x2 l2). split_and!; [done|by eapply uvm_step_trans| | |intros; lia].
    + eapply keeps_trans; (eapply keeps_sub; [|eassumption]); intros i; unfold upto; lia.
    + intros i Hi Hni. by rewrite Hu2, Hu1.
  - intros x2 l2 p Hok2 Hs2 Hk2 Hu2 Hup Hp HC. apply (Hok x2 l2). split.
    + eapply resized_grow; try done; lia.
    + eapply fresh_snoc; try done; [lia| |].
      * rewrite <- Hp. apply (uo_page _ _ _ _ _ Hok2). by right.
      * apply (po_alloc _ _ _ _ (uo_pt _ _ _ _ _ Hok2)).
Qed.

Lemma runs_uvmalloc x root l oldsz newsz :
  uvm_ok x root l (upto (np oldsz)) → 0 ≤ oldsz ≤ newsz → newsz ≤ MAXVA →
  (∀ i, np oldsz ≤ i < np newsz → upte (ram x) root i = 0) →
  runs (uvmalloc end_ root oldsz newsz) x (λ r x', ∃ l',
    (r = newsz ∧ resized root x l (np oldsz) x' l' (np newsz) ∧
       fresh (ram x') root (np oldsz) (np newsz)) ∨
    (r = 0 ∧ resized root x l (np oldsz) x' l' (np oldsz))).
Proof.
  intros Hok Hsz Hmax H0. unfold uvmalloc. rewrite (proj2 (Z.ltb_ge _ _)) by lia. kif.
  destruct (np_spec oldsz) as (E1 & N1 & B1); [lia|]. destruct (np_spec newsz) as (E2 & N2 & B2); [lia|].
  assert (np oldsz ≤ np newsz) as Hmono by (apply np_mono; lia). rewrite E1.
  set (n := np oldsz) in *. set (n' := np newsz) in *.
  apply (runs_loop _ (λ a x1, ∃ k l1, n ≤ k ≤ n' ∧ a = k * PGSIZE ∧ alloc_done root x l n k x1 l1)
    (λ a _, Z.to_nat (n' - a / PGSIZE))).
  - intros a x1 (k & l1 & Hk & -> & Hd). kstep; intros Hb; zify_bool.
    + kstep. exists l1. left. destruct Hd. assert (k = n') as -> by (unfold PGSIZE in *; lia). done.
    + assert (k < n') as Hlt by (unfold PGSIZE in *; lia).
      assert (Hv : vpage k) by (unfold vpage; lia).
      eapply (runs_uvmalloc_page x root l n k x1 l1); [lia|done|done|..].
      * intros i _ Hi. apply H0. lia.
      * intros x2 l2 Hr2. kcall (runs_uvmdealloc x2 root l2 (k * PGSIZE) (n * PGSIZE)).
        { rewrite np_mul by lia. apply Hr2. }
        { unfold PGSIZE. lia. }
        { change MAXVA with (2 ^ 38) in *. change (2 ^ 38 / PGSIZE) with (2 ^ 26) in *. unfold PGSIZE in *. lia. }
        intros r x3 (-> & l3 & Hr3). kstep. exists l3. right. split; [done|].
        rewrite Z.min_r in Hr3 by (unfold PGSIZE; lia). rewrite !np_mul in Hr3 by lia.
        eapply (resized_back root x l n x2 l2 k); [lia| |done|done]. intros i _ Hi. apply H0. lia.
      * intros x2 l2 Hd2. kstep. replace (k * PGSIZE + PGSIZE) with ((k + 1) * PGSIZE) by lia.
        rewrite u64_small by (change MAXVA with (2 ^ 38) in *; unfold PGSIZE in *; lia).
        rewrite !Z.div_mul by done. split; [|lia]. exists (k + 1), l2. split; [lia|done].
  - exists n, l. split; [lia|]. split; [done|]. split; [by apply resized_refl|]. intros i. lia.
  - rewrite Z.div_mul by done.
    assert (n' - n ≤ (newsz - n * PGSIZE) / PGSIZE + 1); [|lia]. unfold PGSIZE in *. dlia.
Qed.

(** [uvmalloc] grows an address space to [newsz] bytes with zero-filled
    user pages, or returns 0 and leaves exactly the address space it was given:
    either way the old pages keep their contents, every page is accounted for
    (owned by the address space or free), and no other memory changes. *)
Theorem uvmalloc_correct x root l oldsz newsz :
  uvm_ok x root l (upto (np oldsz)) → 0 ≤ oldsz ≤ newsz → newsz ≤ MAXVA →
  (∀ i, np oldsz ≤ i < np newsz → upte (ram x) root i = 0) →
  runs (uvmalloc end_ root oldsz newsz) x (λ r x', ∃ l',
    (r = newsz ∧ resized root x l (np oldsz) x' l' (np newsz) ∧
       fresh (ram x') root (np oldsz) (np newsz)) ∨
    (r = 0 ∧ resized root x l (np oldsz) x' l' (np oldsz))).
Proof. exact (runs_uvmalloc x root l oldsz newsz). Qed.

(** ** uvmcopy *)

(** An address space [old] beside the one an operation works on. *)
Lemma uvm_step_other root x l D x' l' D' old Dold :
  uvm_ok x old l Dold → (∀ a, owned (ram x) old Dold a → ¬ owned (ram x) root D a) →
  uvm_ok x root l D → kalloc_inv x' l' → uvm_step root x l D x' l' D' →
  uvm_ok x' old l' Dold ∧ keeps old x x' Dold ∧
  (∀ i, upte (ram x') old i = upte (ram x) old i) ∧
  (∀ a, owned (ram x') old Dold a → ¬ owned (ram x') root D' a).
Proof.
  intros Hok Hdis Hr Inv [Hk Hown Hfr].
  assert (Hsame : ∀ a y, owned (ram x) old Dold a → in_page a y → ram x' y = ram x y).
  { intros a y Ha Hy. apply Hfr. intros b Hb. destruct (owned_page_ok _ _ _ _ _ a Hok Ha) as [Hp Hl].
    assert (owned (ram x) root D b ∨ b ∈ l → a = b) as Hab.
    { intros Hb'. apply (pages_disjoint a b y); [apply Hp| |done|done].
      destruct Hb' as [Hb'|Hb']; [by apply (owned_page_ok _ _ _ _ _ b Hr)|].
      pose proof (ki_pages _ _ _ (po_alloc _ _ _ _ (uo_pt _ _ _ _ _ Hok))) as Hf.
      rewrite Forall_forall in Hf. by apply Hf. }
    split; intros Hb'; (rewrite <- Hab in Hb'; [|by auto]); [by eapply Hdis|done]. }
  destruct (owned_frame end_ x old l Dold (ram x') Hok) as [Hu Ho].
  { intros a y Ha. apply Hsame. by left. }
  assert (Hnl : ∀ a, owned (ram x) old Dold a → ¬ owned (ram x') root D' a ∧ a ∉ l').
  { intros a Ha. specialize (Hown a). specialize (Hdis a Ha).
    destruct (owned_page_ok _ _ _ _ _ a Hok Ha). tauto. }
  split_and!; [|intros i Hi; split; [done|]; intros y; apply Hsame; right; eauto|done|].
  - pose proof (uo_pt _ _ _ _ _ Hok) as Hpt.
    assert (∀ a y, is_table (ram x) old a → in_page a y → ram x' y = ram x y) as Ht.
    { intros a y Ha. apply Hsame. by left. }
    eapply (uvm_ok_sub end_ x old l Dold); [done| | |].
    + split; [done|by eapply pt_tree_ext; [exact Ht|apply Hpt]|]. intros a Ha.
      rewrite (is_table_ext (ram x)) in Ha by done. split; [by apply (po_pages _ _ _ _ Hpt)|].
      apply Hnl. by left.
    + intros i Hi. split_and!; [done|done|]. apply Hnl. right. eauto.
    + intros i Hi. rewrite (is_table_ext (ram x)) by done. by apply (uo_notab _ _ _ _ _ Hok).
  - intros a Ha. rewrite Ho in Ha. by apply Hnl.
Qed.

(** The pages [0, k) of [new] are copies of those of [old] in [m0]. *)
Definition same_pages (m0 : mem) (old : Z) (m : mem) (new k : Z) : Prop :=
  ∀ i, 0 ≤ i < k → PTE_FLAGS (upte m new i) = PTE_FLAGS (upte m0 old i) ∧
    ∀ o, 0 ≤ o < PGSIZE → m (upage m new i + o) = m0 (upage m0 old i + o).

Lemma same_pages_snoc x old x1 new x2 k p :
  keeps new x1 x2 (upto k) → same_pages (ram x) old (ram x1) new k →
  page_ok end_ p → 0 < end_ → upage (ram x2) new k = p →
  upte (ram x2) new k = new_pte p (PTE_FLAGS (upte (ram x) old k)) 0 →
  has (upte (ram x) old k) PTE_V = true →
  (∀ o, 0 ≤ o < PGSIZE → ram x2 (p + o) = ram x (upage (ram x) old k + o)) →
  same_pages (ram x) old (ram x2) new (k + 1).
Proof.
  intros Hkp Hs Hp He Hpg Hu Hv Hc i Hi. destruct (decide (i = k)) as [-> |Hne].
  - rewrite Hpg. split; [|done]. rewrite Hu. pose proof (page_ok_pos end_ p He Hp).
    rewrite flags_new by (lia || apply PTE_FLAGS_range). by apply PTE_FLAGS_V.
  - destruct (Hs i) as [F1 F2]; [lia|]. destruct (Hkp i) as [K1 K2]; [unfold upto; lia|].
    unfold upage in *. rewrite K1. split; [done|]. intros o Ho. rewrite K2; [by apply F2|].
    unfold in_page. lia.
Qed.

(** [uvmcopy], after the pages [0, k) were copied. *)
Definition copy_done x old new l k x1 l1 : Prop :=
  resized new x l 0 x1 l1 k ∧ same_pages (ram x) old (ram x1) new k.

(** Initialising a page of the child with the parent's bytes. *)
Lemma runs_copy_page x l n src :
  kalloc_inv x l → page_ok end_ n → n ∉ l → src mod PGSIZE = 0 → src ≠ n →
  runs (zoom kram (memmove n src PGSIZE)) x (λ _ x', kalloc_inv x' l ∧ same_kern x.1 x'.1 ∧
    (∀ y, ¬ in_page n y → ram x' y = ram x y) ∧
    (∀ o, 0 ≤ o < PGSIZE → ram x' (n + o) = ram x (src + o))).
Proof.
  intros Inv Hn Hnl Hs Hne. kstep. kapply (runs_memmove (ram x) n src PGSIZE); [apply Inv|done|].
  intros r m' [-> Hc]. cbn. split_and!; [|done| |].
  - apply kalloc_inv_mem; [done| |].
    + intros y. rewrite Hc. case_decide; apply Inv.
    + intros a y Ha Hy. rewrite Hc, decide_False; [done|]. intros Hy'.
      eapply (free_page_disjoint end_ l a n); eauto. apply Inv.
  - intros y Hy. by rewrite Hc, decide_False.
  - intros o Ho. rewrite Hc, decide_True by lia. f_equal. lia.
Qed.

Section Copy.
Context (x : kern * kalloc_st) (old new : Z) (l : list Z) (n : Z).
Context (Hold : uvm_ok x old l (upto n)) (Hnew : uvm_ok x new l (upto 0)).
Context (Hdis : ∀ a, owned (ram x) old (upto n) a → ¬ owned (ram x) new (upto 0) a).
Context (Hfree : ∀ i, 0 ≤ i < n → upte (ram x) new i = 0).

(** The parent while the child grows. *)
Lemma copy_parent x1 l1 k :
  resized new x l 0 x1 l1 k →
  uvm_ok x1 old l1 (upto n) ∧ keeps old x x1 (upto n) ∧
  (∀ i, upte (ram x1) old i = upte (ram x) old i) ∧
  (∀ a, owned (ram x1) old (upto n) a → ¬ owned (ram x1) new (upto k) a).
Proof using All.
  intros (Hok1 & Hs1 & _). eapply uvm_step_other; try done.
  apply (po_alloc _ _ _ _ (uo_pt _ _ _ _ _ Hok1)).
Qed.

Lemma runs_uvmcopy_page k x1 l1 {R} (fail ok : M (kern * kalloc_st) R) Q :
  0 ≤ k < n → copy_done x old new l k x1 l1 →
  (∀ x2 l2, resized new x l 0 x2 l2 k → (length l1 ≤ 2)%nat → runs fail x2 Q) →
  (∀ x2 l2, copy_done x old new l (k + 1) x2 l2 → runs ok x2 Q) →
  runs (alloc_map end_ new k (PTE_FLAGS (upte (ram x) old k))
    (λ mem, zoom kram (memmove mem (upage (ram x) old k) PGSIZE)) fail ok) x1 Q.
Proof using All.
  intros Hk [Hr Hf] Hfail Hok. pose proof Hr as (Hok1 & Hs1 & Hk1 & Hu1 & _).
  destruct (copy_parent x1 l1 k Hr) as (Ho1 & Hko & Huo & Hd1).
  assert (upto n k) as Hkn by (unfold upto; lia).
  assert (vpage k) as Hv by by apply (uo_dom _ _ _ _ _ Hold).
  pose proof (uo_valid _ _ _ _ _ Hold k Hkn) as Hval.
  apply (runs_alloc_map end_ x1 new l1 (upto k) k _ _
    (λ p m, ∀ o, 0 ≤ o < PGSIZE → m (p + o) = ram x (upage (ram x) old k + o))).
  - done.
  - done.
  - unfold upto. lia.
  - rewrite Hu1, Hfree by (done || lia). by apply has_zero.
  - apply PTE_FLAGS_range.
  - rewrite PTE_FLAGS_V by done. by apply (uo_leaf _ _ _ _ _ Hold).
  - intros p l2 x2 El Hp Hpl Inv2 Hm.
    assert (Hpo : upage (ram x) old k ≠ p).
    { intros E. pose proof (uo_used _ _ _ _ _ Ho1 k Hkn) as Hus. apply Hus.
      unfold upage in *. rewrite Huo, E, El. by left. }
    assert (Hal : upage (ram x) old k mod PGSIZE = 0) by apply PTE2PA_aligned.
    kapply (runs_copy_page x2 l2 p (upage (ram x) old k) Inv2 Hp Hpl Hal Hpo).
    intros r x3 (Inv3 & Hk3 & Hout & Hc). split_and!; try done.
    intros o Ho. assert (in_page (upage (ram x) old k) (upage (ram x) old k + o)) as Hin by (unfold in_page; lia).
    rewrite Hc, Hm; [by apply (Hko k Hkn)| |done].
    intros Hy. apply Hpo. by apply (pages_disjoint _ _ (upage (ram x) old k + o) Hal (page_ok_aligned _ _ Hp)).
  - intros p m m' HC Heq o Ho. rewrite Heq by (unfold in_page; lia). by apply HC.
  - intros x2 l2 Hok2 Hs2 Hk2 Hu2 Hlen. apply (Hfail x2 l2); [|done].
    split_and!; [done|by eapply uvm_step_trans| | |intros; lia].
    + eapply keeps_trans; (eapply keeps_sub; [|eassumption]); intros i; unfold upto; lia.
    + intros i Hi Hni. by rewrite Hu2, Hu1.
  - intros x2 l2 p Hok2 Hs2 Hk2 Hu2 Hup Hp HC. apply (Hok x2 l2). split.
    + eapply resized_grow; try done; lia.
    + eapply (same_pages_snoc x old x1 new x2 k p); try done.
      * rewrite <- Hp. apply (uo_page _ _ _ _ _ Hok2). by right.
      * apply (po_alloc _ _ _ _ (uo_pt _ _ _ _ _ Hok2)).
Qed.
End Copy.

(** The error exit of [uvmcopy]: the copied pages are unmapped and freed. *)
Lemma runs_uncopy x l new k x1 l1 {R} (r : R) Q :
  0 < k → (∀ i, 0 ≤ i < k → upte (ram x) new i = 0) → resized new x l 0 x1 l1 k →
  (∀ x2 l2, resized new x l 0 x2 l2 0 → Q r x2) →
  runs (uvmunmap end_ new 0 (k * PGSIZE) true;; mret r) x1 Q.
Proof.
  intros Hk H0 Hr HQ. pose proof Hr as (Hok1 & _). change 0 with (0 * PGSIZE).
  kcall (runs_uvmunmap end_ x1 new l1 (upto k) 0 k (k * PGSIZE)); [done|lia|by unfold upto|unfold PGSIZE; lia|].
  intros [] x2 (l2 & Hok2 & Hs2 & Hk2 & Hu2 & _). kstep. apply (HQ x2 l2).
  assert (∀ i, outside (upto k) 0 k i ↔ upto 0 i) as HD by (unfold outside, upto; intros; lia).
  eapply (resized_back new x l 0 x1 l1 k); [lia|auto|done|].
  split_and!; [by eapply uvm_ok_ext|by eapply uvm_step_ext| | |].
  - intros i Hi. unfold upto in Hi. lia.
  - intros i Hi Hni. rewrite Hu2 by done. apply decide_False. lia.
  - intros i Hi Hii. rewrite Hu2 by done. by apply decide_True.
Qed.

Lemma runs_uvmcopy x old new l sz :
  0 ≤ sz ≤ MAXVA → (3 ≤ length l)%nat →
  uvm_ok x old l (upto (np sz)) → uvm_ok x new l (upto 0) →
  (∀ a, owned (ram x) old (upto (np sz)) a → ¬ owned (ram x) new (upto 0) a) →
  (∀ i, 0 ≤ i < np sz → upte (ram x) new i = 0) →
  runs (uvmcopy end_ old new sz) x (λ r x', ∃ l',
    ((r = 0 ∧ resized new x l 0 x' l' (np sz) ∧ same_pages (ram x) old (ram x') new (np sz)) ∨
     (r = -1 ∧ resized new x l 0 x' l' 0)) ∧
    uvm_ok x' old l' (upto (np sz)) ∧ keeps old x x' (upto (np sz))).
Proof.
  intros Hsz Hlen Hold Hnew Hdis Hfree. destruct (np_spec sz Hsz) as (E & N & B).
  set (n := np sz) in *. unfold uvmcopy.
  pose proof (copy_parent x old new l n Hold Hnew Hdis Hfree) as Hpar.
  apply (runs_loop _ (λ a x1, ∃ k l1, 0 ≤ k ≤ n ∧ a = k * PGSIZE ∧ copy_done x old new l k x1 l1 ∧
    (k = 0 → l1 = l)) (λ a _, Z.to_nat (n - a / PGSIZE))).
  - intros a x1 (k & l1 & Hk & -> & Hd & Hl0). pose proof Hd as [Hr _].
    destruct (Hpar x1 l1 k Hr) as (Ho1 & Hko & Huo & _). kstep; intros Hb; zify_bool.
    { kstep. exists l1. assert (k = n) as -> by (unfold PGSIZE in *; lia).
      split; [left; by destruct Hd|done]. }
    assert (k < n) as Hlt by (unfold PGSIZE in *; lia).
    assert (upto n k) as Hkn by (unfold upto; lia).
    destruct (vpage_va k (uo_dom _ _ _ _ _ Hold k Hkn)) as [Hva _].
    destruct (walk_pte end_ x1 old l1 (upto n) k Ho1 Hkn) as (pte & t & Hw & Hp0 & Hld & _).
    kstep. eapply runs_eq; [exact Hw|]. rewrite Hp0. kif. kstep. unfold ld64. kstep.
    rewrite Hld, (uo_valid _ _ _ _ _ Ho1 k Hkn), Huo. cbn [negb].
    eapply (runs_uvmcopy_page x old new l n Hold Hnew Hdis Hfree k x1 l1); [lia|done|..].
    + intros x2 l2 Hr2 Hl2. assert (0 < k) by (destruct (decide (k = 0)) as [E0|]; [rewrite Hl0 in Hl2 by done; lia|lia]).
      apply (runs_uncopy x l new k x2 l2); [done|intros; apply Hfree; lia|done|].
      intros x3 l3 Hr3. exists l3. split; [by right|].
      destruct (Hpar x3 l3 0 Hr3) as (? & ? & _). done.
    + intros x2 l2 Hd2. kstep. replace (k * PGSIZE + PGSIZE) with ((k + 1) * PGSIZE) by lia.
      rewrite u64_small by (change MAXVA with (2 ^ 38) in *; unfold PGSIZE in *; lia).
      rewrite !Z.div_mul by done. split; [|lia]. exists (k + 1), l2. split_and!; [lia|lia|done|done|lia].
  - exists 0, l. split_and!; [lia|lia|done| |done]. split; [by apply resized_refl|]. intros i. lia.
  - rewrite Z.div_0_l by done. assert (n ≤ sz / PGSIZE + 1); [|lia]. unfold PGSIZE in *. dlia.
Qed.


(** C31: out of memory at its first page, [uvmcopy] does not return -1 but
    panics: its error exit calls [uvmunmap] with size 0, whose page loop then
    starts on an address with no page table. *)
Theorem uvmcopy_first_page_panics x old new sz D :
  0 < sz ≤ MAXVA → uvm_ok x old [] D → D 0 → leaf_addr (ram x) new 0 = None →
  stops (uvmcopy end_ old new sz) x (Panic "uvmunmap: walk").
Proof.
  intros Hsz Hold H0 Hnone. unfold uvmcopy. apply stops_loop; [lia|].
  rewrite (proj2 (Z.leb_gt sz 0)) by lia.
  destruct (walk_pte end_ x old [] D 0 Hold H0) as (pte & t & Hw & Hp0 & Hld & _).
  apply stops_bind_r. eapply runs_eq; [exact Hw|]. rewrite Hp0.
  apply stops_bind_r. unfold ld64. kstep. rewrite Hld, (uo_valid _ _ _ _ _ Hold 0 H0). cbn [negb].
  apply stops_bind_r. kapply (runs_kalloc_empty end_ x (po_alloc _ _ _ _ (uo_pt _ _ _ _ _ Hold))).
  intros r x1 (-> & Inv1 & Hk1 & Hm). change (0 =? 0) with true. cbn iota.
  apply stops_bind_l. unfold uvmunmap. apply stops_loop; [unfold page_fuel; lia|].
  apply stops_bind_l. unfold uvmunmap_page. apply stops_bind_r. apply runs_walk_lookup; [done|].
  change (PGROUNDDOWN 0) with 0. by rewrite Hm, Hnone.
Qed.
End UvmOps.
