(* ===== verification/UserCopy.v ===== *)
(** * Copying between the kernel and user memory

    [copyout] and [copyin] touch exactly the bytes the user's page table makes
    accessible to the user, and nothing else. *)

From S2P Require Import Prelude Memory Riscv Spinlock Core CString Kalloc Vm PageTable VmProof Uvm.

(** The physical address of a user virtual address. *)
Definition upa (m : mem) (root va : Z) : Z := upage m root (va / PGSIZE) + va mod PGSIZE.

(** May the user access [va]? *)
Definition uacc (m : mem) (root va : Z) : Prop :=
  0 ≤ va < MAXVA ∧ has (upte m root (va / PGSIZE)) PTE_V = true ∧
  has (upte m root (va / PGSIZE)) PTE_U = true.

(** [m'] is [m] with [bs] written at the user address [dst]. *)
Definition written (root : Z) (m m' : mem) (dst : Z) (bs : list Z) : Prop :=
  (∀ i b, bs !! i = Some b → m' (upa m root (dst + Z.of_nat i)) = b) ∧
  (∀ y, (∀ i, (i < length bs)%nat → y ≠ upa m root (dst + Z.of_nat i)) → m' y = m y).

Section UserCopy.
Context (end_ : Z).
Implicit Types (x : kern * kalloc_st) (l : list Z).
Abbreviation ram x := (km_ram x.2).
Abbreviation uvm_ok := (uvm_ok end_).

(** The address space [x], in which the pages open to the user are [D]. *)
Context (x : kern * kalloc_st) (root : Z) (l : list Z) (D : Z → Prop).
Context (Hok : uvm_ok x root l D).
Context (HD : ∀ va, uacc (ram x) root va → D (va / PGSIZE)).

Lemma lookup_upte m va : 0 ≤ va < MAXVA → lookup_pte m root va = upte m root (va / PGSIZE).
Proof. intros Hva. rewrite lookup_pte_page by done. by rewrite PGROUNDDOWN_spec. Qed.

Lemma uacc_page va : uacc (ram x) root va → page_ok end_ (upage (ram x) root (va / PGSIZE)).
Proof using All. intros Ha. by apply (uo_page _ _ _ _ _ Hok), HD. Qed.

Lemma upa_in_page m va : in_page (upage m root (va / PGSIZE)) (upa m root va).
Proof. unfold in_page, upa. pose proof (Z.mod_pos_bound va PGSIZE). unfold PGSIZE in *. lia. Qed.

(** Different accessible addresses are different bytes. *)
Lemma upa_inj va va' :
  uacc (ram x) root va → uacc (ram x) root va' →
  upa (ram x) root va = upa (ram x) root va' → va = va'.
Proof using All.
  intros Ha Ha' E.
  assert (va / PGSIZE = va' / PGSIZE) as Hpg.
  { apply (uo_inj _ _ _ _ _ Hok); [by apply HD|by apply HD|].
    apply (pages_disjoint _ _ (upa (ram x) root va)); [by apply uacc_page..|apply upa_in_page|].
    rewrite E. apply upa_in_page. }
  unfold upa in E. rewrite Hpg in E.
  rewrite (Z.div_mod va PGSIZE), (Z.div_mod va' PGSIZE) by done. rewrite Hpg. lia.
Qed.

(** No accessible byte is in a page table. *)
Lemma upa_not_table va a : uacc (ram x) root va → is_table (ram x) root a → ¬ in_page a (upa (ram x) root va).
Proof using All.
  intros Ha Ht Hin. apply (uo_notab _ _ _ _ _ Hok _ (HD va Ha)).
  replace (upage (ram x) root (va / PGSIZE)) with a; [done|].
  apply (pages_disjoint a _ (upa (ram x) root va)); [|by apply uacc_page|done|apply upa_in_page].
  eapply table_aligned; [apply Hok|done].
Qed.

(** Writing accessible bytes changes no page table. *)
Lemma written_tables m' dst bs :
  (∀ j, (j < length bs)%nat → uacc (ram x) root (dst + Z.of_nat j)) → written root (ram x) m' dst bs →
  ∀ a y, is_table (ram x) root a → in_page a y → m' y = ram x y.
Proof using All.
  intros Ha [_ Hout] a y Ht Hy. apply Hout. intros j Hj ->. by eapply upa_not_table; [apply Ha|..].
Qed.

(** ** walkaddr *)

Lemma leaf_addr_pos va pte : leaf_addr (ram x) root va = Some pte → 0 < pte.
Proof using All.
  unfold leaf_addr. destruct (tab _ _ _) as [t|] eqn:Ht; intros [= <-].
  destruct (po_pages _ _ _ _ (uo_pt _ _ _ _ _ Hok) t (is_table_leaf _ _ _ _ Ht)) as [Hp _].
  pose proof (page_ok_pos end_ t (ki_end _ _ _ (po_alloc _ _ _ _ (uo_pt _ _ _ _ _ Hok))) Hp).
  pose proof (PX_range 0 va). lia.
Qed.

Lemma walkaddr_spec x1 va :
  0 ≤ va < 2 ^ 64 → (∀ a y, is_table (ram x) root a → in_page a y → ram x1 y = ram x y) →
  walkaddr root va x1 = Ret 0 x1 ∧ ¬ uacc (ram x) root va ∨
  walkaddr root va x1 = Ret (upage (ram x) root (va / PGSIZE)) x1 ∧ uacc (ram x) root va.
Proof using All.
  intros Hva Hsame. unfold walkaddr. destruct (MAXVA <=? va) eqn:Hm; zify_bool.
  { left. split; [done|]. intros [? _]. lia. }
  assert (Hr : 0 ≤ va < MAXVA) by lia. unfold mbind, M_bind. rewrite walk_lookup by done.
  pose proof (lookup_upte (ram x) va Hr) as E.
  rewrite <- (lookup_pte_ext (ram x) (ram x1)) in E by done. unfold lookup_pte in E.
  rewrite (leaf_addr_ext (ram x)) in E |- * by done.
  destruct (leaf_addr (ram x) root va) as [pte|] eqn:Hl; cbn.
  2:{ left. split; [done|]. intros (_ & Hv & _). by rewrite <- E, has_zero in Hv. }
  apply leaf_addr_pos in Hl. rewrite (proj2 (Z.eqb_neq pte 0)) by lia.
  unfold ld64, gets. rewrite E.
  destruct (has _ PTE_V) eqn:Hv; cbn; [|left; split; [done|]; intros (_ & Hv' & _); congruence].
  destruct (has _ PTE_U) eqn:HU; cbn; [|left; split; [done|]; intros (_ & _ & Hv'); congruence].
  by right.
Qed.

(** ** copyout *)

Lemma uacc_round m va : uacc m root va → uacc m root (PGROUNDDOWN va).
Proof.
  intros (Hr & Hv & HU). rewrite PGROUNDDOWN_spec. unfold uacc. rewrite Z.div_mul by done.
  split; [|done]. unfold PGSIZE. dlia.
Qed.

(** Where the next chunk starts, when there is one. *)
Lemma next_chunk va n len :
  n = Z.min (PGSIZE - (va - PGROUNDDOWN va)) len → 0 ≤ PGROUNDDOWN va < MAXVA → n ≠ len →
  u64 (PGROUNDDOWN va + PGSIZE) = va + n ∧ 0 ≤ u64 (PGROUNDDOWN va + PGSIZE) < 2 ^ 64.
Proof.
  intros Hn Hr Hne. change MAXVA with (2 ^ 38) in Hr. pose proof (PGROUNDDOWN_bounds va).
  rewrite u64_small by (unfold PGSIZE in *; lia). unfold PGSIZE in *. lia.
Qed.

(** The chunk of a copy that starts at [va]: [n] bytes of one page. *)
Lemma chunk_acc va n j :
  uacc (ram x) root (PGROUNDDOWN va) → n ≤ PGSIZE - (va - PGROUNDDOWN va) → 0 ≤ j < n →
  uacc (ram x) root (va + j) ∧
  upa (ram x) root (va + j) = upage (ram x) root (PGROUNDDOWN va / PGSIZE) + (va - PGROUNDDOWN va) + j.
Proof using All.
  intros (Hr & Hv & HU) Hn Hj. rewrite PGROUNDDOWN_spec in *. change MAXVA with (2 ^ 38) in *.
  assert ((va + j) / PGSIZE = va / PGSIZE) as E by (unfold PGSIZE in *; dlia).
  rewrite Z.div_mul in * by done. unfold uacc, upa. rewrite E. split; [split; [|done]|].
  - change MAXVA with (2 ^ 38). unfold PGSIZE in *. dlia.
  - unfold PGSIZE in *. dlia.
Qed.

Lemma written_app m1 dst bs bs' pa :
  written root (ram x) m1 dst bs →
  (∀ j, (j < length (bs ++ bs'))%nat → uacc (ram x) root (dst + Z.of_nat j)) →
  (∀ j, (j < length bs')%nat → upa (ram x) root (dst + Z.of_nat (length bs) + Z.of_nat j) = pa + Z.of_nat j) →
  written root (ram x) (mwrite m1 pa bs') dst (bs ++ bs').
Proof using All.
  intros [Hin Hout] Hacc Hpa. rewrite length_app in Hacc. split.
  - intros i b Hi. destruct (decide (i < length bs)%nat) as [Hlt|Hge].
    + rewrite lookup_app_l in Hi by done. rewrite mwrite_out; [by apply Hin|].
      destruct (decide (pa ≤ upa (ram x) root (dst + Z.of_nat i) < pa + Z.of_nat (length bs'))) as [Hr|]; [|lia].
      set (j := Z.to_nat (upa (ram x) root (dst + Z.of_nat i) - pa)).
      assert (dst + Z.of_nat i = dst + Z.of_nat (length bs) + Z.of_nat j); [|lia].
      apply upa_inj; [apply Hacc; lia| |].
      * rewrite <- Z.add_assoc, <- Nat2Z.inj_add. apply Hacc. lia.
      * rewrite Hpa; lia.
    + rewrite lookup_app_r in Hi by lia.
      replace (dst + Z.of_nat i) with (dst + Z.of_nat (length bs) + Z.of_nat (i - length bs)) by lia.
      rewrite Hpa by (eapply lookup_lt_Some; exact Hi). by apply mwrite_in.
  - intros y Hy. rewrite length_app in Hy. rewrite mwrite_out.
    + apply Hout. intros i Hi. apply Hy. lia.
    + destruct (decide (pa ≤ y < pa + Z.of_nat (length bs'))) as [Hr|]; [|lia].
      exfalso. apply (Hy (length bs + Z.to_nat (y - pa))%nat); [lia|].
      rewrite Nat2Z.inj_add, Z.add_assoc, Hpa; lia.
Qed.

(** [x1] is [x] after the first [n] bytes of [src] were copied out. *)
Definition out_done (dst : Z) (src : list Z) (n : nat) (x1 : kern * kalloc_st) : Prop :=
  (n ≤ length src)%nat ∧ (∀ j, (j < n)%nat → uacc (ram x) root (dst + Z.of_nat j)) ∧
  x1 = (x.1, over ram_of (ram x1) x.2) ∧ written root (ram x) (ram x1) dst (take n src).

(** One iteration: the bytes of [src] after the first [n] that go to the page of
    [dst + n]. *)
Lemma out_done_chunk dst src n x1 :
  let va := dst + Z.of_nat n in
  let c := Z.min (PGSIZE - (va - PGROUNDDOWN va)) (alen (drop n src)) in
  out_done dst src n x1 → uacc (ram x) root (PGROUNDDOWN va) → (n < length src)%nat →
  let pa := upage (ram x) root (PGROUNDDOWN va / PGSIZE) + (va - PGROUNDDOWN va) in
  0 < c ≤ alen (drop n src) ∧
  out_done dst src (n + Z.to_nat c)
    (x1.1, over ram_of (mwrite (ram x1) pa (take (Z.to_nat c) (drop n src))) x1.2).
Proof using All.
  intros va c (Hn & Hacc & Hx1 & Hw) Ha Hlt pa. pose proof (PGROUNDDOWN_bounds va) as [_ Hb].
  assert (Hlen : alen (drop n src) = Z.of_nat (length src) - Z.of_nat n) by (unfold alen; rewrite length_drop; lia).
  assert (0 < c ≤ alen (drop n src)) as Hc by (unfold c, PGSIZE in *; lia).
  split; [done|]. assert (c ≤ PGSIZE - (va - PGROUNDDOWN va)) as Hc2 by (unfold c; lia).
  assert (Hnew : ∀ j, (j < Z.to_nat c)%nat →
    uacc (ram x) root (va + Z.of_nat j) ∧ upa (ram x) root (va + Z.of_nat j) = pa + Z.of_nat j).
  { intros j Hj. apply (chunk_acc va c); [done|done|lia]. }
  assert (Hacc' : ∀ j, (j < n + Z.to_nat c)%nat → uacc (ram x) root (dst + Z.of_nat j)).
  { intros j Hj. destruct (decide (j < n)%nat); [by apply Hacc|].
    replace (dst + Z.of_nat j) with (va + Z.of_nat (j - n)) by (unfold va; lia). apply Hnew. lia. }
  split_and!; [lia|done|by rewrite Hx1|].
  rewrite <- take_take_drop. cbn. apply written_app; [done| |].
  - intros j. rewrite length_app, !length_take, length_drop. intros Hj. apply Hacc'. lia.
  - intros j. rewrite !length_take, length_drop. intros Hj.
    rewrite Nat.min_l by lia. apply Hnew. lia.
Qed.

(** [copyout] from any kernel buffer: returns 0 after writing all of it, or -1
    at the first inaccessible page, after writing the bytes before it. *)
Lemma runs_copyout dst src :
  0 ≤ dst < 2 ^ 64 →
  runs (copyout root dst src) x (λ r x', ∃ n, out_done dst src n x' ∧
    ((r = 0 ∧ n = length src) ∨
     (r = -1 ∧ (n < length src)%nat ∧ ¬ uacc (ram x) root (dst + Z.of_nat n)))).
Proof using All.
  intros Hdst. unfold copyout.
  apply (runs_loop _ (λ ds x1, ∃ n, out_done dst src n x1 ∧ ds.2 = drop n src ∧
      (ds.2 ≠ [] → ds.1 = dst + Z.of_nat n ∧ 0 ≤ ds.1 < 2 ^ 64))
    (λ ds _, length ds.2)); [| |cbn; lia].
  - intros [d s] x1 (n & Hd & Es & Ed). cbn in Es, Ed. pose proof Hd as (Hn & Hacc & Hx1 & Hw).
    kstep; intros Hb; zify_bool.
    { kstep. exists n. split; [done|]. left. split; [done|]. subst s.
      apply (f_equal length) in Hb. rewrite length_drop in Hb. cbn in Hb. lia. }
    destruct (Ed Hb) as [-> Hr]. clear Ed.
    assert (n < length src)%nat as Hlt.
    { destruct (decide (n < length src)%nat); [done|]. rewrite drop_ge in Es by lia. done. }
    pose proof (PGROUNDDOWN_bounds (dst + Z.of_nat n)) as [Hpal Hpb].
    assert (Hp0 : 0 ≤ PGROUNDDOWN (dst + Z.of_nat n)).
    { rewrite PGROUNDDOWN_spec. unfold PGSIZE. dlia. }
    kstep. destruct (walkaddr_spec x1 (PGROUNDDOWN (dst + Z.of_nat n))) as [[Hwa Hna]|[Hwa Hya]]; [lia| | |].
    { apply (written_tables (ram x1) dst (take n src)); [|done]. rewrite length_take. intros j Hj. apply Hacc. lia. }
    + eapply runs_eq; [exact Hwa|]. change (0 =? 0) with true. kif. kstep. exists n. split; [done|]. right.
      split; [done|]. split; [done|]. intros Hac. by apply Hna, uacc_round.
    + eapply runs_eq; [exact Hwa|].
      pose proof (page_ok_pos end_ _ (ki_end _ _ _ (po_alloc _ _ _ _ (uo_pt _ _ _ _ _ Hok))) (uacc_page _ Hya)).
      rewrite (proj2 (Z.eqb_neq _ 0)) by lia. kif. subst s.
      destruct (out_done_chunk dst src n x1 Hd Hya Hlt) as [Hc Hd2]. kstep. kstep. kstep.
      set (c := Z.min _ (alen (drop n src))) in *. assert (c = Z.min _ (alen (drop n src))) as Ec by done.
      clearbody c. cbn [fst snd]. rewrite drop_drop.
      assert (alen (drop n src) = Z.of_nat (length src) - Z.of_nat n) as Hlen.
      { unfold alen. rewrite length_drop. lia. }
      split; [|rewrite !length_drop; lia]. eexists. split; [exact Hd2|]. split; [done|]. intros Hne.
      destruct (next_chunk _ _ _ Ec (proj1 Hya)); [|lia].
      intros E. apply Hne. apply drop_ge. lia.
  - exists 0%nat. split; [|by rewrite Z.add_0_r]. split_and!; [lia|lia|by destruct x as [? []]|].
    split; [by intros|done].
Qed.
(** ** copyin *)

(** [bs] are the accessible user bytes from [src]. *)
Definition in_done (x1 : kern * kalloc_st) (src : Z) (bs : list Z) : Prop :=
  ∀ i b, bs !! i = Some b →
    uacc (ram x) root (src + Z.of_nat i) ∧ b = ram x1 (upa (ram x) root (src + Z.of_nat i)).

Lemma in_done_chunk x1 src bs c :
  let va := src + alen bs in
  in_done x1 src bs → uacc (ram x) root (PGROUNDDOWN va) → 0 ≤ c ≤ PGSIZE - (va - PGROUNDDOWN va) →
  let pa := upage (ram x) root (PGROUNDDOWN va / PGSIZE) + (va - PGROUNDDOWN va) in
  in_done x1 src (bs ++ mread (ram x1) pa (Z.to_nat c)).
Proof using All.
  intros va Hd Ha Hc pa i b Hi. apply lookup_app_Some in Hi as [Hi|[Hge Hi]]; [by apply Hd|].
  assert (i - length bs < Z.to_nat c)%nat as Hlt.
  { apply lookup_lt_Some in Hi. by rewrite length_mread in Hi. }
  rewrite mread_lookup in Hi by done. injection Hi as <-.
  replace (src + Z.of_nat i) with (va + Z.of_nat (i - length bs)) by (unfold va, alen; lia).
  destruct (chunk_acc va c (Z.of_nat (i - length bs))) as [? ->]; [done|lia|lia|done].
Qed.

Lemma runs_copyin x1 src len :
  (∀ a y, is_table (ram x) root a → in_page a y → ram x1 y = ram x y) →
  0 ≤ src < 2 ^ 64 → 0 ≤ len →
  runs (copyin root src len) x1 (λ br x', x' = x1 ∧ in_done x1 src br.1 ∧
    ((br.2 = 0 ∧ alen br.1 = len) ∨
     (br.2 = -1 ∧ alen br.1 < len ∧ ¬ uacc (ram x) root (src + alen br.1)))).
Proof using All.
  intros Hsame Hsrc Hlen. unfold copyin.
  apply (runs_loop _ (λ '(bs, va, n) x2, x2 = x1 ∧ in_done x1 src bs ∧ 0 ≤ n ∧ alen bs + n = len ∧
      (n ≠ 0 → va = src + alen bs ∧ 0 ≤ va < 2 ^ 64)) (λ '(_, _, n) _, Z.to_nat n)); [| |lia].
  - intros [[bs va] n] x2 (-> & Hd & Hn & Hsum & Hva). kstep; intros Hb; zify_bool.
    { kstep. cbn. split; [done|]. split; [done|]. left. split; [done|lia]. }
    destruct Hva as [-> Hr]; [lia|]. pose proof (PGROUNDDOWN_bounds (src + alen bs)) as [Hpal Hpb].
    assert (Hp0 : 0 ≤ PGROUNDDOWN (src + alen bs)) by (rewrite PGROUNDDOWN_spec; unfold PGSIZE; dlia).
    kstep. destruct (walkaddr_spec x1 (PGROUNDDOWN (src + alen bs))) as [[Hwa Hna]|[Hwa Hya]]; [lia|done| |].
    + eapply runs_eq; [exact Hwa|]. change (0 =? 0) with true. kif. kstep. cbn. split; [done|]. split; [done|].
      right. split; [done|]. split; [lia|]. intros Hac. by apply Hna, uacc_round.
    + eapply runs_eq; [exact Hwa|].
      pose proof (page_ok_pos end_ _ (ki_end _ _ _ (po_alloc _ _ _ _ (uo_pt _ _ _ _ _ Hok))) (uacc_page _ Hya)).
      rewrite (proj2 (Z.eqb_neq _ 0)) by lia. kif. kstep. kstep. kstep.
      set (c := Z.min _ n) in *. assert (c = Z.min _ n) as Ec by done. clearbody c.
      assert (0 < c) by (unfold PGSIZE in *; lia).
      split; [|lia]. split; [done|]. split; [apply in_done_chunk; [done|done|lia]|].
      unfold alen in *. rewrite length_app, length_mread. split; [lia|]. split; [lia|]. intros Hne.
      destruct (next_chunk _ _ _ Ec (proj1 Hya)); lia.
  - split_and!; try done. intros _. unfold alen. cbn. lia.
Qed.

(** C27: [copyout] writes exactly the bytes of the kernel buffer to the user
    addresses from [dst], and nothing outside them: it returns 0 after the whole
    buffer, or -1 at the first page the user may not access, having written only
    the accessible bytes before it.  It never panics, whatever [dst] is. *)
Theorem copyout_safe dst src :
  0 ≤ dst < 2 ^ 64 →
  runs (copyout root dst src) x (λ r x', ∃ n,
    (n ≤ length src)%nat ∧ (∀ j, (j < n)%nat → uacc (ram x) root (dst + Z.of_nat j)) ∧
    x' = (x.1, over ram_of (ram x') x.2) ∧ written root (ram x) (ram x') dst (take n src) ∧
    ((r = 0 ∧ n = length src) ∨
     (r = -1 ∧ (n < length src)%nat ∧ ¬ uacc (ram x) root (dst + Z.of_nat n)))).
Proof using All.
  intros Hdst. eapply runs_mono; [by apply runs_copyout|].
  intros r x' (n & (H1 & H2 & H3 & H4) & H5). exists n. done.
Qed.

(** What [copyout] stores in user memory, [copyin] reads back, when the
    user may access the whole range. *)
Theorem copyin_copyout dst src :
  0 ≤ dst < 2 ^ 64 → (∀ j, (j < length src)%nat → uacc (ram x) root (dst + Z.of_nat j)) →
  runs (copyout root dst src;; copyin root dst (alen src)) x (λ br _, br = (src, 0)).
Proof using All.
  intros Hdst Hacc. kcall (runs_copyout dst src Hdst).
  intros r x1 (n & (Hn & Ha & Hx1 & Hw) & [[-> ->]|(_ & Hlt & Hna)]); [|by destruct Hna; apply Hacc].
  rewrite firstn_all in Hw. kapply (runs_copyin x1 dst (alen src)); [|done|unfold alen; lia|].
  { by apply (written_tables _ dst src). }
  intros [bs r] x2 (-> & Hd & [[Hr Hl]|(_ & Hl & Hna)]); cbn in *.
  - subst r. f_equal. apply (list_eq_same_length _ _ _ eq_refl); [unfold alen in Hl; lia|].
    intros i b b' Hi Hb Hb'. destruct (Hd i b Hb) as [_ ->]. by apply (proj1 Hw).
  - destruct Hna. unfold alen in *. apply Hacc. lia.
Qed.
End UserCopy.
