(* ===== verification/VmFree.v ===== *)
(** * Freeing page tables

    [freewalk] gives back every page of a page table that maps nothing any more;
    [uvmfree] gives back a whole address space. *)

From S2P Require Import Prelude Memory Riscv Spinlock Core CString Kalloc Vm PageTable VmProof Uvm UvmOps.

(** [b] is [a] or a table below it, [d] levels down at most. *)
Fixpoint sub (m : mem) (d : nat) (a b : Z) : Prop :=
  b = a ∨ match d with
    | O => False
    | S d => ∃ i c, idx i ∧ child m a i = Some c ∧ sub m d c b
    end.

Section Free.
Context (end_ : Z).
Implicit Types (x : kern * kalloc_st) (l : list Z).
Abbreviation ram x := (km_ram x.2).
Abbreviation page_ok := (page_ok end_).
Abbreviation kalloc_inv := (kalloc_inv end_).

(** A table with [d] levels below it that [freewalk] can take apart. *)
Fixpoint ftree (m : mem) (d : nat) (a : Z) : Prop :=
  page_ok a ∧
  match d with
  | O => ∀ i, idx i → child m a i = None
  | S d => ∀ i c, idx i → child m a i = Some c →
      Z.land (load64 m (a + 8 * i)) PTE_RWX = 0 ∧ ftree m d c ∧ ¬ sub m d c a ∧
      ∀ j c' b, idx j → j ≠ i → child m a j = Some c' → sub m d c b → ¬ sub m d c' b
  end.

Lemma sub_self m d a : sub m d a a.
Proof. destruct d; by left. Qed.

Lemma ftree_page m d a b : ftree m d a → sub m d a b → page_ok b.
Proof.
  revert a. induction d as [|d IH]; intros a [Ha Hf] Hs; (destruct Hs as [->|Hs]; [done|]); [done|].
  destruct Hs as (i & c & Hi & Hc & Hs). destruct (Hf i c Hi Hc) as (_ & Hfc & _). by apply (IH c).
Qed.

Lemma sub_ext m m' d a b :
  (∀ b y, sub m d a b → in_page b y → m' y = m y) → sub m' d a b ↔ sub m d a b.
Proof.
  revert a b. induction d as [|d IH]; intros a b Heq; [done|].
  assert (∀ i, idx i → child m' a i = child m a i) as Hch.
  { intros i Hi. apply child_ext; [done|]. intros y. apply Heq, sub_self. }
  cbn. apply or_iff_compat_l. split; intros (i & c & Hi & Hc & Hs); exists i, c; (split; [done|]).
  - rewrite Hch in Hc by done. split; [done|]. apply IH in Hs; [done|]. intros b' y Hb. apply Heq. right. by exists i, c.
  - rewrite Hch by done. split; [done|]. apply IH; [|done]. intros b' y Hb. apply Heq. right. by exists i, c.
Qed.

Lemma ftree_ext m m' d a :
  (∀ b y, sub m d a b → in_page b y → m' y = m y) → ftree m d a → ftree m' d a.
Proof.
  revert a. induction d as [|d IH]; intros a Heq [Ha Hf]; (split; [done|]).
  all: assert (∀ y, in_page a y → m' y = m y) as Hpg by (intros y; apply Heq, sub_self).
  all: assert (∀ i, idx i → child m' a i = child m a i) as Hch by (intros i Hi; by apply child_ext).
  - intros i Hi. rewrite Hch by done. by apply Hf.
  - intros i c Hi Hc. rewrite Hch in Hc by done. destruct (Hf i c Hi Hc) as (H1 & H2 & H3 & H4).
    assert (∀ j c b, idx j → child m a j = Some c → sub m' d c b ↔ sub m d c b) as Hs.
    { intros j c0 b Hj Hc0. apply sub_ext. intros b' y Hb. apply Heq. right. by exists j, c0. }
    rewrite (load64_entry m) by done. split_and!; [done| | |].
    + apply IH; [|done]. intros b y Hb. apply Heq. right. by exists i, c.
    + by rewrite (Hs i c).
    + intros j c' b Hj Hji Hc'. rewrite Hch in Hc' by done. rewrite (Hs i c), (Hs j c') by done. by apply (H4 j c').
Qed.

(** The tables below [a] through an entry before [n]. *)
Definition below (m : mem) (d : nat) (a n b : Z) : Prop :=
  ∃ j c, 0 ≤ j < n ∧ child m a j = Some c ∧ sub m d c b.

(** The loop of [freewalk] after [n] entries of the table [a]. *)
Record walked x l (d : nat) (a n : Z) x1 l1 : Prop := {
  wk_inv : kalloc_inv x1 l1;
  wk_kern : same_kern x.1 x1.1;
  wk_free : ∀ b, b ∈ l1 ↔ b ∈ l ∨ below (ram x) d a n b;
  wk_mem : ∀ y, ¬ in_page a y → (∀ b, below (ram x) d a n b → ¬ in_page b y) → ram x1 y = ram x y;
  wk_rest : ∀ j, idx j → n ≤ j → load64 (ram x1) (a + 8 * j) = load64 (ram x) (a + 8 * j);
}.

Lemma below_snoc m d a n b :
  below m d a (n + 1) b ↔ below m d a n b ∨ (0 ≤ n ∧ ∃ c, child m a n = Some c ∧ sub m d c b).
Proof.
  split.
  - intros (j & c & Hj & Hc & Hs). destruct (decide (j = n)) as [->|]; [right; split; [lia|by exists c]|left].
    exists j, c. split; [lia|done].
  - intros [(j & c & Hj & Hc & Hs)|(Hn & c & Hc & Hs)]; [exists j, c|exists n, c]; (split; [lia|done]).
Qed.

Lemma walked_skip x l d a n x1 l1 :
  idx n → child (ram x) a n = None → walked x l d a n x1 l1 → walked x l d a (n + 1) x1 l1.
Proof.
  intros Hn Hc [H1 H2 H3 H4 H5].
  assert (∀ b, below (ram x) d a (n + 1) b ↔ below (ram x) d a n b) as Hb.
  { intros b. rewrite below_snoc. split; [intros [?|(_ & c & ? & _)]; [done|congruence]|by left]. }
  split; [done|done|intros b; by rewrite Hb| |].
  - intros y Hy Hy'. apply H4; [done|]. intros b Hb'. by apply Hy', Hb.
  - intros j Hj Hle. apply H5; [done|lia].
Qed.

(** One entry that points to a table. *)
Lemma walked_child x l d a n c x1 l1 :
  (∀ a x l, kalloc_inv x l → ftree (ram x) d a → (∀ b, sub (ram x) d a b → b ∉ l) →
    runs (freewalk end_ (S d) a) x (λ _ x', ∃ l', kalloc_inv x' l' ∧ same_kern x.1 x'.1 ∧
      (∀ b, b ∈ l' ↔ b ∈ l ∨ sub (ram x) d a b) ∧
      ∀ y, (∀ b, sub (ram x) d a b → ¬ in_page b y) → ram x' y = ram x y)) →
  ftree (ram x) (S d) a → (∀ b, sub (ram x) (S d) a b → b ∉ l) → idx n → child (ram x) a n = Some c →
  walked x l d a n x1 l1 →
  runs (freewalk end_ (S d) c;; st64 (a + 8 * n) 0) x1 (λ _ x2, ∃ l2, walked x l d a (n + 1) x2 l2).
Proof.
  intros IH [Ha Hf] Hl Hn Hc [H1 H2 H3 H4 H5]. destruct (Hf n c Hn Hc) as (_ & Hfc & Hca & Hdis).
  assert (∀ b, sub (ram x) d c b → page_ok b) as Hpg by (intros b; by apply ftree_page).
  assert (∀ b, below (ram x) d a n b → page_ok b ∧ ¬ sub (ram x) d c b) as Hbl.
  { intros b (j & c' & Hj & Hc' & Hs). assert (idx j) as Hji by (unfold idx in *; lia).
    destruct (Hf j c' Hji Hc') as (_ & Hfc' & _ & Hdis'). split; [by eapply ftree_page|].
    intros Hs'. eapply (Hdis' n c); eauto. lia. }
  assert (∀ b y, sub (ram x) d c b → in_page b y → ram x1 y = ram x y) as Heq.
  { intros b y Hb Hy. apply H4.
    - intros Hy'. apply Hca. replace a with b; [done|]. eapply pages_disjoint; eauto; [by apply Hpg|apply Ha].
    - intros b' Hb' Hy'. destruct (Hbl b' Hb') as [Hp Hns]. apply Hns.
      replace b' with b; [done|]. eapply pages_disjoint; eauto; [by apply Hpg|apply Hp]. }
  assert (∀ b, sub (ram x1) d c b ↔ sub (ram x) d c b) as Hs1 by (intros b; by apply sub_ext).
  kcall (IH c x1 l1 H1).
  { by eapply ftree_ext. }
  { intros b Hb%Hs1 [Hin|Hin]%H3; [|by apply Hbl in Hin as [_ ?]]. eapply Hl; [|done]. right. by exists n, c. }
  intros _ x2 (l2 & I2 & K2 & F2 & M2). unfold st64. kstep. exists l2.
  assert (∀ b, b ∈ l2 ↔ b ∈ l ∨ below (ram x) d a (n + 1) b) as F3.
  { intros b. rewrite F2, H3, Hs1, below_snoc. unfold idx in Hn. split.
    - intros [[?|?]|?]; auto. right. right. split; [lia|]. by exists c.
    - intros [?|[?|(_ & c' & Hc' & Hs)]]; auto. right. congruence. }
  assert (a ∉ l2) as Hal.
  { rewrite F3. intros [Hin|(j & c' & Hj & Hc' & Hs)]; [by eapply Hl; [apply sub_self|]|].
    assert (idx j) as Hji by (unfold idx in *; lia). by destruct (Hf j c' Hji Hc') as (_ & _ & ? & _). }
  assert (∀ y, in_page a y → ram x2 y = ram x1 y) as M2a.
  { intros y Hy. apply M2. intros b Hb%Hs1 Hy'. apply Hca. replace a with b; [done|].
    eapply pages_disjoint; eauto; [by apply Hpg|apply Ha]. }
  split; cbn.
  - by apply kalloc_inv_store.
  - by etrans.
  - done.
  - intros y Hy Hy'. rewrite store_entry_out by done. rewrite M2.
    + apply H4; [done|]. intros b Hb. apply Hy'. rewrite below_snoc. by left.
    + intros b Hb%Hs1. apply Hy'. rewrite below_snoc. right. split; [unfold idx in Hn; lia|by exists c].
  - intros j Hj Hle. rewrite load64_store64_ne by lia. rewrite (load64_entry (ram x1)) by done. apply H5; [done|lia].
Qed.

Lemma walked_start x l d a : kalloc_inv x l → walked x l d a 0 x l.
Proof.
  intros Inv. assert (∀ b, ¬ below (ram x) d a 0 b) as Hb by (intros b (j & c & ? & _); lia).
  split; try done. intros b. specialize (Hb b). tauto.
Qed.

(** The table itself goes last. *)
Lemma walked_end x l d a x1 l1 :
  ftree (ram x) d a → (∀ b, sub (ram x) d a b → b ∉ l) →
  (∀ b, sub (ram x) d a b ↔ b = a ∨ below (ram x) (pred d) a 512 b) → (¬ below (ram x) (pred d) a 512 a) →
  walked x l (pred d) a 512 x1 l1 →
  runs (kfree end_ a) x1 (λ _ x', ∃ l', kalloc_inv x' l' ∧ same_kern x.1 x'.1 ∧
      (∀ b, b ∈ l' ↔ b ∈ l ∨ sub (ram x) d a b) ∧
      ∀ y, (∀ b, sub (ram x) d a b → ¬ in_page b y) → ram x' y = ram x y).
Proof.
  intros Hf Hl Hsub Hna [H1 H2 H3 H4 H5].
  assert (page_ok a) as Ha by (eapply ftree_page; [done|apply sub_self]).
  kapply (runs_kfree end_ x1 l1 a H1 Ha).
  { rewrite H3. intros [Hin|?]; [|done]. by eapply Hl; [apply sub_self|]. }
  intros _ x' (I & K & M). exists (a :: l1). split_and!; [done|by etrans| |].
  - intros b. rewrite elem_of_cons, H3, Hsub. tauto.
  - intros y Hy. assert (¬ in_page a y) by apply Hy, sub_self. rewrite M by done. apply H4; [done|].
    intros b Hb. apply Hy, Hsub. by right.
Qed.

Lemma runs_freewalk d a x l :
  kalloc_inv x l → ftree (ram x) d a → (∀ b, sub (ram x) d a b → b ∉ l) →
  runs (freewalk end_ (S d) a) x (λ _ x', ∃ l', kalloc_inv x' l' ∧ same_kern x.1 x'.1 ∧
    (∀ b, b ∈ l' ↔ b ∈ l ∨ sub (ram x) d a b) ∧
    ∀ y, (∀ b, sub (ram x) d a b → ¬ in_page b y) → ram x' y = ram x y).
Proof.
  revert a x l. induction d as [|d IH]; intros a x l Inv Hf Hl.
  all: change (freewalk end_ (S ?n) a) with
    (for_range 512 0 (λ i,
        pte ← ld64 (a + 8 * i);
        if has pte PTE_V && (Z.land pte PTE_RWX =? 0) then freewalk end_ n (PTE2PA pte);; st64 (a + 8 * i) 0
        else if has pte PTE_V then panic "freewalk: leaf"%string
        else mret tt);; kfree end_ a).
  all: kstep.
  - destruct Hf as [Ha Hf]. apply (runs_for_range _ (λ i x1, walked x l 0 a i x1 l)).
    + intros i x1 Hi Hw. unfold ld64. kstep. kstep. rewrite (wk_rest _ _ _ _ _ _ _ Hw) by (unfold idx; lia).
      assert (idx i) as Hii by (unfold idx; lia). pose proof (Hf i Hii) as Hc. unfold child in Hc.
      destruct (has _ PTE_V) eqn:Hv; [done|]. cbn [andb]. kif. kstep. apply walked_skip; [done| |done].
      unfold child. by rewrite Hv.
    + by apply walked_start.
    + intros x1 Hw. assert (∀ b, ¬ below (ram x) 0 a 512 b) as Hb.
      { intros b (j & c & Hj & Hc & _). by rewrite Hf in Hc. }
      apply (walked_end x l 0 a x1 l); [done|done| |done|done]. intros b. specialize (Hb b). cbn. tauto.
  - apply (runs_for_range _ (λ i x1, ∃ l1, walked x l d a i x1 l1)).
    + intros i x1 Hi (l1 & Hw). unfold ld64. kstep. kstep. rewrite (wk_rest _ _ _ _ _ _ _ Hw) by (unfold idx; lia).
      assert (idx i) as Hii by (unfold idx; lia). destruct (has _ PTE_V) eqn:Hv; cbn [andb].
      * assert (child (ram x) a i = Some (PTE2PA (load64 (ram x) (a + 8 * i)))) as Hc by (unfold child; by rewrite Hv).
        pose proof Hf as [_ Hf']. destruct (Hf' i _ Hii Hc) as (-> & _). cbn [Z.eqb]. kif.
        eapply walked_child; eauto.
      * kif. kstep. exists l1. apply walked_skip; [done| |done]. unfold child. by rewrite Hv.
    + exists l. by apply walked_start.
    + intros x1 (l1 & Hw). apply (walked_end x l (S d) a x1 l1); [done|done| | |done].
      * intros b. cbn [sub]. apply or_iff_compat_l. unfold below. cbn [pred].
        split; intros (j & c & Hj & Hc & Hs); by exists j, c.
      * intros (j & c & Hj & Hc & Hs). destruct Hf as [_ Hf]. by destruct (Hf j c Hj Hc) as (_ & _ & ? & _).
Qed.

(** ** A page table that maps nothing *)

Lemma tab_cons m a i p : tab m a (i :: p) = child m a i ≫= λ b, tab m b p.
Proof. done. Qed.

Lemma tab_app m a p q : tab m a (p ++ q) = tab m a p ≫= λ b, tab m b q.
Proof.
  revert a. induction p as [|i p IH]; intros a; [done|]. cbn [app]. rewrite !tab_cons.
  destruct (child m a i); cbn; [apply IH|done].
Qed.

Lemma sub_tab m d a b : sub m d a b ↔ ∃ p, (length p ≤ d)%nat ∧ Forall idx p ∧ tab m a p = Some b.
Proof.
  revert a. induction d as [|d IH]; intros a; cbn [sub].
  - split; [intros [->|[]]; by exists []|]. intros ([|? ?] & Hl & _ & E); [injection E as ->; by left|cbn in Hl; lia].
  - split.
    + intros [->|(i & c & Hi & Hc & Hs)]; [exists []; split; [cbn; lia|done]|]. apply IH in Hs as (p & Hl & Hp & Ht).
      exists (i :: p). split_and!; [cbn; lia|by constructor|]. by rewrite tab_cons, Hc.
    + intros ([|i p] & Hl & Hp & Ht); [injection Ht as ->; by left|right]. inversion Hp; subst. rewrite tab_cons in Ht.
      destruct (child m a i) as [c|] eqn:Hc; [|done]. exists i, c. split_and!; [done..|]. apply IH. exists p.
      split; [cbn in Hl; lia|done].
Qed.

Lemma va_of_path i2 i1 i0 :
  0 ≤ i2 < 256 → idx i1 → idx i0 →
  let va := ((i2 * 512 + i1) * 512 + i0) * PGSIZE in
  0 ≤ va < MAXVA ∧ PX 2 va = i2 ∧ PX 1 va = i1 ∧ PX 0 va = i0.
Proof.
  intros H2 H1 H0 va. unfold idx in *. change MAXVA with (2 ^ 38). rewrite !PX_spec by lia. unfold va, PGSIZE.
  change (2 ^ (12 + 9 * 2)) with 1073741824. change (2 ^ (12 + 9 * 1)) with 2097152. change (2 ^ (12 + 9 * 0)) with 4096. dlia.
Qed.

Lemma pt_ftree x root l d q a :
  pt_ok end_ x root l → (∀ va, 0 ≤ va < MAXVA → has (lookup_pte (ram x) root va) PTE_V = false) →
  (length q + d)%nat = 2%nat → Forall idx q → tab (ram x) root q = Some a → ftree (ram x) d a.
Proof.
  intros [Inv Ht Hpg] Hno. revert q a. induction d as [|d IH]; intros q a Hlen Hq Ha.
  all: assert (path q) as Hpq by (split; [lia|done]).
  all: split; [apply (Hpg a); by exists q|].
  - intros i Hi. destruct q as [|i2 [|i1 [|? ?]]]; cbn [length] in Hlen; try lia.
    apply Forall_cons in Hq as [H2 [H1 _]%Forall_cons].
    pose proof (pt_low _ _ Ht i2 [i1] a Hpq Ha) as Hlow.
    destruct (va_of_path i2 i1 i ltac:(unfold idx in *; lia) H1 Hi) as (Hva & E2 & E1 & E0).
    specialize (Hno _ Hva). unfold lookup_pte, leaf_addr in Hno. rewrite E2, E1, Ha, E0 in Hno. cbn in Hno.
    unfold child. by rewrite Hno.
  - intros i c Hi Hc. assert (path (q ++ [i])) as Hqi.
    { split; [rewrite length_app; cbn; lia|]. apply Forall_app. by split; [|constructor]. }
    assert (tab (ram x) root (q ++ [i]) = Some c) as Hci by (rewrite tab_snoc, Ha; done).
    assert (∀ j c' b p, child (ram x) a j = Some c' → idx j → (length p ≤ d)%nat → Forall idx p → tab (ram x) c' p = Some b →
      path (q ++ j :: p) ∧ tab (ram x) root (q ++ j :: p) = Some b) as Hdown.
    { intros j c' b p Hc' Hj Hl Hp Hb. split; [split; [rewrite length_app; cbn; lia|]|].
      - apply Forall_app. split; [done|by constructor].
      - rewrite tab_app, Ha. cbn [mbind option_bind]. by rewrite tab_cons, Hc'. }
    split_and!.
    + by eapply pt_inner.
    + apply (IH (q ++ [i])); [rewrite length_app; cbn; lia|apply Hqi|done].
    + intros (p & Hl & Hp & Hb)%sub_tab. destruct (Hdown i c a p) as [Hd1 Hd2]; try done.
      pose proof (pt_inj _ _ Ht _ _ _ Hpq Hd1 Ha Hd2) as E. apply (f_equal length) in E. rewrite length_app in E. cbn in E. lia.
    + intros j c' b Hj Hji Hc' (p & Hl & Hp & Hb)%sub_tab (p' & Hl' & Hp' & Hb')%sub_tab.
      destruct (Hdown i c b p) as [Hd1 Hd2]; try done. destruct (Hdown j c' b p') as [Hd3 Hd4]; try done.
      pose proof (pt_inj _ _ Ht _ _ _ Hd1 Hd3 Hd2 Hd4) as E. apply app_inv_head in E. by injection E as -> _.
Qed.

(** Every page of a page table without mappings becomes free. *)
Lemma runs_freewalk_root x root l :
  pt_ok end_ x root l → (∀ va, 0 ≤ va < MAXVA → has (lookup_pte (ram x) root va) PTE_V = false) →
  runs (freewalk end_ 3 root) x (λ _ x', ∃ l', kalloc_inv x' l' ∧ same_kern x.1 x'.1 ∧
    (∀ b, b ∈ l' ↔ b ∈ l ∨ is_table (ram x) root b) ∧
    ∀ y, (∀ b, is_table (ram x) root b → ¬ in_page b y) → ram x' y = ram x y).
Proof.
  intros Hok Hno. assert (∀ b, sub (ram x) 2 root b ↔ is_table (ram x) root b) as Hs.
  { intros b. rewrite sub_tab. unfold is_table, path. naive_solver. }
  kapply (runs_freewalk 2 root x l); [apply Hok|by eapply (pt_ftree x root l 2 [])|intros b Hb%Hs; by apply Hok|].
  intros _ x' (l' & I & K & F & M). exists l'. split_and!; [done|done|intros b; by rewrite F, Hs|].
  intros y Hy. apply M. intros b Hb%Hs. by apply Hy.
Qed.

(** ** uvmfree *)

Lemma lookup_upte_page m root va : 0 ≤ va < MAXVA → lookup_pte m root va = upte m root (va / PGSIZE).
Proof.
  intros Hva. rewrite lookup_pte_page by done. unfold upte. f_equal. rewrite PGROUNDDOWN_spec. unfold PGSIZE. dlia.
Qed.

Lemma runs_uvmfree x root l sz :
  0 < sz ≤ MAXVA → uvm_ok end_ x root l (upto (np sz)) →
  (∀ i, vpage i → np sz ≤ i → has (upte (ram x) root i) PTE_V = false) →
  runs (uvmfree end_ root sz) x (λ _ x', ∃ l', kalloc_inv x' l' ∧ same_kern x.1 x'.1 ∧
    (∀ a, a ∈ l' ↔ a ∈ l ∨ owned (ram x) root (upto (np sz)) a) ∧
    ∀ y, (∀ a, in_page a y → ¬ owned (ram x) root (upto (np sz)) a ∧ a ∉ l) → ram x' y = ram x y).
Proof.
  intros Hsz Hok Hno. destruct (np_spec sz ltac:(lia)) as (E & N & B). unfold uvmfree.
  change 0 with (0 * PGSIZE) at 1.
  kcall (runs_uvmunmap end_ x root l (upto (np sz)) 0 (np sz) sz Hok).
  { unfold PGSIZE in *. lia. }
  { done. }
  { unfold PGSIZE in *. lia. }
  intros _ x1 (l1 & Hok1 & Hs1 & _ & Hu1 & _). pose proof (uo_pt _ _ _ _ _ Hok1) as Hpt1.
  assert (∀ a, owned (ram x1) root (outside (upto (np sz)) 0 (np sz)) a ↔ is_table (ram x1) root a) as Ho1.
  { intros a. unfold owned, outside, upto. split; [intros [?|(i & ? & _)]; [done|lia]|by left]. }
  kapply (runs_freewalk_root x1 root l1 Hpt1).
  { intros va Hva. rewrite lookup_upte_page by done.
    assert (vpage (va / PGSIZE)) as Hv by (unfold vpage; change MAXVA with (2 ^ 38) in *; change (2 ^ 38 / PGSIZE) with (2 ^ 26); unfold PGSIZE; dlia).
    rewrite Hu1 by done. case_decide; [apply has_zero|]. apply Hno; [done|]. unfold vpage in Hv. lia. }
  intros _ x2 (l2 & I2 & K2 & F2 & M2). destruct Hs1 as [K1 O1 F1]. exists l2. split_and!; [done|by etrans| |].
  - intros a. rewrite F2. specialize (O1 a). specialize (Ho1 a). tauto.
  - intros y Hy. rewrite M2; [by apply F1|]. intros b Hb Hy'. destruct (Hy b Hy') as [H1 H2].
    specialize (O1 b). specialize (Ho1 b). tauto.
Qed.

(** [uvmfree] gives back every page of an address space, the pages it maps and the
    pages of its page table, each once; nothing else changes. *)
Theorem uvmfree_correct x root l sz :
  0 < sz ≤ MAXVA → uvm_ok end_ x root l (upto (np sz)) →
  (∀ i, vpage i → np sz ≤ i → has (upte (ram x) root i) PTE_V = false) →
  runs (uvmfree end_ root sz) x (λ _ x', ∃ l', kalloc_inv x' l' ∧ same_kern x.1 x'.1 ∧
    (∀ a, a ∈ l' ↔ a ∈ l ∨ owned (ram x) root (upto (np sz)) a) ∧
    ∀ y, (∀ a, in_page a y → ¬ owned (ram x) root (upto (np sz)) a ∧ a ∉ l) → ram x' y = ram x y).
Proof. apply runs_uvmfree. Qed.
End Free.
