(* ===== verification/VmExamples.v ===== *)
(** * Concrete address spaces

    Small states that satisfy the invariants of [Vm]'s operations, and the
    theorems applied to them: a kernel with two empty page tables and ten free
    pages, then a process that has grown to one page. *)

From S2P Require Import Prelude Memory Riscv Spinlock Core CString Kalloc Vm PageTable VmProof Uvm UvmOps UserCopy.

Definition ex_end : Z := KERNBASE.
Definition ex_root : Z := KERNBASE + PGSIZE.
Definition ex_new : Z := KERNBASE + 2 * PGSIZE.
(** [n] free pages after the two roots. *)
Definition ex_free (n : Z) : list Z := (λ i, KERNBASE + i * PGSIZE) <$> seqZ 3 n.

(** Memory that is zero but for the links of the free list. *)
Fixpoint link (l : list Z) (m : mem) : mem :=
  match l with
  | [] => m
  | a :: l' => store64 (link l' m) a (hd 0 l')
  end.

Definition ex_x (n : Z) : kern * kalloc_st :=
  (demo_kern, KallocSt (initlock "kmem") (hd 0 (ex_free n)) (link (ex_free n) (λ _, 0))).

Lemma link_out l m y : (∀ a, a ∈ l → ¬ in_page a y) → link l m y = m y.
Proof.
  induction l as [|a l IH]; intros Hl; cbn; [done|]. rewrite store64_out.
  - apply IH. intros b Hb. apply Hl. by right.
  - specialize (Hl a ltac:(by left)). unfold in_page, PGSIZE in Hl. lia.
Qed.

Lemma link_ok l m : mem_ok m → mem_ok (link l m).
Proof. induction l; cbn; auto using store64_ok. Qed.

Lemma ex_free_pages n a : a ∈ ex_free n → ∃ i, 3 ≤ i < 3 + n ∧ a = KERNBASE + i * PGSIZE.
Proof. intros (i & -> & Hi)%list_elem_of_fmap. rewrite elem_of_seqZ in Hi. exists i. lia. Qed.

Lemma link_chain l m : NoDup l → Forall (page_ok ex_end) l → chain (link l m) (hd 0 l) l.
Proof.
  intros Hnd Hp. induction l as [|a l IH]; cbn; [done|]. split; [done|].
  apply NoDup_cons in Hnd as [Hni Hnd]. inversion Hp as [|? ? Ha Hp']; subst.
  rewrite load64_store64_eq, u64_small.
  - eapply (chain_other ex_end); [exact Hni|apply Ha|done| |by apply IH].
    intros y Hy. apply store64_out. unfold in_page, PGSIZE in Hy. lia.
  - destruct l as [|b l]; cbn; [lia|]. inversion Hp' as [|? ? (_ & Hb1 & Hb2)]; subst.
    unfold ex_end, PHYSTOP, KERNBASE in *. lia.
Qed.

Lemma ex_inv n : 0 ≤ n ≤ 100 → kalloc_inv ex_end (ex_x n) (ex_free n).
Proof.
  intros Hn.
  assert (NoDup (ex_free n)).
  { by apply (NoDup_fmap_2_strong _ _), NoDup_seqZ; intros i j _ _; unfold PGSIZE; lia. }
  assert (Forall (page_ok ex_end) (ex_free n)).
  { apply Forall_forall. intros a (i & Hi & ->)%ex_free_pages.
    split; [|unfold ex_end, PHYSTOP, KERNBASE, PGSIZE; lia]. unfold KERNBASE, PGSIZE. dlia. }
  split; [exact demo_cpu_ok|done|apply link_ok; by intros y|done|by apply link_chain|done|done].
Qed.

(** The two root pages are not free, and zero. *)
Lemma ex_zero n i y :
  0 ≤ i < 3 → in_page (KERNBASE + i * PGSIZE) y → km_ram (ex_x n).2 y = 0.
Proof.
  intros Hi Hy. cbn. apply link_out. intros a (j & Hj & ->)%ex_free_pages Hy'.
  unfold in_page, PGSIZE in *. lia.
Qed.

Lemma ex_empty n i :
  0 ≤ n ≤ 100 → 0 ≤ i < 3 → uvm_ok ex_end (ex_x n) (KERNBASE + i * PGSIZE) (ex_free n) (upto 0).
Proof.
  intros Hn Hi. assert (Hz := λ y, ex_zero n i y Hi).
  split; try (intros j; unfold upto; lia). split; [by apply ex_inv| |].
  - apply empty_tree; [done|]. unfold KERNBASE, PGSIZE. dlia.
  - intros a Ha. rewrite empty_is_table in Ha by done. subst a. split.
    + split; [|unfold ex_end, PHYSTOP, KERNBASE, PGSIZE; lia]. unfold KERNBASE, PGSIZE. dlia.
    + intros (j & Hj & E)%ex_free_pages. unfold PGSIZE in E. lia.
Qed.

Lemma ex_upte n i j : 0 ≤ i < 3 → upte (km_ram (ex_x n).2) (KERNBASE + i * PGSIZE) j = 0.
Proof. intros Hi. apply empty_lookup. intros y. by apply ex_zero. Qed.

(** The process after [uvmalloc] to one page. *)
Definition ex_grown (n : Z) : kern * kalloc_st := state (uvmalloc ex_end ex_root 0 PGSIZE) (ex_x n).

Lemma ex_grown_eq n : ex_grown n = state (uvmalloc ex_end ex_root 0 PGSIZE) (ex_x n).
Proof. reflexivity. Qed.

Section Grown.
Context (n : Z) (Hn : 0 ≤ n ≤ 100).
Context (Hres : result 0 (uvmalloc ex_end ex_root 0 PGSIZE) (ex_x n) = PGSIZE).
Context (Hch : chain (km_ram (ex_grown n).2) (km_freelist (ex_grown n).2) (drop 3 (ex_free n))).

Lemma ex_grown_ok : ∃ l,
  resized ex_end ex_root (ex_x n) (ex_free n) 0 (ex_grown n) l 1 ∧ fresh (km_ram (ex_grown n).2) ex_root 0 1.
Proof using Hn Hres.
  pose proof (runs_uvmalloc ex_end (ex_x n) ex_root (ex_free n) 0 PGSIZE (ex_empty n 1 Hn ltac:(lia)) ltac:(done)
    ltac:(done) ltac:(intros i _; by apply (ex_upte n 1))) as H.
  pose proof (ex_grown_eq n) as E. pose proof Hres as R. revert H E R.
  generalize (uvmalloc ex_end ex_root 0 PGSIZE) (ex_grown n). intros u g H E R.
  destruct (runs_result u (ex_x n) g _ 0 E H) as (l & [(_ & Hr & Hf)|(H0 & _)]).
  - exists l. done.
  - exfalso. rewrite R in H0. done.
Qed.

Lemma ex_grown_resized : resized ex_end ex_root (ex_x n) (ex_free n) 0 (ex_grown n) (drop 3 (ex_free n)) 1.
Proof using All.
  destruct ex_grown_ok as (l & Hr & _). pose proof Hr as (Hok & _).
  pose proof (po_alloc _ _ _ _ (uo_pt _ _ _ _ _ Hok)) as Inv.
  replace (drop 3 (ex_free n)) with l; [done|].
  apply (chain_det ex_end (km_ram (ex_grown n).2) (km_freelist (ex_grown n).2)).
  - done.
  - apply Inv.
  - apply Forall_drop, ex_inv, Hn.
  - apply Inv.
  - exact Hch.
Qed.

Lemma ex_disjoint a :
  owned (km_ram (ex_x n).2) ex_new (upto 0) a → ¬ owned (km_ram (ex_x n).2) ex_root (upto 0) a.
Proof using Hn.
  intros [H1|(i & Hi & _)]; [|unfold upto in Hi; lia].
  intros [H2|(i & Hi & _)]; [|unfold upto in Hi; lia].
  apply (empty_is_table _ ex_new (λ y, ex_zero n 2 y ltac:(lia))) in H1.
  apply (empty_is_table _ ex_root (λ y, ex_zero n 1 y ltac:(lia))) in H2. subst a. discriminate H2.
Qed.

Lemma ex_other :
  uvm_ok ex_end (ex_grown n) ex_new (drop 3 (ex_free n)) (upto 0) ∧
  (∀ i, upte (km_ram (ex_grown n).2) ex_new i = 0) ∧
  (∀ a, owned (km_ram (ex_grown n).2) ex_new (upto 0) a → ¬ owned (km_ram (ex_grown n).2) ex_root (upto 1) a).
Proof using All.
  destruct ex_grown_resized as (Hok & Hst & _).
  destruct (uvm_step_other ex_end ex_root (ex_x n) (ex_free n) (upto 0) (ex_grown n) (drop 3 (ex_free n))
    (upto 1) ex_new (upto 0)) as (H1 & _ & H3 & H4);
    [exact (ex_empty n 2 Hn ltac:(lia))|exact ex_disjoint|exact (ex_empty n 1 Hn ltac:(lia))| |done|].
  { apply (po_alloc _ _ _ _ (uo_pt _ _ _ _ _ Hok)). }
  split_and!; [done| |done]. intros i. rewrite H3. by apply (ex_upte n 2).
Qed.

Lemma ex_grown_uvm : uvm_ok ex_end (ex_grown n) ex_root (drop 3 (ex_free n)) (upto (np PGSIZE)).
Proof using All. destruct ex_grown_resized as (Hok & _). replace (np PGSIZE) with 1 by done. exact Hok. Qed.

(** The user may access exactly the first page. *)
Lemma ex_grown_acc va : uacc (km_ram (ex_grown n).2) ex_root va ↔ 0 ≤ va < PGSIZE.
Proof using All.
  destruct ex_grown_ok as (l & (Hok & _ & _ & Hu & _) & Hf). split.
  - intros (Hr & Hv & _). destruct (decide (va / PGSIZE = 0)) as [E|E]; [unfold PGSIZE in *; dlia|].
    exfalso. rewrite Hu in Hv; [|unfold vpage, PGSIZE; change MAXVA with (2 ^ 38) in *; dlia|lia].
    pose proof (ex_upte n 1 (va / PGSIZE) ltac:(lia)) as E0. change (KERNBASE + 1 * PGSIZE) with ex_root in E0.
    by rewrite E0, has_zero in Hv.
  - intros Hr. unfold uacc. replace (va / PGSIZE) with 0 by (unfold PGSIZE in *; dlia).
    destruct (Hf 0) as [F _]; [lia|]. unfold PGSIZE in *. change MAXVA with (2 ^ 38).
    assert (∀ k, 0 ≤ k < 10 → Z.testbit (upte (km_ram (ex_grown n).2) ex_root 0) k =
      Z.testbit (PTE_FLAGS (upte (km_ram (ex_grown n).2) ex_root 0)) k) as Hb.
    { intros k Hk. unfold PTE_FLAGS. rewrite Z.land_spec. change 0x3FF with (Z.ones 10).
      by rewrite Z.ones_spec_low, andb_true_r by lia. }
    unfold PTE_V, PTE_U. rewrite !has_testbit, !Hb, F by lia. split; [lia|done].
Qed.
End Grown.

(** Ten free pages, and just enough to grow. *)
Lemma ex_res_10 : result 0 (uvmalloc ex_end ex_root 0 PGSIZE) (ex_x 10) = PGSIZE.
Proof. vm_compute. reflexivity. Qed.
Lemma ex_chain_10 : chain (km_ram (ex_grown 10).2) (km_freelist (ex_grown 10).2) (drop 3 (ex_free 10)).
Proof. vm_compute. repeat split. Qed.
Lemma ex_res_3 : result 0 (uvmalloc ex_end ex_root 0 PGSIZE) (ex_x 3) = PGSIZE.
Proof. vm_compute. reflexivity. Qed.
Lemma ex_chain_3 : chain (km_ram (ex_grown 3).2) (km_freelist (ex_grown 3).2) (drop 3 (ex_free 3)).
Proof. vm_compute. repeat split. Qed.
Lemma ex_leaf_3 : leaf_addr (km_ram (ex_grown 3).2) ex_new 0 = None.
Proof. vm_compute. reflexivity. Qed.

(** ** The theorems on these states *)

(** Mapping two pages. *)
Lemma mappages_correct_witness :
  runs (mappages ex_root PGSIZE (2 * PGSIZE) KERNBASE 22) (ex_x 10) (λ r x',
    r = 0 → lookup_pte (km_ram x'.2) ex_root (2 * PGSIZE + 5) = new_pte KERNBASE 22 1).
Proof.
  eapply runs_mono; [eapply (mappages_correct ex_end (ex_x 10) ex_root (ex_free 10) PGSIZE (2 * PGSIZE) KERNBASE 22)|].
  - apply (ex_empty 10 1); lia.
  - done.
  - done.
  - done.
  - done.
  - done.
  - done.
  - intros va' _. rewrite empty_lookup; [done|]. intros y. by apply (ex_zero 10 1).
  - intros r x' (l' & k & _ & _ & _ & Hl & [[_ ->]|(-> & _)]); [|done].
    intros _. rewrite Hl by done. reflexivity.
Defined.

Lemma uvmalloc_correct_witness :
  runs (uvmalloc ex_end ex_root 0 PGSIZE) (ex_x 10) (λ r x', r = PGSIZE ∨ r = 0).
Proof.
  eapply runs_mono; [apply (uvmalloc_correct ex_end (ex_x 10) ex_root (ex_free 10) 0 PGSIZE)|].
  - exact (ex_empty 10 1 ltac:(lia) ltac:(lia)).
  - done.
  - done.
  - intros i _. by apply (ex_upte 10 1).
  - intros r x' (l' & [(-> & _)|(-> & _)]); [by left|by right].
Defined.


(** No free page: [fork] would panic. *)
Lemma uvmcopy_first_page_panics_witness :
  stops (uvmcopy ex_end ex_root ex_new PGSIZE) (ex_grown 3) (Panic "uvmunmap: walk").
Proof.
  apply (uvmcopy_first_page_panics ex_end (ex_grown 3) ex_root ex_new PGSIZE (upto (np PGSIZE))).
  - done.
  - exact (ex_grown_uvm 3 ltac:(lia) ex_res_3 ex_chain_3).
  - done.
  - exact ex_leaf_3.
Defined.

(** A buffer that starts in the mapped page and ends outside it. *)
Lemma copyout_safe_witness :
  runs (copyout ex_root 4090 (replicate 10 7)) (ex_grown 10) (λ r x', r = 0 ∨ r = -1).
Proof.
  eapply runs_mono; [apply (copyout_safe ex_end (ex_grown 10) ex_root (drop 3 (ex_free 10)) (upto (np PGSIZE)))|].
  - exact (ex_grown_uvm 10 ltac:(lia) ex_res_10 ex_chain_10).
  - intros va Ha%(ex_grown_acc 10 ltac:(lia) ex_res_10 ex_chain_10).
    change (np PGSIZE) with 1. unfold upto, PGSIZE in *. dlia.
  - lia.
  - intros r x' (k & _ & _ & _ & _ & [[-> _]|[-> _]]); [by left|by right].
Defined.

Lemma copyin_copyout_witness :
  runs (copyout ex_root 100 [1; 2; 3];; copyin ex_root 100 3) (ex_grown 10) (λ br _, br = ([1; 2; 3], 0)).
Proof.
  apply (copyin_copyout ex_end (ex_grown 10) ex_root (drop 3 (ex_free 10)) (upto (np PGSIZE))).
  - exact (ex_grown_uvm 10 ltac:(lia) ex_res_10 ex_chain_10).
  - intros va Ha%(ex_grown_acc 10 ltac:(lia) ex_res_10 ex_chain_10).
    change (np PGSIZE) with 1. unfold upto, PGSIZE in *. dlia.
  - lia.
  - intros j Hj. cbn in Hj. apply (ex_grown_acc 10 ltac:(lia) ex_res_10 ex_chain_10). unfold PGSIZE. lia.
Defined.
