(* ===== verification/Sleeplock.v ===== *)
(** * Sleep locks (kernel/sleeplock.c)

    A sleep lock inside a component's state is reached through a lens;
    [acquiresleep] of a lock another process holds puts the process to sleep.
    The lock's channel (its address) is an argument. *)

From S2P Require Import Prelude Riscv Spinlock Core.

Record sleeplock := Sleeplock {
  sl_locked : Z;         (* is the lock held? *)
  sl_lk : spinlock;      (* spinlock protecting this sleep lock *)
  sl_name : string;
  sl_pid : Z;            (* process holding the lock *)
}.

Definition initsleeplock (name : string) : sleeplock :=
  Sleeplock 0 (initlock "sleep lock") name 0.

Definition set_sl (locked pid : Z) (l : sleeplock) : sleeplock :=
  Sleeplock locked (sl_lk l) (sl_name l) pid.

Definition sl_spin : lens sleeplock spinlock :=
  Lens sl_lk (λ t l, Sleeplock (sl_locked l) t (sl_name l) (sl_pid l)).

Section ops.
Context {S : Type} (sl : lens S sleeplock) (ch : chan).
Abbreviation lk := (slock (lens_comp sl sl_spin)).

Definition acquiresleep : M (kern * S) unit :=
  acquire lk;;
  loop 1 (λ _, l ← gets (λ x, view sl x.2);
    if negb (sl_locked l =? 0) then sleep ch lk;; mret (inl tt) else mret (inr tt)) tt;;
  p ← curproc;
  pr ← the_proc p;
  modify (λ x, (x.1, over sl (set_sl 1 (p_pid pr) (view sl x.2)) x.2));;
  release lk.

Definition releasesleep : M (kern * S) unit :=
  acquire lk;;
  modify (λ x, (x.1, over sl (set_sl 0 0 (view sl x.2)) x.2));;
  wakeup ch;;
  release lk.

Definition holdingsleep : M (kern * S) bool :=
  acquire lk;;
  p ← curproc;
  pr ← the_proc p;
  l ← gets (λ x, view sl x.2);
  let r := negb (sl_locked l =? 0) && (sl_pid l =? p_pid pr) in
  release lk;;
  mret r.
End ops.

(** A lens that behaves where it is defined. *)
Class SleepLens {S} (sl : lens S sleeplock) := {
  sl_dom : S → Prop;
  sl_dom_over t s : sl_dom s → sl_dom (over sl t s);
  sl_view_over t s : sl_dom s → view sl (over sl t s) = t;
  sl_over_over t t' s : sl_dom s → over sl t (over sl t' s) = over sl t s;
}.
#[global] Arguments sl_dom {S} sl {_} s.

#[global] Instance sl_lock_lens {S} (sl : lens S sleeplock) `{!SleepLens sl} :
  LockLens (slock (lens_comp sl sl_spin)).
Proof.
  refine (Build_LockLens _ _ _ (λ x, sl_dom sl x.2) _ _ _ _ _ _ _ _ _); try done.
  - intros t x. apply sl_dom_over.
  - intros t x Hd. cbn. by rewrite sl_view_over.
  - intros t t' x Hd. cbn. by rewrite sl_view_over, sl_over_over by done.
Defined.

Section specs.
Context {S : Type} (sl : lens S sleeplock) `{!SleepLens sl} (ch : chan).
Abbreviation lk := (slock (lens_comp sl sl_spin)).

(** The lock value: free or held by process [pid]; its spinlock is free. *)
Definition sl_free (l : sleeplock) : Prop := sl_locked l = 0 ∧ locked (sl_lk l) = 0.
Definition sl_held (pid : Z) (l : sleeplock) : Prop :=
  sl_locked l ≠ 0 ∧ sl_pid l = pid ∧ locked (sl_lk l) = 0.

Lemma runs_acquiresleep k s i pid :
  running k i pid → sl_dom sl s → sl_free (view sl s) →
  runs (acquiresleep sl ch) (k, s) (λ _ x, kern_le k x.1 ∧ ∃ v, x.2 = over sl v s ∧ sl_held pid v).
Proof.
  intros (Hk & Hp & Hi & Hpid) Hd [Hl Hs]. pose proof Hk as (Hc & Hn & Hpl).
  unfold acquiresleep. kstep. apply (runs_acquire lk); [done|done|]. cbn.
  kgo. rewrite sl_view_over by done. cbn. rewrite Hl. kgo.
  apply (runs_curproc _ _ i); [by apply push_off_ok|by cbn; rewrite push_off_proc|]. cbn.
  rewrite settle_push_off by done. kstep. kunfold. kstep. cbn. rewrite Hpid.
  kstep. kstep. cbn.
  apply (runs_release lk _ _ (settle (k_cpu k))); cbn; rewrite ?sl_view_over by auto using sl_dom_over;
    [auto using sl_dom_over|done|by rewrite push_off_id|by apply pop_push_off|].
  split.
  - apply kern_le_same; [done|exact (same_kern_settle k)|by apply settle_ok].
  - rewrite !sl_over_over by auto using sl_dom_over. eexists. split; [done|]. done.
Qed.

Lemma runs_holdingsleep k s i pid :
  running k i pid → sl_dom sl s → sl_held pid (view sl s) →
  runs (holdingsleep sl) (k, s) (λ r x, r = true ∧ kern_le k x.1 ∧
    ∃ v, x.2 = over sl v s ∧ sl_held pid v).
Proof.
  intros (Hk & Hp & Hi & Hpid) Hd (Hl & Hlp & Hs). pose proof Hk as (Hc & Hn & Hpl).
  unfold holdingsleep. kstep. apply (runs_acquire lk); [done|done|]. cbn. kstep.
  apply (runs_curproc _ _ i); [by apply push_off_ok|by cbn; rewrite push_off_proc|]. cbn.
  rewrite settle_push_off by done. kstep. kunfold. kstep. cbn. rewrite Hpid. kstep. kstep. cbn.
  rewrite sl_view_over by done. cbn. rewrite Hlp, Z.eqb_refl, (proj2 (Z.eqb_neq _ _) Hl). kstep.
  apply (runs_release lk _ _ (settle (k_cpu k))); cbn; rewrite ?sl_view_over by auto using sl_dom_over;
    [auto using sl_dom_over|done|by rewrite push_off_id|by apply pop_push_off|].
  kgo. split; [done|]. split.
  - apply kern_le_same; [done|exact (same_kern_settle k)|by apply settle_ok].
  - rewrite !sl_over_over by auto using sl_dom_over. eexists. split; [done|]. done.
Qed.

Lemma runs_releasesleep k s i pid :
  running k i pid → sl_dom sl s → sl_held pid (view sl s) →
  runs (releasesleep sl ch) (k, s) (λ _ x, kern_le k x.1 ∧ ∃ v, x.2 = over sl v s ∧ sl_free v).
Proof.
  intros (Hk & Hp & Hi & Hpid) Hd (Hl & Hlp & Hs). pose proof Hk as (Hc & Hn & Hpl).
  unfold releasesleep. kstep. apply (runs_acquire lk); [done|done|]. cbn. kstep. kstep. cbn. kstep.
  eapply runs_mono; [apply runs_wakeup; split_and!; cbn; [by apply push_off_ok|done|done]|].
  intros [] [k1 s1]. cbn. intros (-> & Hk1 & Hc1 & Hw). rewrite settle_push_off in Hc1 by done.
  apply (runs_release lk _ _ (settle (k_cpu k))); cbn; rewrite ?sl_view_over by auto using sl_dom_over;
    [auto using sl_dom_over|done|by rewrite Hc1, push_off_id|by rewrite Hc1; apply pop_push_off|].
  split.
  - destruct Hk1 as (_ & Hn1 & Hl1). split; [split_and!; cbn; [by apply settle_ok|done|done]|].
    split; [apply settle_idem|]. cbn.
    intros j Hj. destruct (Hw j Hj) as (l & Hfl & E). exists l. split; [done|]. rewrite E. unfold wake.
    destruct (bool_decide _ && _) eqn:Hb; [|by left]. zify_bool. right. done.
  - rewrite !sl_over_over by auto using sl_dom_over. eexists. split; [done|]. done.
Qed.

(** A process that tries to take a lock another holds goes to sleep on it. *)
Lemma acquiresleep_sleeps k s i pid :
  running k i pid → sl_dom sl s → sl_locked (view sl s) ≠ 0 → locked (sl_lk (view sl s)) = 0 →
  c_noff (k_cpu k) = 0 →
  halts (acquiresleep sl ch) (k, s) Asleep (λ x, ∃ v, x.2 = over sl v s ∧
    sl_locked v = sl_locked (view sl s) ∧ sl_pid v = sl_pid (view sl s) ∧ locked (sl_lk v) = 0 ∧
    p_state (k_procs x.1 !!! i) = SLEEPING ∧ p_chan (k_procs x.1 !!! i) = Some ch).
Proof.
  intros (Hk & Hp & Hi & Hpid) Hd Hl Hs Hn. pose proof Hk as (Hc & Hlen & Hpl).
  unfold acquiresleep. apply halts_bind_r. apply (runs_acquire lk); [done|done|]. cbn [view over lens_comp slock].
  apply halts_bind_l. unfold loop. apply halts_bind_l. apply halts_bind_r. kstep. cbn.
  rewrite sl_view_over by done. cbn. rewrite (proj2 (Z.eqb_neq _ _) Hl). cbn. apply halts_bind_l.
  eapply halts_mono.
  { apply (halts_sleep ch (lens_comp sl sl_spin) _ _ i (k_cpu k)); cbn; rewrite ?sl_view_over by done; try done.
    intros _. by apply sl_dom_over. }
  intros [k1 s1]. cbn. intros (-> & H1 & H2 & _). rewrite sl_view_over by done. cbn. rewrite sl_over_over by done.
  eexists. split; [done|]. done.
Qed.
End specs.
