(* ===== verification/DList.v ===== *)
(** * Circular doubly-linked lists

    The list of struct bufs in kernel/bio.c and the lists of kernel/list.c are
    circular lists through [next] and [prev] fields with a head node.  Here the
    fields are two functions on nodes; [dl] relates them to the list of nodes,
    and taking a node out or pushing one at the front do to that list what they
    should. *)

From S2P Require Import Prelude.

Definition fset (f : Z → Z) (a v : Z) : Z → Z := λ x, if x =? a then v else f x.

Lemma fset_eq f a v : fset f a v a = v.
Proof. unfold fset. by rewrite Z.eqb_refl. Qed.
Lemma fset_ne f a v x : x ≠ a → fset f a v x = f x.
Proof. intros H. unfold fset. by rewrite (proj2 (Z.eqb_neq _ _) H). Qed.

Lemma fset_ext f g a v x : (x ≠ a → f x = g x) → fset f a v x = fset g a v x.
Proof. intros H. unfold fset. destruct (Z.eqb_spec x a); auto. Qed.

(** The nodes [l] lie between [a] and [b]. *)
Fixpoint seg (nxt prv : Z → Z) (a : Z) (l : list Z) (b : Z) : Prop :=
  match l with
  | [] => nxt a = b ∧ prv b = a
  | c :: l' => nxt a = c ∧ prv c = a ∧ seg nxt prv c l' b
  end.

(** The circular list with head [h] and nodes [l]. *)
Definition dl (nxt prv : Z → Z) (h : Z) (l : list Z) : Prop :=
  seg nxt prv h l h ∧ NoDup (h :: l).

Section lemmas.
Implicit Types (nxt prv : Z → Z) (a b e h : Z) (l : list Z).

Lemma seg_app nxt prv a l1 x l2 b :
  seg nxt prv a (l1 ++ x :: l2) b ↔ seg nxt prv a l1 x ∧ seg nxt prv x l2 b.
Proof. revert a. induction l1 as [|c l1 IH]; intros a; cbn; [tauto|]. rewrite IH. tauto. Qed.

Lemma seg_ext nxt prv nxt' prv' a l b :
  (∀ x, x ∈ a :: l → nxt' x = nxt x) → (∀ x, x ∈ l ++ [b] → prv' x = prv x) →
  seg nxt prv a l b → seg nxt' prv' a l b.
Proof.
  revert a. induction l as [|c l IH]; intros a Hn Hp; cbn.
  - intros [E1 E2]. split; [rewrite Hn|rewrite Hp]; try done; by left.
  - intros (E1 & E2 & Hs). split_and!; [rewrite Hn; [done|by left]|rewrite Hp; [done|by left]|].
    apply IH; [..|done]; intros x Hx; [apply Hn|apply Hp]; by right.
Qed.

(** The neighbours of the ends. *)
Lemma seg_nxt_in nxt prv a l b : seg nxt prv a l b → nxt a ∈ l ++ [b].
Proof. destruct l as [|c l]; cbn; intros [E _]; rewrite E; by left. Qed.

Lemma seg_prv_in nxt prv a l b : seg nxt prv a l b → prv b ∈ a :: l.
Proof.
  revert a. induction l as [|c l IH]; intros a; cbn; [intros [_ ->]; by left|].
  intros (_ & _ & Hs). right. by apply IH.
Qed.

(** Taking out the node between two segments. *)
Lemma seg_join nxt prv a l1 e l2 b :
  seg nxt prv a l1 e → seg nxt prv e l2 b → NoDup (a :: l1 ++ e :: l2) → b ∉ l1 → b ∉ l2 →
  seg (fset nxt (prv e) (nxt e)) (fset prv (nxt e) (prv e)) a (l1 ++ l2) b.
Proof.
  revert a. induction l1 as [|c l1 IH]; intros a; cbn.
  - intros [E1 E2] Hs Hnd Hb1 Hb2. apply NoDup_cons in Hnd as [Ha Hnd]. rewrite E2.
    destruct l2 as [|d l2]; cbn in Hs |- *.
    + destruct Hs as [-> _]. by rewrite !fset_eq.
    + destruct Hs as (-> & E4 & Hs). rewrite !fset_eq. split_and!; [done..|].
      apply NoDup_cons in Hnd as [He Hnd]. apply NoDup_cons in Hnd as [Hd Hnd].
      eapply seg_ext; [..|exact Hs]; intros x Hx; apply fset_ne.
      * intros ->. apply Ha. right. done.
      * intros ->. apply elem_of_app in Hx as [?|Hx]; [done|].
        apply list_elem_of_singleton in Hx as ->. apply Hb2. by left.
  - intros (E1 & E2 & Hs1) Hs2 Hnd Hb1 Hb2. apply NoDup_cons in Hnd as [Ha Hnd].
    pose proof (seg_prv_in _ _ _ _ _ Hs1) as Hpe. pose proof (seg_nxt_in _ _ _ _ _ Hs2) as Hne.
    apply not_elem_of_cons in Hb1 as [Hbc Hb1].
    split_and!; [rewrite fset_ne; [done|]|rewrite fset_ne; [done|]|by apply IH].
    + intros E. apply Ha. rewrite E. apply elem_of_cons in Hpe as [->|?]; [by left|].
      right. apply elem_of_app. by left.
    + intros E. rewrite E in Hnd, Hbc. apply NoDup_cons in Hnd as [Hc _]. apply elem_of_app in Hne as [Hne|Hne].
      * apply Hc. apply elem_of_app. right. by right.
      * apply list_elem_of_singleton in Hne. congruence.
Qed.

Lemma dl_remove nxt prv h l1 e l2 :
  dl nxt prv h (l1 ++ e :: l2) →
  dl (fset nxt (prv e) (nxt e)) (fset prv (nxt e) (prv e)) h (l1 ++ l2).
Proof.
  intros [Hs Hnd]. apply seg_app in Hs as [Hs1 Hs2].
  pose proof Hnd as Hnd'. apply NoDup_cons in Hnd' as [Hh Hnd']. rewrite elem_of_app, elem_of_cons in Hh. split.
  - apply seg_join; try done; tauto.
  - apply NoDup_cons. split; [rewrite elem_of_app; tauto|].
    apply NoDup_app in Hnd' as (H1 & H2 & H3). apply NoDup_cons in H3 as [H3 H4].
    apply NoDup_app. split_and!; [done| |done]. intros x Hx Hx'. apply (H2 x Hx). by right.
Qed.

(** Pushing a node at the front. *)
Lemma dl_push nxt prv h l e :
  dl nxt prv h l → e ∉ h :: l →
  dl (fset (fset nxt e (nxt h)) h e) (fset (fset prv e h) (nxt h) e) h (e :: l).
Proof.
  intros [Hs Hnd] He. apply not_elem_of_cons in He as [Heh Hel].
  apply NoDup_cons in Hnd as [Hh Hnd]. split.
  2:{ apply NoDup_cons. split; [|by constructor]. apply not_elem_of_cons. done. }
  pose proof (seg_nxt_in _ _ _ _ _ Hs) as Hin.
  assert (nxt h ≠ e) as Hne.
  { intros E. rewrite E in Hin. apply elem_of_app in Hin as [?|Hin]; [done|].
    apply list_elem_of_singleton in Hin. done. }
  cbn. rewrite fset_eq. split; [done|]. split; [by rewrite fset_ne, fset_eq by done|].
  destruct l as [|c l]; cbn in Hs |- *.
  - destruct Hs as [E1 E2]. rewrite E1, fset_eq, fset_ne, fset_eq by done. done.
  - destruct Hs as (E1 & E2 & Hs). rewrite E1. rewrite fset_ne, fset_eq, fset_eq by done.
    split_and!; [done..|]. apply NoDup_cons in Hnd as [Hc Hnd].
    eapply seg_ext; [..|exact Hs]; intros x Hx.
    + rewrite !fset_ne; [done|..].
      * intros ->. done.
      * intros ->. done.
    + rewrite !fset_ne; [done|..].
      * intros ->. apply elem_of_app in Hx as [Hx|Hx%list_elem_of_singleton]; [|done].
        apply Hel. by right.
      * intros ->. apply elem_of_app in Hx as [Hx|Hx%list_elem_of_singleton]; [done|].
        apply Hh. rewrite Hx. by left.
Qed.

(** The list depends only on the links of its nodes. *)
Lemma dl_ext nx pv nx' pv' h l :
  (∀ x, x ∈ h :: l → nx' x = nx x ∧ pv' x = pv x) → dl nx pv h l → dl nx' pv' h l.
Proof.
  intros H [Hs Hn]. split; [|done]. eapply seg_ext; [..|exact Hs]; intros x Hx; apply H; [done|].
  apply elem_of_app in Hx as [?|Hx%list_elem_of_singleton]; [by right|subst; by left].
Qed.

(** The list read backwards. *)
Lemma seg_reverse nxt prv a l b : seg nxt prv a l b → seg prv nxt b (reverse l) a.
Proof.
  revert a. induction l as [|c l IH]; intros a; [by intros [? ?]|]. intros (E1 & E2 & Hs).
  rewrite reverse_cons. apply seg_app. split; [by apply IH|done].
Qed.

(** An empty list. *)
Lemma dl_nil nxt prv h : nxt h = h → prv h = h → dl nxt prv h [].
Proof. intros H1 H2. split; [done|]. repeat constructor. set_solver. Qed.
End lemmas.
