(* ===== verification/BufCache.v ===== *)
(** * What the buffer cache promises

    The interface between kernel/bio.c and its clients (kernel/log.c,
    kernel/fs.c).  The abstract cache is a store of disk blocks: [ca_data] is
    the current contents of a block, [ca_disk] what is on the disk,
    [ca_trace] the disk writes so far.  [BufCache] states what each operation
    does to it; [Bio] discharges the class, [Log] is proved against it. *)

From S2P Require Import Prelude Memory Riscv Spinlock Core.

Definition BSIZE : Z := 1024.

(** A block: its device and its number. *)
Abbreviation block := (Z * Z)%type.

Definition kset {A} (f : block → A) (k : block) (v : A) : block → A :=
  λ k', if decide (k' = k) then v else f k'.

Lemma kset_eq {A} (f : block → A) k v : kset f k v k = v.
Proof. unfold kset. by rewrite decide_True. Qed.
Lemma kset_ne {A} (f : block → A) k v k' : k' ≠ k → kset f k v k' = f k'.
Proof. intros H. unfold kset. by rewrite decide_False. Qed.

(** A write to the disk. *)
Abbreviation dwrite := (block * list Z)%type.

Record cache := Cache {
  ca_ref : block → Z;              (* b->refcnt of the block's buffer *)
  ca_used : nat;                   (* buffers whose refcnt is not 0 *)
  ca_held : Z → option block;      (* buffers this process has locked *)
  ca_data : block → list Z;        (* current contents *)
  ca_disk : block → list Z;        (* contents on the disk *)
  ca_trace : list dwrite;          (* disk writes, newest first *)
}.

Definition hset (f : Z → option block) (h : Z) (v : option block) : Z → option block :=
  λ h', if h' =? h then v else f h'.

(** 1 if the reference count [r] keeps its buffer in use. *)
Definition nz (r : Z) : nat := if r =? 0 then 0%nat else 1%nat.

(** The reference count of block [k] becomes [r]. *)
Definition ca_reref (k : block) (r : Z) (A : cache) : cache :=
  Cache (kset (ca_ref A) k r) (ca_used A + nz r - nz (ca_ref A k))%nat
    (ca_held A) (ca_data A) (ca_disk A) (ca_trace A).
Definition ca_pin (k : block) (A : cache) : cache := ca_reref k (u32 (ca_ref A k + 1)) A.
Definition ca_drop (k : block) (A : cache) : cache := ca_reref k (u32 (ca_ref A k - 1)) A.
Definition ca_lock (h : Z) (o : option block) (A : cache) : cache :=
  Cache (ca_ref A) (ca_used A) (hset (ca_held A) h o) (ca_data A) (ca_disk A) (ca_trace A).
Definition ca_set (k : block) (v : list Z) (A : cache) : cache :=
  Cache (ca_ref A) (ca_used A) (ca_held A) (kset (ca_data A) k v) (ca_disk A) (ca_trace A).
Definition ca_write (k : block) (A : cache) : cache :=
  Cache (ca_ref A) (ca_used A) (ca_held A) (ca_data A) (kset (ca_disk A) k (ca_data A k))
    ((k, ca_data A k) :: ca_trace A).

Definition ca_bread (k : block) (h : Z) (A : cache) : cache := ca_lock h (Some k) (ca_pin k A).
Definition ca_brelse (k : block) (h : Z) (A : cache) : cache := ca_drop k (ca_lock h None A).

(** Room for one more reference to [k]: its buffer is in use, or another is free. *)
Definition ca_room (k : block) (A : cache) : Prop :=
  (ca_ref A k ≠ 0 ∨ (ca_used A < Z.to_nat NBUF)%nat) ∧ ca_ref A k < 2 ^ 32 - 1.

(** A locked buffer has a reference, so [bget] does not recycle it. *)
Definition ca_sound (A : cache) : Prop := ∀ h k, ca_held A h = Some k → ca_ref A k ≠ 0.

(** The last reference is dropped only when the disk is up to date. *)
Definition ca_flushed (k : block) (A : cache) : Prop :=
  u32 (ca_ref A k - 1) = 0 → ca_data A k = ca_disk A k.

(** The buffers of bio.c start as block 0 of device 0, which nothing reads. *)
Definition block_ok (k : block) : Prop := 0 ≤ k.1 < 2 ^ 32 ∧ 0 ≤ k.2 < 2 ^ 32 ∧ k ≠ (0, 0).

(** Caches with the same contents. *)
Record ca_eq (A A' : cache) : Prop := {
  ce_ref : ∀ k, ca_ref A' k = ca_ref A k;
  ce_used : ca_used A' = ca_used A;
  ce_held : ∀ h, ca_held A' h = ca_held A h;
  ce_data : ∀ k, ca_data A' k = ca_data A k;
  ce_disk : ∀ k, ca_disk A' k = ca_disk A k;
  ce_trace : ca_trace A' = ca_trace A;
}.

#[global] Instance ca_eq_equiv : Equivalence ca_eq.
Proof.
  split.
  - intros A. done.
  - intros A B [H1 H2 H3 H4 H5 H6]. split; intros; congruence.
  - intros A B C [H1 H2 H3 H4 H5 H6] [K1 K2 K3 K4 K5 K6]. split; intros; congruence.
Qed.

Class BufCache (S : Type) := {
  bread : Z → Z → M (kern * S) Z;
  bwrite : Z → M (kern * S) unit;
  brelse : Z → M (kern * S) unit;
  bpin : Z → M (kern * S) unit;
  bunpin : Z → M (kern * S) unit;
  bdata : Z → S → list Z;               (* b->data *)
  bset : Z → list Z → S → S;            (* a store to b->data *)
  bkey : Z → S → block;                 (* b->dev, b->blockno *)

  (** The state represents the abstract cache, for the running process. *)
  babs : kern * S → nat → Z → cache → Prop;

  babs_running k s i pid A : babs (k, s) i pid A → running k i pid;
  babs_kern k s i pid A k' : babs (k, s) i pid A → running k' i pid → babs (k', s) i pid A;
  babs_ext x i pid A A' : babs x i pid A → ca_eq A A' → babs x i pid A';
  babs_held x i pid A h k : babs x i pid A → ca_held A h = Some k → block_ok k;
  babs_inj x i pid A h h' k : babs x i pid A → ca_held A h = Some k → ca_held A h' = Some k → h = h';
  babs_ref x i pid A k : babs x i pid A → 0 ≤ ca_ref A k < 2 ^ 32;
  babs_clean x i pid A k : babs x i pid A → block_ok k → ca_ref A k = 0 → ca_data A k = ca_disk A k;
  babs_len x i pid A k : babs x i pid A → length (ca_data A k) = Z.to_nat BSIZE;
  babs_used x i pid A k : babs x i pid A → block_ok k → ca_ref A k ≠ 0 → (0 < ca_used A)%nat;

  bread_spec x i pid A d b :
    babs x i pid A → block_ok (d, b) → ca_sound A → (∀ h, ca_held A h ≠ Some (d, b)) → ca_room (d, b) A →
    runs (bread d b) x (λ h x', ca_held A h = None ∧
      babs x' i pid (ca_bread (d, b) h A) ∧ kern_le x.1 x'.1);
  bwrite_spec x i pid A h k :
    babs x i pid A → ca_held A h = Some k →
    runs (bwrite h) x (λ _ x', babs x' i pid (ca_write k A) ∧ kern_le x.1 x'.1);
  brelse_spec x i pid A h k :
    babs x i pid A → ca_held A h = Some k → ca_flushed k A →
    runs (brelse h) x (λ _ x', babs x' i pid (ca_brelse k h A) ∧ kern_le x.1 x'.1);
  bpin_spec x i pid A h k :
    babs x i pid A → ca_held A h = Some k → ca_ref A k < 2 ^ 32 - 1 →
    runs (bpin h) x (λ _ x', babs x' i pid (ca_pin k A) ∧ kern_le x.1 x'.1);
  bunpin_spec x i pid A h k :
    babs x i pid A → ca_held A h = Some k → ca_flushed k A →
    runs (bunpin h) x (λ _ x', babs x' i pid (ca_drop k A) ∧ kern_le x.1 x'.1);

  bdata_spec k s i pid A h κ : babs (k, s) i pid A → ca_held A h = Some κ → bdata h s = ca_data A κ;
  bset_spec k s i pid A h κ v :
    babs (k, s) i pid A → ca_held A h = Some κ → ca_ref A κ ≠ 0 → length v = Z.to_nat BSIZE →
    babs (k, bset h v s) i pid (ca_set κ v A);
  bkey_spec k s i pid A h κ : babs (k, s) i pid A → ca_held A h = Some κ → bkey h s = κ;
}.
