(* ===== verification/Bio.v ===== *)
(** * The buffer cache (kernel/bio.c, kernel/buf.h)

    NBUF buffers in a circular list in order of use, found by device and
    block number.  A buffer is named by its index in [bcache.buf]; index [NBUF]
    is the list head.

    [virtio_disk_rw] stands for the disk driver's contract: a transfer between
    the buffer and a block of the disk is complete when it returns.  The disk
    remembers the sequence of its writes, the points between which a machine
    can crash. *)

From S2P Require Import Prelude Memory Riscv Spinlock Core Sleeplock BufCache.

Record buf := Buf {
  b_valid : Z;            (* has data been read from disk? *)
  b_disk : Z;             (* does disk "own" buf? *)
  b_dev : Z;
  b_blockno : Z;
  b_lock : sleeplock;
  b_refcnt : Z;
  b_prev : Z;             (* LRU cache list *)
  b_next : Z;
  b_data : list Z;
}.

Definition buf0 : buf :=
  Buf 0 0 0 0 (initsleeplock "") 0 0 0 (replicate (Z.to_nat BSIZE) 0).
#[global] Instance buf_inhabited : Inhabited buf := populate buf0.

Definition set_bvalid v b := Buf v (b_disk b) (b_dev b) (b_blockno b) (b_lock b) (b_refcnt b) (b_prev b) (b_next b) (b_data b).
Definition set_bkey d n b := Buf (b_valid b) (b_disk b) d n (b_lock b) (b_refcnt b) (b_prev b) (b_next b) (b_data b).
Definition set_bslock v b := Buf (b_valid b) (b_disk b) (b_dev b) (b_blockno b) v (b_refcnt b) (b_prev b) (b_next b) (b_data b).
Definition set_brefcnt v b := Buf (b_valid b) (b_disk b) (b_dev b) (b_blockno b) (b_lock b) v (b_prev b) (b_next b) (b_data b).
Definition set_bprev v b := Buf (b_valid b) (b_disk b) (b_dev b) (b_blockno b) (b_lock b) (b_refcnt b) v (b_next b) (b_data b).
Definition set_bnext v b := Buf (b_valid b) (b_disk b) (b_dev b) (b_blockno b) (b_lock b) (b_refcnt b) (b_prev b) v (b_data b).
Definition set_bdata v b := Buf (b_valid b) (b_disk b) (b_dev b) (b_blockno b) (b_lock b) (b_refcnt b) (b_prev b) (b_next b) v.

(** The disks: the blocks of each device, and the writes so far, newest first. *)
Record disk := Disk {
  dk_blk : block → list Z;
  dk_trace : list dwrite;
}.

Record bio_st := BioSt {
  bc_lock : spinlock;        (* bcache.lock *)
  bc_buf : list buf;         (* bcache.buf, then bcache.head *)
  bc_disk : disk;
}.

Definition bcache_lock : lens bio_st spinlock :=
  Lens bc_lock (λ l s, BioSt l (bc_buf s) (bc_disk s)).
#[global] Instance bcache_lock_lens : LockLens (slock bcache_lock).
Proof. by apply slock_lens. Defined.

Definition getb (s : bio_st) (b : Z) : buf := aget (bc_buf s) b.
Definition updb (b : Z) (f : buf → buf) (s : bio_st) : bio_st :=
  BioSt (bc_lock s) (aset (bc_buf s) b (f (getb s b))) (bc_disk s).

(** [&bcache.buf[b].lock] *)
Definition buf_lock (b : Z) : lens bio_st sleeplock :=
  Lens (λ s, b_lock (getb s b)) (λ l s, updb b (set_bslock l) s).

Abbreviation BM := (M (kern * bio_st)).
Definition upd_buf (b : Z) (f : buf → buf) : BM unit := modify (λ x, (x.1, updb b f x.2)).
Definition get_buf (b : Z) : BM buf := gets (λ x, getb x.2 b).

(** The disk driver's contract. *)
Definition virtio_disk_rw (b : Z) (write : bool) : BM unit :=
  bf ← get_buf b;
  let key := (b_dev bf, b_blockno bf) in
  if write then
    modify (λ x, (x.1, BioSt (bc_lock x.2) (bc_buf x.2)
      (Disk (kset (dk_blk (bc_disk x.2)) key (b_data bf)) ((key, b_data bf) :: dk_trace (bc_disk x.2)))))
  else
    modify (λ x, (x.1, updb b (set_bdata (dk_blk (bc_disk x.2) key)) x.2)).

(** ** Operations *)

Definition bhead : Z := NBUF.

Definition binit : BM unit :=
  modify (λ x, (x.1, over bcache_lock (initlock "bcache") x.2));;
  upd_buf bhead (set_bprev bhead);;
  upd_buf bhead (set_bnext bhead);;
  for_range (Z.to_nat NBUF) 0 (λ b,
    h ← get_buf bhead;
    upd_buf b (set_bnext (b_next h));;
    upd_buf b (set_bprev bhead);;
    upd_buf b (set_bslock (initsleeplock "buffer"));;
    h ← get_buf bhead;
    upd_buf (b_next h) (set_bprev b);;
    upd_buf bhead (set_bnext b)).

(** [for(b = dir(head); b != &head; b = dir(b)) if(p(b)) ...] *)
Definition find_buf (dir : buf → Z) (p : buf → bool) : BM (option Z) :=
  h ← get_buf bhead;
  loop (Z.to_nat NBUF + 1) (λ b,
    if b =? bhead then mret (inr None) else
    bf ← get_buf b;
    if p bf then mret (inr (Some b)) else mret (inl (dir bf))) (dir h).

Definition bget (dev blockno : Z) : BM Z :=
  acquire (slock bcache_lock);;
  (* Is the block already cached? *)
  r ← find_buf b_next (λ bf, (b_dev bf =? dev) && (b_blockno bf =? blockno));
  match r with
  | Some b =>
      upd_buf b (λ bf, set_brefcnt (u32 (b_refcnt bf + 1)) bf);;
      release (slock bcache_lock);;
      acquiresleep (buf_lock b) (ChSleepLock b);;
      mret b
  | None =>
      (* Not cached; recycle an unused buffer. *)
      r ← find_buf b_prev (λ bf, b_refcnt bf =? 0);
      match r with
      | Some b =>
          upd_buf b (set_bkey dev blockno);;
          upd_buf b (set_bvalid 0);;
          upd_buf b (set_brefcnt 1);;
          release (slock bcache_lock);;
          acquiresleep (buf_lock b) (ChSleepLock b);;
          mret b
      | None => panic "bget: no buffers"%string
      end
  end.

Definition bread (dev blockno : Z) : BM Z :=
  b ← bget dev blockno;
  bf ← get_buf b;
  when (b_valid bf =? 0)
    (virtio_disk_rw b false;; upd_buf b (set_bvalid 1));;
  mret b.

Definition bwrite (b : Z) : BM unit :=
  h ← holdingsleep (buf_lock b);
  if negb h then panic "bwrite"%string else
  virtio_disk_rw b true.

Definition brelse (b : Z) : BM unit :=
  h ← holdingsleep (buf_lock b);
  if negb h then panic "brelse"%string else
  releasesleep (buf_lock b) (ChSleepLock b);;
  acquire (slock bcache_lock);;
  upd_buf b (λ bf, set_brefcnt (u32 (b_refcnt bf - 1)) bf);;
  bf ← get_buf b;
  when (b_refcnt bf =? 0) (
    (* no one is waiting for it. *)
    bf ← get_buf b;
    upd_buf (b_next bf) (set_bprev (b_prev bf));;
    bf ← get_buf b;
    upd_buf (b_prev bf) (set_bnext (b_next bf));;
    h ← get_buf bhead;
    upd_buf b (set_bnext (b_next h));;
    upd_buf b (set_bprev bhead);;
    h ← get_buf bhead;
    upd_buf (b_next h) (set_bprev b);;
    upd_buf bhead (set_bnext b));;
  release (slock bcache_lock).

Definition bpin (b : Z) : BM unit :=
  acquire (slock bcache_lock);;
  upd_buf b (λ bf, set_brefcnt (u32 (b_refcnt bf + 1)) bf);;
  release (slock bcache_lock).

Definition bunpin (b : Z) : BM unit :=
  acquire (slock bcache_lock);;
  upd_buf b (λ bf, set_brefcnt (u32 (b_refcnt bf - 1)) bf);;
  release (slock bcache_lock).
