(* ===== verification/BioProof.v ===== *)
(** * The buffer cache keeps its promises

    [bio_ok] relates the buffers to the abstract cache of [BufCache]; every
    operation of [Bio] preserves it and does what the interface says, which
    gives the instance [bio_cache]. *)

From S2P Require Import Prelude Memory Riscv Spinlock Core Sleeplock DList BufCache Bio.

(** ** Buffers by index *)

Definition bidx (b : Z) : Prop := 0 ≤ b < NBUF.
Definition key (s : bio_st) (b : Z) : block := (b_dev (getb s b), b_blockno (getb s b)).
Definition nxt (s : bio_st) (b : Z) : Z := b_next (getb s b).
Definition prv (s : bio_st) (b : Z) : Z := b_prev (getb s b).
Definition nbufs (s : bio_st) : Prop := alen (bc_buf s) = NBUF + 1.

Lemma getb_updb_eq s b f : nbufs s → 0 ≤ b ≤ NBUF → getb (updb b f s) b = f (getb s b).
Proof. unfold nbufs. intros Hn Hb. unfold getb at 1, updb. cbn. apply aget_aset_eq. lia. Qed.

Lemma getb_updb_ne s b b' f : 0 ≤ b → 0 ≤ b' → b' ≠ b → getb (updb b f s) b' = getb s b'.
Proof. intros. unfold getb at 1, updb. cbn. by apply aget_aset_ne; try lia. Qed.

Lemma nbufs_updb s b f : nbufs s → nbufs (updb b f s).
Proof. unfold nbufs, updb. cbn. by rewrite alen_aset. Qed.

#[global] Instance buf_lock_lens b : SleepLens (buf_lock b).
Proof.
  refine (Build_SleepLens _ _ (λ s, nbufs s ∧ 0 ≤ b ≤ NBUF) _ _ _).
  - intros t s [? ?]. split; [by apply nbufs_updb|done].
  - intros t s [? ?]. cbn. by rewrite getb_updb_eq.
  - intros t t' s [Hn Hb]. cbn. unfold updb. cbn. rewrite aset_aset. f_equal. f_equal.
    unfold getb. cbn. rewrite aget_aset_eq by (unfold nbufs in Hn; lia). done.
Defined.

(** Folding two changes of one buffer into one. *)
Lemma updb_updb s b f g : nbufs s → 0 ≤ b ≤ NBUF → updb b g (updb b f s) = updb b (λ bf, g (f bf)) s.
Proof.
  intros Hn Hb. unfold updb at 1. rewrite getb_updb_eq by done. unfold updb. cbn. by rewrite aset_aset.
Qed.

(** ** The list of buffers *)

(** The buffers in order of use. *)
Definition lru (s : bio_st) (l : list Z) : Prop :=
  dl (nxt s) (prv s) bhead l ∧ l ≡ₚ seqZ 0 NBUF.

Lemma lru_idx s l b : lru s l → b ∈ l ↔ bidx b.
Proof. intros [_ Hp]. rewrite Hp, elem_of_seqZ. unfold bidx. lia. Qed.

(** Walking the list in either direction. *)
Lemma find_walk x (dir : buf → Z) (p : buf → bool) (nx pv : Z → Z) a l fuel :
  (∀ b, nx b = dir (getb x.2 b)) → seg nx pv a l bhead → (∀ b, b ∈ l → bidx b) →
  (length l < fuel)%nat →
  loop fuel (λ b, if b =? bhead then mret (inr None) else
    bf ← get_buf b; if p bf then mret (inr (Some b)) else mret (inl (dir bf))) (nx a) x =
  Ret (hd_error (filter (λ b, p (getb x.2 b) = true) l)) x.
Proof.
  intros Hnx. revert a fuel. induction l as [|c l IH]; intros a [|fuel] Hs Hl Hf; cbn in Hf; try lia.
  - destruct Hs as [-> _]. cbn. done.
  - destruct Hs as (-> & _ & Hs). pose proof (Hl c ltac:(by left)) as Hc.
    simpl. unfold mbind at 1, M_bind at 1. rewrite (proj2 (Z.eqb_neq c bhead)) by (unfold bidx, bhead in *; lia).
    unfold mbind at 1, M_bind at 1, get_buf at 1, gets at 1. rewrite filter_cons.
    destruct (p (getb x.2 c)) eqn:Hp; [by rewrite decide_True|]. rewrite decide_False by done.
    cbn [mret M_ret]. rewrite <- Hnx. apply IH; [done| |lia]. intros b Hb. apply Hl. by right.
Qed.

Lemma find_buf_next x l p :
  lru x.2 l → find_buf b_next p x = Ret (hd_error (filter (λ b, p (getb x.2 b) = true) l)) x.
Proof.
  intros Hl. pose proof Hl as [[Hs _] Hp]. unfold find_buf, mbind at 1, M_bind at 1. cbn.
  apply (find_walk x b_next p (nxt x.2) (prv x.2)); [done|done| |].
  - intros b. by rewrite (lru_idx x.2 l).
  - rewrite Hp, length_seqZ. lia.
Qed.

Lemma find_buf_prev x l p :
  lru x.2 l → find_buf b_prev p x = Ret (hd_error (filter (λ b, p (getb x.2 b) = true) (reverse l))) x.
Proof.
  intros Hl. pose proof Hl as [[Hs _] Hp]. unfold find_buf, mbind at 1, M_bind at 1. cbn.
  apply (find_walk x b_prev p (prv x.2) (nxt x.2)); [done|by apply seg_reverse| |].
  - intros b. by rewrite elem_of_reverse, (lru_idx x.2 l).
  - rewrite length_reverse, Hp, length_seqZ. lia.
Qed.

(** The list is about the links alone. *)
Lemma lru_ext s s' l :
  (∀ b, 0 ≤ b ≤ NBUF → nxt s' b = nxt s b ∧ prv s' b = prv s b) → lru s l → lru s' l.
Proof.
  intros Heq Hl. pose proof Hl as [[Hs Hnd] Hp]. split; [|done]. split; [|done].
  assert (∀ b, b ∈ bhead :: l → 0 ≤ b ≤ NBUF) as Hr.
  { intros b [->|Hb]%elem_of_cons; [unfold bhead, NBUF, MAXOPBLOCKS; lia|].
    rewrite (lru_idx s l) in Hb by done. unfold bidx in Hb. lia. }
  eapply seg_ext; [..|exact Hs]; intros b Hb; apply Heq, Hr; [done|].
  rewrite elem_of_app, list_elem_of_singleton in Hb. rewrite elem_of_cons. tauto.
Qed.

(** Stores to the links, as functions. *)
Section Links.
Context (s : bio_st) (a v x : Z) (Hn : nbufs s) (Ha : 0 ≤ a ≤ NBUF) (Hx : 0 ≤ x).

Lemma nxt_set_bnext : nxt (updb a (set_bnext v) s) x = fset (nxt s) a v x.
Proof using All.
  unfold nxt, fset. destruct (Z.eqb_spec x a) as [->|]; [by rewrite getb_updb_eq|by rewrite getb_updb_ne by lia].
Qed.
Lemma prv_set_bnext : prv (updb a (set_bnext v) s) x = prv s x.
Proof using All.
  unfold prv. destruct (Z.eqb_spec x a) as [->|]; [by rewrite getb_updb_eq|by rewrite getb_updb_ne by lia].
Qed.
Lemma nxt_set_bprev : nxt (updb a (set_bprev v) s) x = nxt s x.
Proof using All.
  unfold nxt. destruct (Z.eqb_spec x a) as [->|]; [by rewrite getb_updb_eq|by rewrite getb_updb_ne by lia].
Qed.
Lemma prv_set_bprev : prv (updb a (set_bprev v) s) x = fset (prv s) a v x.
Proof using All.
  unfold prv, fset. destruct (Z.eqb_spec x a) as [->|]; [by rewrite getb_updb_eq|by rewrite getb_updb_ne by lia].
Qed.
End Links.

(** [brelse]'s six stores: [b] is taken out and pushed at the front. *)
Definition link_out1 (b : Z) (s : bio_st) : bio_st := updb (nxt s b) (set_bprev (prv s b)) s.
Definition link_out2 (b : Z) (s : bio_st) : bio_st := updb (prv s b) (set_bnext (nxt s b)) s.
Definition link_in1 (b : Z) (s : bio_st) : bio_st :=
  updb b (set_bprev bhead) (updb b (set_bnext (nxt s bhead)) s).
Definition link_in2 (b : Z) (s : bio_st) : bio_st :=
  updb bhead (set_bnext b) (updb (nxt s bhead) (set_bprev b) s).
Definition relink (b : Z) (s : bio_st) : bio_st :=
  link_in2 b (link_in1 b (link_out2 b (link_out1 b s))).

Lemma relink_links s b p n h :
  nbufs s → bidx b → p = prv s b → n = nxt s b → 0 ≤ p ≤ NBUF → 0 ≤ n ≤ NBUF → n ≠ b → p ≠ b →
  h = fset (nxt s) p n bhead → 0 ≤ h ≤ NBUF →
  ∀ x, 0 ≤ x →
    nxt (relink b s) x = fset (fset (fset (nxt s) p n) b h) bhead b x ∧
    prv (relink b s) x = fset (fset (fset (prv s) n p) b bhead) h b x.
Proof.
  intros Hn Hb Hp Hx Hpr Hnr Hnb Hpb Hh Hhr x H0.
  unfold relink, link_in2, link_in1, link_out2. unfold link_out1. rewrite <- Hp, <- Hx.
  set (s1 := updb n (set_bprev p) s).
  assert (N1 : nbufs s1) by by apply nbufs_updb. unfold bidx in Hb.
  replace (prv s1 b) with p.
  2:{ unfold s1. rewrite prv_set_bprev by (done || lia). by rewrite fset_ne. }
  replace (nxt s1 b) with n.
  2:{ unfold s1. by rewrite nxt_set_bprev by (done || lia). }
  set (s2 := updb p (set_bnext n) s1). assert (N2 : nbufs s2) by by apply nbufs_updb.
  assert (Hb0 : 0 ≤ bhead ≤ NBUF) by (unfold bhead; lia).
  replace (nxt s2 bhead) with h.
  2:{ unfold s2. rewrite nxt_set_bnext by (done || lia). rewrite Hh. apply fset_ext. intros _.
      unfold s1. by rewrite nxt_set_bprev by (done || lia). }
  set (s3 := updb b (set_bnext h) s2). assert (N3 : nbufs s3) by by apply nbufs_updb.
  set (s4 := updb b (set_bprev bhead) s3). assert (N4 : nbufs s4) by by apply nbufs_updb.
  assert (E4 : ∀ y, 0 ≤ y → nxt s4 y = fset (fset (nxt s) p n) b h y).
  { intros y Hy. unfold s4. rewrite nxt_set_bprev by (done || lia). unfold s3. rewrite nxt_set_bnext by (done || lia).
    apply fset_ext. intros _. unfold s2. rewrite nxt_set_bnext by (done || lia).
    apply fset_ext. intros _. unfold s1. by rewrite nxt_set_bprev by (done || lia). }
  replace (nxt s4 bhead) with h.
  2:{ rewrite E4 by lia. rewrite fset_ne by (unfold bhead; lia). done. }
  set (s5 := updb h (set_bprev b) s4). assert (N5 : nbufs s5) by by apply nbufs_updb. split.
  - rewrite nxt_set_bnext by (done || lia). apply fset_ext. intros _. unfold s5. rewrite nxt_set_bprev by (done || lia). by rewrite E4.
  - rewrite prv_set_bnext by (done || lia). unfold s5. rewrite prv_set_bprev by (done || lia).
    apply fset_ext. intros _. unfold s4. rewrite prv_set_bprev by (done || lia).
    apply fset_ext. intros _. unfold s3. rewrite prv_set_bnext by (done || lia).
    unfold s2. rewrite prv_set_bnext by (done || lia). unfold s1. by rewrite prv_set_bprev by (done || lia).
Qed.

Lemma lru_range s l b : lru s l → b ∈ bhead :: l → 0 ≤ b ≤ NBUF.
Proof.
  intros Hl [->|Hb]%elem_of_cons; [unfold bhead, NBUF, MAXOPBLOCKS; lia|].
  rewrite (lru_idx s l) in Hb by done. unfold bidx in Hb. lia.
Qed.

Lemma lru_front s l1 b l2 :
  lru s (l1 ++ b :: l2) → nbufs s → lru (relink b s) (b :: l1 ++ l2).
Proof.
  intros Hl Hn. pose proof Hl as [Hd Hp].
  assert (b ∈ l1 ++ b :: l2) as Hin by (rewrite elem_of_app, elem_of_cons; auto).
  assert (bidx b) as Hb by by rewrite (lru_idx s (l1 ++ b :: l2)) in Hin.
  pose proof Hd as [Hs Hnd]. apply seg_app in Hs as [Hs1 Hs2].
  pose proof (seg_prv_in _ _ _ _ _ Hs1) as Hpi. pose proof (seg_nxt_in _ _ _ _ _ Hs2) as Hni.
  pose proof (dl_remove _ _ _ _ _ _ Hd) as Hd1.
  pose proof (seg_nxt_in _ _ _ _ _ (proj1 Hd1)) as Hhi.
  rewrite NoDup_cons, NoDup_app, NoDup_cons in Hnd. destruct Hnd as (Hh & _ & H12 & Hb2 & _).
  assert (∀ y, y ∈ bhead :: l1 ++ l2 → 0 ≤ y ≤ NBUF ∧ y ≠ b) as Hr.
  { intros y Hy. split.
    - apply (lru_range s (l1 ++ b :: l2)); [done|]. revert Hy. rewrite !elem_of_cons, !elem_of_app, elem_of_cons. tauto.
    - intros ->. rewrite elem_of_cons, elem_of_app in Hy. destruct Hy as [->|[Hy|Hy]]; [done| |done].
      apply (H12 b Hy). by left. }
  destruct (Hr (prv s b)) as [Hpr Hpne]; [rewrite elem_of_cons, elem_of_app in *; tauto|].
  destruct (Hr (nxt s b)) as [Hnr Hnne]; [rewrite elem_of_cons, !elem_of_app, list_elem_of_singleton in *; tauto|].
  destruct (Hr (fset (nxt s) (prv s b) (nxt s b) bhead)) as [Hhr _];
    [rewrite elem_of_cons, !elem_of_app, list_elem_of_singleton in *; tauto|].
  split; [|by rewrite <- Hp, Permutation_middle].
  eapply dl_ext; [|apply (dl_push _ _ _ _ b Hd1)].
  - intros y Hy. apply relink_links; try done.
    apply elem_of_cons in Hy as [->|[->|Hy]%elem_of_cons]; [unfold bhead, NBUF, MAXOPBLOCKS; lia|unfold bidx in Hb; lia|].
    apply Hr. by right.
  - intros Hb'. by destruct (Hr b Hb').
Qed.

(** ** The invariant *)

(** A buffer but for its links. *)
Definition core (bf : buf) : buf := set_bprev 0 (set_bnext 0 bf).

Definition in_use (s : bio_st) (b : Z) : Prop := b_refcnt (getb s b) ≠ 0.
#[global] Instance in_use_dec s b : Decision (in_use s b).
Proof. unfold in_use. apply _. Defined.

Record bio_ok (pid : Z) (s : bio_st) (A : cache) : Prop := {
  bo_len : nbufs s;
  bo_spin : locked (bc_lock s) = 0;
  bo_lru : ∃ l, lru s l;
  bo_key : ∀ b, bidx b → 0 ≤ (key s b).1 < 2 ^ 32 ∧ 0 ≤ (key s b).2 < 2 ^ 32;
  bo_uniq : ∀ b b', bidx b → bidx b' → key s b = key s b' → key s b ≠ (0, 0) → b = b';
  bo_zero : ∀ b, bidx b → key s b = (0, 0) → ¬ in_use s b;
  bo_ref : ∀ b, bidx b → key s b ≠ (0, 0) →
    b_refcnt (getb s b) = ca_ref A (key s b);
  bo_range : ∀ k, 0 ≤ ca_ref A k < 2 ^ 32;
  bo_noref : ∀ k, k ≠ (0, 0) → (∀ b, bidx b → key s b ≠ k) → ca_ref A k = 0;
  bo_used : ca_used A = length (filter (in_use s) (seqZ 0 NBUF));
  bo_held : ∀ b k, ca_held A b = Some k ↔
    bidx b ∧ key s b = k ∧ sl_locked (b_lock (getb s b)) ≠ 0;
  bo_lock : ∀ b, bidx b →
    sl_free (b_lock (getb s b)) ∨ sl_held pid (b_lock (getb s b)) ∧ key s b ≠ (0, 0);
  bo_valid : ∀ b, bidx b → key s b ≠ (0, 0) → b_valid (getb s b) ≠ 0;
  bo_data : ∀ b, bidx b → key s b ≠ (0, 0) → b_data (getb s b) = ca_data A (key s b);
  bo_clean : ∀ k, k ≠ (0, 0) → ca_ref A k = 0 → ca_data A k = ca_disk A k;
  bo_disk : (∀ k, dk_blk (bc_disk s) k = ca_disk A k) ∧ dk_trace (bc_disk s) = ca_trace A;
  bo_bytes : ∀ k, length (ca_data A k) = Z.to_nat BSIZE ∧ length (ca_disk A k) = Z.to_nat BSIZE;
}.

Definition one (P : Prop) `{Decision P} : nat := if decide P then 1 else 0.

Lemma one_ext P Q `{Decision P} `{Decision Q} : (P ↔ Q) → one P = one Q.
Proof. intros E. unfold one. repeat case_decide; tauto. Qed.

Lemma filter_same (P P' : Z → Prop) `{!∀ x, Decision (P x)} `{!∀ x, Decision (P' x)} (l : list Z) :
  (∀ x, x ∈ l → P x ↔ P' x) → filter P l = filter P' l.
Proof.
  induction l as [|a l IH]; intros Heq; [done|]. rewrite !filter_cons.
  pose proof (Heq a ltac:(by left)). rewrite IH by (intros x Hx; apply Heq; by right).
  repeat case_decide; tauto.
Qed.

Lemma filter_all (P : Z → Prop) `{!∀ x, Decision (P x)} (l : list Z) :
  (∀ x, x ∈ l → P x) → filter P l = l.
Proof.
  induction l as [|a l IH]; intros Hp; [done|]. rewrite filter_cons, decide_True by (apply Hp; by left).
  f_equal. apply IH. intros x Hx. apply Hp. by right.
Qed.

Lemma filter_none (l : list Z) : filter (λ _ : Z, False) l = [].
Proof. induction l as [|a l IH]; [done|]. rewrite filter_cons, decide_False by tauto. done. Qed.

(** Counting when one element changes. *)
Lemma count_change (P P' : Z → Prop) `{!∀ x, Decision (P x)} `{!∀ x, Decision (P' x)} (l : list Z) b :
  NoDup l → b ∈ l → (∀ x, x ∈ l → x ≠ b → P x ↔ P' x) →
  (length (filter P' l) + one (P b) = length (filter P l) + one (P' b))%nat.
Proof.
  intros Hnd Hb Heq. induction l as [|a l IH]; [by apply not_elem_of_nil in Hb|].
  apply NoDup_cons in Hnd as [Ha Hnd]. rewrite !filter_cons. unfold one in *.
  apply elem_of_cons in Hb as [->|Hb].
  - rewrite (filter_same P P' l) by (intros x Hx; apply Heq; [by right|by intros ->]).
    repeat case_decide; cbn; lia.
  - assert (a ≠ b) as Hne by by intros ->.
    specialize (IH Hnd Hb ltac:(intros x Hx; apply Heq; by right)).
    pose proof (Heq a ltac:(by left) Hne). repeat case_decide; cbn in *; try lia; tauto.
Qed.

Lemma elem_seq b : b ∈ seqZ 0 NBUF ↔ bidx b.
Proof. rewrite elem_of_seqZ. unfold bidx. lia. Qed.

Section Change.
(** The state [s] becomes [s'] by a change of buffer [b], which holds block [κ]
    afterwards: it held it before, or was unused and no buffer held [κ]. *)
Context (pid : Z) (s : bio_st) (A : cache) (s' : bio_st) (A' : cache) (b : Z) (κ : block).
Context (Hok : bio_ok pid s A) (Hb : bidx b) (Hκ : block_ok κ).
Context (Hkey : key s b = κ ∨ ¬ in_use s b ∧ ∀ b', bidx b' → key s b' ≠ κ).
Context (Hn : nbufs s') (Hspin : locked (bc_lock s') = 0) (Hlru : ∃ l, lru s' l).
Context (Hcore : ∀ b', bidx b' → b' ≠ b → core (getb s' b') = core (getb s b')).
Context (Hkey' : key s' b = κ).
Context (Href : b_refcnt (getb s' b) = ca_ref A' κ) (Hmax : 0 ≤ ca_ref A' κ < 2 ^ 32).
Context (Hrefs : ∀ k, k ≠ κ → ca_ref A' k = ca_ref A k).
Context (Hused : (ca_used A' + one (in_use s b) = ca_used A + one (in_use s' b))%nat).
Context (Hheld : ∀ h, h ≠ b → ca_held A' h = ca_held A h).
Context (Hheldb : ca_held A' b = if sl_locked (b_lock (getb s' b)) =? 0 then None else Some κ).
Context (Hlock : sl_free (b_lock (getb s' b)) ∨ sl_held pid (b_lock (getb s' b))).
Context (Hvalid : b_valid (getb s' b) ≠ 0) (Hdata : b_data (getb s' b) = ca_data A' κ).
Context (Hdatas : ∀ k, k ≠ κ → ca_data A' k = ca_data A k).
Context (Hdisks : ∀ k, k ≠ κ → ca_disk A' k = ca_disk A k).
Context (Hclean : ca_ref A' κ = 0 → ca_data A' κ = ca_disk A' κ).
Context (Hdk : (∀ k, dk_blk (bc_disk s') k = ca_disk A' k) ∧ dk_trace (bc_disk s') = ca_trace A').
Context (Hbytes : length (ca_data A' κ) = Z.to_nat BSIZE ∧ length (ca_disk A' κ) = Z.to_nat BSIZE).

Lemma ch_other b' : bidx b' → b' ≠ b →
  key s' b' = key s b' ∧ b_refcnt (getb s' b') = b_refcnt (getb s b') ∧
  b_lock (getb s' b') = b_lock (getb s b') ∧ b_valid (getb s' b') = b_valid (getb s b') ∧
  b_data (getb s' b') = b_data (getb s b').
Proof using Hcore.
  intros Hb' Hne. pose proof (Hcore b' Hb' Hne) as E. unfold key.
  destruct (getb s' b'), (getb s b'). unfold core in E. cbn in *. by injection E as <- <- <- <- <- <- <-.
Qed.

(** No other buffer holds [κ]. *)
Lemma ch_unique b' : bidx b' → b' ≠ b → key s b' ≠ κ.
Proof using Hok Hb Hκ Hkey.
  intros Hb' Hne E. destruct Hkey as [E'|[_ Hno]]; [|by apply (Hno b')].
  apply Hne. apply (bo_uniq _ _ _ Hok); [done|done|congruence|]. rewrite E. apply Hκ.
Qed.

Lemma ch_in_use b' : bidx b' → b' ≠ b → in_use s' b' ↔ in_use s b'.
Proof using Hcore. intros Hb' Hne. unfold in_use. by destruct (ch_other b' Hb' Hne) as (_ & -> & _). Qed.

Lemma bio_ok_change : bio_ok pid s' A'.
Proof using All.
  assert (Hk0 : κ ≠ (0, 0)) by apply Hκ.
  assert (Hcase : ∀ b', bidx b' → b' = b ∨ b' ≠ b) by (intros; lia).
  split; try done.
  - intros b' Hb'. destruct (Hcase b' Hb') as [->|Hne]; [rewrite Hkey'; split; apply Hκ|].
    destruct (ch_other b' Hb' Hne) as (-> & _). by apply (bo_key _ _ _ Hok).
  - intros b1 b2 Hb1 Hb2. destruct (Hcase b1 Hb1) as [->|Hne1], (Hcase b2 Hb2) as [->|Hne2]; [done|..].
    + destruct (ch_other b2 Hb2 Hne2) as (-> & _). rewrite Hkey'. intros E _. by destruct (ch_unique b2 Hb2 Hne2).
    + destruct (ch_other b1 Hb1 Hne1) as (-> & _). rewrite Hkey'. intros E _. by destruct (ch_unique b1 Hb1 Hne1).
    + destruct (ch_other b1 Hb1 Hne1) as (-> & _), (ch_other b2 Hb2 Hne2) as (-> & _). by apply (bo_uniq _ _ _ Hok).
  - intros b' Hb'. destruct (Hcase b' Hb') as [->|Hne]; [by rewrite Hkey'|].
    rewrite ch_in_use by done. destruct (ch_other b' Hb' Hne) as (-> & _). by apply (bo_zero _ _ _ Hok).
  - intros b' Hb'. destruct (Hcase b' Hb') as [->|Hne]; [rewrite Hkey', Href; done|].
    pose proof (ch_unique b' Hb' Hne). destruct (ch_other b' Hb' Hne) as (-> & -> & _). rewrite Hrefs by done.
    by apply (bo_ref _ _ _ Hok).
  - intros k. destruct (decide (k = κ)) as [->|Hne]; [done|]. rewrite Hrefs by done. apply (bo_range _ _ _ Hok).
  - intros k Hk Hno. assert (k ≠ κ) as Hkk by (intros ->; by apply (Hno b)). rewrite Hrefs by done.
    destruct (decide (key s b = k)) as [E|Hne].
    + destruct Hkey as [E'|[Hnu _]]; [congruence|]. pose proof (bo_ref _ _ _ Hok b Hb) as Hr. rewrite E in Hr. specialize (Hr Hk).
      unfold in_use in Hnu. lia.
    + apply (bo_noref _ _ _ Hok); [done|]. intros b' Hb'. destruct (Hcase b' Hb') as [->|Hne']; [done|].
      destruct (ch_other b' Hb' Hne') as (E & _). rewrite <- E. by apply Hno.
  - pose proof (bo_used _ _ _ Hok) as Hu.
    pose proof (count_change (in_use s) (in_use s') (seqZ 0 NBUF) b (NoDup_seqZ _ _) (proj2 (elem_seq b) Hb)) as Hc.
    specialize (Hc ltac:(intros x Hx Hne; apply elem_seq in Hx; symmetry; by apply ch_in_use)). lia.
  - intros b' k. destruct (decide (b' = b)) as [->|Hne].
    + rewrite Hheldb, Hkey'. destruct (Z.eqb_spec (sl_locked (b_lock (getb s' b))) 0) as [E|E]; naive_solver.
    + rewrite Hheld, (bo_held _ _ _ Hok) by done. split; intros (Hb' & H); (split; [done|]);
        destruct (ch_other b' Hb' Hne) as (E1 & _ & E2 & _); [by rewrite E1, E2|by rewrite E1, E2 in H].
  - intros b' Hb'. destruct (Hcase b' Hb') as [->|Hne].
    + rewrite Hkey'. destruct Hlock as [?|?]; [by left|by right].
    + destruct (ch_other b' Hb' Hne) as (-> & _ & -> & _). by apply (bo_lock _ _ _ Hok).
  - intros b' Hb'. destruct (Hcase b' Hb') as [->|Hne]; [done|].
    destruct (ch_other b' Hb' Hne) as (-> & _ & _ & -> & _). by apply (bo_valid _ _ _ Hok).
  - intros b' Hb'. destruct (Hcase b' Hb') as [->|Hne]; [by rewrite Hkey'|].
    pose proof (ch_unique b' Hb' Hne). destruct (ch_other b' Hb' Hne) as (-> & _ & _ & _ & ->).
    rewrite Hdatas by done. by apply (bo_data _ _ _ Hok).
  - intros k Hk. destruct (decide (k = κ)) as [->|Hne]; [done|]. rewrite Hrefs, Hdatas, Hdisks by done.
    by apply (bo_clean _ _ _ Hok).
  - intros k. destruct (decide (k = κ)) as [->|Hne]; [done|]. rewrite Hdatas, Hdisks by done. apply Hok.
Qed.
End Change.

(** ** The operations *)

Definition bio_abs (x : kern * bio_st) (i : nat) (pid : Z) (A : cache) : Prop :=
  running x.1 i pid ∧ bio_ok pid x.2 A.

(** [s'] differs from [s] in buffer [b] (but not its links) and bookkeeping of the lock. *)
Record touched (b : Z) (s s' : bio_st) : Prop := {
  to_len : nbufs s';
  to_spin : locked (bc_lock s') = 0;
  to_other : ∀ b', 0 ≤ b' → b' ≠ b → getb s' b' = getb s b';
  to_next : nxt s' b = nxt s b;
  to_prev : prv s' b = prv s b;
}.

Lemma touched_lru b s s' l : 0 ≤ b → touched b s s' → lru s l → lru s' l.
Proof.
  intros Hb [_ _ Ho H1 H2]. apply lru_ext. intros b' Hb'. destruct (decide (b' = b)) as [->|Hne]; [done|].
  unfold nxt, prv. by rewrite Ho by lia.
Qed.

Lemma touched_core b s s' b' : touched b s s' → bidx b' → b' ≠ b → core (getb s' b') = core (getb s b').
Proof. intros [_ _ Ho _ _] Hb' Hne. rewrite Ho; [done| |done]. unfold bidx in Hb'. lia. Qed.

(** [bio_ok_change] for a buffer that becomes [bf], its links kept. *)
Lemma bio_ok_touch pid s A s' A' b κ bf :
  bio_ok pid s A → bidx b → block_ok κ →
  (key s b = κ ∨ ¬ in_use s b ∧ ∀ b', bidx b' → key s b' ≠ κ) →
  touched b s s' → getb s' b = bf → (b_dev bf, b_blockno bf) = κ →
  b_refcnt bf = ca_ref A' κ → 0 ≤ b_refcnt bf < 2 ^ 32 →
  (∀ k, k ≠ κ → ca_ref A' k = ca_ref A k ∧ ca_data A' k = ca_data A k ∧ ca_disk A' k = ca_disk A k) →
  (ca_used A' + one (b_refcnt (getb s b) ≠ 0%Z) = ca_used A + one (b_refcnt bf ≠ 0%Z))%nat →
  (∀ h, ca_held A' h = hset (ca_held A) b (if sl_locked (b_lock bf) =? 0 then None else Some κ) h) →
  sl_free (b_lock bf) ∨ sl_held pid (b_lock bf) →
  b_valid bf ≠ 0 → b_data bf = ca_data A' κ → (ca_ref A' κ = 0 → ca_data A' κ = ca_disk A' κ) →
  (∀ k, dk_blk (bc_disk s') k = ca_disk A' k) ∧ dk_trace (bc_disk s') = ca_trace A' →
  length (ca_data A' κ) = Z.to_nat BSIZE ∧ length (ca_disk A' κ) = Z.to_nat BSIZE →
  bio_ok pid s' A'.
Proof.
  intros Hok Hb Hκ Hkey Ht Hg Hk' Hr Hmx Hoth Hu Hh Hl Hv Hd Hc Hdk Hby.
  assert (0 ≤ b) as H0 by (unfold bidx in Hb; lia).
  destruct (bo_lru _ _ _ Hok) as [l Hlru].
  apply (bio_ok_change pid s A s' A' b κ); rewrite ?Hg; try done; try (by apply Ht); try lia.
  - exists l. by eapply touched_lru.
  - intros b' Hb' Hne. by eapply touched_core.
  - unfold key. by rewrite Hg.
  - intros k Hne. by apply Hoth.
  - rewrite (one_ext (in_use s b) (b_refcnt (getb s b) ≠ 0)) by done.
    rewrite (one_ext (in_use s' b) (b_refcnt bf ≠ 0)) by (unfold in_use; by rewrite Hg). exact Hu.
  - intros h Hne. rewrite Hh. unfold hset. by rewrite (proj2 (Z.eqb_neq h b)).
  - rewrite Hh. unfold hset. by rewrite Z.eqb_refl.
  - intros k Hne. by apply Hoth.
  - intros k Hne. by apply Hoth.
Qed.

(** A held buffer stays held. *)
Lemma hset_same (f : Z → option block) h v h' : f h = v → f h' = hset f h v h'.
Proof. intros <-. unfold hset. case_match; [|done]. zify_bool. by subst. Qed.

Lemma one_true P `{Decision P} : P → one P = 1%nat.
Proof. intros. unfold one. by rewrite decide_True. Qed.
Lemma one_false P `{Decision P} : ¬ P → one P = 0%nat.
Proof. intros. unfold one. by rewrite decide_False. Qed.

Lemma touched_upd s h f lk :
  nbufs s → 0 ≤ h ≤ NBUF → locked lk = 0 →
  (∀ bf, b_next (f bf) = b_next bf ∧ b_prev (f bf) = b_prev bf) →
  touched h s (over bcache_lock lk (updb h f s)) ∧
  getb (over bcache_lock lk (updb h f s)) h = f (getb s h).
Proof.
  intros Hn Hh Hlk Hf.
  assert (getb (over bcache_lock lk (updb h f s)) h = f (getb s h)) as Hg by exact (getb_updb_eq s h f Hn Hh).
  split; [|done]. split; [exact (nbufs_updb s h f Hn)|done| |unfold nxt; rewrite Hg; apply Hf|unfold prv; rewrite Hg; apply Hf].
  intros b' H0 Hne. apply (getb_updb_ne s h b' f); [lia|done|done].
Qed.

(** A change of one buffer under [bcache.lock]. *)
Lemma runs_bcache_upd k s b f i pid :
  running k i pid → locked (bc_lock s) = 0 →
  runs (acquire (slock bcache_lock);; upd_buf b f;; release (slock bcache_lock)) (k, s) (λ _ x,
    kern_le k x.1 ∧ ∃ lk, locked lk = 0 ∧ x.2 = over bcache_lock lk (updb b f s)).
Proof.
  intros (Hk & Hp & Hi & Hpid) Hs. pose proof Hk as (Hc & Hn & Hpl).
  kstep. apply (runs_acquire (slock bcache_lock)); [done|done|]. cbn. kstep. unfold upd_buf. kstep. cbn.
  apply (runs_release (slock bcache_lock) _ _ (settle (k_cpu k))); cbn;
    [done|done|by rewrite push_off_id|by apply pop_push_off|].
  split; [apply kern_le_same; [done|exact (same_kern_settle k)|by apply settle_ok]|].
  eexists. split; [|done]. done.
Qed.

Lemma bio_ok_ext pid s A A' : bio_ok pid s A → ca_eq A A' → bio_ok pid s A'.
Proof.
  intros [] [E1 E2 E3 E4 E5 E6]. split; try done.
  - intros b Hb Hne. rewrite E1. auto.
  - intros k. by rewrite E1.
  - intros k. rewrite E1. auto.
  - by rewrite E2.
  - intros b k. rewrite E3. auto.
  - intros b Hb Hne. rewrite E4. auto.
  - intros k. rewrite E1, E4, E5. auto.
  - split; [|rewrite E6; apply bo_disk0]. intros k. rewrite E5. apply bo_disk0.
  - intros k. rewrite E4, E5. auto.
Qed.

Section Ops.
Context (i : nat) (pid : Z) (A : cache).
Implicit Types (k : kern) (s : bio_st).

Lemma held_buf s h κ :
  bio_ok pid s A → ca_held A h = Some κ →
  bidx h ∧ key s h = κ ∧ block_ok κ ∧ sl_held pid (b_lock (getb s h)) ∧
  b_refcnt (getb s h) = ca_ref A κ ∧ 0 ≤ ca_ref A κ < 2 ^ 32.
Proof.
  intros Hok Hh. pose proof (proj1 (bo_held _ _ _ Hok h κ) Hh) as (Hb & Hk & Hl).
  destruct (bo_lock _ _ _ Hok h Hb) as [[Hf _]|[Hh' H0]]; [done|]. rewrite Hk in H0.
  pose proof (bo_key _ _ _ Hok h Hb) as Hr. pose proof (bo_ref _ _ _ Hok h Hb) as Hrf. rewrite Hk in Hr, Hrf.
  split; [done|]. split; [done|]. split; [split; [apply Hr|split; [apply Hr|done]]|].
  split; [done|]. split; [auto|]. apply (bo_range _ _ _ Hok).
Qed.

Lemma used_pos s κ : bio_ok pid s A → block_ok κ → ca_ref A κ ≠ 0 → (0 < ca_used A)%nat.
Proof.
  intros Hok (_ & _ & H0) Hr. destruct (ca_used A) as [|n] eqn:E; [|lia]. exfalso.
  apply Hr, (bo_noref _ _ _ Hok); [done|]. intros b Hb Hk.
  pose proof (bo_ref _ _ _ Hok b Hb) as Hrf. rewrite Hk in Hrf. specialize (Hrf H0).
  rewrite (bo_used _ _ _ Hok) in E. apply nil_length_inv in E.
  assert (b ∈ filter (in_use s) (seqZ 0 NBUF)) as Hin.
  { apply list_elem_of_filter. split; [unfold in_use; congruence|]. by apply elem_seq. }
  rewrite E in Hin. by apply not_elem_of_nil in Hin.
Qed.

Lemma one_nz (r : Z) : one (r ≠ 0) = nz r.
Proof. unfold nz. destruct (Z.eqb_spec r 0); [apply one_false; lia|by apply one_true]. Qed.

(** The count of buffers in use when a reference count changes. *)
Lemma used_reref s κ r : bio_ok pid s A → block_ok κ →
  (ca_used (ca_reref κ r A) + one (ca_ref A κ ≠ 0%Z) = ca_used A + one (r ≠ 0%Z))%nat.
Proof.
  intros Hok Hκ. rewrite !one_nz. cbn. pose proof (used_pos s κ Hok Hκ) as Hp.
  unfold nz at 2 3. destruct (Z.eqb_spec (ca_ref A κ) 0); lia.
Qed.

(** The lock word of a buffer and [ca_held]. *)
Lemma held_value s b κ :
  bio_ok pid s A → bidx b → key s b = κ →
  ca_held A b = if sl_locked (b_lock (getb s b)) =? 0 then None else Some κ.
Proof.
  intros Hok Hb Hk. destruct (Z.eqb_spec (sl_locked (b_lock (getb s b))) 0) as [E|E].
  - destruct (ca_held A b) as [κ'|] eqn:Hh; [|done]. by apply (bo_held _ _ _ Hok) in Hh as (_ & _ & ?).
  - by apply (bo_held _ _ _ Hok).
Qed.

Lemma bio_ok_reref s b κ f r lk :
  bio_ok pid s A → bidx b → key s b = κ → block_ok κ → locked lk = 0 →
  0 ≤ r < 2 ^ 32 → (r = 0 → ca_data A κ = ca_disk A κ) → f (getb s b) = set_brefcnt r (getb s b) →
  (∀ bf, b_next (f bf) = b_next bf ∧ b_prev (f bf) = b_prev bf) →
  bio_ok pid (over bcache_lock lk (updb b f s)) (ca_reref κ r A).
Proof.
  intros Hok Hb Hk Hkb Hlk Hm Hc Hf Hln. pose proof (bo_len _ _ _ Hok) as Hn.
  assert (0 ≤ b ≤ NBUF) as Hb' by (unfold bidx in Hb; lia). assert (κ ≠ (0, 0)) as H0 by apply Hkb.
  pose proof (bo_ref _ _ _ Hok b Hb) as Hrf. rewrite Hk in Hrf. specialize (Hrf H0).
  destruct (touched_upd s b f lk) as [Ht Hg]; try done. rewrite Hf in Hg.
  apply (bio_ok_touch pid s A _ _ b κ _ Hok Hb Hkb (or_introl Hk) Ht Hg); cbn -[ca_used]; rewrite ?kset_eq; try done; try lia.
  - intros κ' Hne. by rewrite kset_ne.
  - rewrite (one_ext (b_refcnt (getb s b) ≠ 0) (ca_ref A κ ≠ 0)) by (by rewrite Hrf). by apply (used_reref s).
  - intros h'. apply hset_same. by apply held_value.
  - destruct (bo_lock _ _ _ Hok b Hb) as [?|[? _]]; [by left|by right].
  - by apply (bo_valid _ _ _ Hok); [|rewrite Hk].
  - rewrite <- Hk. by apply (bo_data _ _ _ Hok); [|rewrite Hk].
  - apply Hok.
  - apply Hok.
Qed.

Lemma bio_ok_pin s b κ lk :
  bio_ok pid s A → bidx b → key s b = κ → block_ok κ → locked lk = 0 → ca_ref A κ < 2 ^ 32 - 1 →
  bio_ok pid (over bcache_lock lk (updb b (λ bf, set_brefcnt (u32 (b_refcnt bf + 1)) bf) s)) (ca_pin κ A).
Proof.
  intros Hok Hb Hk Hkb Hlk Hm. pose proof (bo_range _ _ _ Hok κ).
  pose proof (bo_ref _ _ _ Hok b Hb) as Hrf. rewrite Hk in Hrf. specialize (Hrf (proj2 (proj2 Hkb))).
  apply bio_ok_reref; try done; [rewrite u32_small; lia..|by rewrite Hrf].
Qed.

Lemma runs_bpin k s h κ :
  bio_abs (k, s) i pid A → ca_held A h = Some κ → ca_ref A κ < 2 ^ 32 - 1 →
  runs (bpin h) (k, s) (λ _ x, bio_abs x i pid (ca_pin κ A) ∧ kern_le k x.1).
Proof.
  intros [Hr Hok] Hh Hm. destruct (held_buf s h κ Hok Hh) as (Hb & Hk & Hkb & _). cbn in *.
  eapply runs_mono; [by apply (runs_bcache_upd k s h _ i pid); [|apply Hok]|].
  intros [] [k1 s1]. cbn [fst snd]. intros (Hle & lk & Hlk & ->). split; [|done].
  split; [by eapply kern_le_running|]. by apply bio_ok_pin.
Qed.

Lemma u32_pred r : 0 ≤ r < 2 ^ 32 → 0 ≤ u32 (r - 1) < 2 ^ 32.
Proof. intros. unfold u32. apply Z.mod_pos_bound. lia. Qed.

Lemma runs_bunpin k s h κ :
  bio_abs (k, s) i pid A → ca_held A h = Some κ → ca_flushed κ A →
  runs (bunpin h) (k, s) (λ _ x, bio_abs x i pid (ca_drop κ A) ∧ kern_le k x.1).
Proof.
  intros [Hr Hok] Hh Hfl. destruct (held_buf s h κ Hok Hh) as (Hb & Hk & Hkb & Hl & Hrf & Hmx). cbn in *.
  eapply runs_mono; [by apply (runs_bcache_upd k s h _ i pid); [|apply Hok]|].
  intros [] [k1 s1]. cbn [fst snd]. intros (Hle & lk & Hlk & ->). split; [|done]. split; [by eapply kern_le_running|].
  apply bio_ok_reref; try done; [by apply u32_pred|by rewrite Hrf].
Qed.

(** The sleep lock of a buffer: taken, looked at, given up. *)
Lemma bio_ok_slock s b κ v :
  bio_ok pid s A → bidx b → block_ok κ → key s b = κ → sl_free v ∨ sl_held pid v →
  bio_ok pid (updb b (set_bslock v) s) (ca_lock b (if sl_locked v =? 0 then None else Some κ) A).
Proof.
  intros Hok Hb Hκ Hk Hv. pose proof (bo_len _ _ _ Hok) as Hn.
  assert (0 ≤ b ≤ NBUF) as Hb' by (unfold bidx in Hb; lia).
  destruct (touched_upd s b (set_bslock v) (bc_lock s)) as [Ht Hg]; try done; [apply Hok|].
  assert (updb b (set_bslock v) s = over bcache_lock (bc_lock s) (updb b (set_bslock v) s)) as Es by done.
  assert (κ ≠ (0, 0)) as H0 by apply Hκ.
  pose proof (bo_ref _ _ _ Hok b Hb) as Hrf. rewrite Hk in Hrf. specialize (Hrf H0).
  rewrite Es. apply (bio_ok_touch pid s A _ _ b κ _ Hok Hb Hκ (or_introl Hk) Ht Hg); cbn; try done.
  - rewrite Hrf. apply (bo_range _ _ _ Hok).
  - by apply (bo_valid _ _ _ Hok); [|rewrite Hk].
  - rewrite <- Hk. by apply (bo_data _ _ _ Hok); [|rewrite Hk].
  - by apply (bo_clean _ _ _ Hok).
  - apply Hok.
  - apply Hok.
Qed.

(** [holdingsleep] on a buffer we hold. *)
Lemma runs_holding_buf k s h κ :
  bio_abs (k, s) i pid A → ca_held A h = Some κ →
  runs (holdingsleep (buf_lock h)) (k, s) (λ r x, r = true ∧ bio_abs x i pid A ∧ kern_le k x.1).
Proof.
  intros [Hr Hok] Hh. destruct (held_buf s h κ Hok Hh) as (Hb & Hk & Hkb & Hl & Hrf & Hmx).
  cbn in *. eapply runs_mono.
  { apply (runs_holdingsleep (buf_lock h) k s i pid); [done| |done].
    split; [apply Hok|unfold bidx in Hb; lia]. }
  intros r [k1 s1]. cbn. intros (-> & Hle & v & -> & Hv). split; [done|]. split; [|done].
  split; [by eapply kern_le_running|]. cbn.
  pose proof (bio_ok_slock s h κ v Hok Hb Hkb Hk (or_intror Hv)) as H.
  rewrite (proj2 (Z.eqb_neq _ _) (proj1 Hv)) in H. eapply bio_ok_ext; [exact H|].
  split; try done. intros h'. by apply hset_same.
Qed.

(** A store to the data of a buffer we hold. *)
Lemma bio_ok_set s h κ v :
  bio_ok pid s A → ca_held A h = Some κ → ca_ref A κ ≠ 0 → length v = Z.to_nat BSIZE →
  bio_ok pid (updb h (set_bdata v) s) (ca_set κ v A).
Proof.
  intros Hok Hh Hnz Hlen. destruct (held_buf s h κ Hok Hh) as (Hb & Hk & Hkb & Hl & Hrf & Hmx).
  pose proof (bo_len _ _ _ Hok) as Hn. assert (0 ≤ h ≤ NBUF) as Hb' by (unfold bidx in Hb; lia).
  destruct (touched_upd s h (set_bdata v) (bc_lock s)) as [Ht Hg]; try done; [apply Hok|].
  change (updb h (set_bdata v) s) with (over bcache_lock (bc_lock s) (updb h (set_bdata v) s)).
  apply (bio_ok_touch pid s A _ _ h κ _ Hok Hb Hkb (or_introl Hk) Ht Hg); cbn; rewrite ?kset_eq; try done; try lia.
  - intros κ' Hne. by rewrite kset_ne.
  - intros h'. apply hset_same. by rewrite (proj2 (Z.eqb_neq _ _) (proj1 Hl)).
  - by right.
  - by apply (bo_valid _ _ _ Hok); [|rewrite Hk; apply Hkb].
  - apply Hok.
  - split; [done|apply Hok].
Qed.

Lemma runs_bwrite k s h κ :
  bio_abs (k, s) i pid A → ca_held A h = Some κ →
  runs (bwrite h) (k, s) (λ _ x, bio_abs x i pid (ca_write κ A) ∧ kern_le k x.1).
Proof.
  intros Habs Hh. unfold bwrite. kcall (runs_holding_buf k s h κ Habs Hh).
  intros r [k1 s1]. cbn. intros (-> & [Hr1 Hok] & Hle). kif. unfold virtio_disk_rw. kstep. unfold get_buf. kstep. kif. kstep.
  destruct (held_buf s1 h κ Hok Hh) as (Hb & Hk & Hkb & Hl & Hrf & Hmx). cbn in *.
  assert (b_data (getb s1 h) = ca_data A κ) as Hd.
  { rewrite <- Hk. by apply (bo_data _ _ _ Hok); [|rewrite Hk; apply Hkb]. }
  split; [|done]. split; [done|]. cbn. unfold key in Hk. rewrite Hk, Hd.
  destruct (bo_disk _ _ _ Hok) as [Hdk Htr].
  eapply (bio_ok_touch pid s1 A _ _ h κ (getb s1 h) Hok Hb Hkb (or_introl Hk)); cbn; rewrite ?kset_eq; try done.
  - by split; try done; apply Hok.
  - lia.
  - intros κ' Hne. by rewrite kset_ne.
  - intros h'. apply hset_same. by rewrite (proj2 (Z.eqb_neq _ _) (proj1 Hl)).
  - by right.
  - by apply (bo_valid _ _ _ Hok); [|unfold key; rewrite Hk; apply Hkb].
  - split; [|by rewrite Htr]. intros k'. unfold kset. case_match; [done|apply Hdk].
  - split; apply Hok.
Qed.
End Ops.

(** ** brelse *)

(** The stores to the links change nothing else. *)
Lemma core_set_links s a x f :
  (∀ bf, core (f bf) = core bf) → core (getb (updb a f s) x) = core (getb s x).
Proof.
  intros Hf. unfold getb at 1, updb, aget, aset. cbn.
  destruct (decide (Z.to_nat a < length (bc_buf s))%nat) as [Hl|Hl]; [|by rewrite list_insert_ge by lia].
  destruct (decide (Z.to_nat x = Z.to_nat a)) as [E|Hne].
  - rewrite E, list_lookup_total_insert_eq, Hf by done. unfold getb, aget. by rewrite E.
  - by rewrite list_lookup_total_insert_ne.
Qed.

Lemma relink_core s b x : core (getb (relink b s) x) = core (getb s x).
Proof. unfold relink, link_in2, link_in1, link_out2, link_out1. by rewrite !core_set_links. Qed.

Lemma relink_rest s b :
  (nbufs s → nbufs (relink b s)) ∧ bc_lock (relink b s) = bc_lock s ∧ bc_disk (relink b s) = bc_disk s.
Proof. split; [|done]. intros Hn. unfold relink, link_in2, link_in1, link_out2, link_out1. repeat apply nbufs_updb. done. Qed.

Section Release.
Context (pid : Z) (A : cache) (s : bio_st) (b : Z) (κ : block).
Context (Hok : bio_ok pid s A) (Hb : bidx b) (Hk : key s b = κ) (Hκ : block_ok κ).
Context (Hfree : sl_free (b_lock (getb s b))).
Context (Hdirty : ca_flushed κ A).

(** One reference less, and the buffer to the front if it was the last one. *)
Lemma bio_ok_drop lk :
  locked lk = 0 →
  let s1 := updb b (λ bf, set_brefcnt (u32 (b_refcnt bf - 1)) bf) s in
  let s2 := if b_refcnt (getb s1 b) =? 0 then relink b s1 else s1 in
  bio_ok pid (over bcache_lock lk s2) (ca_drop κ A).
Proof using All.
  intros Hlk s1 s2. pose proof (bo_len _ _ _ Hok) as Hn. assert (0 ≤ b ≤ NBUF) as Hb' by (unfold bidx in Hb; lia).
  assert (κ ≠ (0, 0)) as H0 by apply Hκ.
  pose proof (bo_ref _ _ _ Hok b Hb) as Hrf. rewrite Hk in Hrf. specialize (Hrf H0).
  pose proof (bo_range _ _ _ Hok κ) as Hmx. set (r := u32 (ca_ref A κ - 1)).
  assert (Hg1 : getb s1 b = set_brefcnt r (getb s b)).
  { unfold s1. by rewrite getb_updb_eq, Hrf by (done || lia). }
  assert (Hn1 : nbufs s1) by by apply nbufs_updb.
  assert (Ho1 : ∀ b', 0 ≤ b' → b' ≠ b → getb s1 b' = getb s b').
  { intros b' ? ?. by apply getb_updb_ne; [lia|..]. }
  destruct (bo_lru _ _ _ Hok) as [l Hl].
  assert (Hl1 : lru s1 l).
  { eapply lru_ext; [|exact Hl]. intros b' Hr. unfold nxt, prv. destruct (decide (b' = b)) as [->|Hne]; [by rewrite Hg1|].
    by rewrite Ho1 by lia. }
  assert (Hc2 : ∀ x, core (getb s2 x) = core (getb s1 x)).
  { intros x. unfold s2. case_match; [apply relink_core|done]. }
  assert (Hn2 : nbufs s2). { unfold s2. case_match; [by apply relink_rest|done]. }
  assert (Hd2 : bc_disk s2 = bc_disk s). { unfold s2. by case_match. }
  assert (Hl2 : ∃ l', lru s2 l').
  { unfold s2. case_match; [|by exists l]. assert (b ∈ l) as Hin by by rewrite (lru_idx s l).
    apply list_elem_of_split in Hin as (l1 & l2 & ->). exists (b :: l1 ++ l2). by apply lru_front. }
  assert (Hcb : core (getb s2 b) = core (set_brefcnt r (getb s b))) by by rewrite Hc2, Hg1.
  assert (b_dev (getb s2 b) = b_dev (getb s b) ∧ b_blockno (getb s2 b) = b_blockno (getb s b) ∧
    b_refcnt (getb s2 b) = r ∧ b_lock (getb s2 b) = b_lock (getb s b) ∧
    b_valid (getb s2 b) = b_valid (getb s b) ∧ b_data (getb s2 b) = b_data (getb s b)) as (E1 & E2 & E3 & E4 & E5 & E6).
  { destruct (getb s2 b), (getb s b). unfold core in Hcb. cbn in *. by injection Hcb as -> -> -> -> -> -> ->. }
  assert (Hgo : ∀ x, getb (over bcache_lock lk s2) x = getb s2 x) by done.
  apply (bio_ok_change pid s A _ _ b κ); rewrite ?Hgo, ?E3, ?E4, ?E5, ?E6; cbn -[ca_used]; rewrite ?kset_eq; try done; try lia.
  - by left.
  - intros b' Hb1 Hne. rewrite Hgo, Hc2. rewrite Ho1; [done| |done]. unfold bidx in Hb1. lia.
  - unfold key. by rewrite Hgo, E1, E2.
  - by apply u32_pred.
  - intros κ' Hne. by rewrite kset_ne.
  - rewrite (one_ext (in_use s b) (ca_ref A κ ≠ 0)) by (unfold in_use; by rewrite Hrf).
    rewrite (one_ext (in_use _ b) (r ≠ 0)) by (unfold in_use; by rewrite Hgo, E3). by apply (used_reref pid A s).
  - pose proof (bo_held _ _ _ Hok b κ) as Hh. destruct Hfree as [Hf _]. rewrite Hf. cbn.
    destruct (ca_held A b) as [κ'|] eqn:E; [|done].
    pose proof (proj1 (bo_held _ _ _ Hok b κ') E) as (_ & _ & ?). done.
  - by left.
  - by apply (bo_valid _ _ _ Hok); [|rewrite Hk].
  - rewrite <- Hk. by apply (bo_data _ _ _ Hok); [|rewrite Hk].
  - rewrite Hd2. apply Hok.
  - apply Hok.
Qed.
End Release.

(** The stores, as statements of [brelse]. *)
Section LinkSteps.
Context {R : Type} (k : kern) (lk : spinlock) (s : bio_st) (b : Z) (rest : BM R)
  (Q : R → kern * bio_st → Prop).

Lemma runs_link_out1 :
  runs rest (k, over bcache_lock lk (link_out1 b s)) Q →
  runs (bf ← get_buf b; upd_buf (b_next bf) (set_bprev (b_prev bf));; rest) (k, over bcache_lock lk s) Q.
Proof. done. Qed.
Lemma runs_link_out2 :
  runs rest (k, over bcache_lock lk (link_out2 b s)) Q →
  runs (bf ← get_buf b; upd_buf (b_prev bf) (set_bnext (b_next bf));; rest) (k, over bcache_lock lk s) Q.
Proof. done. Qed.
Lemma runs_link_in1 :
  runs rest (k, over bcache_lock lk (link_in1 b s)) Q →
  runs (h ← get_buf bhead; upd_buf b (set_bnext (b_next h));; upd_buf b (set_bprev bhead);; rest)
    (k, over bcache_lock lk s) Q.
Proof. done. Qed.
Lemma runs_link_in2 :
  ∀ Q' : unit → kern * bio_st → Prop, Q' tt (k, over bcache_lock lk (link_in2 b s)) →
  runs (h ← get_buf bhead; upd_buf (b_next h) (set_bprev b);; upd_buf bhead (set_bnext b))
    (k, over bcache_lock lk s) Q'.
Proof. done. Qed.
End LinkSteps.

(** The part of [brelse] under [bcache.lock]. *)
Lemma runs_brelse_tail k s b i pid :
  running k i pid → locked (bc_lock s) = 0 →
  let s1 := updb b (λ bf, set_brefcnt (u32 (b_refcnt bf - 1)) bf) s in
  let s2 := if b_refcnt (getb s1 b) =? 0 then relink b s1 else s1 in
  runs (acquire (slock bcache_lock);;
    upd_buf b (λ bf, set_brefcnt (u32 (b_refcnt bf - 1)) bf);;
    bf ← get_buf b;
    when (b_refcnt bf =? 0) (
      bf ← get_buf b;
      upd_buf (b_next bf) (set_bprev (b_prev bf));;
      bf ← get_buf b;
      upd_buf (b_prev bf) (set_bnext (b_next bf));;
      h ← get_buf bhead;
      upd_buf b (set_bnext (b_next h));;
      upd_buf b (set_bprev bhead);;
      h ← get_buf bhead;
      upd_buf (b_next h) (set_bprev b);;
      upd_buf bhead (set_bnext b));;
    release (slock bcache_lock)) (k, s) (λ _ x,
    kern_le k x.1 ∧ ∃ lk, locked lk = 0 ∧ x.2 = over bcache_lock lk s2).
Proof.
  intros (Hk & Hp & Hi & Hpid) Hs s1 s2. pose proof Hk as (Hc & Hn & Hpl).
  kstep. apply (runs_acquire (slock bcache_lock)); [done|done|]. cbn [view over slock fst snd].
  set (lk := taken _ _). kstep. unfold upd_buf at 1. kstep. kstep. unfold get_buf at 1. kstep. kstep.
  apply (runs_mono _ _ (λ _ x, x = (set_kcpu (push_off_cpu (k_cpu k)) k, over bcache_lock lk s2))).
  - match goal with |- runs (when ?c _) _ _ => change c with (b_refcnt (getb s1 b) =? 0) end.
    match goal with |- runs ?m _ ?Q =>
      change (runs m (set_kcpu (push_off_cpu (k_cpu k)) k, over bcache_lock lk s1) Q) end.
    unfold s2. clearbody s1. destruct (b_refcnt (getb s1 b) =? 0); [|done]. unfold when.
    apply runs_link_out1, runs_link_out2, runs_link_in1, runs_link_in2. reflexivity.
  - intros [] x' ->. apply (runs_release (slock bcache_lock) _ _ (settle (k_cpu k))); cbn;
      [done|done|by rewrite push_off_id|by apply pop_push_off|].
    split; [apply kern_le_same; [done|exact (same_kern_settle k)|by apply settle_ok]|].
    eexists. split; [|done]. done.
Qed.

Lemma runs_brelse i pid A k s h κ :
  bio_abs (k, s) i pid A → ca_held A h = Some κ → ca_flushed κ A →
  runs (brelse h) (k, s) (λ _ x, bio_abs x i pid (ca_brelse κ h A) ∧ kern_le k x.1).
Proof.
  intros Habs Hh Hdirty. unfold brelse. kcall (runs_holding_buf i pid A k s h κ Habs Hh).
  intros r [k1 s1]. cbn. intros (-> & [Hr1 Hok] & Hle1). kif. cbn in Hr1, Hok.
  destruct (held_buf pid A s1 h κ Hok Hh) as (Hb & Hk & Hkb & Hl & Hrf & Hmx).
  pose proof (bo_len _ _ _ Hok) as Hn. assert (0 ≤ h ≤ NBUF) as Hb' by (unfold bidx in Hb; lia).
  kcall (runs_releasesleep (buf_lock h) (ChSleepLock h) k1 s1 i pid Hr1); [by split|done|].
  intros [] [k2 s2]. cbn [fst snd]. intros (Hle2 & v & -> & Hv).
  pose proof (bio_ok_slock pid A s1 h κ v Hok Hb Hkb Hk (or_introl Hv)) as Hok2.
  rewrite (proj1 Hv) in Hok2. cbn [Z.eqb] in Hok2.
  eapply runs_mono; [apply (runs_brelse_tail k2 _ h i pid); [by eapply kern_le_running|apply Hok2]|].
  intros [] [k3 s3]. cbn [fst snd]. intros (Hle3 & lk & Hlk & ->).
  assert (kern_le k k3) by (eapply kern_le_trans; [|done]; by eapply kern_le_trans).
  split; [|done]. split; [by eapply kern_le_running; [done|apply Habs]|].
  assert (Hg : getb (updb h (set_bslock v) s1) h = set_bslock v (getb s1 h)) by by apply getb_updb_eq.
  apply (bio_ok_drop pid (ca_lock h None A)); try done.
  - cbn. unfold key in *. by rewrite Hg.
  - cbn. by rewrite Hg.
Qed.

(** ** bread *)

Lemma hd_filter_some (P : Z → Prop) `{!∀ x, Decision (P x)} l b : hd_error (filter P l) = Some b → P b ∧ b ∈ l.
Proof.
  intros Hh. apply (list_elem_of_filter P). destruct (filter P l); [done|]. injection Hh as ->. by left.
Qed.

Lemma hd_filter_none (P : Z → Prop) `{!∀ x, Decision (P x)} l b : hd_error (filter P l) = None → b ∈ l → ¬ P b.
Proof.
  intros Hh Hb HP. assert (b ∈ filter P l) as Hin by by apply (list_elem_of_filter P).
  destruct (filter P l); [by apply not_elem_of_nil in Hin|done].
Qed.

(** The end of [bget]: give up [bcache.lock], take the buffer's lock. *)
Lemma runs_bget_tail k s b lk i pid :
  running k i pid → nbufs s → bidx b → sl_free (b_lock (getb s b)) →
  runs (release (slock bcache_lock);; acquiresleep (buf_lock b) (ChSleepLock b);; mret b)
    (set_kcpu (push_off_cpu (k_cpu k)) k, over bcache_lock (taken (c_id (k_cpu k)) lk) s)
    (λ r x, r = b ∧ kern_le k x.1 ∧ ∃ lk' v, locked lk' = 0 ∧ sl_held pid v ∧
      x.2 = updb b (set_bslock v) (over bcache_lock lk' s)).
Proof.
  intros Hr Hn Hb Hf. pose proof Hr as (Hk & Hp & Hi & Hpid). pose proof Hk as (Hc & Hnp & Hpl).
  kstep. apply (runs_release (slock bcache_lock) _ _ (settle (k_cpu k))); cbn;
    [done|done|by rewrite push_off_id|by apply pop_push_off|].
  assert (kern_le k (set_kcpu (settle (k_cpu k)) (set_kcpu (push_off_cpu (k_cpu k)) k))) as Hle.
  { apply kern_le_same; [done|exact (same_kern_settle k)|by apply settle_ok]. }
  kcall (runs_acquiresleep (buf_lock b) (ChSleepLock b) _ _ i pid (kern_le_running _ _ _ _ Hle Hr)).
  - split; [exact Hn|unfold bidx in Hb; lia].
  - exact Hf.
  - intros [] [k2 s2]. cbn [fst snd]. intros (Hle2 & v & -> & Hv). kstep. split; [done|].
    split; [by eapply kern_le_trans|]. eexists _, v. split; [|split; [done|reflexivity]]. done.
Qed.

(** A buffer that is not in use is not locked. *)
Lemma unused_free pid A s b :
  bio_ok pid s A → ca_sound A → bidx b → ¬ in_use s b → sl_free (b_lock (getb s b)).
Proof.
  intros Hok Hsnd Hb Hu. destruct (bo_lock _ _ _ Hok b Hb) as [?|[[Hl _] H0]]; [done|]. exfalso. apply Hu.
  unfold in_use. rewrite (bo_ref _ _ _ Hok b Hb H0). apply (Hsnd b). by apply (bo_held _ _ _ Hok).
Qed.

Section Bread.
Context (i : nat) (pid : Z) (A : cache) (k : kern) (s : bio_st) (d n : Z).
Let κ : block := (d, n).
Context (Hr : running k i pid) (Hok : bio_ok pid s A) (Hκ : block_ok κ).
Context (Hsnd : ca_sound A) (Hnh : ∀ h, ca_held A h ≠ Some κ) (Hmax : ca_ref A κ < 2 ^ 32 - 1).

(** The block is cached in [b]. *)
Lemma bread_hit b lk v :
  bidx b → key s b = κ → locked lk = 0 → sl_held pid v →
  let s1 := over bcache_lock lk (updb b (λ bf, set_brefcnt (u32 (b_refcnt bf + 1)) bf) s) in
  bio_ok pid (updb b (set_bslock v) s1) (ca_bread κ b A) ∧ b_valid (getb (updb b (set_bslock v) s1) b) ≠ 0.
Proof using All.
  intros Hb Hk Hlk Hv s1. pose proof (bio_ok_pin pid A s b κ lk Hok Hb Hk Hκ Hlk Hmax) as Hok1. fold s1 in Hok1.
  pose proof (bo_len _ _ _ Hok) as Hn. assert (0 ≤ b ≤ NBUF) as Hb' by (unfold bidx in Hb; lia).
  assert (getb s1 b = set_brefcnt (u32 (b_refcnt (getb s b) + 1)) (getb s b)) as Hg by exact (getb_updb_eq s b _ Hn Hb').
  assert (key s1 b = κ) as Hk1 by (unfold key in *; by rewrite Hg).
  pose proof (bio_ok_slock pid (ca_pin κ A) s1 b κ v Hok1 Hb Hκ Hk1 (or_intror Hv)) as H.
  rewrite (proj2 (Z.eqb_neq _ _) (proj1 Hv)) in H. split; [done|].
  assert (key (updb b (set_bslock v) s1) b = κ) as Hk2.
  { unfold key in *. rewrite getb_updb_eq by (done || apply Hok1). done. }
  apply (bo_valid _ _ _ H b Hb). rewrite Hk2. apply Hκ.
Qed.

(** The block is not cached; [b] is unused and recycled. *)
Lemma bread_miss b lk v :
  bidx b → ¬ in_use s b → (∀ b', bidx b' → key s b' ≠ κ) → locked lk = 0 → sl_held pid v →
  let s1 := updb b (set_brefcnt 1) (updb b (set_bvalid 0) (updb b (set_bkey d n) s)) in
  let s2 := updb b (set_bslock v) (over bcache_lock lk s1) in
  let s3 := updb b (set_bdata (dk_blk (bc_disk s2) κ)) s2 in
  key s2 b = κ ∧ b_valid (getb s2 b) = 0 ∧ ca_held A b = None ∧
  bio_ok pid (updb b (set_bvalid 1) s3) (ca_bread κ b A).
Proof using All.
  intros Hb Hu Hno Hlk Hv s1 s2 s3. pose proof (bo_len _ _ _ Hok) as Hn.
  assert (0 ≤ b ≤ NBUF) as Hb' by (unfold bidx in Hb; lia).
  assert (Hr0 : ca_ref A κ = 0) by (apply (bo_noref _ _ _ Hok); [apply Hκ|done]).
  assert (Hdk : dk_blk (bc_disk s2) κ = ca_data A κ).
  { cbn. rewrite (proj1 (bo_disk _ _ _ Hok)). symmetry. by apply (bo_clean _ _ _ Hok); [apply Hκ|]. }
  assert (Hn1 : nbufs s1) by by repeat apply nbufs_updb.
  assert (Hg1 : getb s1 b = set_brefcnt 1 (set_bvalid 0 (set_bkey d n (getb s b)))).
  { unfold s1. by rewrite !getb_updb_eq by (repeat apply nbufs_updb; done). }
  assert (Hg2 : getb s2 b = set_bslock v (getb s1 b)) by exact (getb_updb_eq s1 b _ Hn1 Hb').
  assert (Hn2 : nbufs s2) by exact (nbufs_updb s1 b _ Hn1).
  assert (Hg4 : getb (updb b (set_bvalid 1) s3) b = set_bvalid 1 (set_bdata (ca_data A κ) (getb s2 b))).
  { unfold s3. rewrite Hdk, !getb_updb_eq by (repeat apply nbufs_updb; done). done. }
  split; [unfold key; by rewrite Hg2, Hg1|]. split; [by rewrite Hg2, Hg1|].
  pose proof (unused_free pid A s b Hok Hsnd Hb Hu) as Hf. split.
  { rewrite (held_value pid A s b _ Hok Hb eq_refl). by rewrite (proj1 Hf). }
  rewrite Hg2, Hg1 in Hg4.
  assert (Ht : touched b s (updb b (set_bvalid 1) s3)).
  { split; [by repeat apply nbufs_updb|done| |unfold nxt; by rewrite Hg4|unfold prv; by rewrite Hg4].
    intros b' H0 Hne. unfold s3. rewrite !getb_updb_ne by lia.
    unfold s2. rewrite getb_updb_ne by lia. change (getb s1 b' = getb s b'). unfold s1. by rewrite !getb_updb_ne by lia. }
  unfold in_use in Hu.
  apply (bio_ok_touch pid s A _ _ b κ _ Hok Hb Hκ (or_intror (conj Hu Hno)) Ht Hg4); cbn; rewrite ?kset_eq, ?Hr0; try done.
  - intros κ' Hne. by rewrite kset_ne.
  - rewrite one_false, one_true by (done || lia). change (nz (u32 (0 + 1))) with 1%nat. change (nz 0) with 0%nat. lia.
  - intros h'. by rewrite (proj2 (Z.eqb_neq _ _) (proj1 Hv)).
  - right. done.
  - apply Hok.
  - apply Hok.
Qed.
End Bread.

Lemma runs_bread i pid A k s d n :
  let κ := (d, n) in
  bio_abs (k, s) i pid A → block_ok κ → ca_sound A → (∀ h, ca_held A h ≠ Some κ) → ca_room κ A →
  runs (bread d n) (k, s) (λ h x, ca_held A h = None ∧ bio_abs x i pid (ca_bread κ h A) ∧ kern_le k x.1).
Proof.
  intros κ [Hr Hok] Hκ Hsnd Hnh [Hroom Hmax]. cbn in Hr, Hok.
  pose proof (bo_len _ _ _ Hok) as Hn. destruct (bo_lru _ _ _ Hok) as [l Hl].
  unfold bread, bget. kstep. kstep. apply (runs_acquire (slock bcache_lock)); [done|apply Hok|].
  cbn [view over slock fst snd]. kstep.
  eapply runs_eq; [apply (find_buf_next _ l); exact Hl|]. cbn [snd].
  destruct (hd_error _) as [b|] eqn:Hfind.
  - apply hd_filter_some in Hfind as [HP Hin]. rewrite (lru_idx s l) in Hin by done.
    assert (key s b = κ) as Hk. { apply andb_true_iff in HP as [E1%Z.eqb_eq E2%Z.eqb_eq]. exact (f_equal2 pair E1 E2). }
    assert (ca_held A b = None) as Hnb.
    { rewrite (held_value pid A s b κ Hok Hin Hk). case_match eqn:E; [done|]. zify_bool.
      exfalso. apply (Hnh b). by apply (bo_held _ _ _ Hok). }
    assert (sl_free (b_lock (getb s b))) as Hf.
    { destruct (bo_lock _ _ _ Hok b Hin) as [?|[[? _] _]]; [done|].
      exfalso. apply (Hnh b). by apply (bo_held _ _ _ Hok). }
    kstep. unfold upd_buf at 1. kstep.
    assert (0 ≤ b ≤ NBUF) as Hb' by (unfold bidx in Hin; lia).
    eapply runs_mono; [apply (runs_bget_tail k (updb b _ s) b (bc_lock s) i pid Hr); [by apply nbufs_updb|done|]|].
    { by rewrite getb_updb_eq. }
    intros r [k1 s1]. cbn [fst snd]. intros (-> & Hle & lk & v & Hlk & Hv & ->).
    destruct (bread_hit i pid A k s d n Hr Hok Hκ Hsnd Hnh Hmax b lk v Hin Hk Hlk Hv) as [Hok' Hval].
    kstep. unfold get_buf. kstep. kstep. cbn [snd]. rewrite (proj2 (Z.eqb_neq _ _) Hval). unfold when. kstep. kstep.
    split; [done|]. split; [|done]. split; [by eapply kern_le_running|done].
  - assert (Hno : ∀ b', bidx b' → key s b' ≠ κ).
    { intros b' Hb' E. rewrite <- (lru_idx s l) in Hb' by done. eapply hd_filter_none in Hb'; [|exact Hfind].
      apply Hb'. unfold key, κ in E. injection E as E1 E2. apply andb_true_iff. split; apply Z.eqb_eq; [exact E1|exact E2]. }
    kstep. eapply runs_eq; [apply (find_buf_prev _ l); exact Hl|]. cbn [snd].
    destruct (hd_error (filter _ (reverse l))) as [b|] eqn:Hfree.
    + apply hd_filter_some in Hfree as [HP Hin]. rewrite elem_of_reverse, (lru_idx s l) in Hin by done.
      assert (¬ in_use s b) as Hu. { apply Z.eqb_eq in HP. intros Hu. exact (Hu HP). }
      assert (sl_free (b_lock (getb s b))) as Hf. { by apply (unused_free pid A). }
      do 3 (kstep; unfold upd_buf at 1; kstep). cbn [fst snd].
      assert (0 ≤ b ≤ NBUF) as Hb' by (unfold bidx in Hin; lia).
      eapply runs_mono.
      { apply (runs_bget_tail k (updb b (set_brefcnt 1) (updb b (set_bvalid 0) (updb b (set_bkey d n) s)))
          b (bc_lock s) i pid Hr); [by repeat apply nbufs_updb|done|].
        by rewrite !getb_updb_eq by (repeat apply nbufs_updb; done). }
      intros r [k1 s1]. cbn [fst snd]. intros (-> & Hle & lk & v & Hlk & Hv & ->).
      destruct (bread_miss i pid A k s d n Hr Hok Hκ Hsnd Hnh Hmax b lk v Hin Hu Hno Hlk Hv) as (Hk2 & Hv2 & Hnb & Hok2).
      kstep. unfold get_buf. kstep. kstep. cbn [snd]. rewrite Hv2. unfold when. change (0 =? 0) with true. kif. kstep.
      unfold virtio_disk_rw. kstep. unfold get_buf. kstep. cbn [snd]. unfold key in Hk2. rewrite Hk2. kif.
      kstep. unfold upd_buf. kstep. kstep. cbn [fst snd].
      split; [done|]. split; [|done]. split; [by eapply kern_le_running|]. exact Hok2.
    + exfalso.
      assert (ca_used A = Z.to_nat NBUF) as Hfull.
      { rewrite (bo_used _ _ _ Hok). rewrite filter_all; [by rewrite length_seqZ|].
        intros b Hb. apply elem_seq in Hb. rewrite <- (lru_idx s l), <- elem_of_reverse in Hb by done.
        eapply hd_filter_none in Hb; [|exact Hfree]. intros E. apply Hb. by apply Z.eqb_eq. }
      destruct Hroom as [Hrf|?]; [|lia]. apply Hrf, (bo_noref _ _ _ Hok κ); [apply Hκ|done].
Qed.

(** ** The instance *)

#[global] Instance bio_cache : BufCache bio_st.
Proof.
  refine {|
    BufCache.bread := bread; BufCache.bwrite := bwrite; BufCache.brelse := brelse;
    BufCache.bpin := bpin; BufCache.bunpin := bunpin;
    bdata h s := b_data (getb s h); bset h v s := updb h (set_bdata v) s; bkey h s := key s h;
    babs := bio_abs |}.
  - intros k s i pid A [Hr _]. exact Hr.
  - intros k s i pid A k' [Hr Hok] Hr'. by split.
  - intros x i pid A A' [Hr Hok] He. split; [done|]. by eapply bio_ok_ext.
  - intros x i pid A h κ [_ Hok] Hh. by destruct (held_buf pid A x.2 h κ Hok Hh) as (_ & _ & ? & _).
  - intros x i pid A h h' κ [_ Hok] Hh Hh'.
    destruct (held_buf pid A x.2 h κ Hok Hh) as (Hb & Hk & Hkb & _).
    destruct (held_buf pid A x.2 h' κ Hok Hh') as (Hb' & Hk' & _).
    apply (bo_uniq _ _ _ Hok); [done|done|congruence|]. rewrite Hk. apply Hkb.
  - intros x i pid A κ [_ Hok]. apply (bo_range _ _ _ Hok).
  - intros x i pid A κ [_ Hok] Hκ. apply (bo_clean _ _ _ Hok), Hκ.
  - intros x i pid A κ [_ Hok]. apply (bo_bytes _ _ _ Hok).
  - intros x i pid A κ [_ Hok]. by apply (used_pos pid A x.2 κ).
  - intros [k s] i pid A d b Habs. by apply runs_bread.
  - intros [k s] i pid A h κ. apply runs_bwrite.
  - intros [k s] i pid A h κ. apply runs_brelse.
  - intros [k s] i pid A h κ. apply runs_bpin.
  - intros [k s] i pid A h κ. apply runs_bunpin.
  - intros k s i pid A h κ [_ Hok] Hh. destruct (held_buf pid A s h κ Hok Hh) as (Hb & Hk & Hkb & _).
    cbn in *. subst κ. apply (bo_data _ _ _ Hok); [done|apply Hkb].
  - intros k s i pid A h κ v [Hr Hok] Hh Hnz Hlen. split; [done|]. by apply bio_ok_set.
  - intros k s i pid A h κ [_ Hok] Hh. by destruct (held_buf pid A s h κ Hok Hh) as (_ & ? & _).
Defined.

(** ** binit *)

Definition init_buf (b : Z) (s : bio_st) : bio_st :=
  link_in2 b (updb b (set_bslock (initsleeplock "buffer")) (link_in1 b s)).

Lemma init_buf_links s b h :
  nbufs s → bidx b → h = nxt s bhead → 0 ≤ h ≤ NBUF →
  ∀ x, 0 ≤ x →
    nxt (init_buf b s) x = fset (fset (nxt s) b h) bhead b x ∧
    prv (init_buf b s) x = fset (fset (prv s) b bhead) h b x.
Proof.
  intros Hn Hb Hh Hhr x Hx. unfold init_buf, link_in2, link_in1. rewrite <- Hh. unfold bidx in Hb.
  assert (Hb0 : 0 ≤ bhead ≤ NBUF) by (unfold bhead; lia).
  set (s2 := updb b (set_bprev bhead) (updb b (set_bnext h) s)).
  assert (N1 : nbufs (updb b (set_bnext h) s)) by by apply nbufs_updb.
  assert (N2 : nbufs s2) by by apply nbufs_updb.
  set (s3 := updb b (set_bslock _) s2). assert (N3 : nbufs s3) by by apply nbufs_updb.
  assert (E3 : ∀ y, 0 ≤ y → nxt s3 y = fset (nxt s) b h y ∧ prv s3 y = fset (prv s) b bhead y).
  { intros y Hy. assert (nxt s3 y = nxt s2 y ∧ prv s3 y = prv s2 y) as [-> ->].
    { unfold nxt, prv, s3. destruct (decide (y = b)) as [->|]; [by rewrite getb_updb_eq by (done || lia)|].
      by rewrite getb_updb_ne by lia. }
    unfold s2. rewrite nxt_set_bprev, prv_set_bprev, nxt_set_bnext by (done || lia). split; [done|].
    apply fset_ext. intros _. by rewrite prv_set_bnext by (done || lia). }
  replace (nxt s3 bhead) with h.
  2:{ destruct (E3 bhead) as [-> _]; [lia|]. rewrite fset_ne by (unfold bhead; lia). done. }
  assert (N4 : nbufs (updb h (set_bprev b) s3)) by by apply nbufs_updb. split.
  - rewrite nxt_set_bnext by (done || lia). apply fset_ext. intros _. rewrite nxt_set_bprev by (done || lia). by apply E3.
  - rewrite prv_set_bnext, prv_set_bprev by (done || lia). apply fset_ext. intros _. by apply E3.
Qed.

(** The fields [binit] sets, and those it leaves. *)
Lemma init_buf_fields s b x :
  nbufs s → bidx b → 0 ≤ x →
  key (init_buf b s) x = key s x ∧ b_refcnt (getb (init_buf b s) x) = b_refcnt (getb s x) ∧
  b_lock (getb (init_buf b s) x) = (if decide (x = b) then initsleeplock "buffer" else b_lock (getb s x)) ∧
  nbufs (init_buf b s) ∧ bc_lock (init_buf b s) = bc_lock s ∧ bc_disk (init_buf b s) = bc_disk s.
Proof.
  intros Hn Hb Hx. unfold bidx in Hb. set (s1 := link_in1 b s).
  assert (N1 : nbufs s1) by by repeat apply nbufs_updb.
  assert (C1 : core (getb s1 x) = core (getb s x)) by (unfold s1, link_in1; by rewrite !core_set_links).
  set (s2 := updb b (set_bslock (initsleeplock "buffer")) s1). assert (N2 : nbufs s2) by by apply nbufs_updb.
  assert (C2 : core (getb (init_buf b s) x) = core (getb s2 x)) by (unfold init_buf, link_in2; by rewrite 2!core_set_links).
  assert (G2 : getb s2 x = if decide (x = b) then set_bslock (initsleeplock "buffer") (getb s1 x) else getb s1 x).
  { unfold s2. case_decide as E; [subst; by rewrite getb_updb_eq by (done || lia)|by rewrite getb_updb_ne by lia]. }
  split_and!; [..|by repeat apply nbufs_updb|done|done].
  - unfold key. rewrite G2 in C2. destruct (getb (init_buf b s) x), (getb s1 x), (getb s x).
    unfold core in *. cbn in *. case_decide; cbn in *; by simplify_eq.
  - rewrite G2 in C2. destruct (getb (init_buf b s) x), (getb s1 x), (getb s x).
    unfold core in *. cbn in *. case_decide; cbn in *; by simplify_eq.
  - rewrite G2 in C2. destruct (getb (init_buf b s) x), (getb s1 x), (getb s x).
    unfold core in *. cbn in *. case_decide; cbn in *; by simplify_eq.
Qed.

(** The cache at boot: nothing cached. *)
Definition fresh_cache (dk : disk) : cache :=
  Cache (λ _, 0) 0 (λ _, None) (dk_blk dk) (dk_blk dk) (dk_trace dk).

Lemma runs_binit k s0 pid :
  nbufs s0 → (∀ b, bidx b → key s0 b = (0, 0) ∧ b_refcnt (getb s0 b) = 0) →
  (∀ κ, length (dk_blk (bc_disk s0) κ) = Z.to_nat BSIZE) →
  runs binit (k, s0) (λ _ x, x.1 = k ∧ bio_ok pid x.2 (fresh_cache (bc_disk s0)) ∧
    lru x.2 (reverse (seqZ 0 NBUF))).
Proof.
  intros Hn H0 Hlen. unfold binit. kstep. kstep. kstep. unfold upd_buf at 1. kstep. kstep.
  unfold upd_buf at 1. kstep. cbn [fst snd].
  set (s1 := updb bhead _ (updb bhead _ _)).
  apply (runs_for_range _ (λ n x, x.1 = k ∧ nbufs x.2 ∧ locked (bc_lock x.2) = 0 ∧ bc_disk x.2 = bc_disk s0 ∧
    dl (nxt x.2) (prv x.2) bhead (reverse (seqZ 0 n)) ∧
    ∀ b, bidx b → key x.2 b = (0, 0) ∧ b_refcnt (getb x.2 b) = 0 ∧ (b < n → sl_free (b_lock (getb x.2 b))))).
  - intros n [k1 s] Hr. cbn [fst snd]. intros (-> & Hns & Hlk & Hdk & Hd & Hall).
    change (0 + Z.of_nat (Z.to_nat NBUF)) with NBUF in Hr. assert (bidx n) as Hb by done.
    eapply runs_eq; [reflexivity|]. cbn [fst snd].
    change (updb bhead (set_bnext n) _) with (init_buf n s).
    destruct (init_buf_fields s n n Hns Hb ltac:(lia)) as (_ & _ & _ & Hn' & Hl' & Hd').
    rewrite Hl', Hd'. split_and!; try done.
    + replace (n + 1) with (Z.succ n) by lia.
      assert (seqZ 0 (Z.succ n) = seqZ 0 n ++ [n]) as ->.
      { replace (Z.succ n) with (n + 1) by lia. by rewrite seqZ_app by lia. }
      rewrite reverse_snoc.
      assert (Hrange : ∀ y, y ∈ bhead :: reverse (seqZ 0 n) → 0 ≤ y ≤ NBUF ∧ y ≠ n).
      { intros y [->|Hy]%elem_of_cons; [unfold bhead; lia|]. rewrite elem_of_reverse, elem_of_seqZ in Hy. lia. }
      pose proof (seg_nxt_in _ _ _ _ _ (proj1 Hd)) as Hin.
      destruct (Hrange (nxt s bhead)) as [Hh _].
      { rewrite elem_of_app, list_elem_of_singleton in Hin. rewrite elem_of_cons. tauto. }
      eapply dl_ext; [|apply (dl_push _ _ _ _ n Hd)].
      * intros y Hy. apply (init_buf_links s n (nxt s bhead) Hns Hb eq_refl Hh).
        apply elem_of_cons in Hy as [->|[->|Hy]%elem_of_cons]; [unfold bhead, NBUF, MAXOPBLOCKS; lia|lia|].
        apply (Hrange y). by right.
      * intros Hin'. by destruct (Hrange n Hin').
    + intros b Hbb. destruct (init_buf_fields s n b Hns Hb ltac:(unfold bidx in Hbb; lia)) as (-> & -> & -> & _).
      destruct (Hall b Hbb) as (H1 & H2 & H3). split_and!; try done. intros Hlt.
      case_decide; [done|]. apply H3. lia.
  - cbn [fst snd]. split_and!; try done.
    + by repeat apply nbufs_updb.
    + assert (getb s1 bhead = set_bnext bhead (set_bprev bhead (getb s0 bhead))) as Hg.
      { unfold s1. by rewrite !getb_updb_eq by (solve [repeat apply nbufs_updb; done | unfold bhead, NBUF, MAXOPBLOCKS; lia]). }
      apply dl_nil; [unfold nxt; by rewrite Hg|unfold prv; by rewrite Hg].
    + intros b Hb. assert (getb s1 b = getb s0 b) as Hg.
      { unfold s1. rewrite !getb_updb_ne by (unfold bidx, bhead, NBUF, MAXOPBLOCKS in *; lia). done. }
      unfold key. rewrite Hg. split; [apply (H0 b Hb)|]. split; [apply (H0 b Hb)|unfold bidx in Hb; lia].
  - intros [k1 s]. cbn [fst snd]. change (0 + Z.of_nat (Z.to_nat NBUF)) with NBUF.
    intros (-> & Hns & Hlk & Hdk & Hd & Hall). split; [done|].
    assert (lru s (reverse (seqZ 0 NBUF))) as Hlru by (split; [done|by rewrite reverse_Permutation]).
    split; [|done]. split; cbn; try done.
    + eauto.
    + intros b Hb. destruct (Hall b Hb) as (E & _). injection E as E1 E2. lia.
    + intros b b' Hb Hb' _ Hne. by destruct (Hall b Hb) as (? & _).
    + intros b Hb _. destruct (Hall b Hb) as (_ & Hr & _). unfold in_use. lia.
    + intros b Hb Hne. by destruct (Hall b Hb) as (? & _).
    + symmetry. rewrite (filter_same _ (λ _, False)).
      * by rewrite (filter_none).
      * intros b Hb. apply elem_seq in Hb. destruct (Hall b Hb) as (_ & Hr & _). unfold in_use. split; [done|done].
    + intros b κ. split; [done|]. intros (Hb & _ & Hl). destruct (Hall b Hb) as (_ & _ & Hf). destruct Hf as [? _]; [unfold bidx in Hb; lia|done].
    + intros b Hb. left. apply (Hall b Hb). unfold bidx in Hb. lia.
    + intros b Hb Hne. by destruct (Hall b Hb) as (? & _).
    + intros b Hb Hne. by destruct (Hall b Hb) as (? & _).
    + by rewrite Hdk.
Qed.
