(* ===== verification/BioSpec.v ===== *)
(** * What the buffer cache promises

    bio.c refines the abstract cache of [BufCache], operation by operation;
    which buffer [bget] recycles, and what it does when there is none. *)

From S2P Require Import Prelude Memory Riscv Spinlock Core Sleeplock DList BufCache Bio BioProof.

(** The operations a client calls. *)
Inductive bop := OpRead (d n : Z) | OpWrite (h : Z) | OpRelse (h : Z) | OpPin (h : Z) | OpUnpin (h : Z).

Definition bop_run (o : bop) : BM Z :=
  match o with
  | OpRead d n => bread d n
  | OpWrite h => bwrite h;; mret 0
  | OpRelse h => brelse h;; mret 0
  | OpPin h => bpin h;; mret 0
  | OpUnpin h => bunpin h;; mret 0
  end.

(** What the client must respect: work on buffers it has locked, not read a
    block it has locked, and not give up the last reference to a block that is not on the disk yet. *)
Definition bop_pre (o : bop) (A : cache) : Prop :=
  match o with
  | OpRead d n => block_ok (d, n) ∧ ca_sound A ∧ (∀ h, ca_held A h ≠ Some (d, n)) ∧ ca_room (d, n) A
  | OpWrite h => is_Some (ca_held A h)
  | OpRelse h | OpUnpin h => ∃ κ, ca_held A h = Some κ ∧ ca_flushed κ A
  | OpPin h => ∃ κ, ca_held A h = Some κ ∧ ca_ref A κ < 2 ^ 32 - 1
  end.

Definition key_of (h : Z) (A : cache) : block := default (0, 0) (ca_held A h).

(** What it does to the abstract cache, with result [r]. *)
Definition bop_step (o : bop) (r : Z) (A : cache) : cache :=
  match o with
  | OpRead d n => ca_bread (d, n) r A
  | OpWrite h => ca_write (key_of h A) A
  | OpRelse h => ca_brelse (key_of h A) h A
  | OpPin h => ca_pin (key_of h A) A
  | OpUnpin h => ca_drop (key_of h A) A
  end.

Lemma bop_refines o k s i pid A :
  bio_abs (k, s) i pid A → bop_pre o A →
  runs (bop_run o) (k, s) (λ r x', bio_abs x' i pid (bop_step o r A) ∧ kern_le k x'.1).
Proof.
  intros Ha Hp. destruct o as [d n|h|h|h|h]; cbn [bop_run bop_step bop_pre] in *; unfold key_of.
  - destruct Hp as (H1 & H2 & H3 & H4). eapply runs_mono; [by apply (runs_bread i pid A k s d n)|]. cbn. tauto.
  - destruct Hp as [κ Hh]. rewrite Hh. kcall (runs_bwrite i pid A k s h κ Ha Hh). intros [] x' H. by kstep.
  - destruct Hp as (κ & Hh & Hf). rewrite Hh. kcall (runs_brelse i pid A k s h κ Ha Hh Hf). intros [] x' H. by kstep.
  - destruct Hp as (κ & Hh & Hf). rewrite Hh. kcall (runs_bpin i pid A k s h κ Ha Hh Hf). intros [] x' H. by kstep.
  - destruct Hp as (κ & Hh & Hf). rewrite Hh. kcall (runs_bunpin i pid A k s h κ Ha Hh Hf). intros [] x' H. by kstep.
Qed.

(** A sequence of operations of a client that chooses the next one from the
    results so far. *)
Fixpoint client_run (fuel : nat) (next : list Z → option bop) (rs : list Z) : BM (list Z) :=
  match fuel with
  | O => mret rs
  | S fuel' =>
      match next rs with
      | None => mret rs
      | Some o => r ← bop_run o; client_run fuel' next (rs ++ [r])
      end
  end.

(** The client respects the interface whatever buffers [bread] returns. *)
Inductive client_ok (next : list Z → option bop) : nat → list Z → cache → Prop :=
| client_stop rs A : client_ok next 0 rs A
| client_done n rs A : next rs = None → client_ok next n rs A
| client_op n rs A o : next rs = Some o → bop_pre o A →
    (∀ r, client_ok next n (rs ++ [r]) (bop_step o r A)) → client_ok next (S n) rs A.

Inductive client_trace (next : list Z → option bop) : list Z → cache → list Z → cache → Prop :=
| trace_refl rs A : client_trace next rs A rs A
| trace_op rs A o r rs' A' : next rs = Some o → client_trace next (rs ++ [r]) (bop_step o r A) rs' A' →
    client_trace next rs A rs' A'.

(** C15: the buffer cache refines its specification.  Any client that keeps to the
    interface runs without panicking or sleeping, and after its operations the
    buffers, their locks, reference counts and contents and the disk are those
    the abstract cache says: in particular [bread] always returns a locked buffer
    with the current contents of the block. *)
Theorem bio_refines_cache fuel next rs k s i pid A :
  bio_abs (k, s) i pid A → client_ok next fuel rs A →
  runs (client_run fuel next rs) (k, s) (λ rs' x', ∃ A',
    client_trace next rs A rs' A' ∧ bio_abs x' i pid A' ∧ kern_le k x'.1).
Proof.
  revert rs k s A. induction fuel as [|fuel IH]; intros rs k s A Ha Hc.
  - cbn [client_run]. kstep. exists A. split; [constructor|]. split; [done|]. apply kern_le_refl, Ha.
  - cbn [client_run]. inversion Hc as [|n rs' A' Hn|n rs' A' o Hn Hp Hr]; subst.
    + rewrite Hn. kstep. exists A. split; [constructor|]. split; [done|]. apply kern_le_refl, Ha.
    + rewrite Hn. kcall (bop_refines o k s i pid A Ha Hp). intros r [k1 s1] [Ha1 Hle].
      eapply runs_mono; [by apply IH|]. intros rs1 x1 (A1 & Ht & Ha' & Hle'). exists A1.
      split; [by econstructor|]. split; [done|]. by eapply kern_le_trans.
Qed.

Lemma bget_miss s l d n :
  lru s l → (∀ b, bidx b → key s b ≠ (d, n)) →
  hd_error (filter (λ b, (b_dev (getb s b) =? d) && (b_blockno (getb s b) =? n) = true) l) = None.
Proof.
  intros Hl Hno. destruct (hd_error _) as [b|] eqn:E; [|done]. exfalso.
  apply hd_filter_some in E as [HP Hin]. rewrite (lru_idx s l) in Hin by done. apply (Hno b Hin).
  apply andb_true_iff in HP as [E1%Z.eqb_eq E2%Z.eqb_eq]. exact (f_equal2 pair E1 E2).
Qed.

(** A block that is not cached goes to the unused buffer that was released
    longest ago: the last one of the list that has no reference. *)
Theorem bget_recycles_lru k s i pid A l d n b :
  bio_abs (k, s) i pid A → ca_sound A → lru s l → (∀ b', bidx b' → key s b' ≠ (d, n)) →
  hd_error (filter (λ b', (b_refcnt (getb s b') =? 0) = true) (reverse l)) = Some b →
  runs (bget d n) (k, s) (λ r x', r = b ∧ key x'.2 b = (d, n) ∧ b_refcnt (getb x'.2 b) = 1).
Proof.
  intros [Hr Hok] Hsnd Hl Hno Hfree. cbn in Hr, Hok. pose proof (bo_len _ _ _ Hok) as Hn.
  destruct (hd_filter_some _ _ _ Hfree) as [HP Hin]. rewrite elem_of_reverse, (lru_idx s l) in Hin by done.
  assert (sl_free (b_lock (getb s b))) as Hf.
  { apply (unused_free pid A); [done|done|done|]. intros Hu. apply Hu. by apply Z.eqb_eq. }
  unfold bget. kstep. apply (runs_acquire (slock bcache_lock)); [done|apply Hok|].
  cbn [view over slock fst snd]. kstep. eapply runs_eq; [apply (find_buf_next _ l); exact Hl|]. cbn [snd].
  assert (E := bget_miss s l d n Hl Hno). match goal with |- context [hd_error ?f] => change (hd_error f) with
    (hd_error (filter (λ b, (b_dev (getb s b) =? d) && (b_blockno (getb s b) =? n) = true) l)) end. rewrite E.
  kstep. eapply runs_eq; [apply (find_buf_prev _ l); exact Hl|]. cbn [snd].
  match goal with |- context [hd_error ?f] => change (hd_error f) with
    (hd_error (filter (λ b', (b_refcnt (getb s b') =? 0) = true) (reverse l))) end. rewrite Hfree.
  do 3 (kstep; unfold upd_buf at 1; kstep). cbn [fst snd]. assert (0 ≤ b ≤ NBUF) as Hb' by (unfold bidx in Hin; lia).
  set (s1 := updb b (set_brefcnt 1) _). assert (nbufs s1) as Hn1 by by repeat apply nbufs_updb.
  assert (getb s1 b = set_brefcnt 1 (set_bvalid 0 (set_bkey d n (getb s b)))) as Hg.
  { unfold s1. by rewrite !getb_updb_eq by (repeat apply nbufs_updb; done). }
  eapply runs_mono; [apply (runs_bget_tail k s1 b (bc_lock s) i pid Hr Hn1 Hin); by rewrite Hg|].
  intros r [k2 s2]. cbn [fst snd]. intros (-> & _ & lk & v & _ & _ & ->). split; [done|].
  assert (getb (updb b (set_bslock v) (over bcache_lock lk s1)) b = set_bslock v (getb s1 b)) as Hg2 by exact (getb_updb_eq s1 b _ Hn1 Hb').
  unfold key. by rewrite Hg2, Hg.
Qed.

(** When every buffer has a reference, a block that is not cached cannot be
    read: [bget] panics. *)
Theorem bget_no_buffers k s i pid A d n :
  bio_abs (k, s) i pid A → ca_used A = Z.to_nat NBUF → (d, n) ≠ (0, 0) → ca_ref A (d, n) = 0 →
  stops (bread d n) (k, s) (Panic "bget: no buffers").
Proof.
  intros [Hr Hok] Hfull H0 Href. cbn in Hr, Hok. destruct (bo_lru _ _ _ Hok) as [l Hl].
  assert (Hall : ∀ b, bidx b → in_use s b).
  { intros b Hb. destruct (decide (in_use s b)) as [|Hn]; [done|]. exfalso.
    pose proof (length_filter_lt (in_use s) (seqZ 0 NBUF) b (proj2 (elem_seq b) Hb) Hn) as Hlt.
    rewrite length_seqZ, <- (bo_used _ _ _ Hok), Hfull in Hlt. lia. }
  assert (Hno : ∀ b, bidx b → key s b ≠ (d, n)).
  { intros b Hb E. apply (Hall b Hb). rewrite (bo_ref _ _ _ Hok b Hb), E; [done|]. by rewrite E. }
  unfold bread, bget. apply stops_bind_l. apply stops_bind_r. apply (runs_acquire (slock bcache_lock)); [done|apply Hok|].
  cbn [view over slock fst snd]. apply stops_bind_r. eapply runs_eq; [apply (find_buf_next _ l); exact Hl|]. cbn [snd].
  assert (E := bget_miss s l d n Hl Hno). match goal with |- context [hd_error ?f] => change (hd_error f) with
    (hd_error (filter (λ b, (b_dev (getb s b) =? d) && (b_blockno (getb s b) =? n) = true) l)) end. rewrite E.
  apply stops_bind_r. eapply runs_eq; [apply (find_buf_prev _ l); exact Hl|]. cbn [snd].
  match goal with |- context [hd_error ?f] => destruct (hd_error f) as [b|] eqn:Hfree end; [|done].
  exfalso. apply hd_filter_some in Hfree as [HP Hin]. rewrite elem_of_reverse, (lru_idx s l) in Hin by done.
  apply (Hall b Hin). by apply Z.eqb_eq.
Qed.
