(* ===== verification/Log.v ===== *)
(** * The write-ahead log (kernel/log.c)

    Written against the interface of the buffer cache ([BufCache]).  The state
    is the cache's and one struct log per disk.  The header block holds [n] and
    [block[]] as little-endian 32-bit integers. *)

From S2P Require Import Prelude Memory Riscv Spinlock Core BufCache.

Record log_st := LogSt {
  lg_lock : spinlock;
  lg_start : Z;
  lg_size : Z;
  lg_outstanding : Z;     (* how many FS sys calls are executing *)
  lg_committing : Z;      (* in commit(), please wait *)
  lg_dev : Z;
  lh_n : Z;               (* struct logheader lh *)
  lh_block : list Z;
}.

Definition log0 : log_st := LogSt (initlock "") 0 0 0 0 0 0 (replicate (Z.to_nat LOGSIZE) 0).
#[global] Instance log_inhabited : Inhabited log_st := populate log0.

Definition set_lglock v l := LogSt v (lg_start l) (lg_size l) (lg_outstanding l) (lg_committing l) (lg_dev l) (lh_n l) (lh_block l).
Definition set_lggeom start size dev l := LogSt (lg_lock l) start size (lg_outstanding l) (lg_committing l) dev (lh_n l) (lh_block l).
Definition set_outstanding v l := LogSt (lg_lock l) (lg_start l) (lg_size l) v (lg_committing l) (lg_dev l) (lh_n l) (lh_block l).
Definition set_committing v l := LogSt (lg_lock l) (lg_start l) (lg_size l) (lg_outstanding l) v (lg_dev l) (lh_n l) (lh_block l).
Definition set_lhn v l := LogSt (lg_lock l) (lg_start l) (lg_size l) (lg_outstanding l) (lg_committing l) (lg_dev l) v (lh_block l).
Definition set_lhblock v l := LogSt (lg_lock l) (lg_start l) (lg_size l) (lg_outstanding l) (lg_committing l) (lg_dev l) (lh_n l) v.

(** The header block. *)
Definition hdr_n (data : list Z) : Z := i32 (le_dec (slice 0 4 data)).
Definition hdr_block (data : list Z) (i : Z) : Z := i32 (le_dec (slice (Z.to_nat (4 + 4 * i)) 4 data)).
Definition hdr_set_n (n : Z) (data : list Z) : list Z := splice 0 (le_enc 4 n) data.
Definition hdr_set_block (i b : Z) (data : list Z) : list Z :=
  splice (Z.to_nat (4 + 4 * i)) (le_enc 4 b) data.

Section Log.
Context {S : Type} `{BufCache S}.
Abbreviation LM := (M (kern * (S * list log_st))).

(** The buffer cache inside the state. *)
Definition cache_of : lens (kern * (S * list log_st)) (kern * S) :=
  Lens (λ x, (x.1, x.2.1)) (λ y x, (y.1, (y.2, x.2.2))).

Definition the_log (dev : Z) : LM log_st := gets (λ x, aget x.2.2 dev).
Definition upd_log (dev : Z) (f : log_st → log_st) : LM unit :=
  modify (λ x, (x.1, (x.2.1, aset x.2.2 dev (f (aget x.2.2 dev))))).

(** [&log[dev].lock] *)
Definition log_lock (dev : Z) : lens (S * list log_st) spinlock :=
  Lens (λ s, lg_lock (aget s.2 dev)) (λ t s, (s.1, aset s.2 dev (set_lglock t (aget s.2 dev)))).

(** Access to the data of a buffer. *)
Definition get_data (b : Z) : LM (list Z) := gets (λ x, bdata b x.2.1).
Definition put_data (b : Z) (v : list Z) : LM unit := modify (λ x, (x.1, (bset b v x.2.1, x.2.2))).

(** [log[dev].lh.block[i]]: reading or writing outside the array is undefined. *)
Definition get_lhblock (dev i : Z) : LM Z :=
  l ← the_log dev;
  if (0 <=? i) && (i <? LOGSIZE) then mret (aget (lh_block l) i)
  else stop (Undefined "log.lh.block").
Definition put_lhblock (dev i b : Z) : LM unit :=
  if (0 <=? i) && (i <? LOGSIZE)
  then upd_log dev (λ l, set_lhblock (aset (lh_block l) i b) l)
  else stop (Undefined "log.lh.block").

Definition install_trans (dev : Z) : LM unit :=
  l ← the_log dev;
  for_range (Z.to_nat (lh_n l)) 0 (λ tail,
    lbuf ← zoom cache_of (bread dev (lg_start l + tail + 1));   (* read log block *)
    n ← get_lhblock dev tail;
    dbuf ← zoom cache_of (bread dev (u32 n));                         (* read dst *)
    v ← get_data lbuf;
    put_data dbuf v;;                                           (* copy block to dst *)
    zoom cache_of (bwrite dbuf);;                               (* write dst to disk *)
    zoom cache_of (bunpin dbuf);;
    zoom cache_of (brelse lbuf);;
    zoom cache_of (brelse dbuf)).

Definition read_head (dev : Z) : LM unit :=
  l ← the_log dev;
  buf ← zoom cache_of (bread dev (lg_start l));
  lh ← get_data buf;
  upd_log dev (set_lhn (hdr_n lh));;
  for_range (Z.to_nat (hdr_n lh)) 0 (λ i, put_lhblock dev i (hdr_block lh i));;
  zoom cache_of (brelse buf).

Definition write_head (dev : Z) : LM unit :=
  l ← the_log dev;
  buf ← zoom cache_of (bread dev (lg_start l));
  hb ← get_data buf;
  put_data buf (hdr_set_n (lh_n l) hb);;
  for_range (Z.to_nat (lh_n l)) 0 (λ i,
    n ← get_lhblock dev i;
    hb ← get_data buf;
    put_data buf (hdr_set_block i n hb));;
  zoom cache_of (bwrite buf);;
  zoom cache_of (brelse buf).

Definition recover_from_log (dev : Z) : LM unit :=
  read_head dev;;
  install_trans dev;;              (* if committed, copy from log to disk *)
  upd_log dev (set_lhn 0);;
  write_head dev.                  (* clear the log *)

(** [initlog(dev, sb)]: [logstart] and [nlog] are the fields of [sb]. *)
Definition initlog (dev logstart nlog : Z) : LM unit :=
  if BSIZE <=? 4 + 4 * LOGSIZE then panic "initlog: too big logheader"%string else
  upd_log dev (set_lglock (initlock "log"));;
  upd_log dev (set_lggeom logstart nlog dev);;
  recover_from_log dev.

Definition begin_op (dev : Z) : LM unit :=
  acquire (slock (log_lock dev));;
  loop 1 (λ _,
    l ← the_log dev;
    if negb (lg_committing l =? 0) then sleep ChLog (slock (log_lock dev));; mret (inl tt)
    else if LOGSIZE <? lh_n l + (lg_outstanding l + 1) * MAXOPBLOCKS then
      (* this op might exhaust log space; wait for commit. *)
      sleep ChLog (slock (log_lock dev));; mret (inl tt)
    else
      upd_log dev (λ l, set_outstanding (lg_outstanding l + 1) l);;
      release (slock (log_lock dev));;
      mret (inr tt)) tt.

(** Copy modified blocks from cache to log. *)
Definition write_log (dev : Z) : LM unit :=
  l ← the_log dev;
  for_range (Z.to_nat (lh_n l)) 0 (λ tail,
    to ← zoom cache_of (bread dev (lg_start l + tail + 1));     (* log block *)
    n ← get_lhblock dev tail;
    from ← zoom cache_of (bread dev (u32 n));                         (* cache block *)
    v ← get_data from;
    put_data to v;;
    zoom cache_of (bwrite to);;                                 (* write the log *)
    zoom cache_of (brelse from);;
    zoom cache_of (brelse to)).

Definition commit (dev : Z) : LM unit :=
  l ← the_log dev;
  when (0 <? lh_n l) (
    write_log dev;;                (* Write modified blocks from cache to log *)
    write_head dev;;               (* Write header to disk -- the real commit *)
    install_trans dev;;            (* Now install writes to home locations *)
    upd_log dev (set_lhn 0);;
    write_head dev).               (* Erase the transaction from the log *)

Definition end_op (dev : Z) : LM unit :=
  acquire (slock (log_lock dev));;
  upd_log dev (λ l, set_outstanding (lg_outstanding l - 1) l);;
  l ← the_log dev;
  if negb (lg_committing l =? 0) then panic "log[dev].committing"%string else
  let do_commit := lg_outstanding l =? 0 in
  (if do_commit then upd_log dev (set_committing 1) else wakeup ChLog);;
  release (slock (log_lock dev));;
  when do_commit (
    commit dev;;
    acquire (slock (log_lock dev));;
    upd_log dev (set_committing 0);;
    wakeup ChLog;;
    release (slock (log_lock dev))).

(** The first index below [n] with [block[i] == b], or [n]. *)
Definition find_block (dev n b : Z) : LM Z :=
  loop (Z.to_nat n + 1) (λ i,
    if n <=? i then mret (inr i) else
    c ← get_lhblock dev i;
    if u32 c =? b then mret (inr i) else mret (inl (i + 1))) 0.

Definition log_write (b : Z) : LM unit :=
  '(dev, blockno) ← gets (λ x, bkey b x.2.1);
  l ← the_log dev;
  if (LOGSIZE <=? lh_n l) || (lg_size l - 1 <=? lh_n l) then panic "too big a transaction"%string else
  if lg_outstanding l <? 1 then panic "log_write outside of trans"%string else
  acquire (slock (log_lock dev));;
  l ← the_log dev;
  i ← find_block dev (lh_n l) blockno;                          (* log absorbtion *)
  put_lhblock dev i (i32 blockno);;
  when (i =? lh_n l) (                                          (* Add new block to log? *)
    zoom cache_of (bpin b);;
    upd_log dev (λ l, set_lhn (lh_n l + 1) l));;
  release (slock (log_lock dev)).
End Log.
