(* ===== verification/Crash.v ===== *)
(** * Crashes and recovery of the log, on disk contents

    The disk writes of a transaction in order, what recovery makes of the disk
    after any prefix of them, and that the result is all of the transaction or
    nothing of it.  A block write is atomic: a crash loses a suffix of the
    sequence of writes and nothing else. *)

From S2P Require Import Prelude Memory Riscv BufCache Log.

Abbreviation contents := (block → list Z).

(** ** Sequences of block writes *)

Definition apply_writes (ws : list dwrite) (D : contents) : contents :=
  foldl (λ D w, kset D w.1 w.2) D ws.

Lemma apply_writes_cons w ws D : apply_writes (w :: ws) D = apply_writes ws (kset D w.1 w.2).
Proof. done. Qed.

Lemma apply_writes_one κ v D : apply_writes [(κ, v)] D = kset D κ v.
Proof. done. Qed.

Lemma apply_writes_app ws ws' D : apply_writes (ws ++ ws') D = apply_writes ws' (apply_writes ws D).
Proof. apply foldl_app. Qed.

Lemma apply_writes_snoc ws κ v D : apply_writes (ws ++ [(κ, v)]) D = kset (apply_writes ws D) κ v.
Proof. by rewrite apply_writes_app. Qed.

Lemma apply_writes_out ws D κ : κ ∉ ws.*1 → apply_writes ws D κ = D κ.
Proof.
  revert D. induction ws as [|w ws IH]; intros D Hn; [done|]. rewrite apply_writes_cons.
  rewrite fmap_cons, not_elem_of_cons in Hn. rewrite IH by tauto. apply kset_ne; tauto.
Qed.

Lemma apply_writes_in ws D t κ v : NoDup ws.*1 → ws !! t = Some (κ, v) → apply_writes ws D κ = v.
Proof.
  revert D t. induction ws as [|w ws IH]; intros D t Hnd Ht; [done|]. rewrite apply_writes_cons.
  rewrite fmap_cons in Hnd. apply NoDup_cons in Hnd as [Hn Hnd]. destruct t as [|t]; [|by eapply IH]. injection Ht as ->.
  rewrite apply_writes_out by done. apply kset_eq.
Qed.

Lemma apply_writes_ext ws D D' κ : (∀ κ, D κ = D' κ) → apply_writes ws D κ = apply_writes ws D' κ.
Proof.
  revert D D'. induction ws as [|w ws IH]; intros D D' HD; [apply HD|]. rewrite !apply_writes_cons. apply IH.
  intros κ'. unfold kset. by case_decide.
Qed.

(** A prefix of the writes has nothing to say about blocks not written. *)
Lemma apply_take_out k ws D κ : κ ∉ ws.*1 → apply_writes (take k ws) D κ = D κ.
Proof.
  intros Hn. apply apply_writes_out. intros Hin. apply Hn.
  rewrite fmap_take in Hin. by eapply elem_of_take in Hin as (? & ?%list_elem_of_lookup_2 & _).
Qed.

(** ** The header block *)

Fixpoint hdr_fill (i : Z) (bs : list Z) (d : list Z) : list Z :=
  match bs with [] => d | b :: bs' => hdr_fill (i + 1) bs' (hdr_set_block i b d) end.

Lemma hdr_fill_snoc i bs b d : hdr_fill i (bs ++ [b]) d = hdr_set_block (i + Z.of_nat (length bs)) b (hdr_fill i bs d).
Proof.
  revert i d. induction bs as [|b' bs IH]; intros i d; cbn [app hdr_fill length].
  - by rewrite Z.add_0_r.
  - rewrite IH. f_equal. lia.
Qed.

(** The block [write_head] writes over [d]. *)
Definition hdr_of (bs : list Z) (d : list Z) : list Z :=
  hdr_fill 0 bs (hdr_set_n (Z.of_nat (length bs)) d).

(** The block numbers [read_head] reads. *)
Definition hdr_list (d : list Z) : list Z := hdr_block d <$> seqZ 0 (hdr_n d).

Definition hdr_fits (n : nat) (d : list Z) : Prop := (4 + 4 * n ≤ length d)%nat.

Lemma length_hdr_set_n n d : hdr_fits 0 d → length (hdr_set_n n d) = length d.
Proof. intros Hf. unfold hdr_fits in Hf. unfold hdr_set_n. rewrite length_splice; [done|]. rewrite length_le_enc. lia. Qed.

Lemma length_hdr_set_block i b d :
  0 ≤ i → hdr_fits (Z.to_nat i + 1) d → length (hdr_set_block i b d) = length d.
Proof.
  intros Hi Hf. unfold hdr_fits in Hf. unfold hdr_set_block. rewrite length_splice; [done|].
  rewrite length_le_enc. lia.
Qed.

Lemma length_hdr_fill i bs d :
  0 ≤ i → hdr_fits (Z.to_nat i + length bs) d → length (hdr_fill i bs d) = length d.
Proof.
  revert i d. induction bs as [|b bs IH]; intros i d Hi Hf; [done|]. cbn in *. unfold hdr_fits in *.
  assert (length (hdr_set_block i b d) = length d) as E by (apply length_hdr_set_block; [done|unfold hdr_fits; lia]).
  rewrite IH; [done|lia|]. rewrite E. lia.
Qed.

Lemma length_hdr_of bs d : hdr_fits (length bs) d → length (hdr_of bs d) = length d.
Proof.
  intros Hf. unfold hdr_fits in *. unfold hdr_of. rewrite length_hdr_fill; [|done|].
  - apply length_hdr_set_n. unfold hdr_fits. lia.
  - unfold hdr_fits. rewrite length_hdr_set_n by (unfold hdr_fits; lia). cbn. lia.
Qed.

Lemma i32_le n : i32 (le_dec (le_enc 4 n)) = i32 n.
Proof.
  rewrite le_dec_enc. unfold i32. change (8 * Z.of_nat 4) with 32. f_equal.
  by rewrite Zplus_mod_idemp_l.
Qed.

Lemma hdr_n_set n d : hdr_fits 0 d → hdr_n (hdr_set_n n d) = i32 n.
Proof.
  intros Hf. unfold hdr_fits in Hf. unfold hdr_n, hdr_set_n. rewrite <- (length_le_enc 4 n) at 1.
  rewrite slice_splice_eq by (rewrite length_le_enc; lia). apply i32_le.
Qed.

Lemma hdr_fill_other i bs d off :
  0 ≤ i → hdr_fits (Z.to_nat i + length bs) d → (off + 4 ≤ Z.to_nat (4 + 4 * i))%nat →
  slice off 4 (hdr_fill i bs d) = slice off 4 d.
Proof.
  revert i d. induction bs as [|b bs IH]; intros i d Hi Hf Ho; [done|]. cbn in *.
  assert (length (hdr_set_block i b d) = length d) as E.
  { apply length_hdr_set_block; [done|]. unfold hdr_fits in *. lia. }
  unfold hdr_fits in *. rewrite IH; [|lia|rewrite E; lia|lia].
  unfold hdr_set_block. rewrite slice_splice_ne; [done|rewrite length_le_enc; lia|rewrite ?length_le_enc; lia].
Qed.

Lemma hdr_block_fill i bs d t b :
  0 ≤ i → hdr_fits (Z.to_nat i + length bs) d → bs !! t = Some b →
  hdr_block (hdr_fill i bs d) (i + Z.of_nat t) = i32 b.
Proof.
  revert i d t. induction bs as [|b' bs IH]; intros i d t Hi Hf Ht; [done|]. cbn in *.
  assert (length (hdr_set_block i b' d) = length d) as E.
  { apply length_hdr_set_block; [done|]. unfold hdr_fits in *. lia. }
  unfold hdr_fits in *. destruct t as [|t].
  - injection Ht as ->. unfold hdr_block. rewrite hdr_fill_other; [|lia|unfold hdr_fits; rewrite E; lia|lia].
    unfold hdr_set_block. replace (i + Z.of_nat 0) with i by lia. rewrite <- (length_le_enc 4 b) at 1.
    rewrite slice_splice_eq by (rewrite length_le_enc; lia). apply i32_le.
  - replace (i + Z.of_nat (S t)) with ((i + 1) + Z.of_nat t) by lia. apply IH; [lia|rewrite E; lia|done].
Qed.

(** A 32-bit signed value. *)
Definition is_i32 (b : Z) : Prop := - 2 ^ 31 ≤ b < 2 ^ 31.

Lemma hdr_n_of bs d : hdr_fits (length bs) d → Z.of_nat (length bs) < 2 ^ 31 →
  hdr_n (hdr_of bs d) = Z.of_nat (length bs).
Proof.
  intros Hf Hn. unfold hdr_of, hdr_n. unfold hdr_fits in Hf. rewrite hdr_fill_other; [|done| |done].
  - fold (hdr_n (hdr_set_n (Z.of_nat (length bs)) d)). rewrite hdr_n_set by (unfold hdr_fits; lia).
    apply i32_small. lia.
  - unfold hdr_fits. rewrite length_hdr_set_n by (unfold hdr_fits; lia). cbn. lia.
Qed.

(** What [write_head] writes, [read_head] reads. *)
Lemma hdr_list_of bs d :
  hdr_fits (length bs) d → Z.of_nat (length bs) < 2 ^ 31 → Forall is_i32 bs → hdr_list (hdr_of bs d) = bs.
Proof.
  intros Hf Hn Hb. unfold hdr_list. rewrite hdr_n_of by done. apply list_eq. intros t.
  rewrite list_lookup_fmap. destruct (bs !! t) as [b|] eqn:Ht.
  - pose proof (lookup_lt_Some _ _ _ Ht). rewrite lookup_seqZ_lt by lia. cbn. f_equal.
    unfold hdr_of. rewrite (hdr_block_fill 0 bs _ t b); [|done| |done].
    + apply i32_small. by eapply Forall_lookup_1 in Hb.
    + unfold hdr_fits in *. rewrite length_hdr_set_n by (unfold hdr_fits; lia). cbn. lia.
  - apply lookup_ge_None in Ht. by rewrite lookup_seqZ_ge by lia.
Qed.

(** ** Transactions *)

Section Transaction.
Context (dev start size : Z).

Definition hdr_blk : block := (dev, start).
Definition log_blk (t : nat) : block := (dev, start + Z.of_nat t + 1).
Definition home (b : Z) : block := (dev, u32 b).
Definition in_log (κ : block) : Prop := κ.1 = dev ∧ start ≤ κ.2 < start + size.

(** The writes of [write_log] and of [install_trans], from contents [C]. *)
Definition log_writes (bs : list Z) (C : contents) : list dwrite :=
  imap (λ t b, (log_blk t, C (home b))) bs.
Definition install_writes (bs : list Z) (C : contents) : list dwrite :=
  imap (λ t b, (home b, C (log_blk t))) bs.
Definition home_writes (bs : list Z) (C : contents) : list dwrite :=
  (λ b, (home b, C (home b))) <$> bs.

(** The writes of [commit] when the cache holds [C] and the disk [D]. *)
Definition commit_writes (bs : list Z) (C D : contents) : list dwrite :=
  log_writes bs C ++ [(hdr_blk, hdr_of bs (D hdr_blk))] ++ home_writes bs C ++
  [(hdr_blk, hdr_of [] (hdr_of bs (D hdr_blk)))].

(** The writes of [recover_from_log] on disk [D], and the disk they leave. *)
Definition recovery_writes (D : contents) : list dwrite :=
  install_writes (hdr_list (D hdr_blk)) D ++ [(hdr_blk, hdr_of [] (D hdr_blk))].
Definition recover (D : contents) : contents := apply_writes (recovery_writes D) D.

(** A list of blocks that fits in the log. *)
Record logged (bs : list Z) : Prop := {
  lo_nodup : NoDup (home <$> bs);
  lo_i32 : Forall is_i32 bs;
  lo_out : ∀ b, b ∈ bs → ¬ in_log (home b);
  lo_nz : ∀ b, b ∈ bs → home b ≠ (0, 0);
  lo_size : Z.of_nat (length bs) ≤ size - 1;
  lo_max : Z.of_nat (length bs) ≤ LOGSIZE;
}.

(** [D] and [D'] agree on the blocks of the file system. *)
Definition same_home (D D' : contents) : Prop := ∀ κ, ¬ in_log κ → D κ = D' κ.

Lemma keys_log bs C : (log_writes bs C).*1 = imap (λ t _, log_blk t) bs.
Proof. unfold log_writes. by rewrite fmap_imap. Qed.
Lemma keys_install bs C : (install_writes bs C).*1 = home <$> bs.
Proof.
  unfold install_writes. rewrite fmap_imap. apply list_eq. intros t.
  rewrite list_lookup_imap, list_lookup_fmap. done.
Qed.
Lemma keys_home bs C : (home_writes bs C).*1 = home <$> bs.
Proof. unfold home_writes. by rewrite <- list_fmap_compose. Qed.

Section Facts.
Context (bs : list Z) (Hbs : logged bs).

Lemma in_log_hdr : in_log hdr_blk ↔ 0 < size.
Proof. unfold in_log, hdr_blk. cbn. lia. Qed.

Lemma log_blk_in t : (t < length bs)%nat → in_log (log_blk t) ∧ log_blk t ≠ hdr_blk.
Proof using Hbs.
  intros Ht. pose proof (lo_size _ Hbs). unfold in_log, log_blk, hdr_blk. cbn.
  split; [lia|]. intros E. injection E as E. lia.
Qed.

Lemma log_keys_in κ : κ ∈ imap (λ t (_ : Z), log_blk t) bs → in_log κ ∧ κ ≠ hdr_blk.
Proof using Hbs.
  intros (t & b & -> & Ht)%elem_of_lookup_imap. apply log_blk_in. by eapply lookup_lt_Some.
Qed.

Lemma log_keys_nodup : NoDup (imap (λ t (_ : Z), log_blk t) bs).
Proof.
  apply NoDup_alt. intros t t' κ Ht Ht'. rewrite list_lookup_imap in Ht, Ht'.
  destruct (bs !! t); [|done]. destruct (bs !! t'); [|done]. cbn in *. simplify_eq.
  unfold log_blk in *. simplify_eq. lia.
Qed.

Lemma home_keys_out κ : κ ∈ home <$> bs → ¬ in_log κ.
Proof using Hbs. intros (b & -> & Hb)%list_elem_of_fmap. by apply (lo_out _ Hbs). Qed.

Lemma bs_fits (d : list Z) : length d = Z.to_nat BSIZE → hdr_fits (length bs) d.
Proof using Hbs. intros Hlen. pose proof (lo_max _ Hbs). unfold hdr_fits. rewrite Hlen. unfold LOGSIZE, MAXOPBLOCKS, BSIZE in *. lia. Qed.

Lemma bs_small : Z.of_nat (length bs) < 2 ^ 31.
Proof using Hbs. pose proof (lo_max _ Hbs). unfold LOGSIZE, MAXOPBLOCKS in *. lia. Qed.

(** Recovery of a log whose header says 0. *)
Lemma recover_idle D κ : hdr_n (D hdr_blk) = 0 → κ ≠ hdr_blk → recover D κ = D κ.
Proof.
  intros Hn Hκ. unfold recover, recovery_writes, hdr_list. rewrite Hn.
  change (hdr_block _ <$> seqZ 0 0) with (@nil Z). by apply kset_ne.
Qed.

(** Recovery of a committed log. *)
Lemma recover_home D t b :
  hdr_list (D hdr_blk) = bs → bs !! t = Some b → recover D (home b) = D (log_blk t).
Proof using Hbs.
  intros Hh Ht. pose proof (lookup_lt_Some _ _ _ Ht) as Hl.
  assert (home b ≠ hdr_blk) as Hne.
  { intros E. apply (lo_out _ Hbs b); [by eapply list_elem_of_lookup_2|]. rewrite E. apply in_log_hdr.
    pose proof (lo_size _ Hbs). lia. }
  unfold recover, recovery_writes. rewrite Hh, apply_writes_snoc, kset_ne by done.
  eapply (apply_writes_in _ _ t); [rewrite keys_install; apply Hbs|].
  unfold install_writes. by rewrite list_lookup_imap, Ht.
Qed.

Lemma recover_other D κ :
  hdr_list (D hdr_blk) = bs → κ ∉ home <$> bs → κ ≠ hdr_blk → recover D κ = D κ.
Proof using Hbs.
  intros Hh Hκ Hne. unfold recover, recovery_writes. rewrite Hh, apply_writes_snoc, kset_ne by done. apply apply_writes_out. by rewrite keys_install.
Qed.

(** If the log holds [C] for the blocks [bs], and the rest of the disk is [D0]'s. *)
Lemma recover_committed D D0 C :
  hdr_list (D hdr_blk) = bs → (∀ t b, bs !! t = Some b → D (log_blk t) = C (home b)) →
  (∀ κ, ¬ in_log κ → κ ∉ home <$> bs → D κ = D0 κ) → (0 < size) →
  same_home (recover D) (apply_writes (home_writes bs C) D0).
Proof using Hbs.
  intros Hh HC Ho Hs κ Hκ. assert (κ ≠ hdr_blk) as Hne by (intros ->; apply Hκ; by apply in_log_hdr).
  destruct (decide (κ ∈ home <$> bs)) as [Hin|Hin].
  - apply list_elem_of_fmap in Hin as (b & -> & (t & Ht)%list_elem_of_lookup).
    rewrite (recover_home D t b), (HC t b) by done. symmetry.
    apply (apply_writes_in _ _ t); [rewrite keys_home; apply Hbs|].
    unfold home_writes. by rewrite list_lookup_fmap, Ht.
  - rewrite recover_other, Ho by done. symmetry. apply apply_writes_out. by rewrite keys_home.
Qed.

Section Commit.
Context (C D : contents) (Hlen : length (D hdr_blk) = Z.to_nat BSIZE) (Hs : 0 < size).
Context (Hidle : hdr_n (D hdr_blk) = 0).

Lemma hdr_not_log : hdr_blk ∉ (log_writes bs C).*1.
Proof using Hbs. rewrite keys_log. intros Hin. by apply log_keys_in in Hin as [_ ?]. Qed.

Lemma hdr_not_home : hdr_blk ∉ home <$> bs.
Proof using Hbs Hs. intros Hin. apply home_keys_out in Hin. by apply Hin, in_log_hdr. Qed.

Lemma log_not_home t : (t < length bs)%nat → log_blk t ∉ home <$> bs.
Proof using Hbs. intros Ht Hin. apply home_keys_out in Hin. by apply Hin, log_blk_in. Qed.

(** A crash before the header is written loses the transaction. *)
Lemma crash_before j :
  same_home (recover (apply_writes (take j (log_writes bs C)) D)) D.
Proof using Hbs Hs Hidle.
  intros κ Hκ. assert (κ ≠ hdr_blk) by (intros ->; apply Hκ; by apply in_log_hdr).
  rewrite recover_idle; [|by rewrite apply_take_out by apply hdr_not_log|done].
  apply apply_take_out. rewrite keys_log. intros Hin. by apply log_keys_in in Hin as [? _].
Qed.

(** Once it is written the transaction is there. *)
Lemma crash_after j :
  same_home
    (recover (apply_writes (take j (home_writes bs C))
       (kset (apply_writes (log_writes bs C) D) hdr_blk (hdr_of bs (D hdr_blk)))))
    (apply_writes (home_writes bs C) D).
Proof using Hbs Hs Hlen.
  apply recover_committed; [| | |done].
  - rewrite apply_take_out, kset_eq by (rewrite keys_home; apply hdr_not_home).
    apply hdr_list_of; [by apply bs_fits|by apply bs_small|apply Hbs].
  - intros t b Ht. pose proof (lookup_lt_Some _ _ _ Ht) as Hl. destruct (log_blk_in t Hl) as [_ Hne].
    rewrite apply_take_out, kset_ne by (done || rewrite keys_home; by apply log_not_home).
    apply (apply_writes_in _ _ t); [rewrite keys_log; apply log_keys_nodup|].
    unfold log_writes. by rewrite list_lookup_imap, Ht.
  - intros κ Hκ Hin. rewrite apply_take_out by (by rewrite keys_home).
    rewrite kset_ne by (intros ->; apply Hκ; by apply in_log_hdr). apply apply_writes_out.
    rewrite keys_log. intros Hl. by apply log_keys_in in Hl as [? _].
Qed.

(** And stays there when the header is erased. *)
Lemma crash_end :
  same_home (recover (apply_writes (commit_writes bs C D) D)) (apply_writes (home_writes bs C) D).
Proof using Hbs Hs Hlen.
  intros κ Hκ. assert (κ ≠ hdr_blk) as Hne by (intros ->; apply Hκ; by apply in_log_hdr).
  assert (hdr_fits 0 (hdr_of bs (D hdr_blk))) as Hf.
  { pose proof (bs_fits _ Hlen). unfold hdr_fits in *. rewrite length_hdr_of by done. lia. }
  unfold commit_writes. rewrite !app_assoc, apply_writes_snoc.
  rewrite recover_idle; [|rewrite kset_eq; by apply (hdr_n_of [])|done]. rewrite kset_ne by done.
  rewrite apply_writes_app, apply_writes_snoc. destruct (decide (κ ∈ home <$> bs)) as [Hin|Hin].
  - apply list_elem_of_fmap in Hin as (b & -> & (t & Ht)%list_elem_of_lookup).
    assert (home_writes bs C !! t = Some (home b, C (home b))) as Hw.
    { unfold home_writes. by rewrite list_lookup_fmap, Ht. }
    rewrite !(apply_writes_in _ _ t _ _ ltac:(rewrite keys_home; apply Hbs) Hw). done.
  - rewrite !(apply_writes_out (home_writes bs C)) by (by rewrite keys_home). rewrite kset_ne by done.
    apply apply_writes_out. rewrite keys_log. intros Hl. by apply log_keys_in in Hl as [? _].
Qed.

(** After a crash at any point of [commit], recovery gives the old file system
    or the new one. *)
Lemma crash_atomic j :
  same_home (recover (apply_writes (take j (commit_writes bs C D)) D))
    (if decide (j ≤ length bs)%nat then D else apply_writes (home_writes bs C) D).
Proof using Hbs Hs Hlen Hidle.
  assert (length (log_writes bs C) = length bs) as L1 by apply length_imap.
  assert (length (home_writes bs C) = length bs) as L3 by apply length_fmap.
  unfold commit_writes. case_decide as Hj.
  { rewrite take_app_le by lia. apply crash_before. }
  rewrite take_app_ge by lia. rewrite L1. destruct (j - length bs)%nat as [|j'] eqn:Ej; [lia|].
  rewrite take_app_ge by (cbn; lia). cbn [length]. replace (S j' - 1)%nat with j' by lia.
  destruct (decide (j' ≤ length bs)%nat) as [Hj'|Hj'].
  - rewrite take_app_le by lia. rewrite app_assoc, apply_writes_app, apply_writes_snoc. apply crash_after.
  - rewrite take_ge by (rewrite length_app; cbn; lia). apply crash_end.
Qed.
End Commit.
End Facts.

(** ** Crashes during recovery *)

(** A disk whose log can be recovered. *)
Definition log_wf (D : contents) : Prop :=
  length (D hdr_blk) = Z.to_nat BSIZE ∧ 0 ≤ hdr_n (D hdr_blk) ∧ logged (hdr_list (D hdr_blk)).

Lemma logged_nil : 0 < size → logged [].
Proof. intros. split; [constructor|constructor|by intros b ?%not_elem_of_nil|by intros b ?%not_elem_of_nil|cbn; lia|done]. Qed.

Lemma hdr_erased d : length d = Z.to_nat BSIZE → hdr_n (hdr_of [] d) = 0 ∧ length (hdr_of [] d) = Z.to_nat BSIZE.
Proof.
  intros Hd. assert (hdr_fits 0 d) by (unfold hdr_fits; rewrite Hd; unfold BSIZE; lia).
  split; [by apply (hdr_n_of [])|by rewrite length_hdr_of].
Qed.

Lemma hdr_list_0 d : hdr_n d = 0 → hdr_list d = [].
Proof. intros Hn. unfold hdr_list. by rewrite Hn. Qed.

(** The header after a crash in [commit]. *)
Lemma crash_hdr bs C D j :
  0 < size → logged bs →
  let d := D hdr_blk in
  let d' := apply_writes (take j (commit_writes bs C D)) D hdr_blk in
  d' = d ∨ d' = hdr_of bs d ∨ d' = hdr_of [] (hdr_of bs d).
Proof.
  intros Hs Hbs d d'. unfold d', commit_writes.
  rewrite take_app, apply_writes_app. set (D1 := apply_writes (take j (log_writes bs C)) D).
  assert (D1 hdr_blk = d) as E1 by (apply apply_take_out; by apply hdr_not_log).
  destruct (j - length (log_writes bs C))%nat as [|j1]; [by left|]. right.
  cbn [app take]. rewrite apply_writes_cons. cbn [fst snd]. rewrite take_app, apply_writes_app.
  set (D2 := apply_writes (take j1 _) _).
  assert (D2 hdr_blk = hdr_of bs d) as E2.
  { unfold D2. rewrite apply_take_out by (rewrite keys_home; by apply hdr_not_home). apply kset_eq. }
  destruct (j1 - length (home_writes bs C))%nat as [|j2]; [by left|]. right.
  destruct j2; apply kset_eq.
Qed.

Lemma crash_wf bs C D j :
  0 < size → logged bs → length (D hdr_blk) = Z.to_nat BSIZE → hdr_n (D hdr_blk) = 0 →
  log_wf (apply_writes (take j (commit_writes bs C D)) D).
Proof.
  intros Hs Hbs Hlen Hn. set (d := D hdr_blk) in *.
  assert (length (hdr_of bs d) = Z.to_nat BSIZE) as Hl1 by (rewrite length_hdr_of; [done|by apply bs_fits]).
  destruct (hdr_erased _ Hl1) as [Hn2 Hl2]. unfold log_wf.
  destruct (crash_hdr bs C D j Hs Hbs) as [->|[->| ->]]; fold d.
  - split; [done|]. split; [lia|]. rewrite hdr_list_0 by done. by apply logged_nil.
  - split; [done|]. pose proof (bs_fits bs Hbs d Hlen) as Hf. pose proof (bs_small bs Hbs).
    rewrite hdr_n_of, hdr_list_of; [|done|done|apply Hbs|done|done]. split; [lia|done].
  - split; [done|]. split; [lia|]. rewrite hdr_list_0 by done. by apply logged_nil.
Qed.

Section Again.
Context (D : contents) (Hwf : log_wf D) (Hs : 0 < size).
Let bs : list Z := hdr_list (D hdr_blk).

Lemma recover_hdr : recover D hdr_blk = hdr_of [] (D hdr_blk).
Proof. unfold recover, recovery_writes. by rewrite apply_writes_snoc, kset_eq. Qed.

(** A crash in the middle of recovery. *)
Lemma recover_again j :
  let D' := apply_writes (take j (recovery_writes D)) D in
  log_wf D' ∧ same_home (recover D') (recover D).
Proof using Hwf Hs.
  destruct Hwf as (Hlen & Hn0 & Hbs). fold bs in Hbs. intros D'.
  assert (length (install_writes bs D) = length bs) as L by apply length_imap.
  destruct (decide (j ≤ length bs)%nat) as [Hj|Hj].
  - assert (D' = apply_writes (take j (install_writes bs D)) D) as E.
    { unfold D', recovery_writes. fold bs. by rewrite take_app_le by lia. }
    assert (∀ κ, κ ∉ home <$> bs → D' κ = D κ) as Ho.
    { intros κ Hκ. rewrite E. apply apply_take_out. by rewrite keys_install. }
    assert (D' hdr_blk = D hdr_blk) as Eh by (apply Ho; by apply (hdr_not_home bs)).
    split; [unfold log_wf; by rewrite Eh|]. intros κ Hκ.
    assert (κ ≠ hdr_blk) by (intros ->; apply Hκ; by apply in_log_hdr).
    destruct (decide (κ ∈ home <$> bs)) as [Hin|Hin].
    + apply list_elem_of_fmap in Hin as (b & -> & (t & Ht)%list_elem_of_lookup).
      rewrite (recover_home bs Hbs D' t b), (recover_home bs Hbs D t b) by (done || by rewrite Eh).
      apply Ho. apply (log_not_home bs Hbs). by eapply lookup_lt_Some.
    + rewrite !(recover_other bs Hbs) by (done || by rewrite Eh). by apply Ho.
  - assert (D' = recover D) as ->.
    { unfold D', recover. rewrite take_ge; [done|]. unfold recovery_writes. fold bs.
      rewrite length_app. cbn. lia. }
    destruct (hdr_erased _ Hlen) as [Hn Hl]. rewrite <- recover_hdr in Hn, Hl.
    split; [split; [done|]; split; [lia|]; rewrite hdr_list_0 by done; by apply logged_nil|].
    intros κ Hκ. apply recover_idle; [done|]. intros ->. apply Hκ. by apply in_log_hdr.
Qed.
End Again.

(** Any number of crashes, each during the recovery from the one before. *)
Inductive crashes : contents → contents → Prop :=
| crashes_none D : crashes D D
| crashes_again D j D' : crashes (apply_writes (take j (recovery_writes D)) D) D' → crashes D D'.

Lemma recover_crashes D D' :
  0 < size → log_wf D → crashes D D' → log_wf D' ∧ same_home (recover D') (recover D).
Proof.
  intros Hs Hwf Hc. induction Hc as [D|D j D' Hc IH]; [done|].
  destruct (recover_again D Hwf Hs j) as [Hwf' Hr]. destruct (IH Hwf') as [Hw Hr'].
  split; [done|]. intros κ Hκ. by rewrite Hr', Hr.
Qed.
End Transaction.
