(* ===== verification/LogProof.v ===== *)
(** * The log: proofs

    The operations of log.c against the interface of the buffer cache: the
    disk writes of [commit] and of [recover_from_log] are those of [Crash], so
    a crash at any point leaves all of a transaction or nothing of it. *)

From S2P Require Import Prelude Memory Riscv Spinlock Core BufCache Log Crash.

(** The blocks written, in the cache and on the disk. *)
Definition ca_writes (ws : list dwrite) (A : cache) : cache :=
  Cache (ca_ref A) (ca_used A) (ca_held A) (apply_writes ws (ca_data A)) (apply_writes ws (ca_disk A))
    (reverse ws ++ ca_trace A).

(** References dropped, in order. *)
Definition ca_drops (ks : list block) (A : cache) : cache := foldl (λ A κ, ca_drop κ A) A ks.

(** No buffer is locked. *)
Definition ca_idle (A : cache) : Prop := ∀ h, ca_held A h = None.

Lemma ca_writes_nil A : ca_eq A (ca_writes [] A).
Proof. done. Qed.

Lemma ca_writes_snoc ws w A : ca_eq (ca_writes [w] (ca_writes ws A)) (ca_writes (ws ++ [w]) A).
Proof.
  split; try done; intros; cbn; rewrite ?apply_writes_app, ?reverse_snoc; done.
Qed.

Lemma ca_drops_snoc ks κ A : ca_drops (ks ++ [κ]) A = ca_drop κ (ca_drops ks A).
Proof. unfold ca_drops. by rewrite foldl_app. Qed.

(** Dropping references changes the reference counts only. *)
Lemma ca_drops_rest ks A :
  ca_held (ca_drops ks A) = ca_held A ∧ ca_data (ca_drops ks A) = ca_data A ∧
  ca_disk (ca_drops ks A) = ca_disk A ∧ ca_trace (ca_drops ks A) = ca_trace A.
Proof. induction ks as [|κ ks IH] using rev_ind; [done|]. by rewrite ca_drops_snoc. Qed.
Lemma ca_drops_held ks A : ca_held (ca_drops ks A) = ca_held A.
Proof. apply ca_drops_rest. Qed.
Lemma ca_drops_data ks A : ca_data (ca_drops ks A) = ca_data A.
Proof. apply ca_drops_rest. Qed.

Lemma ca_drops_out ks A κ : κ ∉ ks → ca_ref (ca_drops ks A) κ = ca_ref A κ.
Proof.
  induction ks as [|κ' ks IH] using rev_ind; intros Hn; [done|]. rewrite ca_drops_snoc.
  rewrite elem_of_app, list_elem_of_singleton in Hn. cbn. rewrite kset_ne by tauto. apply IH. tauto.
Qed.

Lemma ca_drops_in ks A κ : NoDup ks → κ ∈ ks → ca_ref (ca_drops ks A) κ = u32 (ca_ref A κ - 1).
Proof.
  induction ks as [|κ' ks IH] using rev_ind; intros Hnd Hin; [by apply not_elem_of_nil in Hin|].
  rewrite ca_drops_snoc. apply NoDup_app in Hnd as (Hnd & Hd & _).
  apply elem_of_app in Hin as [Hin|Hin%list_elem_of_singleton]; cbn.
  - rewrite kset_ne by (intros ->; apply (Hd _ Hin); by left). by apply IH.
  - subst κ'. rewrite kset_eq, ca_drops_out; [done|]. intros Hin. apply (Hd _ Hin). by left.
Qed.

Lemma take_nodup {T} (l : list T) t a : NoDup l → l !! t = Some a → a ∉ take t l.
Proof.
  intros Hnd Ht Hin. apply elem_of_take in Hin as (t' & Ht' & Hlt).
  pose proof (NoDup_lookup _ _ _ _ Hnd Ht Ht'). lia.
Qed.

Lemma list_elem_of_take {T} (l : list T) t a : a ∈ take t l → a ∈ l.
Proof. intros (t' & Ht' & _)%elem_of_take. by eapply list_elem_of_lookup_2. Qed.

Lemma ca_writes_app ws ws' A : ca_eq (ca_writes ws' (ca_writes ws A)) (ca_writes (ws ++ ws') A).
Proof. split; try done; intros; cbn; by rewrite ?apply_writes_app, ?reverse_app, ?(assoc_L (++)). Qed.

Lemma ca_drops_writes ks ws A : ca_drops ks (ca_writes ws A) = ca_writes ws (ca_drops ks A).
Proof. induction ks as [|κ ks IH] using rev_ind; [done|]. by rewrite !ca_drops_snoc, IH. Qed.

#[global] Instance ca_writes_proper ws : Proper (ca_eq ==> ca_eq) (ca_writes ws).
Proof.
  intros A A' [E1 E2 E3 E4 E5 E6]. split; cbn; auto; [| |by rewrite E6]; intros κ; by apply apply_writes_ext.
Qed.

Lemma nz_le r : (nz r ≤ 1)%nat.
Proof. unfold nz. case_match; lia. Qed.

Lemma u32_down_up r : 0 ≤ r < 2 ^ 32 → u32 (u32 (r + 1) - 1) = r.
Proof. intros. unfold u32. rewrite Zminus_mod_idemp_l. replace (r + 1 - 1) with r by lia. apply Z.mod_small. lia. Qed.

Lemma hset_eq f h v : hset f h v h = v.
Proof. unfold hset. by rewrite Z.eqb_refl. Qed.
Lemma hset_ne f h v h' : h' ≠ h → hset f h v h' = f h'.
Proof. intros Hne. unfold hset. by rewrite (proj2 (Z.eqb_neq h' h)). Qed.

(** Compute in a cache with known, distinct blocks and buffers. *)
Ltac ca_simpl :=
  cbn [ca_writes ca_bread ca_brelse ca_pin ca_drop ca_reref ca_lock ca_set ca_write
       ca_ref ca_used ca_held ca_data ca_disk ca_trace];
  repeat (rewrite kset_eq || rewrite hset_eq || (rewrite kset_ne by done) || (rewrite hset_ne by done)).

(** Unpinning blocks with references frees buffers at most. *)
Lemma used_drops_pinned ks A :
  NoDup ks → (∀ κ, κ ∈ ks → ca_ref A κ ≠ 0) → (ca_used (ca_drops ks A) ≤ ca_used A)%nat.
Proof.
  induction ks as [|κ ks IH] using rev_ind; intros Hnd Hr; [done|]. rewrite ca_drops_snoc.
  apply NoDup_app in Hnd as (Hnd & Hd & _). specialize (IH Hnd ltac:(intros; apply Hr, elem_of_app; by left)).
  cbn -[nz]. rewrite (ca_drops_out ks) by (intros Hin; apply (Hd _ Hin); by left).
  pose proof (nz_le (u32 (ca_ref A κ - 1))). unfold nz at 2.
  rewrite (proj2 (Z.eqb_neq _ 0)) by (apply Hr, elem_of_app; right; by left). lia.
Qed.

(** Without references, it makes each buffer look used. *)
Lemma used_drops_zero ks A :
  NoDup ks → (∀ κ, κ ∈ ks → ca_ref A κ = 0) → ca_used (ca_drops ks A) = (ca_used A + length ks)%nat.
Proof.
  induction ks as [|κ ks IH] using rev_ind; intros Hnd Hr; [cbn; lia|]. rewrite ca_drops_snoc.
  apply NoDup_app in Hnd as (Hnd & Hd & _). specialize (IH Hnd ltac:(intros; apply Hr, elem_of_app; by left)).
  cbn -[nz]. rewrite (ca_drops_out ks) by (intros Hin; apply (Hd _ Hin); by left).
  rewrite (Hr κ) by (apply elem_of_app; right; by left). rewrite IH, length_app.
  change (nz (u32 (0 - 1))) with 1%nat. change (nz 0) with 0%nat. cbn. lia.
Qed.

Ltac nz_const :=
  change (nz (u32 (0 + 1))) with 1%nat in *; change (nz (u32 (u32 (0 + 1) - 1))) with 0%nat in *;
  change (nz 0) with 0%nat in *.

Section LogOps.
Context {S : Type} `{BC : BufCache S} (i : nat) (pid : Z).
Abbreviation LM := (M (kern * (S * list log_st))).

(** The state of the log code: a cache, the kernel since [k0], the logs. *)
Definition lsim (k0 : kern) (logs : list log_st) (x : kern * (S * list log_st)) (A : cache) : Prop :=
  babs (x.1, x.2.1) i pid A ∧ kern_le k0 x.1 ∧ x.2.2 = logs.

Section Zoom.
Context (k0 : kern) (logs : list log_st) (x : kern * (S * list log_st)) (A : cache) (Hx : lsim k0 logs x A).

Lemma lsim_ext A' : ca_eq A A' → lsim k0 logs x A'.
Proof using Hx. destruct Hx as (Ha & Hk & Hl). intros He. split; [by eapply babs_ext|done]. Qed.

Lemma ref_range κ : 0 ≤ ca_ref A κ < 2 ^ 32.
Proof using Hx. eapply babs_ref, Hx. Qed.

Lemma data_len κ : length (ca_data A κ) = Z.to_nat BSIZE.
Proof using Hx. eapply babs_len, Hx. Qed.

(** From the cache's specifications to the log's state. *)
Lemma runs_cache_op {R} (m : M (kern * S) R) (Q : R → kern * S → Prop) :
  runs m (x.1, x.2.1) (λ r y, Q r y ∧ kern_le (x.1, x.2.1).1 y.1) →
  runs (zoom cache_of m) x (λ r x', Q r (x'.1, x'.2.1) ∧ kern_le k0 x'.1 ∧ x'.2.2 = logs).
Proof using Hx.
  destruct Hx as (Ha & Hk & Hl). intros Hm. apply runs_zoom. eapply runs_mono; [exact Hm|].
  intros r [k s] [HQ Hle]. cbn in *. split; [done|]. split; [by eapply kern_le_trans|done].
Qed.

Lemma runs_lbread d b :
  block_ok (d, b) → ca_sound A → (∀ h, ca_held A h ≠ Some (d, b)) → ca_room (d, b) A →
  runs (zoom cache_of (bread d b)) x (λ h x', ca_held A h = None ∧ lsim k0 logs x' (ca_bread (d, b) h A)).
Proof using Hx.
  intros Hb Hs Hh Hr. eapply runs_mono; [apply (runs_cache_op _ (λ h y, ca_held A h = None ∧ babs y i pid (ca_bread (d, b) h A)))|].
  - eapply runs_mono; [by apply (bread_spec _ i pid A); [apply Hx|..]|]. cbn. tauto.
  - cbn. intros h x' [[? ?] ?]. done.
Qed.

Lemma runs_lbwrite h κ :
  ca_held A h = Some κ → runs (zoom cache_of (bwrite h)) x (λ _ x', lsim k0 logs x' (ca_write κ A)).
Proof using Hx.
  intros Hh. apply (runs_cache_op _ (λ _ y, babs y i pid (ca_write κ A))). apply (bwrite_spec _ i pid A h κ); [apply Hx|done].
Qed.

Lemma runs_lbrelse h κ :
  ca_held A h = Some κ → ca_flushed κ A →
  runs (zoom cache_of (brelse h)) x (λ _ x', lsim k0 logs x' (ca_brelse κ h A)).
Proof using Hx.
  intros Hh Hf. apply (runs_cache_op _ (λ _ y, babs y i pid (ca_brelse κ h A))). apply (brelse_spec _ i pid A h κ); [apply Hx|done|done].
Qed.

Lemma runs_lbpin h κ :
  ca_held A h = Some κ → ca_ref A κ < 2 ^ 32 - 1 →
  runs (zoom cache_of (bpin h)) x (λ _ x', lsim k0 logs x' (ca_pin κ A)).
Proof using Hx.
  intros Hh Hf. apply (runs_cache_op _ (λ _ y, babs y i pid (ca_pin κ A))). apply (bpin_spec _ i pid A h κ); [apply Hx|done|done].
Qed.

Lemma runs_lbunpin h κ :
  ca_held A h = Some κ → ca_flushed κ A →
  runs (zoom cache_of (bunpin h)) x (λ _ x', lsim k0 logs x' (ca_drop κ A)).
Proof using Hx.
  intros Hh Hf. apply (runs_cache_op _ (λ _ y, babs y i pid (ca_drop κ A))). apply (bunpin_spec _ i pid A h κ); [apply Hx|done|done].
Qed.

Lemma runs_get_data h κ Q :
  ca_held A h = Some κ → Q (ca_data A κ) x → runs (get_data h) x Q.
Proof using Hx.
  intros Hh HQ. unfold get_data. apply runs_gets. erewrite bdata_spec; [exact HQ|apply Hx|done].
Qed.

Lemma runs_put_data h κ v :
  ca_held A h = Some κ → ca_ref A κ ≠ 0 → length v = Z.to_nat BSIZE →
  runs (put_data h v) x (λ _ x', lsim k0 logs x' (ca_set κ v A)).
Proof using Hx.
  intros Hh Hr Hv. unfold put_data. apply runs_modify. destruct Hx as (Ha & Hk & Hl).
  split; [|done]. cbn. by apply bset_spec.
Qed.

Lemma runs_get_lhblock dev t b Q :
  0 ≤ t < LOGSIZE → aget (lh_block (aget logs dev)) t = b → Q b x → runs (get_lhblock dev t) x Q.
Proof using Hx.
  intros Ht Hb HQ. unfold get_lhblock, the_log. kstep. kstep. destruct Hx as (_ & _ & ->).
  rewrite (proj2 (Z.leb_le 0 t)), (proj2 (Z.ltb_lt t LOGSIZE)) by lia. kif. kstep. by rewrite Hb.
Qed.
End Zoom.

(** ** One block of the log *)

Section Copy.
Context (k0 : kern) (logs : list log_st) (x : kern * (S * list log_st)) (A : cache) (Hx : lsim k0 logs x A).
Context (dev l n t : Z).
Abbreviation κl := (dev, l).
Abbreviation κb := (dev, u32 n).
Context (Hl : block_ok κl) (Hb : block_ok κb) (Hne : κl ≠ κb) (Hidle : ca_idle A).
Context (Hrl : ca_ref A κl = 0) (Hrb : ca_ref A κb < 2 ^ 32 - 1).
Context (Hroom : (ca_used A + (1 - nz (ca_ref A κb)) < Z.to_nat NBUF)%nat).
Context (Ht : 0 ≤ t < LOGSIZE) (Hn : aget (lh_block (aget logs dev)) t = n).

Let Hne' : κb ≠ κl.
Proof. congruence. Qed.

Lemma nz_used : (nz (ca_ref A κb) ≤ ca_used A)%nat.
Proof using All.
  unfold nz. destruct (Z.eqb_spec (ca_ref A κb) 0) as [|Hz]; [lia|].
  enough (0 < ca_used A)%nat by lia. destruct Hx as (Ha & _). by eapply babs_used.
Qed.

(** Both buffers are read and locked. *)
Lemma runs_open R (f : Z → Z → LM R) Q :
  (∀ hl hb x', hl ≠ hb → ca_held A hl = None → ca_held A hb = None →
    lsim k0 logs x' (ca_bread κb hb (ca_bread κl hl A)) → runs (f hl hb) x' Q) →
  runs (hl ← zoom cache_of (bread dev l); n ← get_lhblock dev t; hb ← zoom cache_of (bread dev (u32 n)); f hl hb) x Q.
Proof using All.
  intros Hf. pose proof (ref_range _ _ _ _ Hx κb) as Hrg. pose proof nz_used as Hnz.
  kcall (runs_lbread _ _ _ _ Hx dev l Hl).
  - intros h κ Hh. by rewrite Hidle in Hh.
  - intros h. by rewrite Hidle.
  - split; [right; lia|rewrite Hrl; lia].
  - intros hl x1 (Hhl & Hx1). kstep. eapply runs_get_lhblock; [exact Hx1|done|exact Hn|].
    kcall (runs_lbread _ _ _ _ Hx1 dev (u32 n) Hb).
    + intros h κ. ca_simpl. destruct (decide (h = hl)) as [->|Hh]; ca_simpl.
      * intros E. injection E as <-. ca_simpl. by rewrite Hrl.
      * by rewrite Hidle.
    + intros h. ca_simpl. destruct (decide (h = hl)) as [->|Hh]; ca_simpl; [congruence|by rewrite Hidle].
    + split; ca_simpl; [|done]. destruct (decide (ca_ref A κb = 0)) as [Hz|?]; [right|by left].
      rewrite Hrl. rewrite Hz in Hroom. nz_const. lia.
    + intros hb x2 (Hhb & Hx2). apply Hf; try done.
      intros <-. revert Hhb. ca_simpl. done.
Qed.

(** [write_log]: the cache block goes to the log block. *)
Lemma runs_write_log_one :
  ca_ref A κb ≠ 0 →
  runs (to ← zoom cache_of (bread dev l);
    n ← get_lhblock dev t;
    from ← zoom cache_of (bread dev (u32 n));
    v ← get_data from;
    put_data to v;;
    zoom cache_of (bwrite to);;
    zoom cache_of (brelse from);;
    zoom cache_of (brelse to)) x (λ _ x', lsim k0 logs x' (ca_writes [(κl, ca_data A κb)] A)).
Proof using All.
  intros Hpin. pose proof (ref_range _ _ _ _ Hx κb) as Hrg. pose proof nz_used as Hnz.
  apply runs_open. intros hl hb x1 Hh Hhl Hhb Hx1. assert (hb ≠ hl) by done.
  kstep. apply (runs_get_data _ _ _ _ Hx1 hb κb); [by ca_simpl|]. ca_simpl.
  kcall (runs_put_data _ _ _ _ Hx1 hl κl (ca_data A κb)); [by ca_simpl|ca_simpl; by rewrite Hrl|by eapply data_len|].
  intros [] x2 Hx2. kcall (runs_lbwrite _ _ _ _ Hx2 hl κl); [by ca_simpl|].
  intros [] x3 Hx3. kcall (runs_lbrelse _ _ _ _ Hx3 hb κb); [by ca_simpl| |].
  { unfold ca_flushed. ca_simpl. rewrite u32_down_up by done. done. }
  intros [] x4 Hx4. kapply (runs_lbrelse _ _ _ _ Hx4 hl κl); [by ca_simpl|unfold ca_flushed; by ca_simpl|].
  intros [] x5 Hx5. apply (lsim_ext _ _ _ _ Hx5).
  split; try (intros κ); cbn [ca_writes ca_ref ca_used ca_held ca_data ca_disk ca_trace].
  - destruct (decide (κ = κl)) as [->|]; ca_simpl; [by rewrite Hrl|].
    destruct (decide (κ = κb)) as [->|]; ca_simpl; [by rewrite u32_down_up|done].
  - ca_simpl. rewrite u32_down_up, Hrl by done. pose proof (nz_le (u32 (ca_ref A κb + 1))). nz_const. lia.
  - destruct (decide (κ = hl)) as [->|]; ca_simpl; [done|]. destruct (decide (κ = hb)) as [->|]; by ca_simpl.
  - by ca_simpl.
  - by ca_simpl.
  - by ca_simpl.
Qed.

(** [install_trans]: the log block goes home, and loses a reference. *)
Lemma runs_install_one :
  runs (lbuf ← zoom cache_of (bread dev l);
    n ← get_lhblock dev t;
    dbuf ← zoom cache_of (bread dev (u32 n));
    v ← get_data lbuf;
    put_data dbuf v;;
    zoom cache_of (bwrite dbuf);;
    zoom cache_of (bunpin dbuf);;
    zoom cache_of (brelse lbuf);;
    zoom cache_of (brelse dbuf)) x (λ _ x', lsim k0 logs x' (ca_drop κb (ca_writes [(κb, ca_data A κl)] A))).
Proof using All.
  pose proof (ref_range _ _ _ _ Hx κb) as Hrg. pose proof nz_used as Hnz.
  assert (ca_data A κl = ca_disk A κl) as Hcl by (eapply babs_clean; [apply Hx|done|done]).
  apply runs_open. intros hl hb x1 Hh Hhl Hhb Hx1. assert (hb ≠ hl) by done.
  kstep. apply (runs_get_data _ _ _ _ Hx1 hl κl); [by ca_simpl|]. ca_simpl.
  kcall (runs_put_data _ _ _ _ Hx1 hb κb (ca_data A κl)); [by ca_simpl| |by eapply data_len|].
  { ca_simpl. rewrite u32_small; lia. }
  intros [] x2 Hx2. kcall (runs_lbwrite _ _ _ _ Hx2 hb κb); [by ca_simpl|].
  intros [] x3 Hx3. kcall (runs_lbunpin _ _ _ _ Hx3 hb κb); [by ca_simpl|unfold ca_flushed; by ca_simpl|].
  intros [] x4 Hx4. kcall (runs_lbrelse _ _ _ _ Hx4 hl κl); [by ca_simpl|unfold ca_flushed; by ca_simpl|].
  intros [] x5 Hx5. kapply (runs_lbrelse _ _ _ _ Hx5 hb κb); [by ca_simpl|unfold ca_flushed; by ca_simpl|].
  intros [] x6 Hx6. apply (lsim_ext _ _ _ _ Hx6).
  split; try (intros κ); cbn [ca_writes].
  - destruct (decide (κ = κl)) as [->|]; ca_simpl; [by rewrite Hrl|].
    destruct (decide (κ = κb)) as [->|]; ca_simpl; [by rewrite u32_down_up|done].
  - ca_simpl. rewrite (u32_down_up (ca_ref A κb)), Hrl by done. nz_const.
    pose proof (nz_le (u32 (ca_ref A κb + 1))). pose proof (nz_le (u32 (ca_ref A κb - 1))). lia.
  - ca_simpl. destruct (decide (κ = hb)) as [->|]; ca_simpl; [done|]. destruct (decide (κ = hl)) as [->|]; by ca_simpl.
  - by ca_simpl.
  - by ca_simpl.
  - by ca_simpl.
Qed.
End Copy.

(** ** The loops over the log *)

(** Where the log of the device is. *)
Record geom (dev start size : Z) : Prop := {
  ge_dev : 0 ≤ dev < 2 ^ 32;
  ge_start : 0 < start;
  ge_size : 0 < size;
  ge_end : start + size ≤ 2 ^ 31;
  ge_log : size ≤ LOGSIZE;
}.

(** The header in memory lists [bs]. *)
Definition lh_is (l : log_st) (bs : list Z) : Prop :=
  lh_n l = Z.of_nat (length bs) ∧ ∀ t b, bs !! t = Some b → aget (lh_block l) (Z.of_nat t) = b.

Section Loops.
Context (k0 : kern) (logs : list log_st) (dev start size : Z) (bs : list Z).
Context (Hg : geom dev start size) (Hbs : logged dev start size bs).
Context (Hstart : lg_start (aget logs dev) = start) (Hlh : lh_is (aget logs dev) bs).
Abbreviation homes := (home dev <$> bs).

Lemma home_ok t b : bs !! t = Some b → block_ok (home dev b).
Proof using Hg Hbs.
  intros Ht%list_elem_of_lookup_2. split; [apply Hg|]. split; [apply u32_range|by apply (lo_nz _ _ _ _ Hbs)].
Qed.

Lemma log_blk_ok t : (t < length bs)%nat → block_ok (log_blk dev start t).
Proof using Hg Hbs.
  intros Ht. pose proof (lo_size _ _ _ _ Hbs). destruct Hg. split; [done|]. cbn. split; [lia|].
  intros E. injection E as E1 E2. lia.
Qed.

Lemma log_home_ne t t' b : (t < length bs)%nat → bs !! t' = Some b → log_blk dev start t ≠ home dev b.
Proof using Hbs.
  intros Ht Hb%list_elem_of_lookup_2 E. apply (lo_out _ _ _ _ Hbs b Hb). rewrite <- E. by apply (log_blk_in _ _ _ bs).
Qed.

Lemma the_log_eq x A : lsim k0 logs x A → aget x.2.2 dev = aget logs dev.
Proof. by intros (_ & _ & ->). Qed.

Lemma runs_write_log x A :
  lsim k0 logs x A → ca_idle A → (∀ κ, in_log dev start size κ → ca_ref A κ = 0) →
  (∀ b, b ∈ bs → ca_ref A (home dev b) ≠ 0 ∧ ca_ref A (home dev b) < 2 ^ 32 - 1) →
  (ca_used A < Z.to_nat NBUF)%nat →
  runs (write_log dev) x (λ _ x', lsim k0 logs x' (ca_writes (log_writes dev start bs (ca_data A)) A)).
Proof using Hg Hbs Hstart Hlh.
  intros Hx Hidle Hlog Hpin Hroom. set (W := log_writes dev start bs (ca_data A)).
  assert (length W = length bs) as HW by apply length_imap.
  unfold write_log, the_log. kstep. kstep. rewrite (the_log_eq x A Hx), Hstart, (proj1 Hlh), Nat2Z.id.
  apply (runs_for_range _ (λ t x, lsim k0 logs x (ca_writes (take (Z.to_nat t) W) A))).
  - intros t x1 Ht Hx1. destruct (lookup_lt_is_Some_2 bs (Z.to_nat t)) as [b Hb]; [lia|].
    assert (log_blk dev start (Z.to_nat t) = (dev, start + t + 1)) as El by (unfold log_blk; by rewrite Z2Nat.id by lia).
    pose proof (log_blk_ok (Z.to_nat t) ltac:(lia)) as Hokl.
    pose proof (log_home_ne (Z.to_nat t) _ b ltac:(lia) Hb) as Hne.
    pose proof (log_blk_in dev start size bs Hbs (Z.to_nat t) ltac:(lia)) as [Hin _]. rewrite El in *.
    destruct (Hpin b) as [Hp1 Hp2]; [by eapply list_elem_of_lookup_2|].
    pose proof (lo_max _ _ _ _ Hbs).
    eapply runs_mono; [apply (runs_write_log_one k0 logs x1 _ Hx1 dev (start + t + 1) b t)|]; try done.
    + by eapply home_ok.
    + cbn. by apply Hlog.
    + cbn -[nz]. fold (home dev b). unfold nz. rewrite (proj2 (Z.eqb_neq _ 0)) by done. lia.
    + lia.
    + rewrite <- (Z2Nat.id t) by lia. by apply Hlh.
    + intros [] x2 Hx2. apply (lsim_ext _ _ _ _ Hx2). replace (Z.to_nat (t + 1)) with (Datatypes.S (Z.to_nat t)) by lia.
      rewrite (take_S_r W _ ((dev, start + t + 1), ca_data A (home dev b))).
      2:{ unfold W, log_writes. rewrite list_lookup_imap, Hb. cbn. by rewrite El. }
      rewrite <- ca_writes_snoc. cbn [ca_writes ca_data]. fold (home dev b). unfold W.
      rewrite apply_take_out; [done|]. rewrite keys_log. intros Hk.
      apply (log_keys_in _ _ size) in Hk as [Hk _]; [|done].
      by apply (lo_out _ _ _ _ Hbs b); [eapply list_elem_of_lookup_2|].
  - apply (lsim_ext _ _ _ _ Hx), ca_writes_nil.
  - intros x1. by rewrite Z.add_0_l, Nat2Z.id, take_ge by lia.
Qed.

Lemma runs_install_trans x A :
  lsim k0 logs x A → ca_idle A → (∀ κ, in_log dev start size κ → ca_ref A κ = 0) →
  (∀ b, b ∈ bs → ca_ref A (home dev b) < 2 ^ 32 - 1) →
  (∀ t b, bs !! t = Some b →
    (ca_used (ca_drops (take t homes) A) + (1 - nz (ca_ref A (home dev b))) < Z.to_nat NBUF)%nat) →
  runs (install_trans dev) x (λ _ x',
    lsim k0 logs x' (ca_writes (install_writes dev start bs (ca_data A)) (ca_drops homes A))).
Proof using Hg Hbs Hstart Hlh.
  intros Hx Hidle Hlog Hmax Hroom. set (W := install_writes dev start bs (ca_data A)).
  assert (length W = length bs) as HW by apply length_imap.
  assert (length homes = length bs) as HH by apply length_fmap.
  unfold install_trans, the_log. kstep. kstep. rewrite (the_log_eq x A Hx), Hstart, (proj1 Hlh), Nat2Z.id.
  apply (runs_for_range _ (λ t x, lsim k0 logs x
    (ca_writes (take (Z.to_nat t) W) (ca_drops (take (Z.to_nat t) homes) A)))).
  - intros t x1 Ht Hx1. destruct (lookup_lt_is_Some_2 bs (Z.to_nat t)) as [b Hb]; [lia|].
    assert (log_blk dev start (Z.to_nat t) = (dev, start + t + 1)) as El by (unfold log_blk; by rewrite Z2Nat.id by lia).
    pose proof (log_blk_ok (Z.to_nat t) ltac:(lia)) as Hokl.
    pose proof (log_home_ne (Z.to_nat t) _ b ltac:(lia) Hb) as Hne.
    pose proof (log_blk_in dev start size bs Hbs (Z.to_nat t) ltac:(lia)) as [Hin _]. rewrite El in *.
    pose proof (lo_max _ _ _ _ Hbs). pose proof (list_elem_of_lookup_2 _ _ _ Hb) as Hbin.
    assert (ca_ref (ca_drops (take (Z.to_nat t) homes) A) (home dev b) = ca_ref A (home dev b)) as Hrb.
    { apply ca_drops_out. apply (take_nodup homes); [apply Hbs|]. by rewrite list_lookup_fmap, Hb. }
    assert (ca_ref (ca_drops (take (Z.to_nat t) homes) A) (dev, start + t + 1) = 0) as Hrl.
    { rewrite ca_drops_out; [by apply Hlog|]. intros Hk%list_elem_of_take. by apply (home_keys_out _ _ _ _ Hbs) in Hk. }
    eapply runs_mono; [apply (runs_install_one k0 logs x1 _ Hx1 dev (start + t + 1) b t)|]; try done.
    + by eapply home_ok.
    + intros h. cbn. by rewrite ca_drops_held.
    + cbn. fold (home dev b). rewrite Hrb. by apply Hmax.
    + cbn -[nz]. fold (home dev b). rewrite Hrb. by apply Hroom.
    + lia.
    + rewrite <- (Z2Nat.id t) by lia. by apply Hlh.
    + intros [] x2 Hx2. apply (lsim_ext _ _ _ _ Hx2). replace (Z.to_nat (t + 1)) with (Datatypes.S (Z.to_nat t)) by lia.
      rewrite (take_S_r W _ (home dev b, ca_data A (dev, start + t + 1))).
      2:{ unfold W, install_writes. rewrite list_lookup_imap, Hb. cbn. by rewrite El. }
      rewrite (take_S_r homes _ (home dev b)) by (by rewrite list_lookup_fmap, Hb).
      rewrite <- ca_writes_snoc, ca_drops_snoc. cbn [ca_writes ca_data]. fold (home dev b). unfold W.
      rewrite apply_take_out, ca_drops_data; [done|]. rewrite keys_install. intros Hk.
      by apply (home_keys_out _ _ _ _ Hbs) in Hk.
  - apply (lsim_ext _ _ _ _ Hx), ca_writes_nil.
  - intros x1. by rewrite Z.add_0_l, Nat2Z.id, !take_ge by lia.
Qed.

Lemma hdr_ok : block_ok (hdr_blk dev start).
Proof using Hg. destruct Hg. split; [done|]. cbn. split; [lia|]. intros E. injection E as _ E. lia. Qed.

(** The loop of [write_head] fills in the block numbers. *)
Lemma runs_fill_head x A h :
  let κ := hdr_blk dev start in
  lsim k0 logs x A → ca_held A h = Some κ → ca_ref A κ ≠ 0 →
  runs (for_range (length bs) 0 (λ t,
    n ← get_lhblock dev t;
    hb ← get_data h;
    put_data h (hdr_set_block t n hb))) x (λ _ x', lsim k0 logs x' (ca_set κ (hdr_fill 0 bs (ca_data A κ)) A)).
Proof using Hg Hbs Hstart Hlh.
  intros κ Hx Hh Hr. pose proof (data_len _ _ _ _ Hx κ) as Hlen. pose proof (bs_fits _ _ _ _ Hbs _ Hlen) as Hf.
  apply (runs_for_range _ (λ t x, lsim k0 logs x (ca_set κ (hdr_fill 0 (take (Z.to_nat t) bs) (ca_data A κ)) A))).
  - intros t x1 Ht Hx1. destruct (lookup_lt_is_Some_2 bs (Z.to_nat t)) as [b Hb]; [lia|].
    pose proof (lo_max _ _ _ _ Hbs). kstep. eapply (runs_get_lhblock _ _ _ _ Hx1 _ t b); [lia| |].
    { rewrite <- (Z2Nat.id t) by lia. by apply Hlh. }
    kstep. apply (runs_get_data _ _ _ _ Hx1 h κ); [done|]. ca_simpl.
    pose proof (take_S_r bs _ b Hb) as Etk.
    assert (length (hdr_fill 0 (take (Z.to_nat t) bs) (ca_data A κ)) = length (ca_data A κ)) as L.
    { apply length_hdr_fill; [done|]. unfold hdr_fits in *. rewrite length_take. cbn. lia. }
    eapply runs_mono; [apply (runs_put_data _ _ _ _ Hx1 h κ); [done|done|]|].
    + rewrite length_hdr_set_block; [congruence|lia|]. unfold hdr_fits in *. rewrite L. lia.
    + intros [] x2 Hx2. apply (lsim_ext _ _ _ _ Hx2). replace (Z.to_nat (t + 1)) with (Datatypes.S (Z.to_nat t)) by lia.
      rewrite Etk, hdr_fill_snoc. rewrite length_take, Nat.min_l, Z2Nat.id by lia. cbn [Z.add].
      split; try done. intros κ'. ca_simpl. unfold kset. by case_decide.
  - apply (lsim_ext _ _ _ _ Hx). split; try done. intros κ'. cbn. unfold kset. case_decide; [by subst|done].
  - intros x1. by rewrite Z.add_0_l, Nat2Z.id, take_ge by lia.
Qed.

Lemma runs_write_head x A :
  let κ := hdr_blk dev start in
  lsim k0 logs x A → ca_idle A → ca_ref A κ = 0 → (ca_used A < Z.to_nat NBUF)%nat →
  runs (write_head dev) x (λ _ x', lsim k0 logs x' (ca_writes [(κ, hdr_of bs (ca_data A κ))] A)).
Proof using Hg Hbs Hstart Hlh.
  intros κ Hx Hidle Hr Hroom. unfold write_head, the_log. kstep. kstep.
  rewrite (the_log_eq x A Hx), Hstart, (proj1 Hlh), Nat2Z.id.
  kcall (runs_lbread _ _ _ _ Hx dev start hdr_ok); fold κ.
  - intros h κ' Hh. by rewrite Hidle in Hh.
  - intros h. by rewrite Hidle.
  - split; [by right|fold (hdr_blk dev start); fold κ; lia].
  - intros h x1 (_ & Hx1). fold (hdr_blk dev start) in Hx1. fold κ in Hx1.
    pose proof (data_len _ _ _ _ Hx κ) as Hlen. pose proof (bs_fits _ _ _ _ Hbs _ Hlen) as Hf.
    kstep. apply (runs_get_data _ _ _ _ Hx1 h κ); [by ca_simpl|]. ca_simpl.
    kcall (runs_put_data _ _ _ _ Hx1 h κ); [by ca_simpl|ca_simpl; by rewrite Hr| |].
    { rewrite length_hdr_set_n; [done|]. unfold hdr_fits in *. lia. }
    intros [] x2 Hx2. kcall (runs_fill_head x2 _ h Hx2); [by ca_simpl|ca_simpl; by rewrite Hr|].
    intros [] x3 Hx3. kcall (runs_lbwrite _ _ _ _ Hx3 h κ); [by ca_simpl|].
    intros [] x4 Hx4. kapply (runs_lbrelse _ _ _ _ Hx4 h κ); [by ca_simpl|unfold ca_flushed; by ca_simpl|].
    intros [] x5 Hx5. apply (lsim_ext _ _ _ _ Hx5). split; try (intros κ'); cbn [ca_writes].
    + destruct (decide (κ' = κ)) as [->|]; ca_simpl; [by rewrite Hr|done].
    + ca_simpl. rewrite Hr. nz_const. lia.
    + destruct (decide (κ' = h)) as [->|]; ca_simpl; done.
    + ca_simpl. unfold apply_writes. cbn [foldl fst snd]. change (hdr_blk dev start) with κ. unfold kset. by case_decide.
    + by ca_simpl.
    + by ca_simpl.
Qed.
End Loops.

Lemma runs_set_lhn k0 logs x A dev v :
  lsim k0 logs x A →
  runs (upd_log dev (set_lhn v)) x (λ _ x', lsim k0 (aset logs dev (set_lhn v (aget logs dev))) x' A).
Proof. intros (Ha & Hk & Hl). unfold upd_log. apply runs_modify. split; [done|]. split; [done|]. cbn. by rewrite Hl. Qed.

(** ** commit *)

(** The state in which [end_op] calls [commit]: the log is empty on the disk, the
    blocks of the transaction are pinned, nobody holds a buffer and one is free. *)
Record commit_ready (logs : list log_st) (dev start size : Z) (bs : list Z) (A : cache) : Prop := {
  cr_dev : 0 ≤ dev < alen logs;
  cr_geom : geom dev start size;
  cr_start : lg_start (aget logs dev) = start;
  cr_lh : lh_is (aget logs dev) bs;
  cr_logged : logged dev start size bs;
  cr_idle : ca_idle A;
  cr_log : ∀ κ, in_log dev start size κ → ca_ref A κ = 0;
  cr_pin : ∀ b, b ∈ bs → ca_ref A (home dev b) ≠ 0 ∧ ca_ref A (home dev b) < 2 ^ 32 - 1;
  cr_room : (ca_used A < Z.to_nat NBUF)%nat;
  cr_empty : hdr_n (ca_disk A (hdr_blk dev start)) = 0;
}.

Lemma install_is_home dev start size bs C D v :
  logged dev start size bs → 0 < size →
  install_writes dev start bs
    (apply_writes [(hdr_blk dev start, v)] (apply_writes (log_writes dev start bs C) D)) = home_writes dev bs C.
Proof.
  intros Hbs Hs. apply list_eq. intros t. unfold install_writes, home_writes. rewrite list_lookup_imap, list_lookup_fmap.
  destruct (bs !! t) as [b|] eqn:Hb; [|done]. cbn. do 2 f_equal.
  pose proof (lookup_lt_Some _ _ _ Hb) as Hl. destruct (log_blk_in _ _ _ _ Hbs t Hl) as [_ Hne].
  rewrite kset_ne by done. apply (apply_writes_in _ _ t); [rewrite keys_log; apply log_keys_nodup|].
  unfold log_writes. by rewrite list_lookup_imap, Hb.
Qed.

(** [commit] makes exactly the writes of [commit_writes], unpins the blocks and
    empties the log. *)
Lemma runs_commit k0 logs dev start size bs x A :
  lsim k0 logs x A → commit_ready logs dev start size bs A → bs ≠ [] →
  runs (commit dev) x (λ _ x', lsim k0 (aset logs dev (set_lhn 0 (aget logs dev))) x'
    (ca_writes (commit_writes dev start bs (ca_data A) (ca_disk A)) (ca_drops (home dev <$> bs) A))).
Proof.
  intros Hx [Hdev Hg Hst Hlh Hbs Hid Hlog Hpin Hroom Hemp] Hne. set (κh := hdr_blk dev start).
  assert (in_log dev start size κh) as Hkh by (apply in_log_hdr, Hg).
  assert (ca_data A κh = ca_disk A κh) as Hch by (eapply babs_clean; [apply Hx|by apply (hdr_ok _ _ size)|by apply Hlog]).
  assert (∀ κ, κ ∈ home dev <$> bs → ca_ref A κ ≠ 0) as Hpin'.
  { intros κ (b & -> & Hb)%list_elem_of_fmap. by apply Hpin. }
  unfold commit, the_log. kstep. kstep. rewrite (the_log_eq k0 logs dev x A Hx), (proj1 Hlh).
  rewrite (proj2 (Z.ltb_lt 0 _)) by (destruct bs; [done|cbn; lia]). unfold when. kif.
  kcall (runs_write_log k0 logs dev start size bs Hg Hbs Hst Hlh x A Hx); [done..|].
  intros [] x1 Hx1. kcall (runs_write_head k0 logs dev start size bs Hg Hbs Hst Hlh x1 _ Hx1); [done|by apply Hlog|done|].
  intros [] x2 Hx2. cbn [ca_writes ca_data] in Hx2.
  rewrite (apply_writes_out (log_writes _ _ _ _)) in Hx2 by by apply (hdr_not_log _ _ size).
  kcall (runs_install_trans k0 logs dev start size bs Hg Hbs Hst Hlh x2 _ Hx2); [done|done|by apply Hpin| |].
  { intros t b Hb. destruct (Hpin b) as [Hr _]; [by eapply list_elem_of_lookup_2|]. cbn -[nz ca_drops].
    rewrite !ca_drops_writes. cbn -[nz ca_drops]. unfold nz at 1. rewrite (proj2 (Z.eqb_neq _ 0)) by done.
    pose proof (used_drops_pinned (take t (home dev <$> bs)) A) as Hu.
    enough (ca_used (ca_drops (take t (home dev <$> bs)) A) ≤ ca_used A)%nat by lia. apply Hu.
    - eapply sublist_NoDup; [apply Hbs|apply sublist_take].
    - intros κ Hκ%list_elem_of_take. by apply Hpin'. }
  intros [] x3 Hx3. cbn [ca_writes ca_data] in Hx3. rewrite (install_is_home dev start size) in Hx3 by (done || apply Hg).
  kcall (runs_set_lhn k0 logs x3 _ dev 0 Hx3). intros [] x4 Hx4.
  set (logs' := aset _ _ _) in *.
  assert (aget logs' dev = set_lhn 0 (aget logs dev)) as El by by apply aget_aset_eq.
  kapply (runs_write_head k0 logs' dev start size [] Hg (logged_nil _ _ _ (ge_size _ _ _ Hg)) ltac:(by rewrite El) ltac:(by rewrite El) x4 _ Hx4).
  - intros h. cbn. rewrite ca_drops_held. apply Hid.
  - rewrite !ca_drops_writes. cbn [ca_writes ca_ref]. rewrite ca_drops_out; [by apply Hlog|].
    intros Hin. by apply (home_keys_out _ _ _ _ Hbs) in Hin.
  - rewrite !ca_drops_writes. cbn [ca_writes ca_used].
    pose proof (used_drops_pinned (home dev <$> bs) A (lo_nodup _ _ _ _ Hbs) Hpin'). lia.
  - intros [] x5 Hx5. apply (lsim_ext _ _ _ _ Hx5). rewrite !ca_drops_writes, !ca_writes_app.
    cbn [ca_writes ca_data]. rewrite (apply_writes_out (home_writes _ _ _)).
    2:{ rewrite keys_home. apply (hdr_not_home _ _ size); [done|apply Hg]. }
    rewrite apply_writes_one, kset_eq. fold κh. rewrite Hch. unfold commit_writes. by rewrite !(assoc_L (++)).
Qed.

(** ** Recovery *)

(** The header [l'] holds after [t] rounds of the loop of [read_head]. *)
Record head_read (l l' : log_st) (d : list Z) (t : Z) : Prop := {
  hr_start : lg_start l' = lg_start l;
  hr_size : lg_size l' = lg_size l;
  hr_n : lh_n l' = hdr_n d;
  hr_len : alen (lh_block l') = LOGSIZE;
  hr_block : ∀ j, 0 ≤ j < t → aget (lh_block l') j = hdr_block d j;
}.

Lemma lookup_hdr_list d t b : hdr_list d !! t = Some b ↔ Z.of_nat t < hdr_n d ∧ b = hdr_block d (Z.of_nat t).
Proof.
  unfold hdr_list. rewrite list_lookup_fmap, fmap_Some. split.
  - intros (j & Hj & ->). apply lookup_seqZ in Hj as [-> Hj]. split; [lia|done].
  - intros (Hn & ->). exists (Z.of_nat t). split; [|done]. apply lookup_seqZ. lia.
Qed.

Lemma length_hdr_list d : length (hdr_list d) = Z.to_nat (hdr_n d).
Proof. unfold hdr_list. by rewrite length_fmap, length_seqZ. Qed.

Lemma head_read_is l l' d : 0 ≤ hdr_n d → head_read l l' d (hdr_n d) → lh_is l' (hdr_list d).
Proof.
  intros H0 [_ _ Hn _ Hb]. split; [rewrite length_hdr_list; lia|].
  intros t b [Ht ->]%lookup_hdr_list. apply Hb. lia.
Qed.

Lemma runs_read_loop k0 logs x A dev l d n :
  lsim k0 (aset logs dev l) x A → 0 ≤ dev < alen logs → head_read l l d 0 → Z.of_nat n ≤ LOGSIZE →
  runs (for_range n 0 (λ j, put_lhblock dev j (hdr_block d j))) x (λ _ x',
    ∃ l', lsim k0 (aset logs dev l') x' A ∧ head_read l l' d (Z.of_nat n)).
Proof.
  intros Hx Hdev Hl Hn.
  apply (runs_for_range _ (λ t x, ∃ l', lsim k0 (aset logs dev l') x A ∧ head_read l l' d t)).
  - intros t x1 Ht (l1 & (Ha & Hk & Hlg) & [H1 H2 H3 H4 H5]). unfold put_lhblock.
    rewrite (proj2 (Z.leb_le 0 t)), (proj2 (Z.ltb_lt t LOGSIZE)) by lia. kif. unfold upd_log. kstep.
    exists (set_lhblock (aset (lh_block l1) t (hdr_block d t)) l1). split.
    + split; [done|]. split; [done|]. cbn. rewrite Hlg, aget_aset_eq, aset_aset by done. done.
    + split; cbn; try done; [by rewrite alen_aset|]. intros j Hj. destruct (decide (j = t)) as [->|Hne].
      * apply aget_aset_eq. lia.
      * rewrite aget_aset_ne by lia. apply H5. lia.
  - eauto.
  - intros x1 HQ. exact HQ.
Qed.

Lemma runs_read_head k0 logs x A dev start size d :
  lsim k0 logs x A → 0 ≤ dev < alen logs → geom dev start size → lg_start (aget logs dev) = start →
  alen (lh_block (aget logs dev)) = LOGSIZE → ca_idle A → ca_ref A (hdr_blk dev start) = 0 →
  (ca_used A < Z.to_nat NBUF)%nat → ca_disk A (hdr_blk dev start) = d → hdr_n d ≤ LOGSIZE →
  runs (read_head dev) x (λ _ x', ∃ l', lsim k0 (aset logs dev l') x' A ∧ head_read (aget logs dev) l' d (hdr_n d)).
Proof.
  intros Hx Hdev Hg Hst Hln Hid Hr Hroom Hd Hmax. pose proof (hdr_ok dev start size Hg) as Hok.
  assert (ca_data A (hdr_blk dev start) = d) as Hcd.
  { rewrite <- Hd. eapply babs_clean; [apply Hx|done|done]. }
  unfold read_head, the_log. kstep. kstep. rewrite (the_log_eq k0 logs dev x A Hx), Hst.
  kcall (runs_lbread _ _ _ _ Hx dev start Hok).
  - intros h κ' Hh. by rewrite Hid in Hh.
  - intros h. by rewrite Hid.
  - split; [by right|fold (hdr_blk dev start); lia].
  - intros h x1 (_ & Hx1). fold (hdr_blk dev start) in Hx1. set (κ := hdr_blk dev start) in *.
    kstep. apply (runs_get_data _ _ _ _ Hx1 h κ); [by ca_simpl|]. ca_simpl. rewrite Hcd.
    kcall (runs_set_lhn _ _ _ _ dev (hdr_n d) Hx1). intros [] x2 Hx2. set (l1 := set_lhn _ _) in Hx2.
    kcall (runs_read_loop k0 logs x2 _ dev l1 d (Z.to_nat (hdr_n d)) Hx2 Hdev); [|unfold LOGSIZE, MAXOPBLOCKS in *; lia|].
    { split; try done. intros j Hj. lia. }
    intros [] x3 (l' & Hx3 & Hl'). kapply (runs_lbrelse _ _ _ _ Hx3 h κ); [by ca_simpl| |].
    { unfold ca_flushed. ca_simpl. rewrite Hr. intros _. rewrite Hcd. done. }
    intros [] x4 Hx4. exists l'. split.
    + apply (lsim_ext _ _ _ _ Hx4). split; try (intros κ'); ca_simpl; try done.
      * destruct (decide (κ' = κ)) as [->|]; ca_simpl; [by rewrite Hr|done].
      * rewrite Hr. nz_const. lia.
      * destruct (decide (κ' = h)) as [->|]; ca_simpl; done.
    + destruct Hl' as [H1 H2 H3 H4 H5]. split; try done. intros j Hj. apply H5. lia.
Qed.

(** The state in which [initlog] recovers: nothing is cached. *)
Record recover_ready (logs : list log_st) (dev start size : Z) (A : cache) : Prop := {
  rr_dev : 0 ≤ dev < alen logs;
  rr_geom : geom dev start size;
  rr_start : lg_start (aget logs dev) = start;
  rr_len : alen (lh_block (aget logs dev)) = LOGSIZE;
  rr_idle : ca_idle A;
  rr_ref : ∀ κ, ca_ref A κ = 0;
  rr_used : ca_used A = 0%nat;
}.

Lemma install_writes_ext dev start bs C C' :
  (∀ t, (t < length bs)%nat → C (log_blk dev start t) = C' (log_blk dev start t)) →
  install_writes dev start bs C = install_writes dev start bs C'.
Proof.
  intros HC. apply list_eq. intros t. unfold install_writes. rewrite !list_lookup_imap.
  destruct (bs !! t) as [b|] eqn:Hb; [|done]. cbn. rewrite HC; [done|]. by eapply lookup_lt_Some.
Qed.

(** [recover_from_log] makes exactly the writes of [recovery_writes].  It also
    drops a reference of each block that nobody has taken. *)
Lemma runs_recover k0 logs dev start size x A :
  let bs := hdr_list (ca_disk A (hdr_blk dev start)) in
  lsim k0 logs x A → recover_ready logs dev start size A → log_wf dev start size (ca_disk A) →
  runs (recover_from_log dev) x (λ _ x', ∃ l',
    lsim k0 (aset logs dev l') x'
      (ca_writes (recovery_writes dev start (ca_disk A)) (ca_drops (home dev <$> bs) A)) ∧
    lh_n l' = 0 ∧ lg_start l' = start).
Proof.
  intros bs Hx [Hdev Hg Hst Hln Hid Href Hus] (Hlen & Hn & Hbs). fold bs in Hbs. set (κh := hdr_blk dev start) in *.
  set (d := ca_disk A κh) in *.
  assert (length bs = Z.to_nat (hdr_n d)) as Lbs by apply length_hdr_list.
  assert (Hroom : (length bs < Z.to_nat NBUF)%nat).
  { pose proof (lo_size _ _ _ _ Hbs). pose proof (ge_log _ _ _ Hg). unfold NBUF, LOGSIZE, MAXOPBLOCKS in *. lia. }
  unfold recover_from_log.
  kcall (runs_read_head k0 logs x A dev start size d Hx Hdev Hg Hst Hln Hid); [done|unfold NBUF, MAXOPBLOCKS in *; lia|done| |].
  { unfold NBUF, LOGSIZE, MAXOPBLOCKS in *. lia. }
  intros [] x1 (l1 & Hx1 & Hl1). set (logs1 := aset logs dev l1) in *.
  assert (aget logs1 dev = l1) as E1 by by apply aget_aset_eq.
  assert (lh_is (aget logs1 dev) bs) as Hlh. { rewrite E1. eapply head_read_is; [|exact Hl1]. lia. }
  assert (lg_start (aget logs1 dev) = start) as Hst1. { rewrite E1, (hr_start _ _ _ _ Hl1). done. }
  kcall (runs_install_trans k0 logs1 dev start size bs Hg Hbs Hst1 Hlh x1 A Hx1 Hid); [done|intros; rewrite Href; lia| |].
  { intros t b Hb. rewrite used_drops_zero, Hus, Href; [|eapply sublist_NoDup; [apply Hbs|apply sublist_take]|done].
    pose proof (lookup_lt_Some _ _ _ Hb). rewrite length_take, length_fmap. nz_const. lia. }
  intros [] x2 Hx2.
  rewrite (install_writes_ext dev start bs (ca_data A) (ca_disk A)) in Hx2.
  2:{ intros t Ht. eapply babs_clean; [apply Hx|by eapply log_blk_ok|by rewrite Href]. }
  kcall (runs_set_lhn k0 logs1 x2 _ dev 0 Hx2). intros [] x3 Hx3. rewrite E1 in Hx3.
  unfold logs1 in Hx3. rewrite aset_aset in Hx3. set (logs2 := aset logs dev (set_lhn 0 l1)) in *.
  assert (aget logs2 dev = set_lhn 0 l1) as E2 by by apply aget_aset_eq.
  kapply (runs_write_head k0 logs2 dev start size [] Hg (logged_nil _ _ _ (ge_size _ _ _ Hg))
    ltac:(by rewrite E2; cbn; rewrite E1 in Hst1) ltac:(by rewrite E2) x3 _ Hx3).
  - intros h. cbn. rewrite ca_drops_held. apply Hid.
  - cbn. rewrite ca_drops_out; [done|]. apply (hdr_not_home _ _ size); [done|apply Hg].
  - cbn. rewrite used_drops_zero, Hus, length_fmap; [lia|apply Hbs|done].
  - intros [] x4 Hx4. exists (set_lhn 0 l1). split; [|split; [done|by rewrite E1 in Hst1]].
    apply (lsim_ext _ _ _ _ Hx4). rewrite ca_writes_app. cbn [ca_writes ca_data].
    rewrite (apply_writes_out (install_writes _ _ _ _)), ca_drops_data.
    2:{ rewrite keys_install. apply (hdr_not_home _ _ size); [done|apply Hg]. }
    fold κh. rewrite (babs_clean _ _ _ _ κh (proj1 Hx)); [done|by eapply hdr_ok|done].
Qed.

(** ** begin_op and end_op *)

#[global] Instance log_lock_lens dev : LockLens (slock (S := S * list log_st) (log_lock dev)).
Proof.
  refine (Build_LockLens _ _ _ (λ x, 0 ≤ dev < alen x.2.2) _ _ _ _ _ _ _ _ _); try done.
  - intros t x. cbn. by rewrite alen_aset.
  - intros t x Hd. cbn. by rewrite aget_aset_eq.
  - intros t t' x Hd. cbn. by rewrite aset_aset, aget_aset_eq.
Defined.

Lemma lsim_run k0 logs k s A : lsim k0 logs (k, (s, logs)) A → running k i pid.
Proof. intros (Ha & _). by eapply babs_running. Qed.

(** The locks of the kernel and the logs change, the cache does not. *)
Lemma lsim_step k0 logs logs' k s A k' :
  lsim k0 logs (k, (s, logs)) A → kern_le k k' → lsim k0 logs' (k', (s, logs')) A.
Proof.
  intros (Ha & Hk & _) Hle. split; [|split; [by eapply kern_le_trans|done]]. cbn in *.
  eapply babs_kern; [exact Ha|]. eapply kern_le_running; [done|]. by eapply babs_running.
Qed.

Section Ops.
Context (k0 k : kern) (logs : list log_st) (s : S) (A : cache) (dev : Z) (l : log_st).
Context (Hx : lsim k0 logs (k, (s, logs)) A) (Hdev : 0 ≤ dev < alen logs).
Context (Hl : aget logs dev = l) (Hfree : locked (lg_lock l) = 0).

Let Hrun : running k i pid.
Proof. by eapply lsim_run. Qed.
Let Hkok : kern_ok k.
Proof. apply Hrun. Qed.

(** An operation that fits is admitted and counted. *)
Lemma runs_begin_op :
  lg_committing l = 0 → lh_n l + (lg_outstanding l + 1) * MAXOPBLOCKS ≤ LOGSIZE →
  runs (begin_op dev) (k, (s, logs)) (λ _ x', ∃ lk, locked lk = 0 ∧
    let logs' := aset logs dev (set_lglock lk (set_outstanding (lg_outstanding l + 1) l)) in
    lsim k0 logs' x' A).
Proof using All.
  intros Hc Hn. unfold begin_op. kstep. apply (runs_acquire_le (log_lock dev)); [done|by cbn; rewrite Hl|].
  cbn [view over log_lock fst snd]. rewrite Hl. set (t := taken _ _). unfold loop. kstep. kstep. unfold the_log at 1. kstep.
  cbn [snd]. rewrite aget_aset_eq by done. cbn [set_lglock lg_committing lh_n lg_outstanding].
  rewrite Hc. change (0 =? 0) with true. kif. rewrite (proj2 (Z.ltb_ge _ _)) by lia. kif.
  kstep. unfold upd_log at 1. kstep. cbn [fst snd]. rewrite aset_aset, aget_aset_eq by done. kstep.
  apply (runs_release_le (log_lock dev) k).
  - done.
  - by apply kern_le_refl, pushed_ok.
  - cbn. by rewrite alen_aset.
  - cbn. by rewrite aget_aset_eq.
  - cbn. by rewrite aget_aset_eq.
  - intros k3 Hk3. kstep. kstep. cbn. rewrite aset_aset, aget_aset_eq by done.
    eexists. split; [|by eapply lsim_step]. done.
Qed.

(** Otherwise the process goes to sleep on the log, which is unchanged. *)
Lemma begin_op_waits :
  lg_committing l ≠ 0 ∨ LOGSIZE < lh_n l + (lg_outstanding l + 1) * MAXOPBLOCKS → c_noff (k_cpu k) = 0 →
  halts (begin_op dev) (k, (s, logs)) Asleep (λ x', ∃ lk, locked lk = 0 ∧
    x'.2 = (s, aset logs dev (set_lglock lk l)) ∧
    p_state (k_procs x'.1 !!! i) = SLEEPING ∧ p_chan (k_procs x'.1 !!! i) = Some ChLog).
Proof using All.
  intros Hw Hno. pose proof Hrun as (_ & Hp & Hi & _). pose proof Hkok as (Hcpu & Hn & Hpl).
  assert (Hsl : halts (sleep ChLog (slock (S := S * list log_st) (log_lock dev)))
    (pushed k, (s, aset logs dev (set_lglock (taken (c_id (k_cpu k)) (lg_lock l)) l))) Asleep (λ x', ∃ lk, locked lk = 0 ∧
    x'.2 = (s, aset logs dev (set_lglock lk l)) ∧
    p_state (k_procs x'.1 !!! i) = SLEEPING ∧ p_chan (k_procs x'.1 !!! i) = Some ChLog)).
  { eapply halts_mono; [apply (halts_sleep ChLog (log_lock dev) _ _ i (k_cpu k)); cbn; rewrite ?aget_aset_eq by done; try done|].
    - intros _. by rewrite alen_aset.
    - intros [k1 s1]. cbn. rewrite aget_aset_eq, aset_aset by done. intros (-> & H1 & H2 & _).
      eexists. split; [|done]. done. }
  unfold begin_op. apply halts_bind_r. apply (runs_acquire_le (log_lock dev)); [done|by cbn; rewrite Hl|].
  cbn [view over log_lock fst snd]. rewrite Hl. unfold loop. apply halts_bind_l. apply halts_bind_r. unfold the_log. kstep.
  cbn [snd]. rewrite aget_aset_eq by done. cbn [set_lglock lg_committing lh_n lg_outstanding].
  destruct (Z.eqb_spec (lg_committing l) 0) as [E|E]; cbn [negb].
  - rewrite (proj2 (Z.ltb_lt LOGSIZE _)) by lia. by apply halts_bind_l.
  - by apply halts_bind_l.
Qed.

(** The last operation commits; the log ends empty and idle. *)
Definition log_idle (l l' : log_st) (out : Z) : Prop :=
  lg_outstanding l' = out ∧ lg_committing l' = 0 ∧ locked (lg_lock l') = 0 ∧
  lg_start l' = lg_start l ∧ lg_size l' = lg_size l ∧ lg_dev l' = lg_dev l.

(** The end of [end_op], after [commit]. *)
Lemma runs_end_commit out A' k2 s2 l2 :
  lsim k0 (aset logs dev l2) (k2, (s2, aset logs dev l2)) A' → log_idle l (set_committing 0 l2) out →
  runs (acquire (slock (S := S * list log_st) (log_lock dev));; upd_log dev (set_committing 0);; wakeup ChLog;;
    release (slock (log_lock dev))) (k2, (s2, aset logs dev l2))
    (λ _ x', ∃ l', lsim k0 (aset logs dev l') x' A' ∧ log_idle l l' out ∧ lh_n l' = lh_n l2 ∧ lh_block l' = lh_block l2).
Proof using Hdev.
  intros Hx2 (H1 & H2 & H3 & H4). cbn in H1, H2, H3, H4. pose proof (lsim_run _ _ _ _ _ Hx2) as Hr2. destruct Hr2 as (Hk2 & _).
  assert (Hd2 : 0 ≤ dev < alen (aset logs dev l2)) by by rewrite alen_aset.
  kstep. apply (runs_acquire_le (log_lock dev)); [done|cbn; by rewrite aget_aset_eq|].
  cbn [view over log_lock fst snd]. rewrite aget_aset_eq, aset_aset by done. kstep. unfold upd_log at 1. kstep.
  cbn [fst snd]. rewrite aget_aset_eq, aset_aset by done. set (l3 := set_committing 0 _).
  kcall (runs_wakeup_le ChLog (pushed k2) (s2, aset logs dev l3) (pushed_ok _ Hk2)).
  intros [] [k3 s3]. cbn [fst snd]. intros (-> & Hk3).
  apply (runs_release_le (log_lock dev) k2); [done|done|cbn; by rewrite alen_aset|cbn; by rewrite aget_aset_eq..|].
  intros k4 Hk4. cbn. rewrite aset_aset, aget_aset_eq by done.
  eexists. split; [by eapply lsim_step|]. done.
Qed.

Lemma runs_end_op_last start size bs :
  lg_outstanding l = 1 → lg_committing l = 0 → commit_ready logs dev start size bs A →
  runs (end_op dev) (k, (s, logs)) (λ _ x', ∃ l',
    lsim k0 (aset logs dev l') x' (if decide (bs = []) then A else
      ca_writes (commit_writes dev start bs (ca_data A) (ca_disk A)) (ca_drops (home dev <$> bs) A)) ∧
    log_idle l l' 0 ∧ lh_n l' = 0).
Proof using All.
  intros Hout Hcom Hr. unfold end_op. kstep. apply (runs_acquire_le (log_lock dev)); [done|by cbn; rewrite Hl|].
  cbn [view over log_lock fst snd]. rewrite Hl. kstep. unfold upd_log at 1. kstep. kstep. unfold the_log at 1. kstep.
  cbn [fst snd]. rewrite aset_aset, !aget_aset_eq by (by rewrite ?alen_aset).
  cbn [set_outstanding set_lglock lg_committing lg_outstanding]. rewrite Hcom, Hout. change (0 =? 0) with true. kif.
  change (1 - 1 =? 0) with true. kif. kstep. unfold upd_log at 1. kstep. cbn [fst snd]. rewrite aset_aset, aget_aset_eq by done.
  kstep. apply (runs_release_le (log_lock dev) k);
    [done|by apply kern_le_refl, pushed_ok|cbn; by rewrite alen_aset|cbn; by rewrite aget_aset_eq..|].
  intros k1 Hk1. cbn [view over log_lock fst snd]. rewrite aset_aset, aget_aset_eq by done. unfold when. kif.
  match goal with |- context [aset logs dev ?v] => set (l1 := v) end.
  assert (Hx1 : lsim k0 (aset logs dev l1) (k1, (s, aset logs dev l1)) A) by by eapply lsim_step.
  assert (E1 : aget (aset logs dev l1) dev = l1) by by apply aget_aset_eq.
  assert (Hr1 : commit_ready (aset logs dev l1) dev start size bs A).
  { destruct Hr as [H1 H2 H3 H4 H5 H6 H7 H8 H9 H10]. rewrite Hl in H3, H4. split; try done.
    - by rewrite alen_aset.
    - by rewrite E1.
    - by rewrite E1. }
  kstep. case_decide as Hbs.
  - eapply runs_eq.
    { unfold commit, the_log, mbind, M_bind, gets. cbn [snd]. rewrite E1. subst bs.
      destruct (cr_lh _ _ _ _ _ _ Hr1) as [Hn _]. rewrite E1 in Hn. rewrite Hn. reflexivity. }
    cbn beta iota. eapply runs_mono; [apply (runs_end_commit 0 A k1 s l1 Hx1); done|].
    intros [] x' (l' & Hx' & Hi' & Hn' & _). exists l'. split; [done|]. split; [done|]. rewrite Hn'.
    destruct (cr_lh _ _ _ _ _ _ Hr) as [Hn _]. rewrite Hl in Hn. cbn. rewrite Hn. by subst bs.
  - kapply (runs_commit k0 _ dev start size bs _ A Hx1 Hr1 Hbs). intros [] [k2 [s2 lg2]] Hx2.
    rewrite E1, aset_aset in Hx2. pose proof (proj2 (proj2 Hx2)) as Elg. cbn in Elg. subst lg2.
    eapply runs_mono; [apply (runs_end_commit 0 _ k2 s2 (set_lhn 0 l1) Hx2); done|].
    intros [] x' (l' & Hx' & Hi' & Hn' & _). exists l'. done.
Qed.

(** An operation that is not the last lets the others go on. *)
Lemma runs_end_op_more :
  lg_outstanding l ≠ 1 → lg_committing l = 0 →
  runs (end_op dev) (k, (s, logs)) (λ _ x', ∃ l',
    lsim k0 (aset logs dev l') x' A ∧ log_idle l l' (lg_outstanding l - 1) ∧
    lh_n l' = lh_n l ∧ lh_block l' = lh_block l).
Proof using All.
  intros Hout Hcom. unfold end_op. kstep. apply (runs_acquire_le (log_lock dev)); [done|by cbn; rewrite Hl|].
  cbn [view over log_lock fst snd]. rewrite Hl. kstep. unfold upd_log at 1. kstep. kstep. unfold the_log at 1. kstep.
  cbn [fst snd]. rewrite aset_aset, !aget_aset_eq by (by rewrite ?alen_aset).
  cbn [set_outstanding set_lglock lg_committing lg_outstanding]. rewrite Hcom. change (0 =? 0) with true. kif.
  rewrite (proj2 (Z.eqb_neq (lg_outstanding l - 1) 0)) by lia. kif.
  kcall (runs_wakeup_le ChLog (pushed k) _ (pushed_ok _ Hkok)).
  intros [] [k3 s3]. cbn [fst snd]. intros (-> & Hk3). kstep.
  apply (runs_release_le (log_lock dev) k); [done|done|cbn; by rewrite alen_aset|cbn; by rewrite aget_aset_eq..|].
  intros k4 Hk4. unfold when. kif. kstep. cbn. rewrite aset_aset, aget_aset_eq by done.
  eexists. split; [by eapply lsim_step|]. done.
Qed.

(** ** log_write *)

(** The list of the transaction once block [b] is logged. *)
Definition absorb (b : Z) (bs : list Z) : list Z :=
  if decide (b ∈ u32 <$> bs) then bs else bs ++ [i32 b].

Lemma runs_find_block (x : kern * (S * list log_st)) logs' b bs :
  x.2.2 = logs' → lh_is (aget logs' dev) bs → Z.of_nat (length bs) ≤ LOGSIZE →
  runs (find_block dev (Z.of_nat (length bs)) b) x (λ r x', x' = x ∧ 0 ≤ r ≤ Z.of_nat (length bs) ∧
    (r = Z.of_nat (length bs) → b ∉ u32 <$> bs) ∧
    (r < Z.of_nat (length bs) → ∃ c, bs !! Z.to_nat r = Some c ∧ u32 c = b)).
Proof.
  intros Hlg Hlh Hmax. unfold find_block.
  apply (runs_loop _ (λ t x', x' = x ∧ 0 ≤ t ≤ Z.of_nat (length bs) ∧ ∀ j c, (j < Z.to_nat t)%nat → bs !! j = Some c → u32 c ≠ b)
    (λ t _, Z.to_nat (Z.of_nat (length bs) - t))).
  - intros t x1 (-> & Ht & Hno). destruct (Z.leb_spec (Z.of_nat (length bs)) t) as [Hge|Hlt].
    + kstep. split; [done|]. split; [lia|]. split; [|lia]. intros _ (c & -> & (j & Hj)%list_elem_of_lookup)%list_elem_of_fmap.
      apply (Hno j c); [|done|done]. pose proof (lookup_lt_Some _ _ _ Hj). lia.
    + destruct (lookup_lt_is_Some_2 bs (Z.to_nat t)) as [c Hc]; [lia|].
      assert (aget (lh_block (aget logs' dev)) t = c) as Ec.
      { rewrite <- (Z2Nat.id t) by lia. by apply Hlh. }
      kstep. unfold get_lhblock, the_log. kstep. kstep. rewrite Hlg.
      rewrite (proj2 (Z.leb_le 0 t)), (proj2 (Z.ltb_lt t LOGSIZE)) by lia. kif. kstep. rewrite Ec.
      destruct (Z.eqb_spec (u32 c) b) as [E|E]; kif; kstep.
      * split; [done|]. split; [lia|]. split; [lia|]. intros _. eauto.
      * split; [|lia]. split; [done|]. split; [lia|]. intros j c' Hj Hc'.
        destruct (decide (j = Z.to_nat t)) as [->|]; [naive_solver|]. apply (Hno j c'); [lia|done].
  - split; [done|]. split; [lia|]. intros j c Hj. lia.
  - lia.
Qed.

Lemma i32_u32 c : is_i32 c → i32 (u32 c) = c.
Proof.
  intros Hc. unfold i32, u32. rewrite Zplus_mod_idemp_l. unfold is_i32 in Hc.
  rewrite Z.mod_small; lia.
Qed.

(** [log_write] adds the block to the transaction and pins its buffer, unless
    the transaction already has it. *)
Lemma runs_log_write h b bs :
  ca_held A h = Some (dev, b) → ca_ref A (dev, b) < 2 ^ 32 - 1 → 0 ≤ b < 2 ^ 32 →
  lh_is l bs → Forall is_i32 bs → alen (lh_block l) = LOGSIZE →
  lh_n l < LOGSIZE → lh_n l < lg_size l - 1 → 1 ≤ lg_outstanding l →
  runs (log_write h) (k, (s, logs)) (λ _ x', ∃ l',
    lsim k0 (aset logs dev l') x' (if decide (b ∈ u32 <$> bs) then A else ca_pin (dev, b) A) ∧
    lh_is l' (absorb b bs) ∧ alen (lh_block l') = LOGSIZE ∧ lg_committing l' = lg_committing l ∧
    log_idle l (set_committing 0 l') (lg_outstanding l)).
Proof using All.
  intros Hh Hmax Hb Hlh Hi32 Hlen Hn1 Hn2 Hout. pose proof (proj1 Hlh) as Hn.
  unfold log_write. kstep. kstep. cbn [fst snd]. rewrite (bkey_spec k s i pid A h (dev, b) (proj1 Hx) Hh).
  kstep. unfold the_log at 1. kstep. cbn [snd]. rewrite Hl.
  rewrite (proj2 (Z.leb_gt LOGSIZE _)), (proj2 (Z.leb_gt (lg_size l - 1) _)), (proj2 (Z.ltb_ge (lg_outstanding l) 1)) by lia.
  kif. kstep. apply (runs_acquire_le (log_lock dev)); [done|by cbn; rewrite Hl|].
  cbn [view over log_lock fst snd]. rewrite Hl. set (l1 := set_lglock _ l). kstep. unfold the_log at 1. kstep.
  cbn [snd]. rewrite aget_aset_eq by done. change (lh_n l1) with (lh_n l). rewrite Hn.
  assert (aget (aset logs dev l1) dev = l1) as E1 by by apply aget_aset_eq.
  kcall (runs_find_block (pushed k, (s, aset logs dev l1)) (aset logs dev l1) b bs);
    [done|by rewrite E1|lia|].
  intros r x1 (-> & Hr & Hnew & Hold). unfold put_lhblock.
  rewrite (proj2 (Z.leb_le 0 r)), (proj2 (Z.ltb_lt r LOGSIZE)) by lia. kif. kstep. unfold upd_log at 1. kstep.
  cbn [fst snd]. rewrite E1, aset_aset. set (l2 := set_lhblock _ l1).
  unfold absorb. destruct (decide (r = Z.of_nat (length bs))) as [Er|Er].
  - rewrite decide_False by by apply Hnew. rewrite decide_False by by apply Hnew.
    rewrite (proj2 (Z.eqb_eq r _)) by done. unfold when. kif. kstep.
    assert (Hx2 : lsim (pushed k) (aset logs dev l2) (pushed k, (s, aset logs dev l2)) A).
    { split; [|split; [by apply kern_le_refl, pushed_ok|done]].
      eapply babs_kern; [exact (proj1 Hx)|by apply pushed_running]. }
    kcall (runs_lbpin _ _ _ _ Hx2 h (dev, b) Hh Hmax). intros [] [k3 [s3 lg3]] (Ha3 & Hk3 & Elg). cbn in Ha3, Hk3, Elg. subst lg3.
    unfold upd_log. kstep. cbn [fst snd]. rewrite aget_aset_eq, aset_aset by done.
    apply (runs_release_le (log_lock dev) k); [done|done|cbn; by rewrite alen_aset|cbn; by rewrite aget_aset_eq..|].
    intros k4 Hk4. cbn [view over log_lock fst snd]. rewrite aset_aset, aget_aset_eq by done.
    eexists. split; [split; [|split; [|reflexivity]]|].
    + eapply babs_kern; [exact Ha3|]. by eapply kern_le_running.
    + destruct Hx as (_ & ? & _). by eapply kern_le_trans.
    + cbn. split; [|by rewrite alen_aset]. split; [cbn; rewrite length_app; cbn; lia|]. intros t c Hc. cbn.
      destruct (decide (t = length bs)) as [->|Hne].
      * rewrite lookup_app_r, Nat.sub_diag in Hc by done. injection Hc as <-. rewrite Er. apply aget_aset_eq. lia.
      * assert (t < length bs)%nat. { apply lookup_lt_Some in Hc. rewrite length_app in Hc. cbn in Hc. lia. }
        rewrite lookup_app_l in Hc by done. rewrite aget_aset_ne by lia. by apply Hlh.
  - destruct Hold as (c & Hc & Ecb); [lia|].
    assert (Hin : b ∈ u32 <$> bs).
    { apply list_elem_of_fmap. exists c. split; [done|]. by eapply list_elem_of_lookup_2. }
    rewrite !decide_True by done. rewrite (proj2 (Z.eqb_neq r _)) by done. unfold when. kif. kstep. kstep.
    apply (runs_release_le (log_lock dev) k);
      [done|by apply kern_le_refl, pushed_ok|cbn; by rewrite alen_aset|cbn; by rewrite aget_aset_eq..|].
    intros k4 Hk4. cbn [view over log_lock fst snd]. rewrite aset_aset, aget_aset_eq by done.
    eexists. split; [by eapply lsim_step|].
    cbn. split; [|by rewrite alen_aset]. split; [done|]. intros t c' Hc'. cbn.
    destruct (decide (t = Z.to_nat r)) as [->|Hne].
    + rewrite Z2Nat.id by lia. rewrite aget_aset_eq by lia. assert (c' = c) as -> by congruence. rewrite <- Ecb.
      apply i32_u32. eapply Forall_forall; [exact Hi32|]. by eapply list_elem_of_lookup_2.
    + rewrite aget_aset_ne by lia. by apply Hlh.
Qed.
End Ops.
End LogOps.
