(* ===== verification/LogSafety.v ===== *)
(** * Crash safety of the log

    The theorems about kernel/log.c: transactions are atomic across crashes,
    what recovery does to the reference counts of the buffer cache, and what
    [log_write] does to a transaction. *)

From S2P Require Import Prelude Memory Riscv Spinlock Core Kalloc Sleeplock BufCache Bio BioProof BioSpec Log Crash LogProof.

Section LogSafety.
Context {S : Type} `{BC : BufCache S} (i : nat) (pid : Z).
Abbreviation lsim := (lsim i pid).

(** The disk writes of the commit of [bs]. *)
Definition trans_writes (dev start : Z) (bs : list Z) (A : cache) : list dwrite :=
  if decide (bs = []) then [] else commit_writes dev start bs (ca_data A) (ca_disk A).

Lemma same_home_trans dev start size D1 D2 D3 :
  same_home dev start size D1 D2 → same_home dev start size D2 D3 → same_home dev start size D1 D3.
Proof. intros H1 H2 κ Hκ. by rewrite H1, H2. Qed.

(** Recovery after a crash of the commit, and any number of crashes of the
    recovery. *)
Lemma recover_trans dev start size bs A D j :
  0 < size → logged dev start size bs → length (ca_disk A (hdr_blk dev start)) = Z.to_nat BSIZE →
  hdr_n (ca_disk A (hdr_blk dev start)) = 0 →
  crashes dev start (apply_writes (take j (trans_writes dev start bs A)) (ca_disk A)) D →
  log_wf dev start size D ∧
  same_home dev start size (recover dev start D)
    (if decide (j ≤ length bs)%nat then ca_disk A else apply_writes (home_writes dev bs (ca_data A)) (ca_disk A)).
Proof.
  intros Hs Hbs Hlen Hn Hc. unfold trans_writes in Hc. case_decide as Hb.
  - subst bs. rewrite take_nil in Hc.
    assert (log_wf dev start size (ca_disk A)) as Hwf.
    { split; [done|]. split; [lia|]. rewrite hdr_list_0 by done. done. }
    destruct (recover_crashes dev start size _ _ Hs Hwf Hc) as [Hwf' Hr]. split; [done|].
    eapply same_home_trans; [exact Hr|]. intros κ Hκ. rewrite recover_idle; [by case_decide|done|].
    intros ->. apply Hκ. by apply in_log_hdr.
  - pose proof (crash_wf dev start size bs (ca_data A) (ca_disk A) j Hs Hbs Hlen Hn) as Hwf.
    destruct (recover_crashes dev start size _ _ Hs Hwf Hc) as [Hwf' Hr]. split; [done|].
    eapply same_home_trans; [exact Hr|]. by apply crash_atomic.
Qed.

(** The disk after recovery. *)
Lemma recovered_home dev start size bs D B :
  ca_disk B = D →
  same_home dev start size (ca_disk (ca_writes (recovery_writes dev start (ca_disk B)) (ca_drops bs B))) (recover dev start D).
Proof. intros <- κ _. unfold recover. cbn. by rewrite (proj1 (proj2 (proj2 (ca_drops_rest bs B)))). Qed.

(** C1: transactions are atomic.  When the last operation of a transaction ends,
    [end_op] commits: it returns with the home blocks on the disk equal to the
    cache and the log empty.  If instead the machine stops after any number [j] of its
    disk writes, and then any number of times during the recoveries that
    follow, the recovery that runs to its end ([recover_from_log] with an empty
    cache) leaves the file system as it was before the transaction ([j] at most the number
    of blocks), or with all of its writes. *)
Theorem end_op_crash_atomic k0 k s logs dev l start size bs A :
  lsim k0 logs (k, (s, logs)) A → aget logs dev = l → locked (lg_lock l) = 0 →
  lg_outstanding l = 1 → lg_committing l = 0 → commit_ready logs dev start size bs A →
  let new := apply_writes (home_writes dev bs (ca_data A)) (ca_disk A) in
  runs (end_op dev) (k, (s, logs)) (λ _ x', ∃ l' A' ws,
    lsim k0 (aset logs dev l') x' A' ∧ lh_n l' = 0 ∧ lg_outstanding l' = 0 ∧
    ca_trace A' = reverse ws ++ ca_trace A ∧ same_home dev start size (ca_disk A') new ∧
    ∀ j k1 y logs1 B,
      crashes dev start (apply_writes (take j ws) (ca_disk A)) (ca_disk B) →
      lsim k1 logs1 y B → recover_ready logs1 dev start size B →
      runs (recover_from_log dev) y (λ _ y', ∃ logs2 B', lsim k1 logs2 y' B' ∧
        same_home dev start size (ca_disk B') (if decide (j ≤ length bs)%nat then ca_disk A else new))).
Proof.
  intros Hx Hl Hfree Hout Hcom Hr new. pose proof Hr as [Hdev Hg Hst Hlh Hbs Hid Hlog Hpin Hroom Hemp].
  pose proof (ge_size _ _ _ Hg) as Hs.
  assert (length (ca_disk A (hdr_blk dev start)) = Z.to_nat BSIZE) as Hlen.
  { rewrite <- (babs_clean (k, s) i pid A); [by eapply babs_len, Hx|apply Hx|by eapply hdr_ok|by apply Hlog, in_log_hdr]. }
  eapply runs_mono; [by apply (runs_end_op_last i pid k0 k logs s A dev l Hx Hdev Hl Hfree start size bs)|].
  intros [] x' (l' & Hx' & (Ho & _) & Hn). eexists l', _, (trans_writes dev start bs A). split; [exact Hx'|].
  split; [done|]. split; [done|]. split; [|split].
  - unfold trans_writes. case_decide; [done|]. cbn. f_equal. apply ca_drops_rest.
  - intros κ Hκ. unfold new. case_decide as Hb; [by subst bs|]. cbn [ca_writes ca_disk].
    rewrite (proj1 (proj2 (proj2 (ca_drops_rest _ A)))).
    rewrite <- (crash_end dev start size bs Hbs (ca_data A) (ca_disk A) Hlen Hs κ Hκ). symmetry.
    assert (κ ≠ hdr_blk dev start) by (intros ->; apply Hκ; by apply in_log_hdr).
    apply recover_idle; [|done].
    destruct (hdr_erased (hdr_of bs (ca_disk A (hdr_blk dev start)))) as [Hz _];
      [rewrite length_hdr_of; [done|by eapply bs_fits]|].
    unfold commit_writes. by rewrite !app_assoc, apply_writes_snoc, kset_eq.
  - intros j k1 y logs1 B Hc Hy Hrr. destruct (recover_trans dev start size bs A _ j Hs Hbs Hlen Hemp Hc) as [Hwf Hrec].
    eapply runs_mono; [by apply (runs_recover i pid k1 logs1 dev start size y B Hy Hrr)|].
    intros [] y' (l2 & Hy' & _). eexists _, _. split; [exact Hy'|].
    eapply same_home_trans; [by apply recovered_home|exact Hrec].
Qed.

(** C28: recovery loses buffers.  [install_trans] calls [bunpin] for each block it
    installs, but during recovery nobody has pinned them: the reference count of
    every recovered block ends at 2^32-1, and the buffers of the cache that hold
    them are in use for good. *)
Theorem recovery_leaks_buffers k0 logs dev start size x A :
  let bs := hdr_list (ca_disk A (hdr_blk dev start)) in
  lsim k0 logs x A → recover_ready logs dev start size A → log_wf dev start size (ca_disk A) →
  runs (recover_from_log dev) x (λ _ x', ∃ logs' A', lsim k0 logs' x' A' ∧
    (∀ b, b ∈ bs → ca_ref A' (home dev b) = 2 ^ 32 - 1) ∧ ca_used A' = length bs).
Proof.
  intros bs Hx Hr Hwf. eapply runs_mono; [by apply (runs_recover i pid k0 logs dev start size x A)|].
  intros [] x' (l' & Hx' & _). eexists _, _. split; [exact Hx'|].
  destruct Hr as [_ _ _ _ _ Href Hus]. destruct Hwf as (_ & _ & Hbs). cbn [ca_writes ca_ref ca_used]. split.
  - intros b Hb. rewrite ca_drops_in; [by rewrite Href|apply Hbs|]. apply list_elem_of_fmap. eauto.
  - rewrite used_drops_zero, Hus, length_fmap; [done|apply Hbs|done].
Qed.

(** A transaction in progress: its blocks fit in the log and are pinned, and the
    log on the disk is empty. *)
Record trans_ok (logs : list log_st) (dev start size : Z) (bs : list Z) (A : cache) : Prop := {
  tr_dev : 0 ≤ dev < alen logs;
  tr_geom : geom dev start size;
  tr_start : lg_start (aget logs dev) = start;
  tr_size : lg_size (aget logs dev) = size;
  tr_lh : lh_is (aget logs dev) bs;
  tr_len : alen (lh_block (aget logs dev)) = LOGSIZE;
  tr_logged : logged dev start size bs;
  tr_log : ∀ κ, in_log dev start size κ → ca_ref A κ = 0;
  tr_pin : ∀ b, b ∈ bs → ca_ref A (home dev b) ≠ 0 ∧ ca_ref A (home dev b) < 2 ^ 32 - 1;
  tr_empty : hdr_n (ca_disk A (hdr_blk dev start)) = 0;
}.

(** When nobody holds a buffer it can be committed. *)
Lemma trans_commit logs dev start size bs A :
  trans_ok logs dev start size bs A → ca_idle A → (ca_used A < Z.to_nat NBUF)%nat →
  commit_ready logs dev start size bs A.
Proof. by intros [] ? ?. Qed.

Lemma home_i32 dev b : 0 ≤ b < 2 ^ 32 → home dev (i32 b) = (dev, b).
Proof.
  intros Hb. unfold home. f_equal. unfold u32, i32. rewrite Zminus_mod_idemp_l.
  replace (b + 2 ^ 31 - 2 ^ 31) with b by lia. apply Z.mod_small. lia.
Qed.

Lemma home_in dev b (bs : list Z) : (dev, b) ∈ home dev <$> bs ↔ b ∈ u32 <$> bs.
Proof. rewrite !list_elem_of_fmap. unfold home. split; intros (c & E & Hc); exists c; (split; [congruence|done]). Qed.

Lemma logged_absorb dev start size b bs :
  logged dev start size bs → 0 ≤ b < 2 ^ 32 → ¬ in_log dev start size (dev, b) → (dev, b) ≠ (0, 0) →
  Z.of_nat (length bs) < size - 1 → Z.of_nat (length bs) < LOGSIZE → logged dev start size (absorb b bs).
Proof.
  intros [H1 H2 H3 H4 H5 H6] Hb Hout Hnz Hs Hm. unfold absorb. case_decide as Hin; [done|].
  assert (is_i32 (i32 b)) by (unfold is_i32, i32; pose proof (Z.mod_pos_bound (b + 2 ^ 31) (2 ^ 32)); lia).
  split.
  - rewrite fmap_app. apply NoDup_app. split; [done|]. split; [|apply NoDup_singleton].
    intros κ Hκ Hk%list_elem_of_singleton. rewrite home_i32 in Hk by done. subst κ. by rewrite home_in in Hκ.
  - apply Forall_app. split; [done|]. by constructor.
  - intros c [Hc|Hc%list_elem_of_singleton]%elem_of_app; [by apply H3|]. subst c. by rewrite home_i32.
  - intros c [Hc|Hc%list_elem_of_singleton]%elem_of_app; [by apply H4|]. subst c. by rewrite home_i32.
  - rewrite length_app. cbn. lia.
  - rewrite length_app. cbn. lia.
Qed.

(** Pinning a block keeps the others. *)
Lemma pin_ref κ A κ' : 0 ≤ ca_ref A κ < 2 ^ 32 - 1 →
  ca_ref (ca_pin κ A) κ' = if decide (κ' = κ) then ca_ref A κ + 1 else ca_ref A κ'.
Proof. intros Hr. cbn. unfold kset. case_decide; [|done]. rewrite u32_small; lia. Qed.

Lemma runs_log_write_trans k0 k s logs dev start size bs A h b :
  lsim k0 logs (k, (s, logs)) A → trans_ok logs dev start size bs A →
  let l := aget logs dev in
  locked (lg_lock l) = 0 → 1 ≤ lg_outstanding l → Z.of_nat (length bs) < size - 1 →
  ca_held A h = Some (dev, b) → ca_sound A → ca_ref A (dev, b) < 2 ^ 32 - 2 → ¬ in_log dev start size (dev, b) →
  runs (log_write h) (k, (s, logs)) (λ _ x', ∃ l' A',
    lsim k0 (aset logs dev l') x' A' ∧ trans_ok (aset logs dev l') dev start size (absorb b bs) A' ∧
    A' = (if decide (b ∈ u32 <$> bs) then A else ca_pin (dev, b) A) ∧
    locked (lg_lock l') = 0 ∧ lg_outstanding l' = lg_outstanding l ∧ lg_committing l' = lg_committing l).
Proof.
  intros Hx [Hdev Hg Hst Hsz Hlh Hlen Hbs Hlog Hpin Hemp] l Hfree Hout Hn Hh Hsnd Hmax Hnl.
  pose proof (babs_held _ _ _ _ _ _ (proj1 Hx) Hh) as (_ & Hb & Hnz). cbn in Hb.
  pose proof (babs_ref _ _ _ _ (dev, b) (proj1 Hx)) as Hrr. pose proof (Hsnd _ _ Hh) as Hr0.
  pose proof (ge_log _ _ _ Hg) as Hgl. pose proof (proj1 Hlh) as Hln.
  eapply runs_mono; [apply (runs_log_write i pid k0 k logs s A dev l Hx Hdev eq_refl Hfree h b bs); try done; [lia|apply Hbs|unfold l; lia|unfold l; lia]|].
  intros [] x' (l' & Hx' & Hlh' & Hlen' & Hco & (Ho' & _ & Hf' & Hst' & Hsz' & _)). eexists l', _. split; [exact Hx'|]. split; [|done].
  assert (El : aget (aset logs dev l') dev = l') by by apply aget_aset_eq.
  split; rewrite ?El; try done.
  - by rewrite alen_aset.
  - by cbn in Hst'; rewrite Hst'.
  - by cbn in Hsz'; rewrite Hsz'.
  - apply logged_absorb; try done; lia.
  - intros κ Hκ. case_decide; [by apply Hlog|]. rewrite pin_ref by lia. rewrite decide_False; [by apply Hlog|by intros ->].
  - intros c Hc. unfold absorb in Hc. case_decide as Hin; [by apply Hpin|]. rewrite pin_ref by lia.
    apply elem_of_app in Hc as [Hc|Hc%list_elem_of_singleton].
    + rewrite decide_False; [by apply Hpin|]. intros E. apply Hin, (home_in dev). rewrite <- E. apply list_elem_of_fmap. eauto.
    + subst c. rewrite home_i32, decide_True by done. lia.
  - by case_decide.
Qed.

(** [log_write] of a locked buffer adds its block to the transaction once:
    the first time the block is appended to the header and its buffer pinned, so that the
    cache cannot evict it before the commit; a later one changes nothing.  The
    transaction stays well formed and the disk is not touched. *)
Theorem log_write_correct k0 k s logs dev start size bs A h b :
  lsim k0 logs (k, (s, logs)) A → trans_ok logs dev start size bs A →
  let l := aget logs dev in
  locked (lg_lock l) = 0 → 1 ≤ lg_outstanding l → Z.of_nat (length bs) < size - 1 →
  ca_held A h = Some (dev, b) → ca_sound A → ca_ref A (dev, b) < 2 ^ 32 - 2 → ¬ in_log dev start size (dev, b) →
  runs (log_write h) (k, (s, logs)) (λ _ x', ∃ logs' A',
    lsim k0 logs' x' A' ∧ trans_ok logs' dev start size (absorb b bs) A' ∧
    A' = (if decide (b ∈ u32 <$> bs) then A else ca_pin (dev, b) A)).
Proof.
  intros. eapply runs_mono; [by apply (runs_log_write_trans k0 k s logs dev start size bs A h b)|].
  intros [] x' (l' & A' & ? & ? & ? & _). eauto.
Qed.

(** [begin_op] admits an operation when the log has room for all the blocks
    the admitted ones may write, and counts it; otherwise, or during a commit, the process
    goes to sleep on the log, which is unchanged and unlocked. *)
Theorem begin_op_admits_or_sleeps k0 k s logs dev l A :
  lsim k0 logs (k, (s, logs)) A → 0 ≤ dev < alen logs → aget logs dev = l → locked (lg_lock l) = 0 →
  c_noff (k_cpu k) = 0 →
  if (lg_committing l =? 0) && (lh_n l + (lg_outstanding l + 1) * MAXOPBLOCKS <=? LOGSIZE) then
    runs (begin_op dev) (k, (s, logs)) (λ _ x', ∃ lk, locked lk = 0 ∧
      lsim k0 (aset logs dev (set_lglock lk (set_outstanding (lg_outstanding l + 1) l))) x' A)
  else
    halts (begin_op dev) (k, (s, logs)) Asleep (λ x', ∃ lk, locked lk = 0 ∧
      x'.2 = (s, aset logs dev (set_lglock lk l)) ∧
      p_state (k_procs x'.1 !!! i) = SLEEPING ∧ p_chan (k_procs x'.1 !!! i) = Some ChLog).
Proof.
  intros Hx Hdev Hl Hfree Hno. destruct (_ && _) eqn:Hb.
  - zify_bool. by apply (runs_begin_op i pid k0 k logs s A dev l Hx Hdev Hl Hfree).
  - apply (begin_op_waits i pid k0 k logs s A dev l Hx Hdev Hl Hfree); [|done].
    apply andb_false_iff in Hb as [Hb|Hb]; zify_bool; [by left|by right].
Qed.

End LogSafety.

(** * Examples for the buffer cache and the log

    A machine just booted, with an empty disk: one operation that changes one
    block, and a disk with a committed transaction.  The theorems about bio.c and
    log.c apply to these states. *)

Definition zero_block : list Z := replicate (Z.to_nat BSIZE) 0.
Definition full_block : list Z := replicate (Z.to_nat BSIZE) 7.

Definition ex_disk : contents := λ _, zero_block.

(** The cache after [binit], on disk [D]. *)
Definition ex_bio0 (D : contents) : bio_st :=
  BioSt (initlock "") (replicate (Z.to_nat (NBUF + 1)) buf0) (Disk D []).
Definition ex_boot (D : contents) : kern * bio_st := state binit (demo_kern, ex_bio0 D).
Definition ex_cache (D : contents) : cache := fresh_cache (Disk D []).

Lemma demo_running : running demo_kern 0 0.
Proof.
  split; [|split; [done|split; [unfold NPROC; lia|done]]]. split; [exact demo_cpu_ok|]. split; [done|].
  intros j. cbn [demo_kern k_procs]. destruct (decide (j < Z.to_nat NPROC)%nat) as [Hj|Hj].
  - by rewrite lookup_total_replicate_2.
  - by rewrite list_lookup_total_alt, lookup_ge_None_2 by (rewrite length_replicate; lia).
Qed.

Lemma ex_boot_ok D : (∀ κ, length (D κ) = Z.to_nat BSIZE) → bio_abs (ex_boot D) 0 0 (ex_cache D).
Proof.
  intros HD.
  assert (runs binit (demo_kern, ex_bio0 D) (λ _ x, bio_abs x 0 0 (ex_cache D))) as Hr.
  { eapply runs_mono; [apply (runs_binit demo_kern (ex_bio0 D) 0); [done| |done]|].
    - intros b Hb. unfold key, getb, aget. cbn [ex_bio0 bc_buf]. rewrite lookup_total_replicate_2; [done|].
      unfold bidx, NBUF in *. lia.
    - intros [] [k s]. cbn [fst snd]. intros (-> & Hok & _). split; [exact demo_running|done]. }
  exact (runs_result _ _ _ _ tt eq_refl Hr).
Qed.

Lemma ex_boot_kern D : (ex_boot D).1 = demo_kern.
Proof. reflexivity. Qed.

Lemma ex_boot_keys b : bidx b → key (ex_boot ex_disk).2 b = (0, 0) ∧ b_refcnt (getb (ex_boot ex_disk).2 b) = 0.
Proof.
  intros Hb.
  assert (forallb (λ b, bool_decide (key (ex_boot ex_disk).2 b = (0, 0)) && (b_refcnt (getb (ex_boot ex_disk).2 b) =? 0))
    (seqZ 0 NBUF) = true) as Hall by (vm_compute; reflexivity).
  rewrite forallb_forall in Hall. specialize (Hall b (proj1 (list_elem_of_In _ _) (proj2 (elem_seq b) Hb))).
  apply andb_true_iff in Hall as [H1 H2]. split; [by apply bool_decide_eq_true_1 in H1|by apply Z.eqb_eq].
Qed.

Lemma ex_boot_lru : lru (ex_boot ex_disk).2 (reverse (seqZ 0 NBUF)).
Proof.
  assert (runs binit (demo_kern, ex_bio0 ex_disk) (λ _ x, lru x.2 (reverse (seqZ 0 NBUF)))) as Hr.
  { eapply runs_mono; [apply (runs_binit demo_kern (ex_bio0 ex_disk) 0); [done| |done]|].
    - intros b Hb. unfold key, getb, aget. cbn [ex_bio0 bc_buf]. rewrite lookup_total_replicate_2; [done|].
      unfold bidx, NBUF in *. lia.
    - intros [] x (_ & _ & H). exact H. }
  exact (runs_result _ _ _ _ tt eq_refl Hr).
Qed.

Lemma ex_boot_first :
  hd_error (filter (λ b, (b_refcnt (getb (ex_boot ex_disk).2 b) =? 0) = true) (reverse (reverse (seqZ 0 NBUF)))) = Some 0.
Proof. vm_compute. reflexivity. Qed.

#[local] Opaque ex_boot.

Lemma boot_sim x A logs : bio_abs x 0 0 A → lsim 0 0 x.1 logs (x.1, (x.2, logs)) A.
Proof.
  destruct x as [k s]. intros [Hr Hok]. split; [by split|]. split; [|done]. apply kern_le_refl, Hr.
Qed.

(** ** One operation *)

Definition ex_log : log_st := set_lggeom 2 LOGSIZE 1 log0.
Definition ex_logs : list log_st := [log0; ex_log].
Definition ex_sys (D : contents) : kern * (bio_st * list log_st) := ((ex_boot D).1, ((ex_boot D).2, ex_logs)).

Lemma ex_sys_sim D : (∀ κ, length (D κ) = Z.to_nat BSIZE) → lsim 0 0 (ex_boot D).1 ex_logs (ex_sys D) (ex_cache D).
Proof.
  intros HD. exact (boot_sim _ _ _ (ex_boot_ok D HD)).
Qed.

Lemma ex_dev l : 0 ≤ 1 < alen [log0; l].
Proof. done. Qed.

Lemma ex_geom : geom 1 2 LOGSIZE.
Proof. by split. Qed.

(** A state inside an operation, with block 46 read. *)
Definition ex_open : M (kern * (bio_st * list log_st)) Z :=
  begin_op 1;; h ← zoom cache_of (BufCache.bread 1 46); put_data h full_block;; mret h.

Definition ex_inside (x : kern * (bio_st * list log_st)) (h : Z) (l : log_st) (A : cache) : Prop :=
  lsim 0 0 (ex_boot ex_disk).1 [log0; l] x A ∧ trans_ok [log0; l] 1 2 LOGSIZE [] A ∧
  locked (lg_lock l) = 0 ∧ lg_outstanding l = 1 ∧ lg_committing l = 0 ∧
  A = ca_set (1, 46) full_block (ca_bread (1, 46) h (ex_cache ex_disk)).

Lemma runs_ex_open : runs ex_open (ex_sys ex_disk) (λ h x, ∃ l A, ex_inside x h l A).
Proof.
  assert (Hx := ex_sys_sim ex_disk ltac:(done)).
  unfold ex_open. kcall (runs_begin_op 0 0 (ex_boot ex_disk).1 (ex_boot ex_disk).1 ex_logs (ex_boot ex_disk).2 _ 1 ex_log Hx);
    [done|done|done|done|done|].
  intros [] x1 (lk & Hlk & Hx1). cbn zeta in Hx1. set (l := set_lglock lk _) in Hx1.
  change (aset ex_logs 1 l) with [log0; l] in Hx1.
  kcall (runs_lbread 0 0 _ _ _ _ Hx1 1 46); [by repeat split|done|done|split; [right; unfold NBUF, MAXOPBLOCKS; cbn; lia|done]|].
  intros h x2 (_ & Hx2). kcall (runs_put_data 0 0 _ _ _ _ Hx2 h (1, 46) full_block); [by ca_simpl|by ca_simpl|done|].
  intros [] x3 Hx3. kstep. eexists l, _. split; [exact Hx3|]. split; [|done].
  split; try done.
  - by apply logged_nil.
  - intros κ [Hκ1 Hκ2]. ca_simpl. rewrite kset_ne; [done|]. intros ->. cbn in Hκ2. unfold LOGSIZE, MAXOPBLOCKS in Hκ2. lia.
  - intros b Hb. by apply not_elem_of_nil in Hb.
Qed.

(** The operation changes the block and logs it. *)
Definition ex_tx : M (kern * (bio_st * list log_st)) unit :=
  h ← ex_open; log_write h;; zoom cache_of (BufCache.brelse h).

Definition ex_logged (x : kern * (bio_st * list log_st)) (l : log_st) (A : cache) : Prop :=
  lsim 0 0 (ex_boot ex_disk).1 [log0; l] x A ∧ commit_ready [log0; l] 1 2 LOGSIZE [46] A ∧
  locked (lg_lock l) = 0 ∧ lg_outstanding l = 1 ∧ lg_committing l = 0 ∧ ca_data A (1, 46) = full_block.

(** What [log_write] needs of the state inside the operation. *)
Lemma ex_inside_pre x h l A :
  ex_inside x h l A →
  ca_held A h = Some (1, 46) ∧ ca_sound A ∧ ca_ref A (1, 46) = 1 ∧ ¬ in_log 1 2 LOGSIZE (1, 46).
Proof.
  intros (_ & _ & _ & _ & _ & ->). split; [by ca_simpl|]. split; [|split; [by ca_simpl|by intros [_ [_ ?]]]].
  intros h' κ. ca_simpl. unfold hset. case_match; [|done]. intros E. injection E as <-. by ca_simpl.
Qed.

Lemma runs_ex_tx : runs ex_tx (ex_sys ex_disk) (λ _ x, ∃ l A, ex_logged x l A).
Proof.
  unfold ex_tx. kcall runs_ex_open. intros h [k [s lg]] (l & A & Hin).
  pose proof (ex_inside_pre _ _ _ _ Hin) as (Hh & Hsnd & Href & Hnl). destruct Hin as (Hx & Htr & Hfree & Hout & Hcom & EA).
  pose proof (proj2 (proj2 Hx)) as Elg. cbn in Elg. subst lg.
  kcall (runs_log_write_trans 0 0 _ k s [log0; l] 1 2 LOGSIZE [] A h 46 Hx Htr Hfree);
    [change (1 ≤ lg_outstanding l); by rewrite Hout|done|done|done|by rewrite Href|done|].
  intros [] x1 (l1 & A1 & Hx1 & Htr1 & EA1 & Hf1 & Ho1 & Hc1). change (aset [log0; l] 1 l1) with [log0; l1] in *.
  change (absorb 46 []) with [46] in Htr1. rewrite decide_False in EA1 by by intros ?%not_elem_of_nil.
  subst A1. kapply (runs_lbrelse 0 0 _ _ _ _ Hx1 h (1, 46)).
  - by subst A; ca_simpl.
  - unfold ca_flushed. by subst A; ca_simpl.
  - intros [] x2 Hx2. eexists l1, _. split; [exact Hx2|]. split; [|subst A; ca_simpl; by rewrite Ho1, Hc1].
    destruct Htr1 as [H1 H2 H3 H4 H5 H6 H7 H8 H9 H10]. split; try done.
    + intros h'. subst A. ca_simpl. unfold hset. by repeat case_match.
    + intros κ Hκ. subst A. ca_simpl. assert (κ ≠ (1, 46)) by (by intros ->). by ca_simpl.
    + intros b ->%list_elem_of_singleton. subst A. change (home 1 46) with ((1, 46) : block). by ca_simpl.
    + subst A. ca_simpl. vm_compute. lia.
Qed.

(** ** Witnesses *)

Lemma end_op_crash_atomic_witness : ∃ x l A, ex_logged x l A ∧
  runs (end_op 1) x (λ _ x', ∃ l' A', lsim 0 0 (ex_boot ex_disk).1 [log0; l'] x' A' ∧ ca_disk A' (1, 46) = full_block).
Proof.
  destruct (runs_result _ _ _ _ tt eq_refl runs_ex_tx) as (l & A & H). revert H. generalize (state ex_tx (ex_sys ex_disk)).
  intros [k [s lg]] H. pose proof H as (Hx & Hr & Hf & Ho & Hc & Hd).
  pose proof (proj2 (proj2 Hx)) as Elg. cbn in Elg. subst lg.
  exists (k, (s, [log0; l])), l, A. split; [done|].
  eapply runs_mono; [apply (end_op_crash_atomic 0 0 _ k s [log0; l] 1 l 2 LOGSIZE [46] A Hx eq_refl Hf Ho Hc Hr)|].
  intros [] x' (l' & A' & ws & Hx' & _ & _ & _ & Hnew & _). exists l', A'. split; [exact Hx'|].
  rewrite Hnew; [exact Hd|]. by intros [_ [_ ?]].
Defined.

Lemma log_write_correct_witness : ∃ x h l A, ex_inside x h l A ∧
  runs (log_write h) x (λ _ x', ∃ logs' A', lsim 0 0 (ex_boot ex_disk).1 logs' x' A' ∧ ca_ref A' (1, 46) = 2).
Proof.
  destruct (runs_result _ _ _ _ 0 eq_refl runs_ex_open) as (l & A & H). revert H.
  generalize (state ex_open (ex_sys ex_disk)). generalize (result 0 ex_open (ex_sys ex_disk)).
  intros h [k [s lg]] H. pose proof (ex_inside_pre _ _ _ _ H) as (Hh & Hsnd & Href & Hnl).
  pose proof H as (Hx & Htr & Hf & Ho & Hc & EA). pose proof (proj2 (proj2 Hx)) as Elg. cbn in Elg. subst lg.
  exists (k, (s, [log0; l])), h, l, A. split; [done|].
  eapply runs_mono; [apply (log_write_correct 0 0 _ k s [log0; l] 1 2 LOGSIZE [] A h 46 Hx Htr Hf);
    [change (1 ≤ lg_outstanding l); by rewrite Ho|done|done|done|by rewrite Href|done]|].
  intros [] x' (logs' & A' & Hx' & _ & EA'). exists logs', A'. split; [exact Hx'|].
  rewrite decide_False in EA' by by intros ?%not_elem_of_nil. rewrite EA'. ca_simpl. by rewrite Href.
Defined.

Lemma begin_op_admits_or_sleeps_witness :
  runs (begin_op 1) (ex_sys ex_disk) (λ _ x', ∃ lk, locked lk = 0 ∧
    lsim 0 0 (ex_boot ex_disk).1 [log0; set_lglock lk (set_outstanding 1 ex_log)] x' (ex_cache ex_disk)) ∧
  halts (begin_op 1) ((ex_boot ex_disk).1, ((ex_boot ex_disk).2, [log0; set_committing 1 ex_log])) Asleep (λ x', ∃ lk, locked lk = 0 ∧
    x'.2 = ((ex_boot ex_disk).2, [log0; set_lglock lk (set_committing 1 ex_log)]) ∧
    p_state (k_procs x'.1 !!! 0%nat) = SLEEPING ∧ p_chan (k_procs x'.1 !!! 0%nat) = Some ChLog).
Proof.
  assert (c_noff (k_cpu (ex_boot ex_disk).1) = 0) as ex_boot_noff by by rewrite ex_boot_kern.
  pose proof (ex_boot_ok ex_disk ltac:(done)) as Hb. assert (Hx := ex_sys_sim ex_disk ltac:(done)). split.
  - pose proof (begin_op_admits_or_sleeps 0 0 _ (ex_boot ex_disk).1 (ex_boot ex_disk).2 [log0; ex_log] 1 ex_log _ Hx (ex_dev _) eq_refl eq_refl
      ex_boot_noff) as H.
    match type of H with if ?c then _ else _ => change c with true in H end. eapply runs_mono; [exact H|].
    intros [] x' (lk & Hlk & Hx'). exists lk. split; [exact Hlk|exact Hx'].
  - pose proof (begin_op_admits_or_sleeps 0 0 _ (ex_boot ex_disk).1 (ex_boot ex_disk).2 [log0; set_committing 1 ex_log] 1
      (set_committing 1 ex_log) _ (boot_sim _ _ [log0; set_committing 1 ex_log] Hb) (ex_dev _) eq_refl eq_refl ex_boot_noff) as H.
    match type of H with if ?c then _ else _ => change c with false in H end. eapply halts_mono; [exact H|].
    intros x' (lk & Hlk & Hx'). exists lk. split; [exact Hlk|exact Hx'].
Defined.


(** A client of the cache: read a block, write it, release it. *)
Definition ex_client (rs : list Z) : option bop :=
  match rs with
  | [] => Some (OpRead 1 46)
  | [h] => Some (OpWrite h)
  | [h; _] => Some (OpRelse h)
  | _ => None
  end.

Lemma bio_refines_cache_witness :
  runs (client_run 3 ex_client []) (ex_boot ex_disk) (λ rs' x', ∃ A',
    client_trace ex_client [] (ex_cache ex_disk) rs' A' ∧ bio_abs x' 0 0 A').
Proof.
  pose proof (ex_boot_ok ex_disk ltac:(done)) as Hb. revert Hb. generalize (ex_boot ex_disk). intros [k s] Hb.
  eapply runs_mono; [apply (bio_refines_cache 3 ex_client [] k s 0 0 _ Hb)|].
  - eapply client_op; [done| |intros h].
    { split; [by repeat split|]. split; [done|]. split; [done|]. split; [|done]. right. unfold NBUF, MAXOPBLOCKS. cbn. lia. }
    eapply client_op; [done| |intros r1].
    { exists (1, 46). cbn. by ca_simpl. }
    eapply client_op; [done| |intros r2; by constructor].
    cbn. unfold key_of. ca_simpl. exists (1, 46). split; [done|]. unfold ca_flushed. by ca_simpl.
  - intros rs' x' (A' & H1 & H2 & _). eauto.
Defined.

Lemma bget_recycles_lru_witness :
  runs (bget 1 46) (ex_boot ex_disk) (λ r x', r = 0 ∧ key x'.2 0 = (1, 46) ∧ b_refcnt (getb x'.2 0) = 1).
Proof.
  pose proof (ex_boot_ok ex_disk ltac:(done)) as Hb. pose proof ex_boot_keys as Hk. pose proof ex_boot_lru as Hl.
  pose proof ex_boot_first as Hf. revert Hb Hk Hl Hf. generalize (ex_boot ex_disk). intros [k s] Hb Hk Hl Hf. cbn [snd] in *.
  apply (bget_recycles_lru k s 0 0 _ (reverse (seqZ 0 NBUF)) 1 46 0 Hb); [done|exact Hl| |exact Hf].
  intros b Hbb. by rewrite (proj1 (Hk b Hbb)).
Defined.

(** Reading blocks 1 to [n] fills the cache. *)
Definition ex_fill (n : Z) : BM unit := for_range (Z.to_nat n) 0 (λ b, bread 1 (b + 1);; mret tt).

Lemma runs_ex_fill k s n :
  bio_abs (k, s) 0 0 (ex_cache ex_disk) → 0 ≤ n ≤ NBUF →
  runs (ex_fill n) (k, s) (λ _ x, ∃ A, bio_abs x 0 0 A ∧ ca_used A = Z.to_nat n ∧
    ∀ b, ca_ref A (1, b) = if bool_decide (1 ≤ b ≤ n) then 1 else 0).
Proof.
  intros Hb Hn. unfold ex_fill.
  apply (runs_for_range _ (λ m x, ∃ A, bio_abs x 0 0 A ∧ ca_used A = Z.to_nat m ∧
    (∀ b, ca_ref A (1, b) = if bool_decide (1 ≤ b ≤ m) then 1 else 0) ∧
    ∀ h κ, ca_held A h = Some κ → ∃ b, κ = (1, b) ∧ 1 ≤ b ≤ m)).
  - intros m [k1 s1] Hm (A & Ha & Hu & Hr & Hh). rewrite Z2Nat.id in Hm by lia.
    assert (ca_ref A (1, m + 1) = 0) as Hz by (rewrite Hr, bool_decide_eq_false_2; lia).
    kcall (runs_bread 0 0 A k1 s1 1 (m + 1) Ha).
    + unfold NBUF, MAXOPBLOCKS in *. split; [cbn; lia|]. split; [cbn; lia|done].
    + intros h κ (b & -> & Hbm)%Hh. rewrite Hr, bool_decide_eq_true_2 by lia. done.
    + intros h (b & E & Hbm)%Hh. injection E as E. lia.
    + split; [right; lia|rewrite Hz; lia].
    + intros h x (_ & Ha' & _). kstep. eexists. split; [exact Ha'|]. ca_simpl. rewrite Hz.
      split; [change (nz (u32 (0 + 1))) with 1%nat; change (nz 0) with 0%nat; lia|]. split.
      * intros b. destruct (decide (b = m + 1)) as [->|Hne].
        -- rewrite kset_eq, bool_decide_eq_true_2 by lia. done.
        -- rewrite kset_ne by (intros E; injection E as E; lia). rewrite Hr. repeat case_bool_decide; lia.
      * intros h' κ. unfold hset. case_match; [intros E; injection E as <-; eexists; split; [done|lia]|].
        intros (b & -> & Hbm)%Hh. exists b. split; [done|lia].
  - exists (ex_cache ex_disk). split; [done|]. split; [done|]. split; [|done].
    intros b. rewrite bool_decide_eq_false_2 by lia. done.
  - intros x. rewrite Z.add_0_l, Z2Nat.id by lia. intros (A & H1 & H2 & H3 & _). eauto.
Qed.

Lemma bget_no_buffers_witness : ∃ k s A, bio_abs (k, s) 0 0 A ∧ stops (bread 1 46) (k, s) (Panic "bget: no buffers").
Proof.
  pose proof (ex_boot_ok ex_disk ltac:(done)) as Hb. revert Hb. generalize (ex_boot ex_disk). intros [k s] Hb.
  pose proof (runs_ex_fill k s NBUF Hb ltac:(done)) as Hr.
  destruct (runs_result _ _ _ _ tt eq_refl Hr) as (A & Ha & Hu & Hrf). revert Ha. generalize (state (ex_fill NBUF) (k, s)).
  intros [k1 s1] Ha. exists k1, s1, A. split; [exact Ha|].
  apply (bget_no_buffers k1 s1 0 0 A 1 46 Ha Hu); [done|]. rewrite Hrf. by rewrite bool_decide_eq_false_2 by (unfold NBUF, MAXOPBLOCKS; lia).
Defined.

(** A disk with a committed transaction of block 46. *)
Definition ex_committed : contents :=
  kset (kset ex_disk (1, 2) (hdr_of [46] zero_block)) (1, 3) full_block.

Lemma ex_committed_wf : hdr_list (ex_committed (hdr_blk 1 2)) = [46] ∧ log_wf 1 2 LOGSIZE ex_committed.
Proof.
  assert (ex_committed (hdr_blk 1 2) = hdr_of [46] zero_block) as E.
  { unfold ex_committed. rewrite kset_ne by done. apply kset_eq. }
  unfold log_wf. rewrite E. assert (hdr_list (hdr_of [46] zero_block) = [46]) as El by (vm_compute; reflexivity).
  split; [done|]. split; [by vm_compute|]. split; [by vm_compute|]. rewrite El. split; try done.
  - apply NoDup_singleton.
  - by repeat constructor.
  - intros b ->%list_elem_of_singleton [_ [_ H]]. done.
Qed.

Lemma ex_committed_len κ : length (ex_committed κ) = Z.to_nat BSIZE.
Proof.
  unfold ex_committed, kset. case_decide; [done|]. case_decide; [|done]. vm_compute. reflexivity.
Qed.

Lemma recovery_leaks_buffers_witness :
  runs (recover_from_log 1) (ex_sys ex_committed) (λ _ x', ∃ logs' A',
    lsim 0 0 (ex_boot ex_committed).1 logs' x' A' ∧ ca_ref A' (1, 46) = 2 ^ 32 - 1 ∧ ca_used A' = 1%nat).
Proof.
  destruct ex_committed_wf as [El Hwf]. pose proof (ex_sys_sim ex_committed ex_committed_len) as Hx.
  eapply runs_mono; [apply (recovery_leaks_buffers 0 0 _ _ 1 2 LOGSIZE _ _ Hx); [|exact Hwf]|].
  - by split; try done.
  - intros [] x' (logs' & A' & Hx' & Hr & Hu). exists logs', A'. split; [exact Hx'|].
    change (ca_disk (ex_cache ex_committed)) with ex_committed in Hr, Hu. rewrite El in Hr, Hu.
    split; [exact (Hr 46 ltac:(by left))|exact Hu].
Defined.
