(* ===== verification/Sys.v ===== *)
(** * The state of the whole kernel

    The global variables of the kernel in one record: physical memory, the
    buffer cache, the logs, the super block, the inode cache, the file table,
    the pipes, the process bookkeeping of proc.c, the clock, the console and
    the trap registers.  The buffer cache is
    any implementation of [BufCache].  Pointers to table entries are indices, a
    null pointer is [None]; a pipe is found by the address of its page.

    [either_copyout] and [either_copyin] (kernel/proc.c) and the byte-string
    routines on kernel arrays are here because every layer above uses them. *)

From S2P Require Import Prelude Memory Riscv Spinlock Core CString Kalloc Vm Sleeplock BufCache Log.

(** kernel/fs.h *)
Record superblock := Superblock {
  sb_magic : Z; sb_size : Z; sb_nblocks : Z; sb_ninodes : Z;
  sb_nlog : Z; sb_logstart : Z; sb_inodestart : Z; sb_bmapstart : Z;
}.

Definition NDIRECT : Z := 12.

(** kernel/file.h *)
Record inode := Inode {
  i_dev : Z;
  i_inum : Z;
  i_ref : Z;
  i_lock : sleeplock;
  i_valid : Z;
  i_type : Z;             (* copy of the disk inode from here on *)
  i_major : Z;
  i_minor : Z;
  i_nlink : Z;
  i_size : Z;
  i_addrs : list Z;
}.

Definition inode0 : inode :=
  Inode 0 0 0 (initsleeplock "") 0 0 0 0 0 0 (replicate (Z.to_nat (NDIRECT + 1)) 0).
#[global] Instance inode_inhabited : Inhabited inode := populate inode0.

Definition set_ikey d n p := Inode d n (i_ref p) (i_lock p) (i_valid p) (i_type p) (i_major p) (i_minor p) (i_nlink p) (i_size p) (i_addrs p).
Definition set_iref v p := Inode (i_dev p) (i_inum p) v (i_lock p) (i_valid p) (i_type p) (i_major p) (i_minor p) (i_nlink p) (i_size p) (i_addrs p).
Definition set_ilock v p := Inode (i_dev p) (i_inum p) (i_ref p) v (i_valid p) (i_type p) (i_major p) (i_minor p) (i_nlink p) (i_size p) (i_addrs p).
Definition set_ivalid v p := Inode (i_dev p) (i_inum p) (i_ref p) (i_lock p) v (i_type p) (i_major p) (i_minor p) (i_nlink p) (i_size p) (i_addrs p).
Definition set_itype v p := Inode (i_dev p) (i_inum p) (i_ref p) (i_lock p) (i_valid p) v (i_major p) (i_minor p) (i_nlink p) (i_size p) (i_addrs p).
Definition set_imajmin a b p := Inode (i_dev p) (i_inum p) (i_ref p) (i_lock p) (i_valid p) (i_type p) a b (i_nlink p) (i_size p) (i_addrs p).
Definition set_inlink v p := Inode (i_dev p) (i_inum p) (i_ref p) (i_lock p) (i_valid p) (i_type p) (i_major p) (i_minor p) v (i_size p) (i_addrs p).
Definition set_isize v p := Inode (i_dev p) (i_inum p) (i_ref p) (i_lock p) (i_valid p) (i_type p) (i_major p) (i_minor p) (i_nlink p) v (i_addrs p).
Definition set_iaddrs v p := Inode (i_dev p) (i_inum p) (i_ref p) (i_lock p) (i_valid p) (i_type p) (i_major p) (i_minor p) (i_nlink p) (i_size p) v.

Inductive ftype := FD_NONE | FD_PIPE | FD_INODE | FD_DEVICE.
#[global] Instance ftype_eqdec : EqDecision ftype.
Proof. solve_decision. Defined.

Record file := File {
  f_type : ftype;
  f_ref : Z;
  f_readable : bool;
  f_writable : bool;
  f_pipe : Z;             (* FD_PIPE: address of the struct pipe *)
  f_ip : Z;               (* FD_INODE and FD_DEVICE: index of the inode *)
  f_off : Z;
  f_major : Z;
  f_minor : Z;
}.

Definition file0 : file := File FD_NONE 0 false false 0 0 0 0 0.
#[global] Instance file_inhabited : Inhabited file := populate file0.

Definition set_fref v f := File (f_type f) v (f_readable f) (f_writable f) (f_pipe f) (f_ip f) (f_off f) (f_major f) (f_minor f).
Definition set_ftype v f := File v (f_ref f) (f_readable f) (f_writable f) (f_pipe f) (f_ip f) (f_off f) (f_major f) (f_minor f).
Definition set_frw r w f := File (f_type f) (f_ref f) r w (f_pipe f) (f_ip f) (f_off f) (f_major f) (f_minor f).
Definition set_fpipe v f := File (f_type f) (f_ref f) (f_readable f) (f_writable f) v (f_ip f) (f_off f) (f_major f) (f_minor f).
Definition set_fip v f := File (f_type f) (f_ref f) (f_readable f) (f_writable f) (f_pipe f) v (f_off f) (f_major f) (f_minor f).
Definition set_foff v f := File (f_type f) (f_ref f) (f_readable f) (f_writable f) (f_pipe f) (f_ip f) v (f_major f) (f_minor f).
Definition set_fmajmin a b f := File (f_type f) (f_ref f) (f_readable f) (f_writable f) (f_pipe f) (f_ip f) (f_off f) a b.

(** kernel/pipe.c *)
Definition PIPESIZE : Z := 512.

Record pipe := Pipe {
  pi_lock : spinlock;
  pi_data : list Z;
  pi_nread : Z;
  pi_nwrite : Z;
  pi_readopen : Z;
  pi_writeopen : Z;
}.

Definition set_pilock v p := Pipe v (pi_data p) (pi_nread p) (pi_nwrite p) (pi_readopen p) (pi_writeopen p).
Definition set_pidata v p := Pipe (pi_lock p) v (pi_nread p) (pi_nwrite p) (pi_readopen p) (pi_writeopen p).
Definition set_nread v p := Pipe (pi_lock p) (pi_data p) v (pi_nwrite p) (pi_readopen p) (pi_writeopen p).
Definition set_nwrite v p := Pipe (pi_lock p) (pi_data p) (pi_nread p) v (pi_readopen p) (pi_writeopen p).
Definition set_readopen v p := Pipe (pi_lock p) (pi_data p) (pi_nread p) (pi_nwrite p) v (pi_writeopen p).
Definition set_writeopen v p := Pipe (pi_lock p) (pi_data p) (pi_nread p) (pi_nwrite p) (pi_readopen p) v.

(** The console (kernel/console.c), the UART behind it, and the variables of
    kernel/printf.c.  The UART transmits the bytes of [un_out] in order; it needs
    [un_delay] polls of its status register after a byte before it takes another;
    [un_in] is its receive FIFO. *)
Record con_st := ConSt {
  cn_lock : spinlock;
  cn_buf : list Z;
  cn_r : Z;
  cn_w : Z;
  cn_e : Z;
  un_out : list Z;
  un_in : list Z;
  un_busy : nat;
  un_delay : nat;
  un_regs : list (Z * Z);        (* writes to the control registers, in order *)
  pr_lock : spinlock;
  pr_locking : Z;
  panicked : Z;
}.

Definition set_cnlock v c := ConSt v (cn_buf c) (cn_r c) (cn_w c) (cn_e c) (un_out c) (un_in c) (un_busy c) (un_delay c) (un_regs c) (pr_lock c) (pr_locking c) (panicked c).
Definition set_cnbuf v c := ConSt (cn_lock c) v (cn_r c) (cn_w c) (cn_e c) (un_out c) (un_in c) (un_busy c) (un_delay c) (un_regs c) (pr_lock c) (pr_locking c) (panicked c).
Definition set_cnr v c := ConSt (cn_lock c) (cn_buf c) v (cn_w c) (cn_e c) (un_out c) (un_in c) (un_busy c) (un_delay c) (un_regs c) (pr_lock c) (pr_locking c) (panicked c).
Definition set_cnw v c := ConSt (cn_lock c) (cn_buf c) (cn_r c) v (cn_e c) (un_out c) (un_in c) (un_busy c) (un_delay c) (un_regs c) (pr_lock c) (pr_locking c) (panicked c).
Definition set_cne v c := ConSt (cn_lock c) (cn_buf c) (cn_r c) (cn_w c) v (un_out c) (un_in c) (un_busy c) (un_delay c) (un_regs c) (pr_lock c) (pr_locking c) (panicked c).
Definition set_unout v0 v1 c := ConSt (cn_lock c) (cn_buf c) (cn_r c) (cn_w c) (cn_e c) v0 (un_in c) v1 (un_delay c) (un_regs c) (pr_lock c) (pr_locking c) (panicked c).
Definition set_unin v c := ConSt (cn_lock c) (cn_buf c) (cn_r c) (cn_w c) (cn_e c) (un_out c) v (un_busy c) (un_delay c) (un_regs c) (pr_lock c) (pr_locking c) (panicked c).
Definition set_busy v c := ConSt (cn_lock c) (cn_buf c) (cn_r c) (cn_w c) (cn_e c) (un_out c) (un_in c) v (un_delay c) (un_regs c) (pr_lock c) (pr_locking c) (panicked c).
Definition set_regs v c := ConSt (cn_lock c) (cn_buf c) (cn_r c) (cn_w c) (cn_e c) (un_out c) (un_in c) (un_busy c) (un_delay c) v (pr_lock c) (pr_locking c) (panicked c).
Definition set_prlock v c := ConSt (cn_lock c) (cn_buf c) (cn_r c) (cn_w c) (cn_e c) (un_out c) (un_in c) (un_busy c) (un_delay c) (un_regs c) v (pr_locking c) (panicked c).
Definition set_prlocking v c := ConSt (cn_lock c) (cn_buf c) (cn_r c) (cn_w c) (cn_e c) (un_out c) (un_in c) (un_busy c) (un_delay c) (un_regs c) (pr_lock c) v (panicked c).
Definition set_panicked v c := ConSt (cn_lock c) (cn_buf c) (cn_r c) (cn_w c) (cn_e c) (un_out c) (un_in c) (un_busy c) (un_delay c) (un_regs c) (pr_lock c) (pr_locking c) v.

(** The supervisor trap registers, the interrupts the PLIC has pending for this
    hart, and the 32-bit stores to the PLIC. *)
Record hw_st := HwSt {
  h_sepc : Z;
  h_scause : Z;
  h_stval : Z;
  h_stvec : Z;
  h_sip : Z;
  h_pending : list Z;
  h_mmio : list (Z * Z);
}.

Definition set_hsepc v h := HwSt v (h_scause h) (h_stval h) (h_stvec h) (h_sip h) (h_pending h) (h_mmio h).
Definition set_hstvec v h := HwSt (h_sepc h) (h_scause h) (h_stval h) v (h_sip h) (h_pending h) (h_mmio h).
Definition set_hsip v h := HwSt (h_sepc h) (h_scause h) (h_stval h) (h_stvec h) v (h_pending h) (h_mmio h).
Definition set_hpending v h := HwSt (h_sepc h) (h_scause h) (h_stval h) (h_stvec h) (h_sip h) v (h_mmio h).
Definition set_hmmio v h := HwSt (h_sepc h) (h_scause h) (h_stval h) (h_stvec h) (h_sip h) (h_pending h) v.

Record sys {S : Type} := Sys {
  sy_vm : vm_st;                     (* physical memory, kernel_pagetable, satp *)
  sy_cache : S;                      (* the buffer cache *)
  sy_logs : list log_st;             (* log[NDISK] *)
  sy_sb : superblock;
  sy_iclock : spinlock;              (* icache.lock *)
  sy_inode : list inode;             (* icache.inode[NINODE] *)
  sy_ftlock : spinlock;              (* ftable.lock *)
  sy_file : list file;               (* ftable.file[NFILE] *)
  sy_pipes : Z → pipe;               (* by the address of their page *)
  sy_pidlock : spinlock;
  sy_nextpid : Z;
  sy_initproc : option nat;
  sy_first : bool;                   (* forkret's static variable *)
  sy_tickslock : spinlock;
  sy_ticks : Z;
  sy_con : con_st;                   (* cons, the UART, printf's lock *)
  sy_hw : hw_st;                     (* supervisor registers and the PLIC *)
}.
Arguments sys : clear implicits.
Arguments Sys {S}.

Section Sys.
Context {S : Type} `{BC : BufCache S}.
Abbreviation SM := (M (kern * sys S)).

Definition set_vm (v : vm_st) (s : sys S) : sys S := Sys v (sy_cache s) (sy_logs s) (sy_sb s) (sy_iclock s) (sy_inode s) (sy_ftlock s) (sy_file s) (sy_pipes s) (sy_pidlock s) (sy_nextpid s) (sy_initproc s) (sy_first s) (sy_tickslock s) (sy_ticks s) (sy_con s) (sy_hw s).
Definition set_cache (v0 : S) (v1 : list log_st) (s : sys S) : sys S := Sys (sy_vm s) v0 v1 (sy_sb s) (sy_iclock s) (sy_inode s) (sy_ftlock s) (sy_file s) (sy_pipes s) (sy_pidlock s) (sy_nextpid s) (sy_initproc s) (sy_first s) (sy_tickslock s) (sy_ticks s) (sy_con s) (sy_hw s).
Definition set_sb (v : superblock) (s : sys S) : sys S := Sys (sy_vm s) (sy_cache s) (sy_logs s) v (sy_iclock s) (sy_inode s) (sy_ftlock s) (sy_file s) (sy_pipes s) (sy_pidlock s) (sy_nextpid s) (sy_initproc s) (sy_first s) (sy_tickslock s) (sy_ticks s) (sy_con s) (sy_hw s).
Definition set_ic (v0 : spinlock) (v1 : list inode) (s : sys S) : sys S := Sys (sy_vm s) (sy_cache s) (sy_logs s) (sy_sb s) v0 v1 (sy_ftlock s) (sy_file s) (sy_pipes s) (sy_pidlock s) (sy_nextpid s) (sy_initproc s) (sy_first s) (sy_tickslock s) (sy_ticks s) (sy_con s) (sy_hw s).
Definition set_ft (v0 : spinlock) (v1 : list file) (s : sys S) : sys S := Sys (sy_vm s) (sy_cache s) (sy_logs s) (sy_sb s) (sy_iclock s) (sy_inode s) v0 v1 (sy_pipes s) (sy_pidlock s) (sy_nextpid s) (sy_initproc s) (sy_first s) (sy_tickslock s) (sy_ticks s) (sy_con s) (sy_hw s).
Definition set_pipes (v : Z → pipe) (s : sys S) : sys S := Sys (sy_vm s) (sy_cache s) (sy_logs s) (sy_sb s) (sy_iclock s) (sy_inode s) (sy_ftlock s) (sy_file s) v (sy_pidlock s) (sy_nextpid s) (sy_initproc s) (sy_first s) (sy_tickslock s) (sy_ticks s) (sy_con s) (sy_hw s).
Definition set_pids (v0 : spinlock) (v1 : Z) (s : sys S) : sys S := Sys (sy_vm s) (sy_cache s) (sy_logs s) (sy_sb s) (sy_iclock s) (sy_inode s) (sy_ftlock s) (sy_file s) (sy_pipes s) v0 v1 (sy_initproc s) (sy_first s) (sy_tickslock s) (sy_ticks s) (sy_con s) (sy_hw s).
Definition set_init (v0 : option nat) (v1 : bool) (s : sys S) : sys S := Sys (sy_vm s) (sy_cache s) (sy_logs s) (sy_sb s) (sy_iclock s) (sy_inode s) (sy_ftlock s) (sy_file s) (sy_pipes s) (sy_pidlock s) (sy_nextpid s) v0 v1 (sy_tickslock s) (sy_ticks s) (sy_con s) (sy_hw s).
Definition set_ticks (v0 : spinlock) (v1 : Z) (s : sys S) : sys S := Sys (sy_vm s) (sy_cache s) (sy_logs s) (sy_sb s) (sy_iclock s) (sy_inode s) (sy_ftlock s) (sy_file s) (sy_pipes s) (sy_pidlock s) (sy_nextpid s) (sy_initproc s) (sy_first s) v0 v1 (sy_con s) (sy_hw s).
Definition set_con (v : con_st) (s : sys S) : sys S := Sys (sy_vm s) (sy_cache s) (sy_logs s) (sy_sb s) (sy_iclock s) (sy_inode s) (sy_ftlock s) (sy_file s) (sy_pipes s) (sy_pidlock s) (sy_nextpid s) (sy_initproc s) (sy_first s) (sy_tickslock s) (sy_ticks s) v (sy_hw s).
Definition set_hw (v : hw_st) (s : sys S) : sys S := Sys (sy_vm s) (sy_cache s) (sy_logs s) (sy_sb s) (sy_iclock s) (sy_inode s) (sy_ftlock s) (sy_file s) (sy_pipes s) (sy_pidlock s) (sy_nextpid s) (sy_initproc s) (sy_first s) (sy_tickslock s) (sy_ticks s) (sy_con s) v.

(** The components inside the state. *)
Definition log_of : lens (kern * sys S) (kern * (S * list log_st)) :=
  Lens (λ x, (x.1, (sy_cache x.2, sy_logs x.2))) (λ y x, (y.1, set_cache y.2.1 y.2.2 x.2)).
Definition vm_of : lens (kern * sys S) (kern * vm_st) :=
  Lens (λ x, (x.1, sy_vm x.2)) (λ y x, (y.1, set_vm y.2 x.2)).
Definition mem_of : lens (kern * sys S) (kern * kalloc_st) := lens_comp vm_of vm_kalloc.

Definition iclock : lens (sys S) spinlock := Lens sy_iclock (λ l s, set_ic l (sy_inode s) s).
Definition ftlock : lens (sys S) spinlock := Lens sy_ftlock (λ l s, set_ft l (sy_file s) s).
Definition pidlock : lens (sys S) spinlock := Lens sy_pidlock (λ l s, set_pids l (sy_nextpid s) s).
Definition tickslock : lens (sys S) spinlock := Lens sy_tickslock (λ l s, set_ticks l (sy_ticks s) s).
Definition conslock : lens (sys S) spinlock :=
  Lens (λ s, cn_lock (sy_con s)) (λ l s, set_con (set_cnlock l (sy_con s)) s).
Definition prlock : lens (sys S) spinlock :=
  Lens (λ s, pr_lock (sy_con s)) (λ l s, set_con (set_prlock l (sy_con s)) s).
Definition pipelock (pi : Z) : lens (sys S) spinlock :=
  Lens (λ s, pi_lock (sy_pipes s pi))
       (λ l s, set_pipes (λ a, if a =? pi then set_pilock l (sy_pipes s pi) else sy_pipes s a) s).

#[global] Instance iclock_lens : LockLens (slock iclock).
Proof. by apply slock_lens. Defined.
#[global] Instance ftlock_lens : LockLens (slock ftlock).
Proof. by apply slock_lens. Defined.
#[global] Instance pidlock_lens : LockLens (slock pidlock).
Proof. by apply slock_lens. Defined.
#[global] Instance tickslock_lens : LockLens (slock tickslock).
Proof. by apply slock_lens. Defined.

#[global] Instance conslock_lens : LockLens (slock conslock).
Proof. by apply slock_lens. Defined.
#[global] Instance prlock_lens : LockLens (slock prlock).
Proof. by apply slock_lens. Defined.

(** Entries of the tables. *)
Definition get_inode (ip : Z) : SM inode := gets (λ x, aget (sy_inode x.2) ip).
Definition upd_inode (ip : Z) (f : inode → inode) : SM unit :=
  modify (λ x, (x.1, set_ic (sy_iclock x.2) (aset (sy_inode x.2) ip (f (aget (sy_inode x.2) ip))) x.2)).
Definition inode_lock (ip : Z) : lens (sys S) sleeplock :=
  Lens (λ s, i_lock (aget (sy_inode s) ip))
       (λ l s, set_ic (sy_iclock s) (aset (sy_inode s) ip (set_ilock l (aget (sy_inode s) ip))) s).
Definition get_file (f : Z) : SM file := gets (λ x, aget (sy_file x.2) f).
Definition upd_file (f : Z) (g : file → file) : SM unit :=
  modify (λ x, (x.1, set_ft (sy_ftlock x.2) (aset (sy_file x.2) f (g (aget (sy_file x.2) f))) x.2)).
Definition get_pipe (pi : Z) : SM pipe := gets (λ x, sy_pipes x.2 pi).
Definition upd_pipe (pi : Z) (g : pipe → pipe) : SM unit :=
  modify (λ x, (x.1, set_pipes (λ a, if a =? pi then g (sy_pipes x.2 pi) else sy_pipes x.2 a) x.2)).

Definition get_con : SM con_st := gets (λ x, sy_con x.2).
Definition upd_con (g : con_st → con_st) : SM unit := modify (λ x, (x.1, set_con (g (sy_con x.2)) x.2)).
Definition get_hw : SM hw_st := gets (λ x, sy_hw x.2).
Definition upd_hw (g : hw_st → hw_st) : SM unit := modify (λ x, (x.1, set_hw (g (sy_hw x.2)) x.2)).

(** Physical memory. *)
Definition ram (x : kern * sys S) : mem := km_ram (vm_kmem (sy_vm x.2)).
Definition set_ram (m : mem) (x : kern * sys S) : kern * sys S :=
  (x.1, set_vm (VmSt (over ram_of m (vm_kmem (sy_vm x.2))) (kernel_pagetable (sy_vm x.2)) (vm_satp (sy_vm x.2))) x.2).

(** The running process. *)
Definition my_proc : SM proc := i ← curproc; the_proc i.

(** ** Kernel byte strings *)

(** The bytes of an array from index [i]; past its end is undefined. *)
Definition at_ (s : list Z) (i : nat) : Z := s !!! i.

Fixpoint lstrncmp (n : nat) (p q : list Z) : Z :=
  match n with
  | O => 0
  | Datatypes.S n' =>
      let a := hd 0 p in let b := hd 0 q in
      if negb (a =? 0) && (a =? b) then lstrncmp n' (tl p) (tl q) else a - b
  end.

(** [strncpy(s, t, n)]: the [n] bytes stored. *)
Fixpoint lstrncpy (n : nat) (t : list Z) : list Z :=
  match n with
  | O => []
  | Datatypes.S n' =>
      match t with
      | [] => replicate n 0
      | a :: t' => if a =? 0 then replicate n 0 else a :: lstrncpy n' t'
      end
  end.

(** [safestrcpy(s, t, n)] for [n > 0]: the bytes stored, with the NUL. *)
Fixpoint lsafestrcpy (n : nat) (t : list Z) : list Z :=
  match n with
  | O => []
  | Datatypes.S O => [0]
  | Datatypes.S n' =>
      match t with
      | [] => [0]
      | a :: t' => if a =? 0 then [0] else a :: lsafestrcpy n' t'
      end
  end.

(** The string before the first NUL. *)
Fixpoint cstr (s : list Z) : list Z :=
  match s with
  | [] => []
  | a :: s' => if a =? 0 then [] else a :: cstr s'
  end.

(** ** Copies between the kernel and the outside (proc.c) *)

(** Where [either_copyout] copies to: a user address, a kernel address, or a
    variable of the calling function, for which the bytes are returned. *)
Inductive dest := DUser (va : Z) | DKern (pa : Z) | DVar.
Inductive source := SUser (va : Z) | SKern (pa : Z) | SVar (bytes : list Z).

Definition dest_add (d : dest) (m : Z) : dest :=
  match d with DUser va => DUser (u64 (va + m)) | DKern pa => DKern (u64 (pa + m)) | DVar => DVar end.
Definition source_add (s : source) (m : Z) : source :=
  match s with
  | SUser va => SUser (u64 (va + m)) | SKern pa => SKern (u64 (pa + m))
  | SVar bs => SVar (drop (Z.to_nat m) bs)
  end.

Definition either_copyout (d : dest) (src : list Z) : SM Z :=
  p ← my_proc;
  match d with
  | DUser dst => zoom mem_of (copyout (p_pagetable p) dst src)
  | DKern dst =>
      modify (λ x, set_ram (mwrite (ram x) dst src) x);;
      mret 0
  | DVar => mret 0
  end.

(** The bytes copied, and the return value. *)
Definition either_copyin (s : source) (len : Z) : SM (list Z * Z) :=
  p ← my_proc;
  match s with
  | SUser src => zoom mem_of (copyin (p_pagetable p) src len)
  | SKern src => bs ← gets (λ x, mread (ram x) src (Z.to_nat len)); mret (bs, 0)
  | SVar bs => mret (take (Z.to_nat len) bs, 0)
  end.
End Sys.
