(* ===== verification/Fs.v ===== *)
(** * The file system (kernel/fs.c, kernel/fs.h)

    Blocks, inodes, directories and path names, on top of the log and of any
    buffer cache.  Disk structures are read and written at their byte offsets in
    the data of a buffer. *)

From S2P Require Import Prelude Memory Riscv Spinlock Core CString Kalloc Vm Sleeplock BufCache Log Sys.

Definition ROOTINO : Z := 1.
Definition FSMAGIC : Z := 0x10203040.
Definition NINDIRECT : Z := BSIZE / 4.
Definition MAXFILE : Z := NDIRECT + NINDIRECT.
Definition DINODE : Z := 64.              (* sizeof(struct dinode) *)
Definition IPB : Z := BSIZE / DINODE.
Definition IBLOCK (i : Z) (sb : superblock) : Z := u32 (i / IPB + sb_inodestart sb).
Definition BPB : Z := BSIZE * 8.
Definition BBLOCK (b : Z) (sb : superblock) : Z := u32 (b / BPB + sb_bmapstart sb).
Definition DIRSIZ : Z := 14.
Definition DIRENT : Z := 16.              (* sizeof(struct dirent) *)
Definition T_DIR : Z := 1.
Definition T_FILE : Z := 2.
Definition T_DEVICE : Z := 3.

(** Fields of a block. *)
Definition rd (off n : Z) (data : list Z) : Z := le_dec (slice (Z.to_nat off) (Z.to_nat n) data).
Definition wr (off n v : Z) (data : list Z) : list Z := splice (Z.to_nat off) (le_enc (Z.to_nat n) v) data.

Definition sb_dec (d : list Z) : superblock :=
  Superblock (rd 0 4 d) (rd 4 4 d) (rd 8 4 d) (rd 12 4 d) (rd 16 4 d) (rd 20 4 d) (rd 24 4 d) (rd 28 4 d).

(** The disk inode at offset [o]. *)
Definition dinode_type (o : Z) (d : list Z) : Z := i16 (rd o 2 d).
Definition dinode_load (o : Z) (d : list Z) (ip : inode) : inode :=
  Inode (i_dev ip) (i_inum ip) (i_ref ip) (i_lock ip) (i_valid ip)
    (i16 (rd o 2 d)) (i16 (rd (o + 2) 2 d)) (i16 (rd (o + 4) 2 d)) (i16 (rd (o + 6) 2 d)) (rd (o + 8) 4 d)
    ((λ k, rd (o + 12 + 4 * k) 4 d) <$> seqZ 0 (NDIRECT + 1)).
Definition dinode_store (o : Z) (ip : inode) (d : list Z) : list Z :=
  let d := wr o 2 (i_type ip) d in
  let d := wr (o + 2) 2 (i_major ip) d in
  let d := wr (o + 4) 2 (i_minor ip) d in
  let d := wr (o + 6) 2 (i_nlink ip) d in
  let d := wr (o + 8) 4 (i_size ip) d in
  splice (Z.to_nat (o + 12)) (concat (le_enc 4 <$> i_addrs ip)) d.
Definition dinode_clear (o type : Z) (d : list Z) : list Z :=
  wr o 2 type (splice (Z.to_nat o) (replicate (Z.to_nat DINODE) 0) d).
(** The offset of inode [inum] in its block, [inum % IPB] entries in. *)
Definition dinode_off (inum : Z) : Z := (inum mod IPB) * DINODE.

Section Fs.
Context {S : Type} `{BC : BufCache S}.
Abbreviation SM := (M (kern * sys S)).

(** The layers below. *)
Definition fbread (dev b : Z) : SM Z := zoom log_of (zoom cache_of (bread dev b)).
Definition fbrelse (h : Z) : SM unit := zoom log_of (zoom cache_of (brelse h)).
Definition fget (h : Z) : SM (list Z) := zoom log_of (get_data h).
Definition fput (h : Z) (v : list Z) : SM unit := zoom log_of (put_data h v).
Definition flog_write (h : Z) : SM unit := zoom log_of (log_write h).
Definition fbegin_op (dev : Z) : SM unit := zoom log_of (begin_op dev).
Definition fend_op (dev : Z) : SM unit := zoom log_of (end_op dev).
Definition the_sb : SM superblock := gets (λ x, sy_sb x.2).

Definition readsb (dev : Z) : SM superblock :=
  bp ← fbread dev 1;
  d ← fget bp;
  fbrelse bp;;
  mret (sb_dec d).

Definition fsinit (dev : Z) : SM unit :=
  sb ← readsb dev;
  modify (λ x, (x.1, set_sb sb x.2));;
  if negb (sb_magic sb =? FSMAGIC) then panic "invalid file system"%string else
  zoom log_of (initlog dev (i32 (sb_logstart sb)) (i32 (sb_nlog sb))).

Definition bzero (dev bno : Z) : SM unit :=
  bp ← fbread dev bno;
  fput bp (replicate (Z.to_nat BSIZE) 0);;
  flog_write bp;;
  fbrelse bp.

(** ** Blocks *)

(** The byte and the mask of bit [bi] of a bitmap block. *)
Definition bit_clear (d : list Z) (bi : Z) : bool := Z.land (aget d (bi / 8)) (Z.shiftl 1 (bi mod 8)) =? 0.
Definition bit_set (d : list Z) (bi : Z) : list Z :=
  aset d (bi / 8) (Z.lor (aget d (bi / 8)) (Z.shiftl 1 (bi mod 8))).
Definition bit_reset (d : list Z) (bi : Z) : list Z :=
  aset d (bi / 8) (Z.land (aget d (bi / 8)) (Z.lnot (Z.shiftl 1 (bi mod 8)))).

(** The inner loop of [balloc]: the first free bit of the bitmap block for
    blocks [b], [b+1], ... *)
Definition balloc_scan (size b : Z) (bp : Z) : SM (option Z) :=
  loop (Z.to_nat BPB + 1) (λ bi,
    if negb ((bi <? BPB) && (b + bi <? size)) then mret (inr None) else
    d ← fget bp;
    if bit_clear d bi then mret (inr (Some bi)) else mret (inl (bi + 1))) 0.

Definition balloc (dev : Z) : SM Z :=
  sb ← the_sb;
  loop (Z.to_nat (sb_size sb / BPB) + 2) (λ b,
    if negb (b <? sb_size sb) then panic "balloc: out of blocks"%string else
    bp ← fbread dev (BBLOCK b sb);
    r ← balloc_scan (sb_size sb) b bp;
    match r with
    | Some bi =>
        d ← fget bp;
        fput bp (bit_set d bi);;              (* Mark block in use. *)
        flog_write bp;;
        fbrelse bp;;
        bzero dev (b + bi);;
        mret (inr (b + bi))
    | None => fbrelse bp;; mret (inl (b + BPB))
    end) 0.

Definition bfree (dev b : Z) : SM unit :=
  sb ← the_sb;
  bp ← fbread dev (BBLOCK b sb);
  let bi := b mod BPB in
  d ← fget bp;
  if bit_clear d bi then panic "freeing free block"%string else
  fput bp (bit_reset d bi);;
  flog_write bp;;
  fbrelse bp.

(** ** Inodes *)

Definition iinit : SM unit :=
  modify (λ x, (x.1, over iclock (initlock "icache") x.2));;
  for_range (Z.to_nat NINODE) 0 (λ i, upd_inode i (set_ilock (initsleeplock "inode"))).

(** The scan of [iget]: the entry of the inode, or the first free one. *)
Definition iget_scan (dev inum : Z) : SM (option Z * option Z) :=
  loop (Z.to_nat NINODE + 1) (λ '(ip, empty),
    if NINODE <=? ip then mret (inr (None, empty)) else
    e ← get_inode ip;
    if (0 <? i_ref e) && (i_dev e =? dev) && (i_inum e =? inum) then mret (inr (Some ip, empty)) else
    mret (inl (ip + 1, match empty with None => if i_ref e =? 0 then Some ip else None | Some _ => empty end)))
    (0, None).

Definition iget (dev inum : Z) : SM Z :=
  acquire (slock iclock);;
  (* Is the inode already cached? *)
  '(found, empty) ← iget_scan dev inum;
  match found, empty with
  | Some ip, _ =>
      upd_inode ip (λ e, set_iref (i32 (i_ref e + 1)) e);;
      release (slock iclock);;
      mret ip
  | None, None => panic "iget: no inodes"%string
  | None, Some ip =>
      (* Recycle an inode cache entry. *)
      upd_inode ip (set_ikey dev inum);;
      upd_inode ip (set_iref 1);;
      upd_inode ip (set_ivalid 0);;
      release (slock iclock);;
      mret ip
  end.

Definition ialloc (dev type : Z) : SM Z :=
  sb ← the_sb;
  loop (Z.to_nat (sb_ninodes sb) + 1) (λ inum,
    if negb (inum <? sb_ninodes sb) then panic "ialloc: no inodes"%string else
    bp ← fbread dev (IBLOCK inum sb);
    d ← fget bp;
    if dinode_type (dinode_off inum) d =? 0 then         (* a free inode *)
      fput bp (dinode_clear (dinode_off inum) type d);;
      flog_write bp;;                                    (* mark it allocated on the disk *)
      fbrelse bp;;
      ip ← iget dev inum;
      mret (inr ip)
    else fbrelse bp;; mret (inl (inum + 1))) 1.

Definition iupdate (ip : Z) : SM unit :=
  sb ← the_sb;
  e ← get_inode ip;
  bp ← fbread (i_dev e) (IBLOCK (i_inum e) sb);
  d ← fget bp;
  e ← get_inode ip;
  fput bp (dinode_store (dinode_off (i_inum e)) e d);;
  flog_write bp;;
  fbrelse bp.

Definition idup (ip : Z) : SM Z :=
  acquire (slock iclock);;
  upd_inode ip (λ e, set_iref (i32 (i_ref e + 1)) e);;
  release (slock iclock);;
  mret ip.

Definition ilock (ip : Z) : SM unit :=
  e ← get_inode ip;
  if i_ref e <? 1 then panic "ilock"%string else
  acquiresleep (inode_lock ip) (ChSleepLock (NBUF + ip));;
  e ← get_inode ip;
  when (i_valid e =? 0) (
    sb ← the_sb;
    bp ← fbread (i_dev e) (IBLOCK (i_inum e) sb);
    d ← fget bp;
    upd_inode ip (dinode_load (dinode_off (i_inum e)) d);;
    fbrelse bp;;
    upd_inode ip (set_ivalid 1);;
    e ← get_inode ip;
    when (i_type e =? 0) (panic "ilock: no type"%string)).

Definition iunlock (ip : Z) : SM unit :=
  h ← holdingsleep (inode_lock ip);
  e ← get_inode ip;
  if negb h || (i_ref e <? 1) then panic "iunlock"%string else
  releasesleep (inode_lock ip) (ChSleepLock (NBUF + ip)).

(** ** Inode content *)

(** The block number at index [k] of an indirect block. *)
Definition ind_get (d : list Z) (k : Z) : Z := rd (4 * k) 4 d.

Definition bmap (ip bn : Z) : SM Z :=
  e ← get_inode ip;
  if bn <? NDIRECT then
    if aget (i_addrs e) bn =? 0 then
      addr ← balloc (i_dev e);
      upd_inode ip (λ e, set_iaddrs (aset (i_addrs e) bn addr) e);;
      mret addr
    else mret (aget (i_addrs e) bn)
  else
  let bn := bn - NDIRECT in
  if bn <? NINDIRECT then
    (* Load indirect block, allocating if necessary. *)
    addr ← (if aget (i_addrs e) NDIRECT =? 0 then
              addr ← balloc (i_dev e);
              upd_inode ip (λ e, set_iaddrs (aset (i_addrs e) NDIRECT addr) e);;
              mret addr
            else mret (aget (i_addrs e) NDIRECT));
    bp ← fbread (i_dev e) addr;
    d ← fget bp;
    if ind_get d bn =? 0 then
      addr ← balloc (i_dev e);
      d ← fget bp;
      fput bp (wr (4 * bn) 4 addr d);;
      flog_write bp;;
      fbrelse bp;;
      mret addr
    else fbrelse bp;; mret (ind_get d bn)
  else panic "bmap: out of range"%string.

Definition itrunc (ip : Z) : SM unit :=
  for_range (Z.to_nat NDIRECT) 0 (λ i,
    e ← get_inode ip;
    when (negb (aget (i_addrs e) i =? 0)) (
      bfree (i_dev e) (aget (i_addrs e) i);;
      upd_inode ip (λ e, set_iaddrs (aset (i_addrs e) i 0) e)));;
  e ← get_inode ip;
  when (negb (aget (i_addrs e) NDIRECT =? 0)) (
    bp ← fbread (i_dev e) (aget (i_addrs e) NDIRECT);
    for_range (Z.to_nat NINDIRECT) 0 (λ j,
      d ← fget bp;
      when (negb (ind_get d j =? 0)) (bfree (i_dev e) (ind_get d j)));;
    fbrelse bp;;
    bfree (i_dev e) (aget (i_addrs e) NDIRECT);;
    upd_inode ip (λ e, set_iaddrs (aset (i_addrs e) NDIRECT 0) e));;
  upd_inode ip (set_isize 0);;
  iupdate ip.

Definition iput (ip : Z) : SM unit :=
  acquire (slock iclock);;
  e ← get_inode ip;
  when ((i_ref e =? 1) && negb (i_valid e =? 0) && (i_nlink e =? 0)) (
    (* inode has no links and no other references: truncate and free. *)
    acquiresleep (inode_lock ip) (ChSleepLock (NBUF + ip));;
    release (slock iclock);;
    itrunc ip;;
    upd_inode ip (set_itype 0);;
    iupdate ip;;
    upd_inode ip (set_ivalid 0);;
    releasesleep (inode_lock ip) (ChSleepLock (NBUF + ip));;
    acquire (slock iclock));;
  upd_inode ip (λ e, set_iref (i32 (i_ref e - 1)) e);;
  release (slock iclock).

Definition iunlockput (ip : Z) : SM unit := iunlock ip;; iput ip.

(** [struct stat], with its padding, as bytes. *)
Definition stati (ip : Z) : SM (list Z) :=
  e ← get_inode ip;
  mret (le_enc 4 (i_dev e) ++ le_enc 4 (i_inum e) ++ le_enc 2 (i_type e) ++ le_enc 2 (i_nlink e) ++
        replicate 4 0 ++ le_enc 8 (i_size e)).

(** [readi]: the return value, and the bytes copied out. *)
Definition readi (ip : Z) (dst : dest) (off n : Z) : SM (Z * list Z) :=
  e ← get_inode ip;
  if (i_size e <? off) || (u32 (off + n) <? off) then mret (-1, []) else
  let n := if i_size e <? u32 (off + n) then u32 (i_size e - off) else n in
  bs ← loop (Z.to_nat n + 1) (λ '(tot, off, dst, bs),
    if n <=? tot then mret (inr bs) else
    addr ← bmap ip (off / BSIZE);
    bp ← fbread (i_dev e) addr;
    let m := Z.min (n - tot) (BSIZE - off mod BSIZE) in
    d ← fget bp;
    let chunk := slice (Z.to_nat (off mod BSIZE)) (Z.to_nat m) d in
    r ← either_copyout dst chunk;
    if r =? -1 then fbrelse bp;; mret (inr bs) else
    fbrelse bp;;
    mret (inl (tot + m, u32 (off + m), dest_add dst m, bs ++ chunk))) (0, off, dst, []);
  mret (i32 n, bs).

Definition writei (ip : Z) (src : source) (off n : Z) : SM Z :=
  e ← get_inode ip;
  if (i_size e <? off) || (u32 (off + n) <? off) then mret (-1) else
  if MAXFILE * BSIZE <? u32 (off + n) then mret (-1) else
  off' ← loop (Z.to_nat n + 1) (λ '(tot, off, src),
    if n <=? tot then mret (inr off) else
    addr ← bmap ip (off / BSIZE);
    bp ← fbread (i_dev e) addr;
    let m := Z.min (n - tot) (BSIZE - off mod BSIZE) in
    '(bs, r) ← either_copyin src m;
    d ← fget bp;
    fput bp (splice (Z.to_nat (off mod BSIZE)) bs d);;
    if r =? -1 then fbrelse bp;; mret (inr off) else
    flog_write bp;;
    fbrelse bp;;
    mret (inl (tot + m, u32 (off + m), source_add src m))) (0, off, src);
  when (0 <? n) (
    e ← get_inode ip;
    when (i_size e <? off') (upd_inode ip (set_isize off'));;
    (* write the i-node back to disk even if the size didn't change *)
    iupdate ip);;
  mret (i32 n).

(** ** Directories *)

Definition namecmp (s t : list Z) : Z := lstrncmp (Z.to_nat DIRSIZ) s t.

Definition de_inum (de : list Z) : Z := rd 0 2 de.
Definition de_name (de : list Z) : list Z := slice 2 (Z.to_nat DIRSIZ) de.
Definition de_make (inum : Z) (name : list Z) : list Z := le_enc 2 inum ++ name.

(** [dirlookup]: the inode, and the offset of its entry. *)
Definition dirlookup (dp : Z) (name : list Z) : SM (option (Z * Z)) :=
  e ← get_inode dp;
  if negb (i_type e =? T_DIR) then panic "dirlookup not DIR"%string else
  loop (Z.to_nat (i_size e / DIRENT) + 2) (λ off,
    e ← get_inode dp;
    if negb (off <? i_size e) then mret (inr None) else
    '(r, de) ← readi dp DVar off DIRENT;
    if negb (r =? DIRENT) then panic "dirlookup read"%string else
    if de_inum de =? 0 then mret (inl (off + DIRENT)) else
    if namecmp name (de_name de) =? 0 then
      ip ← iget (i_dev e) (de_inum de);
      mret (inr (Some (ip, off)))
    else mret (inl (off + DIRENT))) 0.

Definition dirlink (dp : Z) (name : list Z) (inum : Z) : SM Z :=
  (* Check that name is not present. *)
  r ← dirlookup dp name;
  match r with
  | Some (ip, _) => iput ip;; mret (-1)
  | None =>
      (* Look for an empty dirent. *)
      e ← get_inode dp;
      off ← loop (Z.to_nat (i_size e / DIRENT) + 2) (λ off,
        e ← get_inode dp;
        if negb (off <? i_size e) then mret (inr off) else
        '(r, de) ← readi dp DVar off DIRENT;
        if negb (r =? DIRENT) then panic "dirlink read"%string else
        if de_inum de =? 0 then mret (inr off) else mret (inl (off + DIRENT))) 0;
      let de := de_make (u16 inum) (lstrncpy (Z.to_nat DIRSIZ) name) in
      r ← writei dp (SVar de) off DIRENT;
      if negb (r =? DIRENT) then panic "dirlink"%string else
      mret 0
  end.

(** ** Paths *)

(** [while(c(path) ) path++;] *)
Fixpoint skip_while (c : Z → bool) (path : list Z) : list Z :=
  match path with
  | a :: p => if c a then skip_while c p else path
  | [] => []
  end.
Fixpoint take_until (c : Z → bool) (path : list Z) : list Z :=
  match path with
  | a :: p => if c a then a :: take_until c p else []
  | [] => []
  end.

(** [skipelem(path, name)] for a path without its NUL: the rest of the path and
    the contents of [name], whose bytes after a short element's NUL stay. *)
Definition skipelem (path name : list Z) : option (list Z * list Z) :=
  let slash := λ a, a =? 47 in
  let p := skip_while slash path in
  if bool_decide (p = []) then None else
  let elem := take_until (λ a, negb (a =? 47)) p in
  let rest := skip_while (λ a, negb (a =? 47)) p in
  let name' :=
    if DIRSIZ <=? alen elem then splice 0 (take (Z.to_nat DIRSIZ) elem) name
    else splice 0 (elem ++ [0]) name in
  Some (skip_while slash rest, name').

(** The contents of [name] are returned too. *)
Definition namex (path : list Z) (nameiparent : bool) (name : list Z) : SM (option Z * list Z) :=
  ip ← (if bool_decide (head path = Some 47) then iget ROOTDEV ROOTINO
        else p ← my_proc; match p_cwd p with Some c => idup c | None => stop (Undefined "cwd") end);
  loop (length path + 1) (λ '(path, name, ip),
    match skipelem path name with
    | None =>
        if nameiparent then iput ip;; mret (inr (None, name)) else mret (inr (Some ip, name))
    | Some (path', name') =>
        ilock ip;;
        e ← get_inode ip;
        if negb (i_type e =? T_DIR) then iunlockput ip;; mret (inr (None, name')) else
        if nameiparent && bool_decide (path' = []) then
          (* Stop one level early. *)
          iunlock ip;; mret (inr (Some ip, name'))
        else
        next ← dirlookup ip name';
        match next with
        | None => iunlockput ip;; mret (inr (None, name'))
        | Some (n, _) => iunlockput ip;; mret (inl (path', name', n))
        end
    end) (path, name, ip).

Definition namei (path : list Z) : SM (option Z) :=
  '(ip, _) ← namex path false (replicate (Z.to_nat DIRSIZ) 0); mret ip.
Definition nameiparent (path name : list Z) : SM (option Z * list Z) := namex path true name.
End Fs.
