(* ===== verification/Console.v ===== *)
(** * Console output and input (kernel/uart.c, kernel/printf.c, kernel/console.c)

    The UART's registers are read and written as the driver does; the device
    behind them is the [un_*] part of the console state.  [procdump] of
    kernel/proc.c is here because only the console calls it. *)

From S2P Require Import Prelude Memory Riscv Spinlock Core CString Kalloc Vm Sleeplock BufCache Log Sys.

Fixpoint bytes_of (s : string) : list Z :=
  match s with
  | EmptyString => []
  | String a s' => Z.of_N (Ascii.N_of_ascii a) :: bytes_of s'
  end.

(** Registers of the 16550 at [UART0]. *)
Definition RHR : Z := 0.
Definition THR : Z := 0.
Definition IER : Z := 1.
Definition FCR : Z := 2.
Definition LCR : Z := 3.
Definition LSR : Z := 5.

Definition BACKSPACE : Z := 0x100.
Definition INPUT_BUF : Z := 128.
Definition C_ (x : Z) : Z := x - 64.       (* Control-x *)

(** Arguments of [printf]. *)
Inductive parg := PInt (v : Z) | PPtr (v : Z) | PStr (s : option (list Z)).

Definition digits : list Z := Eval vm_compute in bytes_of "0123456789abcdef".

(** The digits of [x], least significant first: the [do] loop of [printint]. *)
Fixpoint int_digits (fuel : nat) (x base : Z) : list Z :=
  match fuel with
  | O => []
  | S fuel' =>
      aget digits (x mod base) :: if x / base =? 0 then [] else int_digits fuel' (x / base) base
  end.

Section Console.
Context {S : Type} `{BC : BufCache S}.
Abbreviation SM := (M (kern * sys S)).

(** ** uart.c *)

Definition WriteReg (reg v : Z) : SM unit := upd_con (λ c, set_regs (un_regs c ++ [(reg, v)]) c).
(** Reading LSR: bit 0 is set when input waits, bit 5 when a byte can be sent.
    A read is one of the polls the transmitter needs. *)
Definition ReadLSR : SM Z :=
  c ← get_con;
  upd_con (set_busy (pred (un_busy c)));;
  mret (Z.lor (if bool_decide (un_in c = []) then 0 else 1)
              (if bool_decide (un_busy c = O) then Z.shiftl 1 5 else 0)).
Definition ReadRHR : SM Z :=
  c ← get_con;
  upd_con (set_unin (tail (un_in c)));;
  mret (hd 0 (un_in c)).

Definition uartinit : SM unit :=
  (* disable interrupts. *)
  WriteReg IER 0x00;;
  (* special mode to set baud rate. *)
  WriteReg LCR 0x80;;
  (* baud rate of 38.4K. *)
  WriteReg 0 0x03;;
  WriteReg 1 0x00;;
  (* leave set-baud mode, and set word length to 8 bits, no parity. *)
  WriteReg LCR 0x03;;
  (* reset and enable FIFOs. *)
  WriteReg FCR 0x07;;
  (* enable receive interrupts. *)
  WriteReg IER 0x01.

Definition uartputc (c : Z) : SM unit :=
  con ← get_con;
  loop (Datatypes.S (un_busy con)) (λ _,
    lsr ← ReadLSR;
    if Z.land lsr (Z.shiftl 1 5) =? 0 then mret (inl tt) else mret (inr tt)) tt;;
  upd_con (λ con, set_unout (un_out con ++ [u8 c]) (un_delay con) con).

Definition uartgetc : SM Z :=
  lsr ← ReadLSR;
  if negb (Z.land lsr 0x01 =? 0) then ReadRHR else mret (-1).

(** ** printf.c *)

Definition consputc (c : Z) : SM unit :=
  con ← get_con;
  if negb (panicked con =? 0) then stop Spinning else
  if c =? BACKSPACE then
    uartputc 8;; uartputc 32;; uartputc 8
  else uartputc c.

Fixpoint putall (l : list Z) : SM unit :=
  match l with
  | [] => mret tt
  | a :: l' => consputc a;; putall l'
  end.

Definition printint (xx base : Z) (sign : bool) : SM unit :=
  let neg := sign && (xx <? 0) in
  let x := if neg then u32 (- xx) else u32 xx in
  let buf := int_digits 32 x base in
  let buf := if neg then buf ++ [45] else buf in
  putall (reverse buf).

Definition printptr (x : Z) : SM unit :=
  consputc 48;;
  consputc 120;;
  loop 17 (λ '(i, x),
    if 16 <=? i then mret (inr tt) else
    consputc (aget digits (Z.shiftr x 60));;
    mret (inl (i + 1, u64 (Z.shiftl x 4)))) (0, x).

Fixpoint printf_go (fmt : list Z) (ap : list parg) : SM unit :=
  match fmt with
  | [] => mret tt
  | c :: rest =>
      if c =? 0 then mret tt else
      if negb (c =? 37) then consputc c;; printf_go rest ap else
      match rest with
      | [] => mret tt
      | c :: rest =>
          if c =? 0 then mret tt else
          if c =? 100 then                        (* %d *)
            match ap with
            | PInt v :: ap => printint v 10 true;; printf_go rest ap
            | _ => stop (Undefined "va_arg")
            end
          else if c =? 120 then                   (* %x *)
            match ap with
            | PInt v :: ap => printint v 16 true;; printf_go rest ap
            | _ => stop (Undefined "va_arg")
            end
          else if c =? 112 then                   (* %p *)
            match ap with
            | PPtr v :: ap => printptr v;; printf_go rest ap
            | _ => stop (Undefined "va_arg")
            end
          else if c =? 115 then                   (* %s *)
            match ap with
            | PStr s :: ap =>
                putall (match s with Some s => cstr s | None => bytes_of "(null)" end);;
                printf_go rest ap
            | _ => stop (Undefined "va_arg")
            end
          else if c =? 37 then consputc 37;; printf_go rest ap
          else consputc 37;; consputc c;; printf_go rest ap
      end
  end.

Definition printf (fmt : list Z) (ap : list parg) : SM unit :=
  con ← get_con;
  let locking := negb (pr_locking con =? 0) in
  when locking (acquire (slock prlock));;
  printf_go fmt ap;;
  when locking (release (slock prlock)).

Definition nl : list Z := [10].

(** [panic] with the message it prints.  The panics of the other components
    stop with the message and leave the printing out. *)
Definition panic_print (s : string) : SM unit :=
  upd_con (set_prlocking 0);;
  printf (bytes_of "PANIC: ") [];;
  printf (bytes_of s) [];;
  printf nl [];;
  printf (bytes_of "HINT: restart xv6 using 'make qemu-gdb', type 'b panic' (to set breakpoint in panic) in the gdb window, followed by 'c' (continue), and when the kernel hits the breakpoint, type 'bt' to get a backtrace" ++ nl) [];;
  upd_con (set_panicked 1);;          (* freeze other CPUs *)
  stop (Panic s).

Definition printfinit : SM unit :=
  upd_con (set_prlock (initlock "pr"));;
  upd_con (set_prlocking 1).

(** ** proc.c: the process listing *)

Definition state_name (s : procstate) : string :=
  match s with
  | UNUSED => "unused"
  | SLEEPING => "sleep "
  | RUNNABLE => "runble"
  | RUNNING => "run   "
  | ZOMBIE => "zombie"
  end.

Definition procdump : SM unit :=
  printf nl [];;
  for_range (Z.to_nat NPROC) 0 (λ i,
    p ← the_proc (Z.to_nat i);
    when (negb (bool_decide (p_state p = UNUSED))) (
      printf (bytes_of "%d %s %s")
        [PInt (p_pid p); PStr (Some (bytes_of (state_name (p_state p)))); PStr (Some (p_name p))];;
      printf nl [])).

(** ** console.c *)

Definition consolewrite (src : source) (n : Z) : SM Z :=
  acquire (slock conslock);;
  loop (Z.to_nat n + 1) (λ '(i, src),
    if n <=? i then mret (inr tt) else
    '(bs, r) ← either_copyin src 1;
    if r =? -1 then mret (inr tt) else
    consputc (hd 0 bs);;
    mret (inl (i + 1, source_add src 1))) (0, src);;
  release (slock conslock);;
  mret n.

Definition consoleread (dst : dest) (n : Z) : SM Z :=
  let target := u32 n in
  acquire (slock conslock);;
  r ← loop (Z.to_nat n + 1) (λ '(n, dst),
    if negb (0 <? n) then mret (inr (Some n)) else
    (* wait until interrupt handler has put some input into cons.buffer. *)
    con ← get_con;
    killed ← (if cn_r con =? cn_w con then
                p ← my_proc;
                if negb (p_killed p =? 0) then release (slock conslock);; mret true
                else sleep ChConsRead (slock conslock);; mret false
              else mret false);
    if killed : bool then mret (inr None) else
    con ← get_con;
    let c := aget (cn_buf con) (cn_r con mod INPUT_BUF) in
    upd_con (λ con, set_cnr (u32 (cn_r con + 1)) con);;
    if c =? C_ 68 then                                  (* end-of-file *)
      (* Save ^D for next time, to make sure caller gets a 0-byte result. *)
      when (u32 n <? target) (upd_con (λ con, set_cnr (u32 (cn_r con - 1)) con));;
      mret (inr (Some n))
    else
    r ← either_copyout dst [c];
    if r =? -1 then mret (inr (Some n)) else
    if c =? 10 then mret (inr (Some (n - 1))) else
    mret (inl (n - 1, dest_add dst 1))) (n, dst);
  match r with
  | None => mret (-1)
  | Some n => release (slock conslock);; mret (i32 (target - u32 n))
  end.

(** [cons.buf] holds [char]s, bytes here; [consputc] gets an [int]. *)
Definition consoleintr (c : Z) : SM unit :=
  acquire (slock conslock);;
  (if c =? C_ 80 then procdump                          (* Print process list. *)
   else if c =? C_ 85 then                              (* Kill line. *)
     con ← get_con;
     loop (Z.to_nat (u32 (cn_e con - cn_w con)) + 1) (λ _,
       con ← get_con;
       if negb (cn_e con =? cn_w con) &&
          negb (aget (cn_buf con) (u32 (cn_e con - 1) mod INPUT_BUF) =? 10) then
         upd_con (λ con, set_cne (u32 (cn_e con - 1)) con);;
         consputc BACKSPACE;;
         mret (inl tt)
       else mret (inr tt)) tt
   else if (c =? C_ 72) || (c =? 127) then              (* Backspace *)
     con ← get_con;
     when (negb (cn_e con =? cn_w con)) (
       upd_con (λ con, set_cne (u32 (cn_e con - 1)) con);;
       consputc BACKSPACE)
   else
     con ← get_con;
     when (negb (c =? 0) && (u32 (cn_e con - cn_r con) <? INPUT_BUF)) (
       let c := if c =? 13 then 10 else c in
       (* echo back to the user. *)
       consputc c;;
       (* store for consumption by consoleread(). *)
       upd_con (λ con, set_cnbuf (aset (cn_buf con) (cn_e con mod INPUT_BUF) (u8 c)) con);;
       upd_con (λ con, set_cne (u32 (cn_e con + 1)) con);;
       con ← get_con;
       when ((c =? 10) || (c =? C_ 68) || (cn_e con =? u32 (cn_r con + INPUT_BUF))) (
         (* wake up consoleread() if a whole line (or end-of-file) has arrived. *)
         upd_con (λ con, set_cnw (cn_e con) con);;
         wakeup ChConsRead)));;
  release (slock conslock).

Definition consoleinit : SM unit :=
  upd_con (set_cnlock (initlock "cons"));;
  uartinit.

(** ** uart.c: the interrupt *)

Definition uartintr : SM unit :=
  con ← get_con;
  loop (length (un_in con) + 1) (λ _,
    c ← uartgetc;
    if c =? -1 then mret (inr tt) else
    consoleintr c;;
    mret (inl tt)) tt.

(** ** file.c: [devsw], which [consoleinit] fills at [CONSOLE] *)

Definition CONSOLE : Z := 1.
Definition dev_read (major : Z) : option (dest → Z → SM Z) :=
  if major =? CONSOLE then Some consoleread else None.
Definition dev_write (major : Z) : option (source → Z → SM Z) :=
  if major =? CONSOLE then Some consolewrite else None.
End Console.
