(* ===== verification/File.v ===== *)
(** * Open files and pipes (kernel/file.c, kernel/pipe.c)

    A thread that has to wait for the other end of a pipe stops in [sleep];
    the loops around [sleep] therefore test their condition once per run. *)

From S2P Require Import Prelude Memory Riscv Spinlock Core CString Kalloc Vm Sleeplock BufCache Log Sys Fs Console.

Section File.
Context {S : Type} `{BC : BufCache S}.
Context (end_ : Z).
Abbreviation SM := (M (kern * sys S)).

(** ** The file table *)

Definition fileinit : SM unit := modify (λ x, (x.1, over ftlock (initlock "ftable") x.2)).

Definition filealloc : SM (option Z) :=
  acquire (slock ftlock);;
  r ← loop (Z.to_nat NFILE + 1) (λ f,
    if NFILE <=? f then mret (inr None) else
    e ← get_file f;
    if f_ref e =? 0 then upd_file f (set_fref 1);; mret (inr (Some f)) else
    mret (inl (f + 1))) 0;
  release (slock ftlock);;
  mret r.

Definition filedup (f : Z) : SM Z :=
  acquire (slock ftlock);;
  e ← get_file f;
  if f_ref e <? 1 then panic "filedup"%string else
  upd_file f (λ e, set_fref (i32 (f_ref e + 1)) e);;
  release (slock ftlock);;
  mret f.

(** ** Pipes *)

Definition pipeclose (pi : Z) (writable : bool) : SM unit :=
  acquire (slock (pipelock pi));;
  (if writable then
     upd_pipe pi (set_writeopen 0);;
     wakeup (ChPipeRead pi)
   else
     upd_pipe pi (set_readopen 0);;
     wakeup (ChPipeWrite pi));;
  p ← get_pipe pi;
  if (pi_readopen p =? 0) && (pi_writeopen p =? 0) then
    release (slock (pipelock pi));;
    zoom mem_of (kfree end_ pi)
  else
    release (slock (pipelock pi)).

Definition fileclose (f : Z) : SM unit :=
  acquire (slock ftlock);;
  e ← get_file f;
  if f_ref e <? 1 then panic "fileclose"%string else
  upd_file f (λ e, set_fref (i32 (f_ref e - 1)) e);;
  ff ← get_file f;
  if 0 <? f_ref ff then release (slock ftlock) else
  upd_file f (set_fref 0);;
  upd_file f (set_ftype FD_NONE);;
  release (slock ftlock);;
  match f_type ff with
  | FD_PIPE => pipeclose (f_pipe ff) (f_writable ff)
  | FD_INODE | FD_DEVICE =>
      ip ← get_inode (f_ip ff);
      fbegin_op (i_dev ip);;
      iput (f_ip ff);;
      ip ← get_inode (f_ip ff);
      fend_op (i_dev ip)
  | FD_NONE => mret tt
  end.

(** The lock of a new pipe is all zeros, its data what [kalloc] filled the page
    with. *)
Definition pipealloc : SM (option (Z * Z)) :=
  f0 ← filealloc;
  match f0 with
  | None => mret None
  | Some f0 =>
      f1 ← filealloc;
      match f1 with
      | None => fileclose f0;; mret None
      | Some f1 =>
          pi ← zoom mem_of kalloc;
          if pi =? 0 then
            fileclose f0;;
            fileclose f1;;
            mret None
          else
          upd_pipe pi (λ _, Pipe (Spinlock 0 "" None 0 0) (replicate (Z.to_nat PIPESIZE) 5) 0 0 1 1);;
          upd_file f0 (λ f, set_fpipe pi (set_frw true false (set_ftype FD_PIPE f)));;
          upd_file f1 (λ f, set_fpipe pi (set_frw false true (set_ftype FD_PIPE f)));;
          mret (Some (f0, f1))
      end
  end.

Definition pipewrite (pi addr n : Z) : SM Z :=
  pr ← my_proc;
  acquire (slock (pipelock pi));;
  r ← loop (Z.to_nat n + 1) (λ i,
    if n <=? i then mret (inr true) else
    p ← get_pipe pi;
    full ← (if pi_nwrite p =? u32 (pi_nread p + PIPESIZE) then
              me ← my_proc;
              if (pi_readopen p =? 0) || negb (p_killed me =? 0) then
                release (slock (pipelock pi));; mret true
              else
                wakeup (ChPipeRead pi);;
                sleep (ChPipeWrite pi) (slock (pipelock pi));; mret false
            else mret false);
    if full : bool then mret (inr false) else
    '(ch, r) ← zoom mem_of (copyin (p_pagetable pr) (u64 (addr + i)) 1);
    if r =? -1 then mret (inr true) else
    upd_pipe pi (λ p, set_pidata (aset (pi_data p) (pi_nwrite p mod PIPESIZE) (hd 0 ch)) p);;
    upd_pipe pi (λ p, set_nwrite (u32 (pi_nwrite p + 1)) p);;
    mret (inl (i + 1))) 0;
  if r : bool then
    wakeup (ChPipeRead pi);;
    release (slock (pipelock pi));;
    mret n
  else mret (-1).

Definition piperead (pi addr n : Z) : SM Z :=
  pr ← my_proc;
  acquire (slock (pipelock pi));;
  p ← get_pipe pi;
  empty ← (if (pi_nread p =? pi_nwrite p) && negb (pi_writeopen p =? 0) then
             me ← my_proc;
             if negb (p_killed me =? 0) then release (slock (pipelock pi));; mret true
             else sleep (ChPipeRead pi) (slock (pipelock pi));; mret false
           else mret false);
  if empty : bool then mret (-1) else
  i ← loop (Z.to_nat n + 1) (λ i,
    if n <=? i then mret (inr i) else
    p ← get_pipe pi;
    if pi_nread p =? pi_nwrite p then mret (inr i) else
    let ch := aget (pi_data p) (pi_nread p mod PIPESIZE) in
    upd_pipe pi (λ p, set_nread (u32 (pi_nread p + 1)) p);;
    r ← zoom mem_of (copyout (p_pagetable pr) (u64 (addr + i)) [ch]);
    if r =? -1 then mret (inr i) else
    mret (inl (i + 1))) 0;
  wakeup (ChPipeWrite pi);;
  release (slock (pipelock pi));;
  mret i.

(** ** Reading and writing files *)

Definition filestat (f addr : Z) : SM Z :=
  p ← my_proc;
  e ← get_file f;
  match f_type e with
  | FD_INODE | FD_DEVICE =>
      ilock (f_ip e);;
      st ← stati (f_ip e);
      iunlock (f_ip e);;
      r ← zoom mem_of (copyout (p_pagetable p) addr st);
      if r <? 0 then mret (-1) else mret 0
  | _ => mret (-1)
  end.

Definition fileread (f addr n : Z) : SM Z :=
  e ← get_file f;
  if negb (f_readable e) then mret (-1) else
  match f_type e with
  | FD_PIPE => piperead (f_pipe e) addr n
  | FD_DEVICE =>
      if (f_major e <? 0) || (NDEV <=? f_major e) then mret (-1) else
      match dev_read (f_major e) with
      | None => mret (-1)
      | Some rd => rd (DUser addr) n
      end
  | FD_INODE =>
      ilock (f_ip e);;
      '(r, _) ← readi (f_ip e) (DUser addr) (f_off e) (u32 n);
      when (0 <? r) (upd_file f (λ e, set_foff (u32 (f_off e + r)) e));;
      iunlock (f_ip e);;
      mret r
  | FD_NONE => panic "fileread"%string
  end.

(** The most bytes one transaction writes. *)
Definition write_max : Z := ((MAXOPBLOCKS - 1 - 1 - 2) / 2) * BSIZE.

Definition filewrite (f addr n : Z) : SM Z :=
  e ← get_file f;
  if negb (f_writable e) then mret (-1) else
  match f_type e with
  | FD_PIPE => pipewrite (f_pipe e) addr n
  | FD_DEVICE =>
      if (f_major e <? 0) || (NDEV <=? f_major e) then mret (-1) else
      match dev_write (f_major e) with
      | None => mret (-1)
      | Some wr => wr (SUser addr) n
      end
  | FD_INODE =>
      i ← loop (Z.to_nat n + 1) (λ i,
        if negb (i <? n) then mret (inr i) else
        let n1 := if write_max <? n - i then write_max else n - i in
        ip ← get_inode (f_ip e);
        fbegin_op (i_dev ip);;
        ilock (f_ip e);;
        e' ← get_file f;
        r ← writei (f_ip e) (SUser (u64 (addr + i))) (f_off e') (u32 n1);
        when (0 <? r) (upd_file f (λ e, set_foff (u32 (f_off e + r)) e));;
        iunlock (f_ip e);;
        ip ← get_inode (f_ip e);
        fend_op (i_dev ip);;
        if r <? 0 then mret (inr i) else
        if negb (r =? n1) then panic "short filewrite"%string else
        mret (inl (i + r))) 0;
      mret (if i =? n then n else -1)
  | FD_NONE => panic "filewrite"%string
  end.
End File.
