(* ===== verification/Proc.v ===== *)
(** * Processes (kernel/proc.c)

    Creation, exit and reaping of processes, and the scheduler.  A trapframe is
    a page of physical memory at [p_tf], its registers at the offsets of
    kernel/proc.h.  [swtch] into a process is the parameter [run]: what the
    process does until it switches back. *)

From S2P Require Import Prelude Memory Riscv Spinlock Core CString Kalloc Vm Sleeplock BufCache Log Sys Fs Console File.

Definition set_pxstate v p := Proc (p_lock p) (p_state p) (p_parent p) (p_chan p) (p_killed p) v (p_pid p) (p_kstack p) (p_sz p) (p_pagetable p) (p_tf p) (p_context p) (p_ofile p) (p_cwd p) (p_name p).
Definition set_ppid v p := Proc (p_lock p) (p_state p) (p_parent p) (p_chan p) (p_killed p) (p_xstate p) v (p_kstack p) (p_sz p) (p_pagetable p) (p_tf p) (p_context p) (p_ofile p) (p_cwd p) (p_name p).
Definition set_pkstack v p := Proc (p_lock p) (p_state p) (p_parent p) (p_chan p) (p_killed p) (p_xstate p) (p_pid p) v (p_sz p) (p_pagetable p) (p_tf p) (p_context p) (p_ofile p) (p_cwd p) (p_name p).
Definition set_psz v p := Proc (p_lock p) (p_state p) (p_parent p) (p_chan p) (p_killed p) (p_xstate p) (p_pid p) (p_kstack p) v (p_pagetable p) (p_tf p) (p_context p) (p_ofile p) (p_cwd p) (p_name p).
Definition set_ppagetable v p := Proc (p_lock p) (p_state p) (p_parent p) (p_chan p) (p_killed p) (p_xstate p) (p_pid p) (p_kstack p) (p_sz p) v (p_tf p) (p_context p) (p_ofile p) (p_cwd p) (p_name p).
Definition set_ptf v p := Proc (p_lock p) (p_state p) (p_parent p) (p_chan p) (p_killed p) (p_xstate p) (p_pid p) (p_kstack p) (p_sz p) (p_pagetable p) v (p_context p) (p_ofile p) (p_cwd p) (p_name p).
Definition set_pcontext v p := Proc (p_lock p) (p_state p) (p_parent p) (p_chan p) (p_killed p) (p_xstate p) (p_pid p) (p_kstack p) (p_sz p) (p_pagetable p) (p_tf p) v (p_ofile p) (p_cwd p) (p_name p).
Definition set_pofile v p := Proc (p_lock p) (p_state p) (p_parent p) (p_chan p) (p_killed p) (p_xstate p) (p_pid p) (p_kstack p) (p_sz p) (p_pagetable p) (p_tf p) (p_context p) v (p_cwd p) (p_name p).
Definition set_pcwd v p := Proc (p_lock p) (p_state p) (p_parent p) (p_chan p) (p_killed p) (p_xstate p) (p_pid p) (p_kstack p) (p_sz p) (p_pagetable p) (p_tf p) (p_context p) (p_ofile p) v (p_name p).
Definition set_pname v p := Proc (p_lock p) (p_state p) (p_parent p) (p_chan p) (p_killed p) (p_xstate p) (p_pid p) (p_kstack p) (p_sz p) (p_pagetable p) (p_tf p) (p_context p) (p_ofile p) (p_cwd p) v.

(** Offsets in [struct trapframe]. *)
Definition TF_kernel_satp : Z := 0.
Definition TF_kernel_sp : Z := 8.
Definition TF_kernel_trap : Z := 16.
Definition TF_epc : Z := 24.
Definition TF_kernel_hartid : Z := 32.
Definition TF_sp : Z := 48.
Definition TF_a (n : Z) : Z := 112 + 8 * n.
Definition TF_size : Z := 288.

Definition initcode : list Z := [
  0x17; 0x05; 0x00; 0x00; 0x13; 0x05; 0x05; 0x02;
  0x97; 0x05; 0x00; 0x00; 0x93; 0x85; 0x05; 0x02;
  0x9d; 0x48; 0x73; 0x00; 0x00; 0x00; 0x89; 0x48;
  0x73; 0x00; 0x00; 0x00; 0xef; 0xf0; 0xbf; 0xff;
  0x2f; 0x69; 0x6e; 0x69; 0x74; 0x00; 0x00; 0x01;
  0x20; 0x00; 0x00; 0x00; 0x00; 0x00; 0x00; 0x00;
  0x00; 0x00; 0x00].

(** [safestrcpy(name, t, 16)] into a process's name. *)
Definition name_copy (t name : list Z) : list Z := splice 0 (lsafestrcpy 16 t) name.

Section Proc.
Context {S : Type} `{BC : BufCache S}.
Context (end_ trampoline forkret_pc : Z).
Abbreviation SM := (M (kern * sys S)).

Definition tf_get (p : proc) (off : Z) : SM Z := gets (λ x, load64 (ram x) (p_tf p + off)).
Definition tf_set (p : proc) (off v : Z) : SM unit :=
  modify (λ x, set_ram (store64 (ram x) (p_tf p + off) (u64 v)) x).

Definition procinit : SM unit :=
  modify (λ x, (x.1, over pidlock (initlock "nextpid") x.2));;
  for_range (Z.to_nat NPROC) 0 (λ i,
    upd_proc (Z.to_nat i) (set_plock (initlock "proc"));;
    (* Allocate a page for the process's kernel stack. *)
    pa ← zoom mem_of kalloc;
    if pa =? 0 then panic "kalloc"%string else
    let va := KSTACK i in
    zoom vm_of (kvmmap va pa PGSIZE (Z.lor PTE_R PTE_W));;
    upd_proc (Z.to_nat i) (set_pkstack va));;
  zoom vm_of kvminithart.

Definition allocpid : SM Z :=
  acquire (slock pidlock);;
  pid ← gets (λ x, sy_nextpid x.2);
  modify (λ x, (x.1, set_pids (sy_pidlock x.2) (i32 (sy_nextpid x.2 + 1)) x.2));;
  release (slock pidlock);;
  mret pid.

Definition proc_pagetable (p : proc) : SM Z :=
  (* An empty page table. *)
  pagetable ← zoom mem_of uvmcreate;
  (* map the trampoline code at the highest user virtual address. *)
  zoom mem_of (mappages pagetable TRAMPOLINE PGSIZE trampoline (Z.lor PTE_R PTE_X));;
  (* map the trapframe just below TRAMPOLINE, for trampoline.S. *)
  zoom mem_of (mappages pagetable TRAPFRAME PGSIZE (p_tf p) (Z.lor PTE_R PTE_W));;
  mret pagetable.

Definition proc_freepagetable (pagetable sz : Z) : SM unit :=
  zoom mem_of (uvmunmap end_ pagetable TRAMPOLINE PGSIZE false);;
  zoom mem_of (uvmunmap end_ pagetable TRAPFRAME PGSIZE false);;
  when (0 <? sz) (zoom mem_of (uvmfree end_ pagetable sz)).

(** The scan of [allocproc], which returns holding the entry's lock. *)
Definition find_unused : SM (option nat) :=
  loop (Z.to_nat NPROC + 1) (λ i,
    if NPROC <=? i then mret (inr None) else
    acquire (plock (Z.to_nat i));;
    p ← the_proc (Z.to_nat i);
    if bool_decide (p_state p = UNUSED) then mret (inr (Some (Z.to_nat i))) else
    release (plock (Z.to_nat i));;
    mret (inl (i + 1))) 0.

Definition allocproc : SM (option nat) :=
  found ← find_unused;
  match found with
  | None => mret None
  | Some i =>
      pid ← allocpid;
      upd_proc i (set_ppid pid);;
      (* Allocate a trapframe page. *)
      tf ← zoom mem_of kalloc;
      upd_proc i (set_ptf tf);;
      if tf =? 0 then release (plock i);; mret None else
      (* An empty user page table. *)
      p ← the_proc i;
      pagetable ← proc_pagetable p;
      upd_proc i (set_ppagetable pagetable);;
      (* Set up new context to start executing at forkret. *)
      upd_proc i (λ p, set_pcontext (Context_ forkret_pc (p_kstack p + PGSIZE) (replicate 12 0)) p);;
      mret (Some i)
  end.

Definition freeproc (i : nat) : SM unit :=
  p ← the_proc i;
  when (negb (p_tf p =? 0)) (zoom mem_of (kfree end_ (p_tf p)));;
  upd_proc i (set_ptf 0);;
  p ← the_proc i;
  when (negb (p_pagetable p =? 0)) (proc_freepagetable (p_pagetable p) (p_sz p));;
  upd_proc i (set_ppagetable 0);;
  upd_proc i (set_psz 0);;
  upd_proc i (set_ppid 0);;
  upd_proc i (set_pparent None);;
  upd_proc i (λ p, set_pname (aset (p_name p) 0 0) p);;
  upd_proc i (set_pchan None);;
  upd_proc i (set_pkilled 0);;
  upd_proc i (set_pxstate 0);;
  upd_proc i (set_pstate UNUSED).

Definition userinit : SM unit :=
  r ← allocproc;
  modify (λ x, (x.1, set_init r (sy_first x.2) x.2));;
  match r with
  | None => stop (Undefined "userinit: null proc")
  | Some i =>
      p ← the_proc i;
      (* allocate one user page and copy init's instructions and data into it. *)
      zoom mem_of (uvminit (p_pagetable p) initcode);;
      upd_proc i (set_psz PGSIZE);;
      (* prepare for the very first return from kernel to user. *)
      tf_set p TF_epc 0;;
      tf_set p TF_sp PGSIZE;;
      upd_proc i (λ p, set_pname (name_copy (bytes_of "initcode") (p_name p)) p);;
      cwd ← namei (bytes_of "/");
      upd_proc i (set_pcwd cwd);;
      upd_proc i (set_pstate RUNNABLE);;
      release (plock i)
  end.

(** The size is kept in a [uint]. *)
Definition growproc (n : Z) : SM Z :=
  i ← curproc;
  p ← the_proc i;
  let sz := u32 (p_sz p) in
  r ← (if 0 <? n then
         r ← zoom mem_of (uvmalloc end_ (p_pagetable p) sz (u32 (sz + n)));
         mret (if u32 r =? 0 then None else Some (u32 r))
       else if n <? 0 then
         r ← zoom mem_of (uvmdealloc end_ (p_pagetable p) sz (u32 (sz + n)));
         mret (Some (u32 r))
       else mret (Some sz));
  match r with
  | None => mret (-1)
  | Some sz => upd_proc i (set_psz sz);; mret 0
  end.

(** The open files of [fork], one descriptor at a time. *)
Definition fork_files (i np : nat) : SM unit :=
  for_range (Z.to_nat NOFILE) 0 (λ fd,
    p ← the_proc i;
    match aget (p_ofile p) fd with
    | Some f => f' ← filedup f; upd_proc np (λ q, set_pofile (aset (p_ofile q) fd (Some f')) q)
    | None => mret tt
    end).

Definition fork : SM Z :=
  i ← curproc;
  (* Allocate process. *)
  r ← allocproc;
  match r with
  | None => mret (-1)
  | Some np =>
      p ← the_proc i;
      q ← the_proc np;
      (* Copy user memory from parent to child. *)
      r ← zoom mem_of (uvmcopy end_ (p_pagetable p) (p_pagetable q) (p_sz p));
      if r <? 0 then
        freeproc np;;
        release (plock np);;
        mret (-1)
      else
      upd_proc np (set_psz (p_sz p));;
      upd_proc np (set_pparent (Some i));;
      (* copy saved user registers. *)
      modify (λ x, set_ram (mwrite (ram x) (p_tf q) (mread (ram x) (p_tf p) (Z.to_nat TF_size))) x);;
      (* Cause fork to return 0 in the child. *)
      tf_set q (TF_a 0) 0;;
      (* increment reference counts on open file descriptors. *)
      fork_files i np;;
      p ← the_proc i;
      cwd ← (match p_cwd p with Some c => idup c | None => stop (Undefined "cwd") end);
      upd_proc np (set_pcwd (Some cwd));;
      upd_proc np (λ q, set_pname (name_copy (p_name p) (p_name q)) q);;
      q ← the_proc np;
      upd_proc np (set_pstate RUNNABLE);;
      release (plock np);;
      mret (p_pid q)
  end.

Definition reparent (i : nat) : SM unit :=
  for_range (Z.to_nat NPROC) 0 (λ j,
    pp ← the_proc (Z.to_nat j);
    when (bool_decide (p_parent pp = Some i)) (
      acquire (plock (Z.to_nat j));;
      init ← gets (λ x, sy_initproc x.2);
      upd_proc (Z.to_nat j) (set_pparent init);;
      release (plock (Z.to_nat j)))).

(** The descriptors that [exit] closes. *)
Definition exit_files (i : nat) : SM unit :=
  for_range (Z.to_nat NOFILE) 0 (λ fd,
    p ← the_proc i;
    match aget (p_ofile p) fd with
    | Some f => fileclose end_ f;; upd_proc i (λ q, set_pofile (aset (p_ofile q) fd None) q)
    | None => mret tt
    end).

Definition exit (status : Z) : SM unit :=
  i ← curproc;
  init ← gets (λ x, sy_initproc x.2);
  if bool_decide (init = Some i) then panic "init exiting"%string else
  (* Close all open files. *)
  exit_files i;;
  fbegin_op ROOTDEV;;
  p ← the_proc i;
  (match p_cwd p with Some c => iput c | None => stop (Undefined "cwd") end);;
  fend_op ROOTDEV;;
  upd_proc i (set_pcwd None);;
  (* we might re-parent a child to init: wake it up. *)
  match init with
  | None => stop (Undefined "initproc")
  | Some ini =>
      acquire (plock ini);;
      wakeup1 ini;;
      release (plock ini);;
      (* grab a copy of p->parent. *)
      acquire (plock i);;
      p ← the_proc i;
      release (plock i);;
      match p_parent p with
      | None => stop (Undefined "parent")
      | Some original_parent =>
          (* we need the parent's lock in order to wake it up from wait(). *)
          acquire (plock original_parent);;
          acquire (plock i);;
          (* Give any children to init. *)
          reparent i;;
          (* Parent might be sleeping in wait(). *)
          wakeup1 original_parent;;
          upd_proc i (set_pxstate status);;
          upd_proc i (set_pstate ZOMBIE);;
          release (plock original_parent);;
          (* Jump into the scheduler, never to return. *)
          sched;;
          panic "zombie exit"%string
      end
  end.

(** One pass of [wait] over the table: the result, or whether there are
    children. *)
Definition wait_scan (i : nat) (addr : Z) : SM (Z + bool) :=
  loop (Z.to_nat NPROC + 1) (λ '(j, havekids),
    if NPROC <=? j then mret (inr (inr havekids)) else
    let np := Z.to_nat j in
    q ← the_proc np;
    if negb (bool_decide (p_parent q = Some i)) then mret (inl (j + 1, havekids)) else
    acquire (plock np);;
    q ← the_proc np;
    if bool_decide (p_state q = ZOMBIE) then
      (* Found one. *)
      p ← the_proc i;
      r ← (if addr =? 0 then mret 0
           else zoom mem_of (copyout (p_pagetable p) addr (le_enc 4 (p_xstate q))));
      if r <? 0 then
        release (plock np);;
        release (plock i);;
        mret (inr (inl (-1)))
      else
      freeproc np;;
      release (plock np);;
      release (plock i);;
      mret (inr (inl (p_pid q)))
    else
    release (plock np);;
    mret (inl (j + 1, true))) (0, false).

Definition wait (addr : Z) : SM Z :=
  i ← curproc;
  (* hold p->lock for the whole time to avoid lost wakeups from a child's exit(). *)
  acquire (plock i);;
  loop 1 (λ _,
    r ← wait_scan i addr;
    match r with
    | inl r => mret (inr r)
    | inr havekids =>
        (* No point waiting if we don't have any children. *)
        p ← the_proc i;
        if negb havekids || negb (p_killed p =? 0) then
          release (plock i);;
          mret (inr (-1))
        else
        (* Wait for a child to exit. *)
        sleep_self (ChProc i);;
        mret (inl tt)
    end) tt.

Definition yield : SM unit :=
  i ← curproc;
  acquire (plock i);;
  upd_proc i (set_pstate RUNNABLE);;
  sched;;
  release (plock i).

Definition kill (pid : Z) : SM Z :=
  loop (Z.to_nat NPROC + 1) (λ i,
    if NPROC <=? i then mret (inr (-1)) else
    let n := Z.to_nat i in
    acquire (plock n);;
    p ← the_proc n;
    if p_pid p =? pid then
      upd_proc n (set_pkilled 1);;
      (* Wake process from sleep(). *)
      when (bool_decide (p_state p = SLEEPING)) (upd_proc n (set_pstate RUNNABLE));;
      release (plock n);;
      mret (inr 0)
    else
    release (plock n);;
    mret (inl (i + 1))) 0.

(** ** The scheduler *)

Section scheduler.
Context (run : nat → SM unit).

Definition upd_cpu (f : cpu → cpu) : SM unit := modify (λ x, over cpu_of (f (view cpu_of x)) x).

(** One pass over the table; the result is [found]. *)
Definition scheduler_round : SM bool :=
  upd_cpu intr_on;;
  (* Run the for loop with interrupts off to avoid a race between an interrupt and WFI. *)
  upd_cpu intr_off;;
  loop (Z.to_nat NPROC + 1) (λ '(j, found),
    if NPROC <=? j then mret (inr found) else
    let i := Z.to_nat j in
    acquire (plock i);;
    p ← the_proc i;
    found ← (if bool_decide (p_state p = RUNNABLE) then
               (* Switch to chosen process. *)
               upd_proc i (set_pstate RUNNING);;
               upd_cpu (set_cproc (Some i));;
               run i;;
               (* Process is done running for now. *)
               upd_cpu (set_cproc None);;
               mret true
             else mret found);
    (* ensure that release() doesn't enable interrupts. *)
    upd_cpu (set_intena false);;
    release (plock i);;
    mret (inl (j + 1, found))) (0, false).

(** The first [n] rounds; the loop itself never ends, [wfi] waits for an
    interrupt. *)
Fixpoint scheduler_rounds (n : nat) : SM unit :=
  match n with
  | O => mret tt
  | Datatypes.S n => scheduler_round;; scheduler_rounds n
  end.
Definition scheduler (n : nat) : SM unit :=
  upd_cpu (set_cproc None);;
  scheduler_rounds n.
End scheduler.
End Proc.
