(* ===== verification/Asm.v ===== *)
(** * The assembly routines (kernel/swtch.S, trampoline.S, kernelvec.S, entry.S, user/usys.S, initcode.S)

    The instructions these files use, on registers, control registers and memory.  Loads and stores go
    through the page table that [satp] selects: [tr satp va] is the physical address, a parameter here.  The
    privilege mode is not part of the state: [sret] and [mret] are jumps to [sepc] and [mepc]. *)

From S2P Require Import Prelude Memory Riscv Spinlock Core CString Kalloc Vm Sleeplock BufCache Log Sys Fs Console File Proc.

(** ** The machine *)

Inductive csr := sscratch | satp | sepc | mscratch | mepc | mhartid | sip.
#[global] Instance csr_dec : EqDecision csr.
Proof. solve_decision. Defined.

(** Registers by their number. *)
Abbreviation reg := nat.
Record machine := Machine { m_regs : reg → Z; m_csr : csr → Z; m_mem : mem; m_pc : Z }.

Inductive instr :=
| Sd (rs : reg) (off : Z) (rb : reg)
| Ld (rd : reg) (off : Z) (rb : reg)
| Csrrw (rd : reg) (c : csr) (rs : reg)
| Csrr (rd : reg) (c : csr)
| Csrw (c : csr) (rs : reg)
| SfenceVma
| Addi (rd rs : reg) (imm : Z)
| Add (rd rs rt : reg)
| Mul (rd rs rt : reg)
| Li (rd : reg) (imm : Z)
| La (rd : reg) (a : Z)
| Jr (rs : reg)
| Ret
| Sret
| Mret.

(** Register 0 is 0 and ignores writes. *)
Definition rget (m : machine) (r : reg) : Z := if (r =? 0)%nat then 0 else m_regs m r.
Definition rset (r : reg) (v : Z) (m : machine) : machine :=
  Machine (λ x, if (x =? r)%nat then v else m_regs m x) (m_csr m) (m_mem m) (m_pc m).
Definition set_csr (c : csr) (v : Z) (m : machine) : machine :=
  Machine (m_regs m) (λ x, if decide (x = c) then v else m_csr m x) (m_mem m) (m_pc m).
Definition set_mem (v : mem) (m : machine) : machine := Machine (m_regs m) (m_csr m) v (m_pc m).
Definition set_pc (v : Z) (m : machine) : machine := Machine (m_regs m) (m_csr m) (m_mem m) v.

Section Exec.
Context (tr : Z → Z → Z).

Definition addr (m : machine) (rb : reg) (off : Z) : Z := tr (m_csr m satp) (u64 (rget m rb + off)).

Definition execute (m : machine) (i : instr) : machine :=
  match i with
  | Sd rs off rb => set_mem (store64 (m_mem m) (addr m rb off) (rget m rs)) m
  | Ld rd off rb => rset rd (load64 (m_mem m) (addr m rb off)) m
  | Csrrw rd c rs => rset rd (m_csr m c) (set_csr c (rget m rs) m)
  | Csrr rd c => rset rd (m_csr m c) m
  | Csrw c rs => set_csr c (rget m rs) m
  | SfenceVma => m
  | Addi rd rs imm => rset rd (u64 (rget m rs + imm)) m
  | Add rd rs rt => rset rd (u64 (rget m rs + rget m rt)) m
  | Mul rd rs rt => rset rd (u64 (rget m rs * rget m rt)) m
  | Li rd imm => rset rd (u64 imm) m
  | La rd a => rset rd a m
  | Jr rs => set_pc (rget m rs) m
  | Ret => set_pc (rget m 1) m
  | Sret => set_pc (m_csr m sepc) m
  | Mret => set_pc (m_csr m mepc) m
  end.

(** Code that ends in a jump and has none before. *)
Definition exec_all (l : list instr) (m : machine) : machine := fold_left execute l m.
End Exec.

(** ** The routines *)

Module Abi.
Definition zero : reg := 0%nat.
Definition ra : reg := 1%nat.
Definition sp : reg := 2%nat.
Definition gp : reg := 3%nat.
Definition tp : reg := 4%nat.
Definition t0 : reg := 5%nat.
Definition t1 : reg := 6%nat.
Definition t2 : reg := 7%nat.
Definition s0 : reg := 8%nat.
Definition s1 : reg := 9%nat.
Definition a0 : reg := 10%nat.
Definition a1 : reg := 11%nat.
Definition a2 : reg := 12%nat.
Definition a3 : reg := 13%nat.
Definition a4 : reg := 14%nat.
Definition a5 : reg := 15%nat.
Definition a6 : reg := 16%nat.
Definition a7 : reg := 17%nat.
Definition s2 : reg := 18%nat.
Definition s3 : reg := 19%nat.
Definition s4 : reg := 20%nat.
Definition s5 : reg := 21%nat.
Definition s6 : reg := 22%nat.
Definition s7 : reg := 23%nat.
Definition s8 : reg := 24%nat.
Definition s9 : reg := 25%nat.
Definition s10 : reg := 26%nat.
Definition s11 : reg := 27%nat.
Definition t3 : reg := 28%nat.
Definition t4 : reg := 29%nat.
Definition t5 : reg := 30%nat.
Definition t6 : reg := 31%nat.
End Abi.
Import Abi.

(** [swtch(old, new)] *)
Definition swtch : list instr := [
  Sd ra 0 a0; Sd sp 8 a0; Sd s0 16 a0; Sd s1 24 a0; Sd s2 32 a0; Sd s3 40 a0; Sd s4 48 a0;
  Sd s5 56 a0; Sd s6 64 a0; Sd s7 72 a0; Sd s8 80 a0; Sd s9 88 a0; Sd s10 96 a0; Sd s11 104 a0;

  Ld ra 0 a1; Ld sp 8 a1; Ld s0 16 a1; Ld s1 24 a1; Ld s2 32 a1; Ld s3 40 a1; Ld s4 48 a1;
  Ld s5 56 a1; Ld s6 64 a1; Ld s7 72 a1; Ld s8 80 a1; Ld s9 88 a1; Ld s10 96 a1; Ld s11 104 a1;

  Ret].

(** From a trap in user space to [usertrap]. *)
Definition uservec : list instr := [
  Csrrw a0 sscratch a0;

  (* save the user registers in TRAPFRAME *)
  Sd ra 40 a0; Sd sp 48 a0; Sd gp 56 a0; Sd tp 64 a0; Sd t0 72 a0; Sd t1 80 a0; Sd t2 88 a0; Sd s0 96 a0;
  Sd s1 104 a0; Sd a1 120 a0; Sd a2 128 a0; Sd a3 136 a0; Sd a4 144 a0; Sd a5 152 a0; Sd a6 160 a0; Sd a7 168 a0;
  Sd s2 176 a0; Sd s3 184 a0; Sd s4 192 a0; Sd s5 200 a0; Sd s6 208 a0; Sd s7 216 a0; Sd s8 224 a0; Sd s9 232 a0;
  Sd s10 240 a0; Sd s11 248 a0; Sd t3 256 a0; Sd t4 264 a0; Sd t5 272 a0; Sd t6 280 a0;

  (* save the user a0 in p->tf->a0 *)
  Csrr t0 sscratch; Sd t0 112 a0;

  Ld sp 8 a0; Ld tp 32 a0; Ld t0 16 a0;
  Ld t1 0 a0; Csrw satp t1; SfenceVma;
  Jr t0].

(** [userret(TRAPFRAME, pagetable)] *)
Definition userret : list instr := [
  Csrw satp a1; SfenceVma;

  Ld t0 112 a0; Csrw sscratch t0;

  (* restore all but a0 from TRAPFRAME *)
  Ld ra 40 a0; Ld sp 48 a0; Ld gp 56 a0; Ld tp 64 a0; Ld t0 72 a0; Ld t1 80 a0; Ld t2 88 a0; Ld s0 96 a0;
  Ld s1 104 a0; Ld a1 120 a0; Ld a2 128 a0; Ld a3 136 a0; Ld a4 144 a0; Ld a5 152 a0; Ld a6 160 a0; Ld a7 168 a0;
  Ld s2 176 a0; Ld s3 184 a0; Ld s4 192 a0; Ld s5 200 a0; Ld s6 208 a0; Ld s7 216 a0; Ld s8 224 a0; Ld s9 232 a0;
  Ld s10 240 a0; Ld s11 248 a0; Ld t3 256 a0; Ld t4 264 a0; Ld t5 272 a0; Ld t6 280 a0;

  (* restore user a0, and save TRAPFRAME in sscratch *)
  Csrrw a0 sscratch a0;
  Sret].

(** A trap in the kernel: before and after [call kerneltrap]. *)
Definition kernelvec_save : list instr := [
  Addi sp sp (-256);

  Sd ra 0 sp; Sd sp 8 sp; Sd gp 16 sp; Sd tp 24 sp; Sd t0 32 sp; Sd t1 40 sp; Sd t2 48 sp; Sd s0 56 sp; Sd s1 64 sp;
  Sd a0 72 sp; Sd a1 80 sp; Sd a2 88 sp; Sd a3 96 sp; Sd a4 104 sp; Sd a5 112 sp; Sd a6 120 sp; Sd a7 128 sp;
  Sd s2 136 sp; Sd s3 144 sp; Sd s4 152 sp; Sd s5 160 sp; Sd s6 168 sp; Sd s7 176 sp; Sd s8 184 sp; Sd s9 192 sp;
  Sd s10 200 sp; Sd s11 208 sp; Sd t3 216 sp; Sd t4 224 sp; Sd t5 232 sp; Sd t6 240 sp].

Definition kernelvec_restore : list instr := [
  (* not tp, in case we moved CPUs *)
  Ld ra 0 sp; Ld sp 8 sp; Ld gp 16 sp; Ld t0 32 sp; Ld t1 40 sp; Ld t2 48 sp; Ld s0 56 sp; Ld s1 64 sp;
  Ld a0 72 sp; Ld a1 80 sp; Ld a2 88 sp; Ld a3 96 sp; Ld a4 104 sp; Ld a5 112 sp; Ld a6 120 sp; Ld a7 128 sp;
  Ld s2 136 sp; Ld s3 144 sp; Ld s4 152 sp; Ld s5 160 sp; Ld s6 168 sp; Ld s7 176 sp; Ld s8 184 sp; Ld s9 192 sp;
  Ld s10 200 sp; Ld s11 208 sp; Ld t3 216 sp; Ld t4 224 sp; Ld t5 232 sp; Ld t6 240 sp;

  Addi sp sp 256;
  Sret].

Definition kernelvec (tr : Z → Z → Z) (kerneltrap : machine → machine) (m : machine) : machine :=
  exec_all tr kernelvec_restore (kerneltrap (exec_all tr kernelvec_save m)).

(** The machine-mode timer interrupt, without translation of addresses. *)
Definition timervec : list instr := [
  Csrrw a0 mscratch a0;
  Sd a1 0 a0; Sd a2 8 a0; Sd a3 16 a0;

  Ld a1 32 a0; Ld a2 40 a0;
  Ld a3 0 a1; Add a3 a3 a2; Sd a3 0 a1;

  Li a1 2; Csrw sip a1;

  Ld a3 16 a0; Ld a2 8 a0; Ld a1 0 a0;
  Csrrw a0 mscratch a0;

  Mret].

(** [_entry], up to [call start]. *)
Definition _entry (stack0 : Z) : list instr := [
  La sp stack0;
  Li a0 (1024 * 4);
  Csrr a1 mhartid;
  Addi a1 a1 1;
  Mul a0 a0 a1;
  Add sp sp a0].

(** ** System calls from user space *)

(** A stub of usys.S: the number in [a7], [ecall], which runs the kernel, and [ret]. *)
Definition stub (tr : Z → Z → Z) (ecall : machine → machine) (n : Z) (m : machine) : machine :=
  execute tr (ecall (execute tr m (Li a7 n))) Ret.

Definition usys : list (string * Z) := [
  ("fork", 1); ("exit", 2); ("wait", 3); ("pipe", 4); ("read", 5); ("write", 16); ("close", 21); ("kill", 6);
  ("exec", 7); ("open", 15); ("mknod", 17); ("unlink", 18); ("fstat", 8); ("link", 19); ("mkdir", 20); ("chdir", 9);
  ("dup", 10); ("getpid", 11); ("sbrk", 12); ("sleep", 13); ("uptime", 14); ("ntas", 22)]%string.

(** ** The first program

    initcode.S is in the kernel as the bytes it assembles to; these are the encodings of the instructions it uses. *)

Inductive uinstr :=
| UAuipc (rd : reg) (imm : Z)
| UAddi (rd rs : reg) (imm : Z)
| UJal (rd : reg) (off : Z)
| UEcall.

Definition field (w : Z) (lo n : Z) : Z := Z.shiftr w lo mod 2 ^ n.
Definition sext (n v : Z) : Z := if v <? 2 ^ (n - 1) then v else v - 2 ^ n.

(** The instruction in the word at the program counter and its length. *)
Definition decode (w : Z) : option (uinstr * Z) :=
  let rd := Z.to_nat (field w 7 5) in
  if field w 0 2 =? 3 then
    let op := field w 0 7 in
    if op =? 23 then Some (UAuipc rd (sext 20 (field w 12 20) * 2 ^ 12), 4) else
    if (op =? 19) && (field w 12 3 =? 0) then Some (UAddi rd (Z.to_nat (field w 15 5)) (sext 12 (field w 20 12)), 4) else
    if op =? 111 then
      Some (UJal rd (sext 21 (field w 31 1 * 2 ^ 20 + field w 12 8 * 2 ^ 12 + field w 20 1 * 2 ^ 11 + field w 21 10 * 2)), 4) else
    if w =? 115 then Some (UEcall, 4) else None
  else if (field w 0 2 =? 1) && (field w 13 3 =? 2) then                    (* c.li *)
    Some (UAddi rd 0 (sext 6 (field w 12 1 * 2 ^ 5 + field w 2 5)), 2)
  else None.

(** Runs up to the next [ecall]. *)
Fixpoint to_ecall (fuel : nat) (m : machine) : option machine :=
  match fuel with
  | O => None
  | S fuel =>
      match decode (load32 (m_mem m) (m_pc m)) with
      | None => None
      | Some (UEcall, _) => Some m
      | Some (UAuipc rd imm, n) => to_ecall fuel (set_pc (u64 (m_pc m + n)) (rset rd (u64 (m_pc m + imm)) m))
      | Some (UAddi rd rs imm, n) => to_ecall fuel (set_pc (u64 (m_pc m + n)) (rset rd (u64 (rget m rs + imm)) m))
      | Some (UJal rd off, n) => to_ecall fuel (set_pc (u64 (m_pc m + off)) (rset rd (u64 (m_pc m + n)) m))
      end
  end.
