(* ===== verification/AsmProof.v ===== *)
(** * The assembly routines save and restore what they must *)

From Stdlib Require Import Sorted.
From S2P Require Import Prelude Memory Riscv Spinlock Core CString Kalloc Vm Sleeplock BufCache Log Sys Fs Console File Proc Asm.
Import Abi.

Definition regs_ok (m : machine) : Prop := ∀ r, 0 ≤ rget m r < 2 ^ 64.

(** Everything but the registers is the same. *)
Definition same_but_regs (m m' : machine) : Prop := m_csr m' = m_csr m ∧ m_mem m' = m_mem m ∧ m_pc m' = m_pc m.

Lemma rget_rset_eq r v m : r ≠ 0%nat → rget (rset r v m) r = v.
Proof. intros H. unfold rget, rset. cbn. rewrite (proj2 (Nat.eqb_neq _ _)) by done. by rewrite Nat.eqb_refl. Qed.
Lemma rget_rset_ne r r' v m : r ≠ r' → rget (rset r v m) r' = rget m r'.
Proof. intros H. unfold rget, rset. cbn. destruct (r' =? 0)%nat; [done|]. by rewrite (proj2 (Nat.eqb_neq _ _)). Qed.

Section Run.
Context (tr : Z → Z → Z).

(** [n] bytes at [va] are those at [pa] of the memory. *)
Definition mapped (s va pa n : Z) : Prop := ∀ k, 0 ≤ k < n → tr s (u64 (va + k)) = pa + k.

Definition saves (l : list (reg * Z)) (rb : reg) : list instr := (λ p, Sd p.1 p.2 rb) <$> l.
Definition loads (l : list (reg * Z)) (rb : reg) : list instr := (λ p, Ld p.1 p.2 rb) <$> l.
Definition within (n : Z) (l : list (reg * Z)) : Prop := Forall (λ p, 0 ≤ p.2 ∧ p.2 + 8 ≤ n) l.

Lemma exec_app l l' m : exec_all tr (l ++ l') m = exec_all tr l' (exec_all tr l m).
Proof. apply fold_left_app. Qed.

Lemma exec_saves l rb va pa n : StronglySorted (λ a b : Z, a + 8 ≤ b) l.*2 → within n l → ∀ m, regs_ok m → rget m rb = va → mapped (m_csr m satp) va pa n →
  ∃ v, exec_all tr (saves l rb) m = set_mem v m ∧ (∀ p, p ∈ l → load64 v (pa + p.2) = rget m p.1) ∧
    ∀ x, (∀ p, p ∈ l → x < pa + p.2 ∨ pa + p.2 + 8 ≤ x) → v x = m_mem m x.
Proof.
  induction l as [|[r off] l IH]; intros Hs Hw m Hr Hb Hm.
  { exists (m_mem m). split; [by destruct m|]. split; [intros p H; by apply not_elem_of_nil in H|done]. }
  cbn [fmap list_fmap] in Hs. apply StronglySorted_inv in Hs as [Hs Hlt]. apply Forall_cons in Hw as [Hoff Hw]. cbn [fst snd] in *.
  set (m1 := execute tr m (Sd r off rb)). assert (addr tr m rb off = pa + off) as Ea by (unfold addr; rewrite Hb; apply Hm; lia).
  destruct (IH Hs Hw m1) as (v & E & Hin & Hout); [done..|]. exists v. split; [exact E|]. split.
  - intros p [-> | Hp]%elem_of_cons; [|by apply Hin]. cbn [fst snd].
    rewrite (load64_ext _ (m_mem m1)).
    + unfold m1. cbn [execute m_mem set_mem]. rewrite Ea, load64_store64_eq. unfold u64. apply Z.mod_small, Hr.
    + intros x Hx. apply Hout. intros p Hp. left. assert (off + 8 ≤ p.2) by (eapply Forall_forall; [exact Hlt|]; by apply list_elem_of_fmap_2). lia.
  - intros x Hx. rewrite Hout by (intros p Hp; apply Hx; by apply elem_of_cons; right). unfold m1. cbn [execute m_mem set_mem]. rewrite Ea. apply store64_out.
    apply (Hx (r, off)). by apply elem_of_cons; left.
Qed.

Lemma exec_loads l rb : NoDup l.*1 → Forall (λ p, p.1 ≠ 0%nat) l → ∀ m,
  (∀ p, p ∈ l → p.1 = rb → load64 (m_mem m) (addr tr m rb p.2) = rget m rb) →
  let m' := exec_all tr (loads l rb) m in same_but_regs m m' ∧
    (∀ p, p ∈ l → rget m' p.1 = load64 (m_mem m) (addr tr m rb p.2)) ∧ ∀ r, r ∉ l.*1 → rget m' r = rget m r.
Proof.
  induction l as [|[r off] l IH]; intros Hnd H0 m Hb.
  { split; [done|]. split; [intros p H; by apply not_elem_of_nil in H|done]. }
  cbn [fmap list_fmap] in Hnd. apply NoDup_cons in Hnd as [Hr Hnd]. apply Forall_cons in H0 as [Hr0 H0]. cbn [fst snd] in *.
  set (m1 := execute tr m (Ld r off rb)). assert (rget m1 rb = rget m rb) as Eb.
  { unfold m1. cbn [execute]. destruct (decide (r = rb)) as [->|Hne]; [|by apply rget_rset_ne]. rewrite rget_rset_eq by done. apply (Hb (rb, off)); [by apply elem_of_cons; left|done]. }
  assert (∀ o, addr tr m1 rb o = addr tr m rb o) as Ea by (intros o; unfold addr; by rewrite Eb).
  destruct (IH Hnd H0 m1) as (Hsame & Hin & Hout).
  { intros p Hp E. rewrite Ea, Eb. apply Hb; [by apply elem_of_cons; right|done]. }
  change (exec_all tr (loads ((r, off) :: l) rb) m) with (exec_all tr (loads l rb) m1). split; [done|]. split.
  - intros p [-> | Hp]%elem_of_cons; [|rewrite Hin by done; by rewrite Ea]. cbn [fst snd]. rewrite Hout by done. unfold m1. cbn [execute]. by apply rget_rset_eq.
  - intros r' Hr'. apply not_elem_of_cons in Hr' as [Hne Hr']. rewrite Hout by done. unfold m1. cbn [execute]. by apply rget_rset_ne.
Qed.
End Run.

(** A table of registers is in order if a computation says so. *)
Definition table_ok (n : Z) (l : list (reg * Z)) : bool :=
  bool_decide (NoDup l.*1) && forallb (λ p, negb (p.1 =? 0)%nat && (0 <=? p.2) && (p.2 + 8 <=? n)) l &&
  (fix go (l : list (reg * Z)) := match l with [] => true | p :: l => forallb (λ q : reg * Z, p.2 + 8 <=? q.2) l && go l end) l.

Lemma table_ok_spec n l : table_ok n l = true → NoDup l.*1 ∧ Forall (λ p, p.1 ≠ 0%nat) l ∧ within n l ∧ StronglySorted (λ a b : Z, a + 8 ≤ b) l.*2.
Proof.
  unfold table_ok. intros [[H1 H2]%andb_prop H3]%andb_prop. apply bool_decide_eq_true_1 in H1. split; [done|].
  assert (Forall (λ p, p.1 ≠ 0%nat ∧ 0 ≤ p.2 ∧ p.2 + 8 ≤ n) l) as H.
  { clear H1 H3. induction l as [|p l IH]; [constructor|]. cbn in H2. apply andb_prop in H2 as [[[Ha Hb]%andb_prop Hc]%andb_prop H2]. constructor; [|by apply IH].
    apply negb_true_iff, Nat.eqb_neq in Ha. apply Z.leb_le in Hb, Hc. done. }
  split; [eapply Forall_impl; [exact H|]; cbn; tauto|]. split; [eapply Forall_impl; [exact H|]; cbn; tauto|].
  clear H1 H2 H. induction l as [|p l IH]; [constructor|]. apply andb_prop in H3 as [Ha H3]. cbn. constructor; [by apply IH|].
  clear IH H3. induction l as [|q l IHl]; [constructor|]. cbn in Ha. apply andb_prop in Ha as [Ha Hb]. apply Z.leb_le in Ha. cbn. constructor; [done|by apply IHl].
Qed.

(** ** swtch *)

(** The registers of [struct context] and their offsets. *)
Definition ctx_regs : list reg := [ra; sp; s0; s1; s2; s3; s4; s5; s6; s7; s8; s9; s10; s11].
Definition ctx_slots : list (reg * Z) := imap (λ k r, (r, 8 * Z.of_nat k)) ctx_regs.

Lemma ctx_ok : table_ok 112 ctx_slots = true.
Proof. vm_compute. reflexivity. Qed.
Lemma ctx_fst : ctx_slots.*1 = ctx_regs.
Proof. reflexivity. Qed.
Lemma swtch_code : swtch = saves ctx_slots a0 ++ loads ctx_slots a1 ++ [Ret].
Proof. reflexivity. Qed.

(** The context at [pa]: the values of [ctx_regs] in its slots. *)
Definition has_context (v : mem) (pa : Z) (f : reg → Z) : Prop := ∀ p, p ∈ ctx_slots → load64 v (pa + p.2) = f p.1.

(** A call of [swtch(old, new)] on contexts at physical addresses [po] and [pn]. *)
Record swtch_call (tr : Z → Z → Z) (m : machine) (po pn : Z) : Prop := {
  sc_regs : regs_ok m;
  sc_old : mapped tr (m_csr m satp) (rget m a0) po 112;
  sc_new : mapped tr (m_csr m satp) (rget m a1) pn 112;
  sc_apart : po + 112 ≤ pn ∨ pn + 112 ≤ po;
}.

Lemma ctx_slot p : p ∈ ctx_slots → 0 ≤ p.2 ∧ p.2 + 8 ≤ 112 ∧ p.1 ≠ 0%nat ∧ p.1 ∈ ctx_regs.
Proof.
  intros H. destruct (table_ok_spec _ _ ctx_ok) as (_ & H0 & Hw & _). eapply Forall_forall in Hw; [|exact H]. eapply Forall_forall in H0; [|exact H].
  split; [lia|]. split; [lia|]. split; [done|]. rewrite <- ctx_fst. by apply list_elem_of_fmap_2.
Qed.

Lemma swtch_effect tr m po pn f : swtch_call tr m po pn → has_context (m_mem m) pn f →
  let m' := exec_all tr swtch m in
  has_context (m_mem m') po (rget m) ∧ (∀ r, r ∈ ctx_regs → rget m' r = f r) ∧ (∀ r, r ∉ ctx_regs → rget m' r = rget m r) ∧
  m_pc m' = f ra ∧ m_csr m' = m_csr m ∧ ∀ x, x < po ∨ po + 112 ≤ x → m_mem m' x = m_mem m x.
Proof.
  intros [Hr Ho Hn Hap] Hf. destruct (table_ok_spec _ _ ctx_ok) as (Hnd & H0 & Hw & Hs). rewrite swtch_code, !exec_app.
  destruct (exec_saves tr ctx_slots a0 (rget m a0) po 112 Hs Hw m Hr eq_refl Ho) as (v & -> & Hin & Hout). set (m1 := set_mem v m).
  assert (∀ p, p ∈ ctx_slots → load64 (m_mem m1) (addr tr m1 a1 p.2) = f p.1) as Hl.
  { intros p Hp. destruct (ctx_slot p Hp) as (Hp1 & Hp2 & _). replace (addr tr m1 a1 p.2) with (pn + p.2) by (symmetry; apply Hn; lia). rewrite <- Hf by done.
    apply load64_ext. intros x Hx. apply Hout. intros q Hq. destruct (ctx_slot q Hq) as (Hq1 & Hq2 & _). lia. }
  assert (∀ p, p ∈ ctx_slots → p.1 = a1 → load64 (m_mem m1) (addr tr m1 a1 p.2) = rget m1 a1) as Hno.
  { intros p Hp E. destruct (ctx_slot p Hp) as (_ & _ & _ & Hp4). rewrite E in Hp4. exfalso. revert Hp4. apply (bool_decide_eq_false_1 (a1 ∈ ctx_regs)). reflexivity. }
  destruct (exec_loads tr ctx_slots a1 Hnd H0 m1 Hno) as ((E1 & E2 & E3) & Hlin & Hlout). set (m2 := exec_all tr (loads ctx_slots a1) m1) in *.
  cbn [exec_all fold_left execute set_pc m_mem m_pc m_csr]. change (rget (set_pc (rget m2 1) m2)) with (rget m2).
  assert (∀ r, r ∈ ctx_regs → rget m2 r = f r) as Hregs.
  { intros r H. rewrite <- ctx_fst in H. apply list_elem_of_fmap in H as (p & -> & Hp). rewrite Hlin by done. by apply Hl. }
  split; [intros p Hp; rewrite E2; by apply Hin|]. split; [done|]. split; [intros r H; by apply Hlout|].
  split; [apply Hregs; by apply (bool_decide_eq_true_1 (ra ∈ ctx_regs))|]. split; [exact E1|].
  intros x Hx. rewrite E2. apply Hout. intros p Hp. destruct (ctx_slot p Hp) as (Hp1 & Hp2 & _). lia.
Qed.

(** C11: [swtch] is a coroutine switch: when a later [swtch] has the context saved by an earlier one as its new context, with whatever
    happened in between, it returns to the caller of the earlier one, with its stack pointer and callee-saved registers; it
    writes only the old context. *)
Theorem swtch_resumes tr m po pn f m2 po2 : swtch_call tr m po pn → has_context (m_mem m) pn f →
  swtch_call tr m2 po2 po → (∀ x, po ≤ x < po + 112 → m_mem m2 x = m_mem (exec_all tr swtch m) x) →
  let m' := exec_all tr swtch m2 in
  m_pc m' = rget m ra ∧ (∀ r, r ∈ ctx_regs → rget m' r = rget m r) ∧ (∀ r, r ∉ ctx_regs → rget m' r = rget m2 r) ∧
  m_csr m' = m_csr m2 ∧ ∀ x, x < po2 ∨ po2 + 112 ≤ x → m_mem m' x = m_mem m2 x.
Proof.
  intros H1 Hf H2 Hkeep m'. destruct (swtch_effect tr m po pn f H1 Hf) as (Hctx & _).
  destruct (swtch_effect tr m2 po2 po (rget m) H2) as (_ & Hin & Hout & Hpc & Hcsr & Hmem).
  { intros p Hp. rewrite <- Hctx by done. destruct (ctx_slot p Hp) as (Hp1 & Hp2 & _). apply load64_ext. intros x Hx. apply Hkeep. lia. }
  done.
Qed.

(** ** The trampoline *)

(** The user registers but [a0] in [struct trapframe]; [a0] is at 112. *)
Definition tf_slots : list (reg * Z) := [
  (ra, 40); (sp, 48); (gp, 56); (tp, 64); (t0, 72); (t1, 80); (t2, 88); (s0, 96); (s1, 104); (a1, 120); (a2, 128); (a3, 136); (a4, 144);
  (a5, 152); (a6, 160); (a7, 168); (s2, 176); (s3, 184); (s4, 192); (s5, 200); (s6, 208); (s7, 216); (s8, 224); (s9, 232); (s10, 240);
  (s11, 248); (t3, 256); (t4, 264); (t5, 272); (t6, 280)].

Lemma tf_ok : table_ok 288 tf_slots = true.
Proof. vm_compute. reflexivity. Qed.
Lemma uservec_code : uservec = [Csrrw a0 sscratch a0] ++ saves tf_slots a0 ++ [Csrr t0 sscratch; Sd t0 112 a0; Ld sp 8 a0; Ld tp 32 a0; Ld t0 16 a0; Ld t1 0 a0; Csrw satp t1; SfenceVma; Jr t0].
Proof. reflexivity. Qed.
Lemma userret_code : userret = [Csrw satp a1; SfenceVma; Ld t0 112 a0; Csrw sscratch t0] ++ loads tf_slots a0 ++ [Csrrw a0 sscratch a0; Sret].
Proof. reflexivity. Qed.

(** The slot of each register. *)
Definition tf_off (r : reg) : Z := if decide (r = a0) then 112 else default 0 (snd <$> List.find (λ p : reg * Z, (p.1 =? r)%nat) tf_slots).

Lemma tf_slot p : p ∈ tf_slots → 40 ≤ p.2 ∧ p.2 + 8 ≤ 288 ∧ p.1 ≠ 0%nat ∧ p.1 ≠ a0 ∧ tf_off p.1 = p.2 ∧ (p.2 + 8 ≤ 112 ∨ 120 ≤ p.2).
Proof.
  assert (Forall (λ p, 40 ≤ p.2 ∧ p.2 + 8 ≤ 288 ∧ p.1 ≠ 0%nat ∧ p.1 ≠ a0 ∧ tf_off p.1 = p.2 ∧ (p.2 + 8 ≤ 112 ∨ 120 ≤ p.2)) tf_slots) as H.
  { repeat (apply Forall_cons_2; [cbn [fst snd]; split_and!; [lia|lia|discriminate|discriminate|reflexivity|lia]|]). constructor. }
  intros Hp. eapply Forall_forall in H; [exact H|exact Hp].
Qed.
Lemma tf_all r : (0 < r < 32)%nat → r ≠ a0 → (r, tf_off r) ∈ tf_slots.
Proof.
  intros Hr Hne. apply (bool_decide_eq_true_1 ((r, tf_off r) ∈ tf_slots)).
  do 32 (destruct r as [|r]; [first [lia|done|reflexivity]|]). lia.
Qed.
Lemma tf_off_range r : (0 < r < 32)%nat → 40 ≤ tf_off r ∧ tf_off r + 8 ≤ 288.
Proof.
  intros Hr. destruct (decide (r = a0)) as [->|Hne]; [change (tf_off a0) with 112; lia|]. pose proof (tf_slot _ (tf_all r Hr Hne)) as H. cbn [fst snd] in H. lia.
Qed.

(** The trap frame at [tf], seen at [va] through the page table [us], holds [f]. *)
Definition has_frame (v : mem) (tf : Z) (f : reg → Z) : Prop := ∀ r, (0 < r < 32)%nat → load64 v (tf + tf_off r) = f r.

(** The part of [uservec] that saves, with [a0] last. *)
Definition uservec_save : list instr := [Csrrw a0 sscratch a0] ++ saves tf_slots a0 ++ [Csrr t0 sscratch; Sd t0 112 a0].

Lemma uservec_save_effect tr m tf : regs_ok m → 0 ≤ m_csr m sscratch < 2 ^ 64 → mapped tr (m_csr m satp) (m_csr m sscratch) tf 288 →
  let m' := exec_all tr uservec_save m in
  has_frame (m_mem m') tf (rget m) ∧ (∀ x, x < tf + 40 ∨ tf + 288 ≤ x → m_mem m' x = m_mem m x) ∧ rget m' a0 = m_csr m sscratch ∧ m_csr m' satp = m_csr m satp.
Proof.
  intros Hr Hsc Hm. destruct (table_ok_spec _ _ tf_ok) as (Hnd & H0 & Hw & Hs). unfold uservec_save. rewrite !exec_app.
  set (m1 := exec_all tr [Csrrw a0 sscratch a0] m).
  assert (rget m1 a0 = m_csr m sscratch) as Ea0 by done. assert (m_csr m1 satp = m_csr m satp) as Esatp by done.
  assert (∀ r, r ≠ a0 → rget m1 r = rget m r) as Er by (intros r H; unfold m1; cbn [exec_all fold_left execute]; by rewrite rget_rset_ne by done).
  assert (regs_ok m1) as Hr1 by (intros r; destruct (decide (r = a0)) as [->|H]; [by rewrite Ea0|rewrite Er by done; apply Hr]).
  rewrite <- Esatp, <- Ea0 in Hm.
  destruct (exec_saves tr tf_slots a0 _ tf 288 Hs Hw m1 Hr1 eq_refl Hm) as (v & -> & Hin & Hout). set (m2 := set_mem v m1).
  set (m3 := exec_all tr [Csrr t0 sscratch; Sd t0 112 a0] m2).
  assert (m_mem m3 = store64 v (tf + 112) (rget m a0)) as Em3. { unfold m3. cbn [exec_all fold_left execute m_mem set_mem]. rewrite <- (Hm 112) by lia. reflexivity. }
  split; [|split; [|done]].
  - intros r Hrange. rewrite Em3. destruct (decide (r = a0)) as [->|Hne].
    + change (tf_off a0) with 112. rewrite load64_store64_eq. apply Z.mod_small, Hr.
    + pose proof (tf_all r Hrange Hne) as Hp. destruct (tf_slot _ Hp) as (_ & _ & _ & _ & _ & H). cbn [snd] in H. rewrite load64_store64_ne by lia.
      etransitivity; [exact (Hin (r, tf_off r) Hp)|]. by apply Er.
  - intros x Hx. rewrite Em3, store64_out by lia. apply Hout. intros p Hp. destruct (tf_slot p Hp) as (Hp1 & Hp2 & _). lia.
Qed.

(** The fields of the trap frame for the kernel. *)
Definition kernel_slots : list (reg * Z) := [(sp, 8); (tp, 32); (t0, 16); (t1, 0)].

Lemma kernel_slot p : p ∈ kernel_slots → 0 ≤ p.2 ∧ p.2 + 8 ≤ 40 ∧ p.1 ≠ a0.
Proof.
  assert (Forall (λ p, 0 ≤ p.2 ∧ p.2 + 8 ≤ 40 ∧ p.1 ≠ a0) kernel_slots) as H by (repeat constructor; discriminate || (cbn [snd]; lia)).
  intros Hp. eapply Forall_forall in H; [exact H|exact Hp].
Qed.

Lemma enter_kernel tr m : exec_all tr [Csrw satp t1; SfenceVma; Jr t0] m = set_pc (rget m t0) (set_csr satp (rget m t1) m).
Proof. reflexivity. Qed.
Lemma leave_kernel tr m : exec_all tr [Csrrw a0 sscratch a0; Sret] m = set_pc (m_csr m sepc) (rset a0 (m_csr m sscratch) (set_csr sscratch (rget m a0) m)).
Proof. reflexivity. Qed.

Lemma enter_effect tr m : let m' := exec_all tr (loads kernel_slots a0 ++ [Csrw satp t1; SfenceVma; Jr t0]) m in
  m_mem m' = m_mem m ∧ m_pc m' = load64 (m_mem m) (addr tr m a0 16) ∧ rget m' sp = load64 (m_mem m) (addr tr m a0 8) ∧
  rget m' tp = load64 (m_mem m) (addr tr m a0 32) ∧ m_csr m' satp = load64 (m_mem m) (addr tr m a0 0).
Proof.
  rewrite exec_app, enter_kernel. destruct (exec_loads tr kernel_slots a0) with (m := m) as ((E1 & E2 & E3) & Hin & _).
  - apply (bool_decide_eq_true_1 (NoDup _)). reflexivity.
  - by repeat constructor.
  - intros p Hp E. by destruct (kernel_slot p Hp) as (_ & _ & H).
  - generalize dependent (exec_all tr (loads kernel_slots a0) m). intros m4 E1 E2 E3 Hin. split; [exact E2|].
    split; [exact (Hin (t0, 16) ltac:(by repeat constructor))|]. split; [exact (Hin (sp, 8) ltac:(by repeat constructor))|].
    split; [exact (Hin (tp, 32) ltac:(by repeat constructor))|]. exact (Hin (t1, 0) ltac:(by repeat constructor)).
Qed.

Lemma uservec_split : uservec = uservec_save ++ loads kernel_slots a0 ++ [Csrw satp t1; SfenceVma; Jr t0].
Proof. reflexivity. Qed.

Lemma uservec_effect tr m tf : regs_ok m → 0 ≤ m_csr m sscratch < 2 ^ 64 → mapped tr (m_csr m satp) (m_csr m sscratch) tf 288 →
  let m' := exec_all tr uservec m in
  has_frame (m_mem m') tf (rget m) ∧ (∀ x, x < tf + 40 ∨ tf + 288 ≤ x → m_mem m' x = m_mem m x) ∧
  m_pc m' = load64 (m_mem m) (tf + 16) ∧ rget m' sp = load64 (m_mem m) (tf + 8) ∧ rget m' tp = load64 (m_mem m) (tf + 32) ∧ m_csr m' satp = load64 (m_mem m) (tf + 0).
Proof.
  intros Hr Hsc Hm. destruct (uservec_save_effect tr m tf Hr Hsc Hm) as (Hf & Hmem & Ea0 & Es). rewrite uservec_split, (exec_app tr uservec_save).
  generalize dependent (exec_all tr uservec_save m). intros m3 Hf Hmem Ea0 Es.
  destruct (enter_effect tr m3) as (E1 & E2 & E3 & E4 & E5). cbv zeta. rewrite E1, E2, E3, E4, E5. split; [done|]. split; [done|].
  assert (∀ o, 0 ≤ o ≤ 32 → load64 (m_mem m3) (addr tr m3 a0 o) = load64 (m_mem m) (tf + o)) as Hk.
  { intros o Ho. unfold addr. rewrite Ea0, Es, Hm by lia. apply load64_ext. intros x Hx. apply Hmem. lia. }
  rewrite !Hk by lia. done.
Qed.

(** The start of [userret], and the rest. *)
Definition userret_head : list instr := [Csrw satp a1; SfenceVma; Ld t0 112 a0; Csrw sscratch t0].

Lemma userret_head_effect tr m : let m' := exec_all tr userret_head m in
  rget m' a0 = rget m a0 ∧ m_csr m' satp = rget m a1 ∧ m_csr m' sepc = m_csr m sepc ∧ m_mem m' = m_mem m ∧
  m_csr m' sscratch = load64 (m_mem m) (tr (rget m a1) (u64 (rget m a0 + 112))).
Proof. done. Qed.

Lemma userret_effect tr m tf : mapped tr (rget m a1) (rget m a0) tf 288 →
  let m' := exec_all tr userret m in
  (∀ r, (0 < r < 32)%nat → rget m' r = load64 (m_mem m) (tf + tf_off r)) ∧ m_mem m' = m_mem m ∧
  m_pc m' = m_csr m sepc ∧ m_csr m' satp = rget m a1 ∧ m_csr m' sscratch = rget m a0.
Proof.
  intros Hm. destruct (table_ok_spec _ _ tf_ok) as (Hnd & H0 & Hw & Hs). rewrite userret_code, (exec_app tr userret_head), exec_app, leave_kernel.
  pose proof (userret_head_effect tr m) as (Ea0 & Es & Ee & Em & Esc). rewrite Hm in Esc by lia. generalize dependent (exec_all tr userret_head m). intros m1 Ea0 Es Ee Em Esc.
  destruct (exec_loads tr tf_slots a0 Hnd H0 m1) as ((E1 & E2 & E3) & Hin & Hout).
  { intros p Hp E. destruct (tf_slot p Hp) as (_ & _ & _ & H & _). done. }
  generalize dependent (exec_all tr (loads tf_slots a0) m1). intros m2 E1 E2 E3 Hin Hout.
  assert (rget m2 a0 = rget m a0) as Ea2 by (rewrite <- Ea0; apply Hout; by apply (bool_decide_eq_true_1 (a0 ∉ tf_slots.*1))).
  cbn [set_pc rset set_csr m_mem m_pc m_csr]. rewrite E2, E1, Em. split; [|by rewrite Ea2].
  intros r Hrange. destruct (decide (r = a0)) as [->|Hne]; [by rewrite Esc|].
  pose proof (tf_all r Hrange Hne) as Hp. destruct (tf_slot _ Hp) as (Hp1 & Hp2 & _). cbn [snd] in Hp1, Hp2. pose proof (Hin _ Hp) as E. cbn [fst snd] in E.
  unfold addr in E. rewrite Ea0, Es, Hm, Em in E by lia. rewrite <- E. exact (rget_rset_ne a0 r _ (set_csr _ _ m2) (not_eq_sym Hne)).
Qed.

(** C10: a trap from user space and back: [uservec] saves all 31 user registers in the trap frame, touches no other memory and enters the
    kernel at [kernel_trap] with the kernel's page table, stack and [tp]; whatever the kernel does in between, [userret] gives
    every register the value its slot then has, so what the kernel leaves alone is as it was, and [sscratch] and [satp] are those
    of the user again. *)
Theorem trampoline_roundtrip tr m tf m2 : regs_ok m → 0 ≤ m_csr m sscratch < 2 ^ 64 → mapped tr (m_csr m satp) (m_csr m sscratch) tf 288 →
  rget m2 a0 = m_csr m sscratch → rget m2 a1 = m_csr m satp →
  let m1 := exec_all tr uservec m in
  let m3 := exec_all tr userret m2 in
  m_pc m1 = load64 (m_mem m) (tf + 16) ∧ rget m1 sp = load64 (m_mem m) (tf + 8) ∧ rget m1 tp = load64 (m_mem m) (tf + 32) ∧ m_csr m1 satp = load64 (m_mem m) (tf + 0) ∧
  (∀ x, x < tf + 40 ∨ tf + 288 ≤ x → m_mem m1 x = m_mem m x) ∧
  (∀ r, (0 < r < 32)%nat → rget m3 r = load64 (m_mem m2) (tf + tf_off r) ∧
    ((∀ x, tf + tf_off r ≤ x < tf + tf_off r + 8 → m_mem m2 x = m_mem m1 x) → rget m3 r = rget m r)) ∧
  m_pc m3 = m_csr m2 sepc ∧ m_csr m3 satp = m_csr m satp ∧ m_csr m3 sscratch = m_csr m sscratch ∧ m_mem m3 = m_mem m2.
Proof.
  intros Hr Hsc Hm Ha0 Ha1 m1 m3. destruct (uservec_effect tr m tf Hr Hsc Hm) as (Hf & Hmem & Hpc & Hsp & Htp & Hsatp). fold m1 in Hf, Hmem, Hpc, Hsp, Htp, Hsatp.
  destruct (userret_effect tr m2 tf) as (Hregs & Em & Epc & Es & Esc); [by rewrite Ha0, Ha1|]. fold m3 in Hregs, Em, Epc, Es, Esc. clearbody m1 m3.
  rewrite Es, Esc. split; [done|]. split; [done|]. split; [done|]. split; [done|]. split; [done|]. split; [|done].
  intros r Hrange. rewrite Hregs by done. split; [done|]. intros Hx. rewrite <- (Hf r Hrange). by apply load64_ext.
Qed.

(** ** Traps in the kernel *)

Definition kv_slots (tp_too : bool) : list (reg * Z) :=
  [(ra, 0); (sp, 8); (gp, 16)] ++ (if tp_too then [(tp, 24)] else []) ++
  [(t0, 32); (t1, 40); (t2, 48); (s0, 56); (s1, 64); (a0, 72); (a1, 80); (a2, 88); (a3, 96); (a4, 104); (a5, 112); (a6, 120); (a7, 128);
   (s2, 136); (s3, 144); (s4, 152); (s5, 160); (s6, 168); (s7, 176); (s8, 184); (s9, 192); (s10, 200); (s11, 208); (t3, 216); (t4, 224); (t5, 232); (t6, 240)].

Lemma kv_ok b : table_ok 256 (kv_slots b) = true.
Proof. destruct b; vm_compute; reflexivity. Qed.
Lemma kv_save_code : kernelvec_save = [Addi sp sp (-256)] ++ saves (kv_slots true) sp.
Proof. reflexivity. Qed.
Lemma kv_restore_code : kernelvec_restore = loads (kv_slots false) sp ++ [Addi sp sp 256; Sret].
Proof. reflexivity. Qed.

Lemma kv_incl p : p ∈ kv_slots false → p ∈ kv_slots true.
Proof.
  unfold kv_slots. rewrite !elem_of_app. intros [H|[H|H]]; [by left|by apply not_elem_of_nil in H|by right; right].
Qed.
Lemma kv_all r : (0 < r < 32)%nat → r ≠ tp → r ∈ (kv_slots false).*1.
Proof.
  intros Hr Hne. apply (bool_decide_eq_true_1 (r ∈ (kv_slots false).*1)). do 32 (destruct r as [|r]; [first [lia|done|reflexivity]|]). lia.
Qed.

Lemma frame_pushed tr m : exec_all tr [Addi sp sp (-256)] m = rset sp (u64 (rget m sp + -256)) m.
Proof. reflexivity. Qed.
Lemma frame_popped tr m : exec_all tr [Addi sp sp 256; Sret] m = set_pc (m_csr m sepc) (rset sp (u64 (rget m sp + 256)) m).
Proof. reflexivity. Qed.

Lemma kv_save_effect tr m ps : regs_ok m → mapped tr (m_csr m satp) (u64 (rget m sp - 256)) ps 256 →
  let m1 := exec_all tr kernelvec_save m in
  rget m1 sp = u64 (rget m sp - 256) ∧ (∀ p, p ∈ kv_slots true → load64 (m_mem m1) (ps + p.2) = if decide (p.1 = sp) then u64 (rget m sp - 256) else rget m p.1) ∧
  ∀ x, x < ps ∨ ps + 256 ≤ x → m_mem m1 x = m_mem m x.
Proof.
  intros Hr Hm. destruct (table_ok_spec _ _ (kv_ok true)) as (_ & _ & Hw & Hs). rewrite kv_save_code, exec_app, frame_pushed. set (m0 := rset sp _ m).
  assert (rget m0 sp = u64 (rget m sp - 256)) as Esp by (by apply rget_rset_eq).
  assert (∀ r, r ≠ sp → rget m0 r = rget m r) as Er by (intros r H; by apply rget_rset_ne).
  assert (regs_ok m0) as Hr0. { intros r. destruct (decide (r = sp)) as [->|H]; [rewrite Esp; apply Z.mod_pos_bound; lia|rewrite Er by done; apply Hr]. }
  assert (m_csr m0 = m_csr m ∧ m_mem m0 = m_mem m) as [Ec Em] by done. clearbody m0.
  destruct (exec_saves tr (kv_slots true) sp (u64 (rget m sp - 256)) ps 256 Hs Hw m0 Hr0 Esp) as (v & -> & Hin & Hout); [by rewrite Ec|].
  split; [exact Esp|]. split.
  - intros p Hp. etransitivity; [exact (Hin p Hp)|]. case_decide as E; [by rewrite E|by apply Er].
  - intros x Hx. cbn [set_mem m_mem]. rewrite Hout, Em; [done|]. intros p Hp. eapply Forall_forall in Hw; [|exact Hp]. lia.
Qed.

Lemma kv_restore_effect tr m ps f : mapped tr (m_csr m satp) (rget m sp) ps 256 → f sp = rget m sp → (∀ p, p ∈ kv_slots false → load64 (m_mem m) (ps + p.2) = f p.1) →
  let m' := exec_all tr kernelvec_restore m in
  (∀ r, (0 < r < 32)%nat → r ≠ tp → rget m' r = if decide (r = sp) then u64 (f sp + 256) else f r) ∧ rget m' tp = rget m tp ∧
  m_pc m' = m_csr m sepc ∧ m_mem m' = m_mem m ∧ m_csr m' = m_csr m.
Proof.
  intros Hm Hfsp Hf. destruct (table_ok_spec _ _ (kv_ok false)) as (Hnd & H0 & Hw & _). rewrite kv_restore_code, exec_app, frame_popped.
  assert (∀ p, p ∈ kv_slots false → load64 (m_mem m) (addr tr m sp p.2) = f p.1) as Hl.
  { intros p Hp. rewrite <- Hf by done. eapply Forall_forall in Hw; [|exact Hp]. f_equal. apply Hm. lia. }
  destruct (exec_loads tr (kv_slots false) sp Hnd H0 m) as ((E1 & E2 & E3) & Hin & Hout); [intros p Hp E; by rewrite Hl, E by done|].
  generalize dependent (exec_all tr (loads (kv_slots false) sp) m). intros m2 E1 E2 E3 Hin Hout.
  assert (∀ r, (0 < r < 32)%nat → r ≠ tp → rget m2 r = f r) as Hv.
  { intros r Hr Hne. pose proof (kv_all r Hr Hne) as H. apply list_elem_of_fmap in H as (p & -> & Hp). rewrite Hin by done. by apply Hl. }
  cbn [set_pc m_pc m_mem m_csr rset]. rewrite E1, E2. split; [|split; [|done]].
  - intros r Hr Hne. case_decide as E.
    + subst r. rewrite <- (Hv sp) by (unfold sp, tp; lia || done). exact (rget_rset_eq sp _ m2 ltac:(discriminate)).
    + rewrite <- Hv by done. exact (rget_rset_ne sp r _ m2 (not_eq_sym E)).
  - rewrite <- (Hout tp); [exact (rget_rset_ne sp tp (u64 (rget m2 sp + 256)) m2 ltac:(discriminate))|]. by apply (bool_decide_eq_true_1 (tp ∉ (kv_slots false).*1)).
Qed.

Lemma kv_compose tr m ps m1 m2 : regs_ok m → rget m1 sp = u64 (rget m sp - 256) →
  (∀ p, p ∈ kv_slots true → load64 (m_mem m1) (ps + p.2) = if decide (p.1 = sp) then u64 (rget m sp - 256) else rget m p.1) →
  rget m2 sp = rget m1 sp → mapped tr (m_csr m2 satp) (rget m1 sp) ps 256 → (∀ x, ps ≤ x < ps + 256 → m_mem m2 x = m_mem m1 x) →
  let m' := exec_all tr kernelvec_restore m2 in
  (∀ r, (r < 32)%nat → r ≠ tp → rget m' r = rget m r) ∧ rget m' tp = rget m2 tp ∧ m_pc m' = m_csr m2 sepc ∧ m_mem m' = m_mem m2 ∧ m_csr m' = m_csr m2.
Proof.
  intros Hr Esp Hin Hsp Hm2 Hkeep.
  destruct (kv_restore_effect tr m2 ps (λ r, if decide (r = sp) then u64 (rget m sp - 256) else rget m r)) as (H1 & H2 & H3 & H4 & H5).
  - by rewrite Hsp.
  - rewrite decide_True by done. by rewrite Hsp, Esp.
  - intros p Hp. rewrite <- (Hin p (kv_incl p Hp)). destruct (table_ok_spec _ _ (kv_ok false)) as (_ & _ & Hw & _). eapply Forall_forall in Hw; [|exact Hp].
    apply load64_ext. intros x Hx. apply Hkeep. lia.
  - generalize dependent (exec_all tr kernelvec_restore m2). intros m' H1 H2 H3 H4 H5. split; [|done].
    intros r Hr32 Hne. destruct (decide (r = 0%nat)) as [->|H0]; [done|]. rewrite H1 by lia || done. cbn beta. destruct (decide (r = sp)) as [->|E]; [|done]. rewrite decide_True by done.
    unfold u64. rewrite Zplus_mod_idemp_l. replace (rget m sp - 256 + 256) with (rget m sp) by lia. apply Z.mod_small, Hr.
Qed.

(** C21: an interrupt in the kernel is invisible to the code it interrupts: for any [kerneltrap] that keeps to the calling convention, in that it
    returns with the stack pointer it got and leaves the frame above it alone, [kernelvec] returns with every register but [tp] as it was, to
    where [sepc] points, with the memory and control registers [kerneltrap] left; [tp] is that of the cpu it returns on. *)
Theorem kernelvec_transparent tr kerneltrap m ps : regs_ok m → mapped tr (m_csr m satp) (u64 (rget m sp - 256)) ps 256 →
  let m1 := exec_all tr kernelvec_save m in let m2 := kerneltrap m1 in
  rget m2 sp = rget m1 sp → mapped tr (m_csr m2 satp) (rget m1 sp) ps 256 → (∀ x, ps ≤ x < ps + 256 → m_mem m2 x = m_mem m1 x) →
  let m' := kernelvec tr kerneltrap m in
  (∀ r, (r < 32)%nat → r ≠ tp → rget m' r = rget m r) ∧ rget m' tp = rget m2 tp ∧ m_pc m' = m_csr m2 sepc ∧ m_mem m' = m_mem m2 ∧ m_csr m' = m_csr m2 ∧
  ∀ x, x < ps ∨ ps + 256 ≤ x → m_mem m1 x = m_mem m x.
Proof.
  cbv zeta. unfold kernelvec. intros Hr Hm Hsp Hm2 Hkeep. destruct (kv_save_effect tr m ps Hr Hm) as (Esp & Hin & Hout).
  generalize dependent (exec_all tr kernelvec_save m). intros m1 Hsp Hm2 Hkeep Esp Hin Hout.
  destruct (kv_compose tr m ps m1 (kerneltrap m1) Hr Esp Hin Hsp Hm2 Hkeep) as (H1 & H2 & H3 & H4 & H5). done.
Qed.
