(* ===== verification/AsmInit.v ===== *)
(** * The timer interrupt, the entry point, system call stubs and the first program *)

From Stdlib Require Import Sorted.
From S2P Require Import Prelude Memory Riscv Spinlock Core CString Kalloc Vm Sleeplock BufCache Log Sys Fs Console File Proc Asm AsmProof.

Import Abi.

(** Machine mode and user programs before they use virtual memory: addresses as they are. *)
Definition direct (s va : Z) : Z := va.

(** ** The timer interrupt *)

Definition tv_saved : list (reg * Z) := [(a1, 0); (a2, 8); (a3, 16)].
Definition tv_info : list (reg * Z) := [(a1, 32); (a2, 40)].
Definition tv_restored : list (reg * Z) := [(a3, 16); (a2, 8); (a1, 0)].
Definition tv_work : list instr := [Ld a3 0 a1; Add a3 a3 a2; Sd a3 0 a1; Li a1 2; Csrw sip a1].

Lemma timervec_code : timervec = [Csrrw a0 mscratch a0] ++ saves tv_saved a0 ++ loads tv_info a0 ++ tv_work ++ loads tv_restored a0 ++ [Csrrw a0 mscratch a0; Mret].
Proof. reflexivity. Qed.

Lemma tv_enter tr m : let m' := exec_all tr [Csrrw a0 mscratch a0] m in
  rget m' a0 = m_csr m mscratch ∧ m_csr m' mscratch = rget m a0 ∧ m_csr m' mepc = m_csr m mepc ∧ m_mem m' = m_mem m ∧ ∀ r, r ≠ a0 → rget m' r = rget m r.
Proof. split_and!; try done. intros r H. exact (rget_rset_ne a0 r (m_csr m mscratch) (set_csr mscratch (rget m a0) m) (not_eq_sym H)). Qed.

Lemma tv_work_effect m : let m' := exec_all direct tv_work m in let c := u64 (rget m a1 + 0) in
  m_mem m' = store64 (m_mem m) c (u64 (load64 (m_mem m) c + rget m a2)) ∧ m_csr m' sip = 2 ∧ m_csr m' mscratch = m_csr m mscratch ∧ m_csr m' mepc = m_csr m mepc ∧
  ∀ r, r ≠ a1 → r ≠ a3 → rget m' r = rget m r.
Proof.
  split_and!; try done. intros r H1 H3. cbn [exec_all fold_left execute tv_work]. change (rget (set_csr _ _ ?y) r) with (rget y r).
  rewrite rget_rset_ne by done. change (rget (set_mem _ ?y) r) with (rget y r). by rewrite !rget_rset_ne by done.
Qed.

Lemma tv_leave tr m : let m' := exec_all tr [Csrrw a0 mscratch a0; Mret] m in
  rget m' a0 = m_csr m mscratch ∧ m_csr m' mscratch = rget m a0 ∧ m_csr m' sip = m_csr m sip ∧ m_pc m' = m_csr m mepc ∧ m_mem m' = m_mem m ∧ ∀ r, r ≠ a0 → rget m' r = rget m r.
Proof. split_and!; try done. intros r H. exact (rget_rset_ne a0 r (m_csr m mscratch) (set_csr mscratch (rget m a0) m) (not_eq_sym H)). Qed.

(** The scratch area [timerinit] prepares, apart from the register [mtimecmp] it names. *)
Record timer_ready (m : machine) (sc cmp interval : Z) : Prop := {
  tr_regs : regs_ok m;
  tr_scratch : m_csr m mscratch = sc ∧ 0 ≤ sc ∧ sc + 48 < 2 ^ 64;
  tr_cmp : load64 (m_mem m) (sc + 32) = cmp ∧ 0 ≤ cmp < 2 ^ 64;
  tr_interval : load64 (m_mem m) (sc + 40) = interval;
  tr_apart : cmp + 8 ≤ sc ∨ sc + 48 ≤ cmp;
}.

Lemma direct_mapped s a n : 0 ≤ a → a + n < 2 ^ 64 → mapped direct s a a n.
Proof. intros H1 H2 k Hk. unfold direct, u64. apply Z.mod_small. lia. Qed.

(** Loads from the scratch area, which do not change its address. *)
Lemma scratch_loads l m sc : NoDup l.*1 → Forall (λ p, p.1 ≠ 0%nat ∧ p.1 ≠ a0 ∧ 0 ≤ p.2 ≤ 40) l → rget m a0 = sc → 0 ≤ sc → sc + 48 < 2 ^ 64 →
  let m' := exec_all direct (loads l a0) m in same_but_regs m m' ∧ (∀ p, p ∈ l → rget m' p.1 = load64 (m_mem m) (sc + p.2)) ∧ ∀ r, r ∉ l.*1 → rget m' r = rget m r.
Proof.
  intros Hnd Hl Hsc H1 H2. assert (Forall (λ p, p.1 ≠ 0%nat) l) as H0 by (eapply Forall_impl; [exact Hl|]; cbn; tauto).
  destruct (exec_loads direct l a0 Hnd H0 m) as (Hs & Hin & Hout).
  { intros p Hp E. eapply Forall_forall in Hl; [|exact Hp]. tauto. }
  split; [exact Hs|]. split; [|exact Hout]. intros p Hp. rewrite (Hin p Hp). eapply Forall_forall in Hl; [|exact Hp]. f_equal. unfold addr. rewrite Hsc. unfold direct, u64. apply Z.mod_small. lia.
Qed.

Lemma tv_table : table_ok 24 tv_saved = true.
Proof. reflexivity. Qed.

(** What the first half leaves: the registers it uses are in the scratch area. *)
Lemma tv_first m sc cmp interval : timer_ready m sc cmp interval →
  let m' := exec_all direct ([Csrrw a0 mscratch a0] ++ saves tv_saved a0 ++ loads tv_info a0) m in
  rget m' a0 = sc ∧ rget m' a1 = cmp ∧ rget m' a2 = interval ∧ m_csr m' mscratch = rget m a0 ∧ m_csr m' mepc = m_csr m mepc ∧
  (∀ p, p ∈ tv_saved → load64 (m_mem m') (sc + p.2) = rget m p.1) ∧ (∀ x, x < sc ∨ sc + 24 ≤ x → m_mem m' x = m_mem m x) ∧
  ∀ r, r ∉ [a0; a1; a2] → rget m' r = rget m r.
Proof.
  intros [Hr (Hsc & Hlo & Hhi) (Hcmp & Hc) Hint Hap]. rewrite !exec_app. destruct (tv_enter direct m) as (E1 & E2 & E3 & E4 & E5).
  assert (regs_ok (exec_all direct [Csrrw a0 mscratch a0] m)) as Hr1.
  { intros r. destruct (decide (r = a0)) as [->|H]; [rewrite E1, Hsc; lia|rewrite E5 by done; apply Hr]. }
  generalize dependent (exec_all direct [Csrrw a0 mscratch a0] m). intros m1 E1 E2 E3 E4 E5 Hr1. rewrite Hsc in E1.
  destruct (table_ok_spec _ _ tv_table) as (_ & _ & Hw & Hs).
  destruct (exec_saves direct tv_saved a0 sc sc 24 Hs Hw m1 Hr1 E1 (direct_mapped _ sc 24 Hlo ltac:(lia))) as (v & -> & Hin & Hout).
  assert (∀ x, x < sc ∨ sc + 24 ≤ x → v x = m_mem m x) as Hmem. { intros x Hx. rewrite Hout, E4; [done|]. intros p Hp. eapply Forall_forall in Hw; [|exact Hp]. lia. }
  destruct (scratch_loads tv_info (set_mem v m1) sc) as ((F1 & F2 & F3) & Gin & Gout); [by apply (bool_decide_eq_true_1 (NoDup _))|by repeat constructor|done..|].
  generalize dependent (exec_all direct (loads tv_info a0) (set_mem v m1)). intros m3 F1 F2 F3 Gin Gout. cbn [set_mem m_mem m_csr] in *.
  assert (∀ r, r ∉ [a1; a2] → rget m3 r = rget m1 r) as Gr by exact Gout.
  split; [rewrite Gr; [done|by apply (bool_decide_eq_true_1 (a0 ∉ [a1; a2]))]|].
  split; [etransitivity; [exact (Gin (a1, 32) ltac:(by repeat constructor))|]; rewrite <- Hcmp; apply load64_ext; intros x Hx; apply Hmem; cbn [snd] in Hx; lia|].
  split; [etransitivity; [exact (Gin (a2, 40) ltac:(by repeat constructor))|]; rewrite <- Hint; apply load64_ext; intros x Hx; apply Hmem; cbn [snd] in Hx; lia|].
  rewrite F1, F2. split; [done|]. split; [done|]. split.
  - intros p Hp. rewrite (Hin p Hp). apply E5. intros E. revert Hp. unfold tv_saved. rewrite !elem_of_cons. intros [-> | [-> | [-> | H]]]; [done..|by apply not_elem_of_nil in H].
  - split; [done|]. intros r Hr3. rewrite !not_elem_of_cons in Hr3. rewrite Gr by (rewrite !not_elem_of_cons; tauto). apply E5. tauto.
Qed.

(** The timer interrupt changes nothing the interrupted code can see: all registers and [mscratch] are as before, only the three save slots of the
    scratch area and [mtimecmp] are written, which moves the next interrupt by the interval, and the supervisor's software interrupt is
    raised. *)
Theorem timervec_correct m sc cmp interval : timer_ready m sc cmp interval →
  let m' := exec_all direct timervec m in
  (∀ r, rget m' r = rget m r) ∧ m_csr m' mscratch = m_csr m mscratch ∧ m_csr m' sip = 2 ∧ m_pc m' = m_csr m mepc ∧
  load64 (m_mem m') cmp = u64 (load64 (m_mem m) cmp + interval) ∧
  ∀ x, x < sc ∨ sc + 24 ≤ x → x < cmp ∨ cmp + 8 ≤ x → m_mem m' x = m_mem m x.
Proof.
  cbv zeta. intros H. destruct (tv_first m sc cmp interval H) as (E1 & E2 & E3 & E4 & E5 & E6 & E7 & E8). destruct H as [Hr (Hsc & Hlo & Hhi) (Hcmp & Hc) Hint Hap].
  rewrite timervec_code, !app_assoc, exec_app, exec_app, exec_app. rewrite <- app_assoc. generalize dependent (exec_all direct ([Csrrw a0 mscratch a0] ++ saves tv_saved a0 ++ loads tv_info a0) m).
  intros m3 E1 E2 E3 E4 E5 E6 E7 E8. destruct (tv_work_effect m3) as (W1 & W2 & W3 & W4 & W5). rewrite E2, E3, Z.add_0_r in W1. replace (u64 cmp) with cmp in W1 by (symmetry; by apply Z.mod_small).
  generalize dependent (exec_all direct tv_work m3). intros m4 W1 W2 W3 W4 W5.
  destruct (scratch_loads tv_restored m4 sc) as ((F1 & F2 & F3) & Gin & Gout); [by apply (bool_decide_eq_true_1 (NoDup _))|by repeat constructor|by rewrite W5|done..|].
  generalize dependent (exec_all direct (loads tv_restored a0) m4). intros m5 F1 F2 F3 Gin Gout.
  assert (∀ p, p ∈ tv_saved → load64 (m_mem m4) (sc + p.2) = rget m p.1) as Hback.
  { intros p Hp. rewrite <- (E6 p Hp), W1. apply load64_store64_ne. destruct (table_ok_spec _ _ tv_table) as (_ & _ & Hw & _). eapply Forall_forall in Hw; [|exact Hp]. lia. }
  assert (∀ r, r ≠ a0 → rget m5 r = rget m r) as Hregs.
  { intros r H0. destruct (decide (r ∈ [a1; a2; a3])) as [Hin|Hin].
    - rewrite !elem_of_cons in Hin. destruct Hin as [-> | [-> | [-> | Hin]]]; [| | |by apply not_elem_of_nil in Hin].
      + etransitivity; [exact (Gin (a1, 0) ltac:(by repeat constructor))|]. apply (Hback (a1, 0)). by repeat constructor.
      + etransitivity; [exact (Gin (a2, 8) ltac:(by repeat constructor))|]. apply (Hback (a2, 8)). by repeat constructor.
      + etransitivity; [exact (Gin (a3, 16) ltac:(by repeat constructor))|]. apply (Hback (a3, 16)). by repeat constructor.
    - rewrite !not_elem_of_cons in Hin. rewrite Gout by (change (tv_restored.*1) with [a3; a2; a1]; rewrite !not_elem_of_cons; tauto). rewrite W5 by tauto. apply E8. rewrite !not_elem_of_cons. tauto. }
  assert (rget m5 a0 = sc) as Ha0 by (rewrite Gout by (by apply (bool_decide_eq_true_1 (a0 ∉ tv_restored.*1))); by rewrite W5).
  destruct (tv_leave direct m5) as (L1 & L2 & L3 & L4 & L5 & L6). generalize dependent (exec_all direct [Csrrw a0 mscratch a0; Mret] m5). intros m6 L1 L2 L3 L4 L5 L6.
  rewrite L2, L3, L4, L5, F1, F2, W1. split; [|split; [congruence|split; [congruence|split; [congruence|split]]]].
  - intros r. destruct (decide (r = a0)) as [->|H0]; [rewrite L1, F1, W3; exact E4|]. rewrite L6 by done. by apply Hregs.
  - rewrite load64_store64_eq. unfold u64. rewrite Z.mod_mod by done. do 2 f_equal. apply load64_ext. intros x Hx. apply E7. lia.
  - intros x H1 H2. rewrite store64_out by lia. by apply E7.
Qed.

(** ** Entry, system calls *)

(** At [_entry] each hart takes its own page of [stack0]: [sp] points to the end of page [mhartid]. *)
Theorem entry_stack stack0 m : 0 ≤ stack0 → stack0 + 4096 * NCPU < 2 ^ 64 → 0 ≤ m_csr m mhartid < NCPU →
  rget (exec_all direct (_entry stack0) m) sp = stack0 + 4096 * (m_csr m mhartid + 1).
Proof.
  change NCPU with 8. intros H1 H2 H3. change (u64 (stack0 + u64 (u64 (1024 * 4) * u64 (m_csr m mhartid + 1))) = stack0 + 4096 * (m_csr m mhartid + 1)).
  change (u64 (1024 * 4)) with 4096. unfold u64. rewrite (Z.mod_small (m_csr m mhartid + 1)), (Z.mod_small (4096 * _)), Z.mod_small by lia. done.
Qed.

(** ** Types

    Registers and control registers are 64-bit words and memory is bytes. *)
Definition typed (m : machine) : Prop := regs_ok m ∧ (∀ c, 0 ≤ m_csr m c < 2 ^ 64) ∧ mem_ok (m_mem m).
Definition typed_instr (i : instr) : Prop := match i with La _ a => 0 ≤ a < 2 ^ 64 | _ => True end.

Lemma typed_rset r v m : typed m → 0 ≤ v < 2 ^ 64 → typed (rset r v m).
Proof.
  intros (Hr & Hc & Hm) Hv. split; [|done]. intros x. unfold rget. destruct (x =? 0)%nat eqn:E; [lia|]. cbn [rset m_regs]. destruct (x =? r)%nat; [done|].
  specialize (Hr x). unfold rget in Hr. by rewrite E in Hr.
Qed.
Lemma typed_csr c v m : typed m → 0 ≤ v < 2 ^ 64 → typed (set_csr c v m).
Proof. intros (Hr & Hc & Hm) Hv. split; [done|]. split; [|done]. intros x. cbn. case_decide; [done|apply Hc]. Qed.
Lemma typed_mem v m : typed m → mem_ok v → typed (set_mem v m).
Proof. intros (Hr & Hc & Hm) Hv. done. Qed.

Lemma typed_exec tr i m : typed_instr i → typed m → typed (execute tr m i).
Proof.
  intros Hi Hm. pose proof Hm as (Hr & Hc & Hb).
  assert (∀ r v, 0 ≤ v < 2 ^ 64 → typed (rset r v m)) as Hset by (intros r v Hv; by apply typed_rset). destruct i; cbn [execute].
  - apply typed_mem; [done|by apply store64_ok].
  - apply Hset. by apply load64_range.
  - apply typed_rset; [apply typed_csr; [done|apply Hr]|apply Hc].
  - apply Hset, Hc.
  - apply typed_csr; [done|apply Hr].
  - exact Hm.
  - apply Hset, u64_range.
  - apply Hset, u64_range.
  - apply Hset, u64_range.
  - apply Hset, u64_range.
  - apply Hset, Hi.
  - exact Hm.
  - exact Hm.
  - exact Hm.
  - exact Hm.
Qed.

Definition no_la (i : instr) : bool := match i with La _ _ => false | _ => true end.
Lemma no_la_typed l : forallb no_la l = true → Forall typed_instr l.
Proof.
  induction l as [|i l IH]; cbn [forallb]; intros H; [constructor|]. apply andb_prop in H as [Hi H]. constructor; [by destruct i|by apply IH].
Qed.

Definition routines (stack0 : Z) : list (list instr) := [_entry stack0; swtch; uservec; userret; kernelvec_save; kernelvec_restore; timervec].


(** The offsets of the registers in the trap frame are those the kernel uses for the number and arguments of a system call. *)
Lemma tf_layout : tf_off sp = TF_sp ∧ ∀ n, 0 ≤ n < 8 → tf_off (a0 + Z.to_nat n) = TF_a n.
Proof.
  split; [reflexivity|]. intros n Hn. assert (n ∈ seqZ 0 8) as H by (apply elem_of_seqZ; lia). change (seqZ 0 8) with [0; 1; 2; 3; 4; 5; 6; 7] in H. rewrite !elem_of_cons in H.
  destruct H as [-> | [-> | [-> | [-> | [-> | [-> | [-> | [-> | H]]]]]]]]; [reflexivity..|by apply not_elem_of_nil in H].
Qed.

(** The kernel sees the number in [a7] and everything else as the caller left it. *)
Lemma stub_enters tr n m : 0 ≤ n < 2 ^ 64 → let m' := execute tr m (Li a7 n) in rget m' a7 = n ∧ (∀ r, r ≠ a7 → rget m' r = rget m r) ∧ same_but_regs m m'.
Proof. intros Hn. split; [exact (Z.mod_small n (2 ^ 64) Hn)|]. split; [intros r H; by apply rget_rset_ne, not_eq_sym|done]. Qed.

(** ** The first program *)

(** The page [uvminit] makes for [initcode]. *)
Definition init_page (v : mem) : Prop := mread v 0 (length initcode) = initcode ∧ ∀ x, alen initcode ≤ x < PGSIZE → v x = 0.

Lemma mread_drop v a n k j : (k + j ≤ n)%nat → mread v (a + Z.of_nat k) j = take j (drop k (mread v a n)).
Proof.
  intros H. replace n with (k + (j + (n - k - j)))%nat by lia. rewrite mread_app, drop_app_length' by (by rewrite length_mread). rewrite mread_app, take_app_length' by (by rewrite length_mread). done.
Qed.

Lemma init_load v k : init_page v → (k + 4 ≤ 51)%nat → load32 v (Z.of_nat k) = le_dec (take 4 (drop k initcode)).
Proof. intros [H _] Hk. unfold load32. change (Z.of_nat k) with (0 + Z.of_nat k). rewrite (mread_drop v 0 (length initcode)) by (cbn; lia). by rewrite H. Qed.

Lemma init_words v : init_page v → load64 v 40 = 32 ∧ load64 v 48 = 0 ∧ mread v 32 6 = bytes_of "/init" ++ [0].
Proof.
  intros [H H0]. assert (∀ k j, (k + j ≤ 51)%nat → mread v (Z.of_nat k) j = take j (drop k initcode)) as Hr.
  { intros k j Hk. change (Z.of_nat k) with (0 + Z.of_nat k). rewrite (mread_drop v 0 (length initcode)) by (cbn; lia). by rewrite H. }
  split; [unfold load64; rewrite (Hr 40%nat) by lia; reflexivity|]. split; [|rewrite (Hr 32%nat) by lia; reflexivity].
  apply load64_zero. intros x Hx. destruct (decide (x < 51)) as [Hlt|]; [|apply H0; change (alen initcode) with 51; unfold PGSIZE; lia].
  pose proof (Hr (Z.to_nat x) 1%nat ltac:(lia)) as E. cbn [mread] in E. rewrite Z2Nat.id in E by lia. assert (x ∈ seqZ 48 3) as Hin by (apply elem_of_seqZ; lia).
  change (seqZ 48 3) with [48; 49; 50] in Hin. rewrite !elem_of_cons in Hin. destruct Hin as [-> | [-> | [-> | Hin]]]; [by injection E..|by apply not_elem_of_nil in Hin].
Qed.

Lemma to_ecall_step fuel m k : init_page (m_mem m) → m_pc m = Z.of_nat k → (k + 4 ≤ 51)%nat →
  to_ecall (S fuel) m = match decode (le_dec (take 4 (drop k initcode))) with
    | None => None
    | Some (UEcall, _) => Some m
    | Some (UAuipc rd imm, n) => to_ecall fuel (set_pc (u64 (Z.of_nat k + n)) (rset rd (u64 (Z.of_nat k + imm)) m))
    | Some (UAddi rd rs imm, n) => to_ecall fuel (set_pc (u64 (Z.of_nat k + n)) (rset rd (u64 (rget m rs + imm)) m))
    | Some (UJal rd off, n) => to_ecall fuel (set_pc (u64 (Z.of_nat k + off)) (rset rd (u64 (Z.of_nat k + n)) m))
    end.
Proof. intros Hp Hpc Hk. cbn [to_ecall]. by rewrite Hpc, init_load. Qed.

(** One instruction at the address [k]. *)
Ltac insn k := rewrite (to_ecall_step _ _ k) by (done || lia);
  match goal with |- context [decode ?x] => let y := eval vm_compute in (decode x) in change (decode x) with y end; cbn iota beta.

(** C22: the bytes of [initcode] are a program that makes the system call exec("/init", {"/init", 0}) first; should it return, the program calls
    exit, again and again. *)
Theorem initcode_execs_init m : m_pc m = 0 → init_page (m_mem m) →
  ∃ m1, to_ecall 6 m = Some m1 ∧ rget m1 a7 = 7 ∧ m_pc m1 = 18 ∧ m_mem m1 = m_mem m ∧
    mread (m_mem m1) (rget m1 a0) 6 = bytes_of "/init" ++ [0] ∧ load64 (m_mem m1) (rget m1 a1) = rget m1 a0 ∧ load64 (m_mem m1) (rget m1 a1 + 8) = 0 ∧
    ∀ m2, init_page (m_mem m2) → m_pc m2 = m_pc m1 + 4 ∨ m_pc m2 = 28 → ∃ m3, to_ecall 3 m2 = Some m3 ∧ rget m3 a7 = 2 ∧ m_pc m3 = 24 ∧ m_mem m3 = m_mem m2.
Proof.
  intros Hpc Hp. destruct (init_words _ Hp) as (W1 & W2 & W3). eexists. split; [insn 0%nat; insn 4%nat; insn 8%nat; insn 12%nat; insn 16%nat; insn 18%nat; reflexivity|].
  split; [reflexivity|]. split; [reflexivity|]. split; [reflexivity|]. split; [exact W3|]. split; [exact W1|]. split; [exact W2|].
  intros m2 Hp2 [Hpc2|Hpc2].
  - change (m_pc m2 = 22) in Hpc2. eexists. split; [insn 22%nat; insn 24%nat; reflexivity|]. done.
  - eexists. split; [insn 28%nat; insn 22%nat; insn 24%nat; reflexivity|]. done.
Qed.

(** * A machine on which the theorems about the assembly routines apply *)

Import Abi.

(** Registers with different values, but [a0] and [a1] as given. *)
Definition ex_machine (x0 x1 : Z) (csrs : csr → Z) (v : mem) (pc : Z) : machine :=
  Machine (λ r, if (r =? 10)%nat then x0 else if (r =? 11)%nat then x1 else 65536 + 8 * (Z.of_nat r mod 32)) csrs v pc.

Lemma ex_regs_ok x0 x1 csrs v pc : 0 ≤ x0 < 2 ^ 64 → 0 ≤ x1 < 2 ^ 64 → regs_ok (ex_machine x0 x1 csrs v pc).
Proof.
  intros H0 H1 r. unfold rget, ex_machine. cbn [m_regs]. destruct (r =? 0)%nat; [lia|]. destruct (r =? 10)%nat; [done|]. destruct (r =? 11)%nat; [done|].
  pose proof (Z.mod_pos_bound (Z.of_nat r) 32 ltac:(lia)). lia.
Qed.

Lemma ex_mem x0 x1 csrs v pc : m_mem (ex_machine x0 x1 csrs v pc) = v.
Proof. reflexivity. Qed.

Definition ex_m : machine := ex_machine 4096 8192 (λ _, 0) (λ _, 0) 0.
Definition ex_m2 : machine := ex_machine 12288 4096 (λ _, 0) (m_mem (exec_all direct swtch ex_m)) 0.

Lemma swtch_resumes_witness : let m' := exec_all direct swtch ex_m2 in
  m_pc m' = 65544 ∧ (∀ r, r ∈ ctx_regs → rget m' r = rget ex_m r) ∧ (∀ r, r ∉ ctx_regs → rget m' r = rget ex_m2 r) ∧
  m_csr m' = m_csr ex_m2 ∧ ∀ x, x < 12288 ∨ 12288 + 112 ≤ x → m_mem m' x = m_mem ex_m2 x.
Proof.
  apply (swtch_resumes direct ex_m 4096 8192 (λ _, 0) ex_m2 12288).
  - split; [apply ex_regs_ok; lia|apply (direct_mapped 0 4096 112); lia|apply (direct_mapped 0 8192 112); lia|lia].
  - intros p _. by apply load64_zero.
  - split; [apply ex_regs_ok; lia|apply (direct_mapped 0 12288 112); lia|apply (direct_mapped 0 4096 112); lia|lia].
  - intros x _. unfold ex_m2. rewrite ex_mem. reflexivity.
Defined.

Definition ex_csr (c : csr) : Z := match c with sscratch => 4096 | sepc => 24 | mscratch => 4096 | _ => 0 end.
Definition ex_user : machine := ex_machine 1 2 ex_csr (λ _, 0) 0.
Definition ex_back : machine := ex_machine 4096 0 ex_csr (m_mem (exec_all direct uservec ex_user)) 0.

Lemma trampoline_roundtrip_witness : let m1 := exec_all direct uservec ex_user in let m3 := exec_all direct userret ex_back in
  m_pc m1 = load64 (m_mem ex_user) (4096 + 16) ∧ rget m1 sp = load64 (m_mem ex_user) (4096 + 8) ∧ rget m1 tp = load64 (m_mem ex_user) (4096 + 32) ∧ m_csr m1 satp = load64 (m_mem ex_user) (4096 + 0) ∧
  (∀ x, x < 4096 + 40 ∨ 4096 + 288 ≤ x → m_mem m1 x = m_mem ex_user x) ∧
  (∀ r, (0 < r < 32)%nat → rget m3 r = load64 (m_mem ex_back) (4096 + tf_off r) ∧
    ((∀ x, 4096 + tf_off r ≤ x < 4096 + tf_off r + 8 → m_mem ex_back x = m_mem m1 x) → rget m3 r = rget ex_user r)) ∧
  m_pc m3 = m_csr ex_back sepc ∧ m_csr m3 satp = m_csr ex_user satp ∧ m_csr m3 sscratch = m_csr ex_user sscratch ∧ m_mem m3 = m_mem ex_back.
Proof.
  apply (trampoline_roundtrip direct ex_user 4096 ex_back).
  - apply ex_regs_ok; lia.
  - cbn. lia.
  - apply (direct_mapped 0 4096 288); lia.
  - reflexivity.
  - reflexivity.
Defined.

Definition ex_trap (m : machine) : machine := rset tp 1 (rset a0 0 m).
Lemma ex_trap_keeps m : rget (ex_trap m) sp = rget m sp ∧ m_mem (ex_trap m) = m_mem m.
Proof. done. Qed.
Lemma ex_saved : rget (exec_all direct kernelvec_save ex_user) sp = 65296.
Proof. destruct (kv_save_effect direct ex_user 65296) as (E & _); [apply ex_regs_ok; lia|apply (direct_mapped 0 65296 256); lia|]. exact E. Qed.

Lemma kernelvec_transparent_witness : let m1 := exec_all direct kernelvec_save ex_user in let m2 := ex_trap m1 in let m' := kernelvec direct ex_trap ex_user in
  (∀ r, (r < 32)%nat → r ≠ tp → rget m' r = rget ex_user r) ∧ rget m' tp = rget m2 tp ∧ m_pc m' = m_csr m2 sepc ∧ m_mem m' = m_mem m2 ∧ m_csr m' = m_csr m2 ∧
  ∀ x, x < 65296 ∨ 65296 + 256 ≤ x → m_mem m1 x = m_mem ex_user x.
Proof.
  apply (kernelvec_transparent direct ex_trap ex_user 65296).
  - apply ex_regs_ok; lia.
  - apply (direct_mapped 0 65296 256); lia.
  - apply ex_trap_keeps.
  - rewrite ex_saved. apply direct_mapped; lia.
  - intros x _. by rewrite (proj2 (ex_trap_keeps _)).
Defined.

(** The scratch area is at 4096, [mtimecmp] at 33570816 and the interval 1000000. *)
Definition ex_timer : machine := ex_machine 1 2 ex_csr (store64 (store64 (λ _, 0) 4128 33570816) 4136 1000000) 0.
Lemma timervec_correct_witness : let m' := exec_all direct timervec ex_timer in
  (∀ r, rget m' r = rget ex_timer r) ∧ m_csr m' mscratch = 4096 ∧ m_csr m' sip = 2 ∧ m_pc m' = 0 ∧
  load64 (m_mem m') 33570816 = u64 (load64 (m_mem ex_timer) 33570816 + 1000000) ∧
  ∀ x, x < 4096 ∨ 4096 + 24 ≤ x → x < 33570816 ∨ 33570816 + 8 ≤ x → m_mem m' x = m_mem ex_timer x.
Proof.
  apply (timervec_correct ex_timer 4096 33570816 1000000). split.
  - apply ex_regs_ok; lia.
  - cbn. lia.
  - split; [|lia]. unfold ex_timer. cbn [ex_machine m_mem]. change (4096 + 32) with 4128. rewrite load64_store64_ne by lia. by rewrite load64_store64_eq.
  - unfold ex_timer. cbn [ex_machine m_mem]. change (4096 + 40) with 4136. by rewrite load64_store64_eq.
  - lia.
Defined.

Lemma entry_stack_witness : rget (exec_all direct (_entry 2147524608) (ex_machine 0 0 (λ _, 3) (λ _, 0) 0)) sp = 2147524608 + 4096 * 4.
Proof. apply (entry_stack 2147524608 (ex_machine 0 0 (λ _, 3) (λ _, 0) 0)); [lia|reflexivity|split; [discriminate|reflexivity]]. Defined.

Definition ex_init : machine := ex_machine 0 0 (λ _, 0) (mwrite (λ _, 0) 0 initcode) 0.
Lemma ex_init_page : init_page (m_mem ex_init).
Proof. split; [reflexivity|]. intros x Hx. change (alen initcode) with 51 in Hx. cbn [ex_init ex_machine m_mem]. apply mwrite_out. change (Z.of_nat (length initcode)) with 51. lia. Qed.

Lemma initcode_execs_init_witness : ∃ m1, to_ecall 6 ex_init = Some m1 ∧ rget m1 a7 = 7 ∧ m_pc m1 = 18 ∧ m_mem m1 = m_mem ex_init ∧
    mread (m_mem m1) (rget m1 a0) 6 = bytes_of "/init" ++ [0] ∧ load64 (m_mem m1) (rget m1 a1) = rget m1 a0 ∧ load64 (m_mem m1) (rget m1 a1 + 8) = 0 ∧
    ∀ m2, init_page (m_mem m2) → m_pc m2 = m_pc m1 + 4 ∨ m_pc m2 = 28 → ∃ m3, to_ecall 3 m2 = Some m3 ∧ rget m3 a7 = 2 ∧ m_pc m3 = 24 ∧ m_mem m3 = m_mem m2.
Proof. apply (initcode_execs_init ex_init); [reflexivity|exact ex_init_page]. Defined.

