(* ===== verification/Exec.v ===== *)
(** * Loading a program (kernel/exec.c, kernel/elf.h)

    [argv] holds the physical addresses of the argument strings, one page
    each, with a null address after the last. *)

From S2P Require Import Prelude Memory Riscv Spinlock Core CString Kalloc Vm Sleeplock BufCache Log Sys Fs Console File Proc.

Definition ELF_MAGIC : Z := 0x464C457F.
Definition ELFHDR : Z := 64.              (* sizeof(struct elfhdr) *)
Definition elf_magic (e : list Z) : Z := rd 0 4 e.
Definition elf_entry (e : list Z) : Z := rd 24 8 e.
Definition elf_phoff (e : list Z) : Z := rd 32 8 e.
Definition elf_phnum (e : list Z) : Z := rd 56 2 e.

Definition ELF_PROG_LOAD : Z := 1.
Definition PROGHDR : Z := 56.             (* sizeof(struct proghdr) *)
Definition ph_type (p : list Z) : Z := rd 0 4 p.
Definition ph_off (p : list Z) : Z := rd 8 8 p.
Definition ph_vaddr (p : list Z) : Z := rd 16 8 p.
Definition ph_filesz (p : list Z) : Z := rd 32 8 p.
Definition ph_memsz (p : list Z) : Z := rd 40 8 p.

(** The part of a path after its last slash. *)
Fixpoint last_elem (last s : list Z) : list Z :=
  match s with
  | [] => last
  | c :: s' => last_elem (if c =? 47 then s' else last) s'
  end.

Section Exec.
Context {S : Type} `{BC : BufCache S}.
Context (end_ trampoline : Z).
Abbreviation SM := (M (kern * sys S)).

Definition ram_lens : lens (kern * sys S) mem := Lens ram set_ram.

Definition loadseg (pagetable va : Z) (ip offset sz : Z) : SM Z :=
  if negb (va mod PGSIZE =? 0) then panic "loadseg: va must be page aligned"%string else
  loop (Z.to_nat (sz / PGSIZE) + 2) (λ i,
    if sz <=? i then mret (inr 0) else
    pa ← zoom mem_of (walkaddr pagetable (u64 (va + i)));
    if pa =? 0 then panic "loadseg: address should exist"%string else
    let n := if sz - i <? PGSIZE then sz - i else PGSIZE in
    '(r, _) ← readi ip (DKern pa) (u32 (offset + i)) n;
    if negb (r =? n) then mret (inr (-1)) else
    mret (inl (u32 (i + PGSIZE)))) 0.

(** [bad:] of [exec]. *)
Definition exec_bad (pagetable sz : Z) (ip : option Z) : SM Z :=
  when (negb (pagetable =? 0)) (proc_freepagetable end_ pagetable sz);;
  match ip with
  | Some ip => iunlockput ip;; fend_op ROOTDEV
  | None => mret tt
  end;;
  mret (-1).

(** The loop over the program headers: the new size, and whether it failed. *)
Definition exec_load (pagetable ip : Z) (elf : list Z) : SM (Z + Z) :=
  loop (Z.to_nat (elf_phnum elf) + 1) (λ '(i, off, sz),
    if negb (i <? elf_phnum elf) then mret (inr (inr sz)) else
    let next := λ sz : Z, inl (i + 1, i32 (off + PROGHDR), sz) in
    '(r, ph) ← readi ip DVar (u32 off) PROGHDR;
    if negb (r =? PROGHDR) then mret (inr (inl sz)) else
    if negb (ph_type ph =? ELF_PROG_LOAD) then mret (next sz) else
    if ph_memsz ph <? ph_filesz ph then mret (inr (inl sz)) else
    if u64 (ph_vaddr ph + ph_memsz ph) <? ph_vaddr ph then mret (inr (inl sz)) else
    sz ← zoom mem_of (uvmalloc end_ pagetable sz (u64 (ph_vaddr ph + ph_memsz ph)));
    if sz =? 0 then mret (inr (inl sz)) else
    if negb (ph_vaddr ph mod PGSIZE =? 0) then mret (inr (inl sz)) else
    r ← loadseg pagetable (ph_vaddr ph) ip (u32 (ph_off ph)) (u32 (ph_filesz ph));
    if r <? 0 then mret (inr (inl sz)) else
    mret (next sz)) (0, i32 (elf_phoff elf), 0).

(** Push the argument strings; the rest of the stack is [ustack]. *)
Definition exec_args (pagetable sp stackbase : Z) (argv : list Z) : SM (option (list Z * Z)) :=
  loop (Z.to_nat MAXARG + 1) (λ '(argc, sp, ustack),
    match argv !! argc with
    | None => stop (Undefined "argv")
    | Some a =>
        if a =? 0 then mret (inr (Some (ustack, sp))) else
        if MAXARG <=? Z.of_nat argc then mret (inr None) else
        len ← zoom ram_lens (strlen (Z.to_nat PGSIZE) a);
        let sp := u64 (sp - (len + 1)) in
        let sp := sp - sp mod 16 in             (* riscv sp must be 16-byte aligned *)
        if sp <? stackbase then mret (inr None) else
        s ← gets (λ x, mread (ram x) a (Z.to_nat (len + 1)));
        r ← zoom mem_of (copyout pagetable sp s);
        if r <? 0 then mret (inr None) else
        mret (inl (Datatypes.S argc, sp, ustack ++ [sp]))
    end) (0%nat, sp, []).

Definition exec (path argv : list Z) : SM Z :=
  i ← curproc;
  fbegin_op ROOTDEV;;
  r ← namei path;
  match r with
  | None => fend_op ROOTDEV;; mret (-1)
  | Some ip =>
      ilock ip;;
      (* Check ELF header *)
      '(r, elf) ← readi ip DVar 0 ELFHDR;
      if negb (r =? ELFHDR) then exec_bad 0 0 (Some ip) else
      if negb (elf_magic elf =? ELF_MAGIC) then exec_bad 0 0 (Some ip) else
      p ← the_proc i;
      pagetable ← proc_pagetable trampoline p;
      if pagetable =? 0 then exec_bad 0 0 (Some ip) else
      (* Load program into memory. *)
      r ← exec_load pagetable ip elf;
      match r with
      | inl sz => exec_bad pagetable sz (Some ip)
      | inr sz =>
          iunlockput ip;;
          fend_op ROOTDEV;;
          p ← the_proc i;
          let oldsz := p_sz p in
          (* Allocate two pages at the next page boundary; use the second as the user stack. *)
          let sz := PGROUNDUP sz in
          sz ← zoom mem_of (uvmalloc end_ pagetable sz (u64 (sz + 2 * PGSIZE)));
          if sz =? 0 then exec_bad pagetable sz None else
          zoom mem_of (uvmclear pagetable (u64 (sz - 2 * PGSIZE)));;
          let stackbase := u64 (sz - PGSIZE) in
          r ← exec_args pagetable sz stackbase argv;
          match r with
          | None => exec_bad pagetable sz None
          | Some (ustack, sp) =>
              let argc := alen ustack in
              (* push the array of argv[] pointers. *)
              let sp := u64 (sp - (argc + 1) * 8) in
              let sp := sp - sp mod 16 in
              if sp <? stackbase then exec_bad pagetable sz None else
              r ← zoom mem_of (copyout pagetable sp (concat (le_enc 8 <$> ustack ++ [0])));
              if r <? 0 then exec_bad pagetable sz None else
              (* arguments to user main(argc, argv) *)
              tf_set p (TF_a 1) sp;;
              (* Save program name for debugging. *)
              upd_proc i (λ p, set_pname (name_copy (last_elem path path) (p_name p)) p);;
              (* Commit to the user image. *)
              let oldpagetable := p_pagetable p in
              upd_proc i (set_ppagetable pagetable);;
              upd_proc i (set_psz sz);;
              tf_set p TF_epc (elf_entry elf);;
              tf_set p TF_sp sp;;
              proc_freepagetable end_ oldpagetable oldsz;;
              mret (i32 argc)
          end
      end
  end.
End Exec.
