(* ===== verification/Syscall.v ===== *)
(** * System calls (kernel/syscall.c, kernel/sysproc.c, kernel/sysfile.c)

    Arguments come from the registers saved in the trapframe.  [argint] and
    [argaddr] always succeed, so the tests of their results are left out; a
    string argument is returned with the value of [fetchstr]. *)

From S2P Require Import Prelude Memory Riscv Spinlock Core CString Kalloc Vm Sleeplock BufCache Log Sys Fs Console File Proc Exec.

Definition O_RDONLY : Z := 0x000.
Definition O_WRONLY : Z := 0x001.
Definition O_RDWR : Z := 0x002.
Definition O_CREATE : Z := 0x200.

Definition NLOCK : Z := 1000.

Section Syscall.
Context {S : Type} `{BC : BufCache S}.
Context (end_ trampoline forkret_pc : Z).
(** [locks], the locks that [initlock] has registered. *)
Context (locks : list (lens (kern * sys S) spinlock)).
Abbreviation SM := (M (kern * sys S)).

(** ** syscall.c: arguments *)

Definition fetchaddr (addr : Z) : SM (option Z) :=
  p ← my_proc;
  if (p_sz p <=? addr) || (p_sz p <? u64 (addr + 8)) then mret None else
  '(bs, r) ← zoom mem_of (copyin (p_pagetable p) addr 8);
  if negb (r =? 0) then mret None else mret (Some (le_dec bs)).

(** The bytes stored in [buf], and the value returned. *)
Definition fetchstr (addr max : Z) : SM (list Z * Z) :=
  p ← my_proc;
  '(buf, err) ← zoom mem_of (copyinstr (p_pagetable p) addr max);
  if err <? 0 then mret (buf, err) else mret (buf, alen (cstr buf)).

Definition argraw (n : Z) : SM Z :=
  p ← my_proc;
  if (0 <=? n) && (n <=? 5) then tf_get p (TF_a n) else panic "argraw"%string.

Definition argint (n : Z) : SM Z := v ← argraw n; mret (i32 v).
Definition argaddr (n : Z) : SM Z := argraw n.
Definition argstr (n max : Z) : SM (option (list Z)) :=
  addr ← argaddr n;
  '(buf, r) ← fetchstr addr max;
  mret (if r <? 0 then None else Some (cstr buf)).

(** ** sysproc.c *)

Definition sys_exit : SM Z := n ← argint 0; exit end_ n;; mret 0.
Definition sys_getpid : SM Z := p ← my_proc; mret (p_pid p).
Definition sys_fork : SM Z := fork end_ trampoline forkret_pc.
Definition sys_wait : SM Z := p ← argaddr 0; wait end_ p.

Definition sys_sbrk : SM Z :=
  n ← argint 0;
  p ← my_proc;
  let addr := i32 (p_sz p) in
  r ← growproc end_ n;
  if r <? 0 then mret (-1) else mret addr.

Definition sys_sleep : SM Z :=
  n ← argint 0;
  acquire (slock tickslock);;
  ticks0 ← gets (λ x, sy_ticks x.2);
  loop 1 (λ _,
    ticks ← gets (λ x, sy_ticks x.2);
    if u32 (ticks - ticks0) <? u32 n then
      p ← my_proc;
      if negb (p_killed p =? 0) then release (slock tickslock);; mret (inr (-1)) else
      sleep ChTicks (slock tickslock);;
      mret (inl tt)
    else
    release (slock tickslock);;
    mret (inr 0)) tt.

Definition sys_kill : SM Z := pid ← argint 0; kill pid.

Definition sys_uptime : SM Z :=
  acquire (slock tickslock);;
  xticks ← gets (λ x, sy_ticks x.2);
  release (slock tickslock);;
  mret xticks.

(** ** spinlock.c: lock statistics *)

Definition print_lock (l : spinlock) : SM unit :=
  when (0 <? lk_n l) (
    printf (bytes_of "lock: %s: #test-and-set %d #acquire() %d" ++ nl)
      [PStr (Some (bytes_of (lk_name l))); PInt (i32 (lk_nts l)); PInt (i32 (lk_n l))]).

Definition get_lock (i : Z) : SM spinlock :=
  match locks !! Z.to_nat i with
  | Some l => gets (view l)
  | None => stop (Undefined "locks")
  end.

(** The index of the lock with the most waits among those below [last]. *)
Definition top_lock (last : Z) : SM Z :=
  loop (length locks + 1) (λ '(i, top),
    if (NLOCK <=? i) || (alen locks <=? i) then mret (inr top) else
    l ← get_lock i;
    t ← get_lock top;
    if (lk_nts t <? lk_nts l) && (lk_nts l <? u32 last) then mret (inl (i + 1, i))
    else mret (inl (i + 1, top))) (0, 0).

Definition name_starts (pre : string) (l : spinlock) : bool :=
  lstrncmp (String.length pre) (bytes_of (lk_name l)) (bytes_of pre) =? 0.

Definition sys_ntas : SM Z :=
  zero ← argint 0;
  if zero =? 0 then
    for_range (Z.to_nat (Z.min NLOCK (alen locks))) 0 (λ i,
      match locks !! Z.to_nat i with
      | Some l => modify (λ x, over l (Spinlock (locked (view l x)) (lk_name (view l x)) (lk_cpu (view l x)) 0 0) x)
      | None => mret tt
      end);;
    mret 0
  else
  printf (bytes_of "=== lock kmem/bcache stats" ++ nl) [];;
  tot ← loop (length locks + 1) (λ '(i, tot),
    if (NLOCK <=? i) || (alen locks <=? i) then mret (inr tot) else
    l ← get_lock i;
    if name_starts "bcache" l || name_starts "kmem" l then
      print_lock l;;
      mret (inl (i + 1, i32 (tot + lk_nts l)))
    else mret (inl (i + 1, tot))) (0, 0);
  printf (bytes_of "=== top 5 contended locks:" ++ nl) [];;
  loop 6 (λ '(t, last),
    if negb (t <? 5) then mret (inr tt) else
    top ← top_lock last;
    l ← get_lock top;
    print_lock l;;
    mret (inl (t + 1, i32 (lk_nts l)))) (0, 100000000);;
  mret tot.


(** ** sysfile.c *)

(** The descriptor and the file of an argument. *)
Definition argfd (n : Z) : SM (option (Z * Z)) :=
  fd ← argint n;
  if (fd <? 0) || (NOFILE <=? fd) then mret None else
  p ← my_proc;
  match aget (p_ofile p) fd with
  | None => mret None
  | Some f => mret (Some (fd, f))
  end.

Definition fdalloc (f : Z) : SM Z :=
  i ← curproc;
  loop (Z.to_nat NOFILE + 1) (λ fd,
    if NOFILE <=? fd then mret (inr (-1)) else
    p ← the_proc i;
    match aget (p_ofile p) fd with
    | None => upd_proc i (λ p, set_pofile (aset (p_ofile p) fd (Some f)) p);; mret (inr fd)
    | Some _ => mret (inl (fd + 1))
    end) 0.

Definition sys_dup : SM Z :=
  r ← argfd 0;
  match r with
  | None => mret (-1)
  | Some (_, f) =>
      fd ← fdalloc f;
      if fd <? 0 then mret (-1) else
      filedup f;;
      mret fd
  end.

Definition sys_read : SM Z :=
  r ← argfd 0;
  match r with
  | None => mret (-1)
  | Some (_, f) => n ← argint 2; p ← argaddr 1; fileread f p n
  end.

Definition sys_write : SM Z :=
  r ← argfd 0;
  match r with
  | None => mret (-1)
  | Some (_, f) => n ← argint 2; p ← argaddr 1; filewrite f p n
  end.

Definition sys_close : SM Z :=
  r ← argfd 0;
  match r with
  | None => mret (-1)
  | Some (fd, f) =>
      i ← curproc;
      upd_proc i (λ p, set_pofile (aset (p_ofile p) fd None) p);;
      fileclose end_ f;;
      mret 0
  end.

Definition sys_fstat : SM Z :=
  r ← argfd 0;
  match r with
  | None => mret (-1)
  | Some (_, f) => st ← argaddr 1; filestat f st
  end.

Definition name0 : list Z := replicate (Z.to_nat DIRSIZ) 0.

(** [bad:] of [sys_link]. *)
Definition link_bad (ip : Z) : SM Z :=
  ilock ip;;
  upd_inode ip (λ e, set_inlink (i16 (i_nlink e - 1)) e);;
  iupdate ip;;
  iunlockput ip;;
  fend_op ROOTDEV;;
  mret (-1).

Definition sys_link : SM Z :=
  old ← argstr 0 MAXPATH;
  match old with None => mret (-1) | Some old =>
  new ← argstr 1 MAXPATH;
  match new with None => mret (-1) | Some new =>
  fbegin_op ROOTDEV;;
  r ← namei old;
  match r with
  | None => fend_op ROOTDEV;; mret (-1)
  | Some ip =>
      ilock ip;;
      e ← get_inode ip;
      if i_type e =? T_DIR then
        iunlockput ip;;
        fend_op ROOTDEV;;
        mret (-1)
      else
      upd_inode ip (λ e, set_inlink (i16 (i_nlink e + 1)) e);;
      iupdate ip;;
      iunlock ip;;
      '(r, name) ← nameiparent new name0;
      match r with
      | None => link_bad ip
      | Some dp =>
          ilock dp;;
          d ← get_inode dp;
          e ← get_inode ip;
          bad ← (if negb (i_dev d =? i_dev e) then mret true
                 else r ← dirlink dp name (i_inum e); mret (r <? 0));
          if bad : bool then iunlockput dp;; link_bad ip else
          iunlockput dp;;
          iput ip;;
          fend_op ROOTDEV;;
          mret 0
      end
  end end end.

Definition isdirempty (dp : Z) : SM bool :=
  e ← get_inode dp;
  loop (Z.to_nat (i_size e / DIRENT) + 2) (λ off,
    e ← get_inode dp;
    if negb (off <? i_size e) then mret (inr true) else
    '(r, de) ← readi dp DVar off DIRENT;
    if negb (r =? DIRENT) then panic "isdirempty: readi"%string else
    if negb (de_inum de =? 0) then mret (inr false) else
    mret (inl (off + DIRENT))) (2 * DIRENT).

(** [bad:] of [sys_unlink]. *)
Definition unlink_bad (dp : Z) : SM Z :=
  iunlockput dp;;
  fend_op ROOTDEV;;
  mret (-1).

Definition sys_unlink : SM Z :=
  path ← argstr 0 MAXPATH;
  match path with None => mret (-1) | Some path =>
  fbegin_op ROOTDEV;;
  '(r, name) ← nameiparent path name0;
  match r with
  | None => fend_op ROOTDEV;; mret (-1)
  | Some dp =>
      ilock dp;;
      (* Cannot unlink . or .. *)
      if (namecmp name (bytes_of ".") =? 0) || (namecmp name (bytes_of "..") =? 0) then unlink_bad dp else
      r ← dirlookup dp name;
      match r with
      | None => unlink_bad dp
      | Some (ip, off) =>
          ilock ip;;
          e ← get_inode ip;
          if i_nlink e <? 1 then panic "unlink: nlink < 1"%string else
          empty ← (if i_type e =? T_DIR then isdirempty ip else mret true);
          if negb empty then
            iunlockput ip;;
            unlink_bad dp
          else
          r ← writei dp (SVar (replicate (Z.to_nat DIRENT) 0)) off DIRENT;
          if negb (r =? DIRENT) then panic "unlink: writei"%string else
          e ← get_inode ip;
          when (i_type e =? T_DIR) (
            upd_inode dp (λ e, set_inlink (i16 (i_nlink e - 1)) e);;
            iupdate dp);;
          iunlockput dp;;
          upd_inode ip (λ e, set_inlink (i16 (i_nlink e - 1)) e);;
          iupdate ip;;
          iunlockput ip;;
          fend_op ROOTDEV;;
          mret 0
      end
  end end.

Definition create (path : list Z) (type major minor : Z) : SM (option Z) :=
  '(r, name) ← nameiparent path name0;
  match r with
  | None => mret None
  | Some dp =>
      ilock dp;;
      r ← dirlookup dp name;
      match r with
      | Some (ip, _) =>
          iunlockput dp;;
          ilock ip;;
          e ← get_inode ip;
          if (type =? T_FILE) && ((i_type e =? T_FILE) || (i_type e =? T_DEVICE)) then mret (Some ip) else
          iunlockput ip;;
          mret None
      | None =>
          d ← get_inode dp;
          ip ← ialloc (i_dev d) type;
          ilock ip;;
          upd_inode ip (λ e, set_inlink 1 (set_imajmin major minor e));;
          iupdate ip;;
          e ← get_inode ip;
          when (type =? T_DIR) (                 (* Create . and .. entries. *)
            upd_inode dp (λ e, set_inlink (i16 (i_nlink e + 1)) e);;
            iupdate dp;;
            (* No ip->nlink++ for .: avoid cyclic ref count. *)
            r ← dirlink ip (bytes_of ".") (i_inum e);
            if r <? 0 then panic "create dots"%string else
            d ← get_inode dp;
            r ← dirlink ip (bytes_of "..") (i_inum d);
            when (r <? 0) (panic "create dots"%string));;
          r ← dirlink dp name (i_inum e);
          if r <? 0 then panic "create: dirlink"%string else
          iunlockput dp;;
          mret (Some ip)
      end
  end.

(** The inode [sys_open] opens, locked. *)
Definition open_inode (path : list Z) (omode : Z) : SM (option Z) :=
  if negb (Z.land omode O_CREATE =? 0) then create path T_FILE 0 0 else
  r ← namei path;
  match r with
  | None => mret None
  | Some ip =>
      ilock ip;;
      e ← get_inode ip;
      if (i_type e =? T_DIR) && negb (omode =? O_RDONLY) then iunlockput ip;; mret None
      else mret (Some ip)
  end.

Definition sys_open : SM Z :=
  path ← argstr 0 MAXPATH;
  match path with None => mret (-1) | Some path =>
  omode ← argint 1;
  fbegin_op ROOTDEV;;
  r ← open_inode path omode;
  match r with
  | None => fend_op ROOTDEV;; mret (-1)
  | Some ip =>
      let bad := (iunlockput ip;; fend_op ROOTDEV;; mret (-1) : SM Z) in
      e ← get_inode ip;
      if (i_type e =? T_DEVICE) && ((i_major e <? 0) || (NDEV <=? i_major e)) then bad else
      f ← filealloc;
      match f with
      | None => bad
      | Some f =>
          fd ← fdalloc f;
          if fd <? 0 then fileclose end_ f;; bad else
          e ← get_inode ip;
          upd_file f (λ g,
            let g := if i_type e =? T_DEVICE then set_fmajmin (i_major e) (i_minor e) (set_ftype FD_DEVICE g)
                     else set_ftype FD_INODE g in
            let g := set_foff 0 (set_fip ip g) in
            set_frw (Z.land omode O_WRONLY =? 0)
              (negb (Z.land omode O_WRONLY =? 0) || negb (Z.land omode O_RDWR =? 0)) g);;
          iunlock ip;;
          fend_op ROOTDEV;;
          mret fd
      end
  end end.

Definition sys_mkdir : SM Z :=
  fbegin_op ROOTDEV;;
  path ← argstr 0 MAXPATH;
  r ← (match path with None => mret None | Some path => create path T_DIR 0 0 end);
  match r with
  | None => fend_op ROOTDEV;; mret (-1)
  | Some ip => iunlockput ip;; fend_op ROOTDEV;; mret 0
  end.

Definition sys_mknod : SM Z :=
  fbegin_op ROOTDEV;;
  path ← argstr 0 MAXPATH;
  r ← (match path with
       | None => mret None
       | Some path =>
           major ← argint 1;
           minor ← argint 2;
           create path T_DEVICE (i16 major) (i16 minor)
       end);
  match r with
  | None => fend_op ROOTDEV;; mret (-1)
  | Some ip => iunlockput ip;; fend_op ROOTDEV;; mret 0
  end.

Definition sys_chdir : SM Z :=
  i ← curproc;
  fbegin_op ROOTDEV;;
  path ← argstr 0 MAXPATH;
  r ← (match path with None => mret None | Some path => namei path end);
  match r with
  | None => fend_op ROOTDEV;; mret (-1)
  | Some ip =>
      ilock ip;;
      e ← get_inode ip;
      if negb (i_type e =? T_DIR) then
        iunlockput ip;;
        fend_op ROOTDEV;;
        mret (-1)
      else
      iunlock ip;;
      p ← the_proc i;
      (match p_cwd p with Some c => iput c | None => stop (Undefined "cwd") end);;
      fend_op ROOTDEV;;
      upd_proc i (set_pcwd (Some ip));;
      mret 0
  end.

(** [for(i = 0; i < NELEM(argv) && argv[i] != 0; i++) kfree(argv[i]);] *)
Fixpoint free_argv (argv : list Z) : SM unit :=
  match argv with
  | [] => mret tt
  | a :: argv' => if a =? 0 then mret tt else zoom mem_of (kfree end_ a);; free_argv argv'
  end.

(** The loop of [sys_exec]: the pages of the arguments so far, and whether it
    succeeded. *)
Definition exec_argv (uargv : Z) : SM (list Z * bool) :=
  loop (Z.to_nat MAXARG + 1) (λ argv,
    let i := alen argv in
    if MAXARG <=? i then mret (inr (argv, false)) else
    uarg ← fetchaddr (u64 (uargv + 8 * i));
    match uarg with
    | None => mret (inr (argv, false))
    | Some uarg =>
        if uarg =? 0 then mret (inr (argv, true)) else
        a ← zoom mem_of kalloc;
        if a =? 0 then panic "sys_exec kalloc"%string else
        '(buf, r) ← fetchstr uarg PGSIZE;
        modify (λ x, set_ram (mwrite (ram x) a buf) x);;
        if r <? 0 then mret (inr (argv ++ [a], false)) else
        mret (inl (argv ++ [a]))
    end) [].

Definition sys_exec : SM Z :=
  path ← argstr 0 MAXPATH;
  match path with None => mret (-1) | Some path =>
  uargv ← argaddr 1;
  '(pages, ok) ← exec_argv uargv;
  let argv := pages ++ replicate (Z.to_nat MAXARG - length pages) 0 in
  ret ← (if ok : bool then exec end_ trampoline path argv else mret (-1));
  free_argv argv;;
  mret ret
  end.

Definition sys_pipe : SM Z :=
  i ← curproc;
  fdarray ← argaddr 0;
  r ← pipealloc end_;
  match r with
  | None => mret (-1)
  | Some (rf, wf) =>
      let clear := λ fd, upd_proc i (λ p, set_pofile (aset (p_ofile p) fd None) p) in
      let bad := (fileclose end_ rf;; fileclose end_ wf;; mret (-1) : SM Z) in
      fd0 ← fdalloc rf;
      if fd0 <? 0 then bad else
      fd1 ← fdalloc wf;
      if fd1 <? 0 then clear fd0;; bad else
      p ← the_proc i;
      r ← zoom mem_of (copyout (p_pagetable p) fdarray (le_enc 4 fd0));
      r ← (if r <? 0 then mret r else zoom mem_of (copyout (p_pagetable p) (u64 (fdarray + 4)) (le_enc 4 fd1)));
      if r <? 0 then clear fd0;; clear fd1;; bad else
      mret 0
  end.

(** ** syscall.c: dispatch *)

Definition syscalls (num : Z) : option (SM Z) :=
  match num with
  | 1 => Some sys_fork
  | 2 => Some sys_exit
  | 3 => Some sys_wait
  | 4 => Some sys_pipe
  | 5 => Some sys_read
  | 6 => Some sys_kill
  | 7 => Some sys_exec
  | 8 => Some sys_fstat
  | 9 => Some sys_chdir
  | 10 => Some sys_dup
  | 11 => Some sys_getpid
  | 12 => Some sys_sbrk
  | 13 => Some sys_sleep
  | 14 => Some sys_uptime
  | 15 => Some sys_open
  | 16 => Some sys_write
  | 17 => Some sys_mknod
  | 18 => Some sys_unlink
  | 19 => Some sys_link
  | 20 => Some sys_mkdir
  | 21 => Some sys_close
  | 22 => Some sys_ntas
  | _ => None
  end.

Definition syscall : SM unit :=
  p ← my_proc;
  num ← tf_get p (TF_a 7);
  let num := i32 num in
  match syscalls num with
  | Some f =>
      r ← f;
      tf_set p (TF_a 0) r
  | None =>
      printf (bytes_of "%d %s: unknown sys call %d" ++ nl) [PInt (p_pid p); PStr (Some (p_name p)); PInt num];;
      tf_set p (TF_a 0) (-1)
  end.
End Syscall.

(** * The registry of spin locks (kernel/spinlock.c)

    [initlock] as it is called at run time, with the table [locks] it fills for the statistics of [sys_ntas].  Locks are by address. *)

Record lock_table := LockTable { lt_lock : Z → spinlock; lt_nlock : Z; lt_locks : list Z }.

Definition set_lt_lock v t := LockTable v (lt_nlock t) (lt_locks t).

(** [initlock(lk, name)]; the fields are set before the check. *)
Definition initlock_at (lk : Z) (name : string) : M lock_table unit :=
  modify (λ t, set_lt_lock (λ a, if a =? lk then initlock name else lt_lock t a) t);;
  n ← gets lt_nlock;
  if NLOCK <=? n then panic "initlock" else
  modify (λ t, LockTable (lt_lock t) (n + 1) (lt_locks t ++ [lk])).

Fixpoint initlocks (ls : list (Z * string)) : M lock_table unit :=
  match ls with
  | [] => mret tt
  | (lk, name) :: ls => initlock_at lk name;; initlocks ls
  end.

Definition no_locks (f : Z → spinlock) : lock_table := LockTable f 0 [].

Lemma runs_initlock_at lk name t : lt_nlock t = alen (lt_locks t) → alen (lt_locks t) < NLOCK →
  runs (initlock_at lk name) t (λ _ t', lt_locks t' = lt_locks t ++ [lk] ∧ lt_nlock t' = alen (lt_locks t') ∧ lt_lock t' lk = initlock name ∧ ∀ a, a ≠ lk → lt_lock t' a = lt_lock t a).
Proof.
  intros Hn Hl. unfold initlock_at. kstep. kstep. kstep. kstep. cbn [set_lt_lock lt_nlock]. rewrite (proj2 (Z.leb_gt _ _)) by lia. kstep. cbn.
  split; [done|]. split; [unfold alen in *; rewrite length_app; cbn; lia|]. split; [by rewrite Z.eqb_refl|]. intros a Ha. by rewrite (proj2 (Z.eqb_neq a lk)).
Qed.

Lemma runs_initlocks ls : ∀ t, lt_nlock t = alen (lt_locks t) → alen (lt_locks t) + alen ls ≤ NLOCK →
  runs (initlocks ls) t (λ _ t', lt_locks t' = lt_locks t ++ ls.*1 ∧ lt_nlock t' = alen (lt_locks t')).
Proof.
  induction ls as [|[lk name] ls IH]; intros t Hn Hl; cbn [initlocks]; [kstep; by rewrite app_nil_r|].
  assert (alen ((lk, name) :: ls) = 1 + alen ls) as E by (unfold alen; cbn [length]; lia). rewrite E in Hl. assert (0 ≤ alen ls) by (unfold alen; lia).
  kstep. eapply runs_mono; [apply runs_initlock_at; [done|lia]|]. intros [] t1 (E1 & E2 & _). assert (alen (lt_locks t1) = alen (lt_locks t) + 1) as E3 by (rewrite E1; unfold alen; rewrite length_app; cbn; lia).
  eapply runs_mono; [apply IH; [done|lia]|]. intros [] t2 [F1 F2]. split; [|done]. by rewrite F1, E1, <- app_assoc.
Qed.

(** The first 1000 calls of [initlock] register their locks in order, and the next one panics; locks are never taken out of the registry. *)
Theorem initlock_limit f ls lk name more : alen ls = NLOCK →
  runs (initlocks ls) (no_locks f) (λ _ t', lt_locks t' = ls.*1) ∧
  halts (initlocks (ls ++ (lk, name) :: more)) (no_locks f) (Panic "initlock") (λ t', lt_locks t' = ls.*1).
Proof.
  intros Hl. assert (runs (initlocks ls) (no_locks f) (λ _ t', lt_locks t' = ls.*1 ∧ lt_nlock t' = NLOCK)) as Hr.
  { eapply runs_mono; [apply runs_initlocks; [done|]|]; [cbn; unfold alen in *; cbn; lia|]. intros [] t' [E1 E2]. split; [done|]. rewrite E2, E1. cbn. unfold alen. by rewrite length_fmap. }
  split; [eapply runs_mono; [exact Hr|]; by intros [] t' [H _]|].
  assert (∀ t, initlocks (ls ++ (lk, name) :: more) t = (initlocks ls;; initlocks ((lk, name) :: more)) t) as Happ.
  { clear. induction ls as [|[a b] ls IH]; intros t; [done|]. cbn [app initlocks]. unfold mbind, M_bind. destruct (initlock_at a b t) as [u t1|]; [|done]. apply IH. }
  unfold halts. rewrite Happ. change (halts (initlocks ls;; initlocks ((lk, name) :: more)) (no_locks f) (Panic "initlock") (λ t', lt_locks t' = ls.*1)).
  apply halts_bind_r. eapply runs_mono; [exact Hr|]. intros [] t' [E1 E2]. cbn [initlocks]. apply halts_bind_l. unfold initlock_at. apply halts_bind_r. kstep. apply halts_bind_r. kstep.
  cbn [set_lt_lock lt_nlock]. rewrite E2, Z.leb_refl. by split.
Qed.

Lemma initlock_limit_witness : let ls := replicate 1000 (0, "proc") in
  runs (initlocks ls) (no_locks (λ _, initlock "none")) (λ _ t', lt_locks t' = ls.*1) ∧
  halts (initlocks (ls ++ (1, "proc") :: [])) (no_locks (λ _, initlock "none")) (Panic "initlock") (λ t', lt_locks t' = ls.*1).
Proof. apply (initlock_limit (λ _, initlock "none") (replicate 1000 (0, "proc")) 1 "proc" []). reflexivity. Defined.
