(* ===== verification/Trap.v ===== *)
(** * Traps, interrupts and booting (kernel/trap.c, kernel/plic.c, kernel/main.c,
    kernel/start.c, and [forkret] of kernel/proc.c)

    The disk driver's interrupt routine and the initialisation of the buffer
    cache and the disk are parameters, as the cache itself is.  Addresses of
    assembly routines are parameters. *)

From S2P Require Import Prelude Memory Riscv Spinlock Core CString Kalloc Vm Sleeplock BufCache Log Sys Fs Console File Proc Exec Syscall.

(** kernel/memlayout.h *)
Definition PLIC_SENABLE (hart : Z) : Z := PLIC + 0x2080 + hart * 0x100.
Definition PLIC_SPRIORITY (hart : Z) : Z := PLIC + 0x201000 + hart * 0x2000.
Definition PLIC_SCLAIM (hart : Z) : Z := PLIC + 0x201004 + hart * 0x2000.
Definition CLINT_MTIMECMP (hartid : Z) : Z := CLINT + 0x4000 + 8 * hartid.

Definition minor (dev : Z) : Z := Z.land dev 0xFFFF.

(** ** scause_desc *)

Definition reserved_std : string := "<reserved for future standard use>".

Definition intr_desc : list string := [
  "user software interrupt"; "supervisor software interrupt"; reserved_std; reserved_std;
  "user timer interrupt"; "supervisor timer interrupt"; reserved_std; reserved_std;
  "user external interrupt"; "supervisor external interrupt"; reserved_std; reserved_std;
  reserved_std; reserved_std; reserved_std; reserved_std]%string.

Definition nointr_desc : list string := [
  "instruction address misaligned"; "instruction access fault"; "illegal instruction"; "breakpoint";
  "load address misaligned"; "load access fault"; "store/AMO address misaligned"; "store/AMO access fault";
  "environment call from U-mode"; "environment call from S-mode"; reserved_std; reserved_std;
  "instruction page fault"; "load page fault"; reserved_std; "store/AMO page fault"]%string.

Definition INTR_BIT : Z := 0x8000000000000000.

Definition scause_desc (stval : Z) : string :=
  let interrupt := Z.land stval INTR_BIT in
  let code := Z.land stval (u64 (Z.lnot INTR_BIT)) in
  if negb (interrupt =? 0) then
    if code <? alen intr_desc then aget intr_desc code else "<reserved for platform use>"%string
  else if code <? alen nointr_desc then aget nointr_desc code
  else if code <=? 23 then reserved_std
  else if code <=? 31 then "<reserved for custom use>"%string
  else if code <=? 47 then reserved_std
  else if code <=? 63 then "<reserved for custom use>"%string
  else reserved_std.

(** ** start.c

    The machine-mode registers [start] sets up for one hart. *)
Record mregs := Mregs {
  m_mstatus : Z; m_mepc : Z; m_satp : Z; m_medeleg : Z; m_mideleg : Z; m_sie : Z;
  m_mscratch : Z; m_mtvec : Z; m_mie : Z; m_tp : Z;
  m_mtimecmp : Z; m_scratch : list Z;       (* this hart's timer comparator and scratch area *)
}.

Definition MSTATUS_MPP_MASK : Z := Z.shiftl 3 11.
Definition MSTATUS_MPP_S : Z := Z.shiftl 1 11.
Definition MSTATUS_MIE : Z := Z.shiftl 1 3.
Definition SIE_SEIE : Z := Z.shiftl 1 9.
Definition SIE_STIE : Z := Z.shiftl 1 5.
Definition SIE_SSIE : Z := Z.shiftl 1 1.
Definition MIE_MTIE : Z := Z.shiftl 1 7.

(** [mtime] is the clock, [mscratch0] and [timervec] are addresses. *)
Definition timerinit (id mtime mscratch0 timervec : Z) (r : mregs) : mregs :=
  let interval := 1000000 in
  Mregs (Z.lor (m_mstatus r) MSTATUS_MIE) (m_mepc r) (m_satp r) (m_medeleg r) (m_mideleg r) (m_sie r)
    (mscratch0 + 8 * 32 * id) timervec (Z.lor (m_mie r) MIE_MTIE) (m_tp r)
    (u64 (mtime + interval)) (aset (aset (m_scratch r) 4 (CLINT_MTIMECMP id)) 5 interval).

Definition start (hartid main mtime mscratch0 timervec : Z) (r : mregs) : mregs :=
  (* set M Previous Privilege mode to Supervisor, for mret. *)
  let x := Z.land (m_mstatus r) (u64 (Z.lnot MSTATUS_MPP_MASK)) in
  let x := Z.lor x MSTATUS_MPP_S in
  (* main for mret, paging off, all interrupts and exceptions delegated. *)
  let r := Mregs x main 0 0xffff 0xffff
    (Z.lor (Z.lor (Z.lor (m_sie r) SIE_SEIE) SIE_STIE) SIE_SSIE)
    (m_mscratch r) (m_mtvec r) (m_mie r) (m_tp r) (m_mtimecmp r) (m_scratch r) in
  let r := timerinit hartid mtime mscratch0 timervec r in
  Mregs (m_mstatus r) (m_mepc r) (m_satp r) (m_medeleg r) (m_mideleg r) (m_sie r)
    (m_mscratch r) (m_mtvec r) (m_mie r) hartid (m_mtimecmp r) (m_scratch r).

Section Trap.
Context {S : Type} `{BC : BufCache S}.
Context (end_ etext trampoline forkret_pc : Z).
Context (locks : list (lens (kern * sys S) spinlock)).
(** [kernelvec], [usertrap], and the offsets of [uservec] and [userret] in the
    trampoline page. *)
Context (kernelvec usertrap_pc uservec userret : Z).
Abbreviation SM := (M (kern * sys S)).
Context (virtio_disk_intr virtio_disk_init : Z → SM unit) (binit : SM unit).

(** ** plic.c *)

Definition mmio32 (a v : Z) : SM unit := upd_hw (λ h, set_hmmio (h_mmio h ++ [(a, u32 v)]) h).

Definition plicinit : SM unit :=
  (* set desired IRQ priorities non-zero (otherwise disabled). *)
  mmio32 (PLIC + UART0_IRQ * 4) 1;;
  mmio32 (PLIC + VIRTIO0_IRQ * 4) 1.

Definition plicinithart : SM unit :=
  c ← mycpu;
  let hart := c_id c in
  (* set uart's enable bit for this hart's S-mode. *)
  mmio32 (PLIC_SENABLE hart) (Z.lor (Z.shiftl 1 UART0_IRQ) (Z.shiftl 1 VIRTIO0_IRQ));;
  (* set this hart's S-mode priority threshold to 0. *)
  mmio32 (PLIC_SPRIORITY hart) 0.

(** Reading the claim register takes the first pending interrupt, or 0. *)
Definition plic_claim : SM Z :=
  h ← get_hw;
  upd_hw (set_hpending (tail (h_pending h)));;
  mret (hd 0 (h_pending h)).

Definition plic_complete (irq : Z) : SM unit :=
  c ← mycpu;
  mmio32 (PLIC_SCLAIM (c_id c)) irq.

(** ** trap.c *)

Definition trapinit : SM unit := modify (λ x, (x.1, over tickslock (initlock "time") x.2)).
Definition trapinithart : SM unit := upd_hw (set_hstvec kernelvec).

Definition clockintr : SM unit :=
  acquire (slock tickslock);;
  modify (λ x, (x.1, set_ticks (sy_tickslock x.2) (u32 (sy_ticks x.2 + 1)) x.2));;
  wakeup ChTicks;;
  release (slock tickslock).

Definition devintr : SM Z :=
  h ← get_hw;
  let scause := h_scause h in
  if negb (Z.land scause INTR_BIT =? 0) && (Z.land scause 0xff =? 9) then
    (* this is a supervisor external interrupt, via PLIC. *)
    irq ← plic_claim;
    (if irq =? UART0_IRQ then uartintr
     else when ((irq =? VIRTIO0_IRQ) || (irq =? VIRTIO1_IRQ)) (virtio_disk_intr (irq - VIRTIO0_IRQ)));;
    when (negb (irq =? 0)) (plic_complete irq);;
    mret 1
  else if scause =? 0x8000000000000001 then
    (* software interrupt from a machine-mode timer interrupt. *)
    c ← mycpu;
    when (c_id c =? 0) clockintr;;
    (* acknowledge the software interrupt by clearing the SSIP bit in sip. *)
    upd_hw (λ h, set_hsip (Z.land (h_sip h) (Z.lnot 2)) h);;
    mret 2
  else mret 0.

(** The registers [sret] uses, and the arguments of [userret]: its address, the
    trapframe and the page table to switch to. *)
Definition usertrapret : SM (Z * Z * Z) :=
  p ← my_proc;
  (* turn off interrupts, since we're switching now from kerneltrap() to usertrap(). *)
  upd_cpu intr_off;;
  (* send syscalls, interrupts, and exceptions to trampoline.S *)
  upd_hw (set_hstvec (TRAMPOLINE + uservec));;
  (* set up trapframe values that uservec will need. *)
  satp ← gets (λ x, vm_satp (sy_vm x.2));
  tf_set p TF_kernel_satp satp;;
  tf_set p TF_kernel_sp (p_kstack p + PGSIZE);;
  tf_set p TF_kernel_trap usertrap_pc;;
  c ← mycpu;
  tf_set p TF_kernel_hartid (c_id c);;
  (* set S Previous Privilege mode to User, enable interrupts in user mode. *)
  upd_cpu (λ c, set_sstatus (Z.lor (Z.land (c_sstatus c) (Z.lnot SSTATUS_SPP)) SSTATUS_SPIE) c);;
  (* set S Exception Program Counter to the saved user pc. *)
  epc ← tf_get p TF_epc;
  upd_hw (set_hsepc epc);;
  mret (TRAMPOLINE + userret, TRAPFRAME, MAKE_SATP (p_pagetable p)).

Definition usertrap : SM (Z * Z * Z) :=
  c ← mycpu;
  if negb (Z.land (c_sstatus c) SSTATUS_SPP =? 0) then panic "usertrap: not from user mode"%string else
  (* send interrupts and exceptions to kerneltrap(). *)
  upd_hw (set_hstvec kernelvec);;
  i ← curproc;
  p ← the_proc i;
  h ← get_hw;
  (* save user program counter. *)
  tf_set p TF_epc (h_sepc h);;
  which_dev ← (
    if h_scause h =? 8 then
      (* system call *)
      when (negb (p_killed p =? 0)) (exit end_ (-1));;
      (* sepc points to the ecall instruction, but we want to return to the next one. *)
      epc ← tf_get p TF_epc;
      tf_set p TF_epc (epc + 4);;
      upd_cpu intr_on;;
      syscall end_ trampoline forkret_pc locks;;
      mret 0
    else
    which_dev ← devintr;
    if negb (which_dev =? 0) then mret which_dev else
    printf (bytes_of "usertrap(): unexpected scause %p (%s) pid=%d" ++ nl)
      [PPtr (h_scause h); PStr (Some (bytes_of (scause_desc (h_scause h)))); PInt (p_pid p)];;
    printf (bytes_of "            sepc=%p stval=%p" ++ nl) [PPtr (h_sepc h); PPtr (h_stval h)];;
    upd_proc i (set_pkilled 1);;
    mret 0);
  p ← the_proc i;
  when (negb (p_killed p =? 0)) (exit end_ (-1));;
  (* give up the CPU if this is a timer interrupt. *)
  when (which_dev =? 2) yield;;
  usertrapret.

Definition kerneltrap : SM unit :=
  h ← get_hw;
  c ← mycpu;
  let sepc := h_sepc h in
  let sstatus := c_sstatus c in
  let scause := h_scause h in
  if Z.land sstatus SSTATUS_SPP =? 0 then panic "kerneltrap: not from supervisor mode"%string else
  if intr_get c then panic "kerneltrap: interrupts enabled"%string else
  which_dev ← devintr;
  if which_dev =? 0 then
    printf (bytes_of "scause %p (%s)" ++ nl) [PPtr scause; PStr (Some (bytes_of (scause_desc scause)))];;
    printf (bytes_of "sepc=%p stval=%p" ++ nl) [PPtr (h_sepc h); PPtr (h_stval h)];;
    panic "kerneltrap"%string
  else
  (* give up the CPU if this is a timer interrupt. *)
  when (which_dev =? 2) (
    me ← myproc;
    match me with
    | None => mret tt
    | Some i =>
        p ← my_proc;
        when (bool_decide (p_state p = RUNNING)) yield
    end);;
  (* restore trap registers for use by kernelvec.S's sepc instruction. *)
  upd_hw (set_hsepc sepc);;
  upd_cpu (set_sstatus sstatus).

(** ** proc.c: the first return of a new process *)

Definition forkret : SM (Z * Z * Z) :=
  (* Still holding p->lock from scheduler. *)
  i ← curproc;
  release (plock i);;
  first ← gets (λ x, sy_first x.2);
  when first (
    (* File system initialization must be run in the context of a regular process. *)
    modify (λ x, (x.1, set_init (sy_initproc x.2) false x.2));;
    fsinit (minor ROOTDEV));;
  usertrapret.

(** ** main.c *)

(** [main] on hart 0 up to the scheduler. *)
Definition main_boot : SM unit :=
  consoleinit;;
  printfinit;;
  printf nl [];;
  printf (bytes_of "xv6 kernel is booting" ++ nl) [];;
  printf nl [];;
  zoom mem_of (kinit end_);;           (* physical page allocator *)
  zoom vm_of (kvminit etext trampoline);;  (* create kernel page table *)
  zoom vm_of kvminithart;;             (* turn on paging *)
  procinit;;                           (* process table *)
  trapinit;;                           (* trap vectors *)
  trapinithart;;                       (* install kernel trap vector *)
  plicinit;;                           (* set up interrupt controller *)
  plicinithart;;                       (* ask PLIC for device interrupts *)
  binit;;                              (* buffer cache *)
  iinit;;                              (* inode cache *)
  fileinit;;                           (* file table *)
  virtio_disk_init (minor ROOTDEV);;   (* emulated hard disk *)
  userinit trampoline forkret_pc.      (* first user process *)

(** [main] on the other harts, once hart 0 has set [started]. *)
Definition main_other : SM unit :=
  c ← mycpu;
  printf (bytes_of "hart %d starting" ++ nl) [PInt (c_id c)];;
  zoom vm_of kvminithart;;
  trapinithart;;
  plicinithart.
End Trap.
