(* ===== verification/ProcMem.v ===== *)
(** * The memory of a process

    A process has an address space and a trapframe page.  [proc_pagetable] makes an
    empty address space that maps the trampoline and the trapframe, [proc_freepagetable]
    takes one apart.  These are facts about memory and the page allocator alone;
    [ProcProof] uses them for the process table. *)

From S2P Require Import Prelude Memory Riscv Spinlock Core CString Kalloc Vm PageTable VmProof Uvm UvmOps VmFree.

(** The virtual pages of the trampoline and the trapframe. *)
Definition tramp_page : Z := TRAMPOLINE / PGSIZE.
Definition tf_page : Z := TRAPFRAME / PGSIZE.

Lemma special_pages : 0 ≤ tf_page ∧ tramp_page = tf_page + 1.
Proof. done. Qed.

Lemma np_tf sz : 0 ≤ sz ≤ TRAPFRAME → np sz ≤ tf_page.
Proof.
  intros H. change TRAPFRAME with (67108862 * 4096) in H. change tf_page with 67108862. unfold np.
  rewrite PGROUNDUP_spec by (unfold PGSIZE; lia). unfold PGSIZE. dlia.
Qed.

Lemma runs_assoc {X A B C} (m : M X A) (f : A → M X B) (g : B → M X C) x Q :
  runs ((m ≫= f) ≫= g) x Q → runs (m ≫= λ a, f a ≫= g) x Q.
Proof. unfold runs, mbind, M_bind. by destruct (m x). Qed.

Section ProcMem.
Context (end_ : Z).
Implicit Types (x : kern * kalloc_st) (l : list Z) (D : Z → Prop).
Abbreviation ram x := (km_ram x.2).
Abbreviation page_ok := (page_ok end_).
Abbreviation kalloc_inv := (kalloc_inv end_).
Abbreviation uvm_ok := (uvm_ok end_).
Abbreviation pt_ok := (pt_ok end_).

(** ** Free pages change, an address space does not *)

Lemma uvm_ok_free x root l D x' l' :
  uvm_ok x root l D → kalloc_inv x' l' → (∀ a, a ∈ l' → a ∈ l) →
  (∀ y, (∀ a, a ∈ l → ¬ in_page a y) → ram x' y = ram x y) →
  uvm_ok x' root l' D ∧ keeps root x x' D ∧ (∀ i, upte (ram x') root i = upte (ram x) root i) ∧
  (∀ a, owned (ram x') root D a ↔ owned (ram x) root D a).
Proof.
  intros Hok Inv Hl Hm. pose proof (uo_pt _ _ _ _ _ Hok) as Hpt.
  pose proof (ki_pages _ _ _ (po_alloc _ _ _ _ Hpt)) as Hpg. rewrite Forall_forall in Hpg.
  assert (Hsame : ∀ a y, owned (ram x) root D a → in_page a y → ram x' y = ram x y).
  { intros a y Ha Hy. destruct (owned_page_ok _ _ _ _ _ a Hok Ha) as [Hp Hnl]. apply Hm. intros b Hb Hy'.
    apply Hnl. replace a with b; [done|]. apply (pages_disjoint b a y); try done; [by apply Hpg|apply Hp]. }
  assert (∀ a y, is_table (ram x) root a → in_page a y → ram x' y = ram x y) as Ht by (intros a y Ha; apply Hsame; by left).
  destruct (owned_frame end_ x root l D (ram x') Hok Ht) as [Hu Ho].
  split_and!; [|intros i Hi; split; [done|]; intros y; apply Hsame; right; by exists i|done|done].
  eapply (uvm_ok_sub end_ x root l D); [done| | |].
  - split; [done|by eapply pt_tree_ext; [exact Ht|apply Hpt]|]. intros a Ha. rewrite (is_table_ext (ram x)) in Ha by done.
    destruct (po_pages _ _ _ _ Hpt a Ha). split; [done|]. intros ?. auto.
  - intros i Hi. split_and!; [done|done|]. intros ?. by apply (uo_used _ _ _ _ _ Hok i Hi), Hl.
  - intros i Hi. rewrite (is_table_ext (ram x)) by done. by apply (uo_notab _ _ _ _ _ Hok).
Qed.

(** ** A new address space *)

Lemma runs_uvmcreate x a l :
  kalloc_inv x (a :: l) →
  runs uvmcreate x (λ r x', r = a ∧ pt_ok x' a l ∧ same_kern x.1 x'.1 ∧
    (∀ va, lookup_pte (ram x') a va = 0) ∧ (∀ b, is_table (ram x') a b ↔ b = a) ∧
    ∀ y, ¬ in_page a y → ram x' y = ram x y).
Proof.
  intros Inv. unfold uvmcreate. kcall (runs_kalloc_zero end_ x _ Inv).
  intros r x1 [K1 [(_ & ? & _)|(Hr & l' & [= -> ->] & Hp & Hni & Inv1 & M1)]]; [done|].
  rewrite (proj2 (Z.eqb_neq _ _) Hr). kcall (runs_fill_page end_ x1 l' r 0 Inv1 Hp Hni).
  intros _ x2 (Inv2 & E2 & Hf). kstep.
  assert (∀ y, in_page r y → ram x2 y = 0) as Hz by (intros y Hy; by rewrite Hf, decide_True).
  split_and!; [done| |by rewrite E2|by apply empty_lookup|by apply empty_is_table|].
  - split; [done|apply empty_tree; [done|apply Hp]|]. intros b ->%(empty_is_table _ _ Hz). done.
  - intros y Hy. rewrite Hf, decide_False by exact Hy. by apply M1.
Qed.

Lemma runs_map1 x root l va pa perm :
  pt_ok x root l → 0 ≤ va < MAXVA → va mod PGSIZE = 0 → 0 ≤ pa → pa + PGSIZE ≤ 2 ^ 56 → 0 ≤ perm < 2 ^ 10 →
  has (lookup_pte (ram x) root va) PTE_V = false → (2 ≤ length l)%nat →
  runs (mappages root va PGSIZE pa perm) x (λ r x', r = 0 ∧ ∃ l', pt_ok x' root l' ∧ same_kern x.1 x'.1 ∧
    pt_step root (ram x) l (ram x') l' ∧ (length l ≤ length l' + 2)%nat ∧
    ∀ i, vpage i → upte (ram x') root i = if decide (i = va / PGSIZE) then new_pte pa perm 0 else upte (ram x) root i).
Proof.
  intros Hok Hva Hal Hpa Hpa2 Hperm Hnv Hlen. change MAXVA with (2 ^ 38) in Hva.
  assert (PGROUNDDOWN (va + PGSIZE - 1) = va) as E1 by (rewrite PGROUNDDOWN_spec; unfold PGSIZE in *; dlia).
  pose proof (runs_mappages end_ x root l va PGSIZE pa perm) as Hrun. cbv zeta in Hrun.
  rewrite E1, (PGROUNDDOWN_aligned _ Hal), Z.sub_diag in Hrun. change (0 / PGSIZE + 1) with 1 in Hrun.
  eapply runs_mono; [apply Hrun|]; clear Hrun; try done; try lia.
  { change MAXVA with (2 ^ 38). unfold PGSIZE in *. dlia. }
  { intros va' Hin. rewrite lookup_pte_page by (change MAXVA with (2 ^ 38); unfold in_pages, PGSIZE in *; dlia).
    replace (PGROUNDDOWN va') with va; [done|]. rewrite PGROUNDDOWN_spec. unfold in_pages, PGSIZE in *. dlia. }
  intros r x' (l' & k & (H1 & H2 & H3 & H4) & [(-> & -> & Hl')|(_ & Hk & _ & Hl')]); [|specialize (Hl' ltac:(lia)); lia].
  split; [done|]. exists l'. split_and!; [done..|lia|]. intros i Hi. destruct (vpage_va i Hi) as [Hi1 Hi2].
  unfold upte. rewrite H4 by done. unfold mapped, in_pages. destruct (decide (i = va / PGSIZE)) as [->|Hne].
  - rewrite decide_True by (unfold PGSIZE in *; dlia). f_equal. unfold PGSIZE in *. dlia.
  - rewrite decide_False by (unfold PGSIZE in *; dlia). done.
Qed.

Context (tramp : Z) (Htramp : 0 ≤ tramp ∧ tramp + PGSIZE ≤ 2 ^ 56 ∧ tramp mod PGSIZE = 0).

(** What [proc_pagetable] does to memory. *)
Definition new_pt (tf : Z) : M (kern * kalloc_st) Z :=
  pagetable ← uvmcreate;
  mappages pagetable TRAMPOLINE PGSIZE tramp (Z.lor PTE_R PTE_X);;
  mappages pagetable TRAPFRAME PGSIZE tf (Z.lor PTE_R PTE_W);;
  mret pagetable.

(** The address space of a process with [n] pages: these, the trampoline, the trapframe at
    [tf], and nothing else. *)
Record proc_space x (root : Z) l (n tf : Z) : Prop := {
  ps_uvm : uvm_ok x root l (upto n);
  ps_size : n ≤ tf_page;
  ps_tramp : upte (ram x) root tramp_page = new_pte tramp (Z.lor PTE_R PTE_X) 0;
  ps_tf : upte (ram x) root tf_page = new_pte tf (Z.lor PTE_R PTE_W) 0;
  ps_rest : ∀ i, vpage i → n ≤ i → i ≠ tramp_page → i ≠ tf_page → upte (ram x) root i = 0;
}.

Lemma uvm_ok_empty x root l : pt_ok x root l → uvm_ok x root l (upto 0).
Proof. intros H. by split; [|intros i; unfold upto; lia..]. Qed.

Lemma owned_empty m root a : owned m root (upto 0) a ↔ is_table m root a.
Proof. unfold owned, upto. split; [intros [?|(i & ? & _)]; [done|lia]|by left]. Qed.

Lemma upte_page va m root : va mod PGSIZE = 0 → upte m root (va / PGSIZE) = lookup_pte m root va.
Proof. intros H. unfold upte. f_equal. unfold PGSIZE in *. dlia. Qed.

Lemma runs_new_pt x l tf :
  kalloc_inv x l → (5 ≤ length l)%nat → 0 ≤ tf → tf + PGSIZE ≤ 2 ^ 56 →
  runs (new_pt tf) x (λ root x', ∃ l', proc_space x' root l' 0 tf ∧ same_kern x.1 x'.1 ∧
    (length l ≤ length l' + 5)%nat ∧ (∀ a, is_table (ram x') root a ∨ a ∈ l' ↔ a ∈ l) ∧
    ∀ y, (∀ a, a ∈ l → ¬ in_page a y) → ram x' y = ram x y).
Proof.
  intros Inv Hlen Htf1 Htf2. destruct l as [|a l]; [cbn in Hlen; lia|]. cbn [length] in Hlen. unfold new_pt.
  kcall (runs_uvmcreate x a l Inv). intros r x1 (-> & P1 & K1 & L1 & T1 & M1).
  kcall (runs_map1 x1 a l TRAMPOLINE tramp (Z.lor PTE_R PTE_X) P1); try done; try lia; [by rewrite L1|].
  intros r2 x2 (_ & l2 & P2 & K2 & S2 & N2 & U2). change (TRAMPOLINE / PGSIZE) with tramp_page in U2.
  kcall (runs_map1 x2 a l2 TRAPFRAME tf (Z.lor PTE_R PTE_W) P2); try done; try lia.
  { rewrite <- upte_page by done. rewrite U2 by done. rewrite decide_False by done. unfold upte. by rewrite L1. }
  intros r3 x3 (_ & l3 & P3 & K3 & S3 & N3 & U3). change (TRAPFRAME / PGSIZE) with tf_page in U3.
  pose proof (pt_step_trans _ _ _ _ _ _ _ S2 S3) as [_ _ T F]. kstep. exists l3. split_and!.
  - split; [by apply uvm_ok_empty|done| | |].
    + rewrite U3, decide_False by done. rewrite U2 by done. by rewrite decide_True.
    + rewrite U3 by done. by rewrite decide_True.
    + intros i Hi _ H1 H2. rewrite U3, decide_False by done. rewrite U2, decide_False by done. unfold upte. by rewrite L1.
  - etrans; [done|by etrans].
  - cbn. lia.
  - intros b. rewrite T, T1, elem_of_cons. done.
  - intros y Hy. rewrite F.
    + apply M1. apply Hy. by left.
    + intros b Hb. rewrite T1. split; [intros ->; eapply Hy; [by left|done]|intros Hl; eapply Hy; [by right|done]].
Qed.

(** ** Taking an address space apart *)

(** Unmapping a page the address space does not own. *)
Lemma runs_unmap1 x root l D i :
  uvm_ok x root l D → ¬ D i → vpage i → has (upte (ram x) root i) PTE_V = true →
  PTE_FLAGS (upte (ram x) root i) ≠ PTE_V →
  runs (uvmunmap end_ root (i * PGSIZE) PGSIZE false) x (λ _ x', x'.1 = x.1 ∧ uvm_ok x' root l D ∧
    (∀ a, owned (ram x') root D a ↔ owned (ram x) root D a) ∧
    (∀ y, (∀ a, is_table (ram x) root a → ¬ in_page a y) → ram x' y = ram x y) ∧
    ∀ j, vpage j → upte (ram x') root j = if decide (j = i) then 0 else upte (ram x) root j).
Proof.
  intros Hok HDi Hi Hv Hf. destruct (vpage_va i Hi) as [Hva Hal]. change MAXVA with (2 ^ 38) in Hva.
  pose proof (uo_pt _ _ _ _ _ Hok) as Hpt. unfold uvmunmap.
  assert (PGROUNDDOWN (u64 (i * PGSIZE + PGSIZE - 1)) = i * PGSIZE) as ->.
  { rewrite u64_small, PGROUNDDOWN_spec by (unfold PGSIZE in *; dlia). unfold PGSIZE in *. dlia. }
  rewrite PGROUNDDOWN_aligned by done. unfold page_fuel. rewrite Z.leb_refl, Z.sub_diag. change (Z.to_nat (0 / PGSIZE) + 2)%nat with 2%nat.
  cbn [loop]. kstep. kstep. unfold uvmunmap_page. kstep. apply runs_walk_lookup; [done|].
  destruct (walk_valid x root (i * PGSIZE)) as (t & Ht & Hla & Hld); [unfold upte in Hv; by rewrite Hv|].
  rewrite Hla. cbn [default from_option id].
  destruct (po_pages _ _ _ _ Hpt t (is_table_leaf _ _ _ _ Ht)) as [Hp _].
  pose proof (page_ok_pos end_ t (ki_end _ _ _ (po_alloc _ _ _ _ Hpt)) Hp). pose proof (PX_range 0 (i * PGSIZE)).
  rewrite (proj2 (Z.eqb_neq _ 0)) by lia. kstep. unfold ld64. kstep. rewrite Hld. fold (upte (ram x) root i).
  rewrite Hv, (proj2 (Z.eqb_neq _ _) Hf). cbn [negb when]. kstep. kstep. unfold st64. kstep. kif. rewrite Z.eqb_refl. kgo.
  destruct (pt_ok_leaf end_ x root l t (i * PGSIZE) 0 Hpt Ht) as [Hpt' Hst]. cbn in Hpt', Hst.
  assert (∀ j, vpage j → upte (store64 (ram x) (t + 8 * PX 0 (i * PGSIZE)) 0) root j =
    if decide (j = i) then 0 else upte (ram x) root j) as Hu.
  { intros j Hj. rewrite (leaf_upte _ _ t i 0 j); [done|apply Hpt|done|done|done|lia]. }
  assert (∀ j, D j → upte (store64 (ram x) (t + 8 * PX 0 (i * PGSIZE)) 0) root j = upte (ram x) root j) as HuD.
  { intros j Hj. rewrite Hu by (by apply (uo_dom _ _ _ _ _ Hok)). apply decide_False. congruence. }
  pose proof (leaf_is_table (ram x) root t (i * PGSIZE) 0 (po_tree _ _ _ _ Hpt) Ht) as Hit.
  split_and!; [done| | | |done].
  - eapply (uvm_ok_sub end_ x root l D); [done|done| |].
    + intros j Hj. split_and!; [done|by apply HuD|by apply (uo_used _ _ _ _ _ Hok)].
    + intros j Hj. cbn. rewrite Hit. by apply (uo_notab _ _ _ _ _ Hok).
  - intros a. unfold owned, upage. rewrite Hit. split; (intros [?|(j & Hj & ->)]; [by left|right; exists j]); by rewrite HuD by done.
  - intros y Hy. apply (leaf_out (ram x) t (i * PGSIZE) 0). apply Hy. by eapply is_table_leaf.
Qed.

(** What [proc_freepagetable] does to memory. *)
Definition free_pt (root sz : Z) : M (kern * kalloc_st) unit :=
  uvmunmap end_ root TRAMPOLINE PGSIZE false;;
  uvmunmap end_ root TRAPFRAME PGSIZE false;;
  when (0 <? sz) (uvmfree end_ root sz).

Lemma runs_unmap_special x root l n tf :
  proc_space x root l n tf → 0 ≤ tf → tf + PGSIZE ≤ 2 ^ 56 →
  runs (uvmunmap end_ root TRAMPOLINE PGSIZE false;; uvmunmap end_ root TRAPFRAME PGSIZE false) x (λ _ x',
    x'.1 = x.1 ∧ uvm_ok x' root l (upto n) ∧
    (∀ a, owned (ram x') root (upto n) a ↔ owned (ram x) root (upto n) a) ∧
    (∀ y, (∀ a, is_table (ram x) root a → ¬ in_page a y) → ram x' y = ram x y) ∧
    ∀ i, vpage i → n ≤ i → upte (ram x') root i = 0).
Proof.
  intros [Hok Hsz Htr Htf Hrest] Htf1 Htf2.
  assert (∀ pa perm, 0 ≤ pa → pa + PGSIZE ≤ 2 ^ 56 → perm = Z.lor PTE_R PTE_X ∨ perm = Z.lor PTE_R PTE_W →
    PTE_FLAGS (new_pte pa perm 0) ≠ PTE_V) as Hfl.
  { intros pa perm H1 H2 [->| ->]; rewrite flags_new; done || (unfold PGSIZE in *; lia). }
  change TRAMPOLINE with (tramp_page * PGSIZE) at 1.
  kcall (runs_unmap1 x root l (upto n) tramp_page Hok);
    [unfold upto; pose proof special_pages; lia|done|rewrite Htr; apply has_V_new|rewrite Htr; apply Hfl; auto; lia|].
  intros _ x1 (E1 & Ok1 & Ow1 & M1 & U1).
  assert (upte (ram x1) root tf_page = new_pte tf (Z.lor PTE_R PTE_W) 0) as Htf'.
  { rewrite U1 by done. by rewrite decide_False. }
  change TRAPFRAME with (tf_page * PGSIZE).
  kapply (runs_unmap1 x1 root l (upto n) tf_page Ok1);
    [unfold upto; lia|done|rewrite Htf'; apply has_V_new|rewrite Htf'; apply Hfl; auto; lia|].
  intros _ x2 (E2 & Ok2 & Ow2 & M2 & U2). split_and!.
  - congruence.
  - done.
  - intros a. by rewrite Ow2, Ow1.
  - intros y Hy. rewrite M2; [by apply M1|]. intros a Ha. apply Hy.
    destruct (proj1 (Ow1 a) (or_introl Ha)) as [?|(i & Hi & ->)]; [done|].
    exfalso. apply (uo_notab _ _ _ _ _ Ok1 i Hi). unfold upage. rewrite U1 by (by apply (uo_dom _ _ _ _ _ Hok)).
    rewrite decide_False; [done|]. intros ->. unfold upto in Hi. pose proof special_pages. lia.
  - intros i Hi Hni. rewrite U2 by done. case_decide; [done|]. rewrite U1 by done. case_decide; [done|]. by apply Hrest.
Qed.

(** The pages of a process's address space become free. *)
Lemma runs_free_pt x root l sz tf :
  proc_space x root l (np sz) tf → 0 < sz ≤ TRAPFRAME → 0 ≤ tf → tf + PGSIZE ≤ 2 ^ 56 →
  runs (free_pt root sz) x (λ _ x', ∃ l', kalloc_inv x' l' ∧ same_kern x.1 x'.1 ∧
    (∀ a, a ∈ l' ↔ a ∈ l ∨ owned (ram x) root (upto (np sz)) a) ∧
    ∀ y, (∀ a, in_page a y → ¬ owned (ram x) root (upto (np sz)) a ∧ a ∉ l) → ram x' y = ram x y).
Proof.
  intros Hps Hsz Htf1 Htf2. unfold free_pt. apply runs_assoc.
  kcall (runs_unmap_special x root l (np sz) tf Hps Htf1 Htf2). intros _ x1 (E1 & Ok1 & Ow1 & M1 & U1).
  rewrite (proj2 (Z.ltb_lt 0 sz)) by lia. cbn [when].
  kapply (runs_uvmfree end_ x1 root l sz); [change MAXVA with (TRAPFRAME + 2 * PGSIZE); unfold PGSIZE; lia|done|..].
  { intros i Hi Hn. rewrite U1 by done. apply has_zero. }
  intros _ x2 (l2 & I2 & K2 & F2 & M2). exists l2. split_and!; [done|by rewrite <- E1| |].
  - intros a. by rewrite F2, Ow1.
  - intros y Hy. rewrite M2.
    + apply M1. intros a Ha Hin. destruct (Hy a Hin) as [H _]. apply H. by left.
    + intros a Hin. rewrite Ow1. by apply Hy.
Qed.

(** An address space without pages is dropped: its page table is not freed. *)
Lemma runs_free_pt_leak x root l tf :
  proc_space x root l 0 tf → 0 ≤ tf → tf + PGSIZE ≤ 2 ^ 56 →
  runs (free_pt root 0) x (λ _ x', x'.1 = x.1 ∧ uvm_ok x' root l (upto 0) ∧
    (∀ a, is_table (ram x') root a ↔ is_table (ram x) root a) ∧
    ∀ y, (∀ a, is_table (ram x) root a → ¬ in_page a y) → ram x' y = ram x y).
Proof.
  intros Hps Htf1 Htf2. unfold free_pt. apply runs_assoc.
  kcall (runs_unmap_special x root l 0 tf Hps Htf1 Htf2). intros _ x1 (E1 & Ok1 & Ow1 & M1 & U1).
  change (0 <? 0) with false. cbn [when]. kstep. split_and!; [done|done| |done].
  intros a. specialize (Ow1 a). by rewrite !owned_empty in Ow1.
Qed.

(** The trapframe page is freed first. *)
Lemma proc_space_tf x root l n tf x' :
  proc_space x root l n tf → page_ok tf → ¬ owned (ram x) root (upto n) tf → kalloc_inv x' (tf :: l) →
  (∀ y, ¬ in_page tf y → ram x' y = ram x y) →
  proc_space x' root (tf :: l) n tf ∧ (∀ a, owned (ram x') root (upto n) a ↔ owned (ram x) root (upto n) a) ∧
  keeps root x x' (upto n).
Proof.
  intros [Hok Hsz Htr Htf Hrest] Hp Hno Inv Hm.
  destruct (uvm_ok_other end_ x root l (upto n) x' (tf :: l) tf Hok Inv) as (Hok' & Hk & Hu & Ho); [apply Hp|done|done| |].
  { intros a Ha [->|Hin]%elem_of_cons; [done|]. by apply (owned_page_ok _ _ _ _ _ a Hok Ha). }
  split_and!; [|done|done]. split; rewrite ?Hu; try done. intros i. rewrite Hu. apply Hrest.
Qed.

End ProcMem.
