(* ===== verification/ProcProof.v ===== *)
(** * Processes: the table

    A routine of [Proc] that works on one entry of the process table holds that
    entry's lock and nothing else of the table changes; [held] says so, and the
    lemmas here let such a routine run.  Other locks may be taken and released
    meanwhile. *)

From S2P Require Import Prelude Memory Riscv Spinlock Core CString Kalloc Vm Sleeplock BufCache Log Sys Fs Console File Proc PageTable VmProof Uvm UvmOps VmFree ProcMem.

Lemma push_off_settle c c' : cpu_ok c → settle c' = settle c → push_off_cpu c' = push_off_cpu c.
Proof.
  intros Hc E. assert (∀ c, push_off_cpu (settle c) = push_off_cpu c) as H; [|by rewrite <- H, E, H].
  intros [id ss n ie p]. unfold settle, push_off_cpu. cbn. destruct (n =? 0) eqn:Hn; [|done].
  unfold set_intena, intr_get, intr_off; cbn. destruct (negb _); cbn; by rewrite Hn.
Qed.

(** Two processes that differ in their locks only: a free lock is still free, a lock that is
    held has not been touched. *)
Definition like (p p' : proc) : Prop :=
  ((locked (p_lock p) = 0 → locked (p_lock p') = 0) ∧ (locked (p_lock p) ≠ 0 → p' = p)) ∧ p' = set_plock (p_lock p') p.

Lemma like_refl p : like p p.
Proof. split; [done|by rewrite set_plock_self]. Qed.

Lemma like_trans p q r : like p q → like q r → like p r.
Proof.
  intros [[F1 L1] E1] [[F2 L2] E2]. split; [split; [auto|]|by rewrite E2, E1].
  intros H. rewrite <- (L1 H). apply L2. by rewrite (L1 H).
Qed.

Lemma like_free p l : locked (p_lock p) = 0 → locked l = 0 → like p (set_plock l p).
Proof. intros H1 H2. split; [by split|done]. Qed.

(** Nothing changed but free locks. *)
Record kern_eq (k k' : kern) : Prop := {
  ke_ok : kern_ok k';
  ke_cpu : settle (k_cpu k') = settle (k_cpu k);
  ke_procs : ∀ j, (j < Z.to_nat NPROC)%nat → like (k_procs k !!! j) (k_procs k' !!! j);
}.

Lemma kern_eq_refl k : kern_ok k → kern_eq k k.
Proof. intros H. split; [done|done|]. intros j _. apply like_refl. Qed.

Lemma kern_eq_trans k1 k2 k3 : kern_eq k1 k2 → kern_eq k2 k3 → kern_eq k1 k3.
Proof. intros [_ C1 P1] [O2 C2 P2]. split; [done|congruence|]. intros j Hj. by eapply like_trans; [apply P1|apply P2]. Qed.

(** Nothing changed but free locks and entry [n], which is now [q]. *)
Record changed (k : kern) (n : nat) (q : proc) (k' : kern) : Prop := {
  ch_ok : kern_ok k';
  ch_cpu : settle (k_cpu k') = settle (k_cpu k);
  ch_self : k_procs k' !!! n = q;
  ch_others : ∀ j, (j < Z.to_nat NPROC)%nat → j ≠ n → like (k_procs k !!! j) (k_procs k' !!! j);
}.

Lemma changed_settle k n q k' : changed (set_kcpu (settle (k_cpu k)) k) n q k' → changed k n q k'.
Proof. intros [H1 H2 H3 H4]. split; try done. rewrite H2. apply settle_idem. Qed.

Lemma kern_eq_settle k k' : kern_eq (set_kcpu (settle (k_cpu k)) k) k' → kern_eq k k'.
Proof. intros [H1 H2 H3]. split; try done. rewrite H2. apply settle_idem. Qed.

(** The kernel [k] with the lock of entry [n] held by this hart, and the entry now [q]. *)
Record held (k : kern) (n : nat) (q : proc) (k' : kern) : Prop := {
  hd_cpu : k_cpu k' = push_off_cpu (k_cpu k);
  hd_len : length (k_procs k') = Z.to_nat NPROC;
  hd_self : k_procs k' !!! n = q;
  hd_locked : locked (p_lock q) ≠ 0;
  hd_holder : lk_cpu (p_lock q) = Some (c_id (k_cpu k));
  hd_procs : ∀ j, (j < Z.to_nat NPROC)%nat → j ≠ n → like (k_procs k !!! j) (k_procs k' !!! j);
}.

Section held.
Context {S : Type}.
Implicit Types (s : S).

Lemma held_same k n q k' k'' : cpu_ok (k_cpu k) → held k n q k' → same_kern k' k'' → k'' = k'.
Proof.
  intros Hc H [Hp Hs]. destruct k' as [c' ps'], k'' as [c'' ps'']; cbn in *. subst ps''. f_equal.
  pose proof (hd_cpu _ _ _ _ H) as E. cbn in E. subst c'. apply settled_push_off; [done|]. by rewrite Hs, settle_push_off.
Qed.

Lemma held_cpu_ok k n q k' : cpu_ok (k_cpu k) → held k n q k' → cpu_ok (k_cpu k').
Proof. intros Hc H. rewrite (hd_cpu _ _ _ _ H). by apply push_off_ok. Qed.

Lemma runs_acquire_held k n s Q :
  length (k_procs k) = Z.to_nat NPROC → (n < Z.to_nat NPROC)%nat → locked (p_lock (k_procs k !!! n)) = 0 →
  (∀ l k', held k n (set_plock l (k_procs k !!! n)) k' → Q tt (k', s)) →
  runs (acquire (plock n)) (k, s) Q.
Proof.
  intros Hlen Hn Hl HQ. apply (runs_acquire (plock n)); cbn; [lia|apply Hl|].
  eapply HQ. split; cbn; [done|by rewrite length_insert|by rewrite list_lookup_total_insert_eq by lia|done|done|].
  intros j Hj Hne. rewrite list_lookup_total_insert_ne by done. apply like_refl.
Qed.

Lemma runs_release_held k n q k' s Q :
  cpu_ok (k_cpu k) → (n < Z.to_nat NPROC)%nat → held k n q k' →
  (∀ k'' l, k_cpu k'' = settle (k_cpu k) → length (k_procs k'') = Z.to_nat NPROC → locked l = 0 → k_procs k'' !!! n = set_plock l q →
    (∀ j, (j < Z.to_nat NPROC)%nat → j ≠ n → like (k_procs k !!! j) (k_procs k'' !!! j)) → Q tt (k'', s)) →
  runs (release (plock n)) (k', s) Q.
Proof.
  intros Hc Hn [H1 H2 H3 H4 H5 H6] HQ.
  apply (runs_release (plock n) _ _ (settle (k_cpu k))); cbn; rewrite ?H3; [lia|done|by rewrite H1, push_off_id|by rewrite H1; apply pop_push_off|].
  eapply (HQ _ (dropped (p_lock q))); cbn; [done|by rewrite length_insert|done|by rewrite list_lookup_total_insert_eq by lia|].
  intros j Hj Hne. rewrite list_lookup_total_insert_ne by done. by apply H6.
Qed.

(** The entry's lock was the only one: all locks are free again. *)
Lemma runs_release_last k n q k' s Q :
  kern_ok k → (n < Z.to_nat NPROC)%nat → held k n q k' →
  (∀ k'' l, locked l = 0 → changed k n (set_plock l q) k'' → Q tt (k'', s)) →
  runs (release (plock n)) (k', s) Q.
Proof.
  intros (Hc & _ & Hf) Hi H HQ. eapply runs_release_held; [done|done|exact H|]. intros k'' l Ec Hlen Hl Hn Hoth.
  apply (HQ k'' l Hl). split; [|by rewrite Ec, settle_idem|done|done].
  split_and!; [rewrite Ec; by apply settle_ok|done|]. intros j.
  destruct (decide (j = n)) as [->|Hne]; [by rewrite Hn|].
  destruct (decide (j < Z.to_nat NPROC)%nat) as [Hj|Hj]; [by apply (Hoth j Hj Hne)|].
  rewrite list_lookup_total_alt, lookup_ge_None_2 by lia. done.
Qed.

Lemma runs_upd_held k n q k' s f Q :
  (n < Z.to_nat NPROC)%nat → held k n q k' → p_lock (f q) = p_lock q →
  (∀ k'', held k n (f q) k'' → Q tt (k'', s)) → runs (upd_proc n f) (k', s) Q.
Proof.
  intros Hn [H1 H2 H3 H4 H5 H6] Hf HQ. unfold upd_proc. kstep. cbn. apply HQ. rewrite H3.
  split; cbn; rewrite ?length_insert, ?Hf; try done; [by rewrite list_lookup_total_insert_eq by lia|].
  intros j Hj Hne. rewrite list_lookup_total_insert_ne by done. by apply H6.
Qed.
End held.

(** Setters keep the lock. *)
Lemma lock_pstate v p : p_lock (set_pstate v p) = p_lock p.
Proof. done. Qed.
Lemma lock_pxstate v p : p_lock (set_pxstate v p) = p_lock p.
Proof. done. Qed.
Lemma lock_pkilled v p : p_lock (set_pkilled v p) = p_lock p.
Proof. done. Qed.
Lemma lock_pchan v p : p_lock (set_pchan v p) = p_lock p.
Proof. done. Qed.
Lemma lock_pname v p : p_lock (set_pname v p) = p_lock p.
Proof. done. Qed.
Lemma lock_pparent v p : p_lock (set_pparent v p) = p_lock p.
Proof. done. Qed.
Lemma lock_ppid v p : p_lock (set_ppid v p) = p_lock p.
Proof. done. Qed.
Lemma lock_psz v p : p_lock (set_psz v p) = p_lock p.
Proof. done. Qed.
Lemma lock_ppagetable v p : p_lock (set_ppagetable v p) = p_lock p.
Proof. done. Qed.
Lemma lock_ptf v p : p_lock (set_ptf v p) = p_lock p.
Proof. done. Qed.
Lemma lock_pofile v p : p_lock (set_pofile v p) = p_lock p.
Proof. done. Qed.
Lemma lock_pcwd v p : p_lock (set_pcwd v p) = p_lock p.
Proof. done. Qed.
Lemma lock_pcontext v p : p_lock (set_pcontext v p) = p_lock p.
Proof. done. Qed.

(** An update of the entry held. *)
Ltac keeps_lock := first [apply lock_pstate | apply lock_pxstate | apply lock_pkilled | apply lock_pchan | apply lock_pname | apply lock_pparent | apply lock_ppid | apply lock_psz | apply lock_ppagetable | apply lock_ptf | apply lock_pofile | apply lock_pcwd | apply lock_pcontext].
Tactic Notation "hupd" hyp(H) "as" ident(k) := eapply runs_upd_held; [assumption|exact H|keeps_lock|]; clear H; intros k H.
Tactic Notation "hupd" hyp(H) := let k := fresh "k" in hupd H as k.

(** ** Memory and locks while an entry is held *)

Section ops.
Context {S : Type} `{BC : BufCache S}.
Implicit Types (s : sys S).
Context (end_ trampoline forkret_pc : Z).

Definition kmem s : kalloc_st := vm_kmem (sy_vm s).
Definition with_mem (m : kalloc_st) s : sys S := set_vm (VmSt m (kernel_pagetable (sy_vm s)) (vm_satp (sy_vm s))) s.

Lemma runs_ext {X A} (m m' : M X A) x Q : m x = m' x → runs m' x Q → runs m x Q.
Proof. unfold runs. by intros ->. Qed.

Lemma runs_mem_held {A} k n q k' s (m : M (kern * kalloc_st) A) R Q :
  cpu_ok (k_cpu k) → held k n q k' → runs m (k', kmem s) (λ a y, same_kern k' y.1 ∧ R a y) →
  (∀ a km, R a (k', km) → Q a (k', with_mem km s)) → runs (zoom mem_of m) (k', s) Q.
Proof.
  intros Hc H Hm HQ. kstep. kapply Hm. intros a [k2 km] [Hs HR]. cbn in Hs.
  pose proof (held_same k n q k' k2 Hc H Hs) as ->. exact (HQ a km HR).
Qed.

Lemma proc_pagetable_zoom p (x : kern * sys S) : proc_pagetable trampoline p x = zoom mem_of (new_pt trampoline (p_tf p)) x.
Proof.
  destruct x as [k [[km kpt satp]]]. unfold proc_pagetable, new_pt, zoom, mbind, M_bind. cbn.
  destruct (uvmcreate _) as [r [k1 km1]|f [k1 km1]]; [|done]. cbn.
  destruct (mappages r TRAMPOLINE _ _ _ _) as [r2 [k2 km2]|f [k2 km2]]; [|done]. cbn.
  by destruct (mappages r TRAPFRAME _ _ _ _) as [r3 [k3 km3]|f [k3 km3]].
Qed.

Lemma proc_freepagetable_zoom root sz (x : kern * sys S) : proc_freepagetable end_ root sz x = zoom mem_of (free_pt end_ root sz) x.
Proof.
  destruct x as [k [[km kpt satp]]]. unfold proc_freepagetable, free_pt, zoom, when, mbind, M_bind. cbn.
  destruct (uvmunmap end_ root TRAMPOLINE _ _ _) as [r [k1 km1]|f [k1 km1]]; [|done]. cbn.
  destruct (uvmunmap end_ root TRAPFRAME _ _ _) as [r2 [k2 km2]|f [k2 km2]]; [|done]. cbn. by destruct (0 <? sz).
Qed.

(** The scan of [allocproc]. *)
Lemma runs_find_unused k s Q :
  kern_ok k →
  (∀ k', kern_eq k k' → (∀ j, (j < Z.to_nat NPROC)%nat → p_state (k_procs k !!! j) ≠ UNUSED) → Q None (k', s)) →
  (∀ n l k', (n < Z.to_nat NPROC)%nat → p_state (k_procs k !!! n) = UNUSED →
    (∀ j, (j < n)%nat → p_state (k_procs k !!! j) ≠ UNUSED) →
    held k n (set_plock l (k_procs k !!! n)) k' → Q (Some n) (k', s)) →
  runs find_unused (k, s) Q.
Proof.
  intros Hk HN HS. unfold find_unused.
  apply (runs_loop _ (λ i x, 0 ≤ i ≤ NPROC ∧ x.2 = s ∧ kern_eq k x.1 ∧
    ∀ j, (j < Z.to_nat i)%nat → p_state (k_procs k !!! j) ≠ UNUSED) (λ i _, Z.to_nat (NPROC - i))).
  - intros i [k1 s1] (Hi & E & Heq & Hno). cbn in E, Heq. subst s1. kstep; intros Hb; zify_bool.
    { kstep. apply HN; [done|]. intros j Hj. apply Hno. lia. }
    pose proof Heq as [Hk1 Hc1 Hp1].
    kstep. apply runs_acquire_held; [apply Hk1|lia|apply Hk1|]. intros l k2 H2. kstep. unfold the_proc. kstep. cbn.
    rewrite (hd_self _ _ _ _ H2). cbn. destruct (Hp1 (Z.to_nat i)) as [Hl Ep]; [lia|].
    assert (p_state (k_procs k1 !!! Z.to_nat i) = p_state (k_procs k !!! Z.to_nat i)) as Est by (by rewrite Ep).
    rewrite Est. case_bool_decide as Hu; kif.
    + kstep. rewrite Ep in H2. apply (HS _ l); [lia|done|done|]. destruct H2 as [G1 G2 G3 G4 G5 G6]. split; try done.
      * rewrite G1. apply push_off_settle; [apply Hk|done].
      * cbn in G5 |- *. rewrite G5. f_equal. rewrite <- (settle_id (k_cpu k1)), Hc1. apply settle_id.
      * intros j Hj Hne. eapply like_trans; [by apply Hp1|by apply G6].
    + kstep. eapply (runs_release_last k1 (Z.to_nat i) _ k2 s); [done|lia|done|].
      intros k3 l' Hl' [Hk3 Hc3 Hn3 Hp3]. kstep. cbn. split; [|lia]. split_and!; [lia|lia|done| |].
      * split; [done|congruence|]. intros j Hj. eapply like_trans; [by apply Hp1|].
        destruct (decide (j = Z.to_nat i)) as [->|Hne]; [|by apply Hp3]. rewrite Hn3. exact (like_free _ l' (proj2 (proj2 Hk1) _) Hl').
      * intros j Hj. destruct (decide (j = Z.to_nat i)) as [->|]; [done|]. apply Hno. lia.
  - cbn. split_and!; [lia|done|done|by apply kern_eq_refl|]. intros j Hj. lia.
  - lia.
Qed.

Lemma runs_allocpid k n q k' s Q :
  cpu_ok (k_cpu k) → held k n q k' → locked (sy_pidlock s) = 0 →
  (∀ lk, locked lk = 0 → Q (sy_nextpid s) (k', set_pids lk (i32 (sy_nextpid s + 1)) s)) →
  runs allocpid (k', s) Q.
Proof.
  intros Hc H Hl HQ. pose proof (held_cpu_ok _ _ _ _ Hc H) as Hc'.
  assert (settle (k_cpu k') = k_cpu k') as Es by (rewrite (hd_cpu _ _ _ _ H); by apply settle_push_off).
  unfold allocpid. kstep. apply (runs_acquire (slock pidlock)); [done|done|]. cbn. kgo.
  apply (runs_release (slock pidlock) _ _ (settle (k_cpu k'))); cbn; [done|done|by rewrite push_off_id|by apply pop_push_off|].
  kgo. rewrite Es. destruct k' as [c' ps']. cbn. apply HQ. done.
Qed.

(** ** allocproc *)

Lemma kalloc_inv_kern k k' m l : kalloc_inv end_ (k, m) l → cpu_ok (k_cpu k') → kalloc_inv end_ (k', m) l.
Proof. intros [_ H2 H3 H4 H5 H6 H7] Hc. by split. Qed.

Lemma proc_space_kern k k' m root l n tf :
  proc_space end_ trampoline (k, m) root l n tf → cpu_ok (k_cpu k') → proc_space end_ trampoline (k', m) root l n tf.
Proof.
  intros [[[H1 H2 H3] H4 H5 H6 H7 H8 H9 H10] G1 G2 G3 G4] Hc. split; try done. split; try done. split; try done.
  by eapply kalloc_inv_kern.
Qed.

(** A new process in entry [n]: its record, and its memory, the page [tf] and an address
    space without user pages, all taken from the free pages [l]. *)
Definition new_proc (pid root tf : Z) (lk : spinlock) (p : proc) : proc :=
  set_pcontext (Context_ forkret_pc (p_kstack p + PGSIZE) (replicate 12 0))
    (set_ppagetable root (set_ptf tf (set_ppid pid (set_plock lk p)))).

Record new_mem (k' : kern) (m : kalloc_st) (l : list Z) (root tf : Z) (m' : kalloc_st) (l' : list Z) : Prop := {
  nm_space : proc_space end_ trampoline (k', m') root l' 0 tf;
  nm_tf : page_ok end_ tf;
  nm_tf_used : tf ∉ l' ∧ ¬ is_table (km_ram m') root tf;
  nm_pages : ∀ a, is_table (km_ram m') root a ∨ a ∈ l' ∨ a = tf ↔ a ∈ l;
  nm_len : (length l ≤ length l' + 6)%nat;
  nm_frame : ∀ y, (∀ a, a ∈ l → ¬ in_page a y) → km_ram m' y = km_ram m y;
}.

Context (Htramp : 0 ≤ trampoline ∧ trampoline + PGSIZE ≤ 2 ^ 56 ∧ trampoline mod PGSIZE = 0).

Lemma runs_allocproc k s l Q :
  kern_ok k → locked (sy_pidlock s) = 0 → kalloc_inv end_ (k, kmem s) l → (6 ≤ length l)%nat →
  (∀ k', kern_eq k k' → (∀ j, (j < Z.to_nat NPROC)%nat → p_state (k_procs k !!! j) ≠ UNUSED) → Q None (k', s)) →
  (∀ n lk lkp k' m root tf l', (n < Z.to_nat NPROC)%nat → p_state (k_procs k !!! n) = UNUSED →
    (∀ j, (j < n)%nat → p_state (k_procs k !!! j) ≠ UNUSED) →
    held k n (new_proc (sy_nextpid s) root tf lk (k_procs k !!! n)) k' → locked lkp = 0 →
    new_mem k' (kmem s) l root tf m l' →
    Q (Some n) (k', with_mem m (set_pids lkp (i32 (sy_nextpid s + 1)) s))) →
  runs (allocproc trampoline forkret_pc) (k, s) Q.
Proof.
  intros Hk Hpl Inv Hlen HN HS. pose proof Hk as (Hc & _). unfold allocproc. kstep. apply runs_find_unused; [done|..].
  { intros k' Heq Hno. kstep. by apply HN. }
  intros n lk k1 Hn Hu Hfirst H1. kstep. eapply runs_allocpid; [done|exact H1|done|]. intros lkp Hlkp.
  kstep. eapply runs_upd_held; [done|exact H1|done|]. clear k1 H1. intros k1 H1.
  pose proof (held_cpu_ok _ _ _ _ Hc H1) as Hc1. set (s1 := set_pids _ _ s).
  assert (kalloc_inv end_ (k1, kmem s1) l) as Inv1 by (by eapply kalloc_inv_kern).
  kstep. eapply (runs_mem_held k n _ k1 s1 kalloc (λ r y, r ≠ 0 ∧ ∃ l', l = r :: l' ∧ page_ok end_ r ∧ r ∉ l' ∧
    kalloc_inv end_ y l' ∧ (∀ z, ¬ in_page r z → km_ram y.2 z = km_ram (kmem s) z))); [done|exact H1| |].
  { kapply (runs_kalloc_zero end_ (k1, kmem s1) l Inv1). intros r y [Hs [(_ & -> & _)|HR]]; [cbn in Hlen; lia|done]. }
  intros tf m1 (Htf0 & l1 & -> & Htf & Htfl & Inv2 & M1). cbn [length] in Hlen. kstep.
  eapply runs_upd_held; [done|exact H1|done|]. intros k2 H2. pose proof (held_cpu_ok _ _ _ _ Hc H2) as Hc2.
  rewrite (proj2 (Z.eqb_neq _ _) Htf0). kstep. unfold the_proc. kstep. cbn [fst]. rewrite (hd_self _ _ _ _ H2).
  pose proof (page_ok_pos end_ tf (ki_end _ _ _ Inv2) Htf) as Htfp.
  assert (tf + PGSIZE ≤ 2 ^ 56) by (destruct Htf as (_ & _ & ?); unfold PHYSTOP, KERNBASE, PGSIZE in *; lia).
  set (s2 := with_mem m1 s1). kstep. eapply runs_ext; [apply proc_pagetable_zoom|]. cbn [p_tf set_ptf].
  eapply (runs_mem_held k n _ k2 s2 (new_pt trampoline tf)); [done|exact H2| |].
  { kapply (runs_new_pt end_ trampoline Htramp (k2, m1) l1 tf); [by eapply kalloc_inv_kern|lia|lia|done|].
    intros root y (l' & G1 & G2 & G3). split; [exact G2|]. exact (ex_intro _ l' (conj G1 G3)). }
  intros root m2 (l' & Hsp & Hlen2 & Hpg & Hfr). kstep.
  eapply runs_upd_held; [done|exact H2|done|]. intros k3 H3. kstep.
  eapply runs_upd_held; [done|exact H3|done|]. intros k4 H4. pose proof (held_cpu_ok _ _ _ _ Hc H4) as Hc4. kstep.
  eapply (HS n lk lkp k4 m2 root tf l'); [done..|exact H4|done|]. split.
  - by eapply proc_space_kern.
  - done.
  - split; intros Hin; apply Htfl, Hpg; auto.
  - intros a. specialize (Hpg a). rewrite elem_of_cons. cbn in Hpg. tauto.
  - cbn. lia.
  - intros y Hy. rewrite Hfr; [apply M1, Hy; by left|]. intros a Ha. apply Hy. by right.
Qed.

(** ** freeproc *)

(** An entry after [freeproc]. *)
Definition freed (q : proc) : proc :=
  set_pstate UNUSED (set_pxstate 0 (set_pkilled 0 (set_pchan None (set_pname (aset (p_name q) 0 0)
    (set_pparent None (set_ppid 0 (set_psz 0 (set_ppagetable 0 (set_ptf 0 q))))))))).

Lemma runs_freeproc_with k n q k' s l pages R Q :
  cpu_ok (k_cpu k) → (n < Z.to_nat NPROC)%nat → held k n q k' →
  proc_space end_ trampoline (k', kmem s) (p_pagetable q) l pages (p_tf q) → page_ok end_ (p_tf q) → p_tf q ∉ l →
  ¬ owned (km_ram (kmem s)) (p_pagetable q) (upto pages) (p_tf q) →
  (∀ x, proc_space end_ trampoline x (p_pagetable q) (p_tf q :: l) pages (p_tf q) →
    runs (free_pt end_ (p_pagetable q) (p_sz q)) x (λ _ y, same_kern x.1 y.1 ∧ R x.2 y)) →
  (∀ k1 k2 m1 m2, cpu_ok (k_cpu k1) → (∀ y, ¬ in_page (p_tf q) y → km_ram m1 y = km_ram (kmem s) y) →
    (∀ a, owned (km_ram m1) (p_pagetable q) (upto pages) a ↔ owned (km_ram (kmem s)) (p_pagetable q) (upto pages) a) →
    R m1 (k1, m2) → held k n (freed q) k2 → Q tt (k2, with_mem m2 s)) →
  runs (freeproc end_ n) (k', s) Q.
Proof.
  intros Hc Hn H Hps Hp Hni Hno Hfree HQ. pose proof (uo_pt _ _ _ _ _ (ps_uvm _ _ _ _ _ _ _ Hps)) as Hpt.
  pose proof (po_alloc _ _ _ _ Hpt) as Inv. pose proof (page_ok_pos end_ _ (ki_end _ _ _ Inv) Hp) as Hpos.
  destruct (po_pages _ _ _ _ Hpt (p_pagetable q)) as [Hrp _]; [exists []; split; [apply path_nil|done]|].
  pose proof (page_ok_pos end_ _ (ki_end _ _ _ Inv) Hrp) as Hrpos.
  unfold freeproc. kstep. unfold the_proc at 1. kstep. cbn [fst]. rewrite (hd_self _ _ _ _ H), (proj2 (Z.eqb_neq (p_tf q) 0)) by lia.
  cbn [negb when]. kstep.
  eapply (runs_mem_held k n _ k' s (kfree end_ (p_tf q)) (λ _ y, kalloc_inv end_ y (p_tf q :: l) ∧
    ∀ a, ¬ in_page (p_tf q) a → km_ram y.2 a = km_ram (kmem s) a)); [done|exact H| |].
  { kapply (runs_kfree end_ (k', kmem s) l (p_tf q) Inv Hp Hni). intros _ y (G1 & G2 & G3). done. }
  intros _ m1 (Inv1 & M1).
  destruct (proc_space_tf end_ trampoline (k', kmem s) (p_pagetable q) l pages (p_tf q) (k', m1) Hps Hp Hno Inv1 M1) as (Hps1 & Ho1 & _).
  kstep. eapply runs_upd_held; [done|exact H|done|]. intros k1 H1. pose proof (held_cpu_ok _ _ _ _ Hc H1) as Hc1.
  kstep. unfold the_proc. kstep. cbn [fst]. rewrite (hd_self _ _ _ _ H1). cbn [p_pagetable p_sz set_ptf].
  rewrite (proj2 (Z.eqb_neq (p_pagetable q) 0)) by lia. cbn [negb when]. kstep. eapply runs_ext; [apply proc_freepagetable_zoom|].
  eapply (runs_mem_held k n _ k1 _ _ (λ _ y, R m1 y)); [done|exact H1|apply (Hfree (k1, m1)); by eapply proc_space_kern|].
  intros _ m2 HR. kstep. do 7 (hupd H1; kstep). hupd H1. hupd H1. by eapply (HQ k1 _ m1 m2).
Qed.
End ops.
