(* ===== verification/Fork.v ===== *)
(** * The memory of a child process

    [fork] gives the child an address space of its own with the parent's contents, and a
    trapframe page with the parent's registers. *)

From S2P Require Import Prelude Memory Riscv Spinlock Core CString Kalloc Vm PageTable VmProof Uvm UvmOps VmFree Sleeplock BufCache Log Sys Fs Console File Proc ProcMem ProcProof.

Section ForkMem.
Context (end_ trampoline : Z).
Abbreviation uvm_ok := (uvm_ok end_).
Abbreviation proc_space := (proc_space end_ trampoline).
Abbreviation new_mem := (new_mem end_ trampoline).

(** A process's memory: the address space [root] of [n] pages and the trapframe page [tf]. *)
Record proc_mem (x : kern * kalloc_st) (root : Z) (l : list Z) (n tf : Z) : Prop := {
  pm_space : proc_space x root l n tf;
  pm_tf : page_ok end_ tf;
  pm_tf_used : tf ∉ l;
  pm_tf_own : ¬ owned (km_ram x.2) root (upto n) tf;
}.

(** Two processes share no page. *)
Definition apart_mem (m : mem) (root n tf root' n' tf' : Z) : Prop :=
  tf ≠ tf' ∧ (∀ a, owned m root (upto n) a → ¬ owned m root' (upto n') a) ∧
  ¬ owned m root (upto n) tf' ∧ ¬ owned m root' (upto n') tf.

(** The memory of a process as it was. *)
Definition unchanged (m m' : mem) (root n tf : Z) : Prop :=
  (∀ i, upte m' root i = upte m root i) ∧
  (∀ i y, 0 ≤ i < n → in_page (upage m root i) y → m' y = m y) ∧ (∀ y, in_page tf y → m' y = m y).

Lemma unchanged_trans m1 m2 m3 root n tf :
  unchanged m1 m2 root n tf → unchanged m2 m3 root n tf → unchanged m1 m3 root n tf.
Proof.
  intros (A1 & B1 & C1) (A2 & B2 & C2). split_and!.
  - intros i. by rewrite A2.
  - intros i y Hi Hy. rewrite (B2 i), (B1 i); try done. unfold upage in *. by rewrite A1.
  - intros y Hy. by rewrite C2, C1.
Qed.

Lemma keeps_unchanged k k' m m' root n tf :
  keeps root (k, m) (k', m') (upto n) → (∀ i, upte (km_ram m') root i = upte (km_ram m) root i) →
  (∀ y, in_page tf y → km_ram m' y = km_ram m y) → unchanged (km_ram m) (km_ram m') root n tf.
Proof. intros Hk Hu Ht. split_and!; [done| |done]. intros i y Hi. by apply (Hk i). Qed.

(** The page table and the trapframe stay, the rest of memory may change. *)
Lemma proc_mem_tables k k' m m' root l l' n tf :
  proc_mem (k, m) root l n tf → kalloc_inv end_ (k', m') l' →
  (∀ a, owned (km_ram m) root (upto n) a ∨ a = tf → a ∉ l') →
  (∀ a y, is_table (km_ram m) root a → in_page a y → km_ram m' y = km_ram m y) →
  proc_mem (k', m') root l' n tf ∧ (∀ i, upte (km_ram m') root i = upte (km_ram m) root i) ∧
  (∀ a, owned (km_ram m') root (upto n) a ↔ owned (km_ram m) root (upto n) a).
Proof.
  intros [[Hok Hsz Htr Htf Hrest] Hp Hl Hno] Inv Hm Ht. pose proof (uo_pt _ _ _ _ _ Hok) as Hpt.
  destruct (owned_frame end_ (k, m) root l (upto n) (km_ram m') Hok Ht) as [Hu Ho]. cbn in Hu, Ho.
  assert (uvm_ok (k', m') root l' (upto n)) as Hok'.
  { eapply (uvm_ok_sub end_ (k, m) root l (upto n)); [done| | |]; cbn.
    - split; [done|by eapply pt_tree_ext; [exact Ht|apply Hpt]|]. cbn. intros a Ha. rewrite (is_table_ext (km_ram m)) in Ha by done.
      split; [by apply (po_pages _ _ _ _ Hpt)|]. apply (Hm a). left. by left.
    - intros i Hi. split_and!; [done|done|]. apply Hm. left. right. by exists i.
    - intros i Hi. rewrite (is_table_ext (km_ram m)) by done. by apply (uo_notab _ _ _ _ _ Hok). }
  split_and!; [|done|done].
  split; [split; cbn; rewrite ?Hu; try done; intros i; rewrite Hu; apply Hrest|done|by apply Hm; right|by cbn; rewrite Ho].
Qed.

(** Pages that are not the process's change. *)
Lemma proc_mem_frame k k' m m' root l l' n tf :
  proc_mem (k, m) root l n tf → kalloc_inv end_ (k', m') l' →
  (∀ a, owned (km_ram m) root (upto n) a ∨ a = tf → a ∉ l' ∧ ∀ y, in_page a y → km_ram m' y = km_ram m y) →
  proc_mem (k', m') root l' n tf ∧ unchanged (km_ram m) (km_ram m') root n tf ∧
  (∀ a, owned (km_ram m') root (upto n) a ↔ owned (km_ram m) root (upto n) a).
Proof.
  intros H Inv Hm. destruct (proc_mem_tables k k' m m' root l l' n tf H Inv) as (H1 & H2 & H3).
  { intros a Ha. by apply Hm. }
  { intros a y Ha. apply Hm. left. by left. }
  split_and!; [done|split_and!; [done| |]|done].
  - intros i y Hi. apply Hm. left. right. by exists i.
  - intros y. apply Hm. by right.
Qed.

(** Free pages change, a process's memory does not. *)
Lemma proc_mem_free k k' m m' root l l' n tf :
  proc_mem (k, m) root l n tf → kalloc_inv end_ (k', m') l' → (∀ a, a ∈ l' → a ∈ l) →
  (∀ y, (∀ a, a ∈ l → ¬ in_page a y) → km_ram m' y = km_ram m y) →
  proc_mem (k', m') root l' n tf ∧ unchanged (km_ram m) (km_ram m') root n tf ∧
  (∀ a, owned (km_ram m') root (upto n) a ↔ owned (km_ram m) root (upto n) a).
Proof.
  intros [[Hok Hsz Htr Htf Hrest] Hp Hl Hno] Inv Hsub Hm.
  destruct (uvm_ok_free end_ (k, m) root l (upto n) (k', m') l' Hok Inv Hsub Hm) as (Hok' & Hk & Hu & Ho).
  cbn in Hu, Ho. split_and!; [|eapply keeps_unchanged; try done|done].
  - split; [split; cbn; rewrite ?Hu; try done; intros i; rewrite Hu; apply Hrest|done|auto|by cbn; rewrite Ho].
  - intros y Hy. apply Hm. intros a Ha Hy'. apply Hl. replace tf with a; [done|].
    pose proof (ki_pages _ _ _ (po_alloc _ _ _ _ (uo_pt _ _ _ _ _ Hok))) as Hpg. rewrite Forall_forall in Hpg.
    apply (pages_disjoint a tf y); try done; [by apply Hpg|apply Hp].
Qed.

Lemma proc_mem_kern k k' m root l n tf : proc_mem (k, m) root l n tf → cpu_ok (k_cpu k') → proc_mem (k', m) root l n tf.
Proof. intros [Hs H1 H2 H3] Hc. split; [by eapply (proc_space_kern end_ trampoline k)|done..]. Qed.

(** The two processes after [allocproc]. *)
Lemma fork_child k k' m0 m old l n0 tf0 root tf l' :
  new_mem k' m0 l root tf m l' → proc_mem (k, m0) old l n0 tf0 →
  proc_mem (k', m) old l' n0 tf0 ∧ unchanged (km_ram m0) (km_ram m) old n0 tf0 ∧ proc_mem (k', m) root l' 0 tf ∧
  apart_mem (km_ram m) old n0 tf0 root 0 tf.
Proof.
  intros [Hs Htf [Hu1 Hu2] Hpg Hlen Hfr] Hold. pose proof (uo_pt _ _ _ _ _ (ps_uvm _ _ _ _ _ _ _ Hs)) as Hpt.
  destruct (proc_mem_free k k' m0 m old l l' n0 tf0 Hold (po_alloc _ _ _ _ Hpt)) as (H1 & H2 & H3); [|done|].
  { intros a Ha. apply Hpg. auto. }
  assert (∀ a, owned (km_ram m0) old (upto n0) a → a ∉ l) as Hol.
  { intros a. apply (owned_page_ok end_ (k, m0) old l (upto n0) a). apply Hold. }
  split_and!; [done|done| |].
  - split; [done|done|done|]. by rewrite owned_empty.
  - split_and!.
    + intros ->. apply (pm_tf_used _ _ _ _ _ Hold), Hpg. auto.
    + intros a Ha%H3. rewrite owned_empty. intros Ht. apply (Hol a Ha), Hpg. auto.
    + intros Ha%H3. apply (Hol tf Ha), Hpg. auto.
    + rewrite owned_empty. intros Ht. apply (pm_tf_used _ _ _ _ _ Hold), Hpg. auto.
Qed.

(** A page that belongs neither to the address space nor to the free pages. *)
Lemma step_page root x l D x' l' D' tf y :
  uvm_ok x root l D → uvm_step root x l D x' l' D' → page_ok end_ tf → tf ∉ l → ¬ owned (km_ram x.2) root D tf →
  in_page tf y → km_ram x'.2 y = km_ram x.2 y.
Proof.
  intros Hok [_ _ Hf] Hp Hl Hno Hy. apply Hf. intros a Ha.
  pose proof (ki_pages _ _ _ (po_alloc _ _ _ _ (uo_pt _ _ _ _ _ Hok))) as Hpg. rewrite Forall_forall in Hpg.
  split; intros Hin; [apply Hno|apply Hl]; replace tf with a; try done; apply (pages_disjoint a tf y); try done;
    [by apply (owned_page_ok end_ x root l D a)|apply Hp|by apply Hpg|apply Hp].
Qed.

Lemma runs_fork_copy k m old root l sz tf0 tf :
  0 ≤ sz ≤ TRAPFRAME → (3 ≤ length l)%nat → proc_mem (k, m) old l (np sz) tf0 → proc_mem (k, m) root l 0 tf →
  apart_mem (km_ram m) old (np sz) tf0 root 0 tf →
  runs (uvmcopy end_ old root sz) (k, m) (λ r y, same_kern k y.1 ∧ ∃ l' n,
    (r = 0 ∧ n = np sz ∧ same_pages (km_ram m) old (km_ram y.2) root n ∨ r = -1 ∧ n = 0) ∧
    proc_mem y root l' n tf ∧ apart_mem (km_ram y.2) old (np sz) tf0 root n tf ∧
    proc_mem y old l' (np sz) tf0 ∧ unchanged (km_ram m) (km_ram y.2) old (np sz) tf0 ∧
    ∀ a, owned (km_ram y.2) root (upto n) a ∨ a ∈ l' ↔ is_table (km_ram m) root a ∨ a ∈ l).
Proof.
  intros Hsz Hlen Hold Hnew (Hne & Hdis & Hd1 & Hd2). pose proof (np_tf sz Hsz) as Hn.
  pose proof Hold as [[Ho1 Ho2 Ho3 Ho4 Ho5] Ho6 Ho7 Ho8]. pose proof Hnew as [[Hn1 Hn2 Hn3 Hn4 Hn5] Hn6 Hn7 Hn8].
  assert (0 ≤ sz ≤ MAXVA) as Hsz2 by (change MAXVA with (TRAPFRAME + 2 * PGSIZE); unfold PGSIZE; lia).
  destruct (np_spec sz Hsz2) as (_ & N & _).
  assert (∀ i, 0 ≤ i < np sz → vpage i) as Hvp by (intros i Hi; apply (uo_dom _ _ _ _ _ Ho1); done).
  kapply (runs_uvmcopy end_ (k, m) old root l sz); [done|done|done|done|done| |].
  { intros i Hi. apply Hn5; [by apply Hvp|lia|..]; pose proof special_pages; lia. }
  intros r y (l' & Hr & _ & _).
  assert (∃ n, (r = 0 ∧ n = np sz ∧ same_pages (km_ram m) old (km_ram y.2) root n ∨ r = -1 ∧ n = 0) ∧
    0 ≤ n ≤ np sz ∧ resized end_ root (k, m) l 0 y l' n) as (n & Hcase & Hnn & (Hok' & Hst & _ & Hu & _)).
  { destruct Hr as [(-> & Hr & Hs)|[-> Hr]]; [exists (np sz)|exists 0]; (split; [by auto|split; [lia|done]]). }
  destruct (uvm_step_other end_ root (k, m) l (upto 0) y l' (upto n) old (upto (np sz))) as (H1 & H2 & H3 & H4); try done.
  { apply Hok'. }
  pose proof (us_own _ _ _ _ _ _ _ Hst) as Hown. cbn [snd] in *.
  assert (∀ a, owned (km_ram y.2) old (upto (np sz)) a ↔ owned (km_ram m) old (upto (np sz)) a) as Hoo.
  { apply (owned_frame end_ (k, m) old l); [done|]. intros a z Ha Hz.
    eapply (step_page root (k, m) l (upto 0) y l' (upto n) a); try done; [by apply (po_pages _ _ _ _ (uo_pt _ _ _ _ _ Ho1))..|].
    apply Hdis. by left. }
  assert (∀ t, t ∉ l → ¬ owned (km_ram m) root (upto 0) t → t ∉ l' ∧ ¬ owned (km_ram y.2) root (upto n) t) as Hout.
  { intros t Ht1 Ht2. specialize (Hown t). tauto. }
  split; [apply Hst|]. exists l', n. split; [done|]. split_and!.
  - split; [|done|by apply Hout|by apply Hout]. pose proof special_pages.
    split; [done|lia| | |]; cbn [snd]; rewrite ?Hu; try done; try lia.
    intros i Hi Hni H5 H6. rewrite Hu by (done || lia). apply Hn5; done || lia.
  - split_and!; [done|done|by rewrite Hoo|by apply Hout].
  - split; [split; cbn [snd]; rewrite ?H3; try done; intros i; rewrite H3; apply Ho5|done|by apply Hout|by rewrite Hoo].
  - split_and!; [done| |].
    + intros i z Hi. by apply (H2 i).
    + intros z. by eapply (step_page root (k, m) l (upto 0) y l' (upto n) tf0).
  - intros a. rewrite Hown, owned_empty. done.
Qed.

(** A write to a page [t] outside the address space. *)
Lemma proc_mem_write k k' m r root l n tf t :
  proc_mem (k, m) root l n tf → cpu_ok (k_cpu k') → mem_ok r → page_ok end_ t → t ∉ l → ¬ owned (km_ram m) root (upto n) t →
  (∀ y, ¬ in_page t y → r y = km_ram m y) →
  let m' := over ram_of r m in
  proc_mem (k', m') root l n tf ∧ (∀ i, upte r root i = upte (km_ram m) root i) ∧
  (∀ i y, 0 ≤ i < n → in_page (upage (km_ram m) root i) y → r y = km_ram m y) ∧
  (∀ a, owned r root (upto n) a ↔ owned (km_ram m) root (upto n) a).
Proof.
  intros [[Hok Hsz Htr Htf Hrest] Hp Hl Hno] Hc Hr Ht Htl Hto Hm m'.
  pose proof (po_alloc _ _ _ _ (uo_pt _ _ _ _ _ Hok)) as Inv.
  assert (kalloc_inv end_ (k', m') l) as Inv'.
  { eapply (kalloc_inv_kern end_ k); [|done]. apply (kalloc_inv_mem end_ (k, m)); [done|done|].
    intros a y Ha Hy. apply Hm. intros Hy'. by eapply (free_page_disjoint end_ l a t); [apply Inv|..]. }
  destruct (uvm_ok_other end_ (k, m) root l (upto n) (k', m') l t Hok Inv') as (Hok' & Hk & Hu & Ho); [apply Ht|done|done| |].
  { intros a Ha. by apply (owned_page_ok end_ (k, m) root l (upto n) a). }
  cbn in Hu, Ho. split_and!; [|done| |done].
  - split; [split; cbn; rewrite ?Hu; try done; intros i; rewrite Hu; apply Hrest|done|done|by cbn; rewrite Ho].
  - intros i y Hi. by apply (Hk i).
Qed.

Lemma same_pages_unchanged m0 old m m' root n :
  same_pages m0 old m root n → (∀ i, upte m' root i = upte m root i) →
  (∀ i y, 0 ≤ i < n → in_page (upage m root i) y → m' y = m y) → same_pages m0 old m' root n.
Proof.
  intros Hs Hu Hm i Hi. destruct (Hs i Hi) as [H1 H2]. unfold upage. rewrite Hu. split; [done|]. intros o Ho.
  rewrite <- H2 by done. apply (Hm i); [done|]. unfold in_page, upage. lia.
Qed.

Lemma same_pages_source m0 m1 old m root n tf :
  unchanged m0 m1 old n tf → same_pages m1 old m root n → same_pages m0 old m root n.
Proof.
  intros (Hu & Hm & _) Hs i Hi. destruct (Hs i Hi) as [H1 H2]. rewrite H1, Hu. split; [done|]. intros o Ho. rewrite H2 by done.
  unfold upage at 1. rewrite Hu. apply (Hm i); [done|]. unfold in_page, upage. lia.
Qed.

(** The child's registers: the parent's, but for [a0], which is 0. *)
Definition child_regs (m : mem) (tf0 : Z) (m' : mem) (tf : Z) : Prop :=
  (∀ o, 0 ≤ o < TF_size → ¬ (TF_a 0 ≤ o < TF_a 0 + 8) → m' (tf + o) = m (tf0 + o)) ∧ load64 m' (tf + TF_a 0) = 0.

Definition copied_tf (m : mem) (tf0 tf : Z) : mem :=
  store64 (mwrite m tf (mread m tf0 (Z.to_nat TF_size))) (tf + TF_a 0) (u64 0).

Lemma copied_tf_out m tf0 tf y : ¬ in_page tf y → copied_tf m tf0 tf y = m y.
Proof.
  intros Hy. unfold in_page, PGSIZE in Hy. unfold copied_tf. rewrite store64_out by (unfold TF_a; lia).
  apply mwrite_out. rewrite length_mread. unfold TF_size. lia.
Qed.

Lemma copied_tf_regs m tf0 tf : child_regs m tf0 (copied_tf m tf0 tf) tf.
Proof.
  split.
  - intros o Ho Hno. unfold copied_tf. rewrite store64_out by (unfold TF_a in *; lia).
    replace (tf + o) with (tf + Z.of_nat (Z.to_nat o)) by lia. apply mwrite_in. rewrite mread_lookup by lia. do 2 f_equal. lia.
  - unfold copied_tf. rewrite load64_store64_eq. done.
Qed.

Lemma copied_tf_ok m tf0 tf : mem_ok m → mem_ok (copied_tf m tf0 tf).
Proof. intros H. apply store64_ok, mwrite_ok; [done|]. by apply mread_bytes. Qed.

Lemma fork_tf k k' m old root l n tf0 tf :
  proc_mem (k, m) old l n tf0 → proc_mem (k, m) root l n tf → apart_mem (km_ram m) old n tf0 root n tf → cpu_ok (k_cpu k') →
  let m' := over ram_of (copied_tf (km_ram m) tf0 tf) m in
  proc_mem (k', m') old l n tf0 ∧ proc_mem (k', m') root l n tf ∧ apart_mem (km_ram m') old n tf0 root n tf ∧
  unchanged (km_ram m) (km_ram m') old n tf0 ∧ child_regs (km_ram m) tf0 (km_ram m') tf ∧
  (∀ a, owned (km_ram m') root (upto n) a ↔ owned (km_ram m) root (upto n) a) ∧
  ∀ m0, same_pages m0 old (km_ram m) root n → same_pages m0 old (km_ram m') root n.
Proof.
  intros Hold Hnew (Hne & Hdis & Hd1 & Hd2) Hc m'. pose proof Hnew as [Hs Hp Hl Hno].
  pose proof (ki_mem _ _ _ (po_alloc _ _ _ _ (uo_pt _ _ _ _ _ (ps_uvm _ _ _ _ _ _ _ Hs)))) as Hmo.
  pose proof (copied_tf_ok _ tf0 tf Hmo) as Hok. pose proof (copied_tf_out (km_ram m) tf0 tf) as Hout.
  destruct (proc_mem_write k k' m _ old l n tf0 tf Hold Hc Hok Hp Hl Hd1 Hout) as (A1 & A2 & A3 & A4).
  destruct (proc_mem_write k k' m _ root l n tf tf Hnew Hc Hok Hp Hl Hno Hout) as (B1 & B2 & B3 & B4).
  split_and!; [done|done| | |apply copied_tf_regs|done|].
  - cbn. split_and!; [done| |by rewrite A4|by rewrite B4]. intros a. rewrite A4, B4. apply Hdis.
  - split_and!; [done|done|]. intros y Hy. apply Hout. intros Hy'. apply Hne.
    apply (pages_disjoint tf0 tf y); try done; [apply (pm_tf _ _ _ _ _ Hold)|apply Hp].
  - intros m0 Hsame. by eapply same_pages_unchanged.
Qed.
End ForkMem.

(** * fork

    [fork] makes a process that is the caller's twin: the same memory contents in pages of
    its own, the same registers but for the result, the same open files and directory.  The
    error paths are covered: no free entry, and no memory. *)

(** ** Open files *)

(** One more reference to a file, and to each of the files [os]. *)
Definition dup_file (fs : list file) (f : Z) : list file := aset fs f (set_fref (f_ref (aget fs f) + 1) (aget fs f)).
Definition dups (os : list (option Z)) (fs : list file) : list file :=
  foldl (λ fs o, match o with Some f => dup_file fs f | None => fs end) fs os.

Lemma dup_file_ref fs f g : f_ref (aget fs g) ≤ f_ref (aget (dup_file fs f) g) ≤ f_ref (aget fs g) + 1.
Proof.
  unfold dup_file, aget, aset. destruct (decide (Z.to_nat f = Z.to_nat g)) as [E|Hne]; [|rewrite list_lookup_total_insert_ne by done; lia].
  rewrite E. destruct (decide (Z.to_nat g < length fs)%nat) as [Hl|Hl].
  - rewrite list_lookup_total_insert_eq by done. cbn. lia.
  - rewrite list_insert_ge by lia. lia.
Qed.

Lemma dups_ref os fs g : f_ref (aget fs g) ≤ f_ref (aget (dups os fs) g) ≤ f_ref (aget fs g) + Z.of_nat (length os).
Proof.
  revert fs. induction os as [|[f|] os IH]; intros fs; cbn [dups foldl length]; [lia| |].
  - specialize (IH (dup_file fs f)). pose proof (dup_file_ref fs f g). unfold dups in IH. lia.
  - specialize (IH fs). unfold dups in IH. lia.
Qed.

Lemma dups_snoc os o fs : dups (os ++ [o]) fs = match o with Some f => dup_file (dups os fs) f | None => dups os fs end.
Proof. unfold dups. by rewrite foldl_snoc. Qed.

Section Fork.
Context {S : Type} `{BC : BufCache S}.
Implicit Types (s : sys S).
Context (end_ trampoline forkret_pc : Z).

Lemma settled_held k n q k' : cpu_ok (k_cpu k) → held k n q k' → settle (k_cpu k') = k_cpu k'.
Proof. intros Hc H. rewrite (hd_cpu _ _ _ _ H). by apply settle_push_off. Qed.

Lemma runs_filedup_held k n q k' s f Q :
  cpu_ok (k_cpu k) → held k n q k' → locked (sy_ftlock s) = 0 → 1 ≤ f_ref (aget (sy_file s) f) < 2 ^ 31 - 1 →
  (∀ lk, locked lk = 0 → Q f (k', set_ft lk (dup_file (sy_file s) f) s)) → runs (filedup f) (k', s) Q.
Proof.
  intros Hc H Hl Hr HQ. pose proof (held_cpu_ok _ _ _ _ Hc H) as Hc'. pose proof (settled_held _ _ _ _ Hc H) as Es.
  unfold filedup. kstep. apply (runs_acquire (slock ftlock)); [done|done|]. cbn. kstep. unfold get_file. kstep. cbn.
  rewrite (proj2 (Z.ltb_ge _ _)) by lia. unfold upd_file. kgo.
  apply (runs_release (slock ftlock) _ _ (settle (k_cpu k'))); cbn; [done|done|by rewrite push_off_id|by apply pop_push_off|].
  kgo. rewrite Es, i32_small by lia. destruct k' as [c' ps']. cbn. apply HQ. done.
Qed.

Lemma runs_idup_held k n q k' s c Q :
  cpu_ok (k_cpu k) → held k n q k' → locked (sy_iclock s) = 0 → 0 ≤ i_ref (aget (sy_inode s) c) < 2 ^ 31 - 1 →
  (∀ lk, locked lk = 0 →
    Q c (k', set_ic lk (aset (sy_inode s) c (set_iref (i_ref (aget (sy_inode s) c) + 1) (aget (sy_inode s) c))) s)) →
  runs (idup c) (k', s) Q.
Proof.
  intros Hc H Hl Hr HQ. pose proof (held_cpu_ok _ _ _ _ Hc H) as Hc'. pose proof (settled_held _ _ _ _ Hc H) as Es.
  unfold idup. kstep. apply (runs_acquire (slock iclock)); [done|done|]. cbn. unfold upd_inode. kgo.
  apply (runs_release (slock iclock) _ _ (settle (k_cpu k'))); cbn; [done|done|by rewrite push_off_id|by apply pop_push_off|].
  kgo. rewrite Es, i32_small by lia. destruct k' as [c' ps']. cbn. apply HQ. done.
Qed.

Lemma runs_fork_files k n q k' s i os Q :
  cpu_ok (k_cpu k) → (n < Z.to_nat NPROC)%nat → (i < Z.to_nat NPROC)%nat → i ≠ n → held k n q k' → locked (sy_ftlock s) = 0 →
  p_ofile (k_procs k !!! i) = os → length os = Z.to_nat NOFILE → p_ofile q = replicate (Z.to_nat NOFILE) None →
  (∀ f, Some f ∈ os → 1 ≤ f_ref (aget (sy_file s) f) < 2 ^ 31 - NOFILE) →
  (∀ k2 lk, locked lk = 0 → held k n (set_pofile os q) k2 → Q tt (k2, set_ft lk (dups os (sy_file s)) s)) →
  runs (fork_files i n) (k', s) Q.
Proof.
  intros Hc Hn Hi Hne H Hl Eos Hlen Hq Hrefs HQ. unfold fork_files.
  apply (runs_for_range _ (λ fd x, ∃ k2 lk, x = (k2, set_ft lk (dups (take (Z.to_nat fd) os) (sy_file s)) s) ∧ locked lk = 0 ∧
    held k n (set_pofile (take (Z.to_nat fd) os ++ replicate (Z.to_nat (NOFILE - fd)) None) q) k2)).
  - intros fd x Hfd (k2 & lk & -> & Hlk & H2). kstep. unfold the_proc. kstep. cbn [fst].
    destruct (hd_procs _ _ _ _ H2 i Hi Hne) as [_ Ep]. rewrite Ep. cbn [p_ofile set_plock]. rewrite Eos.
    destruct (lookup_lt_is_Some_2 os (Z.to_nat fd)) as [o Ho]; [unfold NOFILE in *; lia|].
    rewrite (aget_lookup _ _ _ Ho). replace (Z.to_nat (fd + 1)) with (Datatypes.S (Z.to_nat fd)) by lia.
    rewrite (take_S_r _ _ _ Ho), dups_snoc, <- app_assoc.
    replace (Z.to_nat (NOFILE - fd)) with (Datatypes.S (Z.to_nat (NOFILE - (fd + 1)))) in H2 by (unfold NOFILE in *; lia).
    cbn [replicate app] in H2 |- *. destruct o as [f|]; [|kstep; by eauto].
    assert (Some f ∈ os) as Hin by (by eapply list_elem_of_lookup_2).
    kstep. eapply runs_filedup_held; [done|exact H2|done| |].
    { specialize (Hrefs f Hin). pose proof (dups_ref (take (Z.to_nat fd) os) (sy_file s) f) as Hd. cbn. rewrite length_take in Hd. unfold NOFILE in *. lia. }
    intros lk2 Hlk2. eapply runs_upd_held; [done|exact H2|apply lock_pofile|]. intros k3 H3. eexists k3, lk2. split_and!; [done|done|].
    cbn [p_ofile set_pofile] in H3. unfold aset in H3.
    rewrite insert_app_r_alt in H3 by (rewrite length_take; lia). rewrite length_take in H3.
    replace (Z.to_nat fd - Z.to_nat fd `min` length os)%nat with 0%nat in H3 by lia. exact H3.
  - exists k', (sy_ftlock s). split_and!; [by destruct s|done|]. cbn [take app].
    replace (set_pofile _ q) with q; [done|]. rewrite Z.sub_0_r, <- Hq. by destruct q.
  - intros x (k2 & lk & -> & Hlk & H2). replace (Z.to_nat (0 + Z.of_nat (Z.to_nat NOFILE))) with (length os) in * by (rewrite Hlen; done).
    rewrite firstn_all in *. apply HQ; [done|]. by rewrite app_nil_r in H2.
Qed.

(** ** The theorem *)

(** An unused entry as [freeproc] and [exit] leave it. *)
Definition unused_ok (p : proc) : Prop := p_sz p = 0 ∧ p_ofile p = replicate (Z.to_nat NOFILE) None.

(** The caller [i] of [fork], its memory and its files; [l] are the free pages. *)
Record forkable (k : kern) s (i : nat) (pid : Z) (l : list Z) : Prop := {
  fk_running : running k i pid;
  fk_state : p_state (k_procs k !!! i) ≠ UNUSED;
  fk_unused : ∀ j, (j < Z.to_nat NPROC)%nat → p_state (k_procs k !!! j) = UNUSED → unused_ok (k_procs k !!! j);
  fk_locks : locked (sy_pidlock s) = 0 ∧ locked (sy_ftlock s) = 0 ∧ locked (sy_iclock s) = 0;
  fk_size : 0 ≤ p_sz (k_procs k !!! i) ≤ TRAPFRAME;
  fk_mem : proc_mem end_ trampoline (k, kmem s) (p_pagetable (k_procs k !!! i)) l (np (p_sz (k_procs k !!! i))) (p_tf (k_procs k !!! i));
  fk_files : length (p_ofile (k_procs k !!! i)) = Z.to_nat NOFILE ∧
    ∀ f, Some f ∈ p_ofile (k_procs k !!! i) → 1 ≤ f_ref (aget (sy_file s) f) < 2 ^ 31 - NOFILE;
  fk_cwd : ∃ c, p_cwd (k_procs k !!! i) = Some c ∧ 0 ≤ i_ref (aget (sy_inode s) c) < 2 ^ 31 - 1;
}.

(** The entry of the child of process [i], which was [q]. *)
Definition twin (pid root tf : Z) (lk : spinlock) (i : nat) (c : Z) (p q : proc) : proc :=
  set_pstate RUNNABLE (set_pname (name_copy (p_name p) (p_name q)) (set_pcwd (Some c) (set_pofile (p_ofile p)
    (set_pparent (Some i) (set_psz (p_sz p) (new_proc forkret_pc pid root tf lk q)))))).

(** [k'] is [k] with entry [n], the first unused one, now [q]. *)
Definition entered (k : kern) (n : nat) (q : proc) (k' : kern) : Prop :=
  ((n < Z.to_nat NPROC)%nat ∧ p_state (k_procs k !!! n) = UNUSED ∧ ∀ j, (j < n)%nat → p_state (k_procs k !!! j) ≠ UNUSED) ∧
  changed k n q k'.

(** [fork] succeeded. *)
Definition fork_done k s i (l : list Z) (n : nat) (k' : kern) (s' : sys S) : Prop :=
  let p := k_procs k !!! i in
  ∃ c lk root tf m l' lp lf li, p_cwd p = Some c ∧ locked lp = 0 ∧ locked lf = 0 ∧ locked li = 0 ∧
    entered k n (twin (sy_nextpid s) root tf lk i c p (k_procs k !!! n)) k' ∧
    s' = set_ic li (aset (sy_inode s) c (set_iref (i_ref (aget (sy_inode s) c) + 1) (aget (sy_inode s) c)))
           (set_ft lf (dups (p_ofile p) (sy_file s)) (with_mem m (set_pids lp (i32 (sy_nextpid s + 1)) s))) ∧
    proc_mem end_ trampoline (k', m) root l' (np (p_sz p)) tf ∧
    proc_mem end_ trampoline (k', m) (p_pagetable p) l' (np (p_sz p)) (p_tf p) ∧
    apart_mem (km_ram m) (p_pagetable p) (np (p_sz p)) (p_tf p) root (np (p_sz p)) tf ∧
    unchanged (km_ram (kmem s)) (km_ram m) (p_pagetable p) (np (p_sz p)) (p_tf p) ∧
    same_pages (km_ram (kmem s)) (p_pagetable p) (km_ram m) root (np (p_sz p)) ∧
    child_regs (km_ram (kmem s)) (p_tf p) (km_ram m) tf ∧
    (∀ a, a ∈ l ↔ owned (km_ram m) root (upto (np (p_sz p))) a ∨ a = tf ∨ a ∈ l').

(** [fork] found an entry and not enough memory; the pages of the page table it had made, of
    which [root] is one, are not free afterwards. *)
Definition fork_failed k s i (l : list Z) (n : nat) (k' : kern) (s' : sys S) : Prop :=
  let p := k_procs k !!! i in
  ∃ lk root tf m l' lp, locked lp = 0 ∧ locked lk = 0 ∧
    entered k n (set_plock lk (freed (new_proc forkret_pc (sy_nextpid s) root tf lk (k_procs k !!! n)))) k' ∧
    s' = with_mem m (set_pids lp (i32 (sy_nextpid s + 1)) s) ∧
    proc_mem end_ trampoline (k', m) (p_pagetable p) l' (np (p_sz p)) (p_tf p) ∧
    unchanged (km_ram (kmem s)) (km_ram m) (p_pagetable p) (np (p_sz p)) (p_tf p) ∧
    (∀ a, a ∈ l ↔ a ∈ l' ∨ is_table (km_ram m) root a) ∧ root ∉ l'.

Context (Htramp : 0 ≤ trampoline ∧ trampoline + PGSIZE ≤ 2 ^ 56 ∧ trampoline mod PGSIZE = 0).

(** The rest of [fork] once the memory is copied. *)
Lemma runs_fork_rest k s i pid l n k' m root tf lk lp l1 Q :
  forkable k s i pid l → (n < Z.to_nat NPROC)%nat → i ≠ n → p_state (k_procs k !!! n) = UNUSED → locked lp = 0 →
  (∀ j, (j < n)%nat → p_state (k_procs k !!! j) ≠ UNUSED) →
  let p := k_procs k !!! i in
  let q := new_proc forkret_pc (sy_nextpid s) root tf lk (k_procs k !!! n) in
  let s1 := with_mem m (set_pids lp (i32 (sy_nextpid s + 1)) s) in
  held k n q k' →
  proc_mem end_ trampoline (k', m) root l1 (np (p_sz p)) tf →
  proc_mem end_ trampoline (k', m) (p_pagetable p) l1 (np (p_sz p)) (p_tf p) →
  apart_mem (km_ram m) (p_pagetable p) (np (p_sz p)) (p_tf p) root (np (p_sz p)) tf →
  unchanged (km_ram (kmem s)) (km_ram m) (p_pagetable p) (np (p_sz p)) (p_tf p) →
  same_pages (km_ram (kmem s)) (p_pagetable p) (km_ram m) root (np (p_sz p)) →
  (∀ a, a ∈ l ↔ owned (km_ram m) root (upto (np (p_sz p))) a ∨ a = tf ∨ a ∈ l1) →
  (∀ k2 s2, fork_done k s i l n k2 s2 → Q (sy_nextpid s) (k2, s2)) →
  runs (upd_proc n (set_psz (p_sz p));;
      upd_proc n (set_pparent (Some i));;
      modify (λ x, set_ram (mwrite (ram x) (p_tf q) (mread (ram x) (p_tf p) (Z.to_nat TF_size))) x);;
      tf_set q (TF_a 0) 0;;
      fork_files i n;;
      p ← the_proc i;
      cwd ← (match p_cwd p with Some c => idup c | None => stop (Undefined "cwd") end);
      upd_proc n (set_pcwd (Some cwd));;
      upd_proc n (λ q, set_pname (name_copy (p_name p) (p_name q)) q);;
      q ← the_proc n;
      upd_proc n (set_pstate RUNNABLE);;
      release (plock n);;
      mret (p_pid q)) (k', s1) Q.
Proof.
  intros [Hrun Hst Hun (Hl1 & Hl2 & Hl3) Hsz Hmem [Hfl Hfiles] (c & Hcwd & Hcref)] Hn Hin Hu Hlp Hfirst p q s1 H Hnew Hold Hap Hunc Hsame Hpg HQ.
  pose proof Hrun as (Hk & _ & Hi & _). pose proof Hk as (Hc & _).
  kstep. hupd H. kstep. hupd H as k1. kstep. kstep. kstep. unfold tf_set. kstep.
  pose proof (held_cpu_ok _ _ _ _ Hc H) as Hc1.
  destruct (fork_tf end_ trampoline k' k1 m (p_pagetable p) root l1 (np (p_sz p)) (p_tf p) tf Hold Hnew Hap Hc1)
    as (A1 & A2 & A3 & A4 & A5 & A6 & A7).
  set (m' := over ram_of (copied_tf (km_ram m) (p_tf p) tf) m) in *.
  match goal with |- runs _ ?y _ => change y with (k1, with_mem m' s1) end.
  kstep. eapply (runs_fork_files k n _ k1 _ i (p_ofile p)); [done|done|done|done|exact H|done|done|done| |done|].
  { destruct (Hun n Hn Hu) as [_ E]. exact E. }
  intros k2 lf Hlf H2. kstep. unfold the_proc at 1. kstep. cbn [fst].
  destruct (hd_procs _ _ _ _ H2 i Hi Hin) as [_ Ep]. rewrite Ep. cbn [p_cwd p_name set_plock]. rewrite Hcwd.
  kstep. eapply (runs_idup_held k n); [done|exact H2|done|done|]. intros li Hli.
  kstep. hupd H2. kstep. hupd H2. kstep. unfold the_proc. kstep. cbn [fst]. rewrite (hd_self _ _ _ _ H2).
  kstep. hupd H2 as k5. kstep. eapply (runs_release_last k n _ k5); [done|done|exact H2|].
  intros k6 lk6 Hlk6 H6. pose proof (ch_ok _ _ _ _ H6) as Hk6. kstep. apply HQ.
  exists c, lk6, root, tf, m', l1, lp, lf, li. split_and!; try done.
  - eapply proc_mem_kern; [exact A2|apply Hk6].
  - eapply proc_mem_kern; [exact A1|apply Hk6].
  - by eapply unchanged_trans.
  - by apply A7.
  - destruct Hunc as (_ & _ & Htf). destruct A5 as [R1 R2]. split; [|done]. intros o Ho Hno. rewrite R1 by done. apply Htf.
    fold p. unfold in_page, TF_size, PGSIZE in *. lia.
  - intros a. fold p. by rewrite A6.
Qed.

(** A failed copy: the new entry is given up. *)
Lemma runs_fork_undo k s i pid l n k' m root tf lk lp l1 Q :
  forkable k s i pid l → (n < Z.to_nat NPROC)%nat → i ≠ n → p_state (k_procs k !!! n) = UNUSED → locked lp = 0 →
  (∀ j, (j < n)%nat → p_state (k_procs k !!! j) ≠ UNUSED) →
  let p := k_procs k !!! i in
  held k n (new_proc forkret_pc (sy_nextpid s) root tf lk (k_procs k !!! n)) k' →
  proc_mem end_ trampoline (k', m) root l1 0 tf →
  proc_mem end_ trampoline (k', m) (p_pagetable p) l1 (np (p_sz p)) (p_tf p) →
  apart_mem (km_ram m) (p_pagetable p) (np (p_sz p)) (p_tf p) root 0 tf →
  unchanged (km_ram (kmem s)) (km_ram m) (p_pagetable p) (np (p_sz p)) (p_tf p) →
  (∀ a, a ∈ l ↔ is_table (km_ram m) root a ∨ a = tf ∨ a ∈ l1) →
  (∀ k2 s2, fork_failed k s i l n k2 s2 → Q (-1) (k2, s2)) →
  runs (freeproc end_ n;; release (plock n);; mret (-1)) (k', with_mem m (set_pids lp (i32 (sy_nextpid s + 1)) s)) Q.
Proof.
  intros [Hrun Hst Hun (Hl1 & Hl2 & Hl3) Hsz Hmem _ _] Hn Hin Hu Hlp Hfirst p H Hnew Hold (Hne & Hdis & Hd1 & Hd2) Hunc Hpg HQ.
  pose proof Hrun as (Hk & _ & Hi & _). pose proof Hk as (Hc & _). destruct (Hun n Hn Hu) as [Esz _].
  pose proof Hnew as [Hs Htf Htfl Htfo]. set (s1 := with_mem m _).
  assert (0 < tf ∧ tf + PGSIZE ≤ 2 ^ 56) as [Htf1 Htf2].
  { pose proof (page_ok_pos end_ tf (ki_end _ _ _ (po_alloc _ _ _ _ (uo_pt _ _ _ _ _ (ps_uvm _ _ _ _ _ _ _ Hs)))) Htf).
    destruct Htf as (_ & _ & ?). unfold PHYSTOP, KERNBASE, PGSIZE in *. lia. }
  kstep. eapply (runs_freeproc_with end_ trampoline k n _ k' s1 l1 0
    (λ m1 y, kalloc_inv end_ y (tf :: l1) ∧ (∀ a, is_table (km_ram y.2) root a ↔ is_table (km_ram m1) root a) ∧
       ∀ z, (∀ a, is_table (km_ram m1) root a → ¬ in_page a z) → km_ram y.2 z = km_ram m1 z));
    [done|done|exact H|exact Hs|exact Htf|exact Htfl|exact Htfo| |].
  { intros x Hx. cbn [p_sz p_pagetable p_tf new_proc set_pcontext set_ppagetable set_ptf set_ppid set_plock] in *. rewrite Esz.
    kapply (runs_free_pt_leak end_ trampoline Htramp x root (tf :: l1) tf Hx); [lia|lia|].
    intros _ y (E1 & E2 & E3 & E4). split; [by rewrite E1|]. split_and!; [apply E2|done|done]. }
  intros k1 k2 m1 m2 Hc1 M1 Ho1 (Inv2 & T2 & M2) H2. cbn [p_pagetable p_tf new_proc set_pcontext set_ppagetable set_ptf set_ppid set_plock] in *.
  change (kmem s1) with m in *.
  assert (∀ a, is_table (km_ram m1) root a ↔ is_table (km_ram m) root a) as Ht by (intros a; specialize (Ho1 a); by rewrite !owned_empty in Ho1).
  kstep. eapply (runs_release_last k n _ k2); [done|done|exact H2|]. intros k3 lk3 Hlk3 H3.
  pose proof (ch_ok _ _ _ _ H3) as Hk3. kstep. apply HQ.
  pose proof (uo_pt _ _ _ _ _ (ps_uvm _ _ _ _ _ _ _ Hs)) as Hpt.
  assert (∀ a, owned (km_ram m) (p_pagetable p) (upto (np (p_sz p))) a ∨ a = p_tf p →
    page_ok end_ a ∧ a ∉ l1 ∧ a ≠ tf ∧ ¬ is_table (km_ram m) root a) as Hpar.
  { intros a [Ha| ->].
    - destruct (owned_page_ok end_ (k', m) _ l1 _ a (ps_uvm _ _ _ _ _ _ _ (pm_space _ _ _ _ _ _ _ Hold)) Ha) as [? ?].
      split; [done|]. split; [done|]. split; [by intros ->|]. intros Htb. apply (Hdis a Ha). by left.
    - split; [exact (pm_tf _ _ _ _ _ _ _ Hold)|]. split; [exact (pm_tf_used _ _ _ _ _ _ _ Hold)|]. split; [done|]. intros Htb. apply Hd2. by left. }
  destruct (proc_mem_frame end_ trampoline k' k3 m m2 (p_pagetable p) l1 (tf :: l1) (np (p_sz p)) (p_tf p) Hold) as (Hold2 & Hunc2 & _).
  { eapply kalloc_inv_kern; [exact Inv2|apply Hk3]. }
  { intros a Ha. destruct (Hpar a Ha) as (G1 & G2 & G3 & G4). split; [by rewrite not_elem_of_cons|].
    intros y Hy. rewrite M2, M1; [done| |].
    - intros Hy'. apply G3. apply (pages_disjoint a tf y); try done; [apply G1|apply Htf].
    - intros b Hb%Ht Hy'. apply G4. replace a with b; [done|].
      apply (pages_disjoint b a y); try done; [by apply (po_pages _ _ _ _ Hpt)|apply G1]. }
  exists lk3, root, tf, m2, (tf :: l1), lp. split_and!; try done.
  - by eapply unchanged_trans.
  - intros a. rewrite Hpg, elem_of_cons, T2, Ht. tauto.
  - rewrite not_elem_of_cons. assert (is_table (km_ram m) root root) as Hr by (exists []; split; [apply path_nil|done]).
    split; [intros ->; apply Htfo; by left|by apply (po_pages _ _ _ _ Hpt)].
Qed.

(** Settling the interrupt nesting changes nothing of this. *)
Lemma forkable_settle k s i pid l : forkable k s i pid l → forkable (set_kcpu (settle (k_cpu k)) k) s i pid l.
Proof.
  intros [((Hc & Hl & Hf) & Hcur & Hi & Hp) H2 H3 H4 H5 H6 H7 H8]. split; try done.
  - split_and!; [split_and!; [by apply settle_ok|done|done]|by cbn; rewrite settle_proc|done|done].
  - eapply proc_mem_kern; [exact H6|]. by apply settle_ok.
Qed.

Lemma entered_settle k n q k' : entered (set_kcpu (settle (k_cpu k)) k) n q k' → entered k n q k'.
Proof. intros [H1 H2]. split; [done|]. by apply changed_settle. Qed.

(** [fork] after [myproc]. *)
Lemma runs_fork_from k s i pid l :
  forkable k s i pid l → (9 ≤ length l)%nat →
  runs (r ← allocproc trampoline forkret_pc;
    match r with
    | None => mret (-1)
    | Some np =>
        p ← the_proc i;
        q ← the_proc np;
        r ← zoom mem_of (uvmcopy end_ (p_pagetable p) (p_pagetable q) (p_sz p));
        if r <? 0 then freeproc end_ np;; release (plock np);; mret (-1) else
        upd_proc np (set_psz (p_sz p));;
        upd_proc np (set_pparent (Some i));;
        modify (λ x, set_ram (mwrite (ram x) (p_tf q) (mread (ram x) (p_tf p) (Z.to_nat TF_size))) x);;
        tf_set q (TF_a 0) 0;;
        fork_files i np;;
        p ← the_proc i;
        cwd ← (match p_cwd p with Some c => idup c | None => stop (Undefined "cwd") end);
        upd_proc np (set_pcwd (Some cwd));;
        upd_proc np (λ q, set_pname (name_copy (p_name p) (p_name q)) q);;
        q ← the_proc np;
        upd_proc np (set_pstate RUNNABLE);;
        release (plock np);;
        mret (p_pid q)
    end) (k, s) (λ r x',
    (r = -1 ∧ x'.2 = s ∧ kern_eq k x'.1 ∧ ∀ j, (j < Z.to_nat NPROC)%nat → p_state (k_procs k !!! j) ≠ UNUSED) ∨
    (r = sy_nextpid s ∧ ∃ n, fork_done k s i l n x'.1 x'.2) ∨
    (r = -1 ∧ ∃ n, fork_failed k s i l n x'.1 x'.2)).
Proof.
  intros Hf Hlen. pose proof Hf as [Hrun Hst Hun (Hl1 & Hl2 & Hl3) Hsz Hmem _ _]. pose proof Hrun as (Hk & Hcur & Hi & _).
  pose proof Hk as (Hc & _). pose proof (pm_space _ _ _ _ _ _ _ Hmem) as [Huo _ _ _ _]. kstep.
  apply (runs_allocproc end_ trampoline forkret_pc Htramp k s l); [done|done|apply (uo_pt _ _ _ _ _ Huo)|lia|..].
  { intros k' Heq Hno. kstep. left. done. }
  intros n lk lp k' m root tf l1 Hn Hu Hfirst H Hlp Hnm. assert (i ≠ n) as Hin by congruence. set (p := k_procs k !!! i) in *.
  kstep. unfold the_proc at 1. kstep. cbn [fst]. destruct (hd_procs _ _ _ _ H i Hi Hin) as [_ Ep]. rewrite Ep.
  kstep. unfold the_proc at 1. kstep. cbn [fst]. rewrite (hd_self _ _ _ _ H).
  set (q := new_proc forkret_pc (sy_nextpid s) root tf lk (k_procs k !!! n)) in *. cbn [p_pagetable p_sz p_tf set_plock].
  change (p_pagetable q) with root. fold p.
  destruct (fork_child end_ trampoline k k' (kmem s) m (p_pagetable p) l (np (p_sz p)) (p_tf p) root tf l1 Hnm Hmem) as (N1 & N2 & N3 & N4).
  pose proof (nm_len _ _ _ _ _ _ _ _ _ Hnm) as Hl'. pose proof (nm_pages _ _ _ _ _ _ _ _ _ Hnm) as Hpg.
  set (s1 := with_mem m (set_pids lp (i32 (sy_nextpid s + 1)) s)).
  kstep. eapply (runs_mem_held k n q k' s1 (uvmcopy end_ (p_pagetable p) root (p_sz p)));
    [done|exact H|apply (runs_fork_copy end_ trampoline k' m _ root l1 _ (p_tf p) tf Hsz); [lia|exact N1|exact N3|exact N4]|].
  intros r m2 (l2 & n2 & Hcase & P1 & P2 & P3 & P4 & P5). cbn [snd] in *.
  pose proof (unchanged_trans _ _ _ _ _ _ N2 P4) as Hunc.
  destruct Hcase as [(-> & -> & Hsame)|[-> ->]]; [change (0 <? 0) with false|change (-1 <? 0) with true]; kif.
  - eapply (runs_fork_rest k s i pid l n k' m2 root tf lk lp l2); try done.
    + exact (same_pages_source _ _ _ _ _ _ _ N2 Hsame).
    + intros a. fold p. rewrite <- Hpg. specialize (P5 a). tauto.
    + intros k2 s2 Hd. right. left. split; [done|]. by exists n.
  - eapply (runs_fork_undo k s i pid l n k' m2 root tf lk lp l2); try done.
    + intros a. rewrite <- Hpg. specialize (P5 a). rewrite owned_empty in P5. tauto.
    + intros k2 s2 Hd. right. right. split; [done|]. by exists n.
Qed.

Lemma runs_fork k s i pid l :
  forkable k s i pid l → (9 ≤ length l)%nat →
  runs (fork end_ trampoline forkret_pc) (k, s) (λ r x',
    (r = -1 ∧ x'.2 = s ∧ kern_eq k x'.1 ∧ ∀ j, (j < Z.to_nat NPROC)%nat → p_state (k_procs k !!! j) ≠ UNUSED) ∨
    (r = sy_nextpid s ∧ ∃ n, fork_done k s i l n x'.1 x'.2) ∨
    (r = -1 ∧ ∃ n, fork_failed k s i l n x'.1 x'.2)).
Proof.
  intros Hf Hlen. pose proof (fk_running _ _ _ _ _ Hf) as (Hk & Hcur & Hi & _). pose proof Hk as (Hc & _).
  unfold fork. kstep. apply (runs_curproc k s i); [done|done|].
  kapply (runs_fork_from (set_kcpu (settle (k_cpu k)) k) s i pid l); [by apply forkable_settle|done|].
  intros r [k' s'] [(-> & E & Heq & Hno)|[(-> & n & Hd)|(-> & n & Hd)]]; cbn [fst snd] in *.
  - left. split_and!; try done. by apply kern_eq_settle.
  - right. left. split; [done|]. exists n. destruct Hd as (c & lk & root & tf & m & l' & lp & lf & li & G1 & G2 & G3 & G4 & G5 & G).
    exists c, lk, root, tf, m, l', lp, lf, li. refine (conj G1 (conj G2 (conj G3 (conj G4 (conj _ G))))). by apply entered_settle.
  - right. right. split; [done|]. exists n. destruct Hd as (lk & root & tf & m & l' & lp & G1 & G2 & G3 & G).
    exists lk, root, tf, m, l', lp. refine (conj G1 (conj G2 (conj _ G))). by apply entered_settle.
Qed.


(** The pages of an address space are as many as its size says. *)
Lemma owned_count x root l n l0 :
  uvm_ok end_ x root l (upto n) → (∀ a, owned (km_ram x.2) root (upto n) a → a ∈ l0) → n ≤ Z.of_nat (length l0).
Proof.
  intros Hok Hin. destruct (decide (n ≤ 0)) as [|Hn]; [lia|].
  set (pages := (λ i : nat, upage (km_ram x.2) root (Z.of_nat i)) <$> seq 0 (Z.to_nat n)).
  assert (length pages ≤ length l0)%nat as H; [|unfold pages in H; rewrite length_fmap, length_seq in H; lia].
  apply submseteq_length, NoDup_submseteq.
  - apply NoDup_fmap_2_strong; [|apply NoDup_seq]. intros i j Hi Hj E. rewrite elem_of_seq in Hi, Hj.
    apply Nat2Z.inj, (uo_inj _ _ _ _ _ Hok); [unfold upto; lia..|done].
  - intros a (i & -> & Hi)%list_elem_of_fmap. rewrite elem_of_seq in Hi. apply Hin. right. exists (Z.of_nat i).
    split; [unfold upto; lia|done].
Qed.

(** [fork] of a process with more pages than are free, while an entry of the table is unused,
    returns -1 and leaks: the pages of the page table it made for the child, the root at
    least, are neither free nor any process's afterwards.  [proc_freepagetable] frees a page table only when
    the size is not 0, and [fork] sets the child's size after the copy. *)
Theorem fork_leaks k s i pid l :
  forkable k s i pid l → (9 ≤ length l)%nat → Z.of_nat (length l) < np (p_sz (k_procs k !!! i)) →
  (∃ j, (j < Z.to_nat NPROC)%nat ∧ p_state (k_procs k !!! j) = UNUSED) →
  runs (fork end_ trampoline forkret_pc) (k, s) (λ r x', r = -1 ∧ ∃ n, fork_failed k s i l n x'.1 x'.2).
Proof.
  intros Hf Hlen Hfew (j & Hj & Hu). kapply (runs_fork k s i pid l Hf Hlen). intros r x' [(_ & _ & _ & Hno)|[(_ & n & Hd)|H]]; [|exfalso|done].
  - by destruct (Hno j Hj).
  - destruct Hd as (c & lk & root & tf & m & l' & lp & lf & li & _ & _ & _ & _ & _ & _ & Hm & _ & _ & _ & _ & _ & Hpg).
    pose proof (owned_count _ _ _ _ l (ps_uvm _ _ _ _ _ _ _ (pm_space _ _ _ _ _ _ _ Hm))) as Hc. cbn [snd] in Hc.
    enough (np (p_sz (k_procs k !!! i)) ≤ Z.of_nat (length l)) by lia. apply Hc. intros a Ha. apply Hpg. by left.
Qed.
End Fork.
