(* ===== verification/Wait.v ===== *)
(** * Reaping children

    [wait] of kernel/proc.c: the first child that has exited gives its status to the
    caller and its entry and memory back to the kernel. *)

From S2P Require Import Prelude Memory Riscv Spinlock Core CString Kalloc Vm PageTable VmProof Uvm UvmOps UserCopy VmFree Sleeplock BufCache Log Sys Fs Console File Proc ProcMem ProcProof Fork.

(** ** Memory *)

Section WaitMem.
Context (end_ trampoline : Z).
Abbreviation proc_mem := (proc_mem end_ trampoline).

Lemma has_U_flags e : has e PTE_U = Z.testbit (PTE_FLAGS e) 4.
Proof. unfold PTE_U, PTE_FLAGS. rewrite has_testbit, Z.land_spec by lia. by rewrite andb_true_r. Qed.

(** The user may access the process's own pages only. *)
Lemma uacc_user k m root l n tf va :
  0 ≤ trampoline ∧ trampoline + PGSIZE ≤ 2 ^ 56 → proc_mem (k, m) root l n tf → uacc (km_ram m) root va → upto n (va / PGSIZE).
Proof.
  intros Htr [[Hok Hsz Htp Htf Hrest] Hp _ _] (Hva & Hv & HU). set (i := va / PGSIZE) in *. unfold upto.
  assert (vpage i) as Hvp by (unfold vpage, i; change MAXVA with (2 ^ 38) in *; unfold PGSIZE; dlia).
  destruct (decide (i < n)) as [|Hn]; [destruct Hvp; lia|]. exfalso.
  pose proof (page_ok_pos end_ tf (ki_end _ _ _ (po_alloc _ _ _ _ (uo_pt _ _ _ _ _ Hok))) Hp).
  destruct Hp as (_ & _ & Hph). unfold PHYSTOP, KERNBASE, PGSIZE in *. cbn [snd] in *. rewrite has_U_flags in HU.
  destruct (decide (i = tramp_page)) as [->|H1]; [|destruct (decide (i = tf_page)) as [->|H2]].
  - by rewrite Htp, flags_new in HU by (unfold PGSIZE; lia || done).
  - by rewrite Htf, flags_new in HU by (unfold PGSIZE; lia || done).
  - by rewrite Hrest in HU by (done || lia).
Qed.

Lemma written_ok root m r dst bs : mem_ok m → Forall is_byte bs → written root m r dst bs → mem_ok r.
Proof.
  intros Hm Hb [Hin Hout] y. destruct (decide (Exists (λ i, y = upa m root (dst + Z.of_nat i)) (seq 0 (length bs)))) as [He|Hn].
  - apply Exists_exists in He as (i & Hi%elem_of_seq & ->). destruct (lookup_lt_is_Some_2 bs i) as [b Hb']; [lia|].
    rewrite (Hin i b Hb'). by eapply (Forall_lookup_1 _ bs).
  - rewrite Hout; [apply Hm|]. intros i Hi ->. apply Hn, Exists_exists. exists i. split; [apply elem_of_seq; lia|done].
Qed.

(** Bytes written to user addresses of the process [root] disturb neither it nor another
    process. *)
Lemma proc_mem_written k m r root l n tf root' n' tf' dst bs :
  0 ≤ trampoline ∧ trampoline + PGSIZE ≤ 2 ^ 56 → proc_mem (k, m) root l n tf → proc_mem (k, m) root' l n' tf' →
  apart_mem (km_ram m) root n tf root' n' tf' → Forall is_byte bs →
  (∀ j, (j < length bs)%nat → uacc (km_ram m) root (dst + Z.of_nat j)) → written root (km_ram m) r dst bs →
  let m' := over ram_of r m in
  proc_mem (k, m') root l n tf ∧ proc_mem (k, m') root' l n' tf' ∧ apart_mem r root n tf root' n' tf' ∧
  (∀ a, owned r root' (upto n') a ↔ owned (km_ram m) root' (upto n') a).
Proof.
  intros Htr H H' (Hne & Hdis & Hd1 & Hd2) Hb Hacc Hw m'. pose proof H as [[Hok _ _ _ _] Hp Hpl Hno].
  pose proof (uo_pt _ _ _ _ _ Hok) as Hpt. pose proof (po_alloc _ _ _ _ Hpt) as Inv.
  assert (∀ y, (∀ i, 0 ≤ i < n → ¬ in_page (upage (km_ram m) root i) y) → r y = km_ram m y) as Hout.
  { intros y Hy. apply (proj2 Hw). intros j Hj ->. eapply Hy; [|apply upa_in_page].
    exact (uacc_user k m root l n tf _ Htr H (Hacc j Hj)). }
  assert (∀ a y, page_ok end_ a → (∀ i, 0 ≤ i < n → a ≠ upage (km_ram m) root i) → in_page a y → r y = km_ram m y) as Hpage.
  { intros a y Ha Hna Hy. apply Hout. intros i Hi Hy'. apply (Hna i Hi). apply (pages_disjoint _ _ y); try done; [apply Ha|].
    by apply (uo_page _ _ _ _ _ Hok). }
  assert (kalloc_inv end_ (k, m') l) as Inv'.
  { apply (kalloc_inv_mem end_ (k, m)); [done|by eapply written_ok; [apply Inv|..]|]. intros a y Ha. cbn. apply Hpage.
    - pose proof (ki_pages _ _ _ Inv) as Hpg. rewrite Forall_forall in Hpg. by apply Hpg.
    - intros i Hi ->. by apply (uo_used _ _ _ _ _ Hok i). }
  destruct (proc_mem_tables end_ trampoline k k m m' root l l n tf H Inv') as (A1 & A2 & A3).
  { intros a [Ha| ->]; [|done]. by apply (owned_page_ok end_ (k, m) root l (upto n) a). }
  { intros a y Ha. cbn. apply Hpage; [by apply (po_pages _ _ _ _ Hpt)|]. intros i Hi ->. by apply (uo_notab _ _ _ _ _ Hok i). }
  destruct (proc_mem_frame end_ trampoline k k m m' root' l l n' tf' H' Inv') as (B1 & B2 & B3).
  { pose proof H' as [[Hok' _ _ _ _] Hp' Hpl' Hno']. intros a [Ha| ->].
    - destruct (owned_page_ok end_ (k, m) root' l (upto n') a Hok' Ha) as [Ha1 Ha2]. split; [done|]. intros y. cbn. apply Hpage; [done|].
      intros i Hi ->. apply (Hdis (upage (km_ram m) root i)); [|done]. right. by exists i.
    - split; [done|]. intros y. cbn. apply Hpage; [done|]. intros i Hi ->. apply Hd1. right. by exists i. }
  split_and!; [done|done| |done]. cbn in A3, B3. split_and!; [done| |by rewrite A3|by rewrite B3].
  intros a. rewrite A3, B3. apply Hdis.
Qed.
End WaitMem.

(** ** Two locks

    While the caller's lock is held the locks of its children are taken and released. *)

Definition put (n : nat) (r : proc) (k : kern) : kern := set_kprocs (<[n := r]> (k_procs k)) k.

Lemma held_put k i p k2 n r k6 :
  cpu_ok (k_cpu k) → (i < Z.to_nat NPROC)%nat → i ≠ n → (n < length (k_procs k))%nat → held k i p k2 →
  k_cpu k6 = settle (k_cpu k2) → length (k_procs k6) = Z.to_nat NPROC → k_procs k6 !!! n = r →
  (∀ j, (j < Z.to_nat NPROC)%nat → j ≠ n → like (k_procs k2 !!! j) (k_procs k6 !!! j)) → held (put n r k) i p k6.
Proof.
  intros Hc Hi Hin Hn [H1 H2 H3 H4 H5 H6] Ec Hlen Hr Hoth. destruct (Hoth i Hi Hin) as [[_ Hl] _].
  split; cbn; [rewrite Ec, H1; by apply settle_push_off|done|by rewrite Hl; [|rewrite H3]|done|done|].
  intros j Hj Hji. destruct (decide (j = n)) as [->|Hjn].
  - rewrite list_lookup_total_insert_eq, Hr by done. apply like_refl.
  - rewrite list_lookup_total_insert_ne by done. by eapply like_trans; [apply H6|apply Hoth].
Qed.

Lemma held_put_like k i p n r k6 :
  held (put n r k) i p k6 → like (k_procs k !!! n) r → (n < length (k_procs k))%nat → held k i p k6.
Proof.
  intros [H1 H2 H3 H4 H5 H6] Hl Hn. split; try done. intros j Hj Hji. specialize (H6 j Hj Hji). cbn in H6.
  destruct (decide (j = n)) as [->|Hjn].
  - rewrite list_lookup_total_insert_eq in H6 by done. by eapply like_trans.
  - by rewrite list_lookup_total_insert_ne in H6.
Qed.

Lemma put_ok n r k : kern_ok k → locked (p_lock r) = 0 → kern_ok (put n r k).
Proof.
  intros (Hc & Hlen & Hf) Hl. split_and!; [done|by cbn; rewrite length_insert|]. intros j. cbn.
  destruct (decide (j = n ∧ (n < length (k_procs k))%nat)) as [[-> Hn]|Hjn].
  - by rewrite list_lookup_total_insert_eq.
  - destruct (decide (j = n)) as [->|]; [|by rewrite list_lookup_total_insert_ne]. rewrite list_insert_ge by lia. apply Hf.
Qed.

(** The caller's lock was the last: the child's entry is now [r], nothing else has changed. *)
Lemma changed_put k i p l n r k' :
  changed (put n r k) i (set_plock l p) k' → (i < Z.to_nat NPROC)%nat → i ≠ n → (n < Z.to_nat NPROC)%nat → length (k_procs k) = Z.to_nat NPROC →
  like (k_procs k !!! i) (set_plock l p) → locked (p_lock r) = 0 →
  ∃ lk, locked lk = 0 ∧ changed k n (set_plock lk r) k'.
Proof.
  intros [H1 H2 H3 H4] Hi Hin Hn Hlen Hl Hr. cbn in H2, H4.
  destruct (H4 n Hn) as [[Hf _] E]; [done|]. rewrite list_lookup_total_insert_eq in Hf, E by lia.
  exists (p_lock (k_procs k' !!! n)). split; [by apply Hf|]. split; [done|done|done|]. intros j Hj Hjn.
  destruct (decide (j = i)) as [->|Hji]; [by rewrite H3|]. specialize (H4 j Hj Hji).
  by rewrite list_lookup_total_insert_ne in H4.
Qed.

Lemma changed_like k n q k' : changed k n q k' → like (k_procs k !!! n) q → kern_eq k k'.
Proof.
  intros [H1 H2 H3 H4] Hl. split; [done|done|]. intros j Hj. destruct (decide (j = n)) as [->|]; [by rewrite H3|by apply H4].
Qed.

(** ** The whole of it *)

Section Wait.
Context {S : Type} `{BC : BufCache S}.
Implicit Types (s : sys S).
Context (end_ trampoline : Z).
Context (Htramp : 0 ≤ trampoline ∧ trampoline + PGSIZE ≤ 2 ^ 56 ∧ trampoline mod PGSIZE = 0).
Abbreviation proc_mem := (proc_mem end_ trampoline).

(** [freeproc] gives all pages of the process back; another process keeps its memory. *)
Lemma runs_freeproc k n q k' s l root0 n0 tf0 Q :
  cpu_ok (k_cpu k) → (n < Z.to_nat NPROC)%nat → held k n q k' → 0 < p_sz q ≤ TRAPFRAME →
  proc_mem (k', kmem s) (p_pagetable q) l (np (p_sz q)) (p_tf q) → proc_mem (k', kmem s) root0 l n0 tf0 →
  apart_mem (km_ram (kmem s)) root0 n0 tf0 (p_pagetable q) (np (p_sz q)) (p_tf q) →
  (∀ k2 m l', held k n (freed q) k2 → proc_mem (k2, m) root0 l' n0 tf0 →
    unchanged (km_ram (kmem s)) (km_ram m) root0 n0 tf0 →
    (∀ a, a ∈ l' ↔ a ∈ l ∨ owned (km_ram (kmem s)) (p_pagetable q) (upto (np (p_sz q))) a ∨ a = p_tf q) → Q tt (k2, with_mem m s)) →
  runs (freeproc end_ n) (k', s) Q.
Proof.
  intros Hc Hn H Hsz [Hs Htf Htfl Htfo] H0 (Hne & Hdis & Hd1 & Hd2) HQ. set (root := p_pagetable q) in *. set (tf := p_tf q) in *.
  pose proof (page_ok_pos end_ tf (ki_end _ _ _ (po_alloc _ _ _ _ (uo_pt _ _ _ _ _ (ps_uvm _ _ _ _ _ _ _ Hs)))) Htf) as Hpos.
  assert (tf + PGSIZE ≤ 2 ^ 56) as Htf2 by (destruct Htf as (_ & _ & ?); unfold PHYSTOP, KERNBASE, PGSIZE in *; lia).
  eapply (runs_freeproc_with end_ trampoline k n q k' s l (np (p_sz q))
    (λ m1 y, ∃ l', kalloc_inv end_ y l' ∧ (∀ a, a ∈ l' ↔ a ∈ tf :: l ∨ owned (km_ram m1) root (upto (np (p_sz q))) a) ∧
       ∀ z, (∀ a, in_page a z → ¬ owned (km_ram m1) root (upto (np (p_sz q))) a ∧ a ∉ tf :: l) → km_ram y.2 z = km_ram m1 z));
    [done|done|exact H|exact Hs|exact Htf|exact Htfl|exact Htfo| |].
  { intros x Hx. kapply (runs_free_pt end_ trampoline Htramp x root (tf :: l) (p_sz q) tf Hx Hsz); [lia|done|].
    intros _ y (l' & E1 & E2 & E3 & E4). split; [done|]. by exists l'. }
  intros k1 k2 m1 m2 Hc1 M1 Ho1 (l' & Inv & Hl' & M2) H2.
  assert (∀ a, a ∈ l' ↔ a ∈ l ∨ owned (km_ram (kmem s)) root (upto (np (p_sz q))) a ∨ a = tf) as Hpg.
  { intros a. specialize (Ho1 a). fold root in Ho1. rewrite Hl', elem_of_cons, Ho1. tauto. }
  assert (∀ a, a ∈ l' → page_ok end_ a) as Hpk by (pose proof (ki_pages _ _ _ Inv) as F; by rewrite Forall_forall in F).
  pose proof (pm_space _ _ _ _ _ _ _ H0) as Hs0.
  destruct (proc_mem_frame end_ trampoline k' k2 (kmem s) m2 root0 l l' n0 tf0 H0) as (A1 & A2 & _).
  { eapply kalloc_inv_kern; [exact Inv|exact (held_cpu_ok _ _ _ _ Hc H2)]. }
  { intros a Ha. assert (page_ok end_ a ∧ a ∉ l') as [Hap Hal].
    { rewrite Hpg. destruct Ha as [Ha| ->].
      - destruct (owned_page_ok end_ (k', kmem s) root0 l (upto n0) a (ps_uvm _ _ _ _ _ _ _ Hs0) Ha). split; [done|].
        intros [?|[Ho|E]]; [done|by apply (Hdis a Ha)|subst a; done].
      - split; [exact (pm_tf _ _ _ _ _ _ _ H0)|]. intros [Hl|[Ho|E]]; [by apply (pm_tf_used _ _ _ _ _ _ _ H0)|done|done]. }
    assert (∀ b y, b ∈ l' → in_page a y → ¬ in_page b y) as Hd.
    { intros b y Hb Hy Hy'. apply Hal. replace a with b; [done|]. apply (pages_disjoint b a y); try done; [by apply Hpk|apply Hap]. }
    split; [done|]. intros y Hy. rewrite M2, M1; [done| |].
    - intros Hy'. apply (Hd tf y); [apply Hpg; auto|done|done].
    - intros b Hb. split; intros Hin; (eapply (Hd b y); [apply Hl'; auto|done|done]). }
  by apply (HQ k2 m2 l').
Qed.

(** The caller [i] of [wait] and its children that have exited; [l] are the free pages. *)
Definition zombie (k : kern) (i j : nat) : Prop :=
  p_parent (k_procs k !!! j) = Some i ∧ p_state (k_procs k !!! j) = ZOMBIE.

Definition mem_of_proc (k : kern) s l (p : proc) : Prop :=
  proc_mem (k, kmem s) (p_pagetable p) l (np (p_sz p)) (p_tf p).

Definition apart_procs s (p q : proc) : Prop :=
  apart_mem (km_ram (kmem s)) (p_pagetable p) (np (p_sz p)) (p_tf p) (p_pagetable q) (np (p_sz q)) (p_tf q).

Record waitable (k : kern) s (i : nat) (pid : Z) (l : list Z) : Prop := {
  wt_running : running k i pid;
  wt_noff : c_noff (k_cpu k) = 0;
  wt_parent : p_parent (k_procs k !!! i) ≠ Some i;
  wt_mem : mem_of_proc k s l (k_procs k !!! i);
  wt_kids : ∀ j, (j < Z.to_nat NPROC)%nat → zombie k i j → 0 < p_sz (k_procs k !!! j) ≤ TRAPFRAME ∧
    mem_of_proc k s l (k_procs k !!! j) ∧ apart_procs s (k_procs k !!! i) (k_procs k !!! j);
}.

(** The exit status [st] is at the user address [addr], unless that is 0. *)
Definition status_out (m : mem) (root addr st : Z) (m' : mem) : Prop :=
  if decide (addr = 0) then m' = m
  else (∀ j, (j < 4)%nat → uacc m root (addr + Z.of_nat j)) ∧ written root m m' addr (le_enc 4 st).

(** Child [n] has been reaped: its entry is unused, all its pages are free, the caller has
    its status. *)
Definition reaped k s i (l : list Z) (addr : Z) (n : nat) (k' : kern) (s' : sys S) : Prop :=
  let p := k_procs k !!! i in let q := k_procs k !!! n in
  ∃ lk m1 m l', locked lk = 0 ∧ changed k n (set_plock lk (freed q)) k' ∧ s' = with_mem m s ∧
    status_out (km_ram (kmem s)) (p_pagetable p) addr (p_xstate q) m1 ∧
    unchanged m1 (km_ram m) (p_pagetable p) (np (p_sz p)) (p_tf p) ∧
    mem_of_proc k' s' l' p ∧
    ∀ a, a ∈ l' ↔ a ∈ l ∨ owned (km_ram (kmem s)) (p_pagetable q) (upto (np (p_sz q))) a ∨ a = p_tf q.

(** The status could not be stored: the child is a zombie still. *)
Definition not_reaped k s i (l : list Z) (addr : Z) (n : nat) (k' : kern) (s' : sys S) : Prop :=
  let p := k_procs k !!! i in
  ∃ m1 c, addr ≠ 0 ∧ (c < 4)%nat ∧ (∀ j, (j < c)%nat → uacc (km_ram (kmem s)) (p_pagetable p) (addr + Z.of_nat j)) ∧
    ¬ uacc (km_ram (kmem s)) (p_pagetable p) (addr + Z.of_nat c) ∧
    written (p_pagetable p) (km_ram (kmem s)) m1 addr (take c (le_enc 4 (p_xstate (k_procs k !!! n)))) ∧
    s' = with_mem (over ram_of m1 (kmem s)) s ∧ kern_eq k k' ∧ mem_of_proc k' s' l p.

(** Storing the status. *)
Lemma runs_status k k1 s i pid l n addr q2 k2 Q :
  let p := k_procs k !!! i in let q := k_procs k !!! n in
  waitable k s i pid l → 0 ≤ addr < 2 ^ 64 → (n < Z.to_nat NPROC)%nat → zombie k i n →
  cpu_ok (k_cpu k1) → held k1 n q2 k2 →
  (∀ m, status_out (km_ram (kmem s)) (p_pagetable p) addr (p_xstate q) (km_ram m) →
    proc_mem (k2, m) (p_pagetable p) l (np (p_sz p)) (p_tf p) → proc_mem (k2, m) (p_pagetable q) l (np (p_sz q)) (p_tf q) →
    apart_mem (km_ram m) (p_pagetable p) (np (p_sz p)) (p_tf p) (p_pagetable q) (np (p_sz q)) (p_tf q) →
    (∀ a, owned (km_ram m) (p_pagetable q) (upto (np (p_sz q))) a ↔ owned (km_ram (kmem s)) (p_pagetable q) (upto (np (p_sz q))) a) →
    Q 0 (k2, with_mem m s)) →
  (∀ m1 c, addr ≠ 0 → (c < 4)%nat → (∀ j, (j < c)%nat → uacc (km_ram (kmem s)) (p_pagetable p) (addr + Z.of_nat j)) →
    ¬ uacc (km_ram (kmem s)) (p_pagetable p) (addr + Z.of_nat c) →
    written (p_pagetable p) (km_ram (kmem s)) m1 addr (take c (le_enc 4 (p_xstate q))) →
    proc_mem (k2, over ram_of m1 (kmem s)) (p_pagetable p) l (np (p_sz p)) (p_tf p) →
    Q (-1) (k2, with_mem (over ram_of m1 (kmem s)) s)) →
  runs (if addr =? 0 then mret 0 else zoom mem_of (copyout (p_pagetable p) addr (le_enc 4 (p_xstate q)))) (k2, s) Q.
Proof.
  intros p q Hw Ha Hn Hz Hc1 H2 HQ HE. destruct (wt_kids _ _ _ _ _ Hw n Hn Hz) as (Hsz & Hq & Hap). fold p q in Hsz, Hq, Hap.
  pose proof (wt_mem _ _ _ _ _ Hw) as Hp. fold p in Hp. pose proof (held_cpu_ok _ _ _ _ Hc1 H2) as Hc2.
  assert (proc_mem (k2, kmem s) (p_pagetable p) l (np (p_sz p)) (p_tf p)) as Hp2 by (by eapply proc_mem_kern).
  assert (proc_mem (k2, kmem s) (p_pagetable q) l (np (p_sz q)) (p_tf q)) as Hq2 by (by eapply proc_mem_kern).
  destruct (decide (addr = 0)) as [->|Hne].
  { change (0 =? 0) with true. kif. kstep. assert (Q 0 (k2, with_mem (kmem s) s)) as HH by (by apply HQ). by destruct s as [[]]. }
  rewrite (proj2 (Z.eqb_neq _ _) Hne). pose proof (conj (proj1 Htramp) (proj1 (proj2 Htramp))) as Htr.
  eapply (runs_mem_held k1 n q2 k2 s); [done|exact H2| |].
  { kapply (runs_copyout end_ (k2, kmem s) (p_pagetable p) l (upto (np (p_sz p))) (ps_uvm _ _ _ _ _ _ _ (pm_space _ _ _ _ _ _ _ Hp2))
      (λ va, uacc_user end_ trampoline k2 (kmem s) _ l _ _ va Htr Hp2) addr (le_enc 4 (p_xstate q)) Ha).
    intros r y (c & (H1 & H3 & H4 & H5) & H6). split; [by rewrite H4|].
    exact (conj H4 (ex_intro _ c (conj H1 (conj H3 (conj H5 H6))))). }
  intros r m (E & c & Hlen & Hacc & Hwr & Hr). rewrite length_le_enc in *. cbn [fst snd] in *. apply (f_equal snd) in E. cbn [snd] in E.
  assert (Forall is_byte (take c (le_enc 4 (p_xstate q)))) as Hb by (apply Forall_take, le_enc_bytes).
  destruct (proc_mem_written end_ trampoline k2 (kmem s) (km_ram m) (p_pagetable p) l (np (p_sz p)) (p_tf p) (p_pagetable q) (np (p_sz q)) (p_tf q)
    addr (take c (le_enc 4 (p_xstate q))) Htr Hp2 Hq2 Hap Hb) as (A1 & A2 & A3 & A4); [|done|].
  { intros j Hj. rewrite length_take, length_le_enc in Hj. apply Hacc. lia. }
  destruct Hr as [[-> ->]|(-> & Hlt & Hna)].
  - rewrite <- E in A1, A2. apply HQ; try done. unfold status_out. rewrite decide_False by done. split; [done|].
    rewrite take_ge in Hwr by (by rewrite length_le_enc). done.
  - rewrite E. by apply (HE (km_ram m) c).
Qed.

Lemma freed_lock lk ln q : set_plock lk (freed (set_plock ln q)) = set_plock lk (freed q).
Proof. by destruct q. Qed.

(** What [wait] does with a zombie: [k1] has the caller's lock held, [k2] the child's too. *)
Lemma runs_reap k s i pid l addr n li k1 ln k2 (Q : (Z * bool) + (Z + bool) → kern * sys S → Prop) :
  let p := k_procs k !!! i in let q := k_procs k !!! n in
  waitable k s i pid l → 0 ≤ addr < 2 ^ 64 → (n < Z.to_nat NPROC)%nat → zombie k i n →
  held k i (set_plock li p) k1 → held k1 n (set_plock ln q) k2 →
  (∀ k' s', reaped k s i l addr n k' s' → Q (inr (inl (p_pid q))) (k', s')) →
  (∀ k' s', not_reaped k s i l addr n k' s' → Q (inr (inl (-1))) (k', s')) →
  runs (p ← the_proc i;
      r ← (if addr =? 0 then mret 0
           else zoom mem_of (copyout (p_pagetable p) addr (le_enc 4 (p_xstate q))));
      if r <? 0 then
        release (plock n);;
        release (plock i);;
        mret (inr (inl (-1)))
      else
      freeproc end_ n;;
      release (plock n);;
      release (plock i);;
      mret (inr (inl (p_pid q)))) (k2, s) Q.
Proof.
  intros p q Hw Ha Hn Hz H1 H2 HQ HE. pose proof (wt_running _ _ _ _ _ Hw) as (Hk & _ & Hi & _).
  pose proof Hk as (Hc & Hlen & Hf). pose proof (held_cpu_ok _ _ _ _ Hc H1) as Hc1.
  assert (i ≠ n) as Hin by (intros ->; by destruct (wt_parent _ _ _ _ _ Hw), Hz).
  destruct (wt_kids _ _ _ _ _ Hw n Hn Hz) as (Hsz & _).
  destruct (hd_procs _ _ _ _ H2 i Hi Hin) as [[_ Ep] _]. rewrite (hd_self _ _ _ _ H1) in Ep. specialize (Ep (hd_locked _ _ _ _ H1)).
  kstep. unfold the_proc. kstep. cbn [fst]. rewrite Ep. cbn [p_pagetable set_plock].
  kstep. eapply (runs_status k k1 s i pid l n addr (set_plock ln q) k2); [done|done|done|done|done|exact H2|..].
  - intros m Hst Hp Hq Hap Hown. change (0 <? 0) with false. kif. kstep.
    eapply (runs_freeproc k1 n (set_plock ln q) k2 (with_mem m s) l); [done|done|exact H2|done|exact Hq|exact Hp|exact Hap|].
    intros k3 m3 l' H3 Hp3 Hunc Hpg. cbn [p_pagetable p_sz p_tf set_plock] in Hpg.
    kstep. eapply (runs_release_held k1 n _ k3); [done|done|exact H3|]. intros k4 l4 Hc4 Hlen4 Hl4 Hn4 Hoth4. rewrite freed_lock in Hn4.
    set (r := set_plock l4 (freed q)) in *.
    pose proof (held_put k i _ k1 n r k4 Hc Hi Hin ltac:(lia) H1 Hc4 Hlen4 Hn4 Hoth4) as H4.
    kstep. eapply (runs_release_last (put n r k) i _ k4); [by apply put_ok|done|exact H4|]. intros k5 l5 Hl5 H5. kstep. apply HQ.
    destruct (changed_put k i _ l5 n r k5 H5) as (lk & Hlk & H6); [done|done|done|done|exact (like_free p l5 (Hf i) Hl5)|done|].
    exists lk, (km_ram m), m3, l'. split; [done|]. split; [exact H6|]. split; [done|]. split; [done|]. split; [done|]. split.
    + eapply proc_mem_kern; [exact Hp3|]. apply (ch_ok _ _ _ _ H6).
    + intros a. specialize (Hown a). specialize (Hpg a). fold q in Hown. cbn [kmem with_mem] in Hpg. tauto.
  - intros m1 c Hne Hlt Hacc Hna Hwr Hp. change (-1 <? 0) with true. kif.
    kstep. eapply (runs_release_held k1 n _ k2); [done|done|exact H2|]. intros k4 l4 Hc4 Hlen4 Hl4 Hn4 Hoth4.
    set (r := set_plock l4 q). change (set_plock l4 (set_plock ln q)) with r in Hn4.
    pose proof (held_put k i _ k1 n r k4 Hc Hi Hin ltac:(lia) H1 Hc4 Hlen4 Hn4 Hoth4) as H4.
    apply held_put_like in H4; [|exact (like_free q l4 (Hf n) Hl4)|lia].
    kstep. eapply (runs_release_last k i _ k4); [done|done|exact H4|]. intros k5 l5 Hl5 H5. kstep. apply HE.
    exists m1, c. split; [done|]. split; [done|]. split; [done|]. split; [done|]. split; [done|]. split; [done|].
    assert (kern_eq k k5) as H6 by (eapply changed_like; [exact H5|exact (like_free p l5 (Hf i) Hl5)]).
    split; [done|]. eapply proc_mem_kern; [exact Hp|]. apply (ke_ok _ _ H6).
Qed.

(** One pass over the table with the caller's lock held. *)
Lemma runs_wait_scan k s i pid l addr li k1 Q :
  waitable k s i pid l → 0 ≤ addr < 2 ^ 64 → held k i (set_plock li (k_procs k !!! i)) k1 →
  (∀ k' b, held k i (set_plock li (k_procs k !!! i)) k' → (∀ j, (j < Z.to_nat NPROC)%nat → ¬ zombie k i j) →
    (b = true ↔ ∃ j, (j < Z.to_nat NPROC)%nat ∧ p_parent (k_procs k !!! j) = Some i) → Q (inr b) (k', s)) →
  (∀ n k' s', (n < Z.to_nat NPROC)%nat → zombie k i n → (∀ j, (j < n)%nat → ¬ zombie k i j) →
    reaped k s i l addr n k' s' → Q (inl (p_pid (k_procs k !!! n))) (k', s')) →
  (∀ n k' s', (n < Z.to_nat NPROC)%nat → zombie k i n → (∀ j, (j < n)%nat → ¬ zombie k i j) →
    not_reaped k s i l addr n k' s' → Q (inl (-1)) (k', s')) →
  runs (wait_scan end_ i addr) (k1, s) Q.
Proof.
  intros Hw Ha H1 HN HR HE. pose proof (wt_running _ _ _ _ _ Hw) as (Hk & _ & Hi & _). pose proof Hk as (Hc & Hlen & Hf).
  unfold wait_scan.
  apply (runs_loop _ (λ jb x, 0 ≤ jb.1 ≤ NPROC ∧ x.2 = s ∧ held k i (set_plock li (k_procs k !!! i)) x.1 ∧
    (∀ j, (j < Z.to_nat jb.1)%nat → ¬ zombie k i j) ∧
    (jb.2 = true ↔ ∃ j, (j < Z.to_nat jb.1)%nat ∧ p_parent (k_procs k !!! j) = Some i)) (λ jb _, Z.to_nat (NPROC - jb.1))).
  - intros [j b] [k2 s2] (Hj & E & H2 & Hno & Hb). cbn [fst snd] in *. subst s2. kstep; intros Hlt; zify_bool.
    { kstep. replace j with NPROC in * by lia. by apply HN. }
    set (n := Z.to_nat j) in *. assert (n < Z.to_nat NPROC)%nat as Hn by (unfold n; lia).
    assert (Z.to_nat (j + 1) = Datatypes.S n) as En by (unfold n; lia).
    pose proof (held_cpu_ok _ _ _ _ Hc H2) as Hc2. kstep. unfold the_proc at 1. kstep. cbn [fst].
    assert (p_parent (k_procs k2 !!! n) = p_parent (k_procs k !!! n)) as Epar.
    { destruct (decide (n = i)) as [->|Hne]; [by rewrite (hd_self _ _ _ _ H2)|].
      destruct (hd_procs _ _ _ _ H2 n Hn Hne) as [_ ->]. done. }
    rewrite Epar. case_bool_decide as Hpar; kif.
    2:{ kstep. cbn [fst snd]. split; [|lia]. split_and!; [lia|lia|done|done| |]; rewrite En.
        - intros j' Hj'. destruct (decide (j' = n)) as [->|]; [by intros [? _]|apply Hno; lia].
        - rewrite Hb. split; intros (j' & Hj' & Hp'); exists j'; (split; [|done]); [lia|].
          destruct (decide (j' = n)) as [->|]; [done|lia]. }
    assert (i ≠ n) as Hin by (intros E; rewrite <- E in Hpar; by apply (wt_parent _ _ _ _ _ Hw)).
    destruct (hd_procs _ _ _ _ H2 n Hn ltac:(done)) as [[Hfree _] Ep].
    kstep. apply runs_acquire_held; [apply (hd_len _ _ _ _ H2)|done|apply Hfree, Hf|]. intros ln k3 H3.
    rewrite Ep in H3. change (set_plock ln (set_plock _ ?q)) with (set_plock ln q) in H3.
    kstep. unfold the_proc at 1. kstep. cbn [fst]. rewrite (hd_self _ _ _ _ H3). cbn [p_state p_pid p_xstate set_plock].
    case_bool_decide as Hz; kif.
    + apply (runs_reap k s i pid l addr n li k2 ln k3); try done.
      * intros k' s' Hr. by apply (HR n).
      * intros k' s' Hr. by apply (HE n).
    + kstep. eapply (runs_release_held k2 n _ k3); [done|done|exact H3|]. intros k4 l4 Hc4 Hlen4 Hl4 Hn4 Hoth4.
      pose proof (held_put k i _ k2 n _ k4 Hc Hi Hin ltac:(lia) H2 Hc4 Hlen4 Hn4 Hoth4) as H4.
      apply held_put_like in H4; [|exact (like_free _ l4 (Hf n) Hl4)|lia].
      kstep. cbn [fst snd]. split; [|lia]. split_and!; [lia|lia|done|done| |]; rewrite En.
      * intros j' Hj'. destruct (decide (j' = n)) as [->|]; [by intros [_ ?]|apply Hno; lia].
      * split; [|done]. intros _. exists n. split; [lia|done].
  - cbn [fst snd]. split_and!; [lia|unfold NPROC; lia|done|done|intros j Hj; lia|]. split; [done|]. intros (j & Hj & _). lia.
  - cbn [fst]. lia.
Qed.

(** Sleeping with the caller's lock held. *)
Lemma halts_sleep_self k s i pid li k1 Q :
  running k i pid → c_noff (k_cpu k) = 0 → held k i (set_plock li (k_procs k !!! i)) k1 →
  (∀ k', held k i (set_pstate SLEEPING (set_pchan (Some (ChProc i)) (set_plock li (k_procs k !!! i)))) k' → Q (k', s)) →
  halts (sleep_self (ChProc i)) (k1, s) Asleep Q.
Proof.
  intros (Hk & Hcur & Hi & _) Hn0 H1 HQ. pose proof Hk as (Hc & _). pose proof (held_cpu_ok _ _ _ _ Hc H1) as Hc1.
  pose proof (hd_cpu _ _ _ _ H1) as Ec. unfold sleep_self. apply halts_bind_r.
  apply (runs_curproc _ _ i); [done|by rewrite Ec, push_off_proc|].
  assert (set_kcpu (settle (k_cpu k1)) k1 = k1) as -> by (rewrite Ec, settle_push_off by done; rewrite <- Ec; by destruct k1).
  apply halts_bind_r. hupd H1. apply halts_bind_r. hupd H1 as k2. apply halts_bind_l.
  pose proof (held_cpu_ok _ _ _ _ Hc H1) as Hc2. pose proof (hd_cpu _ _ _ _ H1) as Ec2.
  apply (halts_sched _ _ i); rewrite ?(hd_self _ _ _ _ H1).
  - by rewrite Ec2, push_off_proc.
  - rewrite (hd_len _ _ _ _ H1). done.
  - done.
  - rewrite Ec2, push_off_noff. lia.
  - unfold holding_by. rewrite (hd_holder _ _ _ _ H1), Ec2, push_off_id, bool_decide_eq_true_2 by done.
    by rewrite (proj2 (Z.eqb_neq _ _) (hd_locked _ _ _ _ H1)).
  - done.
  - assert (set_kcpu (settle (k_cpu k2)) k2 = k2) as -> by (rewrite Ec2, settle_push_off by done; rewrite <- Ec2; by destruct k2).
    by apply HQ.
Qed.

Lemma held_settle k n q k' : held (set_kcpu (settle (k_cpu k)) k) n q k' → cpu_ok (k_cpu k) → held k n q k'.
Proof.
  intros [H1 H2 H3 H4 H5 H6] Hc. split; try done; cbn in *.
  - rewrite H1. apply push_off_settle; [done|]. apply settle_idem.
  - by rewrite H5, settle_id.
Qed.

Lemma waitable_settle k s i pid l : waitable k s i pid l → waitable (set_kcpu (settle (k_cpu k)) k) s i pid l.
Proof.
  intros [((Hc & Hl & Hf) & Hcur & Hi & Hp) H2 H3 H4 H5]. split; try done.
  - split_and!; [split_and!; [by apply settle_ok|done|done]|by cbn; rewrite settle_proc|done|done].
  - cbn. by rewrite settle_noff.
  - eapply proc_mem_kern; [exact H4|]. by apply settle_ok.
  - intros j Hj Hz. destruct (H5 j Hj Hz) as (G1 & G2 & G3). split; [done|]. split; [|done].
    eapply proc_mem_kern; [exact G2|]. by apply settle_ok.
Qed.

Lemma reaped_settle k s i l addr n k' s' : reaped (set_kcpu (settle (k_cpu k)) k) s i l addr n k' s' → reaped k s i l addr n k' s'.
Proof.
  intros (lk & m1 & m & l' & H1 & H2 & H). exists lk, m1, m, l'. split; [done|]. split; [by apply changed_settle|exact H].
Qed.

Lemma not_reaped_settle k s i l addr n k' s' :
  not_reaped (set_kcpu (settle (k_cpu k)) k) s i l addr n k' s' → not_reaped k s i l addr n k' s'.
Proof.
  intros (m1 & c & H1 & H2 & H3 & H4 & H5 & H6 & H7 & H8). exists m1, c. do 6 (split; [done|]).
  split; [by apply kern_eq_settle|done].
Qed.

(** The children of [i] and what [wait] finds. *)
Definition child (k : kern) (i j : nat) : Prop := (j < Z.to_nat NPROC)%nat ∧ p_parent (k_procs k !!! j) = Some i.

Definition first_zombie (k : kern) (i n : nat) : Prop :=
  (n < Z.to_nat NPROC)%nat ∧ zombie k i n ∧ ∀ j, (j < n)%nat → ¬ zombie k i j.

Definition no_zombie (k : kern) (i : nat) : Prop := ∀ j, (j < Z.to_nat NPROC)%nat → ¬ zombie k i j.

End Wait.

(** * Growing and shrinking a process

    [growproc] of kernel/proc.c, which serves sbrk. *)

Section Growproc.
Context {S : Type} `{BC : BufCache S}.
Implicit Types (s : sys S).
Context (end_ trampoline : Z).
Abbreviation proc_mem := (proc_mem end_ trampoline).

(** An address space that changes its size keeps its trapframe and trampoline. *)
Lemma proc_mem_resized k m root l n tf y l' n' :
  proc_mem (k, m) root l n tf → resized end_ root (k, m) l n y l' n' → n' ≤ tf_page →
  proc_mem y root l' n' tf ∧ ∀ z, in_page tf z → km_ram y.2 z = km_ram m z.
Proof.
  intros [[Hok Hsz Htr Htf Hrest] Hp Hl Hno] (Hok' & Hst & _ & Hu & Hz) Hn'. pose proof special_pages as Hsp.
  pose proof (us_own _ _ _ _ _ _ _ Hst tf) as Hown. assert (vpage tramp_page ∧ vpage tf_page) as [Hv1 Hv2] by done. cbn [snd] in *. split.
  - split; [|done|intros ?; tauto|intros ?; tauto]. split; [done|lia| | |].
    + rewrite Hu; [done|done|lia].
    + rewrite Hu; [done|done|lia].
    + intros i Hi Hni H1 H2. destruct (decide (i < n)); [by apply Hz|]. rewrite Hu by (done || lia). apply Hrest; done || lia.
  - intros z. by eapply (step_page end_ root (k, m) l (upto n) y l' (upto n') tf).
Qed.

(** The process [p] has the size [sz]: the pages it had before, as far as they are left, are the
    same, new pages are zero, pages move between it and the free list [l], and nothing
    else has changed. *)
Record sized (k' : kern) s (l : list Z) (p : proc) (sz : Z) (m : kalloc_st) (l' : list Z) : Prop := {
  sd_mem : proc_mem (k', m) (p_pagetable p) l' (np sz) (p_tf p);
  sd_keeps : ∀ i, 0 ≤ i < Z.min (np (p_sz p)) (np sz) →
    upte (km_ram m) (p_pagetable p) i = upte (km_ram (kmem s)) (p_pagetable p) i ∧
    ∀ y, in_page (upage (km_ram (kmem s)) (p_pagetable p) i) y → km_ram m y = km_ram (kmem s) y;
  sd_fresh : fresh (km_ram m) (p_pagetable p) (np (p_sz p)) (np sz);
  sd_tf : ∀ y, in_page (p_tf p) y → km_ram m y = km_ram (kmem s) y;
  sd_own : ∀ a, owned (km_ram m) (p_pagetable p) (upto (np sz)) a ∨ a ∈ l' ↔
    owned (km_ram (kmem s)) (p_pagetable p) (upto (np (p_sz p))) a ∨ a ∈ l;
  sd_frame : ∀ y, (∀ a, in_page a y → ¬ owned (km_ram (kmem s)) (p_pagetable p) (upto (np (p_sz p))) a ∧ a ∉ l) → km_ram m y = km_ram (kmem s) y;
}.

Lemma resized_sized k s l p sz y l' k' :
  proc_mem (k, kmem s) (p_pagetable p) l (np (p_sz p)) (p_tf p) →
  resized end_ (p_pagetable p) (k, kmem s) l (np (p_sz p)) y l' (np sz) → np sz ≤ tf_page → cpu_ok (k_cpu k') →
  fresh (km_ram y.2) (p_pagetable p) (np (p_sz p)) (np sz) → sized k' s l p sz y.2 l'.
Proof.
  intros Hm Hr Hn Hc Hf. destruct (proc_mem_resized _ _ _ _ _ _ _ _ _ Hm Hr Hn) as [H1 H2]. destruct y as [ky m].
  destruct Hr as (Hok & [_ Ho Hfr] & Hk & Hu & _). split; try done.
  by eapply proc_mem_kern.
Qed.

(** A [zoom] into memory by the running process. *)
Lemma runs_mem {A} k s (m : M (kern * kalloc_st) A) R Q :
  runs m (k, kmem s) (λ a y, same_kern k y.1 ∧ R a y) →
  (∀ a k' km, same_kern k k' → R a (k', km) → Q a (k', with_mem km s)) → runs (zoom mem_of m) (k, s) Q.
Proof. intros Hm HQ. kstep. kapply Hm. intros a [k2 km] [Hs HR]. exact (HQ a k2 km Hs HR). Qed.

Lemma changed_put_self k i q k' :
  kern_ok k → (i < Z.to_nat NPROC)%nat → k_procs k' = k_procs k → cpu_ok (k_cpu k') → settle (k_cpu k') = settle (k_cpu k) → locked (p_lock q) = 0 →
  changed k i q (put i q k').
Proof.
  intros (Hc & Hlen & Hf) Hi Ep Hc' Es Hl. split; [|done|cbn; rewrite Ep, list_lookup_total_insert_eq by lia; done|].
  - apply put_ok; [|done]. split_and!; [done|by rewrite Ep|]. intros j. rewrite Ep. apply Hf.
  - intros j Hj Hne. cbn. rewrite Ep, list_lookup_total_insert_ne by done. apply like_refl.
Qed.

(** C26: [growproc] by any [int]: the process grows by fresh zero pages or shrinks by whole pages, which are free
    again, and its size is the old one plus [n]; a size below 0 is ignored; without memory to
    grow the result is -1 and the process is as it was.  The other pages of the process keep
    their place and contents, no page is lost, and no other process changes. *)
Theorem growproc_correct k s i pid l n :
  let p := k_procs k !!! i in
  running k i pid → proc_mem (k, kmem s) (p_pagetable p) l (np (p_sz p)) (p_tf p) → 0 ≤ p_sz p < 2 ^ 31 → -2 ^ 31 ≤ n < 2 ^ 31 →
  runs (growproc end_ n) (k, s) (λ r x', ∃ m l', x'.2 = with_mem m s ∧
    ((r = 0 ∧ let sz := if p_sz p + n <? 0 then p_sz p else p_sz p + n in
        changed k i (set_psz sz p) x'.1 ∧ sized x'.1 s l p sz m l') ∨
     (r = -1 ∧ 0 < n ∧ kern_eq k x'.1 ∧ sized x'.1 s l p (p_sz p) m l'))).
Proof.
  intros p (Hk & Hcur & Hi & _) Hm Hsz Hn. pose proof Hk as (Hc & Hlen & Hf).
  set (k0 := set_kcpu (settle (k_cpu k)) k). assert (cpu_ok (k_cpu k0)) as Hc0 by (by apply settle_ok).
  assert (proc_mem (k0, kmem s) (p_pagetable p) l (np (p_sz p)) (p_tf p)) as Hm0 by (by eapply proc_mem_kern).
  pose proof (ps_uvm _ _ _ _ _ _ _ (pm_space _ _ _ _ _ _ _ Hm0)) as Hok.
  assert (∀ z, 0 ≤ z < 2 ^ 32 → np z ≤ tf_page ∧ z ≤ MAXVA) as Hb.
  { intros z Hz. split; [apply np_tf; change TRAPFRAME with (2 ^ 38 - 2 * 4096); lia|change MAXVA with (2 ^ 38); lia]. }
  assert (∀ k1 m1 l' sz, same_kern k0 k1 → resized end_ (p_pagetable p) (k0, kmem s) l (np (p_sz p)) (k1, m1) l' (np sz) →
    fresh (km_ram m1) (p_pagetable p) (np (p_sz p)) (np sz) → 0 ≤ sz < 2 ^ 32 →
    let k2 := put i (set_psz sz (k_procs k1 !!! i)) k1 in changed k i (set_psz sz p) k2 ∧ sized k2 s l p sz m1 l') as Hdone.
  { intros k1 m1 l' sz [Ep Es] Hr Hfr Hz. pose proof (ki_cpu _ _ _ (po_alloc _ _ _ _ (uo_pt _ _ _ _ _ (proj1 Hr)))) as Hc1.
    split; [|by apply (resized_sized k0 s l p sz (k1, m1)); try done; apply Hb].
    rewrite Ep. apply changed_put_self; try done; [by rewrite Es; apply settle_idem|]. apply Hf. }
  unfold growproc. kstep. apply (runs_curproc k s i); [done|done|]. fold k0. kstep. unfold the_proc. kstep. cbn [fst].
  change (k_procs k0 !!! i) with p. rewrite !(u32_small (p_sz p)) by lia.
  destruct (Z.ltb_spec 0 n) as [Hpos|Hneg]; [|destruct (Z.ltb_spec n 0) as [Hneg'|Hz]]; kif.
  - rewrite u32_small by lia. destruct (Hb (p_sz p + n)) as [B1 B2]; [lia|]. kstep. kstep.
    eapply (runs_mem k0 s _ (λ r y, ∃ l', (r = p_sz p + n ∧ resized end_ (p_pagetable p) (k0, kmem s) l (np (p_sz p)) y l' (np (p_sz p + n)) ∧
       fresh (km_ram y.2) (p_pagetable p) (np (p_sz p)) (np (p_sz p + n))) ∨
      (r = 0 ∧ resized end_ (p_pagetable p) (k0, kmem s) l (np (p_sz p)) y l' (np (p_sz p))))).
    { kapply (runs_uvmalloc end_ (k0, kmem s) (p_pagetable p) l (p_sz p) (p_sz p + n) Hok); [lia|done| |].
      - intros j Hj. pose proof special_pages. apply (ps_rest _ _ _ _ _ _ _ (pm_space _ _ _ _ _ _ _ Hm0)); try lia.
        unfold vpage. change (MAXVA / PGSIZE) with (tf_page + 2). destruct (np_spec (p_sz p)) as (_ & ? & _); lia.
      - intros r y (l' & H). split; [|by exists l']. by destruct H as [(_ & (_ & [? _ _] & _) & _)|(_ & (_ & [? _ _] & _))]. }
    intros r k1 m1 Hs1 (l' & [(-> & Hr & Hfr)|(-> & Hr)]).
    + kstep. rewrite u32_small by lia. rewrite (proj2 (Z.eqb_neq _ 0)) by lia. unfold upd_proc. kgo.
      exists m1, l'. split; [done|]. left. split; [done|]. rewrite (proj2 (Z.ltb_ge _ 0)) by lia. by apply Hdone; [..|lia].
    + kgo. exists m1, l'. split; [done|]. right. split; [done|]. split; [lia|].
      pose proof (ki_cpu _ _ _ (po_alloc _ _ _ _ (uo_pt _ _ _ _ _ (proj1 Hr)))) as Hc1. split.
      * destruct Hs1 as [Ep Es]. cbn [fst] in *. split; [refine (conj Hc1 (conj _ _)); rewrite Ep; done|by rewrite Es; apply settle_idem|].
        intros j _. rewrite Ep. apply like_refl.
      * apply (resized_sized k0 s l p (p_sz p) (k1, m1)); try done; [apply Hb; lia|]. intros j Hj. lia.
  - kstep. kstep. eapply (runs_mem k0 s _ (λ r y, r = Z.min (p_sz p) (u32 (p_sz p + n)) ∧ ∃ l', resized end_ (p_pagetable p) (k0, kmem s) l (np (p_sz p)) y l' (np r))).
    { kapply (runs_uvmdealloc end_ (k0, kmem s) (p_pagetable p) l (p_sz p) (u32 (p_sz p + n)) Hok); [apply u32_range|split; [lia|apply Hb; lia]|].
      intros r y (-> & l' & Hr). split; [apply Hr|]. split; [done|]. by exists l'. }
    intros r k1 m1 Hs1 (Er & l' & Hr).
    assert (r = if p_sz p + n <? 0 then p_sz p else p_sz p + n) as E2.
    { rewrite Er. unfold u32. destruct (Z.ltb_spec (p_sz p + n) 0); dlia. }
    assert (0 ≤ r ≤ p_sz p) as Hr2 by (rewrite E2; destruct (Z.ltb_spec (p_sz p + n) 0); lia).
    assert (np r ≤ np (p_sz p)) by (apply np_mono; destruct (Hb (p_sz p)); lia).
    kstep. rewrite (u32_small r) by lia. unfold upd_proc. kgo. exists m1, l'. split; [done|]. left. split; [done|].
    rewrite <- E2. apply Hdone; try done; [|lia]. intros j Hj. lia.
  - unfold upd_proc. kgo. replace n with 0 by lia. rewrite Z.add_0_r, (proj2 (Z.ltb_ge _ 0)) by lia.
    exists (kmem s), l. split; [by destruct s as [[]]|]. left. split; [done|].
    apply (Hdone k0 (kmem s) l (p_sz p)); [done| |intros j Hj; lia|lia]. by apply resized_refl.
Qed.
End Growproc.
