(* ===== verification/FsBlock.v ===== *)
(** * File system code inside a transaction

    [tx y R C T H]: the process runs inside a transaction of the log; the
    current contents of the disk blocks are [C], the blocks it logged are among [T],
    it holds the buffers [H], and everything outside the log and the cache is as
    in [R].  The lemmas are the specifications of the block operations that
    kernel/fs.c is made of. *)

From S2P Require Import Prelude Memory Riscv Spinlock Core CString Kalloc Vm Sleeplock BufCache Log Crash LogProof LogSafety Sys Fs.

Lemma filter_in_iff {A} (P Q : A → Prop) `{!∀ a, Decision (P a), !∀ a, Decision (Q a)} (l : list A) :
  (∀ a, a ∈ l → P a ↔ Q a) → filter P l = filter Q l.
Proof.
  induction l as [|a l IH]; [done|]. intros HPQ. rewrite !filter_cons. rewrite IH by (intros; apply HPQ; by right).
  pose proof (HPQ a ltac:(by left)). repeat case_decide; tauto.
Qed.

Section FsTx.
Context {S : Type} `{BC : BufCache S} (i : nat) (pid : Z) (k0 : kern) (dev start size : Z).
Abbreviation SM := (M (kern * sys S)).

Definition is_logged (bs : list Z) (κ : block) : Prop := κ ∈ home dev <$> bs.
#[local] Instance is_logged_dec bs κ : Decision (is_logged bs κ).
Proof. unfold is_logged. apply _. Defined.

Definition cnt (P : Prop) `{Decision P} : nat := if decide P then 1%nat else 0%nat.

Record tx_in (y : kern * sys S) (R : sys S) (C : block → list Z) (bs T : list Z) (H : list (Z * block))
    (logs : list log_st) (A : cache) : Prop := {
  tx_lsim : lsim i pid k0 logs (view log_of y) A;
  tx_trans : trans_ok logs dev start size bs A;
  tx_free : locked (lg_lock (aget logs dev)) = 0;
  tx_out : 1 ≤ lg_outstanding (aget logs dev);
  tx_data : ∀ κ, ca_data A κ = C κ;
  tx_held : ∀ h κ, ca_held A h = Some κ ↔ (h, κ) ∈ H;
  tx_nodup : NoDup H.*2;
  tx_dev : ∀ κ, κ ∈ H.*2 → κ.1 = dev ∧ ¬ in_log dev start size κ;
  tx_ref : ∀ κ, ca_ref A κ = Z.of_nat (cnt (is_logged bs κ) + cnt (κ ∈ H.*2));
  tx_used : ca_used A = (length bs + length (filter (λ κ, ¬ is_logged bs κ) H.*2))%nat;
  tx_clean : ∀ κ, ¬ is_logged bs κ → ca_data A κ = ca_disk A κ;
  tx_cover : ∀ b, b ∈ bs → u32 b ∈ T;
  tx_rest : set_cache (sy_cache R) (sy_logs R) y.2 = R;
}.

Arguments tx_lsim {y R C bs T H logs A} _.
Arguments tx_trans {y R C bs T H logs A} _.
Arguments tx_free {y R C bs T H logs A} _.
Arguments tx_out {y R C bs T H logs A} _.
Arguments tx_data {y R C bs T H logs A} _.
Arguments tx_held {y R C bs T H logs A} _.
Arguments tx_nodup {y R C bs T H logs A} _.
Arguments tx_dev {y R C bs T H logs A} _.
Arguments tx_ref {y R C bs T H logs A} _.
Arguments tx_used {y R C bs T H logs A} _.
Arguments tx_clean {y R C bs T H logs A} _.
Arguments tx_cover {y R C bs T H logs A} _.
Arguments tx_rest {y R C bs T H logs A} _.

Definition tx (y : kern * sys S) (R : sys S) (C : block → list Z) (T : list Z) (H : list (Z * block)) : Prop :=
  ∃ bs logs A, tx_in y R C bs T H logs A.

Lemma cnt_yes (P : Prop) `{Decision P} : P → cnt P = 1%nat.
Proof. intros. unfold cnt. by rewrite decide_True. Qed.
Lemma cnt_no (P : Prop) `{Decision P} : ¬ P → cnt P = 0%nat.
Proof. intros. unfold cnt. by rewrite decide_False. Qed.
Lemma cnt_le (P : Prop) `{Decision P} : (cnt P ≤ 1)%nat.
Proof. unfold cnt. case_decide; lia. Qed.
Lemma cnt_iff (P Q : Prop) `{Decision P, Decision Q} : (P ↔ Q) → cnt P = cnt Q.
Proof. intros E. unfold cnt. repeat case_decide; tauto. Qed.

Lemma nz_pos n : n ≠ 0%nat → nz (Z.of_nat n) = 1%nat.
Proof. intros. unfold nz. rewrite (proj2 (Z.eqb_neq _ 0)) by lia. done. Qed.

Ltac nz_lia := unfold nz; repeat case_match; zify_bool; cbn [length snd]; lia.

(** Logged blocks fit in the cover. *)
Lemma cover_length bs T : logged dev start size bs → (∀ b, b ∈ bs → u32 b ∈ T) → (length bs ≤ length T)%nat.
Proof.
  intros Hl Hc. rewrite <- (length_fmap u32 bs). apply submseteq_length, NoDup_submseteq.
  - pose proof (lo_nodup _ _ _ _ Hl) as Hn. unfold home in Hn.
    rewrite (list_fmap_compose u32 (pair dev)) in Hn. by apply NoDup_fmap_1 in Hn.
  - intros b (c & -> & Hb)%list_elem_of_fmap. by apply Hc.
Qed.

Lemma tx_sound y R C bs T H logs A : tx_in y R C bs T H logs A → ca_sound A.
Proof.
  intros Hx h κ Hh. apply (tx_held Hx) in Hh. rewrite (tx_ref Hx).
  rewrite (cnt_yes (κ ∈ H.*2)) by (apply list_elem_of_fmap; by exists (h, κ)). lia.
Qed.

Lemma tx_room y R C bs T H logs A κ :
  tx_in y R C bs T H logs A → (length T + length H < Z.to_nat NBUF)%nat → ca_room κ A.
Proof.
  intros Hx Hroom. split.
  - right. rewrite (tx_used Hx).
    pose proof (cover_length bs T (tr_logged _ _ _ _ _ _ (tx_trans Hx)) (tx_cover Hx)).
    pose proof (length_filter (λ κ, ¬ is_logged bs κ) H.*2) as Hf. rewrite length_fmap in Hf. lia.
  - rewrite (tx_ref Hx). pose proof (cnt_le (is_logged bs κ)). pose proof (cnt_le (κ ∈ H.*2)). lia.
Qed.

(** The log and the cache inside the state. *)
Lemma tx_zoom y R {X} (m : M (kern * (S * list log_st)) X) Q :
  set_cache (sy_cache R) (sy_logs R) y.2 = R →
  runs m (view log_of y) (λ a t, ∀ y', view log_of y' = t → set_cache (sy_cache R) (sy_logs R) y'.2 = R → Q a y') →
  runs (zoom log_of m) y Q.
Proof.
  intros Hr Hm. apply runs_zoom. eapply runs_mono; [exact Hm|]. intros a [k [c l]] HQ. apply HQ; [done|].
  cbn. by rewrite <- Hr at 3.
Qed.

Lemma tx_bread y R C T H b :
  tx y R C T H → block_ok (dev, b) → ¬ in_log dev start size (dev, b) → (dev, b) ∉ H.*2 →
  (length T + length H < Z.to_nat NBUF)%nat →
  runs (fbread dev b) y (λ h y', tx y' R C T ((h, (dev, b)) :: H)).
Proof.
  intros (bs & logs & A & Hx) Hb Hnl Hnh Hroom. apply (tx_zoom y R); [apply (tx_rest Hx)|].
  assert (∀ h, ca_held A h ≠ Some (dev, b)) as Hnh'.
  { intros h Hh. apply (tx_held Hx) in Hh. apply Hnh, list_elem_of_fmap. by exists (h, (dev, b)). }
  eapply runs_mono; [apply (runs_lbread i pid k0 logs _ A (tx_lsim Hx) dev b Hb (tx_sound _ _ _ _ _ _ _ _ Hx) Hnh' (tx_room _ _ _ _ _ _ _ _ _ Hx Hroom))|].
  intros h t [Hh Ht] y' Hv Hr. exists bs, logs, (ca_bread (dev, b) h A). rewrite <- Hv in Ht.
  pose proof (tx_ref Hx (dev, b)) as Hrb. rewrite (cnt_no ((dev, b) ∈ H.*2)) in Hrb by done.
  pose proof (cnt_le (is_logged bs (dev, b))) as Hc.
  assert (u32 (ca_ref A (dev, b) + 1) = ca_ref A (dev, b) + 1) as Hu by (apply u32_small; lia).
  split; try apply Hx; try done.
  - destruct (tx_trans Hx) as [G1 G2 G3 G4 G5 G6 G7 G8 G9 G10]. split; try done.
    + intros κ Hκ. cbn. rewrite kset_ne by (intros ->; done). by apply G8.
    + intros c Hc'. cbn. unfold kset. case_decide as E; [|by apply G9]. rewrite Hu. lia.
  - intros h' κ. cbn. unfold hset. rewrite elem_of_cons. destruct (Z.eqb_spec h' h) as [->|Hne].
    + split; [intros [= <-]; by left|]. intros [[= ->]|Hin]; [done|]. apply (tx_held Hx) in Hin. congruence.
    + rewrite (tx_held Hx). split; [by right|]. intros [[= ? ?]|?]; done.
  - cbn. apply NoDup_cons. split; [done|apply (tx_nodup Hx)].
  - cbn. intros κ [->|Hκ]%elem_of_cons; [done|by apply (tx_dev Hx)].
  - intros κ. cbn. unfold kset. case_decide as E.
    + subst κ. rewrite Hu, Hrb, (cnt_yes ((dev, b) ∈ _)) by set_solver. lia.
    + rewrite (tx_ref Hx). do 2 f_equal. apply cnt_iff. set_solver.
  - cbn [ca_bread ca_lock ca_pin ca_reref ca_used]. rewrite Hu, (tx_used Hx), fmap_cons, filter_cons. case_decide as E.
    + rewrite (cnt_no (is_logged _ _)) in Hrb by done. rewrite Hrb. nz_lia.
    + cbn in E. rewrite (cnt_yes (is_logged _ _)) in Hrb by done. rewrite Hrb. nz_lia.
Qed.

Lemma tx_get y R C T H h κ Q : tx y R C T H → (h, κ) ∈ H → Q (C κ) y → runs (fget h) y Q.
Proof.
  intros (bs & logs & A & Hx) Hh HQ. apply (tx_held Hx) in Hh. unfold fget. apply runs_zoom.
  eapply (runs_get_data i pid k0 logs _ A (tx_lsim Hx) h κ); [done|]. rewrite (tx_data Hx). cbn. by destruct y as [k []].
Qed.

Lemma held_ne y R C bs T H logs A h κ h' κ' :
  tx_in y R C bs T H logs A → (h, κ) ∈ H → (h', κ') ∈ H → h' = h ∨ κ' = κ → (h', κ') = (h, κ).
Proof.
  intros Hx H1 H2 [->| ->].
  - apply (tx_held Hx) in H1, H2. congruence.
  - apply (tx_held Hx) in H1, H2. f_equal. eapply babs_inj; [apply (tx_lsim Hx)|done|done].
Qed.

Lemma logged_absorb_iff b bs κ : 0 ≤ b < 2 ^ 32 → is_logged (absorb b bs) κ ↔ is_logged bs κ ∨ κ = (dev, b).
Proof.
  intros Hb. unfold is_logged, absorb. case_decide as Hin.
  - rewrite <- (home_in dev) in Hin. split; [by left|]. intros [?| ->]; done.
  - rewrite fmap_app, elem_of_app. cbn. rewrite home_i32, list_elem_of_singleton by done. done.
Qed.

Lemma filter_absorb b bs (L : list block) : 0 ≤ b < 2 ^ 32 → NoDup L → (dev, b) ∈ L →
  (length (absorb b bs) + length (filter (λ κ, ¬ is_logged (absorb b bs) κ) L) =
   length bs + length (filter (λ κ, ¬ is_logged bs κ) L))%nat.
Proof.
  intros Hb Hnd Hin. destruct (decide (is_logged bs (dev, b))) as [Hl|Hl].
  - unfold absorb. rewrite decide_True; [done|]. by apply (home_in dev).
  - assert (Hlen : length (absorb b bs) = (length bs + 1)%nat).
    { unfold absorb. rewrite decide_False, length_app; [done|]. by rewrite <- (home_in dev). }
    rewrite Hlen. enough (length (filter (λ κ, ¬ is_logged bs κ) L) = Datatypes.S (length (filter (λ κ, ¬ is_logged (absorb b bs) κ) L))) by lia.
    induction L as [|κ L IH]; [by apply not_elem_of_nil in Hin|]. apply NoDup_cons in Hnd as [Hk Hnd].
    rewrite !filter_cons. destruct (decide (κ = (dev, b))) as [->|Hne].
    + rewrite decide_True by done. rewrite decide_False by (intros Hn; apply Hn, logged_absorb_iff; auto).
      cbn. do 2 f_equal. apply filter_in_iff. intros κ Hκ. rewrite logged_absorb_iff by done.
      split; [|tauto]. intros Hn [?| ->]; done.
    + apply elem_of_cons in Hin as [Hin|Hin]; [by rewrite Hin in Hne|]. specialize (IH Hnd Hin).
      destruct (decide (is_logged bs κ)) as [Hκ|Hκ].
      * rewrite !decide_False; [done|intros Hn; apply Hn, logged_absorb_iff; auto|tauto].
      * rewrite !decide_True; [cbn; lia|intros [?|?]%logged_absorb_iff; done|done].
Qed.

(** A store to a held buffer, then [log_write]. *)
Lemma tx_write y R C T H h b v :
  tx y R C T H → (h, (dev, b)) ∈ H → length v = Z.to_nat BSIZE → b ∈ T → Z.of_nat (length T) < size - 1 →
  runs (fput h v;; flog_write h) y (λ _ y', tx y' R (kset C (dev, b) v) T H).
Proof.
  intros (bs & logs & A & Hx) Hh Hv HbT Hlen. pose proof (proj2 (tx_held Hx _ _) Hh) as Hca.
  assert ((dev, b) ∈ H.*2) as Hin by (apply list_elem_of_fmap; by exists (h, (dev, b))).
  pose proof (tx_ref Hx (dev, b)) as Hrb. rewrite (cnt_yes ((dev, b) ∈ H.*2)) in Hrb by done.
  pose proof (cnt_le (is_logged bs (dev, b))) as Hc1.
  pose proof (babs_held _ _ _ _ _ _ (proj1 (tx_lsim Hx)) Hca) as (_ & Hb & Hnz). cbn in Hb.
  apply runs_bind. apply (tx_zoom y R); [apply (tx_rest Hx)|].
  eapply runs_mono; [apply (runs_put_data i pid k0 logs _ A (tx_lsim Hx) h (dev, b) v Hca); [lia|done]|].
  intros [] t Ht y1 <- Hr1. set (A1 := ca_set (dev, b) v A) in *.
  assert (trans_ok logs dev start size bs A1) as Htr1 by by destruct (tx_trans Hx).
  pose proof (cover_length bs T (tr_logged _ _ _ _ _ _ Htr1) (tx_cover Hx)) as Hbl.
  assert (ca_sound A1) as Hsnd by apply (tx_sound _ _ _ _ _ _ _ _ Hx).
  apply (tx_zoom y1 R _ _ Hr1). destruct (view log_of y1) as [k [s logs1]] eqn:Ev.
  assert (logs1 = logs) as -> by (destruct Ht as (_ & _ & E); by rewrite <- E).
  eapply runs_mono; [apply (runs_log_write_trans i pid k0 k s logs dev start size bs A1 h b Ht Htr1 (tx_free Hx) (tx_out Hx) ltac:(lia) Hca Hsnd); [cbn; lia|by apply (tx_dev Hx)]|].
  intros [] t' (l' & A2 & Ht' & Htr2 & HA2 & Hf2 & Ho2 & _) y2 <- Hr2. exists (absorb b bs), (aset logs dev l'), A2.
  assert (aget (aset logs dev l') dev = l') as El by (apply aget_aset_eq, (tr_dev _ _ _ _ _ _ (tx_trans Hx))).
  assert (∀ κ, ca_data A2 κ = kset C (dev, b) v κ) as Hd2.
  { intros κ. transitivity (ca_data A1 κ); [rewrite HA2; by case_decide|]. unfold A1. cbn [ca_set ca_data].
    destruct (decide (κ = (dev, b))) as [->|]; [by rewrite !kset_eq|]. rewrite !kset_ne by done. apply (tx_data Hx). }
  assert (∀ κ, ca_disk A2 κ = ca_disk A κ) as Hk2 by (intros κ; rewrite HA2; by case_decide).
  assert (∀ h', ca_held A2 h' = ca_held A h') as Hh2 by (intros h'; rewrite HA2; by case_decide).
  split; rewrite ?El; try done; try apply Hx.
  - by rewrite Ho2; apply (tx_out Hx).
  - intros h' κ. rewrite Hh2. apply (tx_held Hx).
  - intros κ. rewrite (cnt_iff _ _ (logged_absorb_iff b bs κ Hb)). rewrite HA2. case_decide as Hin'.
    + cbn. rewrite (tx_ref Hx). do 2 f_equal. apply cnt_iff. rewrite <- (home_in dev) in Hin'. split; [by left|]. intros [?| ->]; done.
    + rewrite pin_ref by (cbn; lia). case_decide as E.
      * subst κ. cbn. rewrite Hrb, (cnt_yes ((dev, b) ∈ H.*2)), (cnt_yes (_ ∨ _)), (cnt_no (is_logged bs (dev, b))) by (done || (by right) || by unfold is_logged; rewrite home_in). lia.
      * cbn. rewrite (tx_ref Hx). do 2 f_equal. apply cnt_iff. tauto.
  - rewrite filter_absorb by (try done; apply (tx_nodup Hx)). rewrite <- (tx_used Hx), HA2. case_decide; [done|].
    cbn. rewrite Hrb, u32_small by lia. nz_lia.
  - intros κ Hκ. rewrite logged_absorb_iff in Hκ by done. rewrite Hd2, Hk2, kset_ne by tauto.
    rewrite <- (tx_data Hx). apply (tx_clean Hx). tauto.
  - intros c. unfold absorb. case_decide; [apply (tx_cover Hx)|].
    intros [Hc|Hc%list_elem_of_singleton]%elem_of_app; [by apply (tx_cover Hx)|]. subst c.
    pose proof (home_i32 dev b Hb) as E. unfold home in E. by injection E as ->.
Qed.

Lemma tx_write_then y R C T H h b v {X} (k : SM X) Q :
  tx y R C T H → (h, (dev, b)) ∈ H → length v = Z.to_nat BSIZE → b ∈ T → Z.of_nat (length T) < size - 1 →
  (∀ y', tx y' R (kset C (dev, b) v) T H → runs k y' Q) →
  runs (fput h v;; flog_write h;; k) y Q.
Proof.
  intros Hx Hh Hv Hb HT Hk. pose proof (tx_write y R C T H h b v Hx Hh Hv Hb HT) as Hw.
  apply runs_bind_inv in Hw. apply runs_bind. eapply runs_mono; [exact Hw|]. intros [] y1 Hw1. cbn in Hw1 |- *.
  apply runs_bind. eapply runs_mono; [exact Hw1|]. intros [] y2 Hx2. by apply Hk.
Qed.

Lemma tx_brelse y R C T H h κ :
  tx y R C T ((h, κ) :: H) → runs (fbrelse h) y (λ _ y', tx y' R C T H).
Proof.
  intros (bs & logs & A & Hx). pose proof (proj2 (tx_held Hx h κ) ltac:(by left)) as Hca.
  pose proof (tx_nodup Hx) as Hnd. cbn in Hnd. apply NoDup_cons in Hnd as [Hout Hnd].
  pose proof (tx_ref Hx κ) as Hr. rewrite (cnt_yes (κ ∈ _)) in Hr by (cbn; by left). pose proof (cnt_le (is_logged bs κ)).
  assert (u32 (ca_ref A κ - 1) = Z.of_nat (cnt (is_logged bs κ))) as Hu by (rewrite Hr, u32_small; lia).
  assert (ca_flushed κ A) as Hf.
  { intros E. rewrite Hu in E. apply (tx_clean Hx). intros Hl. rewrite cnt_yes in E; done. }
  apply (tx_zoom y R); [apply (tx_rest Hx)|].
  eapply runs_mono; [apply (runs_lbrelse i pid k0 logs _ A (tx_lsim Hx) h κ Hca Hf)|].
  intros [] t Ht y' <- Hr'. exists bs, logs, (ca_brelse κ h A).
  assert (∀ κ', ca_ref (ca_brelse κ h A) κ' = Z.of_nat (cnt (is_logged bs κ') + cnt (κ' ∈ H.*2))) as Href.
  { intros κ'. cbn. destruct (decide (κ' = κ)) as [->|Hne].
    - rewrite kset_eq, Hu, (cnt_no (κ ∈ H.*2)) by done. lia.
    - rewrite kset_ne, (tx_ref Hx) by done. do 2 f_equal. apply cnt_iff. rewrite fmap_cons, elem_of_cons. cbn [snd]. tauto. }
  split; try apply Hx; try done.
  - destruct (tx_trans Hx) as [G1 G2 G3 G4 G5 G6 G7 G8 G9 G10]. split; try done.
    + intros κ' Hκ. rewrite Href. pose proof (G8 κ' Hκ) as E. rewrite (tx_ref Hx) in E.
      pose proof (cnt_iff (κ' ∈ ((h, κ) :: H).*2) (κ' = κ ∨ κ' ∈ H.*2) ltac:(rewrite fmap_cons, elem_of_cons; cbn [snd]; tauto)) as E2.
      unfold cnt in *. repeat case_decide; tauto || lia.
    + intros c Hc. rewrite Href. pose proof (cnt_le (home dev c ∈ H.*2)).
      rewrite (cnt_yes (is_logged _ _)) by (apply list_elem_of_fmap; eauto). lia.
  - intros h' κ'. cbn. unfold hset. destruct (Z.eqb_spec h' h) as [->|Hne].
    + split; [done|]. intros Hin. exfalso. apply Hout.
      assert (((h, κ') : Z * block) = (h, κ)) as [= ->] by (eapply (held_ne y R C bs T _ logs A); [done|by left|by right|by left]).
      apply list_elem_of_fmap. by exists (h, κ).
    + rewrite (tx_held Hx), elem_of_cons. split; [|by right]. intros [E|?]; [congruence|done].
  - intros κ' Hκ. apply (tx_dev Hx). cbn. by right.
  - cbn [ca_brelse ca_drop ca_reref ca_used ca_lock ca_ref]. rewrite Hu, (tx_used Hx), fmap_cons, filter_cons. cbn [snd]. rewrite Hr. case_decide.
    + rewrite (cnt_no (is_logged bs κ)) by done. nz_lia.
    + rewrite (cnt_yes (is_logged bs κ)) by done. nz_lia.
Qed.

Lemma tx_len y R C T H κ : tx y R C T H → length (C κ) = Z.to_nat BSIZE.
Proof. intros (bs & logs & A & Hx). rewrite <- (tx_data Hx). eapply babs_len, (tx_lsim Hx). Qed.

Lemma tx_grow y R C T T' H : T ⊆ T' → tx y R C T H → tx y R C T' H.
Proof. intros HT (bs & logs & A & Hx). exists bs, logs, A. split; try apply Hx. intros b Hb. by apply HT, (tx_cover Hx). Qed.

Lemma tx_ext y R C C' T H : (∀ κ, C κ = C' κ) → tx y R C T H → tx y R C' T H.
Proof. intros HC (bs & logs & A & Hx). exists bs, logs, A. split; try apply Hx. intros κ. rewrite <- HC. apply (tx_data Hx). Qed.

Lemma tx_kern y R C T H : tx y R C T H → kern_le k0 y.1 ∧ running y.1 i pid.
Proof. intros (bs & logs & A & Hx). destruct (tx_lsim Hx) as (Hb & Hk & _). split; [done|]. by eapply babs_running. Qed.

Lemma tx_log_size y R C T H : tx y R C T H → size ≤ LOGSIZE.
Proof. intros (bs & logs & A & Hx). apply (tr_geom _ _ _ _ _ _ (tx_trans Hx)). Qed.

(** Locks of the kernel change hands. *)
Lemma tx_step y R C T H k' : tx y R C T H → kern_le y.1 k' → tx (k', y.2) R C T H.
Proof.
  intros (bs & logs & A & Hx) Hle. destruct y as [k s]. exists bs, logs, A. split; try apply Hx.
  destruct (tx_lsim Hx) as (Hb & Hk0 & Hl). cbn in Hb, Hk0, Hl, Hle |- *. subst logs.
  apply (lsim_step i pid k0 (sy_logs s) (sy_logs s) k (sy_cache s) A); [|done]. split; [exact Hb|split; [exact Hk0|done]].
Qed.

Lemma tx_my_proc y R C T H : tx y R C T H → runs my_proc y (λ _ y', tx y' R C T H).
Proof.
  intros Hx. destruct (tx_kern _ _ _ _ _ Hx) as [Hle (Hk & Hp & Hi & Hpid)]. destruct y as [k s].
  unfold my_proc. kstep. apply (runs_curproc k s i); [apply Hk|done|]. unfold the_proc. kstep.
  apply (tx_step (k, s)); [done|]. apply kern_le_same; [done| |apply settle_ok, Hk]. apply same_kern_settle.
Qed.

(** A change outside the log and the cache. *)
Lemma tx_rest_set y R C T H (f : sys S → sys S) :
  (∀ c l s, f (set_cache c l s) = set_cache c l (f s)) → (∀ s, sy_cache (f s) = sy_cache s ∧ sy_logs (f s) = sy_logs s) →
  tx y R C T H → tx (y.1, f y.2) (f R) C T H.
Proof.
  intros Hf Hv (bs & logs & A & Hx). exists bs, logs, A. destruct (Hv y.2) as [E1 E2], (Hv R) as [E3 E4].
  split; try apply Hx.
  - pose proof (tx_lsim Hx) as Hs. cbn in Hs |- *. by rewrite E1, E2.
  - cbn. rewrite E3, E4, <- Hf. f_equal. apply (tx_rest Hx).
Qed.

(** Reading outside the log and the cache. *)
Lemma tx_view y R C T H {X} (f : sys S → X) : (∀ c l s, f (set_cache c l s) = f s) → tx y R C T H → f y.2 = f R.
Proof. intros Hf (bs & logs & A & Hx). rewrite <- (tx_rest Hx). by rewrite Hf. Qed.
End FsTx.

Arguments tx_bread {S BC i pid k0 dev start size y R C T H b} _ _ _ _ _.
Arguments tx_get {S BC i pid k0 dev start size y R C T H h κ Q} _ _ _.
Arguments tx_write_then {S BC i pid k0 dev start size y R C T H h b v X k Q} _ _ _ _ _ _.
Arguments tx_brelse {S BC i pid k0 dev start size y R C T H h κ} _.
Arguments tx_len {S BC i pid k0 dev start size y R C T H} κ _.
Arguments tx_grow {S BC i pid k0 dev start size y R C T} T' {H} _ _.
Arguments tx_ext {S BC i pid k0 dev start size y R C} C' {T H} _ _.
Arguments tx_kern {S BC i pid k0 dev start size y R C T H} _.
Arguments tx_log_size {S BC i pid k0 dev start size y R C T H} _.
Arguments tx_view {S BC i pid k0 dev start size y R C T H X} f _ _.
Arguments tx_rest_set {S BC i pid k0 dev start size y R C T H} f _ _ _.
Arguments tx_my_proc {S BC i pid k0 dev start size y R C T H} _.
Arguments tx_step {S BC i pid k0 dev start size y R C T H} k' _ _.
Arguments tx_lsim {S BC i pid k0 dev start size y R C bs T H logs A} _.
Arguments tx_trans {S BC i pid k0 dev start size y R C bs T H logs A} _.
Arguments tx_cover {S BC i pid k0 dev start size y R C bs T H logs A} _.

(** * Allocation of disk blocks ([balloc] and [bfree] of kernel/fs.c)

    [marked C b]: block [b] is in use according to the free map in the contents
    [C] of the disk. *)

(** ** Bits of a bitmap block *)

Lemma land_pow2 a n : 0 ≤ n → (Z.land a (Z.shiftl 1 n) =? 0) = negb (Z.testbit a n).
Proof.
  intros Hn. rewrite Z.shiftl_1_l. destruct (Z.testbit a n) eqn:E.
  - apply Z.eqb_neq. intros H0. assert (Z.testbit (Z.land a (2 ^ n)) n = true) as Ht.
    { rewrite Z.land_spec, E, Z.pow2_bits_true; done. }
    rewrite H0, Z.bits_0 in Ht. done.
  - apply Z.eqb_eq, Z.bits_inj'. intros m Hm. rewrite Z.land_spec, Z.bits_0.
    destruct (decide (m = n)) as [->|]; [by rewrite E|]. by rewrite Z.pow2_bits_false, andb_false_r by done.
Qed.

Lemma bit_clear_spec d bi : 0 ≤ bi → bit_clear d bi = negb (Z.testbit (aget d (bi / 8)) (bi mod 8)).
Proof. intros. apply land_pow2. dlia. Qed.

Section bits.
Context (d : list Z) (bi : Z) (Hd : length d = Z.to_nat BSIZE) (Hbi : 0 ≤ bi < BPB).

Lemma bit_idx bj : 0 ≤ bj < BPB → 0 ≤ bj / 8 < alen d.
Proof using Hd. clear bi Hbi. unfold alen. rewrite Hd. unfold BPB, BSIZE. dlia. Qed.

Lemma length_bit_set : length (bit_set d bi) = length d.
Proof. apply length_insert. Qed.
Lemma length_bit_reset : length (bit_reset d bi) = length d.
Proof. apply length_insert. Qed.

Lemma bit_clear_set bj : 0 ≤ bj < BPB →
  bit_clear (bit_set d bi) bj = if bj =? bi then false else bit_clear d bj.
Proof using Hd Hbi.
  intros Hbj. rewrite !bit_clear_spec by lia. unfold bit_set.
  destruct (decide (bj / 8 = bi / 8)) as [E|E].
  - rewrite E, aget_aset_eq by by apply bit_idx. rewrite Z.lor_spec, Z.shiftl_1_l, Z.pow2_bits_eqb by dlia.
    destruct (Z.eqb_spec bj bi) as [->|Hne]; [by rewrite Z.eqb_refl, orb_true_r|].
    rewrite (proj2 (Z.eqb_neq (bi mod 8) (bj mod 8))) by dlia. by rewrite orb_false_r.
  - rewrite aget_aset_ne by (try apply bit_idx; try done; dlia). by rewrite (proj2 (Z.eqb_neq bj bi)) by (intros ->; done).
Qed.

Lemma bit_clear_reset bj : 0 ≤ bj < BPB →
  bit_clear (bit_reset d bi) bj = if bj =? bi then true else bit_clear d bj.
Proof using Hd Hbi.
  intros Hbj. rewrite !bit_clear_spec by lia. unfold bit_reset.
  destruct (decide (bj / 8 = bi / 8)) as [E|E].
  - rewrite E, aget_aset_eq by by apply bit_idx. rewrite Z.land_spec, Z.lnot_spec, Z.shiftl_1_l, Z.pow2_bits_eqb by dlia.
    destruct (Z.eqb_spec bj bi) as [->|Hne]; [by rewrite Z.eqb_refl, andb_false_r|].
    rewrite (proj2 (Z.eqb_neq (bi mod 8) (bj mod 8))) by dlia. by rewrite andb_true_r.
  - rewrite aget_aset_ne by (try apply bit_idx; try done; dlia). by rewrite (proj2 (Z.eqb_neq bj bi)) by (intros ->; done).
Qed.

(** Freeing what was just allocated restores the map. *)
Lemma bit_reset_set : bit_clear d bi = true → bit_reset (bit_set d bi) bi = d.
Proof using Hd Hbi.
  intros Hc. unfold bit_reset, bit_set. rewrite aget_aset_eq by by apply bit_idx. rewrite aset_aset.
  rewrite <- (aset_aget d (bi / 8)) at 3 by by apply bit_idx. f_equal. apply Z.bits_inj'. intros m Hm.
  rewrite Z.land_spec, Z.lor_spec, Z.lnot_spec by done. rewrite bit_clear_spec in Hc by lia.
  destruct (decide (m = bi mod 8)) as [->|Hne].
  - apply negb_true_iff in Hc. rewrite Hc, Z.shiftl_1_l, Z.pow2_bits_true by dlia. done.
  - rewrite Z.shiftl_1_l, Z.pow2_bits_false by done. by rewrite orb_false_r, andb_true_r.
Qed.
End bits.

(** ** The layout of the disk, as mkfs makes it *)
Record layout (dev start size : Z) (sb : superblock) (nmeta : Z) : Prop := {
  la_log : start + size ≤ sb_inodestart sb;
  la_inode : sb_inodestart sb + sb_ninodes sb / IPB < sb_bmapstart sb;
  la_bmap : sb_bmapstart sb + sb_size sb / BPB < nmeta;
  la_meta : nmeta ≤ sb_size sb;
  la_size : 0 < sb_size sb ≤ 2 ^ 31;
  la_ninodes : 0 ≤ sb_ninodes sb;
  la_start : 0 < start ∧ 0 < size;
  la_dev : 0 ≤ dev < 2 ^ 32;
}.

Section FsBlock.
Context {S : Type} `{BC : BufCache S} (i : nat) (pid : Z) (k0 : kern) (dev start size : Z).
Context (sb : superblock) (nmeta : Z) (Hla : layout dev start size sb nmeta).
Abbreviation SM := (M (kern * sys S)).
Abbreviation tx := (tx i pid k0 dev start size).
Implicit Types (C : block → list Z) (y : kern * sys S).

Definition marked C (b : Z) : bool := negb (bit_clear (C (dev, BBLOCK b sb)) (b mod BPB)).

(** The first [nmeta] blocks are never free. *)
Definition meta_marked C : Prop := ∀ b, 0 ≤ b < nmeta → marked C b = true.

Lemma bblock_eq b : 0 ≤ b < sb_size sb → BBLOCK b sb = b / BPB + sb_bmapstart sb ∧ sb_bmapstart sb ≤ BBLOCK b sb < nmeta.
Proof using Hla.
  intros Hb. destruct Hla as [H1 H2 H3 H4 H5 H6 H7 H8]. unfold BBLOCK.
  assert (0 ≤ sb_ninodes sb / IPB) by (apply Z.div_pos; [done|by unfold IPB, BSIZE, DINODE]).
  assert (0 ≤ b / BPB ≤ sb_size sb / BPB) by (unfold BPB, BSIZE in *; dlia).
  rewrite u32_small by lia. lia.
Qed.

Lemma bblock_ok b : 0 ≤ b < sb_size sb → block_ok (dev, BBLOCK b sb) ∧ ¬ in_log dev start size (dev, BBLOCK b sb).
Proof using Hla.
  intros Hb. destruct (bblock_eq b Hb) as [_ Hr]. destruct Hla as [H1 H2 H3 H4 H5 H6 H7 H8].
  assert (0 ≤ sb_ninodes sb / IPB) by (apply Z.div_pos; [done|by unfold IPB, BSIZE, DINODE]).
  split; [split_and!; cbn; try lia; intros [= ? ?]; lia|]. unfold in_log. cbn. lia.
Qed.

Lemma data_ok b : nmeta ≤ b < sb_size sb → block_ok (dev, b) ∧ ¬ in_log dev start size (dev, b).
Proof using Hla.
  intros Hb. destruct (bblock_eq 0) as [_ Hr]; [destruct Hla; lia|]. destruct Hla as [H1 H2 H3 H4 H5 H6 H7 H8].
  assert (0 ≤ sb_ninodes sb / IPB) by (apply Z.div_pos; [done|by unfold IPB, BSIZE, DINODE]).
  split; [split_and!; cbn; try lia; intros [= ? ?]; lia|]. unfold in_log. cbn. lia.
Qed.

(** The map after bit [b] is changed. *)
Definition map_set C (b : Z) : block → list Z := kset C (dev, BBLOCK b sb) (bit_set (C (dev, BBLOCK b sb)) (b mod BPB)).
Definition map_reset C (b : Z) : block → list Z := kset C (dev, BBLOCK b sb) (bit_reset (C (dev, BBLOCK b sb)) (b mod BPB)).

Lemma bblock_inj b b' : 0 ≤ b < sb_size sb → 0 ≤ b' < sb_size sb → BBLOCK b sb = BBLOCK b' sb → b mod BPB = b' mod BPB → b = b'.
Proof using Hla.
  intros Hb Hb'. destruct (bblock_eq b Hb) as [-> _], (bblock_eq b' Hb') as [-> _]. unfold BPB, BSIZE. dlia.
Qed.

Lemma marked_set C b b' : (∀ κ, length (C κ) = Z.to_nat BSIZE) → 0 ≤ b < sb_size sb → 0 ≤ b' < sb_size sb →
  marked (map_set C b) b' = if b' =? b then true else marked C b'.
Proof using Hla.
  intros HC Hb Hb'. unfold marked, map_set. unfold kset. case_decide as E.
  - injection E as E. rewrite bit_clear_set by (try apply HC; unfold BPB, BSIZE; dlia).
    destruct (Z.eqb_spec b' b) as [->|Hne]; [by rewrite Z.eqb_refl|].
    rewrite (proj2 (Z.eqb_neq (b' mod BPB) (b mod BPB))) by (intros E2; by apply Hne, bblock_inj). by rewrite E.
  - by rewrite (proj2 (Z.eqb_neq b' b)) by (intros ->; done).
Qed.

Lemma marked_reset C b b' : (∀ κ, length (C κ) = Z.to_nat BSIZE) → 0 ≤ b < sb_size sb → 0 ≤ b' < sb_size sb →
  marked (map_reset C b) b' = if b' =? b then false else marked C b'.
Proof using Hla.
  intros HC Hb Hb'. unfold marked, map_reset. unfold kset. case_decide as E.
  - injection E as E. rewrite bit_clear_reset by (try apply HC; unfold BPB, BSIZE; dlia).
    destruct (Z.eqb_spec b' b) as [->|Hne]; [by rewrite Z.eqb_refl|].
    rewrite (proj2 (Z.eqb_neq (b' mod BPB) (b mod BPB))) by (intros E2; by apply Hne, bblock_inj). by rewrite E.
  - by rewrite (proj2 (Z.eqb_neq b' b)) by (intros ->; done).
Qed.

(** The scan of one bitmap block finds its first free block. *)
Lemma runs_scan y R C T H h j :
  tx y R C T ((h, (dev, BBLOCK (j * BPB) sb)) :: H) → 0 ≤ j → j * BPB < sb_size sb →
  runs (balloc_scan (sb_size sb) (j * BPB) h) y (λ r y', y' = y ∧
    match r with
    | Some bi => 0 ≤ bi < BPB ∧ j * BPB + bi < sb_size sb ∧ marked C (j * BPB + bi) = false ∧
        ∀ b, j * BPB ≤ b < j * BPB + bi → marked C b = true
    | None => ∀ b, j * BPB ≤ b < (j + 1) * BPB → b < sb_size sb → marked C b = true
    end).
Proof using Hla.
  intros Hx Hj Hs. unfold balloc_scan.
  assert (∀ bi, 0 ≤ bi < BPB → j * BPB + bi < sb_size sb →
    marked C (j * BPB + bi) = negb (bit_clear (C (dev, BBLOCK (j * BPB) sb)) bi)) as Hm.
  { intros bi Hbi Hlt. unfold marked. destruct (bblock_eq (j * BPB + bi)) as [E1 _]; [unfold BPB, BSIZE in *; lia|].
    destruct (bblock_eq (j * BPB)) as [E2 _]; [unfold BPB, BSIZE in *; lia|].
    replace (BBLOCK (j * BPB + bi) sb) with (BBLOCK (j * BPB) sb) by (rewrite E1, E2; unfold BPB, BSIZE in *; dlia).
    replace ((j * BPB + bi) mod BPB) with bi by (unfold BPB, BSIZE in *; dlia). done. }
  eapply (runs_loop _ (λ bi y', y' = y ∧ 0 ≤ bi ≤ BPB ∧
    ∀ b, j * BPB ≤ b < j * BPB + bi → marked C b = true) (λ bi _, Z.to_nat (BPB - bi))).
  - intros bi y' (-> & Hbi & Hall). kstep; intros Hb.
    + kstep. split; [done|]. intros b Hb1 Hb2. apply Hall. apply negb_true_iff, andb_false_iff in Hb as [Hb|Hb]; zify_bool; unfold BPB, BSIZE in *; lia.
    + zify_bool. kstep. apply (tx_get Hx ltac:(by left)).
      specialize (Hm bi ltac:(lia) ltac:(lia)). kstep; intros Hc; rewrite Hc in Hm; kstep.
      * split; [done|]. split; [lia|]. split; [lia|]. done.
      * split; [|lia]. split; [done|]. split; [lia|]. intros b Hb. destruct (decide (b = j * BPB + bi)) as [->|]; [done|]. apply Hall. lia.
  - split; [done|]. split; [unfold BPB, BSIZE; lia|]. intros b Hb. lia.
  - unfold BPB, BSIZE. lia.
Qed.

Lemma runs_the_sb y R C T H Q : tx y R C T H → sy_sb R = sb → Q sb y → runs the_sb y Q.
Proof using. intros Hx Hsb HQ. apply runs_gets. by rewrite (tx_view sy_sb ltac:(done) Hx), Hsb. Qed.

Lemma room_of (T : list Z) (H : list (Z * block)) n : Z.of_nat (length T) + Z.of_nat n < size - 1 → size ≤ LOGSIZE → (length H ≤ n + 1)%nat →
  (length T + length H < Z.to_nat NBUF)%nat.
Proof using. unfold LOGSIZE, NBUF, MAXOPBLOCKS. lia. Qed.

Lemma runs_bzero y R C T H b :
  tx y R C T H → block_ok (dev, b) → ¬ in_log dev start size (dev, b) → (dev, b) ∉ H.*2 → b ∈ T →
  Z.of_nat (length T) < size - 1 → (length H ≤ 1)%nat →
  runs (bzero dev b) y (λ _ y', tx y' R (kset C (dev, b) (replicate (Z.to_nat BSIZE) 0)) T H).
Proof using.
  intros Hx Hb Hnl Hnh HbT HT HH. unfold bzero. pose proof (tx_log_size Hx) as Hls. kstep.
  eapply runs_mono; [apply (tx_bread Hx); try done; apply (room_of T H 0); lia|].
  intros h y1 Hx1. cbn beta.
  eapply (tx_write_then Hx1); [by left|by rewrite length_replicate|done|done|].
  intros y2 Hx2. by eapply runs_mono; [apply (tx_brelse Hx2)|].
Qed.

(** The contents once block [b] is allocated. *)
Definition alloc C (b : Z) : block → list Z := kset (map_set C b) (dev, b) (replicate (Z.to_nat BSIZE) 0).

Lemma runs_balloc y R C T H :
  tx y R C T H → sy_sb R = sb → meta_marked C → (∃ b, 0 ≤ b < sb_size sb ∧ marked C b = false) →
  (∀ b, (dev, b) ∈ H.*2 → nmeta ≤ b ∧ marked C b = true) → Z.of_nat (length T) + 2 < size - 1 → (length H ≤ 1)%nat →
  runs (balloc dev) y (λ b y', nmeta ≤ b < sb_size sb ∧ marked C b = false ∧ (∀ b', 0 ≤ b' < b → marked C b' = true) ∧
    tx y' R (alloc C b) (BBLOCK b sb :: b :: T) H).
Proof using Hla.
  intros Hx Hsb Hmeta (bf & Hbf & Hfree) Hheld HT HH. unfold balloc. kstep. eapply runs_the_sb; [done|done|].
  pose proof (tx_log_size Hx) as Hls. pose proof (la_size _ _ _ _ _ Hla) as Hsz.
  assert (∀ b, 0 ≤ b < sb_size sb → (dev, BBLOCK b sb) ∉ H.*2) as Hbh.
  { intros b Hb Hin. destruct (Hheld _ Hin) as [Hge _]. destruct (bblock_eq b Hb) as [_ ?]. lia. }
  eapply (runs_loop _ (λ b y', ∃ j, b = j * BPB ∧ 0 ≤ j ∧ tx y' R C T H ∧ ∀ b', 0 ≤ b' < b → b' < sb_size sb → marked C b' = true)
    (λ b _, Z.to_nat (sb_size sb / BPB + 1 - b / BPB))).
  - intros b y1 (j & -> & Hj & Hx1 & Hall). kstep; intros Hb; zify_bool.
    { rewrite Hall in Hfree; [done|lia|lia]. }
    kstep. assert (0 ≤ j * BPB < sb_size sb) as Hjr by (unfold BPB, BSIZE in *; lia). destruct (bblock_ok _ Hjr) as [Hok Hnl].
    eapply runs_mono; [apply (tx_bread Hx1); try done; [by apply Hbh|apply (room_of T H 2); lia]|].
    intros h y2 Hx2. cbn beta. kstep. eapply runs_mono; [by apply (runs_scan y2 R C T H h j)|].
    intros [bi|] y3 [-> Hr].
    + destruct Hr as (Hbi & Hlt & Hclr & Hfirst). kstep.
      apply (tx_get Hx2 ltac:(by left)).
      set (b := j * BPB + bi) in *.
      assert (0 ≤ b < sb_size sb) as Hbr by lia.
      assert (BBLOCK (j * BPB) sb = BBLOCK b sb) as Ebb.
      { destruct (bblock_eq _ Hjr) as [-> _], (bblock_eq b Hbr) as [-> _]. unfold b, BPB, BSIZE in *. dlia. }
      assert (bi = b mod BPB) as Ebi by (unfold b, BPB, BSIZE in *; dlia).
      assert (∀ b', 0 ≤ b' < b → marked C b' = true) as Hfst.
      { intros b' Hb'. destruct (decide (b' < j * BPB)); [apply Hall; lia|apply Hfirst; lia]. }
      assert (nmeta ≤ b) as Hge by (destruct (decide (nmeta ≤ b)); [done|]; rewrite Hmeta in Hclr; [done|lia]).
      rewrite Ebb in *. rewrite Ebi in *. destruct (data_ok b ltac:(lia)) as [Hdok Hdnl].
      apply (tx_grow (BBLOCK b sb :: b :: T)) in Hx2; [|set_solver].
      eapply (tx_write_then Hx2); [by left|rewrite length_bit_set; apply (tx_len _ Hx2)|by left|cbn [length]; lia|].
      intros y3 Hx3. kstep. eapply runs_mono; [apply (tx_brelse Hx3)|].
      intros [] y4 Hx4. kstep.
      eapply runs_mono; [apply (runs_bzero y4 R _ _ H b Hx4 Hdok Hdnl); [intros Hin; destruct (Hheld _ Hin); congruence|set_solver|cbn [length]; lia|done]|].
      intros [] y5 Hx5. kstep. split_and!; done || lia.
    + kstep. eapply runs_mono; [apply (tx_brelse Hx2)|].
      intros [] y3 Hx3. kstep. split.
      * exists (j + 1). split; [lia|]. split; [lia|]. split; [done|]. intros b' Hb' Hs'.
        destruct (decide (b' < j * BPB)); [apply Hall; lia|apply Hr; lia].
      * unfold BPB, BSIZE in *. dlia.
  - exists 0. split; [done|]. split; [done|]. split; [done|]. lia.
  - unfold BPB, BSIZE. dlia.
Qed.

Lemma runs_bfree y R C T H b :
  tx y R C T H → sy_sb R = sb → nmeta ≤ b < sb_size sb → marked C b = true →
  (∀ b, (dev, b) ∈ H.*2 → nmeta ≤ b) → Z.of_nat (length T) + 1 < size - 1 → (length H ≤ 1)%nat →
  runs (bfree dev b) y (λ _ y', tx y' R (map_reset C b) (BBLOCK b sb :: T) H).
Proof using Hla.
  intros Hx Hsb Hb Hm Hheld HT HH. unfold bfree. kstep. eapply runs_the_sb; [done|done|].
  pose proof (tx_log_size Hx) as Hls. assert (0 ≤ b < sb_size sb) as Hb0.
  { destruct (bblock_eq 0) as [_ ?]; [destruct Hla; lia|]. pose proof (la_start _ _ _ _ _ Hla). pose proof (la_log _ _ _ _ _ Hla).
    pose proof (la_inode _ _ _ _ _ Hla). assert (0 ≤ sb_ninodes sb / IPB) by (apply Z.div_pos; [apply (la_ninodes _ _ _ _ _ Hla)|done]). lia. }
  destruct (bblock_ok b Hb0) as [Hok Hnl]. destruct (bblock_eq b Hb0) as [_ Hlt]. kstep.
  eapply runs_mono; [apply (tx_bread Hx Hok Hnl); [intros Hin; apply Hheld in Hin; lia|apply (room_of T H 1); lia]|].
  intros h y1 Hx1. cbn beta zeta. kstep. apply (tx_get Hx1 ltac:(by left)). unfold marked in Hm. apply negb_true_iff in Hm. kif.
  apply (tx_grow (BBLOCK b sb :: T)) in Hx1; [|set_solver].
  eapply (tx_write_then Hx1); [by left|rewrite length_bit_reset; apply (tx_len _ Hx1)|by left|cbn [length]; lia|].
  intros y2 Hx2. exact (tx_brelse Hx2).
Qed.

(** A pass over a bitmap block without a free bit. *)
Lemma runs_balloc_pass y R C T H j (k : option Z → Z → SM (Z + Z)) Q :
  tx y R C T H → 0 ≤ j → j * BPB < sb_size sb → (∀ b, 0 ≤ b < sb_size sb → marked C b = true) →
  (∀ b, (dev, b) ∈ H.*2 → nmeta ≤ b) → Z.of_nat (length T) + 2 < size - 1 → (length H ≤ 1)%nat →
  (∀ h y', tx y' R C T ((h, (dev, BBLOCK (j * BPB) sb)) :: H) → runs (k None h) y' Q) →
  runs (bp ← fbread dev (BBLOCK (j * BPB) sb); r ← balloc_scan (sb_size sb) (j * BPB) bp; k r bp) y Q.
Proof using Hla.
  intros Hx Hj Hjs Hall Hheld HT HH Hk. pose proof (tx_log_size Hx) as Hls.
  assert (0 ≤ j * BPB < sb_size sb) as Hjr by (unfold BPB, BSIZE in *; lia). destruct (bblock_ok _ Hjr) as [Hok Hnl].
  destruct (bblock_eq _ Hjr) as [_ ?]. kstep.
  eapply runs_mono; [apply (tx_bread Hx Hok Hnl); [intros Hin; apply Hheld in Hin; lia|apply (room_of T H 2); lia]|].
  intros h y2 Hx2. cbn beta. kstep. eapply runs_mono; [by apply (runs_scan y2 R C T H h j)|].
  intros [bi|] y3 [-> Hr]; [|by apply Hk]. destruct Hr as (Hbi & Hlt & Hclr & _). rewrite Hall in Hclr; [done|].
  unfold BPB, BSIZE in *. lia.
Qed.

Lemma halts_balloc y R C T H :
  tx y R C T H → sy_sb R = sb → (∀ b, 0 ≤ b < sb_size sb → marked C b = true) →
  (∀ b, (dev, b) ∈ H.*2 → nmeta ≤ b) → Z.of_nat (length T) + 2 < size - 1 → (length H ≤ 1)%nat →
  halts (balloc dev) y (Panic "balloc: out of blocks") (λ y', tx y' R C T H).
Proof using Hla.
  intros Hx Hsb Hall Hheld HT HH. pose proof (la_size _ _ _ _ _ Hla) as Hsz. unfold balloc.
  apply halts_bind_r. eapply runs_the_sb; [done|done|].
  apply (halts_loop _ (λ b y', ∃ j, b = j * BPB ∧ 0 ≤ j ∧ tx y' R C T H) (λ b _, Z.to_nat (sb_size sb / BPB + 1 - b / BPB))).
  - intros b y1 (j & -> & Hj & Hx1). destruct (Z.ltb_spec (j * BPB) (sb_size sb)) as [Hlt|Hge]; cbn [negb]; [left|by right].
    apply (runs_balloc_pass y1 R C T H j); try done. intros h y2 Hx2. kstep.
    eapply runs_mono; [apply (tx_brelse Hx2)|]. intros [] y3 Hx3. kstep. eexists. split; [done|]. split.
    + exists (j + 1). split; [lia|]. split; [lia|done].
    + unfold BPB, BSIZE in *. dlia.
  - exists 0. split; [done|]. split; done.
  - unfold BPB, BSIZE. dlia.
Qed.
End FsBlock.
