(* ===== verification/FsMap.v ===== *)
(** * The blocks of a file ([bmap] of kernel/fs.c)

    [blk C e bn] is the disk block of block [bn] of inode [e], 0 if there is
    none.  [ino_ok C e]: the blocks of the inode are data blocks in use,
    each used once, and every block below its size is there. *)

From S2P Require Import Prelude Memory Riscv Spinlock Core CString Kalloc Vm Sleeplock BufCache Log Crash LogProof LogSafety Sys Fs FsBlock.

(** ** Fields *)

Lemma length_wr off n v d : 0 ≤ off → 0 ≤ n → off + n ≤ alen d → length (wr off n v d) = length d.
Proof. intros. unfold wr, alen in *. apply length_splice. rewrite length_le_enc. lia. Qed.

Lemma rd_wr_eq off n v d : 0 ≤ off → 0 ≤ n → off + n ≤ alen d → rd off n (wr off n v d) = v mod 2 ^ (8 * n).
Proof.
  intros. unfold rd, wr, alen in *. rewrite <- (length_le_enc (Z.to_nat n) v) at 1.
  rewrite slice_splice_eq by (rewrite length_le_enc; lia). rewrite le_dec_enc. f_equal. f_equal. lia.
Qed.

Lemma rd_wr_ne off n v d off' n' : 0 ≤ off → 0 ≤ n → 0 ≤ off' → 0 ≤ n' → off + n ≤ alen d →
  off' + n' ≤ off ∨ off + n ≤ off' → rd off' n' (wr off n v d) = rd off' n' d.
Proof.
  intros. unfold rd, wr, alen in *. f_equal. apply slice_splice_ne; rewrite length_le_enc; lia.
Qed.

Section FsMap.
Context {S : Type} `{BC : BufCache S} (i : nat) (pid : Z) (k0 : kern) (dev start size : Z).
Context (sb : superblock) (nmeta : Z) (Hla : layout dev start size sb nmeta).
Abbreviation SM := (M (kern * sys S)).
Abbreviation tx := (tx i pid k0 dev start size).
Abbreviation marked := (marked dev sb).
Abbreviation alloc := (alloc dev sb).
Abbreviation meta_marked := (meta_marked dev sb nmeta).
Implicit Types (C : block → list Z) (y : kern * sys S) (e : inode).

(** A data block in use. *)
Definition good C (b : Z) : Prop := nmeta ≤ b < sb_size sb ∧ marked C b = true.

(** Blocks that no allocation touches: those before the free map, and data
    blocks in use. *)
Definition stable C (κ : block) : Prop := κ.1 = dev ∧ (0 ≤ κ.2 < sb_bmapstart sb ∨ good C κ.2).

(** [C'] keeps the stable blocks of [C] outside [own]. *)
Definition keeps (own : Z → Prop) C C' : Prop :=
  (∀ κ, stable C κ → stable C' κ) ∧ ∀ κ, stable C κ → ¬ own κ.2 → C' κ = C κ.

Definition nowhere : Z → Prop := λ _, False.

Lemma fkeeps_refl own C : keeps own C C.
Proof. done. Qed.
Lemma fkeeps_trans own C1 C2 C3 : keeps own C1 C2 → keeps own C2 C3 → keeps own C1 C3.
Proof. intros [H1 H2] [H3 H4]. split; [auto|]. intros κ Hs Ho. rewrite H4, H2; auto. Qed.
Lemma keeps_mono (own own' : Z → Prop) C C' : (∀ b, own b → own' b) → keeps own C C' → keeps own' C C'.
Proof. intros Hi [H1 H2]. split; [done|]. intros κ Hs Ho. apply H2; auto. Qed.

(** At least [n] free blocks. *)
Definition free_blocks C (n : nat) : Prop :=
  ∃ L, NoDup L ∧ length L = n ∧ ∀ b, b ∈ L → 0 ≤ b < sb_size sb ∧ marked C b = false.

(** The file system's part of the contents. *)
Record map_ok C : Prop := {
  mo_meta : meta_marked C;
  mo_len : ∀ κ, length (C κ) = Z.to_nat BSIZE;
}.

Section Alloc.
Context C b (HC : map_ok C) (Hb : nmeta ≤ b < sb_size sb) (Hm : marked C b = false).

Lemma meta_pos : 0 < sb_bmapstart sb < nmeta.
Proof using Hla.
  destruct (bblock_eq dev start size sb nmeta Hla 0) as [_ ?]; [destruct Hla; lia|]. destruct Hla as [H1 H2 H3 H4 H5 H6 H7 H8].
  assert (0 ≤ sb_ninodes sb / IPB) by (apply Z.div_pos; [done|by unfold IPB, BSIZE, DINODE]). lia.
Qed.

Lemma alloc_at κ : κ ≠ (dev, BBLOCK b sb) → κ ≠ (dev, b) → alloc C b κ = C κ.
Proof. intros H1 H2. unfold FsBlock.alloc, map_set. by rewrite !kset_ne. Qed.

Lemma alloc_new : alloc C b (dev, b) = replicate (Z.to_nat BSIZE) 0.
Proof. unfold FsBlock.alloc. by rewrite kset_eq. Qed.

Lemma marked_alloc b' : 0 ≤ b' < sb_size sb → marked (alloc C b) b' = if b' =? b then true else marked C b'.
Proof using Hla HC Hb.
  pose proof meta_pos. intros Hb'. rewrite <- (marked_set dev start size sb nmeta Hla C b b' (mo_len _ HC)) by lia.
  unfold FsBlock.alloc, FsBlock.marked. rewrite kset_ne; [done|]. intros [= E].
  pose proof (bblock_eq dev start size sb nmeta Hla b' Hb'). lia.
Qed.

Lemma alloc_ok : map_ok (alloc C b).
Proof using Hla HC Hb.
  pose proof meta_pos. split.
  - intros b' Hb'. rewrite marked_alloc by (pose proof (la_meta _ _ _ _ _ Hla); lia).
    case_match; [done|]. by apply (mo_meta _ HC).
  - intros κ. unfold FsBlock.alloc, map_set, kset. repeat case_decide; rewrite ?length_replicate, ?length_bit_set; done || apply (mo_len _ HC).
Qed.

Lemma alloc_good b' : good C b' → good (alloc C b) b' ∧ b' ≠ b.
Proof using Hla HC Hb Hm.
  pose proof meta_pos. intros [Hr Hk]. split; [|intros ->; congruence]. split; [done|].
  rewrite marked_alloc by lia. by case_match.
Qed.

Lemma alloc_new_good : good (alloc C b) b.
Proof using Hla HC Hb. pose proof meta_pos. split; [done|]. rewrite marked_alloc by lia. by rewrite Z.eqb_refl. Qed.

Lemma alloc_keeps : keeps nowhere C (alloc C b).
Proof using Hla HC Hb Hm.
  pose proof meta_pos as Hp. pose proof (bblock_eq dev start size sb nmeta Hla b ltac:(lia)) as [_ Hbb]. split.
  - intros κ [Hd [Hs|Hg]]; (split; [done|]); [by left|]. right. by apply alloc_good.
  - intros [d κ] [Hd Hs] _. cbn in Hd, Hs. subst d. apply alloc_at; intros [= ->].
    + destruct Hs as [?|[? ?]]; lia.
    + destruct Hs as [?|[? ?]]; [lia|congruence].
Qed.

Lemma alloc_free n : free_blocks C (Datatypes.S n) → free_blocks (alloc C b) n.
Proof using Hla HC Hb.
  pose proof meta_pos. intros (L & Hn & Hlen & HL). exists (take n (filter (.≠ b) L)).
  assert (n ≤ length (filter (.≠ b) L))%nat as Hge.
  { enough (length L ≤ 1 + length (filter (.≠ b) L))%nat by lia. change (1 + ?x)%nat with (length (b :: filter (.≠ b) L)).
    apply submseteq_length, NoDup_submseteq; [done|]. intros x Hx. destruct (decide (x = b)) as [->|]; [by left|].
    right. by apply list_elem_of_filter. }
  split; [apply (sublist_NoDup _ (filter (.≠ b) L)); [by apply NoDup_filter|apply sublist_take]|]. split; [rewrite length_take; lia|].
  intros x Hx%list_elem_of_take. apply list_elem_of_filter in Hx as [Hne Hx]. destruct (HL x Hx) as [Hr Hx0].
  split; [done|]. rewrite marked_alloc by done. by rewrite (proj2 (Z.eqb_neq x b)).
Qed.
End Alloc.

(** ** The block map of an inode *)

Definition indirect e : Z := aget (i_addrs e) NDIRECT.
Definition blk C e (bn : Z) : Z :=
  if bn <? NDIRECT then aget (i_addrs e) bn
  else if indirect e =? 0 then 0 else ind_get (C (dev, indirect e)) (bn - NDIRECT).

Record blocks_ok C (a : Z) (f : Z → Z) : Prop := {
  bo_ind : a = 0 ∨ good C a;
  bo_blk : ∀ bn, 0 ≤ bn < MAXFILE → f bn = 0 ∨ good C (f bn);
  bo_inj : ∀ bn bn', 0 ≤ bn < MAXFILE → 0 ≤ bn' < MAXFILE → f bn = f bn' → f bn ≠ 0 → bn = bn';
  bo_ne : ∀ bn, 0 ≤ bn < MAXFILE → f bn ≠ 0 → f bn ≠ a;
}.

Record ino_ok C e : Prop := {
  io_dev : i_dev e = dev;
  io_addrs : alen (i_addrs e) = NDIRECT + 1;
  io_blocks : blocks_ok C (indirect e) (blk C e);
  io_size : 0 ≤ i_size e ≤ MAXFILE * BSIZE;
  io_all : ∀ bn, 0 ≤ bn → bn * BSIZE < i_size e → blk C e bn ≠ 0;
}.

(** The blocks of a file. *)
Definition owns C e (b : Z) : Prop := b ≠ 0 ∧ (b = indirect e ∨ ∃ bn, 0 ≤ bn < MAXFILE ∧ b = blk C e bn).

Lemma good_pos C b : good C b → 0 < b.
Proof using Hla. pose proof meta_pos. intros [? _]. lia. Qed.

Lemma owns_good C e b : blocks_ok C (indirect e) (blk C e) → owns C e b → good C b.
Proof. intros [H1 H2 _ _] (Hb & [->|(bn & Hbn & ->)]); [by destruct H1|by destruct (H2 bn Hbn)]. Qed.

Lemma blk_same C C' e bn : (indirect e ≠ 0 → C' (dev, indirect e) = C (dev, indirect e)) → blk C' e bn = blk C e bn.
Proof.
  intros HC. unfold blk. destruct (bn <? NDIRECT); [done|]. destruct (Z.eqb_spec (indirect e) 0); [done|]. by rewrite HC.
Qed.

Lemma blocks_same C C' a f g : (∀ b, good C b → good C' b) → (∀ bn, g bn = f bn) → blocks_ok C a f → blocks_ok C' a g.
Proof.
  intros Hg Hf [H1 H2 H3 H4]. split.
  - destruct H1; auto.
  - intros bn Hbn. rewrite Hf. destruct (H2 bn Hbn); auto.
  - intros bn bn' Hbn Hbn'. rewrite !Hf. by apply H3.
  - intros bn Hbn. rewrite Hf. by apply H4.
Qed.

Lemma keeps_good own C C' b : keeps own C C' → nmeta ≤ b → good C b → good C' b.
Proof using Hla.
  pose proof meta_pos. intros [Hk _] Hb Hg. destruct (Hk (dev, b)) as [_ [Hs|Hs]]; [split; [done|by right]|cbn in Hs; lia|done].
Qed.

Lemma ino_keeps own C C' e :
  keeps own C C' → (indirect e ≠ 0 → ¬ own (indirect e)) → ino_ok C e → ino_ok C' e ∧ ∀ bn, blk C' e bn = blk C e bn.
Proof using Hla.
  intros Hk Ho [H1 H2 H3 H4 H5].
  assert (∀ bn, blk C' e bn = blk C e bn) as Hb.
  { intros bn. apply blk_same. intros Hi. apply Hk; [|by apply Ho]. split; [done|]. right. by destruct (bo_ind _ _ _ H3). }
  split; [|done]. split; try done.
  - apply (blocks_same C C' _ (blk C e)); [|done|done]. intros b Hg. apply (keeps_good own C); [done|apply Hg|done].
  - intros bn. rewrite Hb. apply H5.
Qed.

(** A fresh block for entry [bn], or for the indirect block. *)
Lemma blocks_fresh C C' a f bn b :
  blocks_ok C a f → (∀ b', good C b' → good C' b' ∧ b' ≠ b) → good C' b → 0 < b → f bn = 0 →
  blocks_ok C' a (λ n, if n =? bn then b else f n).
Proof.
  intros [H1 H2 H3 H4] Hg Hb Hpos Hf. split.
  - destruct H1 as [?|?]; [by left|]. right. by apply Hg.
  - intros n Hn. destruct (Z.eqb_spec n bn); [by right|]. destruct (H2 n Hn) as [?|?]; [by left|]. right. by apply Hg.
  - intros n n' Hn Hn'. destruct (Z.eqb_spec n bn), (Z.eqb_spec n' bn); try congruence.
    + intros E. destruct (H2 n' Hn') as [?|G]; [lia|]. by apply Hg in G as [_ ?].
    + intros E. destruct (H2 n Hn) as [?|G]; [lia|]. by apply Hg in G as [_ ?].
    + by apply H3.
  - intros n Hn. destruct (Z.eqb_spec n bn); [|by apply H4]. intros _ E. subst a. destruct H1 as [?|G]; [lia|]. by apply Hg in G as [_ ?].
Qed.

Lemma blocks_fresh_ind C C' f b :
  blocks_ok C 0 f → (∀ b', good C b' → good C' b' ∧ b' ≠ b) → good C' b → blocks_ok C' b f.
Proof.
  intros [H1 H2 H3 H4] Hg Hb. split; [by right| |done|].
  - intros n Hn. destruct (H2 n Hn) as [?|?]; [by left|]. right. by apply Hg.
  - intros n Hn H0 E. destruct (H2 n Hn) as [?|G]; [done|]. by apply Hg in G as [_ ?].
Qed.

(** What [bmap] does: block [bn] is there afterwards, and zero if it is new;
    the other blocks of the file and of all files stay, but for the entries
    of the indirect block; new blocks were free. *)
Record mapped C e (bn : Z) C' e' : Prop := {
  mp_map : map_ok C';
  mp_ok : ino_ok C' e';
  mp_new : blk C' e' bn ≠ 0;
  mp_same : ∀ n, 0 ≤ n < MAXFILE → blk C e n ≠ 0 → blk C' e' n = blk C e n;
  mp_none : ∀ n, 0 ≤ n < MAXFILE → n ≠ bn → blk C e n = 0 → blk C' e' n = 0;
  mp_zero : blk C e bn = 0 → C' (dev, blk C' e' bn) = replicate (Z.to_nat BSIZE) 0;
  mp_keeps : keeps (λ b, b ≠ 0 ∧ b = indirect e) C C';
  mp_fresh : ∀ b, owns C' e' b → owns C e b ∨ nmeta ≤ b ∧ marked C b = false;
  mp_inode : e' = set_iaddrs (i_addrs e') e;
  mp_ind : indirect e ≠ 0 → indirect e' = indirect e;
}.

Definition set_addr (k b : Z) e : inode := set_iaddrs (aset (i_addrs e) k b) e.

Lemma indirect_set_addr k b e : 0 ≤ k ≤ NDIRECT → alen (i_addrs e) = NDIRECT + 1 →
  indirect (set_addr k b e) = if k =? NDIRECT then b else indirect e.
Proof.
  intros Hk Ha. unfold indirect, set_addr. cbn. destruct (Z.eqb_spec k NDIRECT) as [->|].
  - apply aget_aset_eq. rewrite Ha. unfold NDIRECT. lia.
  - apply aget_aset_ne; unfold NDIRECT in *; lia.
Qed.

Lemma mapped_refl C e bn : map_ok C → ino_ok C e → blk C e bn ≠ 0 → mapped C e bn C e.
Proof.
  intros H1 H2 H3. split; try done.
  - by left.
  - by destruct e.
Qed.

(** A new direct block. *)
Lemma direct_new C e bn b :
  map_ok C → ino_ok C e → 0 ≤ bn < NDIRECT → blk C e bn = 0 → nmeta ≤ b < sb_size sb → marked C b = false →
  mapped C e bn (alloc C b) (set_addr bn b e).
Proof using Hla.
  intros HC He Hbn H0 Hb Hm. pose proof (alloc_keeps C b HC Hb Hm) as Hk. pose proof meta_pos as Hpos.
  destruct (ino_keeps nowhere C _ e Hk ltac:(by intros _ []) He) as [[G1 G2 G3 G4 G5] Hblk].
  assert (indirect (set_addr bn b e) = indirect e) as Hi.
  { rewrite indirect_set_addr by (try done; lia). by rewrite (proj2 (Z.eqb_neq bn NDIRECT)) by lia. }
  assert (∀ n, 0 ≤ n → blk (alloc C b) (set_addr bn b e) n = if n =? bn then b else blk C e n) as Hn.
  { intros n Hn0. rewrite <- Hblk. unfold blk. rewrite Hi. destruct (n <? NDIRECT) eqn:E; zify_bool.
    - cbn. destruct (Z.eqb_spec n bn) as [->|]; [apply aget_aset_eq|apply aget_aset_ne]; rewrite ?G2; lia.
    - by rewrite (proj2 (Z.eqb_neq n bn)) by lia. }
  split.
  - by apply alloc_ok.
  - split; try done.
    + cbn. by rewrite alen_aset.
    + rewrite Hi. pose proof (blocks_fresh C (alloc C b) (indirect e) (blk C e) bn b (io_blocks _ _ He)
        (λ b', alloc_good C b HC Hb Hm b') (alloc_new_good C b HC Hb) ltac:(lia) H0) as [K1 K2 K3 K4].
      split; [done| | |].
      * intros n Hn'. rewrite Hn by lia. by apply K2.
      * intros n n' ? ?. rewrite !Hn by lia. by apply K3.
      * intros n Hn'. rewrite Hn by lia. by apply K4.
    + intros n Hn0 Hs. rewrite Hn by done. case_match; [lia|]. by apply (io_all _ _ He).
  - rewrite Hn, Z.eqb_refl by lia. lia.
  - intros n Hn0 Hne. rewrite Hn by lia. destruct (Z.eqb_spec n bn) as [->|]; done.
  - intros n Hn0 Hne Hz. rewrite Hn by lia. by rewrite (proj2 (Z.eqb_neq n bn)).
  - intros _. rewrite Hn, Z.eqb_refl by lia. apply alloc_new.
  - by eapply keeps_mono, Hk.
  - intros c (Hc0 & [->|(n & Hnr & ->)]); [left; rewrite Hi in *; split; [done|by left]|]. rewrite Hn in * by lia.
    destruct (Z.eqb_spec n bn); [right; split; [lia|done]|]. left. split; [done|]. right. eauto.
  - done.
  - done.
Qed.

(** A new indirect block: no entry yet. *)
Lemma zeros_rd off n k : rd off n (replicate k 0) = 0.
Proof.
  unfold rd, slice. rewrite drop_replicate, take_replicate.
  induction (Z.to_nat n `min` (k - Z.to_nat off))%nat as [|m IH]; [done|]. cbn. by rewrite IH.
Qed.

Record indirected C e C' e' : Prop := {
  id_map : map_ok C';
  id_ok : ino_ok C' e';
  id_ind : indirect e' ≠ 0;
  id_blk : ∀ n, 0 ≤ n → blk C' e' n = blk C e n;
  id_keeps : keeps nowhere C C';
  id_fresh : ∀ b, owns C' e' b → owns C e b ∨ nmeta ≤ b ∧ marked C b = false;
  id_inode : e' = set_iaddrs (i_addrs e') e;
  id_same : indirect e ≠ 0 → indirect e' = indirect e;
  id_new : indirect e = 0 → nmeta ≤ indirect e' ∧ marked C (indirect e') = false;
}.

Lemma indirect_new C e b :
  map_ok C → ino_ok C e → indirect e = 0 → nmeta ≤ b < sb_size sb → marked C b = false →
  indirected C e (alloc C b) (set_addr NDIRECT b e).
Proof using Hla.
  intros HC He H0 Hb Hm. pose proof (alloc_keeps C b HC Hb Hm) as Hk. pose proof meta_pos as Hpos.
  destruct (ino_keeps nowhere C _ e Hk ltac:(by intros _ []) He) as [[G1 G2 G3 G4 G5] Hblk].
  assert (indirect (set_addr NDIRECT b e) = b) as Hi by by rewrite indirect_set_addr.
  assert (∀ n, 0 ≤ n → blk (alloc C b) (set_addr NDIRECT b e) n = blk C e n) as Hn.
  { intros n Hn0. unfold blk. rewrite Hi, H0. destruct (n <? NDIRECT) eqn:E; zify_bool.
    - cbn. apply aget_aset_ne; unfold NDIRECT in *; lia.
    - rewrite (proj2 (Z.eqb_neq b 0)), Z.eqb_refl by lia. unfold ind_get. rewrite alloc_new. apply zeros_rd. }
  split; try done.
  - by apply alloc_ok.
  - split; try done.
    + cbn. by rewrite alen_aset.
    + rewrite Hi. pose proof (io_blocks _ _ He) as Hbo. rewrite H0 in Hbo.
      destruct (blocks_fresh_ind C (alloc C b) (blk C e) b Hbo (λ b', alloc_good C b HC Hb Hm b') (alloc_new_good C b HC Hb)) as [K1 K2 K3 K4].
      split; [done| | |].
      * intros n Hn'. rewrite Hn by lia. by apply K2.
      * intros n n' ? ?. rewrite !Hn by lia. by apply K3.
      * intros n Hn'. rewrite Hn by lia. by apply K4.
    + intros n Hn0 Hs. rewrite Hn by done. by apply (io_all _ _ He).
  - rewrite Hi. lia.
  - intros c (Hc0 & [->|(n & Hnr & ->)]); [right; rewrite Hi; split; [lia|done]|]. rewrite Hn in * by lia.
    left. split; [done|]. right. eauto.
  - intros _. rewrite Hi. split; [lia|done].
Qed.

Lemma indirected_refl C e : map_ok C → ino_ok C e → indirect e ≠ 0 → indirected C e C e.
Proof. intros H1 H2 H3. split; try done; [by left|by destruct e]. Qed.

(** A new entry in the indirect block. *)
Definition put_entry C (a k b : Z) : block → list Z := kset C (dev, a) (wr (4 * k) 4 b (C (dev, a))).

Lemma ind_get_put d k b j : length d = Z.to_nat BSIZE → 0 ≤ k < NINDIRECT → 0 ≤ j < NINDIRECT → 0 ≤ b < 2 ^ 32 →
  ind_get (wr (4 * k) 4 b d) j = if j =? k then b else ind_get d j.
Proof.
  intros Hd Hk Hj Hb. assert (4 * k + 4 ≤ alen d) by (unfold alen; rewrite Hd; unfold NINDIRECT, BSIZE in *; change (1024 / 4) with 256 in *; lia).
  unfold ind_get. destruct (Z.eqb_spec j k) as [->|].
  - rewrite rd_wr_eq by lia. apply Z.mod_small. done.
  - apply rd_wr_ne; lia.
Qed.

(** A store to a data block keeps the map. *)
Lemma kset_marked C a v b : nmeta ≤ a → 0 ≤ b < sb_size sb → marked (kset C (dev, a) v) b = marked C b.
Proof using Hla.
  intros Ha Hb. unfold FsBlock.marked. rewrite kset_ne; [done|]. intros [= E].
  pose proof (bblock_eq dev start size sb nmeta Hla b Hb). lia.
Qed.

Lemma kset_good C a v b : nmeta ≤ a → good (kset C (dev, a) v) b ↔ good C b.
Proof using Hla. pose proof meta_pos. intros Ha. unfold good. split; intros [Hr Hm]; (split; [done|]); rewrite kset_marked in *; done || lia. Qed.

Lemma kset_map_ok C a v : nmeta ≤ a → length v = Z.to_nat BSIZE → map_ok C → map_ok (kset C (dev, a) v).
Proof using Hla.
  pose proof (la_meta _ _ _ _ _ Hla). intros Ha Hv [H1 H2]. split.
  - intros b Hb. rewrite kset_marked by (done || lia). by apply H1.
  - intros κ. unfold kset. case_decide; [done|apply H2].
Qed.

Lemma kset_keeps C a v : nmeta ≤ a → keeps (λ b, b = a) C (kset C (dev, a) v).
Proof using Hla.
  intros Ha. split.
  - intros κ [Hd [Hs|Hs]]; (split; [done|]); [by left|]. right. by apply kset_good.
  - intros κ _ Hne. apply kset_ne. by intros ->.
Qed.

Lemma kset_free C a v n : nmeta ≤ a → free_blocks C n → free_blocks (kset C (dev, a) v) n.
Proof using Hla.
  intros Ha (L & H1 & H2 & H3). exists L. split; [done|]. split; [done|]. intros b Hb. destruct (H3 b Hb) as [Hr Hm].
  split; [done|]. by rewrite kset_marked.
Qed.

Lemma entry_new C e bn b :
  map_ok C → ino_ok C e → NDIRECT ≤ bn < MAXFILE → indirect e ≠ 0 → blk C e bn = 0 →
  nmeta ≤ b < sb_size sb → marked C b = false →
  mapped C e bn (put_entry (alloc C b) (indirect e) (bn - NDIRECT) b) e.
Proof using Hla.
  intros HC He Hbn Hi0 H0 Hb Hm. pose proof (alloc_keeps C b HC Hb Hm) as Hk. pose proof meta_pos as Hpos.
  pose proof (la_size _ _ _ _ _ Hla) as Hsz. pose proof (alloc_ok C b HC Hb) as HC1.
  destruct (ino_keeps nowhere C _ e Hk ltac:(by intros _ []) He) as [[G1 G2 G3 G4 G5] Hblk].
  destruct (bo_ind _ _ _ G3) as [|Hig]; [done|]. pose proof (proj1 Hig) as Hir.
  set (C' := put_entry (alloc C b) (indirect e) (bn - NDIRECT) b).
  assert (NINDIRECT = 256) as Hni by done. assert (NDIRECT = 12) as Hnd by done. assert (MAXFILE = NDIRECT + 256) as Hmf by done.
  assert (length (wr (4 * (bn - NDIRECT)) 4 b (alloc C b (dev, indirect e))) = Z.to_nat BSIZE) as Hwl.
  { pose proof (mo_len _ HC1 (dev, indirect e)) as Hl. rewrite length_wr; [done|lia|lia|]. unfold alen. rewrite Hl. unfold BSIZE. lia. }
  assert (∀ n, 0 ≤ n < MAXFILE → blk C' e n = if n =? bn then b else blk C e n) as Hn.
  { intros n Hnr. rewrite <- Hblk. unfold blk. destruct (n <? NDIRECT) eqn:E; zify_bool.
    - by rewrite (proj2 (Z.eqb_neq n bn)) by lia.
    - rewrite (proj2 (Z.eqb_neq (indirect e) 0)) by done. unfold C', put_entry. rewrite kset_eq, ind_get_put by (apply (mo_len _ HC1) || lia).
      destruct (Z.eqb_spec n bn) as [->|]; [by rewrite Z.eqb_refl|]. by rewrite (proj2 (Z.eqb_neq (n - NDIRECT) (bn - NDIRECT))) by lia. }
  assert (∀ c, good C' c ↔ good (alloc C b) c) as Hgg by (intros c; apply kset_good; lia).
  assert (keeps (λ b, b ≠ 0 ∧ b = indirect e) C C') as Hkk.
  { eapply fkeeps_trans; [by eapply keeps_mono, Hk|]. eapply keeps_mono; [|apply (kset_keeps (alloc C b) (indirect e)); lia]. naive_solver. }
  split; try done.
  - apply (kset_map_ok (alloc C b) (indirect e)); [apply Hir|done|done].
  - split; try done.
    + destruct (blocks_fresh C C' (indirect e) (blk C e) bn b (io_blocks _ _ He)) as [K1 K2 K3 K4]; try done; try lia.
      { intros b' Hb'. rewrite Hgg. by apply alloc_good. }
      { rewrite Hgg. by apply alloc_new_good. }
      split; [done| | |].
      * intros n Hn'. rewrite Hn by lia. by apply K2.
      * intros n n' ? ?. rewrite !Hn by lia. by apply K3.
      * intros n Hn'. rewrite Hn by lia. by apply K4.
    + intros n Hn0 Hs. rewrite Hn by (unfold BSIZE in *; lia). case_match; [lia|]. by apply (io_all _ _ He).
  - rewrite Hn, Z.eqb_refl by lia. lia.
  - intros n Hn0 Hne. rewrite Hn by lia. destruct (Z.eqb_spec n bn) as [->|]; done.
  - intros n Hn0 Hne Hz. rewrite Hn by lia. by rewrite (proj2 (Z.eqb_neq n bn)).
  - intros _. rewrite Hn, Z.eqb_refl by lia. unfold C', put_entry. rewrite kset_ne; [apply alloc_new|].
    intros [= E]. destruct (bo_ind _ _ _ (io_blocks _ _ He)) as [?|G]; [done|]. apply (alloc_good C b HC Hb Hm) in G as [_ ?]. done.
  - intros c (Hc0 & [->|(n & Hnr & ->)]); [left; split; [done|by left]|]. rewrite Hn in * by lia.
    destruct (Z.eqb_spec n bn); [right; split; [lia|done]|]. left. split; [done|]. right. eauto.
  - by destruct e.
Qed.

Lemma indirected_mapped C e C1 e1 bn C' e' :
  0 ≤ bn < MAXFILE → indirected C e C1 e1 → mapped C1 e1 bn C' e' → mapped C e bn C' e'.
Proof using Hla.
  intros Hbn [I1 I2 I3 I4 I5 I6 I7 I8 I9] [M1 M2 M3 M4 M5 M6 M7 M8 M9 M10]. pose proof meta_pos as Hpos. split; try done.
  - intros n Hn. rewrite <- I4 by lia. by apply M4.
  - intros n Hn. rewrite <- I4 by lia. by apply M5.
  - rewrite <- I4 by lia. done.
  - split; [intros κ Hs; by apply M7, I5|]. intros κ Hs Hne. destruct I5 as [K1 K2]. destruct M7 as [L1 L2].
    rewrite L2, K2; [done|done|by intros []|by apply K1|]. intros [En E]. destruct (decide (indirect e = 0)) as [E0|E0]; [|by apply Hne; rewrite I8 in E].
    destruct (I9 E0) as [Hge Hf]. rewrite <- E in Hge, Hf. destruct Hs as [_ [Hs|[_ Hs]]]; [lia|congruence].
  - intros b Hb. destruct (M8 b Hb) as [Ho|[Hge Hf]]; [by apply I6|]. right. split; [done|].
    destruct (marked C b) eqn:Hm; [|done]. exfalso. apply owns_good in Hb; [|apply M2]. destruct I5 as [K1 _].
    destruct (K1 (dev, b)) as [_ [Hs|[_ Hs]]]; [|cbn in Hs; lia|cbn in Hs; congruence].
    split; [done|]. right. split; [apply Hb|done].
  - rewrite M9, I7. done.
  - intros Hi. rewrite M10; [by apply I8|done].
Qed.

(** ** Running [bmap] *)

Definition with_inode (R : sys S) (ip : Z) e : sys S := set_ic (sy_iclock R) (aset (sy_inode R) ip e) R.

Lemma runs_upd_inode y R C T H ip f :
  tx y R C T H → runs (upd_inode ip f) y (λ _ y', tx y' (with_inode R ip (f (aget (sy_inode R) ip))) C T H).
Proof using.
  intros Hx. apply runs_modify.
  pose proof (tx_view sy_iclock ltac:(done) Hx) as E1. pose proof (tx_view sy_inode ltac:(done) Hx) as E2.
  unfold with_inode. rewrite E1, E2. by apply (tx_rest_set (set_ic _ _)).
Qed.

Lemma runs_get_inode y R C T H ip (Q : inode → kern * sys S → Prop) : tx y R C T H → Q (aget (sy_inode R) ip) y → runs (get_inode ip) y Q.
Proof using. intros Hx HQ. apply runs_gets. by rewrite (tx_view sy_inode ltac:(done) Hx). Qed.

Lemma with_inode_get R ip e : 0 ≤ ip < alen (sy_inode R) → aget (sy_inode (with_inode R ip e)) ip = e.
Proof using. intros. cbn. by apply aget_aset_eq. Qed.
Lemma with_inode_len R ip e : alen (sy_inode (with_inode R ip e)) = alen (sy_inode R).
Proof using. cbn. apply alen_aset. Qed.
Lemma with_inode_twice R ip e e' : with_inode (with_inode R ip e) ip e' = with_inode R ip e'.
Proof using. unfold with_inode. cbn. rewrite aset_aset. done. Qed.
Lemma with_inode_self R ip : 0 ≤ ip < alen (sy_inode R) → with_inode R ip (aget (sy_inode R) ip) = R.
Proof using. intros. unfold with_inode. rewrite aset_aget by done. by destruct R. Qed.

(** The logged blocks [bmap] may still add for the indirect block. *)
Definition ind_cost (T : list Z) e : Z := if decide (indirect e ≠ 0 ∧ indirect e ∈ T) then 0 else 2.

Lemma ind_cost_range T e : 0 ≤ ind_cost T e ≤ 2.
Proof using. unfold ind_cost. case_decide; lia. Qed.
Lemma ind_cost_mono T T' e e' : T ⊆ T' → indirect e' = indirect e → ind_cost T' e' ≤ ind_cost T e.
Proof using. intros HT E. unfold ind_cost. rewrite E. clear Hla. repeat case_decide; try lia. set_solver. Qed.
Lemma ind_cost_in T e : indirect e ≠ 0 → indirect e ∈ T → ind_cost T e = 0.
Proof using. intros. unfold ind_cost. by rewrite decide_True. Qed.

Lemma runs_alloc y R C T H n :
  tx y R C T H → sy_sb R = sb → map_ok C → free_blocks C (Datatypes.S n) → (∀ b, (dev, b) ∈ H.*2 → good C b) →
  Z.of_nat (length T) + 2 < size - 1 → (length H ≤ 1)%nat →
  runs (balloc dev) y (λ b y', nmeta ≤ b < sb_size sb ∧ marked C b = false ∧ tx y' R (alloc C b) (BBLOCK b sb :: b :: T) H).
Proof using Hla.
  intros Hx Hsb HC (L & _ & Hlen & HL) Hh HT HH.
  eapply runs_mono; [eapply (runs_balloc i pid k0 dev start size sb nmeta Hla y R C T H Hx Hsb (mo_meta _ HC))|].
  - destruct L as [|b L]; [done|]. exists b. apply HL. by left.
  - intros b Hb. destruct (Hh b Hb). split; [lia|done].
  - done.
  - done.
  - intros b y' (H1 & H2 & _ & H4). done.
Qed.

Section Bmap.
Context y (R : sys S) C (T : list Z) (ip bn : Z) e.
Context (Hx : tx y R C T []) (Hsb : sy_sb R = sb) (Hip : 0 ≤ ip < alen (sy_inode R)) (He : aget (sy_inode R) ip = e).
Context (HC : map_ok C) (Hok : ino_ok C e) (Hbn : 0 ≤ bn < MAXFILE).

Lemma runs_bmap_old :
  blk C e bn ≠ 0 → Z.of_nat (length T) < size - 1 → runs (bmap ip bn) y (λ b y', b = blk C e bn ∧ tx y' R C T []).
Proof using All.
  intros Hb0 HT. unfold bmap. kstep. eapply runs_get_inode; [done|]. rewrite He. unfold blk in *. pose proof (tx_log_size Hx) as Hls.
  destruct (bn <? NDIRECT) eqn:E; kif.
  - rewrite (proj2 (Z.eqb_neq _ 0)) by done. kif. by kstep.
  - assert (bn - NDIRECT < NINDIRECT) as Hlt by (unfold MAXFILE in Hbn; lia).
    rewrite (proj2 (Z.ltb_lt _ _) Hlt). kif. fold (indirect e). destruct (indirect e =? 0) eqn:E2; [done|]. kif. kstep. kstep. kstep. zify_bool.
    destruct (bo_ind _ _ _ (io_blocks _ _ Hok)) as [|Hg]; [done|]. destruct (data_ok dev start size sb nmeta Hla _ (proj1 Hg)) as [Hbk Hnl].
    rewrite (io_dev _ _ Hok). eapply runs_mono; [apply (tx_bread Hx Hbk Hnl); [by apply not_elem_of_nil|apply (room_of size T [] 0); cbn; lia]|].
    intros h y1 Hx1. cbn beta. kstep. apply (tx_get Hx1 ltac:(by left)).
    rewrite (proj2 (Z.eqb_neq _ 0)) by done. kif. kstep. eapply runs_mono; [apply (tx_brelse Hx1)|]. intros [] y2 Hx2. by kstep.
Qed.

(** The result of [bmap], with what it adds to the log. *)
Definition bmap_post (b : Z) (y' : kern * sys S) : Prop :=
  ∃ C' e' T', b = blk C' e' bn ∧ mapped C e bn C' e' ∧ tx y' (with_inode R ip e') C' T' [] ∧ T ⊆ T' ∧ b ∈ T' ∧
    Z.of_nat (length T') + ind_cost T' e' ≤ Z.of_nat (length T) + ind_cost T e + 2 ∧
    ∀ n, free_blocks C (2 + n) → free_blocks C' n.

Lemma free_blocks_less C1 n m : (m ≤ n)%nat → free_blocks C1 n → free_blocks C1 m.
Proof using.
  intros Hm (L & H1 & H2 & H3). exists (take m L). split; [apply (sublist_NoDup _ L); [done|apply sublist_take]|].
  split; [rewrite length_take; lia|]. intros b Hb%list_elem_of_take. by apply H3.
Qed.

Lemma runs_bmap_direct :
  bn < NDIRECT → blk C e bn = 0 → free_blocks C 2 → Z.of_nat (length T) + ind_cost T e + 2 < size - 1 →
  runs (bmap ip bn) y bmap_post.
Proof using All.
  intros Hlt H0 Hfree HT. pose proof (ind_cost_range T e) as Hic. unfold bmap. kstep. eapply runs_get_inode; [done|]. rewrite He.
  assert (aget (i_addrs e) bn = 0) as Ha by (unfold blk in H0; by rewrite (proj2 (Z.ltb_lt _ _) Hlt) in H0).
  rewrite (proj2 (Z.ltb_lt _ _) Hlt), Ha, Z.eqb_refl. kif. kstep. rewrite (io_dev _ _ Hok).
  eapply runs_mono; [by apply (runs_alloc y R C T [] 1 Hx Hsb HC Hfree); [set_solver|lia|cbn; lia]|].
  intros b y1 (Hbr & Hbm & Hx1). cbn beta. kstep. eapply runs_mono; [apply (runs_upd_inode _ _ _ _ _ ip _ Hx1)|]. rewrite He.
  intros [] y2 Hx2. kstep. pose proof (direct_new C e bn b HC Hok ltac:(lia) H0 Hbr Hbm) as Hmp.
  assert (blk (alloc C b) (set_addr bn b e) bn = b) as Hbb.
  { unfold blk. rewrite (proj2 (Z.ltb_lt _ _) Hlt). apply aget_aset_eq. rewrite (io_addrs _ _ Hok). lia. }
  exists (alloc C b), (set_addr bn b e), (BBLOCK b sb :: b :: T). split; [done|]. split; [done|]. split; [done|].
  split; [set_solver|]. split; [set_solver|]. split.
  - pose proof (ind_cost_mono T (BBLOCK b sb :: b :: T) e (set_addr bn b e) ltac:(set_solver)) as Hm.
    rewrite indirect_set_addr, (proj2 (Z.eqb_neq bn NDIRECT)) in Hm by (apply Hok || lia). cbn [length]. specialize (Hm eq_refl). lia.
  - intros n Hf. apply (free_blocks_less _ (1 + n)); [lia|]. by apply alloc_free.
Qed.

(** The entry of block [bn] once there is an indirect block. *)
Lemma runs_entry y1 C1 e1 T1 :
  NDIRECT ≤ bn → blk C e bn = 0 → free_blocks C1 1 → indirected C e C1 e1 → tx y1 (with_inode R ip e1) C1 T1 [] →
  T ⊆ T1 → (∀ n, free_blocks C (2 + n) → free_blocks C1 (1 + n)) →
  Z.of_nat (length T1) + 2 + (if decide (indirect e1 ∈ T1) then 0 else 1) ≤ Z.of_nat (length T) + ind_cost T e + 2 →
  Z.of_nat (length T) + ind_cost T e + 2 < size - 1 →
  runs (bp ← fbread dev (indirect e1);
        d ← fget bp;
        if ind_get d (bn - NDIRECT) =? 0 then
          addr ← balloc dev; d ← fget bp; fput bp (wr (4 * (bn - NDIRECT)) 4 addr d);; flog_write bp;; fbrelse bp;; mret addr
        else fbrelse bp;; mret (ind_get d (bn - NDIRECT))) y1 bmap_post.
Proof using All.
  intros Hge H0 Hf1 Hin Hx1 HT1 Hfree Hcost Hroom. pose proof (tx_log_size Hx) as Hls.
  pose proof (id_ok _ _ _ _ Hin) as Hok1. pose proof (id_map _ _ _ _ Hin) as HC1.
  assert (blk C1 e1 bn = 0) as H01 by (rewrite (id_blk _ _ _ _ Hin); [done|lia]).
  destruct (bo_ind _ _ _ (io_blocks _ _ Hok1)) as [|Hg]; [by apply (id_ind _ _ _ _ Hin) in H|].
  destruct (data_ok dev start size sb nmeta Hla _ (proj1 Hg)) as [Hbk Hnl]. kstep.
  assert (Z.of_nat (length T1) + 2 < size - 1) as HT by (case_decide; lia).
  eapply runs_mono; [apply (tx_bread Hx1 Hbk Hnl); [by apply not_elem_of_nil|apply (room_of size T1 [] 2); cbn; lia]|].
  intros h y2 Hx2. cbn beta. kstep. apply (tx_get Hx2 ltac:(by left)).
  assert (ind_get (C1 (dev, indirect e1)) (bn - NDIRECT) = 0) as Hz.
  { unfold blk in H01. rewrite (proj2 (Z.ltb_ge bn NDIRECT)) in H01 by done.
    by rewrite (proj2 (Z.eqb_neq (indirect e1) 0)) in H01 by apply (id_ind _ _ _ _ Hin). }
  rewrite Hz, Z.eqb_refl. kif. kstep.
  eapply runs_mono; [apply (runs_alloc y2 _ C1 T1 _ 0 Hx2 Hsb HC1 Hf1); [by intros b [= ->]%list_elem_of_singleton|done|done]|].
  intros b y3 (Hbr & Hbm & Hx3). cbn beta. kstep. apply (tx_get Hx3 ltac:(by left)).
  set (T3 := if decide (indirect e1 ∈ T1) then BBLOCK b sb :: b :: T1 else indirect e1 :: BBLOCK b sb :: b :: T1).
  assert (BBLOCK b sb :: b :: T1 ⊆ T3 ∧ indirect e1 ∈ T3 ∧ Z.of_nat (length T3) = Z.of_nat (length T1) + 2 + (if decide (indirect e1 ∈ T1) then 0 else 1)) as (Hsub & Hin3 & Hlen3).
  { unfold T3. case_decide; cbn [length]; (split; [set_solver|]); (split; [set_solver|lia]). }
  apply (tx_grow T3) in Hx3; [|done]. pose proof (entry_new C1 e1 bn b HC1 Hok1 ltac:(lia) (id_ind _ _ _ _ Hin) H01 Hbr Hbm) as Hmp.
  eapply (tx_write_then Hx3); [by left| |done|lia|].
  { pose proof (tx_len (dev, indirect e1) Hx3) as Hl. rewrite length_wr; [done|lia|lia|]. unfold alen. rewrite Hl. unfold MAXFILE, NINDIRECT, BSIZE in *. change (1024 / 4) with 256 in *. lia. }
  intros y4 Hx4. kstep. eapply runs_mono; [apply (tx_brelse Hx4)|]. intros [] y5 Hx5. kstep.
  exists (put_entry (alloc C1 b) (indirect e1) (bn - NDIRECT) b), e1, T3. split.
  { unfold blk. rewrite (proj2 (Z.ltb_ge bn NDIRECT)), (proj2 (Z.eqb_neq (indirect e1) 0)) by (done || apply (id_ind _ _ _ _ Hin)).
    unfold put_entry. pose proof (la_size _ _ _ _ _ Hla). pose proof meta_pos.
    rewrite kset_eq, ind_get_put, Z.eqb_refl; [done|apply (tx_len _ Hx3)|unfold MAXFILE in Hbn; lia|unfold MAXFILE in Hbn; lia|lia]. }
  split; [by eapply indirected_mapped|]. split; [done|]. split; [set_solver|]. split; [set_solver|]. split.
  - rewrite (ind_cost_in T3 e1) by (done || apply (id_ind _ _ _ _ Hin)). lia.
  - intros n Hf. apply kset_free; [apply Hg|]. apply alloc_free; [done..|]. by apply Hfree.
Qed.

Lemma runs_bmap_indirect :
  NDIRECT ≤ bn → blk C e bn = 0 → free_blocks C 2 → Z.of_nat (length T) + ind_cost T e + 2 < size - 1 →
  runs (bmap ip bn) y bmap_post.
Proof using All.
  intros Hge H0 Hfree HT. pose proof (ind_cost_range T e) as Hic. unfold bmap. kstep. eapply runs_get_inode; [done|]. rewrite He.
  rewrite (proj2 (Z.ltb_ge bn NDIRECT)) by done. kif. cbv zeta.
  rewrite (proj2 (Z.ltb_lt (bn - NDIRECT) NINDIRECT)) by (unfold MAXFILE in Hbn; lia). kif. fold (indirect e). rewrite (io_dev _ _ Hok). kstep.
  destruct (indirect e =? 0) eqn:E; kif; zify_bool.
  - kstep. eapply runs_mono; [by apply (runs_alloc y R C T [] 1 Hx Hsb HC Hfree); [set_solver|lia|cbn; lia]|].
    intros a y1 (Har & Ham & Hx1). cbn beta. kstep. eapply runs_mono; [apply (runs_upd_inode _ _ _ _ _ ip _ Hx1)|]. rewrite He.
    intros [] y2 Hx2. kstep. pose proof (indirect_new C e a HC Hok E Har Ham) as Hin.
    assert (indirect (set_addr NDIRECT a e) = a) as Hi by (rewrite indirect_set_addr; [done|done|apply Hok]).
    rewrite <- Hi at 1. apply (runs_entry y2 (alloc C a) (set_addr NDIRECT a e) (BBLOCK a sb :: a :: T)); try done.
    + by apply alloc_free.
    + set_solver.
    + intros n Hf. by apply alloc_free.
    + rewrite Hi, decide_True by set_solver. unfold ind_cost. rewrite decide_False by (rewrite E; tauto). cbn [length]. lia.
  - kstep. apply (runs_entry y C e T); try done.
    + by apply (free_blocks_less C 2); [lia|].
    + by apply indirected_refl.
    + rewrite <- He, with_inode_self by done. done.
    + intros n. apply free_blocks_less. lia.
    + unfold ind_cost. repeat case_decide; tauto || lia.
Qed.
End Bmap.
End FsMap.
