(* ===== verification/FsFile.v ===== *)
(** * Reading and writing files ([readi] and [writei] of kernel/fs.c)

    [fbytes C e off n]: the [n] bytes of file [e] from offset [off]. *)

From S2P Require Import Prelude Memory Riscv Spinlock Core CString Kalloc Vm Sleeplock BufCache Log Crash LogProof LogSafety Sys Fs FsBlock FsMap.

Section FsFile.
Context {S : Type} `{BC : BufCache S} (i : nat) (pid : Z) (k0 : kern) (dev start size : Z).
Context (sb : superblock) (nmeta : Z) (Hla : layout dev start size sb nmeta).
Abbreviation SM := (M (kern * sys S)).
Abbreviation tx := (tx i pid k0 dev start size).
Abbreviation marked := (marked dev sb).
Abbreviation blk := (blk dev).
Abbreviation map_ok := (map_ok dev sb nmeta).
Abbreviation ino_ok := (ino_ok dev sb nmeta).
Implicit Types (C : block → list Z) (y : kern * sys S) (e : inode).

Definition fbyte C e (off : Z) : Z := aget (C (dev, blk C e (off / BSIZE))) (off mod BSIZE).
Definition fbytes C e (off n : Z) : list Z := fbyte C e <$> seqZ off n.

Lemma length_fbytes C e off n : length (fbytes C e off n) = Z.to_nat n.
Proof. unfold fbytes. by rewrite length_fmap, length_seqZ. Qed.

Lemma fbytes_app C e off n m : 0 ≤ n → 0 ≤ m → fbytes C e off (n + m) = fbytes C e off n ++ fbytes C e (off + n) m.
Proof. intros. unfold fbytes. by rewrite seqZ_app, fmap_app. Qed.

Lemma lookup_fbytes C e off n j : fbytes C e off n !! j = if decide (Z.of_nat j < n) then Some (fbyte C e (off + Z.of_nat j)) else None.
Proof.
  unfold fbytes. rewrite list_lookup_fmap. case_decide; [by rewrite lookup_seqZ_lt|by rewrite lookup_seqZ_ge by lia].
Qed.

(** A piece of one block. *)
Lemma slice_fbytes C e off m :
  0 ≤ off → 0 ≤ m ≤ BSIZE - off mod BSIZE → length (C (dev, blk C e (off / BSIZE))) = Z.to_nat BSIZE →
  slice (Z.to_nat (off mod BSIZE)) (Z.to_nat m) (C (dev, blk C e (off / BSIZE))) = fbytes C e off m.
Proof.
  intros Ho Hm Hl. apply list_eq. intros j. rewrite slice_lookup, lookup_fbytes. unfold BSIZE in *.
  case_decide as Hj; [rewrite decide_True by lia|by rewrite decide_False by lia].
  unfold fbyte, aget, BSIZE. replace ((off + Z.of_nat j) / 1024) with (off / 1024) by dlia.
  replace (Z.to_nat ((off + Z.of_nat j) mod 1024)) with (Z.to_nat (off mod 1024) + j)%nat by dlia.
  apply list_lookup_lookup_total_lt. rewrite Hl. dlia.
Qed.

(** ** Inodes on the disk *)

Lemma iblock_ok inum : 0 ≤ inum < sb_ninodes sb →
  sb_inodestart sb ≤ IBLOCK inum sb < sb_bmapstart sb ∧ block_ok (dev, IBLOCK inum sb) ∧ ¬ in_log dev start size (dev, IBLOCK inum sb).
Proof using Hla.
  intros Hn. pose proof (meta_pos dev start size sb nmeta Hla) as Hp. destruct Hla as [H1 H2 H3 H4 H5 H6 H7 H8].
  assert (0 ≤ inum / IPB ≤ sb_ninodes sb / IPB) as Hd by (change IPB with 16; dlia).
  assert (sb_inodestart sb ≤ IBLOCK inum sb < sb_bmapstart sb) as Hr by (unfold IBLOCK; rewrite u32_small; lia).
  split; [done|]. split; [split_and!; cbn; try lia; intros [= ? ?]; lia|]. unfold in_log. cbn. lia.
Qed.

Lemma length_dinode_store o e d : 0 ≤ o → o + DINODE ≤ alen d → alen (i_addrs e) = NDIRECT + 1 →
  length (dinode_store o e d) = length d.
Proof.
  intros Ho Hd Ha. unfold dinode_store. unfold alen, DINODE, NDIRECT in *.
  assert (length (concat (le_enc 4 <$> i_addrs e)) = 4 * length (i_addrs e))%nat as Hc.
  { generalize (i_addrs e). intros l. induction l as [|a l IH]; [done|]. rewrite fmap_cons. cbn [concat]. rewrite length_app, length_le_enc, IH. cbn [length]. lia. }
  rewrite length_splice; rewrite ?Hc; rewrite !length_wr; unfold alen; rewrite ?length_wr; unfold alen; rewrite ?length_wr; unfold alen;
    rewrite ?length_wr; unfold alen; rewrite ?length_wr; unfold alen; lia.
Qed.

(** [iupdate] stores the inode in its disk block. *)
Definition put_dinode C e : block → list Z :=
  kset C (dev, IBLOCK (i_inum e) sb) (dinode_store (dinode_off (i_inum e)) e (C (dev, IBLOCK (i_inum e) sb))).

Lemma runs_iupdate y R C T ip e :
  tx y R C T [] → sy_sb R = sb → aget (sy_inode R) ip = e → i_dev e = dev → alen (i_addrs e) = NDIRECT + 1 →
  0 ≤ i_inum e < sb_ninodes sb → Z.of_nat (length T) + 1 < size - 1 →
  runs (iupdate ip) y (λ _ y', tx y' R (put_dinode C e) (IBLOCK (i_inum e) sb :: T) []).
Proof using Hla.
  intros Hx Hsb He Hd Ha Hin HT. pose proof (tx_log_size Hx) as Hls. unfold iupdate. kstep. eapply (runs_the_sb i pid k0); [exact Hx|exact Hsb|].
  kstep. eapply runs_get_inode; [done|]. rewrite He, Hd. destruct (iblock_ok _ Hin) as (Hr & Hok & Hnl). kstep.
  eapply runs_mono; [apply (tx_bread Hx Hok Hnl); [by apply not_elem_of_nil|apply (room_of size T [] 1); cbn; lia]|].
  intros h y1 Hx1. cbn beta. kstep. apply (tx_get Hx1 ltac:(by left)). kstep. eapply runs_get_inode; [exact Hx1|]. rewrite He.
  apply (tx_grow (IBLOCK (i_inum e) sb :: T)) in Hx1; [|set_solver].
  eapply (tx_write_then Hx1); [by left| |by left|cbn [length]; lia|].
  { pose proof (tx_len (dev, IBLOCK (i_inum e) sb) Hx1) as Hl. rewrite length_dinode_store; [done| | |done].
    - unfold dinode_off. change IPB with 16. unfold DINODE. dlia.
    - unfold alen. rewrite Hl. unfold dinode_off. change IPB with 16. unfold DINODE, BSIZE. dlia. }
  intros y2 Hx2. exact (tx_brelse Hx2).
Qed.

(** It touches neither the free map nor the blocks of files. *)
Lemma dinode_marked C e b : 0 ≤ i_inum e < sb_ninodes sb → 0 ≤ b < sb_size sb → marked (put_dinode C e) b = marked C b.
Proof using Hla.
  intros Hin Hb. unfold FsBlock.marked, put_dinode. rewrite kset_ne; [done|]. intros [= E].
  pose proof (iblock_ok _ Hin) as [? _]. pose proof (bblock_eq dev start size sb nmeta Hla b Hb). lia.
Qed.

Lemma dinode_good C e b : 0 ≤ i_inum e < sb_ninodes sb → good dev sb nmeta (put_dinode C e) b ↔ good dev sb nmeta C b.
Proof using Hla.
  pose proof (meta_pos dev start size sb nmeta Hla). intros Hin. unfold good.
  split; intros [Hr Hm]; (split; [done|]); rewrite dinode_marked in *; done || lia.
Qed.

Lemma dinode_keeps C e : 0 ≤ i_inum e < sb_ninodes sb → FsMap.keeps dev sb nmeta (λ b, b = IBLOCK (i_inum e) sb) C (put_dinode C e).
Proof using Hla.
  intros Hin. split.
  - intros κ [Hd [Hs|Hs]]; (split; [done|]); [by left|]. right. by apply dinode_good.
  - intros κ _ Hne. apply kset_ne. by intros ->.
Qed.

Lemma dinode_map_ok C e : 0 ≤ i_inum e < sb_ninodes sb → alen (i_addrs e) = NDIRECT + 1 → map_ok C → map_ok (put_dinode C e).
Proof using Hla.
  intros Hin Ha [H1 H2]. pose proof (la_meta _ _ _ _ _ Hla). split.
  - intros b Hb. rewrite dinode_marked by (done || lia). by apply H1.
  - intros κ. unfold put_dinode, kset. case_decide; [|apply H2]. rewrite length_dinode_store; [apply H2| | |done].
    + unfold dinode_off. change IPB with 16. unfold DINODE. dlia.
    + unfold alen. rewrite H2. unfold dinode_off. change IPB with 16. unfold DINODE, BSIZE. dlia.
Qed.

Lemma dinode_data C e b : 0 ≤ i_inum e < sb_ninodes sb → nmeta ≤ b → put_dinode C e (dev, b) = C (dev, b).
Proof using Hla.
  intros Hin Hb. unfold put_dinode. apply kset_ne. intros [= E]. pose proof (iblock_ok _ Hin) as [? _].
  pose proof (meta_pos dev start size sb nmeta Hla). lia.
Qed.

Section Readi.
Context y (R : sys S) C (T : list Z) (ip : Z) e.
Context (Hx : tx y R C T []) (Hsb : sy_sb R = sb) (Hip : 0 ≤ ip < alen (sy_inode R)) (He : aget (sy_inode R) ip = e).
Context (HC : map_ok C) (Hok : ino_ok C e) (HT : Z.of_nat (length T) < size - 1).

(** [readi] into a variable of the caller copies exactly the bytes of the file,
    fewer at its end, and changes nothing. *)
Lemma runs_readi off n :
  0 ≤ off ≤ i_size e → 0 ≤ n → off + n < 2 ^ 32 →
  runs (readi ip DVar off n) y (λ r y', r = (Z.min n (i_size e - off), fbytes C e off (Z.min n (i_size e - off))) ∧ tx y' R C T []).
Proof using All.
  intros Hoff Hn Hw. pose proof (io_size _ _ _ _ _ Hok) as Hsz. assert (MAXFILE * BSIZE = 274432) as Hmax by done.
  pose proof (tx_log_size Hx) as Hls.
  unfold readi. kstep. eapply runs_get_inode; [done|]. rewrite He.
  rewrite (proj2 (Z.ltb_ge (i_size e) off)) by lia. rewrite (u32_small (off + n)) by lia.
  rewrite (proj2 (Z.ltb_ge (off + n) off)) by lia. cbn [orb]. kif.
  set (n' := Z.min n (i_size e - off)).
  assert ((if i_size e <? off + n then u32 (i_size e - off) else n) = n') as ->.
  { destruct (Z.ltb_spec (i_size e) (off + n)); [rewrite u32_small by lia|]; lia. }
  kstep. eapply (runs_loop _ (λ '(tot, o, dst, bs) y', dst = DVar ∧ 0 ≤ tot ≤ n' ∧ o = off + tot ∧ bs = fbytes C e off tot ∧ tx y' R C T [])
    (λ '(tot, _, _, _) _, Z.to_nat (n' - tot))); [|cbn; split; [done|]; split; [lia|]; split; [lia|]; split; [done|exact Hx]|lia].
  intros [[[tot o] dst] bs] y1 (-> & Htot & -> & -> & Hx1). destruct (n' <=? tot) eqn:E; kif; zify_bool.
  { kstep. kstep. assert (tot = n') as -> by lia. rewrite i32_small by lia. done. }
  kstep. set (o := off + tot) in *. assert (o / BSIZE * BSIZE < i_size e) as Hob by (unfold BSIZE in *; dlia).
  assert (0 ≤ o / BSIZE < MAXFILE) as Hobr by (unfold BSIZE in *; split; [dlia|]; change MAXFILE with 268; dlia).
  pose proof (io_all _ _ _ _ _ Hok _ (proj1 Hobr) Hob) as Hb0.
  eapply runs_mono; [apply (runs_bmap_old i pid k0 dev start size sb nmeta Hla y1 R C T ip (o / BSIZE) e Hx1 Hsb Hip He HC Hok Hobr Hb0 HT)|].
  intros b y2 [-> Hx2]. cbn beta. kstep. rewrite (io_dev _ _ _ _ _ Hok).
  destruct (bo_blk _ _ _ _ _ _ (io_blocks _ _ _ _ _ Hok) _ Hobr) as [|Hg]; [done|].
  destruct (data_ok dev start size sb nmeta Hla _ (proj1 Hg)) as [Hbk Hnl].
  eapply runs_mono; [apply (tx_bread Hx2 Hbk Hnl); [by apply not_elem_of_nil|apply (room_of size T [] 0); cbn; lia]|].
  intros h y3 Hx3. cbn beta zeta. kstep. apply (tx_get Hx3 ltac:(by left)).
  set (m := Z.min (n' - tot) (BSIZE - o mod BSIZE)).
  assert (0 < m ≤ n' - tot ∧ m ≤ BSIZE - o mod BSIZE) as [Hm1 Hm2] by (unfold m, BSIZE in *; dlia).
  rewrite slice_fbytes by (apply (mo_len _ _ _ _ HC) || lia).
  kstep. unfold either_copyout. kstep. eapply runs_mono; [apply (tx_my_proc Hx3)|].
  intros ? y4 Hx4. kstep. change (0 =? -1) with false. kif. kstep. eapply runs_mono; [apply (tx_brelse Hx4)|]. intros [] y5 Hx5. kstep. split; [|lia].
  split; [done|]. split; [lia|]. split; [rewrite u32_small; unfold o; lia|]. split; [|done].
  rewrite fbytes_app by lia. done.
Qed.
End Readi.

Abbreviation keeps := (keeps dev sb nmeta).
Abbreviation owns := (owns dev).
Abbreviation mapped := (mapped dev sb nmeta).

(** ** Writing *)

Section Writei.
Context C e (off : Z) (bs : list Z).
Context (Hoff : 0 ≤ off ≤ i_size e) (Hend : off + alen bs ≤ MAXFILE * BSIZE).

(** The file once [tot] bytes are written; the size is still the old one. *)
Record written (tot : Z) C1 e1 : Prop := {
  wi_map : map_ok C1;
  wi_ok : ino_ok C1 e1;
  wi_inode : e1 = set_iaddrs (i_addrs e1) e;
  wi_bytes : ∀ o, 0 ≤ o < Z.max (i_size e) (off + tot) →
    fbyte C1 e1 o = if decide (off ≤ o < off + tot) then aget bs (o - off) else fbyte C e o;
  wi_all : ∀ bn, 0 ≤ bn → bn * BSIZE < Z.max (i_size e) (off + tot) → blk C1 e1 bn ≠ 0;
  wi_keeps : keeps (owns C e) C C1;
  wi_fresh : ∀ b, owns C1 e1 b → owns C e b ∨ nmeta ≤ b ∧ marked C b = false;
}.

Lemma written_0 : map_ok C → ino_ok C e → written 0 C e.
Proof.
  intros HC He. split; try done.
  - by destruct e.
  - intros o Ho. rewrite decide_False by lia. done.
  - intros bn H0 Hbn. apply He; [done|lia].
  - by left.
Qed.

Lemma fresh_stable κ : stable dev sb nmeta C κ → nmeta ≤ κ.2 → marked C κ.2 ≠ false.
Proof using Hla. pose proof (meta_pos dev start size sb nmeta Hla). intros [_ [Hs|[_ Hs]]] Hge; [lia|congruence]. Qed.

(** The contents of a block of the file that [bmap] did not allocate. *)
Lemma mapped_data C1 e1 bn C2 e2 n :
  ino_ok C1 e1 → mapped C1 e1 bn C2 e2 → 0 ≤ n < MAXFILE → blk C1 e1 n ≠ 0 →
  C2 (dev, blk C2 e2 n) = C1 (dev, blk C1 e1 n).
Proof using.
  intros Ho Hm Hn H0. rewrite (mp_same _ _ _ _ _ _ _ _ Hm n Hn H0). apply (mp_keeps _ _ _ _ _ _ _ _ Hm).
  - split; [done|]. right. by destruct (bo_blk _ _ _ _ _ _ (io_blocks _ _ _ _ _ Ho) n Hn).
  - intros [_ E]. by apply (bo_ne _ _ _ _ _ _ (io_blocks _ _ _ _ _ Ho)) in E.
Qed.

Section Step.
Context (tot : Z) C1 e1 C2 e2 (m : Z).
Let o := off + tot.
Let bn := o / BSIZE.
Context (Hw : written tot C1 e1) (Ht : 0 ≤ tot) (Hal : tot = 0 ∨ o mod BSIZE = 0).
Context (Hm : 0 < m ≤ BSIZE - o mod BSIZE) (Hmt : tot + m ≤ alen bs) (Hmp : mapped C1 e1 bn C2 e2).

Definition chunk : list Z := slice (Z.to_nat tot) (Z.to_nat m) bs.
Definition put_chunk : block → list Z :=
  kset C2 (dev, blk C2 e2 bn) (splice (Z.to_nat (o mod BSIZE)) chunk (C2 (dev, blk C2 e2 bn))).

Lemma bn_range : 0 ≤ bn < MAXFILE.
Proof using All. unfold bn, o in *. assert (MAXFILE = 268) as E by done. rewrite E in *. unfold BSIZE in *. dlia. Qed.

Lemma length_chunk : length chunk = Z.to_nat m.
Proof using All. unfold chunk. apply length_slice. unfold alen in Hmt. lia. Qed.

Let b := blk C2 e2 bn.

Lemma chunk_block : good dev sb nmeta C2 b ∧ b ≠ indirect e2 ∧ owns C2 e2 b.
Proof using All.
  pose proof (mp_ok _ _ _ _ _ _ _ _ Hmp) as Ho2. pose proof (mp_new _ _ _ _ _ _ _ _ Hmp) as Hn. fold b in Hn.
  destruct (bo_blk _ _ _ _ _ _ (io_blocks _ _ _ _ _ Ho2) bn bn_range) as [|Hg]; [done|].
  split; [done|]. split; [by apply (bo_ne _ _ _ _ _ _ (io_blocks _ _ _ _ _ Ho2) bn bn_range)|].
  split; [done|]. right. exists bn. split; [apply bn_range|done].
Qed.

Lemma chunk_blk n : blk put_chunk e2 n = blk C2 e2 n.
Proof using All.
  apply blk_same. intros _. unfold put_chunk. apply kset_ne. intros [= E]. by apply (proj1 (proj2 chunk_block)).
Qed.

Lemma fresh_back c : owns C2 e2 c → owns C e c ∨ nmeta ≤ c ∧ marked C c = false.
Proof using All.
  intros Hc. pose proof (owns_good _ _ _ _ _ _ (io_blocks _ _ _ _ _ (mp_ok _ _ _ _ _ _ _ _ Hmp)) Hc) as Hg.
  destruct (mp_fresh _ _ _ _ _ _ _ _ Hmp c Hc) as [Ho|[Hge Hf]]; [by apply (wi_fresh _ _ _ Hw)|].
  right. split; [done|]. destruct (marked C c) eqn:Hm'; [|done]. exfalso. pose proof (meta_pos dev start size sb nmeta Hla).
  destruct (proj1 (wi_keeps _ _ _ Hw) (dev, c)) as [_ [Hs|[_ Hs]]]; [|cbn in Hs; lia|cbn in Hs; congruence].
  split; [done|]. right. split; [apply Hg|done].
Qed.

Lemma chunk_keeps : keeps (owns C e) C put_chunk.
Proof using All.
  destruct chunk_block as (Hg & Hi & Hb). destruct (wi_keeps _ _ _ Hw) as [K1 K2]. destruct (mp_keeps _ _ _ _ _ _ _ _ Hmp) as [L1 L2].
  destruct (kset_keeps dev start size sb nmeta Hla C2 b (splice (Z.to_nat (o mod BSIZE)) chunk (C2 (dev, b))) ltac:(apply Hg)) as [M1 M2].
  split; [auto|]. intros κ Hs Ho. unfold put_chunk. fold b.
  assert (κ.2 ≠ b) as Hnb.
  { intros E. destruct (fresh_back b Hb) as [Hin|[Hge Hf]]; [by rewrite <- E in Hin|]. rewrite <- E in Hge, Hf. by apply (fresh_stable κ). }
  rewrite M2, L2, K2; auto. intros [E0 E]. assert (owns C1 e1 κ.2) as Ho1 by (split; [done|by left]).
  destruct (wi_fresh _ _ _ Hw _ Ho1) as [|[Hge Hf]]; [done|]. by apply (fresh_stable κ).
Qed.

(** A byte of the file after the store. *)
Lemma chunk_byte q : 0 ≤ q → q / BSIZE < MAXFILE → (blk C2 e2 (q / BSIZE) ≠ 0) →
  fbyte put_chunk e2 q = if decide (o ≤ q < o + m) then aget bs (q - off) else fbyte C2 e2 q.
Proof using All.
  intros Hq Hqm Hq0. pose proof (io_blocks _ _ _ _ _ (mp_ok _ _ _ _ _ _ _ _ Hmp)) as Hbo.
  pose proof (mp_new _ _ _ _ _ _ _ _ Hmp) as Hb0. pose proof length_chunk as Hcl.
  assert (Hlen : length (C2 (dev, b)) = Z.to_nat BSIZE) by apply (mo_len _ _ _ _ (mp_map _ _ _ _ _ _ _ _ Hmp)).
  unfold fbyte. rewrite chunk_blk. unfold put_chunk. destruct (decide (q / BSIZE = bn)) as [E|E].
  - rewrite E, kset_eq. fold b. unfold aget. rewrite !list_lookup_total_alt. rewrite splice_lookup by (rewrite Hcl, Hlen; unfold BSIZE in *; dlia).
    rewrite Hcl. unfold bn, o in E. destruct (decide (o ≤ q < o + m)) as [Hin|Hin].
    + rewrite decide_True by (unfold o, BSIZE in *; dlia). unfold chunk. rewrite slice_lookup, decide_True by (unfold o, BSIZE in *; dlia).
      do 2 f_equal. unfold o, BSIZE in *. dlia.
    + rewrite decide_False by (unfold o, BSIZE in *; dlia). done.
  - rewrite kset_ne; [|intros [= E2]; apply E; eapply (bo_inj _ _ _ _ _ _ Hbo); [|apply bn_range|done|done]; unfold BSIZE in *; dlia].
    rewrite decide_False; [done|]. intros Hin. apply E. unfold bn, o, BSIZE in *. dlia.
Qed.

(** A byte of the file that [bmap] kept. *)
Lemma mapped_byte q : 0 ≤ q → q / BSIZE < MAXFILE → blk C1 e1 (q / BSIZE) ≠ 0 → fbyte C2 e2 q = fbyte C1 e1 q.
Proof using All.
  intros Hq Hqm Hq0. unfold fbyte. f_equal. apply (mapped_data C1 e1 bn C2 e2); [apply (wi_ok _ _ _ Hw)|done| |done].
  unfold BSIZE in *. dlia.
Qed.

Lemma chunk_written : written (tot + m) put_chunk e2.
Proof using All.
  destruct chunk_block as (Hg & Hi & Hown). pose proof (mp_ok _ _ _ _ _ _ _ _ Hmp) as Ho2. pose proof (wi_ok _ _ _ Hw) as Ho1.
  pose proof (io_size _ _ _ _ _ Ho1) as Hsz1. assert (i_size e1 = i_size e) as Es by by rewrite (wi_inode _ _ _ Hw).
  assert (MAXFILE = 268) as Emx by done. pose proof bn_range as Hbnr.
  assert (Hall : ∀ n, 0 ≤ n → n * BSIZE < Z.max (i_size e) (off + (tot + m)) → n < MAXFILE ∧ (blk C1 e1 n ≠ 0 ∨ n = bn)).
  { intros n Hn Hlt. split; [unfold BSIZE in *; lia|]. destruct (decide (n * BSIZE < Z.max (i_size e) (off + tot))) as [Hlt'|Hge].
    - left. by apply (wi_all _ _ _ Hw).
    - right. unfold bn, o in *. unfold BSIZE in *. destruct Hal; dlia. }
  assert (Hblk2 : ∀ n, 0 ≤ n → n * BSIZE < Z.max (i_size e) (off + (tot + m)) → blk C2 e2 n ≠ 0).
  { intros n Hn Hlt. destruct (Hall n Hn Hlt) as [Hmx [Hb| ->]]; [|apply (mp_new _ _ _ _ _ _ _ _ Hmp)].
    rewrite (mp_same _ _ _ _ _ _ _ _ Hmp) by (done || lia). done. }
  split.
  - apply (kset_map_ok dev start size sb nmeta Hla); [apply Hg| |apply (mp_map _ _ _ _ _ _ _ _ Hmp)].
    pose proof (mo_len _ _ _ _ (mp_map _ _ _ _ _ _ _ _ Hmp) (dev, blk C2 e2 bn)) as Hl.
    rewrite length_splice; [done|]. rewrite length_chunk, Hl. unfold BSIZE in *. dlia.
  - eapply (ino_keeps dev start size sb nmeta Hla (λ c, c = b) C2); [|intros _ E; by apply Hi|done].
    by apply (kset_keeps dev start size sb nmeta Hla), Hg.
  - rewrite (mp_inode _ _ _ _ _ _ _ _ Hmp), (wi_inode _ _ _ Hw). done.
  - intros q Hq. assert (q / BSIZE * BSIZE < Z.max (i_size e) (off + (tot + m))) as Hqb by (unfold BSIZE in *; dlia).
    assert (0 ≤ q / BSIZE) as Hq0 by (unfold BSIZE in *; dlia). destruct (Hall _ Hq0 Hqb) as [Hqm Hcase].
    rewrite chunk_byte; [|lia|done|by apply Hblk2]. destruct (decide (o ≤ q < o + m)) as [Hin|Hin].
    + rewrite decide_True by (unfold o in *; lia). done.
    + assert (q < Z.max (i_size e) (off + tot)) as Hlt by (unfold o in *; lia).
      assert (blk C1 e1 (q / BSIZE) ≠ 0) as Hq1 by (apply (wi_all _ _ _ Hw); [done|unfold BSIZE in *; dlia]).
      rewrite mapped_byte by (done || lia). rewrite (wi_bytes _ _ _ Hw) by lia. unfold o in *.
      repeat case_decide; try done; lia.
  - intros n Hn Hlt. rewrite chunk_blk. by apply Hblk2.
  - apply chunk_keeps.
  - intros c Hc. apply fresh_back. destruct Hc as [Hc0 [Hc|(n & Hn & Hc)]]; (split; [done|]); [by left|].
    right. exists n. split; [done|]. by rewrite chunk_blk in Hc.
Qed.
End Step.
End Writei.

(** What [writei] leaves: the bytes are in the file, which grew if it had to,
    the inode is on the disk, and nothing else in use changed. *)
Record file_written C e (off : Z) (bs : list Z) C' e' : Prop := {
  fw_map : map_ok C';
  fw_ok : ino_ok C' e';
  fw_inode : e' = set_isize (Z.max (i_size e) (off + alen bs)) (set_iaddrs (i_addrs e') e);
  fw_bytes : ∀ o, 0 ≤ o < i_size e' →
    fbyte C' e' o = if decide (off ≤ o < off + alen bs) then aget bs (o - off) else fbyte C e o;
  fw_keeps : keeps (λ b, owns C e b ∨ b = IBLOCK (i_inum e) sb) C C';
  fw_disk : C' (dev, IBLOCK (i_inum e) sb) = dinode_store (dinode_off (i_inum e)) e' (C (dev, IBLOCK (i_inum e) sb));
  fw_fresh : ∀ b, owns C' e' b → owns C e b ∨ nmeta ≤ b ∧ marked C b = false;
}.

Lemma dinode_blk C e e1 n : ino_ok C e1 → 0 ≤ i_inum e < sb_ninodes sb → blk (put_dinode C e) e1 n = blk C e1 n.
Proof using Hla.
  intros Ho Hin. apply blk_same. intros Hi. apply dinode_data; [done|].
  destruct (bo_ind _ _ _ _ _ _ (io_blocks _ _ _ _ _ Ho)) as [|[? _]]; [done|lia].
Qed.

Lemma written_done C e off bs C1 e1 :
  0 ≤ off ≤ i_size e → off + alen bs ≤ MAXFILE * BSIZE → 0 ≤ i_inum e < sb_ninodes sb → ino_ok C e → written C e off bs (alen bs) C1 e1 →
  let e' := set_isize (Z.max (i_size e) (off + alen bs)) e1 in file_written C e off bs (put_dinode C1 e') e'.
Proof using Hla.
  intros Hoff Hend Hin Ho Hw e'. pose proof (wi_ok _ _ _ _ _ _ _ Hw) as Ho1. pose proof (io_size _ _ _ _ _ Ho) as Hsz.
  pose proof (iblock_ok _ Hin) as (Hib & _). pose proof (meta_pos dev start size sb nmeta Hla) as Hmp.
  pose proof (la_log _ _ _ _ _ Hla) as Hll. pose proof (la_start _ _ _ _ _ Hla) as Hls.
  assert (i_inum e' = i_inum e) as Ei by (unfold e'; cbn; by rewrite (wi_inode _ _ _ _ _ _ _ Hw)).
  assert (0 ≤ i_inum e' < sb_ninodes sb) as Hin' by by rewrite Ei.
  assert (ino_ok C1 e') as Ho'.
  { destruct Ho1 as [G1 G2 G3 G4 G5]. split; try done; [cbn; lia|]. intros n Hn Hlt. by apply (wi_all _ _ _ _ _ _ _ Hw). }
  assert (∀ n, blk (put_dinode C1 e') e' n = blk C1 e1 n) as Hblk by (intros n; by rewrite dinode_blk).
  assert (¬ owns C e (IBLOCK (i_inum e) sb)) as Hno.
  { intros Hown%(owns_good dev sb nmeta); [|apply Ho]. destruct Hown. lia. }
  destruct (wi_keeps _ _ _ _ _ _ _ Hw) as [K1 K2]. destruct (dinode_keeps C1 e' Hin') as [L1 L2]. rewrite Ei in L2.
  split.
  - apply dinode_map_ok; [done|apply Ho1|apply (wi_map _ _ _ _ _ _ _ Hw)].
  - eapply (ino_keeps dev start size sb nmeta Hla _ C1); [by apply dinode_keeps| |done].
    intros Hi E. destruct (bo_ind _ _ _ _ _ _ (io_blocks _ _ _ _ _ Ho')) as [|[? _]]; [done|]. rewrite Ei in E. lia.
  - unfold e'. rewrite (wi_inode _ _ _ _ _ _ _ Hw). done.
  - intros q Hq. cbn in Hq. rewrite <- (wi_bytes _ _ _ _ _ _ _ Hw) by lia. unfold fbyte. rewrite Hblk. f_equal.
    assert (0 ≤ q / BSIZE < MAXFILE) as Hqr by (change MAXFILE with 268 in *; unfold BSIZE in *; dlia).
    destruct (bo_blk _ _ _ _ _ _ (io_blocks _ _ _ _ _ Ho1) _ Hqr) as [H0|[Hg _]].
    + exfalso. revert H0. apply (wi_all _ _ _ _ _ _ _ Hw); unfold BSIZE in *; dlia.
    + apply dinode_data; [done|lia].
  - split; [auto|]. intros κ Hs Hne. rewrite L2, K2; auto.
  - unfold put_dinode. rewrite Ei, kset_eq. f_equal. apply K2; [|done]. split; [done|]. left. cbn. lia.
  - intros c [Hc0 Hc]. apply (wi_fresh _ _ _ _ _ _ _ Hw). split; [done|]. destruct Hc as [Hc|(n & Hn & Hc)]; [by left|].
    right. exists n. by rewrite Hblk in Hc.
Qed.

(** ** Running [writei] *)

(** Blocks of the file from the one with offset [off] up to offset [o]. *)
Definition span (off o : Z) : Z := (o + BSIZE - 1) / BSIZE - off / BSIZE.

(** At most this many blocks are added to the log by a write of [n] bytes:
    a data block and a bitmap block for each block, but only the data block for a partial
    first block, two for the indirect block, and the inode. *)
Definition write_cost (off n : Z) : Z := 2 * span off (off + n) - (if off mod BSIZE =? 0 then 0 else 1) + 3.

Lemma span_step off n tot m :
  0 ≤ off → 0 ≤ tot < n → m = Z.min (n - tot) (BSIZE - (off + tot) mod BSIZE) → (tot = 0 ∨ (off + tot) mod BSIZE = 0) →
  0 < m ≤ n - tot ∧ m ≤ BSIZE - (off + tot) mod BSIZE ∧
  span off (off + (tot + m)) = span off (off + tot) + (if (off + tot) mod BSIZE =? 0 then 1 else 0) ∧
  ((off + (tot + m)) mod BSIZE = 0 ∨ tot + m = n).
Proof.
  intros Ho Ht Em Hal. unfold span, BSIZE in *. destruct (Z.eqb_spec ((off + tot) mod 1024) 0) as [E|E]; dlia.
Qed.

Lemma span_mono off o o' : o ≤ o' → span off o ≤ span off o'.
Proof. intros. unfold span, BSIZE. dlia. Qed.

Section RunWritei.
Context y (R : sys S) C (T : list Z) (ip : Z) e (off : Z) (bs : list Z).
Context (Hx : tx y R C T []) (Hsb : sy_sb R = sb) (Hip : 0 ≤ ip < alen (sy_inode R)) (He : aget (sy_inode R) ip = e).
Context (HC : map_ok C) (Hok : ino_ok C e) (Hin : 0 ≤ i_inum e < sb_ninodes sb).
Context (Hoff : 0 ≤ off ≤ i_size e) (Hend : off + alen bs ≤ MAXFILE * BSIZE) (Hn : 0 < alen bs).
Context (Hfree : free_blocks dev sb C (Z.to_nat (2 * (span off (off + alen bs) - span off off)))).
Context (Hroom : Z.of_nat (length T) + write_cost off (alen bs) < size - 1).

Let u : Z := if off mod BSIZE =? 0 then 0 else 1.

(** The state after [tot] bytes. *)
Definition writing (tot : Z) (y1 : kern * sys S) : Prop :=
  ∃ C1 e1 T1, written C e off bs tot C1 e1 ∧ tx y1 (with_inode R ip e1) C1 T1 [] ∧ T ⊆ T1 ∧
    (tot = 0 ∨ (off + tot) mod BSIZE = 0 ∨ tot = alen bs) ∧
    Z.of_nat (length T1) + ind_cost T1 e1 ≤
      Z.of_nat (length T) + ind_cost T e + (if tot =? 0 then 0 else 2 * span off (off + tot) - u) ∧
    free_blocks dev sb C1 (Z.to_nat (2 * (span off (off + alen bs) - span off (off + tot)))).


(** [bmap] of the block at offset [off + tot], with what it may cost. *)
Lemma runs_write_bmap tot y1 C1 e1 T1 :
  written C e off bs tot C1 e1 → tx y1 (with_inode R ip e1) C1 T1 [] → 0 ≤ tot < alen bs →
  (tot = 0 ∨ (off + tot) mod BSIZE = 0) →
  Z.of_nat (length T1) + ind_cost T1 e1 + 2 < size - 1 →
  ((off + tot) mod BSIZE = 0 → free_blocks dev sb C1 2) →
  let bn := (off + tot) / BSIZE in
  runs (bmap ip bn) y1 (λ b y2, ∃ C2 e2 T2, b = blk C2 e2 bn ∧ mapped C1 e1 bn C2 e2 ∧
    tx y2 (with_inode R ip e2) C2 T2 [] ∧ T1 ⊆ T2 ∧ b ∈ T2 ∧
    Z.of_nat (length T2) + ind_cost T2 e2 ≤ Z.of_nat (length T1) + ind_cost T1 e1 + (if (off + tot) mod BSIZE =? 0 then 2 else 1) ∧
    ∀ k, free_blocks dev sb C1 ((if (off + tot) mod BSIZE =? 0 then 2 else 0) + k) → free_blocks dev sb C2 k).
Proof using All.
  intros Hw Hx1 Ht Hal HT Hf bn. pose proof (wi_map _ _ _ _ _ _ _ Hw) as HC1. pose proof (wi_ok _ _ _ _ _ _ _ Hw) as Ho1.
  assert (0 ≤ bn < MAXFILE) as Hbn by (unfold bn; change MAXFILE with 268 in *; unfold BSIZE in *; dlia).
  assert (0 ≤ ip < alen (sy_inode (with_inode R ip e1))) as Hip1 by by rewrite with_inode_len.
  assert (aget (sy_inode (with_inode R ip e1)) ip = e1) as He1 by by apply with_inode_get.
  pose proof (ind_cost_range T1 e1) as Hic. destruct (decide (blk C1 e1 bn = 0)) as [H0|H0].
  - assert ((off + tot) mod BSIZE = 0) as Ha.
    { destruct Hal as [-> |]; [|done]. destruct (decide ((off + 0) mod BSIZE = 0)) as [|Hne]; [done|]. exfalso.
      revert H0. apply (wi_all _ _ _ _ _ _ _ Hw); unfold bn, BSIZE in *; dlia. }
    specialize (Hf Ha). rewrite Ha, Z.eqb_refl.
    assert (runs (bmap ip bn) y1 (bmap_post i pid k0 dev start size sb nmeta (with_inode R ip e1) C1 T1 ip bn e1)) as Hb.
    { destruct (decide (bn < NDIRECT)).
      - by apply (runs_bmap_direct i pid k0 dev start size sb nmeta Hla).
      - apply (runs_bmap_indirect i pid k0 dev start size sb nmeta Hla); done || lia. }
    eapply runs_mono; [exact Hb|]. intros b y2 (C2 & e2 & T2 & Hb2 & Hm2 & Hx2 & Hs2 & Hin2 & Hc2 & Hf2).
    exists C2, e2, T2. rewrite with_inode_twice in Hx2. by split_and!.
  - eapply runs_mono; [apply (runs_bmap_old i pid k0 dev start size sb nmeta Hla y1 _ C1 T1 ip bn e1 Hx1 Hsb Hip1 He1 HC1 Ho1 Hbn H0); lia|].
    intros b y2 [-> Hx2]. exists C1, e1, (blk C1 e1 bn :: T1). split; [done|]. split; [by apply mapped_refl|].
    split; [eapply tx_grow, Hx2; set_solver|]. split; [set_solver|]. split; [by left|]. split.
    + pose proof (ind_cost_mono T1 (blk C1 e1 bn :: T1) e1 e1 ltac:(set_solver) eq_refl). cbn [length]. case_match; lia.
    + intros k. apply free_blocks_less. lia.
Qed.

Lemma writing_room tot y1 C1 e1 T1 :
  written C e off bs tot C1 e1 → 0 ≤ tot < alen bs → (tot = 0 ∨ (off + tot) mod BSIZE = 0) →
  Z.of_nat (length T1) + ind_cost T1 e1 ≤
    Z.of_nat (length T) + ind_cost T e + (if tot =? 0 then 0 else 2 * span off (off + tot) - u) →
  Z.of_nat (length T1) + ind_cost T1 e1 + 2 < size - 1 ∧
  2 * span off (off + tot) + 2 ≤ 2 * span off (off + alen bs) + (if (off + tot) mod BSIZE =? 0 then 0 else 2).
Proof using All.
  intros Hw Ht Hal Hc. pose proof (ind_cost_range T e). unfold write_cost in Hroom. fold u in Hroom.
  assert (0 ≤ u ≤ 1) by (unfold u; destruct (off mod BSIZE =? 0); lia).
  assert (2 * span off (off + tot) + 2 ≤ 2 * span off (off + alen bs) + (if (off + tot) mod BSIZE =? 0 then 0 else 2)) as Hs.
  { clear Hroom Hfree Hc. unfold span, BSIZE in *. destruct (Z.eqb_spec ((off + tot) mod 1024) 0); dlia. }
  split; [|done]. destruct (Z.eqb_spec tot 0) as [->|Hne].
  - enough (1 ≤ span off (off + alen bs)) by lia. unfold span, BSIZE. dlia.
  - destruct Hal as [|Hal]; [done|]. rewrite Hal, Z.eqb_refl in Hs. lia.
Qed.

Lemma runs_write_loop :
  runs (loop (Z.to_nat (alen bs) + 1) (λ '(tot, off, src),
    if alen bs <=? tot then mret (inr off) else
    addr ← bmap ip (off / BSIZE);
    bp ← fbread dev addr;
    let m := Z.min (alen bs - tot) (BSIZE - off mod BSIZE) in
    '(bs, r) ← either_copyin src m;
    d ← fget bp;
    fput bp (splice (Z.to_nat (off mod BSIZE)) bs d);;
    if r =? -1 then fbrelse bp;; mret (inr off) else
    flog_write bp;;
    fbrelse bp;;
    mret (inl (tot + m, u32 (off + m), source_add src m))) (0, off, SVar bs)) y
    (λ o y', o = off + alen bs ∧ writing (alen bs) y').
Proof using All.
  eapply (runs_loop _ (λ '(tot, o, src) y', 0 ≤ tot ≤ alen bs ∧ o = off + tot ∧ src = SVar (drop (Z.to_nat tot) bs) ∧ writing tot y')
    (λ '(tot, _, _) _, Z.to_nat (alen bs - tot))).
  2: { split; [lia|]. split; [lia|]. split; [done|]. exists C, e, T. assert (with_inode R ip e = R) as -> by (rewrite <- He; by apply with_inode_self).
    split; [by apply written_0|]. split_and!; try done; [by left|cbn; lia|by rewrite Z.add_0_r]. }
  2: lia.
  intros [[tot o] src] y1 (Ht & -> & -> & C1 & e1 & T1 & Hw & Hx1 & HT1 & Hal & Hc & Hf).
  destruct (alen bs <=? tot) eqn:E; kif; zify_bool.
  { kstep. assert (tot = alen bs) as -> by lia. split; [done|]. by exists C1, e1, T1. }
  assert (tot = 0 ∨ (off + tot) mod BSIZE = 0) as Hal' by (destruct Hal as [?|[?|?]]; [by left|by right|lia]).
  destruct (writing_room tot y1 C1 e1 T1 Hw ltac:(lia) Hal' Hc) as [Hr Hsp]. kstep.
  eapply runs_mono; [apply (runs_write_bmap tot y1 C1 e1 T1 Hw Hx1 ltac:(lia) Hal' Hr)|].
  { intros Ha. rewrite Ha, Z.eqb_refl in Hsp. eapply free_blocks_less, Hf. lia. }
  set (bn := (off + tot) / BSIZE). intros b y2 (C2 & e2 & T2 & Hb & Hmp & Hx2 & HT2 & Hb2 & Hc2 & Hf2). cbn beta.
  set (m := Z.min (alen bs - tot) (BSIZE - (off + tot) mod BSIZE)).
  destruct (span_step off (alen bs) tot m ltac:(lia) ltac:(lia) eq_refl Hal') as (Hm1 & Hm2 & Hs1 & Hs2).
  pose proof (chunk_written C e off bs Hoff Hend tot C1 e1 C2 e2 m Hw ltac:(lia) Hal' ltac:(lia) ltac:(lia) Hmp) as Hw2.
  destruct (chunk_block C e off bs Hoff Hend tot C1 e1 C2 e2 m Hw ltac:(lia) Hal' ltac:(lia) ltac:(lia) Hmp) as (Hg & Hgi & _).
  fold bn in Hw2, Hg, Hgi. rewrite <- Hb in Hg, Hgi. pose proof (tx_log_size Hx) as Hls. pose proof (ind_cost_range T2 e2) as Hic2.
  assert (Z.of_nat (length T2) < size - 1) as HT2r by (destruct ((off + tot) mod BSIZE =? 0); lia).
  destruct (data_ok dev start size sb nmeta Hla _ (proj1 Hg)) as [Hbk Hnl]. kstep.
  eapply runs_mono; [apply (tx_bread Hx2 Hbk Hnl); [by apply not_elem_of_nil|apply (room_of size T2 [] 0); cbn; lia]|].
  intros h y3 Hx3. cbn beta zeta. fold m. kstep. unfold either_copyin. kstep. eapply runs_mono; [apply (tx_my_proc Hx3)|].
  intros p y4 Hx4. kstep. kstep. apply (tx_get Hx4 ltac:(by left)). change (0 =? -1) with false. cbv iota.
  change (take (Z.to_nat m) (drop (Z.to_nat tot) bs)) with (chunk bs tot m).
  eapply (tx_write_then Hx4); [by left| |done|done|].
  { pose proof (tx_len (dev, b) Hx4) as Hl.
    rewrite length_splice; [done|]. rewrite Hl. unfold chunk. rewrite length_slice; unfold alen, BSIZE in *; dlia. }
  intros y5 Hx5. kstep. eapply runs_mono; [apply (tx_brelse Hx5)|]. intros [] y6 Hx6. kstep. split; [|lia].
  split; [lia|]. split; [rewrite u32_small; change MAXFILE with 268 in *; unfold BSIZE in *; lia|].
  split; [cbn; rewrite drop_drop; do 2 f_equal; lia|].
  exists (put_chunk off bs tot C2 e2 m), e2, T2. split; [exact Hw2|]. split; [unfold put_chunk; fold bn; by rewrite <- Hb|].
  split; [set_solver|]. split; [right; destruct Hs2; [by left|by right]|]. split.
  - rewrite (proj2 (Z.eqb_neq (tot + m) 0)) by lia. rewrite Hs1. etransitivity; [exact Hc2|]. clear Hf Hf2 Hroom Hsp Hr.
    unfold u in *. unfold span, BSIZE in *. destruct (Z.eqb_spec tot 0) as [->|].
    + rewrite Z.add_0_r in *. destruct (Z.eqb_spec (off mod 1024) 0); dlia.
    + destruct Hal' as [|Hal']; [done|]. rewrite Hal', Z.eqb_refl. lia.
  - rewrite Hs1. unfold put_chunk. fold bn. rewrite <- Hb. apply (kset_free dev start size sb nmeta Hla); [apply Hg|]. apply Hf2. eapply free_blocks_less, Hf.
    destruct ((off + tot) mod BSIZE =? 0); lia.
Qed.

(** [writei] of the bytes of a variable returns their number; the file holds
    them, and the log has room for what was logged. *)
Lemma runs_writei :
  runs (writei ip (SVar bs) off (alen bs)) y (λ r y', r = alen bs ∧ ∃ C' e' T',
    file_written C e off bs C' e' ∧ tx y' (with_inode R ip e') C' T' [] ∧ T ⊆ T' ∧
    Z.of_nat (length T') ≤ Z.of_nat (length T) + write_cost off (alen bs)).
Proof using All.
  unfold writei. kstep. eapply runs_get_inode; [done|]. rewrite He. pose proof (io_size _ _ _ _ _ Hok) as Hsz.
  assert (MAXFILE * BSIZE = 274432) as Hmx by done. rewrite (u32_small (off + alen bs)) by lia.
  rewrite (proj2 (Z.ltb_ge (i_size e) off)), (proj2 (Z.ltb_ge (off + alen bs) off)) by lia. cbn [orb]. kif.
  rewrite (proj2 (Z.ltb_ge (MAXFILE * BSIZE) (off + alen bs))) by lia. kif. rewrite (io_dev _ _ _ _ _ Hok). kstep.
  eapply runs_mono; [apply runs_write_loop|]. intros o y1 (-> & C1 & e1 & T1 & Hw & Hx1 & HT1 & _ & Hc & _). cbn beta.
  rewrite (proj2 (Z.eqb_neq (alen bs) 0)) in Hc by lia. pose proof (ind_cost_range T1 e1). pose proof (ind_cost_range T e).
  pose proof (wi_ok _ _ _ _ _ _ _ Hw) as Ho1. pose proof (wi_inode _ _ _ _ _ _ _ Hw) as Ei.
  set (e' := set_isize (Z.max (i_size e) (off + alen bs)) e1).
  assert (aget (sy_inode (with_inode R ip e1)) ip = e1) as He1 by by apply with_inode_get.
  assert (i_size e1 = i_size e) as Es by by rewrite Ei. assert (i_inum e' = i_inum e) as En by (unfold e'; cbn; by rewrite Ei).
  unfold write_cost in *. fold u in Hroom |- *. rewrite (proj2 (Z.ltb_lt 0 (alen bs))) by done. kstep. apply runs_when; [intros _|done].
  kstep. eapply runs_get_inode; [exact Hx1|]. rewrite He1. kstep.
  eapply (runs_mono _ _ (λ _ y2, tx y2 (with_inode R ip e') C1 T1 [])).
  { kstep; intros Hcmp; zify_bool; rewrite Es in Hcmp.
    - eapply runs_mono; [apply (runs_upd_inode i pid k0 dev start size y1 (with_inode R ip e1) C1 T1 [] ip _ Hx1)|].
      rewrite He1, with_inode_twice. intros [] y2 Hx2. unfold e'. by rewrite Z.max_r by lia.
    - replace e' with e1; [done|]. unfold e'. rewrite Z.max_l, <- Es by lia. by destruct e1. }
  intros [] y2 Hx2. eapply runs_mono; [apply (runs_iupdate y2 (with_inode R ip e') C1 T1 ip e' Hx2 Hsb)|].
  - by apply with_inode_get.
  - apply Ho1.
  - apply Ho1.
  - by rewrite En.
  - lia.
  - intros [] y3 Hx3. kstep. split; [apply i32_small; lia|]. eexists _, e', _. split; [by apply written_done|]. split; [exact Hx3|].
    split; [set_solver|]. cbn [length]. lia.
Qed.
End RunWritei.
End FsFile.
