(* ===== verification/FsSpec.v ===== *)
(** * What the file system promises about blocks and files

    The theorems about [balloc], [bfree], [readi], [writei] and the disk form of
    inodes (kernel/fs.c), for a process inside a transaction of the log. *)

From S2P Require Import Prelude Memory Riscv Spinlock Core CString Kalloc Vm Sleeplock BufCache Log Crash LogProof LogSafety Sys Fs File FsBlock FsMap FsFile.

Section FsSpec.
Context {S : Type} `{BC : BufCache S} (i : nat) (pid : Z) (k0 : kern) (dev start size : Z).
Context (sb : superblock) (nmeta : Z) (Hla : layout dev start size sb nmeta).
Abbreviation SM := (M (kern * sys S)).
Abbreviation tx := (tx i pid k0 dev start size).
Abbreviation marked := (marked dev sb).
Abbreviation meta_marked := (meta_marked dev sb nmeta).
Abbreviation owns := (owns dev).
Abbreviation fbytes := (fbytes dev).
Abbreviation fbyte := (fbyte dev).
Abbreviation map_ok := (map_ok dev sb nmeta).
Abbreviation ino_ok := (ino_ok dev sb nmeta).
Implicit Types (C : block → list Z) (y : kern * sys S) (R : sys S) (e : inode).

(** The contents of a file. *)
Definition fdata C e : list Z := fbytes C e 0 (i_size e).

Lemma fdata_slice C e off n : 0 ≤ off → 0 ≤ n → off + n ≤ i_size e →
  slice (Z.to_nat off) (Z.to_nat n) (fdata C e) = fbytes C e off n.
Proof.
  intros. apply list_eq. intros j. unfold fdata. rewrite slice_lookup, !lookup_fbytes. repeat case_decide; try done; try lia.
  do 2 f_equal. lia.
Qed.

(** The contents of a file after a write, as a list. *)
Lemma written_fdata C e off bs C' e' :
  0 ≤ off ≤ i_size e → file_written dev sb nmeta C e off bs C' e' →
  fdata C' e' = take (Z.to_nat off) (fdata C e) ++ bs ++ drop (Z.to_nat (off + alen bs)) (fdata C e).
Proof.
  intros Ho Hw. pose proof (fw_inode _ _ _ _ _ _ _ _ _ Hw) as Ei. assert (i_size e' = Z.max (i_size e) (off + alen bs)) as Es by by rewrite Ei.
  assert (Hlen : length (take (Z.to_nat off) (fdata C e)) = Z.to_nat off) by (rewrite length_take; unfold fdata; rewrite length_fbytes; lia).
  unfold alen in *. apply list_eq. intros j. unfold fdata at 1. rewrite lookup_fbytes, Es. case_decide as Hj.
  - rewrite (fw_bytes _ _ _ _ _ _ _ _ _ Hw) by (unfold alen; lia). unfold alen. case_decide as Hin.
    + rewrite lookup_app_r, lookup_app_l by lia. rewrite Hlen. symmetry. unfold aget.
      replace (Z.to_nat (0 + Z.of_nat j - off)) with (j - Z.to_nat off)%nat by lia. apply list_lookup_lookup_total_lt. lia.
    + destruct (decide (Z.of_nat j < off)).
      * rewrite lookup_app_l, lookup_take_lt by lia. unfold fdata. rewrite lookup_fbytes, decide_True by lia. done.
      * rewrite !lookup_app_r by lia. rewrite lookup_drop, Hlen. unfold fdata. rewrite lookup_fbytes, decide_True by lia. do 2 f_equal. lia.
  - symmetry. apply lookup_ge_None_2. rewrite !length_app, length_drop, Hlen. unfold fdata. rewrite length_fbytes. lia.
Qed.

(** A file that shares no block with the one written. *)
Lemma written_other C e off bs C' e' e2 :
  0 ≤ i_inum e < sb_ninodes sb → file_written dev sb nmeta C e off bs C' e' →
  ino_ok C e2 → (∀ b, owns C e b → ¬ owns C e2 b) → ino_ok C' e2 ∧ fdata C' e2 = fdata C e2.
Proof using Hla.
  intros Hin Hw Ho2 Hdis. pose proof (fw_keeps _ _ _ _ _ _ _ _ _ Hw) as Hk. pose proof (meta_pos dev start size sb nmeta Hla) as Hmp.
  pose proof (iblock_ok dev start size sb nmeta Hla _ Hin) as (Hib & _). pose proof (io_blocks _ _ _ _ _ Ho2) as Hbo.
  assert (Hnot : ∀ b, owns C e2 b → ¬ (owns C e b ∨ b = IBLOCK (i_inum e) sb)).
  { intros b Hb [Hc| ->]; [by apply (Hdis b)|]. apply (owns_good dev sb nmeta) in Hb; [|done]. destruct Hb. lia. }
  assert (indirect e2 ≠ 0 → owns C e2 (indirect e2)) as Hind by (intros; split; [done|by left]).
  assert (ino_ok C' e2) as Ho2'.
  { eapply (ino_keeps dev start size sb nmeta Hla _ C); [exact Hk| |done]. intros Hi. by apply Hnot, Hind. }
  split; [done|]. apply list_eq. intros j. unfold fdata. rewrite !lookup_fbytes. case_decide as Hj; [|done]. f_equal.
  unfold FsFile.fbyte. set (q := 0 + Z.of_nat j). pose proof (io_size _ _ _ _ _ Ho2) as Hsz.
  assert (blk dev C' e2 (q / BSIZE) = blk dev C e2 (q / BSIZE)) as ->.
  { apply blk_same. intros Hi. apply Hk; [|by apply Hnot, Hind]. split; [done|]. right. by destruct (bo_ind _ _ _ _ _ _ Hbo). }
  f_equal. assert (0 ≤ q / BSIZE < MAXFILE) as Hqr by (change MAXFILE with 268 in *; unfold q, BSIZE in *; dlia).
  assert (blk dev C e2 (q / BSIZE) ≠ 0) as H0 by (apply Ho2; unfold q, BSIZE in *; dlia).
  apply Hk; [split; [done|]; right; by destruct (bo_blk _ _ _ _ _ _ Hbo _ Hqr)|]. apply Hnot. split; [done|]. right. by eexists.
Qed.

(** What the log's header counts, against the blocks the caller knows of. *)
Lemma tx_count y R C T H : tx y R C T H → lh_n (aget (sy_logs y.2) dev) ≤ Z.of_nat (length T).
Proof.
  intros (bs & logs & A & Hx). pose proof (tx_trans Hx) as Ht.
  pose proof (cover_length dev start size bs T (tr_logged _ _ _ _ _ _ Ht) (tx_cover Hx)) as Hc.
  destruct (tx_lsim Hx) as (_ & _ & Hl). cbn in Hl. rewrite Hl, (proj1 (tr_lh _ _ _ _ _ _ Ht)). unfold alen. lia.
Qed.

(** ** Blocks *)

(** [balloc] returns the first free block, marks exactly that block used and
    zeroes it; every other block of the disk is as before. *)
Theorem balloc_correct y R C T :
  tx y R C T [] → sy_sb R = sb → meta_marked C → (∃ b, 0 ≤ b < sb_size sb ∧ marked C b = false) →
  Z.of_nat (length T) + 2 < size - 1 →
  runs (balloc dev) y (λ b y', nmeta ≤ b < sb_size sb ∧ marked C b = false ∧ (∀ b', 0 ≤ b' < b → marked C b' = true) ∧
    ∃ C' T', tx y' R C' T' [] ∧ length T' = (2 + length T)%nat ∧
      C' (dev, b) = replicate (Z.to_nat BSIZE) 0 ∧
      (∀ b', 0 ≤ b' < sb_size sb → marked C' b' = (b' =? b) || marked C b') ∧
      (∀ κ, κ ≠ (dev, b) → κ ≠ (dev, BBLOCK b sb) → C' κ = C κ)).
Proof using Hla.
  intros Hx Hsb Hm Hf HT. eapply runs_mono; [apply (runs_balloc i pid k0 dev start size sb nmeta Hla y R C T [] Hx Hsb Hm Hf)|].
  - intros b Hb. by apply not_elem_of_nil in Hb.
  - done.
  - cbn. lia.
  - intros b y' (Hb & Hmb & Hfirst & Hx'). split_and!; try done; [lia..|]. eexists _, _. split; [exact Hx'|]. split; [done|].
    assert (map_ok C) as HC by (split; [done|]; intros κ; apply (tx_len κ Hx)).
    split; [by apply alloc_new|]. split.
    + intros b' Hb'. rewrite (marked_alloc dev start size sb nmeta Hla C b HC Hb b' Hb'). by destruct (b' =? b).
    + intros κ H1 H2. by apply alloc_at.
Qed.

(** With no free block left [balloc] panics, whatever the size of the
    bitmap, and has changed no block. *)
Theorem balloc_out_of_blocks y R C T :
  tx y R C T [] → sy_sb R = sb → (∀ b, 0 ≤ b < sb_size sb → marked C b = true) → Z.of_nat (length T) + 2 < size - 1 →
  halts (balloc dev) y (Panic "balloc: out of blocks") (λ y', tx y' R C T []).
Proof using Hla.
  intros Hx Hsb Hall HT. apply (halts_balloc i pid k0 dev start size sb nmeta Hla y R C T [] Hx Hsb Hall); [|done|cbn; lia].
  intros b Hb. by apply not_elem_of_nil in Hb.
Qed.

(** Freeing the block just allocated restores the whole disk, up to the
    zeroed block itself, which was free before. *)
Theorem balloc_bfree y R C T :
  tx y R C T [] → sy_sb R = sb → meta_marked C → (∃ b, 0 ≤ b < sb_size sb ∧ marked C b = false) →
  Z.of_nat (length T) + 3 < size - 1 →
  runs (b ← balloc dev; bfree dev b) y (λ _ y', ∃ b C' T', tx y' R C' T' [] ∧ marked C b = false ∧
    ∀ κ, κ ≠ (dev, b) → C' κ = C κ).
Proof using Hla.
  intros Hx Hsb Hm Hf HT. assert (map_ok C) as HC by (split; [done|]; intros κ; apply (tx_len κ Hx)).
  pose proof (meta_pos dev start size sb nmeta Hla) as Hmp.
  kstep. eapply runs_mono; [apply (runs_balloc i pid k0 dev start size sb nmeta Hla y R C T [] Hx Hsb Hm Hf)|];
    [intros b Hb; by apply not_elem_of_nil in Hb|lia|cbn; lia|].
  intros b y1 (Hb & Hmb & _ & Hx1). cbn beta.
  eapply runs_mono; [apply (runs_bfree i pid k0 dev start size sb nmeta Hla y1 R _ _ [] b Hx1 Hsb Hb)|].
  - rewrite (marked_alloc dev start size sb nmeta Hla C b HC Hb) by lia. by rewrite Z.eqb_refl.
  - intros b' Hb'. by apply not_elem_of_nil in Hb'.
  - cbn [length]. lia.
  - cbn; lia.
  - intros [] y2 Hx2. eexists b, _, _. split; [exact Hx2|]. split; [done|]. intros κ Hκ.
    destruct (bblock_eq dev start size sb nmeta Hla b ltac:(lia)) as [_ Hbb]. unfold map_reset, kset at 1. case_decide as E.
    + subst κ. unfold alloc. rewrite kset_ne by done. unfold map_set. rewrite kset_eq.
      apply bit_reset_set; [apply (mo_len _ _ _ _ HC)|unfold BPB, BSIZE; dlia|]. by apply negb_false_iff in Hmb.
    + unfold alloc, map_set. rewrite !kset_ne by done. done.
Qed.

(** ** Files *)

Section Write.
Context y R C (T : list Z) (ip : Z) e (off : Z) (bs : list Z).
Context (Hx : tx y R C T []) (Hsb : sy_sb R = sb) (Hip : 0 ≤ ip < alen (sy_inode R)) (He : aget (sy_inode R) ip = e).
Context (HC : map_ok C) (Hok : ino_ok C e) (Hin : 0 ≤ i_inum e < sb_ninodes sb).
Context (Hoff : 0 ≤ off ≤ i_size e) (Hend : off + alen bs ≤ MAXFILE * BSIZE) (Hn : 0 < alen bs).
Context (Hfree : free_blocks dev sb C (Z.to_nat (2 * (span off (off + alen bs) - span off off)))).

(** C7: [writei] at an offset inside a file, or at its end, returns the number
    of bytes; the file's contents become the old ones with the bytes in place, longer if
    they reach past the end, whether its blocks are direct, indirect or not there
    yet; the inode is on its disk block; every file that shares no block
    with this one keeps its contents. *)
Theorem writei_correct :
  Z.of_nat (length T) + write_cost off (alen bs) < size - 1 →
  runs (writei ip (SVar bs) off (alen bs)) y (λ r y', r = alen bs ∧ ∃ C' e' T',
    tx y' (with_inode R ip e') C' T' [] ∧ ino_ok C' e' ∧
    fdata C' e' = take (Z.to_nat off) (fdata C e) ++ bs ++ drop (Z.to_nat (off + alen bs)) (fdata C e) ∧
    C' (dev, IBLOCK (i_inum e) sb) = dinode_store (dinode_off (i_inum e)) e' (C (dev, IBLOCK (i_inum e) sb)) ∧
    ∀ e2, ino_ok C e2 → (∀ b, owns C e b → ¬ owns C e2 b) → ino_ok C' e2 ∧ fdata C' e2 = fdata C e2).
Proof using All.
  intros HT. eapply runs_mono; [by apply (runs_writei i pid k0 dev start size sb nmeta Hla y R C T ip e off bs)|].
  intros r y' (-> & C' & e' & T' & Hw & Hx' & _ & _). split; [done|]. exists C', e', T'. split; [done|]. split; [apply Hw|].
  split; [by apply written_fdata|]. split; [apply Hw|]. intros e2 Ho2 Hdis. by eapply written_other.
Qed.

(** The bytes written by [writei] are the bytes [readi] returns for the
    same range. *)
Theorem writei_readi :
  Z.of_nat (length T) + write_cost off (alen bs) < size - 1 →
  runs (r ← writei ip (SVar bs) off (alen bs); readi ip DVar off r) y (λ '(r, got) _, r = alen bs ∧ got = bs).
Proof using All.
  intros HT. kstep. eapply runs_mono; [by apply (runs_writei i pid k0 dev start size sb nmeta Hla y R C T ip e off bs)|].
  intros r y' (-> & C' & e' & T' & Hw & Hx' & _ & Hc). cbn beta.
  assert (i_size e' = Z.max (i_size e) (off + alen bs)) as Es by by rewrite (fw_inode _ _ _ _ _ _ _ _ _ Hw).
  eapply runs_mono; [apply (runs_readi i pid k0 dev start size sb nmeta Hla y' _ C' T' ip e' Hx')|].
  - done.
  - by rewrite with_inode_len.
  - by apply with_inode_get.
  - apply Hw.
  - apply Hw.
  - lia.
  - lia.
  - lia.
  - change (MAXFILE * BSIZE) with 274432 in Hend. lia.
  - intros [r got] y2 ([= -> ->] & _). rewrite Z.min_l by lia. split; [done|]. apply list_eq. intros j. rewrite lookup_fbytes.
    case_decide as Hj; [|symmetry; apply lookup_ge_None_2; unfold alen in Hj; lia].
    rewrite (fw_bytes _ _ _ _ _ _ _ _ _ Hw), decide_True by lia. unfold aget.
    replace (Z.to_nat (off + Z.of_nat j - off)) with j by lia. symmetry. apply list_lookup_lookup_total_lt. unfold alen in Hj. lia.
Qed.
End Write.

(** The cost of a chunk that [filewrite] hands to [writei]. *)
Lemma write_cost_max off n : 0 ≤ off → 0 < n ≤ write_max → write_cost off n ≤ MAXOPBLOCKS.
Proof using.
  intros Ho Hn. change write_max with 3072 in Hn. unfold write_cost, span, MAXOPBLOCKS, BSIZE in *.
  destruct (Z.eqb_spec (off mod 1024) 0); dlia.
Qed.

End FsSpec.
