(* ===== verification/Icache.v ===== *)
(** * The inode cache ([iget], [idup] and [iput] of kernel/fs.c)

    [icache_ok]: no inode of a disk has two entries in use.  An entry in use
    stays where it is until its last reference is dropped. *)

From S2P Require Import Prelude Memory Riscv Spinlock Core CString Kalloc Vm Sleeplock BufCache Log Crash LogProof LogSafety Sys Fs FsBlock.

Definition in_use (e : inode) : Prop := 0 < i_ref e.
Definition is_ino (dev inum : Z) (e : inode) : Prop := in_use e ∧ i_dev e = dev ∧ i_inum e = inum.

#[global] Instance is_ino_dec dev inum e : Decision (is_ino dev inum e).
Proof. unfold is_ino, in_use. apply _. Defined.

Record icache_ok (ic : list inode) : Prop := {
  ic_len : alen ic = NINODE;
  ic_refs : ∀ ip, 0 ≤ ip < NINODE → 0 ≤ i_ref (aget ic ip) < 2 ^ 31 - 1;
  ic_unique : ∀ ip jp dev inum, 0 ≤ ip < NINODE → 0 ≤ jp < NINODE →
    is_ino dev inum (aget ic ip) → is_ino dev inum (aget ic jp) → ip = jp;
}.

(** A change of an entry that keeps its identity and its reference count. *)
Lemma icache_ok_aset ic ip e :
  icache_ok ic → 0 ≤ ip < NINODE → i_ref e = i_ref (aget ic ip) → i_dev e = i_dev (aget ic ip) → i_inum e = i_inum (aget ic ip) →
  icache_ok (aset ic ip e).
Proof.
  intros [H1 H2 H3] Hip Er Ed Ei. assert (Hk : ∀ jp, 0 ≤ jp < NINODE → i_ref (aget (aset ic ip e) jp) = i_ref (aget ic jp) ∧
    ∀ d n, is_ino d n (aget (aset ic ip e) jp) ↔ is_ino d n (aget ic jp)).
  { intros jp Hj. destruct (decide (jp = ip)) as [->|]; [|by rewrite aget_aset_ne by lia].
    rewrite aget_aset_eq by lia. unfold is_ino, in_use. by rewrite Er, Ed, Ei. }
  split; [by rewrite alen_aset|intros jp Hj; rewrite (proj1 (Hk jp Hj)); by apply H2|].
  intros jp kp d n Hj Hkp. rewrite (proj2 (Hk jp Hj)), (proj2 (Hk kp Hkp)). by apply H3.
Qed.

(** An entry that becomes free. *)
Lemma icache_ok_free ic ip e : icache_ok ic → 0 ≤ ip < NINODE → i_ref e = 0 → icache_ok (aset ic ip e).
Proof.
  intros [H1 H2 H3] Hip H0. assert (Hk : ∀ jp, 0 ≤ jp < NINODE → jp ≠ ip ∧ aget (aset ic ip e) jp = aget ic jp ∨ jp = ip ∧ aget (aset ic ip e) jp = e).
  { intros jp Hj. destruct (decide (jp = ip)) as [->|]; [right; by rewrite aget_aset_eq by lia|left; by rewrite aget_aset_ne by lia]. }
  split; [by rewrite alen_aset| |].
  - intros jp Hj. destruct (Hk jp Hj) as [[_ ->]|[_ ->]]; [by apply H2|lia].
  - intros jp kp d n Hj Hkp. assert (¬ is_ino d n e) by (intros [Hu _]; unfold in_use in Hu; lia).
    destruct (Hk jp Hj) as [[_ ->]|[_ ->]], (Hk kp Hkp) as [[_ ->]|[_ ->]]; try done. by apply H3.
Qed.

(** What [iget] leaves in the entry it returns. *)
Definition igot (dev inum : Z) (e : inode) : inode :=
  if decide (is_ino dev inum e) then set_iref (i_ref e + 1) e else set_ivalid 0 (set_iref 1 (set_ikey dev inum e)).

(** The entry [iget] returns. *)
Definition iget_at (dev inum : Z) (ic : list inode) (ip : Z) : Prop :=
  0 ≤ ip < NINODE ∧ (is_ino dev inum (aget ic ip) ∨
    (∀ jp, 0 ≤ jp < NINODE → ¬ is_ino dev inum (aget ic jp)) ∧ i_ref (aget ic ip) = 0).

Lemma igot_is dev inum e : is_ino dev inum (igot dev inum e).
Proof. unfold igot. case_decide as H; [|by split]. destruct H as (H1 & H2 & H3). unfold is_ino, in_use in *. cbn. split; [lia|done]. Qed.

Lemma iget_at_ok dev inum ic ip :
  icache_ok ic → i_ref (aget ic ip) < 2 ^ 31 - 2 → iget_at dev inum ic ip → icache_ok (aset ic ip (igot dev inum (aget ic ip))).
Proof.
  intros [H1 H2 H3] Hb [Hip Hat]. pose proof (igot_is dev inum (aget ic ip)) as Hg.
  assert (Hsame : ∀ jp d n, 0 ≤ jp < NINODE → jp ≠ ip → is_ino d n (aget ic jp) → is_ino d n (igot dev inum (aget ic ip)) → False).
  { intros jp d n Hj Hne Hi (_ & E1 & E2). destruct Hg as (_ & E3 & E4). rewrite E1 in E3. rewrite E2 in E4. subst d n.
    destruct Hat as [Hat|[Hno _]]; [|by apply (Hno jp)]. by apply Hne, (H3 jp ip dev inum). }
  split; [by rewrite alen_aset| |].
  - intros jp Hj. destruct (decide (jp = ip)) as [->|Hne]; [|rewrite aget_aset_ne by lia; by apply H2].
    rewrite aget_aset_eq by lia. specialize (H2 ip Hip). unfold igot. case_decide; cbn; lia.
  - intros jp kp d n Hj Hk. destruct (decide (jp = ip)) as [->|Hnj], (decide (kp = ip)) as [->|Hnk]; try done;
      rewrite ?aget_aset_eq, ?aget_aset_ne by lia; intros Ha Hb'.
    + by destruct (Hsame kp d n Hk Hnk).
    + by destruct (Hsame jp d n Hj Hnj).
    + by apply (H3 jp kp d n).
Qed.

Lemma set_iref_back e : set_iref (i_ref (set_iref (i_ref e + 1) e) - 1) (set_iref (i_ref e + 1) e) = e.
Proof. destruct e as [d n r]. unfold set_iref. cbn [i_ref]. rewrite Z.add_simpl_r. reflexivity. Qed.

Section Icache.
Context {S : Type} `{BC : BufCache S}.
Abbreviation SM := (M (kern * sys S)).

(** The scan of the table. *)
Lemma runs_iget_scan dev inum (y : kern * sys S) :
  (∀ ip, 0 ≤ ip < NINODE → 0 ≤ i_ref (aget (sy_inode y.2) ip)) →
  runs (iget_scan dev inum) y (λ '(found, empty) y', y' = y ∧
    match found with
    | Some ip => iget_at dev inum (sy_inode y.2) ip ∧ is_ino dev inum (aget (sy_inode y.2) ip)
    | None => (∀ jp, 0 ≤ jp < NINODE → ¬ is_ino dev inum (aget (sy_inode y.2) jp)) ∧
        match empty with
        | Some ip => 0 ≤ ip < NINODE ∧ i_ref (aget (sy_inode y.2) ip) = 0
        | None => ∀ jp, 0 ≤ jp < NINODE → in_use (aget (sy_inode y.2) jp)
        end
    end).
Proof.
  intros Hr. unfold iget_scan. set (ic := sy_inode y.2) in *.
  apply (runs_loop _ (λ '(ip, empty) y', y' = y ∧ 0 ≤ ip ≤ NINODE ∧ (∀ jp, 0 ≤ jp < ip → ¬ is_ino dev inum (aget ic jp)) ∧
    match empty with Some e => 0 ≤ e < NINODE ∧ i_ref (aget ic e) = 0 | None => ∀ jp, 0 ≤ jp < ip → in_use (aget ic jp) end)
    (λ '(ip, _) _, Z.to_nat (NINODE - ip))); [|split; [done|split; [unfold NINODE; lia|split; intros; lia]]|unfold NINODE; lia].
  intros [ip empty] y1 (-> & Hip & Hno & He). destruct (NINODE <=? ip) eqn:E; kif; zify_bool.
  { kstep. assert (ip = NINODE) as -> by lia. done. }
  kstep. unfold get_inode. kstep. fold ic. specialize (Hr ip ltac:(lia)).
  destruct ((0 <? i_ref (aget ic ip)) && (i_dev (aget ic ip) =? dev) && (i_inum (aget ic ip) =? inum)) eqn:Em; kif; kstep.
  { assert (is_ino dev inum (aget ic ip)) as Hm by (zify_bool; done). split; [done|]. split; [split; [lia|by left]|done]. }
  assert (¬ is_ino dev inum (aget ic ip)) as Hm.
  { intros (H1 & H2 & H3). unfold in_use in H1. rewrite (proj2 (Z.ltb_lt _ _) H1), H2, H3, !Z.eqb_refl in Em. done. }
  split; [|lia]. split; [done|]. split; [lia|]. split.
  { intros jp Hj. destruct (decide (jp = ip)) as [->|]; [done|]. apply Hno. lia. }
  destruct empty as [e|]; [done|]. destruct (i_ref (aget ic ip) =? 0) eqn:E0; zify_bool; [lia|].
  intros jp Hj. destruct (decide (jp = ip)) as [->|]; [unfold in_use; lia|]. apply He. lia.
Qed.

(** [iget] on a table with room. *)
Lemma runs_iget dev inum k (s : sys S) :
  kern_ok k → locked (sy_iclock s) = 0 → icache_ok (sy_inode s) →
  (∃ jp, 0 ≤ jp < NINODE ∧ (is_ino dev inum (aget (sy_inode s) jp) ∨ i_ref (aget (sy_inode s) jp) = 0)) →
  runs (iget dev inum) (k, s) (λ ip y', iget_at dev inum (sy_inode s) ip ∧ kern_le k y'.1 ∧
    ∃ l, locked l = 0 ∧ y'.2 = set_ic l (aset (sy_inode s) ip (igot dev inum (aget (sy_inode s) ip))) s).
Proof.
  intros Hk Hl [H1 H2 _] Hroom. unfold iget. kstep. apply (runs_acquire_le iclock); [done|done|].
  set (s1 := over iclock _ s). kstep. eapply runs_mono; [apply runs_iget_scan; intros ip Hip; apply H2, Hip|].
  cbn [snd]. change (sy_inode s1) with (sy_inode s). intros [found empty] y1 [-> Hf].
  destruct found as [ip|]; [|destruct Hf as [Hno Hf]; destruct empty as [ip|]; [|exfalso; destruct Hroom as (jp & Hj & [Hi|Hi]); [by apply (Hno jp)|specialize (Hf jp Hj); unfold in_use in Hf; lia]]].
  - destruct Hf as [Hat Hi]. kstep. unfold upd_inode. kstep. kstep.
    apply (runs_release_le iclock k); [done|by apply kern_le_refl, pushed_ok|done|done|done|]. intros k3 Hle. kstep.
    split; [exact Hat|]. split; [exact Hle|]. eexists. split; [|cbn; unfold igot; rewrite decide_True by done; cbn; rewrite i32_small by (destruct Hat as [Hip _]; specialize (H2 ip Hip); lia); reflexivity]. done.
  - destruct Hf as [Hip H0]. assert (0 ≤ ip < alen (sy_inode s)) as Hip' by by rewrite H1.
    unfold upd_inode. do 7 kstep. cbn [fst snd sy_inode sy_iclock set_ic].
    rewrite !aget_aset_eq, !aset_aset by (rewrite ?alen_aset; done).
    apply (runs_release_le iclock k); [done|by apply kern_le_refl, pushed_ok|done|done|done|]. intros k3 Hle. kstep.
    split; [split; [done|right; by split]|]. split; [exact Hle|]. eexists. split; [|unfold igot; rewrite decide_False by (by apply Hno); reflexivity]. done.
Qed.

(** Inside a transaction. *)
Lemma tx_iget i pid k0 tdev start size y R C T H dev inum :
  tx i pid k0 tdev start size y R C T H → locked (sy_iclock R) = 0 → icache_ok (sy_inode R) →
  (∃ jp, 0 ≤ jp < NINODE ∧ (is_ino dev inum (aget (sy_inode R) jp) ∨ i_ref (aget (sy_inode R) jp) = 0)) →
  runs (iget dev inum) y (λ ip y', iget_at dev inum (sy_inode R) ip ∧ ∃ l, locked l = 0 ∧
    tx i pid k0 tdev start size y' (set_ic l (aset (sy_inode R) ip (igot dev inum (aget (sy_inode R) ip))) R) C T H).
Proof.
  intros Hx Hl Hic Hroom. destruct (tx_kern Hx) as [_ (Hk & _)]. pose proof (tx_view sy_inode ltac:(done) Hx) as E2.
  pose proof (tx_view sy_iclock ltac:(done) Hx) as E1. destruct y as [k s]. cbn in E1, E2. rewrite <- E1 in Hl. rewrite <- E2 in Hic, Hroom |- *.
  eapply runs_mono; [apply (runs_iget dev inum k s Hk Hl Hic Hroom)|]. intros ip [k' s'] (Hat & Hle & l & Hlk & Es). cbn in Es, Hle. subst s'.
  split; [done|]. exists l. split; [done|].
  apply (tx_step (y := (k, set_ic l _ s)) k'); [|done]. by apply (tx_rest_set (set_ic l _) (y := (k, s))).
Qed.

(** [ip->ref++] and [ip->ref--] under the lock. *)
Lemma runs_idup ip k (s : sys S) :
  kern_ok k → locked (sy_iclock s) = 0 → 0 ≤ i_ref (aget (sy_inode s) ip) < 2 ^ 31 - 1 →
  runs (idup ip) (k, s) (λ r y', r = ip ∧ kern_le k y'.1 ∧ ∃ l, locked l = 0 ∧
    y'.2 = set_ic l (aset (sy_inode s) ip (set_iref (i_ref (aget (sy_inode s) ip) + 1) (aget (sy_inode s) ip))) s).
Proof.
  intros Hk Hl Hr. unfold idup. kstep. apply (runs_acquire_le iclock); [done|done|]. kstep. unfold upd_inode. kstep. kstep.
  apply (runs_release_le iclock k); [done|by apply kern_le_refl, pushed_ok|done|done|done|]. intros k3 Hle. kstep.
  split; [done|]. split; [exact Hle|]. eexists. split; [|cbn; rewrite i32_small by lia; reflexivity]. done.
Qed.

(** [iput] of a reference that is not the last one of an unlinked inode. *)
Lemma runs_iput_plain ip k (s : sys S) :
  kern_ok k → locked (sy_iclock s) = 0 → let e := aget (sy_inode s) ip in 1 ≤ i_ref e < 2 ^ 31 →
  ((i_ref e =? 1) && negb (i_valid e =? 0) && (i_nlink e =? 0)) = false →
  runs (iput ip) (k, s) (λ _ y', kern_le k y'.1 ∧ ∃ l, locked l = 0 ∧
    y'.2 = set_ic l (aset (sy_inode s) ip (set_iref (i_ref e - 1) e)) s).
Proof.
  intros Hk Hl e Hr Hc. unfold iput. kstep. apply (runs_acquire_le iclock); [done|done|]. kstep. unfold get_inode. kstep. kstep.
  cbn [snd over iclock set_ic sy_inode]. fold e. rewrite Hc.
  apply runs_when; [done|intros _]. kstep. unfold upd_inode. kstep.
  apply (runs_release_le iclock k); [done|by apply kern_le_refl, pushed_ok|done|done|done|]. intros k3 Hle.
  split; [exact Hle|]. eexists. split; [|cbn; fold e; rewrite i32_small by lia; reflexivity]. done.
Qed.

Lemma tx_iput_plain i pid k0 tdev start size y R C T H ip :
  tx i pid k0 tdev start size y R C T H → locked (sy_iclock R) = 0 → let e := aget (sy_inode R) ip in 1 ≤ i_ref e < 2 ^ 31 →
  ((i_ref e =? 1) && negb (i_valid e =? 0) && (i_nlink e =? 0)) = false →
  runs (iput ip) y (λ _ y', ∃ l, locked l = 0 ∧
    tx i pid k0 tdev start size y' (set_ic l (aset (sy_inode R) ip (set_iref (i_ref e - 1) e)) R) C T H).
Proof.
  intros Hx Hl e Hr Hc. destruct (tx_kern Hx) as [_ (Hk & _)]. pose proof (tx_view sy_inode ltac:(done) Hx) as E2.
  pose proof (tx_view sy_iclock ltac:(done) Hx) as E1. destruct y as [k s]. cbn in E1, E2. rewrite <- E1 in Hl.
  unfold e in *. clear e. rewrite <- E2 in Hr, Hc |- *.
  eapply runs_mono; [apply (runs_iput_plain ip k s Hk Hl Hr Hc)|]. intros [] [k' s'] (Hle & l & Hlk & Es). cbn in Es, Hle. subst s'.
  exists l. split; [done|]. apply (tx_step (y := (k, set_ic l _ s)) k'); [|done]. by apply (tx_rest_set (set_ic l _) (y := (k, s))).
Qed.


(** When every entry is in use and none is the inode's, [iget] panics
    rather than recycle an entry in use. *)
Theorem iget_no_inodes dev inum k (s : sys S) :
  locked (sy_iclock s) = 0 → (∀ jp, 0 ≤ jp < NINODE → in_use (aget (sy_inode s) jp) ∧ ¬ is_ino dev inum (aget (sy_inode s) jp)) →
  halts (iget dev inum) (k, s) (Panic "iget: no inodes") (λ y', sy_inode y'.2 = sy_inode s).
Proof.
  intros Hl Hall. unfold iget. apply halts_bind_r. apply (runs_acquire_le iclock); [done|done|]. apply halts_bind_r.
  eapply runs_mono; [apply runs_iget_scan; intros ip Hip; destruct (Hall ip Hip); unfold in_use in *; cbn; lia|].
  intros [found empty] y1 [-> Hf]. cbn [snd] in Hf. destruct found as [ip|].
  - destruct Hf as [[Hip _] Hi]. by destruct (Hall ip Hip).
  - destruct Hf as [_ Hf]. destruct empty as [ip|]; [|done]. destruct Hf as [Hip H0]. destruct (Hall ip Hip) as [Hu _].
    unfold in_use in Hu. cbn in H0, Hu. lia.
Qed.

(** A reference taken with [idup] and dropped with [iput] leaves the inode
    table exactly as it was. *)
Theorem idup_iput ip k (s : sys S) :
  kern_ok k → locked (sy_iclock s) = 0 → 0 ≤ ip < alen (sy_inode s) → 1 ≤ i_ref (aget (sy_inode s) ip) < 2 ^ 31 - 1 →
  runs (r ← idup ip; iput r) (k, s) (λ _ y', locked (sy_iclock y'.2) = 0 ∧ sy_inode y'.2 = sy_inode s).
Proof.
  intros Hk Hl Hip Hr. kstep. eapply runs_mono; [apply runs_idup; done || lia|].
  intros r [k1 s1] (-> & Hle & l & Hlk & Es). cbn in Es, Hle. subst s1. cbn beta.
  eapply runs_mono; [apply runs_iput_plain; [apply Hle|done|..]|]; cbn [sy_inode set_ic]; rewrite aget_aset_eq by done;
    [cbn [set_iref i_ref]; lia|cbn [set_iref i_ref]; by rewrite (proj2 (Z.eqb_neq _ 1)) by lia|].
  intros [] [k2 s2] (_ & l2 & Hl2 & Es). cbn [snd] in Es |- *. subst s2. split; [done|]. cbn [set_ic sy_inode]. rewrite aset_aset.
  rewrite set_iref_back. by apply aset_aget.
Qed.
End Icache.
