(* ===== verification/FsDir.v ===== *)
(** * Directories ([dirlookup] and [dirlink] of kernel/fs.c)

    A directory is a file of entries.  [dlookup C e] is the directory as a map from names to
    inode numbers, which [dirlookup] reads and [dirlink] extends. *)

From S2P Require Import Prelude Memory Riscv Spinlock Core CString Kalloc Vm Sleeplock BufCache Log Crash LogProof LogSafety Sys Fs FsBlock FsMap FsFile FsSpec Icache.

(** ** Names *)

Lemma lstrncmp_lstrncpy n name name' : lstrncmp n name' (lstrncpy n name) = lstrncmp n name' name.
Proof.
  revert name name'. induction n as [|n IH]; intros name name'; [done|]. cbn [lstrncmp lstrncpy].
  destruct name as [|a name]; [|destruct (Z.eqb_spec a 0) as [->|Ha]]; cbn [hd tl replicate].
  - destruct (Z.eqb_spec (hd 0 name') 0) as [->|H0]; done.
  - destruct (Z.eqb_spec (hd 0 name') 0) as [->|H0]; done.
  - rewrite IH. done.
Qed.

(** Names that compare equal compare alike with a third. *)
Lemma lstrncmp_congr n p q r : lstrncmp n p q = 0 → (lstrncmp n p r =? 0) = (lstrncmp n q r =? 0).
Proof.
  revert p q r. induction n as [|n IH]; [done|]. intros p q r. cbn [lstrncmp].
  destruct (Z.eqb_spec (hd 0 p) (hd 0 q)) as [E|E]; [|rewrite andb_false_r; lia]. rewrite <- E.
  destruct (Z.eqb_spec (hd 0 p) 0) as [E0|E0]; cbn [negb andb]; [done|]. intros H. destruct (hd 0 p =? hd 0 r); [by apply IH|done].
Qed.

Lemma lstrncmp_refl n name : lstrncmp n name name = 0.
Proof. revert name. induction n as [|n IH]; [done|]. intros name. cbn. rewrite Z.eqb_refl, IH. destruct (negb _); cbn; lia. Qed.

Lemma length_lstrncpy n name : length (lstrncpy n name) = n.
Proof.
  revert name. induction n as [|n IH]; [done|]. intros [|a name]; cbn [lstrncpy]; [apply length_replicate|].
  destruct (a =? 0); [apply length_replicate|]. cbn. by rewrite IH.
Qed.

(** ** Entries *)

Lemma length_de_make inum name : length name = Z.to_nat DIRSIZ → alen (de_make inum name) = DIRENT.
Proof. intros H. unfold alen, de_make. by rewrite length_app, length_le_enc, H. Qed.

Lemma de_inum_make inum name : de_inum (de_make (u16 inum) name) = u16 inum.
Proof.
  unfold de_inum, rd, de_make, slice. cbn [Z.to_nat]. rewrite drop_0, take_app_le by (rewrite length_le_enc; lia).
  rewrite take_ge by (rewrite length_le_enc; lia). rewrite le_dec_enc. unfold u16. rewrite Z.mod_mod by lia. done.
Qed.

Lemma de_name_make inum name : length name = Z.to_nat DIRSIZ → de_name (de_make inum name) = name.
Proof.
  intros H. unfold de_name, de_make, slice. rewrite drop_app_length' by by rewrite length_le_enc. apply take_ge. lia.
Qed.

(** The entry is in use and has this name. *)
Definition dmatch (name de : list Z) : bool := negb (de_inum de =? 0) && (namecmp name (de_name de) =? 0).
Definition dfree (de : list Z) : bool := de_inum de =? 0.

Lemma find_ext {A} (p q : A → bool) (l : list A) : (∀ a, a ∈ l → p a = q a) → List.find p l = List.find q l.
Proof.
  induction l as [|a l IH]; [done|]. intros H. cbn. rewrite (H a) by by left. rewrite IH; [done|]. intros b Hb. apply H. by right.
Qed.

Lemma find_seqZ_spec (p : Z → bool) n r : 0 ≤ n →
  List.find p (seqZ 0 n) = r ↔ match r with
    | Some k => 0 ≤ k < n ∧ p k = true ∧ ∀ j, 0 ≤ j < k → p j = false
    | None => ∀ j, 0 ≤ j < n → p j = false
    end.
Proof.
  intros Hn. rewrite <- (Z2Nat.id n Hn). generalize (Z.to_nat n). clear n Hn. intros n.
  assert (Hg : ∀ n lo, match List.find p (seqZ lo (Z.of_nat n)) with
    | Some k => lo ≤ k < lo + Z.of_nat n ∧ p k = true ∧ ∀ j, lo ≤ j < k → p j = false
    | None => ∀ j, lo ≤ j < lo + Z.of_nat n → p j = false end).
  { clear n r. induction n as [|n IH]; intros lo; [intros j; lia|]. rewrite seqZ_cons by lia. cbn [List.find].
    destruct (p lo) eqn:E; [split; [lia|split; [done|lia]]|]. replace (Z.pred (Z.of_nat (S n))) with (Z.of_nat n) by lia.
    specialize (IH (Z.succ lo)). destruct (List.find p _) as [k|].
    - destruct IH as (H1 & H2 & H3). split; [lia|]. split; [done|]. intros j Hj. destruct (decide (j = lo)) as [->|]; [done|]. apply H3. lia.
    - intros j Hj. destruct (decide (j = lo)) as [->|]; [done|]. apply IH. lia. }
  specialize (Hg n 0). rewrite Z.add_0_l in Hg. split; [intros <-; exact Hg|]. intros Hr.
  destruct (List.find p _) as [k|], r as [k'|]; [|destruct Hg as (? & E & _); by rewrite Hr in E by lia|destruct Hr as (? & E & _); by rewrite Hg in E by lia|done].
  f_equal. destruct Hg as (H1 & H2 & H3), Hr as (H4 & H5 & H6). destruct (Z.lt_trichotomy k k') as [Hlt|[->|Hlt]]; [|done|].
  - by rewrite H6 in H2 by lia.
  - by rewrite H3 in H5 by lia.
Qed.

Section FsDir.
Context {S : Type} `{BC : BufCache S} (i : nat) (pid : Z) (k0 : kern) (dev start size : Z).
Context (sb : superblock) (nmeta : Z) (Hla : layout dev start size sb nmeta).
Abbreviation SM := (M (kern * sys S)).
Abbreviation tx := (tx i pid k0 dev start size).
Abbreviation fbytes := (fbytes dev).
Abbreviation map_ok := (map_ok dev sb nmeta).
Abbreviation ino_ok := (ino_ok dev sb nmeta).
Implicit Types (C : block → list Z) (y : kern * sys S) (R : sys S) (e : inode).

Definition dent C e (k : Z) : list Z := fbytes C e (k * DIRENT) DIRENT.
Definition ndent e : Z := i_size e / DIRENT.
Definition dfind (p : list Z → bool) C e : option Z := List.find (λ k, p (dent C e k)) (seqZ 0 (ndent e)).

(** The directory as a map from names to inode numbers. *)
Definition dlookup C e (name : list Z) : option Z := (λ k, de_inum (dent C e k)) <$> dfind (dmatch name) C e.

Record dir_ok C e : Prop := {
  do_type : i_type e = T_DIR;
  do_size : i_size e mod DIRENT = 0;
  do_ino : ino_ok C e;
}.

Section Shape.
Context C e (Hd : dir_ok C e).

Lemma ndent_size : 0 ≤ ndent e ∧ i_size e = ndent e * DIRENT.
Proof using Hd.
  destruct Hd as [_ Hs [_ _ _ Hsz _]]. unfold ndent, DIRENT in *. dlia.
Qed.

(** The slot [dirlink] uses: the first free entry, or the end. *)
Definition dslot : Z := default (ndent e) (dfind dfree C e).

Definition new_dent (name : list Z) (inum : Z) : list Z := de_make (u16 inum) (lstrncpy (Z.to_nat DIRSIZ) name).

Lemma dslot_range : 0 ≤ dslot ≤ ndent e.
Proof using Hd.
  destruct ndent_size as [Hn _]. unfold dslot. destruct (dfind dfree C e) as [k|] eqn:E; cbn; [|lia].
  apply find_seqZ_spec in E; [lia|done].
Qed.

(** ** The directory after a link *)

Section Linked.
Context (name : list Z) (inum : Z) C' (e' : inode).
Context (Hw : file_written dev sb nmeta C e (dslot * DIRENT) (new_dent name inum) C' e').

Lemma linked_size : ndent e' = Z.max (ndent e) (dslot + 1) ∧ i_size e' = ndent e' * DIRENT.
Proof using Hd Hw.
  destruct ndent_size as [Hn Es]. assert (alen (new_dent name inum) = DIRENT) as Hlen by apply length_de_make, length_lstrncpy.
  assert (i_size e' = Z.max (i_size e) (dslot * DIRENT + DIRENT)) as Es' by (rewrite (fw_inode _ _ _ _ _ _ _ _ _ Hw), Hlen; done).
  unfold ndent in *. unfold DIRENT in *. rewrite Es' at 1 2. rewrite Es at 1 3. dlia.
Qed.

Lemma linked_dent k : 0 ≤ k < ndent e' → dent C' e' k = if decide (k = dslot) then new_dent name inum else dent C e k.
Proof using Hd Hw.
  intros Hk. destruct linked_size as [E1 E2]. destruct dslot_range as [Hs0 Hs1].
  assert (alen (new_dent name inum) = DIRENT) as Hlen by apply length_de_make, length_lstrncpy.
  apply list_eq. intros j. unfold dent. rewrite lookup_fbytes. case_decide as Hj.
  - rewrite (fw_bytes _ _ _ _ _ _ _ _ _ Hw) by (unfold DIRENT in *; lia). rewrite Hlen. case_decide as Hin.
    + rewrite decide_True by (unfold DIRENT in *; lia). symmetry. unfold aget.
      replace (Z.to_nat (k * DIRENT + Z.of_nat j - dslot * DIRENT)) with j by (unfold DIRENT in *; lia).
      apply list_lookup_lookup_total_lt. unfold alen, DIRENT in *. lia.
    + rewrite decide_False by (unfold DIRENT in *; lia). rewrite lookup_fbytes, decide_True by done. done.
  - symmetry. apply lookup_ge_None_2. case_decide; [unfold alen in Hlen; lia|]. rewrite length_fbytes. lia.
Qed.

Lemma linked_ok : dir_ok C' e'.
Proof using Hd Hw.
  destruct linked_size as [_ E]. split; [|rewrite E; apply Z.mod_mul; done|apply Hw].
  rewrite (fw_inode _ _ _ _ _ _ _ _ _ Hw). apply Hd.
Qed.

Lemma dslot_free : dslot < ndent e → dfree (dent C e dslot) = true.
Proof using Hd.
  destruct ndent_size as [Hn _]. unfold dslot. destruct (dfind dfree C e) as [k|] eqn:E; cbn; [|lia].
  apply find_seqZ_spec in E; [by destruct E as (_ & ? & _)|done].
Qed.

Lemma new_match name' : u16 inum ≠ 0 → dmatch name' (new_dent name inum) = (namecmp name' name =? 0).
Proof using.
  intros Hi. unfold dmatch, new_dent, namecmp. rewrite de_inum_make, de_name_make, lstrncmp_lstrncpy by apply length_lstrncpy.
  by rewrite (proj2 (Z.eqb_neq _ 0) Hi).
Qed.

(** The name has its inode now; other names have what they had. *)
Lemma linked_lookup name' : u16 inum ≠ 0 → dfind (dmatch name) C e = None →
  dlookup C' e' name' = if namecmp name' name =? 0 then Some (u16 inum) else dlookup C e name'.
Proof using Hd Hw.
  intros Hi Hno. destruct linked_size as [E1 _]. destruct dslot_range as [Hs0 Hs1]. destruct ndent_size as [Hn _].
  pose proof (new_match name' Hi) as Hm. unfold dlookup. destruct (namecmp name' name =? 0) eqn:En.
  - assert (dfind (dmatch name') C' e' = Some dslot) as ->; [|cbn; rewrite linked_dent, decide_True by lia; unfold new_dent; by rewrite de_inum_make].
    apply find_seqZ_spec; [lia|]. split; [lia|]. rewrite linked_dent, decide_True by lia. split; [done|].
    intros j Hj. rewrite linked_dent, decide_False by lia. pose proof (proj1 (find_seqZ_spec _ _ None Hn) Hno j ltac:(lia)) as Hnj. apply Z.eqb_eq in En.
    cbn beta in Hnj. unfold dmatch, namecmp in *. by rewrite (lstrncmp_congr _ _ _ _ En).
  - assert (dfind (dmatch name') C' e' = dfind (dmatch name') C e) as ->.
    { apply find_seqZ_spec; [lia|]. destruct (dfind (dmatch name') C e) as [k|] eqn:E; apply find_seqZ_spec in E; try lia.
      - destruct E as (Hk & Hk1 & Hk2). split; [lia|]. assert (Hslot : dslot < ndent e → dmatch name' (dent C e dslot) = false).
        { intros Hlt%dslot_free. unfold dfree in Hlt. unfold dmatch. by rewrite Hlt. }
        split; [rewrite linked_dent by lia; case_decide; [|done]; subst k; by rewrite Hslot in Hk1 by lia|].
        intros j Hj. rewrite linked_dent by lia. case_decide; [by rewrite Hm|]. by apply Hk2.
      - intros j Hj. rewrite linked_dent by lia. case_decide; [by rewrite Hm|]. apply E. lia. }
    destruct (dfind (dmatch name') C e) as [k|] eqn:E; [|done]. cbn. apply find_seqZ_spec in E as (Hk & Hk1 & _); [|lia].
    rewrite linked_dent by lia. case_decide; [|done]. subst k. unfold dmatch in Hk1. pose proof (dslot_free ltac:(lia)) as Hfr. unfold dfree in Hfr.
    by rewrite Hfr in Hk1.
Qed.
End Linked.
End Shape.

Section Dir.
Context y R C (T : list Z) (dp : Z) e.
Context (Hx : tx y R C T []) (Hsb : sy_sb R = sb) (Hdp : 0 ≤ dp < alen (sy_inode R)) (He : aget (sy_inode R) dp = e).
Context (HC : map_ok C) (Hd : dir_ok C e) (HT : Z.of_nat (length T) < size - 1).

(** Reading one entry. *)
Lemma runs_read_dent y1 k : tx y1 R C T [] → 0 ≤ k < ndent e →
  runs (readi dp DVar (k * DIRENT) DIRENT) y1 (λ r y2, r = (DIRENT, dent C e k) ∧ tx y2 R C T []).
Proof using All.
  intros Hx1 Hk. destruct (ndent_size C e Hd) as [_ Es]. pose proof (io_size _ _ _ _ _ (do_ino _ _ Hd)) as Hsz.
  change (MAXFILE * BSIZE) with 274432 in Hsz. unfold DIRENT in Es.
  eapply runs_mono; [apply (runs_readi i pid k0 dev start size sb nmeta Hla y1 R C T dp e Hx1 Hsb Hdp He HC (do_ino _ _ Hd) HT)|].
  - unfold DIRENT. lia.
  - unfold DIRENT. lia.
  - unfold DIRENT. lia.
  - intros r y2 [-> Hx2]. rewrite Z.min_l by (unfold DIRENT; lia). done.
Qed.

(** A loop over the entries that stops at the first one [p] accepts. *)
Lemma runs_dir_loop {A} (p : list Z → bool) (none : Z → A) (body : inode → Z → list Z → SM (Z + A)) msg Q y0 :
  tx y0 R C T [] →
  (∀ y1, tx y1 R C T [] → dfind p C e = None → Q (none (i_size e)) y1) →
  (∀ y1 k, tx y1 R C T [] → dfind p C e = Some k →
    runs (body e (k * DIRENT) (dent C e k)) y1 (λ r y2, ∃ a, r = inr a ∧ Q a y2)) →
  (∀ off de, p de = false → body e off de = mret (inl (off + DIRENT))) →
  runs (loop (Z.to_nat (i_size e / DIRENT) + 2) (λ off,
    e ← get_inode dp;
    if negb (off <? i_size e) then mret (inr (none off)) else
    '(r, de) ← readi dp DVar off DIRENT;
    if negb (r =? DIRENT) then panic msg else
    body e off de) 0) y0 Q.
Proof using All.
  intros Hx0 Hnone Hhit Hmiss. destruct (ndent_size C e Hd) as [Hn Es].
  apply (runs_loop _ (λ off y1, ∃ k, off = k * DIRENT ∧ 0 ≤ k ≤ ndent e ∧ (∀ j, 0 ≤ j < k → p (dent C e j) = false) ∧ tx y1 R C T [])
    (λ off _, Z.to_nat (ndent e - off / DIRENT))).
  3: { fold (ndent e). rewrite Z.div_0_l by done. lia. }
  2: { exists 0. split; [done|]. split; [lia|]. split; [lia|exact Hx0]. }
  intros off y1 (k & -> & Hk & Hno & Hx1). kstep. eapply runs_get_inode; [exact Hx1|]. rewrite He.
  destruct (Z.ltb_spec (k * DIRENT) (i_size e)) as [Hlt|Hge]; cbn [negb]; kif.
  2: { kstep. assert (k = ndent e) as -> by (unfold DIRENT in *; lia). rewrite <- Es. apply Hnone; [done|]. apply find_seqZ_spec; [done|].
    intros j Hj. apply Hno. lia. }
  assert (0 ≤ k < ndent e) as Hk' by (unfold DIRENT in *; lia).
  kstep. eapply runs_mono; [by apply runs_read_dent|]. intros r y2 [-> Hx2]. cbv beta iota. rewrite Z.eqb_refl. cbn [negb]. kif.
  destruct (p (dent C e k)) eqn:Ep.
  - eapply runs_mono; [apply (Hhit y2 k Hx2); apply find_seqZ_spec; done|]. intros r y3 (a & -> & HQ). exact HQ.
  - rewrite Hmiss by done. kstep. split; [|unfold DIRENT; dlia]. exists (k + 1). split; [unfold DIRENT; lia|]. split; [lia|]. split; [|done].
    intros j Hj. destruct (decide (j = k)) as [->|]; [done|]. apply Hno. lia.
Qed.

Context (Hil : locked (sy_iclock R) = 0) (Hic : icache_ok (sy_inode R)).

Lemma runs_dirlookup name :
  (∀ k, dfind (dmatch name) C e = Some k → ∃ jp, 0 ≤ jp < NINODE ∧
    (is_ino dev (de_inum (dent C e k)) (aget (sy_inode R) jp) ∨ i_ref (aget (sy_inode R) jp) = 0)) →
  runs (dirlookup dp name) y (λ r y', match dfind (dmatch name) C e with
    | None => r = None ∧ tx y' R C T []
    | Some k => ∃ ip l, r = Some (ip, k * DIRENT) ∧ iget_at dev (de_inum (dent C e k)) (sy_inode R) ip ∧ locked l = 0 ∧
        tx y' (set_ic l (aset (sy_inode R) ip (igot dev (de_inum (dent C e k)) (aget (sy_inode R) ip))) R) C T []
    end).
Proof using All.
  intros Hroom. unfold dirlookup. kstep. eapply runs_get_inode; [exact Hx|]. rewrite He, (do_type _ _ Hd). change (negb (T_DIR =? T_DIR)) with false. kif.
  apply (runs_dir_loop (dmatch name) (λ _, None) (λ e off de, if de_inum de =? 0 then mret (inl (off + DIRENT)) else
    if namecmp name (de_name de) =? 0 then ip ← iget (i_dev e) (de_inum de); mret (inr (Some (ip, off))) else mret (inl (off + DIRENT)))).
  - exact Hx.
  - intros y1 Hx1 ->. done.
  - intros y1 k Hx1 Hk. rewrite Hk. pose proof Hk as (_ & Hm & _)%find_seqZ_spec; [|apply (ndent_size C e Hd)].
    apply andb_true_iff in Hm as [H1 H2]. apply negb_true_iff in H1. rewrite H1, H2. kstep.
    rewrite (io_dev _ _ _ _ _ (do_ino _ _ Hd)). eapply runs_mono; [apply (tx_iget _ _ _ _ _ _ _ _ _ _ _ _ _ Hx1 Hil Hic (Hroom k Hk))|].
    intros ip y2 (Hat & l & Hl & Hx2). kstep. eexists. split; [done|]. by exists ip, l.
  - intros off de Hp. apply andb_false_iff in Hp as [Hp|Hp]; [apply negb_false_iff in Hp|]; rewrite Hp; [done|]. by case_match.
Qed.

Lemma runs_dirlink name inum :
  dfind (dmatch name) C e = None → 0 ≤ i_inum e < sb_ninodes sb → dslot C e * DIRENT + DIRENT ≤ MAXFILE * BSIZE →
  free_blocks dev sb C 2 → Z.of_nat (length T) + 5 < size - 1 →
  runs (dirlink dp name inum) y (λ r y', r = 0 ∧ ∃ C' e' T', file_written dev sb nmeta C e (dslot C e * DIRENT) (new_dent name inum) C' e' ∧
    tx y' (with_inode R dp e') C' T' [] ∧ Z.of_nat (length T') ≤ Z.of_nat (length T) + 5).
Proof using All.
  intros Hno Hin Hmax Hfree Hroom. pose proof (dslot_range C e Hd) as Hs. destruct (ndent_size C e Hd) as [Hn Es].
  assert (alen (new_dent name inum) = DIRENT) as Hlen by apply length_de_make, length_lstrncpy.
  unfold dirlink. kstep. eapply runs_mono; [apply runs_dirlookup; by rewrite Hno|]. rewrite Hno. intros r y1 [-> Hx1]. cbv beta iota.
  kstep. eapply runs_get_inode; [exact Hx1|]. rewrite He. kstep.
  eapply (runs_mono _ _ (λ off y2, off = dslot C e * DIRENT ∧ tx y2 R C T [])).
  { apply (runs_dir_loop dfree (λ off, off)
      (λ e off de, if de_inum de =? 0 then mret (inr off) else mret (inl (off + DIRENT)))).
    - exact Hx1.
    - intros y2 Hx2 E. split; [|done]. unfold dslot. by rewrite E.
    - intros y2 k Hx2 E. pose proof E as (_ & Hf & _)%find_seqZ_spec; [|done]. unfold dfree in Hf. rewrite Hf. kstep. eexists. split; [done|].
      split; [|done]. unfold dslot. by rewrite E.
    - intros off de Hp. unfold dfree in Hp. by rewrite Hp. }
  intros off y2 [-> Hx2]. cbn beta zeta. fold (new_dent name inum). kstep.
  pose proof (runs_writei i pid k0 dev start size sb nmeta Hla y2 R C T dp e (dslot C e * DIRENT) (new_dent name inum) Hx2 Hsb Hdp He HC (do_ino _ _ Hd) Hin) as Hw.
  rewrite Hlen in Hw.
  assert (write_cost (dslot C e * DIRENT) DIRENT ≤ 5 ∧ 2 * (span (dslot C e * DIRENT) (dslot C e * DIRENT + DIRENT) - span (dslot C e * DIRENT) (dslot C e * DIRENT)) ≤ 2) as [Hc Hsp].
  { generalize (dslot C e). clear. intros k. unfold write_cost, span, DIRENT, BSIZE. destruct (Z.eqb_spec ((k * 16) mod 1024) 0); dlia. }
  eapply runs_mono; [apply Hw; clear Hw|].
  - unfold DIRENT in *. lia.
  - done.
  - done.
  - eapply free_blocks_less, Hfree. lia.
  - lia.
  - intros r y3 (-> & C' & e' & T' & Hf & Hx3 & _ & HT'). cbn beta. change (negb (DIRENT =? DIRENT)) with false. kif. kstep.
    split; [done|]. exists C', e', T'. split; [done|]. split; [done|]. lia.
Qed.

End Dir.

Section DirSpec.
Context y R C (T : list Z) (dp : Z) e.
Context (Hx : tx y R C T []) (Hsb : sy_sb R = sb) (Hdp : 0 ≤ dp < alen (sy_inode R)) (He : aget (sy_inode R) dp = e).
Context (HC : map_ok C) (Hd : dir_ok C e) (HT : Z.of_nat (length T) < size - 1).
Context (Hil : locked (sy_iclock R) = 0) (Hic : icache_ok (sy_inode R)).
Context (Hfree : ∃ jp, 0 ≤ jp < NINODE ∧ i_ref (aget (sy_inode R) jp) = 0).
Context (Hrefs : ∀ jp, 0 ≤ jp < NINODE → i_ref (aget (sy_inode R) jp) < 2 ^ 31 - 2).

Lemma dir_room inum : ∃ jp, 0 ≤ jp < NINODE ∧ (is_ino dev inum (aget (sy_inode R) jp) ∨ i_ref (aget (sy_inode R) jp) = 0).
Proof using Hfree. destruct Hfree as (jp & ? & ?). exists jp. auto. Qed.

(** [dirlookup] returns the inode the directory maps the name to, as an
    entry of the inode cache with a reference for the caller, and the offset of its directory
    entry; or 0 when no entry in use has the name.  It changes no block. *)
Theorem dirlookup_correct name :
  runs (dirlookup dp name) y (λ r y', match dlookup C e name with
    | None => r = None ∧ tx y' R C T []
    | Some inum => ∃ ip off R', r = Some (ip, off) ∧ 0 ≤ ip < NINODE ∧ is_ino dev inum (aget (sy_inode R') ip) ∧
        icache_ok (sy_inode R') ∧ dmatch name (fbytes C e off DIRENT) = true ∧ de_inum (fbytes C e off DIRENT) = inum ∧ tx y' R' C T []
    end).
Proof using All.
  eapply runs_mono; [apply (runs_dirlookup y R C T dp e); try done; intros; apply dir_room|]. intros r y'. unfold dlookup.
  destruct (dfind (dmatch name) C e) as [k|] eqn:Ek; cbn [fmap option_fmap option_map]; [|done].
  intros (ip & l & -> & Hat & Hl & Hx'). set (R1 := set_ic l _ R) in Hx'. exists ip, (k * DIRENT), R1. split; [done|]. split; [apply Hat|]. pose proof (ic_len _ Hic) as Hlen.
  apply find_seqZ_spec in Ek as (_ & Hm & _); [|apply (ndent_size C e Hd)].
  split; [unfold R1; cbn [sy_inode set_ic]; rewrite aget_aset_eq by (rewrite Hlen; apply Hat); apply igot_is|].
  split; [apply iget_at_ok; [done|apply Hrefs, Hat|done]|]. split; [exact Hm|]. split; [done|exact Hx'].
Qed.

(** C8: [dirlink] of a name that the directory does not have extends the map the
    directory stands for by exactly that name; every other name keeps its
    inode, whether the new entry reuses a free one or grows the directory. *)
Theorem dirlink_correct name inum :
  dlookup C e name = None → u16 inum ≠ 0 → 0 ≤ i_inum e < sb_ninodes sb → i_size e + DIRENT ≤ MAXFILE * BSIZE →
  free_blocks dev sb C 2 → Z.of_nat (length T) + 5 < size - 1 →
  runs (dirlink dp name inum) y (λ r y', r = 0 ∧ ∃ C' e' T', tx y' (with_inode R dp e') C' T' [] ∧ dir_ok C' e' ∧
    ∀ name', dlookup C' e' name' = if namecmp name' name =? 0 then Some (u16 inum) else dlookup C e name').
Proof using All.
  intros Hno%fmap_None Hi Hin Hmax Hfb Hroom. destruct (ndent_size C e Hd) as [Hn Es]. pose proof (dslot_range C e Hd).
  eapply runs_mono; [apply (runs_dirlink y R C T dp e); try done; unfold DIRENT in *; lia|].
  intros r y' (-> & C' & e' & T' & Hw & Hx' & _). split; [done|]. exists C', e', T'. split; [done|].
  split; [by eapply linked_ok|]. intros name'. by eapply linked_lookup.
Qed.

(** After [dirlink], [dirlookup] of the same name returns the inode. *)
Theorem dirlink_dirlookup name inum :
  dlookup C e name = None → u16 inum ≠ 0 → 0 ≤ i_inum e < sb_ninodes sb → i_size e + DIRENT ≤ MAXFILE * BSIZE →
  free_blocks dev sb C 2 → Z.of_nat (length T) + 5 < size - 1 → 1 ≤ i_ref e →
  runs (dirlink dp name inum;; dirlookup dp name) y (λ r y', ∃ ip off, r = Some (ip, off) ∧ is_ino dev (u16 inum) (aget (sy_inode y'.2) ip)).
Proof using All.
  intros Hno%fmap_None Hi Hin Hmax Hfb Hroom Href. destruct (ndent_size C e Hd) as [Hn Es]. pose proof (dslot_range C e Hd).
  kstep. eapply runs_mono; [apply (runs_dirlink y R C T dp e); try done; unfold DIRENT in *; lia|].
  intros r y1 (-> & C' & e' & T' & Hw & Hx1 & HT1). cbn beta.
  pose proof (linked_lookup C e Hd name inum C' e' Hw name Hi Hno) as Hlk. unfold namecmp in Hlk. rewrite lstrncmp_refl in Hlk. cbn in Hlk.
  assert (i_ref e' = i_ref e ∧ i_dev e' = i_dev e ∧ i_inum e' = i_inum e) as (Er & Edv & Ein) by by rewrite (fw_inode _ _ _ _ _ _ _ _ _ Hw).
  pose proof (ic_len _ Hic) as Hlen. pose proof (fw_map _ _ _ _ _ _ _ _ _ Hw) as HC'. pose proof (linked_ok C e Hd name inum C' e' Hw) as Hd'.
  assert (icache_ok (sy_inode (with_inode R dp e'))) as Hic' by (apply icache_ok_aset; rewrite ?He; done || lia).
  eapply runs_mono; [apply (runs_dirlookup y1 (with_inode R dp e') C' T' dp e' Hx1 Hsb); try done|].
  - by rewrite with_inode_len.
  - by apply with_inode_get.
  - lia.
  - intros k _. destruct Hfree as (jp & Hj & H0). exists jp. split; [done|]. right. destruct (decide (jp = dp)) as [->|Hne].
    + rewrite with_inode_get by done. rewrite He in H0. lia.
    + cbn [sy_inode with_inode set_ic]. by rewrite aget_aset_ne by lia.
  - intros r y2. unfold dlookup in Hlk. destruct (dfind (dmatch name) C' e') as [k|]; [|done]. injection Hlk as Hlk. rewrite Hlk.
    intros (ip & l & -> & Hat & _ & Hx2). eexists ip, _. split; [done|]. rewrite (tx_view sy_inode ltac:(done) Hx2).
    cbn [sy_inode set_ic]. rewrite aget_aset_eq by (rewrite with_inode_len, Hlen; apply Hat). apply igot_is.
Qed.

(** [dirlink] of a name that the directory has returns -1 and changes
    neither a block nor the inode table's references. *)
Theorem dirlink_exists name inum :
  dlookup C e name ≠ None →
  runs (dirlink dp name inum) y (λ r y', r = -1 ∧ ∃ R', tx y' R' C T [] ∧ icache_ok (sy_inode R') ∧
    ∀ jp, 0 ≤ jp < NINODE → i_ref (aget (sy_inode R') jp) = i_ref (aget (sy_inode R) jp)).
Proof using All.
  intros Hin. unfold dirlink. kstep. eapply runs_mono; [apply (runs_dirlookup y R C T dp e); try done; intros; apply dir_room|].
  unfold dlookup in Hin. destruct (dfind (dmatch name) C e) as [k|] eqn:Ek; [|done].
  intros r y1 (ip & l & -> & Hat & Hl & Hx1). cbv beta iota. kstep. set (n := de_inum (dent C e k)) in *.
  pose proof (ic_len _ Hic) as Hlen. assert (0 ≤ ip < alen (sy_inode R)) as Hip by (rewrite Hlen; apply Hat).
  set (R1 := set_ic l _ R) in *. assert (aget (sy_inode R1) ip = igot dev n (aget (sy_inode R) ip)) as Eg by by apply aget_aset_eq.
  assert (i_ref (aget (sy_inode R1) ip) = i_ref (aget (sy_inode R) ip) + 1) as Er.
  { rewrite Eg. unfold igot. case_decide as Hi; [done|]. destruct Hat as [_ [|[_ H0]]]; [done|]. rewrite H0. done. }
  pose proof (ic_refs _ Hic ip ltac:(lia)) as Hr0.
  eapply runs_mono; [apply (tx_iput_plain _ _ _ _ _ _ _ _ _ _ _ ip Hx1 Hl); rewrite ?Er; [lia|]|].
  { rewrite Eg. unfold igot. case_decide as Hi; [|by rewrite andb_false_r]. destruct Hi as (Hu & _). unfold in_use in Hu.
    by rewrite (proj2 (Z.eqb_neq _ 1)) by lia. }
  intros [] y2 (l2 & Hl2 & Hx2). kstep. split; [done|]. eexists. split; [exact Hx2|]. cbn [sy_inode set_ic].
  rewrite Er, Eg. unfold R1. cbn [sy_inode set_ic]. rewrite aset_aset. split.
  - destruct Hat as [Hr Hat]. unfold igot. case_decide as Hi.
    + apply icache_ok_aset; done || cbn; lia.
    + apply icache_ok_free; [done|done|]. destruct Hat as [|[_ H0]]; [done|]. cbn. lia.
  - intros jp Hj. destruct (decide (jp = ip)) as [->|Hne]; [rewrite aget_aset_eq by done; cbn; lia|]. by rewrite aget_aset_ne by lia.
Qed.
End DirSpec.
End FsDir.
