(* ===== verification/FsExamples.v ===== *)
(** * Examples for the file system

    A machine just booted on a small file system, laid out as mkfs does, with
    an operation begun: an empty file and the root directory in the inode cache.
    The theorems about kernel/fs.c apply to this state. *)

From S2P Require Import Prelude Memory Riscv Spinlock Core CString Kalloc Vm Sleeplock BufCache Bio BioProof BioSpec Log Crash LogProof LogSafety Sys Fs File FsBlock FsMap FsFile FsSpec Icache FsDir.

(** mkfs: FSSIZE 2000, NINODES 200, 30 log blocks. *)
Definition ex_sb : superblock := Superblock FSMAGIC 2000 1954 200 30 2 32 45.
Definition ex_bitmap (used : list Z) : list Z := foldl bit_set zero_block used.

(** The blocks [used] are marked; those of [init] have the given contents. *)
Definition ex_fs (used : list Z) (init : list (Z * list Z)) : contents :=
  foldl (λ C '(b, d), kset C (1, b) d) (kset ex_disk (1, 45) (ex_bitmap used)) init.

Definition ex_logs1 : list log_st := [log0; set_outstanding 1 ex_log].
Definition ex_con : con_st :=
  ConSt (initlock "cons") (replicate 128 0) 0 0 0 [] [] 0 0 [] (initlock "pr") 1 0.

Definition ex_state_of (s : bio_st) (ic : list inode) : sys bio_st :=
  Sys (VmSt (KallocSt (initlock "kmem") 0 (λ _, 0)) 0 0) s ex_logs1 ex_sb (initlock "icache") ic
    (initlock "ftable") (replicate 100 file0) (λ _, Pipe (initlock "pipe") [] 0 0 0 0) (initlock "nextpid") 1 None true
    (initlock "time") 0 ex_con (HwSt 0 0 0 0 0 [] []).

Definition ex_state (D : contents) (ic : list inode) : sys bio_st := ex_state_of (ex_boot D).2 ic.

#[local] Opaque ex_boot.

Lemma ex_state_of_tx D x ic : bio_abs x 0 0 (ex_cache D) → hdr_n (D (hdr_blk 1 2)) = 0 →
  tx 0 0 x.1 1 2 LOGSIZE (x.1, ex_state_of x.2 ic) (ex_state_of x.2 ic) D [] [].
Proof.
  intros HD Hh. exists [], ex_logs1, (ex_cache D). split.
  - exact (boot_sim _ _ _ HD).
  - split; [done|exact ex_geom|done|done|done|done|by apply logged_nil|done| |exact Hh]. intros b Hb. by apply not_elem_of_nil in Hb.
  - reflexivity.
  - by vm_compute.
  - reflexivity.
  - intros h κ. split; [done|]. intros Hb. by apply not_elem_of_nil in Hb.
  - apply NoDup_nil_2.
  - intros κ Hb. by apply not_elem_of_nil in Hb.
  - reflexivity.
  - reflexivity.
  - reflexivity.
  - intros b Hb. by apply not_elem_of_nil in Hb.
  - reflexivity.
Qed.

Lemma ex_state_tx D ic : (∀ κ, length (D κ) = Z.to_nat BSIZE) → hdr_n (D (hdr_blk 1 2)) = 0 →
  tx 0 0 (ex_boot D).1 1 2 LOGSIZE ((ex_boot D).1, ex_state D ic) (ex_state D ic) D [] [].
Proof. intros HD Hh. exact (ex_state_of_tx D (ex_boot D) ic (ex_boot_ok D HD) Hh). Qed.

(** The free map of the example. *)
Definition used_ok (used : list Z) : bool :=
  let bm := ex_bitmap used in
  forallb (λ b, eqb (bit_clear bm b) (negb (existsb (Z.eqb b) used))) (seqZ 0 2000).

Lemma ex_layout : layout 1 2 LOGSIZE ex_sb 46.
Proof. by split. Qed.

Section FsState.
Context (used : list Z) (init : list (Z * list Z)).
Context (Hu : used_ok used = true) (Hm : seqZ 0 46 ⊆ used).
Context (Hi : Forall (λ '(b, d), b ≠ 45 ∧ b ≠ 2 ∧ length d = Z.to_nat BSIZE) init).
Let D := ex_fs used init.

Lemma length_ex_bitmap : length (ex_bitmap used) = Z.to_nat BSIZE.
Proof using.
  unfold ex_bitmap. assert (length zero_block = Z.to_nat BSIZE) as H by apply length_replicate. revert H. generalize zero_block.
  clear. induction used as [|b u IH]; [done|]. intros d Hd. cbn [foldl]. apply IH. by rewrite length_bit_set.
Qed.

Lemma ex_fs_fold (P : list Z → Prop) κ C0 : P (C0 κ) → (∀ b d, (b, d) ∈ init → κ = (1, b) → P d) →
  P (foldl (λ C '(b, d), kset C (1, b) d) C0 init κ).
Proof using.
  clear. revert C0. induction init as [|[b d] l IH]; [done|]. intros C0 H0 H1. cbn [foldl]. apply IH.
  - unfold kset. case_decide as E; [|done]. by eapply H1; [left|].
  - intros b' d' Hin. apply H1. by right.
Qed.

Lemma ex_fs_len κ : length (D κ) = Z.to_nat BSIZE.
Proof using Hi.
  apply (ex_fs_fold (λ d, length d = Z.to_nat BSIZE)).
  - unfold kset. case_decide; [apply length_ex_bitmap|apply length_replicate].
  - intros b d Hin _. rewrite Forall_forall in Hi. by destruct (Hi _ Hin) as (_ & _ & ?).
Qed.

Lemma ex_fs_at b : b = 45 ∨ b = 2 → D (1, b) = kset ex_disk (1, 45) (ex_bitmap used) (1, b).
Proof using Hi.
  intros Hb. apply (ex_fs_fold (λ d, d = _)); [done|]. intros b' d Hin [= ->]. rewrite Forall_forall in Hi.
  destruct (Hi _ Hin) as (? & ? & _). naive_solver.
Qed.

Lemma ex_fs_marked b : 0 ≤ b < 2000 → marked 1 ex_sb D b = bool_decide (b ∈ used).
Proof using Hu Hi.
  intros Hb. unfold marked. assert (BBLOCK b ex_sb = 45) as ->.
  { unfold BBLOCK. rewrite Z.div_small by (unfold BPB, BSIZE; lia). done. }
  rewrite ex_fs_at by by left. rewrite kset_eq, Z.mod_small by (unfold BPB, BSIZE; lia).
  unfold used_ok in Hu. rewrite forallb_forall in Hu. specialize (Hu b).
  rewrite <- list_elem_of_In, elem_of_seqZ in Hu. apply eqb_prop in Hu; [|lia]. rewrite Hu, negb_involutive.
  apply eq_bool_prop_intro. rewrite bool_decide_spec, Is_true_true, existsb_exists. setoid_rewrite <- list_elem_of_In.
  split; [intros (b' & Hin & ->%Z.eqb_eq); done|]. intros Hin. exists b. by rewrite Z.eqb_refl.
Qed.

Lemma ex_fs_map : map_ok 1 ex_sb 46 D.
Proof using Hu Hi Hm.
  split; [|apply ex_fs_len]. intros b Hb. rewrite ex_fs_marked by lia. apply bool_decide_eq_true_2, Hm, elem_of_seqZ. lia.
Qed.

Lemma ex_fs_free lo n : 0 ≤ lo → lo + Z.of_nat n ≤ 2000 → Forall (λ b, b ∉ used) (seqZ lo (Z.of_nat n)) → free_blocks 1 ex_sb D n.
Proof using Hu Hi.
  intros Hlo Hn Hf. exists (seqZ lo (Z.of_nat n)). split; [apply NoDup_seqZ|]. split; [rewrite length_seqZ; lia|].
  intros b Hb. rewrite Forall_forall in Hf. pose proof (Hf b Hb). apply elem_of_seqZ in Hb. split; [cbn; lia|].
  rewrite ex_fs_marked by lia. by apply bool_decide_eq_false_2.
Qed.

Lemma ex_fs_tx ic : tx 0 0 (ex_boot D).1 1 2 LOGSIZE ((ex_boot D).1, ex_state D ic) (ex_state D ic) D [] [].
Proof using Hi.
  apply ex_state_tx; [apply ex_fs_len|]. change (hdr_blk 1 2) with ((1, 2) : block). rewrite ex_fs_at by by right. done.
Qed.
End FsState.

(** ** An empty file in a fresh file system *)

Definition ex_used : list Z := seqZ 0 46.
Definition ex_D : contents := ex_fs ex_used [].
Definition ex_file : inode := set_ikey 1 2 (set_iref 1 (set_ivalid 1 (set_itype T_FILE (set_inlink 1 inode0)))).
Definition ex_icache : list inode := ex_file :: replicate 49 inode0.
Definition ex_y : kern * sys bio_st := ((ex_boot ex_D).1, ex_state ex_D ex_icache).

Lemma ex_used_ok : used_ok ex_used = true.
Proof. vm_compute. reflexivity. Qed.
Lemma ex_D_tx : tx 0 0 (ex_boot ex_D).1 1 2 LOGSIZE ex_y (ex_state ex_D ex_icache) ex_D [] [].
Proof. by apply ex_fs_tx. Qed.
Lemma ex_D_map : map_ok 1 ex_sb 46 ex_D.
Proof. by apply ex_fs_map; [exact ex_used_ok| |]. Qed.
Lemma ex_D_free n : (n ≤ 100)%nat → free_blocks 1 ex_sb ex_D n.
Proof.
  intros Hn. apply (ex_fs_free _ _ ex_used_ok ltac:(done) 46); [done|lia|]. rewrite Forall_forall. intros b Hb.
  unfold ex_used. rewrite elem_of_seqZ in Hb |- *. lia.
Qed.

Lemma ex_file_ok : ino_ok 1 ex_sb 46 ex_D ex_file.
Proof.
  assert (Hb : ∀ bn, 0 ≤ bn → blk 1 ex_D ex_file bn = 0).
  { intros bn Hbn. unfold blk. destruct (Z.ltb_spec bn NDIRECT) as [Hd|]; [|done].
    unfold aget. change (i_addrs ex_file) with (replicate 13 0). apply lookup_total_replicate_2. unfold NDIRECT in Hd. lia. }
  split; try done; [split|].
  - by left.
  - intros bn Hbn. left. apply Hb. lia.
  - intros bn bn' H1 H2 _ H0. by rewrite Hb in H0 by lia.
  - intros bn H1 H0. by rewrite Hb in H0 by lia.
  - intros bn H1 H2. cbn in H2. unfold BSIZE in H2. lia.
Qed.

(** Three blocks' worth of bytes. *)
Definition ex_bytes : list Z := replicate 3000 5.

Lemma ex_ip : 0 ≤ 0 < alen (sy_inode (ex_state ex_D ex_icache)).
Proof. done. Qed.
Lemma ex_inum : 0 ≤ i_inum ex_file < sb_ninodes ex_sb.
Proof. done. Qed.
Lemma ex_off : 0 ≤ 0 ≤ i_size ex_file.
Proof. done. Qed.
Lemma ex_fits : 0 + alen ex_bytes ≤ MAXFILE * BSIZE.
Proof. done. Qed.
Lemma ex_pos : 0 < alen ex_bytes.
Proof. done. Qed.
Lemma ex_room : free_blocks 1 ex_sb ex_D (Z.to_nat (2 * (span 0 (0 + alen ex_bytes) - span 0 0))).
Proof. apply ex_D_free. vm_compute. lia. Qed.

Lemma balloc_correct_witness : runs (balloc 1) ex_y (λ b y', b = 46).
Proof.
  eapply runs_mono; [apply (balloc_correct 0 0 _ 1 2 LOGSIZE ex_sb 46 ex_layout _ _ _ _ ex_D_tx eq_refl (mo_meta _ _ _ _ ex_D_map))|].
  - destruct (ex_D_free 1 ltac:(lia)) as ([|b l] & _ & Hl & Hb); [done|]. exists b. apply Hb. by left.
  - done.
  - intros b y' (Hb & _ & Hf & _). destruct (decide (b = 46)) as [|Hne]; [done|]. specialize (Hf 46 ltac:(lia)).
    unfold ex_D in Hf. rewrite ex_fs_marked in Hf by (exact ex_used_ok || done). by vm_compute in Hf.
Defined.

Lemma balloc_bfree_witness : runs (b ← balloc 1; bfree 1 b) ex_y (λ _ y', ∃ b C' R' T', 
  tx 0 0 (ex_boot ex_D).1 1 2 LOGSIZE y' R' C' T' [] ∧ ∀ κ, κ ≠ (1, b) → C' κ = ex_D κ).
Proof.
  eapply runs_mono; [apply (balloc_bfree 0 0 _ 1 2 LOGSIZE ex_sb 46 ex_layout _ _ _ _ ex_D_tx eq_refl (mo_meta _ _ _ _ ex_D_map))|].
  - destruct (ex_D_free 1 ltac:(lia)) as ([|b l] & _ & Hl & Hb); [done|]. exists b. apply Hb. by left.
  - done.
  - intros [] y' (b & C' & T' & Hx & _ & Hk). by eexists b, C', _, T'.
Defined.

Lemma writei_correct_witness : runs (writei 0 (SVar ex_bytes) 0 (alen ex_bytes)) ex_y (λ r y', r = 3000 ∧
  ∃ C' e', fdata 1 C' e' = ex_bytes).
Proof.
  eapply runs_mono; [apply (writei_correct 0 0 _ 1 2 LOGSIZE ex_sb 46 ex_layout _ _ _ _ 0 ex_file 0 ex_bytes ex_D_tx eq_refl ex_ip eq_refl
    ex_D_map ex_file_ok ex_inum ex_off ex_fits ex_pos ex_room); done|].
  intros r y' (-> & C' & e' & T' & _ & _ & Hd & _). split; [done|]. exists C', e'. rewrite Hd. done.
Defined.

Lemma writei_readi_witness : runs (r ← writei 0 (SVar ex_bytes) 0 (alen ex_bytes); readi 0 DVar 0 r) ex_y
  (λ '(r, got) _, r = 3000 ∧ got = ex_bytes).
Proof.
  eapply runs_mono; [apply (writei_readi 0 0 _ 1 2 LOGSIZE ex_sb 46 ex_layout _ _ _ _ 0 ex_file 0 ex_bytes ex_D_tx eq_refl ex_ip eq_refl
    ex_D_map ex_file_ok ex_inum ex_off ex_fits ex_pos ex_room); done|]. by intros [r got] y' H.
Defined.


(** ** A full disk *)

Definition ex_full : contents := ex_fs (seqZ 0 2000) [].

Lemma balloc_out_of_blocks_witness :
  halts (balloc 1) ((ex_boot ex_full).1, ex_state ex_full []) (Panic "balloc: out of blocks") (λ _, True).
Proof.
  assert (used_ok (seqZ 0 2000) = true) as Hu by (vm_compute; reflexivity).
  eapply halts_mono; [apply (balloc_out_of_blocks 0 0 (ex_boot ex_full).1 1 2 LOGSIZE ex_sb 46 ex_layout _ (ex_state ex_full []) ex_full [])|done].
  - by apply ex_fs_tx.
  - done.
  - intros b Hb. unfold ex_full. rewrite (ex_fs_marked _ _ Hu) by done. by apply bool_decide_eq_true_2, elem_of_seqZ.
  - done.
Defined.

(** ** The inode cache *)

(** [used n]: the first [n] entries are in use, by inodes 1 to [n]. *)
Definition ex_ic (n : nat) : list inode :=
  ((λ k, set_ikey 1 (k + 1) (set_iref (if k <? Z.of_nat n then 2 else 0) inode0)) <$> seqZ 0 NINODE).

Lemma ex_ic_get n ip : 0 ≤ ip < NINODE → aget (ex_ic n) ip = set_ikey 1 (ip + 1) (set_iref (if ip <? Z.of_nat n then 2 else 0) inode0).
Proof.
  intros Hip. apply aget_lookup. unfold ex_ic. rewrite list_lookup_fmap, lookup_seqZ_lt by lia. cbn. by rewrite Z2Nat.id by lia.
Qed.

Lemma ex_ic_ok n : icache_ok (ex_ic n).
Proof.
  split; [unfold alen, ex_ic; by rewrite length_fmap, length_seqZ| |].
  - intros ip Hip. rewrite ex_ic_get by done. cbn. case_match; lia.
  - intros ip jp d m Hip Hjp. rewrite !ex_ic_get by done. intros (_ & _ & E1) (_ & _ & E2). cbn in E1, E2. lia.
Qed.

(** The machine booted on an empty disk, no operation begun. *)
Definition ex_idle (ic : list inode) : sys bio_st := ex_state ex_disk ic.

Lemma demo_kern_ok : kern_ok demo_kern.
Proof. apply demo_running. Qed.


Lemma iget_no_inodes_witness :
  halts (iget 1 60) (demo_kern, ex_idle (ex_ic 50)) (Panic "iget: no inodes") (λ y', sy_inode y'.2 = ex_ic 50).
Proof.
  apply (iget_no_inodes 1 60 demo_kern (ex_idle (ex_ic 50)) eq_refl). intros jp Hj.
  change (sy_inode (ex_idle (ex_ic 50))) with (ex_ic 50). rewrite ex_ic_get by done. unfold is_ino, in_use.
  change NINODE with 50 in Hj. rewrite (proj2 (Z.ltb_lt jp (Z.of_nat 50))) by lia.
  split; [done|]. intros (_ & _ & E). cbn in E. lia.
Defined.

Lemma idup_iput_witness : runs (r ← idup 2; iput r) (demo_kern, ex_idle (ex_ic 5)) (λ _ y', sy_inode y'.2 = ex_ic 5).
Proof.
  eapply runs_mono; [apply (idup_iput 2 demo_kern (ex_idle (ex_ic 5)) demo_kern_ok eq_refl); done|]. by intros [] y' [_ H].
Defined.

(** ** The root directory *)

Definition dot : list Z := [46].
Definition dotdot : list Z := [46; 46].
Definition readme : list Z := [82; 69; 65; 68; 77; 69].
Definition ex_dirblock : list Z := splice 0 (new_dent dot 1 ++ new_dent dotdot 1) zero_block.
Definition ex_root_fs : contents := ex_fs (seqZ 0 47) [(46, ex_dirblock)].
Definition ex_rootdir : inode :=
  set_isize 32 (set_iaddrs (46 :: replicate 12 0) (set_ikey 1 1 (set_iref 1 (set_ivalid 1 (set_itype T_DIR (set_inlink 1 inode0)))))).
Definition ex_root_ic : list inode := ex_rootdir :: replicate 49 inode0.
Definition ex_ry : kern * sys bio_st := ((ex_boot ex_root_fs).1, ex_state ex_root_fs ex_root_ic).

Lemma ex_root_used : used_ok (seqZ 0 47) = true.
Proof. vm_compute. reflexivity. Qed.
Lemma ex_root_init : Forall (λ '(b, d), b ≠ 45 ∧ b ≠ 2 ∧ length d = Z.to_nat BSIZE) [(46, ex_dirblock)].
Proof. repeat constructor; done. Qed.
Lemma ex_root_tx : tx 0 0 (ex_boot ex_root_fs).1 1 2 LOGSIZE ex_ry (ex_state ex_root_fs ex_root_ic) ex_root_fs [] [].
Proof. apply ex_fs_tx, ex_root_init. Qed.
Lemma ex_root_map : map_ok 1 ex_sb 46 ex_root_fs.
Proof. apply ex_fs_map; [exact ex_root_used| |exact ex_root_init]. intros b. rewrite !elem_of_seqZ. lia. Qed.
Lemma ex_root_free : free_blocks 1 ex_sb ex_root_fs 2.
Proof.
  apply (ex_fs_free _ _ ex_root_used ex_root_init 47); [done|done|]. rewrite Forall_forall. intros b. rewrite !elem_of_seqZ. lia.
Qed.

Lemma ex_root_blk bn : 0 ≤ bn → blk 1 ex_root_fs ex_rootdir bn = if bn =? 0 then 46 else 0.
Proof.
  intros Hbn. unfold blk. destruct (Z.ltb_spec bn NDIRECT) as [Hd|Hd].
  - destruct (Z.eqb_spec bn 0) as [->|H0]; [done|]. unfold aget. change (i_addrs ex_rootdir) with (46 :: replicate 12 0).
    destruct (Z.to_nat bn) as [|n] eqn:En; [lia|]. apply (lookup_total_replicate_2 12). unfold NDIRECT in Hd. lia.
  - rewrite (proj2 (Z.eqb_neq bn 0)) by (unfold NDIRECT in Hd; lia). done.
Qed.

Lemma ex_root_dir : dir_ok 1 ex_sb 46 ex_root_fs ex_rootdir.
Proof.
  assert (good 1 ex_sb 46 ex_root_fs 46) as Hg.
  { split; [done|]. unfold ex_root_fs. rewrite (ex_fs_marked _ _ ex_root_used ex_root_init) by lia. done. }
  split; [done|done|]. split; try done; [split|].
  - by left.
  - intros bn Hbn. rewrite ex_root_blk by lia. destruct (bn =? 0); [by right|by left].
  - intros bn bn' H1 H2. rewrite !ex_root_blk by lia. repeat case_match; zify_bool; lia.
  - intros bn H1. rewrite ex_root_blk by lia. done.
  - intros bn H1 H2. change (i_size ex_rootdir) with 32 in H2. unfold BSIZE in H2. by assert (bn = 0) as -> by lia.
Qed.

Lemma ex_root_ip : 0 ≤ 0 < alen (sy_inode (ex_state ex_root_fs ex_root_ic)).
Proof. done. Qed.
Lemma ex_root_get jp : 0 < jp < NINODE → aget ex_root_ic jp = inode0.
Proof.
  intros Hj. unfold aget, ex_root_ic. destruct (Z.to_nat jp) as [|n] eqn:En; [lia|]. apply (lookup_total_replicate_2 49). unfold NINODE in Hj. lia.
Qed.
Lemma ex_root_ic_ok : icache_ok (sy_inode (ex_state ex_root_fs ex_root_ic)).
Proof.
  change (sy_inode _) with ex_root_ic.
  assert (H0 : ∀ jp d n, 0 ≤ jp < NINODE → is_ino d n (aget ex_root_ic jp) → jp = 0).
  { intros jp d n Hj [Hu _]. destruct (decide (jp = 0)) as [|]; [done|]. rewrite ex_root_get in Hu by lia. by vm_compute in Hu. }
  split; [done| |].
  - intros jp Hj. destruct (decide (jp = 0)) as [->|]; [done|]. by rewrite ex_root_get by lia.
  - intros jp kp d n Hj Hk Ha Hb. by rewrite (H0 jp d n), (H0 kp d n).
Qed.
Lemma ex_root_room : ∃ jp, 0 ≤ jp < NINODE ∧ i_ref (aget (sy_inode (ex_state ex_root_fs ex_root_ic)) jp) = 0.
Proof. by exists 1. Qed.
Lemma ex_root_refs jp : 0 ≤ jp < NINODE → i_ref (aget (sy_inode (ex_state ex_root_fs ex_root_ic)) jp) < 2 ^ 31 - 2.
Proof. intros Hj. change (sy_inode _) with ex_root_ic. destruct (decide (jp = 0)) as [->|]; [done|]. by rewrite ex_root_get by lia. Qed.
Lemma ex_root_dot : dlookup 1 ex_root_fs ex_rootdir dot = Some 1 ∧ dlookup 1 ex_root_fs ex_rootdir readme = None.
Proof. vm_compute. done. Qed.

Lemma dirlookup_correct_witness : runs (dirlookup 0 dot) ex_ry (λ r _, ∃ ip off, r = Some (ip, off)).
Proof.
  eapply runs_mono; [apply (dirlookup_correct 0 0 _ 1 2 LOGSIZE ex_sb 46 ex_layout _ _ _ _ 0 ex_rootdir ex_root_tx eq_refl ex_root_ip eq_refl
    ex_root_map ex_root_dir ltac:(done) eq_refl ex_root_ic_ok ex_root_room ex_root_refs dot)|].
  rewrite (proj1 ex_root_dot). intros r y' (ip & off & R' & -> & _). by exists ip, off.
Defined.

Lemma dirlink_correct_witness : runs (dirlink 0 readme 5) ex_ry (λ r y', r = 0 ∧ ∃ C' e', dlookup 1 C' e' readme = Some 5 ∧ dlookup 1 C' e' dot = Some 1).
Proof.
  eapply runs_mono; [apply (dirlink_correct 0 0 _ 1 2 LOGSIZE ex_sb 46 ex_layout _ _ _ _ 0 ex_rootdir ex_root_tx eq_refl ex_root_ip eq_refl
    ex_root_map ex_root_dir ltac:(done) eq_refl ex_root_ic_ok ex_root_room ex_root_refs readme 5 (proj2 ex_root_dot)); done || exact ex_root_free|].
  intros r y' (-> & C' & e' & T' & _ & _ & Hlk). split; [done|]. exists C', e'. rewrite !Hlk. split; [done|]. exact (proj1 ex_root_dot).
Defined.

Lemma dirlink_dirlookup_witness : runs (dirlink 0 readme 5;; dirlookup 0 readme) ex_ry (λ r y', ∃ ip off, r = Some (ip, off) ∧
  is_ino 1 5 (aget (sy_inode y'.2) ip)).
Proof.
  eapply runs_mono; [apply (dirlink_dirlookup 0 0 _ 1 2 LOGSIZE ex_sb 46 ex_layout _ _ _ _ 0 ex_rootdir ex_root_tx eq_refl ex_root_ip eq_refl
    ex_root_map ex_root_dir ltac:(done) eq_refl ex_root_ic_ok ex_root_room ex_root_refs readme 5 (proj2 ex_root_dot)); done || exact ex_root_free|].
  intros r y' H. exact H.
Defined.

Lemma dirlink_exists_witness : runs (dirlink 0 dot 5) ex_ry (λ r _, r = -1).
Proof.
  eapply runs_mono; [apply (dirlink_exists 0 0 _ 1 2 LOGSIZE ex_sb 46 ex_layout _ _ _ _ 0 ex_rootdir ex_root_tx eq_refl ex_root_ip eq_refl
    ex_root_map ex_root_dir ltac:(done) eq_refl ex_root_ic_ok ex_root_room ex_root_refs dot 5); by rewrite (proj1 ex_root_dot)|].
  by intros r y' [-> _].
Defined.
