(* ===== verification/ProcExamples.v ===== *)
(** * Concrete processes

    Processes of one page made with the operations of the kernel, and the theorems about
    [uvmfree], [fork], [wait] and [growproc] applied to them. *)

From S2P Require Import Prelude Memory Riscv Spinlock Core CString Kalloc Vm PageTable VmProof Uvm UvmOps UserCopy VmFree VmExamples Sleeplock BufCache Bio BioProof BioSpec Log LogSafety Sys Fs Console File Proc ProcMem ProcProof Fork Wait FsExamples.

(** ** Making processes *)

(** A new process whose only page is [pa]: its page table and its trapframe. *)
Definition make (pa : Z) : M (kern * kalloc_st) (Z * Z) :=
  tf ← kalloc;
  root ← new_pt KERNBASE tf;
  mappages root 0 PGSIZE pa user_rwx;;
  mret (root, tf).

Lemma ex_tramp : 0 ≤ KERNBASE ∧ KERNBASE + PGSIZE ≤ 2 ^ 56 ∧ KERNBASE mod PGSIZE = 0.
Proof. done. Qed.

Lemma runs_make k m l pa :
  kalloc_inv ex_end (k, m) l → (8 ≤ length l)%nat → page_ok ex_end pa → pa ∉ l →
  runs (make pa) (k, m) (λ a y, ∃ l', proc_mem ex_end KERNBASE y a.1 l' 1 a.2 ∧ (length l ≤ length l' + 8)%nat ∧
    (∀ b, b ∈ l' → b ∈ l) ∧ (∀ b, owned (km_ram y.2) a.1 (upto 1) b → b = pa ∨ b ∈ l) ∧ a.2 ∈ l ∧
    upte (km_ram y.2) a.1 0 = new_pte pa user_rwx 0 ∧
    ∀ z, (∀ b, b ∈ l → ¬ in_page b z) → km_ram y.2 z = km_ram m z).
Proof.
  intros Inv Hlen Hpa Hpl. unfold make. kcall (runs_kalloc_zero ex_end (k, m) l Inv).
  intros tf [k1 m1] [K1 [(_ & -> & _)|(Htf0 & l1 & -> & Htf & Htfl & Inv1 & M1)]]; [cbn in Hlen; lia|].
  pose proof (page_ok_pos ex_end tf (ki_end _ _ _ Inv1) Htf). cbn [length fst snd] in *. rewrite not_elem_of_cons in Hpl.
  assert (∀ p, page_ok ex_end p → p + PGSIZE ≤ 2 ^ 56) as Hhi by (intros p (_ & _ & ?); unfold PHYSTOP, KERNBASE, PGSIZE in *; lia).
  kcall (runs_new_pt ex_end KERNBASE ex_tramp (k1, m1) l1 tf Inv1); [lia|lia|by apply Hhi|].
  intros root [k2 m2] (l2 & [Hok _ Htr Ht Hrest] & K2 & Hl2 & Hpg & Hfr). cbn [fst snd] in *.
  kcall (runs_map1 ex_end (k2, m2) root l2 0 pa user_rwx (uo_pt _ _ _ _ _ Hok)); [done|done|by destruct Hpa; unfold ex_end, KERNBASE in *; lia|by apply Hhi|done| |lia|].
  { cbn [snd]. rewrite <- (upte_page 0) by done. by rewrite Hrest. }
  intros r [k3 m3] (-> & l3 & P3 & K3 & [_ T3 O3 F3] & L3 & U3). change (0 / PGSIZE) with 0 in U3. kstep. cbn [fst snd] in *.
  assert (upte (km_ram m3) root 0 = new_pte pa user_rwx 0) as U0 by (by rewrite U3, decide_True).
  assert (upage (km_ram m3) root 0 = pa) as Up.
  { unfold upage. rewrite U0, PTE2PA_new; [lia| |apply Hpa|done]. specialize (Hhi pa Hpa). destruct Hpa. unfold ex_end, KERNBASE, PGSIZE in *. lia. }
  assert (∀ b, is_table (km_ram m3) root b ∨ b ∈ l3 ↔ b ∈ l1) as Hown by (intros b; rewrite O3; apply Hpg).
  assert (∀ i, upto 1 i → i = 0) as H0 by (unfold upto; lia).
  assert (uvm_ok ex_end (k3, m3) root l3 (upto 1)) as Hok3.
  { split; cbn [snd]; [done|intros i ->%H0; done|intros i ->%H0..|].
    - rewrite U0. apply has_V_new.
    - rewrite U0, flags_new; [done| |done]. specialize (Hhi pa Hpa). destruct Hpa. unfold ex_end, KERNBASE, PGSIZE in *. lia.
    - by rewrite Up.
    - rewrite Up. intros Hin. apply Hpl, Hown. by right.
    - rewrite Up. intros Hin. apply Hpl, Hown. by left.
    - intros i j ->%H0 ->%H0. done. }
  exists l3. split_and!.
  - split; [|done|intros Hin; apply Htfl, Hown; by right|].
    + pose proof special_pages. split; cbn [snd]; [done|done|by rewrite U3, decide_False|by rewrite U3, decide_False|].
      intros i Hi Hn1 G1 G2. rewrite U3, decide_False by (done || lia). by apply Hrest; [done|lia|..].
    + cbn [snd]. intros [Hin|(i & ->%H0 & E)]; [apply Htfl, Hown; by left|]. rewrite Up in E. by apply (proj1 Hpl).
  - lia.
  - intros b Hb. right. apply Hown. by right.
  - intros b [Hb|(i & ->%H0 & ->)]; [|by left]. right. right. apply Hown. by left.
  - by left.
  - done.
  - intros z Hz. assert (∀ b, in_page b z → b ≠ tf ∧ b ∉ l1) as Hz' by (intros b Hb; split; [intros ->|intros Hin]; eapply Hz; eauto; [by left|by right]).
    rewrite F3, Hfr, M1; [done|intros Hb; by destruct (Hz' tf)|intros b Hb Hb'; by destruct (Hz' b)|].
    intros b Hb. destruct (Hz' b Hb) as [_ Hn]. split; intros Hin; apply Hn, Hpg; auto.
Qed.

Lemma runs_run {X A} (m : M X A) x d y r Q : y = state m x → r = result d m x → runs m x Q → Q r y.
Proof. intros E ->. by apply runs_result. Qed.

(** A parent and a child. *)
Definition parent_st : kern * kalloc_st := state (make ex_root) (ex_x 30).
Definition parent_pt : Z * Z := result (0, 0) (make ex_root) (ex_x 30).
Lemma parent_eq : parent_st = state (make ex_root) (ex_x 30) ∧ parent_pt = result (0, 0) (make ex_root) (ex_x 30).
Proof. split; reflexivity. Qed.
#[local] Opaque parent_st parent_pt.

Definition child_st : kern * kalloc_st := state (make ex_new) parent_st.
Definition child_pt : Z * Z := result (0, 0) (make ex_new) parent_st.
Lemma child_eq : child_st = state (make ex_new) parent_st ∧ child_pt = result (0, 0) (make ex_new) parent_st.
Proof. split; reflexivity. Qed.
#[local] Opaque child_st child_pt.

Lemma ex_roots : page_ok ex_end ex_root ∧ page_ok ex_end ex_new ∧ ex_root ∉ ex_free 30 ∧ ex_new ∉ ex_free 30.
Proof.
  split; [done|split; [done|]].
  split; intros (i & Hi & E)%ex_free_pages; unfold ex_root, ex_new, PGSIZE in E; lia.
Qed.

Lemma ex_free_30 : length (ex_free 30) = 30%nat.
Proof. done. Qed.

Lemma parent_ok : ∃ l, proc_mem ex_end KERNBASE parent_st parent_pt.1 l 1 parent_pt.2 ∧ (22 ≤ length l)%nat ∧ ex_new ∉ l ∧
  ¬ owned (km_ram parent_st.2) parent_pt.1 (upto 1) ex_new ∧ ex_new ≠ parent_pt.2 ∧
  upte (km_ram parent_st.2) parent_pt.1 0 = new_pte ex_root user_rwx 0.
Proof.
  destruct ex_roots as (Hr & Hn & Hr' & Hn'). destruct parent_eq as [E1 E2].
  destruct (runs_run (make ex_root) (ex_x 30) (0, 0) parent_st parent_pt _ E1 E2
    (runs_make demo_kern (ex_x 30).2 (ex_free 30) ex_root (ex_inv 30 ltac:(lia)) ltac:(rewrite ex_free_30; lia) Hr Hr')) as (l & H1 & H2 & H3 & H4 & H5 & H6 & _).
  rewrite ex_free_30 in H2. exists l. split; [exact H1|]. split; [lia|]. split; [exact (λ Hx, Hn' (H3 _ Hx))|].
  split; [intros Hb; destruct (H4 ex_new Hb) as [E|Hx]; [discriminate E|exact (Hn' Hx)]|]. split; [intros E; rewrite E in Hn'; exact (Hn' H5)|exact H6].
Qed.

Lemma family_of x y (p c : Z * Z) l :
  proc_mem ex_end KERNBASE x p.1 l 1 p.2 → (8 ≤ length l)%nat → ex_new ∉ l → ¬ owned (km_ram x.2) p.1 (upto 1) ex_new → ex_new ≠ p.2 →
  y = state (make ex_new) x → c = result (0, 0) (make ex_new) x → ∃ l',
  proc_mem ex_end KERNBASE y p.1 l' 1 p.2 ∧ proc_mem ex_end KERNBASE y c.1 l' 1 c.2 ∧
  apart_mem (km_ram y.2) p.1 1 p.2 c.1 1 c.2 ∧ upte (km_ram y.2) p.1 0 = upte (km_ram x.2) p.1 0.
Proof.
  destruct ex_roots as (_ & Hn & _). destruct x as [k m]. intros Hp Hlen Hl Ho Ht E1 E2.
  pose proof (ps_uvm _ _ _ _ _ _ _ (pm_space _ _ _ _ _ _ _ Hp)) as Hok. pose proof (po_alloc _ _ _ _ (uo_pt _ _ _ _ _ Hok)) as Inv.
  destruct (runs_run (make ex_new) (k, m) (0, 0) y c _ E1 E2 (runs_make k m l ex_new Inv Hlen Hn Hl)) as (l' & H1 & H2 & H3 & H4 & H5 & H6 & H7).
  clear E1 E2. destruct y as [k' m']. cbn [snd] in *. pose proof (ps_uvm _ _ _ _ _ _ _ (pm_space _ _ _ _ _ _ _ H1)) as Hok1.
  destruct (proc_mem_free ex_end KERNBASE k k' m m' p.1 l l' _ _ Hp (po_alloc _ _ _ _ (uo_pt _ _ _ _ _ Hok1)) H3 H7) as (G1 & (G2 & _) & G3).
  exists l'. split; [exact G1|]. split; [exact H1|]. split; [|apply G2].
  assert (∀ a, owned (km_ram m) p.1 (upto 1) a → a ∉ l) as Hol.
  { intros a Ha. exact (proj2 (owned_page_ok ex_end (k, m) p.1 l (upto 1) a Hok Ha)). }
  split; [|split; [|split]].
  - intros E. apply (pm_tf_used _ _ _ _ _ _ _ Hp). rewrite E. exact H5.
  - intros a Ha%G3 Hb. destruct (H4 a Hb) as [->|Hal]; [exact (Ho Ha)|exact (Hol a Ha Hal)].
  - intros Ha%G3. exact (Hol c.2 Ha H5).
  - intros Hb. destruct (H4 _ Hb) as [E|Hal]; [exact (Ht (eq_sym E))|exact (pm_tf_used _ _ _ _ _ _ _ Hp Hal)].
Qed.

Lemma family_ok : ∃ l,
  proc_mem ex_end KERNBASE child_st parent_pt.1 l 1 parent_pt.2 ∧ proc_mem ex_end KERNBASE child_st child_pt.1 l 1 child_pt.2 ∧
  apart_mem (km_ram child_st.2) parent_pt.1 1 parent_pt.2 child_pt.1 1 child_pt.2 ∧
  upte (km_ram child_st.2) parent_pt.1 0 = new_pte ex_root user_rwx 0.
Proof.
  destruct parent_ok as (l & Hp & Hlen & Hl & Ho & Ht & Hu). destruct child_eq as [E1 E2].
  destruct (family_of parent_st child_st parent_pt child_pt l Hp ltac:(lia) Hl Ho Ht E1 E2) as (l' & H1 & H2 & H3 & H4).
  exists l'. rewrite Hu in H4. exact (conj H1 (conj H2 (conj H3 H4))).
Qed.

(** ** The kernel around them *)

Definition parent_proc (p : Z * Z) : proc :=
  set_pstate RUNNING (set_ppid 1 (set_psz PGSIZE (set_ppagetable p.1 (set_ptf p.2
    (set_pofile (Some 0 :: replicate 15 None) (set_pcwd (Some 0) proc0)))))).
Definition zombie_proc (c : Z * Z) : proc :=
  set_pstate ZOMBIE (set_pparent (Some 0%nat) (set_ppid 2 (set_pxstate 7 (set_psz PGSIZE (set_ppagetable c.1 (set_ptf c.2 proc0)))))).
Definition fork_kern (p : Z * Z) : kern := Kern demo_cpu (parent_proc p :: replicate 9 proc0).
Definition wait_kern (p c : Z * Z) : kern := Kern demo_cpu (parent_proc p :: zombie_proc c :: replicate 8 proc0).
Definition proc_sys (m : kalloc_st) : sys bio_st :=
  set_vm (VmSt m 0 0) (set_ft (initlock "ftable") (set_fref 1 file0 :: replicate 99 file0) (ex_idle (ex_ic 5))).

Lemma replicate_get n j : replicate n proc0 !!! j = proc0.
Proof.
  destruct (decide (j < n)%nat); [by rewrite lookup_total_replicate_2|].
  by rewrite list_lookup_total_alt, lookup_ge_None_2 by (rewrite length_replicate; lia).
Qed.

Lemma fork_running p : running (fork_kern p) 0 1.
Proof.
  split; [|split; [done|split; [unfold NPROC; lia|done]]]. split; [exact demo_cpu_ok|]. split; [done|].
  intros [|j]; [done|]. change (k_procs (fork_kern p) !!! S j) with (replicate 9 proc0 !!! j). by rewrite replicate_get.
Qed.

Lemma wait_running p c : running (wait_kern p c) 0 1.
Proof.
  split; [|split; [done|split; [unfold NPROC; lia|done]]]. split; [exact demo_cpu_ok|]. split; [done|].
  intros [|[|j]]; [done|done|]. change (k_procs (wait_kern p c) !!! S (S j)) with (replicate 8 proc0 !!! j). by rewrite replicate_get.
Qed.

#[local] Opaque ex_boot.

Lemma fork_state k m p l :
  proc_mem ex_end KERNBASE (k, m) p.1 l 1 p.2 → forkable ex_end KERNBASE (fork_kern p) (proc_sys m) 0 1 l.
Proof.
  intros Hm. split.
  - apply fork_running.
  - done.
  - intros [|j] _ Hu; [done|]. change (k_procs (fork_kern p) !!! S j) with (replicate 9 proc0 !!! j). by rewrite replicate_get.
  - done.
  - cbn. split; [done|]. change TRAPFRAME with (67108862 * 4096). unfold PGSIZE. lia.
  - change (np (p_sz (k_procs (fork_kern p) !!! 0%nat))) with 1. eapply proc_mem_kern; [exact Hm|exact demo_cpu_ok].
  - split; [done|]. intros f Hf. change (Some f ∈ Some 0 :: replicate 15 None) in Hf. apply elem_of_cons in Hf as [[= ->]|Hf]; [done|].
    by apply elem_of_replicate_inv in Hf.
  - exists 0. split; [done|]. done.
Qed.

Lemma wait_state k m p c l :
  proc_mem ex_end KERNBASE (k, m) p.1 l 1 p.2 → proc_mem ex_end KERNBASE (k, m) c.1 l 1 c.2 →
  apart_mem (km_ram m) p.1 1 p.2 c.1 1 c.2 → waitable ex_end KERNBASE (wait_kern p c) (proc_sys m) 0 1 l.
Proof.
  intros Hp Hc Ha. split.
  - apply wait_running.
  - done.
  - done.
  - eapply proc_mem_kern; [exact Hp|exact demo_cpu_ok].
  - intros [|[|j]] _ [Hpar _].
    + done.
    + split; [cbn; change TRAPFRAME with (67108862 * 4096); unfold PGSIZE; lia|]. split; [|exact Ha]. eapply proc_mem_kern; [exact Hc|exact demo_cpu_ok].
    + change (k_procs (wait_kern p c) !!! S (S j)) with (replicate 8 proc0 !!! j) in Hpar. by rewrite replicate_get in Hpar.
Qed.

(** ** The theorems on these states *)

(** The grown process of [VmExamples] ends. *)
Lemma uvmfree_correct_witness :
  runs (uvmfree ex_end ex_root PGSIZE) (ex_grown 10) (λ _ x', ∃ l', kalloc_inv ex_end x' l' ∧ ex_root ∈ l').
Proof.
  eapply runs_mono; [apply (uvmfree_correct ex_end (ex_grown 10) ex_root (drop 3 (ex_free 10)) PGSIZE)|].
  - done.
  - exact (ex_grown_uvm 10 ltac:(lia) ex_res_10 ex_chain_10).
  - change (np PGSIZE) with 1. intros i Hi H1. destruct (ex_grown_ok 10 ltac:(lia) ex_res_10) as (l & (_ & _ & _ & Hu & _) & _).
    rewrite Hu by (done || lia). pose proof (ex_upte 10 1 i ltac:(lia)) as E. change (KERNBASE + 1 * PGSIZE) with ex_root in E.
    rewrite E. apply has_zero.
  - intros _ x' (l' & H1 & _ & H2 & _). exists l'. split; [exact H1|]. apply H2. right. left. exists []. split; [apply path_nil|reflexivity].
Defined.



(** Giving back the only page. *)
Lemma growproc_correct_witness :
  runs (growproc ex_end (- PGSIZE)) (fork_kern parent_pt, proc_sys parent_st.2) (λ r x',
    r = 0 ∧ p_sz (k_procs x'.1 !!! 0%nat) = 0).
Proof.
  destruct parent_ok as (l & Hp & Hlen & _). rewrite (surjective_pairing parent_st) in Hp.
  eapply runs_mono; [apply (growproc_correct ex_end KERNBASE (fork_kern parent_pt) (proc_sys parent_st.2) 0 1 l (- PGSIZE))|].
  - apply fork_running.
  - eapply proc_mem_kern; [exact Hp|exact demo_cpu_ok].
  - cbn. unfold PGSIZE. lia.
  - unfold PGSIZE. lia.
  - intros r x' (m & l' & _ & [(-> & [_ _ Hs _] & _)|(_ & H0 & _)]); [|discriminate H0]. split; [done|]. by rewrite Hs.
Defined.
