(* ===== verification/Mkfs.v ===== *)
(** * Building a file system image (mkfs/mkfs.c)

    The state is the image file, as sectors, and the two counters from which inodes and
    blocks are taken.  A read past the end of the image fails and ends the program; the host is
    little-endian.  Messages to the terminal are left out. *)

From S2P Require Import Prelude Memory Riscv Spinlock Core CString Kalloc Vm Sleeplock BufCache Log Sys Fs.

Record mk_st := MkSt {
  mk_img : Z → list Z;          (* fsfd: the sectors *)
  mk_len : Z;                   (* its length in sectors *)
  freeinode : Z;
  freeblock : Z;
}.

Definition set_img i n s := MkSt i n (freeinode s) (freeblock s).
Definition set_freeinode v s := MkSt (mk_img s) (mk_len s) v (freeblock s).
Definition set_freeblock v s := MkSt (mk_img s) (mk_len s) (freeinode s) v.

Abbreviation MK := (M mk_st).

Definition NINODES : Z := 200.
Definition nbitmap : Z := FSSIZE / (BSIZE * 8) + 1.
Definition ninodeblocks : Z := NINODES / IPB + 1.
Definition nlog : Z := LOGSIZE.
Definition nmeta : Z := 2 + nlog + ninodeblocks + nbitmap.
Definition nblocks : Z := FSSIZE - nmeta.
Definition zeroes : list Z := replicate (Z.to_nat BSIZE) 0.

(** Little-endian byte order: the value of [y] after its bytes are stored. *)
Definition xshort (x : Z) : Z := le_dec [u8 x; u8 (Z.shiftr x 8)].
Definition xint (x : Z) : Z := le_dec [u8 x; u8 (Z.shiftr x 8); u8 (Z.shiftr x 16); u8 (Z.shiftr x 24)].

Definition sb : superblock :=
  Superblock FSMAGIC (xint FSSIZE) (xint nblocks) (xint NINODES) (xint nlog) (xint 2) (xint (2 + nlog)) (xint (2 + nlog + ninodeblocks)).

(** The bytes of a [struct superblock]. *)
Definition sb_bytes (s : superblock) : list Z :=
  concat (le_enc 4 <$> [sb_magic s; sb_size s; sb_nblocks s; sb_ninodes s; sb_nlog s; sb_logstart s; sb_inodestart s; sb_bmapstart s]).

(** ** Sectors *)

Definition wsect (sec : Z) (buf : list Z) : MK unit :=
  modify (λ s, set_img (λ b, if b =? sec then buf else mk_img s b) (Z.max (mk_len s) (sec + 1)) s).

Definition rsect (sec : Z) : MK (list Z) :=
  n ← gets mk_len;
  if sec <? n then gets (λ s, mk_img s sec) else stop (Exited 1).

(** ** Inodes *)

Definition winode (inum : Z) (ip : inode) : MK unit :=
  let bn := IBLOCK inum sb in
  buf ← rsect bn;
  wsect bn (dinode_store (dinode_off inum) ip buf).

Definition rinode (inum : Z) : MK inode :=
  let bn := IBLOCK inum sb in
  buf ← rsect bn;
  mret (dinode_load (dinode_off inum) buf inode0).

Definition ialloc (type : Z) : MK Z :=
  inum ← gets freeinode;
  modify (set_freeinode (u32 (inum + 1)));;
  (* bzero(&din, sizeof(din)) *)
  let din := set_isize (xint 0) (set_inlink (xshort 1) (set_itype (xshort type) inode0)) in
  winode inum din;;
  mret inum.

(** [freeblock++] *)
Definition next_block : MK Z :=
  b ← gets freeblock;
  modify (set_freeblock (u32 (b + 1)));;
  mret b.

Definition balloc (used : Z) : MK unit :=
  if negb (used <? BSIZE * 8) then panic "assert"%string else
  let buf := fold_left bit_set (seqZ 0 used) zeroes in
  wsect (sb_bmapstart sb) buf.

(** The sector of block [fbn] of the file, allocated if need be. *)
Definition file_block (din : inode) (fbn : Z) : MK (inode * Z) :=
  if fbn <? NDIRECT then
    din ← (if aget (i_addrs din) fbn =? 0
           then b ← next_block; mret (set_iaddrs (aset (i_addrs din) fbn (xint b)) din)
           else mret din);
    mret (din, xint (aget (i_addrs din) fbn))
  else
    din ← (if aget (i_addrs din) NDIRECT =? 0
           then b ← next_block; mret (set_iaddrs (aset (i_addrs din) NDIRECT (xint b)) din)
           else mret din);
    indirect ← rsect (xint (aget (i_addrs din) NDIRECT));
    if ind_get indirect (fbn - NDIRECT) =? 0 then
      b ← next_block;
      let indirect := wr (4 * (fbn - NDIRECT)) 4 (xint b) indirect in
      wsect (xint (aget (i_addrs din) NDIRECT)) indirect;;
      mret (din, xint (ind_get indirect (fbn - NDIRECT)))
    else mret (din, xint (ind_get indirect (fbn - NDIRECT))).

Definition iappend (inum : Z) (xp : list Z) : MK unit :=
  din ← rinode inum;
  '(din, off) ← loop (length xp + 1) (λ '(din, off, p),
    if alen p <=? 0 then mret (inr (din, off)) else
    let fbn := off / BSIZE in
    if negb (fbn <? MAXFILE) then panic "assert"%string else
    '(din, x) ← file_block din fbn;
    let n1 := Z.min (alen p) ((fbn + 1) * BSIZE - off) in
    buf ← rsect x;
    wsect x (splice (Z.to_nat (off - fbn * BSIZE)) (take (Z.to_nat n1) p) buf);;
    mret (inl (din, u32 (off + n1), drop (Z.to_nat n1) p))) (din, xint (i_size din), xp);
  winode inum (set_isize (xint off) din).

(** ** main *)

(** An argument: its text, and what [read] returns for the file, if it can be opened. *)
Abbreviation mk_arg := (list Z * option (list (list Z)))%type.

Definition c_slash : Z := 47.
Definition c_underscore : Z := 95.
Definition user_dir : list Z := [117; 115; 101; 114; 47].       (* "user/" *)

(** get rid of "user/" *)
Definition drop_user (arg : list Z) : list Z :=
  if lstrncmp 5 arg user_dir =? 0 then drop 5 arg else arg.

(** Skip leading _ in name when writing to file system. *)
Definition drop_underscore (name : list Z) : list Z :=
  if hd 0 name =? c_underscore then tl name else name.

Definition mk_dirent (inum : Z) (name : list Z) : list Z := de_make (xshort inum) (lstrncpy (Z.to_nat DIRSIZ) name).

Fixpoint append_all (inum : Z) (chunks : list (list Z)) : MK unit :=
  match chunks with
  | [] => mret tt
  | buf :: chunks => if alen buf <=? 0 then mret tt else iappend inum buf;; append_all inum chunks
  end.

Definition add_file (rootino : Z) (arg : mk_arg) : MK unit :=
  let shortname := drop_user arg.1 in
  if bool_decide (c_slash ∈ shortname) then panic "assert"%string else
  match arg.2 with
  | None => stop (Exited 1)
  | Some chunks =>
      let shortname := drop_underscore shortname in
      inum ← ialloc T_FILE;
      iappend rootino (mk_dirent inum shortname);;
      append_all inum chunks
  end.

Fixpoint add_files (rootino : Z) (args : list mk_arg) : MK unit :=
  match args with
  | [] => mret tt
  | arg :: args => add_file rootino arg;; add_files rootino args
  end.

(** [main] with the arguments after the image's name. *)
Definition mkfs_main (args : list mk_arg) : MK unit :=
  modify (set_freeblock nmeta);;           (* the first free block that we can allocate *)
  for_range (Z.to_nat FSSIZE) 0 (λ i, wsect i zeroes);;
  wsect 1 (splice 0 (sb_bytes sb) zeroes);;
  rootino ← ialloc T_DIR;
  if negb (rootino =? ROOTINO) then panic "assert"%string else
  iappend rootino (mk_dirent rootino [46]);;              (* "." *)
  iappend rootino (mk_dirent rootino [46; 46]);;          (* ".." *)
  add_files rootino args;;
  (* fix size of root inode dir *)
  din ← rinode rootino;
  let off := xint (i_size din) in
  let off := u32 ((off / BSIZE + 1) * BSIZE) in
  winode rootino (set_isize (xint off) din);;
  used ← gets freeblock;
  balloc used;;
  stop (Exited 0).

(** The state before [main]: an empty file. *)
Definition mk0 : mk_st := MkSt (λ _, zeroes) 0 1 0.
