(* ===== verification/MkfsProof.v ===== *)
(** * Disk inodes in their blocks

    An inode on the disk is 64 bytes of its block; storing one leaves the others as they are, and
    it is read back as it was stored. *)

From S2P Require Import Prelude Memory Riscv Spinlock Core CString Kalloc Vm Sleeplock BufCache Log Crash LogProof LogSafety Sys Fs FsBlock FsMap FsFile Mkfs.

Lemma splice_app {A} off (a b d : list A) :
  (off + length a + length b ≤ length d)%nat → splice (off + length a) b (splice off a d) = splice off (a ++ b) d.
Proof.
  intros H. apply list_eq. intros i. rewrite !splice_lookup by (rewrite ?length_splice, ?length_app; lia).
  rewrite length_app. repeat case_decide; try lia; try done.
  - rewrite lookup_app_r by lia. f_equal. lia.
  - rewrite lookup_app_l by lia. done.
Qed.

(** Fields inside and outside the spliced bytes. *)
Lemma rd_splice_in o k n bs d :
  0 ≤ o → 0 ≤ k → 0 ≤ n → k + n ≤ alen bs → o + alen bs ≤ alen d → rd (o + k) n (splice (Z.to_nat o) bs d) = rd k n bs.
Proof.
  intros. unfold rd, alen in *. f_equal. apply list_eq. intros i. rewrite !slice_lookup. case_decide; [|done].
  rewrite splice_lookup by lia. rewrite decide_True by lia. f_equal. lia.
Qed.

Lemma rd_splice_out o k n bs d :
  0 ≤ o → 0 ≤ k → 0 ≤ n → k + n ≤ o ∨ o + alen bs ≤ k → o + alen bs ≤ alen d → rd k n (splice (Z.to_nat o) bs d) = rd k n d.
Proof. intros. unfold rd, alen in *. f_equal. apply slice_splice_ne; lia. Qed.

(** The bytes of a [struct dinode]. *)
Definition dinode_bytes (e : inode) : list Z :=
  le_enc 2 (i_type e) ++ le_enc 2 (i_major e) ++ le_enc 2 (i_minor e) ++ le_enc 2 (i_nlink e) ++ le_enc 4 (i_size e) ++
  concat (le_enc 4 <$> i_addrs e).

Lemma length_words l : length (concat (le_enc 4 <$> l)) = (4 * length l)%nat.
Proof. induction l as [|a l IH]; [done|]. rewrite fmap_cons. cbn [concat]. rewrite length_app, length_le_enc, IH. cbn. lia. Qed.

Lemma length_dinode_bytes e : alen (i_addrs e) = NDIRECT + 1 → alen (dinode_bytes e) = DINODE.
Proof.
  intros H. unfold alen, dinode_bytes, NDIRECT, DINODE in *. rewrite !length_app, !length_le_enc, length_words. lia.
Qed.

Lemma dinode_store_splice o e d :
  0 ≤ o → o + DINODE ≤ alen d → alen (i_addrs e) = NDIRECT + 1 → dinode_store o e d = splice (Z.to_nat o) (dinode_bytes e) d.
Proof.
  intros Ho Hd Ha. unfold dinode_store, dinode_bytes, wr, alen, DINODE, NDIRECT in *.
  change (Z.to_nat 2) with 2%nat. change (Z.to_nat 4) with 4%nat.
  replace (Z.to_nat (o + 2)) with (Z.to_nat o + length (le_enc 2 (i_type e)))%nat by (rewrite length_le_enc; lia).
  rewrite splice_app by (rewrite !length_le_enc; lia).
  replace (Z.to_nat (o + 4)) with (Z.to_nat o + length (le_enc 2 (i_type e) ++ le_enc 2 (i_major e)))%nat by (rewrite length_app, !length_le_enc; lia).
  rewrite splice_app by (rewrite length_app, !length_le_enc; lia).
  rewrite <- app_assoc.
  match goal with |- context [splice (Z.to_nat (o + 6)) _ (splice _ ?b _)] =>
    replace (Z.to_nat (o + 6)) with (Z.to_nat o + length b)%nat by (rewrite !length_app, !length_le_enc; lia) end.
  rewrite splice_app by (rewrite !length_app, !length_le_enc; lia).
  match goal with |- context [splice (Z.to_nat (o + 8)) _ (splice _ ?b _)] =>
    replace (Z.to_nat (o + 8)) with (Z.to_nat o + length b)%nat by (rewrite !length_app, !length_le_enc; lia) end.
  rewrite splice_app by (rewrite !length_app, !length_le_enc; lia).
  match goal with |- context [splice (Z.to_nat (o + 12)) _ (splice _ ?b _)] =>
    replace (Z.to_nat (o + 12)) with (Z.to_nat o + length b)%nat by (rewrite !length_app, !length_le_enc; lia) end.
  rewrite splice_app by (rewrite !length_app, !length_le_enc, length_words; lia).
  by rewrite <- !app_assoc.
Qed.

(** A field of the concatenation. *)
Lemma rd_app_l k n a b : 0 ≤ k → 0 ≤ n → k + n ≤ alen a → rd k n (a ++ b) = rd k n a.
Proof.
  intros. unfold rd, alen in *. f_equal. apply list_eq. intros i. rewrite !slice_lookup. case_decide; [|done]. by rewrite lookup_app_l by lia.
Qed.
Lemma rd_app_r k n a b : 0 ≤ n → alen a ≤ k → rd k n (a ++ b) = rd (k - alen a) n b.
Proof.
  intros. unfold rd, alen in *. f_equal. apply list_eq. intros i. rewrite !slice_lookup. case_decide; [|done].
  rewrite lookup_app_r by lia. f_equal. lia.
Qed.
Lemma rd_le_enc n v : 0 ≤ n → rd 0 n (le_enc (Z.to_nat n) v) = v mod 2 ^ (8 * n).
Proof.
  intros. unfold rd, slice. rewrite drop_0, take_ge by by rewrite length_le_enc. rewrite le_dec_enc. do 2 f_equal. lia.
Qed.
Lemma alen_le_enc n v : alen (le_enc n v) = Z.of_nat n.
Proof. unfold alen. by rewrite length_le_enc. Qed.

Lemma rd_words l k : 0 ≤ k < alen l → rd (4 * k) 4 (concat (le_enc 4 <$> l)) = u32 (aget l k).
Proof.
  revert k. induction l as [|a l IH]; intros k Hk; [unfold alen in Hk; cbn in Hk; lia|].
  rewrite fmap_cons. cbn [concat]. assert (alen (a :: l) = alen l + 1) as El by (unfold alen; cbn [length]; lia).
  destruct (decide (k = 0)) as [->|Hne].
  - rewrite rd_app_l by (rewrite ?alen_le_enc; lia). exact (rd_le_enc 4 a ltac:(lia)).
  - rewrite rd_app_r by (rewrite ?alen_le_enc; lia). rewrite alen_le_enc. replace (4 * k - Z.of_nat 4) with (4 * (k - 1)) by lia.
    rewrite IH by lia. unfold aget. replace (Z.to_nat k) with (S (Z.to_nat (k - 1))) by lia. done.
Qed.

(** The inode that comes back. *)
Definition clean (e : inode) : Prop :=
  e = Inode 0 0 0 (i_lock inode0) 0 (i_type e) (i_major e) (i_minor e) (i_nlink e) (i_size e) (i_addrs e) ∧
  (i_type e = T_DIR ∨ i_type e = T_FILE) ∧ i_major e = 0 ∧ i_minor e = 0 ∧ i_nlink e = 1 ∧ 0 ≤ i_size e < 2 ^ 32 ∧
  alen (i_addrs e) = NDIRECT + 1 ∧ ∀ k, 0 ≤ k ≤ NDIRECT → 0 ≤ aget (i_addrs e) k < 2 ^ 32.

Lemma load_bytes e : clean e → dinode_load 0 (dinode_bytes e) inode0 = e.
Proof.
  intros (E & Ht & Hma & Hmi & Hn & Hs & Ha & Hr). rewrite E at 2. unfold dinode_load, dinode_bytes.
  assert (∀ v, v = 0 ∨ v = 1 ∨ v = 2 → i16 (v mod 2 ^ (8 * 2)) = v) as H16 by (intros v [->|[->| ->]]; done).
  rewrite Hma, Hmi, Hn. f_equal.
  - rewrite rd_app_l by (rewrite ?alen_le_enc; lia). rewrite (rd_le_enc 2) by lia. apply H16. unfold T_DIR, T_FILE in Ht. lia.
  - do 4 rewrite rd_app_r by (rewrite ?alen_le_enc; lia). rewrite rd_app_l by (rewrite ?alen_le_enc; lia).
    rewrite !alen_le_enc. change (0 + 8 - _ - _ - _ - _) with 0. rewrite (rd_le_enc 4) by lia. by apply Z.mod_small.
  - apply list_eq. intros i. rewrite list_lookup_fmap. unfold alen, NDIRECT in *.
    destruct (decide (Z.of_nat i < 13)) as [Hi|Hi].
    + rewrite lookup_seqZ_lt by lia. cbn [fmap option_fmap option_map].
      do 5 rewrite rd_app_r by (rewrite ?alen_le_enc; lia). rewrite !alen_le_enc.
      replace (0 + 12 + 4 * (0 + Z.of_nat i) - Z.of_nat 2 - Z.of_nat 2 - Z.of_nat 2 - Z.of_nat 2 - Z.of_nat 4) with (4 * Z.of_nat i) by lia.
      rewrite rd_words by (unfold alen; lia). rewrite u32_small by (apply Hr; lia). unfold aget. rewrite Nat2Z.id.
      symmetry. apply list_lookup_lookup_total_lt. lia.
    + rewrite lookup_seqZ_ge by lia. symmetry. apply lookup_ge_None_2. lia.
Qed.

Lemma load_splice o bs d : 0 ≤ o → alen bs = DINODE → o + DINODE ≤ alen d →
  dinode_load o (splice (Z.to_nat o) bs d) inode0 = dinode_load 0 bs inode0.
Proof.
  intros Ho Hb Hd. unfold DINODE in *. unfold dinode_load.
  assert (∀ k n, 0 ≤ k → 0 ≤ n → k + n ≤ 64 → rd (o + k) n (splice (Z.to_nat o) bs d) = rd (0 + k) n bs) as H.
  { intros k n ? ? ?. rewrite rd_splice_in by lia. done. }
  f_equal; [|rewrite H by lia; done..|].
  - rewrite <- (Z.add_0_r o) at 1. by rewrite H by lia.
  - apply list_fmap_ext. intros i k Hk. apply lookup_seqZ in Hk as [-> Hk]. unfold NDIRECT in Hk.
    replace (o + 12 + 4 * (0 + Z.of_nat i)) with (o + (12 + 4 * (0 + Z.of_nat i))) by lia. by rewrite H by lia.
Qed.

Lemma load_other o o' bs d : 0 ≤ o → 0 ≤ o' → alen bs = DINODE → o + DINODE ≤ alen d → o' + DINODE ≤ o ∨ o + DINODE ≤ o' →
  dinode_load o' (splice (Z.to_nat o) bs d) inode0 = dinode_load o' d inode0.
Proof.
  intros Ho Ho' Hb Hd Hne. unfold DINODE in *. unfold dinode_load.
  assert (∀ k n, 0 ≤ k → 0 ≤ n → k + n ≤ 64 → rd (o' + k) n (splice (Z.to_nat o) bs d) = rd (o' + k) n d) as H.
  { intros k n ? ? ?. apply rd_splice_out; lia. }
  f_equal; [|rewrite H by lia; done..|].
  - rewrite <- (Z.add_0_r o') at 1 2. by rewrite H by lia.
  - apply list_fmap_ext. intros i k Hk. apply lookup_seqZ in Hk as [-> Hk]. unfold NDIRECT in Hk.
    replace (o' + 12 + 4 * (0 + Z.of_nat i)) with (o' + (12 + 4 * (0 + Z.of_nat i))) by lia. by rewrite H by lia.
Qed.

(** * What mkfs builds, step by step

    Every block of the image beyond the metadata belongs to one place of one inode, or to nothing
    and is zero.  [own b = Some (i, k)]: block [b] is block [k] of inode [i], or its indirect
    block for [k = MAXFILE]. *)

Lemma xint_small x : 0 ≤ x < 2 ^ 32 → xint x = x.
Proof. intros H. unfold xint, u8. cbn [le_dec]. rewrite !Z.shiftr_div_pow2 by lia. dlia. Qed.
Lemma xshort_small x : 0 ≤ x < 2 ^ 16 → xshort x = x.
Proof. intros H. unfold xshort, u8. cbn [le_dec]. rewrite !Z.shiftr_div_pow2 by lia. dlia. Qed.

Section MkfsProof.
Context (dev : Z).
Abbreviation owner := (Z → option (Z * Z)).
Implicit Types (s : mk_st) (own : owner) (e : inode).

(** The image as the kernel sees it. *)
Definition disk s : block → list Z := λ κ, mk_img s κ.2.
Lemma disk_at s d b : disk s (d, b) = mk_img s b.
Proof. done. Qed.
Abbreviation blk := (blk dev).
Abbreviation fbyte := (fbyte dev).

Record image_ok own s : Prop := {
  im_len : mk_len s = FSSIZE;
  im_blk : ∀ b, length (mk_img s b) = Z.to_nat BSIZE;
  im_free : nmeta ≤ freeblock s ≤ FSSIZE;
  im_zero : ∀ b, freeblock s ≤ b → mk_img s b = zeroes;
  im_own : ∀ b ik, own b = Some ik → nmeta ≤ b < freeblock s;
  im_all : ∀ b, nmeta ≤ b < freeblock s → is_Some (own b);
}.

Lemma im_free46 own s : image_ok own s → 46 ≤ freeblock s ≤ 2000.
Proof. intros H. exact (im_free _ _ H). Qed.

(** Inode [i] as [e] with its first [a] blocks, its indirect block if [h], and the bytes [data],
    followed by zeros in the blocks it has. *)
Record mk_file own s (i : Z) e (h : bool) (a : Z) (data : list Z) : Prop := {
  mf_addrs : alen (i_addrs e) = NDIRECT + 1;
  mf_range : 0 ≤ a ≤ MAXFILE ∧ (NDIRECT < a → h = true);
  mf_len : alen data ≤ a * BSIZE;
  mf_blk : ∀ k, 0 ≤ k < MAXFILE → if decide (k < a) then own (blk (disk s) e k) = Some (i, k) else blk (disk s) e k = 0;
  mf_ind : if h then own (indirect e) = Some (i, MAXFILE) else indirect e = 0;
  mf_bytes : ∀ off, 0 ≤ off < a * BSIZE → fbyte (disk s) e off = nth (Z.to_nat off) data 0;
}.

(** Everything of [j] is as it was. *)
Definition untouched own s own' s' (j : Z) : Prop :=
  ∀ b k, own b = Some (j, k) → own' b = Some (j, k) ∧ mk_img s' b = mk_img s b.

Lemma untouched_trans own s own1 s1 own2 s2 j : untouched own s own1 s1 j → untouched own1 s1 own2 s2 j → untouched own s own2 s2 j.
Proof. intros H1 H2 b k Hb. destruct (H1 b k Hb) as [Hb1 E1]. destruct (H2 b k Hb1) as [Hb2 E2]. by rewrite E2. Qed.

Lemma mk_file_frame own s own' s' i e h a data :
  mk_file own s i e h a data → untouched own s own' s' i → mk_file own' s' i e h a data.
Proof.
  intros [H1 H2 H3 H4 H5 H6] Hu.
  assert (∀ k, blk (disk s') e k = blk (disk s) e k) as Hb.
  { intros k. apply blk_same. intros Hi. rewrite !disk_at. destruct h; [by apply (Hu _ MAXFILE)|done]. }
  split; try done.
  - intros k Hk. rewrite Hb. specialize (H4 k Hk). case_decide; [|done]. by apply (Hu _ k).
  - destruct h; [|done]. by apply (Hu _ MAXFILE).
  - intros off Hoff. rewrite <- H6 by done. unfold FsFile.fbyte. rewrite Hb, !disk_at.
    assert (0 ≤ off / BSIZE < a) by (unfold BSIZE in *; dlia). specialize (H4 (off / BSIZE) ltac:(lia)). rewrite decide_True in H4 by lia.
    by destruct (Hu _ _ H4) as [_ ->].
Qed.

(** Two slots never share a block. *)
Lemma slots_ne own s i e h a data k :
  mk_file own s i e h a data → 0 ≤ k < a → h = true → blk (disk s) e k ≠ indirect e.
Proof.
  intros [H1 H2 H3 H4 H5 H6] Hk -> E. specialize (H4 k ltac:(lia)). rewrite decide_True in H4 by lia. rewrite E, H5 in H4.
  injection H4 as H4. lia.
Qed.

(** [s'] has one more block in use, [b], and no other change beyond the metadata. *)
Definition takes own s (i k : Z) own' s' : Prop :=
  own' = (λ b, if b =? freeblock s then Some (i, k) else own b) ∧ s' = set_freeblock (freeblock s + 1) s.

Lemma takes_ok own s i k own' s' : image_ok own s → freeblock s < FSSIZE → takes own s i k own' s' → image_ok own' s'.
Proof.
  intros [H1 H2 H3 H4 H5 H6] Hf [-> ->]. split; cbn; try done; [lia|intros b Hb; apply H4; lia| |].
  - intros b ik. destruct (Z.eqb_spec b (freeblock s)) as [->|]; [intros _; lia|]. intros Hb%H5. lia.
  - intros b Hb. destruct (Z.eqb_spec b (freeblock s)); [done|]. apply H6. lia.
Qed.

Lemma takes_untouched own s i k own' s' j : image_ok own s → takes own s i k own' s' → untouched own s own' s' j.
Proof.
  intros H [-> ->] b k' Hb. split; [|done]. destruct (Z.eqb_spec b (freeblock s)) as [->|]; [|done]. apply (im_own _ _ H) in Hb. lia.
Qed.

Lemma runs_next_block own s i k Q :
  image_ok own s → (∀ own' s', takes own s i k own' s' → Q (freeblock s) s') → runs next_block s Q.
Proof.
  intros H HQ. unfold next_block. kgo. pose proof (im_free46 _ _ H). rewrite u32_small by lia. by eapply HQ.
Qed.

(** A direct block. *)
Lemma take_direct own s i e a data own' s' :
  image_ok own s → mk_file own s i e false a data → a < NDIRECT → takes own s i a own' s' →
  mk_file own' s' i (set_iaddrs (aset (i_addrs e) a (freeblock s)) e) false (a + 1) data.
Proof.
  intros Him Hm Ha Ht. pose proof (takes_untouched _ _ _ _ _ _ i Him Ht) as Hu. pose proof (mk_file_frame _ _ _ _ _ _ _ _ _ Hm Hu) as [H1 H2 H3 H4 H5 H6].
  set (e' := set_iaddrs _ e). assert (alen (i_addrs e) = 13) as Hal by done. unfold NDIRECT in *.
  assert (∀ k, 0 ≤ k → blk (disk s') e' k = if decide (k = a) then freeblock s else blk (disk s') e k) as Hb.
  { intros k Hk. unfold FsMap.blk, indirect, NDIRECT, e'. cbn [i_addrs set_iaddrs]. rewrite (aget_aset_ne _ a 12) by lia.
    destruct (Z.ltb_spec k 12); [|rewrite decide_False by lia; done].
    case_decide as E; [subst k; rewrite aget_aset_eq by lia; done|]. by rewrite aget_aset_ne by lia. }
  split; cbn.
  - rewrite alen_aset. done.
  - unfold NDIRECT. change MAXFILE with 268. split; [lia|intros ?; lia].
  - unfold BSIZE in *. lia.
  - intros k Hk. rewrite Hb by lia. destruct (decide (k = a)) as [->|E].
    + rewrite decide_True by lia. destruct Ht as [-> ->]. by rewrite Z.eqb_refl.
    + specialize (H4 k Hk). repeat case_decide; done || lia.
  - unfold indirect, NDIRECT in *. cbn. by rewrite aget_aset_ne by lia.
  - intros off Hoff. assert (0 ≤ off / BSIZE) by (unfold BSIZE; dlia). unfold FsFile.fbyte. rewrite Hb by done. case_decide as E.
    + rewrite disk_at. destruct Ht as [_ ->]. cbn [mk_img set_freeblock]. rewrite (im_zero _ _ Him) by lia.
      unfold zeroes. rewrite nth_overflow by (unfold alen, BSIZE in *; dlia).
      apply aget_lookup. apply lookup_replicate_2. unfold BSIZE. dlia.
    + apply H6. unfold BSIZE in *. dlia.
Qed.

(** The indirect block. *)
Lemma ind_get_zeroes k : 0 ≤ k < NINDIRECT → ind_get zeroes k = 0.
Proof.
  intros Hk. unfold ind_get, rd, slice, zeroes. rewrite drop_replicate, take_replicate.
  change (NINDIRECT) with 256 in Hk. replace (Nat.min _ _) with 4%nat by (unfold BSIZE; lia). done.
Qed.

Lemma take_indirect own s i e a data own' s' :
  image_ok own s → mk_file own s i e false a data → takes own s i MAXFILE own' s' →
  mk_file own' s' i (set_iaddrs (aset (i_addrs e) NDIRECT (freeblock s)) e) true a data.
Proof.
  intros Him Hm Ht. pose proof (takes_untouched _ _ _ _ _ _ i Him Ht) as Hu. pose proof (mk_file_frame _ _ _ _ _ _ _ _ _ Hm Hu) as [H1 [H2 H2'] H3 H4 H5 H6].
  pose proof (im_free46 _ _ Him) as Hf. set (e' := set_iaddrs _ e). assert (alen (i_addrs e) = 13) as Hal by done. unfold NDIRECT in *.
  assert (a ≤ 12) as Ha by (destruct (decide (12 < a)); [by specialize (H2' ltac:(lia))|lia]).
  assert (indirect e' = freeblock s) as Hi by (unfold indirect, e', NDIRECT; cbn; rewrite aget_aset_eq by lia; done).
  assert (∀ k, 0 ≤ k < MAXFILE → blk (disk s') e' k = blk (disk s') e k) as Hb.
  { intros k Hk. unfold FsMap.blk, NDIRECT. rewrite Hi. change (indirect e) with (aget (i_addrs e) 12) in *. rewrite H5, Z.eqb_refl, (proj2 (Z.eqb_neq _ 0)) by lia.
    destruct (Z.ltb_spec k 12); [unfold e'; cbn; by rewrite aget_aset_ne by lia|].
    rewrite disk_at. destruct Ht as [_ ->]. cbn [mk_img set_freeblock]. rewrite (im_zero _ _ Him) by lia. apply ind_get_zeroes. change MAXFILE with 268 in Hk. change NINDIRECT with 256. lia. }
  split; cbn.
  - rewrite alen_aset. done.
  - done.
  - done.
  - intros k Hk. rewrite Hb by lia. by apply H4.
  - rewrite Hi. destruct Ht as [-> _]. by rewrite Z.eqb_refl.
  - intros off Hoff. rewrite <- H6 by done. unfold FsFile.fbyte. rewrite Hb by (change MAXFILE with 268 in *; unfold BSIZE in *; dlia). done.
Qed.

(** Writing a sector that inode [i] owns. *)
Definition put_sect (b : Z) (buf : list Z) s : mk_st :=
  set_img (λ b', if b' =? b then buf else mk_img s b') (mk_len s) s.

Lemma runs_wsect own s b buf Q : image_ok own s → 0 ≤ b < FSSIZE → Q tt (put_sect b buf s) → runs (wsect b buf) s Q.
Proof.
  intros H Hb HQ. unfold wsect. kstep. unfold put_sect in HQ. rewrite Z.max_l; [done|]. rewrite (im_len _ _ H). lia.
Qed.

Lemma runs_rsect own s b Q : image_ok own s → 0 ≤ b < FSSIZE → Q (mk_img s b) s → runs (rsect b) s Q.
Proof. intros H Hb HQ. unfold rsect. pose proof (im_len _ _ H). kstep. kstep. rewrite (proj2 (Z.ltb_lt _ _)) by lia. by kstep. Qed.

Lemma put_sect_ok own s b buf : image_ok own s → b < freeblock s → length buf = Z.to_nat BSIZE → image_ok own (put_sect b buf s).
Proof.
  intros [H1 H2 H3 H4 H5 H6] Hb Hl. split; cbn; try done.
  - intros b'. by destruct (b' =? b).
  - intros b' Hb'. rewrite (proj2 (Z.eqb_neq _ _)) by lia. by apply H4.
Qed.

Lemma put_sect_untouched own s b i k buf j : own b = Some (i, k) → j ≠ i → untouched own s own (put_sect b buf s) j.
Proof.
  intros Hb Hj b' k' Hb'. split; [done|]. cbn. destruct (Z.eqb_spec b' b) as [->|]; [congruence|done].
Qed.

(** An entry of the indirect block. *)
Lemma take_entry own s i e a data own' s' :
  image_ok own s → mk_file own s i e true a data → NDIRECT ≤ a < MAXFILE → takes own s i a own' s' →
  let q := indirect e in
  mk_file own' (put_sect q (wr (4 * (a - NDIRECT)) 4 (freeblock s) (mk_img s q)) s') i e true (a + 1) data.
Proof.
  intros Him Hm Ha Ht q. pose proof (takes_untouched _ _ _ _ _ _ i Him Ht) as Hu.
  pose proof Hm as [_ _ _ Hblk Hq _]. fold q in Hq.
  pose proof (mk_file_frame _ _ _ _ _ _ _ _ _ Hm Hu) as [H1 [H2 H2'] H3 H4 H5 H6]. fold q in H5.
  pose proof (im_free46 _ _ Him) as Hf. pose proof (im_own _ _ Him _ _ Hq) as Hqr. change nmeta with 46 in Hqr.
  set (ib := mk_img s q). assert (alen ib = 1024) as Hib by (unfold alen, ib; rewrite (im_blk _ _ Him); done).
  set (s2 := put_sect q _ s'). change MAXFILE with 268 in *. unfold NDIRECT in *.
  assert (mk_img s2 q = wr (4 * (a - 12)) 4 (freeblock s) ib) as Eq by (unfold s2; cbn; by rewrite Z.eqb_refl).
  assert (∀ b, b ≠ q → mk_img s2 b = mk_img s b) as Hne.
  { intros b Hb. unfold s2. cbn. rewrite (proj2 (Z.eqb_neq _ _)) by done. by destruct Ht as [_ ->]. }
  assert (∀ k, 0 ≤ k < 268 → blk (disk s2) e k = if decide (k = a) then freeblock s else blk (disk s) e k) as Hb.
  { intros k Hk. unfold FsMap.blk, NDIRECT. fold q. rewrite (proj2 (Z.eqb_neq q 0)) by lia.
    destruct (Z.ltb_spec k 12); [by rewrite decide_False by lia|]. rewrite !disk_at, Eq. fold ib. unfold ind_get.
    case_decide as E; [subst k; rewrite rd_wr_eq by lia; apply Z.mod_small; lia|]. by rewrite rd_wr_ne by lia. }
  split; cbn.
  - done.
  - change MAXFILE with 268. split; [lia|done].
  - unfold BSIZE in *. lia.
  - intros k Hk. change MAXFILE with 268 in Hk. rewrite Hb by lia. destruct (decide (k = a)) as [->|E].
    + rewrite decide_True by lia. destruct Ht as [-> _]. by rewrite Z.eqb_refl.
    + specialize (Hblk k Hk). destruct (decide (k < a)); [rewrite decide_True by lia; by apply Hu|by rewrite decide_False by lia].
  - done.
  - intros off Hoff. assert (0 ≤ off / BSIZE ≤ a) by (unfold BSIZE in *; dlia). unfold FsFile.fbyte. rewrite Hb, disk_at by lia. case_decide as E.
    + rewrite Hne by lia. rewrite (im_zero _ _ Him) by lia. rewrite nth_overflow by (unfold alen, BSIZE in *; dlia).
      apply aget_lookup. apply lookup_replicate_2. unfold BSIZE. dlia.
    + rewrite <- (mf_bytes _ _ _ _ _ _ _ Hm) by (unfold BSIZE in *; dlia). unfold FsFile.fbyte. rewrite disk_at. rewrite Hne; [done|].
      apply (slots_ne _ _ _ _ _ _ _ _ Hm); [lia|done].
Qed.

(** ** Steps on behalf of one inode: nothing of another inode, and no metadata, changes. *)
Record step own s (i : Z) own' s' : Prop := {
  st_ok : image_ok own' s';
  st_others : ∀ j, j ≠ i → untouched own s own' s' j;
  st_meta : ∀ b, b < nmeta → mk_img s' b = mk_img s b;
  st_inode : freeinode s' = freeinode s;
  st_new : ∀ b j k, own' b = Some (j, k) → j = i ∨ own b = Some (j, k);
}.

Lemma step_refl own s i : image_ok own s → step own s i own s.
Proof. intros H. split; try done. intros b j k Hb. by right. Qed.

Lemma step_trans own s i own1 s1 own2 s2 : step own s i own1 s1 → step own1 s1 i own2 s2 → step own s i own2 s2.
Proof.
  intros [A1 A2 A3 A4 A5] [B1 B2 B3 B4 B5]. split.
  - done.
  - intros j Hj. eapply untouched_trans; [by apply A2|by apply B2].
  - intros b Hb. rewrite B3 by done. by apply A3.
  - congruence.
  - intros b j k Hb. apply B5 in Hb as [->|Hb]; [by left|]. by apply A5.
Qed.

Lemma step_takes own s i k own' s' : image_ok own s → freeblock s < FSSIZE → takes own s i k own' s' → step own s i own' s'.
Proof.
  intros H Hf Ht. split.
  - by eapply takes_ok.
  - intros j _. by eapply takes_untouched.
  - by destruct Ht as [_ ->].
  - by destruct Ht as [_ ->].
  - destruct Ht as [-> _]. intros b j k'. destruct (b =? freeblock s); [intros [= <- _]; by left|by right].
Qed.

Lemma step_put own s i k b buf :
  image_ok own s → own b = Some (i, k) → length buf = Z.to_nat BSIZE → step own s i own (put_sect b buf s).
Proof.
  intros H Hb Hl. pose proof (im_own _ _ H _ _ Hb). split.
  - apply put_sect_ok; [done|lia|done].
  - intros j Hj. by eapply put_sect_untouched.
  - intros b' Hb'. cbn. by rewrite (proj2 (Z.eqb_neq _ _)) by lia.
  - done.
  - intros b' j k' Hb'. by right.
Qed.

(** The blocks of a file of [a] blocks: one more for the indirect block. *)
Definition need (a : Z) : Z := a + (if NDIRECT <? a then 1 else 0).

Definition grown own s (i : Z) e (a : Z) (data : list Z) own' s' e' : Prop :=
  step own s i own' s' ∧ (∃ l, e' = set_iaddrs l e) ∧ mk_file own' s' i e' (NDIRECT <? a) a data.

Lemma runs_next own s i k Q :
  image_ok own s → freeblock s < FSSIZE → (∀ own' s', takes own s i k own' s' → step own s i own' s' → Q (freeblock s) s') → runs next_block s Q.
Proof. intros H Hf HQ. eapply (runs_next_block own s i k); [done|]. intros own' s' Ht. apply (HQ own'); [done|]. by eapply step_takes. Qed.

Lemma mf_slot own s i e h a data k : mk_file own s i e h a data → 0 ≤ k < a → own (blk (disk s) e k) = Some (i, k).
Proof. intros H Hk. pose proof (mf_range _ _ _ _ _ _ _ H). pose proof (mf_blk _ _ _ _ _ _ _ H k ltac:(lia)) as Hb. by rewrite decide_True in Hb by lia. Qed.

Lemma mf_slot_range own s i e h a data k : image_ok own s → mk_file own s i e h a data → 0 ≤ k < a → 46 ≤ blk (disk s) e k < freeblock s.
Proof. intros Him H Hk. exact (im_own _ _ Him _ _ (mf_slot _ _ _ _ _ _ _ _ H Hk)). Qed.

Lemma blk_direct C e k : k < NDIRECT → blk C e k = aget (i_addrs e) k.
Proof. intros H. unfold FsMap.blk. by rewrite (proj2 (Z.ltb_lt _ _)) by done. Qed.

Lemma xint_block own s b : image_ok own s → 0 ≤ b ≤ freeblock s → xint b = b.
Proof. intros H Hb. pose proof (im_free46 _ _ H). apply xint_small. lia. Qed.

Lemma runs_block_direct own s i e a data fbn Q :
  image_ok own s → mk_file own s i e (NDIRECT <? a) a data → fbn < NDIRECT → 0 ≤ fbn → fbn = a - 1 ∨ fbn = a →
  freeblock s + need (fbn + 1) - need a ≤ FSSIZE →
  (∀ own' s' e', grown own s i e (fbn + 1) data own' s' e' → freeblock s' = freeblock s + need (fbn + 1) - need a →
     Q (e', blk (disk s') e' fbn) s') → runs (file_block e fbn) s Q.
Proof.
  intros Him Hm Hn H0 Ha Hf HQ. unfold file_block, need in *. change NDIRECT with 12 in *. rewrite (proj2 (Z.ltb_lt _ _)) by done.
  assert ((12 <? a) = false) as E1 by lia. assert ((12 <? fbn + 1) = false) as E2 by lia. rewrite E1 in *. rewrite E2 in *.
  pose proof (im_free46 _ _ Him). destruct Ha as [Ha| ->].
  - pose proof (mf_slot_range _ _ _ _ _ _ _ fbn Him Hm ltac:(lia)) as Hr. rewrite blk_direct in Hr by done.
    rewrite (proj2 (Z.eqb_neq _ 0)) by lia. kstep. kstep. kstep. rewrite (xint_block own s) by (done || lia). rewrite <- (blk_direct (disk s)) by done.
    apply (HQ own); [|lia]. split; [by apply step_refl|]. split; [exists (i_addrs e); by destruct e|].
    change NDIRECT with 12. rewrite E2. by replace (fbn + 1) with a by lia.
  - pose proof (mf_blk _ _ _ _ _ _ _ Hm a ltac:(change MAXFILE with 268; lia)) as E. rewrite decide_False, blk_direct in E by (done || lia). rewrite E. change (0 =? 0) with true. cbn iota.
    kstep. kstep. eapply (runs_next own s i a); [done|lia|]. intros own' s' Ht Hs. kstep. kstep.
    pose proof (take_direct _ _ _ _ _ _ _ _ Him Hm Hn Ht) as Hm'. rewrite !(xint_block own s) by (done || lia).
    rewrite <- (blk_direct (disk s')) by done. assert (xint (blk (disk s') (set_iaddrs (aset (i_addrs e) a (freeblock s)) e) a) = blk (disk s') (set_iaddrs (aset (i_addrs e) a (freeblock s)) e) a) as ->.
    { apply (xint_block own' s'); [apply Hs|]. pose proof (mf_slot_range _ _ _ _ _ _ _ a (st_ok _ _ _ _ _ Hs) Hm' ltac:(lia)). lia. }
    apply (HQ own'); [|destruct Ht as [_ ->]; cbn; lia]. split; [done|]. split; [by eexists|]. change NDIRECT with 12. by rewrite E2.
Qed.

Lemma runs_get_indirect own s i e a data Q :
  image_ok own s → mk_file own s i e (NDIRECT <? a) a data → NDIRECT ≤ a → (a = NDIRECT → freeblock s < FSSIZE) →
  (∀ own' s' l, let e' := set_iaddrs l e in step own s i own' s' → mk_file own' s' i e' true a data →
     freeblock s' = freeblock s + (if a =? NDIRECT then 1 else 0) → Q e' s') →
  runs (if aget (i_addrs e) NDIRECT =? 0 then b ← next_block; mret (set_iaddrs (aset (i_addrs e) NDIRECT (xint b)) e) else mret e) s Q.
Proof.
  intros Him Hm Ha Hf HQ. fold (indirect e). pose proof (mf_ind _ _ _ _ _ _ _ Hm) as Hi.
  destruct (Z.ltb_spec NDIRECT a) as [Hlt|Hge].
  - apply (im_own _ _ Him) in Hi as Hr. change nmeta with 46 in Hr. rewrite (proj2 (Z.eqb_neq _ 0)) by lia. kstep.
    specialize (HQ own s (i_addrs e)). replace (set_iaddrs (i_addrs e) e) with e in HQ by by destruct e.
    apply HQ; [by apply step_refl|done|]. rewrite (proj2 (Z.eqb_neq _ _)) by lia. lia.
  - rewrite Hi. change (0 =? 0) with true. cbn iota. kstep. eapply (runs_next own s i MAXFILE); [done|apply Hf; lia|]. intros own' s' Ht Hs. kstep.
    pose proof (im_free46 _ _ Him). rewrite (xint_block own s) by (done || lia). apply (HQ own'); [done|by eapply take_indirect|].
    rewrite (proj2 (Z.eqb_eq _ _)) by lia. by destruct Ht as [_ ->].
Qed.

Lemma runs_block_indirect own s i e a data fbn Q :
  image_ok own s → mk_file own s i e (NDIRECT <? a) a data → NDIRECT ≤ fbn < MAXFILE → fbn = a - 1 ∨ fbn = a →
  freeblock s + need (fbn + 1) - need a ≤ FSSIZE →
  (∀ own' s' e', grown own s i e (fbn + 1) data own' s' e' → freeblock s' = freeblock s + need (fbn + 1) - need a →
     Q (e', blk (disk s') e' fbn) s') → runs (file_block e fbn) s Q.
Proof.
  intros Him Hm Hn Ha Hf HQ. unfold file_block. rewrite (proj2 (Z.ltb_ge fbn _)) by lia. kstep.
  eapply runs_get_indirect; [done|done|lia|intros Ea; unfold need in Hf; change NDIRECT with 12 in *; change FSSIZE with 2000 in *; repeat case_match; lia|].
  intros own1 s1 l e' Hs1 Hm1 Ef1. pose proof (st_ok _ _ _ _ _ Hs1) as Him1. pose proof (im_free46 _ _ Him1) as Hf1.
  pose proof (mf_ind _ _ _ _ _ _ _ Hm1) as Hi. cbn iota in Hi. pose proof (im_own _ _ Him1 _ _ Hi) as Hir. change nmeta with 46 in Hir.
  assert (xint (aget (i_addrs e') NDIRECT) = indirect e') as -> by (apply (xint_block own1 s1); [done|unfold indirect in *; lia]).
  kstep. eapply runs_rsect; [done|change FSSIZE with 2000; lia|].
  assert (ind_get (mk_img s1 (indirect e')) (fbn - NDIRECT) = blk (disk s1) e' fbn) as Eb.
  { unfold FsMap.blk. rewrite (proj2 (Z.ltb_ge _ _)), (proj2 (Z.eqb_neq _ 0)) by lia. done. }
  rewrite Eb. change MAXFILE with 268 in *. destruct Ha as [Ha| ->].
  - pose proof (mf_slot_range _ _ _ _ _ _ _ fbn Him1 Hm1 ltac:(change NDIRECT with 12 in *; lia)) as Hr. rewrite (proj2 (Z.eqb_neq _ 0)) by lia. kstep.
    rewrite (xint_block own1 s1) by (done || lia). apply (HQ own1).
    + split; [done|]. split; [by exists l|]. rewrite (proj2 (Z.ltb_lt _ _)) by lia. by replace (fbn + 1) with a by lia.
    + rewrite Ef1, (proj2 (Z.eqb_neq _ _)) by lia. replace (fbn + 1) with a by lia. lia.
  - pose proof (mf_blk _ _ _ _ _ _ _ Hm1 a ltac:(change NDIRECT with 12 in Hn; change MAXFILE with 268; lia)) as E. rewrite decide_False in E by lia. rewrite E. change (0 =? 0) with true. cbn iota. kstep.
    eapply (runs_next own1 s1 i a); [done| |]; change FSSIZE with 2000 in *.
    { unfold need in Hf. change NDIRECT with 12 in *. repeat case_match; lia. }
    intros own2 s2 Ht Hs2. pose proof (im_free46 _ _ (st_ok _ _ _ _ _ Hs2)). rewrite (xint_block own1 s1 (freeblock s1)) by (done || lia). set (nb := wr _ 4 _ _).
    pose proof (take_entry _ _ _ _ _ _ _ _ Him1 Hm1 Hn Ht) as Hm2. cbn zeta in Hm2. fold nb in Hm2.
    pose proof (st_ok _ _ _ _ _ Hs2) as Him2. kstep. eapply runs_wsect; [done|change FSSIZE with 2000; lia|]. kstep.
    assert (own2 (indirect e') = Some (i, MAXFILE)) as Hi2 by by eapply (takes_untouched _ _ _ _ _ _ i Him1 Ht).
    assert (length nb = Z.to_nat BSIZE) as Hnb by (unfold nb; rewrite length_wr; [apply (im_blk _ _ Him1)|change NDIRECT with 12 in *; lia..|unfold alen; rewrite (im_blk _ _ Him1); change NDIRECT with 12 in *; unfold BSIZE; lia]).
    pose proof (step_put _ _ _ _ _ nb Him2 Hi2 Hnb) as Hs3. pose proof (mf_slot_range _ _ _ _ _ _ _ a (st_ok _ _ _ _ _ Hs3) Hm2 ltac:(change NDIRECT with 12 in *; lia)) as Hr.
    assert (ind_get nb (a - NDIRECT) = blk (disk (put_sect (indirect e') nb s2)) e' a) as Eb'.
    { unfold FsMap.blk. rewrite (proj2 (Z.ltb_ge _ _)), (proj2 (Z.eqb_neq _ 0)) by lia. rewrite disk_at. cbn [mk_img put_sect set_img]. by rewrite Z.eqb_refl. }
    rewrite Eb', (xint_block own2 (put_sect (indirect e') nb s2)) by (done || apply Hs3 || lia). apply (HQ own2).
    + split; [eapply step_trans; [exact Hs1|eapply step_trans; [exact Hs2|exact Hs3]]|]. split; [by exists l|]. by rewrite (proj2 (Z.ltb_lt _ _)) by lia.
    + destruct Ht as [_ ->]. cbn. rewrite Ef1. unfold need. change NDIRECT with 12 in *. repeat case_match; lia.
Qed.

Lemma runs_file_block own s i e a data fbn Q :
  image_ok own s → mk_file own s i e (NDIRECT <? a) a data → 0 ≤ fbn < MAXFILE → fbn = a - 1 ∨ fbn = a →
  freeblock s + need (fbn + 1) - need a ≤ FSSIZE →
  (∀ own' s' e', grown own s i e (fbn + 1) data own' s' e' → freeblock s' = freeblock s + need (fbn + 1) - need a →
     Q (e', blk (disk s') e' fbn) s') → runs (file_block e fbn) s Q.
Proof.
  intros Him Hm Hn Ha Hf HQ. destruct (Z.ltb_spec fbn NDIRECT); [eapply runs_block_direct; (done || lia)|eapply runs_block_indirect; (done || lia)].
Qed.

(** ** Appending bytes *)

Lemma aget_splice_in o (bs d : list Z) j : 0 ≤ o → o + alen bs ≤ alen d → o ≤ j < o + alen bs → aget (splice (Z.to_nat o) bs d) j = aget bs (j - o).
Proof.
  intros. unfold alen in *. unfold aget. rewrite !list_lookup_total_alt, splice_lookup by lia. rewrite decide_True by lia. do 2 f_equal. lia.
Qed.
Lemma aget_splice_out o (bs d : list Z) j : 0 ≤ o → o + alen bs ≤ alen d → 0 ≤ j → j < o ∨ o + alen bs ≤ j → aget (splice (Z.to_nat o) bs d) j = aget d j.
Proof.
  intros. unfold alen in *. unfold aget. rewrite !list_lookup_total_alt, splice_lookup by lia. by rewrite decide_False by lia.
Qed.
Lemma aget_nth (l : list Z) j : 0 ≤ j < alen l → aget l j = nth (Z.to_nat j) l 0.
Proof.
  intros H. unfold alen in H. apply aget_lookup. destruct (lookup_lt_is_Some_2 l (Z.to_nat j) ltac:(lia)) as [v Hv]. rewrite Hv.
  f_equal. symmetry. by apply nth_lookup_Some.
Qed.

Lemma mk_file_put own s i e h fbn data bs :
  image_ok own s → mk_file own s i e h (fbn + 1) data → fbn = alen data / BSIZE → alen data + alen bs ≤ (fbn + 1) * BSIZE →
  let x := blk (disk s) e fbn in
  mk_file own (put_sect x (splice (Z.to_nat (alen data - fbn * BSIZE)) bs (mk_img s x)) s) i e h (fbn + 1) (data ++ bs).
Proof.
  intros Him Hm Hfbn Hle x. pose proof Hm as [H1 H2 H3 H4 H5 H6]. set (s' := put_sect _ _ s). assert (0 ≤ alen data) as Hd by (unfold alen; lia).
  assert (0 ≤ fbn) as H0 by (subst fbn; unfold BSIZE; dlia). assert (alen (mk_img s x) = BSIZE) as Hx by (unfold alen; rewrite (im_blk _ _ Him); done).
  assert (alen (data ++ bs) = alen data + alen bs) as Hl by (unfold alen; rewrite length_app; lia). assert (0 ≤ alen bs) as Hbs by (unfold alen; lia).
  pose proof (mf_slot _ _ _ _ _ _ _ fbn Hm ltac:(lia)) as Hox. fold x in Hox.
  assert (∀ b, b ≠ x → mk_img s' b = mk_img s b) as Hne by (intros b Hb; cbn; by rewrite (proj2 (Z.eqb_neq _ _)) by done).
  assert (∀ k, blk (disk s') e k = blk (disk s) e k) as Hb.
  { intros k. apply blk_same. intros Hi. rewrite !disk_at. apply Hne. destruct h; [|done]. apply not_eq_sym, (slots_ne _ _ _ _ _ _ _ _ Hm); [lia|done]. }
  split; try done.
  - by rewrite Hl.
  - intros k Hk. rewrite Hb. by apply H4.
  - intros off Hoff. assert (0 ≤ off / BSIZE < fbn + 1) as Hk by (unfold BSIZE in *; dlia). specialize (H6 off Hoff). unfold FsFile.fbyte in *. rewrite Hb, disk_at in *.
    destruct (decide (off / BSIZE = fbn)) as [E|E].
    + rewrite E in *. fold x in H6 |- *. assert (mk_img s' x = splice (Z.to_nat (alen data - fbn * BSIZE)) bs (mk_img s x)) as -> by (cbn; by rewrite Z.eqb_refl).
      destruct (decide (alen data ≤ off < alen data + alen bs)) as [Hin|Hout].
      * rewrite aget_splice_in by (unfold BSIZE in *; dlia). rewrite aget_nth by (unfold BSIZE in *; dlia). unfold alen in *. rewrite app_nth2 by lia. f_equal. unfold BSIZE in *. dlia.
      * rewrite aget_splice_out by (unfold BSIZE in *; dlia). rewrite H6. unfold alen in *. destruct (decide (off < Z.of_nat (length data))); [by rewrite app_nth1 by lia|].
        rewrite !nth_overflow by (rewrite ?length_app; lia). done.
    + rewrite Hne, H6. { unfold alen in *. rewrite app_nth1; [done|]. unfold BSIZE in *. dlia. }
      intros Ex. specialize (H4 (off / BSIZE) ltac:(lia)). rewrite decide_True in H4 by lia. rewrite Ex, Hox in H4. by injection H4.
Qed.

Definition nblk (n : Z) : Z := (n + BSIZE - 1) / BSIZE.

Lemma need_mono a b : a ≤ b → need a ≤ need b.
Proof. intros H. unfold need. destruct (Z.ltb_spec NDIRECT a), (Z.ltb_spec NDIRECT b); lia. Qed.
Lemma nblk_mono a b : a ≤ b → nblk a ≤ nblk b.
Proof. intros H. unfold nblk, BSIZE. dlia. Qed.
End MkfsProof.
