(* ===== verification/MkfsInv.v ===== *)
(** * The files of an image under construction

    [mk_inv own s T]: the image holds the files of [T] — the [k]th is inode [k + 1], with its type
    and its bytes — and nothing else.  [ialloc] adds an empty file, [iappend] adds bytes to one. *)

From S2P Require Import Prelude Memory Riscv Spinlock Core CString Kalloc Vm Sleeplock BufCache Log Crash LogProof LogSafety Sys Fs FsBlock FsMap FsFile FsSpec FsDir Mkfs MkfsProof.

(** The inode on the disk. *)
Definition dinode_at (s : mk_st) (inum : Z) : inode := dinode_load (dinode_off inum) (mk_img s (IBLOCK inum sb)) inode0.
Definition put_inode (inum : Z) (e : inode) (s : mk_st) : mk_st :=
  put_sect (IBLOCK inum sb) (dinode_store (dinode_off inum) e (mk_img s (IBLOCK inum sb))) s.

(** The inodes that fit in the inode blocks. *)
Definition inum_ok (inum : Z) : Prop := 0 ≤ inum < 208.

Lemma iblock_eq inum : inum_ok inum → IBLOCK inum sb = inum / 16 + 32 ∧ 32 ≤ IBLOCK inum sb < 45.
Proof.
  intros [H1 H2]. unfold IBLOCK. change (sb_inodestart sb) with 32. change IPB with 16. rewrite u32_small by dlia. dlia.
Qed.
Lemma dinode_off_eq inum : dinode_off inum = (inum mod 16) * 64.
Proof. done. Qed.

Section Inodes.
Context (own : Z → option (Z * Z)) (s : mk_st) (Him : image_ok own s).

Lemma runs_rinode inum Q : inum_ok inum → Q (dinode_at s inum) s → runs (rinode inum) s Q.
Proof using Him.
  intros Hi HQ. destruct (iblock_eq inum Hi) as [_ Hb]. unfold rinode. kstep. eapply runs_rsect; [done|change FSSIZE with 2000; lia|]. by kstep.
Qed.

Lemma iblock_len inum : alen (mk_img s (IBLOCK inum sb)) = 1024.
Proof using Him. unfold alen. rewrite (im_blk _ _ Him). done. Qed.

Lemma put_inode_ok inum e : inum_ok inum → alen (i_addrs e) = NDIRECT + 1 → image_ok own (put_inode inum e s).
Proof using Him.
  intros Hi Ha. destruct (iblock_eq inum Hi) as [_ Hb]. pose proof (im_free46 _ _ Him). pose proof (iblock_len inum) as Hl.
  apply put_sect_ok; [done|lia|]. rewrite dinode_off_eq, dinode_store_splice by (done || unfold DINODE; dlia).
  pose proof (length_dinode_bytes e Ha) as Hd. unfold alen, DINODE in *. rewrite length_splice by dlia. unfold BSIZE. lia.
Qed.

Lemma runs_winode inum e Q : inum_ok inum → Q tt (put_inode inum e s) → runs (winode inum e) s Q.
Proof using Him.
  intros Hi HQ. destruct (iblock_eq inum Hi) as [_ Hb]. unfold winode. kstep. eapply runs_rsect; [done|change FSSIZE with 2000; lia|].
  eapply runs_wsect; [done|change FSSIZE with 2000; lia|]. done.
Qed.

Lemma put_inode_img inum e b : inum_ok inum → b ≠ IBLOCK inum sb → mk_img (put_inode inum e s) b = mk_img s b.
Proof. intros Hi Hb. cbn. by rewrite (proj2 (Z.eqb_neq _ _)). Qed.

Lemma put_inode_eq inum e : inum_ok inum → clean e → dinode_at (put_inode inum e s) inum = e.
Proof using Him.
  intros Hi He. pose proof (iblock_len inum) as Hl. assert (alen (i_addrs e) = NDIRECT + 1) as Ha by by destruct He as (_ & _ & _ & _ & _ & _ & ? & _).
  unfold dinode_at. cbn [mk_img put_inode put_sect set_img]. rewrite Z.eqb_refl, dinode_off_eq, dinode_store_splice by (done || unfold DINODE; dlia).
  rewrite load_splice by (first [by apply length_dinode_bytes | unfold DINODE; dlia]). by apply load_bytes.
Qed.

Lemma put_inode_ne inum e j :
  inum_ok inum → inum_ok j → alen (i_addrs e) = NDIRECT + 1 → j ≠ inum → dinode_at (put_inode inum e s) j = dinode_at s j.
Proof using Him.
  intros Hi Hj Ha Hne. pose proof (iblock_len inum) as Hl. unfold dinode_at. cbn [mk_img put_inode put_sect set_img].
  destruct (Z.eqb_spec (IBLOCK j sb) (IBLOCK inum sb)) as [E|]; [|done]. rewrite E, !dinode_off_eq, dinode_store_splice by (done || unfold DINODE; dlia).
  destruct (iblock_eq inum Hi) as [E1 _]. destruct (iblock_eq j Hj) as [E2 _].
  rewrite load_other; [done|dlia|dlia|by apply length_dinode_bytes|unfold DINODE; dlia|unfold DINODE; dlia].
Qed.
End Inodes.

Section MkfsInv.
Context (dev : Z).
Abbreviation owner := (Z → option (Z * Z)).
Abbreviation table := (list (Z * list Z)).
Implicit Types (s : mk_st) (own : owner) (e : inode) (T : table).
Abbreviation mk_file := (mk_file dev).
Abbreviation grown := (grown dev).

Definition blocks (data : list Z) : Z := nblk (alen data).
Definition on_disk own s (i : Z) e (data : list Z) : Prop := mk_file own s i e (NDIRECT <? blocks data) (blocks data) data.

Fixpoint total T : Z := match T with [] => 0 | f :: T => need (blocks f.2) + total T end.

Record inv_file own s (i : Z) (f : Z * list Z) : Prop := {
  if_clean : clean (dinode_at s i);
  if_type : i_type (dinode_at s i) = f.1;
  if_size : i_size (dinode_at s i) = alen f.2;
  if_data : on_disk own s i (dinode_at s i) f.2;
}.

Record mk_inv own s T : Prop := {
  mi_image : image_ok own s;
  mi_count : freeinode s = alen T + 1 ∧ alen T < 207;
  mi_file : ∀ k f, T !! k = Some f → inv_file own s (Z.of_nat k + 1) f;
  mi_own : ∀ b j k, own b = Some (j, k) → 1 ≤ j ≤ alen T;
  mi_free : ∀ j, alen T < j → inum_ok j → dinode_at s j = inode0;
  mi_total : freeblock s = nmeta + total T;
  mi_boot : ∀ b, b < 32 → mk_img s b = if b =? 1 then splice 0 (sb_bytes sb) zeroes else zeroes;
}.

Lemma blocks_step data bs : bs ≠ [] → alen data + alen bs ≤ (alen data / BSIZE + 1) * BSIZE → blocks (data ++ bs) = alen data / BSIZE + 1.
Proof.
  intros Hne H. unfold blocks, nblk. assert (alen (data ++ bs) = alen data + alen bs) as -> by (unfold alen; rewrite length_app; lia).
  assert (0 < alen bs) by (destruct bs; [done|unfold alen; cbn; lia]). assert (0 ≤ alen data) by (unfold alen; lia). unfold BSIZE in *. dlia.
Qed.
Lemma blocks_last data : let fbn := alen data / BSIZE in fbn = blocks data - 1 ∨ fbn = blocks data.
Proof. cbn. unfold blocks, nblk, BSIZE. assert (0 ≤ alen data) by (unfold alen; lia). dlia. Qed.
Lemma blocks_prefix data bs : blocks data ≤ blocks (data ++ bs).
Proof. unfold blocks. apply nblk_mono. unfold alen. rewrite length_app. lia. Qed.
Lemma blocks_max data : alen data ≤ MAXFILE * BSIZE → 0 ≤ blocks data ≤ MAXFILE.
Proof. intros H. unfold blocks, nblk. assert (0 ≤ alen data) by (unfold alen; lia). change MAXFILE with 268 in *. unfold BSIZE in *. dlia. Qed.

(** One block's worth of [iappend]. *)
Definition iappend_body (st : inode * Z * list Z) : MK ((inode * Z * list Z) + (inode * Z)) :=
  let '(din, off, p) := st in
  if alen p <=? 0 then mret (inr (din, off)) else
  let fbn := off / BSIZE in
  if negb (fbn <? MAXFILE) then panic "assert"%string else
  '(din, x) ← file_block din fbn;
  let n1 := Z.min (alen p) ((fbn + 1) * BSIZE - off) in
  buf ← rsect x;
  wsect x (splice (Z.to_nat (off - fbn * BSIZE)) (take (Z.to_nat n1) p) buf);;
  mret (inl (din, u32 (off + n1), drop (Z.to_nat n1) p)).

Definition extended own s (i : Z) e (data : list Z) own' s' e' (data' : list Z) : Prop :=
  grown own s i e (blocks data') data' own' s' e' ∧ freeblock s' = freeblock s + need (blocks data') - need (blocks data).

Lemma runs_iappend_body own s i e data data1 own1 s1 e1 p Q :
  extended own s i e data own1 s1 e1 data1 → alen (data1 ++ p) ≤ MAXFILE * BSIZE →
  freeblock s + need (blocks (data1 ++ p)) - need (blocks data) ≤ FSSIZE →
  (p = [] → Q (inr (e1, alen data1)) s1) →
  (∀ own2 s2 e2 q p', p = q ++ p' → q ≠ [] → extended own s i e data own2 s2 e2 (data1 ++ q) → Q (inl (e2, alen (data1 ++ q), p')) s2) →
  runs (iappend_body (e1, alen data1, p)) s1 Q.
Proof.
  intros [(Hs & [l El] & Hm) Ef] Hmax Hfree HQ0 HQ. unfold iappend_body. destruct (Z.leb_spec (alen p) 0) as [Hp|Hp].
  { kstep. apply HQ0. destruct p; [done|]. unfold alen in Hp. cbn in Hp. lia. }
  assert (0 ≤ alen data1) as H0 by (unfold alen; lia). assert (alen (data1 ++ p) = alen data1 + alen p) as El' by (unfold alen; rewrite length_app; lia).
  set (fbn := alen data1 / BSIZE). set (n1 := Z.min _ _). set (q := take (Z.to_nat n1) p). pose proof (st_ok _ _ _ _ _ Hs) as Him.
  assert (0 ≤ fbn < MAXFILE) as Hfbn by (unfold fbn; change MAXFILE with 268 in *; unfold BSIZE in *; dlia).
  assert (0 < n1 ≤ alen p ∧ alen data1 + n1 ≤ (fbn + 1) * BSIZE) as Hn1 by (unfold n1, fbn, BSIZE in *; dlia).
  assert (alen q = n1) as Hq by (unfold q, alen in *; rewrite length_take; lia). assert (q ≠ []) as Hqn by (intros E; rewrite E in Hq; unfold alen in Hq; cbn in Hq; lia).
  pose proof (blocks_step data1 q Hqn ltac:(rewrite Hq; lia)) as Eb. fold fbn in Eb.
  assert (need (fbn + 1) ≤ need (blocks (data1 ++ p))) as Hnm.
  { apply need_mono. rewrite <- Eb. replace (data1 ++ p) with ((data1 ++ q) ++ drop (Z.to_nat n1) p) by (unfold q; by rewrite <- app_assoc, take_drop). apply blocks_prefix. }
  rewrite (proj2 (Z.ltb_lt fbn MAXFILE)) by lia. cbn [negb]. kstep. eapply runs_file_block; [done|exact Hm|done|apply blocks_last|lia|].
  intros own2 s2 e2 (Hs2 & [l2 El2] & Hm2) Ef2. kstep. pose proof (st_ok _ _ _ _ _ Hs2) as Him2.
  pose proof (mf_slot_range _ _ _ _ _ _ _ _ fbn Him2 Hm2 ltac:(lia)) as Hr. pose proof (im_free46 _ _ Him2).
  eapply runs_rsect; [done|change FSSIZE with 2000; lia|]. kstep. eapply runs_wsect; [done|change FSSIZE with 2000; lia|]. kstep.
  rewrite u32_small by (change MAXFILE with 268 in *; unfold BSIZE in *; lia).
  replace (alen data1 + n1) with (alen (data1 ++ q)) by (rewrite <- Hq; unfold alen; rewrite length_app; lia).
  eapply (HQ own2); [unfold q; by rewrite take_drop|done|].
  pose proof (mk_file_put _ _ _ _ _ _ _ _ q Him2 Hm2 eq_refl ltac:(rewrite Hq; fold fbn; lia)) as Hm3.
  pose proof (mf_slot _ _ _ _ _ _ _ _ fbn Hm2 ltac:(lia)) as Ho. set (s3 := put_sect _ _ s2) in *.
  assert (step own2 s2 i own2 s3) as Hs3.
  { eapply step_put; [done|exact Ho|]. unfold alen in *. rewrite length_splice; rewrite (im_blk _ _ Him2); [done|]. unfold fbn, BSIZE in *. dlia. }
  split; [split; [eapply step_trans; [exact Hs|]; by eapply step_trans|]; split; [|rewrite Eb; exact Hm3]|rewrite Eb; cbn; lia].
  subst e2 e1. eexists. reflexivity.
Qed.

Lemma runs_iappend_loop own s i e data xp Q :
  image_ok own s → on_disk own s i e data → alen (data ++ xp) ≤ MAXFILE * BSIZE →
  freeblock s + need (blocks (data ++ xp)) - need (blocks data) ≤ FSSIZE →
  (∀ own' s' e', extended own s i e data own' s' e' (data ++ xp) → Q (e', alen (data ++ xp)) s') →
  runs (loop (length xp + 1) iappend_body (e, alen data, xp)) s Q.
Proof.
  intros Him Hm Hmax Hfree HQ.
  apply (runs_loop _ (λ '(e1, off, p) s1, ∃ own1 data1, extended own s i e data own1 s1 e1 data1 ∧ off = alen data1 ∧ data1 ++ p = data ++ xp)
    (λ '(_, _, p) _, length p)).
  - intros [[e1 off] p] s1 (own1 & data1 & He & -> & Ep). eapply runs_iappend_body; [exact He|by rewrite Ep|by rewrite Ep| |].
    + intros ->. rewrite app_nil_r in Ep. subst data1. by eapply HQ.
    + intros own2 s2 e2 q p' -> Hq H2. split; [exists own2, (data1 ++ q); split; [done|]; split; [done|by rewrite <- app_assoc]|].
      destruct q; [done|]. rewrite length_app. cbn. lia.
  - exists own, data. split; [|done]. split; [|lia]. split; [by apply step_refl|]. split; [exists (i_addrs e); by destruct e|done].
  - lia.
Qed.

(** The addresses of an inode are block numbers. *)
Lemma mk_file_addr own s i e h a data k : image_ok own s → mk_file own s i e h a data → 0 ≤ k ≤ NDIRECT → 0 ≤ aget (i_addrs e) k < 2 ^ 32.
Proof.
  intros Him Hm Hk. pose proof (im_free46 _ _ Him). destruct (decide (k = NDIRECT)) as [->|Hne].
  - fold (indirect e). pose proof (mf_ind _ _ _ _ _ _ _ _ Hm) as Hi. destruct h; [|lia]. apply (im_own _ _ Him) in Hi. change nmeta with 46 in Hi. lia.
  - pose proof (mf_blk _ _ _ _ _ _ _ _ Hm k ltac:(change MAXFILE with 268; change NDIRECT with 12 in *; lia)) as Hb. rewrite blk_direct in Hb by lia.
    case_decide; [|lia]. apply (im_own _ _ Him) in Hb. change nmeta with 46 in Hb. lia.
Qed.

Lemma mk_file_same own s i e e' h a data : mk_file own s i e h a data → i_addrs e' = i_addrs e → mk_file own s i e' h a data.
Proof.
  intros [H1 H2 H3 H4 H5 H6] E. assert (∀ k, blk dev (disk s) e' k = blk dev (disk s) e k) as Hb by (intros k; unfold blk, indirect; by rewrite E).
  split; try done; [by rewrite E|intros k Hk; rewrite Hb; by apply H4|unfold indirect in *; by rewrite E|].
  intros off Hoff. unfold fbyte. rewrite Hb. by apply H6.
Qed.

Lemma total_insert T k f f' : T !! k = Some f → total (<[k := f']> T) = total T - need (blocks f.2) + need (blocks f'.2).
Proof.
  revert k. induction T as [|g T IH]; intros [|k] Hk; try done; cbn in Hk.
  - injection Hk as ->. cbn. lia.
  - change (<[S k := f']> (g :: T)) with (g :: <[k := f']> T). cbn [total]. rewrite (IH k Hk). lia.
Qed.
Lemma total_app T T' : total (T ++ T') = total T + total T'.
Proof. induction T as [|g T IH]; [done|]. cbn. rewrite IH. lia. Qed.

Lemma inode_metadata own s i e : image_ok own s → inum_ok i → ∀ b, nmeta ≤ b ∨ b < 32 → mk_img (put_inode i e s) b = mk_img s b.
Proof. intros Him Hi b Hb. destruct (iblock_eq i Hi). change nmeta with 46 in Hb. apply put_inode_img; [done|lia]. Qed.

(** An inode written changes no file's bytes. *)
Lemma put_inode_untouched own s i e j : image_ok own s → inum_ok i → untouched own s own (put_inode i e s) j.
Proof.
  intros Him Hi b k Hb. split; [done|]. apply (inode_metadata own); try done. left. by eapply im_own.
Qed.

Lemma dinode_at_step own s i own' s' j : step own s i own' s' → inum_ok j → dinode_at s' j = dinode_at s j.
Proof. intros Hs Hj. unfold dinode_at. destruct (iblock_eq j Hj). rewrite (st_meta _ _ _ _ _ Hs); [done|]. change nmeta with 46. lia. Qed.

(** A step on behalf of inode [i], whose inode is then written. *)
Lemma mk_inv_put own s T k f own' s' e' f' :
  mk_inv own s T → T !! k = Some f → let i := Z.of_nat k + 1 in
  step own s i own' s' → clean e' → i_type e' = f'.1 → i_size e' = alen f'.2 → on_disk own' s' i e' f'.2 →
  freeblock s' = freeblock s + need (blocks f'.2) - need (blocks f.2) → mk_inv own' (put_inode i e' s') (<[k := f']> T).
Proof.
  intros [H1 [H2 H2'] H3 H4 H5 H6 H7] Hk i Hs Hc Ht Hsz Hd Hf. pose proof (st_ok _ _ _ _ _ Hs) as Him.
  assert (k < length T)%nat as Hlt by (by eapply lookup_lt_Some). assert (alen (<[k := f']> T) = alen T) as El by (unfold alen; by rewrite length_insert).
  assert (inum_ok i) as Hi by (unfold inum_ok, i, alen in *; lia). assert (alen (i_addrs e') = NDIRECT + 1) as Ha by by destruct Hc as (_ & _ & _ & _ & _ & _ & ? & _).
  assert (∀ j, inum_ok j → j ≠ i → dinode_at (put_inode i e' s') j = dinode_at s j) as Hoth.
  { intros j Hj Hne. rewrite (put_inode_ne own') by done. by eapply dinode_at_step. }
  split.
  - by apply put_inode_ok.
  - rewrite El. cbn. by rewrite (st_inode _ _ _ _ _ Hs).
  - intros k' g Hg. destruct (decide (k' = k)) as [->|Hne].
    + rewrite list_lookup_insert_eq in Hg by done. injection Hg as <-. fold i.
      split; rewrite (put_inode_eq own') by done; try done. eapply mk_file_frame; [exact Hd|by apply put_inode_untouched].
    + rewrite list_lookup_insert_ne in Hg by done. pose proof (lookup_lt_Some _ _ _ Hg). pose proof (H3 k' g Hg) as [F1 F2 F3 F4].
      assert (Z.of_nat k' + 1 ≠ i) by (unfold i; lia).
      split; rewrite Hoth by (done || unfold inum_ok, alen in *; lia); try done.
      eapply mk_file_frame; [eapply mk_file_frame; [exact F4|by apply Hs]|by apply put_inode_untouched].
  - rewrite El. intros b j k' Hb. apply (st_new _ _ _ _ _ Hs) in Hb as [->|Hb]; [unfold i, alen; lia|by eapply H4].
  - rewrite El. intros j Hj Hok. rewrite Hoth by (done || unfold i, alen in *; lia). by apply H5.
  - cbn. rewrite Hf, (total_insert _ _ _ _ Hk). lia.
  - intros b Hb. rewrite (inode_metadata own') by (done || by right). rewrite (st_meta _ _ _ _ _ Hs) by (change nmeta with 46; lia). by apply H7.
Qed.

Lemma runs_iappend own s T k t data xp Q :
  mk_inv own s T → T !! k = Some (t, data) → alen (data ++ xp) ≤ MAXFILE * BSIZE → nmeta + total (<[k := (t, data ++ xp)]> T) ≤ FSSIZE →
  (∀ own' s', mk_inv own' s' (<[k := (t, data ++ xp)]> T) → Q tt s') → runs (iappend (Z.of_nat k + 1) xp) s Q.
Proof.
  intros Hinv Hk Hmax Hfree HQ. pose proof Hinv as [Him [_ Hct] Hfile _ _ Htot _]. destruct (Hfile k _ Hk) as [Fc Ft Fs Fd]. cbn [fst snd] in *.
  pose proof (lookup_lt_Some _ _ _ Hk) as Hlt. set (i := Z.of_nat k + 1) in *. assert (inum_ok i) as Hi by (unfold inum_ok, i, alen in *; lia).
  assert (0 ≤ alen data) as H0 by (unfold alen; lia). assert (alen (data ++ xp) = alen data + alen xp ∧ 0 ≤ alen xp) as [Ha Hx] by (unfold alen; rewrite length_app; lia).
  change MAXFILE with 268 in Hmax. change BSIZE with 1024 in Hmax.
  unfold iappend. kstep. eapply runs_rinode; [done|done|]. rewrite Fs, xint_small by lia. kstep.
  rewrite (total_insert _ _ _ _ Hk) in Hfree. cbn [snd] in Hfree.
  eapply (runs_iappend_loop own s i); [done|exact Fd|done|rewrite Htot; lia|]. intros own1 s1 e1 [(Hs & [l El] & Hm) Ef].
  rewrite xint_small by lia. eapply (runs_winode own1); [apply Hs|done|]. apply (HQ own1).
  eapply mk_inv_put; [done|done|exact Hs| | |done| |exact Ef]; cbn [fst snd].
  - destruct Fc as (E & C1 & C2 & C3 & C4 & C5 & C6 & C7). subst e1. cbn. split; [by rewrite E|]. do 4 (split; [done|]). split; [change (0 ≤ alen (data ++ xp) < 2 ^ 32); lia|].
    split; [apply (mf_addrs _ _ _ _ _ _ _ _ Hm)|]. intros k' Hk'. exact (mk_file_addr _ _ _ _ _ _ _ k' (st_ok _ _ _ _ _ Hs) Hm Hk').
  - by rewrite El.
  - by eapply mk_file_same.
Qed.

Definition empty_inode (t : Z) : inode := set_isize 0 (set_inlink 1 (set_itype t inode0)).

Lemma empty_clean t : t = T_DIR ∨ t = T_FILE → clean (empty_inode t).
Proof.
  intros Ht. split; [done|]. split; [done|]. do 3 (split; [done|]). split; [done|]. split; [done|]. intros k Hk.
  change (i_addrs (empty_inode t)) with (replicate 13 0). change NDIRECT with 12 in Hk. rewrite (aget_lookup _ _ 0); [done|]. apply lookup_replicate_2. lia.
Qed.

Lemma empty_file own s i t : mk_file own s i (empty_inode t) false 0 [].
Proof.
  split; cbn; try done.
  - intros k Hk. rewrite decide_False by lia. unfold blk. change (indirect (empty_inode t)) with 0. change (0 =? 0) with true. cbn iota.
    destruct (Z.ltb_spec k NDIRECT); [|done]. change (i_addrs (empty_inode t)) with (replicate 13 0). change NDIRECT with 12 in *. apply aget_lookup, lookup_replicate_2. lia.
  - intros off Hoff. lia.
Qed.

Lemma runs_ialloc own s T t Q :
  mk_inv own s T → alen T < 206 → t = T_DIR ∨ t = T_FILE →
  (∀ s', mk_inv own s' (T ++ [(t, [])]) → Q (alen T + 1) s') → runs (ialloc t) s Q.
Proof.
  intros Hinv Hn Ht HQ. pose proof Hinv as [Him [Hfi _] Hfile Hown Hfree Htot Hsb]. assert (0 ≤ alen T) as H0 by (unfold alen; lia).
  unfold ialloc. kstep. kstep. kstep. kstep. rewrite Hfi, u32_small by lia. set (i := alen T + 1). assert (inum_ok i) as Hi by (unfold inum_ok, i; lia). kstep.
  rewrite (xint_small 0), (xshort_small 1), (xshort_small t) by (unfold T_DIR, T_FILE in *; lia). fold (empty_inode t).
  set (s1 := set_freeinode (i + 1) s). assert (image_ok own s1) as Him1 by (destruct Him; by split).
  eapply (runs_winode own); [done|done|]. kstep. apply HQ.
  assert (alen (T ++ [(t, [])]) = i) as El by (unfold alen, i; rewrite length_app; unfold alen; cbn; lia).
  assert (∀ j, inum_ok j → j ≠ i → dinode_at (put_inode i (empty_inode t) s1) j = dinode_at s j) as Hoth by (intros j Hj Hne; by rewrite (put_inode_ne own)).
  assert (untouched own s own (put_inode i (empty_inode t) s1) = untouched own s1 own (put_inode i (empty_inode t) s1)) as Eu by done.
  split.
  - by apply put_inode_ok.
  - rewrite El. split; [done|unfold i; lia].
  - intros k f Hf. apply lookup_app_Some in Hf as [Hf|[Hlen Hf]].
    + pose proof (lookup_lt_Some _ _ _ Hf). pose proof (Hfile k f Hf) as [F1 F2 F3 F4].
      split; rewrite Hoth by (unfold inum_ok, i, alen in *; lia); try done. eapply mk_file_frame; [exact F4|]. rewrite Eu. by apply put_inode_untouched.
    + destruct (k - length T)%nat eqn:E; [|by destruct n]. injection Hf as <-. replace (Z.of_nat k + 1) with i by (unfold i, alen; lia).
      split; rewrite (put_inode_eq own) by (done || by apply empty_clean); try done; [by apply empty_clean|]. exact (empty_file own _ i t).
  - rewrite El. intros b j k Hb. apply Hown in Hb. unfold i. lia.
  - rewrite El. intros j Hj Hok. rewrite Hoth by (done || lia). apply Hfree; [unfold i in Hj; lia|done].
  - cbn. rewrite Htot, total_app. change (total [(t, [])]) with 0. lia.
  - intros b Hb. rewrite (inode_metadata own) by (done || by right). by apply Hsb.
Qed.
End MkfsInv.

(** * The image mkfs writes is the file system the kernel expects

    [mkfs_correct]: from the files' contents, in whatever pieces [read] returns them, [main] exits
    with 0 and leaves an image whose superblock, log, free map, inodes and root directory are
    the ones the kernel's file system relies on: every file is found by its name and holds its
    bytes, and exactly the blocks in use are marked.  [mkfs_root_full]: when the directory fills
    its last block the root's size goes one block past what it has. *)

(** The bytes of a file: what comes before [read] returns 0. *)
Fixpoint pieces (chunks : list (list Z)) : list Z :=
  match chunks with
  | [] => []
  | c :: chunks => if alen c <=? 0 then [] else c ++ pieces chunks
  end.

Definition arg_name (a : mk_arg) : list Z := drop_underscore (drop_user a.1).
Definition arg_data (a : mk_arg) : list Z := pieces (default [] a.2).
Definition arg_file (a : mk_arg) : Z * list Z := (T_FILE, arg_data a).

Definition arg_ok (a : mk_arg) : Prop := c_slash ∉ drop_user a.1 ∧ is_Some a.2 ∧ alen (arg_data a) ≤ MAXFILE * BSIZE.

(** The root directory: names and inode numbers, in order. *)
Definition dots : list (list Z * Z) := [([46], 1); ([46; 46], 1)].
Definition entries (args : list mk_arg) : list (list Z * Z) := dots ++ imap (λ k a, (arg_name a, Z.of_nat k + 2)) args.
Definition dir_bytes (l : list (list Z * Z)) : list Z := concat ((λ e, mk_dirent e.2 e.1) <$> l).
Definition mk_table (args : list mk_arg) : list (Z * list Z) := (T_DIR, dir_bytes (entries args)) :: (arg_file <$> args).

Section MkfsSpec.
Context (dev : Z).
Abbreviation owner := (Z → option (Z * Z)).
Abbreviation mk_inv := (mk_inv dev).
Implicit Types (s : mk_st) (own : owner) (e : inode).

Lemma total_mono_at T k t data bs : T !! k = Some (t, data) → total T ≤ total (<[k := (t, data ++ bs)]> T).
Proof. intros H. rewrite (total_insert _ _ _ _ H). cbn. pose proof (need_mono _ _ (blocks_prefix data bs)). lia. Qed.

Lemma runs_append_all own s T k t data chunks Q :
  mk_inv own s T → T !! k = Some (t, data) → alen (data ++ pieces chunks) ≤ MAXFILE * BSIZE →
  nmeta + total (<[k := (t, data ++ pieces chunks)]> T) ≤ FSSIZE →
  (∀ own' s', mk_inv own' s' (<[k := (t, data ++ pieces chunks)]> T) → Q tt s') → runs (append_all (Z.of_nat k + 1) chunks) s Q.
Proof.
  revert own s T data. induction chunks as [|c chunks IH]; intros own s T data Hinv Hk Hmax Hfree HQ; cbn [append_all pieces] in *.
  { kstep. rewrite app_nil_r, list_insert_id in HQ by done. by eapply HQ. }
  destruct (Z.leb_spec (alen c) 0) as [Hc|Hc]. { kstep. rewrite app_nil_r, list_insert_id in HQ by done. by eapply HQ. }
  pose proof (lookup_lt_Some _ _ _ Hk) as Hlt. rewrite app_assoc in *. set (T1 := <[k := (t, data ++ c)]> T).
  assert (T1 !! k = Some (t, data ++ c)) as Hk1 by by apply list_lookup_insert_eq.
  assert (∀ d, <[k := (t, d)]> T1 = <[k := (t, d)]> T) as E by (intros d; apply list_insert_insert_eq).
  kstep. eapply (runs_iappend dev); [done|done| | |].
  - unfold alen in *. rewrite !length_app in *. lia.
  - fold T1. pose proof (total_mono_at T1 k t (data ++ c) (pieces chunks) Hk1) as Hm. rewrite E in Hm. lia.
  - intros own1 s1 H1. eapply IH; [exact H1|exact Hk1|done|by rewrite E|]. rewrite E. done.
Qed.

(** One argument. *)
Lemma runs_add_file own s d F a Q :
  mk_inv own s ((T_DIR, d) :: F) → arg_ok a → alen F < 204 → let inum := alen F + 2 in let d' := d ++ mk_dirent inum (arg_name a) in
  alen d' ≤ MAXFILE * BSIZE → nmeta + total ((T_DIR, d') :: F ++ [arg_file a]) ≤ FSSIZE →
  (∀ own' s', mk_inv own' s' ((T_DIR, d') :: F ++ [arg_file a]) → Q tt s') → runs (add_file 1 a) s Q.
Proof.
  intros Hinv (Hs & [chunks Hc] & Hmax) Hn inum d' Hd Hfree HQ. unfold add_file. rewrite bool_decide_eq_false_2 by done. rewrite Hc.
  assert (alen ((T_DIR, d) :: F) = alen F + 1) as El by (unfold alen; cbn [length]; lia). assert (arg_data a = pieces chunks) as Ed by (unfold arg_data; by rewrite Hc).
  unfold arg_file in *. rewrite Ed in *. set (T1 := (T_DIR, d') :: F ++ [(T_FILE, [])]). fold (arg_name a).
  assert (T1 !! S (length F) = Some (T_FILE, [])) as Hk1.
  { change (T1 !! S (length F)) with ((F ++ [(T_FILE, [])]) !! length F). by rewrite lookup_app_r, Nat.sub_diag by lia. }
  assert (<[S (length F) := (T_FILE, pieces chunks)]> T1 = (T_DIR, d') :: F ++ [(T_FILE, pieces chunks)]) as ET1.
  { change ((T_DIR, d') :: <[length F := (T_FILE, pieces chunks)]> (F ++ [(T_FILE, [])]) = (T_DIR, d') :: F ++ [(T_FILE, pieces chunks)]).
    f_equal. by rewrite insert_app_r_alt, Nat.sub_diag by lia. }
  assert (nmeta + total T1 ≤ FSSIZE) as Hfree1.
  { pose proof (total_mono_at T1 (S (length F)) T_FILE [] (pieces chunks) Hk1) as Hm. rewrite app_nil_l, ET1 in Hm. lia. }
  kstep. eapply (runs_ialloc dev); [exact Hinv|lia|by right|]. intros s1 H1. rewrite El. replace (alen F + 1 + 1) with inum by (unfold inum; lia).
  kstep. eapply (runs_iappend dev _ _ _ 0); [exact H1|done|done|done|]. intros own2 s2 H2.
  replace inum with (Z.of_nat (S (length F)) + 1) by (unfold inum, alen; lia).
  eapply (runs_append_all own2 s2 T1); [exact H2|exact Hk1|done|rewrite app_nil_l, ET1; lia|]. rewrite app_nil_l, ET1. done.
Qed.

Lemma dir_bytes_app l l' : dir_bytes (l ++ l') = dir_bytes l ++ dir_bytes l'.
Proof. unfold dir_bytes. by rewrite fmap_app, concat_app. Qed.
Lemma length_mk_dirent i name : length (mk_dirent i name) = 16%nat.
Proof. unfold mk_dirent, de_make. rewrite length_app, length_le_enc, length_lstrncpy. done. Qed.
Lemma length_dir_bytes l : length (dir_bytes l) = (16 * length l)%nat.
Proof.
  induction l as [|e l IH]; [done|]. unfold dir_bytes in *. rewrite fmap_cons. cbn [concat]. rewrite length_app, IH, length_mk_dirent. cbn [length]. lia.
Qed.
Lemma entries_app l l' : entries (l ++ l') = entries l ++ imap (λ k a, (arg_name a, Z.of_nat (length l + k) + 2)) l'.
Proof. unfold entries. rewrite imap_app, app_assoc. done. Qed.
Lemma length_entries l : length (entries l) = (length l + 2)%nat.
Proof. unfold entries. rewrite length_app, length_imap. cbn. lia. Qed.

Lemma mk_table_snoc l a :
  mk_table (l ++ [a]) = (T_DIR, dir_bytes (entries l) ++ mk_dirent (alen (arg_file <$> l) + 2) (arg_name a)) :: (arg_file <$> l) ++ [arg_file a].
Proof.
  unfold mk_table. rewrite fmap_app, entries_app, dir_bytes_app. do 3 f_equal. unfold alen. rewrite length_fmap. unfold dir_bytes. cbn [imap fmap list_fmap concat].
  rewrite app_nil_r, Nat.add_0_r. done.
Qed.

Lemma need_pos a : 0 ≤ a → 0 ≤ need a.
Proof. intros H. unfold need. destruct (NDIRECT <? a); lia. Qed.
Lemma blocks_pos data : 0 ≤ blocks data.
Proof. unfold blocks, nblk. assert (0 ≤ alen data) by (unfold alen; lia). unfold BSIZE. dlia. Qed.
Lemma total_pos T : 0 ≤ total T.
Proof. induction T as [|f T IH]; [done|]. cbn. pose proof (need_pos _ (blocks_pos f.2)). lia. Qed.
Lemma total_table l r : total (mk_table l) ≤ total (mk_table (l ++ r)).
Proof.
  unfold mk_table. rewrite fmap_app, entries_app, dir_bytes_app. cbn [total]. rewrite total_app. cbn [snd].
  pose proof (total_pos (arg_file <$> r)). match goal with |- need (blocks ?d) + _ ≤ need (blocks (?d ++ ?b)) + _ => pose proof (need_mono _ _ (blocks_prefix d b)) end. lia.
Qed.

Lemma runs_add_files args : ∀ own s l Q,
  mk_inv own s (mk_table l) → Forall arg_ok args → (length (l ++ args) ≤ 198)%nat → nmeta + total (mk_table (l ++ args)) ≤ FSSIZE →
  (∀ own' s', mk_inv own' s' (mk_table (l ++ args)) → Q tt s') → runs (add_files 1 args) s Q.
Proof.
  induction args as [|a args IH]; intros own s l Q Hinv Hok Hlen Hfree HQ; cbn [add_files].
  { kstep. rewrite app_nil_r in HQ. by eapply HQ. }
  apply Forall_cons in Hok as [Ha Hok]. replace (l ++ a :: args) with ((l ++ [a]) ++ args) in * by by rewrite <- app_assoc.
  pose proof (total_table (l ++ [a]) args) as Hm. rewrite !length_app in Hlen. cbn in Hlen.
  kstep. eapply runs_add_file; [exact Hinv|done|unfold alen; rewrite length_fmap; lia| | |].
  - unfold alen. rewrite length_app, length_dir_bytes, length_mk_dirent, length_entries. change MAXFILE with 268. change BSIZE with 1024. lia.
  - rewrite <- mk_table_snoc. lia.
  - intros own1 s1 H1. rewrite <- mk_table_snoc in H1. eapply IH; [exact H1|done| |lia|done]. rewrite !length_app. cbn. lia.
Qed.

(** ** The beginning and the end of [main] *)

Lemma rd_zeroes o n : 0 ≤ o → 0 ≤ n → rd o n zeroes = 0.
Proof.
  intros Ho Hn. unfold rd, slice, zeroes. rewrite drop_replicate, take_replicate. generalize (Nat.min (Z.to_nat n) (Z.to_nat BSIZE - Z.to_nat o)).
  intros m. induction m as [|m IH]; [done|]. cbn. by rewrite IH.
Qed.

Lemma load_zeroes o : 0 ≤ o → dinode_load o zeroes inode0 = inode0.
Proof.
  intros Ho. unfold dinode_load. rewrite !rd_zeroes by lia. change inode0 with (Inode 0 0 0 (i_lock inode0) 0 0 0 0 0 0 (replicate 13 0)). f_equal.
  change (seqZ 0 (NDIRECT + 1)) with [0;1;2;3;4;5;6;7;8;9;10;11;12]. cbn [fmap list_fmap]. rewrite !rd_zeroes by lia. done.
Qed.

Lemma mk_inv_blank s :
  mk_len s = FSSIZE → freeinode s = 1 → freeblock s = nmeta → (∀ b, mk_img s b = if b =? 1 then splice 0 (sb_bytes sb) zeroes else zeroes) →
  mk_inv (λ _, None) s [].
Proof.
  intros Hl Hi Hf Hb. split; try done.
  - split; try done.
    + intros b. rewrite Hb. by destruct (b =? 1).
    + rewrite Hf. done.
    + intros b Hge. rewrite Hb, (proj2 (Z.eqb_neq _ _)); [done|]. rewrite Hf in Hge. change nmeta with 46 in Hge. lia.
    + intros b Hr. rewrite Hf in Hr. lia.
  - intros j Hj Hok. unfold dinode_at. rewrite Hb. destruct (iblock_eq j Hok). rewrite (proj2 (Z.eqb_neq _ _)) by lia. rewrite dinode_off_eq. apply load_zeroes. dlia.
Qed.

Lemma runs_zero_image s Q :
  mk_len s = 0 → freeinode s = 1 → freeblock s = nmeta → (∀ b, mk_img s b = zeroes) →
  (∀ s', mk_len s' = FSSIZE → freeinode s' = 1 → freeblock s' = nmeta → (∀ b, mk_img s' b = zeroes) → Q tt s') →
  runs (for_range (Z.to_nat FSSIZE) 0 (λ i, wsect i zeroes)) s Q.
Proof.
  intros H1 H2 H3 H4 HQ. apply (runs_for_range _ (λ i s, mk_len s = i ∧ freeinode s = 1 ∧ freeblock s = nmeta ∧ ∀ b, mk_img s b = zeroes)); [|done|].
  - intros i s1 Hi (A1 & A2 & A3 & A4). unfold wsect. kstep. cbn. split; [lia|]. do 2 (split; [done|]). intros b. by destruct (b =? i).
  - intros s1 (A1 & A2 & A3 & A4). by apply HQ.
Qed.

Definition bitmap (used : Z) : list Z := fold_left bit_set (seqZ 0 used) zeroes.

Lemma bitmap_spec n : (Z.of_nat n ≤ BPB) →
  length (bitmap (Z.of_nat n)) = Z.to_nat BSIZE ∧ ∀ b, 0 ≤ b < BPB → bit_clear (bitmap (Z.of_nat n)) b = negb (b <? Z.of_nat n).
Proof.
  unfold bitmap. induction n as [|n IH]; intros Hn.
  - split; [done|]. intros b Hb. rewrite bit_clear_spec by lia. cbn [fold_left seqZ]. rewrite (proj2 (Z.ltb_ge _ _)) by lia.
    change (fold_left _ _ _) with zeroes. rewrite (aget_lookup _ _ 0); [by rewrite Z.testbit_0_l|]. apply lookup_replicate_2. unfold BPB, BSIZE in *. dlia.
  - destruct (IH ltac:(lia)) as [Hl Hc]. rewrite seqZ_S, fold_left_app. cbn [fold_left]. rewrite Z.add_0_l. split; [by rewrite length_bit_set|].
    intros b Hb. rewrite bit_clear_set by (done || lia). rewrite Hc by done. destruct (Z.eqb_spec b (Z.of_nat n)); [by rewrite (proj2 (Z.ltb_lt _ _)) by lia|].
    f_equal. destruct (Z.ltb_spec b (Z.of_nat n)), (Z.ltb_spec b (Z.of_nat (S n))); done || lia.
Qed.

(** The root's size, rounded up past its last entry. *)
Definition root_size (args : list mk_arg) : Z := (16 * (alen args + 2) / BSIZE + 1) * BSIZE.

Definition final s size : mk_st := put_sect 45 (bitmap (freeblock s)) (put_inode 1 (set_isize size (dinode_at s 1)) s).

Lemma halts_main args (Q : mk_st → Prop) :
  Forall arg_ok args → (length args ≤ 198)%nat → nmeta + total (mk_table args) ≤ FSSIZE →
  (∀ own s, mk_inv own s (mk_table args) → Q (final s (root_size args))) → halts (mkfs_main args) mk0 (Exited 0) Q.
Proof.
  intros Hok Hlen Hfree HQ. unfold mkfs_main. apply halts_bind_r. kstep. apply halts_bind_r. apply runs_zero_image; [done..|].
  intros s1 L1 I1 F1 Z1. apply halts_bind_r. unfold wsect at 1. kstep. rewrite Z.max_l by (rewrite L1; done). set (s2 := set_img _ _ s1).
  assert (mk_inv (λ _, None) s2 []) as H2. { apply mk_inv_blank; try done. intros b. cbn. by rewrite Z1. }
  apply halts_bind_r. eapply (runs_ialloc dev); [exact H2|done|by left|]. intros s3 H3. change (alen [] + 1) with 1. change (1 =? ROOTINO) with true. cbn [negb].
  pose proof (total_table [] args) as Ht0. rewrite app_nil_l in Ht0.
  assert (nmeta + total [(T_DIR, mk_dirent 1 [46])] ≤ FSSIZE) as Hf1 by (change (total [(T_DIR, mk_dirent 1 [46])]) with (total (mk_table [])); lia).
  apply halts_bind_r. eapply (runs_iappend dev _ _ _ 0); [exact H3|done|done|exact Hf1|]. intros own4 s4 H4.
  apply halts_bind_r. eapply (runs_iappend dev _ _ _ 0); [exact H4|done|done|change (nmeta + total (mk_table []) ≤ FSSIZE); lia|]. intros own5 s5 H5.
  apply halts_bind_r. eapply (runs_add_files args own5 s5 []); [exact H5|done|done|done|]. intros own s H. rewrite app_nil_l in H.
  destruct (mi_file _ _ _ _ H 0%nat _ eq_refl) as [Fc Ft Fs Fd]. change (Z.of_nat 0 + 1) with 1 in *. cbn [fst snd] in *. pose proof (mi_image _ _ _ _ H) as Him.
  apply halts_bind_r. eapply (runs_rinode own); [done|done|].
  assert (alen (dir_bytes (entries args)) = 16 * (alen args + 2)) as El by (unfold alen; rewrite length_dir_bytes, length_entries; lia).
  assert (0 ≤ alen args ≤ 198) as Hn by (unfold alen; lia). rewrite Fs, El, (xint_small (16 * (alen args + 2))) by lia.
  assert (0 ≤ root_size args < 2 ^ 32) as Hr by (unfold root_size, BSIZE; dlia). unfold root_size in Hr. rewrite u32_small, xint_small by done. fold (root_size args).
  apply halts_bind_r. eapply (runs_winode own); [done|done|]. set (s6 := put_inode 1 _ s).
  assert (image_ok own s6) as Him6 by (apply put_inode_ok; [done|done|apply (mf_addrs _ _ _ _ _ _ _ _ Fd)]).
  apply halts_bind_r. kstep. pose proof (im_free46 _ _ Him) as Hf. unfold balloc. apply halts_bind_r.
  change (freeblock s6) with (freeblock s). rewrite (proj2 (Z.ltb_lt (freeblock s) _)) by (unfold BSIZE; lia). cbn [negb]. fold (bitmap (freeblock s)).
  eapply (runs_wsect own); [done|done|]. split; [done|]. by eapply HQ.
Qed.
End MkfsSpec.
