(* ===== verification/MkfsImage.v ===== *)
(** * The image mkfs leaves, as the kernel reads it

    The last state of [main] satisfies what the kernel's file system relies on, file by file and
    block by block. *)

From S2P Require Import Prelude Memory Riscv Spinlock Core CString Kalloc Vm Sleeplock BufCache Log Crash LogProof LogSafety Sys Fs FsBlock FsMap FsFile FsSpec FsDir Mkfs MkfsProof MkfsInv.

Section MkfsImage.
Context (dev : Z).
Abbreviation owner := (Z → option (Z * Z)).
Implicit Types (s : mk_st) (own : owner) (e : inode) (C : block → list Z).
Abbreviation marked := (marked dev sb).
Abbreviation ino_ok := (ino_ok dev sb nmeta).
Abbreviation owns := (owns dev).

(** The inode [i] as [ilock] reads it. *)
Definition iread C (i : Z) : inode := dinode_load (dinode_off i) (C (dev, IBLOCK i sb)) (Inode dev i 0 (initsleeplock "inode") 0 0 0 0 0 0 []).

Record mkfs_image (args : list mk_arg) C : Prop := {
  mk_sb : sb_dec (C (dev, 1)) = sb;
  mk_layout : layout dev (sb_logstart sb) (sb_nlog sb) sb nmeta;
  mk_log : C (dev, sb_logstart sb) = zeroes;                       (* nothing to recover *)
  mk_map : map_ok dev sb nmeta C;
  mk_root : dir_ok dev sb nmeta C (iread C ROOTINO) ∧ i_nlink (iread C ROOTINO) = 1;
  mk_names : ∀ name, dlookup dev C (iread C ROOTINO) name = snd <$> List.find (λ d, namecmp name d.1 =? 0) (entries args);
  mk_files : ∀ k a, args !! k = Some a → let e := iread C (Z.of_nat k + 2) in
    i_type e = T_FILE ∧ i_nlink e = 1 ∧ ino_ok C e ∧ fdata dev C e = arg_data a;
  mk_unused : ∀ i, alen args + 2 ≤ i < sb_ninodes sb → i_type (iread C i) = 0;
  mk_blocks : ∀ b, nmeta ≤ b < sb_size sb → marked C b = true ↔ ∃ i, 1 ≤ i < alen args + 2 ∧ owns C (iread C i) b;
  mk_apart : ∀ i j b, 1 ≤ i < alen args + 2 → 1 ≤ j < alen args + 2 → owns C (iread C i) b → owns C (iread C j) b → i = j;
}.

Lemma sb_layout : 0 ≤ dev < 2 ^ 32 → layout dev (sb_logstart sb) (sb_nlog sb) sb nmeta.
Proof. intros Hdev. by split. Qed.

(** ** One file *)
Section File.
Context own s i e h a data (Him : image_ok own s) (Hm : mk_file dev own s i e h a data).

Lemma file_owns b : owns (disk s) e b → ∃ k, own b = Some (i, k).
Proof using Hm.
  intros [Hb [->|(bn & Hbn & ->)]].
  - pose proof (mf_ind _ _ _ _ _ _ _ _ Hm) as H. destruct h; [by eexists|done].
  - pose proof (mf_blk _ _ _ _ _ _ _ _ Hm bn Hbn) as H. case_decide; [by eexists|done].
Qed.

Lemma file_ino_ok :
  (∀ b, nmeta ≤ b < freeblock s → marked (disk s) b = true) → i_dev e = dev → 0 ≤ i_size e ≤ a * BSIZE → ino_ok (disk s) e.
Proof using Him Hm.
  intros Hmk Hd Hs. pose proof Hm as [H1 [H2 _] H3 H4 H5 H6]. pose proof (im_free46 _ _ Him) as Hf.
  assert (∀ b ik, own b = Some ik → good dev sb nmeta (disk s) b) as Hg.
  { intros b ik Hb%(im_own _ _ Him). split; [change (sb_size sb) with 2000; lia|by apply Hmk]. }
  assert (∀ bn, 0 ≤ bn < MAXFILE → blk dev (disk s) e bn = 0 ∨ own (blk dev (disk s) e bn) = Some (i, bn)) as Hb.
  { intros bn Hbn. specialize (H4 bn Hbn). case_decide; [by right|by left]. }
  split; [done|done| | |].
  - split.
    + destruct h; [right; by eapply Hg|by left].
    + intros bn Hbn. destruct (Hb bn Hbn) as [->|E]; [by left|right; by eapply Hg].
    + intros bn bn' Hbn Hbn' E Hne. destruct (Hb bn Hbn) as [?|E1]; [done|]. rewrite E in *. destruct (Hb bn' Hbn') as [?|E2]; [done|]. congruence.
    + intros bn Hbn Hne. destruct (Hb bn Hbn) as [?|E1]; [done|]. intros E. rewrite E in E1, Hne. destruct h; [|done].
      rewrite H5 in E1. injection E1 as E1. lia.
  - change MAXFILE with 268 in *. unfold BSIZE in *. lia.
  - intros bn Hbn Hlt. assert (bn < a) by (unfold BSIZE in *; lia). specialize (H4 bn ltac:(lia)). rewrite decide_True in H4 by done.
    apply (im_own _ _ Him) in H4. change nmeta with 46 in H4. lia.
Qed.

(** Its bytes, and zeros up to the end of its blocks. *)
Lemma file_fbytes off n : 0 ≤ off → 0 ≤ n → off + n ≤ a * BSIZE → fbytes dev (disk s) e off n = (λ k, nth (Z.to_nat k) data 0) <$> seqZ off n.
Proof using Hm.
  intros H1 H2 H3. unfold fbytes. apply list_fmap_ext. intros j k Hk. apply lookup_seqZ in Hk as [-> Hk]. apply (mf_bytes _ _ _ _ _ _ _ _ Hm). lia.
Qed.

Lemma file_fdata : i_size e = alen data → fdata dev (disk s) e = data.
Proof using Hm.
  intros Hs. pose proof (mf_len _ _ _ _ _ _ _ _ Hm) as Hl. unfold fdata. rewrite Hs, file_fbytes by (unfold alen in *; lia). apply list_eq. intros j.
  rewrite list_lookup_fmap. unfold alen. destruct (decide (j < length data)%nat) as [Hj|Hj].
  - rewrite lookup_seqZ_lt by lia. destruct (lookup_lt_is_Some_2 data j Hj) as [v Hv]. rewrite Hv. change ((λ k, nth (Z.to_nat k) data 0) <$> Some (0 + Z.of_nat j)) with (Some (nth (Z.to_nat (0 + Z.of_nat j)) data 0)). rewrite Z.add_0_l, Nat2Z.id. f_equal. by apply nth_lookup_Some.
  - rewrite lookup_seqZ_ge by lia. symmetry. apply lookup_ge_None_2. lia.
Qed.
End File.

(** Entry [k] of a directory's bytes. *)
Lemma nth_dir_bytes l k d j : l !! k = Some d → (j < 16)%nat → nth (16 * k + j) (dir_bytes l) 0 = nth j (mk_dirent d.2 d.1) 0.
Proof.
  revert k. induction l as [|e l IH]; intros [|k] Hk Hj; try done; unfold dir_bytes; rewrite fmap_cons; cbn [concat].
  - injection Hk as ->. rewrite app_nth1 by (rewrite length_mk_dirent; lia). f_equal.
  - rewrite app_nth2 by (rewrite length_mk_dirent; lia). rewrite length_mk_dirent. rewrite <- (IH k) by done. unfold dir_bytes. f_equal. lia.
Qed.

(** Searching the entries from the first to the last is searching the list. *)
Lemma find_none (p : Z → bool) o n : (∀ k, o ≤ k < o + Z.of_nat n → p k = false) → List.find p (seqZ o (Z.of_nat n)) = None.
Proof.
  revert o. induction n as [|n IH]; intros o H; [done|]. rewrite seqZ_cons by lia. cbn [List.find]. rewrite H by lia.
  replace (Z.pred (Z.of_nat (S n))) with (Z.of_nat n) by lia. apply IH. intros k Hk. apply H. lia.
Qed.

Lemma find_entries {A} (l : list (A * Z)) o n (p : Z → bool) (q : A * Z → bool) (g : Z → Z) :
  Z.of_nat (length l) ≤ n → (∀ j d, l !! j = Some d → p (o + Z.of_nat j) = q d ∧ g (o + Z.of_nat j) = d.2) →
  (∀ k, o + Z.of_nat (length l) ≤ k < o + n → p k = false) → g <$> List.find p (seqZ o n) = snd <$> List.find q l.
Proof.
  revert o n. induction l as [|d l IH]; intros o n Hn Hl Hrest.
  - cbn in *. rewrite <- (Z2Nat.id n) by lia. rewrite find_none; [done|]. intros k Hk. apply Hrest. lia.
  - cbn [length] in *. rewrite seqZ_cons by lia. cbn [List.find]. destruct (Hl 0%nat d eq_refl) as [Hp Hg]. rewrite Z.add_0_r in Hp, Hg. rewrite Hp.
    destruct (q d); [cbn; by rewrite Hg|]. apply IH; [lia| |].
    + intros j d' Hj. replace (Z.succ o + Z.of_nat j) with (o + Z.of_nat (S j)) by lia. by apply Hl.
    + intros k Hk. apply Hrest. lia.
Qed.

(** The places of the blocks of a file, and of all files. *)
Definition fslots (data : list Z) : list Z := seqZ 0 (blocks data) ++ (if NDIRECT <? blocks data then [MAXFILE] else []).
Fixpoint slots (o : Z) (T : list (Z * list Z)) : list (Z * Z) :=
  match T with [] => [] | f :: T => ((λ k, (o, k)) <$> fslots f.2) ++ slots (o + 1) T end.

Lemma length_slots T o : Z.of_nat (length (slots o T)) = total T.
Proof.
  revert o. induction T as [|f T IH]; intros o; [done|]. cbn [slots total]. rewrite length_app, Nat2Z.inj_add, IH, length_fmap. f_equal. unfold fslots, need.
  rewrite length_app, length_seqZ, Nat2Z.inj_add. pose proof (blocks_pos f.2). destruct (NDIRECT <? blocks f.2); cbn [length]; lia.
Qed.

Lemma elem_slots T o i k : (i, k) ∈ slots o T → ∃ n f, T !! n = Some f ∧ i = o + Z.of_nat n ∧ k ∈ fslots f.2.
Proof.
  revert o. induction T as [|f T IH]; intros o H; [by apply elem_of_nil in H|]. cbn [slots] in H. apply elem_of_app in H as [H|H].
  - apply list_elem_of_fmap in H as (k' & [= -> ->] & H). exists 0%nat, f. split; [done|]. split; [lia|done].
  - apply IH in H as (n & g & Hn & -> & Hk). exists (S n), g. split; [done|]. split; [lia|done].
Qed.

Lemma NoDup_slots T o : (∀ n f, T !! n = Some f → blocks f.2 ≤ MAXFILE) → NoDup (slots o T).
Proof.
  revert o. induction T as [|f T IH]; intros o H; [constructor|]. cbn [slots]. apply NoDup_app. split; [|split].
  - apply NoDup_fmap_2; [by intros ?? [= ->]|]. unfold fslots. apply NoDup_app. split; [apply NoDup_seqZ|]. specialize (H 0%nat f eq_refl).
    split; [|destruct (NDIRECT <? blocks f.2); [apply NoDup_singleton|constructor]]. intros k Hk. apply elem_of_seqZ in Hk.
    destruct (NDIRECT <? blocks f.2); [rewrite list_elem_of_singleton; lia|apply not_elem_of_nil].
  - intros [i k] Hik Hs. apply list_elem_of_fmap in Hik as (k' & [= -> ->] & _). apply elem_slots in Hs as (n & g & _ & E & _). lia.
  - apply IH. intros n g Hn. by apply (H (S n)).
Qed.

(** ** The last state *)
Section Final.
Context own s (args : list mk_arg) (Hinv : mk_inv dev own s (mk_table args)) (Hlen : (length args ≤ 198)%nat).
Abbreviation s' := (final s (root_size args)).
Abbreviation C := (disk s').

Lemma fin_image : image_ok own s.
Proof using Hinv Hlen. apply Hinv. Qed.

Lemma fin_img b : b ≠ 45 → b ≠ 32 → mk_img s' b = mk_img s b.
Proof. intros H1 H2. cbn. rewrite (proj2 (Z.eqb_neq _ _)) by done. change (IBLOCK 1 sb) with 32. by rewrite (proj2 (Z.eqb_neq _ _)). Qed.

Lemma fin_used : 46 ≤ freeblock s ≤ 2000.
Proof using Hinv Hlen. exact (im_free46 _ _ fin_image). Qed.

Lemma fin_bitmap : length (bitmap (freeblock s)) = Z.to_nat BSIZE ∧ ∀ b, 0 ≤ b < BPB → bit_clear (bitmap (freeblock s)) b = negb (b <? freeblock s).
Proof using Hinv Hlen.
  pose proof fin_used. pose proof (bitmap_spec (Z.to_nat (freeblock s))) as Hb. rewrite Z2Nat.id in Hb by lia. apply Hb. unfold BPB, BSIZE. lia.
Qed.

Lemma fin_marked b : 0 ≤ b < FSSIZE → marked C b = (b <? freeblock s).
Proof using Hinv Hlen.
  intros Hb. change FSSIZE with 2000 in Hb. unfold FsBlock.marked. assert (BBLOCK b sb = 45) as -> by (unfold BBLOCK, BPB, BSIZE; change (sb_bmapstart sb) with 45; rewrite u32_small; dlia).
  change (C (dev, 45)) with (bitmap (freeblock s)). destruct fin_bitmap as [_ Hc]. rewrite Hc by (unfold BPB, BSIZE; dlia).
  rewrite negb_involutive. f_equal. unfold BPB, BSIZE. dlia.
Qed.

Lemma fin_ok : image_ok own s'.
Proof using Hinv Hlen.
  pose proof fin_used. destruct (mi_file _ _ _ _ Hinv 0%nat _ eq_refl) as [_ _ _ Fd].
  apply put_sect_ok; [apply put_inode_ok; [apply fin_image|done|apply (mf_addrs _ _ _ _ _ _ _ _ Fd)]|cbn; lia|apply fin_bitmap].
Qed.

Lemma fin_untouched j : untouched own s own s' j.
Proof using Hinv Hlen. intros b k Hb. split; [done|]. apply (im_own _ _ fin_image) in Hb. change nmeta with 46 in Hb. apply fin_img; lia. Qed.

(** The inodes. *)
Lemma fin_dinode i : inum_ok i → dinode_at s' i = if decide (i = 1) then set_isize (root_size args) (dinode_at s 1) else dinode_at s i.
Proof using Hinv Hlen.
  intros Hi. assert (dinode_at s' i = dinode_at (put_inode 1 (set_isize (root_size args) (dinode_at s 1)) s) i) as ->.
  { unfold dinode_at. destruct (iblock_eq i Hi). cbn. by rewrite (proj2 (Z.eqb_neq _ 45)) by lia. }
  destruct (mi_file _ _ _ _ Hinv 0%nat _ eq_refl) as [(E & C1 & C2 & C3 & C4 & C5 & C6 & C7) _ _ _]. change (Z.of_nat 0 + 1) with 1 in *. case_decide as Ei.
  - subst i. rewrite (put_inode_eq own); [done|apply fin_image|done|]. split; [by rewrite E|]. do 4 (split; [done|]). split; [|split; [exact C6|exact C7]].
    assert (0 ≤ alen args ≤ 198) by (unfold alen; lia). cbn [i_size set_isize]. unfold root_size, BSIZE. dlia.
  - by rewrite (put_inode_ne own); [|apply fin_image|..].
Qed.

Lemma iread_eq i : iread C i = Inode dev i 0 (initsleeplock "inode") 0 (i_type (dinode_at s' i)) (i_major (dinode_at s' i)) (i_minor (dinode_at s' i))
  (i_nlink (dinode_at s' i)) (i_size (dinode_at s' i)) (i_addrs (dinode_at s' i)).
Proof. done. Qed.

Lemma fin_file k f : mk_table args !! k = Some f → let i := Z.of_nat k + 1 in
  i_type (iread C i) = f.1 ∧ i_nlink (iread C i) = 1 ∧ i_size (iread C i) = (if decide (k = 0%nat) then root_size args else alen f.2) ∧
  mk_file dev own s' i (iread C i) (NDIRECT <? blocks f.2) (blocks f.2) f.2.
Proof using Hinv Hlen.
  intros Hk i. destruct (mi_file _ _ _ _ Hinv k f Hk) as [(_ & _ & _ & _ & Fn & _) Ft Fs Fd]. fold i in Fn, Ft, Fs, Fd.
  pose proof (lookup_lt_Some _ _ _ Hk) as Hlt. unfold mk_table in Hlt. cbn [length] in Hlt. rewrite length_fmap in Hlt.
  assert (inum_ok i) as Hi by (unfold inum_ok, i; lia).
  assert (i_addrs (iread C i) = i_addrs (dinode_at s i) ∧ i_type (iread C i) = i_type (dinode_at s i) ∧ i_nlink (iread C i) = i_nlink (dinode_at s i) ∧
    i_size (iread C i) = if decide (k = 0%nat) then root_size args else i_size (dinode_at s i)) as (E1 & E2 & E3 & E4).
  { rewrite iread_eq, fin_dinode by done. unfold i. destruct (decide (k = 0%nat)) as [->|]; [done|]. by rewrite decide_False by lia. }
  rewrite E2, E3, E4, Fs. do 3 (split; [done|]). eapply mk_file_same; [|exact E1]. eapply mk_file_frame; [exact Fd|apply fin_untouched].
Qed.

Lemma alen_args : 0 ≤ alen args ≤ 198.
Proof using Hlen. unfold alen. lia. Qed.

Lemma root_blocks : blocks (dir_bytes (entries args)) = nblk (16 * (alen args + 2)).
Proof. unfold blocks. f_equal. unfold alen. rewrite length_dir_bytes, length_entries. lia. Qed.

Lemma fin_root :
  i_type (iread C 1) = T_DIR ∧ i_nlink (iread C 1) = 1 ∧ i_size (iread C 1) = root_size args ∧
  mk_file dev own s' 1 (iread C 1) (NDIRECT <? nblk (16 * (alen args + 2))) (nblk (16 * (alen args + 2))) (dir_bytes (entries args)).
Proof using Hinv Hlen. rewrite <- root_blocks. exact (fin_file 0%nat _ eq_refl). Qed.

Lemma root_dent k : 0 ≤ k → (k + 1) * 16 ≤ nblk (16 * (alen args + 2)) * BSIZE →
  dent dev C (iread C 1) k = match entries args !! Z.to_nat k with Some d => mk_dirent d.2 d.1 | None => replicate 16 0 end.
Proof using Hinv Hlen.
  intros Hk Hle. destruct fin_root as (_ & _ & _ & Hm). unfold dent. change DIRENT with 16. rewrite (file_fbytes _ _ _ _ _ _ _ Hm) by lia.
  apply (list_eq_same_length _ _ 16); [destruct (_ !! _); [apply length_mk_dirent|done]|by rewrite length_fmap, length_seqZ|].
  intros j x y Hj Hx Hy. rewrite list_lookup_fmap, lookup_seqZ_lt in Hx by lia.
  change (Some (nth (Z.to_nat (k * 16 + Z.of_nat j)) (dir_bytes (entries args)) 0) = Some x) in Hx. apply (inj Some) in Hx as <-.
  replace (Z.to_nat (k * 16 + Z.of_nat j)) with (16 * Z.to_nat k + j)%nat by lia. destruct (entries args !! Z.to_nat k) as [d|] eqn:E.
  - rewrite (nth_dir_bytes _ _ _ _ E) by done. by apply nth_lookup_Some.
  - apply lookup_replicate in Hy as [-> _]. apply nth_overflow. rewrite length_dir_bytes. apply lookup_ge_None_1 in E. lia.
Qed.

Lemma entry_inum k d : entries args !! k = Some d → 0 < d.2 < 2 ^ 16.
Proof using Hlen.
  intros H. unfold entries in H. apply lookup_app_Some in H as [H|[_ H]].
  - destruct k as [|[|k]]; [injection H as <-; done..|]. by destruct k.
  - rewrite list_lookup_imap in H. destruct (args !! _) as [a|] eqn:E; [|done]. apply lookup_lt_Some in E.
    change (Some (arg_name a, Z.of_nat (k - length dots) + 2) = Some d) in H. apply (inj Some) in H as <-. cbn [snd]. lia.
Qed.

Lemma root_lookup name : (alen args + 2) mod 64 ≠ 0 →
  dlookup dev C (iread C 1) name = snd <$> List.find (λ d, namecmp name d.1 =? 0) (entries args).
Proof using Hinv Hlen.
  intros Hmod. pose proof alen_args as Hn. destruct fin_root as (_ & _ & Hs & _). unfold dlookup, dfind, ndent. rewrite Hs. change DIRENT with 16.
  assert (root_size args = nblk (16 * (alen args + 2)) * 1024) as Er by (unfold root_size, nblk, BSIZE; dlia).
  apply (find_entries (entries args) 0).
  - unfold root_size, BSIZE in *. rewrite length_entries. unfold alen in *. dlia.
  - intros j d Hj. pose proof (lookup_lt_Some _ _ _ Hj) as Hlt. rewrite length_entries in Hlt. pose proof (entry_inum _ _ Hj) as Hi.
    rewrite Z.add_0_l, root_dent by (unfold nblk, BSIZE in *; unfold alen in *; dlia). rewrite Nat2Z.id, Hj.
    unfold mk_dirent. rewrite xshort_small by lia. rewrite <- (Z.mod_small d.2 (2 ^ 16)) by lia. fold (u16 d.2). rewrite de_inum_make.
    split; [|done]. fold (new_dent d.1 d.2). apply new_match. unfold u16. rewrite Z.mod_small by lia. lia.
  - intros k Hk. rewrite length_entries in Hk. rewrite root_dent by (unfold nblk, BSIZE in *; unfold alen in *; dlia).
    rewrite (lookup_ge_None_2 (entries args)) by (rewrite length_entries; lia). done.
Qed.

(** Every block in use has its place. *)
Definition slot_addr (ik : Z * Z) : Z := if ik.2 =? MAXFILE then indirect (iread C ik.1) else blk dev C (iread C ik.1) ik.2.

Lemma slot_own ik : (∀ n f, mk_table args !! n = Some f → blocks f.2 ≤ MAXFILE) → ik ∈ slots 1 (mk_table args) →
  own (slot_addr ik) = Some ik ∧ 1 ≤ ik.1 < alen args + 2 ∧ owns C (iread C ik.1) (slot_addr ik).
Proof using Hinv Hlen.
  destruct ik as [i k]. intros Hmax H. apply elem_slots in H as (n & f & Hf & -> & Hk). destruct (fin_file n f Hf) as (_ & _ & _ & Hm).
  rewrite (Z.add_comm 1). specialize (Hmax n f Hf). pose proof (lookup_lt_Some _ _ _ Hf) as Hlt. unfold mk_table in Hlt. cbn [length] in Hlt. rewrite length_fmap in Hlt.
  set (i := Z.of_nat n + 1) in *. unfold slot_addr. cbn [fst snd].
  assert (own (if k =? MAXFILE then indirect (iread C i) else blk dev C (iread C i) k) = Some (i, k) ∧
    ((k =? MAXFILE) = false → 0 ≤ k < MAXFILE)) as [Ho Hr].
  { unfold fslots in Hk. apply elem_of_app in Hk as [Hk|Hk].
    - apply elem_of_seqZ in Hk. rewrite (proj2 (Z.eqb_neq _ _)) by lia. split; [|lia]. apply (mf_slot _ _ _ _ _ _ _ _ k Hm). lia.
    - destruct (NDIRECT <? blocks f.2) eqn:E; [|by apply elem_of_nil in Hk]. apply list_elem_of_singleton in Hk as ->. rewrite Z.eqb_refl. split; [|done].
      apply (mf_ind _ _ _ _ _ _ _ _ Hm). }
  split; [done|]. split; [unfold i, alen; lia|]. pose proof (im_own _ _ fin_ok _ _ Ho) as Hb. change nmeta with 46 in Hb. split; [lia|].
  destruct (k =? MAXFILE); [by left|]. right. exists k. split; [by apply Hr|done].
Qed.

Lemma fin_all b : (∀ n f, mk_table args !! n = Some f → blocks f.2 ≤ MAXFILE) → nmeta ≤ b < freeblock s → ∃ i, 1 ≤ i < alen args + 2 ∧ owns C (iread C i) b.
Proof using Hinv Hlen.
  intros Hmax Hb. set (l := slots 1 (mk_table args)). pose proof (λ ik, slot_own ik Hmax) as Hs. fold l in Hs.
  assert (own <$> (slot_addr <$> l) = Some <$> l) as E.
  { rewrite <- list_fmap_compose. apply list_fmap_ext. intros n ik Hik. cbn. apply Hs. by eapply list_elem_of_lookup_2. }
  assert (NoDup (slot_addr <$> l)) as Hnd by (apply (NoDup_fmap_1 own); rewrite E; apply NoDup_fmap_2; [apply _|by apply NoDup_slots]).
  pose proof (mi_total _ _ _ _ Hinv) as Ht. pose proof (length_slots (mk_table args) 1) as Hl. fold l in Hl.
  assert (incl (seqZ nmeta (total (mk_table args))) (slot_addr <$> l)) as Hincl.
  { apply NoDup_length_incl; [by apply NoDup_ListNoDup|rewrite length_seqZ, length_fmap; lia|].
    intros x Hx. apply list_elem_of_In, list_elem_of_fmap in Hx as (ik & -> & Hik). apply list_elem_of_In, elem_of_seqZ.
    pose proof (im_own _ _ fin_ok _ _ (proj1 (Hs ik Hik))) as Hr. change (freeblock s') with (freeblock s) in Hr. lia. }
  specialize (Hincl b ltac:(apply list_elem_of_In, elem_of_seqZ; lia)). apply list_elem_of_In, list_elem_of_fmap in Hincl as (ik & -> & Hik).
  exists ik.1. split; by apply Hs.
Qed.
End Final.

Lemma sb_roundtrip : sb_dec (splice 0 (sb_bytes sb) zeroes) = sb.
Proof. reflexivity. Qed.

Lemma table_blocks args n f : (length args ≤ 198)%nat → Forall arg_ok args → mk_table args !! n = Some f → alen f.2 ≤ MAXFILE * BSIZE.
Proof.
  intros Hlen Hok Hf. destruct n as [|n].
  - apply (inj Some) in Hf as <-. cbn [snd]. unfold alen. rewrite length_dir_bytes, length_entries. change MAXFILE with 268. unfold BSIZE. lia.
  - unfold mk_table in Hf. cbn in Hf. apply list_lookup_fmap_Some in Hf as (a & -> & Ha). by apply (Forall_lookup_1 _ _ _ _ Hok Ha).
Qed.

Lemma image_built own s args :
  0 ≤ dev < 2 ^ 32 → Forall arg_ok args → (length args ≤ 198)%nat → (alen args + 2) mod 64 ≠ 0 → mk_inv dev own s (mk_table args) →
  mkfs_image args (disk (final s (root_size args))).
Proof.
  intros Hdev Hok Hlen Hmod Hinv. set (s' := final s (root_size args)). pose proof (fin_used _ _ _ Hinv Hlen) as Hf.
  pose proof (λ b, fin_marked own s args Hinv Hlen b) as Hmk. fold s' in Hmk. pose proof (fin_ok _ _ _ Hinv Hlen) as Him. fold s' in Him. change FSSIZE with 2000 in Hmk.
  assert (∀ b, nmeta ≤ b < freeblock s' → marked (disk s') b = true) as Hmk'.
  { intros b Hb. change nmeta with 46 in Hb. change (freeblock s') with (freeblock s) in Hb. rewrite Hmk by lia. lia. }
  assert (∀ i b, 1 ≤ i < alen args + 2 → owns (disk s') (iread (disk s') i) b → ∃ k, own b = Some (i, k)) as Hown.
  { intros i b Hi Hb. destruct (lookup_lt_is_Some_2 (mk_table args) (Z.to_nat (i - 1))) as [f Hfl]; [unfold mk_table; cbn; rewrite length_fmap; unfold alen in Hi; lia|].
    destruct (fin_file _ _ _ Hinv Hlen _ _ Hfl) as (_ & _ & _ & Hm). replace (Z.of_nat (Z.to_nat (i - 1)) + 1) with i in Hm by lia. by eapply file_owns. }
  split.
  - rewrite disk_at. unfold s'. rewrite fin_img by done. rewrite (mi_boot _ _ _ _ Hinv) by done. apply sb_roundtrip.
  - by apply sb_layout.
  - change (sb_logstart sb) with 2. rewrite disk_at. unfold s'. rewrite fin_img by done. by rewrite (mi_boot _ _ _ _ Hinv) by done.
  - split; [|intros κ; apply (im_blk _ _ Him)]. intros b Hb. change nmeta with 46 in Hb. rewrite Hmk by lia. lia.
  - destruct (fin_root _ _ _ Hinv Hlen) as (R1 & R2 & R3 & R4). fold s' in R1, R2, R3, R4. pose proof (alen_args _ Hlen) as Hn. split; [|done]. split; [done| |].
    + change ROOTINO with 1. rewrite R3. unfold root_size, BSIZE, DIRENT. dlia.
    + eapply file_ino_ok; [exact Him|exact R4|done|done|]. change ROOTINO with 1. rewrite R3. unfold root_size, nblk, BSIZE in *. dlia.
  - intros name. by apply (root_lookup own).
  - intros k a Ha e. assert (mk_table args !! S k = Some (arg_file a)) as Hk by (change ((arg_file <$> args) !! k = Some (arg_file a)); by rewrite list_lookup_fmap, Ha).
    destruct (fin_file _ _ _ Hinv Hlen _ _ Hk) as (R1 & R2 & R3 & R4). replace (Z.of_nat (S k) + 1) with (Z.of_nat k + 2) in * by lia. fold s' e in R1, R2, R3, R4.
    rewrite decide_False in R3 by done. split; [done|]. split; [done|]. split; [|by apply (file_fdata _ _ _ _ _ _ _ R4)].
    eapply file_ino_ok; [exact Him|exact R4|done|done|]. rewrite R3. pose proof (mf_len _ _ _ _ _ _ _ _ R4). unfold alen in *. lia.
  - intros i Hi. change (sb_ninodes sb) with 200 in Hi. pose proof (alen_args _ Hlen). unfold s'. rewrite iread_eq, (fin_dinode own) by (done || unfold inum_ok; lia).
    rewrite decide_False by lia. rewrite (mi_free _ _ _ _ Hinv); [done| |unfold inum_ok; lia]. unfold mk_table, alen in *. cbn [length]. rewrite length_fmap. lia.
  - intros b Hb. change nmeta with 46 in Hb. change (sb_size sb) with 2000 in Hb. rewrite Hmk, Z.ltb_lt by lia. split.
    + intros Hlt. apply (fin_all own s args); [done|done| |change nmeta with 46; lia]. intros n f Hfl. eapply blocks_max, table_blocks; done.
    + intros (i & Hi & Ho). destruct (Hown i b Hi Ho) as [k Hk]. apply (im_own _ _ Him) in Hk. change (freeblock s') with (freeblock s) in Hk. lia.
  - intros i j b Hi Hj Ho1 Ho2. destruct (Hown i b Hi Ho1) as [k1 E1]. destruct (Hown j b Hj Ho2) as [k2 E2]. congruence.
Qed.
End MkfsImage.

(** C9: mkfs builds the file system the kernel expects.  For up to 198 files that can be opened,
    whose names (after "user/") hold no slash, that fit in a file and in the image, and whatever
    pieces [read] returns them in, [main] exits with 0, and the image has: the superblock;
    an empty log; a free map in which exactly the metadata blocks and the blocks of the files and of
    the root directory are marked; a well-formed root directory in which each name leads to the
    inode of the first file of that name (compared as the kernel compares names), and "." and
    ".." to the root; for each file a well-formed inode with one link and exactly its bytes;
    no block in two files; and every other inode free.  The number of directory entries must not
    be a multiple of 64. *)
Theorem mkfs_correct (dev : Z) (args : list mk_arg) :
  0 ≤ dev < 2 ^ 32 → Forall arg_ok args → (length args ≤ 198)%nat → nmeta + total (mk_table args) ≤ FSSIZE → (alen args + 2) mod 64 ≠ 0 →
  halts (mkfs_main args) mk0 (Exited 0) (λ s, mkfs_image dev args (disk s)).
Proof. intros Hdev Hok Hlen Hfree Hmod. apply (halts_main dev); [done..|]. intros own s Hinv. by eapply image_built. Qed.

(** C30: When the entries fill the root directory's last block, [main] sets the directory's size to
    one block more than it has: the block at the end of the directory has no address, and the
    root is not a well-formed directory. *)
Theorem mkfs_root_full (dev : Z) (args : list mk_arg) :
  Forall arg_ok args → (length args ≤ 198)%nat → nmeta + total (mk_table args) ≤ FSSIZE → (alen args + 2) mod 64 = 0 →
  halts (mkfs_main args) mk0 (Exited 0) (λ s, let root := iread dev (disk s) ROOTINO in let bn := (alen args + 2) / 64 in
    i_size root = (bn + 1) * BSIZE ∧ blk dev (disk s) root bn = 0 ∧ ¬ dir_ok dev sb nmeta (disk s) root).
Proof.
  intros Hok Hlen Hfree Hmod. apply (halts_main dev); [done..|]. intros own s Hinv. pose proof (alen_args _ Hlen) as Hn.
  destruct (fin_root _ _ _ _ Hinv Hlen) as (_ & _ & R3 & R4). change ROOTINO with 1. set (root := iread _ _ 1) in *. set (bn := (alen args + 2) / 64).
  assert (i_size root = (bn + 1) * BSIZE) as Hs by (rewrite R3; unfold root_size, bn, BSIZE; dlia).
  assert (blk dev (disk (final s (root_size args))) root bn = 0) as Hb.
  { pose proof (mf_blk _ _ _ _ _ _ _ _ R4 bn ltac:(change MAXFILE with 268; unfold bn; dlia)) as Hb. rewrite decide_False in Hb; [done|]. unfold nblk, bn, BSIZE. dlia. }
  split; [done|]. split; [done|]. intros [_ _ [_ _ _ _ Hall]]. apply (Hall bn); [unfold bn; dlia|rewrite Hs; unfold BSIZE; lia|done].
Qed.

(** ** Examples *)
Definition example_args : list mk_arg := [([117; 115; 101; 114; 47; 95; 99; 97; 116], Some [[1; 2; 3]; [4]]); ([82], Some [])].

Lemma mkfs_correct_witness :
  halts (mkfs_main example_args) mk0 (Exited 0) (λ s, mkfs_image 1 example_args (disk s)).
Proof.
  apply (mkfs_correct 1 example_args); [done| |cbn; lia|by vm_compute|done].
  repeat (apply Forall_cons; split); [| |constructor]; (split; [apply (bool_decide_unpack _); by vm_compute|split; [by eexists|by vm_compute]]).
Defined.

Lemma mkfs_root_full_witness :
  let args := replicate 62 ([82], Some []) : list mk_arg in
  halts (mkfs_main args) mk0 (Exited 0) (λ s, let root := iread 1 (disk s) ROOTINO in let bn := (alen args + 2) / 64 in
    i_size root = (bn + 1) * BSIZE ∧ blk 1 (disk s) root bn = 0 ∧ ¬ dir_ok 1 sb nmeta (disk s) root).
Proof.
  apply (mkfs_root_full 1); [|cbn; lia|by vm_compute|done]. apply Forall_replicate.
  split; [|split; [by eexists|by vm_compute]]. intros H. apply list_elem_of_singleton in H. done.
Defined.
