(* ===== verification/Pipe.v ===== *)
(** * Pipes as bounded queues (kernel/pipe.c)

    [pq p]: the bytes in the pipe, oldest first.  The counters [nread] and [nwrite]
    run freely modulo 2^32; the buffer's size divides 2^32, so they can wrap. *)

From Stdlib Require Import FunctionalExtensionality.
From S2P Require Import Prelude Memory Riscv Spinlock Core CString Kalloc Vm PageTable VmProof Uvm UvmOps UserCopy VmExamples Sleeplock BufCache Bio BioProof BioSpec Log LogSafety Sys Fs Console File Proc FsExamples.

(** ** The ring *)

Definition pcount (p : pipe) : Z := u32 (pi_nwrite p - pi_nread p).
Definition pq (p : pipe) : list Z := (λ j, aget (pi_data p) ((pi_nread p + j) mod PIPESIZE)) <$> seqZ 0 (pcount p).

Record pipe_ok (p : pipe) : Prop := {
  pk_len : alen (pi_data p) = PIPESIZE;
  pk_read : 0 ≤ pi_nread p < 2 ^ 32;
  pk_write : 0 ≤ pi_nwrite p < 2 ^ 32;
  pk_count : pcount p ≤ PIPESIZE;
}.

Definition push1 (ch : Z) (p : pipe) : pipe :=
  set_nwrite (u32 (pi_nwrite p + 1)) (set_pidata (aset (pi_data p) (pi_nwrite p mod PIPESIZE) ch) p).
Definition pop1 (p : pipe) : pipe := set_nread (u32 (pi_nread p + 1)) p.

Lemma length_pq p : Z.of_nat (length (pq p)) = pcount p.
Proof. unfold pq. rewrite length_fmap, length_seqZ. pose proof (u32_range (pi_nwrite p - pi_nread p)). unfold pcount. lia. Qed.

Section ring.
Context (p : pipe) (Hp : pipe_ok p).

Lemma pcount_full : (pi_nwrite p =? u32 (pi_nread p + PIPESIZE)) = (pcount p =? PIPESIZE).
Proof using Hp. destruct Hp as [_ H1 H2 H3]. unfold pcount, u32, PIPESIZE in *. apply eq_true_iff_eq. rewrite !Z.eqb_eq. dlia. Qed.

Lemma pcount_empty : (pi_nread p =? pi_nwrite p) = (pcount p =? 0).
Proof using Hp. destruct Hp as [_ H1 H2 H3]. unfold pcount, u32, PIPESIZE in *. apply eq_true_iff_eq. rewrite !Z.eqb_eq. dlia. Qed.

Lemma pcount_push ch : pcount p < PIPESIZE → pcount (push1 ch p) = pcount p + 1.
Proof using Hp. intros Hc. destruct Hp as [_ H1 H2 H3]. unfold pcount, push1, u32, PIPESIZE in *. cbn. dlia. Qed.

Lemma pcount_pop : 0 < pcount p → pcount (pop1 p) = pcount p - 1.
Proof using Hp. intros Hc. destruct Hp as [_ H1 H2 H3]. unfold pcount, pop1, u32, PIPESIZE in *. cbn. dlia. Qed.

Lemma push1_ok ch : pcount p < PIPESIZE → pipe_ok (push1 ch p).
Proof using Hp.
  intros Hc. pose proof (pcount_push ch Hc). destruct Hp as [H0 H1 H2 H3]. split; [cbn; by rewrite alen_aset|done|apply u32_range|lia].
Qed.

Lemma pop1_ok : 0 < pcount p → pipe_ok (pop1 p).
Proof using Hp. intros Hc. pose proof (pcount_pop Hc). destruct Hp as [H0 H1 H2 H3]. split; [done|apply u32_range|done|lia]. Qed.

(** The slot of the [j]th byte. *)
Lemma slot_push j : 0 ≤ j < pcount p → pcount p < PIPESIZE → (pi_nread p + j) mod PIPESIZE ≠ pi_nwrite p mod PIPESIZE.
Proof using Hp. intros Hj Hc. destruct Hp as [_ H1 H2 H3]. unfold pcount, u32, PIPESIZE in *. dlia. Qed.

Lemma slot_last : (pi_nread p + pcount p) mod PIPESIZE = pi_nwrite p mod PIPESIZE.
Proof using Hp. destruct Hp as [_ H1 H2 H3]. unfold pcount, u32, PIPESIZE in *. dlia. Qed.

Lemma slot_pop j : 0 ≤ j → (u32 (pi_nread p + 1) + j) mod PIPESIZE = (pi_nread p + (j + 1)) mod PIPESIZE.
Proof using Hp. intros Hj. destruct Hp as [_ H1 H2 H3]. unfold pcount, u32, PIPESIZE in *. dlia. Qed.

Lemma pq_push ch : pcount p < PIPESIZE → pq (push1 ch p) = pq p ++ [ch].
Proof using Hp.
  intros Hc. pose proof (u32_range (pi_nwrite p - pi_nread p)) as Hr. fold (pcount p) in Hr.
  assert (0 ≤ pi_nwrite p mod PIPESIZE < PIPESIZE) as Hs by (apply Z.mod_pos_bound; done).
  unfold pq. rewrite pcount_push by done. rewrite seqZ_app, fmap_app by lia. f_equal.
  - apply list_fmap_ext. intros _ j Hj%list_elem_of_lookup_2%elem_of_seqZ. cbn. rewrite aget_aset_ne; [done|lia|apply Z.mod_pos_bound; done|].
    intros E. apply (slot_push j); [lia|done|]. symmetry. exact E.
  - rewrite Z.add_0_l. rewrite (seqZ_cons _ 1) by done. cbn [Z.pred Z.add seqZ seq Z.to_nat Z.pos_sub fmap list_fmap push1 pi_data pi_nread set_nwrite set_pidata].
    rewrite slot_last, aget_aset_eq; [done|]. rewrite (pk_len _ Hp). done.
Qed.

Lemma pq_pop : 0 < pcount p → pq p = aget (pi_data p) (pi_nread p mod PIPESIZE) :: pq (pop1 p).
Proof using Hp.
  intros Hc. unfold pq at 1. rewrite seqZ_cons by done. rewrite fmap_cons, Z.add_0_r. f_equal. unfold pq. rewrite pcount_pop by done.
  change (Z.succ 0) with (1 + 0). rewrite <- fmap_add_seqZ, <- list_fmap_compose. apply list_fmap_ext.
  intros _ j Hj%list_elem_of_lookup_2%elem_of_seqZ. cbn. rewrite slot_pop by lia. do 2 f_equal. lia.
Qed.
End ring.

(** ** The pipe in the state *)

Section PipeState.
Context {S : Type}.
Implicit Types (s : sys S).

Definition pset (pi : Z) (p : pipe) s : sys S := set_pipes (λ a, if a =? pi then p else sy_pipes s a) s.

Lemma pset_get pi p s : sy_pipes (pset pi p s) pi = p.
Proof. cbn. by rewrite Z.eqb_refl. Qed.
Lemma pset_pset pi p p' s : pset pi p (pset pi p' s) = pset pi p s.
Proof. unfold pset, set_pipes. cbn. f_equal. extensionality a. by destruct (a =? pi). Qed.

#[global] Instance pipelock_lens pi : LockLens (slock (S := sys S) (pipelock pi)).
Proof.
  apply slock_lens.
  - intros t s. cbn. by rewrite Z.eqb_refl.
  - intros t t' s. unfold pipelock. cbn. unfold set_pipes. cbn. f_equal. extensionality a. destruct (a =? pi); [|done]. by rewrite Z.eqb_refl.
Defined.
End PipeState.

(** ** One byte to and from the user *)

Section UserByte.
Context {S : Type} `{BC : BufCache S} (end_ : Z).
Context (x : kern * kalloc_st) (root : Z) (l : list Z) (D : Z → Prop).
Context (Hok : uvm_ok end_ x root l D) (HD : ∀ va, uacc (km_ram x.2) root va → D (va / PGSIZE)).
Abbreviation m := (km_ram x.2).

(** The page tables of the address space are as in [x]. *)
Definition same_tables (y : kern * sys S) : Prop := ∀ a z, is_table m root a → in_page a z → ram y z = m z.

Lemma runs_ucopyin1 y va : same_tables y → uacc m root va →
  runs (zoom mem_of (copyin root va 1)) y (λ br y', br = ([ram y (upa m root va)], 0) ∧ y' = y).
Proof using Hok HD.
  intros Hs Ha. assert (0 ≤ va < 2 ^ 64) as Hva by (destruct Ha as [Hr _]; change MAXVA with (2 ^ 38) in Hr; lia).
  apply runs_zoom. eapply runs_mono; [apply (runs_copyin end_ x root l D Hok HD (view mem_of y) va 1 Hs Hva); lia|].
  intros [bs r] x' (-> & Hd & [[Hr Hl]|(_ & Hl & Hn)]); cbn [fst snd] in *.
  - destruct bs as [|b [|b' bs]]; [done| |unfold alen in Hl; cbn in Hl; lia]. subst r. destruct (Hd 0%nat b eq_refl) as [_ E]. rewrite Z.add_0_r in E. split; [by rewrite E|].
    by destruct y as [k [[]]].
  - destruct bs; [|unfold alen in Hl; cbn in Hl; lia]. by rewrite Z.add_0_r in Hn.
Qed.

Lemma runs_ucopyout1 y va b : same_tables y → uacc m root va →
  runs (zoom mem_of (copyout root va [b])) y (λ r y', r = 0 ∧ y' = set_ram (mset (ram y) (upa m root va) b) y).
Proof using Hok HD.
  intros Hs Ha. assert (0 ≤ va < 2 ^ 64) as Hva by (destruct Ha as [Hr _]; change MAXVA with (2 ^ 38) in Hr; lia).
  pose proof (PGROUNDDOWN_bounds va) as [_ Hpb]. pose proof (uacc_round root m va Ha) as Har.
  apply runs_zoom. unfold copyout. cbn [length loop]. rewrite bool_decide_eq_false_2 by done. kif. kstep.
  destruct (walkaddr_spec end_ x root l D Hok HD (view mem_of y) (PGROUNDDOWN va)) as [[_ Hn]|[Hw _]];
    [destruct Har as [Hr _]; change MAXVA with (2 ^ 38) in Hr; lia|exact Hs|done|].
  kstep. eapply runs_eq; [exact Hw|]. pose proof (uacc_page end_ x root l D Hok HD _ Har) as Hpg.
  pose proof (page_ok_pos end_ _ (ki_end _ _ _ (po_alloc _ _ _ _ (uo_pt _ _ _ _ _ Hok))) Hpg).
  rewrite (proj2 (Z.eqb_neq _ 0)) by lia. kif.
  assert (Z.min (PGSIZE - (va - PGROUNDDOWN va)) (alen [b]) = 1) as -> by (unfold alen, PGSIZE in *; cbn; lia).
  kstep. kstep. kstep. rewrite bool_decide_eq_true_2 by done. kif. kstep. split; [done|].
  unfold set_ram, ram. cbn. replace (upage m root (PGROUNDDOWN va / PGSIZE) + (va - PGROUNDDOWN va)) with (upa m root va); [done|].
  destruct (chunk_acc end_ x root l D Hok HD va 1 0 Har) as [_ E]; [unfold PGSIZE in *; lia|lia|]. rewrite !Z.add_0_r in E. exact E.
Qed.
End UserByte.

(** ** Writing and reading *)

Section PipeOps.
Context {S : Type} `{BC : BufCache S} (end_ : Z).
Context (pi : Z) (k : kern) (s : sys S) (i : nat) (pid : Z) (root : Z) (l : list Z) (D : Z → Prop).
Context (Hrun : running k i pid) (Hroot : p_pagetable (k_procs k !!! i) = root).
Context (Hlk : locked (pi_lock (sy_pipes s pi)) = 0) (Hp : pipe_ok (sy_pipes s pi)).
Context (Hok : uvm_ok end_ (k, vm_kmem (sy_vm s)) root l D).
Context (HD : ∀ va, uacc (km_ram (vm_kmem (sy_vm s))) root va → D (va / PGSIZE)).
Abbreviation m := (km_ram (vm_kmem (sy_vm s))).
Abbreviation p0 := (sy_pipes s pi).

(** [n] bytes of user memory. *)
Definition ubytes (addr n : Z) : list Z := (λ j, m (upa m root (addr + j))) <$> seqZ 0 n.

(** What stays of the pipe: its two ends. *)
Definition same_ends (p p' : pipe) : Prop := pi_readopen p' = pi_readopen p ∧ pi_writeopen p' = pi_writeopen p.

Lemma runs_upd_pipe g k1 p Q : Q tt (k1, pset pi (g p) s) → runs (upd_pipe pi g) (k1, pset pi p s) Q.
Proof using.
  intros HQ. apply runs_modify. cbn [fst snd]. change (set_pipes _ (pset pi p s)) with (pset pi (g (sy_pipes (pset pi p s) pi)) (pset pi p s)).
  by rewrite pset_pset, pset_get.
Qed.

Lemma lookup_ubytes addr n j : 0 ≤ j < n → ubytes addr n !! Z.to_nat j = Some (m (upa m root (addr + j))).
Proof using. intros Hj. unfold ubytes. rewrite list_lookup_fmap, lookup_seqZ_lt by lia. cbn. do 4 f_equal. lia. Qed.

Lemma take_ubytes addr n j : 0 ≤ j < n → take (Z.to_nat (j + 1)) (ubytes addr n) = take (Z.to_nat j) (ubytes addr n) ++ [m (upa m root (addr + j))].
Proof using.
  intros Hj. replace (Z.to_nat (j + 1)) with (Datatypes.S (Z.to_nat j)) by lia. apply take_S_r. by apply lookup_ubytes.
Qed.

Lemma length_ubytes addr n : 0 ≤ n → alen (ubytes addr n) = n.
Proof using. intros. unfold alen, ubytes. rewrite length_fmap, length_seqZ. lia. Qed.

(** The write loop up to [n] bytes that fit. *)
Definition wrote (k1 : kern) (lk : spinlock) (addr n j : Z) (y : kern * sys S) : Prop :=
  ∃ p1, y = (k1, pset pi p1 s) ∧ pipe_ok p1 ∧ pq p1 = pq p0 ++ take (Z.to_nat j) (ubytes addr n) ∧ same_ends p0 p1 ∧ pi_lock p1 = lk.

Lemma pcount_app p q bs : pq p = q ++ bs → pcount p = Z.of_nat (length q) + alen bs.
Proof using. intros E. rewrite <- length_pq, E, length_app. unfold alen. lia. Qed.

(** One byte. *)
Lemma runs_write_byte pr k1 lk addr n j y :
  p_pagetable pr = root → wrote k1 lk addr n j y → 0 ≤ j < n → Z.of_nat (length (pq p0)) + j < PIPESIZE → uacc m root (addr + j) →
  runs ('(ch, r) ← zoom mem_of (copyin (p_pagetable pr) (u64 (addr + j)) 1);
    if r =? -1 then mret (inr true) else
    upd_pipe pi (λ p, set_pidata (aset (pi_data p) (pi_nwrite p mod PIPESIZE) (hd 0 ch)) p);;
    upd_pipe pi (λ p, set_nwrite (u32 (pi_nwrite p + 1)) p);;
    mret (inl (j + 1))) y (λ r y', r = inl (j + 1) ∧ wrote k1 lk addr n (j + 1) y').
Proof using Hok HD.
  intros -> (p1 & -> & Hk & Hq & Hs & Hl) Hj Hc Ha. pose proof (pcount_app _ _ _ Hq) as Hcnt.
  rewrite u64_small by (destruct Ha as [Hr _]; change MAXVA with (2 ^ 38) in Hr; lia).
  kstep. eapply runs_mono; [apply (runs_ucopyin1 end_ (k, vm_kmem (sy_vm s)) root l D Hok HD); [by intros a z|exact Ha]|].
  intros br y' [-> ->]. cbv beta iota. change (0 =? -1) with false. kif. kstep. apply runs_upd_pipe. kstep. apply runs_upd_pipe. kstep.
  split; [done|]. cbn [hd]. set (b := ram (k1, pset pi p1 s) (upa m root (addr + j))).
  assert (alen (ubytes addr n) = n) as Hlen by (apply length_ubytes; lia).
  assert (pcount p1 < PIPESIZE) as Hlt.
  { rewrite Hcnt. unfold alen in *. rewrite length_take. lia. }
  exists (push1 b p1). split; [done|]. split; [by apply push1_ok|]. split; [|done].
  rewrite pq_push by done. rewrite take_ubytes by done. by rewrite Hq, app_assoc.
Qed.

Lemma runs_start_pipe (Q : proc → kern * sys S → Prop) :
  Q (k_procs k !!! i) (set_kcpu (settle (k_cpu k)) k, s) → runs my_proc (k, s) Q.
Proof using Hrun.
  intros HQ. destruct Hrun as ((Hc & _) & Hpr & _). unfold my_proc. kstep. apply (runs_curproc k s i); [done|done|].
  unfold the_proc. kstep. exact HQ.
Qed.

Lemma drop_pipelock p : over (pipelock pi) (dropped (view (pipelock pi) (pset pi p s))) (pset pi p s) = pset pi (set_pilock (dropped (pi_lock p)) p) s.
Proof using.
  change (over (pipelock pi) (dropped (view (pipelock pi) (pset pi p s))) (pset pi p s)) with
    (pset pi (set_pilock (dropped (pi_lock (sy_pipes (pset pi p s) pi))) (sy_pipes (pset pi p s) pi)) (pset pi p s)).
  by rewrite pset_pset, pset_get.
Qed.

(** The bytes fit: all of them are in the pipe, after those that were there. *)
Lemma runs_pipewrite addr n :
  0 ≤ n → Z.of_nat (length (pq p0)) + n ≤ PIPESIZE → (∀ j, 0 ≤ j < n → uacc m root (addr + j)) →
  runs (pipewrite pi addr n) (k, s) (λ r y', r = n ∧ kern_le k y'.1 ∧ ∃ p1, y'.2 = pset pi p1 s ∧ pipe_ok p1 ∧
    pq p1 = pq p0 ++ ubytes addr n ∧ same_ends p0 p1 ∧ locked (pi_lock p1) = 0).
Proof using Hrun Hroot Hlk Hp Hok HD.
  intros Hn Hfit Hacc. unfold pipewrite. kstep. apply runs_start_pipe. set (k1 := set_kcpu _ k).
  assert (kern_le k k1) as Hle1.
  { destruct Hrun as (Hko & _). apply kern_le_same; [done|apply same_kern_settle|apply settle_ok, Hko]. }
  kstep. apply (runs_acquire_le (pipelock pi)); [done|done|]. set (lk := taken _ _). kstep.
  eapply (runs_mono _ _ (λ r y', r = true ∧ wrote (pushed k1) lk addr n n y')).
  { apply (runs_loop _ (λ j y', 0 ≤ j ≤ n ∧ wrote (pushed k1) lk addr n j y') (λ j _, Z.to_nat (n - j))); [| |lia].
    - intros j y1 [Hj Hw]. destruct (n <=? j) eqn:E; kif; zify_bool; [kstep; by assert (j = n) as -> by lia|].
      kstep. pose proof Hw as (p1 & -> & Hk1 & Hq1 & _). unfold get_pipe. kstep. cbn [snd]. rewrite pset_get.
      pose proof (pcount_app _ _ _ Hq1) as Hc1. rewrite pcount_full, (proj2 (Z.eqb_neq _ _)) by (done || rewrite Hc1; unfold alen; rewrite length_take; lia).
      kif. kstep. kstep. kif. eapply runs_mono; [apply (runs_write_byte _ (pushed k1) lk addr n j _ Hroot Hw); [lia|lia|apply Hacc; lia]|].
      intros r y2 [-> Hw2]. split; [split; [lia|done]|lia].
    - split; [lia|]. exists (set_pilock lk p0). split; [done|]. split; [by destruct Hp|]. split; [by rewrite app_nil_r|done]. }
  intros r y1 [-> (p1 & -> & Hk1 & Hq1 & Hs1 & Hl1)]. cbv beta iota.
  assert (kern_ok (pushed k1)) as Hko by apply pushed_ok, Hle1.
  kstep. eapply runs_mono; [apply (runs_wakeup_le _ _ _ Hko)|]. intros [] [k2 s2] [Es Hle2]. cbn in Es, Hle2. subst s2.
  kstep. apply (runs_release_le (pipelock pi) k1); [apply Hle1|done|done|cbn; rewrite Z.eqb_refl, Hl1; done|cbn; by rewrite Z.eqb_refl, Hl1|].
  intros k3 Hle3. kstep. split; [done|]. split; [by eapply kern_le_trans|]. exists (set_pilock (dropped lk) p1).
  split; [cbn [snd]; by rewrite drop_pipelock, Hl1|].
  split; [by destruct Hk1|]. split; [|done]. rewrite take_ge in Hq1; [done|]. pose proof (length_ubytes addr n Hn). unfold alen in *. lia.
Qed.

(** The bytes do not fit: the pipe is filled, readers are woken, and the writer
    sleeps until there is room, with the pipe unlocked. *)
Lemma pipewrite_waits addr n :
  c_noff (k_cpu k) = 0 → p_killed (k_procs k !!! i) = 0 → pi_readopen p0 ≠ 0 →
  let room := PIPESIZE - Z.of_nat (length (pq p0)) in
  room < n → (∀ j, 0 ≤ j < room → uacc m root (addr + j)) →
  halts (pipewrite pi addr n) (k, s) Asleep (λ y', ∃ p1, y'.2 = pset pi p1 s ∧ pipe_ok p1 ∧
    pq p1 = pq p0 ++ take (Z.to_nat room) (ubytes addr n) ∧ same_ends p0 p1 ∧ locked (pi_lock p1) = 0 ∧
    p_state (k_procs y'.1 !!! i) = SLEEPING ∧ p_chan (k_procs y'.1 !!! i) = Some (ChPipeWrite pi)).
Proof using Hrun Hroot Hlk Hp Hok HD.
  intros Hnoff Hkill Hro room Hroom Hacc. assert (0 ≤ room) as Hr0 by (pose proof (pk_count _ Hp); unfold room; rewrite length_pq; lia).
  unfold pipewrite. apply halts_bind_r. apply runs_start_pipe. set (k1 := set_kcpu _ k). pose proof Hrun as (Hko & Hcp & Hi & _).
  assert (kern_le k k1) as Hle1 by (apply kern_le_same; [done|apply same_kern_settle|apply settle_ok, Hko]).
  apply halts_bind_r. apply (runs_acquire_le (pipelock pi)); [done|done|]. set (lk := taken _ _). apply halts_bind_l.
  assert (kern_ok (pushed k1)) as Hko1 by apply pushed_ok, Hle1.
  apply (halts_loop _ (λ j y', 0 ≤ j ≤ room ∧ wrote (pushed k1) lk addr n j y') (λ j _, Z.to_nat (n - j))); [| |lia].
  2: { split; [lia|]. exists (set_pilock lk p0). split; [done|]. split; [by destruct Hp|]. split; [by rewrite app_nil_r|done]. }
  intros j y1 [Hj Hw]. rewrite (proj2 (Z.leb_gt n j)) by lia. pose proof Hw as (p1 & -> & Hk1 & Hq1 & Hs1 & Hl1).
  pose proof (pcount_app _ _ _ Hq1) as Hc1. assert (alen (ubytes addr n) = n) as Hlen by (apply length_ubytes; lia).
  assert (pcount p1 = Z.of_nat (length (pq p0)) + j) as Hcj by (rewrite Hc1; unfold alen in *; rewrite length_take; lia).
  destruct (decide (j = room)) as [->|Hne]; [right|left].
  - apply halts_bind_r. unfold get_pipe. kstep. cbn [snd]. rewrite pset_get, pcount_full, (proj2 (Z.eqb_eq _ _)) by (done || lia). apply halts_bind_l.
    apply halts_bind_r. unfold my_proc. kstep. apply (runs_curproc _ _ i); [apply Hko1|cbn; by rewrite push_off_proc, settle_proc|]. unfold the_proc. kstep. cbn [fst k_procs set_kcpu pushed].
    change (k_procs k1) with (k_procs k). rewrite (proj1 Hs1), (proj2 (Z.eqb_neq _ 0)), Hkill by done. cbn [orb negb Z.eqb].
    set (k2 := set_kcpu _ (pushed k1)). assert (k_cpu k2 = push_off_cpu (settle (k_cpu k))) as Ec2.
    { unfold k2. cbn. apply settle_push_off, settle_ok, Hko. }
    assert (kern_ok k2) as Hko2 by (destruct Hko1 as (H1 & H2 & H3); split_and!; [by apply settle_ok|done|done]).
    apply halts_bind_r. eapply runs_mono; [apply (runs_wakeup _ k2 _ Hko2)|]. intros [] [k3 s3] (Es & Hko3 & Ec3 & _). cbn [fst snd] in Es, Hko3, Ec3. subst s3.
    rewrite Ec2, settle_push_off in Ec3 by apply settle_ok, Hko. apply halts_bind_l.
    eapply halts_mono; [apply (halts_sleep _ (pipelock pi) k3 _ i (settle (k_cpu k)) Ec3); try done|].
    + apply settle_ok, Hko.
    + by rewrite settle_noff.
    + by rewrite settle_proc.
    + apply Hko3.
    + apply Hko3.
    + cbn. by rewrite Z.eqb_refl, Hl1.
    + cbn. by rewrite Z.eqb_refl, Hl1.
    + intros [k4 s4]. cbn [fst snd]. intros (Es & H1 & H2 & _). exists (set_pilock (dropped lk) p1). split; [by rewrite Es, drop_pipelock, Hl1|].
      split; [by destruct Hk1|]. done.
  - kstep. unfold get_pipe. kstep. cbn [snd]. rewrite pset_get, pcount_full, (proj2 (Z.eqb_neq _ _)) by (done || lia).
    kif. kstep. kstep. kif. eapply runs_mono; [apply (runs_write_byte _ (pushed k1) lk addr n j _ Hroot Hw); [lia|lia|apply Hacc; lia]|].
    intros r y2 [-> Hw2]. exists (j + 1). split; [done|]. split; [split; [lia|done]|lia].
Qed.

(** The read loop after [j] bytes. *)
Definition was_read (k1 : kern) (lk : spinlock) (addr j : Z) (y : kern * sys S) : Prop :=
  ∃ p1 m1, y = set_ram m1 (k1, pset pi p1 s) ∧ pipe_ok p1 ∧ pq p1 = drop (Z.to_nat j) (pq p0) ∧
    written root m m1 addr (take (Z.to_nat j) (pq p0)) ∧ same_ends p0 p1 ∧ pi_lock p1 = lk.

Lemma runs_read_byte pr k1 lk addr j y :
  p_pagetable pr = root → was_read k1 lk addr j y → 0 ≤ j < Z.of_nat (length (pq p0)) → (∀ j', 0 ≤ j' ≤ j → uacc m root (addr + j')) →
  runs (p ← get_pipe pi;
    if pi_nread p =? pi_nwrite p then mret (inr j) else
    let ch := aget (pi_data p) (pi_nread p mod PIPESIZE) in
    upd_pipe pi (λ p, set_nread (u32 (pi_nread p + 1)) p);;
    r ← zoom mem_of (copyout (p_pagetable pr) (u64 (addr + j)) [ch]);
    if r =? -1 then mret (inr j) else
    mret (inl (j + 1))) y (λ r y', r = inl (j + 1) ∧ was_read k1 lk addr (j + 1) y').
Proof using Hok HD.
  intros -> (p1 & m1 & -> & Hk & Hq & Hw & Hs & Hl) Hj Ha.
  assert (0 < pcount p1) as Hc by (rewrite <- length_pq, Hq, length_drop; lia).
  rewrite u64_small by (destruct (Ha j ltac:(lia)) as [Hr _]; change MAXVA with (2 ^ 38) in Hr; lia).
  kstep. unfold get_pipe. kstep. cbn [snd set_ram set_vm sy_pipes]. change (sy_pipes (set_ram m1 (k1, pset pi p1 s)).2 pi) with (sy_pipes (pset pi p1 s) pi).
  rewrite pset_get, pcount_empty, (proj2 (Z.eqb_neq _ 0)) by (done || lia). kif. cbv zeta.
  set (ch := aget (pi_data p1) (pi_nread p1 mod PIPESIZE)). kstep. unfold upd_pipe. kstep. cbn [fst snd].
  set (y1 := (_, _) : kern * sys S).
  assert (y1 = set_ram m1 (k1, pset pi (pop1 p1) s)) as ->.
  { unfold y1, set_ram, pset, set_vm, set_pipes. cbn. repeat f_equal. extensionality a. destruct (a =? pi); [|done]. by rewrite Z.eqb_refl. }
  assert (same_tables (k, vm_kmem (sy_vm s)) root (set_ram m1 (k1, pset pi (pop1 p1) s))) as Hst.
  { intros a z Hta Hz. cbn. apply (written_tables end_ _ root l D Hok HD m1 addr (take (Z.to_nat j) (pq p0))) with (a := a); [|done|done|done].
    intros j'. rewrite length_take. intros Hj'. apply Ha. lia. }
  kstep. eapply runs_mono; [apply (runs_ucopyout1 end_ (k, vm_kmem (sy_vm s)) root l D Hok HD _ _ ch Hst), Ha; lia|].
  intros r y' [-> ->]. change (0 =? -1) with false. kif. kstep. split; [done|].
  pose proof (pq_pop p1 Hk Hc) as Hpop. fold ch in Hpop. rewrite Hq in Hpop.
  assert (pq p0 !! Z.to_nat j = Some ch) as Hlook by (rewrite <- (Nat.add_0_r (Z.to_nat j)), <- lookup_drop, Hpop; done).
  exists (pop1 p1), (mset m1 (upa m root (addr + j)) ch). split; [done|]. split; [by apply pop1_ok|].
  replace (Z.to_nat (j + 1)) with (Datatypes.S (Z.to_nat j)) by lia. split.
  { apply (f_equal tail) in Hpop. cbn in Hpop. rewrite <- Hpop. change (tail ?l) with (drop 1 l). rewrite drop_drop. f_equal. lia. }
  split; [|done]. rewrite (take_S_r _ _ _ Hlook).
  apply (written_app end_ _ root l D Hok HD m1 addr (take (Z.to_nat j) (pq p0)) [ch] (upa m root (addr + j))); [done|..].
  - intros j'. rewrite length_app, length_take. cbn [length]. intros Hj'. apply Ha. lia.
  - intros j'. cbn [length]. rewrite length_take. intros Hj'. rewrite Nat.min_l by lia. rewrite Z2Nat.id by lia. assert (j' = 0%nat) as -> by lia. by rewrite !Z.add_0_r.
Qed.

Lemma runs_piperead addr n :
  0 ≤ n → pq p0 ≠ [] ∨ pi_writeopen p0 = 0 → let c := Z.min n (Z.of_nat (length (pq p0))) in
  (∀ j, 0 ≤ j < c → uacc m root (addr + j)) →
  runs (piperead pi addr n) (k, s) (λ r y', r = c ∧ kern_le k y'.1 ∧ ∃ p1 m1, y' = set_ram m1 (y'.1, pset pi p1 s) ∧ pipe_ok p1 ∧
    pq p1 = drop (Z.to_nat c) (pq p0) ∧ written root m m1 addr (take (Z.to_nat c) (pq p0)) ∧ same_ends p0 p1 ∧ locked (pi_lock p1) = 0).
Proof using Hrun Hroot Hlk Hp Hok HD.
  intros Hn Hne c Hacc. unfold piperead. kstep. apply runs_start_pipe. set (k1 := set_kcpu _ k).
  assert (kern_le k k1) as Hle1.
  { destruct Hrun as (Hko & _). apply kern_le_same; [done|apply same_kern_settle|apply settle_ok, Hko]. }
  assert (pq p0 = [] ↔ pcount p0 = 0) as He.
  { rewrite <- length_pq. split; [by intros ->|]. intros E. apply nil_length_inv. lia. }
  kstep. apply (runs_acquire_le (pipelock pi)); [done|done|]. set (lk := taken _ _).
  kstep. unfold get_pipe at 1. kstep. cbn [snd over pipelock]. change (sy_pipes (set_pipes _ s) pi) with (sy_pipes (pset pi (set_pilock lk p0) s) pi).
  rewrite pset_get. cbn [pi_nread pi_nwrite pi_writeopen set_pilock]. rewrite pcount_empty by done.
  assert (((pcount p0 =? 0) && negb (pi_writeopen p0 =? 0)) = false) as ->.
  { destruct Hne as [Hne| ->]; [|by rewrite andb_false_r]. by rewrite (proj2 (Z.eqb_neq _ 0)) by by rewrite <- He. }
  kif. kstep. kstep. kif. kstep.
  eapply (runs_mono _ _ (λ j y', j = c ∧ was_read (pushed k1) lk addr c y')).
  { apply (runs_loop _ (λ j y', 0 ≤ j ≤ c ∧ was_read (pushed k1) lk addr j y') (λ j _, Z.to_nat (c - j))); [| |lia].
    - intros j y1 [Hj Hw]. destruct (n <=? j) eqn:E; kif; zify_bool; [kstep; by assert (j = c) as -> by lia|].
      destruct (decide (j = c)) as [->|Hjc].
      + pose proof Hw as (p1 & m1 & -> & Hk1 & Hq1 & _). kstep. unfold get_pipe. kstep.
        change (sy_pipes (set_ram m1 (pushed k1, pset pi p1 s)).2 pi) with (sy_pipes (pset pi p1 s) pi). rewrite pset_get, pcount_empty by done.
        rewrite (proj2 (Z.eqb_eq _ 0)) by (rewrite <- length_pq, Hq1, length_drop; lia). kif. kstep. done.
      + eapply runs_mono; [apply (runs_read_byte _ (pushed k1) lk addr j _ Hroot Hw); [lia|intros j' Hj'; apply Hacc; lia]|].
        intros r y2 [-> Hw2]. split; [split; [lia|done]|lia].
    - split; [lia|]. exists (set_pilock lk p0), m. split; [|split; [by destruct Hp|done]].
      unfold set_ram. cbn. unfold pset, set_vm, set_pipes. cbn. f_equal. destruct s as [[[]]]. done. }
  intros r y1 [-> (p1 & m1 & -> & Hk1 & Hq1 & Hw1 & Hs1 & Hl1)]. cbn beta.
  assert (kern_ok (pushed k1)) as Hko by apply pushed_ok, Hle1.
  kstep. eapply runs_mono; [apply (runs_wakeup_le _ _ _ Hko)|]. intros [] [k2 s2] [Es Hle2]. cbn [fst snd] in Es, Hle2. subst s2.
  kstep. apply (runs_release_le (pipelock pi) k1); [apply Hle1|done|done|cbn; rewrite Z.eqb_refl, Hl1; done|cbn; by rewrite Z.eqb_refl, Hl1|].
  intros k3 Hle3. kstep. split; [done|]. split; [by eapply kern_le_trans|]. exists (set_pilock (dropped lk) p1), m1.
  split; [|split; [by destruct Hk1|done]]. unfold set_ram. cbn [fst snd]. f_equal. unfold pipelock, pset, set_vm, set_pipes. cbn.
  repeat f_equal. extensionality a. destruct (a =? pi); [|done]. rewrite Z.eqb_refl. cbn. by rewrite Hl1.
Qed.

(** C33: [pipewrite] appends to the queue of bytes in the pipe.  Bytes that fit
    all go in and it returns their number; otherwise it fills the pipe with the first of them,
    and the writer sleeps for room with the pipe unlocked. *)
Theorem pipewrite_correct addr n :
  0 ≤ n → c_noff (k_cpu k) = 0 → p_killed (k_procs k !!! i) = 0 → pi_readopen p0 ≠ 0 →
  (∀ j, 0 ≤ j < n → uacc m root (addr + j)) →
  let room := PIPESIZE - Z.of_nat (length (pq p0)) in
  if n <=? room then
    runs (pipewrite pi addr n) (k, s) (λ r y', r = n ∧ kern_le k y'.1 ∧ ∃ p1, y'.2 = pset pi p1 s ∧ pipe_ok p1 ∧
      pq p1 = pq p0 ++ ubytes addr n ∧ same_ends p0 p1 ∧ locked (pi_lock p1) = 0)
  else
    halts (pipewrite pi addr n) (k, s) Asleep (λ y', ∃ p1, y'.2 = pset pi p1 s ∧ pipe_ok p1 ∧
      pq p1 = pq p0 ++ take (Z.to_nat room) (ubytes addr n) ∧ same_ends p0 p1 ∧ locked (pi_lock p1) = 0 ∧
      p_state (k_procs y'.1 !!! i) = SLEEPING ∧ p_chan (k_procs y'.1 !!! i) = Some (ChPipeWrite pi)).
Proof using Hrun Hroot Hlk Hp Hok HD.
  intros Hn Hoff Hkill Hro Hacc room. unfold room. destruct (n <=? _) eqn:E; zify_bool; [apply runs_pipewrite; done || lia|].
  apply pipewrite_waits; try done. intros j Hj. apply Hacc. lia.
Qed.

(** C34: [piperead] takes the oldest bytes out of the pipe, as many as asked for
    and there are, writes exactly them to the user's buffer and returns their number; 0 if the
    pipe is empty and the write end closed. *)
Theorem piperead_correct addr n :
  0 ≤ n → pq p0 ≠ [] ∨ pi_writeopen p0 = 0 → let c := Z.min n (Z.of_nat (length (pq p0))) in
  (∀ j, 0 ≤ j < c → uacc m root (addr + j)) →
  runs (piperead pi addr n) (k, s) (λ r y', r = c ∧ kern_le k y'.1 ∧ ∃ p1 m1, y' = set_ram m1 (y'.1, pset pi p1 s) ∧ pipe_ok p1 ∧
    pq p1 = drop (Z.to_nat c) (pq p0) ∧
    (∀ j, 0 ≤ j < c → m1 (upa m root (addr + j)) = aget (pq p0) j) ∧
    (∀ a, (∀ j, 0 ≤ j < c → a ≠ upa m root (addr + j)) → m1 a = m a) ∧ same_ends p0 p1 ∧ locked (pi_lock p1) = 0).
Proof using Hrun Hroot Hlk Hp Hok HD.
  intros Hn Hne c Hacc. eapply runs_mono; [by apply runs_piperead|]. fold c. intros r y' (-> & Hle & p1 & m1 & Hy & Hk & Hq & Hw & Hs & Hl).
  split; [done|]. split; [done|]. exists p1, m1. split; [done|]. split; [done|]. split; [done|]. destruct Hw as [Hw1 Hw2]. split; [|split; [|done]].
  - intros j Hj. rewrite <- (Z2Nat.id j) at 1 by lia. apply Hw1. rewrite lookup_take_lt by lia. unfold aget. apply list_lookup_lookup_total_lt. lia.
  - intros a Ha. apply Hw2. intros j. rewrite length_take. intros Hj. apply Ha. lia.
Qed.
End PipeOps.

(** What one process writes to an empty pipe it can read back: the bytes at
    the second buffer are those that were at the first. *)
Theorem pipe_roundtrip {S : Type} `{BC : BufCache S} end_ pi k (s : sys S) i pid root l D from to n :
  running k i pid → p_pagetable (k_procs k !!! i) = root → locked (pi_lock (sy_pipes s pi)) = 0 → pipe_ok (sy_pipes s pi) →
  uvm_ok end_ (k, vm_kmem (sy_vm s)) root l D → (∀ va, uacc (km_ram (vm_kmem (sy_vm s))) root va → D (va / PGSIZE)) →
  let m := km_ram (vm_kmem (sy_vm s)) in
  pq (sy_pipes s pi) = [] → 0 < n ≤ PIPESIZE → (∀ j, 0 ≤ j < n → uacc m root (from + j) ∧ uacc m root (to + j)) →
  runs (pipewrite pi from n;; piperead pi to n) (k, s) (λ r y', r = n ∧ pq (sy_pipes y'.2 pi) = [] ∧
    ∀ j, 0 ≤ j < n → ram y' (upa m root (to + j)) = m (upa m root (from + j))).
Proof.
  intros Hrun Hroot Hlk Hp Hok HD m He Hn Hacc.
  kstep. eapply runs_mono; [apply (runs_pipewrite end_ pi k s i pid root l D Hrun Hroot Hlk Hp Hok HD from n); [lia|rewrite He; cbn; lia|intros j Hj; by apply Hacc]|].
  intros r [k1 s1] (-> & Hle & p1 & Es & Hk1 & Hq1 & _ & Hl1). cbn [fst snd] in Es, Hle. subst s1. rewrite He in Hq1. cbn [app] in Hq1.
  pose proof (kern_le_running _ _ _ _ Hle Hrun) as Hrun1. cbn beta.
  assert (alen (pq p1) = n) as Hlen by (rewrite Hq1; apply length_ubytes; lia).
  assert (Hg : sy_pipes (pset pi p1 s) pi = p1) by apply pset_get.
  eapply runs_mono; [apply (runs_piperead end_ pi k1 (pset pi p1 s) i pid root l D Hrun1); rewrite ?Hg; try done|].
  - destruct Hle as (_ & _ & Hpr). destruct (Hpr i ltac:(apply Hrun)) as (? & _ & [-> |[_ ->]]); done.
  - apply (uvm_ok_ram end_ (k, vm_kmem (sy_vm s))); [done| |done].
    destruct (po_alloc _ _ _ _ (uo_pt _ _ _ _ _ Hok)) as [K1 K2 K3 K4 K5 K6 K7]. split; try done. apply Hle.
  - lia.
  - left. intros E. rewrite E in Hlen. change (alen []) with 0 in Hlen. lia.
  - unfold alen in Hlen. intros j Hj. apply Hacc. lia.
  - unfold alen in Hlen. rewrite Hg, Hlen, Z.min_id. intros r [k2 s2] (-> & _ & p2 & m2 & Hy & _ & Hq2 & Hw & _). split; [done|]. rewrite Hy. split.
    + cbn. rewrite Z.eqb_refl, Hq2. apply drop_ge. lia.
    + intros j Hj. rewrite take_ge in Hw by lia. rewrite Hq1 in Hw. destruct Hw as [Hw _]. cbn in Hw |- *. rewrite <- (Z2Nat.id j) at 1 by lia.
      apply Hw. by apply lookup_ubytes.
Qed.

(** * Examples with a user process

    A process with one page of memory runs on a machine whose other parts are
    as after boot.  The theorems about pipes apply to this state. *)

Definition user_proc : proc := set_ppagetable ex_root proc0.
Definition user_kern : kern := Kern demo_cpu (user_proc :: replicate 9 proc0).

#[local] Opaque ex_grown ex_boot.

Definition user_mem : kalloc_st := (ex_grown 10).2.
Definition user_sys (p : pipe) : sys bio_st := set_pipes (λ _, p) (set_vm (VmSt user_mem 0 0) (ex_idle [])).

Lemma user_running : running user_kern 0 0.
Proof.
  split; [|split; [done|split; [unfold NPROC; lia|done]]]. split; [exact demo_cpu_ok|]. split; [done|].
  intros j. cbn [user_kern k_procs]. destruct j as [|j]; [done|]. change ((user_proc :: replicate 9 proc0) !!! S j) with (replicate 9 proc0 !!! j).
  destruct (decide (j < 9)%nat) as [Hj|Hj].
  - by rewrite lookup_total_replicate_2.
  - by rewrite list_lookup_total_alt, lookup_ge_None_2 by (rewrite length_replicate; lia).
Qed.

(** The state of the allocator does not depend on who runs. *)
Lemma uvm_ok_kern end_ x root l D k : uvm_ok end_ x root l D → cpu_ok (k_cpu k) → uvm_ok end_ (k, x.2) root l D.
Proof.
  intros Hok Hc. apply (uvm_ok_ram end_ x); [exact Hok| |done].
  destruct (po_alloc _ _ _ _ (uo_pt _ _ _ _ _ Hok)) as [K1 K2 K3 K4 K5 K6 K7]. by split.
Qed.

Lemma user_mem_uvm : uvm_ok ex_end (user_kern, user_mem) ex_root (drop 3 (ex_free 10)) (upto (np PGSIZE)).
Proof. apply uvm_ok_kern; [exact (ex_grown_uvm 10 ltac:(lia) ex_res_10 ex_chain_10)|exact demo_cpu_ok]. Qed.
Lemma user_mem_acc va : uacc (km_ram user_mem) ex_root va ↔ 0 ≤ va < PGSIZE.
Proof. exact (ex_grown_acc 10 ltac:(lia) ex_res_10 ex_chain_10 va). Qed.

#[local] Opaque user_mem.

Lemma user_uvm p : uvm_ok ex_end (user_kern, vm_kmem (sy_vm (user_sys p))) ex_root (drop 3 (ex_free 10)) (upto (np PGSIZE)).
Proof. exact user_mem_uvm. Qed.
Lemma user_acc p va : uacc (km_ram (vm_kmem (sy_vm (user_sys p)))) ex_root va ↔ 0 ≤ va < PGSIZE.
Proof. exact (user_mem_acc va). Qed.
Lemma user_dom p va : uacc (km_ram (vm_kmem (sy_vm (user_sys p)))) ex_root va → upto (np PGSIZE) (va / PGSIZE).
Proof. intros Ha%user_acc. unfold upto. change (np PGSIZE) with 1. unfold PGSIZE in *. dlia. Qed.

(** A pipe whose counters are about to wrap, with [n] bytes in it. *)
Definition ex_pipe (n : Z) : pipe := Pipe (initlock "pipe") (replicate 512 7) (2 ^ 32 - 2) ((2 ^ 32 - 2 + n) mod 2 ^ 32) 1 1.

Lemma ex_pipe_ok n : 0 ≤ n ≤ PIPESIZE → pipe_ok (ex_pipe n) ∧ pcount (ex_pipe n) = n.
Proof.
  intros Hn. assert (pcount (ex_pipe n) = n) as E by (unfold pcount, u32, PIPESIZE in *; cbn; dlia).
  split; [|done]. split; [done|done|cbn; dlia|lia].
Qed.

Lemma ex_pipe_len n : 0 ≤ n ≤ PIPESIZE → Z.of_nat (length (pq (ex_pipe n))) = n.
Proof. intros Hn. rewrite length_pq. by apply ex_pipe_ok. Qed.

Lemma pipewrite_correct_witness :
  runs (pipewrite 0 0 10) (user_kern, user_sys (ex_pipe 3)) (λ r y', r = 10 ∧ length (pq (sy_pipes y'.2 0)) = 13%nat) ∧
  halts (pipewrite 0 0 600) (user_kern, user_sys (ex_pipe 3)) Asleep (λ y', length (pq (sy_pipes y'.2 0)) = 512%nat).
Proof.
  pose proof (ex_pipe_len 3 ltac:(unfold PIPESIZE; lia)) as Hl. split.
  - pose proof (pipewrite_correct ex_end 0 user_kern (user_sys (ex_pipe 3)) 0 0 ex_root _ _ user_running eq_refl eq_refl
      (proj1 (ex_pipe_ok 3 ltac:(unfold PIPESIZE; lia))) (user_uvm _) (user_dom _) 0 10 ltac:(lia) eq_refl eq_refl ltac:(done)) as H.
    change (sy_pipes (user_sys (ex_pipe 3)) 0) with (ex_pipe 3) in H. rewrite Hl in H.
    eapply runs_mono; [apply H; intros j Hj; apply user_acc; unfold PGSIZE; lia|].
    intros r y' (-> & _ & p1 & -> & _ & Hq & _). split; [done|]. rewrite pset_get, Hq, length_app. unfold ubytes. rewrite length_fmap, length_seqZ. lia.
  - pose proof (pipewrite_correct ex_end 0 user_kern (user_sys (ex_pipe 3)) 0 0 ex_root _ _ user_running eq_refl eq_refl
      (proj1 (ex_pipe_ok 3 ltac:(unfold PIPESIZE; lia))) (user_uvm _) (user_dom _) 0 600 ltac:(lia) eq_refl eq_refl ltac:(done)) as H.
    change (sy_pipes (user_sys (ex_pipe 3)) 0) with (ex_pipe 3) in H. rewrite Hl in H.
    eapply halts_mono; [apply H; intros j Hj; apply user_acc; unfold PGSIZE; lia|].
    intros y' (p1 & -> & _ & Hq & _). rewrite pset_get, Hq, length_app, length_take. unfold ubytes. rewrite length_fmap, length_seqZ. unfold PIPESIZE. lia.
Defined.

Lemma piperead_correct_witness :
  runs (piperead 0 100 2) (user_kern, user_sys (ex_pipe 3)) (λ r y', r = 2 ∧ length (pq (sy_pipes y'.2 0)) = 1%nat).
Proof.
  pose proof (ex_pipe_len 3 ltac:(unfold PIPESIZE; lia)) as Hl.
  eapply runs_mono; [apply (piperead_correct ex_end 0 user_kern (user_sys (ex_pipe 3)) 0 0 ex_root _ _ user_running eq_refl eq_refl
    (proj1 (ex_pipe_ok 3 ltac:(unfold PIPESIZE; lia))) (user_uvm _) (user_dom _) 100 2)|].
  - lia.
  - left. change (sy_pipes (user_sys (ex_pipe 3)) 0) with (ex_pipe 3). intros E. rewrite E in Hl. done.
  - intros j Hj. apply user_acc. unfold PGSIZE. lia.
  - change (sy_pipes (user_sys (ex_pipe 3)) 0) with (ex_pipe 3). rewrite Hl.
    intros r y' (-> & _ & p1 & m1 & -> & _ & Hq & _). split; [done|]. change (sy_pipes _ 0) with p1. rewrite Hq, length_drop. lia.
Defined.

Lemma pipe_roundtrip_witness :
  runs (pipewrite 0 0 512;; piperead 0 1000 512) (user_kern, user_sys (ex_pipe 0)) (λ r y', r = 512).
Proof.
  eapply runs_mono; [apply (pipe_roundtrip ex_end 0 user_kern (user_sys (ex_pipe 0)) 0 0 ex_root _ _ 0 1000 512 user_running eq_refl eq_refl
    (proj1 (ex_pipe_ok 0 ltac:(unfold PIPESIZE; lia))) (user_uvm _) (user_dom _))|].
  - apply nil_length_inv. pose proof (ex_pipe_len 0 ltac:(unfold PIPESIZE; lia)) as E. change (sy_pipes (user_sys (ex_pipe 0)) 0) with (ex_pipe 0). lia.
  - unfold PIPESIZE. lia.
  - intros j Hj. split; apply user_acc; unfold PGSIZE; lia.
  - by intros r y' [-> _].
Defined.
