(* ===== verification/Grep.v ===== *)
(** * Searching text (user/grep.c)

    The matcher of grep against the language its patterns stand for, and the
    program's loop over the chunks that [read] returns against the lines of the input. *)

From S2P Require Import Prelude.

(** ** The matcher

    C strings are the bytes before their NUL; the byte at the end is 0. *)

Definition c_caret : Z := 94.
Definition c_dot : Z := 46.
Definition c_star : Z := 42.
Definition c_dollar : Z := 36.
Definition c_nl : Z := 10.

(** [matchstar(c, re, text)], with [matchhere re] for the recursive call. *)
Fixpoint matchstar (here : list Z → bool) (c : Z) (text : list Z) : bool :=
  if here text then true else
  match text with
  | [] => false
  | t :: text' => if (t =? c) || (c =? c_dot) then matchstar here c text' else false
  end.

Fixpoint matchhere (re text : list Z) : bool :=
  match re with
  | [] => true
  | c :: re1 =>
      match re1 with
      | s :: re2 =>
          if s =? c_star then matchstar (matchhere re2) c text else
          match text with
          | t :: text' => if (c =? c_dot) || (c =? t) then matchhere re1 text' else false
          | [] => false
          end
      | [] =>
          if c =? c_dollar then bool_decide (text = []) else
          match text with
          | t :: text' => if (c =? c_dot) || (c =? t) then matchhere re1 text' else false
          | [] => false
          end
      end
  end.

(** The loop of [match]. *)
Fixpoint search (re text : list Z) : bool :=
  if matchhere re text then true else
  match text with
  | [] => false
  | _ :: text' => search re text'
  end.

Definition grep_match (re text : list Z) : bool :=
  match re with
  | c :: re' => if c =? c_caret then matchhere re' text else search re text
  | [] => search re text
  end.

(** ** The language of a pattern *)

Inductive item := One (c : Z) | Many (c : Z).

(** [c] stands for itself, [.] for any byte. *)
Definition fits (c t : Z) : Prop := c = c_dot ∨ c = t.

Inductive lang : list item → list Z → Prop :=
| lang_nil : lang [] []
| lang_one c t its v : fits c t → lang its v → lang (One c :: its) (t :: v)
| lang_many c u its v : Forall (fits c) u → lang its v → lang (Many c :: its) (u ++ v).

(** The items of a pattern, and whether it ends in [$]. *)
Fixpoint items (re : list Z) : list item * bool :=
  match re with
  | [] => ([], false)
  | c :: re1 =>
      match re1 with
      | s :: re2 =>
          if s =? c_star then let '(its, e) := items re2 in (Many c :: its, e)
          else let '(its, e) := items re1 in (One c :: its, e)
      | [] => if c =? c_dollar then ([], true) else ([One c], false)
      end
  end.

(** The text has, at its start, a string of the language; at its end too, if the
    pattern says so. *)
Definition matches_at (re text : list Z) : Prop :=
  ∃ v w, text = v ++ w ∧ lang (items re).1 v ∧ ((items re).2 = true → w = []).

(** ... anywhere, unless the pattern starts with [^]. *)
Definition matches (re text : list Z) : Prop :=
  match re with
  | c :: re' => if c =? c_caret then matches_at re' text else ∃ u text', text = u ++ text' ∧ matches_at re text'
  | [] => ∃ u text', text = u ++ text' ∧ matches_at re text'
  end.

(** ** Equivalence *)

Lemma matchstar_spec here c text :
  matchstar here c text = true ↔ ∃ u text', text = u ++ text' ∧ Forall (fits c) u ∧ here text' = true.
Proof.
  induction text as [|t text IH]; cbn.
  - split.
    + destruct (here []) eqn:E; [|done]. intros _. by exists [], [].
    + intros (u & text' & E & _ & Hh). symmetry in E. apply app_nil in E as [-> ->]. by rewrite Hh.
  - destruct (here (t :: text)) eqn:E.
    { split; [|done]. intros _. by exists [], (t :: text). }
    transitivity (fits c t ∧ matchstar here c text = true).
    { unfold fits. destruct (Z.eqb_spec t c), (Z.eqb_spec c c_dot); cbn; naive_solver. }
    rewrite IH. split.
    + intros (Hf & u & text' & -> & Hu & Hh). exists (t :: u), text'. split; [done|]. split; [by constructor|done].
    + intros ([|t' u] & text' & E' & Hu & Hh); [cbn in E'; subst; congruence|]. injection E' as <- ->.
      apply Forall_cons_1 in Hu as [Hf Hu]. split; [done|]. by exists u, text'.
Qed.

(** A pattern that begins with one character. *)
Lemma matches_at_one c re1 its e text :
  items re1 = (its, e) →
  (match text with t :: text' => fits c t ∧ matches_at re1 text' | [] => False end) ↔
  ∃ v w, text = v ++ w ∧ lang (One c :: its) v ∧ (e = true → w = []).
Proof.
  intros Ei. unfold matches_at. rewrite Ei. cbn [fst snd]. split.
  - destruct text as [|t text]; [done|]. intros (Hf & v & w & -> & Hl & He). exists (t :: v), w. split; [done|]. split; [by constructor|done].
  - intros (v & w & -> & Hl & He). inversion_clear Hl. cbn. split; [done|]. by eexists _, w.
Qed.

Lemma one_step c t : ((c =? c_dot) || (c =? t)) = true ↔ fits c t.
Proof. unfold fits. destruct (Z.eqb_spec c c_dot), (Z.eqb_spec c t); cbn; naive_solver. Qed.

Lemma matchhere_spec re text : matchhere re text = true ↔ matches_at re text.
Proof.
  assert (H : ∀ n re text, (length re ≤ n)%nat → matchhere re text = true ↔ matches_at re text); [|by apply (H (length re))].
  clear re text. induction n as [|n IH]; intros [|c re1] text Hn; cbn [length] in Hn; try lia.
  1, 2: split; [intros _; exists [], text; split; [done|split; [constructor|done]]|done].
  assert (Hone : ∀ text its e, items re1 = (its, e) →
    (match text with t :: text' => if (c =? c_dot) || (c =? t) then matchhere re1 text' else false | [] => false end) = true ↔
    ∃ v w, text = v ++ w ∧ lang (One c :: its) v ∧ (e = true → w = [])).
  { intros tx its e Ei. rewrite <- (matches_at_one c re1 its e tx Ei). destruct tx as [|t tx]; [done|].
    rewrite <- one_step, <- (IH re1) by lia. destruct ((c =? c_dot) || (c =? t)); naive_solver. }
  destruct re1 as [|s re2].
  - cbn [matchhere]. unfold matches_at. cbn [items]. destruct (c =? c_dollar); cbn [fst snd].
    + rewrite bool_decide_eq_true. split; [intros ->; exists [], []; split; [done|split; [constructor|done]]|].
      intros (v & w & -> & Hl & Hw). inversion_clear Hl. by rewrite Hw.
    + by apply (Hone text [] false).
  - specialize (Hone text). unfold matches_at. destruct (items (s :: re2)) as [its e] eqn:Ei. cbn [matchhere] in Hone |- *. cbn [items]. cbn [items] in Ei. rewrite Ei.
    destruct (s =? c_star) eqn:Es.
    + destruct (items re2) as [its2 e2] eqn:E2. cbn [fst snd]. rewrite matchstar_spec. cbn [length] in Hn. split.
      * intros (u & text' & -> & Hu & (v & w & -> & Hl & Hw)%IH); [|lia]. rewrite E2 in Hl, Hw. exists (u ++ v), w.
        split; [by rewrite app_assoc|]. split; [by constructor|done].
      * intros (v & w & -> & Hl & Hw). inversion Hl as [| |? u ? v' Hu Hl']; subst. exists u, (v' ++ w).
        split; [by rewrite app_assoc|]. split; [done|]. apply IH; [lia|]. exists v', w. by rewrite E2.
    + cbn [fst snd]. by apply Hone.
Qed.

Lemma search_spec re text : search re text = true ↔ ∃ u text', text = u ++ text' ∧ matches_at re text'.
Proof.
  setoid_rewrite <- matchhere_spec. induction text as [|t text IH]; cbn [search].
  - split.
    + destruct (matchhere re []) eqn:E; [|done]. intros _. by exists [], [].
    + intros (u & text' & E & Hh). symmetry in E. apply app_nil in E as [-> ->]. by rewrite Hh.
  - destruct (matchhere re (t :: text)) eqn:E; [split; [|done]; intros _; by exists [], (t :: text)|]. rewrite IH. split.
    + intros (u & text' & -> & Hh). by exists (t :: u), text'.
    + intros ([|t' u] & text' & E' & Hh); [cbn in E'; subst; congruence|]. injection E' as <- ->. by exists u, text'.
Qed.

(** C35: grep's matcher decides the language of its patterns: a line matches exactly
    when some part of it, at the start for [^] and up to the end for [$], is a string of the pattern. *)
Theorem grep_match_correct re text : grep_match re text = true ↔ matches re text.
Proof.
  unfold grep_match, matches. destruct re as [|c re]; [apply search_spec|]. destruct (c =? c_caret); [apply matchhere_spec|apply search_spec].
Qed.

(** ** The program's loop

    [read] returns the next bytes of the input, at least one and at most as many as
    asked for, until the input ends: [chunks] is what it has to give, in the pieces in
    which it gives them. *)
Definition GBUF : Z := 1024.

Definition read_chunk (n : Z) (chunks : list (list Z)) : list Z * list (list Z) :=
  match chunks with
  | [] => ([], [])
  | c :: rest =>
      if alen c <=? n then (c, rest)
      else (take (Z.to_nat n) c, drop (Z.to_nat n) c :: rest)
  end.

(** [strchr(p, c)] for a string [p] that ends at a NUL or at the end of the list. *)
Fixpoint strchr_at (c : Z) (p : list Z) : option nat :=
  match p with
  | [] => None
  | a :: p' => if a =? 0 then None else if a =? c then Some 0%nat else S <$> strchr_at c p'
  end.

(** The inner loop, on the bytes in the buffer: the lines written to the output,
    and the bytes from [p] on. *)
Fixpoint grep_lines (fuel : nat) (pattern buf : list Z) : list Z * list Z :=
  match fuel with
  | O => ([], buf)
  | S fuel' =>
      match strchr_at c_nl buf with
      | None => ([], buf)
      | Some q =>
          let '(out, rest) := grep_lines fuel' pattern (drop (S q) buf) in
          (if grep_match pattern (take q buf) then take (S q) buf ++ out else out, rest)
      end
  end.

(** [buf] is the first [m] bytes of the program's buffer. *)
Fixpoint grep (fuel : nat) (pattern : list Z) (chunks : list (list Z)) (buf : list Z) : option (list Z) :=
  match fuel with
  | O => None
  | S fuel' =>
      let '(got, chunks') := read_chunk (GBUF - alen buf - 1) chunks in
      if bool_decide (got = []) then Some [] else
      let buf' := buf ++ got in
      let '(out, rest) := grep_lines (S (length buf')) pattern buf' in
      (app out) <$> grep fuel' pattern chunks' rest
  end.

(** *** What it should print *)

(** The complete lines of a text, without their newlines. *)
Fixpoint lines_of (text cur : list Z) : list (list Z) :=
  match text with
  | [] => []
  | a :: text' => if a =? c_nl then cur :: lines_of text' [] else lines_of text' (cur ++ [a])
  end.

(** The incomplete line at the end. *)
Fixpoint last_line (text cur : list Z) : list Z :=
  match text with
  | [] => cur
  | a :: text' => if a =? c_nl then last_line text' [] else last_line text' (cur ++ [a])
  end.

Definition print_lines (pattern : list Z) (ls : list (list Z)) : list Z :=
  concat ((λ l, l ++ [c_nl]) <$> filter (λ l, grep_match pattern l = true) ls).

Lemma strchr_none p : (∀ a, a ∈ p → a ≠ 0) → strchr_at c_nl p = None → c_nl ∉ p.
Proof.
  induction p as [|a p IH]; [intros _ _; apply not_elem_of_nil|]. intros H0. cbn.
  rewrite (proj2 (Z.eqb_neq a 0)) by (apply H0; by left). destruct (Z.eqb_spec a c_nl) as [->|Hne]; [done|].
  intros E%fmap_None. rewrite not_elem_of_cons. split; [done|]. apply IH; [|done]. intros b Hb. apply H0. by right.
Qed.

Lemma strchr_some p q : strchr_at c_nl p = Some q → p = take q p ++ c_nl :: drop (S q) p ∧ c_nl ∉ take q p.
Proof.
  revert q. induction p as [|a p IH]; [done|]. intros q. cbn. destruct (a =? 0); [done|]. destruct (Z.eqb_spec a c_nl) as [->|Hne].
  - intros [= <-]. split; [done|apply not_elem_of_nil].
  - destruct (strchr_at c_nl p) as [q'|]; [|done]. intros [= <-]. destruct (IH q' eq_refl) as [E Hn]. cbn. split; [by rewrite <- E|].
    rewrite not_elem_of_cons. done.
Qed.

Lemma lines_app l text cur : c_nl ∉ l → lines_of (l ++ c_nl :: text) cur = (cur ++ l) :: lines_of text [] ∧
  last_line (l ++ c_nl :: text) cur = last_line text [].
Proof.
  revert cur. induction l as [|a l IH]; intros cur Hl; [cbn; by rewrite app_nil_r|].
  apply not_elem_of_cons in Hl as [Ha Hl]. cbn [app lines_of last_line]. rewrite (proj2 (Z.eqb_neq a c_nl)) by done.
  destruct (IH (cur ++ [a]) Hl) as [-> ->]. by rewrite <- app_assoc.
Qed.

Lemma lines_none l cur : c_nl ∉ l → lines_of l cur = [] ∧ last_line l cur = cur ++ l.
Proof.
  revert cur. induction l as [|a l IH]; intros cur Hl; [cbn; by rewrite app_nil_r|].
  apply not_elem_of_cons in Hl as [Ha Hl]. cbn [lines_of last_line]. rewrite (proj2 (Z.eqb_neq a c_nl)) by done.
  destruct (IH (cur ++ [a]) Hl) as [-> ->]. by rewrite <- app_assoc.
Qed.

(** The inner loop prints the matching complete lines and keeps the rest. *)
Lemma grep_lines_spec fuel pattern buf : (∀ a, a ∈ buf → a ≠ 0) → (length buf < fuel)%nat →
  grep_lines fuel pattern buf = (print_lines pattern (lines_of buf []), last_line buf []).
Proof.
  revert buf. induction fuel as [|fuel IH]; intros buf H0 Hf; [lia|]. cbn [grep_lines]. destruct (strchr_at c_nl buf) as [q|] eqn:E.
  - apply strchr_some in E as [E Hn]. assert (length (drop (S q) buf) < fuel)%nat as Hlt.
    { apply (f_equal length) in E. rewrite length_app in E. cbn in E. rewrite length_drop in *. lia. }
    rewrite IH; [|intros a Ha; apply H0; rewrite E; apply elem_of_app; right; by right|done].
    destruct (lines_app (take q buf) (drop (S q) buf) [] Hn) as [E1 E2]. rewrite <- E in E1, E2. rewrite E1, E2.
    unfold print_lines. rewrite filter_cons. cbn [app].
    assert (take (S q) buf = take q buf ++ [c_nl]) as Et.
    { rewrite E at 1. rewrite take_app, firstn_all2 by (rewrite length_take; lia). f_equal.
      assert (q < length buf)%nat by (apply (f_equal length) in E; rewrite length_app in E; cbn in E; rewrite length_take in E; lia).
      rewrite length_take, Nat.min_l by lia. by replace (S q - q)%nat with 1%nat by lia. }
    destruct (grep_match pattern (take q buf)); [rewrite decide_True by done|rewrite decide_False by done]; [|done].
    rewrite fmap_cons. cbn [concat]. by rewrite Et.
  - apply strchr_none in E; [|done]. destruct (lines_none buf [] E) as [-> ->]. done.
Qed.

Lemma lines_split a b cur : lines_of (a ++ b) cur = lines_of a cur ++ lines_of b (last_line a cur) ∧
  last_line (a ++ b) cur = last_line b (last_line a cur).
Proof.
  revert cur. induction a as [|x a IH]; intros cur; [done|]. cbn [app lines_of last_line]. destruct (x =? c_nl); [|apply IH].
  destruct (IH []) as [-> ->]. done.
Qed.

Lemma lines_cur b cur : c_nl ∉ cur → lines_of b cur = lines_of (cur ++ b) [] ∧ last_line b cur = last_line (cur ++ b) [].
Proof. intros Hc. destruct (lines_split cur b []) as [-> ->]. destruct (lines_none cur [] Hc) as [-> ->]. done. Qed.

Lemma last_line_nl a cur : c_nl ∉ cur → c_nl ∉ last_line a cur.
Proof.
  revert cur. induction a as [|x a IH]; intros cur Hc; [done|]. cbn [last_line]. destruct (Z.eqb_spec x c_nl) as [->|Hne]; [apply IH, not_elem_of_nil|].
  apply IH. rewrite elem_of_app, list_elem_of_singleton. naive_solver.
Qed.

Lemma last_line_sub a cur x : x ∈ last_line a cur → x ∈ cur ∨ x ∈ a.
Proof.
  revert cur. induction a as [|y a IH]; intros cur; [by left|]. cbn [last_line]. destruct (y =? c_nl); intros [Hx|Hx]%IH.
  - by apply not_elem_of_nil in Hx.
  - right. by right.
  - apply elem_of_app in Hx as [Hx|Hx%list_elem_of_singleton]; [by left|subst; right; by left].
  - right. by right.
Qed.

(** Every line fits in the buffer, with its newline if it has one. *)
Definition lines_fit (text : list Z) : Prop :=
  Forall (λ l, alen l < GBUF - 1) (lines_of text []) ∧ alen (last_line text []) ≤ GBUF - 1.

Lemma fit_cur n rest cur : rest ≠ [] → Forall (λ l, alen l < n) (lines_of rest cur) → alen (last_line rest cur) ≤ n → alen cur < n.
Proof.
  revert cur. induction rest as [|x rest IH]; [done|]. intros cur _. cbn [lines_of last_line]. destruct (x =? c_nl).
  - by intros [H _]%Forall_cons_1.
  - intros Hl Hlast. assert (alen (cur ++ [x]) = alen cur + 1) as E by (unfold alen; rewrite length_app; cbn; lia).
    destruct rest as [|x' rest]; [cbn [last_line] in Hlast; lia|]. specialize (IH (cur ++ [x]) ltac:(done) Hl Hlast). lia.
Qed.

Lemma read_chunk_spec n chunks got chunks' :
  0 < n → Forall (λ c, c ≠ []) chunks → read_chunk n chunks = (got, chunks') →
  concat chunks = got ++ concat chunks' ∧ Forall (λ c, c ≠ []) chunks' ∧ (got = [] → chunks = []).
Proof.
  intros Hn Hc. unfold read_chunk. destruct chunks as [|c rest]; [by intros [= <- <-]|]. apply Forall_cons_1 in Hc as [H0 Hc].
  destruct (alen c <=? n) eqn:E; intros [= <- <-]; zify_bool.
  - split; [done|]. split; [done|]. by intros ->.
  - unfold alen in E. cbn [concat]. rewrite app_assoc, take_drop. split; [done|]. split.
    + constructor; [|done]. intros E2. apply (f_equal length) in E2. rewrite length_drop in E2. cbn in E2. lia.
    + intros E2. apply (f_equal length) in E2. rewrite length_take in E2. cbn in E2. destruct c; [done|]. cbn in E2. lia.
Qed.

Lemma print_lines_app pattern a b : print_lines pattern (a ++ b) = print_lines pattern a ++ print_lines pattern b.
Proof. unfold print_lines. by rewrite filter_app, fmap_app, concat_app. Qed.

Lemma grep_spec fuel pattern chunks buf :
  Forall (λ c, c ≠ []) chunks → (∀ a, a ∈ buf ++ concat chunks → a ≠ 0) → c_nl ∉ buf → lines_fit (buf ++ concat chunks) →
  (length (concat chunks) < fuel)%nat →
  grep fuel pattern chunks buf = Some (print_lines pattern (lines_of (buf ++ concat chunks) [])).
Proof.
  revert chunks buf. induction fuel as [|fuel IH]; intros chunks buf Hc H0 Hb Hfit Hf; [lia|]. cbn [grep].
  destruct (decide (chunks = [])) as [->|Hne].
  { cbn. rewrite app_nil_r. by destruct (lines_none buf [] Hb) as [-> _]. }
  assert (concat chunks ≠ []) as Hcc.
  { destruct chunks as [|c rest]; [done|]. apply Forall_cons_1 in Hc as [? _]. by destruct c. }
  destruct (read_chunk (GBUF - alen buf - 1) chunks) as [got chunks'] eqn:Er.
  pose proof Hfit as [Hl Hlast]. destruct (lines_cur (concat chunks) buf Hb) as [E1 E2]. rewrite <- E1 in Hl. rewrite <- E2 in Hlast.
  pose proof (fit_cur _ _ _ Hcc Hl Hlast) as Hroom.
  apply read_chunk_spec in Er as (Ecc & Hc' & Hgot); [|lia|done].
  assert (got ≠ []) as Hg by (intros ->; by apply Hne, Hgot). rewrite bool_decide_eq_false_2 by done.
  rewrite Ecc, app_assoc in H0, Hfit |- *. rewrite grep_lines_spec; [|intros a Ha; apply H0, elem_of_app; by left|lia].
  destruct (lines_split (buf ++ got) (concat chunks') []) as [E3 E4].
  assert (c_nl ∉ last_line (buf ++ got) []) as Hnl by apply last_line_nl, not_elem_of_nil.
  destruct (lines_cur (concat chunks') _ Hnl) as [E5 E6].
  rewrite IH; [cbn [fmap option_fmap option_map]; f_equal; by rewrite E3, E5, print_lines_app|done| |done| |].
  - intros a [Ha|Ha]%elem_of_app; [|apply H0, elem_of_app; by right].
    apply last_line_sub in Ha as [Ha|Ha]; [by apply not_elem_of_nil in Ha|]. apply H0, elem_of_app. by left.
  - destruct Hfit as [F1 F2]. rewrite E3 in F1. rewrite E4 in F2. apply Forall_app in F1 as [_ F1]. split; [by rewrite <- E5|by rewrite <- E6].
  - rewrite Ecc, length_app in Hf. destruct got; [done|]. cbn in Hf. lia.
Qed.

(** Whatever the sizes of the pieces in which [read] returns the input, grep prints
    exactly the complete lines that match, in order, and stops, if the input has no NUL and no
    line longer than its buffer. *)
Theorem grep_correct pattern chunks :
  Forall (λ c, c ≠ []) chunks → (∀ a, a ∈ concat chunks → a ≠ 0) → lines_fit (concat chunks) →
  grep (S (length (concat chunks))) pattern chunks [] = Some (print_lines pattern (lines_of (concat chunks) [])).
Proof. intros Hc H0 Hfit. apply (grep_spec _ pattern chunks []); [done|done|apply not_elem_of_nil|done|lia]. Qed.

(** The lines ab, cd and ax in two pieces, and the pattern for lines that start with a. *)
Lemma grep_correct_witness :
  grep 10 [94; 97] [[97; 98; 10; 99]; [100; 10; 97; 120; 10]] [] = Some [97; 98; 10; 97; 120; 10].
Proof.
  etransitivity; [apply (grep_correct [94; 97] [[97; 98; 10; 99]; [100; 10; 97; 120; 10]])|reflexivity].
  - by repeat constructor.
  - intros a Ha. cbn in Ha. rewrite !elem_of_cons in Ha. pose proof (not_elem_of_nil (A := Z) a). naive_solver lia.
  - split; [|done]. by repeat constructor.
Defined.
