(* ===== verification/User.v ===== *)
(** * User programs and the system calls they make

    The state of a user program as the kernel's system calls present it: a table of 16
    descriptors, open files with their offsets, files by path, pipes of 512 bytes, a console.
    A process that waits for its child at once is the only one that runs, so a program and its
    children are one computation: the waiting ancestors are kept for their descriptors,
    which decide when a pipe has no writer left. *)

From S2P Require Import Prelude Memory Riscv Spinlock Core CString Kalloc Vm Sleeplock BufCache Log Sys Fs.

Record node := Node { nd_type : Z; nd_ino : Z; nd_nlink : Z; nd_data : list Z }.

Inductive okind := KFile (i : nat) | KPipe (p : nat) (out : bool).
Record ofile := OpenFile { o_kind : okind; o_off : Z }.
Abbreviation fdtable := (list (option nat)).

(** Calls whose effect is outside the program. *)
Inductive ucall :=
| CExec (path : list Z) (argv : list (list Z))
| CKill (pid : Z)
| CLink (old new : list Z)
| CUnlink (path : list Z)
| CMkdir (path : list Z)
| CSleep (ticks : Z).

Record world := World {
  w_nodes : list node;
  w_path : list Z → option nat;            (* the file a path leads to *)
  w_open : list ofile;
  w_pipes : list (list Z);                 (* what has been written and not read *)
  w_fds : fdtable;                         (* of the process that runs *)
  w_rest : list fdtable;                   (* of its waiting ancestors *)
  w_in : list (list Z);                    (* what reads of the console return *)
  w_out : list Z;                          (* what is on the console *)
  w_calls : list ucall;
  w_answer : ucall → Z;
}.

Definition set_nodes v w := World v (w_path w) (w_open w) (w_pipes w) (w_fds w) (w_rest w) (w_in w) (w_out w) (w_calls w) (w_answer w).
Definition set_open v w := World (w_nodes w) (w_path w) v (w_pipes w) (w_fds w) (w_rest w) (w_in w) (w_out w) (w_calls w) (w_answer w).
Definition set_pipes v w := World (w_nodes w) (w_path w) (w_open w) v (w_fds w) (w_rest w) (w_in w) (w_out w) (w_calls w) (w_answer w).
Definition set_fds v w := World (w_nodes w) (w_path w) (w_open w) (w_pipes w) v (w_rest w) (w_in w) (w_out w) (w_calls w) (w_answer w).
Definition set_rest v w := World (w_nodes w) (w_path w) (w_open w) (w_pipes w) (w_fds w) v (w_in w) (w_out w) (w_calls w) (w_answer w).
Definition set_in v w := World (w_nodes w) (w_path w) (w_open w) (w_pipes w) (w_fds w) (w_rest w) v (w_out w) (w_calls w) (w_answer w).
Definition set_out v w := World (w_nodes w) (w_path w) (w_open w) (w_pipes w) (w_fds w) (w_rest w) (w_in w) v (w_calls w) (w_answer w).
Definition set_calls v w := World (w_nodes w) (w_path w) (w_open w) (w_pipes w) (w_fds w) (w_rest w) (w_in w) (w_out w) v (w_answer w).

Abbreviation U := (M world).
#[global] Instance node_inhabited : Inhabited node := populate (Node 0 0 0 []).
#[global] Instance ofile_inhabited : Inhabited ofile := populate (OpenFile (KFile 0) 0).

(** ** Descriptors *)

Fixpoint lowest_fd (t : fdtable) : option nat :=
  match t with
  | [] => None
  | None :: _ => Some 0%nat
  | Some _ :: t => S <$> lowest_fd t
  end.

(** [argfd] *)
Definition fd_file (fd : Z) (w : world) : option nat :=
  if (fd <? 0) || (NOFILE <=? fd) then None else default None (w_fds w !! Z.to_nat fd).

(** [fdalloc] *)
Definition new_fd (f : nat) : U Z :=
  t ← gets w_fds;
  match lowest_fd t with
  | None => mret (-1)
  | Some fd => modify (set_fds (<[fd := Some f]> t));; mret (Z.of_nat fd)
  end.

Definition new_file (k : okind) : U nat :=
  l ← gets w_open;
  modify (set_open (l ++ [OpenFile k 0]));;
  mret (length l).

(** Whether some process has an end of pipe [p] open. *)
Definition has_end (p : nat) (out : bool) (w : world) : bool :=
  existsb (existsb (λ o, match o with
    | Some f => match o_kind (w_open w !!! f) with KPipe p' out' => (p' =? p)%nat && Bool.eqb out' out | _ => false end
    | None => false
    end)) (w_fds w :: w_rest w).

(** ** System calls *)

Definition uopen (path : list Z) : U Z :=
  names ← gets w_path;
  match names path with
  | None => mret (-1)
  | Some i =>
      t ← gets w_fds;
      match lowest_fd t with
      | None => mret (-1)
      | Some _ => f ← new_file (KFile i); new_fd f
      end
  end.

Definition uclose (fd : Z) : U Z :=
  o ← gets (fd_file fd);
  match o with
  | None => mret (-1)
  | Some _ => modify (λ w, set_fds (<[Z.to_nat fd := None]> (w_fds w)) w);; mret 0
  end.

Definition udup (fd : Z) : U Z :=
  o ← gets (fd_file fd);
  match o with
  | None => mret (-1)
  | Some f => new_fd f
  end.

(** The two descriptors, or None. *)
Definition upipe : U (option (Z * Z)) :=
  l ← gets w_pipes;
  modify (set_pipes (l ++ [[]]));;
  r ← new_file (KPipe (length l) false);
  w ← new_file (KPipe (length l) true);
  fd0 ← new_fd r;
  if fd0 <? 0 then mret None else
  fd1 ← new_fd w;
  if fd1 <? 0 then uclose fd0;; mret None else
  mret (Some (fd0, fd1)).

(** The console returns at most [n] bytes of a line; an empty line is the end of the input. *)
Definition read_cons (n : Z) : U (list Z) :=
  l ← gets w_in;
  match l with
  | [] => stop Asleep
  | line :: l =>
      let rest := drop (Z.to_nat n) line in
      modify (set_in (if bool_decide (rest = []) then l else rest :: l));;
      mret (take (Z.to_nat n) line)
  end.

(** [read] of [n] bytes: the bytes, or None for -1. *)
Definition uread (fd n : Z) : U (option (list Z)) :=
  o ← gets (fd_file fd);
  match o with
  | None => mret None
  | Some f =>
      file ← gets (λ w, w_open w !!! f);
      match o_kind file with
      | KFile i =>
          nd ← gets (λ w, w_nodes w !!! i);
          if nd_type nd =? T_DEVICE then bs ← read_cons n; mret (Some bs) else
          let bs := slice (Z.to_nat (o_off file)) (Z.to_nat n) (nd_data nd) in
          modify (λ w, set_open (<[f := OpenFile (KFile i) (o_off file + alen bs)]> (w_open w)) w);;
          mret (Some bs)
      | KPipe p out =>
          if out then mret None else
          q ← gets (λ w, w_pipes w !!! p);
          writer ← gets (has_end p true);
          if bool_decide (q = []) && writer then stop Asleep else
          modify (λ w, set_pipes (<[p := drop (Z.to_nat n) q]> (w_pipes w)) w);;
          mret (Some (take (Z.to_nat n) q))
      end
  end.

Definition PIPE_ROOM : Z := 512.

Definition uwrite (fd : Z) (bs : list Z) : U Z :=
  o ← gets (fd_file fd);
  match o with
  | None => mret (-1)
  | Some f =>
      file ← gets (λ w, w_open w !!! f);
      match o_kind file with
      | KFile i =>
          nd ← gets (λ w, w_nodes w !!! i);
          if nd_type nd =? T_DEVICE then modify (λ w, set_out (w_out w ++ bs) w);; mret (alen bs) else
          let off := Z.to_nat (o_off file) in
          let data := take off (nd_data nd) ++ bs ++ drop (off + length bs) (nd_data nd) in
          modify (λ w, set_nodes (<[i := Node (nd_type nd) (nd_ino nd) (nd_nlink nd) data]> (w_nodes w)) w);;
          modify (λ w, set_open (<[f := OpenFile (KFile i) (o_off file + alen bs)]> (w_open w)) w);;
          mret (alen bs)
      | KPipe p out =>
          if negb out then mret (-1) else
          q ← gets (λ w, w_pipes w !!! p);
          reader ← gets (has_end p false);
          let room := Z.to_nat (PIPE_ROOM - alen q) in
          modify (λ w, set_pipes (<[p := q ++ take room bs]> (w_pipes w)) w);;
          if (length bs <=? room)%nat then mret (alen bs) else
          if negb reader then mret (-1) else stop Asleep
      end
  end.

(** [fstat]: the file's [struct stat]. *)
Definition ufstat (fd : Z) : U (option node) :=
  o ← gets (fd_file fd);
  match o with
  | None => mret None
  | Some f =>
      file ← gets (λ w, w_open w !!! f);
      match o_kind file with
      | KFile i => nd ← gets (λ w, w_nodes w !!! i); mret (Some nd)
      | KPipe _ _ => mret None
      end
  end.

Definition uexit {A} (code : Z) : U A := stop (Exited code).

(** A call that leaves the program as it is. *)
Definition sys_call (c : ucall) : U Z :=
  modify (λ w, set_calls (w_calls w ++ [c]) w);;
  gets (λ w, w_answer w c).

(** [exec]: on success the process is another program. *)
Definition uexec (path : list Z) (argv : list (list Z)) : U Z :=
  r ← sys_call (CExec path argv);
  if r <? 0 then mret (-1) else uexit 0.

(** [fork] of a process that then waits: the child runs to its end. *)
Definition fork_wait (child : U unit) : U unit :=
  t ← gets w_fds;
  modify (λ w, set_rest (t :: w_rest w) w);;
  ((λ w, match child w with
         | Stop (Exited _) w' => Ret tt (set_fds t (set_rest (tl (w_rest w')) w'))
         | Stop f w' => Stop f w'
         | Ret _ w' => Stop (Undefined "main returns") w'
         end) : U unit).

(** Steps up to the next test. *)
Ltac ustep :=
  repeat lazymatch goal with
  | |- runs (mbind _ _) _ _ => kstep
  | |- runs (mret _) _ _ => kstep
  | |- runs (gets _) _ _ => kstep
  | |- runs (modify _) _ _ => kstep
  end.

Lemma runs_fork_wait child w c P Q :
  halts child (set_rest (w_fds w :: w_rest w) w) (Exited c) P → (∀ w', P w' → Q tt (set_fds (w_fds w) (set_rest (tl (w_rest w')) w'))) →
  runs (fork_wait child) w Q.
Proof.
  intros Hc HQ. unfold fork_wait. ustep. unfold halts in Hc. unfold runs. destruct (child _) as [|f w']; [done|]. destruct Hc as [-> HP]. by apply HQ.
Qed.
