(* ===== verification/Ulib.v ===== *)
(** * The user library's string routines (user/ulib.c)

    On the bytes of the program's memory, with [char] unsigned as on RISC-V; scanning routines take the loop
    bound [fuel], enough when it exceeds the length of the string.  [gets] and [stat] make system
    calls. *)

From S2P Require Import Prelude Memory Riscv Spinlock Core CString Kalloc Vm Sleeplock BufCache Log Sys Fs User.

Definition strcpy (fuel : nat) (s t : Z) : M mem Z :=
  loop fuel (λ '(s, t),
    v ← ld t; st s v;;
    if v =? 0 then mret (inr tt) else mret (inl (s + 1, t + 1))) (s, t);;
  mret s.

Definition strcmp (fuel : nat) (p q : Z) : M mem Z :=
  loop fuel (λ '(p, q),
    a ← ld p; b ← ld q;
    if negb (a =? 0) && (a =? b) then mret (inl (p + 1, q + 1)) else mret (inr (a - b))) (p, q).

Definition strlen (fuel : nat) (s : Z) : M mem Z :=
  loop fuel (λ n, v ← ld (s + n); if v =? 0 then mret (inr n) else mret (inl (n + 1))) 0.

Definition memset (dst c n : Z) : M mem Z :=
  for_range (Z.to_nat n) 0 (λ i, st (dst + i) c);;
  mret dst.

Definition strchr (fuel : nat) (s c : Z) : M mem Z :=
  loop fuel (λ s,
    v ← ld s;
    if v =? 0 then mret (inr 0) else
    if v =? c then mret (inr s) else mret (inl (s + 1))) s.

(** The sum wraps as the machine's does. *)
Definition atoi (fuel : nat) (s : Z) : M mem Z :=
  loop fuel (λ '(n, s),
    v ← ld s;
    if (48 <=? v) && (v <=? 57) then mret (inl (i32 (n * 10 + v - 48), s + 1)) else mret (inr n)) (0, s).

Definition memmove (dst src n : Z) : M mem Z :=
  (if dst <? src then copy_up (Z.to_nat n) dst src
   else copy_down (Z.to_nat n) (dst + n) (src + n));;
  mret dst.

Definition memcmp (s1 s2 n : Z) : M mem Z :=
  loop (S (Z.to_nat n)) (λ '(p1, p2, n),
    if n <=? 0 then mret (inr 0) else
    a ← ld p1; b ← ld p2;
    if negb (a =? b) then mret (inr (a - b)) else mret (inl (p1 + 1, p2 + 1, n - 1))) (s1, s2, n).

Definition memcpy (dst src n : Z) : M mem Z := memmove dst src n.

(** ** Routines that make system calls, with strings as their bytes *)

Definition ugets (max : Z) : U (list Z) :=
  loop (Z.to_nat max) (λ buf,
    if negb (alen buf + 1 <? max) then mret (inr buf) else
    cc ← uread 0 1;
    match cc with
    | Some (c :: _) =>
        let buf := buf ++ [c] in
        if (c =? 10) || (c =? 13) then mret (inr buf) else mret (inl buf)
    | _ => mret (inr buf)
    end) [].

Definition ustat (n : list Z) : U (option node) :=
  fd ← uopen n;
  if fd <? 0 then mret None else
  r ← ufstat fd;
  uclose fd;;
  mret r.

(** The bytes before the first NUL. *)
Fixpoint c_string (l : list Z) : list Z :=
  match l with
  | [] => []
  | c :: l => if c =? 0 then [] else c :: c_string l
  end.

Lemma c_string_id l : 0 ∉ l → c_string l = l.
Proof. induction l as [|c l IH]; intros H; cbn; [done|]. apply not_elem_of_cons in H as [Hc H]. rewrite (proj2 (Z.eqb_neq c 0)) by done. by rewrite IH. Qed.

(** ** Strings in memory *)

Lemma runs_ld a m Q : Q (m a) m → runs (ld a) m Q.
Proof. done. Qed.
Lemma runs_st a v m Q : Q tt (mset m a (u8 v)) → runs (st a v) m Q.
Proof. done. Qed.
Ltac mstep := repeat lazymatch goal with |- runs (ld _) _ _ => apply runs_ld | |- runs (st _ _) _ _ => apply runs_st | |- runs (mbind _ _) _ _ => kstep | |- runs (mret _) _ _ => kstep end.

Definition str_at (m : mem) (a : Z) (l : list Z) : Prop :=
  Forall (λ c, 0 < c < 256) l ∧ mread m a (length l) = l ∧ m (a + alen l) = 0.

Lemma str_at_nil m a : str_at m a [] ↔ m a = 0.
Proof. unfold str_at. change (a + alen []) with (a + 0). rewrite Z.add_0_r. split; [by intros (_ & _ & ?)|]. intros H. split; [constructor|done]. Qed.

Lemma str_at_cons m a c l : str_at m a (c :: l) ↔ 0 < c < 256 ∧ m a = c ∧ str_at m (a + 1) l.
Proof.
  unfold str_at. rewrite Forall_cons. cbn [length mread]. replace (a + alen (c :: l)) with (a + 1 + alen l) by (unfold alen; cbn [length]; lia).
  split; [intros ([H1 H2] & [= H3 H4] & H5)|intros (H1 & H2 & H3 & H4 & H5)]; [done|]. split; [done|]. split; [by rewrite H2, H4|done].
Qed.

Lemma str_at_same m m' a l : str_at m a l → (∀ x, a ≤ x ≤ a + alen l → m' x = m x) → str_at m' a l.
Proof.
  intros (H1 & H2 & H3) H. split; [done|]. split; [|rewrite H; [done|unfold alen; lia]]. rewrite <- H2 at 2. apply mread_ext. intros x Hx. apply H. unfold alen. lia.
Qed.

Lemma runs_strlen m a l fuel : str_at m a l → (length l < fuel)%nat → runs (strlen fuel a) m (λ r m', r = alen l ∧ m' = m).
Proof.
  intros Hs Hf. unfold strlen. apply (runs_loop _ (λ n m', m' = m ∧ ∃ l1 l2, l = l1 ++ l2 ∧ n = alen l1 ∧ str_at m (a + n) l2) (λ n _, Z.to_nat (alen l - n))).
  - intros n m' (-> & l1 & l2 & -> & -> & H2). mstep. destruct l2 as [|c l2].
    + apply str_at_nil in H2. rewrite H2. change (0 =? 0) with true. cbn iota. kstep. by rewrite app_nil_r.
    + apply str_at_cons in H2 as (Hc & E & H2). rewrite E, (proj2 (Z.eqb_neq _ 0)) by lia. kstep. split; [|unfold alen; rewrite length_app; cbn [length]; lia].
      split; [done|]. exists (l1 ++ [c]), l2. rewrite <- app_assoc. split; [done|]. replace (alen (l1 ++ [c])) with (alen l1 + 1) by (unfold alen; rewrite length_app; cbn; lia).
      split; [done|]. by rewrite Z.add_assoc.
  - split; [done|]. exists [], l. split; [done|]. split; [done|]. by rewrite Z.add_0_r.
  - unfold alen. lia.
Qed.

(** ** Comparison *)

(** The strings' order: bytes as numbers, a proper prefix first. *)
Inductive str_lt : list Z → list Z → Prop :=
| lt_nil b q : str_lt [] (b :: q)
| lt_here a p b q : a < b → str_lt (a :: p) (b :: q)
| lt_next a p q : str_lt p q → str_lt (a :: p) (a :: q).

Fixpoint lstrcmp (p q : list Z) : Z :=
  match p with
  | [] => - hd 0 q
  | a :: p' => if a =? hd 0 q then lstrcmp p' (tl q) else a - hd 0 q
  end.

Lemma lstrcmp_spec p q : Forall (λ c, 0 < c < 256) p → Forall (λ c, 0 < c < 256) q →
  (lstrcmp p q = 0 ↔ p = q) ∧ (lstrcmp p q < 0 ↔ str_lt p q).
Proof.
  revert q. induction p as [|a p IH]; intros [|b q] Hp Hq; cbn [lstrcmp hd tl];
    repeat match goal with H : Forall _ (_ :: _) |- _ => apply Forall_cons in H as [? H] end.
  - split; [done|]. split; [done|]. intros H. inversion H.
  - split; [split; [lia|done]|]. split; [intros _; constructor|lia].
  - rewrite (proj2 (Z.eqb_neq _ 0)) by lia. split; [split; [lia|done]|]. split; [lia|]. intros H'. inversion H'.
  - destruct (Z.eqb_spec a b) as [->|Hne].
    + destruct (IH q Hp Hq) as [E1 E2]. rewrite E1, E2. split; [split; [by intros ->|by intros [= ->]]|]. split; [by constructor|]. intros H'. inversion H'; [lia|done].
    + split; [split; [lia|intros [= ->]; lia]|]. split; [constructor; lia|]. intros H'. inversion H'; [lia|done].
Qed.

Lemma hd_str m q l : str_at m q l → m q = hd 0 l.
Proof. destruct l as [|b l]; [by rewrite str_at_nil|]. rewrite str_at_cons. by intros (_ & ? & _). Qed.

Lemma runs_strcmp m l : ∀ p q l' fuel, str_at m p l → str_at m q l' → (length l < fuel)%nat →
  runs (strcmp fuel p q) m (λ r m', r = lstrcmp l l' ∧ m' = m).
Proof.
  induction l as [|a l IH]; intros p q l' [|fuel] Hp Hq Hf; try (cbn in Hf; lia); unfold strcmp; cbn [loop]; mstep;
    rewrite (hd_str _ _ _ Hp), (hd_str _ _ _ Hq); cbn [hd lstrcmp].
  - change (0 =? 0) with true. cbn [negb andb]. kstep. kstep. split; [lia|done].
  - apply str_at_cons in Hp as (Ha & _ & Hp). rewrite (proj2 (Z.eqb_neq a 0)) by lia. cbn [negb andb]. destruct (Z.eqb_spec a (hd 0 l')) as [E|E]; kstep.
    + destruct l' as [|b l']; [cbn in E; lia|]. apply str_at_cons in Hq as (_ & _ & Hq). apply (IH _ _ l'); [done|done|cbn in Hf; lia].
    + kstep. done.
Qed.

(** [strcmp] decides the order of strings: the result is 0 exactly for equal strings and negative
    exactly when the first comes before the second, byte by byte as unsigned numbers; memory
    is not changed. *)
Theorem strcmp_correct m p q l l' fuel : str_at m p l → str_at m q l' → (length l < fuel)%nat →
  runs (strcmp fuel p q) m (λ r m', (r = 0 ↔ l = l') ∧ (r < 0 ↔ str_lt l l') ∧ m' = m).
Proof.
  intros Hp Hq Hf. eapply runs_mono; [by apply (runs_strcmp m l p q l')|]. intros r m' [-> ->]. destruct (lstrcmp_spec l l') as [H1 H2]; [apply Hp|apply Hq|]. done.
Qed.

(** ** Searching, copying and reading numbers *)

Lemma runs_strchr m c l : ∀ s fuel, str_at m s l → (length l < fuel)%nat →
  runs (strchr fuel s c) m (λ r m', m' = m ∧
    match list_find (λ x, x = c) l with Some (i, _) => r = s + Z.of_nat i | None => r = 0 end).
Proof.
  induction l as [|a l IH]; intros s [|fuel] Hs Hf; try (cbn in Hf; lia); unfold strchr; cbn [loop]; mstep; rewrite (hd_str _ _ _ Hs); cbn [hd list_find].
  - change (0 =? 0) with true. cbn iota. kstep. kstep. done.
  - apply str_at_cons in Hs as (Ha & _ & Hs). rewrite (proj2 (Z.eqb_neq a 0)) by lia. destruct (Z.eqb_spec a c) as [E|E]; kstep.
    + kstep. rewrite decide_True by done. split; [done|lia].
    + rewrite decide_False by done. eapply runs_mono; [apply (IH (s + 1) fuel Hs); cbn in Hf; lia|]. intros r m' [-> Hr]. split; [done|].
      destruct (list_find _ l) as [[i x]|]; cbn; [|done]. rewrite Hr. lia.
Qed.

Lemma runs_strcpy_loop l : ∀ (m1 : mem) s t fuel, str_at m1 t l → mem_ok m1 → (length l < fuel)%nat → s + alen l < t ∨ t + alen l < s →
  runs (loop fuel (λ '(s, t), v ← ld t; st s v;; if v =? 0 then mret (inr tt) else mret (inl (s + 1, t + 1))) (s, t)) m1
    (λ _ m', m' = mwrite m1 s (l ++ [0])).
Proof.
  induction l as [|a l IH]; intros m s t [|fuel] Ht Hm Hf Hd; try (cbn in Hf; lia); cbn [loop]; mstep; rewrite (hd_str _ _ _ Ht); cbn [hd].
  - change (0 =? 0) with true. cbn iota. kstep. kstep. done.
  - apply str_at_cons in Ht as (Ha & _ & Ht). rewrite (proj2 (Z.eqb_neq a 0)) by lia. kstep. change (u8 a) with (a mod 256). rewrite Z.mod_small by lia.
    assert (alen (a :: l) = alen l + 1) as El by (unfold alen; cbn [length]; lia). eapply runs_mono; [apply IH; [| |cbn in Hf; lia|lia]|].
    + eapply str_at_same; [exact Ht|]. intros x Hx. apply mset_ne. lia.
    + intros x. unfold mset. destruct (x =? s); [unfold is_byte; lia|apply Hm].
    + intros _ m' ->. done.
Qed.

Lemma runs_strcpy m s t l fuel : str_at m t l → mem_ok m → (length l < fuel)%nat → s + alen l < t ∨ t + alen l < s →
  runs (strcpy fuel s t) m (λ r m', r = s ∧ m' = mwrite m s (l ++ [0])).
Proof. intros Ht Hm Hf Hd. unfold strcpy. kstep. eapply runs_mono; [by apply (runs_strcpy_loop l)|]. intros _ m' ->. by kstep. Qed.

(** The value of the digits a string begins with. *)
Definition is_digit (c : Z) : bool := (48 <=? c) && (c <=? 57).
Fixpoint latoi (n : Z) (l : list Z) : Z :=
  match l with
  | [] => n
  | c :: l => if is_digit c then latoi (i32 (n * 10 + c - 48)) l else n
  end.

Lemma runs_atoi_loop m l : ∀ n s fuel, str_at m s l → (length l < fuel)%nat →
  runs (loop fuel (λ '(n, s), v ← ld s; if (48 <=? v) && (v <=? 57) then mret (inl (i32 (n * 10 + v - 48), s + 1)) else mret (inr n)) (n, s)) m
    (λ r m', r = latoi n l ∧ m' = m).
Proof.
  induction l as [|a l IH]; intros n s [|fuel] Hs Hf; try (cbn in Hf; lia); cbn [loop]; mstep; rewrite (hd_str _ _ _ Hs); cbn [hd latoi]; unfold is_digit.
  - change ((48 <=? 0) && (0 <=? 57)) with false. cbn iota. by mstep.
  - apply str_at_cons in Hs as (Ha & _ & Hs). destruct ((48 <=? a) && (a <=? 57)); mstep; [|done]. apply IH; [done|cbn in Hf; lia].
Qed.

Lemma runs_atoi m s l fuel : str_at m s l → (length l < fuel)%nat → runs (atoi fuel s) m (λ r m', r = latoi 0 l ∧ m' = m).
Proof. exact (runs_atoi_loop m l 0 s fuel). Qed.

Lemma runs_umemmove m dst src n : mem_ok m → runs (memmove dst src n) m (λ r m', r = dst ∧ copied m m' dst src n).
Proof.
  intros Hm. unfold memmove. kstep. assert (n ≤ 0 ∨ 0 < n) as [Hn|Hn] by lia.
  { replace (Z.to_nat n) with O by lia. destruct (dst <? src); cbn [copy_up copy_down]; repeat kstep; (split; [done|]); intros x; by rewrite decide_False by lia. }
  destruct (Z.ltb_spec dst src).
  - eapply runs_mono; [apply runs_copy_up; [done|lia]|]. intros [] m' Hc. kstep. split; [done|]. by rewrite Z2Nat.id in Hc by lia.
  - eapply runs_mono; [apply runs_copy_down; [done|lia]|]. intros [] m' Hc. kstep. split; [done|]. rewrite Z2Nat.id in Hc by lia. by rewrite !Z.add_simpl_r in Hc.
Qed.

(** The user library's string routines agree with strings as sequences: [strlen] is the length,
    [strchr] finds the first occurrence of a character other than NUL, or returns 0, [strcpy] leaves a copy with
    its NUL and nothing else changed, [memmove] copies also between overlapping ranges. *)
Theorem ulib_strings m a l fuel : mem_ok m → str_at m a l → (length l < fuel)%nat →
  runs (strlen fuel a) m (λ r m', r = alen l ∧ m' = m) ∧
  (∀ c, 0 < c → runs (strchr fuel a c) m (λ r m', m' = m ∧
    ((r = 0 ∧ c ∉ l) ∨ ∃ l1 l2, l = l1 ++ c :: l2 ∧ c ∉ l1 ∧ r = a + alen l1))) ∧
  (∀ d, d + alen l < a ∨ a + alen l < d → runs (strcpy fuel d a) m (λ r m',
    r = d ∧ str_at m' d l ∧ ∀ x, x < d ∨ d + alen l < x → m' x = m x)) ∧
  (∀ d n, runs (memmove d a n) m (λ r m', r = d ∧ copied m m' d a n)).
Proof.
  intros Hm Hs Hf. split; [by apply runs_strlen|]. split; [|split].
  - intros c Hc. eapply runs_mono; [by apply (runs_strchr m c l)|]. intros r m' [-> H]. split; [done|].
    destruct (list_find (λ x, x = c) l) as [[i x]|] eqn:E.
    + right. apply list_find_Some in E as (E & Ex & Hbefore). subst x. exists (take i l), (drop (S i) l).
      split; [by apply eq_sym, take_drop_middle|]. pose proof (lookup_lt_Some _ _ _ E). split; [|unfold alen; rewrite length_take; subst r; lia].
      intros Hin. apply list_elem_of_lookup in Hin as (j & Hj). apply lookup_take_Some in Hj as [Hj Hlt]. by apply (Hbefore j c).
    + left. split; [done|]. apply list_find_None in E. intros Hin. by rewrite Forall_forall in E; apply (E c).
  - intros d Hd. eapply runs_mono; [by apply (runs_strcpy m d a l)|]. intros r m' [-> ->]. split; [done|]. destruct Hs as (H1 & H2 & H3). split.
    + split; [done|]. assert (mread (mwrite m d (l ++ [0])) d (length (l ++ [0])) = l ++ [0]) as E by apply mread_mwrite.
      rewrite length_app in E. cbn [length] in E. rewrite mread_app in E. apply app_inj_1 in E as [E1 E2]; [|by rewrite length_mread]. split; [done|]. by injection E2.
    + intros x Hx. apply mwrite_out. rewrite length_app. cbn [length]. unfold alen in Hx. lia.
  - intros d n. by apply runs_umemmove.
Qed.

Lemma ulib_strings_witness :
  let m := mwrite (λ _, 0) 100 [104; 105] in
  runs (strlen 3 100) m (λ r m', r = 2 ∧ m' = m) ∧ runs (strcpy 3 200 100) m (λ r m', r = 200 ∧ str_at m' 200 [104; 105] ∧ ∀ x, x < 200 ∨ 202 < x → m' x = m x).
Proof.
  intros m. assert (mem_ok m) as Hm by (apply mwrite_ok; [done|repeat constructor; done]).
  assert (str_at m 100 [104; 105]) as Hs by (split; [repeat constructor; lia|done]).
  destruct (ulib_strings m 100 [104; 105] 3 Hm Hs ltac:(cbn; lia)) as (H1 & _ & H2 & _). split; [exact H1|]. apply (H2 200). right. reflexivity.
Defined.

Lemma strcmp_correct_witness :
  let m := mwrite (mwrite (λ _, 0) 100 [97; 98]) 200 [97; 99] in
  runs (strcmp 3 100 200) m (λ r m', (r = 0 ↔ [97; 98] = [97; 99]) ∧ (r < 0 ↔ str_lt [97; 98] [97; 99]) ∧ m' = m).
Proof.
  intros m. apply strcmp_correct; [split; [repeat constructor; lia|done]..|cbn; lia].
Defined.
