(* ===== verification/UPrintf.v ===== *)
(** * Formatted output of user programs (user/printf.c)

    [vprintf] writes one byte at a time.  [render] is the text of a format and its arguments;
    on the console, [vprintf] adds exactly this text. *)

From S2P Require Import Prelude Memory Riscv Spinlock Core CString Kalloc Vm Sleeplock BufCache Log Sys Fs User Ulib.

(** The bytes of a C string literal; the only escape is that of the newline. *)
Fixpoint bytes_of (s : string) : list Z :=
  match s with
  | EmptyString => []
  | String a s1 =>
      match s1 with
      | String b s2 =>
          if ((Ascii.N_of_ascii a =? 92) && (Ascii.N_of_ascii b =? 110))%N then 10 :: bytes_of s2
          else Z.of_N (Ascii.N_of_ascii a) :: bytes_of s1
      | EmptyString => [Z.of_N (Ascii.N_of_ascii a)]
      end
  end.

Definition digits : list Z := Eval vm_compute in bytes_of "0123456789ABCDEF".

Definition putc (fd c : Z) : U unit := uwrite fd [u8 c];; mret tt.

Fixpoint putall (fd : Z) (l : list Z) : U unit :=
  match l with
  | [] => mret tt
  | c :: l => putc fd c;; putall fd l
  end.

(** The [do] loop of [printint]: the digits, the last one first. *)
Fixpoint digit_loop (fuel : nat) (x base : Z) : list Z :=
  match fuel with
  | O => []
  | S fuel => aget digits (x mod base) :: if x / base =? 0 then [] else digit_loop fuel (x / base) base
  end.

Definition printint (fd xx base : Z) (sgn : bool) : U unit :=
  let neg := sgn && (xx <? 0) in
  let x := if neg then u32 (- xx) else u32 xx in
  let buf := digit_loop 32 x base in
  let buf := if neg then buf ++ [45] else buf in
  putall fd (reverse buf).

Definition printptr (fd x : Z) : U unit :=
  putc fd 48;;
  putc fd 120;;
  x ← loop 17 (λ '(i, x),
    if 16 <=? i then mret (inr x) else
    putc fd (aget digits (Z.shiftr x 60));;
    mret (inl (i + 1, u64 (Z.shiftl x 4)))) (0, x);
  mret tt.

(** Arguments: an [int], a [uint64], a string or 0. *)
Inductive varg := VInt (v : Z) | VLong (v : Z) | VStr (s : option (list Z)).

Definition null_str : list Z := Eval vm_compute in bytes_of "(null)".

(** The loop over the format; [pct] says that a percent sign came before. *)
Fixpoint vprintf (fd : Z) (fmt : list Z) (pct : bool) (ap : list varg) : U unit :=
  match fmt with
  | [] => mret tt
  | c :: fmt =>
      if negb pct then
        if c =? 37 then vprintf fd fmt true ap else putc fd c;; vprintf fd fmt false ap
      else if c =? 100 then                                                  (* %d *)
        match ap with VInt v :: ap => printint fd v 10 true;; vprintf fd fmt false ap | _ => stop (Undefined "va_arg") end
      else if c =? 108 then                                                  (* %l *)
        match ap with VLong v :: ap => printint fd (i32 v) 10 false;; vprintf fd fmt false ap | _ => stop (Undefined "va_arg") end
      else if c =? 120 then                                                  (* %x *)
        match ap with VInt v :: ap => printint fd v 16 false;; vprintf fd fmt false ap | _ => stop (Undefined "va_arg") end
      else if c =? 112 then                                                  (* %p *)
        match ap with VLong v :: ap => printptr fd v;; vprintf fd fmt false ap | _ => stop (Undefined "va_arg") end
      else if c =? 115 then                                                  (* %s *)
        match ap with VStr s :: ap => putall fd (default null_str s);; vprintf fd fmt false ap | _ => stop (Undefined "va_arg") end
      else if c =? 99 then                                                   (* %c *)
        match ap with VInt v :: ap => putc fd v;; vprintf fd fmt false ap | _ => stop (Undefined "va_arg") end
      else if c =? 37 then putc fd c;; vprintf fd fmt false ap
      else putc fd 37;; putc fd c;; vprintf fd fmt false ap                  (* unknown *)
  end.

Definition fprintf (fd : Z) (fmt : string) (ap : list varg) : U unit := vprintf fd (bytes_of fmt) false ap.
Definition printf (fmt : string) (ap : list varg) : U unit := vprintf 1 (bytes_of fmt) false ap.

(** ** The console *)

Definition to_console (fd : Z) (w : world) : Prop :=
  ∃ f i off, fd_file fd w = Some f ∧ w_open w !! f = Some (OpenFile (KFile i) off) ∧ nd_type (w_nodes w !!! i) = T_DEVICE.

Definition wrote (w : world) (s : list Z) (w' : world) : Prop := w' = set_out (w_out w ++ s) w.

Lemma wrote_nil w : wrote w [] w.
Proof. unfold wrote. rewrite app_nil_r. by destruct w. Qed.
Lemma wrote_trans w s1 w1 s2 w2 : wrote w s1 w1 → wrote w1 s2 w2 → wrote w (s1 ++ s2) w2.
Proof. intros -> ->. unfold wrote. cbn. by rewrite app_assoc. Qed.
Lemma wrote_console fd w s w' : to_console fd w → wrote w s w' → to_console fd w'.
Proof. intros H ->. exact H. Qed.

Lemma runs_write fd w bs : to_console fd w → runs (uwrite fd bs) w (λ r w', r = alen bs ∧ wrote w bs w').
Proof.
  intros (f & i & off & H1 & H2 & H3). unfold uwrite. kstep. kstep. rewrite H1. kstep. kstep. rewrite (list_lookup_total_correct _ _ _ H2). cbn [o_kind]. kstep. kstep. rewrite H3, Z.eqb_refl. kstep. kstep. by kstep.
Qed.

Lemma runs_putc fd w c : to_console fd w → runs (putc fd c) w (λ _ w', wrote w [u8 c] w').
Proof. intros H. unfold putc. kstep. eapply runs_mono; [by apply runs_write|]. intros r w' [_ Hw]. by kstep. Qed.

Definition chars (l : list Z) : Prop := Forall is_byte l.
Lemma runs_putall fd l : ∀ w, to_console fd w → chars l → runs (putall fd l) w (λ _ w', wrote w l w').
Proof.
  induction l as [|c l IH]; intros w H Hl; cbn [putall]; [kstep; apply wrote_nil|]. apply Forall_cons in Hl as [Hc Hl].
  kstep. eapply runs_mono; [by apply runs_putc|]. intros [] w1 H1. eapply runs_mono; [apply IH; [by eapply wrote_console|done]|].
  intros [] w2 H2. replace (c :: l) with ([u8 c] ++ l) by (cbn; f_equal; apply Z.mod_small, Hc). by eapply wrote_trans.
Qed.

(** ** Numbers *)

(** The value of decimal digits, and the numerals without leading zeros. *)
Definition dvalue (ds : list Z) : Z := fold_left (λ n c, n * 10 + (c - 48)) ds 0.

Definition decimal (v : Z) (s : list Z) : Prop :=
  ∃ ds, s = (if v <? 0 then [45] else []) ++ ds ∧ Forall (λ c, is_digit c = true) ds ∧ ds ≠ [] ∧ (hd 0 ds = 48 → ds = [48]) ∧ dvalue ds = Z.abs v.

Lemma digit_char d : 0 ≤ d < 10 → aget digits d = 48 + d.
Proof.
  intros H. assert (d = 0 ∨ d = 1 ∨ d = 2 ∨ d = 3 ∨ d = 4 ∨ d = 5 ∨ d = 6 ∨ d = 7 ∨ d = 8 ∨ d = 9) as Hd by lia.
  by repeat (destruct Hd as [->|Hd]; [done|]); subst.
Qed.

Lemma dvalue_snoc ds c : dvalue (ds ++ [c]) = dvalue ds * 10 + (c - 48).
Proof. unfold dvalue. by rewrite fold_left_app. Qed.

Lemma digit_loop_spec fuel : ∀ x, 0 ≤ x < 10 ^ Z.of_nat fuel → (0 < fuel)%nat → let ds := reverse (digit_loop fuel x 10) in
  Forall (λ c, is_digit c = true) ds ∧ ds ≠ [] ∧ (hd 0 ds = 48 → ds = [48]) ∧ dvalue ds = x.
Proof.
  induction fuel as [|fuel IH]; intros x Hx Hf; [lia|]. cbn [digit_loop]. rewrite reverse_cons. assert (0 ≤ x mod 10 < 10) as Hm by dlia. rewrite digit_char by done.
  assert (is_digit (48 + x mod 10) = true) as Hd by (unfold is_digit; lia). destruct (Z.eqb_spec (x / 10) 0) as [E|E].
  - cbn [reverse app]. split; [by repeat constructor|]. split; [done|]. split; [cbn; intros ->; done|]. unfold dvalue. cbn. dlia.
  - replace (10 ^ Z.of_nat (S fuel)) with (10 * 10 ^ Z.of_nat fuel) in Hx by (rewrite Nat2Z.inj_succ, Z.pow_succ_r by lia; done).
    assert (0 < fuel)%nat as Hf' by (destruct fuel; [cbn in Hx; dlia|lia]).
    destruct (IH (x / 10) ltac:(dlia) Hf') as (H1 & H2 & H3 & H4). set (ds := reverse (digit_loop fuel (x / 10) 10)) in *.
    split; [apply Forall_app; split; [done|by repeat constructor]|]. split; [by destruct ds|]. split.
    + destruct ds as [|d ds]; [done|]. cbn [hd app]. intros ->. specialize (H3 eq_refl). rewrite H3 in H4. unfold dvalue in H4. cbn in H4. lia.
    + rewrite dvalue_snoc, H4. dlia.
Qed.

Lemma length_digit_loop fuel k : ∀ x, 0 ≤ x < 10 ^ Z.of_nat k → (0 < k)%nat → (length (digit_loop fuel x 10) ≤ k)%nat.
Proof.
  revert fuel. induction k as [|k IH]; intros fuel x Hx Hk; [lia|]. destruct fuel as [|fuel]; cbn [digit_loop length]; [lia|]. destruct (Z.eqb_spec (x / 10) 0); [cbn; lia|].
  replace (10 ^ Z.of_nat (S k)) with (10 * 10 ^ Z.of_nat k) in Hx by (rewrite Nat2Z.inj_succ, Z.pow_succ_r by lia; done).
  assert (0 < k)%nat as Hk' by (destruct k; [cbn in Hx; dlia|lia]). specialize (IH fuel (x / 10) ltac:(dlia) Hk'). lia.
Qed.

(** The text of a number. *)
Definition int_text (xx base : Z) (sgn : bool) : list Z :=
  let neg := sgn && (xx <? 0) in
  (if neg then [45] else []) ++ reverse (digit_loop 32 (if neg then u32 (- xx) else u32 xx) base).

Lemma aget_digits d : is_byte (aget digits d).
Proof.
  unfold aget. destruct (decide (Z.to_nat d < 16)%nat) as [H|H].
  - destruct (lookup_lt_is_Some_2 digits (Z.to_nat d) H) as [v Hv]. rewrite (list_lookup_total_correct _ _ _ Hv).
    assert (Forall is_byte digits) as Hf by (repeat constructor; done). by apply (Forall_lookup_1 _ _ _ _ Hf Hv).
  - rewrite list_lookup_total_alt, (lookup_ge_None_2 digits) by (change (length digits) with 16%nat; lia). done.
Qed.

Lemma digit_loop_chars fuel base : ∀ x, chars (digit_loop fuel x base).
Proof. induction fuel as [|fuel IH]; intros x; cbn [digit_loop]; constructor; [apply aget_digits|]. destruct (x / base =? 0); [constructor|apply IH]. Qed.

Lemma int_text_chars xx base sgn : chars (int_text xx base sgn).
Proof.
  unfold int_text. apply Forall_app. split; [destruct (sgn && _); repeat constructor; done|]. apply Forall_reverse, digit_loop_chars.
Qed.

Lemma runs_printint fd w xx base sgn : to_console fd w → runs (printint fd xx base sgn) w (λ _ w', wrote w (int_text xx base sgn) w').
Proof.
  intros H. unfold printint. replace (reverse _) with (int_text xx base sgn); [apply runs_putall; [done|apply int_text_chars]|].
  unfold int_text. destruct (sgn && (xx <? 0)); [by rewrite reverse_app|done].
Qed.

Lemma int_text_decimal xx : - 2 ^ 31 ≤ xx < 2 ^ 31 → decimal xx (int_text xx 10 true) ∧ (length (int_text xx 10 true) ≤ 11)%nat.
Proof.
  intros H. unfold int_text. cbn [andb]. set (x := if xx <? 0 then u32 (- xx) else u32 xx).
  assert (x = Z.abs xx) as Ex by (unfold x, u32; destruct (Z.ltb_spec xx 0); rewrite Z.mod_small; lia).
  destruct (digit_loop_spec 32 x) as (H1 & H2 & H3 & H4); [rewrite Ex; change (10 ^ Z.of_nat 32) with (10 ^ 32); lia|lia|].
  pose proof (length_digit_loop 32 10 x ltac:(rewrite Ex; change (10 ^ Z.of_nat 10) with 10000000000; lia) ltac:(lia)) as Hl.
  split; [exists (reverse (digit_loop 32 x 10)); by rewrite <- Ex|]. rewrite length_app, length_reverse. destruct (xx <? 0); cbn [length]; lia.
Qed.

(** Reading a numeral back. *)
Lemma dfold_ge ds : ∀ n, 0 ≤ n → Forall (λ c, is_digit c = true) ds → n ≤ fold_left (λ n c, n * 10 + (c - 48)) ds n.
Proof.
  induction ds as [|c ds IH]; intros n Hn Hd; cbn; [lia|]. apply Forall_cons in Hd as [Hc Hd]. unfold is_digit in Hc. specialize (IH (n * 10 + (c - 48)) ltac:(lia) Hd). lia.
Qed.

Lemma latoi_fold ds : ∀ n, 0 ≤ n → Forall (λ c, is_digit c = true) ds → fold_left (λ n c, n * 10 + (c - 48)) ds n < 2 ^ 31 →
  latoi n ds = fold_left (λ n c, n * 10 + (c - 48)) ds n.
Proof.
  induction ds as [|c ds IH]; intros n Hn Hd Hlt; cbn [latoi fold_left] in *; [done|]. apply Forall_cons in Hd as [Hc Hd]. rewrite Hc. unfold is_digit in Hc.
  pose proof (dfold_ge ds (n * 10 + (c - 48)) ltac:(lia) Hd). rewrite i32_small by lia. rewrite <- IH by (done || lia). f_equal. lia.
Qed.

(** [printint] prints every [int] in base 10 as its numeral, a minus sign and digits without leading
    zeros, the smallest [int] included, in at most 11 of the 16 bytes of its buffer. *)
Theorem printint_correct fd w xx : to_console fd w → - 2 ^ 31 ≤ xx < 2 ^ 31 →
  runs (printint fd xx 10 true) w (λ _ w', ∃ s, wrote w s w' ∧ decimal xx s ∧ (length s ≤ 11)%nat).
Proof.
  intros H Hx. eapply runs_mono; [by apply runs_printint|]. intros [] w' Hw. exists (int_text xx 10 true). split; [done|]. by apply int_text_decimal.
Qed.


(** ** Formats *)

Definition ptr_text (x : Z) : list Z := [48; 120] ++ ((λ i, aget digits (Z.shiftr x (60 - 4 * i) mod 16)) <$> seqZ 0 16).

(** The text of a format: None when the arguments do not fit. *)
Fixpoint render (fmt : list Z) (pct : bool) (ap : list varg) : option (list Z) :=
  match fmt with
  | [] => Some []
  | c :: fmt =>
      if negb pct then
        if c =? 37 then render fmt true ap else (λ s, c :: s) <$> render fmt false ap
      else if c =? 100 then match ap with VInt v :: ap => (λ s, int_text v 10 true ++ s) <$> render fmt false ap | _ => None end
      else if c =? 108 then match ap with VLong v :: ap => (λ s, int_text (i32 v) 10 false ++ s) <$> render fmt false ap | _ => None end
      else if c =? 120 then match ap with VInt v :: ap => (λ s, int_text v 16 false ++ s) <$> render fmt false ap | _ => None end
      else if c =? 112 then match ap with VLong v :: ap => (λ s, ptr_text v ++ s) <$> render fmt false ap | _ => None end
      else if c =? 115 then match ap with VStr s :: ap => (λ t, default null_str s ++ t) <$> render fmt false ap | _ => None end
      else if c =? 99 then match ap with VInt v :: ap => (λ s, u8 v :: s) <$> render fmt false ap | _ => None end
      else if c =? 37 then (λ s, c :: s) <$> render fmt false ap
      else (λ s, 37 :: c :: s) <$> render fmt false ap
  end.

(** Arguments of the right range. *)
Definition varg_ok (v : varg) : Prop :=
  match v with VInt v => - 2 ^ 31 ≤ v < 2 ^ 31 | VLong v => 0 ≤ v < 2 ^ 64 | VStr s => chars (default [] s) end.

Lemma top_digit x k : 0 ≤ x → 0 ≤ k ≤ 60 → Z.shiftr (u64 (x * 2 ^ k)) 60 = Z.shiftr x (60 - k) mod 16.
Proof.
  intros Hx Hk. rewrite !Z.shiftr_div_pow2 by lia. unfold u64. replace (2 ^ 64) with (2 ^ (64 - k) * 2 ^ k) by (rewrite <- Z.pow_add_r by lia; f_equal; lia).
  rewrite Z.mul_mod_distr_r by (apply Z.pow_nonzero; lia). replace (2 ^ 60) with (2 ^ (60 - k) * 2 ^ k) by (rewrite <- Z.pow_add_r by lia; f_equal; lia).
  rewrite Z.div_mul_cancel_r by (apply Z.pow_nonzero; lia). replace (2 ^ (64 - k)) with (2 ^ (60 - k) * 16) by (change 16 with (2 ^ 4); rewrite <- Z.pow_add_r by lia; f_equal; lia).
  assert (0 < 2 ^ (60 - k)) by (apply Z.pow_pos_nonneg; lia). rewrite Z.rem_mul_r by lia. rewrite Z.mul_comm, Z.div_add by lia. rewrite Z.div_small by (apply Z.mod_pos_bound; lia). lia.
Qed.

Lemma shift_digit x k : 0 ≤ k → u64 (Z.shiftl (u64 (x * 2 ^ k)) 4) = u64 (x * 2 ^ (k + 4)).
Proof.
  intros Hk. rewrite Z.shiftl_mul_pow2 by lia. unfold u64. rewrite Z.mul_mod_idemp_l by lia. rewrite Z.pow_add_r by lia. by rewrite Z.mul_assoc.
Qed.

Lemma runs_printptr fd w x : to_console fd w → 0 ≤ x < 2 ^ 64 → runs (printptr fd x) w (λ _ w', wrote w (ptr_text x) w').
Proof.
  intros H Hx. unfold printptr. kstep. eapply runs_mono; [by apply runs_putc|]. intros [] w1 H1. kstep.
  eapply runs_mono; [apply runs_putc; by eapply wrote_console|]. intros [] w2 H2. pose proof (wrote_trans _ _ _ _ _ H1 H2) as H12. cbn [app] in H12.
  change [u8 48; u8 120] with [48; 120] in H12. kstep.
  apply (runs_loop _ (λ '(i, y) w', 0 ≤ i ≤ 16 ∧ y = u64 (x * 2 ^ (4 * i)) ∧ wrote w ([48; 120] ++ ((λ i, aget digits (Z.shiftr x (60 - 4 * i) mod 16)) <$> seqZ 0 i)) w')
    (λ '(i, _) _, Z.to_nat (16 - i))).
  - intros [i y] w3 (Hi & -> & H3). destruct (Z.leb_spec 16 i); kstep.
    + kstep. unfold ptr_text. by replace i with 16 in H3 by lia.
    + eapply runs_mono; [apply runs_putc; eapply wrote_console; [exact H|exact H3]|]. intros [] w4 H4. kstep. split; [|lia]. split; [lia|]. split; [rewrite shift_digit by lia; do 3 f_equal; lia|].
      pose proof (wrote_trans _ _ _ _ _ H3 H4) as H34. rewrite top_digit in H34 by lia.
      replace (i + 1) with (Z.of_nat (S (Z.to_nat i))) by lia. rewrite seqZ_S, fmap_app, app_assoc. rewrite Z2Nat.id, Z.add_0_l by lia. cbn [fmap list_fmap].
      assert (u8 (aget digits (Z.shiftr x (60 - 4 * i) mod 16)) = aget digits (Z.shiftr x (60 - 4 * i) mod 16)) as Eu by (apply Z.mod_small, aget_digits). rewrite Eu in H34. done.
  - split; [lia|]. split; [rewrite Z.mul_0_r, Z.mul_1_r; unfold u64; by rewrite Z.mod_small by lia|done].
  - lia.
Qed.

Lemma fmap_Some_inv {A B} (f : A → B) (o : option A) (b : B) : f <$> o = Some b → ∃ a, o = Some a ∧ b = f a.
Proof. destruct o as [a|]; [|done]. intros [= <-]. by exists a. Qed.

Lemma runs_vprintf fd fmt : ∀ pct ap w s, to_console fd w → chars fmt → Forall varg_ok ap → render fmt pct ap = Some s →
  runs (vprintf fd fmt pct ap) w (λ _ w', wrote w s w').
Proof.
  induction fmt as [|c fmt IH]; intros pct ap w s H Hf Ha Hr; cbn [vprintf render] in *; [injection Hr as <-; kstep; apply wrote_nil|].
  apply Forall_cons in Hf as [Hc Hf]. assert (u8 c = c) as Euc by (apply Z.mod_small, Hc).
  assert (∀ (m : U unit) s1 ap' w1 s2, runs m w1 (λ _ w', wrote w1 s1 w') → to_console fd w1 → Forall varg_ok ap' → render fmt false ap' = Some s2 →
    runs (m;; vprintf fd fmt false ap') w1 (λ _ w', wrote w1 (s1 ++ s2) w')) as Hseq.
  { intros m s1 ap' w1 s2 Hm Hw1 Hap Hs2. kstep. eapply runs_mono; [exact Hm|]. intros [] w2 H2. eapply runs_mono; [apply IH; [by eapply wrote_console|done..]|].
    intros [] w3 H3. by eapply wrote_trans. }
  assert (∀ ch, runs (putc fd ch) w (λ _ w', wrote w [u8 ch] w')) as Hput by (intros ch; by apply runs_putc).
  assert (∀ w1, to_console fd w1 → runs (putc fd c) w1 (λ _ w', wrote w1 [c] w')) as Hputc.
  { intros w1 Hw1. pose proof (runs_putc fd w1 c Hw1) as Hp. by rewrite Euc in Hp. }
  destruct pct; cbn [negb] in *; repeat (match goal with |- context [if ?b then _ else _] => destruct b eqn:? end);
    repeat match goal with H : context [match ?l with [] => _ | _ :: _ => _ end] |- _ => destruct l as [|[v|v|v] ap']; try done | H : Forall varg_ok (_ :: _) |- _ => apply Forall_cons in H as [? H] end;
    try (apply fmap_Some_inv in Hr as (s' & Hr & ->)).
  - by apply Hseq; [apply runs_printint|..].
  - by apply Hseq; [apply runs_printint|..].
  - by apply Hseq; [apply runs_printint|..].
  - by apply Hseq; [apply runs_printptr|..].
  - apply Hseq; [apply runs_putall; [done|]|done..]. destruct v; [done|]. repeat constructor; done.
  - apply (Hseq _ [u8 v]); [done..|]. done.
  - apply (Hseq _ [c]); [by apply Hputc|done..].
  - kstep. eapply runs_mono; [apply Hput|]. intros [] w1 H1. apply (runs_mono _ _ (λ _ w', wrote w1 (c :: s') w')).
    + apply (Hseq _ [c]); [apply Hputc; by eapply wrote_console|by eapply wrote_console|done..].
    + intros [] w2 H2. exact (wrote_trans _ _ _ _ _ H1 H2).
  - by apply IH.
  - apply (Hseq _ [c]); [by apply Hputc|done..].
Qed.

(** [vprintf] on the console adds exactly the text of the format: characters as they are, numbers, pointers and
    strings in place of the conversions it knows, and an unknown conversion as it is written. *)
Theorem vprintf_correct fd fmt ap w s : to_console fd w → chars fmt → Forall varg_ok ap → render fmt false ap = Some s →
  runs (vprintf fd fmt false ap) w (λ _ w', wrote w s w').
Proof. apply runs_vprintf. Qed.

Lemma bytes_of_chars s : chars (bytes_of s).
Proof.
  assert (∀ a, is_byte (Z.of_N (Ascii.N_of_ascii a))) as Ha by (intros a; unfold is_byte; pose proof (Ascii.N_ascii_bounded a); lia).
  assert (∀ n s, (String.length s ≤ n)%nat → chars (bytes_of s)) as H; [|by eapply H].
  clear s. induction n as [|n IH]; intros [|a [|b s]] Hn; cbn [String.length] in Hn; try lia; try constructor; try apply Ha; try constructor.
  cbn [bytes_of]. destruct (_ && _); constructor; [done|apply IH; lia|apply Ha|]. change (chars (bytes_of (String b s))). apply IH. cbn. lia.
Qed.

Lemma runs_printf fd fmt ap w s : to_console fd w → Forall varg_ok ap → render (bytes_of fmt) false ap = Some s →
  runs (fprintf fd fmt ap) w (λ _ w', wrote w s w').
Proof. intros H Ha Hr. apply runs_vprintf; [done|apply bytes_of_chars|done..]. Qed.

(** ** Examples *)

(** A process with the console as its standard input and output. *)
Definition ex_world : world :=
  World [Node T_DEVICE 5 1 []] (λ _, None) [OpenFile (KFile 0) 0] [] (replicate 3 (Some 0%nat) ++ replicate 13 None) [] [] [] [] (λ _, 0).

Lemma ex_console : to_console 1 ex_world.
Proof. exists 0%nat, 0%nat, 0. done. Qed.

Lemma printint_correct_witness : runs (printint 1 (- 2 ^ 31) 10 true) ex_world (λ _ w', ∃ s, wrote ex_world s w' ∧ decimal (- 2 ^ 31) s ∧ (length s ≤ 11)%nat).
Proof. apply printint_correct; [apply ex_console|lia]. Defined.


(** "%d%%|%u" *)
Lemma vprintf_correct_witness :
  runs (vprintf 1 [37; 100; 37; 37; 124; 37; 117] false [VInt (-7)]) ex_world (λ _ w', wrote ex_world [45; 55; 37; 124; 37; 117] w').
Proof. apply vprintf_correct; [apply ex_console|repeat constructor; done|repeat constructor; done|reflexivity]. Defined.
