(* ===== verification/UProgs.v ===== *)
(** * Small user programs

    user/cat.c, user/wc.c, user/echo.c, the main program of user/grep.c, user/kill.c, user/ln.c,
    user/mkdir.c, user/rm.c and user/sleep.c.  [args] are the arguments after the program's name; strings are
    their bytes.  Loops over a file take [fuel], a bound on the number of reads. *)

From S2P Require Import Prelude Memory Riscv Spinlock Core CString Kalloc Vm Sleeplock BufCache Log Sys Fs Grep User Ulib UPrintf.

(** The loop of [main] over the files: open, process, close. *)
Fixpoint each_file (msg : string) (body : Z → list Z → U unit) (args : list (list Z)) : U unit :=
  match args with
  | [] => mret tt
  | arg :: args =>
      fd ← uopen arg;
      if fd <? 0 then printf msg [VStr (Some arg)];; uexit 1 else
      body fd arg;;
      uclose fd;;
      each_file msg body args
  end.

(** ** cat *)

Definition cat (fuel : nat) (fd : Z) : U unit :=
  loop fuel (λ _,
    n ← uread fd 512;
    match n with
    | None => printf "cat: read error\n" [];; uexit 1
    | Some [] => mret (inr tt)
    | Some buf =>
        r ← uwrite 1 buf;
        if negb (r =? alen buf) then printf "cat: write error\n" [];; uexit 1 else
        mret (inl tt)
    end) tt.

Definition cat_main (fuel : nat) (args : list (list Z)) : U unit :=
  match args with
  | [] => cat fuel 0;; uexit 1
  | _ => each_file "cat: cannot open %s\n" (λ fd _, cat fuel fd) args;; uexit 0
  end.

(** ** wc *)

Record wc_st := WcSt { wc_l : Z; wc_w : Z; wc_c : Z; wc_inword : bool }.

Definition wc_ws : list Z := [32; 13; 9; 10; 11].               (* " \r\t\n\v" *)

(** One character; [strchr] finds no NUL. *)
Definition wc_char (s : wc_st) (c : Z) : wc_st :=
  let l := if c =? 10 then i32 (wc_l s + 1) else wc_l s in
  if bool_decide (c ∈ wc_ws) then WcSt l (wc_w s) (i32 (wc_c s + 1)) false
  else if negb (wc_inword s) then WcSt l (i32 (wc_w s + 1)) (i32 (wc_c s + 1)) true
  else WcSt l (wc_w s) (i32 (wc_c s + 1)) true.

Definition wc (fuel : nat) (fd : Z) (name : list Z) : U unit :=
  s ← loop fuel (λ s,
    n ← uread fd 512;
    match n with
    | None => printf "wc: read error\n" [];; uexit 1
    | Some [] => mret (inr s)
    | Some buf => mret (inl (fold_left wc_char buf s))
    end) (WcSt 0 0 0 false);
  printf "%d %d %d %s\n" [VInt (wc_l s); VInt (wc_w s); VInt (wc_c s); VStr (Some name)].

Definition wc_main (fuel : nat) (args : list (list Z)) : U unit :=
  match args with
  | [] => wc fuel 0 [];; uexit 0
  | _ => each_file "wc: cannot open %s\n" (wc fuel) args;; uexit 0
  end.

(** ** grep's loop on a descriptor, and its main program *)

Definition grep_fd (fuel : nat) (pattern : list Z) (fd : Z) : U unit :=
  loop fuel (λ buf,
    n ← uread fd (GBUF - alen buf - 1);
    match n with
    | None | Some [] => mret (inr tt)
    | Some got =>
        let buf := buf ++ got in
        loop (S (length buf)) (λ p,
          match strchr_at c_nl p with
          | None => mret (inr p)
          | Some q =>
              (if grep_match pattern (take q p) then uwrite 1 (take (S q) p);; mret tt else mret tt);;
              mret (inl (drop (S q) p))
          end) buf ≫= (λ p, mret (inl p))
    end) [].

Definition grep_main (fuel : nat) (args : list (list Z)) : U unit :=
  match args with
  | [] => fprintf 2 "usage: grep pattern [file ...]\n" [];; uexit 1
  | [pattern] => grep_fd fuel pattern 0;; uexit 0
  | pattern :: files => each_file "grep: cannot open %s\n" (λ fd _, grep_fd fuel pattern fd) files;; uexit 0
  end.

(** ** echo *)

Fixpoint echo_args (args : list (list Z)) : U unit :=
  match args with
  | [] => mret tt
  | arg :: args =>
      uwrite 1 arg;;
      uwrite 1 (match args with [] => [10] | _ => [32] end);;
      echo_args args
  end.
Definition echo_main (args : list (list Z)) : U unit := echo_args args;; uexit 0.

(** ** kill, ln, mkdir, rm, sleep *)

Fixpoint kill_args (args : list (list Z)) : U unit :=
  match args with
  | [] => mret tt
  | arg :: args => sys_call (CKill (latoi 0 arg));; kill_args args
  end.
Definition kill_main (args : list (list Z)) : U unit :=
  match args with
  | [] => fprintf 2 "usage: kill pid...\n" [];; uexit 1
  | _ => kill_args args;; uexit 0
  end.

Definition ln_main (args : list (list Z)) : U unit :=
  match args with
  | [old; new] =>
      r ← sys_call (CLink old new);
      when (r <? 0) (fprintf 2 "link %s %s: failed\n" [VStr (Some old); VStr (Some new)]);;
      uexit 0
  | _ => fprintf 2 "Usage: ln old new\n" [];; uexit 1
  end.

(** mkdir and rm: up to the first that fails. *)
Fixpoint until_failure (call : list Z → ucall) (msg : string) (args : list (list Z)) : U unit :=
  match args with
  | [] => mret tt
  | arg :: args =>
      r ← sys_call (call arg);
      if r <? 0 then fprintf 2 msg [VStr (Some arg)] else until_failure call msg args
  end.
Definition mkdir_main (args : list (list Z)) : U unit :=
  match args with
  | [] => fprintf 2 "Usage: mkdir files...\n" [];; uexit 1
  | _ => until_failure CMkdir "mkdir: %s failed to create\n" args;; uexit 0
  end.
Definition rm_main (args : list (list Z)) : U unit :=
  match args with
  | [] => fprintf 2 "Usage: rm files...\n" [];; uexit 1
  | _ => until_failure CUnlink "rm: %s failed to delete\n" args;; uexit 0
  end.

Inductive cmd_parse := wrong_char | success_parse | toomany_char.

Definition parse_cmd (args : list (list Z)) : cmd_parse :=
  match args with
  | [arg] => if forallb is_digit arg then success_parse else wrong_char
  | _ => toomany_char
  end.

Definition sleep_main (args : list (list Z)) : U unit :=
  match args with
  | [] => printf "Please enter the parameters!" [];; uexit 1
  | arg :: _ =>
      match parse_cmd args with
      | toomany_char => printf "Too many args! \n" [];; uexit 1
      | wrong_char => printf "Cannot input alphabet, number only \n" [];; uexit 1
      | success_parse => sys_call (CSleep (latoi 0 arg));; uexit 0
      end
  end.
