(* ===== verification/UText.v ===== *)
(** * A program that opens a file, reads it and closes it

    [reading w fd i off l out]: the world [w] after inode [i] was opened as [fd] and read up to [off], [out] was
    printed, and the files [l] were opened and closed meanwhile.  [after w out w']: a file was opened, read and closed,
    and [out] printed. *)

From S2P Require Import Prelude Memory Riscv Spinlock Core CString Kalloc Vm Sleeplock BufCache Log Sys Fs Grep User Ulib UPrintf UProgs.

Definition reading (w : world) (fd i : nat) (off : Z) (l : list ofile) (out : list Z) : world :=
  set_fds (<[fd := Some (length (w_open w))]> (w_fds w)) (set_open (w_open w ++ OpenFile (KFile i) off :: l) (set_out (w_out w ++ out) w)).
Abbreviation opened w fd i off out := (reading w fd i off [] out).

Definition after (w : world) (out : list Z) (w' : world) : Prop :=
  ∃ l, w' = set_open (w_open w ++ l) (set_out (w_out w ++ out) w).

(** A path that leads to a file of these bytes, not to a device. *)
Definition file_at (w : world) (path : list Z) (i : nat) (data : list Z) : Prop :=
  w_path w path = Some i ∧ nd_type (w_nodes w !!! i) ≠ T_DEVICE ∧ nd_data (w_nodes w !!! i) = data.

(** Sixteen descriptors, one of them free. *)
Definition free_fd (w : world) (fd : nat) : Prop := lowest_fd (w_fds w) = Some fd ∧ length (w_fds w) = Z.to_nat NOFILE.

Lemma lowest_fd_spec t fd : lowest_fd t = Some fd → t !! fd = Some None.
Proof.
  revert fd. induction t as [|[f|] t IH]; intros fd H; [done| |by injection H as <-]. cbn in H. apply fmap_Some_inv in H as (fd' & H & ->). by apply IH.
Qed.


Lemma free_fd_range w fd : free_fd w fd → (fd < 16)%nat.
Proof. intros [H Hl]. apply lowest_fd_spec, lookup_lt_Some in H. rewrite Hl in H. exact H. Qed.

Lemma after_reading w fd i off l out s w' : after (reading w fd i off l out) s w' → ∃ l', w' = reading w fd i off l' (out ++ s).
Proof. intros [l2 ->]. exists (l ++ l2). unfold reading. cbn. by rewrite <- !app_assoc. Qed.
Lemma wrote_reading w fd i off l out s w' : wrote (reading w fd i off l out) s w' → w' = reading w fd i off l (out ++ s).
Proof. intros ->. unfold reading. cbn. by rewrite app_assoc. Qed.

Section Reading.
Context (w : world) (fd : nat) (Hfd : free_fd w fd) (i : nat) (l : list ofile) (out : list Z).

Lemma reading_fd off : fd_file (Z.of_nat fd) (reading w fd i off l out) = Some (length (w_open w)).
Proof using Hfd.
  pose proof (free_fd_range w fd Hfd) as Hr. unfold fd_file. change NOFILE with 16. rewrite (proj2 (Z.ltb_ge _ 0)), (proj2 (Z.leb_gt 16 _)) by lia. cbn [orb]. rewrite Nat2Z.id.
  cbn [reading w_fds set_fds]. rewrite list_lookup_insert_eq; [done|]. destruct Hfd as [_ ->]. exact Hr.
Qed.
Lemma reading_file off : w_open (reading w fd i off l out) !! length (w_open w) = Some (OpenFile (KFile i) off).
Proof. cbn. by rewrite lookup_app_r, Nat.sub_diag by lia. Qed.

Lemma reading_console off c : to_console c w → to_console c (reading w fd i off l out).
Proof using Hfd.
  intros (f & j & o & G1 & G2 & G3). exists f, j, o. split; [|split; [cbn; by apply lookup_app_l_Some|done]].
  unfold fd_file in *. cbn in *. destruct (_ || _); [done|]. destruct (decide (Z.to_nat c = fd)) as [E|E]; [|by rewrite list_lookup_insert_ne].
  rewrite E in G1. destruct Hfd as [Hl _]. apply lowest_fd_spec in Hl. by rewrite Hl in G1.
Qed.

Lemma runs_ufstat off : runs (ufstat (Z.of_nat fd)) (reading w fd i off l out) (λ r w', r = Some (w_nodes w !!! i) ∧ w' = reading w fd i off l out).
Proof using Hfd. unfold ufstat. ustep. rewrite reading_fd. ustep. rewrite (list_lookup_total_correct _ _ _ (reading_file off)). cbn [o_kind]. ustep. done. Qed.

Lemma runs_uread off n : nd_type (w_nodes w !!! i) ≠ T_DEVICE → let bs := slice (Z.to_nat off) (Z.to_nat n) (nd_data (w_nodes w !!! i)) in
  runs (uread (Z.of_nat fd) n) (reading w fd i off l out) (λ r w', r = Some bs ∧ w' = reading w fd i (off + alen bs) l out).
Proof using Hfd.
  intros Ht bs. unfold uread. ustep. rewrite reading_fd. ustep. rewrite (list_lookup_total_correct _ _ _ (reading_file off)). cbn [o_kind o_off]. ustep.
  cbn [reading w_nodes set_fds set_open set_out]. rewrite (proj2 (Z.eqb_neq _ _)) by done. ustep. split; [done|]. fold bs.
  unfold reading. cbn. f_equal. by rewrite insert_app_r_alt, Nat.sub_diag by lia.
Qed.

Lemma runs_uclose off : runs (uclose (Z.of_nat fd)) (reading w fd i off l out) (λ _ w', after w out w').
Proof using Hfd.
  unfold uclose. ustep. rewrite reading_fd. ustep. exists (OpenFile (KFile i) off :: l). unfold reading. cbn. rewrite Nat2Z.id.
  unfold set_fds, set_open, set_out. cbn. f_equal. rewrite list_insert_insert_eq. apply list_insert_id. apply lowest_fd_spec. apply Hfd.
Qed.

Lemma runs_uprint off c bs : to_console c w → runs (uwrite c bs) (reading w fd i off l out) (λ r w', r = alen bs ∧ w' = reading w fd i off l (out ++ bs)).
Proof using Hfd.
  intros Hc. eapply runs_mono; [by apply runs_write, reading_console|]. intros r w' [-> H]. split; [done|]. by apply wrote_reading.
Qed.
End Reading.

Lemma runs_uopen w fd path i : free_fd w fd → w_path w path = Some i → runs (uopen path) w (λ r w', r = Z.of_nat fd ∧ w' = reading w fd i 0 [] []).
Proof.
  intros [H2 _] H1. unfold uopen, new_file, new_fd. ustep. rewrite H1. ustep. rewrite H2. ustep. cbn [w_fds set_open]. rewrite H2. ustep.
  split; [done|]. unfold reading. rewrite app_nil_r. by destruct w.
Qed.


(** ** Sequences of files *)

Lemma after_refl w : after w [] w.
Proof. exists []. rewrite !app_nil_r. by destruct w. Qed.
Lemma after_trans w a w1 b w2 : after w a w1 → after w1 b w2 → after w (a ++ b) w2.
Proof. intros [l1 ->] [l2 ->]. exists (l1 ++ l2). cbn. by rewrite !app_assoc. Qed.
Lemma after_wrote w a w1 b w2 : after w a w1 → wrote w1 b w2 → after w (a ++ b) w2.
Proof. intros [l1 ->] ->. exists l1. unfold set_out, set_open. cbn. by rewrite app_assoc. Qed.
Lemma after_console w a w1 c : after w a w1 → to_console c w → to_console c w1.
Proof. intros [l ->] (f & i & o & H1 & H2 & H3). exists f, i, o. split; [done|]. split; [by apply lookup_app_l_Some|done]. Qed.
Lemma after_free w a w1 fd : after w a w1 → free_fd w fd → free_fd w1 fd.
Proof. by intros [l ->]. Qed.
Lemma after_file w a w1 path i data : after w a w1 → file_at w path i data → file_at w1 path i data.
Proof. by intros [l ->]. Qed.

(** What a program prints for a file whose name and bytes are [ok]. *)
Definition prints (w : world) (fd : nat) (ok : list Z → list Z → Prop) (body : Z → list Z → U unit) (text : list Z → list Z → list Z) : Prop :=
  ∀ w1 a i arg data, after w a w1 → file_at w1 arg i data → ok arg data →
    runs (body (Z.of_nat fd) arg) (opened w1 fd i 0 []) (λ _ w', ∃ off, w' = opened w1 fd i off (text arg data)).

Lemma runs_each_file w fd msg body text ok files : free_fd w fd → prints w fd ok body text →
  ∀ w1 a, after w a w1 → Forall (λ f, (∃ i, file_at w f.1 i f.2) ∧ ok f.1 f.2) files →
  runs (each_file msg body files.*1) w1 (λ _ w', after w (a ++ concat ((λ f, text f.1 f.2) <$> files)) w').
Proof.
  intros Hfd Hb. induction files as [|[arg data] files IH]; intros w1 a Ha Hf; cbn [each_file fmap list_fmap fst snd concat].
  { kstep. by rewrite app_nil_r. }
  apply Forall_cons in Hf as [[[i Hi] Hlen] Hf]. cbn [fst snd] in Hi, Hlen. pose proof (after_free _ _ _ _ Ha Hfd) as Hfd1. pose proof (after_file _ _ _ _ _ _ Ha Hi) as Hi1.
  kstep. eapply runs_mono; [apply (runs_uopen w1 fd arg i Hfd1), Hi1|]. intros r w2 [-> ->]. rewrite (proj2 (Z.ltb_ge _ 0)) by lia. kstep. eapply runs_mono; [by eapply Hb|].
  intros [] w3 [off ->]. kstep. eapply runs_mono; [by apply runs_uclose|]. intros r w4 H4. eapply runs_mono; [eapply IH; [eapply after_trans; [exact Ha|exact H4]|done]|].
  intros [] w5 H5. by rewrite app_assoc.
Qed.

(** * What cat, wc, grep and echo print *)

Lemma slice_next {A} off n (l : list A) : (off ≤ length l)%nat → drop off l = slice off n l ++ drop (off + length (slice off n l)) l.
Proof.
  intros H. unfold slice. rewrite length_take, length_drop, <- drop_drop, <- (take_drop n (drop off l)) at 1. f_equal.
  destruct (decide (n ≤ length l - off)%nat); [by rewrite Nat.min_l by lia|]. rewrite Nat.min_r by lia. rewrite !drop_ge; [done|rewrite length_drop; lia..].
Qed.
Lemma slice_nil {A} off n (l : list A) : slice off n l = [] → (0 < n)%nat → drop off l = [].
Proof. unfold slice. intros H Hn. destruct (drop off l); [done|]. by destruct n; [lia|]. Qed.

(** ** Reading to the end

    A loop that reads pieces of [n] bytes ends after the last one, having seen every byte once. *)
Section ReadAll.
Context (w : world) (fd : nat) (Hfd : free_fd w fd) (i : nat) (data : list Z).
Context (Ht : nd_type (w_nodes w !!! i) ≠ T_DEVICE) (Hd : nd_data (w_nodes w !!! i) = data).

Lemma runs_read_all {A R} (body : A → U (A + R)) (n : A → Z) (I : list Z → A → list Z → Prop) fuel a0 out0 Q :
  (∀ done a out off, I done a out → done = take (Z.to_nat off) data → 0 ≤ off ≤ alen data →
    let bs := slice (Z.to_nat off) (Z.to_nat (n a)) data in
    runs (body a) (opened w fd i off out) (λ r w', match r with
      | inl a' => bs ≠ [] ∧ ∃ out', w' = opened w fd i (off + alen bs) out' ∧ I (done ++ bs) a' out'
      | inr r => bs = [] ∧ Q r w'
      end)) →
  I [] a0 out0 → (length data < fuel)%nat → runs (loop fuel body a0) (opened w fd i 0 out0) Q.
Proof.
  intros Hbody HI Hf.
  apply (runs_loop_nat _ (λ k a w', ∃ off out, k = Z.to_nat (alen data - off) ∧ 0 ≤ off ≤ alen data ∧ w' = opened w fd i off out ∧ I (take (Z.to_nat off) data) a out) _ _ (length data)); [| |done].
  - intros k a w' (off & out & -> & Ho & -> & H). eapply runs_mono; [exact (Hbody _ a out off H eq_refl Ho)|].
    intros [a'|r] w1 Hw; [|by apply Hw]. destruct Hw as (Hne & out' & -> & H'). set (bs := slice _ _ data) in *.
    assert (0 < alen bs) as Hbs by (destruct bs; [done|unfold alen; cbn; lia]).
    assert (off + alen bs ≤ alen data) as Hle by (unfold bs, slice, alen in *; rewrite length_take, length_drop; lia).
    exists (Z.to_nat (alen data - (off + alen bs))). split; [lia|]. exists (off + alen bs), out'. split; [done|]. split; [lia|]. split; [done|].
    replace (take (Z.to_nat (off + alen bs)) data) with (take (Z.to_nat off) data ++ bs); [done|].
    replace (Z.to_nat (off + alen bs)) with (Z.to_nat off + length bs)%nat by (unfold alen; lia). rewrite <- take_take_drop. f_equal. unfold bs, slice. rewrite length_take.
    symmetry. destruct (decide (Z.to_nat (n a) ≤ length (drop (Z.to_nat off) data))%nat); [by rewrite Nat.min_l by lia|].
    rewrite Nat.min_r by lia. rewrite !take_ge by lia. done.
  - exists 0, out0. unfold alen. split; [lia|]. split; [lia|]. done.
Qed.

Lemma read_end off n : slice (Z.to_nat off) (Z.to_nat n) data = [] → 0 < n → take (Z.to_nat off) data = data.
Proof using. clear. intros H Hn. apply slice_nil in H; [|lia]. rewrite <- (take_drop (Z.to_nat off) data) at 2. by rewrite H, app_nil_r. Qed.
End ReadAll.

(** ** cat *)

Lemma prints_cat w fd fuel : free_fd w fd → to_console 1 w → prints w fd (λ _ data, length data < fuel)%nat (λ fd _, cat fuel fd) (λ _ data, data).
Proof.
  intros Hfd Hc w1 a i arg data Ha (_ & Ht & Hd) Hf. pose proof (after_free _ _ _ _ Ha Hfd) as Hfd1. pose proof (after_console _ _ _ _ Ha Hc) as Hc1.
  apply (runs_read_all w1 fd i data _ (λ _, 512) (λ done _ out, out = done)); [|done|done].
  intros d [] out off -> Ed Ho bs. kstep. eapply runs_mono; [by apply (runs_uread w1 fd Hfd1 i)|]. intros r w2 [-> ->]. rewrite Hd.
  fold bs. destruct bs as [|b bs'] eqn:E.
  - kstep. split; [done|]. eexists. f_equal. rewrite Ed. by eapply read_end.
  - kstep. eapply runs_mono; [by apply (runs_uprint w1 fd Hfd1 i)|]. intros r w3 [-> ->]. rewrite Z.eqb_refl. cbn [negb]. kstep. split; [done|]. by eexists.
Qed.

(** Cat prints the bytes of the files it is given, one after the other, and exits with 0; the reads of a file
    end, and every descriptor it opens is closed again. *)
Theorem cat_correct w fd files fuel : free_fd w fd → to_console 1 w → files ≠ [] →
  Forall (λ f, (∃ i, file_at w f.1 i f.2) ∧ (length f.2 < fuel)%nat) files →
  halts (cat_main fuel files.*1) w (Exited 0) (λ w', after w (concat files.*2) w').
Proof.
  intros Hfd Hc Hne Hf. assert (cat_main fuel files.*1 = (each_file "cat: cannot open %s\n" (λ fd _, cat fuel fd) files.*1;; uexit 0)) as -> by by destruct files.
  apply halts_bind_r.
  eapply runs_mono; [apply (runs_each_file w fd _ _ _ _ files Hfd (prints_cat w fd fuel Hfd Hc) w []); [apply after_refl|done]|]. intros [] w' H. by split.
Qed.

(** ** wc *)

Definition is_space (c : Z) : bool := bool_decide (c ∈ wc_ws).

(** The words of a text: the maximal runs without white space. *)
Fixpoint split_words (cur : list Z) (l : list Z) : list (list Z) :=
  match l with
  | [] => if bool_decide (cur = []) then [] else [cur]
  | c :: l => if is_space c then (if bool_decide (cur = []) then [] else [cur]) ++ split_words [] l else split_words (cur ++ [c]) l
  end.

Definition count_lines (l : list Z) : Z := alen (filter (λ c, c = 10) l).
Definition count_words (l : list Z) : Z := alen (split_words [] l).

Fixpoint word_starts (inword : bool) (l : list Z) : Z :=
  match l with
  | [] => 0
  | c :: l => if is_space c then word_starts false l else (if inword then 0 else 1) + word_starts true l
  end.

Lemma split_starts l : ∀ cur, alen (split_words cur l) = (if bool_decide (cur = []) then 0 else 1) + word_starts (negb (bool_decide (cur = []))) l.
Proof.
  induction l as [|c l IH]; intros cur; cbn [split_words word_starts].
  - destruct (bool_decide (cur = [])); done.
  - destruct (is_space c).
    + assert (alen ((if bool_decide (cur = []) then [] else [cur]) ++ split_words [] l) = (if bool_decide (cur = []) then 0 else 1) + alen (split_words [] l)) as ->.
      { unfold alen. rewrite length_app. destruct (bool_decide (cur = [])); cbn [length]; lia. }
      rewrite IH. done.
    + rewrite IH. rewrite (bool_decide_eq_false_2 (cur ++ [c] = [])) by (by destruct cur). cbn [negb]. destruct (bool_decide (cur = [])); cbn [negb]; lia.
Qed.

Lemma starts_bound l : ∀ b, 0 ≤ word_starts b l ≤ alen l.
Proof.
  induction l as [|c l IH]; intros b; cbn [word_starts]; [done|]. assert (alen (c :: l) = alen l + 1) as -> by (unfold alen; cbn [length]; lia).
  destruct (is_space c); [specialize (IH false); lia|]. specialize (IH true). destruct b; lia.
Qed.

Lemma wc_fold l : ∀ s, 0 ≤ wc_l s → 0 ≤ wc_w s → 0 ≤ wc_c s → wc_l s + alen l < 2 ^ 31 → wc_w s + alen l < 2 ^ 31 → wc_c s + alen l < 2 ^ 31 →
  let s' := fold_left wc_char l s in
  wc_l s' = wc_l s + count_lines l ∧ wc_w s' = wc_w s + word_starts (wc_inword s) l ∧ wc_c s' = wc_c s + alen l.
Proof.
  induction l as [|c l IH]; intros s H1 H2 H3 H4 H5 H6; cbn [fold_left word_starts]; [unfold count_lines, alen; cbn; lia|].
  assert (alen (c :: l) = alen l + 1) as El by (unfold alen; cbn [length]; lia). rewrite El in *. assert (0 ≤ alen l) by (unfold alen; lia).
  assert (count_lines (c :: l) = (if c =? 10 then 1 else 0) + count_lines l) as Ec.
  { unfold count_lines, alen. rewrite filter_cons. destruct (Z.eqb_spec c 10); [rewrite decide_True by done|rewrite decide_False by done]; cbn [length]; lia. }
  set (s1 := wc_char s c). assert (wc_l s1 = wc_l s + (if c =? 10 then 1 else 0) ∧ wc_c s1 = wc_c s + 1 ∧ wc_inword s1 = negb (is_space c) ∧
    wc_w s1 = wc_w s + (if is_space c then 0 else if wc_inword s then 0 else 1)) as (E1 & E2 & E3 & E4).
  { unfold s1, wc_char. fold (is_space c). destruct (is_space c), (wc_inword s), (c =? 10); cbn [negb wc_l wc_w wc_c wc_inword]; rewrite ?i32_small by lia; repeat split; lia. }
  destruct (IH s1) as (F1 & F2 & F3); try (destruct (c =? 10), (is_space c), (wc_inword s); lia). rewrite F1, F2, F3, E1, E2, E3, E4, Ec.
  destruct (is_space c); cbn [negb]; lia.
Qed.

Definition wc_text (name data : list Z) : list Z :=
  int_text (count_lines data) 10 true ++ [32] ++ int_text (count_words data) 10 true ++ [32] ++ int_text (alen data) 10 true ++ [32] ++ name ++ [10].

Lemma count_lines_bound l : 0 ≤ count_lines l ≤ alen l.
Proof. unfold count_lines, alen. pose proof (length_filter (λ c, c = 10) l). lia. Qed.

Lemma prints_wc w fd fuel : free_fd w fd → to_console 1 w → (Z.of_nat fuel ≤ 2 ^ 31) →
  prints w fd (λ arg data, chars arg ∧ (length data < fuel)%nat) (wc fuel) wc_text.
Proof.
  intros Hfd Hc Hfu w1 a i arg data Ha (_ & Ht & Hd) [Harg Hf]. pose proof (after_free _ _ _ _ Ha Hfd) as Hfd1. pose proof (after_console _ _ _ _ Ha Hc) as Hc1.
  unfold wc. kstep. apply (runs_read_all w1 fd i data _ (λ _, 512) (λ d s out, s = fold_left wc_char d (WcSt 0 0 0 false) ∧ out = [])); [|done|done].
  intros d s out off [-> ->] Ed Ho bs. kstep. eapply runs_mono; [by apply (runs_uread w1 fd Hfd1 i)|]. intros r w2 [-> ->]. rewrite Hd.
  fold bs. destruct bs as [|b bs'] eqn:E; kstep.
  - split; [done|]. unfold bs in E. pose proof (read_end data off 512 E ltac:(lia)) as Ee. rewrite <- Ed in Ee. subst d. rewrite Ee.
    destruct (wc_fold data (WcSt 0 0 0 false)) as (F1 & F2 & F3); try (cbn; unfold alen; lia). cbn [wc_l wc_w wc_c wc_inword] in F1, F2, F3. set (s := fold_left _ _ _) in *.
    pose proof (split_starts data []) as Es. cbn in Es. pose proof (starts_bound data false). pose proof (count_lines_bound data).
    assert (wc_l s = count_lines data) as -> by lia. assert (wc_w s = count_words data) as -> by (unfold count_words; lia). assert (wc_c s = alen data) as -> by lia.
    pose proof (reading_console w1 fd Hfd1 i [] [] (off + alen (@nil Z)) 1 Hc1) as Hc2.
    eapply runs_mono; [apply (runs_printf 1 _ _ _ (wc_text arg data)); [exact Hc2| |]|].
    + unfold count_words. repeat (apply Forall_cons; split); [..|constructor]; unfold varg_ok; [unfold alen in *; lia..|exact Harg].
    + unfold wc_text. cbn [render bytes_of]. cbn. by rewrite ?app_nil_r.
    + intros [] w3 H3. apply wrote_reading in H3. by eexists.
  - split; [done|]. eexists. split; [done|]. by rewrite fold_left_app.
Qed.


(** ** grep *)

Lemma runs_grep_lines w fd i off pattern fuel : free_fd w fd → to_console 1 w → ∀ buf out, (length buf < fuel)%nat →
  runs (loop fuel (λ p, match strchr_at c_nl p with
          | None => mret (inr p)
          | Some q => (if grep_match pattern (take q p) then uwrite 1 (take (S q) p);; mret tt else mret tt);; mret (inl (drop (S q) p))
          end) buf) (opened w fd i off out)
    (λ p w', let '(o, rest) := grep_lines fuel pattern buf in p = rest ∧ w' = opened w fd i off (out ++ o)).
Proof.
  intros Hfd Hc. induction fuel as [|fuel IH]; intros buf out Hf; [lia|]. cbn [loop grep_lines]. kstep.
  destruct (strchr_at c_nl buf) as [q|] eqn:E; [|kstep; kstep; by rewrite app_nil_r].
  assert (length (drop (S q) buf) < fuel)%nat as Hd by (rewrite length_drop; apply strchr_some in E as [E _]; apply (f_equal length) in E; rewrite length_app in E; cbn in E; lia).
  kstep. assert (∀ o1, runs (loop fuel (λ p, match strchr_at c_nl p with
          | None => mret (inr p)
          | Some q => (if grep_match pattern (take q p) then uwrite 1 (take (S q) p);; mret tt else mret tt);; mret (inl (drop (S q) p))
          end) (drop (S q) buf)) (opened w fd i off (out ++ o1))
    (λ p w', let '(o, rest) := grep_lines fuel pattern (drop (S q) buf) in p = rest ∧ w' = opened w fd i off (out ++ o1 ++ o))) as Hrec.
  { intros o1. eapply runs_mono; [by apply IH|]. intros p w'. destruct (grep_lines fuel pattern (drop (S q) buf)). by rewrite app_assoc. }
  destruct (grep_match pattern (take q buf)) eqn:Em.
  - kstep. eapply runs_mono; [by apply (runs_uprint w fd Hfd i)|]. intros r w1 [-> ->]. repeat kstep. eapply runs_mono; [apply Hrec|].
    intros p w'. by destruct (grep_lines fuel pattern (drop (S q) buf)).
  - repeat kstep. specialize (Hrec []). rewrite app_nil_r in Hrec. eapply runs_mono; [exact Hrec|]. intros p w'. by destruct (grep_lines fuel pattern (drop (S q) buf)).
Qed.

Lemma prints_grep w fd fuel pattern : free_fd w fd → to_console 1 w →
  prints w fd (λ _ data, (length data < fuel)%nat ∧ (∀ c, c ∈ data → c ≠ 0) ∧ lines_fit data) (λ fd _, grep_fd fuel pattern fd)
    (λ _ data, print_lines pattern (lines_of data [])).
Proof.
  intros Hfd Hc w1 a i arg data Ha (_ & Ht & Hd) (Hf & H0 & Hfit). pose proof (after_free _ _ _ _ Ha Hfd) as Hfd1. pose proof (after_console _ _ _ _ Ha Hc) as Hc1.
  unfold grep_fd. apply (runs_read_all w1 fd i data _ (λ buf, GBUF - alen buf - 1) (λ d buf out, buf = last_line d [] ∧ out = print_lines pattern (lines_of d []))); [|done|done].
  intros d buf out off [-> ->] Ed Ho bs. set (buf := last_line d []). kstep. eapply runs_mono; [by apply (runs_uread w1 fd Hfd1 i)|]. intros r w2 [-> ->]. rewrite Hd. change (slice (Z.to_nat off) (Z.to_nat (GBUF - alen buf - 1)) data) with bs.
  set (rest := drop (Z.to_nat off) data). assert (data = d ++ rest) as Edata by (rewrite Ed; symmetry; apply take_drop).
  assert (c_nl ∉ buf) as Hnl by apply last_line_nl, not_elem_of_nil.
  destruct (lines_split d rest []) as [S1 S2]. destruct (lines_cur rest buf Hnl) as [C1 C2]. fold buf in S1, S2.
  destruct (decide (rest = [])) as [Er|Hr].
  { assert (bs = []) as Eb by (unfold bs, slice; fold rest; rewrite Er; apply take_nil). rewrite Eb. kstep. split; [done|]. exists (off + alen (@nil Z)). by rewrite Edata, Er, app_nil_r. }
  assert (alen buf < GBUF - 1) as Hroom.
  { destruct Hfit as [F1 F2]. rewrite Edata, S1 in F1. rewrite Edata, S2 in F2. apply Forall_app in F1 as [_ F1]. by apply (fit_cur _ rest). }
  destruct (decide (bs = [])) as [Eb|Hb]. { unfold bs in Eb. cbn beta in Eb. fold buf in Eb. apply slice_nil in Eb; [done|lia]. }
  destruct bs as [|b bs'] eqn:E; [done|]. rewrite <- E in *. clear b bs' E. kstep.
  eapply runs_mono; [apply runs_grep_lines; [done|done|lia]|]. rewrite grep_lines_spec; [|intros c Hin; apply H0|lia].
  - intros p w3 [-> ->]. kstep. split; [done|]. eexists. split; [done|]. destruct (lines_split d bs []) as [-> ->]. fold buf. destruct (lines_cur bs buf Hnl) as [-> ->].
    split; [done|]. by rewrite print_lines_app.
  - apply elem_of_app in Hin as [Hin|Hin].
    + apply last_line_sub in Hin as [Hin|Hin]; [by apply not_elem_of_nil in Hin|]. rewrite Edata. apply elem_of_app. by left.
    + rewrite Edata. apply elem_of_app. right. unfold bs, slice in Hin. fold rest in Hin. rewrite <- (take_drop (Z.to_nat (GBUF - alen buf - 1)) rest). apply elem_of_app. by left.
Qed.


(** ** echo *)

Fixpoint joined (args : list (list Z)) : list Z :=
  match args with
  | [] => []
  | [arg] => arg ++ [10]
  | arg :: args => arg ++ [32] ++ joined args
  end.

Lemma runs_echo args : ∀ w, to_console 1 w → runs (echo_args args) w (λ _ w', wrote w (joined args) w').
Proof.
  induction args as [|arg args IH]; intros w Hc; cbn [echo_args]; [kstep; apply wrote_nil|]. kstep. eapply runs_mono; [by apply runs_write|]. intros r w1 [_ H1].
  kstep. pose proof (wrote_console _ _ _ _ Hc H1) as Hc1. eapply runs_mono; [by apply runs_write|]. intros r' w2 [_ H2]. pose proof (wrote_console _ _ _ _ Hc1 H2) as Hc2.
  eapply runs_mono; [by apply IH|]. intros [] w3 H3. pose proof (wrote_trans _ _ _ _ _ (wrote_trans _ _ _ _ _ H1 H2) H3) as H. rewrite <- app_assoc in H. destruct args; [by rewrite app_nil_r in H|done].
Qed.

(** Echo prints its arguments with spaces between them and a newline at the end, and nothing without arguments. *)
Theorem echo_correct w args : to_console 1 w → halts (echo_main args) w (Exited 0) (λ w', wrote w (joined args) w').
Proof. intros Hc. apply halts_bind_r. eapply runs_mono; [by apply runs_echo|]. intros [] w' H. by split. Qed.
