(* ===== verification/Primes.v ===== *)
(** * A sieve of processes (user/primes.c)

    Each prime takes one pass over the numbers left: a child filters them from one pipe into the next while its
    parent waits, then the parent goes on with the new pipe.  The program prints the primes below 36; it depends on the
    numbers fitting in a pipe, because nobody reads while the child writes. *)

From Stdlib Require Import Znumtheory Sorted.
From S2P Require Import Prelude Memory Riscv Spinlock Core CString Kalloc Vm Sleeplock BufCache Log Sys Fs User Ulib UPrintf.

Definition mapping (n : Z) (pd : Z * Z) : U unit :=
  uclose n;;
  udup (if n =? 0 then pd.1 else pd.2);;
  uclose pd.1;;
  uclose pd.2;;
  mret tt.

(** [read(0, &x, sizeof(int))]: None for 0; a part of an integer or an error leaves [x] undefined. *)
Definition read_int : U (option Z) :=
  r ← uread 0 4;
  match r with
  | Some [] => mret None
  | Some bs => if alen bs =? 4 then mret (Some (i32 (le_dec bs))) else stop (Undefined "primes")
  | None => stop (Undefined "primes")
  end.

Definition write_int (v : Z) : U unit := uwrite 1 (le_enc 4 v);; mret tt.

(** [pipe(fd)]; without descriptors [fd] is undefined. *)
Definition new_pipe : U (Z * Z) :=
  o ← upipe;
  match o with Some fd => mret fd | None => stop (Undefined "primes") end.

(** The child's loop. *)
Definition sift (fuel : nat) (previous : Z) : U unit :=
  loop fuel (λ _,
    next ← read_int;
    match next with
    | None => mret (inr tt)
    | Some next =>
        when (negb (Z.rem next previous =? 0)) (write_int next);;
        mret (inl tt)
    end) tt.

Fixpoint primes (fuel : nat) : U unit :=
  match fuel with
  | O => stop NoFuel
  | S fuel =>
      previous ← read_int;
      match previous with
      | None => mret tt
      | Some previous =>
          printf "prime %d\n" [VInt previous];;
          fd ← new_pipe;
          fork_wait (mapping 1 fd;; sift (S fuel) previous;; uexit 0);;
          mapping 0 fd;;
          primes fuel
      end
  end.

Definition primes_main : U unit :=
  fd ← new_pipe;
  fork_wait (mapping 1 fd;; for_range 34 2 write_int;; uexit 0);;
  mapping 0 fd;;
  primes 36;;
  uexit 0.

(** ** What it computes *)

Fixpoint sieve (fuel : nat) (l : list Z) : list Z :=
  match fuel, l with
  | S fuel, x :: l => x :: sieve fuel (filter (λ y, y mod x ≠ 0) l)
  | _, _ => []
  end.

Definition prime_text (p : Z) : list Z := Eval cbv [app] in bytes_of "prime " ++ int_text p 10 true ++ [10].

(** ** Descriptors: three standard ones and at most two others *)

Definition tab (a b c d e : option nat) : fdtable := [a; b; c; d; e] ++ replicate 11 None.

Lemma elem_tab f a b c d e : Some f ∈ tab a b c d e ↔ Some f = a ∨ Some f = b ∨ Some f = c ∨ Some f = d ∨ Some f = e.
Proof.
  unfold tab. rewrite elem_of_app, !elem_of_cons, elem_of_nil. assert (Some f ∉ replicate 11 (None : option nat)) as H by (intros H; by apply elem_of_replicate in H as [? _]).
  tauto.
Qed.

(** No process has the end of the pipe. *)
Definition no_end (p : nat) (out : bool) (w : world) : Prop :=
  ∀ t f o, t ∈ w_fds w :: w_rest w → Some f ∈ t → w_open w !!! f = o → o_kind o ≠ KPipe p out.

Lemma no_end_false p out w : no_end p out w → has_end p out w = false.
Proof.
  intros H. unfold has_end. apply not_true_is_false. intros E. apply existsb_exists in E as (t & Ht & E). apply existsb_exists in E as ([f|] & Hf & E); [|done].
  destruct (o_kind (w_open w !!! f)) as [|p' out'] eqn:Ek; [done|]. apply andb_true_iff in E as [E1 E2]. apply Nat.eqb_eq in E1 as ->. apply eqb_prop in E2 as ->.
  exact (H t f _ (proj2 (list_elem_of_In _ _) Ht) (proj2 (list_elem_of_In _ _) Hf) eq_refl Ek).
Qed.

(** The open files and pipes a table refers to exist. *)
Definition tables_ok (w : world) : Prop :=
  (∀ t f, t ∈ w_fds w :: w_rest w → Some f ∈ t → (f < length (w_open w))%nat) ∧
  (∀ f o p out, w_open w !! f = Some o → o_kind o = KPipe p out → (p < length (w_pipes w))%nat).

(** ** The calls on these tables *)

Lemma runs_mapping1 w a b c r x : w_fds w = tab (Some a) (Some b) (Some c) (Some r) (Some x) →
  runs (mapping 1 (3, 4)) w (λ _ w', w' = set_fds (tab (Some a) (Some x) (Some c) None None) w).
Proof.
  destruct w. cbn. intros ->. reflexivity.
Qed.

Lemma runs_mapping0 w a b c r x : w_fds w = tab (Some a) (Some b) (Some c) (Some r) (Some x) →
  runs (mapping 0 (3, 4)) w (λ _ w', w' = set_fds (tab (Some r) (Some b) (Some c) None None) w).
Proof.
  destruct w. cbn. intros ->. reflexivity.
Qed.

(** The new pipe and its two open files. *)
Definition piped (w : world) (a b c : nat) : world :=
  let n := length (w_open w) in let p := length (w_pipes w) in
  set_fds (tab (Some a) (Some b) (Some c) (Some n) (Some (S n)))
    (set_open (w_open w ++ [OpenFile (KPipe p false) 0; OpenFile (KPipe p true) 0]) (set_pipes (w_pipes w ++ [[]]) w)).

Lemma runs_new_pipe w a b c : w_fds w = tab (Some a) (Some b) (Some c) None None →
  runs new_pipe w (λ fd w', fd = (3, 4) ∧ w' = piped w a b c).
Proof.
  destruct w. cbn. intros ->. split; [reflexivity|]. unfold piped. cbn. unfold set_fds, set_open, set_pipes. cbn.
  by rewrite <- app_assoc, length_app, Nat.add_1_r.
Qed.

Lemma fd_tab w a b c d e : w_fds w = tab a b c d e → fd_file 0 w = a ∧ fd_file 1 w = b.
Proof. intros E. unfold fd_file. rewrite E. split; by destruct a, b. Qed.
#[global] Opaque tab.

(** Integers in a pipe. *)
Definition enc (l : list Z) : list Z := concat (le_enc 4 <$> l).
Definition is_int (v : Z) : Prop := - 2 ^ 31 ≤ v < 2 ^ 31.

Lemma int_roundtrip v : is_int v → i32 (le_dec (le_enc 4 v)) = v.
Proof.
  unfold is_int. intros H. rewrite le_dec_enc. change (8 * Z.of_nat 4) with 32. unfold i32. rewrite Zplus_mod_idemp_l. rewrite Z.mod_small by lia. lia.
Qed.

(** Descriptor [n] of the table refers to an end of pipe [p]. *)
Definition end_at (n : Z) (p : nat) (out : bool) (w : world) : Prop :=
  ∃ f, fd_file n w = Some f ∧ ∃ off, w_open w !! f = Some (OpenFile (KPipe p out) off).

Lemma runs_read_int w p v l : end_at 0 p false w → w_pipes w !! p = Some (enc (v :: l)) → is_int v →
  runs read_int w (λ r w', r = Some v ∧ w' = set_pipes (<[p := enc l]> (w_pipes w)) w).
Proof.
  intros (f & Hf & off & Ho) Hp Hv. unfold read_int, uread. ustep. rewrite Hf. ustep. rewrite (list_lookup_total_correct _ _ _ Ho). cbn [o_kind]. cbn iota. ustep.
  rewrite (list_lookup_total_correct _ _ _ Hp). unfold enc. rewrite fmap_cons. cbn [concat]. fold (enc l).
  destruct (le_enc 4 v) as [|b0 [|b1 [|b2 [|b3 [|]]]]] eqn:E; try (apply (f_equal length) in E; rewrite length_le_enc in E; done).
  rewrite bool_decide_eq_false_2 by (intros ?; discriminate). cbn [andb]. ustep. change (take (Z.to_nat 4) ([b0; b1; b2; b3] ++ enc l)) with [b0; b1; b2; b3].
  change (alen [b0; b1; b2; b3] =? 4) with true. cbn iota. kstep. rewrite <- E, int_roundtrip by done. done.
Qed.

Lemma runs_read_end w p : end_at 0 p false w → w_pipes w !! p = Some [] → no_end p true w → runs read_int w (λ r w', r = None ∧ w' = w).
Proof.
  intros (f & Hf & off & Ho) Hp Hn. unfold read_int, uread. ustep. rewrite Hf. ustep. rewrite (list_lookup_total_correct _ _ _ Ho). cbn [o_kind]. cbn iota. ustep.
  rewrite (list_lookup_total_correct _ _ _ Hp), (no_end_false _ _ _ Hn), andb_false_r. ustep. split; [done|].
  change (drop (Z.to_nat 4) []) with (@nil Z). rewrite list_insert_id by done. by destruct w.
Qed.

Lemma runs_write_int w p q v : end_at 1 p true w → w_pipes w !! p = Some q → alen q + 4 ≤ 512 →
  runs (write_int v) w (λ _ w', w' = set_pipes (<[p := q ++ le_enc 4 v]> (w_pipes w)) w).
Proof.
  intros (f & Hf & off & Ho) Hp Hq. unfold write_int, uwrite. ustep. rewrite Hf. ustep. rewrite (list_lookup_total_correct _ _ _ Ho). cbn [o_kind]. cbn iota. cbn [negb]. ustep.
  rewrite (list_lookup_total_correct _ _ _ Hp). unfold PIPE_ROOM. rewrite take_ge by (rewrite length_le_enc; unfold alen in *; lia).
  rewrite (proj2 (Nat.leb_le _ _)) by (rewrite length_le_enc; unfold alen in *; lia). kstep. by kstep.
Qed.

Lemma alen_enc l : alen (enc l) = 4 * alen l.
Proof. unfold alen, enc. induction l as [|v l IH]; [done|]. rewrite fmap_cons. cbn [concat length]. rewrite length_app, length_le_enc. lia. Qed.
Lemma enc_snoc l v : enc (l ++ [v]) = enc l ++ le_enc 4 v.
Proof. unfold enc. rewrite fmap_app, concat_app. cbn [fmap list_fmap concat]. by rewrite app_nil_r. Qed.

(** The child's loop moves the numbers that [x] does not divide. *)
Lemma runs_sift w p p2 x l fuel : 0 < x → end_at 0 p false w → end_at 1 p2 true w → p ≠ p2 → no_end p true w → Forall (λ v, is_int v ∧ 0 ≤ v) l →
  w_pipes w !! p = Some (enc l) → w_pipes w !! p2 = Some [] → alen l ≤ 128 → (length l < fuel)%nat →
  runs (sift fuel x) w (λ _ w', w' = set_pipes (<[p := []]> (<[p2 := enc (filter (λ y, y mod x ≠ 0) l)]> (w_pipes w))) w).
Proof.
  intros Hx H0 H1 Hne Hno Hl Hp Hp2 Hlen Hf. unfold sift.
  apply (runs_loop_nat _ (λ k _ w', ∃ l1 l2, l = l1 ++ l2 ∧ k = length l2 ∧
    w' = set_pipes (<[p := enc l2]> (<[p2 := enc (filter (λ y, y mod x ≠ 0) l1)]> (w_pipes w))) w) _ _ (length l)); [| |done].
  - intros k [] w' (l1 & l2 & -> & -> & ->). set (ps := <[p := _]> _). assert (w_pipes (set_pipes ps w) !! p = Some (enc l2)) as Hp'.
    { cbn. unfold ps. apply list_lookup_insert_eq. rewrite length_insert. by eapply lookup_lt_Some. }
    kstep. destruct l2 as [|v l2].
    + eapply runs_mono; [by apply (runs_read_end _ p)|]. intros r w1 [-> ->]. kstep. unfold ps. by rewrite app_nil_r.
    + apply Forall_app in Hl as [_ Hl]. apply Forall_cons in Hl as [[Hv Hv0] _]. eapply runs_mono; [by apply (runs_read_int _ p v l2)|]. intros r w1 [-> ->]. cbn [w_pipes set_pipes].
      assert (length l2 < length (v :: l2))%nat by (cbn; lia).
      assert (<[p := enc l2]> ps = <[p := enc l2]> (<[p2 := enc (filter (λ y, y mod x ≠ 0) l1)]> (w_pipes w))) as Eps by (unfold ps; apply list_insert_insert_eq). rewrite Eps.
      assert (filter (λ y, y mod x ≠ 0) (l1 ++ [v]) = filter (λ y, y mod x ≠ 0) l1 ++ (if decide (v mod x ≠ 0) then [v] else [])) as Ef.
      { rewrite filter_app. f_equal. }
      kstep. rewrite Z.rem_mod_nonneg by lia. destruct (Z.eqb_spec (v mod x) 0) as [E|E]; cbn [negb when].
      * do 2 kstep. exists (length l2). split; [done|]. exists (l1 ++ [v]), l2. rewrite <- app_assoc. split; [done|]. split; [done|].
        rewrite Ef, decide_False by (intros Hn; done). by rewrite app_nil_r.
      * eapply runs_mono; [apply (runs_write_int _ p2 (enc (filter (λ y, y mod x ≠ 0) l1)))|].
        -- exact H1.
        -- cbn. rewrite list_lookup_insert_ne by done. apply list_lookup_insert_eq. by eapply lookup_lt_Some.
        -- rewrite alen_enc. pose proof (length_filter (λ y, y mod x ≠ 0) l1). unfold alen in *. rewrite length_app in Hlen. cbn in Hlen. lia.
        -- intros [] w2 ->. kstep. exists (length l2). split; [done|]. exists (l1 ++ [v]), l2. rewrite <- app_assoc. split; [done|]. split; [done|].
           rewrite Ef, decide_True, enc_snoc by done. unfold set_pipes. cbn. f_equal. rewrite list_insert_insert_ne by done. f_equal. apply list_insert_insert_eq.
  - exists [], l. split; [done|]. split; [done|]. cbn. rewrite (list_insert_id (w_pipes w) p2) by done. rewrite list_insert_id by done. by destruct w.
Qed.

(** ** One prime after the other *)

(** The numbers [l] wait in pipe [p], from which descriptor 0 reads; nobody writes to it. *)
Record at_level (p : nat) (l : list Z) (w : world) : Prop := {
  al_fds : ∃ a b c, w_fds w = tab (Some a) (Some b) (Some c) None None;
  al_in : end_at 0 p false w;
  al_out : to_console 1 w;
  al_pipe : w_pipes w !! p = Some (enc l);
  al_noend : no_end p true w;
  al_ok : tables_ok w;
}.

Lemma tables_new w p : tables_ok w → (length (w_pipes w) ≤ p)%nat → ∀ out t f, t ∈ w_fds w :: w_rest w → Some f ∈ t → o_kind (w_open w !!! f) ≠ KPipe p out.
Proof.
  intros [H1 H2] Hp out t f Ht Hf E. pose proof (H1 t f Ht Hf) as Hlt. destruct (lookup_lt_is_Some_2 _ _ Hlt) as [o Ho]. rewrite (list_lookup_total_correct _ _ _ Ho) in E.
  specialize (H2 f o p out Ho E). lia.
Qed.

(** The file behind an old descriptor, in the world with the new pipe. *)
Lemma piped_open w a b c f : (f < length (w_open w))%nat → w_open (piped w a b c) !!! f = w_open w !!! f.
Proof. intros H. cbn. by rewrite lookup_total_app_l. Qed.

(** After the child: the new pipe holds [l'], the parent reads from it. *)
Lemma next_level w a b c q l' :
  w_fds w = tab (Some a) (Some b) (Some c) None None → to_console 1 w → tables_ok w → length q = length (w_pipes w) →
  let n := length (w_open w) in let p2 := length (w_pipes w) in
  at_level p2 l' (set_fds (tab (Some n) (Some b) (Some c) None None) (set_pipes (q ++ [enc l']) (piped w a b c))).
Proof.
  intros Hfds Hout Hok Hq n p2. set (w' := set_fds _ _). assert (w_open w' = w_open w ++ [OpenFile (KPipe p2 false) 0; OpenFile (KPipe p2 true) 0]) as Ho by done.
  assert (w_open w' !! n = Some (OpenFile (KPipe p2 false) 0)) as Hn by (rewrite Ho, lookup_app_r, Nat.sub_diag by (unfold n; lia); done).
  assert (∀ f, (f < n)%nat → w_open w' !!! f = w_open w !!! f) as Hold by (intros f Hf; rewrite Ho; by apply lookup_total_app_l).
  destruct Hok as [K1 K2]. assert (∀ t f, t ∈ w_fds w' :: w_rest w' → Some f ∈ t → f = n ∨ ∃ t', t' ∈ w_fds w :: w_rest w ∧ Some f ∈ t') as Htab.
  { intros t f Ht Hf. apply elem_of_cons in Ht as [->|Ht]; [|right; exists t; split; [by right|done]]. change (w_fds w') with (tab (Some n) (Some b) (Some c) None None) in Hf.
    apply elem_tab in Hf as [[= ->]|[[= ->]|[[= ->]|[?|?]]]]; [by left|right; exists (w_fds w); rewrite Hfds; split; [by left|apply elem_tab; tauto]..|done|done]. }
  split.
  - by exists n, b, c.
  - exists n. split; [done|]. by exists 0.
  - destruct Hout as (f & i & off & E1 & E2 & E3). exists f, i, off. split; [|split; [rewrite Ho; by apply lookup_app_l_Some|done]].
    unfold fd_file in *. rewrite Hfds in E1. exact E1.
  - cbn. rewrite lookup_app_r, Hq by (rewrite Hq; unfold p2; lia). unfold p2. by rewrite Nat.sub_diag.
  - intros t f o Ht Hf <-. destruct (Htab t f Ht Hf) as [->|(t' & Ht' & Hf')]; [by rewrite (list_lookup_total_correct _ _ _ Hn)|].
    rewrite Hold by (by eapply K1). by apply (tables_new w p2 (conj K1 K2) ltac:(unfold p2; lia) true t').
  - split.
    + intros t f Ht Hf. rewrite Ho, length_app. cbn [length]. destruct (Htab t f Ht Hf) as [->|(t' & Ht' & Hf')]; [unfold n; lia|]. specialize (K1 t' f Ht' Hf'). lia.
    + intros f o p out Hf Hk. cbn. rewrite length_app, Hq. cbn [length]. rewrite Ho in Hf. apply lookup_app_Some in Hf as [Hf|[Hge Hf]].
      * specialize (K2 f o p out Hf Hk). lia.
      * destruct (f - length (w_open w))%nat as [|[|k]]; cbn in Hf; [injection Hf as <-; injection Hk as <- _; unfold p2; lia..|]. by destruct k.
Qed.

(** The child between two pipes. *)
Lemma halts_child w p x l a b c fuel :
  w_fds w = tab (Some a) (Some b) (Some c) None None → end_at 0 p false w → no_end p true w → tables_ok w →
  w_pipes w !! p = Some (enc l) → 0 < x → Forall (λ v, is_int v ∧ 0 < v) l → alen l ≤ 128 → (length l < fuel)%nat →
  let w3 := piped w a b c in let l' := filter (λ y, y mod x ≠ 0) l in
  halts (mapping 1 (3, 4);; sift fuel x;; @uexit unit 0) (set_rest (w_fds w3 :: w_rest w3) w3) (Exited 0)
    (λ w', set_fds (w_fds w3) (set_rest (tl (w_rest w')) w') = set_pipes (<[p := []]> (w_pipes w) ++ [enc l']) w3).
Proof.
  intros Hfds (f0 & Hf0 & off & Ho) Hno Hok Hp Hx Hl Hlen Hf w3 l'. destruct (fd_tab _ _ _ _ _ _ Hfds) as [E0 _]. rewrite E0 in Hf0. injection Hf0 as <-.
  set (n := length (w_open w)). set (p2 := length (w_pipes w)). pose proof (lookup_lt_Some _ _ _ Hp) as Hplt. pose proof (lookup_lt_Some _ _ _ Ho) as Halt.
  apply halts_bind_r. eapply runs_mono; [by apply (runs_mapping1 _ a b c n (S n))|]. intros [] w4 ->. set (w4 := set_fds _ _).
  destruct (fd_tab w4 (Some a) (Some (S n)) (Some c) None None eq_refl) as [F0 F1].
  assert (w_open w4 = w_open w ++ [OpenFile (KPipe p2 false) 0; OpenFile (KPipe p2 true) 0]) as Ho4 by done.
  apply halts_bind_r. eapply runs_mono; [apply (runs_sift w4 p p2 x l)|].
  - done.
  - exists a. split; [done|]. exists off. rewrite Ho4. by apply lookup_app_l_Some.
  - exists (S n). split; [done|]. exists 0. rewrite Ho4, lookup_app_r by (unfold n; lia). unfold n. by replace (S (length (w_open w)) - length (w_open w))%nat with 1%nat by lia.
  - unfold p2. lia.
  - intros t f o Ht Hft <-. assert (∀ f, (n ≤ f)%nat → (f ≤ S n)%nat → o_kind (w_open w4 !!! f) ≠ KPipe p true) as Hnew.
    { intros g Hg1 Hg2. rewrite Ho4, lookup_total_app_r by done. fold n. destruct (g - n)%nat as [|[|k]] eqn:Eg; [done|cbn; intros [= E]; unfold p2 in E; lia|lia]. }
    assert (∀ t' f, t' ∈ w_fds w :: w_rest w → Some f ∈ t' → o_kind (w_open w4 !!! f) ≠ KPipe p true) as Hold.
    { intros t' g Ht' Hg. rewrite Ho4, lookup_total_app_l by (by eapply Hok). by eapply Hno. }
    assert (∀ f, f = a ∨ f = b ∨ f = c → o_kind (w_open w4 !!! f) ≠ KPipe p true) as Habc.
    { intros g Hg. apply (Hold (w_fds w)); [by left|]. rewrite Hfds. apply elem_tab. naive_solver. }
    apply elem_of_cons in Ht as [->|Ht]; [apply elem_tab in Hft|apply elem_of_cons in Ht as [->|Ht]; [apply elem_tab in Hft|apply (Hold t); [by right|done]]].
    + destruct Hft as [[= ->]|[[= ->]|[[= ->]|[?|?]]]]; try done; [apply Habc; tauto|apply Hnew; lia|apply Habc; tauto].
    + destruct Hft as [[= ->]|[[= ->]|[[= ->]|[[= ->]|[= ->]]]]]; [apply Habc; tauto..|apply Hnew; lia|apply Hnew; lia].
  - eapply Forall_impl; [exact Hl|]. intros v [? ?]. split; [done|lia].
  - cbn. by apply lookup_app_l_Some.
  - cbn. rewrite lookup_app_r by (unfold p2; lia). unfold p2. by rewrite Nat.sub_diag.
  - done.
  - done.
  - intros [] w5 ->. split; [done|]. unfold set_pipes, set_fds, set_rest. cbn. f_equal. rewrite insert_app_r_alt by (unfold p2; lia). unfold p2. rewrite Nat.sub_diag. cbn.
    by rewrite insert_app_l.
Qed.

Lemma runs_primes fuel : ∀ p l w, at_level p l w → Forall (λ v, is_int v ∧ 0 < v) l → alen l ≤ 128 → (length l < fuel)%nat →
  runs (primes fuel) w (λ _ w', w_out w' = w_out w ++ concat (prime_text <$> sieve fuel l)).
Proof.
  induction fuel as [|fuel IH]; intros p l w Hal Hl Hlen Hf; [lia|]. destruct Hal as [(a & b & c & Hfds) Hin Hout Hp Hno Hok]. cbn [primes sieve]. kstep. destruct l as [|x l].
  { eapply runs_mono; [by apply (runs_read_end w p)|]. intros r w1 [-> ->]. kstep. cbn. by rewrite app_nil_r. }
  apply Forall_cons in Hl as [[Hx Hx0] Hl]. eapply runs_mono; [by apply (runs_read_int w p x l)|]. intros r w1 [-> ->]. set (w1 := set_pipes _ w).
  kstep. eapply runs_mono; [apply (runs_printf 1 _ _ w1 (prime_text x)); [exact Hout|by repeat constructor; apply Hx|]|].
  { unfold prime_text. cbn. by rewrite app_nil_r || done. }
  intros [] w2 Hw2. assert (w2 = set_out (w_out w ++ prime_text x) w1) as E2 by exact Hw2. assert (alen l ≤ 128 ∧ (length l < fuel)%nat) as [Hlen' Hf'] by (unfold alen in *; cbn in Hlen, Hf; lia).
  assert (w_fds w2 = tab (Some a) (Some b) (Some c) None None) as Hfds2 by by rewrite E2.
  assert (tables_ok w2) as Hok2. { rewrite E2. destruct Hok as [K1 K2]. split; [exact K1|]. intros f o q out Hfo Hk. cbn. rewrite length_insert. by eapply K2. }
  kstep. eapply runs_mono; [by apply (runs_new_pipe w2 a b c)|]. intros fd w3 [-> ->]. kstep.
  assert (w_pipes w2 !! p = Some (enc l)) as Hp2 by (rewrite E2; cbn; apply list_lookup_insert_eq; by eapply lookup_lt_Some).
  assert (end_at 0 p false w2 ∧ no_end p true w2 ∧ to_console 1 w2) as (Hin2 & Hno2 & Hout2) by (rewrite E2; done).
  eapply runs_fork_wait; [apply (halts_child w2 p x l a b c); (done || lia)|]. intros w4 ->. kstep. set (l' := filter _ l). set (w5 := set_pipes _ _).
  eapply runs_mono; [by apply (runs_mapping0 w5 a b c (length (w_open w2)) (S (length (w_open w2))))|]. intros [] w6 ->.
  pose proof (next_level w2 a b c (<[p := []]> (w_pipes w2)) l' Hfds2 Hout2 Hok2 ltac:(by rewrite length_insert)) as Hnext.
  pose proof (length_filter (λ y, y mod x ≠ 0) l) as Hfl. fold l' in Hfl. eapply runs_mono; [apply (IH _ l' _ Hnext)|].
  - apply Forall_forall. intros v Hv. apply list_elem_of_filter in Hv as [_ Hv]. rewrite Forall_forall in Hl. by apply Hl.
  - unfold alen in *. lia.
  - lia.
  - intros [] w7 E7. rewrite E7. change (w_out (set_fds _ _)) with (w_out w2). rewrite E2. cbn. by rewrite <- app_assoc.
Qed.

(** ** The whole program *)

Lemma runs_write_ints w p l : end_at 1 p true w → w_pipes w !! p = Some [] → ∀ n lo, l = seqZ lo (Z.of_nat n) → alen l ≤ 128 →
  runs (for_range n lo write_int) w (λ _ w', w' = set_pipes (<[p := enc l]> (w_pipes w)) w).
Proof.
  intros H1 Hp n lo -> Hlen.
  apply (runs_for_range _ (λ i w', lo ≤ i ≤ lo + Z.of_nat n ∧ w' = set_pipes (<[p := enc (seqZ lo (i - lo))]> (w_pipes w)) w)).
  - intros i w' Hi [_ ->]. eapply runs_mono; [apply (runs_write_int _ p (enc (seqZ lo (i - lo))))|].
    + exact H1.
    + cbn. apply list_lookup_insert_eq. by eapply lookup_lt_Some.
    + rewrite alen_enc. unfold alen in *. rewrite length_seqZ in *. lia.
    + intros [] w2 ->. split; [lia|]. unfold set_pipes. cbn. f_equal. rewrite list_insert_insert_eq. f_equal. replace (i + 1 - lo) with (Z.of_nat (S (Z.to_nat (i - lo)))) by lia.
      rewrite seqZ_S, enc_snoc, !Z2Nat.id by lia. by replace (lo + (i - lo)) with i by lia.
  - split; [lia|]. rewrite Z.sub_diag. cbn. rewrite list_insert_id by done. by destruct w.
  - intros w' [_ ->]. by replace (lo + Z.of_nat n - lo) with (Z.of_nat n) by lia.
Qed.

Lemma halts_main_child w a b c : w_fds w = tab (Some a) (Some b) (Some c) None None → let w3 := piped w a b c in
  halts (mapping 1 (3, 4);; for_range 34 2 write_int;; @uexit unit 0) (set_rest (w_fds w3 :: w_rest w3) w3) (Exited 0)
    (λ w', set_fds (w_fds w3) (set_rest (tl (w_rest w')) w') = set_pipes (w_pipes w ++ [enc (seqZ 2 34)]) w3).
Proof.
  intros Hfds w3. set (n := length (w_open w)). set (p2 := length (w_pipes w)).
  apply halts_bind_r. eapply runs_mono; [by apply (runs_mapping1 _ a b c n (S n))|]. intros [] w4 ->. set (w4 := set_fds _ _).
  destruct (fd_tab w4 (Some a) (Some (S n)) (Some c) None None eq_refl) as [_ F1]. apply halts_bind_r. eapply runs_mono; [apply (runs_write_ints w4 p2 (seqZ 2 34)); [| |done|done]|].
  - exists (S n). split; [done|]. exists 0. change (w_open w4) with (w_open w ++ [OpenFile (KPipe p2 false) 0; OpenFile (KPipe p2 true) 0]). rewrite lookup_app_r by (unfold n; lia). unfold n.
    by replace (S (length (w_open w)) - length (w_open w))%nat with 1%nat by lia.
  - cbn. rewrite lookup_app_r by (unfold p2; lia). unfold p2. by rewrite Nat.sub_diag.
  - intros [] w5 ->. split; [done|]. unfold set_pipes, set_fds, set_rest. cbn. f_equal. rewrite insert_app_r_alt by (unfold p2; lia). unfold p2. by rewrite Nat.sub_diag.
Qed.

(** The numbers that come through are the primes. *)
Definition is_prime (k : Z) : bool := forallb (λ d, negb (k mod d =? 0)) (seqZ 2 (k - 2)).

Lemma is_prime_spec k : 2 ≤ k → is_prime k = true ↔ prime k.
Proof.
  intros Hk. rewrite <- prime_alt. unfold is_prime, prime'. rewrite forallb_forall. split.
  - intros H. split; [lia|]. intros d Hd [q Hq]. specialize (H d ltac:(apply list_elem_of_In, elem_of_seqZ; lia)). rewrite Hq, Z.mod_mul in H by lia. done.
  - intros [_ H] d Hd. apply list_elem_of_In, elem_of_seqZ in Hd. apply negb_true_iff, Z.eqb_neq. intros E. apply (H d); [lia|]. apply Z.mod_divide; [lia|done].
Qed.

Lemma sieve_primes : sieve 36 (seqZ 2 34) = filter (λ k, is_prime k = true) (seqZ 2 34).
Proof. reflexivity. Qed.

(** C18: primes prints a line for every prime below 36, in order, and nothing else, and ends, if it is
    started with its three standard descriptors and the console as its output. *)
Theorem primes_correct w a b c : w_fds w = tab (Some a) (Some b) (Some c) None None → to_console 1 w → tables_ok w →
  halts primes_main w (Exited 0) (λ w', ∃ ps, w_out w' = w_out w ++ concat (prime_text <$> ps) ∧
    (∀ k, k ∈ ps ↔ prime k ∧ k < 36) ∧ StronglySorted Z.lt ps).
Proof.
  intros Hfds Hout Hok. unfold primes_main. apply halts_bind_r. eapply runs_mono; [by apply (runs_new_pipe w a b c)|]. intros fd w3 [-> ->].
  apply halts_bind_r. eapply runs_fork_wait; [by apply (halts_main_child w a b c)|]. intros w4 ->. set (w5 := set_pipes _ _).
  apply halts_bind_r. eapply runs_mono; [by apply (runs_mapping0 w5 a b c (length (w_open w)) (S (length (w_open w))))|]. intros [] w6 ->.
  apply halts_bind_r. eapply runs_mono; [apply (runs_primes 36 _ (seqZ 2 34) _ (next_level w a b c (w_pipes w) (seqZ 2 34) Hfds Hout Hok eq_refl))|].
  - apply Forall_forall. intros v Hv. apply elem_of_seqZ in Hv. unfold is_int. lia.
  - done.
  - rewrite length_seqZ. lia.
  - intros [] w7 E7. split; [done|]. rewrite sieve_primes in E7. exists (filter (λ k, is_prime k = true) (seqZ 2 34)). split; [exact E7|]. split.
    + intros k. rewrite list_elem_of_filter, elem_of_seqZ. split.
      * intros [Hk Hr]. rewrite is_prime_spec in Hk by lia. split; [done|lia].
      * intros [Hk Hlt]. pose proof (prime_ge_2 k Hk). rewrite is_prime_spec by lia. split; [done|lia].
    + repeat constructor; lia.
Qed.

Lemma primes_correct_witness :
  let w := World [Node T_DEVICE 5 1 []] (λ _, None) [OpenFile (KFile 0) 0] [] (tab (Some 0%nat) (Some 0%nat) (Some 0%nat) None None) [] [] [] [] (λ _, 0) in
  halts primes_main w (Exited 0) (λ w', ∃ ps, w_out w' = w_out w ++ concat (prime_text <$> ps) ∧ (∀ k, k ∈ ps ↔ prime k ∧ k < 36) ∧ StronglySorted Z.lt ps).
Proof.
  intros w. apply (primes_correct w 0 0 0); [done| |].
  - exists 0%nat, 0%nat, 0. by destruct (fd_tab w _ _ _ _ _ eq_refl) as [_ ->].
  - split.
    + intros t f Ht Hf. apply list_elem_of_singleton in Ht as ->. apply elem_tab in Hf as [[= ->]|[[= ->]|[[= ->]|[?|?]]]]; try done; cbn; lia.
    + intros f o p out Hf Hk. destruct f; [|by destruct f]. injection Hf as <-. done.
Defined.
