(* ===== verification/Xargs.v ===== *)
(** * Building commands from lines (user/xargs.c)

    Every line of the input is cut at spaces into arguments that are added to those of the command; a child
    executes it while xargs waits.  The commands themselves are not run here: [w_calls] records them, and
    they are taken not to read the standard input. *)

From S2P Require Import Prelude Memory Riscv Spinlock Core CString Kalloc Vm Sleeplock BufCache Log Sys Fs Grep User Ulib UPrintf.

Definition MAX_LINE : Z := 512.
Definition MAX_ARGS : Z := 32.

(** The line read, or the value that ends the program: 0 or less. *)
Definition read_line (max : Z) : U (Z * list Z) :=
  loop (Z.to_nat max) (λ buf,
    if negb (alen buf <? max - 1) then mret (inr (alen buf, buf)) else
    n ← uread 0 1;
    match n with
    | None => mret (inr (-1, buf))
    | Some [] => mret (inr (0, buf))
    | Some (c :: _) =>
        if (c =? 10) || (c =? 13) then mret (inr (alen buf, buf)) else mret (inl (buf ++ [c]))
    end) [].

(** Cutting the line at spaces, with room for [room] more arguments; [strchr] stops at a NUL. *)
Fixpoint split_args (fuel : nat) (room : Z) (p : list Z) : list (list Z) :=
  match fuel with
  | O => []
  | S fuel =>
      match strchr_at 32 p with
      | Some q =>
          if 0 <? room then
            let arg := take q p in
            if bool_decide (arg = []) then split_args fuel room (drop (S q) p) else arg :: split_args fuel (room - 1) (drop (S q) p)
          else []
      | None => if negb (bool_decide (p = [])) && (0 <? room) then [p] else []
      end
  end.

Definition xargs_main (fuel : nat) (args : list (list Z)) : U unit :=
  match args with
  | [] => fprintf 2 "Usage: xargs command [args...]\n" [];; uexit 1
  | cmd :: _ =>
      loop fuel (λ _,
        '(ret, line) ← read_line MAX_LINE;
        if ret <=? 0 then mret (inr tt) else
        let line := c_string line in
        if alen line =? 0 then mret (inl tt) else
        let argv := args ++ split_args (S (length line)) (MAX_ARGS - 1 - alen args) line in
        fork_wait (
          uexec cmd argv;;
          fprintf 2 "xargs: exec %s failed\n" [VStr (Some cmd)];;
          uexit 1);;
        mret (inl tt)) tt;;
      uexit 0
  end.

(** ** What it should do *)

(** The words of a line: the parts between spaces that are not empty. *)
Fixpoint words_of (cur line : list Z) : list (list Z) :=
  match line with
  | [] => if bool_decide (cur = []) then [] else [cur]
  | c :: line => if c =? 32 then (if bool_decide (cur = []) then [] else [cur]) ++ words_of [] line else words_of (cur ++ [c]) line
  end.

Definition line_ok (l : list Z) : Prop := l ≠ [] ∧ alen l < MAX_LINE - 1 ∧ 0 ∉ l ∧ 10 ∉ l ∧ 13 ∉ l.

Lemma words_prefix a : ∀ cur b, 32 ∉ a → words_of cur (a ++ b) = words_of (cur ++ a) b.
Proof.
  induction a as [|c a IH]; intros cur b Ha; [by rewrite app_nil_r|]. apply not_elem_of_cons in Ha as [Hc Ha]. cbn [app words_of]. rewrite (proj2 (Z.eqb_neq _ _)) by done.
  rewrite IH by done. by rewrite <- app_assoc.
Qed.

Lemma strchr_at_none c p : 0 ∉ p → strchr_at c p = None → c ∉ p.
Proof.
  induction p as [|a p IH]; intros H0; cbn; [intros _; apply not_elem_of_nil|]. apply not_elem_of_cons in H0 as [Ha H0]. rewrite (proj2 (Z.eqb_neq a 0)) by done.
  destruct (Z.eqb_spec a c) as [->|Hne]; [done|]. intros E%fmap_None. apply not_elem_of_cons. split; [done|by apply IH].
Qed.
Lemma strchr_at_some c p q : strchr_at c p = Some q → p = take q p ++ c :: drop (S q) p ∧ c ∉ take q p.
Proof.
  revert q. induction p as [|a p IH]; [done|]. intros q. cbn. destruct (a =? 0); [done|]. destruct (Z.eqb_spec a c) as [->|Hne].
  - intros [= <-]. split; [done|apply not_elem_of_nil].
  - intros E. apply fmap_Some in E as (q' & E & ->). destruct (IH q' E) as [E1 E2]. cbn. split; [by rewrite <- E1|]. apply not_elem_of_cons. done.
Qed.

Lemma words_first p q : strchr_at 32 p = Some q → words_of [] p = (if bool_decide (take q p = []) then [] else [take q p]) ++ words_of [] (drop (S q) p).
Proof.
  intros E. apply strchr_at_some in E as [E Hn]. rewrite E at 1. rewrite words_prefix by done. cbn [words_of]. by rewrite Z.eqb_refl.
Qed.

Lemma split_words_of fuel : ∀ room p, 0 ∉ p → (length p < fuel)%nat → alen (words_of [] p) ≤ room → split_args fuel room p = words_of [] p.
Proof.
  induction fuel as [|fuel IH]; intros room p H0 Hf Hr; [lia|]. cbn [split_args]. destruct (strchr_at 32 p) as [q|] eqn:E.
  - rewrite (words_first p q E) in Hr |- *. apply strchr_at_some in E as [E Hn].
    assert (0 ∉ drop (S q) p) as H0' by (intros H; apply H0; rewrite E; apply elem_of_app; right; by right).
    assert (length (drop (S q) p) < fuel)%nat as Hf' by (apply (f_equal length) in E; rewrite length_app in E; cbn in E; rewrite length_drop in *; lia).
    destruct (bool_decide (take q p = [])) eqn:Eb; cbn [app] in *.
    + destruct (Z.ltb_spec 0 room); [by apply IH|]. destruct (words_of [] (drop (S q) p)); [done|]. unfold alen in Hr. cbn in Hr. lia.
    + assert (alen (take q p :: words_of [] (drop (S q) p)) = alen (words_of [] (drop (S q) p)) + 1) as El by (unfold alen; cbn [length]; lia).
      assert (0 ≤ alen (words_of [] (drop (S q) p))) by (unfold alen; lia). rewrite (proj2 (Z.ltb_lt 0 room)) by lia. f_equal. apply IH; [done|done|lia].
  - apply strchr_at_none in E; [|done]. assert (words_of [] p = if bool_decide (p = []) then [] else [p]) as Ew.
    { rewrite <- (app_nil_r p) at 1. rewrite words_prefix by done. done. }
    rewrite Ew in *. destruct (bool_decide (p = [])); cbn [negb andb]; [done|]. rewrite (proj2 (Z.ltb_lt 0 room)); [done|]. change (alen [p]) with 1 in Hr. lia.
Qed.

(** ** Reading lines from a file *)

(** Descriptor 0 is a file of these bytes, read up to [off]. *)
Definition stdin_at (w : world) (f i : nat) (data : list Z) (off : Z) : Prop :=
  fd_file 0 w = Some f ∧ w_open w !! f = Some (OpenFile (KFile i) off) ∧ nd_type (w_nodes w !!! i) ≠ T_DEVICE ∧ nd_data (w_nodes w !!! i) = data ∧ 0 ≤ off.

Definition seek (f i : nat) (off : Z) (w : world) : world := set_open (<[f := OpenFile (KFile i) off]> (w_open w)) w.

Lemma seek_at w f i data off off' : stdin_at w f i data off → 0 ≤ off' → stdin_at (seek f i off' w) f i data off'.
Proof.
  intros (H1 & H2 & H3 & H4 & H5) H. split; [done|]. split; [|done]. cbn. apply list_lookup_insert_eq. by eapply lookup_lt_Some.
Qed.
Lemma seek_seek f i off off' w : seek f i off' (seek f i off w) = seek f i off' w.
Proof. unfold seek, set_open. cbn. by rewrite list_insert_insert_eq. Qed.
Lemma seek_id w f i data off : stdin_at w f i data off → seek f i off w = w.
Proof. intros (_ & H & _). unfold seek. rewrite list_insert_id by done. by destruct w. Qed.

Lemma runs_uread_byte w f i data off : stdin_at w f i data off → runs (uread 0 1) w (λ r w', match drop (Z.to_nat off) data with
    | [] => r = Some [] ∧ w' = w
    | c :: _ => r = Some [c] ∧ w' = seek f i (off + 1) w
    end).
Proof.
  intros Hs. pose proof Hs as (H1 & H2 & H3 & H4 & H5). unfold uread. ustep. rewrite H1. ustep. rewrite (list_lookup_total_correct _ _ _ H2). cbn [o_kind o_off]. ustep.
  rewrite (proj2 (Z.eqb_neq _ _)) by done. ustep. rewrite H4. unfold slice. destruct (drop (Z.to_nat off) data) as [|c rest].
  - cbn [take]. change (alen []) with 0. rewrite Z.add_0_r. split; [done|]. by apply (seek_id w f i data).
  - done.
Qed.

(** A line with its newline, or the end of the input. *)
Lemma runs_read_line w f i data off line more : stdin_at w f i data off → drop (Z.to_nat off) data = line ++ more →
  alen line < MAX_LINE - 1 → 10 ∉ line → 13 ∉ line → more = [] ∨ hd 0 more = 10 →
  runs (read_line MAX_LINE) w (λ r w',
    r = (if bool_decide (more = []) then 0 else alen line, line) ∧ ∃ off', w' = seek f i off' w ∧ 0 ≤ off' ∧
    drop (Z.to_nat off') data = tl more).
Proof.
  intros Hs Hd Hlen H10 H13 Hmore. pose proof Hs as (_ & _ & _ & _ & Hoff). unfold read_line.
  apply (runs_loop_nat _ (λ k buf w', ∃ rest, line = buf ++ rest ∧ k = length rest ∧ w' = seek f i (off + alen buf) w) _ _ (length line)).
  - intros k buf w' (rest & -> & -> & ->). assert (alen (buf ++ rest) = alen buf + alen rest ∧ 0 ≤ alen buf ∧ 0 ≤ alen rest) as (Ea & ? & ?) by (unfold alen; rewrite length_app; lia).
    rewrite (proj2 (Z.ltb_lt _ _)) by lia. cbn [negb]. kstep. eapply runs_mono; [apply (runs_uread_byte _ f i data (off + alen buf)); apply (seek_at w f i data off); [done|lia]|].
    replace (Z.to_nat (off + alen buf)) with (Z.to_nat off + length buf)%nat by (unfold alen; lia). rewrite <- drop_drop, Hd, <- app_assoc, drop_app_length. cbn beta.
    destruct rest as [|c rest]; [destruct more as [|c more]|]; cbn [app].
    + intros r w' [-> ->]. kstep. rewrite app_nil_r. split; [done|]. exists (off + alen buf). split; [done|]. split; [lia|].
      replace (Z.to_nat (off + alen buf)) with (Z.to_nat off + length buf)%nat by (unfold alen; lia). rewrite <- drop_drop, Hd, !app_nil_r. apply drop_all.
    + intros r w' [-> ->]. destruct Hmore as [?|Hc]; [done|]. cbn in Hc. subst c. change ((10 =? 10) || (10 =? 13)) with true. cbn iota. kstep. rewrite app_nil_r. split; [done|].
      exists (off + alen buf + 1). split; [by rewrite seek_seek|]. split; [lia|]. replace (Z.to_nat (off + alen buf + 1)) with (Z.to_nat off + (length buf + 1))%nat by (unfold alen; lia).
      rewrite <- drop_drop, Hd, app_nil_r, <- drop_drop, drop_app_length. done.
    + intros r w' [-> ->]. assert (c ≠ 10 ∧ c ≠ 13) as [? ?] by (split; intros ->; [apply H10|apply H13]; apply elem_of_app; right; by left).
      rewrite (proj2 (Z.eqb_neq c 10)), (proj2 (Z.eqb_neq c 13)) by done. cbn [orb]. kstep. exists (length rest). split; [cbn; lia|]. exists rest. rewrite <- app_assoc. split; [done|].
      split; [done|]. rewrite seek_seek. f_equal. unfold alen. rewrite length_app. cbn. lia.
  - exists line. split; [done|]. split; [done|]. rewrite Z.add_0_r. by rewrite (seek_id w f i data).
  - unfold alen in Hlen. change MAX_LINE with 512 in *. lia.
Qed.

(** ** The program *)

(** What follows the lines: the end of the input, an empty line, or a line without its newline. *)
Definition tail_ok (rest : list Z) : Prop := rest = [] ∨ hd 0 rest = 10 ∨ (10 ∉ rest ∧ 13 ∉ rest ∧ alen rest < MAX_LINE - 1).

Definition input (ls : list (list Z)) (rest : list Z) : list Z := concat ((λ l, l ++ [10]) <$> ls) ++ rest.

(** The world after the commands [cs] were started. *)
Definition called (f i : nat) (off : Z) (cs : list ucall) (w : world) : world := seek f i off (set_calls (w_calls w ++ cs) w).

Lemma runs_exec_child (w : world) (cmd : list Z) (argv : list (list Z)) : 0 ≤ w_answer w (CExec cmd argv) →
  runs (fork_wait (uexec cmd argv;; fprintf 2 "xargs: exec %s failed\n" [VStr (Some cmd)];; uexit 1)) w
    (λ _ w', w' = set_calls (w_calls w ++ [CExec cmd argv]) w).
Proof.
  intros Ha. eapply (runs_fork_wait _ _ 0 (λ w', w' = set_calls (w_calls w ++ [CExec cmd argv]) (set_rest (w_fds w :: w_rest w) w))); [|intros w' ->; by destruct w].
  apply halts_bind_l. unfold uexec, sys_call. apply halts_bind_r. ustep. cbn. rewrite (proj2 (Z.ltb_ge _ 0)) by done. done.
Qed.

Lemma called_at w f i data off off' cs : stdin_at w f i data off → 0 ≤ off' → stdin_at (called f i off' cs w) f i data off'.
Proof. intros H H'. unfold called. apply (seek_at _ f i data off); [exact H|done]. Qed.

Lemma input_cons l ls rest : input (l :: ls) rest = l ++ 10 :: input ls rest.
Proof. unfold input. rewrite fmap_cons. cbn [concat]. by rewrite <- !app_assoc. Qed.

(** The end of the loop: nothing of the rest is executed. *)
Lemma runs_read_tail w f i data off rest : stdin_at w f i data off → drop (Z.to_nat off) data = rest → tail_ok rest →
  runs (read_line MAX_LINE) w (λ r w', r.1 = 0 ∧ ∃ off', 0 ≤ off' ∧ w' = seek f i off' w).
Proof.
  intros Hs Hd [->|[H|(H1 & H2 & H3)]].
  - eapply runs_mono; [apply (runs_read_line w f i data off [] [] Hs Hd); try done; [apply not_elem_of_nil..|by left]|]. intros r w' (-> & off' & -> & Ho & _). by eauto.
  - eapply runs_mono; [apply (runs_read_line w f i data off [] rest Hs Hd); try done; [apply not_elem_of_nil..|by right]|]. intros r w' (-> & off' & -> & Ho & _).
    split; [by destruct (bool_decide _)|eauto].
  - eapply runs_mono; [apply (runs_read_line w f i data off rest [] Hs); try done; [by rewrite app_nil_r|by left]|]. intros r w' (-> & off' & -> & Ho & _). by eauto.
Qed.

(** C20: xargs starts the command once for each line of its input, in order, with its own arguments and the
    words of the line, up to the first empty line; an empty line ends the program and a last line without
    a newline is ignored. *)
Theorem xargs_correct w f i cmd args ls rest fuel :
  stdin_at w f i (input ls rest) 0 → Forall (λ l, line_ok l ∧ alen (cmd :: args) + alen (words_of [] l) ≤ MAX_ARGS - 1) ls → tail_ok rest →
  (∀ c, 0 ≤ w_answer w c) → (length ls < fuel)%nat →
  halts (xargs_main fuel (cmd :: args)) w (Exited 0) (λ w',
    w_calls w' = w_calls w ++ ((λ l, CExec cmd ((cmd :: args) ++ words_of [] l)) <$> ls)).
Proof.
  intros Hs Hl Ht Ha Hf. unfold xargs_main. set (data := input ls rest) in *. set (call := λ l, CExec cmd ((cmd :: args) ++ words_of [] l)). apply halts_bind_r.
  apply (runs_loop_nat _ (λ k _ w', ∃ ls1 ls2 off, ls = ls1 ++ ls2 ∧ k = length ls2 ∧ 0 ≤ off ∧ w' = called f i off (call <$> ls1) w ∧ drop (Z.to_nat off) data = input ls2 rest) _ _ (length ls)); [| |done].
  - intros k [] w' (ls1 & ls2 & off & -> & -> & Ho & -> & Hd). pose proof (called_at w f i data 0 off (call <$> ls1) Hs Ho) as Hs'. kstep. destruct ls2 as [|l ls2].
    + eapply runs_mono; [by apply (runs_read_tail _ f i data off rest)|]. intros [r line] w1 (E & off' & _ & ->). cbn in E. subst r. change (0 <=? 0) with true. cbn iota. kstep.
      split; [done|]. by rewrite app_nil_r.
    + apply Forall_app in Hl as [_ Hl]. apply Forall_cons in Hl as [[(L1 & L2 & L3 & L4 & L5) Hw] _]. rewrite input_cons in Hd.
      eapply runs_mono; [apply (runs_read_line _ f i data off l (10 :: input ls2 rest) Hs' Hd); try done; by right|]. intros r w1 (-> & off' & -> & Ho' & Hd').
      assert (0 < alen l) by (destruct l; [done|unfold alen; cbn; lia]). rewrite bool_decide_eq_false_2 by done. rewrite (proj2 (Z.leb_gt _ 0)) by done.
      rewrite c_string_id by done. rewrite (proj2 (Z.eqb_neq _ 0)) by lia. rewrite split_words_of by (done || lia). kstep.
      eapply runs_mono; [apply runs_exec_child; apply Ha|]. intros [] w2 ->. kstep. exists (length ls2). split; [cbn; lia|]. exists (ls1 ++ [l]), ls2, off'.
      rewrite <- app_assoc. split; [done|]. split; [done|]. split; [done|]. split; [|done]. rewrite fmap_app. unfold called, seek, set_calls, set_open. cbn. rewrite app_assoc. f_equal. apply list_insert_insert_eq.
  - exists [], ls, 0. split; [done|]. split; [done|]. split; [done|]. split; [|done]. unfold called. rewrite app_nil_r. replace (set_calls (w_calls w) w) with w by by destruct w. by rewrite (seek_id w f i data).
Qed.

(** "a b", then an empty line that hides "c". *)
Lemma xargs_correct_witness :
  let w := World [Node T_FILE 5 1 [97; 32; 98; 10; 10; 99; 10]] (λ _, None) [OpenFile (KFile 0) 0] [] (replicate 3 (Some 0%nat) ++ replicate 13 None) [] [] [] [] (λ _, 0) in
  halts (xargs_main 2 [[101]; [102]]) w (Exited 0) (λ w', w_calls w' = [CExec [101] [[101]; [102]; [97]; [98]]]).
Proof.
  intros w. apply (xargs_correct w 0 0 [101] [[102]] [[97; 32; 98]] [10; 99; 10] 2).
  - done.
  - repeat constructor; try done; apply (bool_decide_unpack _); by vm_compute.
  - right. left. done.
  - done.
  - cbn. lia.
Defined.
