(* ===== verification/UFind.v ===== *)
(** * Listing and searching directories (user/ls.c, user/find.c)

    Paths are the bytes of the string in [buf].  [width] bounds the entries of a directory, [depth] the
    nesting of directories. *)

From S2P Require Import Prelude Memory Riscv Spinlock Core CString Kalloc Vm Sleeplock BufCache Log Sys Fs FsDir Grep User Ulib UPrintf UProgs UText.

Definition slash : Z := 47.

(** [for(p = path + strlen(path); p >= path && *p != '/'; p--) ; p++]: the position after the last slash. *)
Fixpoint slash_scan (p : nat) (path : list Z) : nat :=
  if nth p path 0 =? slash then S p else
  match p with
  | O => O
  | S p => slash_scan p path
  end.

Definition last_name (path : list Z) : list Z := drop (slash_scan (length path) path) path.

(** [fmtname] of ls.c pads the name with blanks, that of find.c does not. *)
Definition ls_fmtname (path : list Z) : list Z :=
  let p := last_name path in
  if DIRSIZ <=? alen p then p else p ++ replicate (Z.to_nat (DIRSIZ - alen p)) 32.
Definition find_fmtname (path : list Z) : list Z := last_name path.

(** The loop over the entries of the directory open as [fd]; [use] is given the path of each. *)
Definition each_entry (width : nat) (fd : Z) (path : list Z) (use : list Z → U unit) : U unit :=
  loop width (λ _,
    de ← uread fd 16;
    match de with
    | None => mret (inr tt)
    | Some de =>
        if negb (alen de =? 16) then mret (inr tt) else
        if de_inum de =? 0 then mret (inl tt) else
        use (path ++ [slash] ++ c_string (de_name de));;
        mret (inl tt)
    end) tt.

(** ** ls *)

Definition ls (width : nat) (path : list Z) : U unit :=
  fd ← uopen path;
  if fd <? 0 then fprintf 2 "ls: cannot open %s\n" [VStr (Some path)] else
  st ← ufstat fd;
  match st with
  | None => fprintf 2 "ls: cannot stat %s\n" [VStr (Some path)];; uclose fd;; mret tt
  | Some st =>
      (if nd_type st =? T_FILE then
         printf "%s %d %d %u\n" [VStr (Some (ls_fmtname path)); VInt (nd_type st); VInt (i32 (nd_ino st)); VInt (i32 (alen (nd_data st)))]
       else if nd_type st =? T_DIR then
         if 512 <? alen path + 1 + DIRSIZ + 1 then printf "ls: path too long\n" [] else
         each_entry width fd path (λ buf,
           st ← ustat buf;
           match st with
           | None => printf "ls: cannot stat %s\n" [VStr (Some buf)]
           | Some st =>
               printf "%s %d %d %d\n" [VStr (Some (ls_fmtname buf)); VInt (nd_type st); VInt (i32 (nd_ino st)); VInt (i32 (alen (nd_data st)))]
           end)
       else mret tt);;
      uclose fd;;
      mret tt
  end.

Fixpoint ls_all (width : nat) (args : list (list Z)) : U unit :=
  match args with
  | [] => mret tt
  | arg :: args => ls width arg;; ls_all width args
  end.

Definition ls_main (width : nat) (args : list (list Z)) : U unit :=
  match args with
  | [] => ls width [46];; uexit 0
  | _ => ls_all width args;; uexit 0
  end.

(** ** find *)

Definition is_dots (name : list Z) : bool := (lstrcmp [46] name =? 0) || (lstrcmp [46; 46] name =? 0).

Fixpoint find (width depth : nat) (path re : list Z) : U unit :=
  match depth with
  | O => stop NoFuel
  | S depth =>
      fd ← uopen path;
      if fd <? 0 then fprintf 2 "find: cannot open %s\n" [VStr (Some path)] else
      st ← ufstat fd;
      match st with
      | None => fprintf 2 "find: cannot stat %s\n" [VStr (Some path)];; uclose fd;; mret tt
      | Some st =>
          (if nd_type st =? T_FILE then
             when (grep_match re (find_fmtname path)) (printf "%s\n" [VStr (Some path)])
           else if nd_type st =? T_DIR then
             if 512 <? alen path + 1 + DIRSIZ + 1 then printf "find: path too long\n" [] else
             each_entry width fd path (λ buf,
               st ← ustat buf;
               match st with
               | None => printf "find: cannot stat %s\n" [VStr (Some buf)]
               | Some _ => if is_dots (find_fmtname buf) then mret tt else find width depth buf re
               end)
           else mret tt);;
          uclose fd;;
          mret tt
      end
  end.

(** Without a second argument [argv[2]] is 0, which [match] then reads as a string. *)
Definition find_main (width depth : nat) (args : list (list Z)) : U unit :=
  match args with
  | [] => printf "Parameters are not enough\n" [];; uexit 0
  | [_] => stop (Undefined "find: null pattern")
  | path :: re :: _ => find width depth path re;; uexit 0
  end.

(** * find prints the files of a tree that match, ls the entries of a directory

    The files below a path are a [tree]; [rep depth w path t] says that the world [w] has the tree [t] at [path].
    [reading] is a world in which a directory is being read while other files were opened and closed. *)

(** ** Free descriptors *)

Definition nfree (t : fdtable) : nat := length (filter (λ o, o = None) t).
Definition room (n : nat) (w : world) : Prop := (n ≤ nfree (w_fds w))%nat ∧ length (w_fds w) = Z.to_nat NOFILE.

Lemma nfree_lowest t : (0 < nfree t)%nat → ∃ fd, lowest_fd t = Some fd ∧ ∀ f, nfree (<[fd := Some f]> t) = pred (nfree t).
Proof.
  induction t as [|[f|] t IH]; unfold nfree in *; cbn; [lia| |by exists 0%nat]. intros H. destruct (IH H) as (fd & -> & Hn). exists (S fd). split; [done|]. intros g. apply (Hn g).
Qed.

Lemma room_free w n : room (S n) w → ∃ fd, free_fd w fd ∧ ∀ f i off l out,
  room n (set_fds (<[fd := Some f]> (w_fds w)) (set_open (w_open w ++ OpenFile (KFile i) off :: l) (set_out (w_out w ++ out) w))).
Proof.
  intros [H Hl]. destruct (nfree_lowest (w_fds w)) as (fd & E & Hn); [lia|]. exists fd. split; [done|]. intros f i off l out. split; cbn [w_fds set_fds]; [rewrite Hn; lia|by rewrite length_insert].
Qed.

Lemma runs_ustat w n path i : room (S n) w → w_path w path = Some i → runs (ustat path) w (λ r w', r = Some (w_nodes w !!! i) ∧ after w [] w').
Proof.
  intros Hr Hp. destruct (room_free w n Hr) as (fd & Hfd & _). unfold ustat. kstep. eapply runs_mono; [by apply (runs_uopen w fd path i)|]. intros r w1 [-> ->].
  rewrite (proj2 (Z.ltb_ge _ 0)) by lia. kstep. eapply runs_mono; [by apply runs_ufstat|]. intros r w2 [-> ->]. kstep. eapply runs_mono; [by apply runs_uclose|].
  intros r w3 H3. by kstep.
Qed.

(** ** Names and paths *)

Definition path_of (path name : list Z) : list Z := path ++ [slash] ++ name.

Lemma slash_scan_from l q k : nth q l 0 = slash → (∀ j, (q < j ≤ q + k)%nat → nth j l 0 ≠ slash) → slash_scan (q + k) l = S q.
Proof.
  intros Hq. induction k as [|k IH]; intros Hj.
  - rewrite Nat.add_0_r. destruct q; cbn [slash_scan]; by rewrite Hq, Z.eqb_refl.
  - rewrite Nat.add_succ_r. cbn [slash_scan]. rewrite (proj2 (Z.eqb_neq _ _)) by (apply Hj; lia). apply IH. intros j H. apply Hj. lia.
Qed.

Lemma last_name_of path name : slash ∉ name → last_name (path_of path name) = name.
Proof.
  intros Hn. unfold last_name, path_of. rewrite !length_app. cbn [length]. replace (length path + (1 + length name))%nat with (length path + S (length name))%nat by lia.
  rewrite slash_scan_from.
  - replace (S (length path)) with (length path + 1)%nat by lia. by rewrite <- drop_drop, drop_app_length.
  - rewrite app_nth2, Nat.sub_diag by lia. done.
  - intros j Hj. rewrite app_nth2 by lia. destruct (j - length path)%nat as [|k] eqn:E; [lia|]. cbn [app nth]. intros Hs. apply Hn.
    rewrite <- Hs. apply list_elem_of_In, nth_In. apply Nat.nle_gt. intros H. rewrite nth_overflow in Hs by done. discriminate.
Qed.

Lemma c_string_chars l : Forall is_byte l → Forall (λ c, 0 < c < 256) (c_string l).
Proof.
  induction 1 as [|c l Hc Hl IH]; cbn [c_string]; [constructor|]. destruct (Z.eqb_spec c 0); constructor; [unfold is_byte in Hc; lia|done].
Qed.

Lemma is_dots_spec name : Forall (λ c, 0 < c < 256) name → is_dots name = bool_decide (name = [46] ∨ name = [46; 46]).
Proof.
  intros Hn. unfold is_dots. destruct (lstrcmp_spec [46] name) as [H1 _]; [repeat constructor|done|]. destruct (lstrcmp_spec [46; 46] name) as [H2 _]; [repeat constructor|done|].
  destruct (Z.eqb_spec (lstrcmp [46] name) 0) as [E1|E1], (Z.eqb_spec (lstrcmp [46; 46] name) 0) as [E2|E2]; cbn [orb]; symmetry;
    (apply bool_decide_eq_true_2 || apply bool_decide_eq_false_2); naive_solver.
Qed.

(** ** Entries *)

(** A slot of a directory, with what the proofs record of the file it names; slots of inode 0 are free. *)
Abbreviation slot B := (Z * list Z * B)%type.
Definition slot_bytes {B} (e : slot B) : list Z := de_make e.1.1 e.1.2.
Definition slot_name {B} (e : slot B) : list Z := c_string e.1.2.
Definition slot_ok {B} (e : slot B) : Prop :=
  0 ≤ e.1.1 < 2 ^ 16 ∧ length e.1.2 = Z.to_nat DIRSIZ ∧ Forall is_byte e.1.2 ∧ slash ∉ slot_name e.
Definition slot_text {B} (text : slot B → list Z) (e : slot B) : list Z := if e.1.1 =? 0 then [] else text e.

Lemma length_slot {B} (e : slot B) : slot_ok e → length (slot_bytes e) = 16%nat.
Proof. intros (_ & Hl & _). unfold slot_bytes, de_make. by rewrite length_app, length_le_enc, Hl. Qed.

Lemma slot_inum {B} (e : slot B) : slot_ok e → de_inum (slot_bytes e) = e.1.1.
Proof. intros (Hi & _). unfold slot_bytes. assert (u16 e.1.1 = e.1.1) as E by (by apply Z.mod_small). rewrite <- E. apply de_inum_make. Qed.

Lemma slots_slice {B} (es : list (slot B)) k : Forall slot_ok es →
  slice (16 * k) 16 (concat (slot_bytes <$> es)) = match es !! k with Some e => slot_bytes e | None => [] end.
Proof.
  intros H. revert k. induction H as [|e es He Hes IH]; intros k; cbn [concat fmap list_fmap].
  - unfold slice. by rewrite drop_nil, take_nil.
  - pose proof (length_slot e He) as Hl. destruct k as [|k].
    + unfold slice. cbn [lookup list_lookup]. rewrite Nat.mul_0_r, drop_0. etransitivity; [apply take_app_le; lia|]. apply take_ge. lia.
    + cbn [lookup list_lookup]. rewrite <- IH. unfold slice. f_equal. etransitivity; [apply drop_app_ge; lia|]. f_equal. lia.
Qed.

Section EachEntry.
Context {B : Type} (w : world) (fd : nat) (Hfd : free_fd w fd) (i : nat) (es : list (slot B)) (path : list Z).
Context (Ht : nd_type (w_nodes w !!! i) ≠ T_DEVICE) (Hd : nd_data (w_nodes w !!! i) = concat (slot_bytes <$> es)) (Hes : Forall slot_ok es).
Context (use : list Z → U unit) (text : slot B → list Z).
Context (Huse : ∀ e off l out, e ∈ es → e.1.1 ≠ 0 →
  runs (use (path_of path (slot_name e))) (reading w fd i off l out) (λ _ w', ∃ l', w' = reading w fd i off l' (out ++ text e))).

Lemma runs_each_entry width : (length es < width)%nat → runs (each_entry width (Z.of_nat fd) path use) (reading w fd i 0 [] [])
  (λ _ w', ∃ off l, w' = reading w fd i off l (concat (slot_text text <$> es))).
Proof using All.
  intros Hw. unfold each_entry.
  apply (runs_loop_nat _ (λ n _ w', ∃ k l, (k + n)%nat = length es ∧ w' = reading w fd i (16 * Z.of_nat k) l (concat (slot_text text <$> take k es))) _ _ (length es)); [| |done].
  - intros n _ w' (k & l & Hk & ->). kstep. eapply runs_mono; [by apply (runs_uread w fd Hfd i l _ _ 16)|]. intros r w1 [-> ->]. rewrite Hd.
    replace (Z.to_nat (16 * Z.of_nat k)) with (16 * k)%nat by lia. change (Z.to_nat 16) with 16%nat. rewrite slots_slice by done.
    destruct (es !! k) as [e|] eqn:E.
    + assert (slot_ok e) as He by (by eapply Forall_lookup_1). unfold alen at 1. rewrite (length_slot e He). change (negb (Z.of_nat 16 =? 16)) with false. cbn iota. rewrite slot_inum by done.
      assert (slot_text text <$> take (S k) es = (slot_text text <$> take k es) ++ [slot_text text e]) as Es by (by rewrite (take_S_r es k e E), fmap_app).
      replace (16 * Z.of_nat k + alen (slot_bytes e)) with (16 * Z.of_nat (S k)) by (unfold alen; rewrite (length_slot e He); lia).
      destruct (Z.eqb_spec e.1.1 0) as [E0|E0].
      * kstep. exists (pred n). apply lookup_lt_Some in E. split; [lia|]. exists (S k), l. split; [lia|]. rewrite Es, concat_app. unfold slot_text at 3. rewrite E0. cbn. by rewrite app_nil_r.
      * kstep. replace (de_name (slot_bytes e)) with e.1.2 by (symmetry; apply de_name_make, He). eapply runs_mono; [apply Huse; [by eapply list_elem_of_lookup_2|done]|].
        intros [] w2 [l' ->]. kstep. exists (pred n). apply lookup_lt_Some in E. split; [lia|]. exists (S k), l'. split; [lia|]. rewrite Es, concat_app. unfold slot_text at 3.
        rewrite (proj2 (Z.eqb_neq _ _)) by done. cbn. by rewrite app_nil_r.
    + change (negb (alen (@nil Z) =? 16)) with true. cbn iota. kstep. apply lookup_ge_None_1 in E. rewrite take_ge by lia. by eexists _, _.
  - exists 0%nat, []. done.
Qed.
End EachEntry.

(** ** find *)

Inductive tree := TFile | TOther | TDir (es : list (slot tree)).

(** The tree [t] is at [path], with at most [depth] levels and fewer than [width] slots in a directory; every name of a
    directory, also ["."] and [".."], leads to a file, and neither is a part of the tree. *)
Fixpoint rep (width depth : nat) (nodes : list node) (names : list Z → option nat) (path : list Z) (t : tree) : Prop :=
  match depth with
  | O => False
  | S depth => ∃ i, names path = Some i ∧
      match t with
      | TFile => nd_type (nodes !!! i) = T_FILE
      | TOther => nd_type (nodes !!! i) ≠ T_FILE ∧ nd_type (nodes !!! i) ≠ T_DIR
      | TDir es => nd_type (nodes !!! i) = T_DIR ∧ nd_data (nodes !!! i) = concat (slot_bytes <$> es) ∧ (length es < width)%nat ∧ alen path + 16 ≤ 512 ∧
          Forall slot_ok es ∧
          ∀ e, e ∈ es → e.1.1 ≠ 0 → is_Some (names (path_of path (slot_name e))) ∧
            (slot_name e ≠ [46] ∧ slot_name e ≠ [46; 46] → rep width depth nodes names (path_of path (slot_name e)) e.2)
      end
  end.

(** The paths of the files whose last name matches, each on a line, in the order of the directories. *)
Fixpoint find_text (re path : list Z) (t : tree) : list Z :=
  match t with
  | TFile => if grep_match re (last_name path) then path ++ [10] else []
  | TOther => []
  | TDir es => concat (map (λ e : slot tree, if e.1.1 =? 0 then [] else
      if bool_decide (slot_name e = [46] ∨ slot_name e = [46; 46]) then [] else find_text re (path_of path (slot_name e)) e.2) es)
  end.

Lemma chars_path path (e : slot tree) : chars path → slot_ok e → chars (path_of path (slot_name e)).
Proof.
  intros Hp (_ & _ & Hb & _). apply Forall_app. split; [done|]. constructor; [unfold is_byte, slash; lia|]. eapply Forall_impl; [by apply c_string_chars|]. unfold is_byte. cbn. lia.
Qed.

Lemma runs_find width re depth : ∀ path t w, rep width depth (w_nodes w) (w_path w) path t → room (S depth) w → to_console 1 w → chars path →
  runs (find width depth path re) w (λ _ w', after w (find_text re path t) w').
Proof.
  induction depth as [|depth IH]; intros path t w Hrep Hroom Hc Hp; [done|]. destruct Hrep as (i & Hi & Ht). destruct (room_free _ _ Hroom) as (fd & Hfd & Hroom').
  cbn [find]. kstep. eapply runs_mono; [by apply (runs_uopen w fd path i)|]. intros r w1 [-> ->]. rewrite (proj2 (Z.ltb_ge _ 0)) by lia.
  kstep. eapply runs_mono; [by apply runs_ufstat|]. intros r w2 [-> ->]. kstep.
  eapply (runs_mono _ _ (λ _ w', ∃ off l, w' = reading w fd i off l (find_text re path t))).
  2:{ intros [] w3 (off & l & ->). kstep. eapply runs_mono; [by apply runs_uclose|]. intros r w4 H4. by kstep. }
  destruct t as [| |es]; cbn [find_text].
  - rewrite Ht, Z.eqb_refl. unfold find_fmtname. unfold when. destruct (grep_match re (last_name path)); [|kstep; by eexists _, _].
    eapply runs_mono; [apply (runs_printf 1 _ _ _ (path ++ [10])); [by apply reading_console|by repeat constructor|]|].
    + reflexivity.
    + intros [] w3 ->%wrote_reading. by eexists _, _.
  - destruct Ht as [H1 H2]. rewrite !(proj2 (Z.eqb_neq _ _)) by done. kstep. by eexists _, _.
  - destruct Ht as (Hty & Hd & Hw & Hlen & Hes & Hsub). rewrite Hty. change (T_DIR =? T_FILE) with false. change (T_DIR =? T_DIR) with true. cbn iota.
    change DIRSIZ with 14. rewrite (proj2 (Z.ltb_ge _ _)) by lia.
    assert (nd_type (w_nodes w !!! i) ≠ T_DEVICE) as Hdev by (by rewrite Hty).
    eapply runs_mono; [apply (runs_each_entry w fd Hfd i es path Hdev Hd Hes _ (λ e, if bool_decide (slot_name e = [46] ∨ slot_name e = [46; 46]) then [] else find_text re (path_of path (slot_name e)) e.2)); [|exact Hw]|].
    2:{ intros [] w3 H3. exact H3. }
    intros e off l out He He0. destruct (Hsub e He He0) as [[j Hj] Hrec]. assert (slot_ok e) as Hok by (by eapply Forall_forall in Hes).
    assert (room (S depth) (reading w fd i off l out)) as Hr by apply Hroom'.
    kstep. eapply runs_mono; [by apply (runs_ustat _ depth _ j)|]. intros r w3 [-> H3].
    apply after_reading in H3 as [l3 ->]. rewrite app_nil_r. unfold find_fmtname. rewrite last_name_of by apply Hok. rewrite is_dots_spec by (apply c_string_chars, Hok).
    case_bool_decide as Hdots.
    + kstep. exists l3. by rewrite app_nil_r.
    + eapply runs_mono; [apply (IH _ e.2); [apply Hrec; tauto|apply Hroom'|by apply reading_console|by apply chars_path]|].
      intros [] w4 H4. by apply after_reading in H4.
Qed.

(** C19: on a tree of directories [find path re] prints the paths of exactly the files whose last name matches [re], each on
    a line, in the order in which the directories list them; it visits every directory but ["."] and [".."], closes all it opens
    and exits with 0, as long as there are as many free descriptors as levels. *)
Theorem find_correct width depth w path re t : rep width depth (w_nodes w) (w_path w) path t → room (S depth) w → to_console 1 w → chars path →
  halts (find_main width depth [path; re]) w (Exited 0) (λ w', after w (find_text re path t) w').
Proof.
  intros Hrep Hr Hc Hp. cbn [find_main]. apply halts_bind_r. eapply runs_mono; [by apply (runs_find width re depth path t)|]. intros [] w' H. by split.
Qed.

(** ** ls *)

(** Numbers that [stat] reports and [%d] shows as they are. *)
Definition stat_ok (nd : node) : Prop := - 2 ^ 31 ≤ nd_type nd < 2 ^ 31 ∧ 0 ≤ nd_ino nd < 2 ^ 31 ∧ alen (nd_data nd) < 2 ^ 31.

(** A directory and the inodes its names lead to. *)
Definition dir_at (width : nat) (w : world) (d : list Z * list (slot nat)) : Prop :=
  ∃ i, w_path w d.1 = Some i ∧ nd_type (w_nodes w !!! i) = T_DIR ∧ nd_data (w_nodes w !!! i) = concat (slot_bytes <$> d.2) ∧
    (length d.2 < width)%nat ∧ alen d.1 + 16 ≤ 512 ∧ Forall slot_ok d.2 ∧
    ∀ e, e ∈ d.2 → e.1.1 ≠ 0 → w_path w (path_of d.1 (slot_name e)) = Some e.2 ∧ stat_ok (w_nodes w !!! e.2).

(** The name in a field of [DIRSIZ] characters, the type, the inode and the size. *)
Definition padded (name : list Z) : list Z := name ++ replicate (Z.to_nat (DIRSIZ - alen name)) 32.
Definition ls_line (name : list Z) (nd : node) : list Z :=
  padded name ++ [32] ++ int_text (nd_type nd) 10 true ++ [32] ++ int_text (nd_ino nd) 10 true ++ [32] ++ int_text (alen (nd_data nd)) 10 true ++ [10].
Definition ls_text (nodes : list node) (es : list (slot nat)) : list Z := concat (slot_text (λ e, ls_line (slot_name e) (nodes !!! e.2)) <$> es).

Lemma ls_fmtname_of path name : slash ∉ name → ls_fmtname (path_of path name) = padded name.
Proof.
  intros Hn. unfold ls_fmtname, padded. rewrite last_name_of by done. destruct (Z.leb_spec DIRSIZ (alen name)); [|done].
  replace (Z.to_nat (DIRSIZ - alen name)) with 0%nat by lia. by rewrite app_nil_r.
Qed.

Lemma chars_padded {B} (e : slot B) : slot_ok e → chars (padded (slot_name e)).
Proof.
  intros (_ & _ & Hb & _). apply Forall_app. split; [|apply Forall_replicate; unfold is_byte; lia].
  eapply Forall_impl; [by apply c_string_chars|]. unfold is_byte. cbn. lia.
Qed.

Lemma runs_ls width w n d : dir_at width w d → room (S (S n)) w → to_console 1 w → chars d.1 →
  runs (ls width d.1) w (λ _ w', after w (ls_text (w_nodes w) d.2) w').
Proof.
  intros (i & Hi & Hty & Hd & Hw & Hlen & Hes & Hsub) Hroom Hc Hp. destruct (room_free _ _ Hroom) as (fd & Hfd & Hroom').
  unfold ls. kstep. eapply runs_mono; [by apply (runs_uopen w fd d.1 i)|]. intros r w1 [-> ->]. rewrite (proj2 (Z.ltb_ge _ 0)) by lia.
  kstep. eapply runs_mono; [by apply runs_ufstat|]. intros r w2 [-> ->]. kstep.
  eapply (runs_mono _ _ (λ _ w', ∃ off l, w' = reading w fd i off l (ls_text (w_nodes w) d.2))).
  2:{ intros [] w3 (off & l & ->). kstep. eapply runs_mono; [by apply runs_uclose|]. intros r w4 H4. by kstep. }
  rewrite Hty. change (T_DIR =? T_FILE) with false. change (T_DIR =? T_DIR) with true. cbn iota. change DIRSIZ with 14. rewrite (proj2 (Z.ltb_ge _ _)) by lia.
  assert (nd_type (w_nodes w !!! i) ≠ T_DEVICE) as Hdev by (by rewrite Hty).
  apply (runs_each_entry w fd Hfd i d.2 d.1 Hdev Hd Hes); [|exact Hw].
  intros e off l out He He0. destruct (Hsub e He He0) as [Hj (S1 & S2 & S3)]. assert (slot_ok e) as Hok by (by eapply Forall_forall in Hes).
  kstep. eapply runs_mono; [apply (runs_ustat _ n _ e.2); [apply Hroom'|done]|]. intros r w3 [-> H3].
  apply after_reading in H3 as [l3 ->]. rewrite app_nil_r. cbn [reading w_nodes set_fds set_open set_out]. fold (reading w fd i off l3 out).
  assert (0 ≤ alen (nd_data (w_nodes w !!! e.2))) by (unfold alen; lia). rewrite !i32_small by lia. rewrite ls_fmtname_of by apply Hok.
  eapply runs_mono; [apply (runs_printf 1 _ _ _ (ls_line (slot_name e) (w_nodes w !!! e.2))); [by apply reading_console| |]|].
  - repeat (apply Forall_cons; split); [..|constructor]; unfold varg_ok; [by apply chars_padded|lia..].
  - unfold ls_line. cbn [render bytes_of]. cbn. by rewrite ?app_nil_r.
  - intros [] w4 ->%wrote_reading. by exists l3.
Qed.

Lemma after_room w a w' n : after w a w' → room n w → room n w'.
Proof. by intros [l ->]. Qed.

(** Ls prints for each directory it is given a line for each slot in use, in order: the name padded to 14 characters, the
    type, the inode number and the size that [stat] gives for it; it closes all it opens and exits with 0. *)
Theorem ls_correct width w dirs : dirs ≠ [] → Forall (λ d, dir_at width w d ∧ chars d.1) dirs → room 2 w → to_console 1 w →
  halts (ls_main width dirs.*1) w (Exited 0) (λ w', after w (concat ((λ d, ls_text (w_nodes w) d.2) <$> dirs)) w').
Proof.
  intros Hne Hd Hr Hc. assert (ls_main width dirs.*1 = (ls_all width dirs.*1;; uexit 0)) as -> by by destruct dirs.
  apply halts_bind_r.
  enough (∀ a w1, after w a w1 → runs (ls_all width dirs.*1) w1 (λ _ w', after w (a ++ concat ((λ d, ls_text (w_nodes w) d.2) <$> dirs)) w')) as H.
  { eapply runs_mono; [apply (H [] w), after_refl|]. intros [] w' H'. by split. }
  clear Hne. induction dirs as [|d dirs IH]; intros a w1 Ha; cbn [fmap list_fmap ls_all concat]; [apply runs_ret; by rewrite app_nil_r|].
  apply Forall_cons in Hd as [[Hd Hp] Hds]. kstep. eapply runs_mono.
  - apply (runs_ls width w1 0 d); [by destruct Ha as [l ->]|by eapply after_room|by eapply after_console|done].
  - intros [] w2 H2. rewrite app_assoc. apply IH; [done|]. assert (w_nodes w1 = w_nodes w) as E by by destruct Ha as [l ->]. rewrite E in H2. by eapply after_trans.
Qed.

Lemma chars_fmtname path : chars path → chars (ls_fmtname path).
Proof.
  intros Hp. assert (chars (last_name path)) as H by by apply Forall_drop. unfold ls_fmtname. destruct (_ <=? _); [done|].
  apply Forall_app. split; [done|]. apply Forall_replicate. unfold is_byte. lia.
Qed.

(** Of a single file ls does not print the size: [%u] is not a conversion of this printf, and comes out as it is. *)
Theorem ls_file_size width w path i : w_path w path = Some i → nd_type (w_nodes w !!! i) = T_FILE → stat_ok (w_nodes w !!! i) →
  room 1 w → to_console 1 w → chars path →
  halts (ls_main width [path]) w (Exited 0) (λ w', after w (ls_fmtname path ++ bytes_of " 2 " ++ int_text (nd_ino (w_nodes w !!! i)) 10 true ++ bytes_of " %u\n") w').
Proof.
  intros Hi Hty (_ & S2 & S3) Hroom Hc Hp. destruct (room_free _ _ Hroom) as (fd & Hfd & _). cbn [ls_main ls_all]. apply halts_bind_r.
  kstep. unfold ls. kstep. eapply runs_mono; [by apply (runs_uopen w fd path i)|]. intros r w1 [-> ->]. rewrite (proj2 (Z.ltb_ge _ 0)) by lia.
  kstep. eapply runs_mono; [by apply runs_ufstat|]. intros r w2 [-> ->]. kstep. rewrite Hty. change (T_FILE =? T_FILE) with true. cbn iota.
  assert (0 ≤ alen (nd_data (w_nodes w !!! i))) by (unfold alen; lia). rewrite !i32_small by lia.
  eapply runs_mono; [eapply (runs_printf 1 _ _ _); [by apply reading_console| |]|].
  - apply Forall_cons_2; [by apply chars_fmtname|]. do 3 (apply Forall_cons_2; [unfold varg_ok; change T_FILE with 2; lia|]). constructor.
  - change T_FILE with 2. cbn [render bytes_of]. cbn. reflexivity.
  - intros [] w3 ->%wrote_reading. kstep. eapply runs_mono; [by apply runs_uclose|]. intros r w4 H4. kstep. kstep. split; [done|]. exact H4.
Qed.
