(* ===== verification/UExamples.v ===== *)
(** * A small file tree on which the theorems about user programs apply *)

From S2P Require Import Prelude Memory Riscv Spinlock Core CString Kalloc Vm Sleeplock BufCache Log Sys Fs FsDir Grep User Ulib UPrintf UProgs UText UFind.

Definition ex_raw (s : string) : list Z := bytes_of s ++ replicate (Z.to_nat DIRSIZ - length (bytes_of s)) 0.
Definition ex_slot {B} (inum : Z) (s : string) (b : B) : slot B := (inum, ex_raw s, b).
Definition ex_data : list Z := bytes_of "two words\nhello\n".

(** The current directory has a free slot, a file README and a directory d with one file. *)
Definition ex_root {B} (self readme d : B) : list (slot B) :=
  [ex_slot 1 "." self; ex_slot 1 ".." self; ex_slot 0 "gone" self; ex_slot 2 "README" readme; ex_slot 3 "d" d].
Definition ex_sub {B} (self parent a : B) : list (slot B) := [ex_slot 3 "." self; ex_slot 1 ".." parent; ex_slot 4 "a.c" a].

Definition ex_tree : tree := TDir (ex_root TOther TFile (TDir (ex_sub TOther TOther TFile))).

Definition ex_names : list (list Z * nat) :=
  [(bytes_of ".", 1%nat); (bytes_of "./.", 1%nat); (bytes_of "./..", 1%nat); (bytes_of "./README", 2%nat); (bytes_of "./d", 3%nat);
   (bytes_of "./d/.", 3%nat); (bytes_of "./d/..", 1%nat); (bytes_of "./d/a.c", 4%nat)].
Definition ex_path (path : list Z) : option nat := snd <$> List.find (λ p, bool_decide (p.1 = path)) ex_names.

Definition ex_tree_world : world :=
  World [Node T_DEVICE 5 1 []; Node T_DIR 1 1 (concat (slot_bytes <$> ex_root () () ())); Node T_FILE 2 1 ex_data;
         Node T_DIR 3 1 (concat (slot_bytes <$> ex_sub () () ())); Node T_FILE 4 1 []]
    ex_path [OpenFile (KFile 0) 0] [] (replicate 3 (Some 0%nat) ++ replicate 13 None) [] [] [] [] (λ _, 0).

Lemma ex_tree_console : to_console 1 ex_tree_world.
Proof. exists 0%nat, 0%nat, 0. done. Qed.
Lemma ex_tree_room : room 13 ex_tree_world.
Proof. split; [apply Nat.leb_le; vm_compute; reflexivity|done]. Qed.
Lemma ex_free : free_fd ex_tree_world 3.
Proof. done. Qed.

#[local] Instance is_byte_dec c : Decision (is_byte c).
Proof. unfold is_byte. apply _. Defined.

Definition ex_ok (inum : Z) (s : string) : bool :=
  bool_decide (0 ≤ inum < 2 ^ 16 ∧ length (ex_raw s) = Z.to_nat DIRSIZ ∧ Forall is_byte (ex_raw s) ∧ slash ∉ c_string (ex_raw s)).
Lemma ex_slot_ok {B} inum s (b : B) : ex_ok inum s = true → slot_ok (ex_slot inum s b).
Proof. intros H. exact (bool_decide_eq_true_1 _ H). Qed.

Lemma ex_root_ok {B} (a b c : B) : Forall slot_ok (ex_root a b c).
Proof. repeat (apply Forall_cons_2; [apply ex_slot_ok; vm_compute; reflexivity|]). constructor. Qed.
Lemma ex_sub_ok {B} (a b c : B) : Forall slot_ok (ex_sub a b c).
Proof. repeat (apply Forall_cons_2; [apply ex_slot_ok; vm_compute; reflexivity|]). constructor. Qed.

(** One goal for each slot in use. *)
Ltac each_slot := intros e He He0; unfold ex_root, ex_sub in He; cbn [snd] in He;
  repeat match goal with H : _ ∈ _ :: _ |- _ => apply elem_of_cons in H as [->|H] | H : _ ∈ [] |- _ => by apply not_elem_of_nil in H end;
  try (by destruct He0).

Lemma ex_rep_sub : rep 9 2 (w_nodes ex_tree_world) ex_path (bytes_of "./d") (TDir (ex_sub TOther TOther TFile)).
Proof.
  exists 3%nat. split; [vm_compute; reflexivity|]. split; [reflexivity|]. split; [vm_compute; reflexivity|]. split; [cbn; lia|]. split; [vm_compute; discriminate|]. split; [apply ex_sub_ok|].
  each_slot; (split; [eexists; vm_compute; reflexivity|]); intros [H1 H2]; try (by destruct H1); try (by destruct H2).
  exists 4%nat. split; vm_compute; reflexivity.
Qed.

Lemma ex_rep : rep 9 3 (w_nodes ex_tree_world) ex_path (bytes_of ".") ex_tree.
Proof.
  exists 1%nat. split; [vm_compute; reflexivity|]. split; [reflexivity|]. split; [vm_compute; reflexivity|]. split; [cbn; lia|]. split; [vm_compute; discriminate|]. split; [apply ex_root_ok|].
  each_slot; (split; [eexists; vm_compute; reflexivity|]); intros [H1 H2]; try (by destruct H1); try (by destruct H2).
  - exists 2%nat. split; vm_compute; reflexivity.
  - exact ex_rep_sub.
Qed.

(** find . "c$" *)
Lemma find_correct_witness :
  halts (find_main 9 3 [bytes_of "."; bytes_of "c$"]) ex_tree_world (Exited 0) (λ w', after ex_tree_world (bytes_of "./d/a.c\n") w').
Proof. exact (find_correct 9 3 ex_tree_world (bytes_of ".") (bytes_of "c$") ex_tree ex_rep (conj (Nat.le_trans 4 13 _ ltac:(lia) (proj1 ex_tree_room)) eq_refl) ex_tree_console (bytes_of_chars _)). Defined.

Lemma ex_dir : dir_at 9 ex_tree_world (bytes_of ".", ex_root 1%nat 2%nat 3%nat).
Proof.
  exists 1%nat. split; [vm_compute; reflexivity|]. split; [reflexivity|]. split; [vm_compute; reflexivity|]. split; [cbn; lia|]. split; [vm_compute; discriminate|]. split; [apply ex_root_ok|].
  each_slot; (split; [vm_compute; reflexivity|]); repeat split; vm_compute; reflexivity || discriminate.
Qed.

Lemma ls_correct_witness :
  halts (ls_main 9 [bytes_of "."]) ex_tree_world (Exited 0) (λ w', after ex_tree_world (bytes_of
".              1 1 80
..             1 1 80
README         2 2 16
d              1 3 48
") w').
Proof.
  exact (ls_correct 9 ex_tree_world [(bytes_of ".", ex_root 1%nat 2%nat 3%nat)] ltac:(discriminate)
    (Forall_cons_2 _ _ _ (conj ex_dir (bytes_of_chars _)) (Forall_nil_2 _)) (conj (Nat.le_trans 2 13 _ ltac:(lia) (proj1 ex_tree_room)) eq_refl) ex_tree_console).
Defined.

Lemma ls_file_size_witness :
  halts (ls_main 9 [bytes_of "./README"]) ex_tree_world (Exited 0) (λ w', after ex_tree_world (bytes_of "README         2 2 %u\n") w').
Proof.
  exact (ls_file_size 9 ex_tree_world (bytes_of "./README") 2 ltac:(vm_compute; reflexivity) eq_refl ltac:(repeat split; vm_compute; reflexivity || discriminate)
    (conj (Nat.le_trans 1 13 _ ltac:(lia) (proj1 ex_tree_room)) eq_refl) ex_tree_console (bytes_of_chars _)).
Defined.

Lemma ex_readme : ∃ i, file_at ex_tree_world (bytes_of "./README") i ex_data.
Proof. exists 2%nat. split; [vm_compute; reflexivity|]. split; [discriminate|reflexivity]. Qed.

Lemma cat_correct_witness :
  halts (cat_main 20 [bytes_of "./README"]) ex_tree_world (Exited 0) (λ w', after ex_tree_world (bytes_of "two words\nhello\n") w').
Proof.
  apply (cat_correct ex_tree_world 3 [(bytes_of "./README", ex_data)] 20 ex_free ex_tree_console ltac:(discriminate)).
  apply Forall_cons_2; [split; [exact ex_readme|apply Nat.ltb_lt; reflexivity]|constructor].
Defined.



Lemma echo_correct_witness :
  halts (echo_main [bytes_of "a"; bytes_of "b"]) ex_tree_world (Exited 0) (λ w', wrote ex_tree_world (bytes_of "a b\n") w').
Proof. exact (echo_correct ex_tree_world [bytes_of "a"; bytes_of "b"] ex_tree_console). Defined.
