(* ===== verification/Uthread.v ===== *)
(** * User-level threads (user/uthread.c)

    The thread table and the scheduler.  The exercise is not done in this source: [thread_create] does not keep its function
    and [thread_schedule] does not call [thread_switch], which is a [ret]. *)

From S2P Require Import Prelude Memory Riscv Spinlock Core CString Kalloc Vm Sleeplock BufCache Log Sys Fs User Ulib UPrintf.

Definition T_FREE : Z := 0.
Definition T_RUNNING : Z := 1.
Definition T_RUNNABLE : Z := 2.
Definition MAX_THREAD : Z := 4.

(** The stacks are not used; [th_current] is the index of [current_thread]; flags and counts of the threads a, b and c. *)
Record threads := Threads { th_world : world; th_state : list Z; th_current : Z; th_started : list Z; th_n : list Z }.

Definition set_thstate v s := Threads (th_world s) v (th_current s) (th_started s) (th_n s).
Definition set_thcurrent v s := Threads (th_world s) (th_state s) v (th_started s) (th_n s).
Definition set_thstarted v s := Threads (th_world s) (th_state s) (th_current s) v (th_n s).
Definition set_thn v s := Threads (th_world s) (th_state s) (th_current s) (th_started s) v.

Abbreviation TM := (M threads).
Definition world_of : lens threads world := Lens th_world (λ w s, Threads w (th_state s) (th_current s) (th_started s) (th_n s)).

Definition set_thread (t v : Z) : TM unit :=
  st ← gets th_state;
  if alen st <=? t then stop (Undefined "all_thread") else modify (set_thstate (<[Z.to_nat t := v]> st)).

Definition thread_init : TM unit :=
  modify (set_thcurrent 0);;
  set_thread 0 T_RUNNING.

Definition find_runnable (current : Z) (st : list Z) : M threads (option Z) :=
  t ← loop 5 (λ it : Z * Z, let '(i, t) := it in
    if i <? MAX_THREAD then
      let t := if MAX_THREAD <=? t then 0 else t in
      if aget st t =? T_RUNNABLE then mret (inr (Some t)) else mret (inl (i + 1, t + 1))
    else mret (inr None)) (0, current + 1);
  mret t.

Definition thread_schedule : TM unit :=
  current ← gets th_current;
  st ← gets th_state;
  next ← find_runnable current st;
  match next with
  | None =>
      zoom world_of (printf "thread_schedule: no runnable threads\n" []);;
      zoom world_of (uexit (-1))
  | Some next =>
      when (negb (current =? next)) (
        set_thread next T_RUNNING;;
        modify (set_thcurrent next))
  end.

(** [func] is not used. *)
Definition thread_create (func : TM unit) : TM unit :=
  st ← gets th_state;
  t ← loop 5 (λ t,
    if t <? MAX_THREAD then
      if aget st t =? T_FREE then mret (inr t) else mret (inl (t + 1))
    else mret (inr t)) 0;
  set_thread t T_RUNNABLE.

Definition thread_yield : TM unit :=
  current ← gets th_current;
  set_thread current T_RUNNABLE;;
  thread_schedule.

(** The three threads, which differ in their names, their flags and their counters. *)
Definition thread_body (fuel : nat) (i : nat) (started count exit : string) : TM unit :=
  zoom world_of (printf started []);;
  modify (λ s, set_thstarted (<[i := 1]> (th_started s)) s);;
  loop fuel (λ _,
    fl ← gets th_started;
    if existsb (λ j, negb (j =? i)%nat && (nth j fl 0 =? 0)) [0%nat; 1%nat; 2%nat] then thread_yield;; mret (inl tt)
    else mret (inr tt)) tt;;
  for_range 0 100 (λ k,
    zoom world_of (printf count [VInt k]);;
    modify (λ s, set_thn (<[i := i32 (nth i (th_n s) 0 + 1)]> (th_n s)) s);;
    thread_yield);;
  n ← gets (λ s, nth i (th_n s) 0);
  zoom world_of (printf exit [VInt n]);;
  current ← gets th_current;
  set_thread current T_FREE;;
  thread_schedule.

Definition thread_a (fuel : nat) : TM unit := thread_body fuel 0 "thread_a started\n" "thread_a %d\n" "thread_a: exit after %d\n".
Definition thread_b (fuel : nat) : TM unit := thread_body fuel 1 "thread_b started\n" "thread_b %d\n" "thread_b: exit after %d\n".
Definition thread_c (fuel : nat) : TM unit := thread_body fuel 2 "thread_c started\n" "thread_c %d\n" "thread_c: exit after %d\n".

Definition uthread_main (fuel : nat) : TM unit :=
  modify (set_thstarted [0; 0; 0]);;
  modify (set_thn [0; 0; 0]);;
  thread_init;;
  thread_create (thread_a fuel);;
  thread_create (thread_b fuel);;
  thread_create (thread_c fuel);;
  thread_schedule;;
  zoom world_of (uexit 0).

(** ** The scheduler is round robin *)

(** The first index after [current], going round, whose state is [T_RUNNABLE]. *)
Definition is_next (current : Z) (st : list Z) (t : Z) : Prop :=
  ∃ k, 0 ≤ k < 4 ∧ t = (current + 1 + k) mod 4 ∧ aget st t = T_RUNNABLE ∧ ∀ j, 0 ≤ j < k → aget st ((current + 1 + j) mod 4) ≠ T_RUNNABLE.

Lemma runs_find_runnable current st s : 0 ≤ current < 4 →
  runs (find_runnable current st) s (λ r s', s' = s ∧ match r with Some t => is_next current st t | None => ∀ t, 0 ≤ t < 4 → aget st t ≠ T_RUNNABLE end).
Proof.
  intros Hc. unfold find_runnable. kstep.
  apply (runs_loop_nat _ (λ n it s', s' = s ∧ ∃ i, it.1 = i ∧ 0 ≤ i ≤ 4 ∧ n = Z.to_nat (4 - i) ∧ (if 4 <=? it.2 then 0 else it.2) = (current + 1 + i) mod 4 ∧
    ∀ j, 0 ≤ j < i → aget st ((current + 1 + j) mod 4) ≠ T_RUNNABLE) _ _ 4); [| |lia].
  - intros n [i' t] s' (-> & i & E & Hi & -> & Et & Hno). cbn [fst snd] in E, Et. subst i'. change MAX_THREAD with 4. destruct (Z.ltb_spec i 4).
    + rewrite Et. destruct (Z.eqb_spec (aget st ((current + 1 + i) mod 4)) T_RUNNABLE) as [Er|Er]; kstep.
      * kstep. split; [done|]. exists i. split; [lia|done].
      * exists (Z.to_nat (4 - (i + 1))). split; [lia|]. split; [done|]. exists (i + 1). cbn [fst snd]. split; [done|]. split; [lia|]. split; [done|]. split.
        -- destruct (Z.leb_spec 4 ((current + 1 + i) mod 4 + 1)); dlia.
        -- intros j Hj. destruct (decide (j = i)) as [->|]; [done|]. apply Hno. lia.
    + kstep. kstep. split; [done|]. intros t' Ht'. replace t' with ((current + 1 + (t' - current - 1) mod 4) mod 4) by dlia. apply Hno. dlia.
  - split; [done|]. exists 0. cbn [fst snd]. split; [done|]. split; [lia|]. split; [done|]. split; [|lia]. destruct (Z.leb_spec 4 (current + 1)); dlia.
Qed.

Lemma runs_set_thread t v s : 0 ≤ t < alen (th_state s) → runs (set_thread t v) s (λ _ s', s' = set_thstate (<[Z.to_nat t := v]> (th_state s)) s).
Proof. intros Ht. unfold set_thread. kstep. kstep. rewrite (proj2 (Z.leb_gt _ _)) by lia. kstep. done. Qed.

Lemma runs_tprint fmt ap s txt : to_console 1 (th_world s) → Forall varg_ok ap → render (bytes_of fmt) false ap = Some txt →
  runs (zoom world_of (printf fmt ap)) s (λ _ s', wrote (th_world s) txt (th_world s') ∧ th_state s' = th_state s).
Proof. intros Hc Ha Hr. apply runs_zoom. eapply runs_mono; [by apply (runs_printf 1 fmt ap (th_world s) txt)|]. intros [] w' Hw. by split. Qed.

Definition none_text : list Z := Eval vm_compute in bytes_of "thread_schedule: no runnable threads\n".

(** [thread_schedule] chooses the next runnable thread after the current one, going round the table, makes it the running and the current one and
    changes no other state; if there is none it says so and exits with -1. *)
Theorem thread_schedule_correct s : alen (th_state s) = MAX_THREAD → 0 ≤ th_current s < MAX_THREAD → to_console 1 (th_world s) →
  finishes thread_schedule s
    (λ _ s', ∃ t, is_next (th_current s) (th_state s) t ∧ th_current s' = t ∧ th_world s' = th_world s ∧
      th_state s' = if decide (t = th_current s) then th_state s else <[Z.to_nat t := T_RUNNING]> (th_state s))
    (λ f s', f = Exited (-1) ∧ (∀ t, 0 ≤ t < 4 → aget (th_state s) t ≠ T_RUNNABLE) ∧
      wrote (th_world s) none_text (th_world s') ∧ th_state s' = th_state s).
Proof.
  change MAX_THREAD with 4. intros Hl Hc Hcon. unfold thread_schedule. apply finishes_bind. kstep. apply finishes_bind. kstep.
  apply finishes_bind. eapply runs_mono; [by apply runs_find_runnable|]. intros [t|] s1 [-> Hf].
  - apply finishes_runs. destruct Hf as (k & Hk & Et & Hr & Hno).
    assert (0 ≤ t < 4) as Ht by (rewrite Et; apply Z.mod_pos_bound; lia). unfold when. destruct (Z.eqb_spec (th_current s) t) as [E|E]; cbn [negb].
    + kstep. exists t. split; [by exists k|]. split; [done|]. split; [done|]. by rewrite decide_True.
    + kstep. eapply runs_mono; [apply runs_set_thread; lia|]. intros [] s1 ->. kstep. exists t. split; [by exists k|]. split; [done|]. split; [done|]. by rewrite decide_False.
  - apply finishes_bind. eapply runs_mono; [apply (runs_tprint _ [] s none_text Hcon); [constructor|reflexivity]|].
    intros [] s2 Hs2. done.
Qed.

(** Uthread starts no thread: whatever the state of the process, main prints nothing and exits with 0, with thread 1 as the current one on the stack of
    main and none of the three functions called. *)
Theorem uthread_runs_nothing fuel s : th_state s = [T_FREE; T_FREE; T_FREE; T_FREE] →
  halts (uthread_main fuel) s (Exited 0) (λ s', th_world s' = th_world s ∧ th_current s' = 1 ∧ th_state s' = [T_RUNNING; T_RUNNING; T_RUNNABLE; T_RUNNABLE] ∧
    th_started s' = [0; 0; 0] ∧ th_n s' = [0; 0; 0]).
Proof. destruct s as [w st c fl n]. cbn. intros ->. unfold halts. vm_compute. done. Qed.

(** A fifth thread would be written behind the table. *)
Lemma thread_create_full f s : alen (th_state s) = 4 → (∀ t, 0 ≤ t < 4 → aget (th_state s) t ≠ T_FREE) → halts (thread_create f) s (Undefined "all_thread") (λ _, True).
Proof.
  intros Hl Hf. unfold thread_create. apply halts_bind_r. kstep. apply halts_bind_r.
  apply (runs_loop_nat _ (λ n t s', s' = s ∧ 0 ≤ t ≤ 4 ∧ n = Z.to_nat (4 - t)) _ _ 4); [|done|lia].
  intros n t s' (-> & Ht & ->). change MAX_THREAD with 4. destruct (Z.ltb_spec t 4).
  - rewrite (proj2 (Z.eqb_neq _ _)) by (apply Hf; lia). kstep. exists (Z.to_nat (4 - (t + 1))). split; [lia|]. split; [done|]. lia.
  - kstep. unfold set_thread. apply halts_bind_r. kstep. rewrite (proj2 (Z.leb_le _ _)) by lia. done.
Qed.

Definition ex_threads : threads := Threads ex_world [T_RUNNING; T_FREE; T_RUNNABLE; T_RUNNABLE] 3 [0; 0; 0] [0; 0; 0].
Lemma thread_schedule_correct_witness : finishes thread_schedule ex_threads
    (λ _ s', ∃ t, is_next 3 (th_state ex_threads) t ∧ th_current s' = t ∧ th_world s' = ex_world ∧
      th_state s' = if decide (t = 3) then th_state ex_threads else <[Z.to_nat t := T_RUNNING]> (th_state ex_threads))
    (λ f s', f = Exited (-1) ∧ (∀ t, 0 ≤ t < 4 → aget (th_state ex_threads) t ≠ T_RUNNABLE) ∧
      wrote ex_world none_text (th_world s') ∧ th_state s' = th_state ex_threads).
Proof. apply (thread_schedule_correct ex_threads); [reflexivity|split; [discriminate|reflexivity]|apply ex_console]. Defined.

Lemma uthread_runs_nothing_witness : halts (uthread_main 0) (Threads ex_world [0; 0; 0; 0] 0 [] []) (Exited 0) (λ s', th_world s' = ex_world ∧ th_current s' = 1 ∧
  th_state s' = [T_RUNNING; T_RUNNING; T_RUNNABLE; T_RUNNABLE] ∧ th_started s' = [0; 0; 0] ∧ th_n s' = [0; 0; 0]).
Proof. apply (uthread_runs_nothing 0 (Threads ex_world [0; 0; 0; 0] 0 [] [])). reflexivity. Defined.
