(* ===== verification/Sh.v ===== *)
(** * The shell's parser (user/sh.c)

    The parser works on a buffer with a pointer into it; here the pointer is an index, kept
    in the state, and the buffer the bytes before its NUL.  A word of a command is the pair
    of pointers [argv[i]], [eargv[i]].  Memory for the commands is assumed to be there. *)

From S2P Require Import Prelude.

(** ** Commands *)

Definition word : Type := nat * nat.

Inductive cmd :=
| Exec (argv : list word)
| Redir (c : cmd) (file : word) (mode fd : Z)
| Pipe (left right : cmd)
| List_ (left right : cmd)
| Back (c : cmd).

Definition MAXARGS : Z := 10.
Definition O_RDONLY : Z := 0.
Definition O_WRONLY : Z := 1.
Definition O_CREATE : Z := 512.

(** The characters. *)
Definition whitespace : list Z := [32; 9; 13; 10; 11].
Definition symbols : list Z := [60; 124; 62; 38; 59; 40; 41].
Definition is_ws (c : Z) : bool := bool_decide (c ∈ whitespace).
Definition is_sym (c : Z) : bool := bool_decide (c ∈ symbols).
Definition is_word (c : Z) : bool := negb (is_ws c) && negb (is_sym c).

(** How far [while(s < es && f( *s )) s++] goes. *)
Fixpoint run_len (f : Z → bool) (l : list Z) : nat :=
  match l with
  | a :: l' => if f a then S (run_len f l') else 0
  | [] => 0
  end.

(** ** Termination of the strings

    [nulterminate] stores a NUL at the end of every word. *)
Fixpoint nulterminate (c : cmd) (buf : list Z) : list Z :=
  match c with
  | Exec argv => foldl (λ b '(_, eq), <[eq := 0]> b) buf argv
  | Redir c (_, ef) _ _ => <[ef := 0]> (nulterminate c buf)
  | Pipe l r | List_ l r => nulterminate r (nulterminate l buf)
  | Back c => nulterminate c buf
  end.

(** The C string at [q]. *)
Definition cstr (b : list Z) (q : nat) : list Z := take (run_len (λ c, negb (c =? 0)) (drop q b)) (drop q b).

(** ** The parser *)

Section Sh.
Context (buf : list Z).
Abbreviation P := (M nat).

Definition char_at (s : nat) : Z := nth s buf 0.
Definition skip (f : Z → bool) (s : nat) : nat := (s + run_len f (drop s buf))%nat.

(** [gettoken(ps, es, &q, &eq)]: the token, and the word [q], [eq]. *)
Definition gettoken : P (Z * word) :=
  ps ← gets id;
  let q := skip is_ws ps in
  let c := char_at q in
  let '(ret, eq) :=
    if c =? 0 then (c, q) else
    if bool_decide (c ∈ [124; 40; 41; 59; 38; 60]) then (c, S q) else
    if c =? 62 then
      if char_at (S q) =? 62 then (43, S (S q)) else (c, S q)
    else (97, skip is_word q) in
  modify (λ _, skip is_ws eq);;
  mret (ret, (q, eq)).

Definition peek (toks : list Z) : P bool :=
  modify (skip is_ws);;
  s ← gets id;
  mret (negb (char_at s =? 0) && bool_decide (char_at s ∈ toks)).

Definition parseredirs (c : cmd) : P cmd :=
  loop (S (length buf)) (λ c,
    p ← peek [60; 62];
    if negb p then mret (inr c) else
    '(tok, _) ← gettoken;
    '(t2, w) ← gettoken;
    if negb (t2 =? 97) then panic "missing file for redirection"%string else
    if tok =? 60 then mret (inl (Redir c w O_RDONLY 0)) else
    if tok =? 62 then mret (inl (Redir c w (Z.lor O_WRONLY O_CREATE) 1)) else
    if tok =? 43 then mret (inl (Redir c w (Z.lor O_WRONLY O_CREATE) 1)) else
    mret (inl c)) c.

(** [parseexec] goes on filling the [argv] of its command after redirections
    were wrapped around it: [fill argv] puts the arguments in their place. *)
Fixpoint fill (argv : list word) (c : cmd) : cmd :=
  match c with
  | Redir c w m f => Redir (fill argv c) w m f
  | Exec _ => Exec argv
  | _ => c
  end.

(** The arguments of a simple command. *)
Definition parseargs (ret : cmd) : P (cmd * list word) :=
  loop (S (length buf)) (λ '(ret, argv),
    p ← peek [124; 41; 38; 59];
    if p : bool then mret (inr (ret, argv)) else
    '(tok, w) ← gettoken;
    if tok =? 0 then mret (inr (ret, argv)) else
    if negb (tok =? 97) then panic "syntax"%string else
    let argv := argv ++ [w] in
    if MAXARGS <=? alen argv then panic "too many args"%string else
    ret ← parseredirs ret;
    mret (inl (ret, argv))) (ret, []).

Fixpoint parseline (n : nat) : P cmd :=
  match n with
  | O => stop NoFuel
  | S n =>
      c ← parsepipe n;
      c ← loop (S (length buf)) (λ c,
        p ← peek [38];
        if negb p then mret (inr c) else gettoken;; mret (inl (Back c))) c;
      p ← peek [59];
      if negb p then mret c else
      gettoken;;
      r ← parseline n;
      mret (List_ c r)
  end
with parsepipe (n : nat) : P cmd :=
  match n with
  | O => stop NoFuel
  | S n =>
      c ← parseexec n;
      p ← peek [124];
      if negb p then mret c else
      gettoken;;
      r ← parsepipe n;
      mret (Pipe c r)
  end
with parseexec (n : nat) : P cmd :=
  match n with
  | O => stop NoFuel
  | S n =>
      p ← peek [40];
      if p : bool then parseblock n else
      ret ← parseredirs (Exec []);
      '(ret, argv) ← parseargs ret;
      mret (fill argv ret)
  end
with parseblock (n : nat) : P cmd :=
  match n with
  | O => stop NoFuel
  | S n =>
      p ← peek [40];
      if negb p then panic "parseblock"%string else
      gettoken;;
      c ← parseline n;
      p ← peek [41];
      if negb p then panic "syntax - missing )"%string else
      gettoken;;
      parseredirs c
  end.

(** [es] is the end of the buffer; the recursion is no deeper than four calls per
    character. *)
Definition parse_fuel : nat := 4 * length buf + 4.

(** The command, and the buffer after [nulterminate]. *)
Definition parsecmd : P (cmd * list Z) :=
  c ← parseline parse_fuel;
  peek [];;
  s ← gets id;
  if negb (bool_decide (s = length buf)) then panic "syntax"%string else
  mret (c, nulterminate c (buf ++ [0])).
End Sh.

(** * The shell's parser: it always ends, and reads back printed commands

    About user/sh.c. *)

(** [m] returns in a state satisfying [Q], or reports an error: it does not run out of
    fuel. *)
Definition ends {X A} (m : M X A) (x : X) (Q : A → X → Prop) : Prop :=
  match m x with
  | Ret a x' => Q a x'
  | Stop f _ => ∃ msg, f = Panic msg
  end.

Lemma ends_runs {X A} (m : M X A) x Q : runs m x Q → ends m x Q.
Proof. unfold runs, ends. by destruct (m x). Qed.
Lemma ends_mono {X A} (m : M X A) x (Q Q' : A → X → Prop) : ends m x Q → (∀ a x', Q a x' → Q' a x') → ends m x Q'.
Proof. unfold ends. destruct (m x); naive_solver. Qed.
Lemma ends_bind {X A B} (m : M X A) (k : A → M X B) x Q : ends m x (λ a x', ends (k a) x' Q) → ends (m ≫= k) x Q.
Proof. unfold ends, mbind, M_bind. destruct (m x); naive_solver. Qed.
Lemma ends_panic {X A} msg (x : X) (Q : A → X → Prop) : ends (panic msg) x Q.
Proof. by exists msg. Qed.
Lemma ends_ret {X A} (a : A) (x : X) (Q : A → X → Prop) : Q a x → ends (mret a) x Q.
Proof. done. Qed.

Lemma ends_loop {X A R} (body : A → M X (A + R)) (I : A → X → Prop) (meas : A → X → nat) (Q : R → X → Prop) fuel a x :
  (∀ a x, I a x → ends (body a) x (λ r x', match r with inl a' => I a' x' ∧ (meas a' x' < meas a x)%nat | inr r => Q r x' end)) →
  I a x → (meas a x < fuel)%nat → ends (loop fuel body a) x Q.
Proof.
  intros Hb. revert a x. induction fuel as [|fuel IH]; intros a x HI Hm; [lia|]. cbn [loop]. apply ends_bind.
  eapply ends_mono; [by apply Hb|]. intros [a'|r] x'; [|done]. intros [HI' Hlt]. apply IH; [done|lia].
Qed.

Lemma run_len_le f l : (run_len f l ≤ length l)%nat.
Proof. induction l as [|a l IH]; cbn; [lia|]. destruct (f a); lia. Qed.
Lemma run_len_stop f l : run_len f l = length l ∨ f (nth (run_len f l) l 0) = false ∧ (run_len f l < length l)%nat.
Proof. induction l as [|a l IH]; cbn; [by left|]. destruct (f a) eqn:E; [destruct IH as [|[? ?]]; [left; lia|right; split; [done|lia]]|right; split; [done|lia]]. Qed.

(** The words of a command. *)
Fixpoint words (c : cmd) : list word :=
  match c with
  | Exec argv => argv
  | Redir c w _ _ => words c ++ [w]
  | Pipe l r | List_ l r => words l ++ words r
  | Back c => words c
  end.

(** Redirections as [parseredirs] makes them. *)
Fixpoint redirs_ok (c : cmd) : Prop :=
  match c with
  | Exec _ => True
  | Redir c _ m fd => (fd = 0 ∧ m = O_RDONLY ∨ fd = 1 ∧ m = Z.lor O_WRONLY O_CREATE) ∧ redirs_ok c
  | Pipe l r | List_ l r => redirs_ok l ∧ redirs_ok r
  | Back c => redirs_ok c
  end.

Lemma redirs_fill argv c : redirs_ok c → redirs_ok (fill argv c).
Proof. induction c; cbn; tauto. Qed.

Lemma words_fill argv c w : w ∈ words (fill argv c) → w ∈ words c ∨ w ∈ argv.
Proof. induction c; cbn; rewrite ?elem_of_app; tauto. Qed.

(** The characters of a word. *)
Definition slice (b : list Z) (w : word) : list Z := take (w.2 - w.1) (drop w.1 b).

Section Ends.
Context (buf : list Z).
Abbreviation len := (length buf).

(** A maximal run of word characters. *)
Definition word_at (w : word) : Prop :=
  (w.1 < w.2 ≤ len)%nat ∧ (∀ j, (w.1 ≤ j < w.2)%nat → is_word (char_at buf j) = true) ∧
  (w.2 = len ∨ is_word (char_at buf w.2) = false).

Lemma skip_le f s : (s ≤ len)%nat → (s ≤ skip buf f s ≤ len)%nat.
Proof. intros Hs. unfold skip. pose proof (run_len_le f (drop s buf)) as H. rewrite length_drop in H. lia. Qed.

Lemma char_at_drop s k : char_at buf (s + k) = nth k (drop s buf) 0.
Proof. unfold char_at. by rewrite nth_skipn. Qed.

Lemma char_at_end s : (len ≤ s)%nat → char_at buf s = 0.
Proof. apply nth_overflow. Qed.

Lemma char_at_lt s : char_at buf s ≠ 0 → (s < len)%nat.
Proof. intros Hc. destruct (decide (s < len)%nat); [done|]. destruct Hc. apply char_at_end. lia. Qed.

(** No whitespace where [skip] stops. *)
Lemma skip_stop f s : char_at buf (skip buf f s) = 0 ∨ f (char_at buf (skip buf f s)) = false.
Proof. unfold skip. rewrite char_at_drop. destruct (run_len_stop f (drop s buf)) as [E|[? _]]; [left; apply nth_overflow; lia|by right]. Qed.

Lemma skip_pos f s : f (char_at buf s) = true → char_at buf s ≠ 0 → (s < skip buf f s)%nat.
Proof.
  intros Hf Hc. apply char_at_lt in Hc as Hlt. unfold skip, char_at in *. destruct (drop s buf) as [|a l] eqn:E.
  { apply (f_equal length) in E. rewrite length_drop in E. cbn in E. lia. }
  assert (nth s buf 0 = a) as Ea by (pose proof (char_at_drop s 0) as H; rewrite E, Nat.add_0_r in H; exact H).
  cbn. rewrite <- Ea, Hf. lia.
Qed.

Lemma runs_peek toks s : (s ≤ len)%nat →
  runs (peek buf toks) s (λ b s', s' = skip buf is_ws s ∧ (s ≤ s' ≤ len)%nat ∧ (b = true → (s' < len)%nat ∧ char_at buf s' ≠ 0 ∧ char_at buf s' ∈ toks)).
Proof.
  intros Hs. unfold peek. kstep. kstep. kstep. kstep. set (s' := skip buf is_ws s). pose proof (skip_le is_ws s Hs).
  split; [done|]. split; [done|]. intros Hb. apply andb_true_iff in Hb as [H1 H2]. zify_bool. split; [|done]. by apply char_at_lt.
Qed.

Lemma run_len_all f l j : (j < run_len f l)%nat → f (nth j l 0) = true.
Proof. revert j. induction l as [|a l IH]; intros j; cbn; [lia|]. destruct (f a) eqn:E; [|lia]. destruct j; [done|]. intros H. apply IH. lia. Qed.

Lemma skip_word q : (q < skip buf is_word q)%nat → word_at (q, skip buf is_word q).
Proof.
  intros Hq. unfold word_at, skip in *. cbn. pose proof (run_len_le is_word (drop q buf)) as Hle. rewrite length_drop in Hle. split_and!; [lia|lia|..].
  - intros j Hj. replace j with (q + (j - q))%nat by lia. rewrite char_at_drop. apply run_len_all. lia.
  - rewrite char_at_drop. destruct (run_len_stop is_word (drop q buf)) as [E|[E _]]; [left; rewrite length_drop in E; lia|by right].
Qed.

(** A token that is not the end moves the pointer; a word is maximal. *)
Lemma runs_gettoken s : (s ≤ len)%nat →
  runs (gettoken buf) s (λ '(tok, w) s', (s ≤ s' ≤ len)%nat ∧ (tok = 0 ∨ (s < s')%nat) ∧ (char_at buf (skip buf is_ws s) ≠ 0 → (s < s')%nat) ∧ (tok = 97 → word_at w)).
Proof.
  intros Hs. unfold gettoken. kstep. kstep. unfold id. set (q := skip buf is_ws s). pose proof (skip_le is_ws s Hs) as Hq. fold q in Hq.
  assert (Hend : char_at buf q = 0 → (s ≤ skip buf is_ws q ≤ len)%nat ∧ (char_at buf q = 0 ∨ (s < skip buf is_ws q)%nat) ∧ (char_at buf q ≠ 0 → (s < skip buf is_ws q)%nat) ∧ (char_at buf q = 97 → word_at (q, q))).
  { intros H0. pose proof (skip_le is_ws q ltac:(lia)). split_and!; [lia|lia|by left|done|by rewrite H0]. }
  destruct (skip_stop is_ws s) as [H0|Hws]; fold q in H0 || fold q in Hws.
  { rewrite H0 in *. cbn [Z.eqb]. kstep. kstep. kstep. by apply Hend. }
  destruct (Z.eqb_spec (char_at buf q) 0) as [H0|H0]; [kstep; kstep; kstep; by apply Hend|].
  pose proof (char_at_lt q H0) as Hlt.
  assert (Hfin : ∀ eq tok, (q < eq ≤ len)%nat → (tok = 97 → word_at (q, eq)) →
    (s ≤ skip buf is_ws eq ≤ len)%nat ∧ (tok = 0 ∨ (s < skip buf is_ws eq)%nat) ∧ (char_at buf q ≠ 0 → (s < skip buf is_ws eq)%nat) ∧ (tok = 97 → word_at (q, eq))).
  { intros eq tok He Hw. pose proof (skip_le is_ws eq ltac:(lia)). split_and!; [lia|lia|right; lia|lia|done]. }
  case_bool_decide as Hsym; [kstep; kstep; kstep; apply Hfin; [lia|intros E; rewrite E, !elem_of_cons, elem_of_nil in Hsym; lia]|].
  destruct (Z.eqb_spec (char_at buf q) 62) as [E|E].
  - destruct (Z.eqb_spec (char_at buf (S q)) 62) as [E2|E2]; kstep; kstep; kstep; apply Hfin; [|done|lia|by rewrite E].
    pose proof (char_at_lt (S q) ltac:(by rewrite E2)). lia.
  - kstep. kstep. kstep. pose proof (skip_le is_word q ltac:(lia)). assert (q < skip buf is_word q)%nat; [|apply Hfin; [lia|intros _; by apply skip_word]].
    apply skip_pos; [|done]. unfold is_word. rewrite Hws. cbn. apply negb_true_iff, bool_decide_eq_false_2. unfold symbols. clear - Hsym E. rewrite !elem_of_cons, elem_of_nil in *. tauto.
Qed.

(** ** Termination

    Every function ends at a later position, and the words of the commands it makes
    are maximal. *)

Definition words_at (c : cmd) : Prop := redirs_ok c ∧ ∀ w, w ∈ words c → word_at w.
Definition on (s : nat) (c : cmd) (s' : nat) : Prop := (s ≤ s' ≤ len)%nat ∧ words_at c.

(** [peek] and then the token it saw. *)
Lemma ends_peek {A} toks s (k : bool → M nat A) Q : (s ≤ len)%nat →
  (∀ s', (s ≤ s' ≤ len)%nat → ends (k false) s' Q) →
  (∀ s', (s ≤ s' < len)%nat → char_at buf s' ≠ 0 → skip buf is_ws s' = s' → ends (k true) s' Q) →
  ends (b ← peek buf toks; k b) s Q.
Proof.
  intros Hs Hf Ht. apply ends_bind, ends_runs. eapply runs_mono; [by apply runs_peek|]. intros [] s' (-> & Hr & Hb); [|by apply Hf].
  destruct (Hb eq_refl) as (Hlt & H0 & _). apply Ht; [lia|done|]. destruct (skip_stop is_ws s) as [E|E]; [done|].
  unfold skip at 1. destruct (drop (skip buf is_ws s) buf) as [|a l] eqn:Ed; [cbn; lia|].
  assert (char_at buf (skip buf is_ws s) = a) as Ea by (pose proof (char_at_drop (skip buf is_ws s) 0) as H; rewrite Ed, Nat.add_0_r in H; exact H).
  cbn. rewrite <- Ea, E. lia.
Qed.

(** The token [peek] saw. *)
Lemma ends_token {A} s (k : Z * word → M nat A) Q : (s ≤ len)%nat → char_at buf s ≠ 0 → skip buf is_ws s = s →
  (∀ tw s', (s < s' ≤ len)%nat → ends (k tw) s' Q) → ends (tw ← gettoken buf; k tw) s Q.
Proof.
  intros Hs H0 E HQ. apply ends_bind, ends_runs. eapply runs_mono; [by apply runs_gettoken|]. intros [tok w] s' (H & _ & H2 & _). rewrite E in H2. specialize (H2 H0). apply HQ. lia.
Qed.

Lemma ends_parseredirs c s : (s ≤ len)%nat → words_at c → ends (parseredirs buf c) s (on s).
Proof.
  intros Hs Hc. unfold parseredirs. apply (ends_loop _ (λ c s', on s c s') (λ _ s', (len - s')%nat)); [|split; [lia|done]|lia].
  clear c Hc. intros c s1 [Hs1 Hc]. apply ends_peek; [lia|intros s2 Hs2; split; [lia|done]|]. intros s2 Hs2 H0 Esk. cbn [negb].
  apply ends_token; [lia|done..|]. intros [tok w] s3 Hs3. cbv beta iota.
  apply ends_bind, ends_runs. eapply runs_mono; [apply runs_gettoken; lia|]. intros [t2 w2] s4 (Hs4 & _ & _ & Hw). cbv beta iota.
  destruct (Z.eqb_spec t2 97) as [->|]; [|apply ends_panic]. cbn [negb].
  assert (Hadd : ∀ m f, f = 0 ∧ m = O_RDONLY ∨ f = 1 ∧ m = Z.lor O_WRONLY O_CREATE → words_at (Redir c w2 m f)).
  { intros m f Hm. split; [split; [done|apply Hc]|]. intros w' [?|Hin%list_elem_of_singleton]%elem_of_app; [by apply Hc|subst; by apply Hw]. }
  repeat case_match; apply ends_ret; (split; [split; [lia|first [by apply Hadd; auto|done]]|lia]).
Qed.

Lemma ends_parseargs c s : (s ≤ len)%nat → words_at c →
  ends (parseargs buf c) s (λ '(c1, argv) s', (s ≤ s' ≤ len)%nat ∧ words_at c1 ∧ ∀ w, w ∈ argv → word_at w).
Proof.
  intros Hs Hc. unfold parseargs. apply (ends_loop _ (λ '(c1, argv) s', (s ≤ s' ≤ len)%nat ∧ words_at c1 ∧ ∀ w, w ∈ argv → word_at w) (λ _ s', (len - s')%nat)); [|split_and!; [lia|lia|done|set_solver]|lia].
  intros [c1 argv] s3 (Hs3 & Hc1 & Ha). apply ends_peek; [lia| |intros s4 Hs4 _ _; apply ends_ret; split; [lia|done]].
  intros s4 Hs4. apply ends_bind, ends_runs. eapply runs_mono; [apply runs_gettoken; lia|]. intros [tok w] s5 (Hs5 & Htok & _ & Hw).
  destruct (Z.eqb_spec tok 0) as [->|Hne]; [apply ends_ret; split; [lia|done]|]. destruct Htok as [|Htok]; [done|].
  destruct (Z.eqb_spec tok 97) as [->|]; [|apply ends_panic]. cbn [negb]. destruct (MAXARGS <=? _); [apply ends_panic|].
  apply ends_bind. eapply ends_mono; [apply ends_parseredirs; [lia|done]|]. intros c2 s6 [Hs6 Hc2]. apply ends_ret. split_and!; [lia|lia|done| |lia].
  intros w' [?|Hin%list_elem_of_singleton]%elem_of_app; [by apply Ha|subst; by apply Hw].
Qed.

Lemma words_at_two l r : words_at l → words_at r → words_at (Pipe l r) ∧ words_at (List_ l r).
Proof. intros [? Hl] [? Hr]. split; (split; [done|]); intros w [?|?]%elem_of_app; auto. Qed.

Lemma ends_parse n :
  (∀ s, (s ≤ len)%nat → (4 * (len - s) + 4 ≤ n)%nat → ends (parseline buf n) s (on s)) ∧
  (∀ s, (s ≤ len)%nat → (4 * (len - s) + 3 ≤ n)%nat → ends (parsepipe buf n) s (on s)) ∧
  (∀ s, (s ≤ len)%nat → (4 * (len - s) + 2 ≤ n)%nat → ends (parseexec buf n) s (on s)) ∧
  (∀ s, (s ≤ len)%nat → (4 * (len - s) + 1 ≤ n)%nat → ends (parseblock buf n) s (on s)).
Proof.
  induction n as [|n (IHl & IHp & IHe & IHb)]; [split_and!; intros; lia|]. split_and!; intros s Hs Hn; cbn [parseline parsepipe parseexec parseblock].
  - apply ends_bind. eapply ends_mono; [apply IHp; lia|]. intros c s1 [Hs1 Hc]. apply ends_bind.
    eapply (ends_mono _ _ (on s1)).
    { apply (ends_loop _ (λ c s', on s1 c s') (λ _ s', (len - s')%nat)); [|split; [lia|done]|lia].
      intros c1 s2 [Hs2 Hc1]. apply ends_peek; [lia|intros s3 Hs3; split; [lia|done]|]. intros s3 Hs3 H0 Esk. cbn [negb].
      apply ends_token; [lia|done..|]. intros _ s4 Hs4. apply ends_ret. split; [split; [lia|done]|lia]. }
    intros c1 s2 [Hs2 Hc1]. apply ends_peek; [lia|intros s3 Hs3; split; [lia|done]|]. intros s3 Hs3 H0 Esk. cbn [negb].
    apply ends_token; [lia|done..|]. intros _ s4 Hs4. apply ends_bind. eapply ends_mono; [apply IHl; lia|]. intros r s5 [Hs5 Hr]. apply ends_ret. split; [lia|by apply words_at_two].
  - apply ends_bind. eapply ends_mono; [apply IHe; lia|]. intros c s1 [Hs1 Hc].
    apply ends_peek; [lia|intros s3 Hs3; split; [lia|done]|]. intros s3 Hs3 H0 Esk. cbn [negb].
    apply ends_token; [lia|done..|]. intros _ s4 Hs4. apply ends_bind. eapply ends_mono; [apply IHp; lia|]. intros r s5 [Hs5 Hr]. apply ends_ret. split; [lia|by apply words_at_two].
  - apply ends_peek; [lia| |intros s1 Hs1 H0 _; eapply ends_mono; [apply IHb; lia|intros c s2 [? ?]; split; [lia|done]]].
    intros s1 Hs1. apply ends_bind. eapply ends_mono; [apply ends_parseredirs; [lia|by split; [|intros w ?%elem_of_nil]]|]. intros c s2 [Hs2 Hc]. apply ends_bind.
    eapply ends_mono; [by apply ends_parseargs; [lia|]|]. intros [c1 argv] s3 (Hs3 & Hc1 & Ha). apply ends_ret. split; [lia|]. destruct Hc1. split; [by apply redirs_fill|]. intros w [?|?]%words_fill; auto.
  - apply ends_peek; [lia|intros; apply ends_panic|]. intros s1 Hs1 H0 Esk. cbn [negb].
    apply ends_token; [lia|done..|]. intros _ s2 Hs2. apply ends_bind. eapply ends_mono; [apply IHl; lia|]. intros c s3 [Hs3 Hc].
    apply ends_peek; [lia|intros; apply ends_panic|]. intros s4 Hs4 H1 Esk1. cbn [negb].
    apply ends_token; [lia|done..|]. intros _ s5 Hs5. eapply ends_mono; [apply ends_parseredirs; [lia|done]|]. intros c1 s6 [Hs6 Hc1]. split; [lia|done].
Qed.

(** ** Strings *)

(** [b'] is [b] with zeros at the positions [es]. *)
Definition nulled (b b' : list Z) (es : list nat) : Prop :=
  length b' = length b ∧ ∀ j, nth j b' 0 = if decide (j ∈ es) then 0 else nth j b 0.

Lemma nulled_app b b1 b2 es1 es2 : nulled b b1 es1 → nulled b1 b2 es2 → nulled b b2 (es1 ++ es2).
Proof.
  intros [L1 H1] [L2 H2]. split; [congruence|]. intros j. rewrite H2, H1.
  destruct (decide (j ∈ es2)), (decide (j ∈ es1)), (decide (j ∈ es1 ++ es2)) as [Hin|Hni]; try done; set_solver.
Qed.

Lemma nulled_one b e : nulled b (<[e := 0]> b) [e].
Proof.
  split; [apply length_insert|]. intros j. rewrite !nth_lookup. destruct (decide (j ∈ [e])) as [->%list_elem_of_singleton|Hne].
  - destruct (decide (e < length b)%nat); [by rewrite list_lookup_insert_eq|]. rewrite list_insert_ge, lookup_ge_None_2 by lia. done.
  - rewrite list_lookup_insert_ne; [done|]. intros <-. by apply Hne, list_elem_of_singleton.
Qed.

Lemma nulterminate_nulled c b : nulled b (nulterminate c b) ((words c).*2).
Proof.
  revert b. induction c as [argv|c IH [q e] m f|l IHl r IHr|l IHl r IHr|c IH]; intros b; cbn [nulterminate words]; rewrite ?fmap_app.
  - revert b. induction argv as [|[q e] argv IH]; intros b; cbn; [split; [done|]; intros j; by rewrite decide_False by set_solver|].
    apply (nulled_app _ (<[e := 0]> b) _ [e]); [apply nulled_one|apply IH].
  - eapply nulled_app; [apply IH|apply nulled_one].
  - eapply nulled_app; [apply IHl|apply IHr].
  - eapply nulled_app; [apply IHl|apply IHr].
  - apply IH.
Qed.

Lemma run_len_nul b q n : (q + n < length b)%nat → nth (q + n) b 0 = 0 → (∀ j, (q ≤ j < q + n)%nat → nth j b 0 ≠ 0) → run_len (λ c, negb (c =? 0)) (drop q b) = n.
Proof.
  revert q. induction n as [|n IH]; intros q Hl H0 Hb; (rewrite (drop_S _ (nth q b 0)); [cbn|destruct (nth_lookup_or_length b q 0); [done|lia]]).
  - rewrite Nat.add_0_r in H0. by rewrite H0.
  - destruct (Z.eqb_spec (nth q b 0) 0) as [E|_]; [by destruct (Hb q ltac:(lia))|]. cbn. f_equal. apply IH; [lia|by rewrite <- H0; f_equal; lia|]. intros j Hj. apply Hb. lia.
Qed.

(** After [nulterminate] the C string of every word is the word. *)
Lemma cstr_words c w : 0 ∉ buf → words_at c → w ∈ words c → cstr (nulterminate c (buf ++ [0])) w.1 = slice buf w.
Proof.
  intros Hnz Hc Hw. destruct (nulterminate_nulled c (buf ++ [0])) as [Hl Hn]. set (b := nulterminate c (buf ++ [0])) in *. rewrite length_app in Hl. cbn in Hl.
  destruct Hc as [_ Hc]. destruct (Hc w Hw) as (Hr & Hin & _). destruct w as [q e]. cbn in *.
  assert (Hkeep : ∀ j, (q ≤ j < e)%nat → nth j b 0 = nth j buf 0 ∧ nth j buf 0 ≠ 0).
  { intros j Hj. rewrite Hn. rewrite app_nth1 by lia. split.
    - rewrite decide_False; [done|]. intros ([q' e'] & -> & Hw')%list_elem_of_fmap. destruct (Hc _ Hw') as (_ & _ & He). cbn in *.
      destruct He as [->|He]; [lia|]. rewrite Hin in He by done. done.
    - intros E. apply Hnz. rewrite <- E. apply list_elem_of_In, nth_In. lia. }
  assert (Hend : nth e b 0 = 0).
  { rewrite Hn, decide_True; [done|]. apply list_elem_of_fmap. by exists (q, e). }
  unfold cstr, slice. cbn. assert (run_len (λ c, negb (c =? 0)) (drop q b) = (e - q)%nat) as ->.
  { apply (run_len_nul _ _ (e - q)); [lia|by replace (q + (e - q))%nat with e by lia|]. intros j Hj. destruct (Hkeep j ltac:(lia)) as [-> ?]. done. }
  apply (nth_ext _ _ 0 0); [rewrite !length_take, !length_drop; lia|]. intros j Hj. rewrite length_take, length_drop in Hj.
  rewrite !nth_firstn, !nth_skipn. destruct (Nat.ltb_spec j (e - q)); [apply Hkeep; lia|done].
Qed.

(** C40: on every line (its bytes before the NUL) the shell's parser ends, with a
    command or with one of its error messages; the recursion is never deeper than four calls per
    character.  A command it returns uses up the whole line, its words are maximal runs of
    word characters, and after [nulterminate] the C string that starts at a word is that
    word. *)
Theorem parsecmd_total : 0 ∉ buf → ends (parsecmd buf) 0%nat (λ '(c, b) s, s = len ∧ ∀ w, w ∈ words c → word_at w ∧ cstr b w.1 = slice buf w).
Proof.
  intros Hnz. unfold parsecmd, parse_fuel. apply ends_bind. eapply ends_mono; [apply ends_parse; lia|]. intros c s [Hs Hc].
  apply ends_peek; [lia|..]; intros; apply ends_bind, ends_runs; apply runs_gets; unfold id; case_bool_decide; cbn [negb]; first [apply ends_panic|apply ends_ret].
  all: split; [done|]; intros w Hw; split; [by apply Hc|by apply cstr_words].
Qed.
End Ends.

(** The line [ls | wc > f]. *)
Definition ex_line : list Z := [108; 115; 32; 124; 32; 119; 99; 32; 62; 32; 102].
Lemma parsecmd_total_witness : ends (parsecmd ex_line) 0%nat (λ '(c, b) s, s = length ex_line ∧ ∀ w, w ∈ words c → word_at ex_line w ∧ cstr b w.1 = slice ex_line w).
Proof. apply parsecmd_total. apply (bool_decide_eq_false_1 (0 ∈ ex_line)). reflexivity. Defined.
