(* ===== verification/ShPrint.v ===== *)
(** * The shell's parser reads back printed commands

    Commands as the user means them, their text, and that [parsecmd] of user/sh.c
    turns the text into the command: precedence of [|], [&] and [;], blocks in
    parentheses, redirections and the limit on arguments are as the printer
    assumes. *)

From S2P Require Import Prelude Sh.

(** ** Commands and their text *)

Inductive acmd :=
| AExec (argv : list (list Z))
| ARedir (c : acmd) (file : list Z) (out : bool)
| APipe (l r : acmd)
| AList (l r : acmd)
| ABack (c : acmd).

(** A word the shell can take as an argument. *)
Definition aword (w : list Z) : Prop := w ≠ [] ∧ ∀ c, c ∈ w → is_word c = true ∧ c ≠ 0.

Fixpoint aok (c : acmd) : Prop :=
  match c with
  | AExec argv => alen argv < MAXARGS ∧ ∀ w, w ∈ argv → aword w
  | ARedir c f _ => aok c ∧ aword f
  | APipe l r | AList l r => aok l ∧ aok r
  | ABack c => aok c
  end.

Definition sp : Z := 32.
Definition word_text (w : list Z) : list Z := w ++ [sp].
Definition redir_text (r : list Z * bool) : list Z := [if r.2 then 62 else 60; sp] ++ word_text r.1.
Definition paren (b : bool) (t : list Z) : list Z := if b then [40; sp] ++ t ++ [41; sp] else t.

(** The text of a command: in a line (level 0), before a [&] (1), after a [|] (2), before
    a [|] or a redirection (3). *)
Fixpoint text (lv : Z) (c : acmd) : list Z :=
  match c with
  | AExec argv => concat (word_text <$> argv)
  | ARedir c f o => text 3 c ++ redir_text (f, o)
  | APipe l r => paren (2 <? lv) (text 3 l ++ [124; sp] ++ text 2 r)
  | AList l r => paren (0 <? lv) (text 1 l ++ [59; sp] ++ text 0 r)
  | ABack c => paren (1 <? lv) (text 1 c ++ [38; sp])
  end.

(** The command a parsed command stands for: words by what [str] reads at them. *)
Fixpoint meaning (str : word → list Z) (c : cmd) : acmd :=
  match c with
  | Exec argv => AExec (str <$> argv)
  | Redir c w _ fd => ARedir (meaning str c) (str w) (fd =? 1)
  | Pipe l r => APipe (meaning str l) (meaning str r)
  | List_ l r => AList (meaning str l) (meaning str r)
  | Back c => ABack (meaning str c)
  end.

Lemma meaning_ext f g c : (∀ w, w ∈ words c → f w = g w) → meaning f c = meaning g c.
Proof.
  induction c as [argv|c IH w m fd|l IHl r IHr|l IHl r IHr|c IH]; cbn; intros H; f_equal; try (apply IH || apply IHl || apply IHr; intros w' Hw'; apply H; set_solver); [|apply H; set_solver].
  apply list_fmap_ext. intros i w Hw. apply H. by eapply list_elem_of_lookup_2.
Qed.

(** ** Redirections and backgrounds around a command *)

Definition wraps (rs : list (list Z * bool)) (c : acmd) : acmd := foldl (λ c r, ARedir c r.1 r.2) c rs.
Definition backs (k : nat) (c : acmd) : acmd := Nat.iter k ABack c.

Definition plain (c : acmd) : bool := match c with ARedir _ _ _ => false | _ => true end.

Lemma unwrap c : ∃ rs b, c = wraps rs b ∧ plain b = true ∧ text 3 c = text 3 b ++ concat (redir_text <$> rs) ∧ (aok c → aok b ∧ ∀ r, r ∈ rs → aword r.1).
Proof.
  induction c as [argv|c IH f o| | |].
  2:{ destruct IH as (rs & b & -> & Hb & E & Hok). exists (rs ++ [(f, o)]), b. split_and!; [unfold wraps; by rewrite foldl_app|done| |].
      - cbn. rewrite E, fmap_app, concat_app, <- !app_assoc. cbn. by rewrite app_nil_r.
      - cbn. intros [H1 H2]. destruct (Hok H1) as [? H3]. split; [done|]. intros r [Hr|Hr%list_elem_of_singleton]%elem_of_app; [by apply H3|by subst]. }
  all: eexists [], _; split_and!; [done|done|by rewrite app_nil_r|]; intros H; (split; [done|set_solver]).
Qed.

Definition isback (c : acmd) : bool := match c with ABack _ => true | _ => false end.

Lemma unback c : ∃ k b, c = backs k b ∧ isback b = false ∧ text 1 c = text 2 b ++ concat (replicate k [38; sp]) ∧ (aok c → aok b).
Proof.
  induction c as [argv|c IH f o|l IHl r IHr|l IHl r IHr|c IH].
  5:{ destruct IH as (k & b & -> & Hb & E & Hok). exists (S k), b. split_and!; [done|done| |done]. change (text 1 (ABack (backs k b))) with (text 1 (backs k b) ++ [38; sp]).
      rewrite E, <- app_assoc. f_equal. rewrite replicate_S_end, concat_app. cbn. done. }
  all: eexists 0%nat, _; split_and!; [done|done|by rewrite app_nil_r|done].
Qed.

(** ** The text that is left *)

Definition tidy (t : list Z) : Prop := match t with [] => True | c :: _ => is_ws c = false end.

Lemma tidy_run t : tidy t → run_len is_ws t = 0%nat.
Proof. destruct t as [|c t]; [done|]. cbn. by intros ->. Qed.

(** [t] is empty or goes on with one of [cs]. *)
Definition fol (cs : list Z) (t : list Z) : Prop := match t with [] => True | c :: _ => c ∈ cs end.
Definition stops_exec : list Z := [124; 41; 38; 59].

Lemma fol_tidy cs t : (∀ c, c ∈ cs → c ∈ stops_exec) → fol cs t → tidy t.
Proof. destruct t as [|c t]; [done|]. intros H Hc. apply H in Hc. cbn. unfold stops_exec in Hc. rewrite !elem_of_cons, elem_of_nil in Hc. by destruct Hc as [->|[->|[->|[->|[]]]]]. Qed.

Section Read.
Context (buf : list Z) (Hnz : 0 ∉ buf).
Abbreviation len := (length buf).
Abbreviation mean := (meaning (slice buf)).

(** From text [t], [m] returns with [Q] of its result and of the text that is left. *)
Definition reads {A} (m : M nat A) (t : list Z) (Q : A → list Z → Prop) : Prop :=
  ∀ s, (s ≤ len)%nat → drop s buf = t → runs m s (λ a s', (s' ≤ len)%nat ∧ Q a (drop s' buf)).

Lemma reads_ret {A} (a : A) t (Q : A → list Z → Prop) : Q a t → reads (mret a) t Q.
Proof. intros HQ s Hs Et. apply runs_ret. by rewrite Et. Qed.
Lemma reads_bind {A B} (m : M nat A) (k : A → M nat B) t P Q : reads m t P → (∀ a t', P a t' → reads (k a) t' Q) → reads (m ≫= k) t Q.
Proof. intros Hm Hk s Hs Et. apply runs_bind. eapply runs_mono; [by apply Hm|]. intros a s' [Hs' HP]. by apply (Hk a _ HP). Qed.
Lemma reads_mono {A} (m : M nat A) t (P Q : A → list Z → Prop) : reads m t P → (∀ a t', P a t' → Q a t') → reads m t Q.
Proof. intros Hm HPQ s Hs Et. eapply runs_mono; [by apply Hm|]. intros a s' [? ?]. auto. Qed.
Lemma reads_loop {A R} (body : A → M nat (A + R)) (I : A → list Z → Prop) (Q : R → list Z → Prop) a t :
  (∀ a t, I a t → reads (body a) t (λ r t', match r with inl a' => I a' t' ∧ (length t' < length t)%nat | inr r => Q r t' end)) →
  I a t → reads (loop (S len) body a) t Q.
Proof.
  intros Hb HI s Hs Et. apply (runs_loop _ (λ a s, (s ≤ len)%nat ∧ I a (drop s buf)) (λ _ s, (len - s)%nat)); [|by rewrite Et|lia].
  intros a1 s1 [Hs1 HI1]. eapply runs_mono; [by apply (Hb a1 _ HI1)|]. intros [a2|r] s2 [Hs2 H]; [|done]. destruct H as [HI2 Hlt]. rewrite !length_drop in Hlt. split; [done|lia].
Qed.

Lemma char_hd s : char_at buf s = hd 0 (drop s buf).
Proof. pose proof (char_at_drop buf s 0) as H. rewrite Nat.add_0_r in H. rewrite H. by destruct (drop s buf). Qed.

Lemma skip_drop f s t1 t2 : drop s buf = t1 ++ t2 → run_len f (t1 ++ t2) = length t1 → skip buf f s = (s + length t1)%nat ∧ drop (skip buf f s) buf = t2.
Proof. intros Ed Er. unfold skip. rewrite Ed, Er. split; [done|]. by rewrite <- drop_drop, Ed, drop_app_length. Qed.

Lemma drop_nz s c t : drop s buf = c :: t → c ≠ 0.
Proof. intros Ed ->. apply Hnz. rewrite <- (take_drop s buf), Ed. set_solver. Qed.

Lemma skip_tidy s t : drop s buf = t → tidy t → skip buf is_ws s = s.
Proof. intros Ed Ht. unfold skip. rewrite Ed, tidy_run by done. lia. Qed.

Definition hd_in (cs t : list Z) : bool := match t with [] => false | c :: _ => bool_decide (c ∈ cs) end.

Lemma reads_peek {A} cs t (k : bool → M nat A) Q : tidy t → reads (k (hd_in cs t)) t Q → reads (b ← peek buf cs; k b) t Q.
Proof.
  intros Ht Hk s Hs Et. unfold peek. kstep. kstep. kstep. kstep. kstep. kstep. unfold id. rewrite (skip_tidy s t) by done.
  replace (negb (char_at buf s =? 0) && bool_decide (char_at buf s ∈ cs)) with (hd_in cs t); [by apply Hk|].
  rewrite char_hd, Et. destruct t as [|c t]; [done|]. cbn. apply drop_nz in Et as Hc. by rewrite (proj2 (Z.eqb_neq _ _) Hc).
Qed.

(** A symbol and the space after it. *)
Lemma reads_sym {A} c t (k : Z * word → M nat A) Q : c ∈ [124; 40; 41; 59; 38; 60; 62] → tidy t → (∀ w, reads (k (c, w)) t Q) →
  reads (tw ← gettoken buf; k tw) (c :: sp :: t) Q.
Proof.
  intros Hc Ht Hk s Hs Et. assert (is_ws c = false) as Hws.
  { clear -Hc. rewrite !elem_of_cons, elem_of_nil in Hc. by destruct Hc as [->|[->|[->|[->|[->|[->|[->|[]]]]]]]]. }
  assert (Hlt : (s < len)%nat) by (apply (f_equal length) in Et; rewrite length_drop in Et; cbn in Et; lia).
  assert (Ed : drop (S s) buf = sp :: t) by (rewrite <- Nat.add_1_r, <- drop_drop, Et; done).
  unfold gettoken. kstep. kstep. kstep. unfold id. rewrite (skip_tidy s (c :: sp :: t)) by done. rewrite char_hd, Et. cbn [hd]. apply drop_nz in Et as H0. rewrite (proj2 (Z.eqb_neq _ _) H0).
  destruct (skip_drop is_ws (S s) [sp] t) as [Es Et']; [done|cbn; by rewrite tidy_run|].
  assert (Hfin : runs (k (c, (s, S s))) (skip buf is_ws (S s)) (λ a s', (s' ≤ len)%nat ∧ Q a (drop s' buf))).
  { apply Hk; [|done]. rewrite Es. apply (f_equal length) in Ed. rewrite length_drop in Ed. cbn in *. lia. }
  destruct (bool_decide (c ∈ [124; 40; 41; 59; 38; 60])) eqn:Eb; [by kstep; kstep; kstep|].
  assert (c = 62) as ->. { apply bool_decide_eq_false in Eb. rewrite !elem_of_cons, elem_of_nil in *. tauto. }
  cbn [Z.eqb Pos.eqb]. rewrite char_hd, Ed. cbn [hd]. change (sp =? 62) with false. cbv iota. by kstep; kstep; kstep.
Qed.

Lemma aword_run w t : aword w → run_len is_word (w ++ sp :: t) = length w ∧ tidy (w ++ sp :: t) ∧ hd 0 (w ++ sp :: t) ∉ symbols.
Proof.
  intros [Hne Hw]. assert (Hrun : ∀ w, (∀ c, c ∈ w → is_word c = true ∧ c ≠ 0) → run_len is_word (w ++ sp :: t) = length w).
  { clear w Hne Hw. induction w as [|c w IH]; intros Hw; [done|]. cbn. destruct (Hw c ltac:(by left)) as [-> _]. f_equal. apply IH. intros c' Hc'. apply Hw. by right. }
  split; [by apply Hrun|]. destruct w as [|c w]; [done|]. destruct (Hw c ltac:(by left)) as [Hc _]. unfold is_word, is_ws, is_sym in Hc. cbn. unfold is_ws. zify_bool.
  split; [by apply bool_decide_eq_false_2|done].
Qed.

(** A word and the space after it. *)
Lemma reads_word {A} w t (k : Z * word → M nat A) Q : aword w → tidy t → (∀ p, slice buf p = w → reads (k (97, p)) t Q) →
  reads (tw ← gettoken buf; k tw) (word_text w ++ t) Q.
Proof.
  unfold word_text. intros Hw Ht Hk s Hs Et. rewrite <- app_assoc in Et. cbn in Et. destruct (aword_run w t Hw) as (Hr & Htd & Hsym).
  destruct (skip_drop is_word s w (sp :: t)) as [Eq Ed]; [done..|].
  destruct (skip_drop is_ws (s + length w) [sp] t) as [Es Et']; [by rewrite <- Eq|cbn; by rewrite tidy_run|].
  unfold gettoken. kstep. kstep. kstep. unfold id. rewrite (skip_tidy s (w ++ sp :: t)) by done.
  assert (char_at buf s ≠ 0) as H0. { rewrite char_hd, Et. destruct Hw as [Hne Hw]. destruct w as [|c w]; [done|]. by apply Hw; left. }
  rewrite (proj2 (Z.eqb_neq _ _) H0). rewrite <- Et, <- char_hd in Hsym. unfold symbols in Hsym. rewrite !not_elem_of_cons in Hsym.
  rewrite bool_decide_eq_false_2 by (rewrite !elem_of_cons, elem_of_nil; tauto). destruct (Z.eqb_spec (char_at buf s) 62) as [E|_]; [tauto|].
  kstep. kstep. kstep. rewrite Eq. apply Hk.
  - unfold slice. cbn. rewrite Et. replace (s + length w - s)%nat with (length w) by lia. apply take_app_length.
  - rewrite Es. apply (f_equal length) in Et. rewrite length_drop, length_app in Et. cbn in *. lia.
  - done.
Qed.

Lemma reads_end {A} (k : Z * word → M nat A) Q : (∀ w, reads (k (0, w)) [] Q) → reads (tw ← gettoken buf; k tw) [] Q.
Proof.
  intros Hk s Hs Et. unfold gettoken. kstep. kstep. kstep. unfold id. rewrite (skip_tidy s []) by done. rewrite char_hd, Et. cbn [hd Z.eqb]. kstep. kstep. kstep.
  rewrite (skip_tidy s []) by done. by apply Hk.
Qed.

(** ** Redirections and arguments *)

(** Where neither a redirection nor a space comes next. *)
Definition unredir (t : list Z) : Prop := tidy t ∧ hd_in [60; 62] t = false.

Lemma fol_unredir t : fol stops_exec t → unredir t.
Proof.
  intros H. split; [by apply (fol_tidy stops_exec)|]. destruct t as [|c t]; [done|]. cbn in *. apply bool_decide_eq_false_2. unfold stops_exec in H.
  rewrite !elem_of_cons, elem_of_nil in *. by intros [->|[->|[]]]; destruct H as [|[|[|[|]]]].
Qed.

Lemma tidy_redirs rs t : tidy t → tidy (concat (redir_text <$> rs) ++ t).
Proof. destruct rs as [|[f []] rs]; done. Qed.

Lemma tidy_words ws t : (∀ w, w ∈ ws → aword w) → tidy t → tidy (concat (word_text <$> ws) ++ t).
Proof.
  destruct ws as [|w ws]; [done|]. intros Hw _. cbn. unfold word_text at 1. rewrite <- !app_assoc. cbn. destruct (aword_run w (concat (word_text <$> ws) ++ t)) as (_ & H & _); [apply Hw; by left|]. exact H.
Qed.

(** A text that begins with a word begins with none of the symbols. *)
Lemma word_hd w t cs : aword w → (∀ c, c ∈ cs → c ∈ symbols) → hd_in cs (word_text w ++ t) = false.
Proof.
  intros Hw Hcs. unfold word_text. rewrite <- app_assoc. cbn. destruct (aword_run w t Hw) as (_ & _ & H). destruct w as [|c w]; [by destruct Hw|]. cbn in *.
  apply bool_decide_eq_false_2. intros Hc. by apply H, Hcs.
Qed.

Lemma words_unredir ws w t : aword w → (∀ w', w' ∈ ws → aword w') → tidy t → unredir (concat (word_text <$> w :: ws) ++ t).
Proof.
  intros Hw Hws Ht. split; [apply tidy_words; [|done]; intros w' [->|?]%elem_of_cons; auto|]. cbn. rewrite <- app_assoc. apply word_hd; [done|].
  unfold symbols. intros c. rewrite !elem_of_cons, elem_of_nil. tauto.
Qed.

Lemma reads_redirs c rs t : (∀ r, r ∈ rs → aword r.1) → unredir t →
  reads (parseredirs buf c) (concat (redir_text <$> rs) ++ t) (λ c' t', t' = t ∧ mean c' = wraps rs (mean c) ∧ ∀ av, mean (fill av c') = wraps rs (mean (fill av c))).
Proof.
  intros Hrs [Ht Hhd]. unfold parseredirs.
  apply (reads_loop _ (λ c1 t1, ∃ rs1, t1 = concat (redir_text <$> rs1) ++ t ∧ (∀ r, r ∈ rs1 → aword r.1) ∧
    wraps rs1 (mean c1) = wraps rs (mean c) ∧ ∀ av, wraps rs1 (mean (fill av c1)) = wraps rs (mean (fill av c)))); [|by exists rs].
  intros c1 t1 (rs1 & -> & Hok & Hm & Hf). apply reads_peek; [by apply tidy_redirs|]. destruct rs1 as [|[f o] rs1].
  { cbn [fmap list_fmap concat app]. rewrite Hhd. cbn [negb]. by apply reads_ret. }
  assert (hd_in [60; 62] (concat (redir_text <$> (f, o) :: rs1) ++ t) = true) as -> by (by destruct o). cbn [negb].
  replace (concat (redir_text <$> (f, o) :: rs1) ++ t) with ((if o then 62 else 60) :: sp :: word_text f ++ concat (redir_text <$> rs1) ++ t) by (cbn; by rewrite <- app_assoc).
  assert (aword f) as Hfw by (apply (Hok (f, o)); by left).
  apply reads_sym; [by destruct o; vm_compute; repeat constructor| |].
  { unfold word_text. rewrite <- app_assoc. by apply aword_run. }
  intros _. apply reads_word; [done|by apply tidy_redirs|]. intros p Hp. cbn [Z.eqb Pos.eqb negb].
  assert (Hnext : ∀ m, (∃ rs2, concat (redir_text <$> rs1) ++ t = concat (redir_text <$> rs2) ++ t ∧ (∀ r, r ∈ rs2 → aword r.1) ∧
    wraps rs2 (mean (Redir c1 p m (if o then 1 else 0))) = wraps rs (mean c) ∧ ∀ av, wraps rs2 (mean (fill av (Redir c1 p m (if o then 1 else 0)))) = wraps rs (mean (fill av c))) ∧
    (length (concat (redir_text <$> rs1) ++ t) < length ((if o then 62 else 60)%Z :: sp :: word_text f ++ concat (redir_text <$> rs1) ++ t))%nat).
  { intros m. split; [|cbn; rewrite !length_app; lia]. exists rs1. split; [done|]. split; [intros r Hr; apply Hok; by right|]. rewrite <- Hm. split; [cbn; rewrite Hp; by destruct o|].
    intros av. rewrite <- Hf. cbn. rewrite Hp. by destruct o. }
  destruct o; apply reads_ret, Hnext.
Qed.

(** The arguments, and the redirections after the last one. *)
Lemma reads_args ret argv rs rs1 t : alen argv < MAXARGS → (∀ w, w ∈ argv → aword w) → (∀ r, r ∈ rs1 → aword r.1) → fol stops_exec t → (argv = [] → rs1 = []) →
  (∀ av, wraps rs1 (mean (fill av ret)) = wraps rs (AExec (slice buf <$> av))) →
  reads (parseargs buf ret) (concat (word_text <$> argv) ++ concat (redir_text <$> rs1) ++ t)
    (λ '(ret, args) t', t' = t ∧ slice buf <$> args = argv ∧ ∀ av, mean (fill av ret) = wraps rs (AExec (slice buf <$> av))).
Proof.
  intros Hn Hw Hr1 Ht Hz Hret. pose proof (fol_unredir t Ht) as Hu. assert (tidy t) as Htd by apply Hu. unfold parseargs.
  apply (reads_loop _ (λ '(ret, args) t1, ∃ todo rs1, t1 = concat (word_text <$> todo) ++ concat (redir_text <$> rs1) ++ t ∧ (todo = [] → rs1 = []) ∧ (∀ r, r ∈ rs1 → aword r.1) ∧
    (slice buf <$> args) ++ todo = argv ∧ ∀ av, wraps rs1 (mean (fill av ret)) = wraps rs (AExec (slice buf <$> av)))); [|by exists argv, rs1].
  clear ret rs1 Hz Hr1 Hret. intros [ret args] t1 (todo & rs1 & -> & Hz & Hr1 & Ha & Hret).
  assert (∀ w, w ∈ todo → aword w) as Htw by (intros w ?; apply Hw; rewrite <- Ha; set_solver). apply reads_peek; [by apply tidy_words, tidy_redirs|].
  destruct todo as [|w todo].
  { rewrite Hz in * by done. cbn [fmap list_fmap concat app]. rewrite app_nil_r in Ha. destruct t as [|c t].
    - apply reads_end. intros w. cbn. by apply reads_ret.
    - cbn in Ht |- *. rewrite bool_decide_eq_true_2 by done. by apply reads_ret. }
  replace (concat (word_text <$> w :: todo) ++ concat (redir_text <$> rs1) ++ t) with (word_text w ++ concat (word_text <$> todo) ++ concat (redir_text <$> rs1) ++ t) by (cbn; by rewrite <- app_assoc).
  rewrite word_hd; [|apply Htw; by left|unfold symbols; intros c; rewrite !elem_of_cons, elem_of_nil; tauto].
  apply reads_word; [apply Htw; by left|apply tidy_words; [intros w' ?; apply Htw; by right|by apply tidy_redirs]|]. intros p Hp. cbn [Z.eqb Pos.eqb negb].
  assert (alen (args ++ [p]) < MAXARGS) as Hlt. { rewrite <- Ha in Hn. unfold alen in *. rewrite length_app in *. rewrite length_fmap in Hn. cbn in *. lia. }
  destruct (Z.leb_spec MAXARGS (alen (args ++ [p]))); [lia|].
  assert (Ha' : (slice buf <$> args ++ [p]) ++ todo = argv) by (rewrite fmap_app, <- app_assoc; cbn; by rewrite Hp).
  assert (Hl : (length (concat (word_text <$> todo)) + 0 < length (word_text w ++ concat (word_text <$> todo)))%nat) by (rewrite length_app; unfold word_text; rewrite length_app; cbn; lia).
  destruct todo as [|w2 todo].
  - eapply reads_bind; [by apply (reads_redirs ret rs1 t)|]. intros c' t' (-> & _ & Hf). apply reads_ret. split; [|rewrite !length_app in *; cbn in *; lia].
    exists [], []. split_and!; [done|done|set_solver|done|]. intros av. by rewrite <- Hret, <- Hf.
  - eapply reads_bind; [apply (reads_redirs ret [] (concat (word_text <$> w2 :: todo) ++ concat (redir_text <$> rs1) ++ t)); [set_solver|]|].
    + apply words_unredir; [apply Htw; set_solver|intros w' ?; apply Htw; set_solver|by apply tidy_redirs].
    + intros c' t' (-> & _ & Hf). apply reads_ret. split; [|rewrite !length_app in *; lia]. exists (w2 :: todo), rs1. split_and!; [done|done|done|done|]. intros av. by rewrite <- Hret, Hf.
Qed.

(** Simple commands. *)
Lemma reads_exec n argv rs t : alen argv < MAXARGS → (∀ w, w ∈ argv → aword w) → (∀ r, r ∈ rs → aword r.1) → fol stops_exec t →
  reads (parseexec buf (S n)) (concat (word_text <$> argv) ++ concat (redir_text <$> rs) ++ t) (λ c' t', t' = t ∧ mean c' = wraps rs (AExec argv)).
Proof.
  intros Hn Hw Hr Ht. pose proof (fol_unredir t Ht) as Hu. assert (tidy t) as Htd by apply Hu. cbn [parseexec].
  assert (Hnp : hd_in [40] (concat (word_text <$> argv) ++ concat (redir_text <$> rs) ++ t) = false).
  { destruct argv as [|w argv]; [|cbn; rewrite <- app_assoc; apply word_hd; [apply Hw; by left|intros c ->%list_elem_of_singleton; by apply (bool_decide_eq_true_1 (40 ∈ symbols))]].
    destruct rs as [|[f []] rs]; [|done|done]. cbn. destruct t as [|c t]; [done|]. cbn in *. apply bool_decide_eq_false_2. unfold stops_exec in Ht. rewrite !elem_of_cons, elem_of_nil in *.
    by intros [->|[]]; destruct Ht as [|[|[|[|]]]]. }
  apply reads_peek; [by apply tidy_words, tidy_redirs|]. rewrite Hnp.
  (* before the first argument *)
  apply (reads_bind _ _ _ (λ ret t1, ∃ rs1, t1 = concat (word_text <$> argv) ++ concat (redir_text <$> rs1) ++ t ∧ (argv = [] → rs1 = []) ∧ (∀ r, r ∈ rs1 → aword r.1) ∧
    ∀ av, wraps rs1 (mean (fill av ret)) = wraps rs (AExec (slice buf <$> av)))).
  { destruct argv as [|w argv].
    - eapply reads_mono; [by apply (reads_redirs (Exec []) rs t)|]. intros c' t' (-> & _ & Hf). exists []. split_and!; [done|done|set_solver|]. intros av. by rewrite Hf.
    - eapply reads_mono; [apply (reads_redirs (Exec []) [] (concat (word_text <$> w :: argv) ++ concat (redir_text <$> rs) ++ t)); [set_solver|]|].
      + apply words_unredir; [apply Hw; by left|intros w' ?; apply Hw; by right|by apply tidy_redirs].
      + intros c' t' (-> & _ & Hf). exists rs. split_and!; [done|done|done|]. intros av. by rewrite Hf. }
  intros ret t1 (rs1 & -> & Hz & Hr1 & Hret).
  eapply reads_bind; [by apply (reads_args ret argv rs rs1 t)|]. intros [ret' args] t' (-> & Ha & Hm). apply reads_ret. split; [done|]. by rewrite Hm, Ha.
Qed.

(** ** Lines *)

Definition back_text (k : nat) : list Z := concat (replicate k [38; sp]).

Lemma tidy_backs k t : tidy t → tidy (back_text k ++ t).
Proof. by destruct k. Qed.

Lemma backs_S k c : backs k (ABack c) = backs (S k) c.
Proof. induction k as [|k IH]; [done|]. change (backs (S k) (ABack c)) with (ABack (backs k (ABack c))). by rewrite IH. Qed.

(** Any number of [&] after a command. *)
Lemma reads_backs c k t : fol [41; 59] t →
  reads (loop (S len) (λ c, p ← peek buf [38]; if negb p then mret (inr c) else gettoken buf;; mret (inl (Back c))) c) (back_text k ++ t)
    (λ c' t', t' = t ∧ mean c' = backs k (mean c)).
Proof.
  intros Ht. assert (tidy t) as Htd by (apply (fol_tidy [41; 59]); [unfold stops_exec; set_solver|done]).
  apply (reads_loop _ (λ c1 t1, ∃ j, t1 = back_text j ++ t ∧ backs j (mean c1) = backs k (mean c))); [|by exists k].
  intros c1 t1 (j & -> & Hj). apply reads_peek; [by apply tidy_backs|]. destruct j as [|j].
  - cbn [back_text replicate concat app]. assert (hd_in [38] t = false) as ->; [|by apply reads_ret].
    destruct t as [|c0 t]; [done|]. cbn in *. apply bool_decide_eq_false_2. rewrite !elem_of_cons, elem_of_nil in *. by intros [->|[]]; destruct Ht as [|[|]].
  - change (back_text (S j) ++ t) with (38 :: sp :: back_text j ++ t). cbn [hd_in]. rewrite bool_decide_eq_true_2 by set_solver. cbn [negb].
    apply reads_sym; [set_solver|by apply tidy_backs|]. intros w. apply reads_ret. split; [|cbn; lia]. exists j. split; [done|]. rewrite <- Hj. apply backs_S.
Qed.

(** The parts of a line: a pipeline, [&]s, and after a [;] another line. *)
Lemma line_parts c : ∃ k b, text 0 c = text 2 b ++ back_text k ++ match c with AList _ r => [59; sp] ++ text 0 r | _ => [] end ∧
  c = match c with AList _ r => AList (backs k b) r | _ => backs k b end ∧ (aok c → aok b).
Proof.
  destruct c as [argv|c f o|l r|l r|c].
  4:{ destruct (unback l) as (k & b & -> & _ & E & Hok). exists k, b. split_and!; [cbn; by rewrite E, <- app_assoc|done|]. cbn. intros [? ?]. auto. }
  all: match goal with |- context [text 0 ?c] => destruct (unback c) as (k & b & E1 & _ & E & Hok); exists k, b; rewrite app_nil_r; split_and!; [exact E|exact E1|exact Hok] end.
Qed.

(** A pipeline: a simple command or a block, and after a [|] another pipeline. *)
Lemma pipe_parts c : ∃ b, text 2 c = text 3 b ++ match c with APipe _ r => [124; sp] ++ text 2 r | _ => [] end ∧
  c = match c with APipe _ r => APipe b r | _ => b end ∧ (aok c → aok b).
Proof.
  destruct c as [argv|c f o|l r|l r|c]; [exists (AExec argv)|exists (ARedir c f o)|exists l|exists (AList l r)|exists (ABack c)];
    rewrite ?app_nil_r; (split_and!; [done|done|cbn; tauto]).
Qed.

Lemma tidy_text lv c t : aok c → tidy t → tidy (text lv c ++ t).
Proof.
  revert lv t. induction c as [argv|c IH f o|l IHl r IHr|l IHl r IHr|c IH]; intros lv t Hok Ht; cbn [text].
  - destruct Hok. by apply tidy_words.
  - rewrite <- app_assoc. apply IH; [apply Hok|]. by destruct o.
  - unfold paren. destruct (2 <? lv); [done|]. rewrite <- !app_assoc. by apply IHl; [apply Hok|].
  - unfold paren. destruct (0 <? lv); [done|]. rewrite <- !app_assoc. by apply IHl; [apply Hok|].
  - unfold paren. destruct (1 <? lv); [done|]. rewrite <- !app_assoc. by apply IH.
Qed.

Lemma paren_text b : plain b = true → (∀ argv, b ≠ AExec argv) → text 3 b = [40; sp] ++ text 0 b ++ [41; sp].
Proof. destruct b as [argv| | | |]; intros Hp Hne; try done. by destruct (Hne argv). Qed.

(** What [t] does not begin with. *)
Lemma fol_hd cs cs' t : fol cs t → (∀ c, c ∈ cs → c ∉ cs') → hd_in cs' t = false.
Proof. destruct t as [|c t]; [done|]. cbn. intros Hc Hd. by apply bool_decide_eq_false_2, Hd. Qed.
Lemma fol_sub cs cs' t : fol cs t → (∀ c, c ∈ cs → c ∈ cs') → fol cs' t.
Proof. destruct t; [done|]. cbn. auto. Qed.

Lemma reads_parse n :
  (∀ c t, aok c → fol [41] t → (4 * length (text 0 c ++ t) + 4 ≤ n)%nat → reads (parseline buf n) (text 0 c ++ t) (λ c' t', t' = t ∧ mean c' = c)) ∧
  (∀ c t, aok c → fol [41; 38; 59] t → (4 * length (text 2 c ++ t) + 3 ≤ n)%nat → reads (parsepipe buf n) (text 2 c ++ t) (λ c' t', t' = t ∧ mean c' = c)) ∧
  (∀ c t, aok c → fol stops_exec t → (4 * length (text 3 c ++ t) + 2 ≤ n)%nat → reads (parseexec buf n) (text 3 c ++ t) (λ c' t', t' = t ∧ mean c' = c)) ∧
  (∀ c rs t, aok c → (∀ r, r ∈ rs → aword r.1) → fol stops_exec t → let u := concat (redir_text <$> rs) ++ t in
    (4 * length (40%Z :: sp :: text 0 c ++ 41%Z :: sp :: u) + 1 ≤ n)%nat → reads (parseblock buf n) (40 :: sp :: text 0 c ++ 41 :: sp :: u) (λ c' t', t' = t ∧ mean c' = wraps rs c)).
Proof.
  induction n as [|n (IHl & IHp & IHe & IHb)]; [split_and!; intros; lia|]. split_and!.
  - intros c t Hok Ht Hn. cbn [parseline]. destruct (line_parts c) as (k & b & Et & Ec & Hb). rewrite Et in Hn |- *. rewrite <- !app_assoc in *.
    set (u := match c with AList _ r => [59; sp] ++ text 0 r | _ => [] end ++ t) in *.
    assert (fol [41; 59] u) as Hu by (unfold u; destruct c; (by right; left) || (eapply fol_sub; [exact Ht|set_solver])).
    eapply reads_bind; [apply (IHp b (back_text k ++ u)); [by apply Hb| |rewrite !length_app in *; lia]|].
    { destruct k; [eapply fol_sub; [exact Hu|set_solver]|cbn; set_solver]. }
    intros c1 t1 [-> Hc1]. eapply reads_bind; [by apply (reads_backs c1 k u)|]. intros c2 t2 [-> Hc2]. rewrite Hc1 in Hc2.
    apply reads_peek; [by apply (fol_tidy [41; 59]); [unfold stops_exec; set_solver|]|].
    destruct c as [argv|c f o|l r|l r|c]; try (change u with t; rewrite (fol_hd [41] [59] t) by (done || set_solver); apply reads_ret; by rewrite Hc2, <- Ec).
    subst u. rewrite <- ?app_assoc in *. cbn [app hd_in]. rewrite bool_decide_eq_true_2 by set_solver. cbn [negb].
    destruct Hok as [_ Hr]. apply reads_sym; [set_solver|apply tidy_text; [done|by apply (fol_tidy [41]); [unfold stops_exec; set_solver|]]|]. intros w.
    eapply reads_bind; [apply (IHl r t); [done|done|rewrite !length_app in *; cbn in Hn; rewrite ?length_app in *; lia]|]. intros r' t' [-> Hr']. apply reads_ret. split; [done|]. cbn. rewrite Hc2, Hr'. by injection Ec as <-.
  - intros c t Hok Ht Hn. cbn [parsepipe]. destruct (pipe_parts c) as (b & Et & Ec & Hb). rewrite Et in Hn |- *. rewrite <- !app_assoc in *.
    set (u := match c with APipe _ r => [124; sp] ++ text 2 r | _ => [] end ++ t) in *.
    assert (fol stops_exec u) as Hu by (unfold u; destruct c; (by left) || (eapply fol_sub; [exact Ht|unfold stops_exec; set_solver])).
    eapply reads_bind; [apply (IHe b u); [by apply Hb|done|lia]|]. intros c1 t1 [-> Hc1]. apply reads_peek; [by apply (fol_tidy stops_exec)|].
    destruct c as [argv|c f o|l r|l r|c]; try (change u with t; rewrite (fol_hd [41; 38; 59] [124] t) by (done || set_solver); apply reads_ret; by rewrite Hc1, <- Ec).
    subst u. rewrite <- ?app_assoc in *. cbn [app hd_in]. rewrite bool_decide_eq_true_2 by set_solver. cbn [negb].
    destruct Hok as [_ Hr]. apply reads_sym; [set_solver|apply tidy_text; [done|by apply (fol_tidy [41; 38; 59]); [unfold stops_exec; set_solver|]]|]. intros w.
    eapply reads_bind; [apply (IHp r t); [done|done|rewrite !length_app in *; cbn in Hn; rewrite ?length_app in *; lia]|]. intros r' t' [-> Hr']. apply reads_ret. split; [done|]. cbn. rewrite Hc1, Hr'. by injection Ec as <-.
  - intros c t Hok Ht Hn. destruct (unwrap c) as (rs & b & -> & Hp & Et & Hb). destruct (Hb Hok) as [Hbok Hrs]. rewrite Et in Hn |- *. rewrite <- app_assoc in *.
    destruct b as [argv|? ? ?|l r|l r|b]; [by apply reads_exec; try apply Hbok|done|..].
    all: rewrite paren_text in Hn |- * by done; rewrite <- ?app_assoc in *; cbn [app] in *; rewrite <- ?app_assoc in *; cbn [app] in *; cbn [parseexec]; (apply reads_peek; [done|]);
      cbn [hd_in]; rewrite bool_decide_eq_true_2 by set_solver; (apply IHb; [done|done|done|cbn [length] in *; lia]).
  - intros c rs t Hok Hrs Ht u Hn. cbn [parseblock]. apply reads_peek; [done|]. cbn [hd_in]. rewrite bool_decide_eq_true_2 by set_solver. cbn [negb].
    assert (tidy u) as Hu by (apply tidy_redirs; by apply (fol_tidy stops_exec)).
    apply reads_sym; [set_solver|by apply tidy_text|]. intros w. eapply reads_bind; [apply (IHl c (41 :: sp :: u)); [done|set_solver|cbn [length] in *; lia]|].
    intros c1 t1 [-> Hc1]. apply reads_peek; [done|]. cbn [hd_in]. rewrite bool_decide_eq_true_2 by set_solver. cbn [negb]. apply reads_sym; [set_solver|done|]. intros w'.
    eapply reads_mono; [by apply (reads_redirs c1 rs t); [|apply fol_unredir]|]. intros c' t' (-> & Hm & _). by rewrite Hm, Hc1.
Qed.
End Read.

(** ** Round trip *)

Lemma text_nz lv c : aok c → 0 ∉ text lv c.
Proof.
  assert (Hw : ∀ w, aword w → 0 ∉ word_text w).
  { intros w [_ Hw]. unfold word_text. rewrite elem_of_app, list_elem_of_singleton. intros [H|H]; [by apply Hw in H as [_ ?]|done]. }
  assert (Hp : ∀ b t, 0 ∉ t → 0 ∉ paren b t).
  { intros [] t Ht; [|done]. cbn. rewrite !elem_of_cons, elem_of_app, !elem_of_cons, elem_of_nil. by intros [|[|[|[|[|]]]]]. }
  revert lv. induction c as [argv|c IH f o|l IHl r IHr|l IHl r IHr|c IH]; intros lv Hok; cbn [text].
  - destruct Hok as [_ Hok]. intros H%list_elem_of_In%in_concat. destruct H as (x & Hx & H0). rewrite <- !list_elem_of_In in *. apply list_elem_of_fmap in Hx as (w & -> & Hin). by apply (Hw w); [apply Hok|].
  - destruct Hok as [Hc Hf]. rewrite elem_of_app. intros [H|H]; [by apply (IH 3)|]. unfold redir_text in H. cbn in H. rewrite !elem_of_cons in H. destruct H as [H|[H|H]]; [by destruct o|done|by apply (Hw f)].
  - destruct Hok as [Hl Hr]. apply Hp. rewrite !elem_of_app, !elem_of_cons, elem_of_nil. intros [H|[[H|[H|[]]]|H]]; [by apply (IHl 3)|done|done|by apply (IHr 2)].
  - destruct Hok as [Hl Hr]. apply Hp. rewrite !elem_of_app, !elem_of_cons, elem_of_nil. intros [H|[[H|[H|[]]]|H]]; [by apply (IHl 1)|done|done|by apply (IHr 0)].
  - apply Hp. rewrite !elem_of_app, !elem_of_cons, elem_of_nil. intros [H|[H|[H|[]]]]; [by apply (IH 1)|done|done].
Qed.

Lemma runs_ends {X A} (m : M X A) x P Q : runs m x P → ends m x Q → runs m x (λ a x', P a x' ∧ Q a x').
Proof. unfold runs, ends. by destruct (m x). Qed.

Lemma runs_parse_text c : aok c →
  runs (parsecmd (text 0 c)) 0%nat (λ '(c', b) s, s = length (text 0 c) ∧ redirs_ok c' ∧ meaning (λ w, cstr b w.1) c' = c).
Proof.
  intros Hok. pose proof (text_nz 0 c Hok) as Hnz. set (buf := text 0 c) in *. unfold parsecmd, parse_fuel. kstep.
  destruct (ends_parse buf (4 * length buf + 4)) as (Hends & _). destruct (reads_parse buf Hnz (4 * length buf + 4)) as (Hreads & _).
  eapply runs_mono; [apply runs_ends; [apply (Hreads c []); [done|done|rewrite app_nil_r; fold buf; lia|lia|by rewrite drop_0, app_nil_r]|apply Hends; lia]|].
  intros c' s [[Hs [Ed Hm]] [_ Hw]]. apply (f_equal length) in Ed. rewrite length_drop in Ed. cbn in Ed. assert (s = length buf) as -> by lia.
  unfold peek. kstep. kstep. kstep. kstep. kstep. kstep. kstep. kstep. unfold id.
  assert (skip buf is_ws (length buf) = length buf) as -> by (unfold skip; rewrite drop_all; cbn; lia). rewrite bool_decide_eq_true_2 by done. cbn [negb]. kstep.
  split; [done|]. split; [apply Hw|]. rewrite <- Hm. apply meaning_ext. intros w Hin. by apply cstr_words.
Qed.

(** C39: the shell's parser reads back the text of a command: for every command
    whose words are words and that has at most nine arguments in each simple command,
    [parsecmd] of its text returns, and the command it returns, with its strings read in the
    buffer that [nulterminate] leaves, is the command. *)
Theorem parsecmd_print c : aok c →
  runs (parsecmd (text 0 c)) 0%nat (λ '(c', b) s, s = length (text 0 c) ∧ meaning (λ w, cstr b w.1) c' = c).
Proof. intros Hok. eapply runs_mono; [by apply runs_parse_text|]. intros [c' b] s. tauto. Qed.

(** [ls -l | wc > f & ; (a ; b) | c] *)
Definition ex_cmd : acmd :=
  AList (ABack (APipe (AExec [[108; 115]; [45; 108]]) (ARedir (AExec [[119; 99]]) [102] true))) (APipe (AList (AExec [[97]]) (AExec [[98]])) (AExec [[99]])).

Lemma ex_cmd_ok : aok ex_cmd.
Proof.
  assert (Hw : ∀ w, forallb (λ c, is_word c && negb (c =? 0)) w = true → w ≠ [] → aword w).
  { intros w Hb Hne. split; [done|]. intros c Hc. rewrite forallb_forall in Hb. apply list_elem_of_In, Hb in Hc. apply andb_true_iff in Hc as [? Hc]. split; [done|]. by zify_bool. }
  unfold ex_cmd. cbn [aok]. repeat match goal with |- _ ∧ _ => split end; try done; try (by apply Hw); intros w; rewrite !elem_of_cons, elem_of_nil; intros Hin; repeat destruct Hin as [->|Hin]; by apply Hw.
Qed.

Lemma parsecmd_print_witness : runs (parsecmd (text 0 ex_cmd)) 0%nat (λ '(c', b) s, s = length (text 0 ex_cmd) ∧ meaning (λ w, cstr b w.1) c' = ex_cmd).
Proof. apply parsecmd_print, ex_cmd_ok. Defined.
