(* ===== verification/ShRun.v ===== *)
(** * Running commands (user/sh.c)

    [runcmd] and [main] as trees of the system calls they make, and what these trees do
    to file descriptors: a pipeline connects the output of its left side to the input of
    its right side and leaks no end of the pipe, a redirection replaces one
    descriptor, and everything else is inherited. *)

From S2P Require Import Prelude Sh ShPrint.

(** ** System calls

    A process as the system calls it makes, each followed by what the process does
    with the result. *)
Inductive prog :=
| Exit (code : Z)
| ExecCall (argv : list (list Z)) (k : prog)           (* exec, and what follows if it fails *)
| Close (fd : Z) (k : prog)
| Open (file : list Z) (mode : Z) (k : Z → prog)
| Fork (k : Z → prog)
| Wait (k : prog)
| MkPipe (k : option (Z * Z) → prog)
| Dup (fd : Z) (k : prog)
| Chdir (dir : list Z) (k : Z → prog)
| Print (msg : string) (arg : list Z) (k : prog).      (* fprintf(2, ...) *)

Section Run.
Context (str : word → list Z).

Definition sh_panic (msg : string) : prog := Print msg [] (Exit 1).

Definition fork1 (k : Z → prog) : prog :=
  Fork (λ pid, if pid =? -1 then sh_panic "fork" else k pid).

Fixpoint runcmd (c : cmd) : prog :=
  match c with
  | Exec argv =>
      match argv with
      | [] => Exit 1
      | w :: _ => ExecCall (str <$> argv) (Print "exec %s failed" (str w) (Exit 0))
      end
  | Redir c w mode fd =>
      Close fd (Open (str w) mode (λ r,
        if r <? 0 then Print "open %s failed" (str w) (Exit 1) else runcmd c))
  | List_ l r =>
      fork1 (λ pid, if pid =? 0 then runcmd l else Wait (runcmd r))
  | Pipe l r =>
      MkPipe (λ o, match o with
        | None => sh_panic "pipe"
        | Some (p0, p1) =>
            fork1 (λ pid,
              if pid =? 0 then Close 1 (Dup p1 (Close p0 (Close p1 (runcmd l)))) else
            fork1 (λ pid,
              if pid =? 0 then Close 0 (Dup p0 (Close p0 (Close p1 (runcmd r)))) else
            Close p0 (Close p1 (Wait (Wait (Exit 0))))))
        end)
  | Back c =>
      fork1 (λ pid, if pid =? 0 then runcmd c else Exit 0)
  end.
End Run.

(** ** The main program

    [gets] returns the successive lines of the input, each with its newline; an empty
    string is the end of the input. *)
(** [runcmd(parsecmd(buf))] in the child. *)
Definition run_line (buf : list Z) : prog :=
  match parsecmd buf 0%nat with
  | Ret (c, b) _ => runcmd (λ w, cstr b w.1) c
  | Stop (Panic msg) _ => sh_panic msg
  | Stop _ _ => Exit 1
  end.

Definition is_cd (buf : list Z) : bool :=
  (nth 0 buf 0 =? 99) && (nth 1 buf 0 =? 100) && (nth 2 buf 0 =? 32).

(** [getcmd]: whether there is a command. *)
Definition getcmd (buf : list Z) (k : bool → prog) : prog :=
  Print "$ " [] (k (negb (nth 0 buf 0 =? 0))).

Fixpoint commands (lines : list (list Z)) : prog :=
  match lines with
  | [] => getcmd [] (λ _, Exit 0)
  | line :: lines =>
      let buf := cstr line 0 in
      getcmd buf (λ more,
      if negb more then Exit 0 else
      if is_cd buf then
        let buf := take (length buf - 1) buf in         (* chop \n *)
        Chdir (drop 3 buf) (λ r,
          if r <? 0 then Print "cannot cd %s" (drop 3 buf) (commands lines) else commands lines)
      else
        fork1 (λ pid, if pid =? 0 then run_line buf else Wait (commands lines)))
  end.

Definition console : list Z := [99; 111; 110; 115; 111; 108; 101].
Definition O_RDWR : Z := 2.

(** Ensure that three file descriptors are open: at most four calls of [open]. *)
Fixpoint open_console (fuel : nat) (k : prog) : prog :=
  match fuel with
  | O => k
  | S fuel =>
      Open console O_RDWR (λ fd,
        if 0 <=? fd then (if 3 <=? fd then Close fd k else open_console fuel k) else k)
  end.

Definition sh_main (lines : list (list Z)) : prog := open_console 4 (commands lines).

(** ** File descriptors

    What the kernel does with the calls: descriptors are a table, a new one is the lowest
    that is free, a child inherits the table. *)
Inductive obj := OFile (file : list Z) (mode : Z) | OPipe (id : nat) (out : bool).
Abbreviation fdt := (list (option obj)).

Fixpoint lowest (t : fdt) : option nat :=
  match t with
  | [] => None
  | None :: _ => Some 0%nat
  | Some _ :: t => S <$> lowest t
  end.

(** A program started with its descriptors, or a change of directory. *)
Inductive event := Started (argv : list (list Z)) (t : fdt) | Changed (dir : list Z).

Section Calls.
Context (opens : list Z → Z → bool).    (* which files can be opened *)

(** The programs a process and its children start; [n] numbers the pipes.  Forks
    succeed, and so does [exec]. *)
Fixpoint exec_prog (p : prog) (t : fdt) (n : nat) : list event * fdt * nat :=
  match p with
  | Exit _ => ([], t, n)
  | ExecCall argv _ => ([Started argv t], t, n)
  | Close fd k => exec_prog k (<[Z.to_nat fd := None]> t) n
  | Open f m k =>
      match (if opens f m then lowest t else None) with
      | Some fd => exec_prog (k (Z.of_nat fd)) (<[fd := Some (OFile f m)]> t) n
      | None => exec_prog (k (-1)) t n
      end
  | Fork k =>
      let '(e1, _, n1) := exec_prog (k 0) t n in
      let '(e2, t2, n2) := exec_prog (k 1) t n1 in
      (e1 ++ e2, t2, n2)
  | Wait k => exec_prog k t n
  | MkPipe k =>
      match lowest t with
      | Some p0 =>
          let t0 := <[p0 := Some (OPipe n false)]> t in
          match lowest t0 with
          | Some p1 => exec_prog (k (Some (Z.of_nat p0, Z.of_nat p1))) (<[p1 := Some (OPipe n true)]> t0) (S n)
          | None => exec_prog (k None) t n
          end
      | None => exec_prog (k None) t n
      end
  | Dup fd k =>
      match t !! Z.to_nat fd, lowest t with
      | Some (Some o), Some fd' => exec_prog k (<[fd' := Some o]> t) n
      | _, _ => exec_prog k t n
      end
  | Chdir d k => let '(e, t', n') := exec_prog (k 0) t n in (Changed d :: e, t', n')
  | Print _ _ k => exec_prog k t n
  end.

(** ** What commands mean *)

Definition redir_mode (out : bool) : Z := if out then Z.lor O_WRONLY O_CREATE else O_RDONLY.
Definition redir_fd (out : bool) : nat := if out then 1 else 0.

(** The programs a command starts, with their descriptors. *)
Fixpoint starts (c : acmd) (t : fdt) (n : nat) : list event * nat :=
  match c with
  | AExec [] => ([], n)
  | AExec argv => ([Started argv t], n)
  | ARedir c f out =>
      if opens f (redir_mode out) then starts c (<[redir_fd out := Some (OFile f (redir_mode out))]> t) n else ([], n)
  | AList l r =>
      let '(e1, n1) := starts l t n in
      let '(e2, n2) := starts r t n1 in
      (e1 ++ e2, n2)
  | APipe l r =>
      let '(e1, n1) := starts l (<[1%nat := Some (OPipe n true)]> t) (S n) in
      let '(e2, n2) := starts r (<[0%nat := Some (OPipe n false)]> t) n1 in
      (e1 ++ e2, n2)
  | ABack c => starts c t n
  end.
End Calls.

(** The first three descriptors are open and two others, [a] and [b], are the next
    free ones. *)
Definition table_at (t : fdt) (a b : nat) : Prop :=
  (3 ≤ a < b)%nat ∧ (∀ i, (i < b)%nat → i ≠ a → ∃ o, t !! i = Some (Some o)) ∧ t !! a = Some None ∧ t !! b = Some None.
Definition table_ok (t : fdt) : Prop := ∃ a b, table_at t a b.

Lemma lowest_at t a : (∀ i, (i < a)%nat → ∃ o, t !! i = Some (Some o)) → t !! a = Some None → lowest t = Some a.
Proof.
  revert a. induction t as [|x t IH]; intros a Hlow Ha; [done|]. destruct a as [|a]; [by injection Ha as ->|].
  destruct (Hlow 0%nat ltac:(lia)) as (o & [= ->]). cbn. rewrite (IH a); [done| |done]. intros i Hi. apply (Hlow (S i)). lia.
Qed.

Lemma lookup_length {A} (t : list A) i x : t !! i = Some x → (i < length t)%nat.
Proof. apply lookup_lt_Some. Qed.

Section Table.
Context (t : fdt) (a b : nat) (Ht : table_at t a b).

Lemma table_lens : (3 ≤ a < b)%nat ∧ (b < length t)%nat.
Proof using Ht. destruct Ht as (H & _ & _ & Hb). by apply lookup_lt_Some in Hb. Qed.

Lemma table_set i o : (i < 3)%nat → table_ok (<[i := Some o]> t).
Proof using Ht.
  pose proof table_lens. destruct Ht as (Hab & Hlow & Ha & Hb). intros Hi. exists a, b. split_and!; [lia|lia|..]; try (by rewrite list_lookup_insert_ne by lia).
  intros j Hj Hja. destruct (decide (j = i)) as [->|]; [exists o; apply list_lookup_insert_eq; lia|]. destruct (Hlow j Hj Hja) as (o' & E). exists o'. by rewrite list_lookup_insert_ne.
Qed.

(** [close] of one of the first two descriptors, and the descriptor the next call gets. *)
Lemma lowest_closed i u : (i < 2)%nat → (∀ j, (j < 3)%nat → ∃ o, u !! j = Some (Some o)) → lowest (<[i := None]> u) = Some i.
Proof using .
  intros Hi Hu. apply lowest_at; [intros j Hj; destruct (Hu j ltac:(lia)) as (o & E); exists o; by rewrite list_lookup_insert_ne by lia|]. destruct (Hu i ltac:(lia)) as (o & Ho). apply list_lookup_insert_eq. by apply lookup_lt_Some in Ho.
Qed.

Lemma table_lowest : lowest t = Some a ∧ ∀ o, lowest (<[a := Some o]> t) = Some b.
Proof using Ht.
  pose proof table_lens. destruct Ht as (Hab & Hlow & Ha & Hb). split; [apply lowest_at; [intros i Hi; apply Hlow; lia|done]|].
  intros o. apply lowest_at; [|by rewrite list_lookup_insert_ne by lia]. intros i Hi. destruct (decide (i = a)) as [->|]; [exists o; apply list_lookup_insert_eq; lia|].
  destruct (Hlow i Hi) as (o' & E); [done|]. exists o'. by rewrite list_lookup_insert_ne.
Qed.

(** A side of a pipe: close descriptor [i], dup the pipe's end [p] to it, close both ends. *)
Lemma pipe_side i p x y : (i < 2)%nat → (p = a ∨ p = b) → let u := <[b := Some y]> (<[a := Some x]> t) in
  ∃ o, <[i := None]> u !! p = Some (Some o) ∧ o = (if decide (p = a) then x else y) ∧ lowest (<[i := None]> u) = Some i ∧
    <[b := None]> (<[a := None]> (<[i := Some o]> (<[i := None]> u))) = <[i := Some o]> t.
Proof using Ht.
  pose proof table_lens as Hl. destruct Ht as (Hab & Hlow & Ha & Hb). intros Hi Hp u. exists (if decide (p = a) then x else y). split_and!; [|done|..].
  - unfold u. rewrite list_lookup_insert_ne by lia. destruct Hp as [-> | ->].
    + rewrite list_lookup_insert_ne, list_lookup_insert_eq, decide_True by lia. done.
    + rewrite list_lookup_insert_eq, decide_False by (rewrite ?length_insert; lia). done.
  - apply lowest_closed; [done|]. intros j Hj. destruct (Hlow j ltac:(lia) ltac:(lia)) as (o & E). exists o. unfold u. by rewrite !list_lookup_insert_ne by lia.
  - unfold u. rewrite list_insert_insert_eq. apply list_eq. intros j.
    destruct (decide (j = b)) as [->|]; [rewrite list_lookup_insert_eq, list_lookup_insert_ne by (rewrite ?length_insert; lia); done|]. rewrite list_lookup_insert_ne by done.
    destruct (decide (j = a)) as [->|]; [rewrite list_lookup_insert_eq, list_lookup_insert_ne by (rewrite ?length_insert; lia); done|]. rewrite list_lookup_insert_ne by done.
    destruct (decide (j = i)) as [->|]; [rewrite !list_lookup_insert_eq by (rewrite ?length_insert; lia); done|]. by rewrite !list_lookup_insert_ne by done.
Qed.
End Table.

Section Correct.
Context (opens : list Z → Z → bool).

Lemma runcmd_starts str c t n : redirs_ok c → table_ok t →
  ∃ t', exec_prog opens (runcmd str c) t n = ((starts opens (meaning str c) t n).1, t', (starts opens (meaning str c) t n).2).
Proof.
  revert t n. induction c as [argv|c IH w m fd|l IHl r IHr|l IHl r IHr|c IH]; intros t n Hr Ht.
  - destruct argv; cbn; eauto.
  - destruct Hr as [Hfd Hr]. destruct Ht as (a & b & Ht). cbn [runcmd exec_prog meaning starts].
    assert (m = redir_mode (fd =? 1) ∧ Z.to_nat fd = redir_fd (fd =? 1) ∧ (redir_fd (fd =? 1)%Z < 2)%nat ∧ 0 ≤ fd) as (Em & Efd & Hlt & Hpos) by (destruct Hfd as [[-> ->]|[-> ->]]; cbn; auto with lia).
    rewrite Efd, <- Em. destruct (opens (str w) m); [|cbn; eauto].
    rewrite lowest_closed; [|done|intros j Hj; pose proof (table_lens t a b Ht); apply Ht; lia].
    destruct (Z.ltb_spec (Z.of_nat (redir_fd (fd =? 1))) 0); [lia|]. rewrite list_insert_insert_eq. apply IH; [done|]. eapply table_set; [exact Ht|lia].
  - destruct Hr as [Hl Hr]. destruct Ht as (a & b & Ht). cbn [runcmd exec_prog meaning starts]. destruct (table_lowest t a b Ht) as [-> Hlb]. rewrite Hlb. unfold fork1. cbn [exec_prog Z.eqb]. rewrite !Nat2Z.id.
    destruct (pipe_side t a b Ht 1 b (OPipe n false) (OPipe n true)) as (o1 & E1 & Eo1 & El1 & Et1); [lia|by right|]. rewrite decide_False in Eo1 by (pose proof (table_lens t a b Ht); lia). subst o1.
    destruct (pipe_side t a b Ht 0 a (OPipe n false) (OPipe n true)) as (o0 & E0 & Eo0 & El0 & Et0); [lia|by left|]. rewrite decide_True in Eo0 by done. subst o0.
    change (Z.to_nat 1) with 1%nat. change (Z.to_nat 0) with 0%nat. rewrite E1, El1, Et1, E0, El0, Et0.
    destruct (IHl (<[1%nat := Some (OPipe n true)]> t) (S n) Hl) as (t1 & ->); [eapply table_set; [exact Ht|lia]|]. destruct (starts opens (meaning str l) _ _) as [e1 n1]. cbn [fst snd].
    destruct (IHr (<[0%nat := Some (OPipe n false)]> t) n1 Hr) as (t2 & ->); [eapply table_set; [exact Ht|lia]|]. destruct (starts opens (meaning str r) _ _) as [e2 n2]. cbn [fst snd].
    rewrite app_nil_r. eauto.
  - destruct Hr as [Hl Hr]. cbn [runcmd exec_prog meaning starts]. unfold fork1. cbn [exec_prog Z.eqb]. destruct (IHl t n Hl Ht) as (t1 & ->). destruct (starts opens (meaning str l) t n) as [e1 n1]. cbn [fst snd].
    destruct (IHr t n1 Hr Ht) as (t2 & ->). destruct (starts opens (meaning str r) t n1) as [e2 n2]. cbn. eauto.
  - cbn [runcmd exec_prog meaning starts]. unfold fork1. cbn [exec_prog Z.eqb]. destruct (IH t n Hr Ht) as (t1 & ->). rewrite app_nil_r. eauto.
Qed.

(** ** The three standard descriptors *)

Definition con : obj := OFile console O_RDWR.

(** The first three descriptors, opened on the console if they were closed. *)
Definition fill3 (t : fdt) : fdt :=
  match t with
  | x0 :: x1 :: x2 :: t => Some (default con x0) :: Some (default con x1) :: Some (default con x2) :: t
  | _ => t
  end.

Lemma lowest_none t p : lowest t = Some p → t !! p = Some None.
Proof. revert p. induction t as [|[o|] t IH]; intros p Hp; cbn in Hp; [done| |by injection Hp as <-]. destruct (lowest t) as [q|]; [|done]. injection Hp as <-. by apply IH. Qed.

Lemma open_console_S fuel t n k p : opens console O_RDWR = true → lowest t = Some p →
  exec_prog opens (open_console (S fuel) k) t n = if decide (3 ≤ p)%nat then exec_prog opens k t n else exec_prog opens (open_console fuel k) (<[p := Some con]> t) n.
Proof.
  intros Ho Hp. cbn [open_console exec_prog]. rewrite Ho, Hp. destruct (Z.leb_spec 0 (Z.of_nat p)); [|lia].
  destruct (decide (3 ≤ p)%nat); destruct (Z.leb_spec 3 (Z.of_nat p)); try lia; [|done]. cbn [exec_prog]. rewrite Nat2Z.id, list_insert_insert_eq, list_insert_id; [done|by apply lowest_none].
Qed.

(** The shell opens the console until it gets a descriptor above 2, and closes that one. *)
Lemma open_console_fill t n k : opens console O_RDWR = true → (3 ≤ length t)%nat → table_ok (fill3 t) →
  exec_prog opens (open_console 4 k) t n = exec_prog opens k (fill3 t) n.
Proof.
  intros Ho Hl (a & b & Ht). destruct t as [|x0 [|x1 [|x2 t]]]; cbn in Hl; try lia. destruct (table_lowest _ a b Ht) as [Ha _]. cbn in Ha.
  assert (∃ q, lowest t = Some q) as (q & Hq) by (destruct (lowest t) as [q|]; [by exists q|done]).
  destruct x0, x1, x2;
    repeat (erewrite open_console_S; [|done|cbn [lowest insert list_insert]; rewrite ?Hq; reflexivity]; (rewrite decide_True by lia) || (rewrite decide_False by lia; cbn [insert list_insert])); done.
Qed.

(** ** A line from the user to the programs *)

(** The parser's result on a text, with what is needed of it. *)
Lemma parse_text c : aok c → ∃ c' b s, parsecmd (text 0 c) 0%nat = Ret (c', b) s ∧ redirs_ok c' ∧ meaning (λ w, cstr b w.1) c' = c.
Proof.
  intros Hok. pose proof (runs_parse_text c Hok) as H. unfold runs in H. destruct (parsecmd (text 0 c) 0%nat) as [[c' b] s|]; [|done]. exists c', b, s. tauto.
Qed.

End Correct.

Definition ex_table : fdt := replicate 16 None.
