(* ===== verification/Nsh.v ===== *)
(** * The second shell (user/nsh.c)

    Commands are kept in a stack of 100 entries and point to each other by their index; words and file names are copied
    to two tables of ten rows of [MAXPATH] bytes.  Writing behind a table is [Undefined].  The line is read by position. *)

From S2P Require Import Prelude Memory Riscv Sh ShPrint ShRun.

Definition MAXBUFSIZ : Z := 256.
Definition MAXSTACKSIZ : Z := 100.

(** [cmd]: None is a pointer not set yet or to [nullcmd]; a word is its row of [tokens], a file name that of [files]. *)
Inductive ncmd :=
| NULLcmd
| Execcmd (argv : list nat)
| Pipecmd (left right : option nat)
| Redircmd (sub : option nat) (out : bool) (fd mode : Z) (file : option nat).

Record nsh_st := NshSt { ns_stack : list ncmd; ns_tokens : list (list Z); ns_files : list (list Z) }.
Definition set_nstack v s := NshSt v (ns_tokens s) (ns_files s).
Definition set_ntokens v s := NshSt (ns_stack s) v (ns_files s).
Definition set_nfiles v s := NshSt (ns_stack s) (ns_tokens s) v.

(** [init] *)
Definition nsh_init : nsh_st :=
  NshSt (replicate (Z.to_nat MAXSTACKSIZ) NULLcmd) (replicate (Z.to_nat MAXARGS) []) (replicate (Z.to_nat MAXARGS) []).

Abbreviation N := (M nsh_st).
Definition is_null (c : ncmd) : bool := match c with NULLcmd => true | _ => false end.

(** [allocatestack], [allocatetokens], [allocatefiles]: the first free entry. *)
Fixpoint first_free {A} (free : A → bool) (l : list A) : option nat :=
  match l with
  | [] => None
  | x :: l => if free x then Some 0%nat else S <$> first_free free l
  end.
Definition allocate {A} (get : nsh_st → list A) (free : A → bool) : N nat :=
  l ← gets get;
  match first_free free l with
  | Some i => mret i
  | None => stop (Undefined "table full")
  end.
Definition allocatestack : N nat := allocate ns_stack is_null.
Definition allocatetokens : N nat := allocate ns_tokens (λ w, bool_decide (w = [])).
Definition allocatefiles : N nat := allocate ns_files (λ w, bool_decide (w = [])).

Definition put_cmd (i : nat) (c : ncmd) : N unit := modify (λ s, set_nstack (<[i := c]> (ns_stack s)) s).

Section Line.
Context (line : list Z).        (* the bytes before the NUL *)

Definition at_pos (p : Z) : Z := if p <? 0 then 0 else nth (Z.to_nat p) line 0.

(** [while(s < es && f( *s )) s++] *)
Fixpoint nsh_skip (fuel : nat) (f : Z → bool) (es s : Z) : Z :=
  match fuel with
  | O => s
  | S fuel => if (s <? es) && f (at_pos s) then nsh_skip fuel f es (s + 1) else s
  end.

(** [gettoken]: the new position, counted from [ps], and the token's limits. *)
Definition nsh_gettoken (ps es startpos : Z) : Z * Z * Z :=
  let s := ps + startpos in
  let token := nsh_skip (S (length line)) is_ws es s in
  let s := nsh_skip (S (length line)) (λ c, negb (is_ws c)) es token in
  (s - ps, token, s).

(** [parsetoken]: the bytes of a token, for a row of MAXPATH bytes. *)
Definition parsetoken (token endoftoken : Z) : N (list Z) :=
  let w := at_pos <$> seqZ token (endoftoken - token) in
  if MAXPATH <=? alen w then stop (Undefined "token too long") else mret w.

(** The last position from [es] down to [s] with one of these characters. *)
Fixpoint rscan (fuel : nat) (f : Z → bool) (es : Z) : option Z :=
  match fuel with
  | O => None
  | S fuel => if f (at_pos es) then Some es else rscan fuel f (es - 1)
  end.
Definition last_of (f : Z → bool) (s es : Z) : option Z := rscan (Z.to_nat (es - s + 1)) f es.

Definition is_pipe (c : Z) : bool := c =? 124.
Definition is_redir (c : Z) : bool := (c =? 60) || (c =? 62).

(** The arguments of a command: rows of [tokens]. *)
Definition nsh_args (_cmd _endofcmd : Z) : N (list nat) :=
  let totallen := _endofcmd - _cmd in
  loop (S (length line)) (λ pa : Z * list nat, let '(startpos, argv) := pa in
    if startpos <? totallen then
      let '(startpos, token, endoftoken) := nsh_gettoken _cmd _endofcmd startpos in
      if at_pos token =? 32 then mret (inl (startpos, argv)) else
      pos ← allocatetokens;
      w ← parsetoken token endoftoken;
      modify (λ s, set_ntokens (<[pos := w]> (ns_tokens s)) s);;
      if MAXARGS <=? alen argv then stop (Undefined "argv") else
      mret (inl (startpos, argv ++ [pos]))
    else if MAXARGS <=? alen argv then stop (Undefined "argv")
    else mret (inr argv)) (0, []).

Fixpoint nsh_parsecmd (fuel : nat) (_cmd _endofcmd : Z) (cur : nat) : N nat :=
  match fuel with
  | O => stop NoFuel
  | S fuel =>
      match last_of is_pipe _cmd _endofcmd with
      | Some s =>
          put_cmd cur (Pipecmd None None);;
          i ← allocatestack;
          l ← nsh_parsecmd fuel _cmd (s - 1) i;
          put_cmd cur (Pipecmd (Some l) None);;
          i ← allocatestack;
          r ← nsh_parsecmd fuel (s + 1) _endofcmd i;
          put_cmd cur (Pipecmd (Some l) (Some r));;
          mret cur
      | None =>
          match last_of is_redir _cmd _endofcmd with
          | Some s =>
              let out := negb (at_pos s =? 60) in
              let fd := if out then 1 else 0 in
              let mode := if out then Z.lor O_WRONLY O_CREATE else O_RDONLY in
              put_cmd cur (Redircmd None out fd mode None);;
              i ← allocatestack;
              sub ← nsh_parsecmd fuel _cmd (s - 1) i;
              let '(_, file, endoffile) := nsh_gettoken _cmd _endofcmd (s - _cmd + 1) in
              pos ← allocatefiles;
              w ← parsetoken file endoffile;
              modify (λ st, set_nfiles (<[pos := w]> (ns_files st)) st);;
              put_cmd cur (Redircmd (Some sub) out fd mode (Some pos));;
              mret cur
          | None =>
              put_cmd cur (Execcmd []);;
              argv ← nsh_args _cmd _endofcmd;
              put_cmd cur (Execcmd argv);;
              mret cur
          end
      end
  end.
End Line.

(** ** Running commands

    [k] is what the process does when [evaluate] returns, which it does when [exec] fails; [junk] is what the array [pd] holds if [pipe]
    fails.  Entries point to later entries, so the fuel is never used up. *)
Section Evaluate.
Context (junk : Z * Z) (st : nsh_st).

Definition str_of (rows : list (list Z)) (i : nat) : list Z := nth i rows [].

Fixpoint evaluate (fuel : nat) (c : option nat) (k : prog) : prog :=
  match fuel, c with
  | O, _ | _, None => k
  | S fuel, Some c =>
      match nth c (ns_stack st) NULLcmd with
      | NULLcmd => k
      | Pipecmd l r =>
          MkPipe (λ o, let '(p0, p1) := default junk o in
            Fork (λ pid,
              if pid =? 0 then Close 1 (Dup p1 (Close p0 (Close p1 (evaluate fuel l (Wait k)))))
              else Close 0 (Dup p0 (Close p0 (Close p1 (evaluate fuel r (Wait k)))))))
      | Execcmd argv => ExecCall (str_of (ns_tokens st) <$> argv) k
      | Redircmd sub out fd mode file =>
          let name := from_option (str_of (ns_files st)) [] file in
          Close fd (Open name mode (λ r,
            if r <? 0 then Print "open %s failed" name (Exit (-1)) else evaluate fuel sub k))
      end
  end.
End Evaluate.

(** [preprocessCmd]: without the newline at the end. *)
Definition preprocessCmd (cmd : list Z) : list Z :=
  if nth (length cmd - 1) cmd 0 =? 10 then take (length cmd - 1) cmd else cmd.

(** A line up to [evaluate], which is run by a child; None if the parser writes outside its tables. *)
Definition nsh_line (junk : Z * Z) (line : list Z) : option (prog → prog) :=
  match nsh_parsecmd line (S (length line)) 0 (alen line) 0%nat nsh_init with
  | Ret c st => Some (evaluate junk st (Z.to_nat MAXSTACKSIZ) (Some c))
  | Stop _ _ => None
  end.

(** The lines [gets] returns; after the last one it returns an empty string.  The child goes on like its parent if it comes back. *)
Fixpoint nsh_main (junk : Z * Z) (lines : list (list Z)) : option prog :=
  match lines with
  | [] => Some (Print "@ " [] (Exit 0))
  | line :: lines =>
      let cmd := preprocessCmd line in
      if bool_decide (cmd = []) then Some (Print "@ " [] (Exit 0)) else
      ev ← nsh_line junk cmd;
      k ← nsh_main junk lines;
      Some (Print "@ " [] (Fork (λ pid, if pid =? 0 then ev (Wait k) else Wait k)))
  end.

(** * The second shell runs the commands its lines stand for *)

(** ** Commands and their text

    Pipelines of commands with arguments and redirections, with blanks between all words and symbols. *)

Definition nword (w : list Z) : Prop := w ≠ [] ∧ alen w < MAXPATH ∧ ∀ c, c ∈ w → is_ws c = false ∧ is_pipe c = false ∧ is_redir c = false ∧ c ≠ 0.

Fixpoint simple (c : acmd) : Prop :=
  match c with
  | AExec argv => argv ≠ [] ∧ alen argv < MAXARGS ∧ ∀ w, w ∈ argv → nword w
  | ARedir c f _ => simple c ∧ nword f
  | _ => False
  end.
Fixpoint pipeline (c : acmd) : Prop :=
  match c with
  | APipe l r => pipeline l ∧ simple r
  | _ => simple c
  end.

(** Words, the first after [p] and each other one after a blank. *)
Fixpoint spaced (p : list Z) (ws : list (list Z)) : list Z :=
  match ws with
  | [] => []
  | w :: ws => p ++ w ++ spaced [32] ws
  end.
Fixpoint ntext (c : acmd) : list Z :=
  match c with
  | AExec argv => spaced [] argv
  | ARedir c f out => ntext c ++ [32; if out then 62 else 60; 32] ++ f
  | APipe l r => ntext l ++ [32; 124; 32] ++ ntext r
  | _ => []
  end.

(** The entries and rows a command takes. *)
Fixpoint words (c : acmd) : list (list Z) :=
  match c with AExec argv => argv | ARedir c _ _ => words c | APipe l r => words l ++ words r | _ => [] end.
Fixpoint names (c : acmd) : list (list Z) :=
  match c with ARedir c f _ => names c ++ [f] | APipe l r => names l ++ names r | _ => [] end.
Fixpoint nodes (i t f : nat) (c : acmd) : list ncmd :=
  match c with
  | AExec argv => [Execcmd (seq t (length argv))]
  | ARedir c _ out =>
      Redircmd (Some (S i)) out (if out then 1 else 0) (redir_mode out) (Some (f + length (names c))%nat) :: nodes (S i) t f c
  | APipe l r =>
      let m := length (nodes (S i) t f l) in
      Pipecmd (Some (S i)) (Some (S i + m)%nat) :: nodes (S i) t f l ++ nodes (S i + m) (t + length (words l)) (f + length (names l)) r
  | _ => []
  end.

(** ** Text in the line *)

Section Line.
Context (line : list Z).

Definition here (p : Z) (l : list Z) : Prop := 0 ≤ p ∧ ∀ i x, l !! i = Some x → at_pos line (p + Z.of_nat i) = x.

Lemma here_app p a b : here p (a ++ b) ↔ here p a ∧ here (p + alen a) b.
Proof.
  unfold here, alen. split.
  - intros [Hp H]. split; (split; [lia|]); intros i x Hx.
    + apply H. by apply lookup_app_l_Some.
    + replace (p + Z.of_nat (length a) + Z.of_nat i) with (p + Z.of_nat (length a + i)) by lia. apply H. rewrite lookup_app_r by lia. by replace (length a + i - length a)%nat with i by lia.
  - intros [[Hp Ha] [_ Hb]]. split; [done|]. intros i x Hx. apply lookup_app_Some in Hx as [Hx|[Hle Hx]]; [by apply Ha|].
    replace (p + Z.of_nat i) with (p + Z.of_nat (length a) + Z.of_nat (i - length a)) by lia. by apply Hb.
Qed.
Lemma here_cons p x l : here p (x :: l) ↔ here p [x] ∧ here (p + 1) l.
Proof. apply (here_app p [x] l). Qed.
Lemma here_one p x : here p [x] → at_pos line p = x.
Proof. intros [_ H]. specialize (H 0%nat x eq_refl). by rewrite Z.add_0_r in H. Qed.

(** The whole line is at 0. *)
Lemma here_line : here 0 line.
Proof. split; [done|]. intros i x Hx. unfold at_pos. rewrite (proj2 (Z.ltb_ge _ 0)) by lia. replace (Z.to_nat (0 + Z.of_nat i)) with i by lia. by apply nth_lookup_Some. Qed.
Lemma at_end : at_pos line (alen line) = 0.
Proof. unfold at_pos, alen. rewrite (proj2 (Z.ltb_ge _ 0)) by lia. rewrite Nat2Z.id. by apply nth_overflow. Qed.

Lemma here_read p l : here p l → at_pos line <$> seqZ p (alen l) = l.
Proof.
  intros [_ H]. apply list_eq. intros i. rewrite list_lookup_fmap. destruct (l !! i) as [x|] eqn:E.
  - rewrite lookup_seqZ_lt by (apply lookup_lt_Some in E; unfold alen; lia). cbn. f_equal. by apply H.
  - rewrite lookup_seqZ_ge by (apply lookup_ge_None_1 in E; unfold alen; lia). done.
Qed.

(** ** Scanning *)

Lemma skip_run f es l : ∀ fuel s, here s l → Forall (λ c, f c = true) l → s + alen l ≤ es → (length l < fuel)%nat →
  (s + alen l = es ∨ f (at_pos line (s + alen l)) = false) → nsh_skip line fuel f es s = s + alen l.
Proof.
  induction l as [|c l IH]; intros fuel s Hl Hf Hes Hfu Hstop; (destruct fuel as [|fuel]; [cbn in Hfu; lia|]); cbn [nsh_skip].
  - unfold alen in *. cbn [length Z.of_nat] in *. rewrite Z.add_0_r in *. destruct Hstop as [->|Hstop]; [by rewrite Z.ltb_irrefl|]. rewrite Hstop. by rewrite andb_false_r.
  - assert (alen (c :: l) = 1 + alen l) as E by (unfold alen; cbn [length]; lia). rewrite E in *. assert (0 ≤ alen l) by (unfold alen; lia).
    apply here_cons in Hl as [Hc Hl]. apply here_one in Hc. apply Forall_cons in Hf as [Hfc Hf]. rewrite Hc, Hfc, (proj2 (Z.ltb_lt _ _)) by lia. cbn [andb].
    rewrite IH; [lia|done|done|lia|cbn in Hfu; lia|]. replace (s + 1 + alen l) with (s + (1 + alen l)) by lia. done.
Qed.

Lemma rscan_none f b : ∀ n es, (∀ p, es - Z.of_nat n < p ≤ es → f (at_pos line p) = false) → b = es - Z.of_nat n + 1 → rscan line n f es = None.
Proof.
  induction n as [|n IH]; intros es Hf Hb; cbn [rscan]; [done|]. rewrite Hf by lia. apply IH; [|lia]. intros p Hp. apply Hf. lia.
Qed.
Lemma rscan_some f s : ∀ n es, f (at_pos line s) = true → (∀ p, s < p ≤ es → f (at_pos line p) = false) → s ≤ es → es - Z.of_nat n < s → rscan line n f es = Some s.
Proof.
  induction n as [|n IH]; intros es Hs Hf Hle Hn; [lia|]. cbn [rscan]. destruct (decide (s = es)) as [->|Hne]; [by rewrite Hs|].
  rewrite Hf by lia. apply IH; [done|intros p Hp; apply Hf; lia|lia|lia].
Qed.

(** The characters of a text. *)
Lemma here_forall f p l q : here p l → Forall (λ c, f c = false) l → p ≤ q < p + alen l → f (at_pos line q) = false.
Proof.
  intros [Hp H] Hf Hq. unfold alen in Hq. destruct (lookup_lt_is_Some_2 l (Z.to_nat (q - p))) as [x Hx]; [lia|].
  specialize (H _ _ Hx). replace (p + Z.of_nat (Z.to_nat (q - p))) with q in H by lia. rewrite H. eapply Forall_forall in Hf; [exact Hf|]. by eapply list_elem_of_lookup_2.
Qed.

Lemma last_of_none f b es l : here b l → es = b + alen l → Forall (λ c, f c = false) l → f (at_pos line es) = false → last_of line f b es = None.
Proof.
  intros Hl -> Hf He. assert (0 ≤ alen l) by (unfold alen; lia). apply (rscan_none f b); [|lia]. intros p Hp. destruct (decide (p = b + alen l)) as [->|]; [done|]. apply (here_forall f b l); [done..|lia].
Qed.
Lemma last_of_some f b es l x r : here b (l ++ [x] ++ r) → es = b + alen (l ++ [x] ++ r) → f x = true → Forall (λ c, f c = false) r → f (at_pos line es) = false →
  last_of line f b es = Some (b + alen l).
Proof.
  intros Hl -> Hx Hr He. assert (alen (l ++ [x] ++ r) = alen l + 1 + alen r) as E by (unfold alen; rewrite !length_app; cbn [length]; lia). rewrite E in *.
  assert (0 ≤ alen l ∧ 0 ≤ alen r) by (unfold alen; lia). apply here_app in Hl as [_ Hl]. apply here_app in Hl as [Hx' Hl]. change (alen [x]) with 1 in Hl. apply here_one in Hx'.
  apply rscan_some; [by rewrite Hx'| |lia|lia]. intros p Hp. destruct (decide (p = b + (alen l + 1 + alen r))) as [->|]; [done|]. apply (here_forall f (b + alen l + 1) r); [done..|lia].
Qed.

(** ** Tokens *)

Lemma gettoken_word ps es start p w : p = [] ∨ p = [32] → nword w → here (ps + start) (p ++ w) → ps + start + alen (p ++ w) ≤ es → es ≤ alen line →
  (ps + start + alen (p ++ w) = es ∨ is_ws (at_pos line (ps + start + alen (p ++ w))) = true) →
  nsh_gettoken line ps es start = (start + alen (p ++ w), ps + start + alen p, ps + start + alen (p ++ w)).
Proof.
  intros Hp (Hw0 & _ & Hw) Hl Hes Hlen Hstop. assert (alen (p ++ w) = alen p + alen w) as E by (unfold alen; rewrite length_app; lia). rewrite E in *.
  pose proof Hl as [H0 _]. apply here_app in Hl as [Hp' Hw']. assert (0 < alen w) by (destruct w; [done|unfold alen; cbn [length]; lia]). assert (0 ≤ alen p) by (unfold alen; lia).
  assert (Forall (λ c, is_ws c = false) w) as Hws by (apply Forall_forall; intros c Hc; apply Hw, Hc).
  unfold nsh_gettoken. rewrite (skip_run is_ws es p); [|done|by destruct Hp as [-> | ->]; repeat constructor|lia|unfold alen in *; lia|].
  2:{ right. apply (here_forall is_ws (ps + start + alen p) w); [done..|lia]. }
  rewrite (skip_run _ es w); [f_equal; [f_equal; lia|lia]|done| |lia|unfold alen in *; lia|].
  - eapply Forall_impl; [exact Hws|]. cbn. intros c ->. done.
  - destruct Hstop as [Hs|Hs]; [left; lia|]. right. replace (ps + start + alen p + alen w) with (ps + start + (alen p + alen w)) by lia. by rewrite Hs.
Qed.

Lemma runs_parsetoken p w s : nword w → here p w → runs (parsetoken line p (p + alen w)) s (λ r s', r = w ∧ s' = s).
Proof.
  intros (_ & Hm & _) Hw. unfold parsetoken. replace (p + alen w - p) with (alen w) by lia. rewrite here_read by done. rewrite (proj2 (Z.leb_gt _ _)) by done. kstep. done.
Qed.
End Line.

(** ** The tables *)

Definition tables (S : list ncmd) (W F : list (list Z)) : nsh_st :=
  NshSt (S ++ replicate (100 - length S) NULLcmd) (W ++ replicate (10 - length W) []) (F ++ replicate (10 - length F) []).

Lemma first_free_app {A} (free : A → bool) l x n : Forall (λ y, free y = false) l → free x = true → (0 < n)%nat → first_free free (l ++ replicate n x) = Some (length l).
Proof.
  intros Hl Hx Hn. induction Hl as [|y l Hy Hl IH]; cbn [first_free app length]; [destruct n; [lia|]; cbn; by rewrite Hx|]. by rewrite Hy, IH.
Qed.

Lemma insert_next {A} (l : list A) n x y : (length l < n)%nat → <[length l := y]> (l ++ replicate (n - length l) x) = (l ++ [y]) ++ replicate (n - length (l ++ [y])) x.
Proof.
  intros H. rewrite insert_app_r_alt, Nat.sub_diag by lia. rewrite length_app. cbn [length]. replace (n - length l)%nat with (S (n - (length l + 1))) by lia. cbn. by rewrite <- app_assoc.
Qed.

Definition full (W : list (list Z)) : Prop := Forall (λ w, w ≠ []) W.
Lemma full_free W : full W → Forall (λ w, bool_decide (w = []) = false) W.
Proof. intros H. eapply Forall_impl; [exact H|]. intros w Hw. by apply bool_decide_eq_false_2. Qed.
Definition used (S : list ncmd) : Prop := Forall (λ c, is_null c = false) S.

Lemma runs_allocatetokens S W F : full W → (length W < 10)%nat → runs allocatetokens (tables S W F) (λ r s', r = length W ∧ s' = tables S W F).
Proof. intros H1 H2. unfold allocatetokens, allocate. kstep. kstep. cbn [tables ns_tokens]. rewrite first_free_app; [|by apply full_free|done|lia]. by kstep. Qed.
Lemma runs_allocatefiles S W F : full F → (length F < 10)%nat → runs allocatefiles (tables S W F) (λ r s', r = length F ∧ s' = tables S W F).
Proof. intros H1 H2. unfold allocatefiles, allocate. kstep. kstep. cbn [tables ns_files]. rewrite first_free_app; [|by apply full_free|done|lia]. by kstep. Qed.
Lemma runs_allocatestack S W F : used S → (length S < 100)%nat → runs allocatestack (tables S W F) (λ r s', r = length S ∧ s' = tables S W F).
Proof. intros H1 H2. unfold allocatestack, allocate. kstep. kstep. cbn [tables ns_stack]. rewrite first_free_app by (done || lia). by kstep. Qed.

(** A new entry, and a change of an old one. *)
Lemma runs_put_new c S W F : (length S < 100)%nat → runs (put_cmd (length S) c) (tables S W F) (λ _ s', s' = tables (S ++ [c]) W F).
Proof. intros H. unfold put_cmd. kstep. unfold set_nstack, tables. cbn. by rewrite insert_next. Qed.
Lemma runs_put_old c c0 S S' W F : runs (put_cmd (length S) c) (tables (S ++ [c0] ++ S') W F) (λ _ s', s' = tables (S ++ [c] ++ S') W F).
Proof.
  unfold put_cmd. kstep. unfold set_nstack, tables. cbn [ns_stack ns_tokens ns_files]. f_equal. rewrite <- !app_assoc. rewrite insert_app_r_alt, Nat.sub_diag by lia. rewrite !length_app. done.
Qed.

Lemma runs_put_file w S W F : (length F < 10)%nat → runs (modify (λ st, set_nfiles (<[length F := w]> (ns_files st)) st)) (tables S W F) (λ _ s', s' = tables S W (F ++ [w])).
Proof. intros H. kstep. unfold set_nfiles, tables. cbn. by rewrite insert_next. Qed.

(** ** Arguments *)

Lemma runs_nsh_args line b e p argv S W F : p = [] ∨ p = [32] → (∀ w, w ∈ argv → nword w) → here line b (spaced p argv) → e = b + alen (spaced p argv) → e ≤ alen line →
  full W → (length W + length argv ≤ 10)%nat → alen argv < MAXARGS →
  runs (nsh_args line b e) (tables S W F) (λ r s', r = seq (length W) (length argv) ∧ s' = tables S (W ++ argv) F).
Proof.
  intros Hp Hw Hl He Hle HW H10 HM. unfold nsh_args.
  apply (runs_loop_nat _ (λ n pa s', ∃ ws ws' p', argv = ws ++ ws' ∧ n = length ws' ∧ (p' = [] ∨ p' = [32]) ∧ here line (b + pa.1) (spaced p' ws') ∧
    b + pa.1 + alen (spaced p' ws') = e ∧ pa.2 = seq (length W) (length ws) ∧ s' = tables S (W ++ ws) F) _ _ (length argv)).
  - intros n [pos idx] s' (ws & ws' & p' & -> & -> & Hp' & Hl' & He' & Hidx & ->). cbn [fst snd] in *. destruct ws' as [|w ws'].
    + unfold alen in He' at 1. cbn [spaced length] in He'. rewrite (proj2 (Z.ltb_ge _ _)) by lia. rewrite app_nil_r in *. subst idx. unfold alen at 1. rewrite length_seq.
      rewrite (proj2 (Z.leb_gt _ _)) by done. kstep. done.
    + cbn [spaced] in Hl', He'. assert (nword w) as Hww by (apply Hw, elem_of_app; right; by apply elem_of_cons; left).
      assert (alen (p' ++ w ++ spaced [32] ws') = alen (p' ++ w) + alen (spaced [32] ws')) as Ea by (rewrite app_assoc; unfold alen; rewrite length_app; lia). rewrite Ea in He'.
      rewrite app_assoc in Hl'. apply here_app in Hl' as [Hpw Hrest]. assert (0 ≤ alen (spaced [32] ws')) by (unfold alen; lia). assert (0 < alen w) by (destruct Hww as [Hww _]; destruct w; [done|unfold alen; cbn [length]; lia]).
      assert (alen (p' ++ w) = alen p' + alen w) as Epw by (unfold alen; rewrite length_app; lia). assert (0 ≤ alen p') by (unfold alen; lia).
      rewrite (proj2 (Z.ltb_lt _ _)) by lia. rewrite (gettoken_word line b e pos p' w); [|done|done|done|lia|lia|].
      2:{ destruct ws' as [|w' ws']; [left; unfold alen in *; cbn in *; lia|]. right. cbn [spaced app] in Hrest. apply here_cons in Hrest as [Hsp _]. apply here_one in Hsp. by rewrite Hsp. }
      assert (at_pos line (b + pos + alen p') ≠ 32) as Hn32.
      { apply here_app in Hpw as [_ Hw']. destruct w as [|c w]; [unfold alen in *; cbn in *; lia|]. apply here_cons in Hw' as [Hc _]. apply here_one in Hc. rewrite Hc. intros ->.
        destruct Hww as (_ & _ & Hww). destruct (Hww 32) as [Hx _]; [by apply elem_of_cons; left|]. done. }
      rewrite (proj2 (Z.eqb_neq _ _)) by done. rewrite length_app in H10. cbn [length] in H10.
      kstep. eapply runs_mono; [apply runs_allocatetokens; [|rewrite length_app; lia]|].
      { apply Forall_app. split; [done|]. apply Forall_forall. intros x Hx. apply (Hw x). by apply elem_of_app; left. }
      intros r s1 [-> ->]. kstep. replace (b + pos + alen (p' ++ w)) with (b + pos + alen p' + alen w) by lia.
      eapply runs_mono; [apply runs_parsetoken; [done|]; apply here_app in Hpw as [_ Hw']; exact Hw'|]. intros r s1 [-> ->]. kstep. kstep.
      assert (alen idx < MAXARGS) as Hidx10 by (subst idx; unfold alen in *; rewrite length_seq; rewrite length_app in HM; lia). rewrite (proj2 (Z.leb_gt _ _)) by done. kstep.
      exists (length ws'). split; [cbn; lia|]. exists (ws ++ [w]), ws', [32]. cbn [fst snd]. split; [by rewrite <- app_assoc|]. split; [done|]. split; [by right|].
      split; [by rewrite Z.add_assoc|]. split; [lia|]. split.
      * subst idx. rewrite !length_app. cbn [length]. by rewrite seq_app.
      * unfold set_ntokens, tables. cbn [ns_stack ns_tokens ns_files]. f_equal. rewrite insert_next by (rewrite length_app; lia). by rewrite <- !app_assoc.
  - exists [], argv, p. cbn [fst snd]. rewrite Z.add_0_r, app_nil_r. done.
  - assert (length argv ≤ length (spaced p argv))%nat as Hlen; [|destruct Hl as [Hb _]; unfold alen in *; lia]. clear -Hw. revert p. induction argv as [|w argv IH]; intros p; cbn [spaced length]; [lia|].
    rewrite !length_app. specialize (IH ltac:(intros x Hx; apply Hw; by apply elem_of_cons; right) [32]). destruct (Hw w) as [H _]; [by apply elem_of_cons; left|]. destruct w; [done|]. cbn [length]. lia.
Qed.

(** ** Commands *)

Lemma nodes_used c : ∀ i t f, used (nodes i t f c).
Proof.
  induction c as [argv|c IH f out|l IHl r IHr|l IHl r IHr|c IH]; intros i t g; cbn [nodes]; [by repeat constructor| | |constructor|constructor].
  - apply Forall_cons_2; [done|]. apply IH.
  - apply Forall_cons_2; [done|]. apply Forall_app. split; [apply IHl|apply IHr].
Qed.
Lemma nodes_length c : ∀ i t f i' t' f', length (nodes i t f c) = length (nodes i' t' f' c).
Proof.
  induction c as [| |l IHl r IHr| |]; intros i t f i' t' f'; cbn [nodes length]; auto. rewrite !length_app. f_equal. f_equal; auto.
Qed.
Lemma simple_pipeline c : simple c → pipeline c.
Proof. by destruct c. Qed.
Lemma pipeline_words c : pipeline c → full (words c) ∧ full (names c).
Proof.
  assert (∀ c, simple c → full (words c) ∧ full (names c)) as Hs.
  { clear. induction c as [argv|c IH f out|l IHl r IHr|l IHl r IHr|c IH]; cbn [simple words names]; try done.
    - intros (_ & _ & Hw). split; [|constructor]. apply Forall_forall. intros w Hin. apply Hw, Hin.
    - intros [Hc Hf]. destruct (IH Hc) as [H1 H2]. split; [done|]. apply Forall_app. split; [done|]. constructor; [apply Hf|constructor]. }
  induction c as [argv|c IH f out|l IHl r IHr|l IHl r IHr|c IH]; try apply Hs. intros [Hl Hr]. destruct (IHl Hl) as [H1 H2], (Hs r Hr) as [H3 H4].
  cbn [words names]. split; by apply Forall_app.
Qed.

Lemma spaced_forall (g : Z → bool) argv : (∀ w, w ∈ argv → ∀ c, c ∈ w → g c = false) → g 32 = false → ∀ p, Forall (λ c, g c = false) p → Forall (λ c, g c = false) (spaced p argv).
Proof.
  intros Hw H32. induction argv as [|w argv IH]; intros p Hp; cbn [spaced]; [constructor|]. apply Forall_app. split; [done|]. apply Forall_app. split.
  - apply Forall_forall. intros c Hc. apply (Hw w); [by apply elem_of_cons; left|done].
  - apply IH; [intros w' Hw'; apply Hw; by apply elem_of_cons; right|by repeat constructor].
Qed.
Lemma simple_no_pipe c : simple c → Forall (λ c, is_pipe c = false) (ntext c).
Proof.
  induction c as [argv|c IH f out|l IHl r IHr|l IHl r IHr|c IH]; cbn [simple ntext]; try done.
  - intros (_ & _ & Hw). apply spaced_forall; [|done|constructor]. intros w Hin x Hx. by apply (Hw w Hin).
  - intros [Hc (_ & _ & Hf)]. apply Forall_app. split; [by apply IH|]. apply Forall_app. split; [by destruct out; repeat constructor|]. apply Forall_forall. intros x Hx. by apply Hf.
Qed.

(** A prefix that is empty or a blank. *)
Definition pad (p : list Z) : Prop := p = [] ∨ p = [32].
Lemma pad_forall g p : pad p → g 32 = false → Forall (λ c, g c = false) p.
Proof. intros [-> | ->] H; by repeat constructor. Qed.
Lemma spaced_pad p argv : argv ≠ [] → p ++ spaced [] argv = spaced p argv.
Proof. by destruct argv. Qed.

Section Parse.
Context (line : list Z).

(** The range of the line a call of the parser is given. *)
Record range (b e : Z) (text : list Z) : Prop := {
  rg_here : here line b text;
  rg_end : e = b + alen text;
  rg_line : e ≤ alen line;
  rg_after : at_pos line e = 32 ∨ at_pos line e = 0;
}.
Record room (S : list ncmd) (W F : list (list Z)) (c : acmd) (fuel : nat) : Prop := {
  rm_used : used S;
  rm_full : full W ∧ full F;
  rm_stack : (length S + length (nodes 0 0 0 c) ≤ 100)%nat;
  rm_words : (length W + length (words c) ≤ 10)%nat;
  rm_names : (length F + length (names c) ≤ 10)%nat;
  rm_fuel : (length (nodes 0 0 0 c) ≤ fuel)%nat;
}.
Definition parses (c : acmd) : Prop := ∀ fuel b e p S W F, pad p → range b e (p ++ ntext c) → room S W F c fuel →
  runs (nsh_parsecmd line fuel b e (length S)) (tables S W F) (λ r s', r = length S ∧
    s' = tables (S ++ nodes (length S) (length W) (length F) c) (W ++ words c) (F ++ names c)).

Lemma after_no_sym g e : at_pos line e = 32 ∨ at_pos line e = 0 → g 32 = false → g 0 = false → g (at_pos line e) = false.
Proof. by intros [-> | ->]. Qed.

Lemma parses_exec argv : simple (AExec argv) → parses (AExec argv).
Proof.
  intros Hs fuel b e p S W F Hp [Hl He Hle Ha] [HS [HW HF] H1 H2 H3 H4]. pose proof Hs as (Hne & HM & Hw). pose proof (simple_no_pipe _ Hs) as Hnp. cbn [nodes ntext words names length] in *.
  assert (Forall (λ c, is_redir c = false) (spaced [] argv)) as Hnr by (apply spaced_forall; [intros w Hin x Hx; by apply (Hw w Hin)|done|constructor]).
  destruct fuel as [|fuel]; [lia|]. cbn [nsh_parsecmd].
  rewrite (last_of_none line _ _ _ _ Hl He); [|apply Forall_app; split; [by apply pad_forall|done]|by apply after_no_sym].
  rewrite (last_of_none line _ _ _ _ Hl He); [|apply Forall_app; split; [by apply pad_forall|done]|by apply after_no_sym].
  kstep. eapply runs_mono; [apply runs_put_new; lia|]. intros [] s1 ->. kstep. rewrite spaced_pad in Hl, He by done.
  eapply runs_mono; [by apply (runs_nsh_args line b e p argv)|]. intros r s2 [-> ->]. kstep. eapply runs_mono; [apply (runs_put_old _ _ S [])|].
  intros [] s3 ->. kstep. split; [done|]. by rewrite !app_nil_r.
Qed.

Lemma alen_app {A} (a b : list A) : alen (a ++ b) = alen a + alen b.
Proof. unfold alen. rewrite length_app. lia. Qed.
Lemma nodes_pos c : pipeline c → (0 < length (nodes 0 0 0 c))%nat.
Proof. destruct c; cbn; try lia; done. Qed.

(** The range before a symbol that follows a blank. *)
Lemma range_left b e p t x r : range b e (p ++ t ++ [32; x; 32] ++ r) → range b (b + alen (p ++ t)) (p ++ t) ∧ here line (b + alen (p ++ t) + 2) ([32] ++ r).
Proof.
  intros [Hl He Hle _]. rewrite app_assoc in Hl, He. assert (0 ≤ alen r) by (unfold alen; lia). rewrite !alen_app in He. change (alen [32; x; 32]) with 3 in He.
  apply here_app in Hl as [Hl Hr]. apply here_app in Hr as [Hx Hr]. change (alen [32; x; 32]) with 3 in Hr. change [32; x; 32] with ([32; x] ++ [32]) in Hx. apply here_app in Hx as [Hx H32].
  change (alen [32; x]) with 2 in H32. apply here_cons in Hx as [Hsp _]. split.
  - split; [done|done|rewrite alen_app; lia|]. left. by apply here_one.
  - apply here_app. split; [done|]. change (alen [32]) with 1. replace (b + alen (p ++ t) + 2 + 1) with (b + alen (p ++ t) + 3) by lia. done.
Qed.

Lemma sym_pos b e p t x r g : range b e (p ++ t ++ [32; x; 32] ++ r) → g x = true → g 32 = false → g 0 = false → Forall (λ c, g c = false) r →
  last_of line g b e = Some (b + alen (p ++ t) + 1) ∧ at_pos line (b + alen (p ++ t) + 1) = x.
Proof.
  intros [Hl He Hle Ha] Hx H32 H0 Hr. assert (p ++ t ++ [32; x; 32] ++ r = (p ++ t ++ [32]) ++ [x] ++ [32] ++ r) as E by (by rewrite <- !app_assoc). rewrite E in Hl, He.
  assert (alen (p ++ t ++ [32]) = alen (p ++ t) + 1) as El by (rewrite !alen_app; change (alen [32]) with 1; lia).
  split.
  - rewrite (last_of_some line g b e (p ++ t ++ [32]) x ([32] ++ r)); [by rewrite El, Z.add_assoc|done..|by repeat constructor|by apply after_no_sym].
  - apply here_app in Hl as [_ Hl]. apply here_app in Hl as [Hl _]. rewrite El, Z.add_assoc in Hl. by apply here_one.
Qed.

Lemma parses_redir c f out : simple (ARedir c f out) → parses c → parses (ARedir c f out).
Proof.
  intros Hs IH fuel b e p S W F Hp Hrg [HS [HW HF] H1 H2 H3 H4]. pose proof Hs as [Hc Hf]. pose proof (simple_no_pipe _ Hs) as Hnp. cbn [nodes ntext words names length] in *.
  rewrite (nodes_length c _ _ _ 0 0 0) in H1, H4. rewrite length_app in H3. cbn [length] in H3. destruct fuel as [|fuel]; [lia|]. cbn [nsh_parsecmd].
  rewrite (last_of_none line _ _ _ _ (rg_here _ _ _ Hrg) (rg_end _ _ _ Hrg)); [|apply Forall_app; split; [by apply pad_forall|done]|apply after_no_sym; [apply Hrg|done|done]].
  destruct (sym_pos b e p (ntext c) _ f is_redir Hrg) as [-> Ex]; [by destruct out|done|done|apply Forall_forall; intros x Hx; by apply Hf|].
  destruct (range_left b e p (ntext c) _ f Hrg) as [Hrl Hhf]. rewrite Ex. set (s := b + alen (p ++ ntext c) + 1) in *.
  assert (negb ((if out then 62 else 60) =? 60) = out) as -> by by destruct out.
  kstep. eapply runs_mono; [apply runs_put_new; lia|]. intros [] s1 ->. kstep. eapply runs_mono; [apply runs_allocatestack; [apply Forall_app; split; [done|by repeat constructor]|rewrite length_app; cbn [length]; pose proof (nodes_pos c (simple_pipeline c Hc)); lia]|].
  intros r s1 [-> ->]. kstep. replace (s - 1) with (b + alen (p ++ ntext c)) by lia.
  eapply runs_mono; [apply (IH fuel b _ p _ W F Hp Hrl)|].
  { split; [apply Forall_app; split; [done|by repeat constructor]|done|rewrite length_app; cbn [length]; lia|done|lia|lia]. }
  intros r s1 [-> ->]. destruct Hrg as [_ He Hle _]. assert (e = s + 1 + alen ([32] ++ f)) as He'. { unfold s. rewrite He, !alen_app. change (alen [32; if out then 62 else 60; 32]) with 3. change (alen [32]) with 1. lia. }
  replace (b + alen (p ++ ntext c) + 2) with (b + (s - b + 1)) in Hhf by (unfold s; lia). replace (s + 1) with (b + (s - b + 1)) in He' by lia.
  rewrite (gettoken_word line b e (s - b + 1) [32] f); [|by right|done|done|lia|done|by left]. change (alen [32]) with 1.
  kstep. destruct (pipeline_words c (simple_pipeline c Hc)) as [_ Hnames]. eapply runs_mono; [apply runs_allocatefiles; [by apply Forall_app|rewrite length_app; lia]|]. intros r s1 [-> ->].
  kstep. replace (b + (s - b + 1) + alen ([32] ++ f)) with (b + (s - b + 1) + 1 + alen f) by (rewrite alen_app; change (alen [32]) with 1; lia).
  apply here_app in Hhf as [_ Hhf]. eapply runs_mono; [by apply runs_parsetoken|]. intros r s1 [-> ->].
  kstep. eapply runs_mono; [apply runs_put_file; rewrite length_app; lia|]. intros [] s1 ->. kstep. rewrite <- (app_assoc S).
  eapply runs_mono; [apply runs_put_old|]. intros [] s1 ->. kstep. split; [done|]. rewrite !length_app. cbn [length]. rewrite Nat.add_1_r, <- (app_assoc F). by destruct out.
Qed.

Lemma parses_pipe l r : pipeline l → simple r → parses l → parses r → parses (APipe l r).
Proof.
  intros Hl Hr IHl IHr fuel b e p S W F Hp Hrg [HS [HW HF] H1 H2 H3 H4]. cbn [nodes ntext words names length] in *.
  rewrite length_app in H1, H2, H3, H4. rewrite (nodes_length l _ _ _ 0 0 0), (nodes_length r _ _ _ 0 0 0) in H1, H4. pose proof (nodes_pos l Hl). pose proof (nodes_pos r (simple_pipeline r Hr)).
  destruct fuel as [|fuel]; [lia|]. cbn [nsh_parsecmd]. destruct (sym_pos b e p (ntext l) 124 (ntext r) is_pipe Hrg) as [-> _]; [done|done|done|by apply simple_no_pipe|].
  destruct (range_left b e p (ntext l) 124 (ntext r) Hrg) as [Hrl Hhr]. set (s := b + alen (p ++ ntext l) + 1) in *.
  kstep. eapply runs_mono; [apply runs_put_new; lia|]. intros [] s1 ->. kstep.
  assert (∀ c, is_null c = false → used (S ++ [c])) as Hused by (intros c Hc; apply Forall_app; split; [done|by repeat constructor]).
  eapply runs_mono; [apply runs_allocatestack; [by apply Hused|rewrite length_app; cbn [length]; lia]|]. intros i s1 [-> ->]. kstep. replace (s - 1) with (b + alen (p ++ ntext l)) by lia.
  eapply runs_mono; [apply (IHl fuel b _ p _ W F Hp Hrl)|].
  { split; [by apply Hused|done|rewrite length_app; cbn [length]; lia|lia|lia|lia]. }
  intros i s1 [-> ->]. kstep. rewrite <- (app_assoc S). eapply runs_mono; [apply runs_put_old|]. intros [] s1 ->. kstep. rewrite (app_assoc S).
  assert (∀ c i t f, is_null c = false → used ((S ++ [c]) ++ nodes i t f l)) as Hused2 by (intros; apply Forall_app; split; [by apply Hused|apply nodes_used]).
  destruct (pipeline_words l Hl) as [HWl HFl].
  eapply runs_mono; [apply runs_allocatestack; [by apply Hused2|rewrite !length_app; cbn [length]; rewrite (nodes_length l _ _ _ 0 0 0); lia]|]. intros i s1 [-> ->]. kstep.
  eapply runs_mono; [apply (IHr fuel (s + 1) e [32] _ _ _ (or_intror eq_refl))|].
  { destruct Hrg as [_ He Hle Ha]. split; [by replace (s + 1) with (b + alen (p ++ ntext l) + 2) by lia| |done|done]. unfold s. rewrite He, !alen_app. change (alen [32; 124; 32]) with 3. change (alen [32]) with 1. lia. }
  { split; [by apply Hused2|split; by apply Forall_app|rewrite !length_app; cbn [length]; rewrite (nodes_length l _ _ _ 0 0 0); lia|rewrite length_app; lia|rewrite length_app; lia|lia]. }
  intros i s1 [-> ->]. kstep. rewrite <- !(app_assoc S). eapply runs_mono; [apply runs_put_old|]. intros [] s1 ->. kstep. split; [done|].
  rewrite !length_app. cbn [length app]. rewrite !Nat.add_1_r, <- !app_assoc. do 4 f_equal; f_equal; lia.
Qed.

Lemma parses_pipeline c : pipeline c → parses c.
Proof.
  assert (∀ c, simple c → parses c) as Hs.
  { clear. induction c as [argv|c IH f out|l IHl r IHr|l IHl r IHr|c IH]; try done; [apply parses_exec|]. intros H. apply parses_redir; [done|]. apply IH, H. }
  induction c as [argv|c IH f out|l IHl r IHr|l IHl r IHr|c IH]; try apply Hs. intros [Hl Hr]. apply parses_pipe; [done|done|by apply IHl|by apply Hs].
Qed.
End Parse.

(** ** Running *)

(** The command [c] is at entry [i]. *)
Record holds_cmd (st : nsh_st) (i t f : nat) (c : acmd) : Prop := {
  hc_nodes : ∀ j x, nodes i t f c !! j = Some x → nth (i + j) (ns_stack st) NULLcmd = x;
  hc_words : ∀ j w, words c !! j = Some w → nth (t + j) (ns_tokens st) [] = w;
  hc_names : ∀ j w, names c !! j = Some w → nth (f + j) (ns_files st) [] = w;
}.

Lemma holds_sub st i t f c w out : holds_cmd st i t f (ARedir c w out) →
  nth i (ns_stack st) NULLcmd = Redircmd (Some (S i)) out (if out then 1 else 0) (redir_mode out) (Some (f + length (names c))%nat) ∧
  nth (f + length (names c)) (ns_files st) [] = w ∧ holds_cmd st (S i) t f c.
Proof.
  intros [Hn Hw Hf]. split; [by rewrite <- (Nat.add_0_r i) at 1; apply (Hn 0%nat)|]. split.
  - apply Hf. cbn [names]. by rewrite lookup_app_r, Nat.sub_diag by lia.
  - split; [intros j x Hx; rewrite Nat.add_succ_comm; by apply (Hn (S j))|done|]. intros j x Hx. apply Hf. cbn [names]. by apply lookup_app_l_Some.
Qed.

Lemma holds_pipe st i t f l r : holds_cmd st i t f (APipe l r) → let m := length (nodes (S i) t f l) in
  nth i (ns_stack st) NULLcmd = Pipecmd (Some (S i)) (Some (S i + m)%nat) ∧ holds_cmd st (S i) t f l ∧ holds_cmd st (S i + m) (t + length (words l)) (f + length (names l)) r.
Proof.
  intros [Hn Hw Hf] m. cbn [nodes words names] in *. split; [by rewrite <- (Nat.add_0_r i) at 1; apply (Hn 0%nat)|]. split.
  - split; intros j x Hx; [rewrite Nat.add_succ_comm; apply (Hn (S j)); by apply lookup_app_l_Some|apply Hw; by apply lookup_app_l_Some|apply Hf; by apply lookup_app_l_Some].
  - split; intros j x Hx.
    + rewrite <- Nat.add_assoc, Nat.add_succ_comm. apply (Hn (S (m + j))). rewrite lookup_cons, lookup_app_r by (unfold m; lia). by replace (m + j - length (nodes (S i) t f l))%nat with j by (unfold m; lia).
    + rewrite <- Nat.add_assoc. apply Hw. rewrite lookup_app_r by lia. by replace (length (words l) + j - length (words l))%nat with j by lia.
    + rewrite <- Nat.add_assoc. apply Hf. rewrite lookup_app_r by lia. by replace (length (names l) + j - length (names l))%nat with j by lia.
Qed.

Lemma exec_words (tokens argv : list (list Z)) t : (∀ j w, argv !! j = Some w → nth (t + j) tokens [] = w) → str_of tokens <$> seq t (length argv) = argv.
Proof.
  intros H. apply list_eq. intros j. rewrite list_lookup_fmap. destruct (argv !! j) as [w|] eqn:E.
  - rewrite lookup_seq_lt by (by apply lookup_lt_Some in E). cbn. f_equal. by apply H.
  - rewrite lookup_seq_ge by (by apply lookup_ge_None_1 in E). done.
Qed.

Lemma evaluate_starts opens junk st c : pipeline c → ∀ fuel i t f k tb n, holds_cmd st i t f c → (length (nodes i t f c) ≤ fuel)%nat → table_ok tb →
  ∃ tb', exec_prog opens (evaluate junk st fuel (Some i) k) tb n = ((starts opens c tb n).1, tb', (starts opens c tb n).2).
Proof.
  induction c as [argv|c IH w out|l IHl r IHr| |]; try done; intros Hc fuel i t f k tb n Hh Hfu Ht; (destruct fuel as [|fuel]; [cbn in Hfu; lia|]); cbn [evaluate].
  - destruct Hh as [Hn Hw _]. pose proof (Hn 0%nat _ eq_refl) as E. rewrite Nat.add_0_r in E. rewrite E. cbn [exec_prog starts]. rewrite exec_words by done. destruct Hc as (Hne & _). destruct argv; [done|]. eauto.
  - destruct (holds_sub _ _ _ _ _ _ _ Hh) as (-> & Ew & Hsub). destruct Ht as (a & b & Ht). cbn [from_option]. unfold str_of at 1. rewrite Ew. cbn [exec_prog starts nodes length] in *.
    assert (Z.to_nat (if out then 1 else 0) = redir_fd out ∧ (redir_fd out < 2)%nat) as [-> Hlt] by (destruct out; cbn; lia).
    destruct (opens w (redir_mode out)); [|cbn; eauto]. rewrite (lowest_closed (redir_fd out) tb Hlt); [|intros j Hj; pose proof (table_lens tb a b Ht); apply Ht; lia].
    rewrite (proj2 (Z.ltb_ge _ 0)) by lia. rewrite list_insert_insert_eq. apply (IH (simple_pipeline c (proj1 Hc)) fuel (S i) t f k); [done|lia|]. eapply table_set; [exact Ht|lia].
  - destruct (holds_pipe _ _ _ _ _ _ Hh) as (-> & Hl & Hr). destruct Hc as [Hcl Hcr]. destruct Ht as (a & b & Ht). cbn [exec_prog starts nodes length] in *. rewrite length_app in Hfu. destruct (table_lowest tb a b Ht) as [-> Hlb]. rewrite Hlb. cbn [default id exec_prog Z.eqb]. rewrite !Nat2Z.id.
    destruct (pipe_side tb a b Ht 1 b (OPipe n false) (OPipe n true)) as (o1 & E1 & Eo1 & El1 & Et1); [lia|by right|]. rewrite decide_False in Eo1 by (pose proof (table_lens tb a b Ht); lia). subst o1.
    destruct (pipe_side tb a b Ht 0 a (OPipe n false) (OPipe n true)) as (o0 & E0 & Eo0 & El0 & Et0); [lia|by left|]. rewrite decide_True in Eo0 by done. subst o0.
    change (Z.to_nat 1) with 1%nat. change (Z.to_nat 0) with 0%nat. rewrite E1, El1, Et1, E0, El0, Et0.
    destruct (IHl Hcl fuel _ _ _ (Wait k) (<[1%nat := Some (OPipe n true)]> tb) (S n) Hl) as (t1 & ->); [lia|eapply table_set; [exact Ht|lia]|]. destruct (starts opens l _ _) as [e1 n1]. cbn [fst snd].
    destruct (IHr (simple_pipeline r Hcr) fuel _ _ _ (Wait k) (<[0%nat := Some (OPipe n false)]> tb) n1 Hr) as (t2 & ->); [lia|eapply table_set; [exact Ht|lia]|].
    destruct (starts opens r _ _) as [e2 n2]. cbn [fst snd]. eauto.
Qed.

(** ** From a line to programs *)

(** The command fits the tables and the line. *)
Definition fits (c : acmd) : Prop :=
  (length (nodes 0 0 0 c) ≤ 100)%nat ∧ (length (words c) ≤ 10)%nat ∧ (length (names c) ≤ 10)%nat ∧ alen (ntext c) < MAXBUFSIZ - 1.

Lemma nodes_text c : pipeline c → (length (nodes 0 0 0 c) ≤ length (ntext c))%nat.
Proof.
  assert (∀ p argv, argv ≠ [] → (∀ w, w ∈ argv → nword w) → (0 < length (spaced p argv))%nat) as He.
  { intros p [|w argv] Hne Hw; [done|]. cbn [spaced]. destruct (Hw w) as [Hw0 _]; [by apply elem_of_cons; left|]. destruct w; [done|]. rewrite !length_app. cbn [length]. lia. }
  assert (∀ c, simple c → (length (nodes 0 0 0 c) ≤ length (ntext c))%nat) as Hs.
  { clear -He. induction c as [argv|c IH f out|l IHl r IHr| |]; try done; cbn [simple nodes ntext length].
    - intros (Hne & _ & Hw). apply He; done.
    - intros [Hc _]. rewrite !length_app, (nodes_length c _ _ _ 0 0 0). cbn [length]. specialize (IH Hc). lia. }
  induction c as [argv|c IH f out|l IHl r IHr| |]; try apply Hs. intros [Hl Hr]. cbn [nodes ntext length]. rewrite !length_app, (nodes_length l _ _ _ 0 0 0), (nodes_length r _ _ _ 0 0 0).
  cbn [length]. specialize (IHl Hl). specialize (Hs r Hr). lia.
Qed.

Lemma parse_whole c : pipeline c → fits c → runs (nsh_parsecmd (ntext c) (S (length (ntext c))) 0 (alen (ntext c)) 0%nat) nsh_init
  (λ r st, r = 0%nat ∧ holds_cmd st 0 0 0 c).
Proof.
  intros Hc (F1 & F2 & F3 & _). pose proof (nodes_text c Hc) as Hlen. destruct (pipeline_words c Hc) as [HW HN].
  eapply runs_mono; [apply (parses_pipeline (ntext c) c Hc _ 0 _ [] [] [] []); [by left| |]|].
  - split; [apply here_line|done|lia|right; apply at_end].
  - split; [constructor|split; constructor|exact F1|exact F2|exact F3|lia].
  - intros r st [-> ->]. split; [done|]. cbn [length app tables]. split; intros j x Hx; cbn [ns_stack ns_tokens ns_files]; apply nth_lookup_Some; by apply lookup_app_l_Some.
Qed.

Lemma preprocess_newline l : preprocessCmd (l ++ [10]) = l.
Proof.
  unfold preprocessCmd. rewrite length_app. cbn [length]. replace (length l + 1 - 1)%nat with (length l) by lia. rewrite app_nth2, Nat.sub_diag by lia. cbn [nth]. rewrite Z.eqb_refl. by rewrite take_app_length.
Qed.

(** C17: from a line to programs in the second shell: for a pipeline of commands with redirections, with blanks around all symbols and within the limits of its tables, the
    child it forks starts exactly the programs the command means, with their arguments, files and pipe ends, and the parent waits and goes on with the next line. *)
Theorem nsh_correct opens junk c lines k tb n : pipeline c → fits c → nsh_main junk lines = Some k → table_ok tb →
  ∃ child tb', nsh_main junk ((ntext c ++ [10]) :: lines) = Some (Print "@ " [] (Fork (λ pid, if pid =? 0 then child else Wait k))) ∧
    exec_prog opens child tb n = ((starts opens c tb n).1, tb', (starts opens c tb n).2).
Proof.
  intros Hc Hf Hk Ht. pose proof (parse_whole c Hc Hf) as Hp. unfold runs in Hp. destruct (nsh_parsecmd _ _ _ _ _ _) as [r st|] eqn:E; [|done]. destruct Hp as [-> Hh].
  destruct (evaluate_starts opens junk st c Hc (Z.to_nat MAXSTACKSIZ) 0 0 0 (Wait k) tb n Hh) as (tb' & E'); [apply Hf|done|].
  exists (evaluate junk st (Z.to_nat MAXSTACKSIZ) (Some 0%nat) (Wait k)), tb'. split; [|exact E']. cbn [nsh_main]. rewrite preprocess_newline.
  rewrite bool_decide_eq_false_2; [unfold nsh_line; rewrite E, Hk; done|]. intros E0. pose proof (nodes_text c Hc). pose proof (nodes_pos c Hc). rewrite E0 in H. cbn in H. lia.
Qed.

(** Without a blank before it, a symbol takes the character before it along: on the line "ls|wc" the shell starts l, not ls. *)
Theorem nsh_drops_character : ∃ child, nsh_main (0, 0) [[108; 115; 124; 119; 99; 10]] = Some (Print "@ " [] (Fork (λ pid, if pid =? 0 then child else Wait (Print "@ " [] (Exit 0))))) ∧
  (exec_prog (λ _ _, true) child (fill3 ex_table) 0).1.1 =
    [Started [[108]] (<[1%nat := Some (OPipe 0 true)]> (fill3 ex_table)); Started [[119; 99]] (<[0%nat := Some (OPipe 0 false)]> (fill3 ex_table))].
Proof. eexists. split; [reflexivity|]. vm_compute. reflexivity. Qed.

(** cat < in | wc a > out *)
Definition ex_line : acmd := APipe (ARedir (AExec [[99; 97; 116]]) [105; 110] false) (ARedir (AExec [[119; 99]; [97]]) [111; 117; 116] true).
Lemma ex_word w : bool_decide (w ≠ [] ∧ alen w < MAXPATH ∧ Forall (λ c, is_ws c = false ∧ is_pipe c = false ∧ is_redir c = false ∧ c ≠ 0) w) = true → nword w.
Proof. intros H%bool_decide_eq_true_1. destruct H as (H1 & H2 & H3). split; [done|]. split; [done|]. intros c Hc. by eapply Forall_forall in H3. Qed.
Lemma ex_words ws : Forall nword ws → ∀ w, w ∈ ws → nword w.
Proof. intros H w Hw. by eapply Forall_forall in H. Qed.

Lemma ex_line_ok : pipeline ex_line ∧ fits ex_line.
Proof.
  split.
  - split; (split; [split; [discriminate|split; [done|apply ex_words; repeat (apply Forall_cons_2; [by apply ex_word|]); constructor]]|by apply ex_word]).
  - split_and!; [cbn; lia..|done].
Qed.

Lemma nsh_correct_witness : ∃ child tb', nsh_main (0, 0) [ntext ex_line ++ [10]] = Some (Print "@ " [] (Fork (λ pid, if pid =? 0 then child else Wait (Print "@ " [] (Exit 0))))) ∧
    exec_prog (λ _ _, true) child (fill3 ex_table) 0 = ((starts (λ _ _, true) ex_line (fill3 ex_table) 0).1, tb', (starts (λ _ _, true) ex_line (fill3 ex_table) 0).2).
Proof.
  apply (nsh_correct (λ _ _, true) (0, 0) ex_line []); [apply ex_line_ok|apply ex_line_ok|reflexivity|]. exists 3%nat, 4%nat. split_and!; [lia|lia| |done|done]. intros i Hi Hne.
  destruct i as [|[|[|[|i]]]]; [by exists con..|done|lia].
Defined.
