(* ===== verification/Virtio.v ===== *)
(** * The disk driver

    kernel/virtio_disk.c and kernel/virtio.h: the descriptors, the ring of requests
    the driver makes available to the device, the ring of requests the device has
    used, and the driver's own book-keeping.

    The driver's statements are written once, for any state [X] that holds a
    [vst] and in which processes can be woken: the kernel runs them on
    [kern * vst] with its locks, the interleaving of several processes, the
    device and its interrupts (VirtioSpec) on the [vst] alone, one critical
    section at a time. *)

From S2P Require Import Prelude Memory Riscv Spinlock Core Sleeplock BufCache Bio.

(** ** Constants *)
Definition VIRTIO_MMIO_MAGIC_VALUE : Z := 0x000.
Definition VIRTIO_MMIO_VERSION : Z := 0x004.
Definition VIRTIO_MMIO_DEVICE_ID : Z := 0x008.
Definition VIRTIO_MMIO_VENDOR_ID : Z := 0x00c.
Definition VIRTIO_MMIO_DEVICE_FEATURES : Z := 0x010.
Definition VIRTIO_MMIO_DRIVER_FEATURES : Z := 0x020.
Definition VIRTIO_MMIO_GUEST_PAGE_SIZE : Z := 0x028.
Definition VIRTIO_MMIO_QUEUE_SEL : Z := 0x030.
Definition VIRTIO_MMIO_QUEUE_NUM_MAX : Z := 0x034.
Definition VIRTIO_MMIO_QUEUE_NUM : Z := 0x038.
Definition VIRTIO_MMIO_QUEUE_PFN : Z := 0x040.
Definition VIRTIO_MMIO_QUEUE_NOTIFY : Z := 0x050.
Definition VIRTIO_MMIO_STATUS : Z := 0x070.
Definition VIRTIO_CONFIG_S_ACKNOWLEDGE : Z := 1.
Definition VIRTIO_CONFIG_S_DRIVER : Z := 2.
Definition VIRTIO_CONFIG_S_DRIVER_OK : Z := 4.
Definition VIRTIO_CONFIG_S_FEATURES_OK : Z := 8.
Definition VIRTIO_BLK_F_RO : Z := 5.
Definition VIRTIO_BLK_F_SCSI : Z := 7.
Definition VIRTIO_BLK_F_CONFIG_WCE : Z := 11.
Definition VIRTIO_BLK_F_MQ : Z := 12.
Definition VIRTIO_F_ANY_LAYOUT : Z := 27.
Definition VIRTIO_RING_F_INDIRECT_DESC : Z := 28.
Definition VIRTIO_RING_F_EVENT_IDX : Z := 29.
Definition NUM : Z := 8.
Definition VRING_DESC_F_NEXT : Z := 1.
Definition VRING_DESC_F_WRITE : Z := 2.
Definition VIRTIO_BLK_T_IN : Z := 0.
Definition VIRTIO_BLK_T_OUT : Z := 1.

(** ** State *)

(** What a descriptor's address points to: nothing, a request header
    ([struct virtio_blk_outhdr], on the stack of the process that waits for the
    request), the data of a buffer, the status byte of a request. *)
Inductive vptr :=
| VNull
| VHdr (type sector : Z)
| VData (b : Z)
| VStatus (i : Z).
#[global] Instance vptr_eqdec : EqDecision vptr.
Proof. solve_decision. Defined.

(** [struct VRingDesc] *)
Record vdesc := VDesc { vd_addr : vptr; vd_len : Z; vd_flags : Z; vd_next : Z }.
#[global] Instance vdesc_inhabited : Inhabited vdesc := populate (VDesc VNull 0 0 0).

(** [struct disk], the device registers written, and the buffers. *)
Record vst := VSt {
  vs_desc : list vdesc;      (* desc *)
  vs_avail : Z;              (* avail[1] *)
  vs_ring : list Z;          (* avail[2...] *)
  vs_used : Z;               (* used->id *)
  vs_elems : list Z;         (* used->elems[].id *)
  vs_free : list Z;          (* free *)
  vs_seen : Z;               (* used_idx *)
  vs_infob : list Z;         (* info[].b *)
  vs_status : list Z;        (* info[].status *)
  vs_init : Z;               (* init *)
  vs_lock : spinlock;        (* vdisk_lock *)
  vs_mmio : list (Z * Z);    (* stores to the device registers, newest first *)
  vs_buf : Z → buf;          (* the struct bufs *)
}.

Definition set_vdesc v s := VSt v (vs_avail s) (vs_ring s) (vs_used s) (vs_elems s) (vs_free s) (vs_seen s) (vs_infob s) (vs_status s) (vs_init s) (vs_lock s) (vs_mmio s) (vs_buf s).
Definition set_vavail v s := VSt (vs_desc s) v (vs_ring s) (vs_used s) (vs_elems s) (vs_free s) (vs_seen s) (vs_infob s) (vs_status s) (vs_init s) (vs_lock s) (vs_mmio s) (vs_buf s).
Definition set_vring v s := VSt (vs_desc s) (vs_avail s) v (vs_used s) (vs_elems s) (vs_free s) (vs_seen s) (vs_infob s) (vs_status s) (vs_init s) (vs_lock s) (vs_mmio s) (vs_buf s).
Definition set_vused u e s := VSt (vs_desc s) (vs_avail s) (vs_ring s) u e (vs_free s) (vs_seen s) (vs_infob s) (vs_status s) (vs_init s) (vs_lock s) (vs_mmio s) (vs_buf s).
Definition set_vfree v s := VSt (vs_desc s) (vs_avail s) (vs_ring s) (vs_used s) (vs_elems s) v (vs_seen s) (vs_infob s) (vs_status s) (vs_init s) (vs_lock s) (vs_mmio s) (vs_buf s).
Definition set_vseen v s := VSt (vs_desc s) (vs_avail s) (vs_ring s) (vs_used s) (vs_elems s) (vs_free s) v (vs_infob s) (vs_status s) (vs_init s) (vs_lock s) (vs_mmio s) (vs_buf s).
Definition set_vinfob v s := VSt (vs_desc s) (vs_avail s) (vs_ring s) (vs_used s) (vs_elems s) (vs_free s) (vs_seen s) v (vs_status s) (vs_init s) (vs_lock s) (vs_mmio s) (vs_buf s).
Definition set_vstatus v s := VSt (vs_desc s) (vs_avail s) (vs_ring s) (vs_used s) (vs_elems s) (vs_free s) (vs_seen s) (vs_infob s) v (vs_init s) (vs_lock s) (vs_mmio s) (vs_buf s).
Definition set_vinit v s := VSt (vs_desc s) (vs_avail s) (vs_ring s) (vs_used s) (vs_elems s) (vs_free s) (vs_seen s) (vs_infob s) (vs_status s) v (vs_lock s) (vs_mmio s) (vs_buf s).
Definition set_vlock v s := VSt (vs_desc s) (vs_avail s) (vs_ring s) (vs_used s) (vs_elems s) (vs_free s) (vs_seen s) (vs_infob s) (vs_status s) (vs_init s) v (vs_mmio s) (vs_buf s).
Definition set_vmmio v s := VSt (vs_desc s) (vs_avail s) (vs_ring s) (vs_used s) (vs_elems s) (vs_free s) (vs_seen s) (vs_infob s) (vs_status s) (vs_init s) (vs_lock s) v (vs_buf s).
Definition set_vbuf v s := VSt (vs_desc s) (vs_avail s) (vs_ring s) (vs_used s) (vs_elems s) (vs_free s) (vs_seen s) (vs_infob s) (vs_status s) (vs_init s) (vs_lock s) (vs_mmio s) v.

Definition set_bdisk v b := Buf (b_valid b) v (b_dev b) (b_blockno b) (b_lock b) (b_refcnt b) (b_prev b) (b_next b) (b_data b).
Definition bset (f : Z → buf) (b : Z) (v : buf) : Z → buf := λ x, if x =? b then v else f x.

(** [desc[i] = e], [free[i] = c], a store to register [r] *)
Definition put_desc (i : Z) (e : vdesc) (s : vst) : vst := set_vdesc (aset (vs_desc s) i e) s.
Definition put_free (i c : Z) (s : vst) : vst := set_vfree (aset (vs_free s) i c) s.
Definition put_reg (r v : Z) (s : vst) : vst := set_vmmio ((r, v) :: vs_mmio s) s.
Definition put_disk (b v : Z) (s : vst) : vst := set_vbuf (bset (vs_buf s) b (set_bdisk v (vs_buf s b))) s.

Section Driver.
Context {X : Type} (d : lens X vst) (wakeup : chan → M X unit) (n : Z).

Definition vget {A} (f : vst → A) : M X A := gets (λ x, f (view d x)).
Definition vmod (f : vst → vst) : M X unit := modify (λ x, over d (f (view d x)) x).

(** ** Descriptors *)

Definition alloc_desc : M X Z :=
  loop (S (Z.to_nat NUM)) (λ i,
    if i <? NUM then
      f ← vget vs_free;
      if negb (aget f i =? 0) then vmod (put_free i 0);; mret (inr i)
      else mret (inl (i + 1))
    else mret (inr (-1))) 0.

Definition free_desc (i : Z) : M X unit :=
  if NUM <=? i then panic "virtio_disk_intr 1"%string else
  f ← vget vs_free;
  if negb (aget f i =? 0) then panic "virtio_disk_intr 2"%string else
  vmod (λ s, let e := aget (vs_desc s) i in put_desc i (VDesc VNull (vd_len e) (vd_flags e) (vd_next e)) s);;
  vmod (put_free i 1);;
  wakeup (ChDiskFree n).

(** Each round frees a descriptor that was not free, so [NUM] rounds are enough. *)
Definition free_chain (i : Z) : M X unit :=
  loop (S (Z.to_nat NUM)) (λ i,
    free_desc i;;
    ds ← vget vs_desc;
    if negb (Z.land (vd_flags (aget ds i)) VRING_DESC_F_NEXT =? 0) then mret (inl (vd_next (aget ds i)))
    else mret (inr tt)) i.

(** [alloc3_desc(n, idx)]: [idx] on success. *)
Definition alloc3_desc : M X (option (list Z)) :=
  loop 4 (λ idx,
    if alen idx <? 3 then
      i ← alloc_desc;
      if i <? 0 then
        for_range (length idx) 0 (λ j, free_desc (aget idx j));;
        mret (inr None)
      else mret (inl (idx ++ [i]))
    else mret (inr (Some idx))) [].

(** ** Requests *)

(** [virtio_disk_rw] from the header to the notification. *)
Definition rw_submit (b : Z) (write : bool) (idx : list Z) : M X unit :=
  bf ← vget (λ s, vs_buf s b);
  let sector := u32 (b_blockno bf * (BSIZE / 512)) in
  let i0 := aget idx 0 in
  let i1 := aget idx 1 in
  let i2 := aget idx 2 in
  let type := if write then VIRTIO_BLK_T_OUT else VIRTIO_BLK_T_IN in
  vmod (put_desc i0 (VDesc (VHdr type sector) 16 VRING_DESC_F_NEXT i1));;
  vmod (put_desc i1 (VDesc (VData b) BSIZE (Z.lor (if write then 0 else VRING_DESC_F_WRITE) VRING_DESC_F_NEXT) i2));;
  vmod (λ s, set_vstatus (aset (vs_status s) i0 0) s);;
  vmod (put_desc i2 (VDesc (VStatus i0) 1 VRING_DESC_F_WRITE 0));;
  (* record struct buf for virtio_disk_intr() *)
  vmod (put_disk b 1);;
  vmod (λ s, set_vinfob (aset (vs_infob s) i0 b) s);;
  vmod (λ s, set_vring (aset (vs_ring s) (vs_avail s mod NUM) i0) s);;
  vmod (λ s, set_vavail (u16 (vs_avail s + 1)) s);;
  vmod (put_reg VIRTIO_MMIO_QUEUE_NOTIFY 0).

(** [virtio_disk_rw] once the request has finished. *)
Definition rw_finish (idx : list Z) : M X unit :=
  vmod (λ s, set_vinfob (aset (vs_infob s) (aget idx 0) 0) s);;
  free_chain (aget idx 0).

(** The loop of [virtio_disk_intr].  [used_idx] runs around the ring, so it meets
    [used->id] within [NUM] rounds. *)
Definition intr_loop : M X unit :=
  loop (S (Z.to_nat NUM)) (λ _,
    s ← vget id;
    if negb (vs_seen s mod NUM =? vs_used s mod NUM) then
      let i := aget (vs_elems s) (vs_seen s) in
      if negb (aget (vs_status s) i =? 0) then panic "virtio_disk_intr status"%string else
      let b := aget (vs_infob s) i in
      vmod (put_disk b 0);;
      wakeup (ChBuf b);;
      vmod (λ s, set_vseen ((vs_seen s + 1) mod NUM) s);;
      mret (inl tt)
    else mret (inr tt)) tt.

(** ** Initialisation

    [reg r] is what the device's register [r] reads, [say] the [printf] that
    announces the disk, [pages] the address of [disk[n].pages]. *)
Context (reg : Z → Z) (say : M X unit) (pages : Z).

Definition clear_bit (i v : Z) : Z := Z.land v (Z.lnot (Z.shiftl 1 i)).

Definition virtio_disk_init : M X unit :=
  s ← vget id;
  if negb (vs_init s =? 0) then mret tt else
  say;;
  vmod (set_vlock (initlock "virtio_disk"));;
  if negb (reg VIRTIO_MMIO_MAGIC_VALUE =? 0x74726976) || negb (reg VIRTIO_MMIO_VERSION =? 1) ||
     negb (reg VIRTIO_MMIO_DEVICE_ID =? 2) || negb (reg VIRTIO_MMIO_VENDOR_ID =? 0x554d4551)
  then panic "could not find virtio disk"%string else
  let status := Z.lor 0 VIRTIO_CONFIG_S_ACKNOWLEDGE in
  vmod (put_reg VIRTIO_MMIO_STATUS status);;
  let status := Z.lor status VIRTIO_CONFIG_S_DRIVER in
  vmod (put_reg VIRTIO_MMIO_STATUS status);;
  let features := reg VIRTIO_MMIO_DEVICE_FEATURES in
  let features := clear_bit VIRTIO_BLK_F_RO features in
  let features := clear_bit VIRTIO_BLK_F_SCSI features in
  let features := clear_bit VIRTIO_BLK_F_CONFIG_WCE features in
  let features := clear_bit VIRTIO_BLK_F_MQ features in
  let features := clear_bit VIRTIO_F_ANY_LAYOUT features in
  let features := clear_bit VIRTIO_RING_F_EVENT_IDX features in
  let features := clear_bit VIRTIO_RING_F_INDIRECT_DESC features in
  vmod (put_reg VIRTIO_MMIO_DRIVER_FEATURES (u32 features));;
  let status := Z.lor status VIRTIO_CONFIG_S_FEATURES_OK in
  vmod (put_reg VIRTIO_MMIO_STATUS status);;
  let status := Z.lor status VIRTIO_CONFIG_S_DRIVER_OK in
  vmod (put_reg VIRTIO_MMIO_STATUS status);;
  vmod (put_reg VIRTIO_MMIO_GUEST_PAGE_SIZE PGSIZE);;
  vmod (put_reg VIRTIO_MMIO_QUEUE_SEL 0);;
  let max := reg VIRTIO_MMIO_QUEUE_NUM_MAX in
  if max =? 0 then panic "virtio disk has no queue 0"%string else
  if max <? NUM then panic "virtio disk max queue too short"%string else
  vmod (put_reg VIRTIO_MMIO_QUEUE_NUM NUM);;
  (* memset(pages): the descriptors and both rings *)
  vmod (λ s, set_vdesc (replicate (Z.to_nat NUM) (VDesc VNull 0 0 0)) (set_vavail 0 (set_vring (replicate (Z.to_nat NUM) 0)
    (set_vused 0 (replicate (Z.to_nat NUM) 0) s))));;
  vmod (put_reg VIRTIO_MMIO_QUEUE_PFN (u32 (Z.shiftr pages PGSHIFT)));;
  for_range (Z.to_nat NUM) 0 (λ i, vmod (put_free i 1));;
  vmod (set_vinit 1).
End Driver.

(** ** In the kernel *)

Definition vdisk_lock : lens vst spinlock := Lens vs_lock set_vlock.
#[global] Instance vdisk_lock_lens : LockLens (slock vdisk_lock).
Proof. by apply slock_lens. Defined.

Definition vdisk : lens (kern * vst) vst := Lens snd (λ s x, (x.1, s)).

(** The loops go round again only after a [sleep], which ends the run. *)
Definition virtio_disk_rw (n b : Z) (write : bool) : M (kern * vst) unit :=
  acquire (slock vdisk_lock);;
  idx ← loop 1 (λ _,
    r ← alloc3_desc vdisk wakeup n;
    match r with
    | Some idx => mret (inr idx)
    | None => sleep (ChDiskFree n) (slock vdisk_lock);; mret (inl tt)
    end) tt;
  rw_submit vdisk b write idx;;
  loop 1 (λ _,
    bf ← vget vdisk (λ s, vs_buf s b);
    if b_disk bf =? 1 then sleep (ChBuf b) (slock vdisk_lock);; mret (inl tt)
    else mret (inr tt)) tt;;
  rw_finish vdisk wakeup n idx;;
  release (slock vdisk_lock).

Definition virtio_disk_intr (n : Z) : M (kern * vst) unit :=
  acquire (slock vdisk_lock);;
  intr_loop vdisk wakeup;;
  release (slock vdisk_lock).

(** * What the disk driver's routines do

    Specifications of the routines of kernel/virtio_disk.c, for any state [X] that
    holds the driver's state and in which waking processes leaves it alone. *)

#[global] Arguments put_desc : simpl never.
#[global] Arguments put_free : simpl never.
#[global] Arguments put_disk : simpl never.
#[global] Arguments put_reg : simpl never.

(** The arrays of [struct disk] have their sizes. *)
Definition vlen (s : vst) : Prop :=
  alen (vs_desc s) = NUM ∧ alen (vs_ring s) = NUM ∧ alen (vs_elems s) = NUM ∧ alen (vs_free s) = NUM ∧
  alen (vs_infob s) = NUM ∧ alen (vs_status s) = NUM.

Definition vfree (s : vst) (i : Z) : Z := aget (vs_free s) i.
Definition vdesc_at (s : vst) (i : Z) : vdesc := aget (vs_desc s) i.

(** Descriptor [i] is free, and holds nothing. *)
Definition isfree (s : vst) (i : Z) : Prop := 0 ≤ i < NUM ∧ vfree s i = 1 ∧ vd_addr (vdesc_at s i) = VNull.

Definition freed (i : Z) (s : vst) : vst :=
  put_free i 1 (put_desc i (VDesc VNull (vd_len (vdesc_at s i)) (vd_flags (vdesc_at s i)) (vd_next (vdesc_at s i))) s).

(** The free descriptors are marked by a 1 and hold no address. *)
Definition free_clean (s : vst) : Prop := ∀ i, 0 ≤ i < NUM → vfree s i ≠ 0 → vfree s i = 1 ∧ vd_addr (vdesc_at s i) = VNull.

Lemma vfree_put_eq s i c : vlen s → 0 ≤ i < NUM → vfree (put_free i c s) i = c.
Proof. intros (_ & _ & _ & H & _) Hi. apply aget_aset_eq. by rewrite H. Qed.
Lemma vfree_put_ne s i j c : 0 ≤ i → 0 ≤ j → i ≠ j → vfree (put_free i c s) j = vfree s j.
Proof. intros. by apply aget_aset_ne. Qed.
Lemma vdesc_put_eq s i e : vlen s → 0 ≤ i < NUM → vdesc_at (put_desc i e s) i = e.
Proof. intros (H & _) Hi. apply aget_aset_eq. by rewrite H. Qed.
Lemma vdesc_put_ne s i j e : 0 ≤ i → 0 ≤ j → i ≠ j → vdesc_at (put_desc i e s) j = vdesc_at s j.
Proof. intros. by apply aget_aset_ne. Qed.
Lemma vlen_put_free s i c : vlen s → vlen (put_free i c s).
Proof. unfold vlen, put_free; cbn. by rewrite alen_aset. Qed.
Lemma vlen_put_desc s i e : vlen s → vlen (put_desc i e s).
Proof. unfold vlen, put_desc; cbn. by rewrite alen_aset. Qed.
Lemma vlen_freed s i : vlen s → vlen (freed i s).
Proof. intros. by apply vlen_put_free, vlen_put_desc. Qed.
#[export] Hint Resolve vlen_put_free vlen_put_desc vlen_freed : kernel.

(** Taking a clean free descriptor and giving it back changes nothing. *)
Lemma freed_taken s i : vlen s → isfree s i → freed i (put_free i 0 s) = s.
Proof.
  intros (Hd & _ & _ & Hf & _) (Hi & H1 & H2). destruct s as [ds av rg us el fr]. unfold freed, put_free, put_desc, set_vfree, set_vdesc, vfree, vdesc_at in *. cbn in *.
  rewrite aset_aset. f_equal; [|rewrite <- H1 at 1; apply aset_aget; by rewrite Hf].
  etrans; [|apply (aset_aget ds i); by rewrite Hd]. f_equal. destruct (aget ds i). cbn in *. by subst.
Qed.

Lemma freed_take_comm s i j : 0 ≤ i → 0 ≤ j → i ≠ j → freed i (put_free j 0 s) = put_free j 0 (freed i s).
Proof.
  intros Hi Hj Hne. destruct s. unfold freed, put_free, put_desc, set_vfree, set_vdesc, vfree, vdesc_at. cbn. f_equal.
  unfold aset. apply list_insert_insert_ne. lia.
Qed.

Lemma freed_other s a i : 0 ≤ a → 0 ≤ i → i ≠ a → vfree (freed a s) i = vfree s i ∧ vdesc_at (freed a s) i = vdesc_at s i.
Proof. intros Ha Hi Hne. unfold freed. rewrite vfree_put_ne by lia. split; [done|]. by apply vdesc_put_ne. Qed.
Lemma freed_same s a : vlen s → 0 ≤ a < NUM → vd_flags (vdesc_at (freed a s) a) = vd_flags (vdesc_at s a) ∧ vd_next (vdesc_at (freed a s) a) = vd_next (vdesc_at s a).
Proof. intros Hl Ha. unfold freed. change (vdesc_at (put_free a 1 ?t) a) with (vdesc_at t a). by rewrite vdesc_put_eq. Qed.
Lemma freed_isfree s a : vlen s → 0 ≤ a < NUM → isfree (freed a s) a.
Proof.
  intros Hl Ha. unfold isfree, freed. rewrite vfree_put_eq by eauto with kernel. change (vdesc_at (put_free a 1 ?t) a) with (vdesc_at t a). by rewrite vdesc_put_eq.
Qed.

(** Taking the descriptors of [idx]. *)
Definition take_all (idx : list Z) (s : vst) : vst := foldl (λ s i, put_free i 0 s) s idx.

Lemma vlen_take_all s idx : vlen s → vlen (take_all idx s).
Proof. revert s. induction idx as [|i idx IH]; intros s Hl; [done|]. by apply IH, vlen_put_free. Qed.
#[export] Hint Resolve vlen_take_all : kernel.

Lemma vfree_take_all s idx i : vlen s → (∀ j, j ∈ idx → 0 ≤ j < NUM) → i ∈ idx → vfree (take_all idx s) i = 0.
Proof.
  intros Hl. induction idx as [|j idx IH] using rev_ind; intros Hj Hin; [set_solver|]. unfold take_all. rewrite foldl_app. cbn.
  fold (take_all idx s). pose proof (Hj i Hin). pose proof (Hj j ltac:(set_solver)).
  destruct (decide (i = j)) as [->|Hne]; [apply vfree_put_eq; [by apply vlen_take_all|done]|].
  rewrite vfree_put_ne by lia. apply IH; set_solver.
Qed.

Lemma vfree_take_all_ne s idx i : 0 ≤ i → (∀ j, j ∈ idx → 0 ≤ j) → i ∉ idx → vfree (take_all idx s) i = vfree s i.
Proof.
  intros Hi. revert s. induction idx as [|j idx IH]; intros s Hj Hni; [done|]. cbn. fold (take_all idx (put_free j 0 s)).
  rewrite IH, vfree_put_ne; [done|apply Hj; by left|done|set_solver|set_solver|set_solver].
Qed.

(** A descriptor that is still free is none of those taken. *)
Lemma vfree_take_all_inv s idx i : vlen s → 0 ≤ i < NUM → (∀ j, j ∈ idx → 0 ≤ j < NUM) → vfree (take_all idx s) i ≠ 0 → i ∉ idx ∧ vfree s i ≠ 0.
Proof.
  intros Hl Hi Hj Hf. destruct (decide (i ∈ idx)) as [Hin|Hni]; [by rewrite vfree_take_all in Hf|].
  rewrite vfree_take_all_ne in Hf; [done|lia|intros j Hin; by apply Hj|done].
Qed.

Lemma freed_take_all s i idx : vlen s → isfree s i → i ∉ idx → (∀ j, j ∈ idx → 0 ≤ j) → freed i (take_all (i :: idx) s) = take_all idx s.
Proof.
  intros Hl Hf Hni Hj. cbn. fold (take_all idx (put_free i 0 s)). induction idx as [|j idx IH] using rev_ind; [by apply freed_taken|].
  unfold take_all. rewrite !foldl_app. cbn. fold (take_all idx s) (take_all idx (put_free i 0 s)). pose proof Hf as (? & _).
  rewrite freed_take_comm; [f_equal; apply IH; set_solver|lia|apply Hj; set_solver|set_solver].
Qed.

Lemma aget_mid (pre : list Z) i idx : aget (pre ++ i :: idx) (alen pre) = i.
Proof. apply aget_lookup. unfold alen. rewrite Nat2Z.id. by apply list_lookup_middle. Qed.

(** What completing the requests with heads [hs] does to the driver. *)
Fixpoint intr_st (hs : list Z) (s : vst) : vst :=
  match hs with
  | [] => s
  | h :: hs => intr_st hs (set_vseen ((vs_seen s + 1) mod NUM) (put_disk (aget (vs_infob s) h) 0 s))
  end.

(** The entries of a ring from [start] on. *)
Definition ring_has (ring : list Z) (start : Z) (hs : list Z) : Prop :=
  ∀ j h, hs !! j = Some h → aget ring ((start + Z.of_nat j) mod NUM) = h.

Lemma ring_has_nil ring start : ring_has ring start [].
Proof. by intros j h. Qed.
Lemma ring_has_cons ring start h hs : ring_has ring start (h :: hs) → aget ring (start mod NUM) = h ∧ ring_has ring (start + 1) hs.
Proof.
  intros H. split; [rewrite <- (Z.add_0_r start); by apply (H 0%nat)|]. intros j h' Hj. rewrite <- (H (S j) h' Hj). do 2 f_equal. lia.
Qed.
Lemma ring_has_mod ring start start' hs : start mod NUM = start' mod NUM → ring_has ring start hs → ring_has ring start' hs.
Proof. intros E H j h Hj. rewrite <- (H j h Hj). f_equal. rewrite Z.add_mod, <- E, <- Z.add_mod by done. done. Qed.
Lemma ring_has_snoc ring start hs h : alen ring = NUM → Z.of_nat (length hs) < NUM → ring_has ring start hs →
  ring_has (aset ring ((start + Z.of_nat (length hs)) mod NUM) h) start (hs ++ [h]).
Proof.
  intros Hl Hlt H j h' Hj. assert (NUM = 8) as EN by done. destruct (decide (j < length hs)%nat) as [Hlt'|Hge].
  - rewrite lookup_app_l in Hj by done. rewrite aget_aset_ne; [by apply H|dlia..].
  - rewrite lookup_app_r in Hj by lia. apply list_lookup_singleton_Some in Hj as [Hj <-]. replace j with (length hs) by lia.
    apply aget_aset_eq. rewrite Hl. dlia.
Qed.

Section Spec.
Context {X : Type} (d : lens X vst) (wk : chan → M X unit) (n : Z) (W : X → Prop).
Hypothesis over_view : ∀ t x, view d (over d t x) = t.
Hypothesis W_over : ∀ t x, W x → W (over d t x).
Hypothesis W_wake : ∀ ch x, W x → runs (wk ch) x (λ _ x', W x' ∧ view d x' = view d x).

Definition vruns {A} (m : M X A) (x : X) (Q : A → vst → Prop) : Prop := runs m x (λ a x', W x' ∧ Q a (view d x')).

Lemma vruns_mod {A} f (k : M X A) x Q :
  W x → (∀ x', W x' → view d x' = f (view d x) → vruns k x' Q) → vruns (vmod d f;; k) x Q.
Proof. intros HW H. unfold vruns. kstep. unfold vmod. kstep. by apply H; [apply W_over|]. Qed.
Lemma vruns_get {A B} (f : vst → A) (k : A → M X B) x Q : vruns (k (f (view d x))) x Q → vruns (a ← vget d f; k a) x Q.
Proof. intros H. unfold vruns. kstep. unfold vget. by kstep. Qed.
Lemma vruns_ret {A} (a : A) x (Q : A → vst → Prop) : W x → Q a (view d x) → vruns (mret a) x Q.
Proof. by intros. Qed.
Lemma vruns_bind {A B} (m : M X A) (k : A → M X B) x (P : A → vst → Prop) Q :
  vruns m x P → (∀ a x', W x' → P a (view d x') → vruns (k a) x' Q) → vruns (m ≫= k) x Q.
Proof. intros H Hk. unfold vruns. kstep. eapply runs_mono; [exact H|]. intros a x' [HW HP]. by apply Hk. Qed.

Lemma vruns_alloc_desc x : W x →
  vruns (alloc_desc d) x (λ i s', i = -1 ∧ s' = view d x ∧ (∀ j, 0 ≤ j < NUM → vfree s' j = 0) ∨
    0 ≤ i < NUM ∧ vfree (view d x) i ≠ 0 ∧ s' = put_free i 0 (view d x)).
Proof.
  intros HW. unfold alloc_desc. apply (runs_loop _ (λ i x', x' = x ∧ 0 ≤ i ≤ NUM ∧ ∀ j, 0 ≤ j < i → vfree (view d x) j = 0) (λ i _, Z.to_nat (NUM - i))).
  - intros i x' (-> & Hi & Hz). destruct (Z.ltb_spec i NUM) as [Hlt|Hge].
    + unfold vget. kstep. kstep. fold (vfree (view d x) i). destruct (Z.eqb_spec (vfree (view d x) i) 0) as [E|E]; cbn [negb].
      * kstep. split; [|lia]. split_and!; [done|lia..|]. intros j Hj. destruct (decide (j = i)) as [->|]; [done|apply Hz; lia].
      * unfold vmod. kstep. kstep. kstep. split; [by apply W_over|]. right. rewrite over_view. split_and!; [lia|lia|done|done].
    + kstep. split; [done|]. left. split_and!; [done|done|]. intros j Hj. apply Hz. lia.
  - split_and!; [done|lia|done|]. intros; lia.
  - lia.
Qed.

Lemma vruns_free_desc x i : W x → 0 ≤ i < NUM → vfree (view d x) i = 0 → vruns (free_desc d wk n i) x (λ _ s', s' = freed i (view d x)).
Proof.
  intros HW Hi Hf. unfold free_desc. destruct (Z.leb_spec NUM i); [lia|]. apply vruns_get. fold (vfree (view d x) i). rewrite Hf. cbn [Z.eqb negb].
  apply vruns_mod; [done|]. intros x1 HW1 E1. apply vruns_mod; [done|]. intros x2 HW2 E2. eapply runs_mono; [by apply W_wake|].
  intros [] x3 [HW3 E3]. split; [done|]. by rewrite E3, E2, E1.
Qed.

(** Giving the descriptors of [idx] back. *)
Lemma vruns_free_all x s pre idx : W x → vlen s → NoDup idx → (∀ i, i ∈ idx → isfree s i) → view d x = take_all idx s →
  vruns (for_range (length idx) (alen pre) (λ j, free_desc d wk n (aget (pre ++ idx) j))) x (λ _ s', s' = s).
Proof.
  intros HW Hl. revert x pre HW. induction idx as [|i idx IH]; intros x pre HW Hnd Hfree Ex; cbn [length for_range]; [by apply vruns_ret|].
  apply NoDup_cons in Hnd as [Hni Hnd]. rewrite aget_mid. pose proof (Hfree i ltac:(by left)) as (Hi & _).
  eapply vruns_bind; [apply vruns_free_desc; [done|done|]|]. { rewrite Ex. apply vfree_take_all; [done|intros j Hj; by destruct (Hfree j Hj)|by left]. }
  intros [] x1 HW1 E1. specialize (IH x1 (pre ++ [i]) HW1 Hnd). rewrite <- app_assoc in IH.
  replace (alen (pre ++ [i])) with (alen pre + 1) in IH by (unfold alen; rewrite length_app; cbn; lia). apply IH.
  - intros j Hj. apply Hfree. by right.
  - rewrite E1, Ex. apply freed_take_all; [done|apply Hfree; by left|done|]. intros j Hj. pose proof (Hfree j ltac:(by right)) as (? & _). lia.
Qed.

(** Three descriptors that were free, or, when there are not so many, no change at
    all. *)
Lemma vruns_alloc3 x : W x → vlen (view d x) → free_clean (view d x) →
  vruns (alloc3_desc d wk n) x (λ r s', r = None ∧ s' = view d x ∨
    ∃ idx, r = Some idx ∧ length idx = 3%nat ∧ NoDup idx ∧ (∀ i, i ∈ idx → isfree (view d x) i) ∧ s' = take_all idx (view d x)).
Proof.
  intros HW Hl Hc. unfold alloc3_desc. set (s := view d x) in *.
  apply (runs_loop _ (λ idx x', W x' ∧ (length idx ≤ 3)%nat ∧ NoDup idx ∧ (∀ i, i ∈ idx → isfree s i) ∧ view d x' = take_all idx s) (λ idx _, (3 - length idx)%nat)).
  2: split_and!; [done|cbn; lia|constructor|set_solver|done]. 2: cbn; lia.
  intros idx x' (HW' & Hlen & Hnd & Hfree & Ex). unfold alen. destruct (Z.ltb_spec (Z.of_nat (length idx)) 3) as [Hlt|Hge].
  2:{ kstep. split; [done|]. right. exists idx. split_and!; try done. lia. }
  eapply runs_bind, runs_mono; [by apply vruns_alloc_desc|]. rewrite Ex. intros i x1 [HW1 [(-> & E & _)|(Hi & Hf & E)]].
  - change (-1 <? 0) with true. cbv iota. kstep. eapply runs_mono; [by apply (vruns_free_all x1 s [])|]. intros [] x2 [HW2 E2]. kstep. by split; [|left].
  - destruct (Z.ltb_spec i 0); [lia|]. kstep. destruct (vfree_take_all_inv s idx i) as [Hni Hf']; [done|done| |done|].
    { intros j Hj. by destruct (Hfree j Hj). }
    split; [|rewrite length_app; cbn; lia]. split_and!; [done|rewrite length_app; cbn; lia|..].
    + apply NoDup_app. split_and!; [done|set_solver|]. apply NoDup_singleton.
    + intros j [Hj|Hj%list_elem_of_singleton]%elem_of_app; [by apply Hfree|subst j]. by destruct (Hc i Hi Hf').
    + rewrite E. unfold take_all. by rewrite foldl_app.
Qed.

Lemma loop_S {A R} fuel (body : A → M X (A + R)) a :
  loop (S fuel) body a = (r ← body a; match r with inl a' => loop fuel body a' | inr r => mret r end).
Proof. done. Qed.

(** One round of [free_chain]. *)
Lemma vruns_chain fuel x i : W x → vlen (view d x) → 0 ≤ i < NUM → vfree (view d x) i = 0 →
  let e := vdesc_at (view d x) i in
  let body i := (free_desc d wk n i;; ds ← vget d vs_desc;
    if negb (Z.land (vd_flags (aget ds i)) VRING_DESC_F_NEXT =? 0) then mret (inl (vd_next (aget ds i))) else mret (inr tt)) in
  ∀ Q : unit → vst → Prop,
  (∀ x', W x' → view d x' = freed i (view d x) →
    if Z.land (vd_flags e) VRING_DESC_F_NEXT =? 0 then Q tt (view d x') else vruns (loop fuel body (vd_next e)) x' Q) →
  vruns (loop (S fuel) body i) x Q.
Proof.
  intros HW Hl Hi Hf e body Q HQ. rewrite loop_S.
  apply (vruns_bind _ _ _ (λ r s', s' = freed i (view d x) ∧ r = if Z.land (vd_flags e) VRING_DESC_F_NEXT =? 0 then inr tt else inl (vd_next e))).
  - unfold body. eapply vruns_bind; [by apply vruns_free_desc|]. intros [] x1 HW1 E1. apply vruns_get. fold (vdesc_at (view d x1) i).
    rewrite E1. destruct (freed_same (view d x) i Hl Hi) as [-> ->]. fold e. destruct (_ =? 0); by apply vruns_ret.
  - intros r x1 HW1 [E1 ->]. specialize (HQ x1 HW1 E1). destruct (_ =? 0); [by apply vruns_ret|done].
Qed.

(** The three descriptors of a request are given back. *)
Lemma vruns_finish x i0 i1 i2 : W x → vlen (view d x) → (∀ i, i ∈ [i0; i1; i2] → 0 ≤ i < NUM ∧ vfree (view d x) i = 0) → NoDup [i0; i1; i2] →
  (∃ a l, vdesc_at (view d x) i0 = VDesc a l VRING_DESC_F_NEXT i1) →
  (∃ a l f, vdesc_at (view d x) i1 = VDesc a l f i2 ∧ Z.land f VRING_DESC_F_NEXT ≠ 0) →
  (∃ a l, vdesc_at (view d x) i2 = VDesc a l VRING_DESC_F_WRITE 0) →
  vruns (rw_finish d wk n [i0; i1; i2]) x (λ _ s', s' = freed i2 (freed i1 (freed i0 (set_vinfob (aset (vs_infob (view d x)) i0 0) (view d x))))).
Proof.
  intros HW Hl Hi Hnd (a0 & l0 & E0) (a1 & l1 & f1 & E1 & Hn1) (a2 & l2 & E2). unfold rw_finish. change (aget [i0; i1; i2] 0) with i0.
  apply vruns_mod; [done|]. intros x1 HW1 Ex1. set (s := view d x) in *. set (s1 := set_vinfob _ s) in *.
  assert (vlen s1) as Hl1 by (unfold vlen, s1 in *; cbn; by rewrite alen_aset).
  destruct (Hi i0 ltac:(set_solver)) as [Hr0 Hf0], (Hi i1 ltac:(set_solver)) as [Hr1 Hf1], (Hi i2 ltac:(set_solver)) as [Hr2 Hf2].
  assert (i1 ≠ i0 ∧ i2 ≠ i0 ∧ i2 ≠ i1) as (N01 & N02 & N12) by (rewrite !NoDup_cons in Hnd; set_solver).
  unfold free_chain. change (Z.to_nat NUM) with 8%nat.
  apply vruns_chain; [done|by rewrite Ex1|done|by rewrite Ex1|]. rewrite Ex1. change (vdesc_at s1 i0) with (vdesc_at s i0). rewrite E0. cbn [vd_flags vd_next].
  change (Z.land VRING_DESC_F_NEXT VRING_DESC_F_NEXT =? 0) with false. cbv iota. intros x2 HW2 Ex2.
  apply vruns_chain; [done|rewrite Ex2; by apply vlen_freed|done|rewrite Ex2; by rewrite (proj1 (freed_other s1 i0 i1 ltac:(lia) ltac:(lia) N01))|].
  rewrite Ex2. rewrite (proj2 (freed_other s1 i0 i1 ltac:(lia) ltac:(lia) N01)). change (vdesc_at s1 i1) with (vdesc_at s i1). rewrite E1. cbn [vd_flags vd_next].
  rewrite (proj2 (Z.eqb_neq _ _) Hn1). intros x3 HW3 Ex3.
  destruct (freed_other s1 i0 i2 ltac:(lia) ltac:(lia) N02) as [Hg0 Hd0]. destruct (freed_other (freed i0 s1) i1 i2 ltac:(lia) ltac:(lia) N12) as [Hg1 Hd1].
  apply vruns_chain; [done|rewrite Ex3; by apply vlen_freed, vlen_freed|done|rewrite Ex3; by rewrite Hg1, Hg0|].
  rewrite Ex3, Hd1, Hd0. change (vdesc_at s1 i2) with (vdesc_at s i2). rewrite E2. cbn [vd_flags vd_next].
  change (Z.land VRING_DESC_F_WRITE VRING_DESC_F_NEXT =? 0) with true. cbv iota. intros x4 HW4 Ex4. exact Ex4.
Qed.

Lemma vruns_intr hs x : W x → 0 ≤ vs_seen (view d x) < NUM → (length hs < 8)%nat →
  ring_has (vs_elems (view d x)) (vs_seen (view d x)) hs → (vs_seen (view d x) + Z.of_nat (length hs)) mod NUM = vs_used (view d x) mod NUM →
  (∀ h, h ∈ hs → aget (vs_status (view d x)) h = 0) →
  vruns (intr_loop d wk) x (λ _ s', s' = intr_st hs (view d x)).
Proof.
  unfold intr_loop. change (S (Z.to_nat NUM)) with 9%nat. intros HW Hs Hlen. assert (length hs < 9)%nat as Hf by lia. revert Hf. generalize 9%nat. intros fuel.
  revert x HW Hs fuel. assert (NUM = 8) as EN by done. induction hs as [|h hs IH]; intros x HW Hs [|fuel] Hf Hr Hu Hst; try (cbn in Hf; lia); rewrite loop_S.
  - apply (vruns_bind _ _ _ (λ r s', r = inr tt ∧ s' = view d x)); [|intros r x' HW' [-> E]; by apply vruns_ret].
    apply vruns_get. unfold id. replace (vs_seen (view d x) mod NUM =? vs_used (view d x) mod NUM) with true; [by apply vruns_ret|].
    symmetry. apply Z.eqb_eq. rewrite <- Hu. cbn. by rewrite Z.add_0_r.
  - cbn [length] in *. apply ring_has_cons in Hr as [Eh Hr]. rewrite Z.mod_small in Eh by lia.
    apply (vruns_bind _ _ _ (λ r s', r = inl tt ∧ s' = set_vseen ((vs_seen (view d x) + 1) mod NUM) (put_disk (aget (vs_infob (view d x)) h) 0 (view d x)))).
    { apply vruns_get. unfold id. replace (vs_seen (view d x) mod NUM =? vs_used (view d x) mod NUM) with false.
      2:{ symmetry. apply Z.eqb_neq. rewrite <- Hu, EN. dlia. }
      cbn [negb]. rewrite Eh, Hst by (by left). cbn [Z.eqb negb]. apply vruns_mod; [done|]. intros x1 HW1 E1.
      apply (vruns_bind _ _ _ (λ _ s', s' = view d x1)); [by apply W_wake|].
      intros [] x2 HW2 E2. apply vruns_mod; [done|]. intros x3 HW3 E3. apply vruns_ret; [done|]. split; [done|]. by rewrite E3, E2, E1. }
    intros r x1 HW1 [-> E1]. cbn [intr_st]. rewrite <- E1. apply IH; [lia|done|..].
    + rewrite E1. cbn. apply Z.mod_pos_bound. done.
    + lia.
    + rewrite E1. unfold put_disk. cbn. eapply ring_has_mod; [|exact Hr]. by rewrite Z.mod_mod.
    + rewrite E1. unfold put_disk. cbn. rewrite <- Hu. rewrite Z.add_mod_idemp_l by done. f_equal. lia.
    + rewrite E1. unfold put_disk. cbn. intros h' Hh'. apply Hst. by right.
Qed.
End Spec.
