(* ===== verification/VirtioSpec.v ===== *)
(** * The disk driver and the device together

    Processes submit requests with [virtio_disk_rw], the device takes them from the
    ring of available requests, completes them in any order, and [virtio_disk_intr]
    passes the completions on; every critical section of the driver is one step.
    However these steps interleave, what happens is a run of an abstract disk: every
    request is carried out once, on the block and the buffer it names, before its
    process goes on; and no routine of the driver panics. *)

From S2P Require Import Prelude Memory Riscv Spinlock Core Sleeplock BufCache Bio Virtio.

(** The driver's state on its own. *)
Definition vid : lens vst vst := Lens id (λ t _, t).
Definition nowake (_ : chan) : M vst unit := mret tt.

(** A process waiting in [virtio_disk_rw]: its buffer, the direction, its [idx]. *)
Record req := Req { rq_b : Z; rq_w : bool; rq_idx : list Z }.
Definition rq_head (r : req) : Z := aget (rq_idx r) 0.

(** ** The device

    The device reads a request from the descriptors its head leads to, transfers the
    data, stores the status, and puts the head in the ring of used requests. *)
Record dreq := DReq { dr_head : Z; dr_type : Z; dr_sector : Z; dr_b : Z; dr_st : Z }.

Definition more (e : vdesc) : bool := negb (Z.land (vd_flags e) VRING_DESC_F_NEXT =? 0).
Definition writable (e : vdesc) : bool := negb (Z.land (vd_flags e) VRING_DESC_F_WRITE =? 0).

Definition dev_fetch (v : vst) (h : Z) : option dreq :=
  let e0 := vdesc_at v h in
  let e1 := vdesc_at v (vd_next e0) in
  let e2 := vdesc_at v (vd_next e1) in
  match vd_addr e0, vd_addr e1, vd_addr e2 with
  | VHdr ty sec, VData b, VStatus i =>
      if more e0 && negb (writable e0) && (vd_len e0 =? 16) &&
         more e1 && eqb (writable e1) (ty =? VIRTIO_BLK_T_IN) && (vd_len e1 =? BSIZE) &&
         negb (more e2) && writable e2 && (vd_len e2 =? 1)
      then Some (DReq h ty sec b i) else None
  | _, _, _ => None
  end.

(** Two sectors of 512 bytes. *)
Definition sec_read (dk : Z → list Z) (s : Z) : list Z := dk s ++ dk (s + 1).
Definition sec_write (dk : Z → list Z) (s : Z) (data : list Z) : Z → list Z := λ t,
  if t =? s then take 512 data else if t =? s + 1 then drop 512 data else dk t.

Definition put_data (b : Z) (data : list Z) (v : vst) : vst := set_vbuf (bset (vs_buf v) b (set_bdata data (vs_buf v b))) v.

Definition dev_done (r : dreq) (v : vst) : vst :=
  let v := set_vstatus (aset (vs_status v) (dr_st r) 0) v in
  set_vused (u16 (vs_used v + 1)) (aset (vs_elems v) (vs_used v mod NUM) (dr_head r)) v.

(** ** The system *)
Record vsys := VSys {
  y_v : vst;                 (* the driver *)
  y_next : Z;                (* how far the device has read the available ring *)
  y_pend : list dreq;        (* the requests it is working on *)
  y_disk : Z → list Z;       (* the sectors *)
  y_wait : list req;         (* the processes in virtio_disk_rw *)
}.

Inductive vev :=
| EOwn (b : Z) (bf : buf)
| EStart (b : Z) (write : bool)
| EPerform (b : Z)
| EEnd (b : Z).

Inductive vstep : vsys → option vev → vsys → Prop :=
| v_own v p q dk ws b bf :    (* the owner of an idle buffer changes it *)
    b ∉ rq_b <$> ws → b_disk bf = b_disk (vs_buf v b) →
    vstep (VSys v p q dk ws) (Some (EOwn b bf)) (VSys (set_vbuf (bset (vs_buf v) b bf) v) p q dk ws)
| v_start v v1 v2 p q dk ws b w idx :
    b ∉ rq_b <$> ws → 0 ≤ b_blockno (vs_buf v b) < 2 ^ 31 →
    alloc3_desc vid nowake 0 v = Ret (Some idx) v1 → rw_submit vid b w idx v1 = Ret tt v2 →
    vstep (VSys v p q dk ws) (Some (EStart b w)) (VSys v2 p q dk (Req b w idx :: ws))
| v_full v v1 p q dk ws :     (* no descriptors: the process sleeps *)
    alloc3_desc vid nowake 0 v = Ret None v1 →
    vstep (VSys v p q dk ws) None (VSys v1 p q dk ws)
| v_pop v p q dk ws r :
    p ≠ vs_avail v → dev_fetch v (aget (vs_ring v) (p mod NUM)) = Some r →
    vstep (VSys v p q dk ws) None (VSys v (u16 (p + 1)) (q ++ [r]) dk ws)
| v_perform v p q1 r q2 dk ws :
    vstep (VSys v p (q1 ++ r :: q2) dk ws) (Some (EPerform (dr_b r)))
      (if dr_type r =? VIRTIO_BLK_T_OUT
       then VSys (dev_done r v) p (q1 ++ q2) (sec_write dk (dr_sector r) (b_data (vs_buf v (dr_b r)))) ws
       else VSys (dev_done r (put_data (dr_b r) (sec_read dk (dr_sector r)) v)) p (q1 ++ q2) dk ws)
| v_intr v v1 p q dk ws :
    intr_loop vid nowake v = Ret tt v1 →
    vstep (VSys v p q dk ws) None (VSys v1 p q dk ws)
| v_end v v1 p q dk ws1 r ws2 :
    b_disk (vs_buf v (rq_b r)) ≠ 1 → rw_finish vid nowake 0 (rq_idx r) v = Ret tt v1 →
    vstep (VSys v p q dk (ws1 ++ r :: ws2)) (Some (EEnd (rq_b r))) (VSys v1 p q dk (ws1 ++ ws2)).

Inductive vtrace (y0 : vsys) : list vev → vsys → Prop :=
| vt_nil : vtrace y0 [] y0
| vt_tau tr y y' : vtrace y0 tr y → vstep y None y' → vtrace y0 tr y'
| vt_ev tr y e y' : vtrace y0 tr y → vstep y (Some e) y' → vtrace y0 (tr ++ [e]) y'.

(** ** The abstract disk

    Blocks, buffers, and for a buffer with a request its direction and whether it
    was carried out. *)
Record aspec := ASpec {
  a_disk : Z → list Z;
  a_no : Z → Z;
  a_data : Z → list Z;
  a_op : Z → option (bool * bool);
}.

Definition zset {A} (f : Z → A) (k : Z) (v : A) : Z → A := λ x, if x =? k then v else f x.

Definition astep (e : vev) (a : aspec) : option aspec :=
  match e with
  | EOwn b bf =>
      match a_op a b with
      | None => Some (ASpec (a_disk a) (zset (a_no a) b (b_blockno bf)) (zset (a_data a) b (b_data bf)) (a_op a))
      | _ => None
      end
  | EStart b w =>
      match a_op a b with
      | None => Some (ASpec (a_disk a) (a_no a) (a_data a) (zset (a_op a) b (Some (w, false))))
      | _ => None
      end
  | EPerform b =>
      match a_op a b with
      | Some (true, false) => Some (ASpec (zset (a_disk a) (a_no a b) (a_data a b)) (a_no a) (a_data a) (zset (a_op a) b (Some (true, true))))
      | Some (false, false) => Some (ASpec (a_disk a) (a_no a) (zset (a_data a) b (a_disk a (a_no a b))) (zset (a_op a) b (Some (false, true))))
      | _ => None
      end
  | EEnd b =>
      match a_op a b with
      | Some (_, true) => Some (ASpec (a_disk a) (a_no a) (a_data a) (zset (a_op a) b None))
      | _ => None
      end
  end.

Fixpoint arun (tr : list vev) (a : aspec) : option aspec :=
  match tr with
  | [] => Some a
  | e :: tr => a' ← astep e a; arun tr a'
  end.

Lemma arun_snoc tr e a a' : arun tr a = Some a' → arun (tr ++ [e]) a = astep e a'.
Proof.
  revert a. induction tr as [|e' tr IH]; cbn; intros a; [intros [= <-]; by destruct (astep e a)|].
  destruct (astep e' a) as [a1|]; cbn; [apply IH|done].
Qed.

Lemma zset_eq {A} (f : Z → A) k v : zset f k v k = v.
Proof. unfold zset. by rewrite Z.eqb_refl. Qed.
Lemma zset_ne {A} (f : Z → A) k v x : x ≠ k → zset f k v x = f x.
Proof. intros H. unfold zset. by rewrite (proj2 (Z.eqb_neq _ _) H). Qed.
Lemma bset_eq f b v : bset f b v b = v.
Proof. apply zset_eq. Qed.
Lemma bset_ne f b v x : x ≠ b → bset f b v x = f x.
Proof. apply zset_ne. Qed.

(** ** The invariant

    A request is in the available ring ([Q1]), with the device ([Q2]), in the used
    ring ([Q3]) or over ([Q4]). *)
Definition sector_of (v : vst) (b : Z) : Z := u32 (b_blockno (vs_buf v b) * (BSIZE / 512)).
Definition rq_type (r : req) : Z := if rq_w r then VIRTIO_BLK_T_OUT else VIRTIO_BLK_T_IN.
Definition dreq_of (v : vst) (r : req) : dreq := DReq (rq_head r) (rq_type r) (sector_of v (rq_b r)) (rq_b r) (rq_head r).

(** The descriptors of [r] say what it asks for. *)
Definition formatted (v : vst) (r : req) : Prop := ∃ i0 i1 i2,
  rq_idx r = [i0; i1; i2] ∧
  vdesc_at v i0 = VDesc (VHdr (rq_type r) (sector_of v (rq_b r))) 16 VRING_DESC_F_NEXT i1 ∧
  vdesc_at v i1 = VDesc (VData (rq_b r)) BSIZE (Z.lor (if rq_w r then 0 else VRING_DESC_F_WRITE) VRING_DESC_F_NEXT) i2 ∧
  vdesc_at v i2 = VDesc (VStatus i0) 1 VRING_DESC_F_WRITE 0 ∧
  aget (vs_infob v) i0 = rq_b r ∧ aget (vs_status v) i0 = 0.

Definition descs (ws : list req) : list Z := concat (rq_idx <$> ws).

Record vinv (y : vsys) (Q1 Q2 Q3 Q4 : list req) : Prop := VInv {
  vi_len : vlen (y_v y);
  vi_clean : free_clean (y_v y);
  vi_perm : y_wait y ≡ₚ Q1 ++ Q2 ++ Q3 ++ Q4;
  vi_nodup : NoDup (descs (y_wait y));
  vi_taken : ∀ i, i ∈ descs (y_wait y) → 0 ≤ i < NUM ∧ vfree (y_v y) i = 0;
  vi_fmt : ∀ r, r ∈ y_wait y → formatted (y_v y) r ∧ 0 ≤ b_blockno (vs_buf (y_v y) (rq_b r)) < 2 ^ 31;
  vi_bufs : NoDup (rq_b <$> y_wait y);
  vi_busy : ∀ r, r ∈ Q1 ++ Q2 ++ Q3 → b_disk (vs_buf (y_v y) (rq_b r)) = 1;
  vi_idle : ∀ b, b ∉ rq_b <$> Q1 ++ Q2 ++ Q3 → b_disk (vs_buf (y_v y) b) = 0;
  vi_next : 0 ≤ y_next y < 2 ^ 16;
  vi_avail : vs_avail (y_v y) = u16 (y_next y + Z.of_nat (length Q1));
  vi_ring : ring_has (vs_ring (y_v y)) (y_next y) (rq_head <$> Q1);
  vi_pend : y_pend y = dreq_of (y_v y) <$> Q2;
  vi_seen : 0 ≤ vs_seen (y_v y) < NUM;
  vi_elems : ring_has (vs_elems (y_v y)) (vs_seen (y_v y)) (rq_head <$> Q3);
  vi_used : (vs_seen (y_v y) + Z.of_nat (length Q3)) mod NUM = vs_used (y_v y) mod NUM;
}.

Record agree (y : vsys) (Q1 Q2 Q3 Q4 : list req) (a : aspec) : Prop := Agree {
  ag_disk : ∀ n, 0 ≤ n < 2 ^ 31 → a_disk a n = sec_read (y_disk y) (2 * n);
  ag_no : ∀ b, a_no a b = b_blockno (vs_buf (y_v y) b);
  ag_data : ∀ b, a_data a b = b_data (vs_buf (y_v y) b);
  ag_todo : ∀ r, r ∈ Q1 ++ Q2 → a_op a (rq_b r) = Some (rq_w r, false);
  ag_done : ∀ r, r ∈ Q3 ++ Q4 → a_op a (rq_b r) = Some (rq_w r, true);
  ag_none : ∀ b, b ∉ rq_b <$> y_wait y → a_op a b = None;
}.

(** ** Facts about the invariant *)

Lemma vid_ret {A} (m : M vst A) v a v' Q : vruns vid (λ _, True) m v Q → m v = Ret a v' → Q a v'.
Proof. unfold vruns, runs. intros H E. rewrite E in H. by destruct H. Qed.

Lemma vid_runs {A} (m : M vst A) v Q : vruns vid (λ _, True) m v Q → runs m v (λ _ _, True).
Proof. intros H. eapply runs_mono; [exact H|done]. Qed.

Lemma descs_elem ws r i : r ∈ ws → i ∈ rq_idx r → i ∈ descs ws.
Proof. intros Hr Hi. apply list_elem_of_In, in_concat. exists (rq_idx r). rewrite <- !list_elem_of_In. split; [by apply list_elem_of_fmap_2|done]. Qed.

Lemma descs_app ws1 ws2 : descs (ws1 ++ ws2) = descs ws1 ++ descs ws2.
Proof. unfold descs. by rewrite fmap_app, concat_app. Qed.

Lemma formatted_ext v v' r : formatted v r →
  (∀ i, i ∈ rq_idx r → vdesc_at v' i = vdesc_at v i) →
  (∀ i, i ∈ rq_idx r → aget (vs_infob v') i = aget (vs_infob v) i ∧ aget (vs_status v') i = aget (vs_status v) i) →
  b_blockno (vs_buf v' (rq_b r)) = b_blockno (vs_buf v (rq_b r)) → formatted v' r.
Proof.
  intros (i0 & i1 & i2 & Ei & H0 & H1 & H2 & H3 & H4) Hd Hi Hb. exists i0, i1, i2. rewrite Ei in Hd, Hi. unfold sector_of in *.
  rewrite !Hd, Hb by set_solver. destruct (Hi i0 ltac:(set_solver)) as [-> ->]. done.
Qed.

Lemma dreq_of_ext v v' (Q : list req) : (∀ r, r ∈ Q → b_blockno (vs_buf v' (rq_b r)) = b_blockno (vs_buf v (rq_b r))) → dreq_of v' <$> Q = dreq_of v <$> Q.
Proof. intros H. apply list_fmap_ext. intros i r Hr. unfold dreq_of, sector_of. rewrite H; [done|]. by eapply list_elem_of_lookup_2. Qed.

Lemma NoDup_range (l : list Z) k : NoDup l → (∀ i, i ∈ l → 0 ≤ i < k) → Z.of_nat (length l) ≤ k ∨ k < 0.
Proof.
  intros Hnd Hr. destruct (decide (k < 0)); [by right|left]. assert (length l ≤ length (seqZ 0 k))%nat as H; [|rewrite length_seqZ in H; lia].
  apply submseteq_length, NoDup_submseteq; [done|]. intros i Hi. apply elem_of_seqZ. specialize (Hr i Hi). lia.
Qed.

Section Inv.
Context {y : vsys} {Q1 Q2 Q3 Q4 : list req} (HI : vinv y Q1 Q2 Q3 Q4).
Abbreviation v := (y_v y).

Lemma inv_in r : r ∈ Q1 ++ Q2 ++ Q3 ++ Q4 ↔ r ∈ y_wait y.
Proof. by rewrite (vi_perm _ _ _ _ _ HI). Qed.

Lemma inv_idx r i : r ∈ y_wait y → i ∈ rq_idx r → 0 ≤ i < NUM ∧ vfree v i = 0.
Proof. intros Hr Hi. apply (vi_taken _ _ _ _ _ HI). by eapply descs_elem. Qed.

Lemma inv_head r : r ∈ y_wait y → rq_head r ∈ rq_idx r.
Proof. intros Hr. destruct (vi_fmt _ _ _ _ _ HI r Hr) as [(i0 & i1 & i2 & E & _) _]. unfold rq_head. rewrite E. by left. Qed.

Lemma inv_few : (length (y_wait y) ≤ 2)%nat.
Proof.
  assert (Hlen : length (descs (y_wait y)) = (3 * length (y_wait y))%nat).
  { assert (Hf := vi_fmt _ _ _ _ _ HI). revert Hf. generalize (y_wait y). intros ws. induction ws as [|r ws IH]; intros Hf; [done|].
    change (descs (r :: ws)) with (rq_idx r ++ descs ws). rewrite length_app, IH by (intros r' Hr'; apply Hf; by right).
    destruct (Hf r ltac:(by left)) as [(i0 & i1 & i2 & E & _) _]. rewrite E. cbn. lia. }
  destruct (NoDup_range (descs (y_wait y)) NUM (vi_nodup _ _ _ _ _ HI)) as [H|H]; [|unfold NUM in H; lia|done].
  intros i Hi. by apply (vi_taken _ _ _ _ _ HI).
Qed.

Lemma inv_lens : (length Q1 + length Q2 + length Q3 + length Q4 ≤ 2)%nat.
Proof. pose proof inv_few as H. rewrite (Permutation_length (vi_perm _ _ _ _ _ HI)), !length_app in H. lia. Qed.

(** The device understands the request at the front of the available ring. *)
Lemma inv_fetch r : r ∈ y_wait y → dev_fetch v (rq_head r) = Some (dreq_of v r).
Proof.
  intros Hr. destruct (vi_fmt _ _ _ _ _ HI r Hr) as [(i0 & i1 & i2 & E & H0 & H1 & H2 & _) _].
  assert (rq_head r = i0) as Eh by (unfold rq_head; by rewrite E). unfold dev_fetch, dreq_of. rewrite Eh, H0. cbn [vd_addr vd_next]. rewrite H1. cbn [vd_addr vd_next]. rewrite H2. cbn [vd_addr].
  unfold rq_type. destruct (rq_w r); done.
Qed.

Lemma inv_pop_front : y_next y ≠ vs_avail v → ∃ r Q1', Q1 = r :: Q1' ∧ aget (vs_ring v) (y_next y mod NUM) = rq_head r ∧ r ∈ y_wait y.
Proof.
  intros Hne. pose proof inv_in as Hin. rewrite (vi_avail _ _ _ _ _ HI) in Hne. pose proof (vi_next _ _ _ _ _ HI) as Hn. pose proof (vi_ring _ _ _ _ _ HI) as Hr.
  destruct Q1 as [|r Q1'] eqn:E.
  { cbn in Hne. rewrite Z.add_0_r in Hne. unfold u16 in Hne. rewrite Z.mod_small in Hne; done. }
  exists r, Q1'. split; [done|]. split; [by apply ring_has_cons in Hr as [? _]|]. apply Hin. set_solver.
Qed.
End Inv.

Lemma NoDup_descs_idx ws r : NoDup (descs ws) → r ∈ ws → NoDup (rq_idx r).
Proof.
  intros Hnd (w1 & w2 & ->)%list_elem_of_split. rewrite descs_app in Hnd. change (descs (r :: w2)) with (rq_idx r ++ descs w2) in Hnd.
  apply NoDup_app in Hnd as (_ & _ & Hnd). by apply NoDup_app in Hnd as (? & _).
Qed.

(** ** The steps *)

(** The owner of an idle buffer changes it. *)
Lemma inv_own y Q1 Q2 Q3 Q4 b bf : vinv y Q1 Q2 Q3 Q4 → b ∉ rq_b <$> y_wait y → b_disk bf = b_disk (vs_buf (y_v y) b) →
  vinv (VSys (set_vbuf (bset (vs_buf (y_v y)) b bf) (y_v y)) (y_next y) (y_pend y) (y_disk y) (y_wait y)) Q1 Q2 Q3 Q4.
Proof.
  intros HI Hb Hd.
  assert (Hne : ∀ r, r ∈ Q1 ++ Q2 ++ Q3 ++ Q4 → rq_b r ≠ b).
  { intros r Hr <-. apply Hb, list_elem_of_fmap_2. by apply (inv_in HI). }
  assert (Hnew : ∀ r, r ∈ Q1 ++ Q2 ++ Q3 ++ Q4 → bset (vs_buf (y_v y)) b bf (rq_b r) = vs_buf (y_v y) (rq_b r)).
  { intros r Hr. by apply bset_ne, Hne. }
  pose proof (inv_in HI) as Hin. destruct HI. constructor; cbn; try done.
  - intros r Hr. destruct (vi_fmt0 r Hr) as [Hf Hn]. rewrite Hnew by (by apply Hin). split; [|done].
    eapply formatted_ext; [exact Hf|done|done|]. cbn. rewrite Hnew by (by apply Hin). done.
  - intros r Hr. rewrite Hnew by set_solver. by apply vi_busy0.
  - intros b' Hb'. destruct (decide (b' = b)) as [->|Hn]; [rewrite bset_eq, Hd; by apply vi_idle0|]. rewrite bset_ne by done. by apply vi_idle0.
  - rewrite vi_pend0. symmetry. apply dreq_of_ext. intros r Hr. cbn. rewrite Hnew by set_solver. done.
Qed.

(** What [rw_submit] leaves. *)
Definition submitted (b : Z) (w : bool) (i0 i1 i2 : Z) (v : vst) : vst :=
  let v := put_desc i0 (VDesc (VHdr (if w then VIRTIO_BLK_T_OUT else VIRTIO_BLK_T_IN) (sector_of v b)) 16 VRING_DESC_F_NEXT i1) v in
  let v := put_desc i1 (VDesc (VData b) BSIZE (Z.lor (if w then 0 else VRING_DESC_F_WRITE) VRING_DESC_F_NEXT) i2) v in
  let v := set_vstatus (aset (vs_status v) i0 0) v in
  let v := put_desc i2 (VDesc (VStatus i0) 1 VRING_DESC_F_WRITE 0) v in
  let v := put_disk b 1 v in
  let v := set_vinfob (aset (vs_infob v) i0 b) v in
  let v := set_vring (aset (vs_ring v) (vs_avail v mod NUM) i0) v in
  let v := set_vavail (u16 (vs_avail v + 1)) v in
  put_reg VIRTIO_MMIO_QUEUE_NOTIFY 0 v.

Lemma rw_submit_eq b w i0 i1 i2 v : rw_submit vid b w [i0; i1; i2] v = Ret tt (submitted b w i0 i1 i2 v).
Proof. by destruct w. Qed.

Lemma take_all_desc idx v i : vdesc_at (take_all idx v) i = vdesc_at v i.
Proof. revert v. induction idx as [|j idx IH]; intros v; [done|]. cbn. fold (take_all idx (put_free j 0 v)). by rewrite IH. Qed.

Lemma take_all_same idx v : ∃ f, take_all idx v = set_vfree f v.
Proof.
  revert v. induction idx as [|j idx IH]; intros v; [exists (vs_free v); by destruct v|]. cbn. fold (take_all idx (put_free j 0 v)).
  destruct (IH (put_free j 0 v)) as [f ->]. by exists f.
Qed.

Section Submit.
Context (v : vst) (b : Z) (w : bool) (i0 i1 i2 : Z) (Hl : vlen v) (Hnd : NoDup [i0; i1; i2]) (Hi : ∀ i, i ∈ [i0; i1; i2] → 0 ≤ i < NUM).
Abbreviation v' := (submitted b w i0 i1 i2 (take_all [i0; i1; i2] v)).
Abbreviation r := (Req b w [i0; i1; i2]).

Lemma sub_descs : vs_desc v' = aset (aset (aset (vs_desc v) i0 (VDesc (VHdr (rq_type r) (sector_of v b)) 16 VRING_DESC_F_NEXT i1))
    i1 (VDesc (VData b) BSIZE (Z.lor (if w then 0 else VRING_DESC_F_WRITE) VRING_DESC_F_NEXT) i2)) i2 (VDesc (VStatus i0) 1 VRING_DESC_F_WRITE 0).
Proof. done. Qed.
Lemma sub_rest : vs_infob v' = aset (vs_infob v) i0 b ∧ vs_status v' = aset (vs_status v) i0 0 ∧ vs_buf v' = bset (vs_buf v) b (set_bdisk 1 (vs_buf v b)) ∧
  vs_ring v' = aset (vs_ring v) (vs_avail v mod NUM) i0 ∧ vs_avail v' = u16 (vs_avail v + 1) ∧
  vs_elems v' = vs_elems v ∧ vs_used v' = vs_used v ∧ vs_seen v' = vs_seen v ∧ vs_free v' = vs_free (take_all [i0; i1; i2] v).
Proof. done. Qed.

Lemma sub_len : vlen v'.
Proof using Hl. unfold vlen in *. unfold submitted, take_all, put_desc, put_disk, put_free, put_reg. cbn. by rewrite !alen_aset. Qed.

Lemma sub_other i : 0 ≤ i → i ∉ [i0; i1; i2] → vdesc_at v' i = vdesc_at v i ∧ aget (vs_infob v') i = aget (vs_infob v) i ∧ aget (vs_status v') i = aget (vs_status v) i.
Proof using Hi.
  clear Hl Hnd. intros H0 Hni. destruct sub_rest as (-> & -> & _). unfold vdesc_at. rewrite sub_descs.
  pose proof (Hi i0 ltac:(set_solver)). pose proof (Hi i1 ltac:(set_solver)). pose proof (Hi i2 ltac:(set_solver)).
  rewrite !aget_aset_ne by (lia || set_solver). done.
Qed.

Lemma sub_formatted : formatted v' r.
Proof using Hl Hnd Hi.
  exists i0, i1, i2. destruct Hl as (Hd & _ & _ & _ & Hib & Hs). destruct sub_rest as (-> & -> & Eb & _). unfold vdesc_at. rewrite sub_descs.
  pose proof (Hi i0 ltac:(set_solver)). pose proof (Hi i1 ltac:(set_solver)). pose proof (Hi i2 ltac:(set_solver)).
  assert (i0 ≠ i1 ∧ i0 ≠ i2 ∧ i1 ≠ i2) as (N01 & N02 & N12) by (rewrite !NoDup_cons in Hnd; set_solver).
  split_and!; [done|..].
  - rewrite !aget_aset_ne, aget_aset_eq by (rewrite ?Hd; lia). unfold sector_of. rewrite Eb. cbn [rq_b]. by rewrite bset_eq.
  - rewrite aget_aset_ne, aget_aset_eq by (rewrite ?alen_aset, ?Hd; lia). done.
  - rewrite aget_aset_eq by (rewrite !alen_aset, ?Hd; lia). done.
  - apply aget_aset_eq. by rewrite Hib.
  - apply aget_aset_eq. by rewrite Hs.
Qed.
End Submit.

Lemma inv_start y Q1 Q2 Q3 Q4 b w idx : vinv y Q1 Q2 Q3 Q4 → b ∉ rq_b <$> y_wait y → 0 ≤ b_blockno (vs_buf (y_v y) b) < 2 ^ 31 →
  length idx = 3%nat → NoDup idx → (∀ i, i ∈ idx → isfree (y_v y) i) →
  ∃ v2, rw_submit vid b w idx (take_all idx (y_v y)) = Ret tt v2 ∧
    vs_buf v2 = bset (vs_buf (y_v y)) b (set_bdisk 1 (vs_buf (y_v y) b)) ∧
    vinv (VSys v2 (y_next y) (y_pend y) (y_disk y) (Req b w idx :: y_wait y)) (Q1 ++ [Req b w idx]) Q2 Q3 Q4.
Proof.
  intros HI Hb Hno Hlen Hnd Hfree. destruct idx as [|i0 [|i1 [|i2 [|]]]]; try done. destruct y as [v p q dk ws]. cbn [y_v y_next y_pend y_disk y_wait] in *. set (r := Req b w [i0; i1; i2]) in *.
  assert (Hi : ∀ i, i ∈ [i0; i1; i2] → 0 ≤ i < NUM) by (intros i Hi; by destruct (Hfree i Hi)).
  exists (submitted b w i0 i1 i2 (take_all [i0; i1; i2] v)). split; [apply rw_submit_eq|]. destruct (sub_rest v b w i0 i1 i2) as (Eib & Est & Eb & Er & Ea & Ee & Eu & Es & Ef).
  split; [done|]. pose proof (vi_len _ _ _ _ _ HI) as Hl. cbn [y_v] in Hl. pose proof (inv_lens HI) as Hlens. pose proof (inv_in HI) as Hin. pose proof (inv_idx HI) as Hix. cbn [y_v y_wait] in Hin, Hix.
  assert (Hne : ∀ r', r' ∈ ws → rq_b r' ≠ b) by (intros r' Hr' <-; by apply Hb, list_elem_of_fmap_2).
  assert (Hold : ∀ r' i, r' ∈ ws → i ∈ rq_idx r' → 0 ≤ i ∧ i ∉ [i0; i1; i2]).
  { intros r' i Hr' Hi'. destruct (Hix r' i Hr' Hi') as [Hri Hf]. split; [lia|]. intros Hbad. destruct (Hfree i Hbad) as (_ & H1 & _). lia. }
  destruct HI. cbn [y_v y_next y_pend y_disk y_wait] in *. constructor; cbn [y_v y_next y_pend y_disk y_wait].
  - by apply sub_len.
  - intros i Hii Hf. unfold vfree in *. rewrite Ef in *. fold (vfree (take_all [i0; i1; i2] v) i) in *.
    destruct (vfree_take_all_inv v [i0; i1; i2] i) as [Hni Hf']; [done|done|done|done|].
    destruct (sub_other v b w i0 i1 i2 Hi i) as (-> & _); [lia|done|]. rewrite vfree_take_all_ne; [by apply vi_clean0|lia|intros j Hj; by apply Hi|done].
  - rewrite vi_perm0. rewrite <- !app_assoc. cbn. by rewrite <- Permutation_middle.
  - change (descs (r :: ws)) with ([i0; i1; i2] ++ descs (ws)). apply NoDup_app. split_and!; [done| |done].
    intros i Hi1 Hi2. destruct (vi_taken0 i Hi2) as [_ Hf]. destruct (Hfree i Hi1) as (_ & H1 & _). lia.
  - change (descs (r :: ws)) with ([i0; i1; i2] ++ descs (ws)). intros i Hii. unfold vfree. rewrite Ef. fold (vfree (take_all [i0; i1; i2] v) i).
    apply elem_of_app in Hii as [Hi1|Hi2]; [split; [by apply Hi|by apply vfree_take_all]|]. destruct (vi_taken0 i Hi2) as [Hr Hf]. split; [done|].
    rewrite vfree_take_all_ne; [done|lia|intros j Hj; by apply Hi|]. intros Hbad. destruct (Hfree i Hbad) as (_ & H1 & _). lia.
  - intros r' [->|Hr']%elem_of_cons.
    + split; [by apply sub_formatted|]. rewrite Eb. cbn [r rq_b]. by rewrite bset_eq.
    + destruct (vi_fmt0 r' Hr') as [Hf Hn]. rewrite Eb, bset_ne by (by apply Hne). split; [|done].
      eapply formatted_ext; [exact Hf|..].
      * intros i Hii. destruct (Hold r' i Hr' Hii). by apply sub_other.
      * intros i Hii. destruct (Hold r' i Hr' Hii). by apply sub_other.
      * rewrite Eb, bset_ne; [done|by apply Hne].
  - cbn. by constructor.
  - intros r' Hr'. rewrite Eb. destruct (decide (rq_b r' = b)) as [->|Hn]; [by rewrite bset_eq|]. rewrite bset_ne by done. apply vi_busy0.
    rewrite !elem_of_app, list_elem_of_singleton in Hr'. rewrite !elem_of_app. destruct Hr' as [[?| ->]|[?|?]]; auto. done.
  - intros b' Hb'. rewrite !fmap_app, !not_elem_of_app in Hb'. cbn in Hb'. destruct Hb' as ((Hb1 & Hb2%not_elem_of_cons) & Hb3). rewrite Eb, bset_ne by tauto. apply vi_idle0. by rewrite !fmap_app, !not_elem_of_app.
  - done.
  - rewrite Ea, vi_avail0, length_app. cbn [length]. unfold u16. rewrite Zplus_mod_idemp_l. f_equal. lia.
  - rewrite Er, fmap_app, vi_avail0. cbn. change (rq_head r) with i0. replace (u16 (p + Z.of_nat (length Q1)) mod NUM) with ((p + Z.of_nat (length (rq_head <$> Q1))) mod NUM).
    + apply ring_has_snoc; [by destruct Hl as (_ & ? & _)|rewrite length_fmap; unfold NUM; lia|done].
    + rewrite length_fmap. unfold u16, NUM. dlia.
  - rewrite vi_pend0. symmetry. apply dreq_of_ext. intros r' Hr'. rewrite Eb, bset_ne; [done|]. apply Hne, Hin. set_solver.
  - by rewrite Es.
  - by rewrite Ee, Es.
  - by rewrite Es, Eu.
Qed.

Lemma inv_pop y r Q1 Q2 Q3 Q4 : vinv y (r :: Q1) Q2 Q3 Q4 →
  vinv (VSys (y_v y) (u16 (y_next y + 1)) (y_pend y ++ [dreq_of (y_v y) r]) (y_disk y) (y_wait y)) Q1 (Q2 ++ [r]) Q3 Q4.
Proof.
  intros HI. pose proof (inv_lens HI) as Hlens. destruct HI. constructor; cbn [y_v y_next y_pend y_disk y_wait]; try done.
  - rewrite vi_perm0. rewrite <- !app_assoc. cbn. by rewrite Permutation_middle, (Permutation_middle Q2 (Q3 ++ Q4)).
  - intros r' Hr'. apply vi_busy0. set_solver.
  - intros b Hb. apply vi_idle0. set_solver.
  - unfold u16. dlia.
  - rewrite vi_avail0. cbn [length]. unfold u16. rewrite Zplus_mod_idemp_l. f_equal. lia.
  - apply ring_has_cons in vi_ring0 as [_ H]. eapply ring_has_mod; [|exact H]. unfold u16, NUM. dlia.
  - by rewrite vi_pend0, fmap_app.
Qed.

(** The device has carried out [r]: the buffers' numbers and flags are as before. *)
Lemma inv_perform y r Q1 p1 p2 Q3 Q4 dk f : vinv y Q1 (p1 ++ r :: p2) Q3 Q4 →
  (∀ b, b_blockno (f b) = b_blockno (vs_buf (y_v y) b) ∧ b_disk (f b) = b_disk (vs_buf (y_v y) b)) →
  vinv (VSys (dev_done (dreq_of (y_v y) r) (set_vbuf f (y_v y))) (y_next y) (dreq_of (y_v y) <$> p1 ++ p2) dk (y_wait y)) Q1 (p1 ++ p2) (Q3 ++ [r]) Q4.
Proof.
  intros HI Hf. pose proof (inv_lens HI) as Hlens. pose proof (inv_in HI) as Hin. pose proof (inv_head HI) as Hh. pose proof (inv_idx HI) as Hix.
  assert (r ∈ y_wait y) as Hr by (apply Hin; set_solver). destruct (Hix _ _ Hr (Hh r Hr)) as [Hhr _].
  rewrite !length_app in Hlens. cbn in Hlens. destruct HI. constructor; cbn [y_v y_next y_pend y_disk y_wait]; try done.
  - unfold vlen, dev_done in *. cbn. by rewrite !alen_aset.
  - rewrite vi_perm0. apply (Permutation_app_head Q1). replace ((p1 ++ p2) ++ (Q3 ++ [r]) ++ Q4) with ((p1 ++ p2 ++ Q3) ++ r :: Q4) by (by rewrite <- !app_assoc).
    rewrite <- app_assoc. cbn. rewrite <- !Permutation_middle. by rewrite <- !app_assoc.
  - intros r' Hr'. destruct (vi_fmt0 r' Hr') as [Hfm Hn]. destruct (Hf (rq_b r')) as [Hb _]. unfold dev_done. cbn. rewrite Hb. split; [|done].
    destruct Hfm as (i0 & i1 & i2 & E & H0 & H1 & H2 & H3 & H4). exists i0, i1, i2. split_and!; try done.
    + unfold sector_of in *. cbn. rewrite Hb. exact H0.
    + cbn. destruct (decide (i0 = rq_head r)) as [->|Hne]; [apply aget_aset_eq; by destruct vi_len0 as (_ & _ & _ & _ & _ & ->)|].
      rewrite aget_aset_ne; [done|lia| |done]. destruct (Hix r' i0 Hr'); [rewrite E; by left|lia].
  - intros r' Hr'. unfold dev_done. cbn. destruct (Hf (rq_b r')) as [_ ->]. apply vi_busy0. set_solver.
  - intros b Hb. unfold dev_done. cbn. destruct (Hf b) as [_ ->]. apply vi_idle0. rewrite !fmap_app, !not_elem_of_app in *. rewrite fmap_cons, not_elem_of_cons. cbn in Hb. rewrite list_elem_of_singleton in Hb. tauto.
  - apply dreq_of_ext. intros r' _. unfold dev_done. cbn. by destruct (Hf (rq_b r')) as [-> _].
  - unfold dev_done. cbn. rewrite fmap_app. cbn. rewrite <- vi_used0. rewrite <- (length_fmap rq_head Q3).
    apply ring_has_snoc; [by destruct vi_len0 as (_ & _ & ? & _)|rewrite length_fmap; unfold NUM; lia|done].
  - unfold dev_done. cbn. rewrite length_app. cbn. unfold u16, NUM in *. dlia.
Qed.

Lemma intr_st_spec hs v : let v' := intr_st hs v in
  vs_desc v' = vs_desc v ∧ vs_free v' = vs_free v ∧ vs_infob v' = vs_infob v ∧ vs_status v' = vs_status v ∧ vs_ring v' = vs_ring v ∧ vs_avail v' = vs_avail v ∧
  vs_elems v' = vs_elems v ∧ vs_used v' = vs_used v ∧ (0 ≤ vs_seen v < NUM → vs_seen v' = (vs_seen v + Z.of_nat (length hs)) mod NUM) ∧
  (∀ b, b_blockno (vs_buf v' b) = b_blockno (vs_buf v b) ∧ b_data (vs_buf v' b) = b_data (vs_buf v b)) ∧
  (∀ b, b ∉ aget (vs_infob v) <$> hs → b_disk (vs_buf v' b) = b_disk (vs_buf v b)) ∧
  (∀ b, b ∈ aget (vs_infob v) <$> hs → b_disk (vs_buf v' b) = 0).
Proof.
  revert v. induction hs as [|h hs IH]; intros v; cbn [intr_st].
  { split_and!; try done; [|set_solver]. intros Hs. cbn. by rewrite Z.add_0_r, Z.mod_small. }
  specialize (IH (set_vseen ((vs_seen v + 1) mod NUM) (put_disk (aget (vs_infob v) h) 0 v))). cbv zeta in IH. unfold put_disk in IH. cbn in IH. set (v' := intr_st _ _) in *.
  destruct IH as (H1 & H2 & H3 & H4 & H5 & H6 & H7 & H8 & H9 & H10 & H11 & H12).
  assert (Hb : ∀ b, b_blockno (bset (vs_buf v) (aget (vs_infob v) h) (set_bdisk 0 (vs_buf v (aget (vs_infob v) h))) b) = b_blockno (vs_buf v b) ∧
    b_data (bset (vs_buf v) (aget (vs_infob v) h) (set_bdisk 0 (vs_buf v (aget (vs_infob v) h))) b) = b_data (vs_buf v b)).
  { intros b. destruct (decide (b = aget (vs_infob v) h)) as [->|]; [by rewrite bset_eq|by rewrite bset_ne]. }
  split_and!; try done.
  - intros Hs. rewrite H9 by (apply Z.mod_pos_bound; done). cbn [length]. unfold NUM. dlia.
  - intros b. destruct (H10 b) as [-> ->]. apply Hb.
  - intros b Hb'. rewrite fmap_cons in Hb'. rewrite H11 by set_solver. rewrite bset_ne; [done|set_solver].
  - intros b Hb'. rewrite fmap_cons in Hb'. destruct (decide (b ∈ aget (vs_infob v) <$> hs)) as [Hin|Hni]; [by apply H12|]. rewrite H11 by done.
    apply elem_of_cons in Hb' as [->|?]; [by rewrite bset_eq|done].
Qed.

Lemma inv_infob y Q1 Q2 Q3 Q4 (Q : list req) : vinv y Q1 Q2 Q3 Q4 → (∀ r, r ∈ Q → r ∈ y_wait y) → aget (vs_infob (y_v y)) <$> (rq_head <$> Q) = rq_b <$> Q.
Proof.
  intros HI HQ. rewrite <- list_fmap_compose. apply list_fmap_ext. intros i r Hr. cbn. apply list_elem_of_lookup_2, HQ in Hr.
  destruct (vi_fmt _ _ _ _ _ HI r Hr) as [(i0 & i1 & i2 & E & _ & _ & _ & H & _) _]. unfold rq_head. by rewrite E.
Qed.

Lemma inv_intr y Q1 Q2 Q3 Q4 : vinv y Q1 Q2 Q3 Q4 →
  vinv (VSys (intr_st (rq_head <$> Q3) (y_v y)) (y_next y) (y_pend y) (y_disk y) (y_wait y)) Q1 Q2 [] (Q3 ++ Q4).
Proof.
  intros HI. pose proof (inv_infob _ _ _ _ _ Q3 HI ltac:(intros r Hr; apply (inv_in HI); set_solver)) as Eb.
  assert (Hsep : ∀ r, r ∈ Q1 ++ Q2 → rq_b r ∉ rq_b <$> Q3).
  { intros r Hr. pose proof (vi_bufs _ _ _ _ _ HI) as Hnd. rewrite (vi_perm _ _ _ _ _ HI), app_assoc, fmap_app in Hnd.
    apply NoDup_app in Hnd as (_ & Hd & _). specialize (Hd (rq_b r) ltac:(by apply list_elem_of_fmap_2)). rewrite fmap_app in Hd. set_solver. }
  destruct (intr_st_spec (rq_head <$> Q3) (y_v y)) as (H1 & H2 & H3 & H4 & H5 & H6 & H7 & H8 & H9 & H10 & H11 & H12). rewrite Eb in H11, H12. rewrite length_fmap in H9.
  set (v' := intr_st _ _) in *. destruct HI. specialize (H9 vi_seen0). constructor; cbn [y_v y_next y_pend y_disk y_wait]; try done.
  - unfold vlen. by rewrite H1, H2, H3, H4, H5, H7.
  - unfold free_clean, vfree, vdesc_at. by rewrite H1, H2.
  - intros i Hi. unfold vfree. rewrite H2. by apply vi_taken0.
  - intros r Hr. destruct (vi_fmt0 r Hr) as [Hf Hn]. destruct (H10 (rq_b r)) as [-> _]. split; [|done].
    eapply formatted_ext; [exact Hf|intros i _; unfold vdesc_at; by rewrite H1|intros i _; by rewrite H3, H4|apply H10].
  - intros r Hr. rewrite app_nil_r in Hr. rewrite H11 by (by apply Hsep). apply vi_busy0. set_solver.
  - intros b Hb. rewrite app_nil_r in Hb. destruct (decide (b ∈ rq_b <$> Q3)) as [Hin|Hni]; [by apply H12|]. rewrite H11 by done. apply vi_idle0. rewrite !fmap_app in *. set_solver.
  - by rewrite H6.
  - by rewrite H5.
  - rewrite vi_pend0. symmetry. apply dreq_of_ext. intros r _. apply H10.
  - rewrite H9. by apply Z.mod_pos_bound.
  - cbn. by rewrite H9, H8, Z.add_0_r, Z.mod_mod.
Qed.

(** The state after [rw_finish]. *)
Definition finished (i0 i1 i2 : Z) (v : vst) : vst := freed i2 (freed i1 (freed i0 (set_vinfob (aset (vs_infob v) i0 0) v))).

Lemma finished_other v i0 i1 i2 i : (∀ j, j ∈ [i0; i1; i2] → 0 ≤ j) → 0 ≤ i → i ∉ [i0; i1; i2] →
  vfree (finished i0 i1 i2 v) i = vfree v i ∧ vdesc_at (finished i0 i1 i2 v) i = vdesc_at v i ∧ aget (vs_infob (finished i0 i1 i2 v)) i = aget (vs_infob v) i.
Proof.
  intros Hj Hi Hni. pose proof (Hj i0 ltac:(set_solver)). pose proof (Hj i1 ltac:(set_solver)). pose proof (Hj i2 ltac:(set_solver)). rewrite !not_elem_of_cons in Hni. destruct Hni as (? & ? & ? & _).
  unfold finished. set (v0 := set_vinfob _ v). destruct (freed_other (freed i1 (freed i0 v0)) i2 i) as [-> ->]; [done..|].
  destruct (freed_other (freed i0 v0) i1 i) as [-> ->]; [done..|]. destruct (freed_other v0 i0 i) as [-> ->]; [done..|]. split_and!; [done|done|]. by apply aget_aset_ne; [..|congruence].
Qed.

Lemma finished_len v i0 i1 i2 : vlen v → vlen (finished i0 i1 i2 v).
Proof. intros Hl. unfold finished. apply vlen_freed, vlen_freed, vlen_freed. unfold vlen in *. cbn. by rewrite alen_aset. Qed.

Lemma isfree_freed v a i : 0 ≤ a → i ≠ a → isfree v i → isfree (freed a v) i.
Proof. intros Ha Hne (Hi & H1 & H2). destruct (freed_other v a i ltac:(lia) ltac:(lia) Hne) as [E1 E2]. unfold isfree. by rewrite E1, E2. Qed.

Lemma finished_free v i0 i1 i2 i : vlen v → NoDup [i0; i1; i2] → (∀ j, j ∈ [i0; i1; i2] → 0 ≤ j < NUM) → i ∈ [i0; i1; i2] → isfree (finished i0 i1 i2 v) i.
Proof.
  intros Hl Hnd Hj Hi. pose proof (Hj i0 ltac:(set_solver)). pose proof (Hj i1 ltac:(set_solver)). pose proof (Hj i2 ltac:(set_solver)).
  assert (i0 ≠ i1 ∧ i0 ≠ i2 ∧ i1 ≠ i2) as (N01 & N02 & N12) by (rewrite !NoDup_cons in Hnd; set_solver).
  unfold finished. set (v0 := set_vinfob _ v). assert (vlen v0) by (unfold vlen, v0 in *; cbn; by rewrite alen_aset).
  apply elem_of_cons in Hi as [->|[->|[->|?]%elem_of_cons]%elem_of_cons]; [| | |set_solver].
  - apply isfree_freed, isfree_freed, freed_isfree; (done || lia).
  - apply isfree_freed, freed_isfree; (lia || done || by apply vlen_freed).
  - apply freed_isfree; [by apply vlen_freed, vlen_freed|done].
Qed.

Lemma inv_finish y r Q1 Q2 Q3 Q4 : vinv y Q1 Q2 Q3 Q4 → r ∈ y_wait y →
  ∃ i0 i1 i2, rq_idx r = [i0; i1; i2] ∧ NoDup [i0; i1; i2] ∧ rw_finish vid nowake 0 (rq_idx r) (y_v y) = Ret tt (finished i0 i1 i2 (y_v y)).
Proof.
  intros HI Hr. destruct (vi_fmt _ _ _ _ _ HI r Hr) as [(i0 & i1 & i2 & E & H0 & H1 & H2 & _) _]. exists i0, i1, i2. split; [done|].
  pose proof (NoDup_descs_idx _ r (vi_nodup _ _ _ _ _ HI) Hr) as Hnd. pose proof (λ i, inv_idx HI r i Hr) as Hix. rewrite E in *. split; [done|].
  pose proof (vruns_finish vid nowake 0 (λ _, True) ltac:(done) ltac:(done) ltac:(done) (y_v y) i0 i1 i2 I (vi_len _ _ _ _ _ HI) Hix Hnd) as Hrun.
  change (view vid (y_v y)) with (y_v y) in Hrun. specialize (Hrun ltac:(eauto) ltac:(do 3 eexists; split; [exact H1|by destruct (rq_w r)]) ltac:(eauto)).
  unfold vruns, runs in Hrun. destruct (rw_finish _ _ _ _ _) as [[] v1|]; [|done]. destruct Hrun as [_ Hv]. f_equal. exact Hv.
Qed.

Lemma inv_end y ws1 r ws2 Q1 Q2 Q3 q1 q2 i0 i1 i2 : vinv y Q1 Q2 Q3 (q1 ++ r :: q2) → y_wait y = ws1 ++ r :: ws2 → rq_idx r = [i0; i1; i2] →
  vinv (VSys (finished i0 i1 i2 (y_v y)) (y_next y) (y_pend y) (y_disk y) (ws1 ++ ws2)) Q1 Q2 Q3 (q1 ++ q2).
Proof.
  intros HI Ew E. assert (r ∈ y_wait y) as Hr by (rewrite Ew; set_solver).
  pose proof (NoDup_descs_idx _ r (vi_nodup _ _ _ _ _ HI) Hr) as Hndi. pose proof (λ i, inv_idx HI r i Hr) as Hix. rewrite E in Hndi, Hix.
  assert (Hperm : descs (y_wait y) ≡ₚ [i0; i1; i2] ++ descs (ws1 ++ ws2)).
  { rewrite Ew, !descs_app. change (descs (r :: ws2)) with (rq_idx r ++ descs ws2). rewrite E, !app_assoc. apply Permutation_app_tail. by rewrite Permutation_app_comm. }
  destruct HI. rewrite Hperm in vi_nodup0. apply NoDup_app in vi_nodup0 as (_ & Hdis & Hnd).
  assert (Hsub : ∀ i, i ∈ descs (ws1 ++ ws2) → 0 ≤ i < NUM ∧ vfree (y_v y) i = 0 ∧ i ∉ [i0; i1; i2]).
  { intros i Hi. destruct (vi_taken0 i) as [? ?]; [rewrite Hperm; by apply elem_of_app; right|]. split; [done|split; [done|]]. intros Hbad. by destruct (Hdis i Hbad). }
  pose proof (λ i Hi Hni, finished_other (y_v y) i0 i1 i2 i (λ j Hj, proj1 (proj1 (Hix j Hj))) Hi Hni) as Hoth.
  constructor; cbn [y_v y_next y_pend y_disk y_wait]; try done.
  - by apply finished_len.
  - intros i Hi Hf. destruct (decide (i ∈ [i0; i1; i2])) as [Hin|Hni].
    + destruct (finished_free (y_v y) i0 i1 i2 i) as (_ & ? & ?); [done|done|intros j Hj; by apply Hix|done|done].
    + destruct (Hoth i) as (E1 & E2 & _); [lia|done|]. rewrite E1, E2 in *. by apply vi_clean0.
  - apply (Permutation_cons_inv (a := r)). rewrite (Permutation_middle ws1 ws2), <- Ew, vi_perm0. rewrite !app_assoc. by rewrite <- Permutation_middle.
  - intros i Hi. destruct (Hsub i Hi) as (? & ? & ?). split; [done|]. destruct (Hoth i) as (-> & _); [lia|done|done].
  - intros r' Hr'. destruct (vi_fmt0 r') as [Hf Hn]; [rewrite Ew; set_solver|]. split; [|done].
    assert (Hi' : ∀ i, i ∈ rq_idx r' → 0 ≤ i ∧ i ∉ [i0; i1; i2]) by (intros i Hi; destruct (Hsub i) as (? & _ & ?); [by eapply descs_elem|split; [lia|done]]).
    eapply formatted_ext; [exact Hf|..]; [| |done]; intros i Hi; destruct (Hi' i Hi); destruct (Hoth i) as (_ & ? & ?); done.
  - rewrite Ew, fmap_app, fmap_cons in vi_bufs0. apply NoDup_app in vi_bufs0 as (N1 & N2 & N3). apply NoDup_cons in N3 as [_ N3]. rewrite fmap_app. apply NoDup_app. set_solver.
Qed.
