(* ===== verification/VirtioRefine.v ===== *)
(** * The disk driver implements an abstract disk

    The simulation between the system of VirtioSpec and its abstract disk, and what
    follows from it. *)

From S2P Require Import Prelude Memory Riscv Spinlock Core Sleeplock BufCache Bio Virtio VirtioSpec.

(** The abstract state after events that leave blocks and buffers alone. *)
Lemma agree_perm y Q1 Q2 Q3 Q4 Q1' Q2' Q3' Q4' v' p' q' a : agree y Q1 Q2 Q3 Q4 a →
  (∀ b, b_blockno (vs_buf v' b) = b_blockno (vs_buf (y_v y) b) ∧ b_data (vs_buf v' b) = b_data (vs_buf (y_v y) b)) →
  (∀ r, r ∈ Q1' ++ Q2' → r ∈ Q1 ++ Q2) → (∀ r, r ∈ Q3' ++ Q4' → r ∈ Q3 ++ Q4) →
  agree (VSys v' p' q' (y_disk y) (y_wait y)) Q1' Q2' Q3' Q4' a.
Proof.
  intros [H1 H2 H3 H4 H5 H6] Hb HQ1 HQ2. constructor; cbn [y_v y_disk y_wait].
  - done.
  - intros b. rewrite H2. symmetry. apply Hb.
  - intros b. rewrite H3. symmetry. apply Hb.
  - intros r Hr. by apply H4, HQ1.
  - intros r Hr. by apply H5, HQ2.
  - done.
Qed.

Lemma sector_small v b : 0 ≤ b_blockno (vs_buf v b) < 2 ^ 31 → sector_of v b = 2 * b_blockno (vs_buf v b).
Proof. intros H. unfold sector_of. change (BSIZE / 512) with 2. rewrite u32_small; lia. Qed.

Lemma sec_read_write_eq dk s data : sec_read (sec_write dk s data) s = data.
Proof.
  unfold sec_read, sec_write. rewrite !Z.eqb_refl. destruct (Z.eqb_spec (s + 1) s); [lia|]. apply take_drop.
Qed.
Lemma sec_read_write_ne dk n m data : n ≠ m → sec_read (sec_write dk (2 * n) data) (2 * m) = sec_read dk (2 * m).
Proof. intros Hne. unfold sec_read, sec_write. by rewrite !(proj2 (Z.eqb_neq _ _)) by lia. Qed.

(** Buffers of different requests are different. *)
Lemma inv_other_b y Q1 Q2 Q3 Q4 ws1 r ws2 r' : vinv y Q1 Q2 Q3 Q4 → y_wait y ≡ₚ ws1 ++ r :: ws2 → r' ∈ ws1 ++ ws2 → rq_b r' ≠ rq_b r.
Proof.
  intros HI Hp Hr' E. pose proof (vi_bufs _ _ _ _ _ HI) as Hnd. rewrite Hp, <- Permutation_middle in Hnd. cbn in Hnd.
  apply NoDup_cons in Hnd as [Hni _]. apply Hni. rewrite <- E. by apply list_elem_of_fmap_2.
Qed.

(** [alloc3_desc] and the interrupt loop in a state of the invariant. *)
Lemma inv_alloc3_run y Q1 Q2 Q3 Q4 : vinv y Q1 Q2 Q3 Q4 →
  vruns vid (λ _, True) (alloc3_desc vid nowake 0) (y_v y) (λ r s', r = None ∧ s' = y_v y ∨
    ∃ idx, r = Some idx ∧ length idx = 3%nat ∧ NoDup idx ∧ (∀ i, i ∈ idx → isfree (y_v y) i) ∧ s' = take_all idx (y_v y)).
Proof. intros HI. apply (vruns_alloc3 vid nowake 0 (λ _, True)); try done; apply HI. Qed.

Lemma inv_intr_run y Q1 Q2 Q3 Q4 : vinv y Q1 Q2 Q3 Q4 →
  vruns vid (λ _, True) (intr_loop vid nowake) (y_v y) (λ _ s', s' = intr_st (rq_head <$> Q3) (y_v y)).
Proof.
  intros HI. pose proof (inv_lens HI). apply (vruns_intr vid nowake (λ _, True)); [done..|apply (vi_seen _ _ _ _ _ HI)|rewrite length_fmap; lia|apply (vi_elems _ _ _ _ _ HI)|rewrite length_fmap; apply (vi_used _ _ _ _ _ HI)|].
  intros h (r & -> & Hr)%list_elem_of_fmap. destruct (vi_fmt _ _ _ _ _ HI r) as [(i0 & i1 & i2 & E & _ & _ & _ & _ & Hst) _]; [apply (inv_in HI); set_solver|].
  unfold rq_head. by rewrite E.
Qed.

Lemma inv_perform_step v p dk ws p1 r p2 Q1 Q3 Q4 : vinv (VSys v p ((dreq_of v <$> p1) ++ dreq_of v r :: (dreq_of v <$> p2)) dk ws) Q1 (p1 ++ r :: p2) Q3 Q4 →
  let dr := dreq_of v r in
  vinv (if dr_type dr =? VIRTIO_BLK_T_OUT
       then VSys (dev_done dr v) p ((dreq_of v <$> p1) ++ (dreq_of v <$> p2)) (sec_write dk (dr_sector dr) (b_data (vs_buf v (dr_b dr)))) ws
       else VSys (dev_done dr (put_data (dr_b dr) (sec_read dk (dr_sector dr)) v)) p ((dreq_of v <$> p1) ++ (dreq_of v <$> p2)) dk ws)
    Q1 (p1 ++ p2) (Q3 ++ [r]) Q4.
Proof.
  intros HI dr. rewrite <- fmap_app. destruct (_ =? _).
  - pose proof (inv_perform _ r Q1 p1 p2 Q3 Q4 (sec_write dk (dr_sector dr) (b_data (vs_buf v (dr_b dr)))) (vs_buf v) HI ltac:(done)) as H. by destruct v.
  - apply (inv_perform _ r Q1 p1 p2 Q3 Q4 dk (vs_buf (put_data (dr_b dr) (sec_read dk (dr_sector dr)) v)) HI).
    intros b. unfold put_data. cbn. unfold bset. by destruct (Z.eqb_spec b (rq_b r)) as [->|].
Qed.

Section Sim.
Context {y : vsys} {Q1 Q2 Q3 Q4 : list req} (HI : vinv y Q1 Q2 Q3 Q4).
Context {a : aspec} (HA : agree y Q1 Q2 Q3 Q4 a).

Lemma sim_tau y' : vstep y None y' → ∃ Q1' Q2' Q3' Q4', vinv y' Q1' Q2' Q3' Q4' ∧ agree y' Q1' Q2' Q3' Q4' a.
Proof using HI HA.
  intros Hs. inversion Hs as [| |v v1 p q dk ws Ha|v p q dk ws r Hne Hf| |v v1 p q dk ws Hi|]; subst.
  - assert (v1 = v) as ->.
    { destruct (vid_ret _ _ _ _ _ (inv_alloc3_run _ _ _ _ _ HI) Ha) as [[_ E]|(? & ? & _)]; done. }
    by exists Q1, Q2, Q3, Q4.
  - destruct (inv_pop_front HI Hne) as (r0 & Q1' & -> & Eh & Hr0). cbn [y_v y_next] in Eh. pose proof (inv_fetch HI r0 Hr0) as Hf'. cbn [y_v] in Hf'. rewrite Eh, Hf' in Hf. injection Hf as <-.
    exists Q1', (Q2 ++ [r0]), Q3, Q4. split; [exact (inv_pop _ _ _ _ _ _ HI)|]. eapply (agree_perm _ _ _ _ _ _ _ _ _ _ _ _ _ HA); [done| |done]. intros r Hr. set_solver.
  - exists Q1, Q2, [], (Q3 ++ Q4). assert (v1 = intr_st (rq_head <$> Q3) v) as ->.
    { exact (vid_ret _ _ _ _ _ (inv_intr_run _ _ _ _ _ HI) Hi). }
    split; [exact (inv_intr _ _ _ _ _ HI)|]. eapply (agree_perm _ _ _ _ _ _ _ _ _ _ _ _ _ HA); [|done|done].
    destruct (intr_st_spec (rq_head <$> Q3) v) as (_ & _ & _ & _ & _ & _ & _ & _ & _ & Hb & _). exact Hb.
Qed.

Lemma agree_own b bf : b ∉ rq_b <$> y_wait y → b_disk bf = b_disk (vs_buf (y_v y) b) →
  ∃ a', astep (EOwn b bf) a = Some a' ∧
    agree (VSys (set_vbuf (bset (vs_buf (y_v y)) b bf) (y_v y)) (y_next y) (y_pend y) (y_disk y) (y_wait y)) Q1 Q2 Q3 Q4 a'.
Proof using HA.
  clear HI. intros Hb Hd. destruct HA as [H1 H2 H3 H4 H5 H6]. cbn [astep]. rewrite (H6 b Hb). eexists; split; [done|]. constructor; cbn; try done.
  - intros b'. unfold bset, zset. by destruct (b' =? b).
  - intros b'. unfold bset, zset. by destruct (b' =? b).
Qed.

Lemma agree_start b w idx v2 : b ∉ rq_b <$> y_wait y → vs_buf v2 = bset (vs_buf (y_v y)) b (set_bdisk 1 (vs_buf (y_v y) b)) →
  ∃ a', astep (EStart b w) a = Some a' ∧ agree (VSys v2 (y_next y) (y_pend y) (y_disk y) (Req b w idx :: y_wait y)) (Q1 ++ [Req b w idx]) Q2 Q3 Q4 a'.
Proof using HI HA.
  intros Hb Ev. assert (Hne : ∀ r, r ∈ Q1 ++ Q2 ++ Q3 ++ Q4 → rq_b r ≠ b) by (intros r Hr <-; by apply Hb, list_elem_of_fmap_2, (inv_in HI)).
  destruct HA as [H1 H2 H3 H4 H5 H6]. cbn [astep]. rewrite (H6 b Hb). eexists; split; [done|].
  assert (Hk : ∀ b', b_blockno (vs_buf v2 b') = b_blockno (vs_buf (y_v y) b') ∧ b_data (vs_buf v2 b') = b_data (vs_buf (y_v y) b')).
  { intros b'. rewrite Ev. destruct (decide (b' = b)) as [->|]; [by rewrite bset_eq|by rewrite bset_ne]. }
  constructor; cbn [a_disk a_no a_data a_op y_v y_disk y_wait].
  - done.
  - intros b'. by rewrite (proj1 (Hk b')).
  - intros b'. by rewrite (proj2 (Hk b')).
  - intros r Hr. rewrite !elem_of_app, list_elem_of_singleton in Hr. destruct Hr as [[Hr| ->]|Hr]; [|by rewrite zset_eq|].
    + rewrite zset_ne by (apply Hne; set_solver). apply H4. set_solver.
    + rewrite zset_ne by (apply Hne; set_solver). apply H4. set_solver.
  - intros r Hr. rewrite zset_ne by (apply Hne; rewrite !elem_of_app in *; tauto). by apply H5.
  - intros b' Hb'. cbn in Hb'. rewrite not_elem_of_cons in Hb'. rewrite zset_ne by tauto. apply H6. tauto.
Qed.

(** The device carries out the request of [r]. *)
Lemma agree_perform r p1 p2 : Q2 = p1 ++ r :: p2 → ∃ a', astep (EPerform (rq_b r)) a = Some a' ∧
  let v := y_v y in let dr := dreq_of v r in
  agree (if dr_type dr =? VIRTIO_BLK_T_OUT
       then VSys (dev_done dr v) (y_next y) (dreq_of v <$> p1 ++ p2) (sec_write (y_disk y) (dr_sector dr) (b_data (vs_buf v (dr_b dr)))) (y_wait y)
       else VSys (dev_done dr (put_data (dr_b dr) (sec_read (y_disk y) (dr_sector dr)) v)) (y_next y) (dreq_of v <$> p1 ++ p2) (y_disk y) (y_wait y))
    Q1 (p1 ++ p2) (Q3 ++ [r]) Q4 a'.
Proof using HI HA.
  intros E2. assert (Hp : y_wait y ≡ₚ (Q1 ++ p1) ++ r :: (p2 ++ Q3 ++ Q4)) by (rewrite (vi_perm _ _ _ _ _ HI), E2, <- !app_assoc; done).
  assert (Hr : r ∈ y_wait y) by (rewrite Hp; set_solver). destruct (vi_fmt _ _ _ _ _ HI r Hr) as [_ Hno].
  assert (Hne : ∀ r', r' ∈ (Q1 ++ p1) ++ p2 ++ Q3 ++ Q4 → rq_b r' ≠ rq_b r) by (intros r' Hr'; by eapply inv_other_b).
  assert (Hops : ∀ o : bool * bool, o = (rq_w r, true) →
    (∀ r', r' ∈ Q1 ++ p1 ++ p2 → zset (a_op a) (rq_b r) (Some o) (rq_b r') = Some (rq_w r', false)) ∧
    (∀ r', r' ∈ (Q3 ++ [r]) ++ Q4 → zset (a_op a) (rq_b r) (Some o) (rq_b r') = Some (rq_w r', true)) ∧
    (∀ b, b ∉ rq_b <$> y_wait y → zset (a_op a) (rq_b r) (Some o) b = None)).
  { intros o ->. split_and!.
    - intros r' Hr'. rewrite zset_ne by (apply Hne; rewrite !elem_of_app in *; tauto). apply (ag_todo _ _ _ _ _ _ HA). rewrite E2, !elem_of_app, elem_of_cons. rewrite !elem_of_app in Hr'. tauto.
    - intros r' Hr'. rewrite !elem_of_app, list_elem_of_singleton in Hr'. destruct Hr' as [[Hr'| ->]|Hr']; [|by rewrite zset_eq|];
        (rewrite zset_ne by (apply Hne; rewrite !elem_of_app in *; tauto)); apply (ag_done _ _ _ _ _ _ HA); rewrite elem_of_app; tauto.
    - intros b Hb. rewrite zset_ne; [by apply (ag_none _ _ _ _ _ _ HA)|]. intros ->. by apply Hb, list_elem_of_fmap_2. }
  assert (Ha : a_op a (rq_b r) = Some (rq_w r, false)) by (apply (ag_todo _ _ _ _ _ _ HA); rewrite E2; set_solver).
  destruct (Hops _ eq_refl) as (Ho1 & Ho2 & Ho3). cbn [astep]. rewrite Ha. cbv zeta. cbn [dreq_of dr_type dr_sector dr_b]. unfold rq_type. rewrite (sector_small (y_v y)) by done.
  pose proof (ag_disk _ _ _ _ _ _ HA) as Hd. pose proof (ag_no _ _ _ _ _ _ HA) as Hn. pose proof (ag_data _ _ _ _ _ _ HA) as Hda.
  destruct (rq_w r) eqn:Ew; (eexists; split; [done|]); [change (VIRTIO_BLK_T_OUT =? VIRTIO_BLK_T_OUT) with true|change (VIRTIO_BLK_T_IN =? VIRTIO_BLK_T_OUT) with false]; cbv iota.
  - constructor; cbn [a_disk a_no a_data a_op y_v y_disk y_wait]; try done. intros n Hn'. rewrite Hn, Hda. destruct (decide (n = b_blockno (vs_buf (y_v y) (rq_b r)))) as [->|Hnn].
    + by rewrite zset_eq, sec_read_write_eq.
    + rewrite zset_ne by done. rewrite sec_read_write_ne by congruence. by apply Hd.
  - constructor; cbn [a_disk a_no a_data a_op y_v y_disk y_wait]; try done; intros b; unfold dev_done, put_data; cbn.
    + rewrite Hn. unfold bset. by destruct (Z.eqb_spec b (rq_b r)) as [->|].
    + unfold zset, bset. destruct (Z.eqb_spec b (rq_b r)) as [->|]; [|done]. cbn. rewrite Hn. by apply Hd.
Qed.

Lemma agree_end r ws1 ws2 q1 q2 v' : y_wait y = ws1 ++ r :: ws2 → Q4 = q1 ++ r :: q2 → vs_buf v' = vs_buf (y_v y) →
  ∃ a', astep (EEnd (rq_b r)) a = Some a' ∧ agree (VSys v' (y_next y) (y_pend y) (y_disk y) (ws1 ++ ws2)) Q1 Q2 Q3 (q1 ++ q2) a'.
Proof using HI HA.
  intros Ew E4 Ev. assert (Hne : ∀ r', r' ∈ ws1 ++ ws2 → rq_b r' ≠ rq_b r) by (intros r' Hr'; eapply inv_other_b; [done|by rewrite Ew|done]).
  assert (Hin : ∀ r', r' ∈ Q1 ++ Q2 ++ Q3 ++ q1 ++ q2 → r' ∈ ws1 ++ ws2).
  { assert (Q1 ++ Q2 ++ Q3 ++ q1 ++ q2 ≡ₚ ws1 ++ ws2) as Hp; [|intros r' Hr'; by rewrite <- Hp].
    apply (Permutation_cons_inv (a := r)). rewrite (Permutation_middle ws1 ws2), <- Ew, (vi_perm _ _ _ _ _ HI), E4. rewrite !app_assoc. by rewrite <- Permutation_middle. }
  destruct HA as [H1 H2 H3 H4 H5 H6]. cbn [astep]. rewrite (H5 r) by (rewrite E4; set_solver). eexists; split; [done|].
  constructor; cbn [a_disk a_no a_data a_op y_v y_disk y_wait]; rewrite ?Ev; try done.
  - intros r' Hr'. rewrite zset_ne; [by apply H4|]. apply Hne, Hin. rewrite !elem_of_app in *. tauto.
  - intros r' Hr'. rewrite zset_ne; [apply H5; rewrite E4, !elem_of_app, ?elem_of_cons in *; tauto|]. apply Hne, Hin. rewrite !elem_of_app in *. tauto.
  - intros b Hb. destruct (decide (b = rq_b r)) as [->|Hn]; [by rewrite zset_eq|]. rewrite zset_ne by done. apply H6. rewrite Ew, fmap_app, fmap_cons, not_elem_of_app, not_elem_of_cons.
    rewrite fmap_app, not_elem_of_app in Hb. tauto.
Qed.

(** A waiting process whose buffer the disk no longer owns is done. *)
Lemma inv_done r : r ∈ y_wait y → b_disk (vs_buf (y_v y) (rq_b r)) ≠ 1 → r ∈ Q4.
Proof using HI.
  clear HA. intros Hr Hd. apply (inv_in HI) in Hr. rewrite !elem_of_app in Hr. pose proof (vi_busy _ _ _ _ _ HI r) as Hb. rewrite !elem_of_app in Hb.
  destruct Hr as [?|[?|[?|?]]]; [..|done]; destruct Hd; apply Hb; tauto.
Qed.

End Sim.

Lemma sim_ev y Q1 Q2 Q3 Q4 a e y' : vinv y Q1 Q2 Q3 Q4 → agree y Q1 Q2 Q3 Q4 a → vstep y (Some e) y' → ∃ Q1' Q2' Q3' Q4' a', astep e a = Some a' ∧ vinv y' Q1' Q2' Q3' Q4' ∧ agree y' Q1' Q2' Q3' Q4' a'.
Proof.
  intros HI HA Hs. inversion Hs as [v p q dk ws b bf Hb Hd|v v1 v2 p q dk ws b w idx Hb Hno Ha Hsub| | |v p q1 r q2 dk ws| |v v1 p q dk ws1 r ws2 Hd Hf]; subst.
  - destruct (agree_own HA b bf Hb Hd) as (a' & Ha & Hag). exists Q1, Q2, Q3, Q4, a'. split; [done|]. split; [exact (inv_own _ _ _ _ _ b bf HI Hb Hd)|done].
  - destruct (vid_ret _ _ _ _ _ (inv_alloc3_run _ _ _ _ _ HI) Ha) as [[? _]|(idx' & [= ->] & Hl & Hnd & Hfr & ->)]; [done|]. cbn [y_v] in *.
    destruct (inv_start _ _ _ _ _ b w idx' HI Hb Hno Hl Hnd Hfr) as (v2' & Hsub' & Ebuf & HI'). cbn [y_v] in Hsub'. rewrite Hsub' in Hsub. injection Hsub as ->.
    destruct (agree_start HI HA b w idx' v2 Hb Ebuf) as (a' & Ha' & Hag). by exists (Q1 ++ [Req b w idx']), Q2, Q3, Q4, a'.
  - pose proof (vi_pend _ _ _ _ _ HI) as Hp. cbn [y_pend y_v] in Hp. symmetry in Hp. apply fmap_app_inv in Hp as (p1 & t & -> & Ht & E2). symmetry in Ht. apply fmap_cons_inv in Ht as (r0 & p2 & -> & -> & ->).
    destruct (agree_perform HI HA r0 p1 p2 E2) as (a' & Ha & Hag). rewrite E2 in HI.
    exists Q1, (p1 ++ p2), (Q3 ++ [r0]), Q4, a'. split; [done|].
    cbn [y_v y_next y_disk y_wait] in Hag. rewrite fmap_app in Hag. split; [|exact Hag]. exact (inv_perform_step _ _ _ _ _ _ _ _ _ _ HI).
  - destruct (inv_finish _ r _ _ _ _ HI) as (i0 & i1 & i2 & Ei & _ & Hf'); [cbn; set_solver|]. cbn [y_v] in Hf'. rewrite Hf' in Hf. injection Hf as <-.
    assert (r ∈ Q4) as (q1 & q2 & E4)%list_elem_of_split by (apply (inv_done HI); [cbn; set_solver|done]).
    destruct (agree_end HI HA r ws1 ws2 q1 q2 (finished i0 i1 i2 v) eq_refl E4 eq_refl) as (a' & Ha & Hag). rewrite E4 in HI.
    exists Q1, Q2, Q3, (q1 ++ q2), a'. split; [done|]. split; [|done]. exact (inv_end _ ws1 r ws2 Q1 Q2 Q3 q1 q2 i0 i1 i2 HI eq_refl Ei).
Qed.

(** ** The start *)

(** [struct disk] before [virtio_disk_init]: static storage, and idle buffers. *)
Definition zeroed (s : vst) : Prop :=
  vs_init s = 0 ∧ vs_seen s = 0 ∧ alen (vs_free s) = NUM ∧ alen (vs_infob s) = NUM ∧ alen (vs_status s) = NUM ∧ ∀ b, b_disk (vs_buf s b) = 0.

Lemma runs_vmod (f : vst → vst) s Q : Q tt (f s) → runs (vmod vid f) s Q.
Proof. done. Qed.
Lemma runs_vget {A} (f : vst → A) s Q : Q (f s) s → runs (vget vid f) s Q.
Proof. done. Qed.

Lemma runs_free_all s : alen (vs_free s) = NUM →
  runs (for_range (Z.to_nat NUM) 0 (λ i, vmod vid (put_free i 1))) s (λ _ s', s' = set_vfree (replicate (Z.to_nat NUM) 1) s).
Proof. intros Hl. destruct s as [ds av rg us el fr]. cbn in Hl. assert (length fr = 8%nat) as Hl' by (unfold alen, NUM in Hl; lia). clear Hl. by destruct fr as [|f0 [|f1 [|f2 [|f3 [|f4 [|f5 [|f6 [|f7 [|]]]]]]]]]. Qed.

Section Start.
Context (reg : Z → Z) (pages : Z).

(** A device that [virtio_disk_init] accepts. *)
Definition good_device : Prop :=
  reg VIRTIO_MMIO_MAGIC_VALUE = 0x74726976 ∧ reg VIRTIO_MMIO_VERSION = 1 ∧ reg VIRTIO_MMIO_DEVICE_ID = 2 ∧
  reg VIRTIO_MMIO_VENDOR_ID = 0x554d4551 ∧ NUM ≤ reg VIRTIO_MMIO_QUEUE_NUM_MAX.

(** What [virtio_disk_init] sets up. *)
Definition init_fields (s v : vst) : Prop :=
  vs_buf v = vs_buf s ∧ vs_desc v = replicate (Z.to_nat NUM) (VDesc VNull 0 0 0) ∧ vs_avail v = 0 ∧ vs_ring v = replicate (Z.to_nat NUM) 0 ∧ vs_used v = 0 ∧
  vs_elems v = replicate (Z.to_nat NUM) 0 ∧ vs_free v = replicate (Z.to_nat NUM) 1 ∧ vs_seen v = vs_seen s ∧ vs_infob v = vs_infob s ∧ vs_status v = vs_status s.

Lemma runs_init_fields s : zeroed s → good_device → runs (virtio_disk_init vid reg (mret tt) pages) s (λ _ v, init_fields s v).
Proof.
  intros (H0 & _ & Hf & _) (Hm & Hv & Hd & Hn & Hq). unfold virtio_disk_init. apply runs_bind, (runs_vget id). change (id s) with s. rewrite H0, Hm, Hv, Hd, Hn.
  change (negb (0 =? 0)) with false. cbv iota. apply runs_bind, runs_ret. apply runs_bind, runs_vmod. change (_ || _) with false. cbv iota. do 7 apply runs_bind, runs_vmod.
  destruct (Z.eqb_spec (reg VIRTIO_MMIO_QUEUE_NUM_MAX) 0) as [E|E]; [rewrite E in Hq; by destruct Hq|]. destruct (Z.ltb_spec (reg VIRTIO_MMIO_QUEUE_NUM_MAX) NUM); [lia|].
  do 3 apply runs_bind, runs_vmod. apply runs_bind. eapply runs_mono; [by apply runs_free_all|]. intros [] v ->. apply runs_vmod. unfold init_fields. split_and!; reflexivity.
Qed.

Lemma init_inv s v dk : zeroed s → init_fields s v → vinv (VSys v 0 [] dk []) [] [] [] [].
Proof.
  intros (H0 & Hs & Hf & Hib & Hst & Hb) (E1 & E2 & E3 & E4 & E5 & E6 & E7 & E8 & E9 & E10). constructor; cbn; try done; try (intros r Hr; set_solver); rewrite ?E8, ?Hs, ?E5; try done.
  - unfold vlen. by rewrite E2, E4, E6, E7, E9, E10.
  - intros i Hi _. unfold vfree, vdesc_at. rewrite E2, E7. unfold NUM in Hi. assert (i ∈ [0; 1; 2; 3; 4; 5; 6; 7]) as Hin by (rewrite !elem_of_cons; lia).
    rewrite !elem_of_cons in Hin. destruct Hin as [->|[->|[->|[->|[->|[->|[->|[->|[]%not_elem_of_nil]]]]]]]]; done.
  - constructor.
  - constructor.
  - intros b _. rewrite E1. apply Hb.
Qed.
End Start.

(** ** The theorems *)

(** No routine of the driver can panic, and the device understands what it is given. *)
Definition driver_safe (y : vsys) : Prop :=
  runs (alloc3_desc vid nowake 0) (y_v y) (λ _ _, True) ∧ runs (intr_loop vid nowake) (y_v y) (λ _ _, True) ∧
  (∀ r, r ∈ y_wait y → runs (rw_finish vid nowake 0 (rq_idx r)) (y_v y) (λ _ _, True)) ∧
  (y_next y ≠ vs_avail (y_v y) → ∃ r, dev_fetch (y_v y) (aget (vs_ring (y_v y)) (y_next y mod NUM)) = Some r).

Lemma inv_safe y Q1 Q2 Q3 Q4 : vinv y Q1 Q2 Q3 Q4 → driver_safe y.
Proof.
  intros HI. split_and!.
  - eapply vid_runs, inv_alloc3_run, HI.
  - eapply vid_runs, inv_intr_run, HI.
  - intros r Hr. destruct (inv_finish _ r _ _ _ _ HI Hr) as (i0 & i1 & i2 & _ & _ & E). by eapply runs_eq.
  - intros Hne. destruct (inv_pop_front HI Hne) as (r & Q1' & _ & -> & Hr). rewrite (inv_fetch HI r Hr). eauto.
Qed.

(** The abstract disk at the start. *)
Definition starts_as (dk : Z → list Z) (s : vst) (a : aspec) : Prop :=
  (∀ n, 0 ≤ n < 2 ^ 31 → a_disk a n = sec_read dk (2 * n)) ∧
  (∀ b, a_no a b = b_blockno (vs_buf s b) ∧ a_data a b = b_data (vs_buf s b) ∧ a_op a b = None).

Lemma trace_inv y0 a0 tr y : vinv y0 [] [] [] [] → agree y0 [] [] [] [] a0 → vtrace y0 tr y →
  ∃ Q1 Q2 Q3 Q4 a, arun tr a0 = Some a ∧ vinv y Q1 Q2 Q3 Q4 ∧ agree y Q1 Q2 Q3 Q4 a.
Proof.
  intros HI0 HA0. induction 1 as [|tr y y' _ (Q1 & Q2 & Q3 & Q4 & a & Ha & HI & HA) Hs|tr y e y' _ (Q1 & Q2 & Q3 & Q4 & a & Ha & HI & HA) Hs].
  - by exists [], [], [], [], a0.
  - destruct (sim_tau HI HA _ Hs) as (Q1' & Q2' & Q3' & Q4' & ? & ?). by exists Q1', Q2', Q3', Q4', a.
  - destruct (sim_ev _ _ _ _ _ _ _ _ HI HA Hs) as (Q1' & Q2' & Q3' & Q4' & a' & ? & ? & ?). exists Q1', Q2', Q3', Q4', a'. by rewrite (arun_snoc _ _ _ _ Ha).
Qed.

Lemma start_agrees s v dk a : vs_buf v = vs_buf s → starts_as dk s a → agree (VSys v 0 [] dk []) [] [] [] [] a.
Proof. intros Hb [Hd Hs]. constructor; cbn; rewrite ?Hb; try done; try (intros b; by destruct (Hs b) as (? & ? & ?)); intros r Hr; set_solver. Qed.

(** C5: after [virtio_disk_init], whatever processes submit, in whatever order the
    device completes the requests and however the interrupts fall, the events are a run of the
    abstract disk: a request is carried out exactly once, between its start and its
    end, on the block of its buffer and in its direction; blocks and buffers agree.  At
    no point can a routine of the driver panic. *)
Theorem virtio_refines reg pages s v0 dk a0 tr y :
  zeroed s → good_device reg → virtio_disk_init vid reg (mret tt) pages s = Ret tt v0 → starts_as dk s a0 →
  vtrace (VSys v0 0 [] dk []) tr y →
  driver_safe y ∧ ∃ a, arun tr a0 = Some a ∧ (∀ n, 0 ≤ n < 2 ^ 31 → a_disk a n = sec_read (y_disk y) (2 * n)) ∧
    ∀ b, a_data a b = b_data (vs_buf (y_v y) b).
Proof.
  intros Hz Hg Hi Hs Ht. pose proof (runs_init_fields reg pages s Hz Hg) as Hr. unfold runs in Hr. rewrite Hi in Hr. pose proof (init_inv s v0 dk Hz Hr) as HI0. destruct Hr as [Hb _].
  destruct (trace_inv _ _ _ _ HI0 (start_agrees _ _ _ _ Hb Hs) Ht) as (Q1 & Q2 & Q3 & Q4 & a & Ha & HI & HA).
  split; [by eapply inv_safe|]. exists a. split; [done|]. split; apply HA.
Qed.

(** ** Every request can be finished *)

Definition finishing (e : option vev) : Prop := match e with Some (EOwn _ _) | Some (EStart _ _) => False | _ => True end.

(** What is left to do for the requests in flight. *)
Definition todo (Q1 Q2 Q3 Q4 : list req) : nat := 4 * length Q1 + 3 * length Q2 + 2 * length Q3 + length Q4.

(** While a process waits, the device, the interrupt or the process can move on. *)
Lemma inv_progress y Q1 Q2 Q3 Q4 : vinv y Q1 Q2 Q3 Q4 → y_wait y ≠ [] →
  ∃ e y' Q1' Q2' Q3' Q4', vstep y e y' ∧ finishing e ∧ vinv y' Q1' Q2' Q3' Q4' ∧ (todo Q1' Q2' Q3' Q4' < todo Q1 Q2 Q3 Q4)%nat.
Proof.
  intros HI Hw. unfold todo. pose proof (inv_lens HI) as Hlens. destruct y as [v p q dk ws]. cbn [y_wait] in Hw. destruct Q1 as [|r Q1].
  2:{ pose proof (vi_avail _ _ _ _ _ HI) as Ha. pose proof (vi_next _ _ _ _ _ HI) as Hn. cbn in Ha, Hn. assert (p ≠ vs_avail v) as Hne.
      { rewrite Ha. cbn [length] in *. unfold u16. intros E. dlia. }
      destruct (inv_pop_front HI Hne) as (r' & Q1' & [= <- <-] & Eh & Hr). cbn [y_v y_next y_wait] in *. pose proof (inv_fetch HI r Hr) as Hf. cbn [y_v] in Hf. rewrite <- Eh in Hf.
      do 2 eexists. exists Q1, (Q2 ++ [r]), Q3, Q4. split; [by apply v_pop|]. split; [done|]. split; [exact (inv_pop _ _ _ _ _ _ HI)|]. rewrite length_app. cbn. lia. }
  destruct Q2 as [|r Q2].
  2:{ pose proof (vi_pend _ _ _ _ _ HI) as Hp. cbn in Hp. subst q. do 2 eexists. exists [], Q2, (Q3 ++ [r]), Q4. split; [apply (v_perform v p [])|]. split; [done|].
      split; [exact (inv_perform_step _ _ _ _ [] _ _ _ _ _ HI)|]. rewrite length_app. cbn. lia. }
  destruct Q3 as [|r Q3].
  2:{ pose proof (inv_intr_run _ _ _ _ _ HI) as Hr. unfold vruns, runs in Hr. destruct (intr_loop vid nowake _) as [[] v1|] eqn:E; [|done]. destruct Hr as [_ Hv]. cbn in Hv. unfold id in Hv. subst v1.
      do 2 eexists. exists [], [], [], ((r :: Q3) ++ Q4). split; [by apply v_intr|]. split; [done|]. split; [exact (inv_intr _ _ _ _ _ HI)|]. rewrite length_app. cbn. lia. }
  pose proof (vi_perm _ _ _ _ _ HI) as Hp. cbn in Hp. destruct Q4 as [|r Q4]; [symmetry in Hp; by apply Permutation_nil in Hp|].
  assert (r ∈ ws) as Hr by (rewrite Hp; set_solver). destruct (inv_finish _ r _ _ _ _ HI Hr) as (i0 & i1 & i2 & Ei & _ & Hf). apply list_elem_of_split in Hr as (ws1 & ws2 & ->).
  do 2 eexists. exists [], [], [], Q4. split; [apply v_end; [|exact Hf]; rewrite (vi_idle _ _ _ _ _ HI); [done|set_solver]|]. split; [done|].
  split; [exact (inv_end _ ws1 r ws2 [] [] [] [] Q4 i0 i1 i2 HI eq_refl Ei)|]. cbn. lia.
Qed.

Lemma inv_drain y0 tr y Q1 Q2 Q3 Q4 : vinv y Q1 Q2 Q3 Q4 → vtrace y0 tr y →
  ∃ tr' y', vtrace y0 (tr ++ tr') y' ∧ y_wait y' = [] ∧ ∀ e, e ∈ tr' → finishing (Some e).
Proof.
  intros HI. remember (todo Q1 Q2 Q3 Q4) as m eqn:Em. revert tr y Q1 Q2 Q3 Q4 HI Em.
  induction (lt_wf m) as [m _ IH]. intros tr y Q1 Q2 Q3 Q4 HI -> Ht.
  destruct (y_wait y) as [|r ws] eqn:Ew; [exists [], y; rewrite app_nil_r; split_and!; [done|done|set_solver]|].
  destruct (inv_progress _ _ _ _ _ HI) as (e & y' & Q1' & Q2' & Q3' & Q4' & Hs & He & HI' & Hlt); [by rewrite Ew|]. destruct e as [e|].
  - destruct (IH _ Hlt (tr ++ [e]) y' _ _ _ _ HI' eq_refl) as (tr' & y2 & H2 & Hw & Hf); [by eapply vt_ev|].
    exists (e :: tr'), y2. rewrite <- app_assoc in H2. split_and!; [done|done|]. intros e' [->|?]%elem_of_cons; auto.
  - apply (IH _ Hlt tr y' _ _ _ _ HI' eq_refl). by eapply vt_tau.
Qed.


(** ** An execution

    A process writes block 5 from buffer 1, a second one reads block 5 into buffer 2;
    the device completes the write first. *)
Definition ex_reg (r : Z) : Z :=
  if r =? VIRTIO_MMIO_MAGIC_VALUE then 0x74726976 else if r =? VIRTIO_MMIO_VERSION then 1 else if r =? VIRTIO_MMIO_DEVICE_ID then 2 else
  if r =? VIRTIO_MMIO_VENDOR_ID then 0x554d4551 else if r =? VIRTIO_MMIO_QUEUE_NUM_MAX then 1024 else 0.
Definition ex_buf (data : list Z) : buf := Buf 0 0 1 5 (b_lock buf0) 1 0 0 data.
Definition ex_vst : vst := VSt [] 0 [] 0 [] (replicate 8 0) 0 (replicate 8 0) (replicate 8 0) 0 (initlock "") []
  (λ b, if b =? 1 then ex_buf [7] else ex_buf []).
Definition ex_disk (_ : Z) : list Z := [0].
Definition ex_v0 : vst := state (virtio_disk_init vid ex_reg (mret tt) 0x80010000) ex_vst.
Definition ex_spec : aspec := ASpec (λ n, sec_read ex_disk (2 * n)) (λ b, b_blockno (vs_buf ex_vst b)) (λ b, b_data (vs_buf ex_vst b)) (λ _, None).

(** The states of the run. *)
Definition do_start (b : Z) (w : bool) (y : vsys) : vsys :=
  let idx := match result None (alloc3_desc vid nowake 0) (y_v y) with Some idx => idx | None => [] end in
  VSys (state (rw_submit vid b w idx) (state (alloc3_desc vid nowake 0) (y_v y))) (y_next y) (y_pend y) (y_disk y) (Req b w idx :: y_wait y).
Definition do_pop (y : vsys) : vsys :=
  match dev_fetch (y_v y) (aget (vs_ring (y_v y)) (y_next y mod NUM)) with
  | Some r => VSys (y_v y) (u16 (y_next y + 1)) (y_pend y ++ [r]) (y_disk y) (y_wait y)
  | None => y
  end.
Definition do_perform (y : vsys) : vsys :=
  match y_pend y with
  | r :: q => if dr_type r =? VIRTIO_BLK_T_OUT
      then VSys (dev_done r (y_v y)) (y_next y) q (sec_write (y_disk y) (dr_sector r) (b_data (vs_buf (y_v y) (dr_b r)))) (y_wait y)
      else VSys (dev_done r (put_data (dr_b r) (sec_read (y_disk y) (dr_sector r)) (y_v y))) (y_next y) q (y_disk y) (y_wait y)
  | [] => y
  end.
Definition ex_y0 : vsys := VSys ex_v0 0 [] ex_disk [].
Definition ex_y1 : vsys := do_start 2 false (do_start 1 true ex_y0).
Definition ex_y2 : vsys := do_perform (do_perform (do_pop (do_pop ex_y1))).
Definition ex_events : list vev := [EStart 1 true; EStart 2 false; EPerform 1; EPerform 2].

Lemma do_start_step b w y idx : b ∉ rq_b <$> y_wait y → 0 ≤ b_blockno (vs_buf (y_v y) b) < 2 ^ 31 →
  result None (alloc3_desc vid nowake 0) (y_v y) = Some idx → vstep y (Some (EStart b w)) (do_start b w y).
Proof.
  intros Hb Hn Hr. destruct y as [v p q dk ws]. unfold do_start. cbn [y_v y_next y_pend y_disk y_wait] in *. rewrite Hr.
  apply v_start with (v1 := state (alloc3_desc vid nowake 0) v); [done|done| |by destruct w]. unfold result, state in *. destruct (alloc3_desc _ _ _ v); congruence.
Qed.
Lemma do_pop_step y r : y_next y ≠ vs_avail (y_v y) → dev_fetch (y_v y) (aget (vs_ring (y_v y)) (y_next y mod NUM)) = Some r → vstep y None (do_pop y).
Proof. intros Hn Hr. destruct y. unfold do_pop. cbn in *. rewrite Hr. by apply v_pop. Qed.
Lemma do_perform_step y r q : y_pend y = r :: q → vstep y (Some (EPerform (dr_b r))) (do_perform y).
Proof. intros Hq. destruct y. unfold do_perform. cbn in *. rewrite Hq. apply (v_perform _ _ []). Qed.

Lemma ex_trace : vtrace ex_y0 ex_events ex_y2.
Proof.
  apply (vt_ev _ [EStart 1 true; EStart 2 false; EPerform 1] (do_perform (do_pop (do_pop ex_y1))) (EPerform 2)); [|by eapply (do_perform_step _ (DReq 3 0 10 2 3) []); vm_compute].
  apply (vt_ev _ [EStart 1 true; EStart 2 false] (do_pop (do_pop ex_y1)) (EPerform 1)); [|by eapply (do_perform_step _ (DReq 0 1 10 1 0) [DReq 3 0 10 2 3]); vm_compute].
  eapply vt_tau; [|by eapply (do_pop_step _ (DReq 3 0 10 2 3)); vm_compute]. eapply vt_tau; [|by eapply (do_pop_step _ (DReq 0 1 10 1 0)); vm_compute].
  apply (vt_ev _ [EStart 1 true] (do_start 1 true ex_y0) (EStart 2 false)); [apply (vt_ev _ [] ex_y0 (EStart 1 true)); [constructor|]|].
  - apply (do_start_step _ _ _ [0; 1; 2]); [cbn; set_solver|by vm_compute|by vm_compute].
  - apply (do_start_step _ _ _ [3; 4; 5]); [|by vm_compute|by vm_compute]. change (2 ∉ [1]). set_solver.
Qed.

Lemma ex_zeroed : zeroed ex_vst.
Proof. split_and!; try done. intros b. cbn. by destruct (b =? 1). Qed.
Lemma ex_starts : starts_as ex_disk ex_vst ex_spec.
Proof. done. Qed.
Lemma ex_good : good_device ex_reg.
Proof. done. Qed.
Lemma ex_init : virtio_disk_init vid ex_reg (mret tt) 0x80010000 ex_vst = Ret tt ex_v0.
Proof. exact (runs_state _ _ _ (runs_init_fields ex_reg 0x80010000 ex_vst ex_zeroed ex_good)). Qed.

Lemma virtio_refines_witness : driver_safe ex_y2 ∧ ∃ a, arun ex_events ex_spec = Some a ∧ (∀ n, 0 ≤ n < 2 ^ 31 → a_disk a n = sec_read (y_disk ex_y2) (2 * n)) ∧
  ∀ b, a_data a b = b_data (vs_buf (y_v ex_y2) b).
Proof. exact (virtio_refines ex_reg 0x80010000 ex_vst ex_v0 ex_disk ex_spec ex_events ex_y2 ex_zeroed ex_good ex_init ex_starts ex_trace). Defined.

