(* ===== verification/Buddy.v ===== *)
(** * The buddy allocator (kernel/buddy.c, kernel/list.c)

    Blocks of 16 * 2^k bytes.  For each size [k] there is a circular list of free
    blocks, whose links are kept in the free blocks themselves, and two bit vectors: which
    blocks are allocated and which are split.  The links are two functions on
    addresses; the list head of size [k] is the field [free] of [bd_sizes[k]].  A vector is
    the bytes allotted to it: an index outside them, or a size outside
    [bd_sizes], stops the run. *)

From S2P Require Import Prelude Memory Riscv Spinlock Core DList.

Record sz_info := SzInfo {
  sz_alloc : list Z;            (* alloc *)
  sz_split : list Z;            (* split; nothing for size 0 *)
}.
#[global] Instance sz_info_inhabited : Inhabited sz_info := populate (SzInfo [] []).

Record bd_st := BdSt {
  bd_lock : spinlock;
  bd_base : Z;
  bd_sizes : list sz_info;      (* its length is nsizes *)
  bd_next : Z → Z;              (* struct list at an address: next, prev *)
  bd_prev : Z → Z;
  bd_out : list (string * list Z);   (* what was printed, newest first *)
}.

Definition set_bdlock v s := BdSt v (bd_base s) (bd_sizes s) (bd_next s) (bd_prev s) (bd_out s).
Definition set_bdbase v s := BdSt (bd_lock s) v (bd_sizes s) (bd_next s) (bd_prev s) (bd_out s).
Definition set_bdsizes v s := BdSt (bd_lock s) (bd_base s) v (bd_next s) (bd_prev s) (bd_out s).
Definition set_bdlinks nx pv s := BdSt (bd_lock s) (bd_base s) (bd_sizes s) nx pv (bd_out s).
Definition set_bdout v s := BdSt (bd_lock s) (bd_base s) (bd_sizes s) (bd_next s) (bd_prev s) v.

Definition bdlock : lens bd_st spinlock := Lens bd_lock set_bdlock.
#[global] Instance bdlock_lens : LockLens (slock bdlock).
Proof. by apply slock_lens. Defined.

Abbreviation BDM := (M (kern * bd_st)).
Definition bget_ {A} (f : bd_st → A) : BDM A := gets (λ x, f x.2).
Definition bmod (f : bd_st → bd_st) : BDM unit := modify (λ x, (x.1, f x.2)).
Definition say (msg : string) (args : list Z) : BDM unit := bmod (λ s, set_bdout ((msg, args) :: bd_out s) s).

(** ** Lists *)

Definition lst_init (lst : Z) : BDM unit :=
  bmod (λ s, set_bdlinks (fset (bd_next s) lst lst) (fset (bd_prev s) lst lst) s).

Definition lst_empty (lst : Z) : BDM bool := bget_ (λ s, bd_next s lst =? lst).

Definition lst_remove (e : Z) : BDM unit :=
  bmod (λ s, set_bdlinks (fset (bd_next s) (bd_prev s e) (bd_next s e)) (bd_prev s) s);;
  bmod (λ s, set_bdlinks (bd_next s) (fset (bd_prev s) (bd_next s e) (bd_prev s e)) s).

Definition lst_pop (lst : Z) : BDM Z :=
  p ← bget_ (λ s, bd_next s lst);
  if p =? lst then panic "lst_pop"%string else
  lst_remove p;;
  mret p.

Definition lst_push (lst p : Z) : BDM unit :=
  bmod (λ s, set_bdlinks (fset (bd_next s) p (bd_next s lst)) (bd_prev s) s);;
  bmod (λ s, set_bdlinks (bd_next s) (fset (bd_prev s) p lst) s);;
  bmod (λ s, set_bdlinks (bd_next s) (fset (bd_prev s) (bd_next s lst) p) s);;
  bmod (λ s, set_bdlinks (fset (bd_next s) lst p) (bd_prev s) s).

(** The list may have any length: [fuel] bounds what is printed. *)
Definition lst_print (fuel : nat) (lst : Z) : BDM unit :=
  p ← bget_ (λ s, bd_next s lst);
  loop fuel (λ p,
    if p =? lst then mret (inr tt) else
    say " %p" [p];;
    p ← bget_ (λ s, bd_next s p);
    mret (inl p)) p;;
  say "\n" [].

(** ** Blocks and bits *)

Definition LEAF_SIZE : Z := 16.
Definition BLK_SIZE (k : Z) : Z := Z.shiftl 1 k * LEAF_SIZE.
Definition nsizes (s : bd_st) : Z := alen (bd_sizes s).
Definition MAXSIZE (s : bd_st) : Z := nsizes s - 1.
Definition NBLK (s : bd_st) (k : Z) : Z := Z.shiftl 1 (MAXSIZE s - k).
Definition ROUNDUP (n sz : Z) : Z := ((n - 1) `quot` sz + 1) * sz.
(** The same on [uint64]. *)
Definition ROUNDUP64 (n sz : Z) : Z := u64 ((u64 (n - 1) / sz + 1) * sz).

(** [bit_isset], [bit_set] and [bit_clear] on the bytes of a vector. *)
Definition bit_isset (array : list Z) (index : Z) : bool :=
  let b := aget array (index / 8) in
  let m := u8 (Z.shiftl 1 (index mod 8)) in
  Z.land b m =? m.
Definition bd_bit_set (array : list Z) (index : Z) : list Z :=
  let b := aget array (index / 8) in
  let m := u8 (Z.shiftl 1 (index mod 8)) in
  aset array (index / 8) (u8 (Z.lor b m)).
Definition bd_bit_clear (array : list Z) (index : Z) : list Z :=
  let b := aget array (index / 8) in
  let m := u8 (Z.shiftl 1 (index mod 8)) in
  aset array (index / 8) (u8 (Z.land b (Z.lnot m))).

(** Which of the two vectors of a size. *)
Inductive vec := AllocV | SplitV.
#[global] Instance vec_eq_dec : EqDecision vec.
Proof. solve_decision. Defined.
Definition vec_of (v : vec) (e : sz_info) : list Z := match v with AllocV => sz_alloc e | SplitV => sz_split e end.
Definition set_vec (v : vec) (a : list Z) (e : sz_info) : sz_info :=
  match v with AllocV => SzInfo a (sz_split e) | SplitV => SzInfo (sz_alloc e) a end.

Definition in_vec (s : bd_st) (v : vec) (k i : Z) : bool :=
  (0 <=? k) && (k <? nsizes s) && (0 <=? i) && (i / 8 <? alen (vec_of v (aget (bd_sizes s) k))).
Definition get_bit (v : vec) (k i : Z) : BDM bool :=
  s ← bget_ id;
  if negb (in_vec s v k i) then stop (Undefined "bit outside its vector"%string) else
  mret (bit_isset (vec_of v (aget (bd_sizes s) k)) i).
Definition upd_bit (f : list Z → Z → list Z) (v : vec) (k i : Z) : BDM unit :=
  s ← bget_ id;
  if negb (in_vec s v k i) then stop (Undefined "bit outside its vector"%string) else
  bmod (λ s, let e := aget (bd_sizes s) k in
    set_bdsizes (aset (bd_sizes s) k (set_vec v (f (vec_of v e) i) e)) s).
Definition set_bit := upd_bit bd_bit_set.
Definition clear_bit := upd_bit bd_bit_clear.

(** [&bd_sizes[k].free]; a [struct sz_info] is 32 bytes, and [bd_sizes] starts at
    [bd_base]. *)
Definition free_head (s : bd_st) (k : Z) : Z := bd_base s + 32 * k.

(** The loop of [firstk], for at most [fuel] rounds. *)
Definition firstk_loop (fuel : nat) (n : Z) : BDM Z :=
  loop fuel (λ '(k, size),
    if size <? n then mret (inl (k + 1, u64 (size * 2))) else mret (inr k)) (0, LEAF_SIZE).

(** [size] is doubled at most 60 times before it wraps to 0. *)
Definition firstk (n : Z) : BDM Z := firstk_loop 61 n.

Definition blk_index (s : bd_st) (k p : Z) : Z := i32 (p - bd_base s) `quot` BLK_SIZE k.
Definition addr (s : bd_st) (k bi : Z) : Z := bd_base s + i32 (bi * BLK_SIZE k).

(** ** Allocation *)

(** The search of [bd_malloc] for a list that is not empty. *)
Definition bd_search (fk : Z) : BDM Z :=
  n ← bget_ nsizes;
  loop (S (Z.to_nat n)) (λ k,
    if k <? n then
      h ← bget_ (λ s, free_head s k);
      e ← lst_empty h;
      if negb e then mret (inr k) else mret (inl (k + 1))
    else mret (inr k)) fk.

(** Its loop that splits the block [p] of size [k] down to size [fk]. *)
Definition bd_split (fk k p : Z) : BDM unit :=
  loop (S (Z.to_nat k)) (λ k,
    if fk <? k then
      let q := p + BLK_SIZE (k - 1) in
      i ← bget_ (λ s, blk_index s k p);
      set_bit SplitV k i;;
      j ← bget_ (λ s, blk_index s (k - 1) p);
      set_bit AllocV (k - 1) j;;
      h ← bget_ (λ s, free_head s (k - 1));
      lst_push h q;;
      mret (inl (k - 1))
    else mret (inr tt)) k.

Definition bd_malloc (nbytes : Z) : BDM Z :=
  acquire (slock bdlock);;
  fk ← firstk nbytes;
  k ← bd_search fk;
  n ← bget_ nsizes;
  if n <=? k then release (slock bdlock);; mret 0 else
  h ← bget_ (λ s, free_head s k);
  p ← lst_pop h;
  i ← bget_ (λ s, blk_index s k p);
  set_bit AllocV k i;;
  bd_split fk k p;;
  release (slock bdlock);;
  mret p.

Definition size (p : Z) : BDM Z :=
  n ← bget_ nsizes;
  loop (S (Z.to_nat n)) (λ k,
    if k <? n then
      i ← bget_ (λ s, blk_index s (k + 1) p);
      b ← get_bit SplitV (k + 1) i;
      if b : bool then mret (inr k) else mret (inl (k + 1))
    else mret (inr 0)) 0.

Definition buddy_of (bi : Z) : Z := if Z.rem bi 2 =? 0 then bi + 1 else bi - 1.

(** The loop of [bd_free], from block [p] of size [k]; what it returns is pushed. *)
Definition bd_merge (k p : Z) : BDM (Z * Z) :=
  m ← bget_ MAXSIZE;
  loop (S (Z.to_nat m)) (λ '(k, p),
    if k <? m then
      bi ← bget_ (λ s, blk_index s k p);
      let buddy := buddy_of bi in
      clear_bit AllocV k bi;;
      b ← get_bit AllocV k buddy;
      if b : bool then mret (inr (k, p)) else
      q ← bget_ (λ s, addr s k buddy);
      lst_remove q;;
      let p := if Z.rem buddy 2 =? 0 then q else p in
      i ← bget_ (λ s, blk_index s (k + 1) p);
      clear_bit SplitV (k + 1) i;;
      mret (inl (k + 1, p))
    else mret (inr (k, p))) (k, p).

Definition bd_free (p : Z) : BDM unit :=
  acquire (slock bdlock);;
  k ← size p;
  '(k, p) ← bd_merge k p;
  h ← bget_ (λ s, free_head s k);
  lst_push h p;;
  release (slock bdlock).

(** ** Initialisation *)

Definition blk_index_next (s : bd_st) (k p : Z) : Z :=
  let n := i32 ((p - bd_base s) `quot` BLK_SIZE k) in
  if negb (Z.rem (p - bd_base s) (BLK_SIZE k) =? 0) then n + 1 else n.

(** [log2]; a 64-bit number is shifted at most 64 times. *)
Definition log2 (n : Z) : BDM Z :=
  loop 65 (λ '(k, n), if 1 <? n then mret (inl (k + 1, Z.shiftr n 1)) else mret (inr k)) (0, n).

Definition bd_mark (start stop_ : Z) : BDM unit :=
  if negb (start mod LEAF_SIZE =? 0) || negb (stop_ mod LEAF_SIZE =? 0) then panic "bd_mark"%string else
  n ← bget_ nsizes;
  for_range (Z.to_nat n) 0 (λ k,
    bi ← bget_ (λ s, blk_index s k start);
    bj ← bget_ (λ s, blk_index_next s k stop_);
    for_range (Z.to_nat (bj - bi)) bi (λ bi,
      when (0 <? k) (set_bit SplitV k bi);;
      set_bit AllocV k bi)).

Definition bd_initfree_pair (k bi : Z) : BDM Z :=
  let buddy := buddy_of bi in
  b1 ← get_bit AllocV k bi;
  b2 ← get_bit AllocV k buddy;
  if eqb b1 b2 then mret 0 else
  h ← bget_ (λ s, free_head s k);
  q ← bget_ (λ s, addr s k (if b1 then buddy else bi));
  lst_push h q;;
  mret (i32 (BLK_SIZE k)).

Definition bd_initfree (bd_left bd_right : Z) : BDM Z :=
  m ← bget_ MAXSIZE;
  loop (S (Z.to_nat m)) (λ '(k, free),
    if k <? m then
      left ← bget_ (λ s, blk_index_next s k bd_left);
      right ← bget_ (λ s, blk_index s k bd_right);
      f1 ← bd_initfree_pair k left;
      let free := i32 (free + f1) in
      if right <=? left then mret (inl (k + 1, free)) else
      f2 ← bd_initfree_pair k right;
      mret (inl (k + 1, i32 (free + f2)))
    else mret (inr free)) (0, 0).

Definition bd_mark_data_structures (p : Z) : BDM Z :=
  b ← bget_ bd_base;
  m ← bget_ MAXSIZE;
  let meta := i32 (p - b) in
  say "bd: %d meta bytes for managing %d bytes of memory\n" [meta; BLK_SIZE m];;
  bd_mark b p;;
  mret meta.

Definition bd_mark_unavailable (end_ left : Z) : BDM Z :=
  b ← bget_ bd_base;
  m ← bget_ MAXSIZE;
  let unavailable := i32 (BLK_SIZE m - (end_ - b)) in
  let unavailable := if 0 <? unavailable then i32 (ROUNDUP unavailable LEAF_SIZE) else unavailable in
  say "bd: 0x%x bytes unavailable\n" [unavailable];;
  let bd_end := b + BLK_SIZE m - unavailable in
  bd_mark bd_end (b + BLK_SIZE m);;
  mret unavailable.

(** The vectors of the sizes: 8 blocks in a byte. *)
Definition vec_len (n k : Z) : Z := ROUNDUP (Z.shiftl 1 (n - 1 - k)) 8 / 8.

Definition bd_init (base end_ : Z) : BDM unit :=
  let p := ROUNDUP64 base LEAF_SIZE in
  bmod (set_bdlock (initlock "buddy"));;
  bmod (set_bdbase p);;
  l ← log2 (u64 ((end_ - p) `quot` LEAF_SIZE));
  let n := if BLK_SIZE l <? end_ - p then l + 2 else l + 1 in
  say "bd: memory sz is %d bytes; allocate an size array of length %d\n" [end_ - p; n];;
  (* bd_sizes, with the vectors behind it, all cleared *)
  let b := p in
  let p := p + 32 * n in
  bmod (set_bdsizes ((λ k, SzInfo (replicate (Z.to_nat (vec_len n k)) 0)
    (if k =? 0 then [] else replicate (Z.to_nat (vec_len n k)) 0)) <$> seqZ 0 n));;
  for_range (Z.to_nat n) 0 (λ k, lst_init (b + 32 * k));;
  let p := p + foldr Z.add 0 (vec_len n <$> seqZ 0 n) + foldr Z.add 0 (vec_len n <$> seqZ 1 (n - 1)) in
  let p := ROUNDUP64 p LEAF_SIZE in
  meta ← bd_mark_data_structures p;
  unavailable ← bd_mark_unavailable end_ p;
  m ← bget_ MAXSIZE;
  let bd_end := b + BLK_SIZE m - unavailable in
  free ← bd_initfree p bd_end;
  if negb (free =? BLK_SIZE m - meta - unavailable) then
    say "free %d %d\n" [free; BLK_SIZE m - meta - unavailable];;
    panic "bd_init: free mem"%string
  else mret tt.

(** ** Printing *)

Definition bd_print_vector (v : vec) (k len : Z) : BDM unit :=
  '(last, lb) ← loop (S (Z.to_nat len)) (λ '(b, last, lb),
    if b <? len then
      x ← get_bit v k b;
      if eqb last x then mret (inl (b + 1, last, lb)) else
      when last (say " [%d, %d)" [lb; b]);;
      mret (inl (b + 1, x, b))
    else mret (inr (last, lb))) (0, true, 0);
  when ((lb =? 0) || last) (say " [%d, %d)" [lb; len]);;
  say "\n" [].

Definition bd_print (fuel : nat) : BDM unit :=
  n ← bget_ nsizes;
  for_range (Z.to_nat n) 0 (λ k,
    nb ← bget_ (λ s, NBLK s k);
    say "size %d (blksz %d nblk %d): free list: " [k; BLK_SIZE k; nb];;
    h ← bget_ (λ s, free_head s k);
    lst_print fuel h;;
    say "  alloc:" [];;
    bd_print_vector AllocV k nb;;
    when (0 <? k) (
      say "  split:" [];;
      bd_print_vector SplitV k nb)).
