(* ===== verification/BuddyTree.v ===== *)
(** * The tree of buddies

    The blocks of the allocator of kernel/buddy.c form a binary tree: block [i]
    of size [k] is split into blocks [2 i] and [2 i + 1] of size [k - 1].  Here the
    two bit vectors are two functions, and the four things the allocator does with a block
    (take a free one, split it, merge it with its buddy, give it back) are changes of
    those functions.  [tree] is what they keep; a [held] block is allocated
    and not split. *)

From S2P Require Import Prelude.

Abbreviation bits := (Z → Z → bool).

Definition bupd (f : bits) (k i : Z) (b : bool) : bits :=
  λ k' i', if (k' =? k) && (i' =? i) then b else f k' i'.

Lemma bupd_spec f k i b k' i' :
  (k' = k ∧ i' = i ∧ bupd f k i b k' i' = b) ∨ (¬ (k' = k ∧ i' = i) ∧ bupd f k i b k' i' = f k' i').
Proof.
  unfold bupd. destruct (Z.eqb_spec k' k), (Z.eqb_spec i' i); cbn; [by left|right..]; split; try done; tauto.
Qed.
Lemma bupd_eq f k i b : bupd f k i b k i = b.
Proof. unfold bupd. by rewrite !Z.eqb_refl. Qed.
Lemma bupd_ne f k i b k' i' : ¬ (k' = k ∧ i' = i) → bupd f k i b k' i' = f k' i'.
Proof. intros H. destruct (bupd_spec f k i b k' i') as [(? & ? & _)|[_ ->]]; tauto. Qed.

(** The other half of the block above. *)
Definition buddy (i : Z) : Z := if Z.rem i 2 =? 0 then i + 1 else i - 1.

Lemma buddy_spec i :
  0 ≤ i → buddy i / 2 = i / 2 ∧ buddy i ≠ i ∧ 0 ≤ buddy i ∧ ∀ j, j / 2 = i / 2 → j = i ∨ j = buddy i.
Proof.
  intros Hi. unfold buddy. rewrite Z.rem_mod_nonneg by lia.
  destruct (Z.eqb_spec (i mod 2) 0); (split_and!; [dlia..|]); intros j Hj; dlia.
Qed.

Section tree.
Context (m : Z).    (* the largest size *)
Implicit Types (A S : bits) (k i j : Z).

Definition node k i : Prop := 0 ≤ k ≤ m ∧ 0 ≤ i < 2 ^ (m - k).

Record tree A S : Prop := {
  t_node : ∀ k i, A k i = true → node k i;
  t_leaf : ∀ i, S 0 i = false;
  t_split : ∀ k i, S k i = true → A k i = true;
  t_parent : ∀ k i, A k i = true → k < m → S (k + 1) (i / 2) = true;
  (* two free buddies are one free block *)
  t_half : ∀ k i, S k i = true → A (k - 1) (2 * i) = true ∨ A (k - 1) (2 * i + 1) = true;
}.

Definition held A S k i : Prop := A k i = true ∧ S k i = false.
Definition free A S k i : Prop := node k i ∧ A k i = false ∧ (k = m ∨ S (k + 1) (i / 2) = true).
(** The block exists, and is not cut further. *)
Definition whole A S k i : Prop := held A S k i ∨ free A S k i.

Lemma node_parent k i : node k i → k < m → node (k + 1) (i / 2).
Proof.
  unfold node. intros [Hk Hi] Hm. split; [lia|].
  replace (m - k) with (Z.succ (m - (k + 1))) in Hi by lia. rewrite Z.pow_succ_r in Hi by lia. dlia.
Qed.

Lemma node_buddy k i : node k i → k < m → node k (buddy i).
Proof.
  intros Hn Hm. pose proof (node_parent k i Hn Hm) as [_ Hp].
  destruct Hn as [Hk Hi]. destruct (buddy_spec i) as (H1 & _ & H2 & _); [lia|]. split; [lia|].
  replace (m - k) with (Z.succ (m - (k + 1))) by lia. rewrite Z.pow_succ_r by lia. dlia.
Qed.

Lemma tree_split_pos A S k i : tree A S → S k i = true → 1 ≤ k ≤ m.
Proof.
  intros T H. destruct (t_node _ _ T k i (t_split _ _ T _ _ H)) as [Hk _].
  destruct (decide (k = 0)) as [->|]; [|lia]. by rewrite (t_leaf _ _ T) in H.
Qed.

(** A block that is there is cut out of a split one. *)
Lemma whole_parent A S k i : tree A S → whole A S k i → k < m → S (k + 1) (i / 2) = true.
Proof. intros T [[H _]|(_ & _ & [->|H])] Hm; [by apply (t_parent _ _ T)|lia|done]. Qed.

Lemma whole_node A S k i : tree A S → whole A S k i → node k i.
Proof. intros T [[H _]|[H _]]; [by apply (t_node _ _ T)|done]. Qed.

Lemma whole_unsplit A S k i : tree A S → whole A S k i → S k i = false.
Proof.
  intros T [[_ H]|(_ & H & _)]; [done|]. destruct (S k i) eqn:E; [|done].
  apply (t_split _ _ T) in E. congruence.
Qed.

Lemma div_pow2_succ i d : 0 ≤ d → i / 2 ^ (d + 1) = i / 2 / 2 ^ d.
Proof. intros Hd. rewrite Z.pow_add_r, Z.mul_comm, Z.div_div by lia. done. Qed.

(** Everything above a split block is split. *)
Lemma split_above A S k i j :
  tree A S → S k i = true → k ≤ j ≤ m → S j (i / 2 ^ (j - k)) = true.
Proof.
  intros T H Hj. replace j with (k + Z.of_nat (Z.to_nat (j - k))) by lia.
  assert (Z.of_nat (Z.to_nat (j - k)) ≤ m - k) as Hd by lia. revert Hd. generalize (Z.to_nat (j - k)) as d.
  induction d as [|d IH]; intros Hd.
  - rewrite Z.add_0_r, Z.sub_diag, Z.pow_0_r, Z.div_1_r. done.
  - specialize (IH ltac:(lia)). apply (t_split _ _ T) in IH. apply (t_parent _ _ T) in IH; [|lia].
    replace (k + Z.of_nat d - k) with (Z.of_nat d) in IH by lia.
    replace (k + Z.of_nat (Datatypes.S d)) with (k + Z.of_nat d + 1) by lia.
    replace (k + Z.of_nat d + 1 - k) with (Z.of_nat d + 1) by lia.
    rewrite (Z.pow_add_r 2 (Z.of_nat d) 1), Z.pow_1_r, <- Z.div_div by lia. done.
Qed.

Lemma whole_above A S k i j :
  tree A S → whole A S k i → k < j ≤ m → S j (i / 2 ^ (j - k)) = true.
Proof.
  intros T H Hj. pose proof (split_above A S (k + 1) (i / 2) j T) as Hs.
  rewrite <- div_pow2_succ in Hs by lia. replace (j - (k + 1) + 1) with (j - k) in Hs by lia.
  apply Hs; [|lia]. apply (whole_parent A); [done..|lia].
Qed.

(** Nothing in a block that is there is split. *)
Lemma whole_below A S k i j x :
  tree A S → whole A S k i → x / 2 ^ k = i → 0 ≤ j ≤ k → S j (x / 2 ^ j) = false.
Proof.
  intros T H <- Hj. destruct (S j (x / 2 ^ j)) eqn:E; [|done].
  pose proof (whole_node _ _ _ _ T H) as [? _]. apply (split_above A S j _ k T) in E; [|lia].
  rewrite Z.div_div, <- Z.pow_add_r in E by lia. replace (j + (k - j)) with k in E by lia.
  by rewrite (whole_unsplit _ _ _ _ T H) in E.
Qed.

(** Blocks that are there do not overlap: a leaf lies in one of them. *)
Lemma whole_disjoint A S k i k' i' x :
  tree A S → whole A S k i → whole A S k' i' → x / 2 ^ k = i → x / 2 ^ k' = i' → k = k' ∧ i = i'.
Proof.
  assert (∀ k i k' i', tree A S → whole A S k i → whole A S k' i' → x / 2 ^ k = i → x / 2 ^ k' = i' → k < k' → False) as Hw.
  { intros k0 i0 k1 i1 T H0 H1 <- <- Hlt.
    pose proof (whole_node _ _ _ _ T H0) as [? _]. pose proof (whole_node _ _ _ _ T H1) as [? _].
    pose proof (whole_above A S k0 (x / 2 ^ k0) k1 T H0 ltac:(lia)) as Hs.
    rewrite Z.div_div, <- Z.pow_add_r in Hs by lia. replace (k0 + (k1 - k0)) with k1 in Hs by lia.
    rewrite (whole_unsplit _ _ _ _ T H1) in Hs. done. }
  intros T H H' E E'. destruct (Z.lt_trichotomy k k') as [?|[->|?]]; [exfalso; eauto| |exfalso; eauto].
  split; congruence.
Qed.

(** An allocated block contains a held one. *)
Lemma held_below A S k i :
  tree A S → A k i = true → ∃ j l, held A S j l ∧ j ≤ k ∧ l / 2 ^ (k - j) = i.
Proof.
  intros T H. destruct (t_node _ _ T _ _ H) as [[Hk _] _]. revert i H.
  pattern k. apply natlike_ind; [..|done]; clear k Hk.
  - intros i H. exists 0, i. split; [split; [done|apply T]|]. rewrite Z.sub_0_r, Z.pow_0_r, Z.div_1_r. lia.
  - intros k Hk IH i H. destruct (S (Z.succ k) i) eqn:E.
    + apply (t_half _ _ T) in E. replace (Z.succ k - 1) with k in E by lia.
      assert (∃ c, A k c = true ∧ c / 2 = i) as (c & Hc & Ec) by (destruct E; eexists; (split; [done|dlia])).
      destruct (IH c Hc) as (j & l & Hh & Hj & El). exists j, l. split_and!; [done|lia|].
      replace (Z.succ k - j) with (k - j + 1) by lia. rewrite Z.pow_add_r, Z.pow_1_r, <- Z.div_div, El by lia. done.
    + exists (Z.succ k), i. split; [by split|]. rewrite Z.sub_diag, Z.pow_0_r, Z.div_1_r. lia.
Qed.

(** A block that is not allocated lies in a free one or in a held one. *)
Lemma clear_above A S k i :
  tree A S → node k i → A k i = false →
  ∃ j l, k ≤ j ∧ i / 2 ^ (j - k) = l ∧ whole A S j l.
Proof.
  intros T Hn. remember (Z.to_nat (m - k)) as d eqn:Ed. revert k i Hn Ed.
  induction d as [|d IH]; intros k i Hn Ed HA; pose proof Hn as [Hk Hi].
  { exists k, i. rewrite Z.sub_diag, Z.pow_0_r, Z.div_1_r. split_and!; [lia|done|].
    right. split_and!; [done..|left; lia]. }
  destruct (S (k + 1) (i / 2)) eqn:E.
  { exists k, i. rewrite Z.sub_diag, Z.pow_0_r, Z.div_1_r. split_and!; [lia|done|].
    right. split_and!; [done..|by right]. }
  destruct (A (k + 1) (i / 2)) eqn:EA.
  { exists (k + 1), (i / 2). replace (k + 1 - k) with 1 by lia. rewrite Z.pow_1_r. split_and!; [lia|done|].
    left. by split. }
  destruct (IH (k + 1) (i / 2)) as (j & l & Hj & <- & Hw); [apply node_parent; [done|lia]|lia|done|].
  exists j, (i / 2 / 2 ^ (j - (k + 1))). split_and!; [lia| |done].
  rewrite <- div_pow2_succ by lia. do 2 f_equal. lia.
Qed.

(** Where no block of a size or larger is free, every block of the size shares a
    leaf with a held one. *)
Lemma no_free_held A S k i :
  tree A S → node k i → (∀ j l, k ≤ j → ¬ free A S j l) →
  ∃ j l x, held A S j l ∧ x / 2 ^ j = l ∧ x / 2 ^ k = i.
Proof.
  intros T Hn Hnf. pose proof Hn as [Hk _]. destruct (A k i) eqn:HA.
  - destruct (held_below A S k i T HA) as (j & l & Hh & Hj & El).
    destruct (t_node _ _ T j l (proj1 Hh)) as [? _]. exists j, l, (l * 2 ^ j).
    rewrite Z.div_mul by lia. split_and!; [done..|].
    replace k with (j + (k - j)) at 1 by lia. rewrite Z.pow_add_r, <- Z.div_div, Z.div_mul by lia. done.
  - destruct (clear_above A S k i T Hn HA) as (j & l & Hj & <- & [Hh|Hf]); [|by destruct (Hnf j _ Hj Hf)].
    exists j, (i / 2 ^ (j - k)), (i * 2 ^ k). rewrite Z.div_mul by lia. split_and!; [done| |done].
    replace j with (k + (j - k)) at 1 by lia. rewrite Z.pow_add_r, <- Z.div_div, Z.div_mul by lia. done.
Qed.

(** ** What the allocator does with a block *)

Lemma held_child A S k i c : tree A S → held A S k i → c / 2 = i → A (k - 1) c = false ∧ S (k - 1) c = false.
Proof.
  intros T [H1 H2] Hc. destruct (t_node _ _ T _ _ H1) as [Hk _]. assert (A (k - 1) c = false) as E.
  { destruct (A (k - 1) c) eqn:E; [|done]. apply (t_parent _ _ T) in E; [|lia].
    rewrite Hc in E. replace (k - 1 + 1) with k in E by lia. congruence. }
  split; [done|]. destruct (S (k - 1) c) eqn:E'; [|done]. apply (t_split _ _ T) in E'. congruence.
Qed.

Ltac tcases :=
  repeat match goal with
  | H : context [bupd ?f ?k ?i ?b ?k' ?i'] |- _ =>
      let E := fresh "E" in destruct (bupd_spec f k i b k' i') as [(? & ? & E)|[? E]]; rewrite E in H; clear E
  | |- context [bupd ?f ?k ?i ?b ?k' ?i'] =>
      let E := fresh "E" in destruct (bupd_spec f k i b k' i') as [(? & ? & E)|[? E]]; rewrite E; clear E
  end.

Lemma tree_take A S k i :
  tree A S → free A S k i → let A' := bupd A k i true in
  tree A' S ∧
  (∀ k' i', held A' S k' i' ↔ held A S k' i' ∨ k' = k ∧ i' = i) ∧
  (∀ k' i', free A' S k' i' ↔ free A S k' i' ∧ ¬ (k' = k ∧ i' = i)).
Proof.
  intros T F A'. pose proof (whole_unsplit _ _ _ _ T (or_intror F)) as HS. pose proof F as (Hn & HA & Hp).
  destruct T as [T1 T2 T3 T4 T5]. unfold A'. split_and!.
  - split.
    + intros k' i' H. tcases; subst; auto.
    + done.
    + intros k' i' H. tcases; auto.
    + intros k' i' H Hm. tcases; subst; auto. destruct Hp; [lia|done].
    + intros k' i' H. destruct (T5 _ _ H); tcases; auto.
  - intros k' i'. unfold held. tcases; subst; naive_solver.
  - intros k' i'. unfold free. tcases; subst; naive_solver.
Qed.

Lemma held_children A S k i c :
  tree A S → held A S k i → 1 ≤ k → c / 2 = i → node (k - 1) c.
Proof.
  intros T [HA _] Hk Hc. destruct (t_node _ _ T _ _ HA) as [? Hi]. split; [lia|].
  replace (m - (k - 1)) with (Z.succ (m - k)) by lia. rewrite Z.pow_succ_r by lia. dlia.
Qed.

Lemma tree_split A S k i :
  tree A S → held A S k i → 1 ≤ k →
  let A' := bupd A (k - 1) (2 * i) true in let S' := bupd S k i true in
  tree A' S' ∧
  (∀ k' i', held A' S' k' i' ↔ held A S k' i' ∧ ¬ (k' = k ∧ i' = i) ∨ k' = k - 1 ∧ i' = 2 * i) ∧
  (∀ k' i', free A' S' k' i' ↔ free A S k' i' ∨ k' = k - 1 ∧ i' = 2 * i + 1).
Proof.
  intros T H Hk A' S'. pose proof H as [HA HS].
  assert (2 * i / 2 = i ∧ (2 * i + 1) / 2 = i) as [E0 E1] by dlia. assert (k - 1 + 1 = k) as E2 by lia.
  destruct (held_child A S k i _ T H E0) as [HA0 HS0]. destruct (held_child A S k i _ T H E1) as [HA1 _].
  pose proof (held_children A S k i _ T H Hk E0) as Hn0. pose proof (held_children A S k i _ T H Hk E1) as Hn1.
  destruct T as [T1 T2 T3 T4 T5]. unfold A', S'. split_and!.
  - split.
    + intros k' i' H'. tcases; subst; auto.
    + intros i'. rewrite bupd_ne by lia. done.
    + intros k' i' H'. tcases; subst; auto.
    + intros k' i' H' Hm. destruct (bupd_spec A (k - 1) (2 * i) true k' i') as [(-> & -> & _)|[Hne E]].
      * rewrite E0, E2. apply bupd_eq.
      * rewrite E in H'. tcases; auto.
    + intros k' i' H'. tcases; subst; auto; try tauto. all: naive_solver.
  - intros k' i'. unfold held. tcases; subst; try lia; naive_solver.
  - intros k' i'. unfold free. split.
    + intros (Hn' & HA' & Hp). destruct Hp as [?|Hp]; tcases; try done; try (left; split_and!; by auto).
      right. assert (k' = k - 1) as -> by lia. split; [done|]. assert (i' ≠ 2 * i) by tauto. dlia.
    + intros [(Hn' & HA' & Hp)|[-> ->]].
      * split_and!; [done| |].
        -- tcases; [|done]. subst. destruct Hp as [?|Hp]; [destruct (T1 _ _ HA); lia|].
           rewrite E0, E2 in Hp. congruence.
        -- destruct Hp as [?|Hp]; [by left|right]. tcases; done.
      * split_and!; [done|rewrite bupd_ne by lia; done|right]. rewrite E1, E2. apply bupd_eq.
Qed.

Lemma tree_merge A S k i :
  tree A S → held A S k i → k < m → A k (buddy i) = false →
  let A' := bupd A k i false in let S' := bupd S (k + 1) (i / 2) false in
  tree A' S' ∧
  (∀ k' i', held A' S' k' i' ↔ held A S k' i' ∧ ¬ (k' = k ∧ i' = i) ∨ k' = k + 1 ∧ i' = i / 2) ∧
  (∀ k' i', free A' S' k' i' ↔ free A S k' i' ∧ ¬ (k' = k ∧ i' = buddy i)).
Proof.
  intros T H Hk HB A' S'. pose proof H as [HA HS]. pose proof (t_node _ _ T _ _ HA) as Hn.
  pose proof (t_parent _ _ T _ _ HA Hk) as HP. pose proof (t_split _ _ T _ _ HP) as HAP.
  destruct (buddy_spec i) as (B1 & B2 & B3 & B4); [destruct Hn; lia|].
  destruct T as [T1 T2 T3 T4 T5]. unfold A', S'. split_and!.
  - split.
    + intros k' i' H'. tcases; subst; auto; done.
    + intros i'. tcases; auto.
    + intros k' i' H'. tcases; subst; auto; congruence.
    + intros k' i' H' Hm. tcases; try done; auto. exfalso. assert (k' = k) as -> by lia.
      destruct (B4 i') as [-> | ->]; [done|tauto|congruence].
    + intros k' i' H'. destruct (bupd_spec S (k + 1) (i / 2) false k' i') as [(_ & _ & E)|[Hne E]];
        rewrite E in H'; [done|].
      assert (∀ c, c / 2 = i' → ¬ (k' - 1 = k ∧ c = i)) as Hc.
      { intros c <- [? ->]. apply Hne. split; [lia|done]. }
      rewrite !bupd_ne by (apply Hc; dlia). auto.
  - intros k' i'. unfold held. tcases; subst; try lia; naive_solver.
  - intros k' i'. unfold free. split.
    + intros (Hn' & HA' & Hp). destruct (bupd_spec A k i false k' i') as [(-> & -> & _)|[Hne E]].
      { destruct Hp as [?|Hp]; [lia|]. by rewrite bupd_eq in Hp. }
      rewrite E in HA'. split; [split_and!; [done..|]|].
      * destruct Hp as [?|Hp]; [by left|right]. by tcases.
      * intros [-> ->]. destruct Hp as [?|Hp]; [lia|]. by rewrite B1, bupd_eq in Hp.
    + intros [(Hn' & HA' & Hp) Hne]. split_and!; [done|by tcases|].
      destruct Hp as [?|Hp]; [by left|right]. tcases; [|done]. exfalso.
      assert (k' = k) as -> by lia. destruct (B4 i') as [-> | ->]; [done|congruence|tauto].
Qed.

Lemma tree_release A S k i :
  tree A S → held A S k i → k < m → A k (buddy i) = true →
  let A' := bupd A k i false in
  tree A' S ∧
  (∀ k' i', held A' S k' i' ↔ held A S k' i' ∧ ¬ (k' = k ∧ i' = i)) ∧
  (∀ k' i', free A' S k' i' ↔ free A S k' i' ∨ k' = k ∧ i' = i).
Proof.
  intros T H Hk HB A'. pose proof H as [HA HS]. pose proof (t_node _ _ T _ _ HA) as Hn.
  pose proof (t_parent _ _ T _ _ HA Hk) as HP.
  destruct (buddy_spec i) as (B1 & B2 & B3 & B4); [destruct Hn; lia|].
  destruct T as [T1 T2 T3 T4 T5]. unfold A'. split_and!.
  - split.
    + intros k' i' H'. tcases; subst; auto; done.
    + done.
    + intros k' i' H'. tcases; subst; auto; congruence.
    + intros k' i' H' Hm. tcases; try done; auto.
    + intros k' i' H'. destruct (decide (k' - 1 = k ∧ i / 2 = i')) as [[Ek Ei]|Hne].
      * destruct (B4 (2 * i')) as [E|E]; [dlia| |left; rewrite Ek, E, bupd_ne by tauto; done].
        destruct (B4 (2 * i' + 1)) as [E'|E']; [dlia|lia|right]. rewrite Ek, E', bupd_ne by tauto. done.
      * assert (∀ c, c / 2 = i' → ¬ (k' - 1 = k ∧ c = i)) as Hc by (intros c <- [? ->]; tauto).
        rewrite !bupd_ne by (apply Hc; dlia). auto.
  - intros k' i'. unfold held. tcases; subst; naive_solver.
  - intros k' i'. unfold free. tcases; subst; naive_solver.
Qed.
End tree.
