(* ===== verification/BuddyProof.v ===== *)
(** * The buddy allocator keeps its tree

    The vectors and lists of Buddy.v represent the tree of BuddyTree.v: [rep] relates the
    bits, [listed] the free lists.  Here [bd_malloc] and [bd_free] are run on
    them: neither panics, reads outside a vector or runs out of steps, and what they do to
    the held blocks is what the tree says. *)

From S2P Require Import Prelude Memory Riscv Spinlock Core DList Buddy BuddyTree.

(** ** Bits *)

Lemma land_pow2_all b n : 0 ≤ n → (Z.land b (2 ^ n) =? 2 ^ n) = Z.testbit b n.
Proof.
  intros Hn. destruct (Z.testbit b n) eqn:E.
  - apply Z.eqb_eq, Z.bits_inj'. intros j Hj. rewrite Z.land_spec, Z.pow2_bits_eqb by done.
    destruct (Z.eqb_spec n j) as [<-|]; [by rewrite E|apply andb_false_r].
  - apply Z.eqb_neq. intros H. apply (f_equal (λ z, Z.testbit z n)) in H.
    by rewrite Z.land_spec, Z.pow2_bits_true, E in H.
Qed.

Lemma bit_mask i : u8 (Z.shiftl 1 (i mod 8)) = 2 ^ (i mod 8).
Proof.
  rewrite Z.shiftl_1_l. apply Z.mod_small. pose proof (Z.mod_pos_bound i 8 ltac:(lia)).
  split; [lia|]. apply Z.pow_lt_mono_r; lia.
Qed.

Lemma bit_isset_testbit a i : bit_isset a i = Z.testbit (aget a (i / 8)) (i mod 8).
Proof. unfold bit_isset. rewrite bit_mask. apply land_pow2_all. dlia. Qed.

Lemma testbit_u8 b n : 0 ≤ n < 8 → Z.testbit (u8 b) n = Z.testbit b n.
Proof. intros Hn. apply Z.mod_pow2_bits_low. lia. Qed.

Lemma div8_mod8 i j : i / 8 = j / 8 → i mod 8 = j mod 8 → i = j.
Proof. dlia. Qed.

(** Setting and clearing a bit. *)
Definition put_bit (b : bool) : list Z → Z → list Z := if b then bd_bit_set else bd_bit_clear.

Lemma put_bit_isset b a i j :
  0 ≤ i → i / 8 < alen a → 0 ≤ j →
  bit_isset (put_bit b a i) j = if j =? i then b else bit_isset a j.
Proof.
  intros Hi Hl Hj. rewrite !bit_isset_testbit. pose proof (Z.mod_pos_bound j 8 ltac:(lia)).
  pose proof (Z.mod_pos_bound i 8 ltac:(lia)).
  assert (aget (put_bit b a i) (j / 8) = if j / 8 =? i / 8 then
    u8 (if b then Z.lor (aget a (i / 8)) (2 ^ (i mod 8)) else Z.land (aget a (i / 8)) (Z.lnot (2 ^ (i mod 8))))
    else aget a (j / 8)) as ->.
  { unfold put_bit, bd_bit_set, bd_bit_clear. destruct (Z.eqb_spec (j / 8) (i / 8)) as [->|];
      destruct b; rewrite bit_mask; rewrite ?aget_aset_eq, ?aget_aset_ne; try done; dlia. }
  destruct (Z.eqb_spec (j / 8) (i / 8)) as [E|E]; [|destruct (Z.eqb_spec j i); [congruence|done]].
  rewrite testbit_u8 by done. destruct b.
  - rewrite Z.lor_spec, Z.pow2_bits_eqb by lia. destruct (Z.eqb_spec j i) as [->|Hne].
    + rewrite Z.eqb_refl. apply orb_true_r.
    + destruct (Z.eqb_spec (i mod 8) (j mod 8)); [by destruct Hne; apply div8_mod8|].
      by rewrite orb_false_r, E.
  - rewrite Z.land_spec, Z.lnot_spec, Z.pow2_bits_eqb by lia. destruct (Z.eqb_spec j i) as [->|Hne].
    + rewrite Z.eqb_refl. apply andb_false_r.
    + destruct (Z.eqb_spec (i mod 8) (j mod 8)); [by destruct Hne; apply div8_mod8|].
      by rewrite andb_true_r, E.
Qed.

Lemma alen_put_bit b a i : alen (put_bit b a i) = alen a.
Proof. destruct b; apply alen_aset. Qed.

(** The vectors hold a bit for every block; offsets fit an [int]. *)
Definition nodeb (s : bd_st) (k i : Z) : bool :=
  (0 <=? k) && (k <? nsizes s) && (0 <=? i) && (i <? 2 ^ (MAXSIZE s - k)).
Definition vnode (s : bd_st) (v : vec) (k i : Z) : bool :=
  nodeb s k i && match v with AllocV => true | SplitV => 0 <? k end.
Definition tbit (s : bd_st) (v : vec) (k i : Z) : bool :=
  vnode s v k i && bit_isset (vec_of v (aget (bd_sizes s) k)) i.

Lemma nodeb_node s k i : nodeb s k i = true ↔ node (MAXSIZE s) k i.
Proof.
  unfold nodeb, node, MAXSIZE. rewrite !andb_true_iff, !Z.leb_le, !Z.ltb_lt. lia.
Qed.

Lemma vnode_node s v k i : vnode s v k i = true ↔ node (MAXSIZE s) k i ∧ (v = SplitV → 1 ≤ k).
Proof.
  unfold vnode. rewrite andb_true_iff, nodeb_node. destruct v; [naive_solver|]. rewrite Z.ltb_lt.
  split; intros [? H]; (split; [done|]); [lia|specialize (H eq_refl); lia].
Qed.

Record shape (s : bd_st) : Prop := {
  sh_sizes : 1 ≤ nsizes s ≤ 28;
  sh_base : 0 < bd_base s;
  sh_vec : ∀ v k, 0 ≤ k < nsizes s → (v = SplitV → 1 ≤ k) →
    2 ^ (MAXSIZE s - k) ≤ 8 * alen (vec_of v (aget (bd_sizes s) k));
}.

Definition rep (s : bd_st) (A S : bits) : Prop :=
  shape s ∧ (∀ k i, tbit s AllocV k i = A k i) ∧ (∀ k i, tbit s SplitV k i = S k i).

Lemma shape_in_vec s v k i :
  shape s → node (MAXSIZE s) k i → (v = SplitV → 1 ≤ k) → in_vec s v k i = true.
Proof.
  intros Hs [Hk Hi] Hv. pose proof (sh_vec _ Hs v k) as Hl. unfold MAXSIZE in *.
  specialize (Hl ltac:(lia) Hv). unfold in_vec. rewrite !andb_true_iff, !Z.leb_le, !Z.ltb_lt. split_and!; [lia..|].
  dlia.
Qed.

(** Everything but the vectors is as it was. *)
Definition same_but_bits (s s' : bd_st) : Prop := s' = set_bdsizes (bd_sizes s') s ∧ nsizes s' = nsizes s.

Lemma runs_get_bit v k i x :
  shape x.2 → node (MAXSIZE x.2) k i → (v = SplitV → 1 ≤ k) →
  runs (get_bit v k i) x (λ b x', x' = x ∧ b = tbit x.2 v k i).
Proof.
  intros Hs Hn Hv. unfold get_bit, bget_. kgo. change (id x.2) with x.2. rewrite shape_in_vec by done. kgo. split; [done|].
  unfold tbit. by rewrite (proj2 (vnode_node _ _ _ _) (conj Hn Hv)).
Qed.

Definition put (v : vec) (k i : Z) (b : bool) (w : vec) (f : bits) : bits :=
  match v, w with AllocV, AllocV | SplitV, SplitV => bupd f k i b | _, _ => f end.

Lemma runs_upd_bit b v k i x A S :
  rep x.2 A S → node (MAXSIZE x.2) k i → (v = SplitV → 1 ≤ k) →
  runs (upd_bit (put_bit b) v k i) x (λ _ x', x'.1 = x.1 ∧ same_but_bits x.2 x'.2 ∧
    rep x'.2 (put v k i b AllocV A) (put v k i b SplitV S)).
Proof.
  intros (Hs & HA & HS) Hn Hv. unfold upd_bit, bget_, bmod. kgo.
  pose proof (shape_in_vec _ _ _ _ Hs Hn Hv) as Hin. change (id x.2) with x.2. rewrite Hin. kgo.
  unfold in_vec in Hin. zify_bool. set (s := x.2) in *.
  set (e := aget (bd_sizes s) k) in *. set (e' := set_vec v (put_bit b (vec_of v e) i) e).
  assert (nsizes (set_bdsizes (aset (bd_sizes s) k e') s) = nsizes s) as Hns by apply alen_aset.
  assert (∀ w k', 0 ≤ k' → vec_of w (aget (aset (bd_sizes s) k e') k') =
    if (k' =? k) && bool_decide (w = v) then put_bit b (vec_of v e) i else vec_of w (aget (bd_sizes s) k')) as Hvec.
  { intros w k' Hk'. destruct (Z.eqb_spec k' k) as [->|]; [|by rewrite aget_aset_ne by lia].
    rewrite aget_aset_eq by (unfold nsizes in *; lia). unfold e'. fold e. by destruct v, w. }
  split_and!; [done|by split|].
  assert (∀ w k' i', tbit (set_bdsizes (aset (bd_sizes s) k e') s) w k' i' =
    put v k i b w (tbit s w) k' i') as Hbit.
  { intros w k' i'. unfold tbit at 1. unfold vnode, nodeb, MAXSIZE. rewrite Hns. fold (MAXSIZE s) (nodeb s k' i') (vnode s w k' i').
    cbn [bd_sizes set_bdsizes]. destruct (vnode s w k' i') eqn:En; cbn [andb].
    - pose proof (proj1 (vnode_node _ _ _ _) En) as [[? ?] _]. rewrite Hvec by lia.
      unfold put. destruct v, w; cbn; rewrite ?andb_false_r, ?andb_true_r; unfold bupd, tbit; rewrite En; cbn; try done.
      all: destruct (Z.eqb_spec k' k) as [->|]; [|done]; rewrite put_bit_isset; [done|lia|assumption|lia].
    - unfold put, tbit. destruct (decide (v = w)) as [<-|]; [|destruct v, w; by rewrite ?En].
      assert (¬ (k' = k ∧ i' = i)) as Hne.
      { intros [-> ->]. by rewrite (proj2 (vnode_node _ _ _ _) (conj Hn Hv)) in En. }
      destruct v; cbn; rewrite ?bupd_ne by done; by rewrite En. }
  split_and!.
  - destruct Hs as [Hs1 Hs2 Hs3]. split; [by rewrite Hns|done|]. unfold MAXSIZE. rewrite Hns. intros w k' Hk' Hw.
    cbn [bd_sizes set_bdsizes]. rewrite Hvec by lia. specialize (Hs3 w k' Hk' Hw).
    destruct (Z.eqb_spec k' k) as [->|]; cbn; [|done]. case_bool_decide; [|done]. subst w. by rewrite alen_put_bit.
  - intros k' i'. rewrite Hbit. unfold put. destruct v; unfold bupd; by rewrite HA.
  - intros k' i'. rewrite Hbit. unfold put. destruct v; unfold bupd; by rewrite HS.
Qed.

(** ** Free lists *)

Definition blk (s : bd_st) (k i : Z) : Z := bd_base s + i * BLK_SIZE k.

Lemma BLK_SIZE_pow k : 0 ≤ k → BLK_SIZE k = 2 ^ k * 16.
Proof. intros Hk. unfold BLK_SIZE, LEAF_SIZE. by rewrite Z.shiftl_1_l. Qed.

(** The list of each size, and that no two of them meet. *)
Definition lists (s : bd_st) (F : Z → list Z) : Prop :=
  (∀ k, 0 ≤ k < nsizes s → dl (bd_next s) (bd_prev s) (free_head s k) (F k)) ∧
  (∀ k k' x, 0 ≤ k < nsizes s → 0 ≤ k' < nsizes s → k ≠ k' →
     x ∈ free_head s k :: F k → x ∉ free_head s k' :: F k').

(** The blocks [P] are those on the lists. *)
Definition listed (s : bd_st) (P : Z → Z → Prop) : Prop :=
  ∃ F, lists s F ∧ ∀ k x, 0 ≤ k < nsizes s → x ∈ F k ↔ ∃ i, x = blk s k i ∧ P k i.

Lemma listed_ext s P P' : (∀ k i, 0 ≤ k < nsizes s → P k i ↔ P' k i) → listed s P → listed s P'.
Proof.
  intros HP (F & HF & Hin). exists F. split; [done|]. intros k x Hk. rewrite Hin by done.
  split; intros (i & ? & ?); exists i; (split; [done|]); by apply HP.
Qed.

Lemma listed_bits s s' P : same_but_bits s s' → listed s P → listed s' P.
Proof.
  intros [E En] (F & [H1 H2] & Hin). exists F. unfold lists, blk, free_head. rewrite En. rewrite E. cbn. done.
Qed.

(** The links at the addresses [D] are as they were. *)
Definition kept (D : Z → Prop) (s s' : bd_st) : Prop :=
  ∀ y, D y → bd_next s' y = bd_next s y ∧ bd_prev s' y = bd_prev s y.

(** What is on no list. *)
Definition off_lists (s : bd_st) (P : Z → Z → Prop) (y : Z) : Prop :=
  (∀ j, 0 ≤ j < nsizes s → y ≠ free_head s j) ∧ (∀ j l, 0 ≤ j < nsizes s → P j l → y ≠ blk s j l).

(** The links that change are those of one list and of one block. *)
Lemma lists_change s nx pv k l F :
  0 ≤ k < nsizes s → lists s F → dl nx pv (free_head s k) l →
  (∀ x, x ∈ l → x ∈ F k ∨ ∀ j, 0 ≤ j < nsizes s → x ∉ free_head s j :: F j) →
  (∀ x, x ∉ free_head s k :: F k → x ∉ l → nx x = bd_next s x ∧ pv x = bd_prev s x) →
  lists (set_bdlinks nx pv s) (λ j, if j =? k then l else F j).
Proof.
  intros Hk [H1 H2] Hd Hl Hx.
  assert (∀ j x, 0 ≤ j < nsizes s → j ≠ k → x ∈ free_head s j :: F j → x ∉ free_head s k :: l) as Hne.
  { intros j x Hj Hjk Hxj Hxk. apply elem_of_cons in Hxk as [->|Hxk].
    - eapply (H2 j k); [..|exact Hxj|by left]; done.
    - destruct (Hl x Hxk) as [Hxf|Hf]; [|by eapply Hf].
      eapply (H2 j k); [..|exact Hxj|by right]; done. }
  split.
  - intros j Hj. change (nsizes (set_bdlinks nx pv s)) with (nsizes s) in Hj. cbn.
    change (free_head (set_bdlinks nx pv s) j) with (free_head s j).
    destruct (Z.eqb_spec j k) as [->|Hjk]; [done|]. eapply dl_ext; [|by apply H1].
    intros x Hxj. apply Hx; [by apply (H2 j k)|].
    intros Hxl. apply (Hne j x Hj Hjk Hxj). by right.
  - intros j j' x Hj Hj' Hjj Hxj. change (nsizes (set_bdlinks nx pv s)) with (nsizes s) in Hj, Hj'.
    change (free_head (set_bdlinks nx pv s)) with (free_head s) in *.
    destruct (Z.eqb_spec j k) as [->|Hjk], (Z.eqb_spec j' k) as [->|Hjk'].
    + done.
    + intros Hxj'. by apply (Hne j' x).
    + by apply (Hne j x).
    + by apply (H2 j j').
Qed.

Lemma blk_inj s k i i' : 0 ≤ k → blk s k i = blk s k i' → i = i'.
Proof. intros Hk. unfold blk. rewrite BLK_SIZE_pow by done. intros H. pose proof (Z.pow_pos_nonneg 2 k). nia. Qed.

Lemma off_lists_spec s P F k y :
  (∀ k x, 0 ≤ k < nsizes s → x ∈ F k ↔ ∃ i, x = blk s k i ∧ P k i) →
  off_lists s P y → 0 ≤ k < nsizes s → y ∉ free_head s k :: F k.
Proof.
  intros Hin [Hy1 Hy2] Hk. apply not_elem_of_cons. split; [by apply Hy1|]. rewrite Hin by done.
  intros (i & -> & Hi). by apply (Hy2 k i).
Qed.

Lemma runs_lst_push k i x P :
  0 ≤ k < nsizes x.2 → listed x.2 P →
  (∀ j l, 0 ≤ j < nsizes x.2 → P j l → blk x.2 j l ≠ blk x.2 k i) →
  (∀ j, 0 ≤ j < nsizes x.2 → free_head x.2 j ≠ blk x.2 k i) →
  runs (lst_push (free_head x.2 k) (blk x.2 k i)) x (λ _ x', x'.1 = x.1 ∧
    (∃ nx pv, x'.2 = set_bdlinks nx pv x.2) ∧ kept (λ y, off_lists x.2 P y ∧ y ≠ blk x.2 k i) x.2 x'.2 ∧
    listed x'.2 (λ j l, P j l ∨ j = k ∧ l = i)).
Proof.
  destruct x as [kn s]. cbn [fst snd]. intros Hk (F & HF & Hin) HP Hh. set (e := blk s k i) in *. set (h := free_head s k).
  assert (∀ j, 0 ≤ j < nsizes s → e ∉ free_head s j :: F j) as He.
  { intros j Hj. apply not_elem_of_cons. split; [by apply not_eq_sym, Hh|]. rewrite Hin by done.
    intros (l & E & Hl). by apply (HP j l). }
  pose proof (He k Hk) as Hek. fold h in Hek. unfold lst_push, bmod. kgo.
  assert (h ≠ e) as Hhe by by apply Hh.
  pose proof (dl_push _ _ _ _ e (proj1 HF k Hk) Hek) as Hd. fold h in Hd.
  rewrite fset_ne by done.
  match goal with |- _ ∧ (∃ _ _, set_bdlinks ?nx ?pv _ = _) ∧ _ =>
    assert (∀ y, y ∉ h :: F k → y ≠ e → nx y = bd_next s y ∧ pv y = bd_prev s y) as Hsame end.
  { intros y Hy Hye. apply not_elem_of_cons in Hy as [? Hy]. rewrite !fset_ne; try done.
    intros ->. pose proof (seg_nxt_in _ _ _ _ _ (proj1 (proj1 HF k Hk))) as Hn.
    fold h in Hn. apply elem_of_app in Hn as [?|?%list_elem_of_singleton]; done. }
  split; [done|]. split; [by eexists _, _|]. split.
  { intros y [Hy Hye]. apply Hsame; [|done]. by apply (off_lists_spec s P F). }
  eexists. split.
  - eapply (lists_change s _ _ k (e :: F k) F Hk HF Hd).
    + intros y Hy. apply elem_of_cons in Hy as [->|Hy]; [right; by apply He|by left].
    + intros y Hy Hy'. apply Hsame; [done|]. by apply not_elem_of_cons in Hy' as [? _].
  - intros j y Hj. cbn beta. change (blk (set_bdlinks _ _ s)) with (blk s). destruct (Z.eqb_spec j k) as [->|Hjk].
    + rewrite elem_of_cons, Hin by done. unfold e. naive_solver.
    + rewrite Hin by done. naive_solver.
Qed.

Lemma runs_lst_remove k i x P :
  0 ≤ k < nsizes x.2 → listed x.2 P → P k i →
  runs (lst_remove (blk x.2 k i)) x (λ _ x', x'.1 = x.1 ∧
    (∃ nx pv, x'.2 = set_bdlinks nx pv x.2) ∧ kept (off_lists x.2 P) x.2 x'.2 ∧
    listed x'.2 (λ j l, P j l ∧ ¬ (j = k ∧ l = i))).
Proof.
  destruct x as [kn s]. cbn [fst snd]. intros Hk (F & HF & Hin) HP. set (e := blk s k i) in *. set (h := free_head s k).
  assert (e ∈ F k) as (l1 & l2 & El)%list_elem_of_split by (apply Hin; [done|by exists i]).
  pose proof (proj1 HF k Hk) as Hd0. fold h in Hd0. rewrite El in Hd0.
  pose proof (dl_remove _ _ _ _ _ _ Hd0) as Hd. destruct Hd0 as [Hs Hnd].
  assert (e ∉ l1 ++ l2) as Hel.
  { apply NoDup_cons in Hnd as [_ Hnd]. rewrite <- Permutation_middle in Hnd. by apply NoDup_cons in Hnd as [? _]. }
  apply seg_app in Hs as [Hs1 Hs2]. apply seg_prv_in in Hs1 as Hpe. apply seg_nxt_in in Hs2 as Hne.
  unfold lst_remove, bmod. kgo.
  assert (fset (bd_next s) (bd_prev s e) (bd_next s e) e = bd_next s e) as ->.
  { rewrite fset_ne; [done|]. intros E. rewrite <- E in Hpe. apply NoDup_cons in Hnd as [Hh _].
    apply elem_of_cons in Hpe as [E'|?]; [|apply Hel, elem_of_app; by left].
    apply Hh. rewrite <- E'. apply elem_of_app. right. by left. }
  match goal with |- _ ∧ (∃ _ _, set_bdlinks ?nx ?pv _ = _) ∧ _ =>
    assert (∀ y, y ∉ h :: F k → nx y = bd_next s y ∧ pv y = bd_prev s y) as Hsame end.
  { intros y Hy. rewrite El, elem_of_cons, elem_of_app, elem_of_cons in Hy. rewrite !fset_ne; [done|..].
    - intros ->. apply elem_of_app in Hne as [?|?%list_elem_of_singleton]; tauto.
    - intros ->. apply elem_of_cons in Hpe as [?|?]; tauto. }
  split; [done|]. split; [by eexists _, _|]. split.
  { intros y Hy. apply Hsame. by apply (off_lists_spec s P F). }
  eexists. split.
  - eapply (lists_change s _ _ k (l1 ++ l2) F Hk HF Hd).
    + intros y Hy. left. rewrite El. apply elem_of_app. apply elem_of_app in Hy as [?|?]; [by left|right; by right].
    + intros y Hy _. by apply Hsame.
  - intros j y Hj. cbn beta. change (blk (set_bdlinks _ _ s)) with (blk s). destruct (Z.eqb_spec j k) as [->|Hjk].
    + assert (y ∈ l1 ++ l2 ↔ y ∈ F k ∧ y ≠ e) as ->.
      { rewrite El, !elem_of_app, elem_of_cons. rewrite elem_of_app in Hel. split; [|tauto].
        intros Hy. split; [tauto|]. intros ->. tauto. }
      rewrite Hin by done. split.
      * intros [(l & -> & Hl) Hne']. exists l. split_and!; [done..|]. intros [_ ->]. done.
      * intros (l & -> & Hl & Hne'). split; [by exists l|]. intros E. apply (blk_inj s k l i) in E; [tauto|lia].
    + rewrite Hin by done. naive_solver.
Qed.

Lemma runs_lst_empty k x P :
  0 ≤ k < nsizes x.2 → listed x.2 P →
  runs (lst_empty (free_head x.2 k)) x (λ b x', x' = x ∧
    if b then ∀ i, ¬ P k i else ∃ i, P k i ∧ bd_next x.2 (free_head x.2 k) = blk x.2 k i).
Proof.
  intros Hk (F & [Hd _] & Hin). unfold lst_empty, bget_. kgo. split; [done|].
  destruct (Hd k Hk) as [Hs Hnd]. apply NoDup_cons in Hnd as [Hh _].
  destruct (F k) as [|e l] eqn:E; cbn in Hs; destruct Hs as [Hn _]; rewrite Hn.
  - rewrite Z.eqb_refl. intros i Hi. apply (not_elem_of_nil (blk x.2 k i)). rewrite <- E, Hin by done. by exists i.
  - destruct (Z.eqb_spec e (free_head x.2 k)) as [->|_]; [by destruct Hh; left|].
    destruct (proj1 (Hin k e Hk)) as (i & -> & Hi); [rewrite E; by left|]. by exists i.
Qed.

Lemma runs_lst_pop k i x P :
  0 ≤ k < nsizes x.2 → listed x.2 P → P k i → bd_next x.2 (free_head x.2 k) = blk x.2 k i →
  runs (lst_pop (free_head x.2 k)) x (λ p x', p = blk x.2 k i ∧ x'.1 = x.1 ∧
    (∃ nx pv, x'.2 = set_bdlinks nx pv x.2) ∧ kept (off_lists x.2 P) x.2 x'.2 ∧
    listed x'.2 (λ j l, P j l ∧ ¬ (j = k ∧ l = i))).
Proof.
  intros Hk HL HP Hn. pose proof HL as (F & [Hd _] & Hin). unfold lst_pop, bget_. kgo. rewrite Hn.
  assert (blk x.2 k i ≠ free_head x.2 k) as Hne.
  { intros E. destruct (Hd k Hk) as [_ Hnd]. apply NoDup_cons in Hnd as [Hh _].
    apply Hh. rewrite <- E. apply Hin; [done|]. by exists i. }
  rewrite (proj2 (Z.eqb_neq _ _) Hne). kstep. kapply runs_lst_remove; [done..|].
  intros [] x' H. kgo. split; [done|exact H].
Qed.
