(* ===== verification/BuddyOps.v ===== *)
(** * Allocating and freeing

    [bd_inv] ties the allocator's state to the tree.  [bd_malloc] takes a block of the size
    asked for that no held block meets, or finds that there is none; [bd_free]
    gives a held block back.  Neither touches what lies in the other held blocks. *)

From S2P Require Import Prelude Memory Riscv Spinlock Core DList Buddy BuddyTree BuddyProof.

#[local] Arguments lst_empty : simpl never.
#[local] Arguments lst_push : simpl never.
#[local] Arguments lst_pop : simpl never.
#[local] Arguments lst_remove : simpl never.
#[local] Arguments get_bit : simpl never.
#[local] Arguments upd_bit : simpl never.
#[local] Arguments set_bit : simpl never.
#[local] Arguments clear_bit : simpl never.

Record bd_inv (s : bd_st) (A S : bits) : Prop := {
  bi_rep : rep s A S;
  bi_tree : tree (MAXSIZE s) A S;
  bi_list : listed s (free (MAXSIZE s) A S);
  (* the memory of [bd_sizes] is in use *)
  bi_heads : ∀ k, 0 ≤ k < nsizes s → held A S 0 (2 * k);
}.

(** ** Addresses *)

Lemma blk_offset s k i : shape s → node (MAXSIZE s) k i → 0 ≤ i * BLK_SIZE k ∧ i * BLK_SIZE k + BLK_SIZE k ≤ 2 ^ 31.
Proof.
  intros [Hn _ _] [Hk Hi]. unfold MAXSIZE in *. rewrite BLK_SIZE_pow by lia.
  assert ((i + 1) * (2 ^ k * 16) ≤ 2 ^ (nsizes s - 1 - k) * (2 ^ k * 16)) as H.
  { apply Z.mul_le_mono_nonneg_r; lia. }
  rewrite (Z.mul_assoc (2 ^ _)), <- Z.pow_add_r in H by lia.
  assert (2 ^ (nsizes s - 1 - k + k) ≤ 2 ^ 27) by (apply Z.pow_le_mono_r; lia). split; lia.
Qed.

Lemma blk_index_blk s k i : shape s → node (MAXSIZE s) k i → blk_index s k (blk s k i) = i.
Proof.
  intros Hs Hn. pose proof (blk_offset s k i Hs Hn). destruct Hn as [Hk Hi].
  assert (0 < BLK_SIZE k) by (rewrite BLK_SIZE_pow by lia; lia).
  unfold blk_index, blk. replace (bd_base s + i * BLK_SIZE k - bd_base s) with (i * BLK_SIZE k) by lia.
  rewrite i32_small by lia. apply Z.quot_mul. lia.
Qed.

Lemma addr_blk s k i : shape s → node (MAXSIZE s) k i → addr s k i = blk s k i.
Proof.
  intros Hs Hn. pose proof (blk_offset s k i Hs Hn). destruct Hn as [Hk Hi].
  assert (0 < BLK_SIZE k) by (rewrite BLK_SIZE_pow by lia; lia). unfold addr, blk. by rewrite i32_small by lia.
Qed.

Lemma blk_left s k i : 1 ≤ k → blk s (k - 1) (2 * i) = blk s k i.
Proof.
  intros Hk. unfold blk. rewrite !BLK_SIZE_pow by lia. replace k with (Z.succ (k - 1)) at 2 by lia.
  rewrite Z.pow_succ_r by lia. lia.
Qed.

Lemma blk_right s k i : 1 ≤ k → blk s k i + BLK_SIZE (k - 1) = blk s (k - 1) (2 * i + 1).
Proof. intros Hk. rewrite <- blk_left by done. unfold blk. lia. Qed.

(** An address in a block, and the leaf it is in. *)
Definition in_blk (s : bd_st) (k i y : Z) : Prop := blk s k i ≤ y < blk s k i + BLK_SIZE k.
Definition leaf (s : bd_st) (y : Z) : Z := (y - bd_base s) / 16.

Lemma leaf_in_blk s k i y : 0 ≤ k → in_blk s k i y ↔ leaf s y / 2 ^ k = i.
Proof.
  intros Hk. unfold in_blk, leaf, blk. rewrite BLK_SIZE_pow, Z.div_div by lia.
  rewrite (Z.mul_comm 16). set (b := 2 ^ k * 16). assert (0 < b) by lia. split.
  - intros H'. symmetry. apply (Z.div_unique _ b i (y - bd_base s - i * b)); lia.
  - intros <-. pose proof (Z.div_mod (y - bd_base s) b). pose proof (Z.mod_pos_bound (y - bd_base s) b). lia.
Qed.

Lemma blk_in_blk s k i : 0 ≤ k → in_blk s k i (blk s k i).
Proof. intros Hk. unfold in_blk. rewrite BLK_SIZE_pow by done. lia. Qed.

Lemma head_blk s k : free_head s k = blk s 0 (2 * k).
Proof. unfold free_head, blk. change (BLK_SIZE 0) with 16. lia. Qed.

Section meet.
Context (s : bd_st) (A S : bits) (T : tree (MAXSIZE s) A S).

(** Blocks that are there and share an address are the same. *)
Lemma whole_meet k i k' i' y :
  whole (MAXSIZE s) A S k i → whole (MAXSIZE s) A S k' i' → in_blk s k i y → in_blk s k' i' y → k = k' ∧ i = i'.
Proof.
  intros H H' Hy Hy'. pose proof (whole_node _ _ _ _ _ T H) as [? _]. pose proof (whole_node _ _ _ _ _ T H') as [? _].
  rewrite leaf_in_blk in Hy, Hy' by lia. by eapply whole_disjoint.
Qed.

Lemma whole_blk_inj k i k' i' :
  whole (MAXSIZE s) A S k i → whole (MAXSIZE s) A S k' i' → blk s k i = blk s k' i' → k = k' ∧ i = i'.
Proof.
  intros H H' E. pose proof (whole_node _ _ _ _ _ T H) as [? _]. pose proof (whole_node _ _ _ _ _ T H') as [? _].
  eapply (whole_meet _ _ _ _ (blk s k i)); [done..|apply blk_in_blk; lia|].
  rewrite E. apply blk_in_blk. lia.
Qed.

Lemma free_not_head k i j :
  (∀ k, 0 ≤ k < nsizes s → held A S 0 (2 * k)) → 0 ≤ j < nsizes s → free (MAXSIZE s) A S k i →
  free_head s j ≠ blk s k i.
Proof.
  intros Hh Hj Hf E. rewrite head_blk in E.
  destruct (whole_blk_inj _ _ _ _ (or_introl (Hh j Hj)) (or_intror Hf) E) as [<- <-].
  destruct Hf as (_ & Hf & _). destruct (Hh j Hj). congruence.
Qed.
End meet.

(** Addresses in the blocks [H], those of the list heads apart. *)
Definition data (s : bd_st) (H : Z → Z → Prop) (y : Z) : Prop :=
  ∃ k i, H k i ∧ in_blk s k i y ∧ ∀ j, 0 ≤ j < nsizes s → ¬ (k = 0 ∧ i = 2 * j).

Lemma data_off_lists s A S H y :
  tree (MAXSIZE s) A S → (∀ k, 0 ≤ k < nsizes s → held A S 0 (2 * k)) →
  (∀ k i, H k i → held A S k i) → data s H y → off_lists s (free (MAXSIZE s) A S) y.
Proof.
  intros T Hh HH (k & i & Hk%HH & Hy & Hne). split.
  - intros j Hj ->. apply (Hne j Hj). rewrite head_blk in Hy.
    by apply (whole_meet s A S T _ _ _ _ _ (or_introl Hk) (or_introl (Hh j Hj)) Hy), blk_in_blk.
  - intros j l Hj Hf ->. destruct (whole_meet s A S T _ _ _ _ _ (or_introl Hk) (or_intror Hf) Hy) as [-> ->];
      [apply blk_in_blk; lia|]. destruct Hk, Hf as (_ & ? & _). congruence.
Qed.

Lemma off_lists_geom s s' P P' y :
  nsizes s' = nsizes s → bd_base s' = bd_base s → (∀ k i, P' k i → P k i) → off_lists s P y → off_lists s' P' y.
Proof.
  intros En Eb HP [H1 H2]. unfold off_lists, free_head, blk. rewrite En, Eb. split; [done|]. intros j l Hj Hl. apply H2; auto.
Qed.

(** ** The size asked for *)

(** The least [k] with 16 * 2^k >= n. *)
Definition order (n : Z) : Z := Z.log2_up ((n + 15) / 16).

Lemma order_spec n k : 0 ≤ n → 0 ≤ k → n ≤ BLK_SIZE k ↔ order n ≤ k.
Proof.
  intros Hn Hk. rewrite BLK_SIZE_pow by done. unfold order. destruct (decide (n = 0)) as [->|].
  - change (Z.log2_up ((0 + 15) / 16)) with 0. lia.
  - rewrite <- Z.log2_up_le_pow2 by dlia. dlia.
Qed.

Lemma order_nonneg n : 0 ≤ order n.
Proof. apply Z.log2_up_nonneg. Qed.

Lemma runs_firstk n x : 0 ≤ n ≤ 2 ^ 63 → runs (firstk n) x (λ k x', x' = x ∧ k = order n).
Proof.
  intros Hn. unfold firstk, firstk_loop.
  apply (runs_loop _ (λ '(k, size) x', x' = x ∧ 0 ≤ k ≤ order n ∧ size = BLK_SIZE k) (λ '(k, _) _, Z.to_nat (order n - k))).
  - intros [k size] x' (-> & Hk & ->). pose proof (order_spec n k ltac:(lia) ltac:(lia)) as Ho.
    kstep; intros Hb; zify_bool; kgo; [|split; [done|lia]].
    assert (BLK_SIZE k * 2 = BLK_SIZE (k + 1)) as E.
    { rewrite !BLK_SIZE_pow, Z.pow_add_r by lia. lia. }
    rewrite u64_small by (split; [rewrite BLK_SIZE_pow by lia|]; lia). rewrite E. split; [split_and!; [done|lia..|done]|lia].
  - pose proof (order_nonneg n). done.
  - assert (order n ≤ 59) by (apply order_spec; [lia..|change (BLK_SIZE 59) with (2 ^ 63); lia]). lia.
Qed.

(** ** What an operation leaves alone *)

Record frame (D : Z → Prop) (x x' : kern * bd_st) : Prop := {
  fr_kern : x'.1 = x.1;
  fr_lock : bd_lock x'.2 = bd_lock x.2;
  fr_base : bd_base x'.2 = bd_base x.2;
  fr_size : nsizes x'.2 = nsizes x.2;
  fr_kept : kept D x.2 x'.2;
}.

Lemma frame_refl D x : frame D x x.
Proof. by split. Qed.
Lemma frame_trans D x y z : frame D x y → frame D y z → frame D x z.
Proof.
  intros [] []. split; [congruence..|]. intros a Ha. by split; etrans; [apply fr_kept1|apply fr_kept0|apply fr_kept1|apply fr_kept0].
Qed.
Lemma frame_mono (D D' : Z → Prop) x x' : (∀ y, D y → D' y) → frame D' x x' → frame D x x'.
Proof. intros H []. split; try done. intros y Hy. apply fr_kept0. auto. Qed.
Lemma frame_bits D x x' : x'.1 = x.1 → same_but_bits x.2 x'.2 → frame D x x'.
Proof. intros E [E1 E2]. split; try done; rewrite E1; done. Qed.
Lemma frame_links D x x' nx pv : x'.1 = x.1 → x'.2 = set_bdlinks nx pv x.2 → kept D x.2 x'.2 → frame D x x'.
Proof. intros E E' K. split; try done; rewrite E'; done. Qed.

(** Where blocks lie. *)
Lemma frame_geom D x x' : frame D x x' →
  MAXSIZE x'.2 = MAXSIZE x.2 ∧ (∀ k i, blk x'.2 k i = blk x.2 k i) ∧ (∀ k, free_head x'.2 k = free_head x.2 k) ∧
  (∀ k p, blk_index x'.2 k p = blk_index x.2 k p) ∧ (∀ k i, addr x'.2 k i = addr x.2 k i).
Proof.
  intros []. unfold MAXSIZE, blk, free_head, blk_index, addr. rewrite fr_base0, fr_size0. done.
Qed.

Lemma data_geom D x x' H y : frame D x x' → data x'.2 H y ↔ data x.2 H y.
Proof.
  intros Hf. destruct (frame_geom _ _ _ Hf) as (_ & Hb & _). unfold data, in_blk.
  setoid_rewrite Hb. by rewrite (fr_size _ _ _ Hf).
Qed.

Lemma frame_data D H x y z : frame D x y → frame (data y.2 H) y z → frame (data x.2 H) y z.
Proof. intros F. apply frame_mono. intros a. by rewrite (data_geom _ _ _ _ _ F). Qed.

Lemma rep_links s A S nx pv : rep (set_bdlinks nx pv s) A S ↔ rep s A S.
Proof. split; intros ([? ? ?] & ? & ?); (split; [by split|done]). Qed.

(** ** bd_malloc *)

(** The search finds the first size from [fk] on with a free block. *)
Lemma runs_bd_search fk x P :
  0 ≤ fk → listed x.2 P →
  runs (bd_search fk) x (λ k x', x' = x ∧ fk ≤ k ∧ (∀ j i, fk ≤ j < k → j < nsizes x.2 → ¬ P j i) ∧
    (k < nsizes x.2 → ∃ i, P k i ∧ bd_next x.2 (free_head x.2 k) = blk x.2 k i)).
Proof.
  intros Hfk HL. unfold bd_search, bget_. kstep. kstep.
  apply (runs_loop _ (λ k x', x' = x ∧ fk ≤ k ∧ ∀ j i, fk ≤ j < k → j < nsizes x.2 → ¬ P j i)
    (λ k _, Z.to_nat (nsizes x.2 - k))).
  - intros k x' (-> & Hk & Hno). kstep; intros Hb; zify_bool; kgo; [|split_and!; [done..|lia]].
    kcall (runs_lst_empty k x P); [lia|done|]. intros [] x' [-> He]; kgo.
    + split; [|lia]. split_and!; [done|lia|]. intros j i Hj Hj'. destruct (decide (j = k)) as [->|]; [done|].
      apply Hno; lia.
    + split_and!; done.
  - split_and!; [done..|lia].
  - lia.
Qed.

(** A block is put on the list of its size, in a state whose vectors already call it free. *)
Lemma runs_push_free k i x A S P (H : Z → Z → Prop) :
  rep x.2 A S → tree (MAXSIZE x.2) A S → (∀ k, 0 ≤ k < nsizes x.2 → held A S 0 (2 * k)) →
  listed x.2 P → (∀ k' i', free (MAXSIZE x.2) A S k' i' ↔ P k' i' ∨ k' = k ∧ i' = i) → ¬ P k i →
  (∀ k i, H k i → held A S k i) →
  runs (lst_push (free_head x.2 k) (blk x.2 k i)) x (λ _ x', frame (data x.2 H) x x' ∧ bd_inv x'.2 A S).
Proof.
  intros R T Hh HL HP Hni HH. assert (free (MAXSIZE x.2) A S k i) as Hf by (apply HP; by right).
  pose proof Hf as ([Hk _] & _). assert (nsizes x.2 = MAXSIZE x.2 + 1) as Hns by (unfold MAXSIZE; lia).
  kapply (runs_lst_push k i x P); [lia|done|..].
  - intros j l Hj Hl E. destruct (whole_blk_inj x.2 A S T j l k i) as [-> ->]; [right; apply HP; by left|by right|done..].
  - intros j Hj. by apply (free_not_head x.2 A S T).
  - intros [] x' (K & (nx & pv & L) & D & HL').
    assert (frame (data x.2 H) x x') as F.
    { apply (frame_links _ _ _ nx pv); [done..|]. intros y Hy.
      pose proof (data_off_lists _ _ _ _ _ T Hh HH Hy) as O. apply D. split; [|by apply (proj2 O k i); [lia|]].
      eapply off_lists_geom; [done..| |exact O]. intros k' i' ?. apply HP. by left. }
    split; [done|]. destruct (frame_geom _ _ _ F) as (G1 & _). pose proof (fr_size _ _ _ F) as G.
    split; rewrite ?G1, ?G; [rewrite L; by apply rep_links|done| |done].
    eapply listed_ext; [|exact HL']. intros k' i' _. by rewrite HP.
Qed.

(** The steps of one round of [bd_split]: both bits, then the right half is pushed. *)
Lemma runs_split_round k i p x A S (H : Z → Z → Prop) :
  bd_inv x.2 A S → held A S k i → 1 ≤ k → p = blk x.2 k i →
  (∀ k' i', H k' i' → held A S k' i' ∧ ¬ (k' = k ∧ i' = i)) →
  runs (i ← gets (λ x, blk_index x.2 k p);
    set_bit SplitV k i;;
    j ← gets (λ x, blk_index x.2 (k - 1) p);
    set_bit AllocV (k - 1) j;;
    h ← gets (λ x, free_head x.2 (k - 1));
    lst_push h (p + BLK_SIZE (k - 1));;
    mret (inl (k - 1) : Z + unit)) x (λ r x', r = inl (k - 1) ∧ frame (data x.2 H) x x' ∧
    ∃ A' S', bd_inv x'.2 A' S' ∧
      ∀ k' i', held A' S' k' i' ↔ held A S k' i' ∧ ¬ (k' = k ∧ i' = i) ∨ k' = k - 1 ∧ i' = 2 * i).
Proof.
  intros [Hrep T HL Hh] Hki Hk -> HH. pose proof Hrep as [Hsh _]. pose proof Hki as [HA HS].
  pose proof (t_node _ _ _ T _ _ HA) as Hn. assert (2 * i / 2 = i ∧ (2 * i + 1) / 2 = i) as [E0 E1] by dlia.
  pose proof (held_children _ _ _ _ _ _ T Hki Hk E0) as Hn0.
  destruct (tree_split _ _ _ _ _ T Hki Hk) as (T' & Hheld & Hfree).
  kstep. kstep. rewrite blk_index_blk by done. kstep.
  kapply (runs_upd_bit true); [done..|]. intros [] x1 (K1 & B1 & R1). cbn in R1.
  pose proof (frame_bits (data x.2 H) _ _ K1 B1) as F1. destruct (frame_geom _ _ _ F1) as (G1 & G2 & _ & G4 & _).
  kstep. kstep. rewrite G4, <- (blk_left x.2 k i Hk), blk_index_blk by done. kstep.
  kapply (runs_upd_bit true); [done|by rewrite G1|done|]. intros [] x2 (K2 & B2 & R2). cbn in R2.
  pose proof (frame_trans _ _ _ _ F1 (frame_bits (data x.2 H) _ _ K2 B2)) as F2.
  destruct (frame_geom _ _ _ F2) as (J1 & J2 & J3 & _).
  assert (listed x2.2 (free (MAXSIZE x.2) A S)) as HL2 by (eapply listed_bits, listed_bits; done).
  kstep. kstep. rewrite (blk_left x.2 k i Hk), (blk_right x.2 k i Hk), <- J2. kstep.
  kapply (runs_push_free (k - 1) (2 * i + 1) x2 _ _ (free (MAXSIZE x.2) A S) H).
  - exact R2.
  - by rewrite J1.
  - rewrite (fr_size _ _ _ F2). intros j Hj. apply Hheld. left. split; [by apply Hh|lia].
  - done.
  - by rewrite J1.
  - intros (_ & _ & [?|Hf]); [destruct Hn; lia|]. rewrite E1 in Hf. replace (k - 1 + 1) with k in Hf by lia. congruence.
  - intros k' i' Hk'. apply Hheld. left. by apply HH.
  - intros [] x3 [F3 Hinv]. kgo. split; [done|]. split; [|by eexists _, _].
    eapply frame_trans; [done|]. by eapply frame_data.
Qed.

(** The block [i] of size [k] is split until its left part has size [fk]. *)
Lemma runs_bd_split (H : Z → Z → Prop) fk k i p x A S :
  0 ≤ fk ≤ k → bd_inv x.2 A S → (∀ k' i', held A S k' i' ↔ H k' i' ∨ k' = k ∧ i' = i) → ¬ H k i →
  p = blk x.2 k i →
  runs (bd_split fk k p) x (λ _ x', frame (data x.2 H) x x' ∧ ∃ A' S' i', p = blk x.2 fk i' ∧ ¬ H fk i' ∧
    bd_inv x'.2 A' S' ∧ ∀ k' j, held A' S' k' j ↔ H k' j ∨ k' = fk ∧ j = i').
Proof.
  intros [Hfk Hk] Hinv Hheld Hni Hp. unfold bd_split, bget_.
  apply (runs_loop _ (λ k x', fk ≤ k ∧ frame (data x.2 H) x x' ∧ ∃ A' S' i', p = blk x.2 k i' ∧ ¬ H k i' ∧
      bd_inv x'.2 A' S' ∧ ∀ k' j, held A' S' k' j ↔ H k' j ∨ k' = k ∧ j = i') (λ k _, Z.to_nat (k - fk))); [..|lia].
  2:{ split_and!; [lia|apply frame_refl|]. by exists A, S, i. }
  clear k i Hk A S Hinv Hheld Hni Hp. intros k y (Hk & F & A & S & i & Hp & Hni & Hinv & Hheld).
  kstep; intros Hb; zify_bool; [|kgo; assert (k = fk) as -> by lia; split; [done|]; by exists A, S, i].
  destruct (frame_geom _ _ _ F) as (_ & G2 & _). assert (held A S k i) as Hki by (apply Hheld; by right).
  destruct (t_node _ _ _ (bi_tree _ _ _ Hinv) _ _ (proj1 Hki)) as [Hk0 _].
  assert (1 ≤ k) as Hk1 by lia.
  kapply (runs_split_round k i p y A S H); [done|done|done|by rewrite G2| |].
  { intros k' j Hj. split; [apply Hheld; by left|]. by intros [-> ->]. }
  intros r z (-> & F' & A' & S' & Hinv' & Hheld'). split; [|lia]. split_and!; [lia| |].
  { eapply frame_trans; [done|]. by eapply frame_data. }
  exists A', S', (2 * i). split_and!; [by rewrite blk_left| |done|].
  - intros Hc. destruct (held_child _ _ _ _ _ (2 * i) (bi_tree _ _ _ Hinv) Hki) as [E _]; [dlia|].
    destruct (proj2 (Hheld _ _) (or_introl Hc)). congruence.
  - intros k' j. rewrite Hheld', Hheld. split; [tauto|]. intros [Hj|?]; [left|by right].
    split; [by left|]. by intros [-> ->].
Qed.

(** ** Under the lock *)

Definition entered (x : kern * bd_st) : kern * bd_st :=
  (set_kcpu (push_off_cpu (k_cpu x.1)) x.1, set_bdlock (taken (c_id (k_cpu x.1)) (bd_lock x.2)) x.2).

(** The allocator is entered with its lock free, and left so. *)
Definition idle (x : kern * bd_st) : Prop := cpu_ok (k_cpu x.1) ∧ locked (bd_lock x.2) = 0.

Record calm (D : Z → Prop) (x x' : kern * bd_st) : Prop := {
  ca_kern : same_kern x.1 x'.1;
  ca_idle : idle x';
  ca_base : bd_base x'.2 = bd_base x.2;
  ca_size : nsizes x'.2 = nsizes x.2;
  ca_kept : kept D x.2 x'.2;
}.

Lemma bd_inv_lock v s A S : bd_inv (set_bdlock v s) A S ↔ bd_inv s A S.
Proof. split; intros [([? ? ?] & ? & ?) ? ? ?]; (split; [split; [by split|done]|done..]). Qed.

Lemma runs_bd_acquire x Q : idle x → Q tt (entered x) → runs (acquire (slock bdlock)) x Q.
Proof. destruct x as [k s]. intros [Hc Hl] HQ. by apply (runs_acquire (slock bdlock)). Qed.

Lemma runs_bd_release D x y Q :
  idle x → frame D (entered x) y →
  (∀ z v, z.2 = set_bdlock v y.2 → calm D x z → Q tt z) → runs (release (slock bdlock)) y Q.
Proof.
  destruct x as [k s], y as [k' s']. intros [Hc Hl] [Ek El Eb En Ed] HQ. cbn in *. subst k'.
  apply (runs_release (slock bdlock) _ _ (settle (k_cpu k))); cbn; rewrite ?El; cbn; [done|done| |by apply pop_push_off|].
  { by rewrite push_off_id. }
  eapply HQ; [done|]. split; cbn; [exact (same_kern_settle k)| |done..]. split; [by apply settle_ok|done].
Qed.

(** [bd_malloc]: a block of the least sufficient size that was not held becomes held;
    or 0, and no block of that size or larger is free. *)
Lemma runs_bd_malloc n x A S :
  idle x → bd_inv x.2 A S → 0 ≤ n ≤ 2 ^ 63 →
  runs (bd_malloc n) x (λ p x', calm (data x.2 (held A S)) x x' ∧ ∃ A' S', bd_inv x'.2 A' S' ∧
    ((p = 0 ∧ (∀ k i, order n ≤ k → ¬ free (MAXSIZE x.2) A S k i) ∧ ∀ k i, held A' S' k i ↔ held A S k i) ∨
     ∃ i, p = blk x.2 (order n) i ∧ ¬ held A S (order n) i ∧
       ∀ k j, held A' S' k j ↔ held A S k j ∨ k = order n ∧ j = i)).
Proof.
  intros Hi Hinv Hn. pose proof (order_nonneg n) as Ho. unfold bd_malloc, bget_. kstep. apply runs_bd_acquire; [done|].
  assert (bd_inv (entered x).2 A S) as Hinv0 by by apply bd_inv_lock. pose proof Hinv0 as [Hrep T HL Hh].
  set (x0 := entered x) in *. kcall (runs_firstk n x0); [done|]. intros fk y [-> ->].
  kcall (runs_bd_search (order n) x0); [done..|]. intros k y (-> & Hk & Hno & Hyes).
  kstep. kstep. kstep; intros Hb; zify_bool.
  { kstep. eapply (runs_bd_release (data x.2 (held A S))); [done|by apply frame_refl|]. intros z v Hz Hcalm. kgo.
    split; [done|]. exists A, S. rewrite Hz. split; [by apply bd_inv_lock|]. left. split_and!; [done| |done].
    intros k' i Hk' Hf. assert (MAXSIZE x.2 + 1 = nsizes x0.2) as E by (change (nsizes x0.2) with (nsizes x.2); unfold MAXSIZE; lia).
    apply (Hno k' i); [destruct Hf as [[? _] _]; lia..|done]. }
  destruct (Hyes Hb) as (i & Hf & Hnx). kstep. kstep.
  kcall (runs_lst_pop k i x0 _ ltac:(lia) HL Hf Hnx). intros p x1 (-> & K1 & (nx & pv & L1) & D1 & HL1).
  assert (frame (data x.2 (held A S)) x0 x1) as F1.
  { apply (frame_links _ _ _ nx pv); [done..|]. intros y Hy. apply D1. by eapply data_off_lists. }
  destruct (frame_geom _ _ _ F1) as (G1 & G2 & _ & G4 & _). pose proof Hf as (Hnode & HA & _).
  kstep. kstep. rewrite G4, blk_index_blk by (first [apply Hrep|done]). kstep.
  assert (rep x1.2 A S) as Hrep1 by (rewrite L1; by apply rep_links).
  kapply (runs_upd_bit true AllocV k i x1 A S Hrep1); [by rewrite G1|done|].
  intros [] x2 (K2 & B2 & R2). cbn in R2. destruct (tree_take _ _ _ _ _ T Hf) as (T' & Hheld & Hfree).
  pose proof (frame_trans _ _ _ _ F1 (frame_bits (data x.2 (held A S)) _ _ K2 B2)) as F2.
  destruct (frame_geom _ _ _ F2) as (J1 & J2 & _). pose proof (fr_size _ _ _ F2) as J0.
  assert (bd_inv x2.2 (bupd A k i true) S) as Hinv2.
  { split; rewrite ?J1, ?J0; [done|done| |].
    - eapply listed_ext; [|by eapply listed_bits]. intros k' i' _. by rewrite Hfree.
    - intros j Hj. apply Hheld. left. by apply Hh. }
  kcall (runs_bd_split (held A S) (order n) k i _ x2 _ _ ltac:(lia) Hinv2 Hheld); [|by rewrite J2|].
  { intros [? _]. congruence. }
  intros [] x3 (F3 & A' & S' & i' & Hp & Hni & Hinv3 & Hheld3).
  kstep. eapply (runs_bd_release (data x.2 (held A S))); [done| |].
  { eapply frame_trans; [exact F2|]. exact (frame_data _ (held A S) x0 _ _ F2 F3). }
  intros z v Hz Hcalm. kgo. split; [done|]. exists A', S'. rewrite Hz. split; [by apply bd_inv_lock|]. right.
  exists i'. split; [exact (eq_trans Hp (J2 _ _))|done].
Qed.

(** ** bd_free *)

Lemma leaf_blk s k i : 0 ≤ k → leaf s (blk s k i) = i * 2 ^ k.
Proof.
  intros Hk. unfold leaf, blk. rewrite BLK_SIZE_pow by done.
  replace (bd_base s + i * (2 ^ k * 16) - bd_base s) with (i * 2 ^ k * 16) by lia. apply Z.div_mul. lia.
Qed.

Lemma blk_index_leaf s k p : 0 ≤ k → 0 ≤ p - bd_base s < 2 ^ 31 → blk_index s k p = leaf s p / 2 ^ k.
Proof.
  intros Hk Hp. unfold blk_index, leaf. rewrite i32_small, Z.quot_div_nonneg by (rewrite ?BLK_SIZE_pow by lia; lia).
  rewrite BLK_SIZE_pow, Z.div_div by lia. f_equal. lia.
Qed.

(** The size of a held block is found in the split vectors. *)
Lemma runs_size k i x A S :
  bd_inv x.2 A S → held A S k i → k < MAXSIZE x.2 → runs (size (blk x.2 k i)) x (λ r x', x' = x ∧ r = k).
Proof.
  intros [Hrep T _ _] Hki Hm. pose proof Hrep as (Hsh & _ & HS).
  pose proof (t_node _ _ _ T _ _ (proj1 Hki)) as Hn. pose proof (blk_offset _ _ _ Hsh Hn) as Ho. pose proof Hn as [Hk Hi].
  assert (0 < BLK_SIZE k) by (rewrite BLK_SIZE_pow by lia; lia).
  unfold size, bget_. kstep. kstep.
  apply (runs_loop _ (λ j x', x' = x ∧ 0 ≤ j ≤ k) (λ j _, Z.to_nat (k - j))); [|split; [done|lia]|unfold MAXSIZE in *; lia].
  intros j x' [-> Hj]. rewrite (proj2 (Z.ltb_lt j _)) by (unfold MAXSIZE in Hm; lia).
  kstep. kstep. rewrite blk_index_leaf, leaf_blk by (unfold blk; lia). kstep.
  set (b := i * 2 ^ k). assert (b / 2 ^ k = i) as Eb by (apply Z.div_mul; lia).
  assert (node (MAXSIZE x.2) (j + 1) (b / 2 ^ (j + 1))) as Hnj.
  { split; [lia|]. split; [apply Z.div_pos; lia|]. apply Z.div_lt_upper_bound; [lia|].
    rewrite <- Z.pow_add_r by lia. replace (j + 1 + (MAXSIZE x.2 - (j + 1))) with (MAXSIZE x.2 - k + k) by lia.
    rewrite Z.pow_add_r by lia. unfold b. apply Z.mul_lt_mono_pos_r; lia. }
  kapply (runs_get_bit SplitV (j + 1) _ x Hsh Hnj); [lia|]. intros v x' [-> ->]. rewrite HS.
  destruct (decide (j = k)) as [->|].
  - rewrite Z.pow_add_r, <- Z.div_div, Eb by lia. rewrite (t_parent _ _ _ T _ _ (proj1 Hki) Hm : S (k + 1) (i / 2 ^ 1) = true).
    kgo. done.
  - rewrite (whole_below _ A S k i (j + 1) b T (or_introl Hki) Eb) by lia. kgo. split; [split; [done|lia]|lia].
Qed.

(** Where the loop of [bd_free] stops: the block [i] of size [k] is cleared in the vector
    but on no list yet, and its buddy is allocated. *)
Record merged (H : Z → Z → Prop) (x : kern * bd_st) (k p : Z) (A S : bits) (i : Z) : Prop := {
  mg_rep : rep x.2 (bupd A k i false) S;
  mg_tree : tree (MAXSIZE x.2) A S;
  mg_list : listed x.2 (free (MAXSIZE x.2) A S);
  mg_held : ∀ k' i', held A S k' i' ↔ H k' i' ∨ k' = k ∧ i' = i;
  mg_new : ¬ H k i;
  mg_max : k < MAXSIZE x.2;
  mg_buddy : A k (buddy i) = true;
  mg_addr : p = blk x.2 k i;
}.

(** The largest block is never held: it contains the list heads. *)
Lemma held_lt_max s A S (H : Z → Z → Prop) k i :
  bd_inv s A S → (∀ k' i', held A S k' i' ↔ H k' i' ∨ k' = k ∧ i' = i) → ¬ H k i → H 0 0 → k < MAXSIZE s.
Proof.
  intros [Hrep T _ Hh] Hheld Hni H0. assert (held A S k i) as Hki by (apply Hheld; by right).
  destruct (t_node _ _ _ T _ _ (proj1 Hki)) as [Hk Hi]. destruct (decide (k = MAXSIZE s)) as [->|]; [|lia].
  rewrite Z.sub_diag, Z.pow_0_r in Hi. assert (i = 0) as -> by lia.
  destruct (whole_disjoint _ A S (MAXSIZE s) 0 0 0 0 T) as [E _]; [by left|left; apply Hheld; by left| | |].
  - apply Z.div_0_l. lia.
  - done.
  - rewrite E in Hni. done.
Qed.

(** The address of the merged pair. *)
Lemma blk_merge s k i :
  0 ≤ k → 0 ≤ i → (if Z.rem (buddy i) 2 =? 0 then blk s k (buddy i) else blk s k i) = blk s (k + 1) (i / 2).
Proof.
  intros Hk Hi. destruct (buddy_spec i Hi) as (B1 & B2 & B3 & _). rewrite Z.rem_mod_nonneg by lia.
  rewrite <- (blk_left s (k + 1)) by lia. replace (k + 1 - 1) with k by lia.
  destruct (Z.eqb_spec (buddy i mod 2) 0); f_equal; dlia.
Qed.

(** One round: clear the block's bit; if its buddy is free take that off its list, and
    the pair is one block. *)
Lemma runs_merge_round (H : Z → Z → Prop) k i x A S :
  bd_inv x.2 A S → (∀ k' i', held A S k' i' ↔ H k' i' ∨ k' = k ∧ i' = i) → ¬ H k i →
  (∀ j, 0 ≤ j < nsizes x.2 → H 0 (2 * j)) → k < MAXSIZE x.2 →
  runs (bi ← gets (λ x, blk_index x.2 k (blk x.2 k i));
    let buddy := buddy_of bi in
    clear_bit AllocV k bi;;
    b ← get_bit AllocV k buddy;
    if b : bool then mret (inr (k, blk x.2 k i)) else
    q ← gets (λ x, addr x.2 k buddy);
    lst_remove q;;
    let p := if Z.rem buddy 2 =? 0 then q else blk x.2 k i in
    i ← gets (λ x, blk_index x.2 (k + 1) p);
    clear_bit SplitV (k + 1) i;;
    mret (inl (k + 1, p))) x (λ r x', frame (data x.2 H) x x' ∧
    match r with
    | inl (k', p') => k' = k + 1 ∧ p' = blk x'.2 (k + 1) (i / 2) ∧ ¬ H (k + 1) (i / 2) ∧
        ∃ A' S', bd_inv x'.2 A' S' ∧ ∀ k' i', held A' S' k' i' ↔ H k' i' ∨ k' = k + 1 ∧ i' = i / 2
    | inr (k', p') => k' = k ∧ merged H x' k p' A S i
    end).
Proof.
  intros [Hrep T HL Hh] Hheld Hni HH Hm. pose proof Hrep as (Hsh & _).
  assert (held A S k i) as Hki by (apply Hheld; by right). pose proof (t_node _ _ _ T _ _ (proj1 Hki)) as Hn.
  pose proof (node_buddy _ _ _ Hn Hm) as Hnb. pose proof Hn as [Hk Hi].
  destruct (buddy_spec i) as (B1 & B2 & B3 & _); [lia|].
  assert (nsizes x.2 = MAXSIZE x.2 + 1) as Hns by (unfold MAXSIZE; lia).
  kstep. kstep. rewrite blk_index_blk by done. change (buddy_of i) with (buddy i). cbv zeta. kstep.
  kapply (runs_upd_bit false); [done..|]. intros [] x1 (K1 & M1 & R1). cbn in R1.
  pose proof (frame_bits (data x.2 H) _ _ K1 M1) as F1. destruct (frame_geom _ _ _ F1) as (G1 & G2 & _ & _ & G5).
  kstep. kapply (runs_get_bit AllocV k (buddy i) x1 (proj1 R1)); [by rewrite G1|done|]. intros v y [-> ->].
  rewrite (proj1 (proj2 R1)), bupd_ne by tauto. destruct (A k (buddy i)) eqn:HB.
  { kgo. split; [done|]. split; [done|]. split; rewrite ?G1, ?G2; try done. by eapply listed_bits. }
  kstep. kstep. rewrite G5, addr_blk by done. kstep.
  assert (free (MAXSIZE x.2) A S k (buddy i)) as Hfb.
  { split_and!; [done..|right]. rewrite B1. by apply (t_parent _ _ _ T _ _ (proj1 Hki)). }
  rewrite <- G2. kapply (runs_lst_remove k (buddy i) x1 (free (MAXSIZE x.2) A S));
    [rewrite (fr_size _ _ _ F1); lia|by eapply listed_bits|done|].
  intros [] x2 (K2 & (nx & pv & L2) & D2 & HL2).
  assert (frame (data x.2 H) x1 x2) as F12.
  { apply (frame_links _ _ _ nx pv); [done..|]. intros y Hy. apply D2.
    eapply off_lists_geom; [apply F1|apply F1|done|]. eapply (data_off_lists x.2); [done..| |exact Hy].
    intros k' i' ?. apply Hheld. by left. }
  pose proof (frame_trans _ _ _ _ F1 F12) as F2. destruct (frame_geom _ _ _ F2) as (J1 & J2 & _ & J4 & _).
  rewrite G2, blk_merge by lia. kstep. kstep.
  pose proof (node_parent _ _ _ Hn Hm) as Hnp. rewrite J4, blk_index_blk by done. kstep.
  assert (rep x2.2 (bupd A k i false) S) as R2 by (rewrite L2; by apply rep_links).
  kapply (runs_upd_bit false SplitV (k + 1) (i / 2) x2 _ _ R2); [by rewrite J1|lia|].
  intros [] x3 (K3 & M3 & R3). cbn in R3.
  pose proof (frame_trans _ _ _ _ F2 (frame_bits (data x.2 H) _ _ K3 M3)) as F3.
  destruct (frame_geom _ _ _ F3) as (I1 & I2 & _). pose proof (fr_size _ _ _ F3) as I0.
  destruct (tree_merge _ _ _ _ _ T Hki Hm HB) as (T' & Hheld' & Hfree').
  kgo. split; [done|]. rewrite I2. split_and!; [done..| |].
  { intros Hp. destruct (proj2 (Hheld _ _) (or_introl Hp)) as [_ E].
    by rewrite (t_parent _ _ _ T _ _ (proj1 Hki) Hm) in E. }
  exists (bupd A k i false), (bupd S (k + 1) (i / 2) false).
  assert (∀ k' i', held (bupd A k i false) (bupd S (k + 1) (i / 2) false) k' i' ↔ H k' i' ∨ k' = k + 1 ∧ i' = i / 2) as Hh'.
  { intros k' i'. rewrite Hheld', Hheld. split; [tauto|]. intros [?|?]; [left|by right].
    split; [by left|]. by intros [-> ->]. }
  split; [|done]. split; rewrite ?I1, ?I0; [done|done| |].
  - eapply listed_ext; [|by eapply listed_bits]. intros k' i' _. by rewrite Hfree'.
  - intros j Hj. apply Hh'. left. by apply HH.
Qed.

Lemma runs_bd_merge (H : Z → Z → Prop) k i x A S :
  bd_inv x.2 A S → (∀ k' i', held A S k' i' ↔ H k' i' ∨ k' = k ∧ i' = i) → ¬ H k i →
  (∀ j, 0 ≤ j < nsizes x.2 → H 0 (2 * j)) →
  runs (bd_merge k (blk x.2 k i)) x (λ '(k', p') x', frame (data x.2 H) x x' ∧
    ∃ A' S' i', merged H x' k' p' A' S' i').
Proof.
  intros Hinv Hheld Hni HH. pose proof (sh_sizes _ (proj1 (bi_rep _ _ _ Hinv))) as Hns.
  assert (0 ≤ k) as Hk0.
  { destruct (t_node _ _ _ (bi_tree _ _ _ Hinv) k i) as [? _]; [|lia]. apply (proj2 (Hheld k i)). by right. }
  unfold bd_merge, bget_. kstep. kstep.
  apply (runs_loop _ (λ '(k, p) x', 0 ≤ k ∧ frame (data x.2 H) x x' ∧ ∃ A S i, p = blk x'.2 k i ∧ ¬ H k i ∧
      bd_inv x'.2 A S ∧ ∀ k' i', held A S k' i' ↔ H k' i' ∨ k' = k ∧ i' = i)
    (λ '(k, _) _, Z.to_nat (MAXSIZE x.2 - k))); [| |lia].
  2:{ split_and!; [done|apply frame_refl|]. by exists A, S, i. }
  clear k i A S Hinv Hheld Hni Hk0. intros [k p] y (Hk0 & F & A & S & i & -> & Hni & Hinv & Hheld).
  destruct (frame_geom _ _ _ F) as (G1 & _).
  assert (k < MAXSIZE y.2) as Hm by (eapply held_lt_max; [done..|apply (HH 0); lia]).
  rewrite (proj2 (Z.ltb_lt k _)) by lia.
  kapply (runs_merge_round H k i y A S); [done..|by rewrite (fr_size _ _ _ F)|done|].
  intros r z [F' Hr]. pose proof (frame_data _ _ _ _ _ F F') as F''.
  pose proof (frame_trans _ _ _ _ F F'') as Fz. destruct r as [[k' p']|[k' p']].
  - destruct Hr as (-> & -> & Hni' & A' & S' & Hinv' & Hheld'). split; [|lia]. split_and!; [lia|done|].
    by exists A', S', (i / 2).
  - destruct Hr as (-> & Hmg). split; [done|]. by exists A, S, i.
Qed.

(** [bd_free] of a held block that is no list head. *)
Lemma runs_bd_free (H : Z → Z → Prop) k i x A S :
  idle x → bd_inv x.2 A S → (∀ k' i', held A S k' i' ↔ H k' i' ∨ k' = k ∧ i' = i) → ¬ H k i →
  (∀ j, 0 ≤ j < nsizes x.2 → H 0 (2 * j)) →
  runs (bd_free (blk x.2 k i)) x (λ _ x', calm (data x.2 H) x x' ∧ ∃ A' S', bd_inv x'.2 A' S' ∧
    ∀ k' i', held A' S' k' i' ↔ H k' i').
Proof.
  intros Hi Hinv Hheld Hni HH. unfold bd_free, bget_. kstep. apply runs_bd_acquire; [done|].
  assert (bd_inv (entered x).2 A S) as Hinv0 by by apply bd_inv_lock.
  change (blk x.2 k i) with (blk (entered x).2 k i). set (x0 := entered x) in *.
  assert (k < MAXSIZE x0.2) as Hm.
  { eapply held_lt_max; [done..|apply (HH 0)]. pose proof (sh_sizes _ (proj1 (bi_rep _ _ _ Hinv))). lia. }
  kcall (runs_size k i x0 A S Hinv0); [apply Hheld; by right|done|]. intros k' y [-> ->].
  kcall (runs_bd_merge H k i x0 A S); [done..|]. intros [k1 p1] x1 (F1 & A1 & S1 & i1 & Hmg).
  destruct Hmg as [R1 T1 L1 Hheld1 Hni1 Hm1 HB1 ->]. pose proof (fr_size _ _ _ F1) as N1.
  assert (held A1 S1 k1 i1) as Hk1 by (apply Hheld1; by right).
  destruct (tree_release _ _ _ _ _ T1 Hk1 Hm1 HB1) as (T' & Hheld' & Hfree').
  assert (∀ k' i', held (bupd A1 k1 i1 false) S1 k' i' ↔ H k' i') as Hh'.
  { intros k' i'. rewrite Hheld', Hheld1. split; [tauto|]. intros ?. split; [by left|]. by intros [-> ->]. }
  kstep. kstep. kstep.
  kapply (runs_push_free k1 i1 x1 _ S1 _ H R1 T'); [|done|done| |by intros k' i' ?; apply Hh'|].
  { rewrite N1. intros j Hj. apply Hh'. by apply HH. }
  { intros (_ & E & _). destruct Hk1. congruence. }
  intros [] x2 [F2 Hinv2]. eapply (runs_bd_release (data x.2 H)); [done| |].
  { eapply frame_trans; [exact F1|]. exact (frame_data _ H x0 _ _ F1 F2). }
  intros z v Hz Hcalm. split; [done|]. exists (bupd A1 k1 i1 false), S1. split; [|done]. rewrite Hz. by apply bd_inv_lock.
Qed.
