(* ===== verification/BuddyInit.v ===== *)
(** * Initialising the buddy allocator

    [bd_init] marks the leaves below [mu] (its own data) and from [ep] on (beyond the
    end of memory) as allocated, with everything above them split, and puts the blocks
    left over on the free lists: at each size at most one at either end of the gap.
    [zone] is about that gap. *)

From S2P Require Import Prelude Memory Riscv Spinlock Core DList Buddy BuddyTree BuddyProof BuddyOps.

Definition is_node (m k i : Z) : bool := (0 <=? k) && (k <=? m) && (0 <=? i) && (i <? 2 ^ (m - k)).

Lemma is_node_spec m k i : is_node m k i = true ↔ node m k i.
Proof. unfold is_node, node. rewrite !andb_true_iff, !Z.leb_le, Z.ltb_lt. lia. Qed.

(** ** Marking *)

Lemma rep_ext s A S A' S' : (∀ k i, A' k i = A k i) → (∀ k i, S' k i = S k i) → rep s A S → rep s A' S'.
Proof. intros HA HS (? & H1 & H2). split_and!; [done|..]; intros; congruence. Qed.

(** The blocks that meet the leaves from [a] to [c]. *)
Definition meets (m a c k i : Z) : bool := is_node m k i && (a / 2 ^ k <=? i) && (i * 2 ^ k <? c).
Definition mark (m a c : Z) (f : bits) : bits := λ k i, f k i || meets m a c k i.
Definition marks (m a c : Z) (f : bits) : bits := λ k i, f k i || (0 <? k) && meets m a c k i.

(** The same when sizes below [k] are done, and at size [k] the blocks below [b]. *)
Definition upto (k b k' i' : Z) : bool := (k' <? k) || (k' =? k) && (i' <? b).

Lemma blk_index_leafs s k a : 0 ≤ k → 0 ≤ a < 2 ^ 27 → blk_index s k (bd_base s + 16 * a) = a / 2 ^ k.
Proof.
  intros Hk Ha. rewrite blk_index_leaf by lia. unfold leaf. do 2 f_equal.
  replace (bd_base s + 16 * a - bd_base s) with (a * 16) by lia. apply Z.div_mul. lia.
Qed.

Lemma blk_index_next_leafs s k c : 0 ≤ k → 0 ≤ c ≤ 2 ^ 27 → blk_index_next s k (bd_base s + 16 * c) = (c + 2 ^ k - 1) / 2 ^ k.
Proof.
  intros Hk Hc. unfold blk_index_next. replace (bd_base s + 16 * c - bd_base s) with (16 * c) by lia.
  rewrite BLK_SIZE_pow, Z.quot_div_nonneg, Z.rem_mod_nonneg by lia. rewrite (Z.mul_comm (2 ^ k)).
  rewrite Z.div_mul_cancel_l, Zmult_mod_distr_l by lia. set (b := 2 ^ k). assert (0 < b) by lia.
  assert (0 ≤ c / b ≤ c) by (split; [apply Z.div_pos; lia|apply Z.div_le_upper_bound; nia]).
  rewrite i32_small by lia.
  assert ((c + b - 1) / b = c / b + if c mod b =? 0 then 0 else 1) as ->.
  { pose proof (Z.div_mod c b). pose proof (Z.mod_pos_bound c b). symmetry.
    destruct (Z.eqb_spec (c mod b) 0).
    - apply (Z.div_unique _ b _ (b - 1)); lia.
    - apply (Z.div_unique _ b _ (c mod b - 1)); nia. }
  assert ((16 * (c mod b) =? 0) = (c mod b =? 0)) as ->.
  { destruct (Z.eqb_spec (c mod b) 0), (Z.eqb_spec (16 * (c mod b)) 0); try done; lia. }
  destruct (c mod b =? 0); cbn; lia.
Qed.

Lemma for_range_nat {X} n (body : Z → M X unit) lo hi (I : Z → X → Prop) x Q :
  n = Z.to_nat (hi - lo) →
  (∀ i x, lo ≤ i < hi → I i x → runs (body i) x (λ _, I (i + 1))) → lo ≤ hi →
  I lo x → (∀ x, I hi x → Q tt x) → runs (for_range n lo body) x Q.
Proof.
  intros -> Hb Hle HI HQ. apply (runs_for_range _ I); [|done|].
  - intros i y Hi. apply Hb. lia.
  - intros y. replace (lo + Z.of_nat (Z.to_nat (hi - lo))) with hi by lia. apply HQ.
Qed.

Lemma runs_mark_one k i x A S :
  rep x.2 A S → node (MAXSIZE x.2) k i →
  runs (when (0 <? k) (set_bit SplitV k i);; set_bit AllocV k i) x (λ _ x', x'.1 = x.1 ∧ same_but_bits x.2 x'.2 ∧
    rep x'.2 (bupd A k i true) (if 0 <? k then bupd S k i true else S)).
Proof.
  intros R Hn. kstep. unfold when. destruct (Z.ltb_spec 0 k).
  - kapply (runs_upd_bit true SplitV k i x A S R Hn); [lia|]. intros [] x1 (K1 & B1 & R1).
    kapply (runs_upd_bit true AllocV k i x1 _ _ R1); [unfold MAXSIZE; rewrite (proj2 B1); done|done|].
    intros [] x2 (K2 & B2 & R2). split_and!; [congruence| |done]. destruct B1 as [E1 N1], B2 as [E2 N2].
    split; [|congruence]. rewrite E2, E1. done.
  - kgo. kapply (runs_upd_bit true AllocV k i x A S R Hn); [done|]. done.
Qed.

Definition same_all_but_bits (x x' : kern * bd_st) : Prop := x'.1 = x.1 ∧ same_but_bits x.2 x'.2.

Lemma sab_refl x : same_all_but_bits x x.
Proof. destruct x as [k []]. by split. Qed.
Lemma sab_trans x y z : same_all_but_bits x y → same_all_but_bits y z → same_all_but_bits x z.
Proof.
  intros (K1 & E1 & N1) (K2 & E2 & N2). split; [congruence|]. split; [|congruence]. rewrite E2, E1. done.
Qed.

Lemma ceil_lt c q i : 0 < q → i < (c + q - 1) / q ↔ i * q < c.
Proof.
  intros Hq. split; intros H.
  - pose proof (Z.mul_div_le (c + q - 1) q Hq). nia.
  - assert (i + 1 ≤ (c + q - 1) / q); [|lia]. apply Z.div_le_lower_bound; nia.
Qed.

(** The bits [z] are set in order: what the vectors hold on the way. *)
Definition stage (f z : bits) (k b : Z) : bits := λ k' i', f k' i' || z k' i' && upto k b k' i'.

Lemma stage_step f z k i k' i' :
  z k i = true → stage f z k (i + 1) k' i' = bupd (stage f z k i) k i true k' i'.
Proof.
  intros Hz. unfold stage, upto. destruct (bupd_spec (λ k' i', f k' i' || z k' i' && ((k' <? k) || (k' =? k) && (i' <? i))) k i true k' i')
    as [(-> & -> & ->)|[Hne ->]].
  - rewrite Hz, Z.eqb_refl, (proj2 (Z.ltb_lt i (i + 1))) by lia. by rewrite !orb_true_r.
  - do 3 f_equal. destruct (Z.eqb_spec k' k) as [->|]; [|done]. cbn.
    destruct (Z.ltb_spec i' (i + 1)), (Z.ltb_spec i' i); try done; exfalso; apply Hne; lia.
Qed.

(** Only bits from [b] up to [b'] of size [k] are among [z]. *)
Lemma stage_skip f z k b k1 b' k' i' :
  (z k' i' = true → upto k b k' i' = upto k1 b' k' i') → stage f z k b k' i' = stage f z k1 b' k' i'.
Proof. intros H. unfold stage. destruct (z k' i'); [by rewrite H|done]. Qed.

Lemma meets_spec m a c k i : meets m a c k i = true ↔ node m k i ∧ a / 2 ^ k ≤ i < (c + 2 ^ k - 1) / 2 ^ k.
Proof.
  unfold meets. rewrite !andb_true_iff, is_node_spec, Z.leb_le, Z.ltb_lt. split.
  - intros [[Hn ?] ?]. pose proof Hn as [? _]. rewrite ceil_lt by lia. done.
  - intros [Hn [? H]]. pose proof Hn as [? _]. rewrite ceil_lt in H by lia. done.
Qed.

(** One size: the blocks from [bl] up to [bh]. *)
Lemma runs_mark_row m a c k x A S :
  MAXSIZE x.2 = m → 0 ≤ k ≤ m → 0 ≤ a ≤ c → c ≤ 2 ^ m →
  let za := meets m a c in let zs := λ k i, (0 <? k) && meets m a c k i in
  rep x.2 (stage A za k 0) (stage S zs k 0) →
  runs (for_range (Z.to_nat ((c + 2 ^ k - 1) / 2 ^ k - a / 2 ^ k)) (a / 2 ^ k) (λ bi,
    when (0 <? k) (set_bit SplitV k bi);; set_bit AllocV k bi)) x (λ _ x', same_all_but_bits x x' ∧
    rep x'.2 (stage A za (k + 1) 0) (stage S zs (k + 1) 0)).
Proof.
  intros Em Hk Ha Hc za zs R. set (bl := a / 2 ^ k). set (bh := (c + 2 ^ k - 1) / 2 ^ k).
  assert (0 ≤ bl) as Hbl by (apply Z.div_pos; lia).
  assert (bl ≤ bh) as Hle by (apply Z.div_le_mono; lia).
  assert (∀ i, bl ≤ i < bh → za k i = true) as Hz.
  { intros i Hi. apply meets_spec. split; [|done]. split; [done|]. split; [lia|].
    destruct Hi as [_ Hi]. unfold bh in Hi. rewrite ceil_lt in Hi by lia.
    apply (Z.mul_lt_mono_pos_r (2 ^ k)); [lia|]. rewrite <- Z.pow_add_r by lia. replace (m - k + k) with m by lia. lia. }
  apply (for_range_nat _ _ bl bh (λ b y, same_all_but_bits x y ∧ rep y.2 (stage A za k b) (stage S zs k b))); [done| |done|..].
  - intros i y Hi [Hy Ry]. pose proof (Hz i Hi) as Hzi. pose proof (proj1 (proj1 (meets_spec _ _ _ _ _) Hzi)) as Hn.
    kapply (runs_mark_one k i y _ _ Ry); [unfold MAXSIZE; rewrite (proj2 (proj2 Hy)); fold (MAXSIZE x.2); by rewrite Em|].
    intros [] z (Kz & Bz & Rz). split; [by eapply sab_trans|]. eapply rep_ext; [..|exact Rz]; intros k' i'.
    + by apply stage_step.
    + destruct (Z.ltb_spec 0 k); [apply stage_step; unfold zs; by rewrite (proj2 (Z.ltb_lt 0 k))|].
      apply stage_skip. unfold zs, upto. destruct (Z.ltb_spec 0 k'); [|done]. intros _.
      destruct (Z.eqb_spec k' k); [lia|done].
  - split; [apply sab_refl|]. eapply rep_ext; [..|exact R]; intros k' i'; apply stage_skip; intros H'; unfold upto.
    all: assert (meets m a c k' i' = true) as [[_ ?] ?]%meets_spec by (first [exact H'|by apply andb_true_iff in H' as [_ ?]]).
    all: destruct (Z.eqb_spec k' k) as [->|]; [|done]; unfold bl;
      rewrite (proj2 (Z.ltb_ge i' (a / 2 ^ k))), (proj2 (Z.ltb_ge i' 0)) by lia; done.
  - intros y [Hy Ry]. split; [done|]. eapply rep_ext; [..|exact Ry]; intros k' i'; apply stage_skip; intros H'; unfold upto.
    all: assert (meets m a c k' i' = true) as [[_ ?] ?]%meets_spec by (first [exact H'|by apply andb_true_iff in H' as [_ ?]]).
    all: destruct (Z.ltb_spec k' (k + 1)), (Z.ltb_spec k' k), (Z.eqb_spec k' (k + 1)), (Z.eqb_spec k' k); try lia; cbn; try done.
    all: subst k'; unfold bh; rewrite ?(proj2 (Z.ltb_lt i' ((c + 2 ^ k - 1) / 2 ^ k))), ?(proj2 (Z.ltb_ge i' 0)) by lia; done.
Qed.

Lemma runs_bd_mark a c x A S :
  rep x.2 A S → bd_base x.2 mod 16 = 0 → 0 ≤ a ≤ c → a < 2 ^ 27 → c ≤ 2 ^ MAXSIZE x.2 →
  runs (bd_mark (bd_base x.2 + 16 * a) (bd_base x.2 + 16 * c)) x (λ _ x', same_all_but_bits x x' ∧
    rep x'.2 (mark (MAXSIZE x.2) a c A) (marks (MAXSIZE x.2) a c S)).
Proof.
  intros R Hb Ha Ha' Hc. set (m := MAXSIZE x.2) in *. pose proof (sh_sizes _ (proj1 R)) as Hns.
  assert (nsizes x.2 = m + 1) as En by (unfold m, MAXSIZE; lia).
  assert (2 ^ m ≤ 2 ^ 27) by (apply Z.pow_le_mono_r; lia).
  unfold bd_mark, LEAF_SIZE, bget_. rewrite !(Z.mul_comm 16), !Z.mod_add, Hb by lia. cbn [negb orb].
  kif. change (0 =? 0) with true. kif. kstep. kstep.
  apply (for_range_nat _ _ 0 (nsizes x.2) (λ k y, same_all_but_bits x y ∧
    rep y.2 (stage A (meets m a c) k 0) (stage S (λ k i, (0 <? k) && meets m a c k i) k 0))); [f_equal; lia| |lia|..].
  - intros k y Hk [Hy Ry]. pose proof Hy as (_ & Ey & Ny). assert (bd_base y.2 = bd_base x.2) as Eb by (rewrite Ey; done).
    kstep. kstep. kstep. kstep. rewrite !(Z.mul_comm _ 16), <- Eb, blk_index_leafs, blk_index_next_leafs by lia.
    kapply (runs_mark_row m a c k y A S); [unfold MAXSIZE; rewrite Ny; lia|lia|done|done|done|].
    intros [] z [Hz Rz]. split; [by eapply sab_trans|done].
  - split; [apply sab_refl|]. eapply rep_ext; [..|exact R]; intros k' i'; unfold stage, upto;
      (destruct (meets m a c k' i') eqn:E; rewrite ?andb_false_r; cbn; rewrite ?orb_false_r; [|done]).
    all: apply meets_spec in E as [[[? _] [? _]] _]; rewrite (proj2 (Z.ltb_ge k' 0)), (proj2 (Z.ltb_ge i' 0)) by lia;
      rewrite ?andb_false_r; cbn; by rewrite ?andb_false_r, orb_false_r.
  - intros y [Hy Ry]. split; [done|]. eapply rep_ext; [..|exact Ry]; intros k' i'; unfold mark, marks, stage, upto;
      (destruct (meets m a c k' i') eqn:E; rewrite ?andb_false_r; cbn; rewrite ?orb_false_r; [|done]).
    all: apply meets_spec in E as [[[_ ?] _] _]; rewrite (proj2 (Z.ltb_lt k' (nsizes x.2))) by lia; cbn;
      by rewrite ?andb_true_r.
Qed.

(** ** Filling the free lists *)

#[local] Arguments lst_push : simpl never.
#[local] Arguments get_bit : simpl never.

(** The vectors stand for [A] and [S], the lists hold [P]. *)
Record filling (x : kern * bd_st) (A S : bits) (P : Z → Z → Prop) : Prop := {
  fl_rep : rep x.2 A S;
  fl_tree : tree (MAXSIZE x.2) A S;
  fl_heads : ∀ k, 0 ≤ k < nsizes x.2 → held A S 0 (2 * k);
  fl_list : listed x.2 P;
  fl_free : ∀ k i, P k i → free (MAXSIZE x.2) A S k i;
}.

(** A pair of buddies of which both or none are allocated. *)
Lemma runs_pair_same k bi x A S P :
  filling x A S P → node (MAXSIZE x.2) k bi → k < MAXSIZE x.2 → A k bi = A k (buddy bi) →
  runs (bd_initfree_pair k bi) x (λ f x', f = 0 ∧ x' = x).
Proof.
  intros [R T Hh HL HP] Hn Hk E. pose proof (node_buddy _ _ _ Hn Hk) as Hnb. pose proof R as (Hs & HA & _).
  unfold bd_initfree_pair, bget_. cbv zeta. change (buddy_of bi) with (buddy bi).
  kcall (runs_get_bit AllocV k bi x Hs Hn); [done|]. intros b1 y [-> ->].
  kcall (runs_get_bit AllocV k (buddy bi) x Hs Hnb); [done|]. intros b2 y [-> ->].
  rewrite !HA, E. rewrite eqb_reflx. kgo. done.
Qed.

(** A pair of which one, block [j], is not. *)
Lemma runs_pair_push k bi j x A S P :
  filling x A S P → node (MAXSIZE x.2) k bi → k < MAXSIZE x.2 →
  A k (buddy bi) = negb (A k bi) → j = (if A k bi then buddy bi else bi) →
  free (MAXSIZE x.2) A S k j → ¬ P k j →
  runs (bd_initfree_pair k bi) x (λ f x', f = BLK_SIZE k ∧ frame (λ _, False) x x' ∧
    filling x' A S (λ k' i', P k' i' ∨ k' = k ∧ i' = j)).
Proof.
  intros [R T Hh HL HP] Hn Hk E Ej Hf Hni. pose proof (node_buddy _ _ _ Hn Hk) as Hnb. pose proof R as (Hs & HA & _).
  pose proof Hf as (Hnj & _). pose proof Hn as [Hk0 _]. pose proof (sh_sizes _ Hs) as Hns.
  unfold bd_initfree_pair, bget_. cbv zeta. change (buddy_of bi) with (buddy bi).
  kcall (runs_get_bit AllocV k bi x Hs Hn); [done|]. intros b1 y [-> ->].
  kcall (runs_get_bit AllocV k (buddy bi) x Hs Hnb); [done|]. intros b2 y [-> ->].
  rewrite !HA, E, eqb_negb2. kstep. kstep. kstep. kstep. rewrite <- Ej, addr_blk by done. kstep.
  kapply (runs_lst_push k j x P); [unfold MAXSIZE in *; lia|done|..].
  - intros k' i' _ Hp Eb. destruct (whole_blk_inj x.2 A S T k' i' k j) as [-> ->]; [right; by apply HP|by right|done..].
  - intros k' Hk'. by apply (free_not_head x.2 A S T).
  - intros [] z (K & (nx & pv & L) & D & HL'). kgo.
    assert (0 ≤ 2 ^ k ≤ 2 ^ 26) by (split; [lia|apply Z.pow_le_mono_r; unfold MAXSIZE in *; lia]).
    rewrite i32_small by (rewrite BLK_SIZE_pow by lia; lia).
    assert (frame (λ _, False) x z) as F by by apply (frame_links _ _ _ nx pv).
    split_and!; [done..|]. destruct (frame_geom _ _ _ F) as (G1 & _). pose proof (fr_size _ _ _ F) as G0.
    split; rewrite ?G1, ?G0; [rewrite L; by apply rep_links|done..|]. intros k' i' [?|[-> ->]]; [by apply HP|done].
Qed.

Lemma buddy_cases i : 0 ≤ i → i mod 2 = 0 ∧ buddy i = i + 1 ∨ i mod 2 = 1 ∧ buddy i = i - 1.
Proof. intros Hi. unfold buddy. rewrite Z.rem_mod_nonneg by lia. destruct (Z.eqb_spec (i mod 2) 0); [left|right]; dlia. Qed.

(** Comparisons of numbers whose order is known. *)
Ltac zdec :=
  repeat match goal with
  | |- context [?a <? ?b] => destruct (Z.ltb_spec a b)
  | |- context [?a <=? ?b] => destruct (Z.leb_spec a b)
  end; first [done|exfalso; lia].

(** ** The gap *)

Section zone.
Context (m mu ep : Z).
Context (Hm : 1 ≤ m ≤ 27) (Hmu : 0 < mu) (Hgap : 4 * mu ≤ 2 ^ (m - 1)) (Hep : 2 ^ (m - 1) ≤ ep < 2 ^ m).
Implicit Types (k i : Z).

(** The first block of size [k] after the data, and the one in which memory ends. *)
Definition zleft k : Z := (mu + 2 ^ k - 1) / 2 ^ k.
Definition zright k : Z := ep / 2 ^ k.

Definition zalloc : bits := λ k i, is_node m k i && ((i <? zleft k) || (zright k <=? i)).
Definition zsplit : bits := λ k i, (0 <? k) && zalloc k i.

Lemma zalloc_spec k i : zalloc k i = true ↔ node m k i ∧ (i < zleft k ∨ zright k ≤ i).
Proof. unfold zalloc. rewrite andb_true_iff, is_node_spec, orb_true_iff, Z.ltb_lt, Z.leb_le. done. Qed.
Lemma zsplit_spec k i : zsplit k i = true ↔ 0 < k ∧ zalloc k i = true.
Proof. unfold zsplit. by rewrite andb_true_iff, Z.ltb_lt. Qed.

Lemma zleft_succ k : 0 ≤ k → zleft (k + 1) = (zleft k + 1) / 2.
Proof.
  intros Hk. unfold zleft. rewrite Z.pow_add_r, Z.pow_1_r by lia. set (b := 2 ^ k). assert (0 < b) by lia.
  rewrite <- (Z.div_add (mu + b - 1) 1 b), Z.div_div by lia. f_equal. lia.
Qed.

Lemma zright_succ k : 0 ≤ k → zright (k + 1) = zright k / 2.
Proof. intros Hk. unfold zright. rewrite Z.pow_add_r, Z.pow_1_r, Z.div_div by lia. done. Qed.

Lemma zleft_bounds k : 0 ≤ k → mu ≤ zleft k * 2 ^ k < mu + 2 ^ k.
Proof. intros Hk. unfold zleft. set (b := 2 ^ k). assert (0 < b) by lia. dlia. Qed.
Lemma zright_bounds k : 0 ≤ k → zright k * 2 ^ k ≤ ep < zright k * 2 ^ k + 2 ^ k.
Proof. intros Hk. unfold zright. set (b := 2 ^ k). assert (0 < b) by lia. dlia. Qed.

(** Below the largest size the gap is inside the heap, ... *)
Lemma zone_order k : 0 ≤ k < m → 1 ≤ zleft k ≤ zright k ∧ zright k < 2 ^ (m - k).
Proof.
  intros Hk. pose proof (zleft_bounds k ltac:(lia)). pose proof (zright_bounds k ltac:(lia)).
  set (b := 2 ^ k) in *. assert (0 < b) by lia. set (c := 2 ^ (m - 1 - k)). assert (0 < c) by lia.
  assert (2 ^ (m - 1) = c * b) as E1 by (unfold c, b; rewrite <- Z.pow_add_r by lia; f_equal; lia).
  assert (2 ^ m = 2 * (c * b)) as E2 by (rewrite <- E1, <- Z.pow_succ_r by lia; f_equal; lia).
  assert (2 ^ (m - k) = 2 * c) as -> by (unfold c; rewrite <- Z.pow_succ_r by lia; f_equal; lia).
  assert (zleft k ≤ c) by nia. assert (c ≤ zright k) by nia. split_and!; nia.
Qed.

(** ... and it is never one block in the left half of a pair. *)
Lemma zone_odd k : 0 ≤ k < m → zright k = zleft k + 1 → zleft k mod 2 = 1.
Proof.
  intros Hk E. pose proof (zleft_bounds k ltac:(lia)). pose proof (zright_bounds k ltac:(lia)).
  destruct (zone_order k Hk) as [? _]. set (b := 2 ^ k) in *. assert (0 < b) by lia.
  destruct (decide (zleft k mod 2 = 1)) as [|Hne]; [done|]. exfalso.
  assert (2 ≤ zleft k) by dlia. assert (b < mu) by nia. nia.
Qed.

Lemma zleft_max : zleft m = 1.
Proof.
  assert (2 ^ m = 2 * 2 ^ (m - 1)) by (rewrite <- Z.pow_succ_r by lia; f_equal; lia).
  pose proof (zleft_bounds m ltac:(lia)). nia.
Qed.

Lemma zone_tree : tree m zalloc zsplit.
Proof.
  split.
  - intros k i H. by apply zalloc_spec in H as [? _].
  - done.
  - intros k i H. by apply zsplit_spec in H as [_ ?].
  - intros k i H Hk. apply zalloc_spec in H as [Hn H]. pose proof (node_parent _ _ _ Hn Hk) as Hp. destruct Hn as [Hk' Hi].
    apply zsplit_spec. split; [lia|]. apply zalloc_spec. split; [done|].
    rewrite zleft_succ, zright_succ by lia. dlia.
  - intros k i H. apply zsplit_spec in H as [Hk H]. apply zalloc_spec in H as [[Hk' Hi] H].
    assert (2 ^ (m - (k - 1)) = 2 * 2 ^ (m - k)) as E by (rewrite <- Z.pow_succ_r by lia; f_equal; lia).
    replace k with (k - 1 + 1) in H by lia. rewrite zleft_succ, zright_succ in H by lia.
    rewrite !zalloc_spec. unfold node. rewrite E. destruct H; [left|right]; (split; [split; [lia|]|]); dlia.
Qed.

(** The blocks to be put on the list of size [k]. *)
Lemma zone_free k i :
  0 ≤ k < m → free m zalloc zsplit k i ↔
    zleft k < zright k ∧ (i = zleft k ∧ i mod 2 = 1 ∨ i = zright k - 1 ∧ zright k mod 2 = 1).
Proof.
  intros Hk. pose proof (zone_order k Hk) as [H1 H2]. pose proof (zone_odd k Hk) as Hodd.
  assert (2 ^ (m - k) = 2 * 2 ^ (m - (k + 1))) as E by (rewrite <- Z.pow_succ_r by lia; f_equal; lia).
  unfold free. rewrite <- not_true_iff_false, zalloc_spec, zsplit_spec, zalloc_spec, zleft_succ, zright_succ by lia.
  unfold node. split.
  - intros ([_ Hi] & Hna & [->|(_ & _ & Hp)]); [lia|]. split; [dlia|]. dlia.
  - intros [Hlt Hi]. split; [split; [lia|]; destruct Hi as [[? ?]|[? ?]]; lia|].
    split; [intros [_ Hb]; destruct Hi as [[? ?]|[? ?]]; lia|]. right. split; [lia|].
    destruct Hi as [[? ?]|[? ?]]; (split; [split; [lia|]; dlia|]); dlia.
Qed.

(** What is held: the data and what is beyond the end. *)
Lemma zone_held k i : held zalloc zsplit k i ↔ k = 0 ∧ 0 ≤ i < 2 ^ m ∧ (i < mu ∨ ep ≤ i).
Proof.
  unfold held. rewrite zalloc_spec. unfold zsplit. split.
  - intros [[[Hk Hi] H] Hs]. assert (zalloc k i = true) as E by (apply zalloc_spec; split; [by split|done]).
    rewrite E, andb_true_r in Hs. zify_bool. assert (k = 0) as -> by lia. rewrite Z.sub_0_r in Hi.
    unfold zleft, zright in H. rewrite Z.pow_0_r, !Z.div_1_r in H. split_and!; [done|lia|lia|lia].
  - intros (-> & Hi & H). unfold node, zleft, zright. rewrite Z.sub_0_r, Z.pow_0_r, !Z.div_1_r.
    split; [|done]. split; [|lia]. split; lia.
Qed.

(** What is left to be put on lists when the sizes below [k] are done, in leaves. *)
Definition rest (k : Z) : Z := if k <? m then (zright k - zleft k) * 2 ^ k else 0.

Lemma zalloc_in k i : node m k i → zalloc k i = (i <? zleft k) || (zright k <=? i).
Proof. intros Hn. unfold zalloc. by rewrite (proj2 (is_node_spec m k i) Hn). Qed.

Lemma rest_step k :
  0 ≤ k < m → rest k = rest (k + 1) +
    (if zleft k <? zright k then (zleft k mod 2 + zright k mod 2) * 2 ^ k else 0).
Proof.
  intros Hk. pose proof (zone_order k Hk) as [H1 H2].
  unfold rest. rewrite (proj2 (Z.ltb_lt k m)) by lia.
  destruct (Z.ltb_spec (k + 1) m) as [Hlt|Hge].
  - destruct (zone_order (k + 1) ltac:(lia)) as [H3 _].
    rewrite zleft_succ, zright_succ in * by lia. rewrite Z.pow_add_r, Z.pow_1_r by lia.
    set (b := 2 ^ k). set (l := zleft k) in *. set (r := zright k) in *.
    assert (l < r ∨ l = r) as [Hlr| ->] by lia.
    + rewrite (proj2 (Z.ltb_lt l r)) by lia. assert (r - l = 2 * (r / 2 - (l + 1) / 2) + (l mod 2 + r mod 2)) as -> by dlia. lia.
    + rewrite Z.ltb_irrefl. assert (r / 2 - (r + 1) / 2 = 0) as -> by dlia. lia.
  - assert (k = m - 1) as -> by lia. replace (m - (m - 1)) with 1 in H2 by lia. change (2 ^ 1) with 2 in H2.
    assert (zleft (m - 1) = zright (m - 1)) as -> by lia. rewrite Z.ltb_irrefl. lia.
Qed.

(** The two ends of the gap at one size. *)
Lemma runs_level_left k x P :
  filling x zalloc zsplit P → MAXSIZE x.2 = m → 0 ≤ k < m → (∀ i, ¬ P k i) →
  let b := (zleft k <? zright k) && (zleft k mod 2 =? 1) in
  runs (bd_initfree_pair k (zleft k)) x (λ f x', f = (if b then BLK_SIZE k else 0) ∧ frame (λ _, False) x x' ∧
    filling x' zalloc zsplit (λ k' i', P k' i' ∨ b = true ∧ k' = k ∧ i' = zleft k)).
Proof.
  intros F Em Hk HP b. destruct (zone_order k Hk) as [H1 H2]. pose proof (zone_odd k Hk) as Hodd.
  assert (node m k (zleft k)) as Hn by (split; lia).
  pose proof (zalloc_in _ _ Hn) as EA. pose proof (zalloc_in _ _ (node_buddy _ _ _ Hn ltac:(lia))) as EB.
  destruct (buddy_cases (zleft k) ltac:(lia)) as [[Ho Eb]|[Ho Eb]]; rewrite Eb in EB.
  all: unfold b; destruct (Z.ltb_spec (zleft k) (zright k)) as [Hlt|Hge]; rewrite Ho; cbn [Z.eqb Pos.eqb andb].
  3:{ kapply (runs_pair_push k (zleft k) (zleft k) x _ _ P F); rewrite ?Em; try done; try lia; [..|].
      - rewrite Eb, EA, EB. zdec.
      - rewrite EA. zdec.
      - apply zone_free; [done|]. split; [done|]. by left.
      - intros f y (-> & Fy & Hy). split_and!; [done..|]. destruct Hy as [? ? ? L ?]. split; try done.
        + eapply listed_ext; [|exact L]. naive_solver.
        + naive_solver. }
  all: kapply (runs_pair_same k (zleft k) x _ _ P F); rewrite ?Em; [done|lia|rewrite Eb, EA, EB; zdec|].
  all: intros f y [-> ->]; split_and!; [done|apply frame_refl|]; destruct F as [? ? ? L ?]; split; try done;
    [eapply listed_ext; [|exact L]; naive_solver|naive_solver].
Qed.

Lemma runs_level_right k x P :
  filling x zalloc zsplit P → MAXSIZE x.2 = m → 0 ≤ k < m → zleft k < zright k → (zright k mod 2 = 1 → ¬ P k (zright k - 1)) →
  let b := zright k mod 2 =? 1 in
  runs (bd_initfree_pair k (zright k)) x (λ f x', f = (if b then BLK_SIZE k else 0) ∧ frame (λ _, False) x x' ∧
    filling x' zalloc zsplit (λ k' i', P k' i' ∨ b = true ∧ k' = k ∧ i' = zright k - 1)).
Proof.
  intros F Em Hk Hlt HP b. destruct (zone_order k Hk) as [H1 H2].
  assert (node m k (zright k)) as Hn by (split; lia).
  pose proof (zalloc_in _ _ Hn) as EA. pose proof (zalloc_in _ _ (node_buddy _ _ _ Hn ltac:(lia))) as EB.
  destruct (buddy_cases (zright k) ltac:(lia)) as [[Ho Eb]|[Ho Eb]]; rewrite Eb in EB; unfold b; rewrite Ho;
    cbn [Z.eqb Pos.eqb].
  - kapply (runs_pair_same k (zright k) x _ _ P F); rewrite ?Em; [done|lia|rewrite Eb, EA, EB; zdec|].
    intros f y [-> ->]. split_and!; [done|apply frame_refl|]. destruct F as [? ? ? L ?]. split; try done;
      [eapply listed_ext; [|exact L]; naive_solver|naive_solver].
  - kapply (runs_pair_push k (zright k) (zright k - 1) x _ _ P F); rewrite ?Em; try done; try lia; try (by apply HP); [..|].
    + rewrite Eb, EA, EB. zdec.
    + rewrite EA, Eb. zdec.
    + apply zone_free; [done|]. split; [done|]. by right.
    + intros f y (-> & Fy & Hy). split_and!; [done..|]. destruct Hy as [? ? ? L ?]. split; try done.
      * eapply listed_ext; [|exact L]. naive_solver.
      * naive_solver.
Qed.

(** The blocks free at the sizes below [k]. *)
Definition below (k k' i' : Z) : Prop := free m zalloc zsplit k' i' ∧ k' < k.

Lemma below_succ k k' i' :
  0 ≤ k < m → below (k + 1) k' i' ↔
    (below k k' i' ∨ (zleft k <? zright k) && (zleft k mod 2 =? 1) = true ∧ k' = k ∧ i' = zleft k) ∨
    (zleft k < zright k ∧ (zright k mod 2 =? 1) = true ∧ k' = k ∧ i' = zright k - 1).
Proof.
  intros Hk. unfold below. rewrite andb_true_iff, Z.ltb_lt, !Z.eqb_eq. split.
  - intros [Hf Hk']. destruct (decide (k' = k)) as [->|]; [|left; left; split; [done|lia]].
    apply zone_free in Hf as [? [[-> ?]|[-> ?]]]; [left; right|right|done]; done.
  - intros [[[Hf ?]|([? ?] & -> & ->)]|(? & ? & -> & ->)]; (split; [|lia]); [done| |]; apply zone_free; auto.
Qed.

Lemma filling_ext x A S P P' : (∀ k i, P k i ↔ P' k i) → filling x A S P → filling x A S P'.
Proof. intros HP [? ? ? L ?]. split; try done; [eapply listed_ext; [|exact L]; auto|naive_solver]. Qed.

Lemma rest_bound k : 0 ≤ k ≤ m → 0 ≤ rest k ≤ ep - mu.
Proof.
  intros Hk. unfold rest. destruct (Z.ltb_spec k m); [|assert (2 ^ (m - 1) < 2 ^ m) by (apply Z.pow_lt_mono_r; lia); lia].
  destruct (zone_order k ltac:(lia)) as [? _].
  pose proof (zleft_bounds k ltac:(lia)). pose proof (zright_bounds k ltac:(lia)). nia.
Qed.

Lemma runs_bd_initfree x :
  filling x zalloc zsplit (λ _ _, False) → MAXSIZE x.2 = m →
  runs (bd_initfree (bd_base x.2 + 16 * mu) (bd_base x.2 + 16 * ep)) x (λ f x', f = 16 * (ep - mu) ∧
    frame (λ _, False) x x' ∧ filling x' zalloc zsplit (free m zalloc zsplit)).
Proof.
  intros F Em. unfold bd_initfree, bget_. kstep. kstep. rewrite Em.
  assert (2 ^ m ≤ 2 ^ 27) by (apply Z.pow_le_mono_r; lia).
  apply (runs_loop _ (λ '(k, f) y, 0 ≤ k ≤ m ∧ f = 16 * (ep - mu - rest k) ∧ frame (λ _, False) x y ∧
      filling y zalloc zsplit (below k)) (λ '(k, _) _, Z.to_nat (m - k))); [| |lia].
  2:{ split_and!; [lia..| |apply frame_refl|].
      - unfold rest. rewrite (proj2 (Z.ltb_lt 0 m)) by lia. unfold zleft, zright. rewrite Z.pow_0_r, !Z.div_1_r. lia.
      - eapply filling_ext; [|exact F]. intros k i. split; [done|]. intros [([? _] & _) ?]. lia. }
  intros [k f] y (Hk & -> & Fy & Hy). destruct (frame_geom _ _ _ Fy) as (Ey & _).
  kstep; intros Hb; zify_bool.
  2:{ assert (k = m) as -> by lia. kgo. unfold rest. rewrite Z.ltb_irrefl. split_and!; [lia|done|].
      eapply filling_ext; [|exact Hy]. intros k' i'. unfold below. split; [by intros [? _]|]. intros Hf. split; [done|].
      destruct (decide (k' = m)) as [->|]; [|destruct Hf as ([? _] & _); lia]. exfalso.
      destruct Hf as ([_ Hi] & HA & _). rewrite Z.sub_diag in Hi. assert (i' = 0) as -> by lia.
      apply not_true_iff_false in HA. apply HA, zalloc_spec. split; [split; [lia|]|left; rewrite zleft_max; lia].
      rewrite Z.sub_diag. done. }
  assert (0 ≤ k < m) as Hk' by lia. destruct (zone_order k Hk') as [H1 H2].
  pose proof (rest_step k Hk') as Hr. pose proof (rest_bound (k + 1) ltac:(lia)) as Hr1. pose proof (rest_bound k Hk) as Hr0.
  kstep. kstep. kstep. kstep. rewrite <- (fr_base _ _ _ Fy), blk_index_leafs, blk_index_next_leafs by lia.
  fold (zleft k) (zright k).
  kcall (runs_level_left k y (below k) Hy ltac:(lia) Hk'); [by intros i [_ ?]; lia|].
  intros f1 y1 (-> & F1 & Hy1). pose proof (frame_trans _ _ _ _ Fy F1) as Fx1.
  destruct (frame_geom _ _ _ Fx1) as (E1 & _).
  rewrite BLK_SIZE_pow in * by lia. set (b := 2 ^ k) in *. assert (0 < b) by lia.
  cbv zeta. kstep; intros Hlr; zify_bool.
  { kgo. rewrite (proj2 (Z.ltb_ge (zleft k) (zright k))) in * by lia. cbn [andb].
    rewrite i32_small by lia. split; [|lia]. split_and!; [lia..|done|].
    eapply filling_ext; [|exact Hy1]. intros k' i'. rewrite below_succ by done.
    rewrite (proj2 (Z.ltb_ge (zleft k) (zright k))) by lia. cbn [andb]. intuition lia. }
  kcall (runs_level_right k y1 _ Hy1 ltac:(lia) Hk' Hlr).
  { intros Ho [[_ ?]|(E & _ & E')]; [lia|]. apply andb_true_iff in E as [_ E]. apply Z.eqb_eq in E. dlia. }
  intros f2 y2 (-> & F2 & Hy2). kgo. rewrite BLK_SIZE_pow by lia. fold b.
  rewrite (proj2 (Z.ltb_lt (zleft k) (zright k))) in * by lia. cbn [andb] in *.
  assert (∀ z, (if z mod 2 =? 1 then b * 16 else 0) = 16 * ((z mod 2) * b)) as Eo.
  { intros z. destruct (Z.eqb_spec (z mod 2) 1) as [->|]; [lia|]. assert (z mod 2 = 0) as -> by dlia. lia. }
  rewrite !Eo. pose proof (Z.mod_pos_bound (zleft k) 2). pose proof (Z.mod_pos_bound (zright k) 2).
  assert (0 ≤ zleft k mod 2 * b) by nia. assert (0 ≤ zright k mod 2 * b) by nia.
  rewrite !i32_small by (rewrite ?i32_small by lia; lia). split; [|lia]. split_and!; [lia..| |].
  - by eapply frame_trans.
  - eapply filling_ext; [|exact Hy2]. intros k' i'. rewrite below_succ by done.
    rewrite (proj2 (Z.ltb_lt (zleft k) (zright k))) by lia. cbn [andb]. tauto.
Qed.
End zone.

(** * The buddy allocator after bd_init

    [bd_init] on a range of memory that is not a power of two long leaves the
    allocator in a state that satisfies its invariant, with its own data and what lies
    beyond the range in use and everything else free. *)

(** ** The number of sizes *)

Lemma runs_log2 n x : 0 < n < 2 ^ 64 → runs (log2 n) x (λ k x', x' = x ∧ k = Z.log2 n).
Proof.
  intros Hn. unfold log2.
  apply (runs_loop _ (λ '(k, v) x', x' = x ∧ 0 < v ∧ k + Z.log2 v = Z.log2 n) (λ '(_, v) _, Z.to_nat (Z.log2 v))).
  - intros [k v] x' (-> & Hv & E). kstep; intros Hb; zify_bool; kgo.
    + assert (0 < Z.shiftr v 1) by (rewrite Z.shiftr_div_pow2 by lia; dlia).
      assert (Z.log2 (Z.shiftr v 1) = Z.log2 v - 1) as Es by (rewrite Z.log2_shiftr by lia; pose proof (Z.log2_pos v); lia).
      pose proof (Z.log2_pos v). split; [split_and!; [done..|lia]|lia].
    + assert (v = 1) as -> by lia. split; [done|]. cbn in E. lia.
  - split_and!; [done|lia|lia].
  - assert (Z.log2 n < 64) by (apply Z.log2_lt_pow2; lia). lia.
Qed.

(** ** The empty vectors and lists *)

Definition vecs (n : Z) : list sz_info :=
  (λ k, SzInfo (replicate (Z.to_nat (vec_len n k)) 0)
    (if k =? 0 then [] else replicate (Z.to_nat (vec_len n k)) 0)) <$> seqZ 0 n.

Lemma alen_vecs n : 0 ≤ n → alen (vecs n) = n.
Proof. intros Hn. unfold alen, vecs. rewrite length_fmap, length_seqZ. lia. Qed.

Lemma aget_vecs n k : 0 ≤ k < n →
  aget (vecs n) k = SzInfo (replicate (Z.to_nat (vec_len n k)) 0)
    (if k =? 0 then [] else replicate (Z.to_nat (vec_len n k)) 0).
Proof.
  intros Hk. apply aget_lookup. unfold vecs. rewrite list_lookup_fmap, lookup_seqZ_lt by lia. cbn.
  rewrite Z.add_0_l, Z2Nat.id by lia. done.
Qed.

Lemma bit_isset_zero c i : 0 ≤ i < 8 * c → bit_isset (replicate (Z.to_nat c) 0) i = false.
Proof.
  intros Hi. rewrite bit_isset_testbit. rewrite (aget_lookup _ _ 0); [apply Z.bits_0|].
  apply lookup_replicate. split; [done|]. dlia.
Qed.

Lemma vec_len_enough n k : 0 ≤ k < n → 2 ^ (n - 1 - k) ≤ 8 * vec_len n k ∧ 0 ≤ vec_len n k.
Proof.
  intros Hk. unfold vec_len, ROUNDUP. rewrite Z.shiftl_1_l. assert (0 < 2 ^ (n - 1 - k)) by lia.
  rewrite Z.quot_div_nonneg, Z.div_mul by lia. dlia.
Qed.

Lemma rep_vecs s n :
  bd_sizes s = vecs n → 1 ≤ n ≤ 28 → 0 < bd_base s → rep s (λ _ _, false) (λ _ _, false).
Proof.
  intros E Hn Hb. assert (nsizes s = n) as En by (unfold nsizes; rewrite E; apply alen_vecs; lia).
  assert (MAXSIZE s = n - 1) as Em by (unfold MAXSIZE; lia).
  split_and!.
  - split; [lia|done|]. rewrite En, Em, E. intros v k Hk Hv. rewrite aget_vecs by done.
    destruct (vec_len_enough n k Hk) as [H1 H2]. unfold alen.
    destruct v; cbn; [rewrite length_replicate; lia|]. rewrite (proj2 (Z.eqb_neq k 0)) by (specialize (Hv eq_refl); lia).
    rewrite length_replicate. lia.
  - intros k i. unfold tbit. destruct (vnode s _ k i) eqn:E'; [|done]. apply vnode_node in E' as [[Hk Hi] _].
    rewrite E, aget_vecs by lia. destruct (vec_len_enough n k ltac:(lia)). rewrite Em in Hi. apply bit_isset_zero. lia.
  - intros k i. unfold tbit. destruct (vnode s _ k i) eqn:E'; [|done]. apply vnode_node in E' as [[Hk Hi] H1].
    specialize (H1 eq_refl). rewrite E, aget_vecs by lia. cbn. rewrite (proj2 (Z.eqb_neq k 0)) by lia.
    destruct (vec_len_enough n k ltac:(lia)). rewrite Em in Hi. apply bit_isset_zero. lia.
Qed.

Lemma runs_lst_inits b n x :
  bd_base x.2 = b → nsizes x.2 = n → 0 ≤ n →
  runs (for_range (Z.to_nat n) 0 (λ k, lst_init (b + 32 * k))) x (λ _ x', x'.1 = x.1 ∧
    (∃ nx pv, x'.2 = set_bdlinks nx pv x.2) ∧ listed x'.2 (λ _ _, False)).
Proof.
  intros Hb Hn Hn0.
  apply (for_range_nat _ _ 0 n (λ k y, y.1 = x.1 ∧ ∃ nx pv, y.2 = set_bdlinks nx pv x.2 ∧
    ∀ j, 0 ≤ j < k → nx (b + 32 * j) = b + 32 * j ∧ pv (b + 32 * j) = b + 32 * j)); [f_equal; lia| |done|..].
  - intros k [ky sy] Hk (E1 & nx & pv & E2 & H). cbn in E1, E2. subst. unfold lst_init, bmod. kgo. split; [done|].
    eexists _, _. split; [done|]. intros j Hj. destruct (decide (j = k)) as [->|]; [by rewrite !fset_eq|].
    rewrite !fset_ne by lia. apply H. lia.
  - split; [done|]. exists (bd_next x.2), (bd_prev x.2). destruct x as [? []]. split; [done|]. intros; lia.
  - intros y (E1 & nx & pv & E2 & H). split; [done|]. split; [by exists nx, pv|].
    exists (λ _, []). rewrite E2. unfold lists, free_head, nsizes. cbn. fold (nsizes x.2). rewrite Hb, Hn. split.
    + split; [intros k Hk; apply dl_nil; by apply H|]. intros k k' y' Hk Hk' Hne Hy.
      rewrite list_elem_of_singleton in *. lia.
    + intros k y' Hk. split; [by intros ?%elem_of_nil|]. by intros (i & _ & []).
Qed.

(** ** bd_init *)

(** The data of the allocator, in leaves, when there are [n] sizes. *)
Definition bd_meta (n : Z) : Z :=
  (32 * n + foldr Z.add 0 (vec_len n <$> seqZ 0 n) + foldr Z.add 0 (vec_len n <$> seqZ 1 (n - 1)) + 15) / 16.

Lemma bd_meta_bounds l : 7 ≤ l ≤ 26 → 2 * (l + 2) ≤ bd_meta (l + 2) ∧ 4 * bd_meta (l + 2) ≤ 2 ^ l.
Proof.
  intros Hl. assert (Forall (λ l, 2 * (l + 2) ≤ bd_meta (l + 2) ∧ 4 * bd_meta (l + 2) ≤ 2 ^ l) (seqZ 7 20)) as H.
  { apply (bool_decide_unpack _). vm_compute. done. }
  rewrite Forall_forall in H. apply H. apply elem_of_seqZ. lia.
Qed.

Lemma ROUNDUP64_leafs p q : 0 < p → p mod 16 = 0 → 0 ≤ q → p + q + 16 < 2 ^ 64 →
  ROUNDUP64 (p + q) 16 = p + 16 * ((q + 15) / 16).
Proof.
  intros Hp Hm Hq Hlt. unfold ROUNDUP64. rewrite (u64_small (p + q - 1)) by lia.
  assert (((p + q - 1) / 16 + 1) * 16 = p + 16 * ((q + 15) / 16)) as -> by dlia. apply u64_small. dlia.
Qed.

Lemma ROUNDUP64_base b : 0 < b → b + 16 < 2 ^ 64 → b ≤ ROUNDUP64 b 16 < b + 16 ∧ ROUNDUP64 b 16 mod 16 = 0.
Proof. intros Hb Hlt. unfold ROUNDUP64. rewrite (u64_small (b - 1)), u64_small by dlia. dlia. Qed.

Lemma rep_out s A S v : rep (set_bdout v s) A S ↔ rep s A S.
Proof. split; intros ([? ? ?] & ? & ?); (split; [by split|done]). Qed.

Lemma zone_marks m mu ep k i :
  0 ≤ ep → 0 ≤ mu → zalloc m mu ep k i = mark m ep (2 ^ m) (mark m 0 mu (λ _ _, false)) k i.
Proof.
  intros Hep Hmu. unfold mark, zalloc, meets. destruct (is_node m k i) eqn:E; [|done]. cbn.
  apply is_node_spec in E as [Hk Hi]. rewrite Z.div_0_l, (proj2 (Z.leb_le 0 i)) by lia. cbn.
  assert (i * 2 ^ k < 2 ^ m) as Hlt.
  { replace m with (m - k + k) by lia. rewrite Z.pow_add_r by lia. apply Z.mul_lt_mono_pos_r; lia. }
  rewrite (proj2 (Z.ltb_lt _ _) Hlt), andb_true_r. unfold zleft, zright. f_equal.
  pose proof (ceil_lt mu (2 ^ k) i ltac:(lia)). destruct (Z.ltb_spec i ((mu + 2 ^ k - 1) / 2 ^ k)), (Z.ltb_spec (i * 2 ^ k) mu);
    try done; exfalso; intuition lia.
Qed.

Lemma zone_markss m mu ep k i :
  0 ≤ ep → 0 ≤ mu → zsplit m mu ep k i = marks m ep (2 ^ m) (marks m 0 mu (λ _ _, false)) k i.
Proof.
  intros Hep Hmu. unfold zsplit. rewrite zone_marks by done. unfold mark, marks. cbn.
  by destruct (0 <? k).
Qed.

Section boot.
Context (base end_ l : Z).
Let p := ROUNDUP64 base 16.
Context (Hbase : 0 < base < end_) (Hend : end_ < 2 ^ 63) (Hl : 7 ≤ l ≤ 26) (Hlen : 16 * 2 ^ l < end_ - p < 16 * 2 ^ (l + 1)).

Definition boot_held (k i : Z) : Prop :=
  k = 0 ∧ 0 ≤ i < 2 ^ (l + 1) ∧ (i < bd_meta (l + 2) ∨ (end_ - p) / 16 ≤ i).

(** Marking the two ends. *)
Lemma runs_mark_data mu x A S :
  rep x.2 A S → bd_base x.2 = p → MAXSIZE x.2 = l + 1 → p mod 16 = 0 → 0 ≤ mu ≤ 2 ^ (l + 1) → mu < 2 ^ 27 →
  runs (bd_mark_data_structures (p + 16 * mu)) x (λ r x', r = 16 * mu ∧ frame (λ _, False) x x' ∧
    bd_next x'.2 = bd_next x.2 ∧ bd_prev x'.2 = bd_prev x.2 ∧
    rep x'.2 (mark (l + 1) 0 mu A) (marks (l + 1) 0 mu S)).
Proof.
  intros R Hb Hm Hp Hmu Hlt. unfold bd_mark_data_structures, say, bget_, bmod. kstep. kstep. kstep. kstep. kstep. kstep. kstep.
  rewrite Hb. set (y := (x.1, _ : bd_st)). replace p with (bd_base y.2 + 16 * 0) at 1 by (cbn; lia).
  replace (p + 16 * mu) with (bd_base y.2 + 16 * mu) by (cbn; lia).
  kapply (runs_bd_mark 0 mu y A S); [by apply rep_out|cbn; by rewrite Hb|lia|lia|change (MAXSIZE y.2) with (MAXSIZE x.2); rewrite Hm; lia|].
  intros [] z [(K & E & N) Rz]. kgo. rewrite Hb. replace (p + 16 * mu - p) with (16 * mu) by lia.
  split; [apply i32_small; lia|]. pose proof (frame_bits (λ _, False) y z K (conj E N)) as F.
  split; [split; apply F|]. split_and!; [by rewrite E..|].
  change (MAXSIZE y.2) with (MAXSIZE x.2) in Rz. by rewrite Hm in Rz.
Qed.

Lemma runs_mark_unavail q x A S :
  let ep := (end_ - p) / 16 in
  rep x.2 A S → bd_base x.2 = p → MAXSIZE x.2 = l + 1 → p mod 16 = 0 →
  runs (bd_mark_unavailable end_ q) x (λ r x', r = 16 * (2 ^ (l + 1) - ep) ∧ frame (λ _, False) x x' ∧
    bd_next x'.2 = bd_next x.2 ∧ bd_prev x'.2 = bd_prev x.2 ∧
    rep x'.2 (mark (l + 1) ep (2 ^ (l + 1)) A) (marks (l + 1) ep (2 ^ (l + 1)) S)).
Proof.
  intros ep R Hb Hm Hp. assert (2 ^ (l + 1) ≤ 2 ^ 27) by (apply Z.pow_le_mono_r; lia).
  assert (0 ≤ 2 ^ l) by lia. assert (BLK_SIZE (l + 1) = 2 ^ (l + 1) * 16) as EB by (apply BLK_SIZE_pow; lia).
  unfold bd_mark_unavailable, say, bget_, bmod. kstep. kstep. kstep. kstep. rewrite Hb, Hm, EB.
  rewrite (i32_small (2 ^ (l + 1) * 16 - (end_ - p))) by lia.
  rewrite (proj2 (Z.ltb_lt 0 (2 ^ (l + 1) * 16 - (end_ - p)))) by lia. unfold ROUNDUP, LEAF_SIZE.
  rewrite Z.quot_div_nonneg by lia.
  assert (((2 ^ (l + 1) * 16 - (end_ - p) - 1) / 16 + 1) * 16 = 16 * (2 ^ (l + 1) - ep)) as -> by (unfold ep; dlia).
  assert (0 ≤ ep < 2 ^ (l + 1)) as Hep by (unfold ep; dlia).
  rewrite i32_small by (unfold ep; dlia). kstep. kstep. kstep.
  set (y := (x.1, _ : bd_st)). replace (p + 2 ^ (l + 1) * 16 - 16 * (2 ^ (l + 1) - ep)) with (bd_base y.2 + 16 * ep) by (cbn; lia).
  replace (p + 2 ^ (l + 1) * 16) with (bd_base y.2 + 16 * 2 ^ (l + 1)) by (cbn; lia).
  kapply (runs_bd_mark ep (2 ^ (l + 1)) y A S);
    [by apply rep_out|cbn; by rewrite Hb|lia|lia|change (MAXSIZE y.2) with (MAXSIZE x.2); rewrite Hm; lia|].
  intros [] z [(K & E & N) Rz]. kgo. split; [done|]. pose proof (frame_bits (λ _, False) y z K (conj E N)) as F.
  split; [split; apply F|]. split_and!; [by rewrite E..|].
  change (MAXSIZE y.2) with (MAXSIZE x.2) in Rz. by rewrite Hm in Rz.
Qed.

(** The marking and filling of [bd_init], once the vectors and lists are empty. *)
Lemma runs_bd_fill x :
  rep x.2 (λ _ _, false) (λ _ _, false) → listed x.2 (λ _ _, False) → bd_base x.2 = p → nsizes x.2 = l + 2 →
  p mod 16 = 0 →
  runs (meta ← bd_mark_data_structures (p + 16 * bd_meta (l + 2));
    unavailable ← bd_mark_unavailable end_ (p + 16 * bd_meta (l + 2));
    m ← gets (λ x, MAXSIZE x.2);
    let bd_end := p + BLK_SIZE m - unavailable in
    free ← bd_initfree (p + 16 * bd_meta (l + 2)) bd_end;
    if negb (free =? BLK_SIZE m - meta - unavailable) then
      say "free %d %d\n" [free; BLK_SIZE m - meta - unavailable];;
      panic "bd_init: free mem"%string
    else mret tt) x (λ _ x', frame (λ _, False) x x' ∧ ∃ A S, bd_inv x'.2 A S ∧ ∀ k i, held A S k i ↔ boot_held k i).
Proof.
  intros R HL Hb Hn Hp. destruct (bd_meta_bounds l Hl) as [M1 M2]. unfold boot_held. set (mu := bd_meta (l + 2)) in *.
  assert (2 ^ (l + 1) ≤ 2 ^ 27) by (apply Z.pow_le_mono_r; lia).
  assert (2 ^ (l + 1) = 2 * 2 ^ l) as E2 by (rewrite <- Z.pow_succ_r by lia; f_equal; lia).
  assert (MAXSIZE x.2 = l + 1) as Hm by (unfold MAXSIZE; lia).
  kcall (runs_mark_data mu x _ _ R Hb Hm Hp); [lia|lia|]. intros meta y (-> & F1 & X1 & V1 & R1).
  destruct (frame_geom _ _ _ F1) as (G1 & _).
  kcall (runs_mark_unavail (p + 16 * mu) y _ _ R1); [by rewrite (fr_base _ _ _ F1)|lia|done|].
  intros un z (-> & F2 & X2 & V2 & R2). pose proof (frame_trans _ _ _ _ F1 F2) as F. clear F1 F2 G1.
  destruct (frame_geom _ _ _ F) as (G1 & G2 & G3 & _). set (ep := (end_ - p) / 16) in *.
  assert (1 ≤ l + 1 ≤ 27 ∧ 0 < mu ∧ 4 * mu ≤ 2 ^ (l + 1 - 1) ∧ 2 ^ (l + 1 - 1) ≤ ep < 2 ^ (l + 1)) as (Z1 & Z2 & Z3 & Z4).
  { replace (l + 1 - 1) with l by lia. unfold ep. split_and!; [lia..|dlia|dlia]. }
  kstep. kstep. cbv zeta. rewrite G1, Hm, BLK_SIZE_pow by lia.
  replace (p + 2 ^ (l + 1) * 16 - 16 * (2 ^ (l + 1) - ep)) with (bd_base z.2 + 16 * ep) by (rewrite (fr_base _ _ _ F); lia).
  replace (p + 16 * mu) with (bd_base z.2 + 16 * mu) by (rewrite (fr_base _ _ _ F); lia).
  kcall (runs_bd_initfree (l + 1) mu ep Z1 Z2 Z3 Z4 z); [split|lia|].
  - eapply rep_ext; [..|exact R2]; intros; [apply zone_marks|apply zone_markss]; lia.
  - rewrite G1, Hm. apply zone_tree. lia.
  - rewrite (fr_size _ _ _ F), Hn. intros k Hk. apply zone_held; [lia|]. split_and!; [done|lia..|left; lia].
  - destruct HL as (L & HL1 & HL2). exists L. unfold lists, free_head, blk.
    rewrite (fr_size _ _ _ F), (fr_base _ _ _ F), X2, V2, X1, V1. done.
  - done.
  - intros f w (-> & Fw & [R3 T3 H3 L3 _]). rewrite (proj2 (Z.eqb_eq _ _)) by lia. kgo.
    split; [by eapply frame_trans|]. destruct (frame_geom _ _ _ (frame_trans _ _ _ _ F Fw)) as (G4 & _).
    exists (zalloc (l + 1) mu ep), (zsplit (l + 1) mu ep). split.
    + split; [done..| |done]. by rewrite G4, Hm.
    + intros k i. apply zone_held. lia.
Qed.

Lemma log2_len : Z.log2 (u64 ((end_ - p) `quot` 16)) = l.
Proof.
  assert (2 ^ (l + 1) ≤ 2 ^ 27) by (apply Z.pow_le_mono_r; lia).
  assert (2 ^ (l + 1) = 2 * 2 ^ l) by (rewrite <- Z.pow_succ_r by lia; f_equal; lia). assert (0 < 2 ^ l) by lia.
  rewrite Z.quot_div_nonneg by lia. rewrite u64_small by dlia. apply Z.log2_unique; [lia|].
  replace (Z.succ l) with (l + 1) by lia. dlia.
Qed.

(** Where the data end. *)
Lemma meta_end :
  p mod 16 = 0 → 0 < p →
  ROUNDUP64 (p + 32 * (l + 2) + foldr Z.add 0 (vec_len (l + 2) <$> seqZ 0 (l + 2)) +
    foldr Z.add 0 (vec_len (l + 2) <$> seqZ 1 (l + 2 - 1))) 16 = p + 16 * bd_meta (l + 2).
Proof.
  intros Hm Hp. assert (∀ js, Forall (λ k, 0 ≤ k < l + 2) js → 0 ≤ foldr Z.add 0 (vec_len (l + 2) <$> js)) as Hs.
  { intros js Hj. induction Hj as [|k js Hk _ IH]; cbn; [lia|]. pose proof (vec_len_enough (l + 2) k Hk). lia. }
  pose proof (Hs (seqZ 0 (l + 2)) ltac:(apply Forall_forall; intros k Hk%elem_of_seqZ; lia)).
  pose proof (Hs (seqZ 1 (l + 2 - 1)) ltac:(apply Forall_forall; intros k Hk%elem_of_seqZ; lia)).
  destruct (bd_meta_bounds l Hl) as [_ M]. assert (2 ^ l ≤ 2 ^ 26) by (apply Z.pow_le_mono_r; lia).
  assert (0 < 2 ^ l) by lia. unfold bd_meta in *.
  rewrite <- !Z.add_assoc. rewrite ROUNDUP64_leafs; [do 3 f_equal; lia|done..|lia|]. rewrite <- !Z.add_assoc in M. dlia.
Qed.

(** After [bd_init] the invariant holds, the data and what lies beyond the end are held. *)
Lemma runs_bd_init x :
  runs (bd_init base end_) x (λ _ x', x'.1 = x.1 ∧ locked (bd_lock x'.2) = 0 ∧ bd_base x'.2 = p ∧
    nsizes x'.2 = l + 2 ∧ ∃ A S, bd_inv x'.2 A S ∧ ∀ k i, held A S k i ↔ boot_held k i).
Proof.
  assert (2 ^ (l + 1) ≤ 2 ^ 27) by (apply Z.pow_le_mono_r; lia). assert (0 < 2 ^ l) by lia.
  destruct (ROUNDUP64_base base) as [Hp1 Hp2]; [lia..|]. fold p in Hp1, Hp2.
  destruct (bd_meta_bounds l Hl) as [M1 M2].
  assert (0 < (end_ - p) `quot` 16 < 2 ^ 64) as Hq by (rewrite Z.quot_div_nonneg by lia; dlia).
  unfold bd_init, LEAF_SIZE, say, bget_, bmod. change (ROUNDUP64 base 16) with p. 
  kstep. kstep. kstep. kstep. kstep. kapply runs_log2; [rewrite u64_small; lia|]. intros ? y [-> ->].
  rewrite log2_len, BLK_SIZE_pow, (proj2 (Z.ltb_lt (2 ^ l * 16) (end_ - p))) by lia.
  kstep. kstep. kstep. kstep. fold (vecs (l + 2)). kstep.
  kapply (runs_lst_inits p (l + 2)); [done|by apply alen_vecs; lia|lia|].
  intros [] z (K & (nx & pv & E) & HL). cbn [fst snd] in K, E.
  assert (bd_sizes z.2 = vecs (l + 2) ∧ bd_base z.2 = p ∧ bd_lock z.2 = initlock "buddy") as (E1 & E3 & E4) by by rewrite E.
  clear E. rewrite meta_end by lia.
  eapply runs_mono; [apply (runs_bd_fill z); [apply (rep_vecs _ (l + 2)); [done|lia|lia]|done..| |done]|].
  { unfold nsizes. rewrite E1. apply alen_vecs. lia. }
  intros [] w [[F1 F2 F3 F4 _] Hw]. split_and!; [congruence|by rewrite F2, E4|congruence| |done].
  rewrite F4. unfold nsizes. rewrite E1. apply alen_vecs. lia.
Qed.
End boot.
