(* ===== verification/BuddySpec.v ===== *)
(** * The buddy allocator as its clients see it

    A client asks for memory, writes to what it was given, and gives it back.  The
    contract speaks of addresses only: a request is granted when an aligned range of the
    least sufficient size [16 * 2^k] fits between what is in use, and refused only when none
    does; what a client wrote stays until it gives the range back.  The theorem is
    that [bd_init] followed by any such calls behaves so, and never panics, although
    the allocator keeps its links in the free memory itself. *)

From stdpp Require Import gmap.
From S2P Require Import Prelude Memory Riscv Spinlock Core DList Kalloc Buddy BuddyTree BuddyProof BuddyOps BuddyInit.

(** ** Clients *)

(** What a client has: the pointers it was given, with the sizes it asked for. *)
Abbreviation ptrs := (list (Z * Z)).

(** [Put] writes the two words at an offset of the [j]th pointer's range. *)
Inductive bd_op := Malloc (n : Z) | Release (j : nat) | Put (j : nat) (off v w : Z).

Definition put_ok (n off : Z) : bool := (0 <=? off) && (off mod 16 =? 0) && (off + 16 <=? n).

Definition exec_bd (o : bd_op) (c : ptrs) : BDM ptrs :=
  match o with
  | Malloc n => p ← bd_malloc n; mret (if p =? 0 then c else (p, n) :: c)
  | Release j =>
      match c !! j with
      | Some (p, _) => bd_free p;; mret (delete j c)
      | None => mret c
      end
  | Put j off v w =>
      match c !! j with
      | Some (p, n) =>
          when (put_ok n off) (bmod (λ s, set_bdlinks (fset (bd_next s) (p + off) v) (fset (bd_prev s) (p + off) w) s));;
          mret c
      | None => mret c
      end
  end.

Fixpoint exec_bds (os : list bd_op) (c : ptrs) : BDM ptrs :=
  match os with
  | [] => mret c
  | o :: os' => c' ← exec_bd o c; exec_bds os' c'
  end.

(** ** The contract *)

(** The addresses of a pointer for [n] bytes. *)
Definition region (p n y : Z) : Prop := p ≤ y < p + BLK_SIZE (order n).
#[global] Instance region_dec p n y : Decision (region p n y) := _.

(** A heap from [lo] to [hi], aligned relative to [base]: what is in use, and what was
    written there. *)
Record heap := Heap { hp_live : ptrs; hp_mem : gmap Z (Z * Z) }.

Definition fits (base lo hi : Z) (p n : Z) (c : ptrs) : Prop :=
  (p - base) mod BLK_SIZE (order n) = 0 ∧ lo ≤ p ∧ p + BLK_SIZE (order n) ≤ hi ∧
  ∀ q n' y, (q, n') ∈ c → region q n' y → ¬ region p n y.

Inductive bd_step (base lo hi : Z) : bd_op → heap → heap → Prop :=
  | step_malloc n p c mm :
      fits base lo hi p n c → bd_step base lo hi (Malloc n) (Heap c mm) (Heap ((p, n) :: c) mm)
  | step_refused n c mm :
      (∀ p, ¬ fits base lo hi p n c) → bd_step base lo hi (Malloc n) (Heap c mm) (Heap c mm)
  | step_release j p n c mm :
      c !! j = Some (p, n) →
      bd_step base lo hi (Release j) (Heap c mm) (Heap (delete j c) (filter (λ e, ¬ region p n e.1) mm))
  | step_put j off v w p n c mm :
      c !! j = Some (p, n) → put_ok n off = true →
      bd_step base lo hi (Put j off v w) (Heap c mm) (Heap c (<[p + off := (v, w)]> mm))
  | step_none o c mm :
      match o with
      | Malloc _ => False
      | Release j => c !! j = None
      | Put j off _ _ => ∀ p n, c !! j = Some (p, n) → put_ok n off = false
      end → bd_step base lo hi o (Heap c mm) (Heap c mm).

Inductive bd_steps (base lo hi : Z) : list bd_op → heap → heap → Prop :=
  | steps_nil h : bd_steps base lo hi [] h h
  | steps_cons o os h h' h'' :
      bd_step base lo hi o h h' → bd_steps base lo hi os h' h'' → bd_steps base lo hi (o :: os) h h''.

(** ** The invariant *)

Section client.
Context (base end_ l : Z).
Let b := ROUNDUP64 base 16.
Context (Hbase : 0 < base < end_) (Hend : end_ < 2 ^ 63) (Hl : 7 ≤ l ≤ 26) (Hlen : 16 * 2 ^ l < end_ - b < 16 * 2 ^ (l + 1)).
Let lo := b + 16 * bd_meta (l + 2).
Let hi := b + 16 * ((end_ - b) / 16).

(** The block of a pointer. *)
Definition blk_of (c : ptrs) (k i : Z) : Prop := ∃ p n, (p, n) ∈ c ∧ k = order n ∧ p = b + i * BLK_SIZE k.

Definition in_use (c : ptrs) (k i : Z) : Prop := boot_held base end_ l k i ∨ blk_of c k i.

Record client_ok (x : kern * bd_st) (h : heap) : Prop := {
  co_idle : idle x;
  co_base : bd_base x.2 = b;
  co_size : nsizes x.2 = l + 2;
  co_inv : ∃ A S, bd_inv x.2 A S ∧ ∀ k i, held A S k i ↔ in_use (hp_live h) k i;
  co_nodup : NoDup (hp_live h).*1;
  co_ptr : ∀ p n, (p, n) ∈ hp_live h → ∃ i, p = b + i * BLK_SIZE (order n) ∧ ¬ boot_held base end_ l (order n) i;
  co_mem : ∀ a v w, hp_mem h !! a = Some (v, w) →
    bd_next x.2 a = v ∧ bd_prev x.2 a = w ∧ ∃ p n, (p, n) ∈ hp_live h ∧ region p n a;
}.

Lemma lo_hi : 2 * (l + 2) ≤ bd_meta (l + 2) ∧ 0 < b ∧ b < lo ∧ (end_ - b) / 16 < 2 ^ (l + 1) ∧ hi ≤ end_ ∧ 2 * (l + 2) ≤ 2 ^ (l + 1).
Proof.
  destruct (bd_meta_bounds l Hl) as [M1 M2]. destruct (ROUNDUP64_base base) as [B1 _]; [lia..|]. fold b in B1.
  assert (2 ^ (l + 1) = 2 * 2 ^ l) by (rewrite <- Z.pow_succ_r by lia; f_equal; lia). unfold lo, hi. split_and!; [lia..|dlia|dlia|lia].
Qed.

Lemma boot_heads j : 0 ≤ j < l + 2 → boot_held base end_ l 0 (2 * j).
Proof. intros Hj. destruct lo_hi as (? & _ & _ & _ & _ & ?). split_and!; [done|lia..|left; lia]. Qed.

(** A state with the heap's shape, and its blocks. *)
Section state.
Context (s : bd_st) (Eb : bd_base s = b) (En : nsizes s = l + 2).

Lemma blk_b k i : blk s k i = b + i * BLK_SIZE k.
Proof. unfold blk. by rewrite Eb. Qed.

Lemma region_in_blk p n i y : p = b + i * BLK_SIZE (order n) → region p n y ↔ in_blk s (order n) i y.
Proof. intros ->. unfold region, in_blk. by rewrite blk_b. Qed.

Lemma region_leaf p n i y : p = b + i * BLK_SIZE (order n) → region p n (b + 16 * y) ↔ y / 2 ^ order n = i.
Proof.
  intros E. rewrite (region_in_blk p n i) by done. rewrite leaf_in_blk by apply order_nonneg. unfold leaf.
  rewrite Eb. replace (b + 16 * y - b) with (y * 16) by lia. by rewrite Z.div_mul by lia.
Qed.

(** Ranges that fit are blocks of the tree. *)
Lemma fits_node p n c : fits b lo hi p n c →
  ∃ i, p = b + i * BLK_SIZE (order n) ∧ node (MAXSIZE s) (order n) i ∧
    bd_meta (l + 2) ≤ i * 2 ^ order n ∧ (i + 1) * 2 ^ order n ≤ (end_ - b) / 16.
Proof.
  intros (Hal & Hlo & Hhi & _). destruct lo_hi as (M & _ & _ & Hep & _). pose proof (order_nonneg n) as Ho.
  set (k := order n) in *. exists ((p - b) / BLK_SIZE k). rewrite BLK_SIZE_pow in * by done.
  set (q := 2 ^ k) in *. assert (0 < q) by lia. set (i := (p - b) / (q * 16)).
  assert (p - b = i * (q * 16)) as Ep by (pose proof (Z.div_mod (p - b) (q * 16)); unfold i; lia).
  unfold lo, hi in *. assert (bd_meta (l + 2) ≤ i * q ∧ (i + 1) * q ≤ (end_ - b) / 16) as [Hi1 Hi2] by nia.
  split_and!; [lia| |done..]. assert (0 ≤ i) by nia. unfold node, MAXSIZE. rewrite En.
  assert (k ≤ l + 1) as Hk. { apply (Z.pow_le_mono_r_iff 2); [lia..|]. fold q. nia. }
  split; [lia|]. split; [done|]. apply (Z.mul_lt_mono_pos_r q); [done|]. unfold q. rewrite <- Z.pow_add_r by lia. fold q.
  replace (l + 2 - 1 - k + k) with (l + 1) by lia. nia.
Qed.

(** Where nothing of the size or larger is free, nothing fits. *)
Lemma no_fit A S c n p :
  tree (MAXSIZE s) A S → (∀ k i, held A S k i ↔ in_use c k i) →
  (∀ k i, order n ≤ k → ¬ free (MAXSIZE s) A S k i) → ¬ fits b lo hi p n c.
Proof.
  intros T Hh Hnf F. destruct (fits_node p n c F) as (i & Hp & Hn & H1 & H2).
  destruct (no_free_held _ A S (order n) i T Hn Hnf) as (j & t & y & Hj & Et & Ei).
  assert (0 < 2 ^ order n) as Hpos by (pose proof (order_nonneg n); lia).
  pose proof (Z.div_mod y (2 ^ order n)). pose proof (Z.mod_pos_bound y (2 ^ order n)). rewrite Ei in *.
  apply Hh in Hj as [(-> & _ & Hb)|(q & n' & Hin & -> & Eq)].
  - rewrite Z.pow_0_r, Z.div_1_r in Et. subst t. fold b in Hb. nia.
  - destruct F as (_ & _ & _ & Hd). apply (Hd q n' (b + 16 * y) Hin); [by apply (region_leaf q n' t)|by apply (region_leaf p n i)].
Qed.

(** A block that became held fits. *)
Lemma new_fits A S A' S' c n i :
  (∀ k i, held A S k i ↔ in_use c k i) → tree (MAXSIZE s) A' S' →
  (∀ k j, held A' S' k j ↔ held A S k j ∨ k = order n ∧ j = i) → ¬ held A S (order n) i →
  (∀ p n, (p, n) ∈ c → ∃ i, p = b + i * BLK_SIZE (order n) ∧ ¬ boot_held base end_ l (order n) i) →
  fits b lo hi (b + i * BLK_SIZE (order n)) n c.
Proof.
  intros Hh T' Hh' Hni Hptr. destruct lo_hi as (M & Hb0 & _ & Hep & _ & _).
  assert (held A' S' (order n) i) as Hi by (apply Hh'; by right).
  destruct (t_node _ _ _ T' _ _ (proj1 Hi)) as [Hk Hi0]. unfold MAXSIZE in Hk, Hi0. rewrite En in Hk, Hi0.
  set (k := order n) in *.
  assert (∀ j t y, held A S j t → in_blk s j t y → ¬ in_blk s k i y) as Hdis.
  { intros j t y Hj Hy Hy'. apply Hni. destruct (whole_meet s A' S' T' j t k i y) as [<- <-]; try done; left; [|done].
    apply Hh'. by left. }
  assert (0 < 2 ^ k) as Hpos by lia.
  assert ((i + 1) * 2 ^ k ≤ 2 ^ (l + 1)) as Htop.
  { replace (l + 1) with (l + 2 - 1 - k + k) by lia. rewrite Z.pow_add_r by lia. nia. }
  assert (∀ y, y / 2 ^ k = i → bd_meta (l + 2) ≤ y < (end_ - b) / 16) as Hy.
  { intros y Ey. pose proof (Z.div_mod y (2 ^ k)). pose proof (Z.mod_pos_bound y (2 ^ k)). rewrite Ey in *.
    assert (¬ boot_held base end_ l 0 y) as Hnb.
    { intros Hbh. apply (Hdis 0 y (b + 16 * y)); [apply Hh; by left|..]; apply leaf_in_blk; try lia;
        unfold leaf; rewrite Eb; replace (b + 16 * y - b) with (y * 16) by lia; rewrite Z.div_mul by lia; [|done].
      by rewrite Z.pow_0_r, Z.div_1_r. }
    unfold boot_held in Hnb. fold b in Hnb. assert (0 ≤ y < 2 ^ (l + 1)) by nia. lia. }
  pose proof (Hy (i * 2 ^ k) (Z.div_mul i (2 ^ k) ltac:(lia))) as Hy0.
  assert (((i + 1) * 2 ^ k - 1) / 2 ^ k = i) as Hy1%Hy.
  { symmetry. apply (Z.div_unique _ _ _ (2 ^ k - 1)); lia. }
  unfold fits. fold k. rewrite BLK_SIZE_pow by lia. split_and!.
  - replace (b + i * (2 ^ k * 16) - b) with (i * (2 ^ k * 16)) by lia. apply Z.mod_mul. lia.
  - unfold lo. lia.
  - unfold hi. lia.
  - intros q n' y Hq Hr. destruct (Hptr q n' Hq) as (t & Et & _). rewrite (region_in_blk q n' t) in Hr by done.
    rewrite <- BLK_SIZE_pow by lia. rewrite (region_in_blk _ n i) by done. apply (Hdis (order n') t); [|done].
    apply Hh. right. by exists q, n'.
Qed.
End state.

(** ** Steps *)

(** The blocks of the pointers are where the invariant says, and hold no list head. *)
Lemma blk_of_not_boot x h k i : client_ok x h → blk_of (hp_live h) k i → ¬ boot_held base end_ l k i.
Proof.
  intros C (p & n & Hin & -> & Ep). destruct (co_ptr _ _ C p n Hin) as (i' & Ep' & Hnb).
  assert (i = i') as ->; [|done]. rewrite <- !(blk_b x.2 (co_base _ _ C)) in *. eapply (blk_inj x.2); [apply order_nonneg|].
  rewrite <- Ep, <- Ep'. done.
Qed.

Lemma live_data x h (H : Z → Z → Prop) p n a :
  client_ok x h → (p, n) ∈ hp_live h → region p n a → (∀ i, p = b + i * BLK_SIZE (order n) → H (order n) i) → data x.2 H a.
Proof.
  intros C Hin Hr HH. destruct (co_ptr _ _ C p n Hin) as (i & Ep & Hnb). exists (order n), i. split_and!.
  - by apply HH.
  - by apply (region_in_blk x.2 (co_base _ _ C) p n i).
  - rewrite (co_size _ _ C). intros j Hj [E ->]. apply Hnb. rewrite E. by apply boot_heads.
Qed.

Lemma runs_step_malloc n x h :
  client_ok x h → 0 ≤ n ≤ 2 ^ 63 →
  runs (exec_bd (Malloc n) (hp_live h)) x (λ c x', ∃ h', c = hp_live h' ∧ bd_step b lo hi (Malloc n) h h' ∧ client_ok x' h').
Proof.
  intros C Hn. pose proof C as [Hi Eb En (A & S & Hinv & Hh) Hnd Hptr Hmem]. destruct h as [c mm]. cbn in *.
  kstep. kapply runs_bd_malloc; [done..|]. intros p x' ([Ka Ki Kb Kn Kk] & A' & S' & Hinv' & Hr). apply runs_ret.
  assert (∀ a v w, mm !! a = Some (v, w) → bd_next x'.2 a = v ∧ bd_prev x'.2 a = w ∧ ∃ p n, (p, n) ∈ c ∧ region p n a) as Hmem'.
  { intros a v w Ha. destruct (Hmem a v w Ha) as (E1 & E2 & q & n' & Hq & Hqa). destruct (Kk a) as [-> ->].
    - apply (live_data x (Heap c mm) _ q n'); [done..|]. intros i Ei. apply Hh. right. by exists q, n'.
    - split_and!; [done..|by exists q, n']. }
  destruct Hr as [(-> & Hnf & Hh')|(i & -> & Hni & Hh')].
  - exists (Heap c mm). split; [done|]. split; [apply step_refused; intros p; eapply (no_fit x.2); [done..|apply Hinv|done|done]|].
    split; cbn; try done; [congruence..|]. exists A', S'. split; [done|]. intros k i. by rewrite Hh', Hh.
  - rewrite (blk_b x.2 Eb). assert (MAXSIZE x'.2 = MAXSIZE x.2) as Em by (unfold MAXSIZE; by rewrite Kn).
    assert (fits b lo hi (b + i * BLK_SIZE (order n)) n c) as F.
    { eapply (new_fits x'.2); [congruence..|exact Hh|apply Hinv'|exact Hh'|done|done]. }
    destruct (fits_node x.2 En _ _ _ F) as (i' & _ & _). destruct lo_hi as (_ & Hb0 & Hblo & _). pose proof F as (_ & Hlo & _ & Hd).
    rewrite (proj2 (Z.eqb_neq _ 0)) by lia. set (p := b + i * BLK_SIZE (order n)) in *.
    exists (Heap ((p, n) :: c) mm). split; [done|]. split; [by apply step_malloc|].
    assert (0 < BLK_SIZE (order n)) by (pose proof (order_nonneg n); rewrite BLK_SIZE_pow by done; lia).
    split; cbn; [done|congruence|congruence|..].
    + exists A', S'. split; [done|]. intros k j. rewrite Hh', Hh. unfold in_use, blk_of. split.
      * intros [[?|(q & n' & ? & ?)]|[-> ->]]; [by left|right; exists q, n'; split; [by right|done]|].
        right. exists p, n. split; [by left|done].
      * intros [?|(q & n' & Hq & -> & Eq)]; [by left; left|]. apply elem_of_cons in Hq as [[= -> ->]|Hq].
        -- right. split; [done|]. eapply (blk_inj x.2 (order n)); [apply order_nonneg|]. by rewrite !(blk_b x.2 Eb).
        -- left. right. by exists q, n'.
    + apply NoDup_cons. split; [|done]. intros ([q n'] & Eq & Hq)%list_elem_of_fmap. cbn in Eq. subst q.
      apply (Hd p n' p Hq); unfold region; [|lia]. pose proof (order_nonneg n'). rewrite BLK_SIZE_pow by done. lia.
    + intros q n' [[= -> ->]|Hq]%elem_of_cons; [|by apply Hptr]. exists i. split; [done|].
      intros Hbh. apply Hni, Hh. by left.
    + intros a v w Ha. destruct (Hmem' a v w Ha) as (? & ? & q & n' & ? & ?). split_and!; [done..|].
      exists q, n'. split; [by right|done].
Qed.

Lemma runs_step_release j x h :
  client_ok x h →
  runs (exec_bd (Release j) (hp_live h)) x (λ c x', ∃ h', c = hp_live h' ∧ bd_step b lo hi (Release j) h h' ∧ client_ok x' h').
Proof.
  intros C. pose proof C as [Hi Eb En (A & S & Hinv & Hh) Hnd Hptr Hmem]. destruct h as [c mm]. cbn in *.
  destruct (c !! j) as [[p n]|] eqn:Ej.
  2:{ kgo. exists (Heap c mm). split; [done|]. split; [by apply step_none|done]. }
  assert ((p, n) ∈ c) as Hin by by eapply list_elem_of_lookup_2.
  destruct (Hptr p n Hin) as (i & Ep & Hnb). pose proof (delete_Permutation _ _ _ Ej) as Hperm.
  assert (∀ q n', (q, n') ∈ c ↔ (q, n') = (p, n) ∨ (q, n') ∈ delete j c) as Hc.
  { intros q n'. rewrite Hperm at 1. by rewrite elem_of_cons. }
  assert (NoDup (p :: (delete j c).*1)) as Hnd'.
  { rewrite Hperm in Hnd. exact Hnd. }
  apply NoDup_cons in Hnd' as [Hpn Hnd'].
  assert (∀ k t, in_use c k t ↔ in_use (delete j c) k t ∨ k = order n ∧ t = i) as Huse.
  { intros k t. unfold in_use, blk_of. split.
    - intros [?|(q & n' & Hq & -> & Eq)]; [by left; left|]. apply Hc in Hq as [[= -> ->]|Hq]; [right|left; right; by exists q, n'].
      split; [done|]. eapply (blk_inj x.2 (order n)); [apply order_nonneg|]. rewrite !(blk_b x.2 Eb). congruence.
    - intros [[?|(q & n' & Hq & ?)]|[-> ->]]; [by left|right; exists q, n'; split; [apply Hc; by right|done]|].
      right. exists p, n. done. }
  assert (¬ in_use (delete j c) (order n) i) as Hni.
  { intros [?|(q & n' & Hq & Eo & Eq)]; [done|]. apply Hpn, list_elem_of_fmap. exists (q, n'). split; [|done]. cbn. congruence. }
  kstep. rewrite Ep, <- (blk_b x.2 Eb).
  kapply (runs_bd_free (in_use (delete j c)) (order n) i x A S); [done|done|by intros; rewrite Hh|done| |].
  { rewrite En. intros t Ht. left. by apply boot_heads. }
  intros [] x' ([Ka Ki Kb Kn Kk] & A' & S' & Hinv' & Hh'). apply runs_ret.
  exists (Heap (delete j c) (filter (λ e, ¬ region p n e.1) mm)). split; [done|]. split; [by apply step_release|].
  split; cbn; [done|congruence|congruence|by exists A', S'|done| |].
  - intros q n' Hq. apply Hptr, Hc. by right.
  - intros a v w [Ha Hna]%map_lookup_filter_Some. cbn in Hna. destruct (Hmem a v w Ha) as (E1 & E2 & q & n' & Hq & Hqa).
    apply Hc in Hq as [[= -> ->]|Hq]; [done|]. destruct (Kk a) as [-> ->]; [|split_and!; [done..|by exists q, n']].
    apply (live_data x (Heap c mm) _ q n'); [done|apply Hc; by right|done|]. intros t Et. right. by exists q, n'.
Qed.

(** Writing where no list goes. *)
Lemma bd_inv_put s A S a v w :
  bd_inv s A S → off_lists s (free (MAXSIZE s) A S) a →
  bd_inv (set_bdlinks (fset (bd_next s) a v) (fset (bd_prev s) a w) s) A S.
Proof.
  intros [R T (F & [L1 L2] & HF) Hh] Ho. split; [by apply rep_links|done| |done]. exists F. split; [|done]. split; [|done].
  intros k Hk. apply (dl_ext (bd_next s) (bd_prev s)); [|by apply L1]. intros y Hy.
  cbn. rewrite !fset_ne; [done|..]; intros ->; by eapply off_lists_spec.
Qed.

Lemma runs_step_put j off v w x h :
  client_ok x h →
  runs (exec_bd (Put j off v w) (hp_live h)) x (λ c x', ∃ h', c = hp_live h' ∧ bd_step b lo hi (Put j off v w) h h' ∧ client_ok x' h').
Proof.
  intros C. pose proof C as [Hi Eb En (A & S & Hinv & Hh) Hnd Hptr Hmem]. destruct h as [c mm]. cbn in *.
  destruct (c !! j) as [[p n]|] eqn:Ej.
  2:{ kgo. exists (Heap c mm). split; [done|]. split; [apply step_none; by intros p n ?; simplify_eq|done]. }
  unfold when, bmod. destruct (put_ok n off) eqn:Eo; kgo.
  2:{ exists (Heap c mm). split; [done|]. split; [apply step_none; by intros p' n' ?; simplify_eq|done]. }
  assert ((p, n) ∈ c) as Hin by by eapply list_elem_of_lookup_2.
  exists (Heap c (<[p + off := (v, w)]> mm)). split; [done|]. split; [by eapply step_put|].
  assert (region p n (p + off)) as Hr.
  { unfold put_ok in Eo. zify_bool. pose proof (order_nonneg n). pose proof (proj2 (order_spec n (order n) ltac:(lia) ltac:(done))).
    unfold region. lia. }
  assert (off_lists x.2 (free (MAXSIZE x.2) A S) (p + off)) as Ho.
  { eapply (data_off_lists x.2 A S (held A S)); [apply Hinv|apply Hinv|done|].
    apply (live_data x (Heap c mm) _ p n); [done..|]. intros i Ei. apply Hh. right. by exists p, n. }
  split; cbn; [done..| |done|done|].
  - exists A, S. split; [by apply bd_inv_put|done].
  - intros a v' w' Ha. destruct (decide (a = p + off)) as [->|Hne].
    + rewrite lookup_insert_eq in Ha. simplify_eq. rewrite !fset_eq. split_and!; [done..|by exists p, n].
    + rewrite lookup_insert_ne in Ha by done. rewrite !fset_ne by done. by apply Hmem.
Qed.

(** The requests a client may make: [uint64] sizes up to 2^63. *)
Definition op_ok (o : bd_op) : Prop := match o with Malloc n => 0 ≤ n ≤ 2 ^ 63 | _ => True end.

Lemma runs_exec_bds os x h :
  Forall op_ok os → client_ok x h →
  runs (exec_bds os (hp_live h)) x (λ c x', ∃ h', c = hp_live h' ∧ bd_steps b lo hi os h h' ∧ client_ok x' h').
Proof.
  intros Hos. revert x h. induction Hos as [|o os Ho _ IH]; intros x h C.
  { apply runs_ret. exists h. split; [done|]. split; [constructor|done]. }
  cbn [exec_bds]. kstep. eapply (runs_mono _ _ (λ c x', ∃ h', c = hp_live h' ∧ bd_step b lo hi o h h' ∧ client_ok x' h')).
  { destruct o as [n|j|j off v w]; [by apply runs_step_malloc|by apply runs_step_release|by apply runs_step_put]. }
  intros c x1 (h1 & -> & Hs & C1). kapply IH; [done|]. intros c' x2 (h2 & -> & Hss & C2).
  exists h2. split; [done|]. split; [by econstructor|done].
Qed.

Lemma boot_client x :
  cpu_ok (k_cpu x.1) → runs (bd_init base end_) x (λ _ x', client_ok x' (Heap [] ∅)).
Proof.
  intros Hc. kapply (runs_bd_init base end_ l); [done..|]. intros [] x' (K & Hlk & Eb & En & A & S & Hinv & Hh).
  split; cbn; try done.
  - split; [by rewrite K|done].
  - exists A, S. split; [done|]. intros k i. rewrite Hh. unfold in_use. split; [by left|].
    intros [?|(p & n & Hn & _)]; [done|by apply elem_of_nil in Hn].
  - constructor.
  - intros p n Hn. by apply elem_of_nil in Hn.
Qed.

End client.

(** A heap of 5000 bytes: two requests are granted, one is written to, one freed, and
    a request for more than is left refused. *)
Definition demo_bd : kern * bd_st := (demo_kern, BdSt (initlock "") 0 [] (λ _, 0) (λ _, 0) []).
Definition demo_bd_ops : list bd_op := [Malloc 100; Malloc 16; Put 1 16 7 8; Release 0; Malloc 5000].


(** ** Two ranges it does not serve *)

(** [firstk] finds the least [k] with 16 * 2^k >= n and returns exactly for
    requests up to 2^63: above that the doubled size wraps to 0 and its loop never ends,
    while [bd_malloc] holds the lock. *)
Theorem firstk_returns n x :
  0 ≤ n < 2 ^ 64 →
  (n ≤ 2 ^ 63 → runs (firstk n) x (λ k x', x' = x ∧ 0 ≤ k ∧ n ≤ BLK_SIZE k ∧ ∀ j, 0 ≤ j < k → BLK_SIZE j < n)) ∧
  (2 ^ 63 < n → ∀ fuel, stops (firstk_loop fuel n) x NoFuel).
Proof.
  intros Hn. pose proof (order_nonneg n) as Ho. split.
  - intros Hle. kapply runs_firstk; [lia|]. intros k x' [-> ->]. split_and!; [done..|by apply order_spec; lia|].
    intros j Hj. destruct (decide (n ≤ BLK_SIZE j)) as [H|]; [|lia]. apply order_spec in H; lia.
  - intros Hgt fuel. unfold firstk_loop.
    enough (∀ k size, size = 0 ∨ (∃ j, 0 ≤ j ≤ 59 ∧ size = BLK_SIZE j) → stops (loop fuel (λ '(k, size),
      if size <? n then mret (inl (k + 1, u64 (size * 2))) else mret (inr k)) (k, size)) x NoFuel) as H.
    { apply H. right. by exists 0. }
    induction fuel as [|fuel IH]; intros k size Hs; [done|]. cbn [loop].
    assert (size < n) as Hlt.
    { destruct Hs as [->|(j & Hj & ->)]; [lia|]. rewrite BLK_SIZE_pow by lia.
      assert (2 ^ j ≤ 2 ^ 59) by (apply Z.pow_le_mono_r; lia). lia. }
    rewrite (proj2 (Z.ltb_lt _ _) Hlt). apply IH. destruct Hs as [->|(j & Hj & ->)]; [by left|].
    destruct (decide (j = 59)) as [->|]; [by left|]. right. exists (j + 1). split; [lia|].
    assert (2 ^ j ≤ 2 ^ 58) by (apply Z.pow_le_mono_r; lia).
    rewrite !BLK_SIZE_pow, Z.pow_add_r, u64_small by lia. lia.
Qed.

Lemma firstk_returns_witness :
  result 0 (firstk 100) demo_bd = 3 ∧ ∀ fuel, stops (firstk_loop fuel (2 ^ 63 + 1)) demo_bd NoFuel.
Proof.
  split; [reflexivity|]. apply (proj2 (firstk_returns (2 ^ 63 + 1) demo_bd ltac:(lia))). lia.
Defined.

(** Set up on exactly one page, whose length is a power of two, [bd_init] looks up the
    block after the last one: nothing is unavailable, and [bd_initfree] reads the pair of
    the block that starts at the end of memory outside the vector. *)
Theorem bd_init_power_of_two x : stops (bd_init 4096 8192) x (Undefined "bit outside its vector").
Proof. destruct x as [k [lk bs sz nx pv out]]. vm_compute. reflexivity. Qed.
