(* ===== verification/Umalloc.v ===== *)
(** * malloc and free (user/umalloc.c)

    The allocator of Kernighan and Ritchie: a circular list of free blocks in the
    order of their addresses, which starts at the static header [base].  A header takes
    16 bytes; its two fields are functions on addresses.  Sizes are [uint]s and
    count headers.

    [sbrk] is the kernel's: it moves the end of the process's memory by its [int]
    argument and returns the old end, or refuses.  [grant] says which growth it
    grants. *)

From S2P Require Import Prelude DList.

Record um_st := UmSt {
  um_ptr : Z → Z;           (* s.ptr of the header at an address *)
  um_size : Z → Z;          (* s.size *)
  um_freep : Z;
  um_brk : Z;               (* the end of the process's memory *)
}.

Definition set_uptr v s := UmSt v (um_size s) (um_freep s) (um_brk s).
Definition set_usize v s := UmSt (um_ptr s) v (um_freep s) (um_brk s).
Definition set_ufreep v s := UmSt (um_ptr s) (um_size s) v (um_brk s).
Definition set_ubrk v s := UmSt (um_ptr s) (um_size s) (um_freep s) v.

Section Umalloc.
Context (base : Z) (grant : Z → Z → bool).
Abbreviation UM := (M um_st).

Definition HDR : Z := 16.       (* sizeof(Header) *)
Definition put_ptr (a v : Z) : UM unit := modify (λ s, set_uptr (fset (um_ptr s) a v) s).
Definition put_size (a v : Z) : UM unit := modify (λ s, set_usize (fset (um_size s) a (u32 v)) s).

(** Enough to go twice around the headers that memory can hold, and one more. *)
Definition um_fuel (s : um_st) : nat := (Z.to_nat (2 * (um_brk s / HDR)) + 8)%nat.

Definition sbrk (n : Z) : UM Z :=
  s ← gets id;
  if grant (um_brk s) n then modify (set_ubrk (um_brk s + n));; mret (um_brk s) else mret (-1).

(** The search of [free] for the block before [bp]. *)
Definition free_find (bp : Z) : UM Z :=
  s ← gets id;
  loop (um_fuel s) (λ p,
    n ← gets (λ s, um_ptr s p);
    if (p <? bp) && (bp <? n) then mret (inr p) else
    if (n <=? p) && ((p <? bp) || (bp <? n)) then mret (inr p) else
    mret (inl n)) (um_freep s).

(** The header at [a], of size [z], is linked to the block at [n], or takes it in if the
    two touch: what [free] does with [bp] and [p->s.ptr], then with [p] and [bp]. *)
Definition link (a z n : Z) : UM unit :=
  if a + z * HDR =? n then
    nz ← gets (λ s, um_size s n);
    put_size a (z + nz);;
    nn ← gets (λ s, um_ptr s n);
    put_ptr a nn
  else put_ptr a n.

Definition free (ap : Z) : UM unit :=
  let bp := ap - HDR in
  p ← free_find bp;
  n ← gets (λ s, um_ptr s p);
  z ← gets (λ s, um_size s bp);
  link bp z n;;
  pz ← gets (λ s, um_size s p);
  link p pz bp;;
  modify (set_ufreep p).

Definition morecore (nu : Z) : UM Z :=
  let nu := if nu <? 4096 then 4096 else nu in
  p ← sbrk (i32 (nu * HDR));
  if p =? -1 then mret 0 else
  put_size p nu;;
  free (p + HDR);;
  gets um_freep.

(** The loop of [malloc], from a predecessor and a block. *)
Definition malloc_scan (nunits prevp p : Z) : UM Z :=
  s ← gets id;
  loop (um_fuel s) (λ '(prevp, p),
    z ← gets (λ s, um_size s p);
    if nunits <=? z then
      (if z =? nunits then
        n ← gets (λ s, um_ptr s p);
        put_ptr prevp n;;
        modify (set_ufreep prevp);;
        mret (inr (p + HDR))
      else
        put_size p (z - nunits);;
        z' ← gets (λ s, um_size s p);
        let p := p + z' * HDR in
        put_size p nunits;;
        modify (set_ufreep prevp);;
        mret (inr (p + HDR)))
    else
      f ← gets um_freep;
      p ← (if p =? f then morecore nunits else mret p);
      if p =? 0 then mret (inr 0) else
      n ← gets (λ s, um_ptr s p);
      mret (inl (p, n))) (prevp, p).

Definition malloc (nbytes : Z) : UM Z :=
  let nunits := u32 ((nbytes + HDR - 1) / HDR + 1) in
  f ← gets um_freep;
  (if f =? 0 then put_ptr base base;; modify (set_ufreep base);; put_size base 0 else mret tt);;
  prevp ← gets um_freep;
  p ← gets (λ s, um_ptr s prevp);
  malloc_scan nunits prevp p.
End Umalloc.
