(* ===== verification/UmallocProof.v ===== *)
(** * The free list of malloc

    [ring] relates the headers to the list of free blocks; [gaps] says that it is in the
    order of addresses and that no two blocks touch.  [free] puts a block into its place
    and joins it with its neighbours, [malloc] takes the end of a block that is large enough. *)

From S2P Require Import Prelude DList Umalloc.

(** A block: the address of its header and its size in headers. *)
Abbreviation blks := (list (Z * Z)).

Definition hd_addr (l : blks) (e : Z) : Z := match l with [] => e | (b, _) :: _ => b end.

(** The headers of [l], the last of which points to [e]. *)
Fixpoint ring (s : um_st) (l : blks) (e : Z) : Prop :=
  match l with
  | [] => True
  | (a, n) :: l' => um_size s a = n ∧ um_ptr s a = hd_addr l' e ∧ ring s l' e
  end.

(** Ascending, and with a gap after each block. *)
Fixpoint gaps (l : blks) : Prop :=
  match l with
  | [] => True
  | (a, n) :: l' => (∀ b m, (b, m) ∈ l' → a + 16 * n < b) ∧ gaps l'
  end.

Lemma hd_addr_app l b n l' e : hd_addr (l ++ (b, n) :: l') e = hd_addr l b.
Proof. by destruct l as [|[? ?] ?]. Qed.

Lemma ring_app s l1 a n l2 e : ring s (l1 ++ (a, n) :: l2) e ↔ ring s l1 a ∧ ring s ((a, n) :: l2) e.
Proof.
  induction l1 as [|[b m] l1 IH]; cbn [app ring]; [cbn; tauto|]. rewrite hd_addr_app, IH. cbn [ring]. tauto.
Qed.

Lemma ring_ext s s' l e :
  (∀ a n, (a, n) ∈ l → um_size s' a = um_size s a ∧ um_ptr s' a = um_ptr s a) → ring s l e → ring s' l e.
Proof.
  induction l as [|[a n] l IH]; [done|]. intros H (H1 & H2 & H3). destruct (H a n) as [E1 E2]; [by left|].
  cbn. rewrite E1, E2. split_and!; [done..|]. apply IH; [|done]. intros b m Hb. apply (H b m). by right.
Qed.

(** The same list, begun at another of its blocks. *)
Lemma ring_rotate s l1 l2 e :
  hd_addr (l1 ++ l2) e = e → l1 ≠ [] → ring s (l1 ++ l2) e → ring s (l2 ++ l1) (hd_addr l2 e).
Proof.
  intros He Hne H. destruct l1 as [|[a n] l1]; [done|]. cbn in He. subst a.
  destruct l2 as [|[b m] l2]; [by rewrite app_nil_r in H|]. cbn [hd_addr].
  apply ring_app in H as [H1 H2]. apply ring_app. done.
Qed.

Lemma gaps_app l1 l2 :
  gaps (l1 ++ l2) ↔ gaps l1 ∧ gaps l2 ∧ ∀ a n b m, (a, n) ∈ l1 → (b, m) ∈ l2 → a + 16 * n < b.
Proof.
  induction l1 as [|[c k] l1 IH]; cbn [app gaps].
  - split; [intros H; split_and!; [done..|]; by intros a n b m ?%elem_of_nil|tauto].
  - rewrite IH. split.
    + intros (H1 & H2 & H3 & H4). split_and!; [|done..|].
      * intros b m Hb. apply (H1 b m), elem_of_app. by left.
      * intros a n b m [[= -> ->]|Ha]%elem_of_cons Hb; [apply (H1 b m), elem_of_app; by right|by eapply H4].
    + intros ((H1 & H2) & H3 & H4). split_and!; [|done..|].
      * intros b m [Hb|Hb]%elem_of_app; [by eapply H1|]. eapply H4; [by left|done].
      * intros a n b m Ha. eapply H4. by right.
Qed.

(** An address lies behind the blocks [l1] and before the blocks [l2]. *)
Lemma gaps_split (h a n : Z) l :
  gaps ((a, n) :: l) → a < h → (∀ b m, (b, m) ∈ l → b ≠ h) → (∀ b m, (b, m) ∈ (a, n) :: l → 0 ≤ m) →
  ∃ l1 p k l2, (a, n) :: l = l1 ++ (p, k) :: l2 ∧ p < h ∧ (∀ b m, (b, m) ∈ l1 → b < p) ∧
    (∀ b m, (b, m) ∈ l2 → h < b).
Proof.
  revert a n. induction l as [|[b m] l IH]; intros a n Hg Ha Hne Hm.
  - exists [], a, n, []. split_and!; [done..| |]; by intros ? ? ?%elem_of_nil.
  - destruct Hg as [Hg1 Hg2]. destruct (decide (b < h)) as [Hb|Hb].
    + destruct (IH b m Hg2 Hb) as (l1 & p & k & l2 & E & Hp & H1 & H2).
      { intros c k Hc. apply (Hne c k). by right. } { intros c k Hc. apply (Hm c k). by right. }
      exists ((a, n) :: l1), p, k, l2. split_and!; [by rewrite E|done| |done].
      intros c k' [[= -> ->]|Hc]%elem_of_cons; [|by eapply H1].
      assert ((p, k) ∈ (b, m) :: l) as Hin by (rewrite E; apply elem_of_app; right; by left).
      specialize (Hg1 p k Hin). specialize (Hm a n ltac:(by left)). lia.
    + exists [], a, n, ((b, m) :: l). split_and!; [done..|by intros ? ? ?%elem_of_nil|].
      assert (b ≠ h) by (apply (Hne b m); by left).
      intros c k [[= -> ->]|Hc]%elem_of_cons; [lia|]. destruct Hg2 as [Hg2 _]. specialize (Hg2 c k Hc).
      specialize (Hm b m ltac:(right; by left)). lia.
Qed.

(** ** Where a block goes *)

(** [u] headers at [h], joined with the first block of [l] if they touch. *)
Definition join (h u : Z) (l : blks) : blks :=
  match l with
  | (q, m) :: l' => if h + u * 16 =? q then (h, u + m) :: l' else (h, u) :: l
  | [] => [(h, u)]
  end.
(** The addresses of the blocks. *)
Definition cov (l : blks) (y : Z) : Prop := ∃ a n, (a, n) ∈ l ∧ a ≤ y < a + 16 * n.

Lemma cov_nil y : ¬ cov [] y.
Proof. by intros (a & n & ?%elem_of_nil & _). Qed.
Lemma cov_cons a n l y : cov ((a, n) :: l) y ↔ a ≤ y < a + 16 * n ∨ cov l y.
Proof.
  unfold cov. split.
  - intros (b & m & [[= -> ->]|Hb]%elem_of_cons & Hy); [by left|right; by exists b, m].
  - intros [Hy|(b & m & Hb & Hy)]; [exists a, n; split; [by left|done]|exists b, m; split; [by right|done]].
Qed.
Lemma cov_app l1 l2 y : cov (l1 ++ l2) y ↔ cov l1 y ∨ cov l2 y.
Proof.
  induction l1 as [|[a n] l1 IH]; cbn [app]; [pose proof (cov_nil y); tauto|]. rewrite !cov_cons, IH. tauto.
Qed.

Lemma cov_join h u l y :
  0 ≤ u → (∀ b m, (b, m) ∈ l → 0 ≤ m) → cov (join h u l) y ↔ h ≤ y < h + 16 * u ∨ cov l y.
Proof.
  intros Hu Hm. destruct l as [|[q m] l]; cbn; [by rewrite cov_cons|].
  assert (0 ≤ m) by (apply (Hm q m); by left).
  destruct (Z.eqb_spec (h + u * 16) q) as [<-|]; rewrite !cov_cons; [|tauto]. intuition lia.
Qed.

Lemma gaps_join h u l :
  gaps l → 0 ≤ u → (∀ b m, (b, m) ∈ l → h + 16 * u ≤ b ∧ 1 ≤ m) → gaps (join h u l).
Proof.
  intros Hg Hu Hl. destruct l as [|[q m] l]; cbn; [split; [by intros ? ? ?%elem_of_nil|done]|].
  destruct Hg as [Hg1 Hg2]. destruct (Hl q m) as [Hq Hm]; [by left|].
  destruct (Z.eqb_spec (h + u * 16) q) as [E|Hne]; cbn.
  - split; [|done]. intros b k Hb. specialize (Hg1 b k Hb). lia.
  - split_and!; [|done..]. intros b k [[= -> ->]|Hb]%elem_of_cons; [lia|]. specialize (Hg1 b k Hb). lia.
Qed.

(** What holds of the old blocks, and of a block made of two that touch, holds of the new ones. *)
Lemma join_ind (P : Z → Z → Prop) a n l :
  P a n → (∀ b m, (b, m) ∈ l → P b m) → (∀ m, P a n → P (a + 16 * n) m → P a (n + m)) →
  ∀ b m, (b, m) ∈ join a n l → P b m.
Proof.
  intros Ha Hl Hj b m. destruct l as [|[q k] l]; cbn; [by intros [= -> ->]%list_elem_of_singleton|].
  destruct (Z.eqb_spec (a + n * 16) q) as [E|].
  - intros [[= -> ->]|Hb]%elem_of_cons; [|by apply Hl; right]. apply Hj; [done|]. replace (a + 16 * n) with q by lia.
    apply Hl. by left.
  - intros [[= -> ->]|Hb]%elem_of_cons; [done|by apply Hl].
Qed.

Lemma join_head a n l : ∃ n' l', join a n l = (a, n') :: l'.
Proof. destruct l as [|[q k] l]; cbn; [by eexists _, _|]. destruct (a + n * 16 =? q); by eexists _, _. Qed.

Lemma join_length a n l : (length (join a n l) ≤ S (length l))%nat.
Proof. destruct l as [|[q k] l]; cbn; [lia|]. destruct (a + n * 16 =? q); cbn; lia. Qed.

(** ** The invariant *)

Section heap.
Context (base : Z).

Definition blk_ok (s : um_st) (a n : Z) : Prop := base < a ∧ a mod 16 = 0 ∧ 1 ≤ n ∧ a + 16 * n ≤ um_brk s.
Definition apart (a n b m : Z) : Prop := a + 16 * n ≤ b ∨ b + 16 * m ≤ a.

(** [fl] are the free blocks, [lv] those in use. *)
Record um_ok (s : um_st) (fl lv : blks) : Prop := {
  uo_base : 0 < base ∧ base mod 16 = 0;
  uo_brk : um_brk s ≤ 2 ^ 31 ∧ um_brk s mod 16 = 0;
  uo_freep : ∃ n, (um_freep s, n) ∈ (base, 0) :: fl;
  uo_ring : ring s ((base, 0) :: fl) base;
  uo_gaps : gaps ((base, 0) :: fl);
  uo_blk : ∀ a n, (a, n) ∈ fl ++ lv → blk_ok s a n;
  uo_live : ∀ h u, (h, u) ∈ lv → um_size s h = u;
  uo_apart : ∀ a n h u, (a, n) ∈ fl → (h, u) ∈ lv → apart a n h u;
}.

(** The loops go around the list at most twice. *)
Lemma gaps_length a n l e :
  gaps ((a, n) :: l) → (∀ b m, (b, m) ∈ l → a < b ∧ b mod 16 = 0 ∧ 1 ≤ m ∧ b + 16 * m ≤ e) → 0 ≤ n → a mod 16 = 0 →
  a ≤ e → Z.of_nat (length l) ≤ (e - a) / 16.
Proof.
  revert a n. induction l as [|[b m] l IH]; intros a n Hg Hl Hn Ha He; cbn [length]; [apply Z.div_pos; lia|].
  destruct Hg as [Hg1 Hg2]. destruct (Hl b m) as (H1 & H2 & H3 & H4); [by left|].
  assert (Z.of_nat (length l) ≤ (e - b) / 16) as IHl.
  { apply (IH b m); [done| |lia|done|lia]. intros c k Hc. destruct (Hl c k) as (? & ? & ? & ?); [by right|].
    split_and!; try done. destruct Hg2 as [Hg2 _]. specialize (Hg2 c k Hc). lia. }
  dlia.
Qed.

Lemma um_ok_length s fl lv : um_ok s fl lv → base ≤ um_brk s → Z.of_nat (length fl) ≤ um_brk s / 16.
Proof.
  intros O Hb. pose proof (uo_base _ _ _ O). pose proof (gaps_length base 0 fl (um_brk s) (uo_gaps _ _ _ O)) as H'.
  etrans; [apply H'|apply Z.div_le_mono; lia]; try lia. intros b m Hin.
  destruct (uo_blk _ _ _ O b m) as (? & ? & ? & ?); [apply elem_of_app; by left|]. done.
Qed.

(** A free block's header and a block in use have different addresses. *)
Lemma uo_split_head s fl lv l1 p k l2 :
  um_ok s fl lv → (base, 0) :: fl = l1 ++ (p, k) :: l2 → (p = base ∧ k = 0 ∧ l1 = []) ∨ ∃ l1', l1 = (base, 0) :: l1' ∧ (p, k) ∈ fl.
Proof.
  intros O E. destruct l1 as [|[a n] l1]; cbn in E; injection E as -> ->; [by left|]. intros. right. exists l1.
  subst fl. split; [done|]. apply elem_of_app. right. by left.
Qed.

(** ** free *)

(** The block after [q] is the next one up, or [base] after the last. *)
Lemma next_spec s fl lv q n :
  um_ok s fl lv → (q, n) ∈ (base, 0) :: fl →
  (q < um_ptr s q ∧ ∀ b m, (b, m) ∈ (base, 0) :: fl → b ≤ q ∨ um_ptr s q ≤ b) ∨
  (um_ptr s q = base ∧ ∀ b m, (b, m) ∈ (base, 0) :: fl → b ≤ q).
Proof.
  intros O Hq. assert (∀ b m, (b, m) ∈ (base, 0) :: fl → 0 ≤ m) as Hm.
  { intros b m [[= -> ->]|Hb]%elem_of_cons; [lia|]. destruct (uo_blk _ _ _ O b m) as (_ & _ & ? & _); [apply elem_of_app; by left|lia]. }
  pose proof (uo_ring _ _ _ O) as Hr. pose proof (uo_gaps _ _ _ O) as Hg.
  apply list_elem_of_split in Hq as (c1 & c2 & E). rewrite E in *. apply ring_app in Hr as [_ (_ & Hp & _)].
  apply gaps_app in Hg as (_ & [Hg2 Hg3] & Hg4). pose proof (Hm q n ltac:(apply elem_of_app; right; by left)) as Hn.
  destruct c2 as [|[r j] c2]; cbn in Hp; rewrite Hp; [right|left]; (split; [try done|]).
  - intros b m [Hb|Hb]%elem_of_app; [|by apply list_elem_of_singleton in Hb as [= -> ->]].
    pose proof (Hm b m ltac:(apply elem_of_app; by left)). specialize (Hg4 b m q n Hb ltac:(by left)). lia.
  - specialize (Hg2 r j ltac:(by left)). lia.
  - intros b m [Hb|[[= -> ->]|[[= -> ->]|Hb]%elem_of_cons]%elem_of_cons]%elem_of_app; [left|by left|by right|right].
    + pose proof (Hm b m ltac:(apply elem_of_app; by left)). specialize (Hg4 b m q n Hb ltac:(by left)). lia.
    + destruct Hg3 as [Hg3 _]. specialize (Hg3 b m Hb). pose proof (Hm r j ltac:(apply elem_of_app; right; right; by left)). lia.
Qed.

Lemma cyc_rotate s fl lv l1 p k l2 :
  um_ok s fl lv → (base, 0) :: fl = l1 ++ (p, k) :: l2 →
  ring s (l2 ++ (l1 ++ [(p, k)])) (hd_addr l2 base) ∧ length (l2 ++ (l1 ++ [(p, k)])) = S (length fl) ∧
  ∀ x, x ∈ l2 ++ (l1 ++ [(p, k)]) ↔ x ∈ (base, 0) :: fl.
Proof.
  intros O E. pose proof (uo_ring _ _ _ O) as Hr. split_and!.
  - rewrite E in Hr. apply ring_rotate; [| |by rewrite <- app_assoc].
    + rewrite <- app_assoc. cbn. by rewrite <- E.
    + by destruct l1.
  - pose proof (f_equal length E) as EL. rewrite !length_app in *. cbn in *. lia.
  - intros x. rewrite E, !elem_of_app, !elem_of_cons, elem_of_nil. tauto.
Qed.

(** The search stops at the block before [h]. *)
Lemma runs_free_find h s fl lv l1 p k l2 :
  um_ok s fl lv → base ≤ um_brk s → (base, 0) :: fl = l1 ++ (p, k) :: l2 →
  (∀ b m, (b, m) ∈ l1 → b < p) → base ≤ p < h → (∀ b m, (b, m) ∈ l2 → h < b) →
  runs (free_find h) s (λ r s', r = p ∧ s' = s).
Proof.
  intros O Hbk E H1 Hp H2. pose proof (um_ok_length s fl lv O Hbk) as Hlen.
  destruct (cyc_rotate s fl lv l1 p k l2 O E) as (Hc & Hcl & Hcin). set (cyc := l2 ++ (l1 ++ [(p, k)])) in *.
  destruct (uo_freep _ _ _ O) as (nf & Hf). apply Hcin, list_elem_of_split in Hf as (f1 & f2 & Ef).
  unfold free_find. kstep. kstep.
  apply (runs_loop_nat _ (λ n q s', s' = s ∧ ∃ c1 j c2, cyc = c1 ++ (q, j) :: c2 ∧ length c2 = n) _ _ (length f2)).
  - intros n q s' (-> & c1 & j & c2 & Ec & <-). assert ((q, j) ∈ (base, 0) :: fl) as Hq.
    { apply Hcin. rewrite Ec. apply elem_of_app. right. by left. }
    assert ((p, k) ∈ (base, 0) :: fl) as Hpin by (rewrite E; apply elem_of_app; right; by left).
    assert (∀ b m, (b, m) ∈ (base, 0) :: fl → b ≤ p ∨ h < b) as Hall.
    { rewrite E. intros b m [Hb|[[= -> ->]|Hb]%elem_of_cons]%elem_of_app; [left; specialize (H1 b m Hb); lia|by left|right; by eapply H2]. }
    kstep. kstep. set (r := um_ptr s q).
    assert (r = base ∨ ∃ m, (r, m) ∈ (base, 0) :: fl) as Hr.
    { destruct c2 as [|[r' j'] c2].
      - assert (ring s (c1 ++ [(q, j)]) (hd_addr l2 base)) as Hc' by (by rewrite <- Ec).
        apply ring_app in Hc' as [_ (_ & Er & _)]. unfold r. rewrite Er. cbn.
        destruct l2 as [|[b m] l2]; [by left|right]. exists m. rewrite E. apply elem_of_app. right. right. by left.
      - rewrite Ec in Hc. apply ring_app in Hc as [_ (_ & Er & _)]. right. exists j'. unfold r. rewrite Er. cbn.
        apply Hcin. rewrite Ec. apply elem_of_app. right. right. by left. }
    assert (q ≤ p ∨ h < q) as Hqp by by eapply Hall.
    assert (r = base ∨ r ≤ p ∨ h < r) as Hrp by (destruct Hr as [?|[m Hr]]; [by left|right; by eapply Hall]).
    assert ((q < r ∧ (p ≤ q ∨ r ≤ p)) ∨ (r = base ∧ p ≤ q)) as Hnx.
    { destruct (next_spec s fl lv q j O Hq) as [[? Hn]|[? Hn]]; [left|right]; (split; [done|]); by eapply Hn. }
    kstep; intros Hb1; [zify_bool; kgo; split; [lia|done]|].
    kstep; intros Hb2; [apply andb_true_iff in Hb2 as [Hb2 Hb3]; apply orb_true_iff in Hb3; rewrite !Z.ltb_lt in Hb3; zify_bool; kgo; split; [lia|done]|].
    rewrite andb_false_iff, !Z.ltb_ge in Hb1. rewrite andb_false_iff, orb_false_iff, Z.leb_gt, !Z.ltb_ge in Hb2.
    assert (q ≠ p) as Hqp' by lia. destruct c2 as [|[r' j'] c2].
    { apply (f_equal last) in Ec. unfold cyc in Ec. rewrite app_assoc, !last_snoc in Ec. congruence. }
    kgo. exists (length c2). split; [lia|]. split; [done|]. exists (c1 ++ [(q, j)]), j', c2. split; [|done].
    rewrite <- app_assoc. cbn. rewrite Ec in Hc. apply ring_app in Hc as [_ (_ & Er & _)]. cbn in Er. fold r in Er. by rewrite Er.
  - split; [done|]. by exists f1, nf, f2.
  - apply (f_equal length) in Ef. rewrite length_app in Ef. cbn in Ef. unfold um_fuel, HDR. 
    change (um_brk (id s)) with (um_brk s). lia.
Qed.

(** One link. *)
Lemma runs_link a n l e s :
  um_size s a = n → ring s l e → (∀ b m, (b, m) ∈ l → b ≠ a ∧ 0 ≤ n + m < 2 ^ 32) → (l = [] → a + n * 16 ≠ e) →
  runs (link a n (hd_addr l e)) s (λ _ s', ring s' (join a n l) e ∧ um_freep s' = um_freep s ∧ um_brk s' = um_brk s ∧
    ∀ y, y ≠ a → um_ptr s' y = um_ptr s y ∧ um_size s' y = um_size s y).
Proof.
  intros Hs Hr Hl He. unfold link, HDR, put_ptr, put_size. destruct l as [|[q m] l]; cbn [hd_addr join].
  - rewrite (proj2 (Z.eqb_neq _ _) (He eq_refl)). kgo. rewrite fset_eq. split_and!; [done..|].
    intros y Hy. by rewrite fset_ne.
  - destruct Hr as (Hq1 & Hq2 & Hr). destruct (Hl q m) as [Hqa Hsm]; [by left|].
    assert (∀ s', (∀ y, y ≠ a → um_ptr s' y = um_ptr s y ∧ um_size s' y = um_size s y) → ring s' l e) as Hr'.
    { intros s' H'. eapply ring_ext; [|exact Hr]. intros b k Hb. destruct (H' b) as [? ?]; [|done].
      apply (Hl b k). by right. }
    kstep; intros Hb; zify_bool.
    + kgo. rewrite (proj2 (Z.eqb_eq _ _) Hb). cbn.
      rewrite !fset_eq, Hq1. split_and!; try done; [by apply u32_small| |].
      * apply Hr'. intros y Hy. cbn. by rewrite !fset_ne.
      * intros y Hy. by rewrite !fset_ne.
    + kgo. rewrite (proj2 (Z.eqb_neq _ _) Hb). cbn. rewrite !fset_eq, fset_ne by done. split_and!; try done.
      * apply Hr'. intros y Hy. cbn. by rewrite !fset_ne.
      * intros y Hy. by rewrite !fset_ne.
Qed.

(** A block that may be joined with others: in memory, and apart from those in use. *)
Definition loose (s : um_st) (lv : blks) (a n : Z) : Prop :=
  blk_ok s a n ∧ ∀ h u, (h, u) ∈ lv → apart a n h u.

Lemma loose_join s lv a n m :
  (∀ h u, (h, u) ∈ lv → 1 ≤ u) → loose s lv a n → loose s lv (a + 16 * n) m → loose s lv a (n + m).
Proof.
  intros Hu [(? & ? & ? & ?) HA] [(? & ? & ? & ?) HB]. split; [split_and!; try done; lia|].
  intros h u Hin. specialize (HA h u Hin). specialize (HB h u Hin). specialize (Hu h u Hin). unfold apart in *. lia.
Qed.

Lemma join_loose s lv a n l :
  (∀ h u, (h, u) ∈ lv → 1 ≤ u) → loose s lv a n → (∀ b m, (b, m) ∈ l → loose s lv b m) →
  ∀ b m, (b, m) ∈ join a n l → loose s lv b m.
Proof. intros Hu Ha Hl. apply (join_ind (loose s lv)); [done..|]. intros m. by apply loose_join. Qed.

(** The list with the block [h] put in behind [p]. *)
Lemma insert_block s fl lv h u l1 p k l2 :
  um_ok s fl lv → (base, 0) :: fl = l1 ++ (p, k) :: l2 → loose s lv h u → (∀ a n, (a, n) ∈ fl → apart a n h u) →
  p < h → (∀ b m, (b, m) ∈ l1 → b < p) → (∀ b m, (b, m) ∈ l2 → h < b) →
  ∃ fl', (base, 0) :: fl' = l1 ++ join p k (join h u l2) ∧ gaps ((base, 0) :: fl') ∧
    (∀ a n, (a, n) ∈ fl' → loose s lv a n) ∧ (∀ y, cov fl' y ↔ cov fl y ∨ h ≤ y < h + 16 * u) ∧
    p + 16 * k ≤ h ∧ (∀ b m, (b, m) ∈ l2 → h + 16 * u ≤ b ∧ loose s lv b m) ∧ (p ≠ base → loose s lv p k).
Proof.
  intros O E Hlo Hap Hp H1 H2. pose proof (uo_gaps _ _ _ O) as Hg. rewrite E in Hg.
  assert (∀ h u, (h, u) ∈ lv → 1 ≤ u) as Hu.
  { intros g v Hv. by destruct (uo_blk _ _ _ O g v) as (_ & _ & ? & _); [apply elem_of_app; by right|]. }
  assert (∀ a n, (a, n) ∈ fl → loose s lv a n) as Hfl.
  { intros a n Ha. split; [apply (uo_blk _ _ _ O), elem_of_app; by left|]. intros g v Hv. by apply (uo_apart _ _ _ O). }
  pose proof Hlo as [(Hb1 & Hb2 & Hb3 & Hb4) _].
  apply gaps_app in Hg as (Hg1 & [Hg2 Hg3] & Hg4).
  assert (∀ b m, (b, m) ∈ l2 → (b, m) ∈ fl) as Hl2.
  { intros b m Hb. destruct l1 as [|x l1]; simplify_eq/=; [done|]. apply elem_of_app. right. by right. }
  assert (∀ b m, (b, m) ∈ l2 → h + 16 * u ≤ b ∧ loose s lv b m) as Hup.
  { intros b m Hb. specialize (H2 b m Hb). destruct (Hap b m (Hl2 b m Hb)) as [?|?];
      (split; [|by apply Hfl, Hl2]); [destruct (Hfl b m (Hl2 b m Hb)) as [(_ & _ & ? & _) _]; lia|done]. }
  assert (p + 16 * k ≤ h ∧ 0 ≤ k) as [Hpk Hk].
  { destruct (uo_split_head s fl lv l1 p k l2 O E) as [(-> & -> & _)|(l1' & _ & Hin)]; [lia|].
    destruct (Hfl p k Hin) as [(_ & _ & ? & _) _]. destruct (Hap p k Hin); lia. }
  assert (∀ b m, (b, m) ∈ join h u l2 → h ≤ b ∧ loose s lv b m) as Hj.
  { intros b m Hb. split; [|by eapply (join_loose s lv h u l2); [..|exact Hb]; [done|done|intros ? ? ?; by apply Hup]].
    revert b m Hb. apply (join_ind (λ b _, h ≤ b)); [lia| |lia]. intros b m Hb. destruct (Hup b m Hb). lia. }
  assert (gaps (join p k (join h u l2))) as Hgj.
  { apply gaps_join; [apply gaps_join; [done|lia|]|done|].
    - intros b m Hb. destruct (Hup b m Hb) as [? [(_ & _ & ? & _) _]]. done.
    - intros b m Hb. destruct (Hj b m Hb) as [? [(_ & _ & ? & _) _]]. lia. }
  assert (gaps (l1 ++ join p k (join h u l2))) as Hgall.
  { apply gaps_app. split_and!; [done..|]. intros a n b m Ha Hb. assert (a + 16 * n < p) as Han by (eapply Hg4; [done|by left]).
    enough (p ≤ b) by lia. clear Ha. revert b m Hb. apply (join_ind (λ b _, p ≤ b)); [lia| |lia]. intros b m Hb. destruct (Hj b m Hb). lia. }
  assert (∀ y, cov (join p k (join h u l2)) y ↔ p ≤ y < p + 16 * k ∨ h ≤ y < h + 16 * u ∨ cov l2 y) as Hcov.
  { intros y. rewrite !cov_join; [done|lia| |lia|].
    - intros b m Hb. destruct (Hup b m Hb) as [_ [(_ & _ & ? & _) _]]. lia.
    - intros b m Hb. destruct (Hj b m Hb) as [_ [(_ & _ & ? & _) _]]. lia. }
  destruct (uo_split_head s fl lv l1 p k l2 O E) as [(-> & -> & ->)|(l1' & -> & Hin)]; cbn [app] in E; injection E as Efl.
  - destruct (join_head h u l2) as (u' & r & Ej). assert (join base 0 (join h u l2) = (base, 0) :: join h u l2) as Ejb.
    { rewrite Ej. cbn. by rewrite (proj2 (Z.eqb_neq _ _)) by lia. }
    exists (join h u l2). rewrite Ejb in *. split_and!; try done.
    + intros a n Ha. by apply Hj.
    + intros y. specialize (Hcov y). rewrite cov_cons in Hcov. rewrite Efl. intuition lia.
  - exists (l1' ++ join p k (join h u l2)). split_and!; try done.
    + intros a n [Ha|Ha]%elem_of_app; [apply Hfl; rewrite Efl; apply elem_of_app; by left|].
      eapply (join_loose s lv p k (join h u l2)); [done|by apply Hfl| |exact Ha]. intros b m Hb. by apply Hj.
    + intros y. rewrite Efl, !cov_app, Hcov, cov_cons. tauto.
    + intros _. by apply Hfl.
Qed.

(** Headers outside the free blocks are as they were. *)
Definition um_kept (fl' : blks) (s s' : um_st) : Prop :=
  ∀ y, ¬ cov fl' y → y ≠ base → um_ptr s' y = um_ptr s y ∧ um_size s' y = um_size s y.

Lemma runs_free h u s fl lv :
  um_ok s fl lv → loose s lv h u → um_size s h = u → (∀ a n, (a, n) ∈ fl → apart a n h u) →
  runs (free (h + 16)) s (λ _ s', um_brk s' = um_brk s ∧ ∃ fl', um_ok s' fl' lv ∧ um_kept fl' s s' ∧
    (length fl' ≤ S (length fl))%nat ∧ ∀ y, cov fl' y ↔ cov fl y ∨ h ≤ y < h + 16 * u).
Proof.
  intros O Hlo Hsz Hap. pose proof Hlo as [(Hb1 & Hb2 & Hb3 & Hb4) Hlv]. pose proof (uo_brk _ _ _ O) as [Hbrk _].
  pose proof (uo_base _ _ _ O) as [Hbase _].
  assert (∀ a n, (a, n) ∈ fl → 1 ≤ n ∧ base < a ∧ a + 16 * n ≤ um_brk s) as Hfl.
  { intros a n Ha. destruct (uo_blk _ _ _ O a n) as (? & _ & ? & ?); [apply elem_of_app; by left|done]. }
  assert (∀ h u, (h, u) ∈ lv → 1 ≤ u) as Hlvu.
  { intros g v Hv. by destruct (uo_blk _ _ _ O g v) as (_ & _ & ? & _); [apply elem_of_app; by right|]. }
  destruct (gaps_split h base 0 fl (uo_gaps _ _ _ O)) as (l1 & p & k & l2 & E & Hp & H1 & H2); [lia|..].
  { intros b m Hb. destruct (Hap b m Hb), (Hfl b m Hb); lia. }
  { intros b m [[= -> ->]|Hb]%elem_of_cons; [lia|]. destruct (Hfl b m Hb); lia. }
  destruct (insert_block s fl lv h u l1 p k l2) as (fl' & E' & Hg' & Hfl' & Hcov & Hpk & Hup & Hpl); [done..|].
  assert (base ≤ p ∧ 0 ≤ k ≤ 2 ^ 27) as [Hbp Hk].
  { destruct (uo_split_head s fl lv l1 p k l2 O E) as [(-> & -> & _)|(l1' & _ & Hin)]; [lia|].
    destruct (Hfl p k Hin) as (? & ? & ?). lia. }
  pose proof (uo_ring _ _ _ O) as Hr. rewrite E in Hr. apply ring_app in Hr as [Hr1 (Hpz & Hpn & Hr2)].
  unfold free, HDR. replace (h + 16 - 16) with h by lia. kstep.
  kapply (runs_free_find h s fl lv l1 p k l2); [done|lia|done..|]. intros r s' [-> ->].
  kstep. kstep. kstep. kstep. rewrite Hpn, Hsz. kstep. kapply (runs_link h u l2 base s Hsz Hr2).
  { intros b m Hb. destruct (Hup b m Hb) as [? [(_ & _ & ? & ?) _]]. lia. } { lia. }
  intros [] s1 (R1 & P1 & K1 & S1). kstep. kstep. destruct (S1 p ltac:(lia)) as [_ Ep]. rewrite Ep, Hpz. kstep.
  destruct (join_head h u l2) as (u' & r & Ej).
  assert (h = hd_addr (join h u l2) base) as Eh by by rewrite Ej. rewrite Eh at 1.
  kapply (runs_link p k (join h u l2) base s1); [congruence|done|..].
  { intros b m Hb. assert (h ≤ b) as Hhb.
    { revert b m Hb. apply (join_ind (λ b _, h ≤ b)); [lia| |lia]. intros b m Hb. destruct (Hup b m Hb). lia. }
    destruct (join_loose s lv h u l2 Hlvu Hlo ltac:(intros; by apply Hup) b m Hb) as [(_ & _ & ? & ?) _]. lia. }
  { by rewrite Ej. }
  intros [] s2 (R2 & P2 & K2 & S2). kstep. split; [cbn; congruence|]. exists fl'.
  assert (∀ y, y ≠ p → y ≠ h → um_ptr s2 y = um_ptr s y ∧ um_size s2 y = um_size s y) as S12.
  { intros y Hy1 Hy2. destruct (S2 y Hy1) as [-> ->]. by apply S1. }
  assert (cov fl' h) as Hch by (apply Hcov; right; lia).
  assert (p = base ∨ cov fl' p) as Hcp.
  { destruct (decide (p = base)) as [|Hne]; [by left|right]. apply Hcov. left.
    destruct (uo_split_head s fl lv l1 p k l2 O E) as [(? & _)|(l1' & _ & Hin)]; [done|]. exists p, k. split; [done|].
    destruct (Hpl Hne) as [(_ & _ & ? & _) _]. lia. }
  assert (um_kept fl' s (set_ufreep p s2)) as Hkept.
  { intros y Hy Hyb. apply S12; [|by intros ->]. intros ->. by destruct Hcp. }
  assert (ring (set_ufreep p s2) ((base, 0) :: fl') base) as Hring.
  { apply (ring_ext s2 _ ((base, 0) :: fl')); [done|]. rewrite E'. destruct (join_head p k (join h u l2)) as (k' & r' & Ek). rewrite Ek in *.
    apply ring_app. split; [|done]. eapply ring_ext; [|exact Hr1]. intros b m Hb. specialize (H1 b m Hb).
    destruct (S12 b) as [? ?]; [lia..|done]. }
  assert (length fl' ≤ S (length fl))%nat as Hlen.
  { apply (f_equal length) in E, E'. rewrite !length_app in *. cbn in *.
    pose proof (join_length p k (join h u l2)). pose proof (join_length h u l2). lia. }
  split_and!; [|done..]. split; try done.
  - by apply O.
  - cbn. rewrite K2, K1. by apply O.
  - destruct (join_head p k (join h u l2)) as (k' & r' & Ek). exists k'. rewrite E', Ek. apply elem_of_app. right. by left.
  - intros a n [Ha|Ha]%elem_of_app; unfold blk_ok; cbn; rewrite K2, K1; [by destruct (Hfl' a n Ha)|].
    apply (uo_blk _ _ _ O), elem_of_app. by right.
  - intros g v Hv. rewrite <- (uo_live _ _ _ O g v Hv). specialize (Hlvu g v Hv).
    assert (base < g) as Hg by (destruct (uo_blk _ _ _ O g v) as [? _]; [apply elem_of_app; by right|done]).
    apply (Hkept g); [|lia]. intros (a & n & Ha & Hy). destruct (Hfl' a n Ha) as [(_ & _ & ? & _) Hd]. destruct (Hd g v Hv); lia.
  - intros a n g v Ha Hv. by apply (Hfl' a n Ha).
Qed.

(** ** malloc *)

(** A range of free memory lies in one free block. *)
Lemma cov_one l a n :
  gaps l → (∀ b m, (b, m) ∈ l → 1 ≤ m) → 1 ≤ n → (∀ y, a ≤ y < a + 16 * n → cov l y) →
  ∃ b m, (b, m) ∈ l ∧ b ≤ a ∧ a + 16 * n ≤ b + 16 * m.
Proof.
  intros Hg Hm Hn Hc. destruct (Hc a ltac:(lia)) as (b & m & Hb & Hy). exists b, m. split_and!; [done|lia|].
  destruct (decide (a + 16 * n ≤ b + 16 * m)) as [|Hlt]; [done|]. exfalso.
  destruct (Hc (b + 16 * m) ltac:(lia)) as (c & j & Hcj & Hy').
  apply list_elem_of_split in Hb as (l1 & l2 & ->). apply gaps_app in Hg as (_ & [Hg2 _] & Hg3).
  pose proof (Hm c j Hcj). apply elem_of_app in Hcj as [Hcj|[[= -> ->]|Hcj]%elem_of_cons].
  - specialize (Hg3 c j b m Hcj ltac:(by left)). pose proof (Hm b m ltac:(apply elem_of_app; right; by left)). lia.
  - lia.
  - specialize (Hg2 c j Hcj). lia.
Qed.

(** What is left of a block of [z] headers when the last ones are taken. *)
Definition cut (p w : Z) : blks := if w =? 0 then [] else [(p, w)].

Lemma um_ok_take s s' fl lv f1 p z a3 nunits :
  um_ok s fl lv → fl = f1 ++ (p, z) :: a3 → 1 ≤ nunits ≤ z →
  let h := p + 16 * (z - nunits) in let fl' := f1 ++ cut p (z - nunits) ++ a3 in
  um_brk s' = um_brk s → (∃ n, (um_freep s', n) ∈ (base, 0) :: f1) → ring s' ((base, 0) :: fl') base →
  um_size s' h = nunits → (∀ g v, (g, v) ∈ lv → um_size s' g = um_size s g) →
  um_ok s' fl' ((h, nunits) :: lv) ∧ (∀ y, cov fl y ↔ cov fl' y ∨ h ≤ y < h + 16 * nunits).
Proof.
  intros O Efl Hn h fl' Ebrk (nf & Hf) Hr Hh Hlv. pose proof (uo_gaps _ _ _ O) as Hg.
  destruct (uo_blk _ _ _ O p z) as (Hpb & Hpm & Hpz & Hpe); [rewrite Efl, <- app_assoc; apply elem_of_app; right; by left|].
  rewrite Efl in Hg. change ((base, 0) :: f1 ++ (p, z) :: a3) with (((base, 0) :: f1) ++ (p, z) :: a3) in Hg.
  apply gaps_app in Hg as (Hg1 & [Hg2 Hg3] & Hg4).
  assert (∀ b m, (b, m) ∈ cut p (z - nunits) → b = p ∧ m = z - nunits ∧ 1 ≤ m) as Hcut.
  { intros b m. unfold cut. destruct (Z.eqb_spec (z - nunits) 0); [by intros ?%elem_of_nil|].
    intros [= -> ->]%list_elem_of_singleton. lia. }
  assert (∀ b m, (b, m) ∈ fl' → blk_ok s b m ∧ apart b m h nunits ∧ ∀ g v, (g, v) ∈ lv → apart b m g v) as Hfl'.
  { intros b m [Hb|[Hb|Hb]%elem_of_app]%elem_of_app.
    - assert ((b, m) ∈ fl) as Hbf by (rewrite Efl; apply elem_of_app; by left). split_and!.
      + apply (uo_blk _ _ _ O), elem_of_app. by left.
      + left. specialize (Hg4 b m p z ltac:(by right) ltac:(by left)). unfold h. lia.
      + intros g v. by apply (uo_apart _ _ _ O).
    - destruct (Hcut b m Hb) as (-> & -> & ?). split_and!; [by split_and!; [..|lia]| |].
      + left. unfold h. lia.
      + intros g v Hv. destruct (uo_apart _ _ _ O p z g v) as [?|?]; [rewrite Efl; apply elem_of_app; right; by left|done| |];
          [left; lia|right; lia].
    - assert ((b, m) ∈ fl) as Hbf by (rewrite Efl; apply elem_of_app; right; by right). split_and!.
      + apply (uo_blk _ _ _ O), elem_of_app. by left.
      + right. specialize (Hg2 b m Hb). unfold h. lia.
      + intros g v. by apply (uo_apart _ _ _ O). }
  split.
  2:{ intros y. unfold fl'. rewrite Efl, !cov_app, cov_cons. unfold cut, h. destruct (Z.eqb_spec (z - nunits) 0).
      - pose proof (cov_nil y). intuition lia.
      - rewrite cov_cons. pose proof (cov_nil y). intuition lia. }
  split.
  - by apply O.
  - rewrite Ebrk. by apply O.
  - exists nf. unfold fl'. rewrite elem_of_cons in Hf |- *. rewrite elem_of_app. tauto.
  - done.
  - change ((base, 0) :: fl') with (((base, 0) :: f1) ++ cut p (z - nunits) ++ a3). apply gaps_app. split_and!; [done|..].
    + unfold cut. destruct (Z.eqb_spec (z - nunits) 0); [done|]. split; [|done]. intros b m Hb. specialize (Hg2 b m Hb). lia.
    + intros a n b m Ha [Hb|Hb]%elem_of_app; [destruct (Hcut b m Hb) as (-> & _); eapply Hg4; [done|by left]|].
      eapply Hg4; [done|by right].
  - intros a n [Ha|[[= -> ->]|Ha]%elem_of_cons]%elem_of_app; unfold blk_ok; rewrite Ebrk.
    + by destruct (Hfl' a n Ha) as [? _].
    + unfold h. split_and!; [lia|dlia|lia|lia].
    + apply (uo_blk _ _ _ O), elem_of_app. by right.
  - intros g v [[= -> ->]|Hv]%elem_of_cons; [done|]. rewrite (Hlv g v Hv). by apply (uo_live _ _ _ O).
  - intros a n g v Ha Hv. destruct (Hfl' a n Ha) as (_ & Hd1 & Hd2).
    apply elem_of_cons in Hv as [[= -> ->]|Hv]; [done|by apply Hd2].
Qed.

(** The end of the block [p], behind [q] on the list, is taken. *)
Lemma runs_take nunits a1 q zq p z a3 s fl lv :
  um_ok s fl lv → (base, 0) :: fl = a1 ++ (q, zq) :: (p, z) :: a3 → 1 ≤ nunits ≤ z →
  runs (if z =? nunits then
      n ← gets (λ s, um_ptr s p);
      put_ptr q n;;
      modify (set_ufreep q);;
      mret (inr (p + HDR) : Z * Z + Z)
    else
      put_size p (z - nunits);;
      z' ← gets (λ s, um_size s p);
      let p := p + z' * HDR in
      put_size p nunits;;
      modify (set_ufreep q);;
      mret (inr (p + HDR))) s (λ r s', ∃ h fl', r = inr (h + 16) ∧ um_brk s' = um_brk s ∧ um_kept fl s s' ∧
    um_ok s' fl' ((h, nunits) :: lv) ∧ (∀ y, cov fl y ↔ cov fl' y ∨ h ≤ y < h + 16 * nunits)).
Proof.
  intros O E Hn. pose proof (uo_brk _ _ _ O) as [Hbrk Hbrkm]. pose proof (uo_base _ _ _ O) as [Hbase _].
  pose proof (uo_ring _ _ _ O) as Hr. pose proof (uo_gaps _ _ _ O) as Hg. rewrite E in Hr, Hg.
  apply ring_app in Hr as [Hr1 (Hq1 & Hq2 & Hp1 & Hp2 & Hr3)]. cbn in Hq2.
  assert (∃ f1 f2, fl = f1 ++ (p, z) :: f2 ∧ (base, 0) :: f1 = a1 ++ [(q, zq)] ∧ f2 = a3) as (f1 & f2 & Efl & Ef1 & ->).
  { destruct a1 as [|x a1]; cbn in E; injection E.
    - intros -> <- <-. by exists [], a3.
    - intros -> <-. exists (a1 ++ [(q, zq)]), a3. by rewrite <- app_assoc. }
  assert ((p, z) ∈ fl) as Hpin by (rewrite Efl; apply elem_of_app; right; by left).
  destruct (uo_blk _ _ _ O p z) as (Hpb & Hpm & Hpz & Hpe); [apply elem_of_app; by left|].
  assert (∀ b m, (b, m) ∈ f1 ++ a3 → (b, m) ∈ fl) as Hsub.
  { intros b m. rewrite Efl, !elem_of_app, elem_of_cons. tauto. }
  assert (∀ b m, (b, m) ∈ fl → 1 ≤ m ∧ base < b) as Hfl.
  { intros b m Hb. destruct (uo_blk _ _ _ O b m) as (? & _ & ? & _); [apply elem_of_app; by left|done]. }
  assert (q = base ∨ (q, zq) ∈ f1) as Hqin.
  { destruct a1 as [|x a1]; cbn in Ef1; injection Ef1; [intros _ _ <-; by left|]. intros -> _. right. apply elem_of_app. right. by left. }
  apply gaps_app in Hg as (Hg1 & [Hg2 [Hg3 Hg4]] & Hg5).
  assert (∀ b m, (b, m) ∈ a1 → b < q ∧ b < p) as Ha1.
  { intros b m Hb. assert (0 ≤ m).
    { assert ((b, m) ∈ (base, 0) :: f1) as [[= -> ->]|Hb']%elem_of_cons by (rewrite Ef1; apply elem_of_app; by left); [lia|].
      destruct (Hfl b m); [apply Hsub, elem_of_app; by left|lia]. }
    pose proof (Hg5 b m q zq Hb ltac:(by left)). pose proof (Hg5 b m p z Hb ltac:(right; by left)). lia. }
  assert (q < p) as Hqp.
  { specialize (Hg2 p z ltac:(by left)). destruct Hqin as [->|Hqin]; [lia|].
    destruct (Hfl q zq); [apply Hsub, elem_of_app; by left|lia]. }
  assert (∀ b m, (b, m) ∈ f1 → b + 16 * m < p) as Hf1.
  { intros b m Hb. assert ((b, m) ∈ a1 ++ [(q, zq)]) as [Hb'|Hb'%list_elem_of_singleton]%elem_of_app by (rewrite <- Ef1; by right).
    - apply (Hg5 b m p z Hb'). right. by left.
    - injection Hb' as -> ->. apply (Hg2 p z). by left. }
  assert (∀ g v, (g, v) ∈ lv → base < g ∧ (g < p ∨ p + 16 * z ≤ g)) as Hlvp.
  { intros g v Hv. destruct (uo_blk _ _ _ O g v) as (? & _ & ? & _); [apply elem_of_app; by right|].
    destruct (uo_apart _ _ _ O p z g v Hpin Hv); lia. }
  assert (∀ b m, (b, m) ∈ a3 → p + 16 * z < b) as Ha3 by done.
  assert (∃ n, (q, n) ∈ (base, 0) :: f1) as Hfq by (exists zq; rewrite Ef1; apply elem_of_app; right; by left).
  assert (∀ y, ¬ cov fl y → y ≠ base → y ≠ q ∧ (y < p ∨ p + 16 * z ≤ y)) as Hout.
  { intros y Hy Hyb. split.
    - intros ->. destruct Hqin as [?|Hqin]; [done|]. apply Hy. exists q, zq.
      destruct (Hfl q zq); [apply Hsub, elem_of_app; by left|]. split; [apply Hsub, elem_of_app; by left|lia].
    - destruct (decide (p ≤ y < p + 16 * z)); [|lia]. destruct Hy. by exists p, z. }
  unfold put_ptr, put_size, HDR.
  destruct (Z.eqb_spec z nunits) as [<-|Hne].
  - kgo. exists p, (f1 ++ cut p (z - z) ++ a3). set (s' := set_ufreep q _).
    destruct (um_ok_take s s' fl lv f1 p z a3 z O Efl) as [O' Hc]; [lia|done|done| |by rewrite Z.sub_diag, Z.mul_0_r, Z.add_0_r|done|].
    { unfold cut. rewrite Z.sub_diag. cbn [Z.eqb app].
      change ((base, 0) :: f1 ++ a3) with (((base, 0) :: f1) ++ a3). rewrite Ef1, <- app_assoc. cbn [app].
      apply ring_app. split; [|cbn; rewrite fset_eq; split_and!; [done..|]].
      - eapply ring_ext; [|exact Hr1]. intros b m Hb. cbn. rewrite fset_ne; [done|]. destruct (Ha1 b m Hb). lia.
      - eapply ring_ext; [|exact Hr3]. intros b m Hb. cbn. rewrite fset_ne; [done|]. specialize (Ha3 b m Hb). lia. }
    rewrite Z.sub_diag, Z.mul_0_r, Z.add_0_r in O', Hc. rewrite Z.sub_diag. split_and!; try done.
    intros y Hy Hyb. cbn. rewrite fset_ne; [done|]. by apply Hout.
  - kgo. rewrite fset_eq, u32_small by lia. set (s' := set_ufreep q _). set (h := p + (z - nunits) * 16) in *.
    exists h, (f1 ++ cut p (z - nunits) ++ a3).
    destruct (um_ok_take s s' fl lv f1 p z a3 nunits O Efl Hn) as [O' Hc]; [done|done| | | |].
    { unfold cut. rewrite (proj2 (Z.eqb_neq _ _)) by lia. cbn [app].
      change ((base, 0) :: f1 ++ (p, z - nunits) :: a3) with (((base, 0) :: f1) ++ (p, z - nunits) :: a3).
      rewrite Ef1, <- app_assoc. cbn [app]. apply ring_app. split.
      - eapply ring_ext; [|exact Hr1]. intros b m Hb. cbn. destruct (Ha1 b m Hb). rewrite !fset_ne by (unfold h; lia). done.
      - cbn. rewrite !(fset_ne _ _ _ q) by (unfold h; lia). rewrite (fset_ne _ _ _ p), fset_eq by (unfold h; lia).
        split_and!; try done. eapply ring_ext; [|exact Hr3]. intros b m Hb. cbn. specialize (Ha3 b m Hb).
        rewrite !fset_ne by (unfold h; lia). done. }
    { cbn. replace (p + 16 * (z - nunits)) with h by (unfold h; lia). rewrite fset_eq. apply u32_small. lia. }
    { intros g v Hv. destruct (Hlvp g v Hv). cbn. rewrite !fset_ne by (unfold h; lia). done. }
    replace (p + 16 * (z - nunits)) with h in O', Hc by (unfold h; lia). split_and!; try done.
    intros y Hy Hyb. destruct (Hout y Hy Hyb). cbn. rewrite !fset_ne by (unfold h; lia). done.
Qed.
End heap.

(** * malloc and its growth of memory

    [malloc] goes around the free list once; if no block is large enough it asks the
    kernel for more memory, frees that, and finds a block in the next round. *)

Section ops.
Context (base : Z) (grant : Z → Z → bool).
Context (Hgrant : ∀ b n, grant b n = true → b + n ≤ 2 ^ 31).

#[local] Arguments free : simpl never.
#[local] Arguments malloc_scan : simpl never.

Definition grow_units (nu : Z) : Z := if nu <? 4096 then 4096 else nu.

(** Memory ends behind the static header. *)
Definition um_inv (s : um_st) (fl lv : blks) : Prop := um_ok base s fl lv ∧ base < um_brk s.

Lemma runs_morecore nu s fl lv :
  um_inv s fl lv → 1 ≤ nu < 2 ^ 27 →
  runs (morecore grant nu) s (λ r s',
    (grant (um_brk s) (16 * grow_units nu) = false ∧ r = 0 ∧ s' = s) ∨
    (grant (um_brk s) (16 * grow_units nu) = true ∧ r = um_freep s' ∧ r ≠ 0 ∧
     um_brk s' = um_brk s + 16 * grow_units nu ∧ ∃ fl', um_inv s' fl' lv ∧ um_kept base fl' s s' ∧
       (length fl' ≤ S (length fl))%nat ∧ ∀ y, cov fl' y ↔ cov fl y ∨ um_brk s ≤ y < um_brk s + 16 * grow_units nu)).
Proof.
  intros [O Hb] Hnu. unfold morecore, sbrk, HDR. fold (grow_units nu). set (g := grow_units nu).
  assert (1 ≤ g < 2 ^ 27 ∧ nu ≤ g) as [Hg Hng] by (unfold g, grow_units; destruct (Z.ltb_spec nu 4096); lia).
  rewrite i32_small by lia. rewrite (Z.mul_comm g 16). kstep. kstep. kstep. change (um_brk (id s)) with (um_brk s).
  pose proof (uo_base _ _ _ _ O) as [Hbase _]. pose proof (uo_brk _ _ _ _ O) as [Hbrk Hbrkm].
  destruct (grant (um_brk s) (16 * g)) eqn:Eg; [|kgo; by left]. pose proof (Hgrant _ _ Eg) as Hlim.
  kstep. kstep. kstep. rewrite (proj2 (Z.eqb_neq (um_brk s) (-1))) by lia. unfold put_size. kstep. kstep.
  rewrite u32_small by lia. set (s1 := set_usize _ _). kstep.
  assert (∀ a n, (a, n) ∈ fl ++ lv → blk_ok base s a n) as Hblk by apply O.
  assert (∀ y, y ≠ um_brk s → um_ptr s1 y = um_ptr s y ∧ um_size s1 y = um_size s y) as Hs1.
  { intros y Hy. cbn. by rewrite fset_ne. }
  assert (um_ok base s1 fl lv) as O1.
  { destruct O as [O1 O2 O3 O4 O5 O6 O7 O8]. split; try done.
    - cbn. split; [lia|dlia].
    - eapply ring_ext; [|exact O4]. intros a n Ha. destruct (Hs1 a) as [? ?]; [|done].
      apply elem_of_cons in Ha as [[= -> ->]|Ha]; [lia|]. destruct (Hblk a n) as (_ & _ & ? & ?); [apply elem_of_app; by left|lia].
    - intros a n Ha. destruct (O6 a n Ha) as (? & ? & ? & ?). split_and!; try done. cbn. lia.
    - intros h u Hu. rewrite <- (O7 h u Hu). destruct (Hblk h u) as (_ & _ & ? & ?); [apply elem_of_app; by right|]. apply Hs1. lia. }
  kapply (runs_free base (um_brk s) g s1 fl lv O1).
  - split; [split_and!; cbn; [lia|done|lia|lia]|]. intros h u Hu. right.
    destruct (Hblk h u) as (_ & _ & ? & ?); [apply elem_of_app; by right|done].
  - cbn. apply fset_eq.
  - intros a n Ha. left. destruct (Hblk a n) as (_ & _ & ? & ?); [apply elem_of_app; by left|done].
  - intros [] s2 (K & fl' & O2 & Hk & Hlen & Hc). kstep. right. destruct (uo_freep _ _ _ _ O2) as (nf & Hf).
    split_and!; [done..| |by rewrite K|].
    + apply elem_of_cons in Hf as [[= -> _]|Hf]; [lia|]. destruct (uo_blk _ _ _ _ O2 (um_freep s2) nf) as [? _]; [apply elem_of_app; by left|lia].
    + exists fl'. split_and!; [split; [done|rewrite K; cbn; lia]| |done..].
      intros y Hy Hyb. destruct (Hk y Hy Hyb) as [-> ->]. apply Hs1. intros ->. apply Hy, Hc. right. lia.
Qed.

Lemma gaps_nodup l : gaps l → (∀ b m, (b, m) ∈ l → 0 ≤ m) → NoDup l.*1.
Proof.
  induction l as [|[a n] l IH]; intros Hg Hm; cbn; [constructor|]. destruct Hg as [Hg1 Hg2]. constructor.
  - intros ([b m] & E & Hb)%list_elem_of_fmap. cbn in E. subst b. specialize (Hg1 a m Hb). specialize (Hm a n ltac:(by left)). lia.
  - apply IH; [done|]. intros b m Hb. apply (Hm b m). by right.
Qed.

Lemma nodes_nonneg s fl lv b m : um_ok base s fl lv → (b, m) ∈ (base, 0) :: fl → 0 ≤ m ∧ base ≤ b.
Proof.
  intros O [[= -> ->]|Hb]%elem_of_cons; [lia|]. destruct (uo_blk _ _ _ _ O b m) as (? & _ & ? & _); [apply elem_of_app; by left|lia].
Qed.

(** The block behind [prevp], when it is not [base], follows it on the list. *)
Lemma behind s fl lv q zq p z :
  um_ok base s fl lv → (q, zq) ∈ (base, 0) :: fl → um_ptr s q = p → p ≠ base → um_size s p = z →
  ∃ a1 a3, (base, 0) :: fl = a1 ++ (q, zq) :: (p, z) :: a3.
Proof.
  intros O Hq Hp Hne Hz. apply list_elem_of_split in Hq as (a1 & a2 & E). pose proof (uo_ring _ _ _ _ O) as Hr.
  rewrite E in Hr. apply ring_app in Hr as [_ (_ & Hn & Hr)]. destruct a2 as [|[b m] a2]; cbn in Hn; [congruence|].
  destruct Hr as (Hm & _). exists a1, a2. rewrite E. do 3 f_equal. congruence.
Qed.

(** What [malloc] does: it finds no memory, or takes a block from the free ones, which it
    has added to only if none was large enough. *)
Definition got (nunits : Z) (s : um_st) (fl lv : blks) (r : Z) (s' : um_st) : Prop :=
  (r = 0 ∧ s' = s ∧ (∀ b m, (b, m) ∈ fl → m < nunits) ∧ grant (um_brk s) (16 * grow_units nunits) = false) ∨
  ∃ fl1 fl' h, r = h + 16 ∧ um_inv s' fl' ((h, nunits) :: lv) ∧ um_kept base fl1 s s' ∧
    (∀ y, cov fl1 y ↔ cov fl' y ∨ h ≤ y < h + 16 * nunits) ∧
    ((fl1 = fl ∧ um_brk s' = um_brk s) ∨
     ((∀ b m, (b, m) ∈ fl → m < nunits) ∧ grant (um_brk s) (16 * grow_units nunits) = true ∧
      um_brk s' = um_brk s + 16 * grow_units nunits ∧
      ∀ y, cov fl1 y ↔ cov fl y ∨ um_brk s ≤ y < um_brk s + 16 * grow_units nunits)).

(** Where the search stands: the blocks [c1] behind the start are too small. *)
Definition scanning (nunits : Z) (s : um_st) (fl : blks) (prevp p : Z) (c1 c2 : blks) : Prop :=
  ∃ k1 nf k2 z zq, (base, 0) :: fl = k1 ++ (um_freep s, nf) :: k2 ∧
    k2 ++ (k1 ++ [(um_freep s, nf)]) = c1 ++ (p, z) :: c2 ∧
    (prevp, zq) ∈ (base, 0) :: fl ∧ um_ptr s prevp = p ∧ ∀ b m, (b, m) ∈ c1 → m < nunits.

(** The search may begin at the block behind [freep]. *)
Lemma scanning_start nunits s fl lv :
  um_ok base s fl lv → ∃ c2, scanning nunits s fl (um_freep s) (um_ptr s (um_freep s)) [] c2 ∧ length c2 = length fl.
Proof.
  intros O. destruct (uo_freep _ _ _ _ O) as (nf & Hf). pose proof Hf as Hf'. apply list_elem_of_split in Hf' as (k1 & k2 & E).
  destruct (cyc_rotate base s fl lv k1 (um_freep s) nf k2 O E) as (Hc & Hl & _).
  pose proof (uo_ring _ _ _ _ O) as Hr. rewrite E in Hr. apply ring_app in Hr as [_ (_ & Hn & _)].
  destruct (k2 ++ (k1 ++ [(um_freep s, nf)])) as [|[p z] c2] eqn:Ec; [by destruct k2, k1|].
  assert (um_ptr s (um_freep s) = p) as Ep.
  { rewrite Hn. destruct k2 as [|[b m] k2]; cbn in Ec |- *; [|by injection Ec as -> -> _].
    destruct k1 as [|[b m] k1]; cbn in E, Ec; injection E as E1 _ _; injection Ec as E2 _ _; congruence. }
  exists c2. cbn in Hl. split; [|lia]. exists k1, nf, k2, z, nf. rewrite Ep. split_and!; try done. by intros b m ?%elem_of_nil.
Qed.

(** One step of the search that does not end it. *)
Lemma scanning_next nunits s fl lv prevp p c1 c2 :
  um_ok base s fl lv → scanning nunits s fl prevp p c1 c2 → um_size s p < nunits →
  (p = um_freep s ∧ ∀ b m, (b, m) ∈ fl → m < nunits) ∨
  (p ≠ um_freep s ∧ ∃ c1' c2', scanning nunits s fl p (um_ptr s p) c1' c2' ∧ (length c2' < length c2)%nat).
Proof.
  intros O (k1 & nf & k2 & z & zq & E & Ec & Hq & Hp & Hc1) Hz.
  destruct (cyc_rotate base s fl lv k1 (um_freep s) nf k2 O E) as (Hr & _ & Hin). rewrite Ec in Hr, Hin.
  apply ring_app in Hr as Hr'. destruct Hr' as [_ (Hz' & Hn & _)].
  assert ((p, z) ∈ (base, 0) :: fl) as Hpin by (apply Hin, elem_of_app; right; by left).
  assert (NoDup (c1 ++ (p, z) :: c2).*1) as Hnd.
  { rewrite <- Ec. assert (NoDup ((base, 0) :: fl).*1) as Hnd.
    { apply gaps_nodup; [apply O|]. intros b m Hb. by apply (nodes_nonneg s fl lv b m O). }
    rewrite E in Hnd. assert ((k2 ++ (k1 ++ [(um_freep s, nf)])).*1 ≡ₚ (k1 ++ (um_freep s, nf) :: k2).*1) as ->; [|done].
    apply fmap_Permutation. rewrite (Permutation_app_comm k2), <- app_assoc. done. }
  destruct (decide (p = um_freep s)) as [Epf|Hne]; [left|right]; (split; [done|]).
  - assert (c2 = []) as ->.
    { destruct (exists_last (l := (p, z) :: c2)) as (d & [x w] & Ed); [done|]. rewrite Ed, app_assoc in Ec.
      rewrite app_assoc in Ec. apply app_inj_tail in Ec as [_ Elast]. injection Elast as <- <-.
      destruct d as [|y d]; cbn in Ed; [by injection Ed|]. exfalso. injection Ed as <- ->.
      rewrite fmap_app in Hnd. apply NoDup_app in Hnd as (_ & _ & Hnd). cbn in Hnd. apply NoDup_cons in Hnd as [Hn' _].
      apply Hn'. rewrite fmap_app. apply elem_of_app. right. cbn. rewrite Epf. by left. }
    intros b m Hb. assert ((b, m) ∈ c1 ++ [(p, z)]) as [Hb'|Hb'%list_elem_of_singleton]%elem_of_app by (apply Hin; by right).
    + by eapply Hc1.
    + injection Hb' as -> ->. lia.
  - destruct c2 as [|[r j] c2].
    { exfalso. rewrite app_assoc in Ec. apply app_inj_tail in Ec as [_ Elast]. congruence. }
    cbn in Hn. exists (c1 ++ [(p, z)]), c2. split; [|cbn; lia]. exists k1, nf, k2, j, z. rewrite Hn. split_and!; try done.
    + rewrite Ec, <- app_assoc. done.
    + intros b m [Hb|Hb%list_elem_of_singleton]%elem_of_app; [by eapply Hc1|]. injection Hb as -> ->. lia.
Qed.

Lemma scanning_big nunits s fl lv prevp p c1 c2 :
  um_ok base s fl lv → scanning nunits s fl prevp p c1 c2 → 1 ≤ nunits → nunits ≤ um_size s p →
  ∃ a1 zq a3, (base, 0) :: fl = a1 ++ (prevp, zq) :: (p, um_size s p) :: a3.
Proof.
  intros O (k1 & nf & k2 & z & zq & E & Ec & Hq & Hp & Hc1) Hn Hbig.
  destruct (behind s fl lv prevp zq p (um_size s p) O Hq Hp) as (a1 & a3 & Ea); [|done|by exists a1, zq, a3].
  intros ->. pose proof (uo_ring _ _ _ _ O) as (Hz & _). lia.
Qed.

Lemma runs_malloc_scan nunits s fl lv :
  um_inv s fl lv → 1 ≤ nunits < 2 ^ 27 →
  runs (malloc_scan grant nunits (um_freep s) (um_ptr s (um_freep s))) s (λ r s', got nunits s fl lv r s').
Proof.
  intros Hinv Hnu. pose proof Hinv as [O Hbk]. pose proof (um_ok_length base s fl lv O ltac:(lia)) as Hlen.
  destruct (scanning_start nunits s fl lv O) as (c0 & Hsc0 & Hl0).
  unfold malloc_scan. kstep. kstep.
  apply (runs_loop_nat _ (λ n '(prevp, p) s',
    (s' = s ∧ ∃ c1 c2, scanning nunits s fl prevp p c1 c2 ∧ n = (length c2 + length fl + 3)%nat) ∨
    (∃ fl1 c1 c2, um_inv s' fl1 lv ∧ um_kept base fl1 s s' ∧ (∀ b m, (b, m) ∈ fl → m < nunits) ∧
      grant (um_brk s) (16 * grow_units nunits) = true ∧ um_brk s' = um_brk s + 16 * grow_units nunits ∧
      (∀ y, cov fl1 y ↔ cov fl y ∨ um_brk s ≤ y < um_brk s + 16 * grow_units nunits) ∧
      scanning nunits s' fl1 prevp p c1 c2 ∧ n = length c2)) _ _ (length c0 + length fl + 3)%nat).
  2:{ left. split; [done|]. by exists [], c0. }
  2:{ unfold um_fuel, HDR. change (um_brk (id s)) with (um_brk s). lia. }
  intros n [prevp p] s' HI. 
  assert (∃ fl1 c1 c2, um_inv s' fl1 lv ∧ scanning nunits s' fl1 prevp p c1 c2 ∧ um_kept base fl1 s s' ∧
    ((s' = s ∧ fl1 = fl ∧ n = (length c2 + length fl + 3)%nat) ∨
     ((∀ b m, (b, m) ∈ fl → m < nunits) ∧ grant (um_brk s) (16 * grow_units nunits) = true ∧
      um_brk s' = um_brk s + 16 * grow_units nunits ∧
      (∀ y, cov fl1 y ↔ cov fl y ∨ um_brk s ≤ y < um_brk s + 16 * grow_units nunits) ∧ n = length c2)))
    as (fl1 & c1 & c2 & Hinv1 & Hsc & Hk & Hph).
  { destruct HI as [(-> & c1 & c2 & Hsc & ->)|(fl1 & c1 & c2 & H')].
    - exists fl, c1, c2. split_and!; [done..|by left].
    - exists fl1, c1, c2. destruct H' as (? & ? & ? & ? & ? & ? & ? & ?). split_and!; [done..|]. right. done. }
  clear HI. pose proof Hinv1 as [O1 Hbk1]. kstep. kstep. kstep; intros Hb; zify_bool.
  - destruct (scanning_big nunits s' fl1 lv prevp p c1 c2 O1 Hsc ltac:(lia) Hb) as (a1 & zq & a3 & Ea).
    kapply (runs_take base nunits a1 prevp zq p (um_size s' p) a3 s' fl1 lv O1 Ea); [lia|].
    intros r s'' (h & fl' & -> & Hbrk & Hk2 & O2 & Hc). right. exists fl1, fl', h. split_and!; [done|split; [done|lia]| |done|].
    + intros y Hy Hyb. destruct (Hk2 y Hy Hyb) as [-> ->]. by apply Hk.
    + destruct Hph as [(-> & -> & _)|(? & ? & E & ? & _)]; [by left|right]. split_and!; [done..|lia|done].
  - destruct (scanning_next nunits s' fl1 lv prevp p c1 c2 O1 Hsc Hb) as [[Epf Hsm]|(Hne & c1' & c2' & Hsc' & Hlt)].
    + kstep. kstep. rewrite (proj2 (Z.eqb_eq _ _) Epf). kstep.
      destruct Hph as [(-> & -> & ->)|(Hno & Hgr & Ebk & Hcv & ->)].
      * kapply runs_morecore; [done..|]. intros r z [(Hgr & -> & ->)|(Hgr & Er & Hr0 & Ebk & fl2 & Hinv2 & Hk2 & Hl2 & Hc2)].
        { kgo. left. done. }
        rewrite (proj2 (Z.eqb_neq _ _) Hr0). kstep. kstep. kgo.
        destruct (scanning_start nunits z fl2 lv (proj1 Hinv2)) as (c3 & Hsc3 & Hl3). rewrite <- Er in Hsc3.
        exists (length c3). split; [lia|]. right. exists fl2, [], c3. split_and!; done.
      * exfalso. destruct (cov_one fl1 (um_brk s) nunits) as (b & m & Hbm & H1 & H2).
        -- apply (uo_gaps _ _ _ _ O1).
        -- intros b m Hbm. by destruct (uo_blk _ _ _ _ O1 b m) as (_ & _ & ? & _); [apply elem_of_app; by left|].
        -- lia.
        -- intros y Hy. apply Hcv. right. unfold grow_units. destruct (Z.ltb_spec nunits 4096); lia.
        -- specialize (Hsm b m Hbm). lia.
    + kstep. kstep. rewrite (proj2 (Z.eqb_neq _ _) Hne). kstep. kstep.
      assert (p ≠ 0) as Hp0.
      { destruct Hsc' as (_ & _ & _ & _ & zq & _ & _ & Hq & _). pose proof (uo_base _ _ _ _ O1) as [? _].
        destruct (nodes_nonneg s' fl1 lv p zq O1 Hq). lia. }
      rewrite (proj2 (Z.eqb_neq _ _) Hp0). kgo.
      destruct Hph as [(-> & -> & ->)|(Hno & Hgr & Ebk & Hcv & ->)].
      * exists (length c2' + length fl + 3)%nat. split; [lia|]. left. split; [done|]. by exists c1', c2'.
      * exists (length c2'). split; [lia|]. right. exists fl1, c1', c2'. split_and!; done.
Qed.
End ops.
