(* ===== verification/UmallocSpec.v ===== *)
(** * malloc as its clients see it

    A program asks for memory, writes to it, frees it, and may grow its own memory
    with [sbrk] as well.  The contract: [malloc] hands out a range of the memory it has got from
    the kernel that is not in use; it asks for more exactly when no such range is
    long enough, and fails exactly when that is refused; what the program wrote
    stays until it frees the range. *)

From stdpp Require Import gmap.
From S2P Require Import Prelude DList Umalloc UmallocProof.

(** ** Programs *)

Abbreviation ptrs := (list (Z * Z)).   (* pointers, with the sizes asked for *)

Inductive um_op :=
  | UMalloc (n : Z)
  | UFree (j : nat)
  | UPut (j : nat) (off v w : Z)       (* two words at an offset of the [j]th range *)
  | USbrk (n : Z).                     (* 16 * n bytes *)

Definition uput_ok (n off : Z) : bool := (0 <=? off) && (off mod 16 =? 0) && (off + 16 <=? n).

Section client.
Context (base : Z) (grant : Z → Z → bool).

Definition exec_um (o : um_op) (c : ptrs) : M um_st ptrs :=
  match o with
  | UMalloc n => p ← malloc base grant n; mret (if p =? 0 then c else (p, n) :: c)
  | UFree j =>
      match c !! j with
      | Some (p, _) => free p;; mret (delete j c)
      | None => mret c
      end
  | UPut j off v w =>
      match c !! j with
      | Some (p, n) =>
          when (uput_ok n off) (modify (λ s, set_usize (fset (um_size s) (p + off) w) (set_uptr (fset (um_ptr s) (p + off) v) s)));;
          mret c
      | None => mret c
      end
  | USbrk n => sbrk grant (16 * n);; mret c
  end.

Fixpoint exec_ums (os : list um_op) (c : ptrs) : M um_st ptrs :=
  match os with
  | [] => mret c
  | o :: os' => c' ← exec_um o c; exec_ums os' c'
  end.

(** ** The contract *)

(** The headers a request takes, with its own. *)
Definition units (n : Z) : Z := (n + 15) / 16 + 1.
Definition blk_of (e : Z * Z) : Z * Z := (e.1 - 16, units e.2).

(** [uh_own] are the ranges malloc got from the kernel, as addresses and sizes in headers. *)
Record uheap := UHeap { uh_live : ptrs; uh_own : blks; uh_brk : Z; uh_mem : gmap Z (Z * Z) }.

(** [k] headers at [a] are malloc's and not in use. *)
Definition unused (h : uheap) (a k : Z) : Prop :=
  ∀ y, a ≤ y < a + 16 * k → cov (uh_own h) y ∧ ¬ cov (blk_of <$> uh_live h) y.

Definition enlarged (h : uheap) (n : Z) : uheap :=
  UHeap (uh_live h) ((uh_brk h, grow_units (units n)) :: uh_own h) (uh_brk h + 16 * grow_units (units n)) (uh_mem h).
Definition add_live (p n : Z) (h : uheap) : uheap := UHeap ((p, n) :: uh_live h) (uh_own h) (uh_brk h) (uh_mem h).

Inductive um_step : um_op → uheap → uheap → Prop :=
  | ustep_malloc n p h :
      unused h (p - 16) (units n) → um_step (UMalloc n) h (add_live p n h)
  | ustep_more n p h :
      (∀ a, ¬ unused h a (units n)) → grant (uh_brk h) (16 * grow_units (units n)) = true →
      unused (enlarged h n) (p - 16) (units n) → um_step (UMalloc n) h (add_live p n (enlarged h n))
  | ustep_refused n h :
      (∀ a, ¬ unused h a (units n)) → grant (uh_brk h) (16 * grow_units (units n)) = false →
      um_step (UMalloc n) h h
  | ustep_free j p n h :
      uh_live h !! j = Some (p, n) →
      um_step (UFree j) h (UHeap (delete j (uh_live h)) (uh_own h) (uh_brk h)
        (filter (λ e, ¬ (p - 16 ≤ e.1 < p - 16 + 16 * units n)) (uh_mem h)))
  | ustep_put j off v w p n h :
      uh_live h !! j = Some (p, n) → uput_ok n off = true →
      um_step (UPut j off v w) h (UHeap (uh_live h) (uh_own h) (uh_brk h) (<[p + off := (v, w)]> (uh_mem h)))
  | ustep_sbrk n h :
      um_step (USbrk n) h (if grant (uh_brk h) (16 * n)
        then UHeap (uh_live h) (uh_own h) (uh_brk h + 16 * n) (uh_mem h) else h)
  | ustep_none o h :
      match o with
      | UFree j => uh_live h !! j = None
      | UPut j off _ _ => ∀ p n, uh_live h !! j = Some (p, n) → uput_ok n off = false
      | _ => False
      end → um_step o h h.

Inductive um_steps : list um_op → uheap → uheap → Prop :=
  | usteps_nil h : um_steps [] h h
  | usteps_cons o os h h' h'' : um_step o h h' → um_steps os h' h'' → um_steps (o :: os) h h''.

Definition uop_ok (o : um_op) : Prop :=
  match o with UMalloc n => 0 ≤ n ≤ 2 ^ 31 - 32 | USbrk n => 0 ≤ n | _ => True end.

(** ** The simulation *)

Context (Hgrant : ∀ b n, grant b n = true → b + n ≤ 2 ^ 31).

Definition all_apart (l : blks) : Prop :=
  ∀ i j a n b m, l !! i = Some (a, n) → l !! j = Some (b, m) → i ≠ j → apart a n b m.

Record uclient (s : um_st) (fl : blks) (h : uheap) : Prop := {
  uc_inv : um_inv base s fl (blk_of <$> uh_live h);
  uc_brk : um_brk s = uh_brk h;
  uc_own : ∀ y, cov (uh_own h) y ↔ cov fl y ∨ cov (blk_of <$> uh_live h) y;
  uc_apart : all_apart (blk_of <$> uh_live h);
  uc_size : ∀ p n, (p, n) ∈ uh_live h → 0 ≤ n;
  uc_mem : ∀ a v w, uh_mem h !! a = Some (v, w) →
    um_ptr s a = v ∧ um_size s a = w ∧ ∃ p n, (p, n) ∈ uh_live h ∧ p ≤ a < p - 16 + 16 * units n;
}.

(** Before the first call, the list is not there yet. *)
Definition ustart (s : um_st) (h : uheap) : Prop :=
  um_freep s = 0 ∧ uh_live h = [] ∧ uh_own h = [] ∧ uh_mem h = ∅ ∧ um_brk s = uh_brk h ∧
  0 < base < um_brk s ∧ base mod 16 = 0 ∧ um_brk s mod 16 = 0 ∧ um_brk s ≤ 2 ^ 31.

Definition uok (s : um_st) (h : uheap) : Prop := ustart s h ∨ ∃ fl, uclient s fl h.

(** Free blocks and blocks in use share no address. *)
Lemma free_not_live s fl lv y : um_ok base s fl lv → cov fl y → cov lv y → False.
Proof. intros O (a & n & Ha & Hy) (b & m & Hb & Hy'). destruct (uo_apart _ _ _ _ O a n b m Ha Hb); lia. Qed.

Lemma disjoint_apart a n b m :
  1 ≤ n → 1 ≤ m → (∀ y, a ≤ y < a + 16 * n → b ≤ y < b + 16 * m → False) → apart a n b m.
Proof. intros Hn Hm H. unfold apart. specialize (H (Z.max a b)). lia. Qed.

Lemma units_pos n : 0 ≤ n → 1 ≤ units n ∧ n + 16 ≤ 16 * units n.
Proof. intros Hn. unfold units. dlia. Qed.

(** Nothing unused is as long as a request for which every free block is too short. *)
Lemma none_unused s fl h n :
  uclient s fl h → 0 ≤ n → (∀ b m, (b, m) ∈ fl → m < units n) → ∀ a, ¬ unused h a (units n).
Proof.
  intros C Hn Hsm a Hu. pose proof (uc_inv _ _ _ C) as [O _]. destruct (units_pos n Hn).
  destruct (cov_one fl a (units n)) as (b & m & Hb & ? & ?); [apply (uo_gaps _ _ _ _ O)| |lia| |].
  - intros b m Hb. by destruct (uo_blk _ _ _ _ O b m) as (_ & _ & ? & _); [apply elem_of_app; by left|].
  - intros y Hy. destruct (Hu y Hy) as [Ho Hl]. apply (uc_own _ _ _ C) in Ho as [?|?]; [done|by destruct Hl].
  - specialize (Hsm b m Hb). lia.
Qed.

(** The first part of [malloc] sets up the list. *)
Lemma runs_malloc_init s h :
  uok s h →
  runs (if um_freep s =? 0 then put_ptr base base;; modify (set_ufreep base);; put_size base 0 else mret tt) s
    (λ _ s', ∃ fl, uclient s' fl h).
Proof.
  intros [(Hf & Hl & Ho & Hm & Hb & Hbase & Hbm & Hbrm & Hlim)|[fl C]].
  - rewrite Hf. cbn [Z.eqb]. unfold put_ptr, put_size. kgo. exists [].
    split; cbn; rewrite ?Hl, ?Ho, ?Hm; try done.
    + split; [|cbn; lia]. split; cbn; try done.
      * lia.
      * exists 0. by left.
      * rewrite !fset_eq. done.
      * split; [by intros ? ? ?%elem_of_nil|done].
      * by intros a n ?%elem_of_nil.
      * by intros g v ?%elem_of_nil.
      * by intros a n g v ?%elem_of_nil.
    + intros y. pose proof (cov_nil y). tauto.
    + by intros p n ?%elem_of_nil.
  - pose proof (uc_inv _ _ _ C) as [O _].
    destruct (uo_freep _ _ _ _ O) as (nf & Hf). assert (um_freep s ≠ 0) as Hne.
    { pose proof (uo_base _ _ _ _ O) as [? _]. destruct (nodes_nonneg base s fl _ _ nf O Hf). lia. }
    rewrite (proj2 (Z.eqb_neq _ _) Hne). kgo. by exists fl.
Qed.

(** A block taken from the unused memory becomes live. *)
Lemma uclient_take s s' fl fl1 fl' h h1 a n :
  uclient s fl h → 0 ≤ n → um_inv base s' fl' ((a, units n) :: (blk_of <$> uh_live h)) → um_kept base fl1 s s' →
  (∀ y, cov fl1 y ↔ cov fl' y ∨ a ≤ y < a + 16 * units n) →
  (∀ y, cov fl1 y → cov (blk_of <$> uh_live h) y → False) →
  uh_live h1 = uh_live h → uh_mem h1 = uh_mem h → um_brk s' = uh_brk h1 →
  (∀ y, cov (uh_own h1) y ↔ cov fl1 y ∨ cov (blk_of <$> uh_live h) y) →
  unused h1 a (units n) ∧ uclient s' fl' (add_live (a + 16) n h1).
Proof.
  intros C Hn Hinv' Hk Hc Hdis El Em Eb Ho. pose proof Hinv' as [O' _]. destruct (units_pos n Hn) as [Hu1 Hu2].
  assert (blk_of (a + 16, n) = (a, units n)) as Eblk by (unfold blk_of; cbn; f_equal; lia).
  assert (∀ y, a ≤ y < a + 16 * units n → ¬ cov (blk_of <$> uh_live h) y) as Hnew.
  { intros y Hy Hy'. apply (Hdis y); [apply Hc; by right|done]. }
  split.
  { intros y Hy. rewrite El. split; [|by apply Hnew]. apply Ho. left. apply Hc. by right. }
  assert (∀ g v, (g, v) ∈ blk_of <$> uh_live h → apart a (units n) g v) as Hap.
  { intros g v Hv. apply disjoint_apart; [done| |].
    - by destruct (uo_blk _ _ _ _ O' g v) as (_ & _ & ? & _); [apply elem_of_app; right; by right|].
    - intros y Hy Hy'. apply (Hnew y Hy). by exists g, v. }
  split; cbn; rewrite ?El, ?Em, ?Eblk; try done.
  - intros y. rewrite Ho, Hc, cov_cons. tauto.
  - intros [|i] [|j] b m c k Hi Hj Hij; cbn in Hi, Hj; try done.
    + injection Hi as <- <-. apply Hap. by eapply list_elem_of_lookup_2.
    + injection Hj as <- <-. destruct (Hap b m); [by eapply list_elem_of_lookup_2|by right|by left].
    + eapply (uc_apart _ _ _ C i j); [done..|lia].
  - intros p k [[= -> ->]|Hp]%elem_of_cons; [done|by eapply uc_size].
  - intros y v w Hy. destruct (uc_mem _ _ _ C y v w Hy) as (E1 & E2 & p & k & Hp & Hr).
    assert (cov (blk_of <$> uh_live h) y) as Hcy.
    { exists (p - 16), (units k). split; [|lia]. apply list_elem_of_fmap. by exists (p, k). }
    destruct (Hk y) as [-> ->].
    + intros Hy'. by apply (Hdis y).
    + destruct Hcy as (g & v' & Hg & Hyg). destruct (uo_blk _ _ _ _ O' g v') as [? _]; [apply elem_of_app; right; by right|]. lia.
    + split_and!; [done..|]. exists p, k. split; [by right|done].
Qed.

Lemma um_kept_refl fl s : um_kept base fl s s.
Proof. by intros y _ _. Qed.

(** [malloc] as a step. *)
Lemma sim_malloc n s h :
  uok s h → 0 ≤ n ≤ 2 ^ 31 - 32 →
  runs (exec_um (UMalloc n) (uh_live h)) s (λ c s', ∃ h', um_step (UMalloc n) h h' ∧ uh_live h' = c ∧ uok s' h').
Proof.
  intros Hok Hn. cbn [exec_um]. kstep. unfold malloc.
  kstep. kstep. kstep. kapply (runs_malloc_init s h Hok). intros u s1 (fl & C).
  pose proof (uc_inv _ _ _ C) as Hinv. pose proof Hinv as [O Hbk].
  assert (u32 ((n + HDR - 1) / HDR + 1) = units n) as ->.
  { unfold HDR, units, u32. replace (n + 16 - 1) with (n + 15) by lia. apply Z.mod_small. dlia. }
  destruct (units_pos n ltac:(lia)) as [Hu1 Hu2]. assert (units n < 2 ^ 27) by (unfold units; dlia).
  kstep. kstep. kstep. kstep. kapply (runs_malloc_scan base grant Hgrant (units n) s1 fl _ Hinv ltac:(lia)).
  intros r s' [(-> & -> & Hsm & Hg)|(fl1 & fl' & a & -> & Hinv' & Hk & Hc & Hcase)].
  - kgo. exists h. split_and!; [|done|by right; exists fl].
    apply ustep_refused; [eapply none_unused; [done|lia|done]|by rewrite <- (uc_brk _ _ _ C)].
  - pose proof Hinv' as [O' _]. destruct (uo_blk _ _ _ _ O' a (units n)) as (Ha & _); [apply elem_of_app; right; by left|].
    pose proof (uo_base _ _ _ _ O) as [? _]. rewrite (proj2 (Z.eqb_neq (a + 16) 0)) by lia. kgo.
    pose proof (uc_own _ _ _ C) as Ho. replace (a + 16 - 16) with a in * by lia.
    destruct Hcase as [(-> & Eb)|(Hsm & Hg & Eb & Hc1)].
    + destruct (uclient_take s1 s' fl fl fl' h h a n C) as [Hun C']; try done; [lia|..].
      * intros y. by apply (free_not_live s1).
      * by rewrite Eb, (uc_brk _ _ _ C).
      * exists (add_live (a + 16) n h). split_and!; [|done|by right; exists fl'].
        apply ustep_malloc. by replace (a + 16 - 16) with a by lia.
    + destruct (uclient_take s1 s' fl fl1 fl' h (enlarged h n) a n C) as [Hun C']; try done; [lia|..].
      * intros y [Hy|Hy]%Hc1 Hl; [by eapply (free_not_live s1)|]. destruct Hl as (g & v & Hgv & Hl).
        destruct (uo_blk _ _ _ _ O g v) as (_ & _ & _ & ?); [apply elem_of_app; by right|]. lia.
      * cbn. by rewrite Eb, (uc_brk _ _ _ C).
      * intros y. cbn [uh_own enlarged]. rewrite cov_cons, Hc1, Ho, <- (uc_brk _ _ _ C). tauto.
      * exists (add_live (a + 16) n (enlarged h n)). split_and!; [|done|by right; exists fl'].
        apply ustep_more; [eapply none_unused; [done|lia|done]|by rewrite <- (uc_brk _ _ _ C)|].
        by replace (a + 16 - 16) with a by lia.
Qed.

Lemma um_ok_sub s fl lv lv' : um_ok base s fl lv → (∀ e, e ∈ lv' → e ∈ lv) → um_ok base s fl lv'.
Proof.
  intros O Hs. destruct O. split; try done.
  - intros a n [Ha|Ha]%elem_of_app; apply uo_blk, elem_of_app; auto.
  - intros g u Hg. apply uo_live; auto.
  - intros a n g u Ha Hg. apply uo_apart; auto.
Qed.

Lemma live_delete (h : uheap) j p n e :
  uh_live h !! j = Some (p, n) → e ∈ delete j (uh_live h) → ∃ i, i ≠ j ∧ uh_live h !! i = Some e.
Proof.
  intros Hj (i & Hi)%list_elem_of_lookup. destruct (decide (i < j)%nat) as [Hlt|Hge].
  - exists i. rewrite list_lookup_delete_lt in Hi by done. split; [lia|done].
  - exists (S i). rewrite list_lookup_delete_ge in Hi by lia. split; [lia|done].
Qed.

Lemma live_blk (h : uheap) i p n :
  uh_live h !! i = Some (p, n) → (blk_of <$> uh_live h) !! i = Some (p - 16, units n).
Proof. intros Hi. by rewrite list_lookup_fmap, Hi. Qed.

Lemma live_delete_blk (h : uheap) j p n e :
  uh_live h !! j = Some (p, n) → e ∈ blk_of <$> delete j (uh_live h) →
  ∃ i, i ≠ j ∧ (blk_of <$> uh_live h) !! i = Some e.
Proof.
  intros Hj (e0 & -> & He)%list_elem_of_fmap. destruct (live_delete h j p n e0 Hj He) as (i & Hij & Hi).
  exists i. split; [done|]. by rewrite list_lookup_fmap, Hi.
Qed.

Lemma cov_delete (h : uheap) j p n y :
  uh_live h !! j = Some (p, n) →
  cov (blk_of <$> uh_live h) y ↔ p - 16 ≤ y < p - 16 + 16 * units n ∨ cov (blk_of <$> delete j (uh_live h)) y.
Proof.
  intros Hj. rewrite <- (take_drop_middle _ _ _ Hj) at 1.
  rewrite delete_take_drop, !fmap_app, fmap_cons, !cov_app. unfold blk_of at 2. cbn [fst snd]. rewrite cov_cons. tauto.
Qed.

Lemma all_apart_delete l j : all_apart l → all_apart (delete j l).
Proof.
  intros H i k a n b m Hi Hk Hik. rewrite !list_lookup_delete in Hi, Hk. eapply H; [done..|].
  repeat case_decide; lia.
Qed.

(** [free] as a step. *)
Lemma sim_free j s h :
  uok s h →
  runs (exec_um (UFree j) (uh_live h)) s (λ c s', ∃ h', um_step (UFree j) h h' ∧ uh_live h' = c ∧ uok s' h').
Proof.
  intros Hok. cbn [exec_um]. destruct (uh_live h !! j) as [[p n]|] eqn:Hj; [|kgo; exists h; by split_and!; [constructor| |]].
  destruct Hok as [(_ & Hl & _)|[fl C]]; [by rewrite Hl in Hj|].
  pose proof (uc_inv _ _ _ C) as [O Hbk]. pose proof (live_blk h j p n Hj) as Hb.
  assert ((p - 16, units n) ∈ blk_of <$> uh_live h) as Hin by (by eapply list_elem_of_lookup_2).
  assert (∀ e, e ∈ blk_of <$> delete j (uh_live h) → e ∈ blk_of <$> uh_live h) as Hsub.
  { intros e He. destruct (live_delete_blk h j p n e Hj He) as (i & _ & Hi). by eapply list_elem_of_lookup_2. }
  replace p with (p - 16 + 16) at 1 by lia. kstep.
  kapply (runs_free base (p - 16) (units n) s fl (blk_of <$> delete j (uh_live h))).
  { by eapply um_ok_sub. }
  { split; [apply (uo_blk _ _ _ _ O), elem_of_app; by right|]. intros g u Hg.
    destruct (live_delete_blk h j p n _ Hj Hg) as (i & Hij & Hi). eapply (uc_apart _ _ _ C j i); [done..|lia]. }
  { by apply (uo_live _ _ _ _ O). }
  { intros a m Ha. by apply (uo_apart _ _ _ _ O). }
  intros _ s' (Eb & fl' & O' & Hk & _ & Hc). kgo. eexists. split_and!; [by apply (ustep_free j p n)|done|]. right. exists fl'.
  split; cbn.
  - split; [done|lia].
  - by rewrite Eb, (uc_brk _ _ _ C).
  - intros y. rewrite (uc_own _ _ _ C), Hc, (cov_delete h j p n y Hj). tauto.
  - rewrite list_fmap_delete. apply all_apart_delete, (uc_apart _ _ _ C).
  - intros q k Hq. destruct (live_delete h j p n _ Hj Hq) as (i & _ & Hi). eapply (uc_size _ _ _ C q). by eapply list_elem_of_lookup_2.
  - intros y v w [Hy Hny]%map_lookup_filter_Some. cbn in Hny.
    destruct (uc_mem _ _ _ C y v w Hy) as (E1 & E2 & q & k & Hq & Hr).
    assert ((q, k) ∈ delete j (uh_live h)) as Hq'.
    { rewrite <- (take_drop_middle _ _ _ Hj) in Hq. rewrite delete_take_drop. apply elem_of_app in Hq as [Hq|Hq]; apply elem_of_app; [by left|].
      apply elem_of_cons in Hq as [[= -> ->]|Hq]; [lia|by right]. }
    assert (cov (blk_of <$> delete j (uh_live h)) y) as Hcy.
    { exists (q - 16), (units k). split; [|lia]. apply list_elem_of_fmap. by exists (q, k). }
    destruct (Hk y) as [-> ->].
    + intros Hy'. by eapply (free_not_live s').
    + destruct Hcy as (g & v' & Hg & Hyg). destruct (uo_blk _ _ _ _ O' g v') as [? _]; [apply elem_of_app; by right|]. lia.
    + split_and!; [done..|]. by exists q, k.
Qed.

(** Words inside a block in use, behind its header, are no header. *)
Lemma um_ok_write s s' fl lv g u a :
  um_ok base s fl lv → (g, u) ∈ lv → (∀ b m, (b, m) ∈ lv → (b, m) = (g, u) ∨ apart g u b m) →
  g < a < g + 16 * u → um_freep s' = um_freep s → um_brk s' = um_brk s →
  (∀ y, y ≠ a → um_ptr s' y = um_ptr s y ∧ um_size s' y = um_size s y) → um_ok base s' fl lv.
Proof.
  intros O Hg Hlv Ha Ef Eb Hw. pose proof O as [H1 H2 H3 H4 H5 H6 H7 H8].
  assert (ring s' ((base, 0) :: fl) base) as Hr.
  { eapply ring_ext; [|exact H4]. intros b m Hb. cut (b ≠ a); [intros Hne; by destruct (Hw b Hne)|].
    apply elem_of_cons in Hb as [[= -> ->]|Hb].
    - destruct (H6 g u) as [? _]; [apply elem_of_app; by right|]. lia.
    - destruct (H6 b m) as (_ & _ & ? & _); [apply elem_of_app; by left|]. destruct (H8 b m g u Hb Hg); lia. }
  split; rewrite ?Ef, ?Eb; try done.
  - intros b m Hb. unfold blk_ok. rewrite Eb. by apply H6.
  - intros b m Hb. destruct (decide (b = a)) as [->|Hne]; [|destruct (Hw b Hne) as [_ ->]; by apply H7].
    destruct (H6 a m) as (_ & _ & ? & _); [apply elem_of_app; by right|].
    destruct (Hlv a m Hb) as [[= -> ->]|Hap]; [lia|destruct Hap; lia].
Qed.

(** A write to a range in use as a step. *)
Lemma sim_put j off v w s h :
  uok s h →
  runs (exec_um (UPut j off v w) (uh_live h)) s (λ c s', ∃ h', um_step (UPut j off v w) h h' ∧ uh_live h' = c ∧ uok s' h').
Proof.
  intros Hok. cbn [exec_um]. destruct (uh_live h !! j) as [[p n]|] eqn:Hj;
    [|kgo; exists h; split_and!; [|done..]; constructor; intros p n Hp; congruence].
  destruct (uput_ok n off) eqn:Hput;
    [|kgo; exists h; split_and!; [|done..]; constructor; intros p' n' Hp'; congruence].
  destruct Hok as [(_ & Hl & _)|[fl C]]; [by rewrite Hl in Hj|].
  pose proof (uc_inv _ _ _ C) as [O Hbk]. pose proof (live_blk h j p n Hj) as Hb.
  assert ((p, n) ∈ uh_live h) as Hin by (by eapply list_elem_of_lookup_2).
  assert ((p - 16, units n) ∈ blk_of <$> uh_live h) as Hin' by (by eapply list_elem_of_lookup_2).
  destruct (units_pos n (uc_size _ _ _ C p n Hin)) as [Hu1 Hu2].
  unfold uput_ok in Hput. rewrite !andb_true_iff, !Z.leb_le in Hput. destruct Hput as [[Ho1 Ho2] Ho3].
  kgo. eexists. split_and!; [apply (ustep_put j off v w p n); [done|unfold uput_ok; zify_bool; lia]|done|]. right. exists fl.
  split; cbn [uh_live uh_own uh_brk uh_mem]; [|apply C..|].
  - split; [|done]. eapply (um_ok_write s _ fl _ (p - 16) (units n) (p + off)); try done; [|lia|].
    + intros b m (i & Hi)%list_elem_of_lookup. destruct (decide (i = j)) as [->|Hij]; [left; congruence|right].
      by eapply (uc_apart _ _ _ C j i).
    + intros y Hy. cbn. by rewrite !fset_ne.
  - intros a x z Ha. apply lookup_insert_Some in Ha as [[<- [= -> ->]]|[Hne Ha]]; cbn.
    + rewrite !fset_eq. split_and!; [done..|]. exists p, n. split; [done|lia].
    + rewrite !fset_ne by done. by apply (uc_mem _ _ _ C).
Qed.

(** Growth of the program's own memory as a step. *)
Lemma sim_sbrk n s h :
  uok s h → 0 ≤ n →
  runs (exec_um (USbrk n) (uh_live h)) s (λ c s', ∃ h', um_step (USbrk n) h h' ∧ uh_live h' = c ∧ uok s' h').
Proof.
  intros Hok Hn. cbn [exec_um]. unfold sbrk. kstep. kstep. kstep.
  assert (um_brk s = uh_brk h) as Eb by (destruct Hok as [(_&_&_&_&?&_)|[fl C]]; [done|apply C]).
  change (id s) with s. destruct (grant (um_brk s) (16 * n)) eqn:Hg; kgo; eexists; (split; [apply ustep_sbrk|]);
    rewrite <- Eb, Hg; [|done]. split; [done|].
  specialize (Hgrant _ _ Hg). destruct Hok as [(?&?&?&?&?&?&?&?&?)|[fl C]]; [left|right; exists fl].
  - unfold ustart. cbn. split_and!; try done; dlia.
  - pose proof (uc_inv _ _ _ C) as [[H1 [H2 H2'] H3 H4 H5 H6 H7 H8] Hbk]. destruct C as [_ _ ? ? ? ?].
    split; try done. split; [|cbn; lia].
    assert (ring (set_ubrk (um_brk s + 16 * n) s) ((base, 0) :: fl) base) as Hr by (by eapply ring_ext; [|exact H4]).
    split; try done.
    + cbn. dlia.
    + intros a m Ha. destruct (H6 a m Ha) as (? & ? & ? & ?). unfold blk_ok. cbn. lia.
Qed.

Lemma sim_umalloc o s h :
  uok s h → uop_ok o →
  runs (exec_um o (uh_live h)) s (λ c s', ∃ h', um_step o h h' ∧ uh_live h' = c ∧ uok s' h').
Proof. intros Hok Ho. destruct o; [by apply sim_malloc|by apply sim_free|by apply sim_put|by apply sim_sbrk]. Qed.

Lemma sim_umallocs os s h :
  uok s h → Forall uop_ok os →
  runs (exec_ums os (uh_live h)) s (λ c s', ∃ h', um_steps os h h' ∧ uh_live h' = c ∧ uok s' h').
Proof.
  intros Hok Hos. revert s h Hok. induction Hos as [|o os Ho _ IH]; intros s h Hok; cbn [exec_ums].
  - kgo. exists h. split_and!; [constructor|done..].
  - kstep. kapply (sim_umalloc o s h Hok Ho). intros c s' (h1 & Hs & <- & Hok1).
    kapply (IH s' h1 Hok1). intros c' s'' (h2 & Hs2 & Hl & Hok2). exists h2. split_and!; [by econstructor|done..].
Qed.

(** What a program finds in its ranges, and that no two of them meet. *)
Lemma uok_client s h :
  uok s h →
  (∀ a v w, uh_mem h !! a = Some (v, w) → um_ptr s a = v ∧ um_size s a = w) ∧
  (∀ i j p n q m, uh_live h !! i = Some (p, n) → uh_live h !! j = Some (q, m) → i ≠ j → p + n ≤ q - 16 ∨ q + m ≤ p - 16) ∧
  (∀ p n, (p, n) ∈ uh_live h → p mod 16 = 0 ∧ base + 16 < p ∧ p + n ≤ uh_brk h).
Proof.
  intros [(_ & Hl & _ & Hm & _)|[fl C]].
  - rewrite Hl, Hm. split_and!; [by intros a v w Ha|by intros i j p n q m Hi|by intros p n ?%elem_of_nil].
  - pose proof (uc_inv _ _ _ C) as [O _]. split_and!.
    + intros a v w Ha. by destruct (uc_mem _ _ _ C a v w Ha) as (-> & -> & _).
    + intros i j p n q m Hi Hj Hij. pose proof (uc_apart _ _ _ C i j _ _ _ _ (live_blk _ _ _ _ Hi) (live_blk _ _ _ _ Hj) Hij) as [?|?];
        pose proof (units_pos n (uc_size _ _ _ C p n ltac:(by eapply list_elem_of_lookup_2)));
        pose proof (units_pos m (uc_size _ _ _ C q m ltac:(by eapply list_elem_of_lookup_2))); lia.
    + intros p n Hp. destruct (units_pos n (uc_size _ _ _ C p n Hp)).
      destruct (uo_blk _ _ _ _ O (p - 16) (units n)) as (? & ? & ? & ?).
      { apply elem_of_app. right. apply list_elem_of_fmap. by exists (p, n). }
      rewrite <- (uc_brk _ _ _ C). dlia.
Qed.
End client.


(** A process with memory up to 16384, which the kernel lets grow up to 2 GiB. *)
Definition um_demo : um_st := UmSt (λ _, 0) (λ _, 0) 0 16384.
Definition grant_demo (b n : Z) : bool := (0 <=? b + n) && (b + n <=? 2 ^ 31).

Definition um_prog : list um_op := [UMalloc 100; UMalloc 20; UFree 1; UPut 0 0 7 8; UMalloc 90000].


(** [free] of a block when the list holds [base] alone. *)
Lemma runs_free_alone base h s :
  um_freep s = base → um_ptr s base = base → um_size s base = 0 → 0 < base < h → 1 ≤ um_size s h →
  runs (free (h + 16)) s (λ _ s', um_freep s' = base ∧ um_brk s' = um_brk s ∧ um_size s' = um_size s ∧
    um_ptr s' base = h ∧ um_ptr s' h = base).
Proof.
  intros Hf Hp Hz Hb Hs. unfold free. replace (h + 16 - HDR) with h by (unfold HDR; lia). kstep.
  unfold free_find. kstep. kstep. change (id s) with s. rewrite Hf.
  replace (um_fuel s) with (S (Nat.pred (um_fuel s))) by (unfold um_fuel; lia). cbn [loop]. kstep. kstep. kstep.
  rewrite Hp, (proj2 (Z.ltb_ge h base)), andb_false_r, Z.leb_refl, (proj2 (Z.ltb_lt base h)) by lia. kgo.
  rewrite Hp. unfold link, put_ptr, HDR. rewrite (proj2 (Z.eqb_neq (h + um_size s h * 16) base)) by lia. kgo.
  rewrite Hz, (proj2 (Z.eqb_neq (base + 0 * 16) h)) by lia. kgo.
  rewrite fset_eq, fset_ne, fset_eq by lia. done.
Qed.

Lemma runs_morecore_huge base grant s :
  um_freep s = base → um_ptr s base = base → um_size s base = 0 → 0 < base < um_brk s → grant (um_brk s) 16 = true →
  runs (morecore grant (2 ^ 28 + 1)) s (λ p s', p = base ∧ um_freep s' = base ∧ um_brk s' = um_brk s + 16 ∧
    um_ptr s' base = um_brk s ∧ um_ptr s' (um_brk s) = base ∧ um_size s' (um_brk s) = 2 ^ 28 + 1).
Proof.
  intros Hf Hp Hz Hb Hg. unfold morecore, sbrk. change (if 2 ^ 28 + 1 <? 4096 then 4096 else 2 ^ 28 + 1) with (2 ^ 28 + 1). cbv zeta.
  change (i32 ((2 ^ 28 + 1) * HDR)) with 16. kstep. kstep. kstep. change (id s) with s. rewrite Hg. kstep. kstep. kstep.
  rewrite (proj2 (Z.eqb_neq (um_brk s) (-1))) by lia. unfold put_size. kstep. kstep. kstep.
  change (u32 (2 ^ 28 + 1)) with (2 ^ 28 + 1). change HDR with 16.
  kapply (runs_free_alone base); cbn [um_freep um_ptr um_size um_brk set_usize set_ubrk].
  - done.
  - done.
  - by rewrite fset_ne by lia.
  - done.
  - rewrite fset_eq. lia.
  - intros _ s' (H1 & H2 & H3 & H4 & H5). kgo. by rewrite H3, fset_eq.
Qed.

(** A request whose size in bytes, rounded up, does not fit 32 bits is granted although the
    process gets 16 bytes: [sbrk] takes the size as an [int].  The pointer returned is the end of
    the process's memory, and the header claims 2^28 + 1 headers. *)
Theorem malloc_huge base grant s :
  um_freep s = 0 → 0 < base < um_brk s → grant (um_brk s) 16 = true →
  runs (malloc base grant (2 ^ 32 - 1)) s (λ p s', p = um_brk s' ∧ um_brk s' = um_brk s + 16 ∧
    um_size s' (p - 16) = 2 ^ 28 + 1).
Proof.
  intros Hf Hb Hg. unfold malloc. kstep. kstep. rewrite Hf. cbn [Z.eqb]. unfold put_ptr, put_size.
  change (u32 ((2 ^ 32 - 1 + HDR - 1) / HDR + 1)) with (2 ^ 28 + 1). kstep. kgo. rewrite fset_eq.
  set (s1 := set_usize _ _). unfold malloc_scan. kstep. kstep. change (id s1) with s1.
  replace (um_fuel s1) with (S (S (Nat.pred (Nat.pred (um_fuel s1))))) by (unfold um_fuel; lia).
  cbn [loop]. kstep. kstep. kstep. replace (um_size s1 base) with 0 by (cbn; by rewrite fset_eq).
  change (2 ^ 28 + 1 <=? 0) with false. kif. kstep. kstep. change (um_freep s1) with base. rewrite Z.eqb_refl. kstep.
  kapply (runs_morecore_huge base); [done|by cbn; rewrite fset_eq..|done|done|].
  intros p s' (-> & H1 & H2 & H3 & H4 & H5). rewrite (proj2 (Z.eqb_neq base 0)) by lia. kstep. kstep. kstep.
  rewrite H3. change (um_brk s1) with (um_brk s) in *. kstep. kstep. kstep. rewrite H5.
  change (2 ^ 28 + 1 <=? 2 ^ 28 + 1) with true. change (2 ^ 28 + 1 =? 2 ^ 28 + 1) with true. unfold put_ptr. kgo.
  unfold HDR. rewrite H2. replace (um_brk s + 16 - 16) with (um_brk s) by lia. done.
Qed.

Lemma malloc_huge_witness :
  result 0 (malloc 8000 grant_demo (2 ^ 32 - 1)) um_demo = 16400 ∧
  result 0 (malloc 8000 grant_demo (2 ^ 32 - 1)) um_demo = um_brk (state (malloc 8000 grant_demo (2 ^ 32 - 1)) um_demo).
Proof.
  destruct (runs_result _ _ _ _ 0 eq_refl (malloc_huge 8000 grant_demo um_demo eq_refl ltac:(cbn; lia) eq_refl)) as (H1 & H2 & _).
  split; [|exact H1]. rewrite H1, H2. reflexivity.
Defined.
